(* ===== verification/_CoqProject ===== *)
-Q . S2P
Prelude.v
CString.v
AddrSpec.v
Socket.v
Float32.v
DataBuffer.v
PacketQueue.v
Crc.v
Packet.v
Streamer.v
DefaultPacket.v
HttpPacket.v
HttpStreamer.v
HttpSafety.v
HttpRoundtrip.v
HttpChunked.v
AdvancePacket.v
Framing.v
ChannelPool.v
Connection.v
TcpConnection.v
Direct.v
DirectDelivery.v
DirectConnection.v
DirectReplies.v
DirectSafety.v
TcpComponent.v
Transport.v
TransportTcp.v
Md5.v
Base64.v
Json.v
JsonRoundtrip.v
CircularQueue.v
ThreadPool.v
ThreadPoolInv.v
ThreadPoolSafety.v
ThreadPoolLiveness.v
StringUtil.v
ModuleManager.v
ModuleInit.v
ModuleLife.v
Worker.v
OptionParser.v
Logger.v
LogLayout.v
LogConfig.v
LogFile.v
