(* ===== verification/Prelude.v ===== *)
(** * Verification of agent_engine: engine, network layer and utilities

    agent_engine runs a worker process whose work is done by modules that
    depend on each other; the module manager of src/agent_engine/engine/common/
    loads and unloads them in order.  anet
    (src/agent_engine/network/anet/) is the library through which the
    engine's processes talk to each other: packets are framed on TCP
    connections, requests are matched to their replies through channels, and
    an HTTP streamer speaks HTTP over the same connections.  Both stand on the
    utilities of src/agent_engine/util/, above all a thread pool, and log
    through src/agent_engine/alog/.  This development models the core of them as Rocq functions that follow the
    C++ code statement by statement, and proves what makes it correct.

    ** The program

    - [main] makes a worker, which reads its options, initialises the module
      manager from the registered creators, starts all modules, and runs until
      a signal or a call of [Stop]; then it stops and destroys the manager.
    - A user posts a packet to a [Connection], which gives it a channel and
      queues it.
    - When the socket can be written, [TCPConnection::writeData] pops packets,
      lets the streamer encode them into a [DataBuffer] and writes that to
      the [Socket].
    - When it can be read, [TCPConnection::readData] reads into a
      [DataBuffer] and drives the streamer's [processData], which decodes one
      packet at a time; [Connection::handlePacket] finds the channel of the
      request and calls its handler.
    - A timer calls [checkTimeout], which answers expired requests with
      control packets; closing answers all of them.
    - [TCPComponent] owns the socket and the connection, connects and
      reconnects, and tells its I/O worker when it enters or leaves the epoll
      set.
    - [Transport] makes components for connecting and listening, its workers
      hand them the events of epoll, its timer checks them, and the reference
      counters of components decide when they are freed.
    - Clients push work items to a [ThreadPool], which waits when its queue is
      full, and its threads process them; [Stop] lets them finish or drops
      what is queued.

    ** The files, in the order of their dependencies

    - [Prelude]: fixed-width integers, big-endian byte strings, failure,
      shared lemmas, tactics and the hint database [anet].
    - [CString]: the string functions of the C library that the code calls
      (strcasecmp, atoi, sscanf, printing of integers and others).
    - [AddrSpec]: addrspec.h/.cpp, specifications such as tcp:host:port.
    - [Socket]: socket.h/.cpp, filecontrol.cpp and the epoll calls of
      epollsocketevent.cpp, as programs of a state monad over a kernel that
      answers from a list.
    - [Float32]: the single-precision arithmetic of [DataBuffer::expand].
    - [DataBuffer]: databuffer.h; a memory block with two cursors, related by
      [rep] to the bytes it holds.
    - [PacketQueue]: packetqueue.cpp and orderedpacketqueue.cpp; intrusive
      lists on a heap of packets, related by [qrep] to lists.
    - [Crc]: crc.h/.cpp, the three implementations of CRC-32C.
    - [Packet]: packet.h/.cpp, controlpacket.*, connectionpriority.h and
      timeutil.cpp; the virtual functions of a packet are the class [IPacket].
    - [Streamer]: streamingcontext.*, defaultpacketstreamer.* and the reading
      loop of tcpconnection.cpp; the class [PacketCodec] is what the streamer
      needs from a packet type.
    - [DefaultPacket]: defaultpacket.* and its factory, an instance of both
      classes.
    - [HttpPacket], [HttpStreamer]: httppacket.*, httpstreamer.*,
      httpstreamingcontext.*, aneterror.*.  [HttpSafety], [HttpRoundtrip] and
      [HttpChunked] hold their theorems.
    - [AdvancePacket]: advancepacket.h, a packet type over another one, again
      an instance of both classes.
    - [Framing]: the theorems on streamer and packet types together.
    - [ChannelPool]: channel.*, channelpool.*; doubly linked lists and a map
      on a heap of channels.
    - [Connection], [TcpConnection]: connection.*, tcpconnection.*; what a
      connection does to the outside is a trace of events.
    - [Direct], [DirectConnection]: directpacket.*, directplaceholder.h,
      directstreamingcontext.h, directpacketstreamer.* and
      directtcpconnection.*; a second framing whose payloads go between the
      socket and the memory of the user.  [DirectDelivery] proves the reader
      against the class [Receiver], [DirectReplies] makes the connection an
      instance, [DirectSafety] treats input of any kind.
    - [TcpComponent]: iocomponent.*, tcpcomponent.*; the state machine over
      socket and connection.
    - [Transport]: ioworker.*, transport.* and the counters of
      iocomponent.cpp, over any kind of component with the interface
      [Component].  [TransportTcp]: tcpacceptor.* and the rest of
      transport.cpp, and the instance of the interface for TCP components and
      acceptors.
    - [Md5], [Base64]: util/legacy/md5.cpp and util/legacy/base64.cpp, the
      digest and the codec of the utilities.
    - [Json]: util/legacy/json_string_enhanced.cpp with the quoting of
      string_conversion.cpp and the encoding of string_utf8.cpp; the parser
      and the printer on strings.  [JsonRoundtrip] holds the grammar of
      numbers and the theorems on the two together.

    - [CircularQueue]: circular_queue.h and workitem_queue.h; the class
      [WorkItemQueue] is what the pool needs from a queue, with the laws of
      [WorkItemQueueLaws], and both queues are instances.
    - [ThreadPool]: thread_pool.h/.cc, workitem.h and the condition of lock.h;
      the worker threads, any number of clients and the events between them as
      steps over a shared state.  [ThreadPoolInv] holds the invariants,
      [ThreadPoolSafety] what holds in every reachable state,
      [ThreadPoolLiveness] what the threads get done.
    - [StringUtil]: string_util.h/.cc and string_tokenizer.h/.cc.
    - [ModuleManager]: base_module.*, module_manager.*, creator_factory.h and
      the macros of common.h; modules are objects on a heap.  Loading and
      unloading are shown to be walks of one kind, and the steps of a walk.
      [ModuleInit]: what [Init] makes of the creators.  [ModuleLife]: starting,
      stopping, circles, failures and destruction.
    - [Worker]: worker_base.* and main.cc over the module manager.
    - [OptionParser]: option_parser.*, command_line_parameter.* and the options
      of a worker.
    - [Logger]: the loggers of src/agent_engine/alog/, objects on a heap in a
      tree that follows the dots of their names.  [LogLayout]: how an event is
      turned into text.  [LogConfig]: properties.*, and the part of
      configurator.cpp that sets up the loggers.  [LogFile]: the [FileAppender]
      of Appender.cpp, with its cache, rotation and history of files.

    A definition has the name of the C++ function it translates where Rocq
    allows it; a long function is split at its blocks, and a loop is a
    recursive function of its own.

    ** What the theorems show

    - Requests and replies: in every state a client connection can reach, each
      request that asked for an answer has been answered exactly once or is
      outstanding; closing answers all; the number in flight respects the
      queue limit; posting, time-outs and closing never follow a dangling
      pointer ([TcpConnection]).  The channel pool is memory safe, hands out
      fresh ids, finds the channel of a reply and times out exactly the
      expired requests ([ChannelPool]).
    - Bytes: packets encoded by the sender come out of the receiver unchanged,
      in order and once, however the stream is cut; a corrupted advance packet
      is rejected, a bad header breaks the stream, a failed encoding leaves no
      trace ([Framing]); [writeData] puts exactly the frames on the socket
      through partial writes ([TcpConnection]).
    - Direct packets: writing sends exactly the frames, over partial writes of
      a payload; replies are delivered with their payloads in the memory of
      their placeholders, however the stream is cut; a peer can change no
      other memory; a reconnection resumes a half-written payload.
    - HTTP: the parser is safe and terminates on any input, written messages
      are read back, chunked bodies are decoded to their chunks, and headers
      behave as a case-insensitive map.
    - Buffers and queues: [DataBuffer] refines a byte queue, its integer and
      string codecs round-trip, [expand] makes room without overflow; the
      queues are first in first out, sorted by expiry, and hand out exactly
      the expired packets.
    - CRC-32C: the three implementations agree with the bitwise division and
      any one-byte error is detected.
    - Sockets and components: no descriptor is leaked or closed twice; a
      component's state, epoll registration, worker commands and connection
      agree in every reachable state; it follows its state machine; it gives
      up reconnecting and then has answered everyone; an address
      specification means its fields.
    - The transport: the counter of a component is the number of its
      references in every state that users, worker and timer can reach
      together, nobody uses a freed component, the worker's list is the epoll
      set, and closing frees whatever no user holds.
    - MD5 and Base64: the digest of a stream in pieces and of a whole message
      is that of RFC 1321, the unrolled rounds are the loop; both Base64
      encoders agree, both decoders give back what was encoded, and the one on
      streams throws exactly on the texts that are not well formed.
    - JSON: the parser ends on every text with a well-typed value or one of two
      exceptions, numbers have the documented format but for the lonely point,
      and what is printed is parsed back.
    - The thread pool: in every interleaving of workers and clients each item
      that was accepted is processed and destroyed once, dropped by a [Stop]
      or still there; no step fails, no wake-up is lost, the workers empty the
      queue and [Stop] joins them; the circular queue is a bounded deque.
    - Modules: [Init] binds what the classes declare; whatever the modules
      answer, a loaded module's dependencies are loaded, and they are loaded
      and unloaded in that order, each by one call; [Start] and [Stop] always
      return and succeed when nothing stands against it; circles are refused.
      The worker starts once and stops once, and leaves no module loaded.
    - Options and strings: the command line means its settings, [Split] and
      [Join] are inverse, replacing and tokens are what splitting gives, and
      numbers, hexadecimal texts and vectors are read as they are printed.
    - Logging: the loggers form the tree of their names, a level reaches
      exactly the loggers that inherit it, and a message exactly the appenders
      of the loggers it is passed on to; a pattern means its expansion; a
      configuration gives every logger that it names what it says, or ends
      with an error in the property that is wrong; nothing that a file appender
      accepts is lost on the way through its cache and its rotations.
    - A few theorems pin down defects: [setCapacity(0)] dangles, short advance
      frames read out of bounds, [findBytes] misses high bytes, [expand] is
      short beyond 24 bits, the limit on accepted connections can be exceeded,
      descriptor 0 is taken for a connection to itself, digests on big-endian
      hosts and of messages beyond 4 GiB have no result, a negative message
      size of a direct packet is followed by a wrong cast, and a recycled
      channel keeps its placeholder; a pool that failed throws where it should
      refuse, and its [Stop] can wait for ever or run twice; modules that
      depend on each other are never destroyed, a failed [Start] is never
      undone, a [Stop] before [Run] is forgotten and the numbers of threads
      of a worker are never set; [Split] never ends on an empty separator;
      a root logger that is given no level, and a pattern that ends in a
      percent sign, lead to undefined behaviour; a file appender uses a null
      [FILE] after a rotation that could not open its file, and deletes the
      files of an appender whose file name continues its own after a dot.

    ** Conventions, bounds and fuel

    A C++ integer is a [Z] with its wrap-around written out ([u8] to [i64]).
    A run without a defined result (an access outside an allocation, an
    indeterminate byte, a null or freed pointer, a failed assertion, a loop
    out of fuel) is [None].  Where a theorem says that an operation returns, it
    proves that the result is [Some].

    Loops carry fuel where they are not structural: the heap's size plus one
    for walks of linked lists, the length of the data plus one or two for the
    parsers, 32 doublings for the first size of a buffer and 128 rounds for its
    growth.  The theorems on safety and
    termination show that this fuel is never used up in the states they speak
    of.  Buffers are followed up to [BUF_MAX] = 2^28 bytes and frames up to
    [FRAME_MAX] = 2^24 bytes, beyond which [expand]'s float arithmetic no
    longer gives what it should.

    In the thread pool a thread's step ends where it releases the lock or
    waits; a wait may end without a notice.  Its users start it once at a time,
    do not start it while it stops, and their work items throw nothing but
    [std::exception].  Names of threads are not modelled, nor are the hooks
    that run around an item.  A module's code does not call back into the
    manager, whose mutex it would wait for; the chains of modules are followed
    down to [MaxDepth] = 64 as in the code, so that [Load] needs no other fuel,
    and two rounds of the loop of [Run] are enough because the first one ends
    with a flag set.

    The kernel, the clock, [malloc]'s success, the resolver, the processor's
    features, the order of a hash table and the code of the users' classes are
    arguments of the definitions, and theorems quantify over
    them.  Code that runs under one lock is one step; the theorems on reachable
    states quantify over all sequences of steps.

    ** Not modelled

    Threads and their scheduling inside a step, statistics and the output of
    the log of anet, quality-of-service groups, the legacy HTTP packets, the
    administration server, arpc (it depends on protobuf), the module that
    serves gRPC, the other appenders of the log, the thread that
    flushes them, compression, and how a configuration makes appenders,
    the templates of the thread pool that return futures, and the other
    utilities: the lock-free queues, which need a memory model, the
    serialisation on RapidJSON, and the wrappers of files, clocks and the
    environment. *)

From Stdlib Require Export ZArith Lia Bool.
From stdpp Require Export base option list numbers gmap strings.

#[export] Set Default Proof Using "Type".
Global Open Scope Z_scope.

(** ** Fixed-width integers

    A C++ integer of width [w] is a [Z] in the range of its type; conversions
    are written out as [wrapu] (to an unsigned type) and [wraps] (to a signed
    type, two's complement). *)

Definition wrapu (w z : Z) : Z := z mod 2 ^ w.
Definition wraps (w z : Z) : Z := (z + 2 ^ (w - 1)) mod 2 ^ w - 2 ^ (w - 1).

Abbreviation u8 := (wrapu 8).
Abbreviation u16 := (wrapu 16).
Abbreviation u32 := (wrapu 32).
Abbreviation u64 := (wrapu 64).
Abbreviation i8 := (wraps 8).
Abbreviation i16 := (wraps 16).
Abbreviation i32 := (wraps 32).
Abbreviation i64 := (wraps 64).

Definition INT_MAX : Z := 2147483647.
Definition INT_MIN : Z := -2147483648.
Definition ULONG_MAX : Z := 18446744073709551615.

Definition is_byte (z : Z) : Prop := 0 <= z < 256.

Lemma wrapu_range w z : 0 <= w -> 0 <= wrapu w z < 2 ^ w.
Proof. intros Hw. apply Z.mod_pos_bound, Z.pow_pos_nonneg; lia. Qed.

Lemma wrapu_small w z : 0 <= z < 2 ^ w -> wrapu w z = z.
Proof. apply Z.mod_small. Qed.

Lemma wraps_range w z : 0 < w -> - 2 ^ (w - 1) <= wraps w z < 2 ^ (w - 1).
Proof.
  intros Hw. unfold wraps.
  pose proof (Z.mod_pos_bound (z + 2 ^ (w - 1)) (2 ^ w)) as Hb.
  assert (H2 : 2 ^ w = 2 * 2 ^ (w - 1)).
  { rewrite <- Z.pow_succ_r by lia. f_equal; lia. }
  assert (0 < 2 ^ (w - 1)) by (apply Z.pow_pos_nonneg; lia). lia.
Qed.

Lemma wraps_small w z : 0 < w -> - 2 ^ (w - 1) <= z < 2 ^ (w - 1) -> wraps w z = z.
Proof.
  intros Hw Hz. unfold wraps.
  assert (H2 : 2 ^ w = 2 * 2 ^ (w - 1)).
  { rewrite <- Z.pow_succ_r by lia. f_equal; lia. }
  rewrite Z.mod_small; lia.
Qed.

Lemma wraps_wrapu w z : 0 < w -> wraps w (wrapu w z) = wraps w z.
Proof. intros Hw. unfold wraps, wrapu. by rewrite Zplus_mod_idemp_l. Qed.

Lemma wrapu_wraps w z : 0 < w -> wrapu w (wraps w z) = wrapu w z.
Proof.
  intros Hw. unfold wraps, wrapu.
  rewrite Zminus_mod_idemp_l. f_equal; lia.
Qed.

Lemma wraps_add_l w a b : 0 < w -> wraps w (wraps w a + b) = wraps w (a + b).
Proof.
  intros Hw. unfold wraps. set (h := 2 ^ (w - 1)). set (M := 2 ^ w).
  replace ((a + h) mod M - h + b + h) with ((a + h) mod M + b) by lia.
  rewrite Zplus_mod_idemp_l. do 2 f_equal. lia.
Qed.

Lemma is_byte_u8 z : is_byte (u8 z).
Proof. apply wrapu_range; lia. Qed.

Lemma i32_small z : INT_MIN <= z <= INT_MAX -> i32 z = z.
Proof. unfold INT_MIN, INT_MAX. intros ?. apply wraps_small; lia. Qed.

(** Two fields that do not overlap. *)
Lemma lor_fields x y k : 0 <= k -> 0 <= y < 2 ^ k -> Z.lor (Z.shiftl x k) y = x * 2 ^ k + y.
Proof.
  intros Hk Hy. rewrite <- Z.shiftl_mul_pow2 by done. symmetry. rewrite <- Z.lxor_lor; [apply Z.add_nocarry_lxor|];
    apply Z.bits_inj'; intros n Hn; rewrite Z.land_spec, Z.bits_0; (destruct (Z.ltb_spec n k); [rewrite Z.shiftl_spec_low by done; done|]);
    rewrite <- (Z.mod_small y (2 ^ k)) by done; rewrite Z.mod_pow2_bits_high by lia; apply andb_false_r.
Qed.

(** ** Big-endian byte strings *)

Fixpoint be_bytes (k : nat) (n : Z) : list Z :=
  match k with
  | O => []
  | S k => be_bytes k (Z.shiftr n 8) ++ [u8 n]
  end.

Definition be_value (l : list Z) : Z := foldl (fun acc b => acc * 256 + b) 0 l.

Lemma be_bytes_length k n : length (be_bytes k n) = k.
Proof. revert n; induction k; intros n; simpl; [done|]. rewrite length_app, IHk. simpl. lia. Qed.

Lemma be_bytes_is_byte k n : Forall is_byte (be_bytes k n).
Proof.
  revert n; induction k; intros n; simpl; [done|].
  apply Forall_app; split; [done|]. constructor; [apply is_byte_u8|done].
Qed.

Lemma be_value_snoc l b : be_value (l ++ [b]) = be_value l * 256 + b.
Proof. unfold be_value. by rewrite foldl_app. Qed.

Lemma be_value_be_bytes k n : be_value (be_bytes k n) = wrapu (8 * Z.of_nat k) n.
Proof.
  revert n; induction k; intros n; simpl be_bytes.
  - unfold wrapu. simpl. by rewrite Z.mod_1_r.
  - rewrite be_value_snoc, IHk, Z.shiftr_div_pow2 by lia. unfold wrapu.
    replace (8 * Z.of_nat (S k)) with (8 + 8 * Z.of_nat k) by lia.
    rewrite Z.pow_add_r by lia.
    assert (0 < 2 ^ (8 * Z.of_nat k)) by (apply Z.pow_pos_nonneg; lia).
    rewrite (Z.rem_mul_r n (2 ^ 8)) by lia. change (2 ^ 8) with 256. lia.
Qed.

Lemma be_bytes_wrapu k n : be_bytes k (wrapu (8 * Z.of_nat k) n) = be_bytes k n.
Proof.
  revert n; induction k; intros n; simpl be_bytes; [done|].
  replace (8 * Z.of_nat (S k)) with (8 + 8 * Z.of_nat k) by lia.
  assert (0 < 2 ^ (8 * Z.of_nat k)) by (apply Z.pow_pos_nonneg; lia).
  unfold wrapu. rewrite Z.pow_add_r by lia. change (2 ^ 8) with 256.
  rewrite Z.rem_mul_r by lia.
  f_equal.
  - rewrite !Z.shiftr_div_pow2 by lia. change (2 ^ 8) with 256.
    rewrite (Z.mul_comm 256), Z.div_add by lia.
    rewrite (Z.div_small (n mod 256)) by (apply Z.mod_pos_bound; lia).
    apply (IHk (n / 256)).
  - f_equal. rewrite (Z.mul_comm 256), Z.mod_add by lia. by rewrite Z.mod_mod.
Qed.

Lemma be_bytes_wraps k n : (0 < k)%nat -> be_bytes k (wraps (8 * Z.of_nat k) n) = be_bytes k n.
Proof.
  intros Hk. rewrite <- (be_bytes_wrapu k (wraps _ n)), wrapu_wraps by lia.
  apply be_bytes_wrapu.
Qed.

(** Lengths and contents of what is written as big-endian fields. *)
Create HintDb anet discriminated.
#[export] Hint Resolve is_byte_u8 be_bytes_is_byte be_bytes_length Forall_app_2 : anet.
#[export] Hint Rewrite @length_app be_bytes_length : anet.

Ltac wire_len := autorewrite with anet; lia.
Ltac solve_wire := auto 12 with anet.

(** ** Failure

    [None] stands for a run of the source that has no defined result: an
    access outside an allocation, a read of an indeterminate byte, a failed
    [assert], signed overflow, or a loop that never ends. *)

Definition assertb (b : bool) : option () := if b then Some () else None.

Lemma assertb_true b : b = true -> assertb b = Some ().
Proof. by intros ->. Qed.

Lemma bind_Some_inv {A B} (m : option A) (f : A -> option B) y :
  m ≫= f = Some y -> exists x, m = Some x /\ f x = Some y.
Proof. destruct m; simpl; eauto; discriminate. Qed.

(** ** Lists *)

Lemma omap_fmap_id {A B} (f : A -> option B) (l : list A) : omap f l = omap id (f <$> l).
Proof. induction l as [|x l IH]; [done|]. cbn. destruct (f x); cbn; by rewrite IH. Qed.

(** A permutation of present values is one of the values. *)
Lemma omap_fmap_Some {A B} (f : A -> option B) (l : list A) (k : list B) : f <$> l ≡ₚ Some <$> k -> omap f l ≡ₚ k.
Proof.
  intros HP. rewrite omap_fmap_id, HP. clear HP. match goal with |- ?a ≡ₚ ?b => assert (a = b) as ->; [|done] end.
  induction k as [|x k IH]; [done|]. cbn. by rewrite IH.
Qed.

(** ** Tactics *)

(** Turn boolean tests of the source into propositions. *)
Ltac bool_to_prop :=
  repeat match goal with
  | H : (_ && _) = true |- _ => apply andb_true_iff in H; destruct H
  | H : (_ && _) = false |- _ => apply andb_false_iff in H
  | H : (_ || _) = true |- _ => apply orb_true_iff in H
  | H : (_ || _) = false |- _ => apply orb_false_iff in H; destruct H
  | H : negb _ = true |- _ => apply negb_true_iff in H
  | H : negb _ = false |- _ => apply negb_false_iff in H
  | H : (_ <? _)%Z = true |- _ => apply Z.ltb_lt in H
  | H : (_ <? _)%Z = false |- _ => apply Z.ltb_ge in H
  | H : (_ <=? _)%Z = true |- _ => apply Z.leb_le in H
  | H : (_ <=? _)%Z = false |- _ => apply Z.leb_gt in H
  | H : (_ =? _)%Z = true |- _ => apply Z.eqb_eq in H
  | H : (_ =? _)%Z = false |- _ => apply Z.eqb_neq in H
  end.

(** Case on the first boolean test of the goal, keeping what it says. *)
Ltac case_bool :=
  match goal with
  | |- context [if ?b then _ else _] => destruct b eqn:?; bool_to_prop
  end.
