(* ===== verification/CString.v ===== *)
(** * C strings

    The functions of the C library on character arrays that the HTTP classes
    call.  A [char] is a byte; a C string that somebody owns is the list of
    its characters, without the terminating zero; a pointer into an array is
    the array with an index.  The locale is the C locale, as in a program that
    never calls [setlocale]. *)

From S2P Require Import Prelude.
From Stdlib Require String Ascii.

(** The characters of a string literal. *)
Definition lit (s : string) : list Z := (fun a => Z.of_N (Ascii.N_of_ascii a)) <$> String.list_ascii_of_string s.

(** ** Reading a string from an array *)

(** The string that starts an array; there is none if the array ends first. *)
Fixpoint cstring (a : list Z) : option (list Z) :=
  match a with
  | [] => None
  | c :: a => if c =? 0 then Some [] else cons c <$> cstring a
  end.

Definition cstring_at (a : list Z) (p : nat) : option (list Z) := cstring (drop p a).

(** [while (p < p + n && !stop( *p)) p++] *)
Fixpoint scan (n : nat) (stop : Z -> bool) (a : list Z) (p : nat) : option nat :=
  match n with
  | O => Some p
  | S n => c ← a !! p; if stop c then Some p else scan n stop a (S p)
  end.

(** [while (p - n < p && !stop( *(p - 1))) p--] *)
Fixpoint scan_back (n : nat) (stop : Z -> bool) (a : list Z) (p : nat) : option nat :=
  match n with
  | O => Some p
  | S n => c ← a !! pred p; if stop c then Some p else scan_back n stop a (pred p)
  end.

(** [*(a + p) = v] *)
Definition poke (a : list Z) (p : nat) (v : Z) : option (list Z) :=
  if decide (p < length a)%nat then Some (<[p := v]> a) else None.

(** ** Characters *)

Definition isspace (c : Z) : bool := (c =? 32) || ((9 <=? c) && (c <=? 13)).
Definition isdigit (c : Z) : bool := (48 <=? c) && (c <=? 57).
Definition tolower (c : Z) : Z := if (65 <=? c) && (c <=? 90) then c + 32 else c.

(** ** Comparison *)

Fixpoint strcasecmp (s t : list Z) : Z :=
  match s, t with
  | [], [] => 0
  | [], y :: _ => - tolower y
  | x :: _, [] => tolower x
  | x :: s, y :: t => if tolower x =? tolower y then strcasecmp s t else tolower x - tolower y
  end.

(** [strcmp(s, t) == 0] and [strncmp(s, t, n) == 0] *)
Definition streq (s t : list Z) : bool := bool_decide (s = t).
Definition strneq (s t : list Z) (n : nat) : bool := bool_decide (take n s = take n t).

(** ** Numbers *)

Fixpoint skip_space (s : list Z) : list Z :=
  match s with
  | c :: s' => if isspace c then skip_space s' else s
  | [] => []
  end.

Definition read_sign (s : list Z) : bool * list Z :=
  match s with
  | c :: s' => if c =? 45 then (true, s') else if c =? 43 then (false, s') else (false, s)
  | [] => (false, [])
  end.

Definition hexdigit (c : Z) : option Z :=
  if isdigit c then Some (c - 48)
  else if (97 <=? c) && (c <=? 102) then Some (c - 87)
  else if (65 <=? c) && (c <=? 70) then Some (c - 55)
  else None.

Definition decdigit (c : Z) : option Z := if isdigit c then Some (c - 48) else None.

(** The number a digit string starts with, how many digits it has, the rest. *)
Fixpoint read_digits (base : Z) (digit : Z -> option Z) (s : list Z) (acc : Z) (n : nat) : Z * nat * list Z :=
  match s with
  | c :: s' =>
      match digit c with
      | Some v => read_digits base digit s' (acc * base + v) (S n)
      | None => (acc, n, s)
      end
  | [] => (acc, n, [])
  end.

(** [atoi], which glibc defines as [(int) strtol(s, NULL, 10)]: the value is
    clamped to the range of [long] and then truncated. *)
Definition atoi (s : list Z) : Z :=
  let '(neg, s) := read_sign (skip_space s) in
  let '(v, _, _) := read_digits 10 decdigit s 0 0 in
  i32 (if neg : bool then Z.max (- 2 ^ 63) (- v) else Z.min (2 ^ 63 - 1) v).

(** [sscanf(s, "%x%c", &i, &c)] for an [int] i: what is stored in [i] and in
    [c].  The number may have a sign and a [0x]; it is read as an [unsigned
    long], clamped, and the low 32 bits are stored. *)
Definition sscanf_xc (s : list Z) : option Z * option Z :=
  let '(neg, s) := read_sign (skip_space s) in
  let s := match s with
           | z :: x :: s' => if (z =? 48) && (tolower x =? 120) then s' else s
           | _ => s
           end in
  let '(v, n, rest) := read_digits 16 hexdigit s 0 0 in
  if Nat.eqb n 0 then (None, None)
  else
    let v := if v <? 2 ^ 64 then (if neg : bool then u64 (- v) else v) else ULONG_MAX in
    (Some (i32 v), head rest).

(** [%d] and [%lu] of a number that is not negative. *)
Fixpoint print_loop (fuel : nat) (n : Z) : list Z :=
  match fuel with
  | O => []
  | S fuel => if n <? 10 then [48 + n] else print_loop fuel (n / 10) ++ [48 + n mod 10]
  end.

Definition print_dec (n : Z) : list Z := print_loop 20 n.

(** ** Lemmas *)

Section Arrays.

Implicit Types (a s t : list Z) (p n : nat).

Lemma cstring_app s t : 0 ∉ s -> cstring (s ++ 0 :: t) = Some s.
Proof.
  induction s as [|c s IH]; intros Hs; [done|]. cbn. apply not_elem_of_cons in Hs as [Hc Hs].
  rewrite (proj2 (Z.eqb_neq _ _)) by done. by rewrite IH.
Qed.

Lemma cstring_some a : 0 ∈ a -> exists s t, a = s ++ 0 :: t /\ 0 ∉ s /\ cstring a = Some s.
Proof.
  intros Hin. apply list_elem_of_split_l in Hin as (s & t & -> & Hs). exists s, t.
  split_and!; [done|done|by apply cstring_app].
Qed.

Lemma cstring_at_app a s t p : p = length a -> 0 ∉ s -> cstring_at (a ++ s ++ 0 :: t) p = Some s.
Proof. intros -> Hs. unfold cstring_at. rewrite drop_app_length. by apply cstring_app. Qed.

(** A string that somebody terminated can be read. *)
Lemma cstring_at_some a p q :
  a !! q = Some 0 -> (p <= q)%nat -> exists s, cstring_at a p = Some s /\ 0 ∉ s /\ (length s <= q - p)%nat /\
    s = take (length s) (drop p a).
Proof.
  intros Hq Hp. unfold cstring_at.
  assert (Hd : drop p a !! (q - p)%nat = Some 0) by (rewrite lookup_drop; rewrite <- Hq; f_equal; lia).
  destruct (cstring_some (drop p a)) as (s & t & E & Hs & ->).
  { by eapply list_elem_of_lookup_2. }
  exists s. split_and!; [done|done| |rewrite E; by rewrite take_app_length].
  destruct (decide (length s <= q - p)%nat) as [|Hn]; [done|]. exfalso. apply Hs.
  rewrite E, lookup_app_l in Hd by lia. by eapply list_elem_of_lookup_2.
Qed.

Lemma scan_total n stop a p :
  (p + n <= length a)%nat -> exists q, scan n stop a p = Some q /\ (p <= q <= p + n)%nat /\
    (forall i c, (p <= i < q)%nat -> a !! i = Some c -> stop c = false) /\
    ((q < p + n)%nat -> exists c, a !! q = Some c /\ stop c = true).
Proof.
  revert p. induction n as [|n IH]; intros p Hl; cbn [scan].
  { exists p. split_and!; [done|lia|lia|intros; lia|lia]. }
  destruct (lookup_lt_is_Some_2 a p) as [c Ec]; [lia|]. rewrite Ec. cbn [mbind option_bind].
  destruct (stop c) eqn:Es; [exists p; split_and!; [done|lia|lia|intros; lia|eauto]|].
  destruct (IH (S p)) as (q & -> & Hq & Hb & He); [lia|].
  exists q. split_and!; [done|lia|lia| |intros; apply He; lia].
  intros i c' Hi Hc. destruct (decide (i = p)) as [->|]; [by simplify_eq|]. apply (Hb i); [lia|done].
Qed.

Lemma scan_back_total n stop a p :
  (n <= p <= length a)%nat -> exists q, scan_back n stop a p = Some q /\ (p - n <= q <= p)%nat /\
    ((p - n < q)%nat -> exists c, a !! pred q = Some c /\ stop c = true).
Proof.
  revert p. induction n as [|n IH]; intros p Hl; cbn [scan_back].
  { exists p. split_and!; [done|lia|lia|lia]. }
  destruct (lookup_lt_is_Some_2 a (pred p)) as [c Ec]; [lia|]. rewrite Ec. cbn [mbind option_bind].
  destruct (stop c) eqn:Es; [exists p; split_and!; [done|lia|lia|eauto]|].
  destruct (IH (pred p)) as (q & -> & Hq & Hb); [lia|].
  exists q. split_and!; [done|lia|lia|]. intros. apply Hb. lia.
Qed.

(** The scan stops where the delimiter is. *)
Lemma scan_app a s x t n stop :
  Forall (fun c => stop c = false) s -> stop x = true -> (length s < n)%nat ->
  scan n stop (a ++ s ++ x :: t) (length a) = Some (length a + length s)%nat.
Proof.
  revert a n. induction s as [|c s IH]; intros a n Hs Hx Hn; (destruct n as [|n]; [cbn in Hn; lia|]); cbn [scan app].
  - rewrite list_lookup_middle by done. cbn [mbind option_bind]. rewrite Hx. f_equal. cbn. lia.
  - rewrite list_lookup_middle by done. cbn [mbind option_bind]. inversion_clear Hs as [|? ? Hc Hs'].
    rewrite Hc. specialize (IH (a ++ [c]) n Hs' Hx ltac:(cbn in Hn; lia)).
    rewrite length_app, <- app_assoc in IH. cbn [app] in IH. cbn [length] in *.
    replace (length a + 1)%nat with (S (length a)) in IH by lia. rewrite IH. f_equal. lia.
Qed.

(** Nothing stops it before the end. *)
Lemma scan_none a s t stop :
  Forall (fun c => stop c = false) s -> scan (length s) stop (a ++ s ++ t) (length a) = Some (length a + length s)%nat.
Proof.
  revert a. induction s as [|c s IH]; intros a Hs; cbn [scan length app]; [f_equal; lia|].
  rewrite list_lookup_middle by done. cbn [mbind option_bind]. inversion_clear Hs as [|? ? Hc Hs'].
  rewrite Hc. specialize (IH (a ++ [c]) Hs'). rewrite length_app, <- app_assoc in IH. cbn [app length] in IH.
  replace (length a + 1)%nat with (S (length a)) in IH by lia. rewrite IH. f_equal. lia.
Qed.

Lemma poke_total a p v : (p < length a)%nat -> poke a p v = Some (<[p := v]> a).
Proof. intros Hp. unfold poke. by rewrite decide_True by done. Qed.

Lemma poke_app a x t v : poke (a ++ x :: t) (length a) v = Some (a ++ v :: t).
Proof. rewrite poke_total by (rewrite length_app; cbn; lia). rewrite insert_app_r_alt by done. by rewrite Nat.sub_diag. Qed.

End Arrays.

(** ** Case-insensitive order

    On strings that have no zero inside, [strcasecmp] orders the folded
    strings lexicographically. *)

Definition is_char (c : Z) : Prop := 0 < c < 256.

Definition fold_case (s : list Z) : list Z := tolower <$> s.

#[export] Instance is_char_dec c : Decision (is_char c).
Proof. unfold is_char. apply _. Defined.

Lemma tolower_char c : is_char c -> is_char (tolower c).
Proof. unfold is_char, tolower. intros ?. case_bool; lia. Qed.

Lemma chars_not_nul s : Forall is_char s -> 0 ∉ s.
Proof. intros Hs Hin. rewrite Forall_forall in Hs. apply Hs in Hin. unfold is_char in Hin. lia. Qed.

Lemma chars_bytes s : Forall is_char s -> Forall is_byte s.
Proof. intros H. eapply Forall_impl; [exact H|]. unfold is_char, is_byte. lia. Qed.

Lemma chars_of_bytes s : Forall is_byte s -> 0 ∉ s -> Forall is_char s.
Proof.
  intros Hb H0. rewrite Forall_forall in *. intros c Hc. specialize (Hb c Hc). unfold is_char, is_byte in *.
  assert (c <> 0) by (by intros ->). lia.
Qed.

Lemma strcasecmp_opp s t : strcasecmp t s = - strcasecmp s t.
Proof.
  revert t. induction s as [|x s IH]; intros [|y t]; cbn; [done|lia|lia|].
  rewrite (Z.eqb_sym (tolower y)). case_bool; [apply IH|lia].
Qed.

Lemma strcasecmp_eq s t :
  Forall is_char s -> Forall is_char t -> strcasecmp s t = 0 <-> fold_case s = fold_case t.
Proof.
  intros Hs Ht. revert t Ht. induction Hs as [|x s Hx Hs IH]; intros [|y t] Ht; cbn.
  - done.
  - inversion_clear Ht as [|? ? Hy]. apply tolower_char in Hy. unfold is_char in Hy. split; [lia|done].
  - apply tolower_char in Hx. unfold is_char in Hx. split; [lia|done].
  - inversion_clear Ht as [|? ? Hy Ht']. case_bool.
    + rewrite (IH t Ht'). unfold fold_case. split; [by intros ->; f_equal|congruence].
    + split; [lia|congruence].
Qed.

Lemma strcasecmp_refl s : strcasecmp s s = 0.
Proof. induction s as [|x s IH]; cbn; [done|]. by rewrite Z.eqb_refl. Qed.

Lemma strcasecmp_trans s t u :
  Forall is_char s -> Forall is_char t -> Forall is_char u ->
  strcasecmp s t < 0 -> strcasecmp t u <= 0 -> strcasecmp s u < 0.
Proof.
  intros Hs Ht. revert s u Hs. induction Ht as [|y t Hy Ht IH]; intros s u Hs Hu.
  - destruct Hs as [|x s Hx Hs]; cbn; [lia|]. apply tolower_char in Hx. unfold is_char in Hx. lia.
  - apply tolower_char in Hy. unfold is_char in Hy. destruct Hu as [|z u Hz Hu].
    { destruct Hs; cbn; lia. }
    apply tolower_char in Hz. unfold is_char in Hz.
    destruct Hs as [|x s Hx Hs]; cbn; [lia|].
    destruct (Z.eqb_spec (tolower x) (tolower y)), (Z.eqb_spec (tolower y) (tolower z)),
      (Z.eqb_spec (tolower x) (tolower z)); try lia. by apply IH.
Qed.

(** ** Decimal numbers *)

Lemma read_digits_app s t acc n :
  Forall (fun c => isdigit c = true) s -> (forall c, head t = Some c -> isdigit c = false) ->
  exists v, read_digits 10 decdigit (s ++ t) acc n = (v, (n + length s)%nat, t).
Proof.
  revert acc n. induction s as [|c s IH]; intros acc n Hs Ht; cbn [app length].
  - exists acc. rewrite Nat.add_0_r. destruct t as [|c t]; cbn; [done|]. unfold decdigit. by rewrite Ht.
  - inversion_clear Hs as [|? ? Hc Hs']. cbn. unfold decdigit at 1. rewrite Hc.
    destruct (IH (acc * 10 + (c - 48)) (S n) Hs' Ht) as [v E]. exists v. rewrite E. do 2 f_equal. lia.
Qed.

Lemma read_digits_snoc s c acc n v m :
  read_digits 10 decdigit s acc n = (v, m, []) -> isdigit c = true ->
  read_digits 10 decdigit (s ++ [c]) acc n = (v * 10 + (c - 48), S m, []).
Proof.
  revert acc n. induction s as [|x s IH]; intros acc n E Hc; cbn in *.
  - simplify_eq. unfold decdigit. by rewrite Hc.
  - destruct (decdigit x); [by apply IH|done].
Qed.

Lemma print_loop_digits fuel n : 0 <= n -> Forall (fun c => isdigit c = true) (print_loop fuel n).
Proof.
  revert n. induction fuel as [|fuel IH]; intros n Hn; cbn; [constructor|].
  unfold isdigit in *. case_bool.
  - constructor; [|constructor]. apply andb_true_iff; split; apply Z.leb_le; lia.
  - apply Forall_app. split; [apply IH; by apply Z.div_pos|]. constructor; [|constructor].
    pose proof (Z.mod_pos_bound n 10). apply andb_true_iff; split; apply Z.leb_le; lia.
Qed.

Lemma read_print_loop fuel n :
  0 <= n < 10 ^ Z.of_nat fuel -> exists m, read_digits 10 decdigit (print_loop fuel n) 0 0 = (n, m, []).
Proof.
  revert n. induction fuel as [|fuel IH]; intros n Hn.
  { change (10 ^ Z.of_nat 0) with 1 in Hn. exists 0%nat. cbn. do 2 f_equal. lia. }
  rewrite Nat2Z.inj_succ, Z.pow_succ_r in Hn by lia. cbn [print_loop]. case_bool.
  - assert (Hd : isdigit (48 + n) = true) by (apply andb_true_iff; split; apply Z.leb_le; lia).
    exists 1%nat. cbn. unfold decdigit. rewrite Hd. do 2 f_equal. lia.
  - destruct (IH (n / 10)) as [m E].
    { split; [by apply Z.div_pos; lia|]. apply Z.div_lt_upper_bound; lia. }
    pose proof (Z.mod_pos_bound n 10 ltac:(lia)). pose proof (Z.div_mod n 10 ltac:(lia)).
    assert (Hd : isdigit (48 + n mod 10) = true) by (apply andb_true_iff; split; apply Z.leb_le; lia).
    exists (S m). rewrite (read_digits_snoc _ _ _ _ _ _ E Hd). do 2 f_equal. lia.
Qed.

Lemma digit_not_space c : isdigit c = true -> isspace c = false /\ c =? 45 = false /\ c =? 43 = false.
Proof.
  unfold isdigit, isspace. intros H. bool_to_prop.
  rewrite !(proj2 (Z.eqb_neq _ _)), (proj2 (Z.leb_gt c 13)) by lia. by rewrite andb_false_r.
Qed.

(** A number that is printed and read again. *)
Lemma atoi_print n : 0 <= n <= INT_MAX -> atoi (print_dec n) = n.
Proof.
  intros Hn. unfold INT_MAX in Hn. unfold atoi, print_dec.
  destruct (read_print_loop 20 n) as [m E]; [lia|].
  pose proof (print_loop_digits 20 n ltac:(lia)) as Hd.
  assert (Hs : skip_space (print_loop 20 n) = print_loop 20 n /\ read_sign (print_loop 20 n) = (false, print_loop 20 n)).
  { destruct Hd as [|c s Hc]; [done|]. apply digit_not_space in Hc as (H1 & H2 & H3). cbn. by rewrite H1, H2, H3. }
  destruct Hs as [-> ->]. rewrite E. rewrite Z.min_r by lia. apply i32_small. unfold INT_MIN, INT_MAX. lia.
Qed.

Lemma print_dec_digits n : 0 <= n -> Forall (fun c => isdigit c = true) (print_dec n).
Proof. apply print_loop_digits. Qed.

Lemma digit_char c : isdigit c = true -> is_char c.
Proof. unfold isdigit, is_char. intros. bool_to_prop. lia. Qed.

Lemma lit_bytes s : Forall is_byte (lit s).
Proof.
  unfold lit. apply Forall_fmap, Forall_true. intros a. unfold is_byte. cbn.
  destruct a as [[] [] [] [] [] [] [] []]; cbn; lia.
Qed.

(** ** Copies *)

(** [memcpy] from offset [off] of [l] and to offset [off] of [dst]. *)
Definition slice (l : list Z) (off n : Z) : option (list Z) :=
  if (0 <=? off) && (0 <=? n) && (off + n <=? Z.of_nat (length l)) then Some (take (Z.to_nat n) (drop (Z.to_nat off) l)) else None.

Definition blit (off : Z) (src dst : list Z) : option (list Z) :=
  if (0 <=? off) && (off + Z.of_nat (length src) <=? Z.of_nat (length dst))
  then Some (take (Z.to_nat off) dst ++ src ++ drop (Z.to_nat off + length src) dst) else None.

Lemma slice_app A B C : slice (A ++ B ++ C) (Z.of_nat (length A)) (Z.of_nat (length B)) = Some B.
Proof.
  unfold slice. rewrite !length_app, !Nat2Z.id. rewrite (proj2 (Z.leb_le 0 _)), (proj2 (Z.leb_le 0 _)), (proj2 (Z.leb_le _ _)) by lia. cbn.
  by rewrite drop_app_length, take_app_length.
Qed.

Lemma blit_app A B C src : length src = length B -> blit (Z.of_nat (length A)) src (A ++ B ++ C) = Some (A ++ src ++ C).
Proof.
  intros E. unfold blit. rewrite !length_app, !Nat2Z.id, E. rewrite (proj2 (Z.leb_le 0 _)), (proj2 (Z.leb_le _ _)) by lia. cbn.
  rewrite take_app_length, (drop_app_ge A) by lia. replace (length A + length B - length A)%nat with (length B) by lia. by rewrite drop_app_length.
Qed.

Lemma slice_at l off n A B C :
  l = A ++ B ++ C -> off = Z.of_nat (length A) -> n = Z.of_nat (length B) -> slice l off n = Some B.
Proof. intros -> -> ->. apply slice_app. Qed.

Lemma blit_at dst off src A B C :
  dst = A ++ B ++ C -> off = Z.of_nat (length A) -> length src = length B -> blit off src dst = Some (A ++ src ++ C).
Proof. intros -> ->. apply blit_app. Qed.
