(* ===== verification/AddrSpec.v ===== *)
(** * AddrSpec

    Sources: addrspec.h and addrspec.cpp under src/agent_engine/network/anet/.

    The address of a socket, set from a specification such as
    [tcp:127.0.0.1:8080] or [unixstream:/tmp/x].  The specification is copied
    to an array on the stack and cut into its fields in place; a field is a
    pointer into the array, or null when it is empty.

    [inet_addr] and [getaddrinfo] of the C library are parameters.  The fields
    of the union [UnitedAddr] are kept apart; the code reads each under the
    family it was written for, except [getPort], which is written out. *)

From S2P Require Import Prelude CString.

Definition AF_UNIX : Z := 1.
Definition AF_INET : Z := 2.
Definition SOCK_STREAM : Z := 1.
Definition SOCK_DGRAM : Z := 2.
Definition INADDR_ANY : Z := 0.
Definition UNIX_PATH_MAX : nat := 108.

Record AddrSpec := mkAddr {
  _isValid : bool;
  _type : option Z;          (* not set by the constructor *)
  sa_family : Z;
  s_addr : Z;
  sin_port : Z;              (* in the byte order of the host *)
  sun_path : list Z
}.

Definition AddrSpec_new : AddrSpec := mkAddr false None 0 0 0 (replicate UNIX_PATH_MAX 0).

Definition setProtocolFamily (family : Z) (a : AddrSpec) : AddrSpec :=
  mkAddr (_isValid a) (_type a) (u16 family) (s_addr a) (sin_port a) (sun_path a).
Definition setProtocolType (t : Z) (a : AddrSpec) : AddrSpec :=
  mkAddr (_isValid a) (Some t) (sa_family a) (s_addr a) (sin_port a) (sun_path a).
Definition getProtocolFamily (a : AddrSpec) : Z := sa_family a.
Definition getProtocolType (a : AddrSpec) : option Z := _type a.
Definition isValidState (a : AddrSpec) : bool := _isValid a.

(** [ntohs(_addr.in.sin_port)]: for a path, its first two bytes. *)
Definition getPort (a : AddrSpec) : Z :=
  u16 (if sa_family a =? AF_UNIX then be_value (take 2 (sun_path a)) else sin_port a).
Definition getUnixPath (a : AddrSpec) : option (list Z) := cstring (sun_path a).

(** [setAddr(family, protocolType, address)], where [peer] is what the kernel
    stored at [address]; the number of bytes copied depends on the family. *)
Definition setAddr (family protocolType : Z) (peer a : AddrSpec) : AddrSpec :=
  let a := setProtocolType protocolType (setProtocolFamily family a) in
  if sa_family a =? AF_INET then mkAddr (_isValid a) (_type a) (sa_family peer) (s_addr peer) (sin_port peer) (sun_path a)
  else if sa_family a =? AF_UNIX then mkAddr (_isValid a) (_type a) (sa_family peer) (s_addr a) (sin_port a) (sun_path peer)
  else a.

Section AddrSpec.

(** The C library: the address of a numeric string, and the resolver, which
    returns an error code or an address. *)
Context (inet_addr : list Z -> Z) (getaddrinfo : list Z -> Z + Z).

Definition isIpAddrStr (str : option (list Z)) : bool :=
  match str with
  | None => false
  | Some s => forallb (fun c => negb (negb (c =? 46) && negb ((48 <=? c) && (c <=? 57)))) s
  end.

(** The error code and [sin_addr]. *)
Definition getIpByHost (address : option (list Z)) (in_addr : Z) : Z * Z :=
  match address with
  | None => (-1, in_addr)
  | Some s => match getaddrinfo s with inl rc => (rc, in_addr) | inr ip => (0, ip) end
  end.

Definition setInetAddr (protocolType : Z) (address : option (list Z)) (port : Z) (a : AddrSpec) : Z * AddrSpec :=
  let '(rc, ip) :=
    match address with
    | None | Some [] => (0, INADDR_ANY)
    | Some s => if isIpAddrStr address then (0, inet_addr s) else getIpByHost address (s_addr a)
    end in
  (rc, mkAddr (rc =? 0) (Some protocolType) AF_INET ip (u16 (i16 port)) (sun_path a)).

(** [strncpy(sun_path, unixPath, UNIX_PATH_MAX)] *)
Definition setUnixAddr (protocolType : Z) (unixPath : option (list Z)) (a : AddrSpec) : Z * AddrSpec :=
  match unixPath with
  | None => (-1, mkAddr false (_type a) (sa_family a) (s_addr a) (sin_port a) (sun_path a))
  | Some p => (0, mkAddr true (Some protocolType) AF_UNIX (s_addr a) (sin_port a)
                         (take UNIX_PATH_MAX (p ++ replicate UNIX_PATH_MAX 0)))
  end.

(** The loop of [parseSpec], from [src] with the current field at [prev]. *)
Fixpoint parse_loop (fuel cnt : nat) (a : list Z) (src prev : nat) (args : list (option nat))
  : option (list Z * list (option nat)) :=
  c ← a !! src;
  if c =? 0 then
    d ← a !! prev;
    if d =? 0 then Some (a, args)
    else _ ← assertb (length args <? cnt)%nat; Some (a, args ++ [Some prev])
  else
    match fuel with
    | O => None
    | S fuel =>
        if c =? 58 then
          a ← poke a src 0;
          _ ← assertb (length args <? cnt)%nat;
          let args := args ++ [if Nat.eqb src prev then None else Some prev] in
          if (cnt <=? length args)%nat then Some (a, args) else parse_loop fuel cnt a (S src) (S src) args
        else parse_loop fuel cnt a (S src) prev args
    end.

Definition parseSpec (src : list Z) (cnt : nat) : option (list Z * list (option nat)) :=
  parse_loop (length src) cnt src 0 0 [].

(** The string of a field; a null pointer passed to [strcasecmp] is an error. *)
Definition arg_string (a : list Z) (p : option nat) : option (option (list Z)) :=
  match p with None => Some None | Some p => Some <$> cstring_at a p end.

(** [while (host != NULL && *host == '/') host++] *)
Fixpoint skip_slashes (host : list Z) : list Z :=
  match host with
  | c :: h => if c =? 47 then skip_slashes h else host
  | [] => []
  end.

Definition spec_array (spec : list Z) : list Z := take 511 (spec ++ replicate 512 0) ++ [0].

Definition setAddrSpec (spec : option (list Z)) (a : AddrSpec) : option (Z * AddrSpec) :=
  match spec with
  | None => Some (-1, a)
  | Some spec =>
      '(tmp, args) ← parseSpec (spec_array spec) 32;
      let num := length args in
      if (3 <? num)%nat || (num <? 2)%nat then Some (-1, a)
      else
        p0 ← args !! 0%nat; s0 ← arg_string tmp p0; s0 ← s0;
        p1 ← args !! 1%nat; s1 ← arg_string tmp p1;
        let inet t :=
          p2 ← args !! 2%nat; s2 ← arg_string tmp p2;
          match s2 with
          | None => Some (-1, a)
          | Some s2 => Some (setInetAddr t (skip_slashes <$> s1) (atoi s2) a)
          end in
        let unix t := match s1 with None => Some (-1, a) | Some _ => Some (setUnixAddr t s1 a) end in
        if (strcasecmp s0 (lit "tcp") =? 0) && Nat.eqb num 3 then inet SOCK_STREAM
        else if (strcasecmp s0 (lit "udp") =? 0) && Nat.eqb num 3 then inet SOCK_DGRAM
        else if (strcasecmp s0 (lit "unixstream") =? 0) && Nat.eqb num 2 then unix SOCK_STREAM
        else if (strcasecmp s0 (lit "unixdgram") =? 0) && Nat.eqb num 2 then unix SOCK_DGRAM
        else Some (-2, a)
  end.

End AddrSpec.

(** ** The fields of a specification *)

(** Cutting at the colons; a last field that is empty is left out. *)
Fixpoint fields (cur s : list Z) : list (list Z) :=
  match s with
  | [] => match cur with [] => [] | _ => [cur] end
  | c :: s => if c =? 58 then cur :: fields [] s else fields (cur ++ [c]) s
  end.

(** The pointers [args] into [a] are the fields [fs]. *)
Definition args_ok (a : list Z) (args : list (option nat)) (fs : list (list Z)) : Prop :=
  Forall2 (fun p f => 0 ∉ f /\ match p with
                      | None => f = []
                      | Some p => f <> [] /\ exists u v, a = u ++ f ++ 0 :: v /\ p = length u
                      end) args fs.

Lemma args_ok_app a b args fs : args_ok a args fs -> args_ok (a ++ b) args fs.
Proof.
  intros Ha. eapply Forall2_impl; [exact Ha|]. intros [p|] f [H0 Hf]; [|done]. split; [done|].
  destruct Hf as (Hne & u & v & -> & ->). split; [done|]. exists u, (v ++ b). by rewrite <- !app_assoc.
Qed.

Lemma args_ok_snoc a args fs p f :
  args_ok a args fs -> 0 ∉ f -> match p with None => f = [] | Some p => f <> [] /\ exists u v, a = u ++ f ++ 0 :: v /\ p = length u end ->
  args_ok a (args ++ [p]) (fs ++ [f]).
Proof. intros Ha H0 Hf. apply Forall2_app; [done|]. by constructor. Qed.

Lemma arg_string_ok a p f :
  0 ∉ f -> match p with None => f = [] | Some p => f <> [] /\ exists u v, a = u ++ f ++ 0 :: v /\ p = length u end ->
  arg_string a p = Some (match f with [] => None | _ => Some f end).
Proof.
  destruct p as [p|]; [|by intros _ ->]. intros H0 (Hne & u & v & -> & ->). unfold arg_string.
  rewrite (cstring_at_app u f v) by done. by destruct f.
Qed.

Lemma parse_loop_ok rest : forall fuel cnt pre cur t args fs,
  0 ∉ cur -> 0 ∉ rest -> args_ok pre args fs -> (length args < cnt)%nat -> (length rest <= fuel)%nat ->
  exists a' args', parse_loop fuel cnt (pre ++ cur ++ rest ++ 0 :: t) (length pre + length cur) (length pre) args = Some (a', args') /\
    (length args' = cnt /\ (cnt <= length (fs ++ fields cur rest))%nat \/ args_ok a' args' (fs ++ fields cur rest)).
Proof.
  induction rest as [|c rest IH]; intros fuel cnt pre cur t args fs Hc Hr Ha Hcnt Hf.
  - assert (Hend : (pre ++ cur ++ [] ++ 0 :: t) !! (length pre + length cur)%nat = Some 0).
    { rewrite app_assoc, <- length_app, lookup_app_r by lia. by rewrite Nat.sub_diag. }
    destruct fuel; cbn [parse_loop]; rewrite Hend; cbn [mbind option_bind]; rewrite Z.eqb_refl;
      (destruct cur as [|d cur];
       [cbn [length app] in *; rewrite Nat.add_0_r in Hend; cbn [app] in Hend; rewrite Hend; cbn [mbind option_bind fields];
        eexists _, _; split; [reflexivity|right; rewrite app_nil_r; by apply args_ok_app]
       |assert (Hd : (pre ++ (d :: cur) ++ [] ++ 0 :: t) !! length pre = Some d) by (rewrite lookup_app_r, Nat.sub_diag by lia; done);
        rewrite Hd; cbn [mbind option_bind];
        rewrite (proj2 (Z.eqb_neq d 0)) by (intros ->; apply Hc; left);
        rewrite assertb_true by (by apply Nat.ltb_lt); cbn [mbind option_bind fields];
        eexists _, _; split; [reflexivity|right]; apply args_ok_snoc; [by apply args_ok_app|done|];
        split; [done|]; by exists pre, t]).
  - destruct fuel as [|fuel]; [cbn in Hf; lia|]. cbn [length] in Hf. apply not_elem_of_cons in Hr as [Hc0 Hr].
    assert (Hx : (pre ++ cur ++ (c :: rest) ++ 0 :: t) !! (length pre + length cur)%nat = Some c).
    { rewrite app_assoc, <- length_app, lookup_app_r by lia. by rewrite Nat.sub_diag. }
    cbn [parse_loop]. rewrite Hx. cbn [mbind option_bind]. rewrite (proj2 (Z.eqb_neq c 0)) by done. cbn [fields].
    destruct (Z.eqb_spec c 58) as [->|Hn].
    + assert (Hp : poke (pre ++ cur ++ (58 :: rest) ++ 0 :: t) (length pre + length cur) 0 = Some ((pre ++ cur ++ [0]) ++ [] ++ rest ++ 0 :: t)).
      { rewrite app_assoc, <- length_app. cbn [app]. rewrite poke_app. f_equal. by rewrite <- !app_assoc. }
      rewrite Hp. cbn [mbind option_bind]. rewrite assertb_true by (by apply Nat.ltb_lt). cbn [mbind option_bind].
      set (p := if (_ =? _)%nat then None else Some (length pre)).
      assert (Hok : args_ok (pre ++ cur ++ [0]) (args ++ [p]) (fs ++ [cur])).
      { apply args_ok_snoc; [by apply args_ok_app|done|]. unfold p. destruct (Nat.eqb_spec (length pre + length cur) (length pre)) as [E|E].
        - destruct cur; [done|cbn in E; lia].
        - split; [intros ->; cbn in E; lia|]. by exists pre, []. }
      destruct (Nat.leb_spec cnt (length (args ++ [p]))) as [Hle|Hlt].
      * eexists _, _. split; [reflexivity|]. left. apply Forall2_length in Ha. rewrite !length_app in *. cbn in *. lia.
      * destruct (IH fuel cnt (pre ++ cur ++ [0]) [] t (args ++ [p]) (fs ++ [cur])) as (a' & args' & E & Hor); try done; [set_solver|lia|].
        exists a', args'. rewrite <- app_assoc in Hor. cbn [app] in Hor. split; [|exact Hor]. rewrite <- E. f_equal; rewrite !length_app; cbn; lia.
    + destruct (IH fuel cnt pre (cur ++ [c]) t args fs) as (a' & args' & E & Hor); try done; [set_solver|lia|].
      exists a', args'. split; [|exact Hor]. rewrite <- E. f_equal; [by rewrite <- !app_assoc|rewrite length_app; cbn; lia].
Qed.

Lemma fields_Forall (Q : Z -> Prop) cur s : Forall Q cur -> Forall Q s -> Forall (Forall Q) (fields cur s).
Proof.
  intros Hc Hs. revert cur Hc. induction Hs as [|c s Hx Hs IH]; intros cur Hc; cbn [fields].
  { destruct Hc; [done|by repeat constructor]. }
  destruct (c =? 58); [constructor; [done|by apply IH]|]. apply IH, Forall_app. split; [done|by constructor].
Qed.

Lemma fields_colon f s : 58 ∉ f -> forall cur, fields cur (f ++ 58 :: s) = (cur ++ f) :: fields [] s.
Proof.
  induction f as [|c f IH]; intros Hf cur; cbn [app fields]; [by rewrite app_nil_r|]. apply not_elem_of_cons in Hf as [Hc Hf].
  rewrite (proj2 (Z.eqb_neq c 58)) by done. rewrite IH by done. by rewrite <- app_assoc.
Qed.

Lemma fields_last f : 58 ∉ f -> forall cur, cur ++ f <> [] -> fields cur f = [cur ++ f].
Proof.
  induction f as [|c f IH]; intros Hf cur Hne; cbn [app fields]; [rewrite app_nil_r in *; by destruct cur|].
  apply not_elem_of_cons in Hf as [Hc Hf]. rewrite (proj2 (Z.eqb_neq c 58)) by done. rewrite IH by (by destruct cur || done).
  by rewrite <- app_assoc.
Qed.

Lemma spec_array_ok spec : exists t, spec_array spec = take 511 spec ++ 0 :: t.
Proof.
  unfold spec_array. rewrite take_app. destruct (511 - length spec)%nat as [|k] eqn:Ek; [exists []; by rewrite app_nil_r|].
  assert (Hr : take (S k) (replicate 512 0) = 0 :: replicate k 0).
  { change (replicate 512 0) with (0 :: replicate 511 0). cbn [take]. rewrite take_replicate. do 2 f_equal. lia. }
  rewrite Hr. exists (replicate k 0 ++ [0]). by rewrite <- app_assoc.
Qed.

(** ** What a specification means *)

Section Meaning.

Context (inet_addr : list Z -> Z) (getaddrinfo : list Z -> Z + Z).

Definition host_of (f : list Z) : option (list Z) := match f with [] => None | _ => Some (skip_slashes f) end.

Definition inet_meaning (t : Z) (host port : list Z) (a : AddrSpec) : Z * AddrSpec :=
  match port with [] => (-1, a) | _ => setInetAddr inet_addr getaddrinfo t (host_of host) (atoi port) a end.

Definition unix_meaning (t : Z) (path : list Z) (a : AddrSpec) : Z * AddrSpec :=
  match path with [] => (-1, a) | _ => setUnixAddr t (Some path) a end.

(** The address a list of fields stands for; [None] when the code passes a
    null pointer to [strcasecmp]. *)
Definition spec_meaning (fs : list (list Z)) (a : AddrSpec) : option (Z * AddrSpec) :=
  match fs with
  | [] :: [_] | [[]; _; _] => None
  | [scheme; host; port] =>
      if decide (fold_case scheme = lit "tcp") then Some (inet_meaning SOCK_STREAM host port a)
      else if decide (fold_case scheme = lit "udp") then Some (inet_meaning SOCK_DGRAM host port a)
      else Some (-2, a)
  | [scheme; path] =>
      if decide (fold_case scheme = lit "unixstream") then Some (unix_meaning SOCK_STREAM path a)
      else if decide (fold_case scheme = lit "unixdgram") then Some (unix_meaning SOCK_DGRAM path a)
      else Some (-2, a)
  | _ => Some (-1, a)
  end.

Lemma scheme_test s t : Forall is_char s -> bool_decide (Forall is_char (lit t)) = true -> fold_case (lit t) = lit t ->
  (strcasecmp s (lit t) =? 0) = bool_decide (fold_case s = lit t).
Proof.
  clear. intros Hs Ht%bool_decide_eq_true Hf. apply eq_true_iff_eq. rewrite Z.eqb_eq, bool_decide_eq_true, strcasecmp_eq by done.
  by rewrite Hf.
Qed.

(** A specification means its fields.  For every string, the in-place
    parser stays inside its array of 512 characters and its table of 32
    pointers, ends, and sets the address that the first 511 characters, cut at
    the colons and with the scheme read without regard to case, stand for; a
    number of fields other than two or three and an unknown scheme are
    rejected without changing the address.  The one undefined case is an empty
    scheme before one or two more fields, where [strcasecmp] gets a null
    pointer. *)
Theorem addr_spec_meaning spec a :
  Forall is_char spec ->
  setAddrSpec inet_addr getaddrinfo (Some spec) a = spec_meaning (fields [] (take 511 spec)) a.
Proof.
  intros Hch. assert (Hs : Forall is_char (take 511 spec)) by (by apply Forall_take).
  destruct (spec_array_ok spec) as [t Et]. unfold setAddrSpec, parseSpec. rewrite Et. clear Et Hch. set (s := take 511 spec) in *.
  pose proof (chars_not_nul _ Hs) as H0.
  destruct (parse_loop_ok s (length (s ++ 0 :: t)) 32 [] [] t [] []) as (tmp & args & E & Hor);
    [apply not_elem_of_nil|done|constructor|cbn; lia|rewrite length_app; lia|].
  cbn [length app Nat.add] in E, Hor. rewrite E. cbn [mbind option_bind]. clear E t.
  destruct Hor as [[Hl Hf]|Ha].
  { rewrite Hl. cbn [Nat.ltb Nat.leb orb]. destruct (fields [] s) as [|f0 [|f1 [|f2 [|f3 fs]]]]; cbn in Hf; try lia. by destruct f0, f1. }
  pose proof (Forall2_length _ _ _ Ha) as Hlen. pose proof (fields_Forall is_char [] s (Forall_nil_2 _) Hs) as Hfc.
  destruct (fields [] s) as [|f0 [|f1 [|f2 [|f3 fs]]]]; rewrite Hlen; cbn [length Nat.ltb Nat.leb orb]; try done; [by destruct f0| | |by destruct f0, f1].
  - destruct args as [|p0 [|p1 [|]]]; try done. apply Forall2_cons in Ha as [[H00 A0] Ha]. apply Forall2_cons in Ha as [[H01 A1] _].
    cbn [lookup list_lookup mbind option_bind]. rewrite (arg_string_ok _ _ _ H00 A0), (arg_string_ok _ _ _ H01 A1). cbn [mbind option_bind].
    destruct f0 as [|x f0]; [done|]. cbn [mbind option_bind spec_meaning]. apply Forall_cons in Hfc as [Hc0 _].
    rewrite !scheme_test by done. rewrite !andb_false_r, !andb_true_r. unfold unix_meaning. repeat case_decide; by destruct f1.
  - destruct args as [|p0 [|p1 [|p2 [|]]]]; try done. apply Forall2_cons in Ha as [[H00 A0] Ha].
    apply Forall2_cons in Ha as [[H01 A1] Ha]. apply Forall2_cons in Ha as [[H02 A2] _].
    cbn [lookup list_lookup mbind option_bind]. rewrite (arg_string_ok _ _ _ H00 A0), (arg_string_ok _ _ _ H01 A1), (arg_string_ok _ _ _ H02 A2).
    cbn [mbind option_bind]. destruct f0 as [|x f0]; [done|]. cbn [mbind option_bind spec_meaning]. apply Forall_cons in Hfc as [Hc0 _].
    rewrite !scheme_test by done. rewrite !andb_false_r, !andb_true_r. unfold inet_meaning, host_of. repeat case_decide; by destruct f1, f2.
Qed.

End Meaning.

Lemma addr_spec_meaning_witness :
  let inet_addr := fun _ : list Z => 16777343 in
  let getaddrinfo := fun _ : list Z => inl (-2) : Z + Z in
  setAddrSpec inet_addr getaddrinfo (Some (lit "TCP://127.0.0.1:8080")) AddrSpec_new =
    Some (0, mkAddr true (Some SOCK_STREAM) AF_INET 16777343 8080 (replicate 108 0)) /\
  setAddrSpec inet_addr getaddrinfo (Some (lit ":127.0.0.1:8080")) AddrSpec_new = None /\
  setAddrSpec inet_addr getaddrinfo (Some (lit "tcp:127.0.0.1::")) AddrSpec_new = Some (-1, AddrSpec_new).
Proof.
  intros inet_addr getaddrinfo. rewrite !addr_spec_meaning by (apply (bool_decide_unpack _); by vm_compute).
  split; [|split]; by vm_compute.
Defined.
