(* ===== verification/Socket.v ===== *)
(** * Socket

    Sources: socket.h, socket.cpp, filecontrol.cpp and epollsocketevent.cpp
    under src/agent_engine/network/anet/.

    The class that owns a file descriptor.  The kernel is a list of answers: a
    system call takes the next one, which is its result and, for a failure, the
    value of [errno]; a kernel without answers fails with [EAGAIN], and a call
    on the descriptor [-1] with [EBADF].  The calls
    are recorded with their results, so that theorems can speak of the
    descriptors that were opened and closed.  Log messages are left out. *)

From S2P Require Import Prelude CString AddrSpec.

(** ** The kernel *)

Definition EINTR : Z := 4.
Definition EBADF : Z := 9.
Definition EAGAIN : Z := 11.
Definition EWOULDBLOCK : Z := 11.
Definition EINVAL : Z := 22.
Definition EADDRNOTAVAIL : Z := 99.
Definition EINPROGRESS : Z := 115.

Definition EPOLLIN : Z := 1.
Definition EPOLLOUT : Z := 4.

Inductive syscall :=
| SysSocket (family type : Z)
| SysClose (fd : Z)
| SysShutdown (fd : Z)
| SysBind (fd : Z)
| SysConnect (fd : Z)
| SysListen (fd : Z)
| SysAccept (fd : Z)
| SysFcntl (fd : Z)
| SysSetsockopt (fd : Z)
| SysGetsockopt (fd : Z)
| SysGetsockname (fd : Z)
| SysWrite (fd : Z)
| SysRead (fd : Z)
| SysUnlink
| SysEpollAdd (fd events : Z)
| SysEpollMod (fd events : Z)
| SysEpollDel (fd : Z).

(** [_globalAcceptConnCnt] is a static member of [Socket]. *)
Record kernel := mkKernel {
  answers : list (Z * Z);
  errno : Z;
  calls : list (syscall * Z);
  _globalAcceptConnCnt : Z
}.

Record Socket := mkSocket {
  _socketHandle : Z;
  addr : AddrSpec;
  _bindErrCnt : Z;
  _connectErrCnt : Z;
  _writeErrCnt : Z;
  _readErrCnt : Z;
  _acceptErrCnt : Z;
  _listenErrCnt : Z
}.

(** ** Programs on a socket *)

Definition SM (A : Type) : Type := Socket * kernel -> A * (Socket * kernel).

#[global] Instance SM_ret : MRet SM := fun A x s => (x, s).
#[global] Instance SM_bind : MBind SM := fun A B f m s => let '(x, s) := m s in f x s.

Definition gets {A} (f : Socket -> A) : SM A := fun s => (f s.1, s).
Definition modify (f : Socket -> Socket) : SM () := fun s => ((), (f s.1, s.2)).
Definition get_errno : SM Z := fun s => (errno s.2, s).
Definition count_conn (d : Z) : SM () := fun '(s, k) =>
  ((), (s, mkKernel (answers k) (errno k) (calls k) (i64 (_globalAcceptConnCnt k + d)))).

(** The descriptor a call is about. *)
Definition sys_fd (c : syscall) : option Z :=
  match c with
  | SysSocket _ _ | SysUnlink => None
  | SysClose fd | SysShutdown fd | SysBind fd | SysConnect fd | SysListen fd | SysAccept fd | SysFcntl fd
  | SysSetsockopt fd | SysGetsockopt fd | SysGetsockname fd | SysWrite fd | SysRead fd
  | SysEpollAdd fd _ | SysEpollMod fd _ | SysEpollDel fd => Some fd
  end.

(** A system call returns [-1] or a result that is not negative. *)
Definition sys (c : syscall) : SM Z := fun '(s, k) =>
  if decide (sys_fd c = Some (-1)) then (-1, (s, mkKernel (answers k) EBADF (calls k ++ [(c, -1)]) (_globalAcceptConnCnt k)))
  else match answers k with
  | [] => (-1, (s, mkKernel [] EAGAIN (calls k ++ [(c, -1)]) (_globalAcceptConnCnt k)))
  | (rc, e) :: ans =>
      if rc <? 0 then (-1, (s, mkKernel ans e (calls k ++ [(c, -1)]) (_globalAcceptConnCnt k)))
      else (rc, (s, mkKernel ans (errno k) (calls k ++ [(c, rc)]) (_globalAcceptConnCnt k)))
  end.

(** [do res = call; while (res < 0 && errno == EINTR)] *)
Fixpoint retry_loop (c : syscall) (ans : list (Z * Z)) (k : kernel) : Z * kernel :=
  match ans with
  | [] => (-1, mkKernel [] EAGAIN (calls k ++ [(c, -1)]) (_globalAcceptConnCnt k))
  | (rc, e) :: ans =>
      if rc <? 0 then
        let k := mkKernel ans e (calls k ++ [(c, -1)]) (_globalAcceptConnCnt k) in
        if e =? EINTR then retry_loop c ans k else (-1, k)
      else (rc, mkKernel ans (errno k) (calls k ++ [(c, rc)]) (_globalAcceptConnCnt k))
  end.

Definition retry (c : syscall) : SM Z := fun '(s, k) => let '(rc, k) := retry_loop c (answers k) k in (rc, (s, k)).

(** ** The class *)

Section Socket.

(** The global flags [MaxConnectionCount] and [EnableSocketNonBlockConnect]. *)
Context (getMaxConnectionCount : Z) (getEnableSocketNonBlockConnect : bool).

Definition set_fd (fd : Z) (s : Socket) : Socket :=
  mkSocket fd (addr s) (_bindErrCnt s) (_connectErrCnt s) (_writeErrCnt s) (_readErrCnt s) (_acceptErrCnt s) (_listenErrCnt s).
Definition set_addr (a : AddrSpec) (s : Socket) : Socket :=
  mkSocket (_socketHandle s) a (_bindErrCnt s) (_connectErrCnt s) (_writeErrCnt s) (_readErrCnt s) (_acceptErrCnt s) (_listenErrCnt s).
Definition bindErrInc (s : Socket) : Socket :=
  mkSocket (_socketHandle s) (addr s) (i64 (_bindErrCnt s + 1)) (_connectErrCnt s) (_writeErrCnt s) (_readErrCnt s) (_acceptErrCnt s) (_listenErrCnt s).
Definition connectErrInc (s : Socket) : Socket :=
  mkSocket (_socketHandle s) (addr s) (_bindErrCnt s) (i64 (_connectErrCnt s + 1)) (_writeErrCnt s) (_readErrCnt s) (_acceptErrCnt s) (_listenErrCnt s).
Definition writeErrInc (s : Socket) : Socket :=
  mkSocket (_socketHandle s) (addr s) (_bindErrCnt s) (_connectErrCnt s) (i64 (_writeErrCnt s + 1)) (_readErrCnt s) (_acceptErrCnt s) (_listenErrCnt s).
Definition readErrInc (s : Socket) : Socket :=
  mkSocket (_socketHandle s) (addr s) (_bindErrCnt s) (_connectErrCnt s) (_writeErrCnt s) (i64 (_readErrCnt s + 1)) (_acceptErrCnt s) (_listenErrCnt s).
Definition acceptErrInc (s : Socket) : Socket :=
  mkSocket (_socketHandle s) (addr s) (_bindErrCnt s) (_connectErrCnt s) (_writeErrCnt s) (_readErrCnt s) (i64 (_acceptErrCnt s + 1)) (_listenErrCnt s).
Definition listernErrInc (s : Socket) : Socket :=
  mkSocket (_socketHandle s) (addr s) (_bindErrCnt s) (_connectErrCnt s) (_writeErrCnt s) (_readErrCnt s) (_acceptErrCnt s) (i64 (_listenErrCnt s + 1)).
Definition acceptConnInc : SM () := count_conn 1.
Definition acceptConnDec : SM () := count_conn (-1).

Definition Socket_new (family : Z) : Socket :=
  mkSocket (-1) (setProtocolType SOCK_STREAM (setProtocolFamily family AddrSpec_new)) 0 0 0 0 0 0.

Definition isAddressValid : SM bool := gets (fun s => isValidState (addr s)).
Definition getSocketHandle : SM Z := gets _socketHandle.

Definition close : SM () :=
  fd ← gets _socketHandle;
  if negb (fd =? -1) then
    _ ← sys (SysClose fd);
    _ ← acceptConnDec;
    modify (set_fd (-1))
  else mret ().

Definition shutdown : SM () :=
  fd ← gets _socketHandle;
  if negb (fd =? -1) then _ ← sys (SysShutdown fd); acceptConnDec else mret ().

(** [FileControl::setCloseOnExec] *)
Definition setCloseOnExec (fd : Z) : SM bool :=
  flags ← sys (SysFcntl fd);
  if flags =? -1 then mret false
  else rc ← sys (SysFcntl fd); mret (negb (rc =? -1)).

Definition checkSocketHandle : SM bool :=
  fd ← gets _socketHandle;
  if negb (fd =? -1) then mret true
  else
    a ← gets addr;
    fd ← sys (SysSocket (getProtocolFamily a) (default 0 (getProtocolType a)));
    _ ← modify (set_fd fd);
    if fd =? -1 then mret false
    else
      ok ← setCloseOnExec fd;
      if negb ok then _ ← close; mret false else mret true.

(** [setIntOption], [setSoLinger] and [setTcpNoDelay] differ in the option. *)
Definition setIntOption : SM bool :=
  ok ← checkSocketHandle;
  if ok : bool then fd ← gets _socketHandle; rc ← sys (SysSetsockopt fd); mret (rc =? 0) else mret false.
Definition setSoLinger : SM bool := setIntOption.
Definition setTcpNoDelay : SM bool := setIntOption.
Definition setReuseAddress : SM bool := setIntOption.

Definition setSoBlocking : SM bool :=
  ok ← checkSocketHandle;
  if ok : bool then
    fd ← gets _socketHandle;
    flags ← sys (SysFcntl fd);
    if 0 <=? flags then rc ← sys (SysFcntl fd); mret (0 <=? rc) else mret false
  else mret false.

Definition setKeepAliveParameter : SM bool :=
  ok ← checkSocketHandle;
  if ok : bool then
    fd ← gets _socketHandle;
    rc ← sys (SysSetsockopt fd);
    if negb (rc =? 0) then mret false
    else
      rc ← sys (SysSetsockopt fd);
      if negb (rc =? 0) then mret false
      else rc ← sys (SysSetsockopt fd); mret (rc =? 0)
  else mret false.

Definition getPriority : SM Z :=
  ok ← checkSocketHandle;
  if ok : bool then
    fd ← gets _socketHandle;
    rc ← sys (SysGetsockopt fd);
    if rc <? 0 then get_errno else mret rc
  else mret (-1).

Definition setPriority : SM Z :=
  ok ← checkSocketHandle;
  if ok : bool then
    fd ← gets _socketHandle;
    rc ← sys (SysSetsockopt fd);
    if rc <? 0 then get_errno else mret rc
  else mret (-1).

(** The port of [getSockAddr]; the answer of [getsockname] is the port, and an
    address of another size is a failure. *)
Definition getSockPort (active : bool) : SM (option Z) :=
  if active then
    fd ← gets _socketHandle;
    rc ← sys (SysGetsockname fd);
    mret (if rc <? 0 then None else Some (u16 rc))
  else a ← gets addr; mret (Some (AddrSpec.getPort a)).

Definition getPort (active : bool) : SM Z := p ← getSockPort active; mret (default (-1) p).

(** ** Connecting *)

Definition rebindconn : SM Z :=
  fd ← gets _socketHandle;
  _ ← (if negb (fd =? -1) then _ ← sys (SysClose fd); modify (set_fd (-1)) else mret ());
  ok ← checkSocketHandle;
  if ok : bool then
    _ ← setSoLinger; _ ← setIntOption; _ ← setTcpNoDelay; _ ← setSoBlocking; _ ← setReuseAddress;
    fd ← gets _socketHandle;
    sys (SysConnect fd)
  else mret (-1).

(** What follows the calls of [connect]: [getPort] is given the descriptor as
    a [bool]. *)
Definition connect_finish (rc : Z) : SM bool :=
  e ← get_errno;
  if (rc <? 0) && negb (e =? EINPROGRESS) then _ ← modify connectErrInc; mret (rc =? 0)
  else
    fd ← gets _socketHandle;
    port ← getPort (negb (fd =? 0));
    a ← gets addr;
    if port =? AddrSpec.getPort a then
      _ ← sys (SysClose fd);
      _ ← modify (set_fd (-1));
      mret false
    else mret (rc =? 0).

(** From the check of the non-blocking flag on. *)
Definition connect_call : SM bool :=
  _ ← (if getEnableSocketNonBlockConnect then setSoBlocking else mret true);
  fd ← gets _socketHandle;
  rc ← sys (SysConnect fd);
  e ← get_errno;
  a ← gets addr;
  rc ← (if (rc =? -1) && (e =? EADDRNOTAVAIL) && negb (getProtocolFamily a =? AF_UNIX) then rebindconn else mret rc);
  connect_finish rc.

Definition connect : SM bool :=
  valid ← isAddressValid;
  if negb valid then mret false
  else
    ok ← checkSocketHandle;
    if negb ok then mret false
    else
      a ← gets addr;
      if getProtocolFamily a =? AF_UNIX then
        _ ← sys SysUnlink;
        fd ← gets _socketHandle;
        rc ← sys (SysBind fd);
        if rc <? 0 then _ ← modify bindErrInc; mret false else connect_call
      else connect_call.

Definition reconnect : SM bool := _ ← close; connect.

Definition createUDP : SM bool :=
  _ ← close;
  fd ← sys (SysSocket AF_INET SOCK_DGRAM);
  _ ← modify (set_fd fd);
  mret (negb (fd =? -1)).

(** [setUp]: the descriptor comes from [accept]. *)
Definition setUp (socketHandle : Z) (peer : AddrSpec) (family : Z) : SM () :=
  _ ← close;
  _ ← modify (set_fd socketHandle);
  modify (fun s => set_addr (setAddr family SOCK_STREAM peer (addr s)) s).

(** ** Data *)

Definition write_ (data : bool) : SM Z :=
  fd ← gets _socketHandle;
  if fd =? -1 then mret (-1)
  else if negb data then mret (-1)
  else
    res ← retry (SysWrite fd);
    e ← get_errno;
    _ ← (if (res =? -1) && negb (e =? EAGAIN) then modify writeErrInc else mret ());
    mret res.

Definition read_ (data : bool) : SM Z :=
  fd ← gets _socketHandle;
  if fd =? -1 then mret (-1)
  else if negb data then mret (-1)
  else
    res ← retry (SysRead fd);
    e ← get_errno;
    _ ← (if (res =? -1) && negb (e =? EAGAIN) then modify readErrInc else mret ());
    mret res.

Definition getSoError : SM Z :=
  fd ← gets _socketHandle;
  if fd =? -1 then mret EINVAL
  else
    lastError ← get_errno;
    soError ← sys (SysGetsockopt fd);
    mret (if soError <? 0 then lastError else soError).

(** ** Servers *)

(** The second component is what [new Socket()] gives. *)
Definition accept (peer : AddrSpec) : SM (option Socket) := fun '(s, k) =>
  let '(fd, (s, k)) := sys (SysAccept (_socketHandle s)) (s, k) in
  if 0 <=? fd then
    if (0 <? getMaxConnectionCount) && (getMaxConnectionCount <=? _globalAcceptConnCnt k) then
      let '(_, sk) := sys (SysClose fd) (s, k) in (None, sk)
    else
      let '(_, (h, k)) := setUp fd peer (getProtocolFamily (addr s)) (Socket_new AF_INET, k) in
      let '(_, (s, k)) := (if getProtocolFamily (addr s) =? AF_UNIX then _ ← sys SysUnlink; acceptConnInc else acceptConnInc) (s, k) in
      (Some h, (s, k))
  else
    (None, (if negb (errno k =? EAGAIN) then acceptErrInc s else s, k)).

Definition listen : SM bool :=
  valid ← isAddressValid;
  if negb valid then mret false
  else
    ok ← checkSocketHandle;
    if negb ok then mret false
    else
      _ ← setReuseAddress;
      a ← gets addr;
      _ ← (if getProtocolFamily a =? AF_UNIX then sys SysUnlink else mret 0);
      fd ← gets _socketHandle;
      rc ← sys (SysBind fd);
      if rc <? 0 then _ ← modify bindErrInc; mret false
      else
        rc ← sys (SysListen fd);
        if rc <? 0 then _ ← modify listernErrInc; mret false else mret true.

(** [ip_ok]: the address is empty or [inet_aton] accepts it. *)
Definition bindLocalAddress (ip_ok : bool) : SM bool :=
  ok ← checkSocketHandle;
  if negb ok then mret false
  else if negb ip_ok then mret false
  else
    fd ← gets _socketHandle;
    rc ← sys (SysBind fd);
    if rc <? 0 then _ ← modify bindErrInc; mret false else mret true.

(** ** EPollSocketEvent *)

Definition epoll_events (enableRead enableWrite : bool) : Z :=
  Z.lor (if enableRead then EPOLLIN else 0) (if enableWrite then EPOLLOUT else 0).

Definition addEvent (enableRead enableWrite : bool) : SM bool :=
  fd ← gets _socketHandle;
  rc ← sys (SysEpollAdd fd (epoll_events enableRead enableWrite));
  mret (rc =? 0).

Definition setEvent (enableRead enableWrite : bool) : SM bool :=
  fd ← gets _socketHandle;
  rc ← sys (SysEpollMod fd (epoll_events enableRead enableWrite));
  mret (rc =? 0).

Definition removeEvent : SM bool :=
  fd ← gets _socketHandle;
  rc ← sys (SysEpollDel fd);
  mret (rc =? 0).

End Socket.

(** ** Descriptors are neither leaked nor closed twice *)

Definition opened (tr : list (syscall * Z)) : list Z :=
  tr ≫= fun '(c, rc) => match c with SysSocket _ _ | SysAccept _ => if 0 <=? rc then [rc] else [] | _ => [] end.

Definition closed (tr : list (syscall * Z)) : list Z :=
  tr ≫= fun '(c, _) => match c with SysClose fd => [fd] | _ => [] end.

Definition held (s : Socket) : list Z := if _socketHandle s =? -1 then [] else [_socketHandle s].

(** From [s] and [k] to [s'] and [k'], what was held and opened is what was
    closed and is held. *)
Definition balance (s : Socket) (k : kernel) (s' : Socket) (k' : kernel) : Prop :=
  exists o c, opened (calls k') = opened (calls k) ++ o /\ closed (calls k') = closed (calls k) ++ c /\ held s ++ o ≡ₚ c ++ held s'.

(** A program started in a state with [Pre] ends in one with [Post], and keeps
    the balance. *)
Definition spec {A} (Pre : Socket -> Prop) (m : SM A) (Post : A -> Socket -> Prop) : Prop :=
  forall s k, Pre s -> let '(x, (s', k')) := m (s, k) in Post x s' /\ balance s k s' k'.

Abbreviation balanced m := (spec (fun _ => True) m (fun _ _ => True)).

(** A call that opens and closes nothing. *)
Definition plain (c : syscall) : bool :=
  match c with SysSocket _ _ | SysAccept _ | SysClose _ => false | _ => true end.

Lemma balance_refl s k : balance s k s k.
Proof. exists [], []. by rewrite !app_nil_r. Qed.

Lemma balance_trans s1 k1 s2 k2 s3 k3 : balance s1 k1 s2 k2 -> balance s2 k2 s3 k3 -> balance s1 k1 s3 k3.
Proof.
  intros (o1 & c1 & E1 & F1 & H1) (o2 & c2 & E2 & F2 & H2). exists (o1 ++ o2), (c1 ++ c2).
  rewrite E2, F2, E1, F1, !app_assoc. split_and!; [done|done|]. by rewrite H1, <- !app_assoc, H2.
Qed.

Lemma opened_snoc tr x : opened (tr ++ [x]) = opened tr ++ opened [x].
Proof. apply bind_app. Qed.
Lemma closed_snoc tr x : closed (tr ++ [x]) = closed tr ++ closed [x].
Proof. apply bind_app. Qed.

Section Spec.

Context {A B : Type}.
Implicit Types (Pre : Socket -> Prop) (m : SM A) (f : A -> SM B).

Lemma spec_bind Pre m f (Mid : A -> Socket -> Prop) (Post : B -> Socket -> Prop) :
  spec Pre m Mid -> (forall x, spec (Mid x) (f x) Post) -> spec Pre (m ≫= f) Post.
Proof.
  intros Hm Hf s k Hs. specialize (Hm s k Hs). unfold mbind, SM_bind.
  destruct (m (s, k)) as [x [s1 k1]]. destruct Hm as [Hx Hb]. specialize (Hf x s1 k1 Hx).
  destruct (f x (s1, k1)) as [y [s2 k2]]. destruct Hf as [Hy Hb2]. split; [done|]. by eapply balance_trans.
Qed.

Lemma spec_weaken Pre m (Post : A -> Socket -> Prop) (Pre' : Socket -> Prop) (Post' : A -> Socket -> Prop) :
  spec Pre m Post -> (forall s, Pre' s -> Pre s) -> (forall x s, Post x s -> Post' x s) -> spec Pre' m Post'.
Proof.
  intros Hm Hp Hq s k Hs. specialize (Hm s k (Hp s Hs)). destruct (m (s, k)) as [x [s' k']].
  destruct Hm as [Hx Hb]. split; [by apply Hq|done].
Qed.

Lemma spec_ret Pre (x : A) : spec Pre (mret x) (fun y s => Pre s /\ y = x).
Proof. intros s k Hs. split; [done|apply balance_refl]. Qed.

Lemma spec_gets Pre (g : Socket -> A) : spec Pre (gets g) (fun y s => Pre s /\ y = g s).
Proof. intros s k Hs. split; [done|apply balance_refl]. Qed.

Lemma spec_if (b : bool) Pre (m1 m2 : SM A) (Post : A -> Socket -> Prop) :
  (b = true -> spec Pre m1 Post) -> (b = false -> spec Pre m2 Post) -> spec Pre (if b then m1 else m2) Post.
Proof. destruct b; auto. Qed.

End Spec.

Lemma spec_errno Pre : spec Pre get_errno (fun _ s => Pre s).
Proof. intros s k Hs. split; [done|apply balance_refl]. Qed.

Lemma spec_modify (Pre : Socket -> Prop) f (Post : Socket -> Prop) :
  (forall s, _socketHandle (f s) = _socketHandle s) -> (forall s, Pre s -> Post (f s)) -> spec Pre (modify f) (fun _ => Post).
Proof.
  intros Hf Hp s k Hs. split; [by apply Hp|]. exists [], []. cbn [snd]. rewrite !app_nil_r. split_and!; [done|done|].
  cbn [fst]. unfold held. by rewrite Hf.
Qed.

Lemma spec_count Pre d : spec Pre (count_conn d) (fun _ s => Pre s).
Proof. intros s k Hs. split; [done|]. exists [], []. by rewrite !app_nil_r. Qed.

Lemma sys_ok c s k : exists rc k', sys c (s, k) = (rc, (s, k')) /\ -1 <= rc /\ calls k' = calls k ++ [(c, rc)].
Proof.
  unfold sys. case_decide; [by eexists _, _|]. destruct (answers k) as [|[rc e] ans]; [by eexists _, _|]. case_bool; eexists _, _; (split; [reflexivity|split; [lia|done]]).
Qed.

Lemma plain_calls c rc : plain c = true -> opened [(c, rc)] = [] /\ closed [(c, rc)] = [].
Proof. by destruct c. Qed.

Lemma spec_sys Pre c : plain c = true -> spec Pre (sys c) (fun _ s => Pre s).
Proof.
  intros Hc s k Hs. destruct (sys_ok c s k) as (rc & k' & -> & _ & E). split; [done|]. exists [], [].
  rewrite E, opened_snoc, closed_snoc, (proj1 (plain_calls c rc Hc)), (proj2 (plain_calls c rc Hc)), !app_nil_r. done.
Qed.

Lemma retry_calls c ans : plain c = true -> forall k, opened (calls (retry_loop c ans k).2) = opened (calls k) /\
  closed (calls (retry_loop c ans k).2) = closed (calls k).
Proof.
  intros Hc.
  induction ans as [|[rc e] ans IH]; intros k; cbn [retry_loop]; repeat case_bool;
    rewrite ?(proj1 (IH _)), ?(proj2 (IH _)); cbn [snd calls]; rewrite opened_snoc, closed_snoc;
    by rewrite (proj1 (plain_calls _ _ Hc)), (proj2 (plain_calls _ _ Hc)), !app_nil_r.
Qed.

Lemma spec_retry Pre c : plain c = true -> spec Pre (retry c) (fun _ s => Pre s).
Proof.
  intros Hc s k Hs. unfold retry. destruct (retry_calls c (answers k) Hc k) as [E1 E2].
  destruct (retry_loop c (answers k) k) as [rc k']. split; [done|]. exists [], []. cbn in E1, E2. by rewrite E1, E2, !app_nil_r.
Qed.

(** Opening when nothing is held, closing what is held. *)
Lemma spec_open {B} fam typ (f : Z -> SM B) (Post : B -> Socket -> Prop) :
  (forall fd, spec (fun s => _socketHandle s = fd) (f fd) Post) ->
  spec (fun s => _socketHandle s = -1) (fd ← sys (SysSocket fam typ); _ ← modify (set_fd fd); f fd) Post.
Proof.
  intros Hf s k Hs. unfold mbind, SM_bind, modify. destruct (sys_ok (SysSocket fam typ) s k) as (rc & k' & -> & Hrc & E).
  specialize (Hf rc (set_fd rc s) k' eq_refl). cbn [fst snd]. destruct (f rc _) as [y [s2 k2]]. destruct Hf as [Hy Hb]. split; [done|].
  eapply balance_trans; [|exact Hb]. exists (if 0 <=? rc then [rc] else []), [].
  rewrite E, opened_snoc, closed_snoc. unfold opened at 2, closed at 2. cbn. rewrite !app_nil_r. split_and!; [done|done|].
  unfold held. cbn [set_fd _socketHandle]. rewrite Hs. cbn. destruct (Z.leb_spec 0 rc); destruct (Z.eqb_spec rc (-1)); try lia; done.
Qed.

Lemma spec_release {B} fd (m : SM B) (Post : B -> Socket -> Prop) :
  fd <> -1 -> spec (fun s => _socketHandle s = -1) m Post ->
  spec (fun s => _socketHandle s = fd) (_ ← sys (SysClose fd); _ ← modify (set_fd (-1)); m) Post.
Proof.
  intros Hfd Hm s k Hs. unfold mbind, SM_bind, modify. destruct (sys_ok (SysClose fd) s k) as (rc & k' & -> & _ & E).
  specialize (Hm (set_fd (-1) s) k' eq_refl). cbn [fst snd]. destruct (m _) as [y [s2 k2]]. destruct Hm as [Hy Hb]. split; [done|].
  eapply balance_trans; [|exact Hb]. exists [], [fd]. rewrite E, opened_snoc, closed_snoc, !app_nil_r. split_and!; [done|done|].
  unfold held. cbn [set_fd _socketHandle]. rewrite Hs, (proj2 (Z.eqb_neq fd (-1))) by done. done.
Qed.

Lemma spec_release_end fd :
  fd <> -1 -> spec (fun s => _socketHandle s = fd) (_ ← sys (SysClose fd); modify (set_fd (-1))) (fun _ _ => True).
Proof.
  intros Hfd s k Hs. pose proof (spec_release fd (mret ()) (fun _ _ => True) Hfd) as H.
  specialize (H ltac:(by eapply spec_weaken; [apply (spec_ret (fun _ => True))|..]) s k Hs).
  unfold mbind, SM_bind, mret, SM_ret in *. by destruct (sys _ _) as [? [? ?]].
Qed.

(** ** Balanced programs *)

Create HintDb balance.

Section BalancedSteps.

Context {A B : Type}.
Implicit Types (m : SM A) (f : A -> SM B).

Lemma balanced_spec Pre m (Post : A -> Socket -> Prop) : spec Pre m Post -> (forall s, Pre s) -> balanced m.
Proof. intros Hm Hp. by eapply spec_weaken. Qed.

Lemma balanced_bind m f : balanced m -> (forall x, balanced (f x)) -> balanced (m ≫= f).
Proof. intros Hm Hf. by eapply spec_bind. Qed.

Lemma balanced_ret (x : A) : balanced (mret x).
Proof. by eapply balanced_spec; [apply (spec_ret (fun _ => True))|]. Qed.

Lemma balanced_gets (g : Socket -> A) : balanced (gets g).
Proof. by eapply balanced_spec; [apply (spec_gets (fun _ => True))|]. Qed.

Lemma balanced_if (b : bool) m1 m2 : balanced m1 -> balanced m2 -> balanced (if b then m1 else m2).
Proof. by destruct b. Qed.

End BalancedSteps.

Lemma balanced_modify f : (forall s, _socketHandle (f s) = _socketHandle s) -> balanced (modify f).
Proof. intros Hf. by apply spec_modify. Qed.

Lemma balanced_errno : balanced get_errno.
Proof. apply (spec_errno (fun _ => True)). Qed.

Lemma balanced_count d : balanced (count_conn d).
Proof. apply (spec_count (fun _ => True)). Qed.

Lemma balanced_sys c : plain c = true -> balanced (sys c).
Proof. apply (spec_sys (fun _ => True)). Qed.

Lemma balanced_retry c : plain c = true -> balanced (retry c).
Proof. apply (spec_retry (fun _ => True)). Qed.

#[export] Hint Resolve balanced_bind balanced_ret balanced_gets balanced_if balanced_modify : balance.
#[export] Hint Resolve balanced_errno balanced_count balanced_sys balanced_retry : balance.
#[export] Hint Extern 1 (plain _ = true) => reflexivity : balance.
#[export] Hint Extern 1 (balanced (let '(_, _) := ?p in _)) => destruct p : balance.

(** Unfold the head of the program and search. *)
Ltac balance_auto := intros; auto 30 with balance nocore.

(** ** The operations *)

Section Balanced.

Context (getMaxConnectionCount : Z) (getEnableSocketNonBlockConnect : bool).

(** A program that starts with a look at the descriptor. *)
Lemma spec_fd {A} (f : Z -> SM A) (Post : A -> Socket -> Prop) :
  (forall fd, spec (fun s => _socketHandle s = fd) (f fd) Post) -> spec (fun _ => True) (gets _socketHandle ≫= f) Post.
Proof. intros Hf s k _. exact (Hf (_socketHandle s) s k eq_refl). Qed.

Lemma spec_true {A} Pre (m : SM A) : balanced m -> spec Pre m (fun _ _ => True).
Proof. intros Hm. by eapply spec_weaken. Qed.

Lemma close_spec : spec (fun _ => True) close (fun _ s => _socketHandle s = -1).
Proof.
  intros s k _. unfold close, mbind, SM_bind, gets. cbn [fst]. destruct (Z.eqb_spec (_socketHandle s) (-1)) as [E|E]; cbn [negb].
  - split; [done|apply balance_refl].
  - destruct (sys_ok (SysClose (_socketHandle s)) s k) as (rc & k' & -> & _ & Ec). cbn. split; [done|]. exists [], [_socketHandle s].
    cbn [calls]. rewrite Ec, opened_snoc, closed_snoc, !app_nil_r. split_and!; [done|done|]. unfold held at 1.
    by rewrite (proj2 (Z.eqb_neq _ _) E).
Qed.

Lemma close_balanced : balanced close.
Proof. eapply balanced_spec; [apply close_spec|done]. Qed.
#[local] Hint Resolve close_balanced : balance.

Lemma shutdown_balanced : balanced shutdown.
Proof. unfold shutdown, acceptConnDec. balance_auto. Qed.

Lemma setCloseOnExec_balanced fd : balanced (setCloseOnExec fd).
Proof. unfold setCloseOnExec. balance_auto. Qed.
#[local] Hint Resolve setCloseOnExec_balanced : balance.

Lemma checkSocketHandle_balanced : balanced checkSocketHandle.
Proof.
  apply spec_fd. intros fd. destruct (Z.eqb_spec fd (-1)) as [->|]; cbn [negb]; [|apply spec_true; balance_auto].
  eapply spec_bind; [apply spec_gets|]. intros a. apply (spec_weaken (fun s => _socketHandle s = -1) _ (fun _ _ => True)); [|by intros s [Hs _]|done].
  apply spec_open. intros fd. apply spec_true. balance_auto.
Qed.
#[local] Hint Resolve checkSocketHandle_balanced : balance.

Lemma setIntOption_balanced : balanced setIntOption.
Proof. unfold setIntOption. balance_auto. Qed.
#[local] Hint Resolve setIntOption_balanced : balance.

Lemma setSoBlocking_balanced : balanced setSoBlocking.
Proof. unfold setSoBlocking. balance_auto. Qed.
#[local] Hint Resolve setSoBlocking_balanced : balance.

Lemma setSoLinger_balanced : balanced setSoLinger.
Proof. apply setIntOption_balanced. Qed.
Lemma setTcpNoDelay_balanced : balanced setTcpNoDelay.
Proof. apply setIntOption_balanced. Qed.
Lemma setReuseAddress_balanced : balanced setReuseAddress.
Proof. apply setIntOption_balanced. Qed.
#[local] Hint Resolve setSoLinger_balanced setTcpNoDelay_balanced setReuseAddress_balanced : balance.

Lemma setKeepAliveParameter_balanced : balanced setKeepAliveParameter.
Proof. unfold setKeepAliveParameter. balance_auto. Qed.

Lemma getPriority_balanced : balanced getPriority.
Proof. unfold getPriority. balance_auto. Qed.

Lemma setPriority_balanced : balanced setPriority.
Proof. unfold setPriority. balance_auto. Qed.

Lemma getPort_balanced active : balanced (getPort active).
Proof. unfold getPort, getSockPort. balance_auto. Qed.
#[local] Hint Resolve getPort_balanced : balance.

(** Closing the descriptor and going on. *)
Lemma release_balanced {A} fd (m : SM A) :
  balanced m -> fd <> -1 -> spec (fun s => _socketHandle s = fd) (_ ← sys (SysClose fd); _ ← modify (set_fd (-1)); m) (fun _ _ => True).
Proof. intros Hm Hfd. apply spec_release; [done|]. by apply spec_true. Qed.

Lemma rebindconn_balanced : balanced rebindconn.
Proof.
  apply spec_fd. intros fd. apply (spec_bind _ _ _ (fun _ _ => True)); [|balance_auto].
  apply spec_if; intros E; [|apply spec_true; balance_auto]. apply (spec_release_end fd). by destruct (Z.eqb_spec fd (-1)).
Qed.
#[local] Hint Resolve rebindconn_balanced : balance.

(** A descriptor that is not open has no port. *)
Lemma getPort_spec fd : spec (fun s => _socketHandle s = fd) (getPort (negb (fd =? 0)))
  (fun port s => _socketHandle s = fd /\ (fd = -1 -> port = -1)).
Proof.
  intros s k Hs. unfold getPort, getSockPort. destruct (Z.eqb_spec fd 0) as [->|E]; cbn [negb].
  - split; [split; [done|lia]|apply balance_refl].
  - pose proof (spec_sys (fun s => _socketHandle s = fd) (SysGetsockname fd) eq_refl s k Hs) as Hp.
    unfold mbind, SM_bind, gets, mret, SM_ret. cbn [fst]. rewrite Hs.
    assert (Hbad : fd = -1 -> (sys (SysGetsockname fd) (s, k)).1 = -1) by (intros ->; unfold sys; by case_decide).
    destruct (sys _ _) as [rc [s' k']]. destruct Hp as [Hs' Hb]. split; [|done]. split; [done|]. intros Hfd.
    cbn in Hbad. by rewrite (Hbad Hfd).
Qed.

Lemma connect_finish_balanced rc : balanced (connect_finish rc).
Proof.
  unfold connect_finish. apply balanced_bind; [balance_auto|]. intros e. apply balanced_if; [balance_auto|].
  apply spec_fd. intros fd. eapply spec_bind; [apply getPort_spec|]. intros port. cbv beta.
  eapply spec_bind; [apply spec_gets|]. intros a. cbv beta. apply spec_if; intros E; [|apply spec_true; balance_auto].
  bool_to_prop. pose proof (wrapu_range 16 (if sa_family a =? AF_UNIX then be_value (take 2 (sun_path a)) else sin_port a)) as Hr.
  fold (AddrSpec.getPort a) in Hr.
  destruct (decide (fd = -1)) as [Hfd|Hfd].
  - intros s k ((Hs & Hp) & _). specialize (Hp Hfd). lia.
  - apply (spec_weaken (fun s => _socketHandle s = fd) _ (fun _ _ => True)); [|by intros s [[Hs Hp] Ha]|done].
    apply release_balanced; [balance_auto|done].
Qed.
#[local] Hint Resolve connect_finish_balanced : balance.

Abbreviation connect := (connect getEnableSocketNonBlockConnect).

Lemma connect_balanced : balanced connect.
Proof. unfold Socket.connect, connect_call, isAddressValid. balance_auto. Qed.
#[local] Hint Resolve connect_balanced : balance.

Lemma reconnect_balanced : balanced (reconnect getEnableSocketNonBlockConnect).
Proof. unfold reconnect. balance_auto. Qed.

Lemma createUDP_balanced : balanced createUDP.
Proof.
  unfold createUDP. eapply spec_bind; [apply close_spec|]. intros x. cbv beta. apply spec_open. intros fd. apply spec_true. balance_auto.
Qed.

Lemma write_balanced data : balanced (write_ data).
Proof. unfold write_. balance_auto. Qed.

Lemma read_balanced data : balanced (read_ data).
Proof. unfold read_. balance_auto. Qed.

Lemma getSoError_balanced : balanced getSoError.
Proof. unfold getSoError. balance_auto. Qed.

Lemma listen_balanced : balanced listen.
Proof. unfold listen, isAddressValid. balance_auto. Qed.

Lemma bindLocalAddress_balanced ip_ok : balanced (bindLocalAddress ip_ok).
Proof. unfold bindLocalAddress. balance_auto. Qed.

Lemma addEvent_balanced r w : balanced (addEvent r w).
Proof. unfold addEvent. balance_auto. Qed.

Lemma setEvent_balanced r w : balanced (setEvent r w).
Proof. unfold setEvent. balance_auto. Qed.

Lemma removeEvent_balanced : balanced removeEvent.
Proof. unfold removeEvent. balance_auto. Qed.

(** [accept] may hand a descriptor to a new socket. *)
Lemma accept_balanced peer s k h s' k' :
  accept getMaxConnectionCount peer (s, k) = (h, (s', k')) ->
  exists o c, opened (calls k') = opened (calls k) ++ o /\ closed (calls k') = closed (calls k) ++ c /\
    held s ++ o ≡ₚ c ++ held s' ++ from_option held [] h.
Proof.
  intros E. unfold accept in E. destruct (sys_ok (SysAccept (_socketHandle s)) s k) as (fd & k1 & Es & Hfd & Ec). rewrite Es in E.
  destruct (Z.leb_spec 0 fd) as [H0|H0].
  2:{ injection E as <- <- <-. exists [], []. rewrite Ec, opened_snoc, closed_snoc. unfold opened at 2, closed at 2. cbn.
      rewrite (proj2 (Z.leb_gt 0 fd)) by lia. cbn. rewrite !app_nil_r. split_and!; try done. by destruct (negb _). }
  assert (Eo : opened (calls k1) = opened (calls k) ++ [fd]).
  { rewrite Ec, opened_snoc. unfold opened at 2. cbn. by rewrite (proj2 (Z.leb_le 0 fd)) by lia. }
  assert (El : closed (calls k1) = closed (calls k)) by (rewrite Ec, closed_snoc; apply app_nil_r).
  destruct (_ && _).
  - destruct (sys_ok (SysClose fd) s k1) as (rc & k2 & E2 & _ & Ec2). rewrite E2 in E. injection E as <- <- <-. exists [fd], [fd].
    rewrite Ec2, opened_snoc, closed_snoc, Eo, El. cbn. rewrite !app_nil_r. split_and!; try done. by rewrite Permutation_app_comm.
  - assert (Hup : exists h0, setUp fd peer (getProtocolFamily (addr s)) (Socket_new AF_INET, k1) = ((), (h0, k1)) /\ _socketHandle h0 = fd)
      by (eexists; split; reflexivity).
    destruct Hup as (h0 & Eh & Efd). rewrite Eh in E. set (m := if _ =? AF_UNIX then _ else _) in E.
    assert (Hm : balanced m) by (unfold m, acceptConnInc; destruct (_ =? AF_UNIX); balance_auto).
    specialize (Hm s k1 I).
    destruct (m (s, k1)) as [[] [s2 k2]] eqn:Em. injection E as <- <- <-. destruct Hm as [_ (o & c & E1 & E2 & HP)].
    exists (fd :: o), c. rewrite E1, E2, Eo, El, <- app_assoc. split_and!; [done|done|]. cbn [from_option]. unfold held at 3.
    rewrite Efd, (proj2 (Z.eqb_neq fd (-1))) by lia. rewrite <- Permutation_middle, HP. rewrite app_assoc. by rewrite (Permutation_app_comm _ [fd]).
Qed.

End Balanced.

(** ** All sockets of a program *)

Inductive sock_op :=
| OSetAddr (a : AddrSpec)
| OConnect | OReconnect | OClose | OShutdown | OCreateUDP | OListen
| OBind (ip_ok : bool)
| OWrite (data : bool) | ORead (data : bool)
| OSetOption | OSetBlocking | OKeepAlive | OGetPriority | OSetPriority
| OGetPort (active : bool) | OGetSoError
| OAddEvent (r w : bool) | OSetEvent (r w : bool) | ORemoveEvent.

Section Network.

Context (getMaxConnectionCount : Z) (getEnableSocketNonBlockConnect : bool).

Definition ignore {A} (m : SM A) : SM () := _ ← m; mret ().

Definition sock_run (op : sock_op) : SM () :=
  match op with
  | OSetAddr a => modify (set_addr a)
  | OConnect => ignore (connect getEnableSocketNonBlockConnect)
  | OReconnect => ignore (reconnect getEnableSocketNonBlockConnect)
  | OClose => close
  | OShutdown => shutdown
  | OCreateUDP => ignore createUDP
  | OListen => ignore listen
  | OBind ip_ok => ignore (bindLocalAddress ip_ok)
  | OWrite data => ignore (write_ data)
  | ORead data => ignore (read_ data)
  | OSetOption => ignore setIntOption
  | OSetBlocking => ignore setSoBlocking
  | OKeepAlive => ignore setKeepAliveParameter
  | OGetPriority => ignore getPriority
  | OSetPriority => ignore setPriority
  | OGetPort active => ignore (getPort active)
  | OGetSoError => ignore getSoError
  | OAddEvent r w => ignore (addEvent r w)
  | OSetEvent r w => ignore (setEvent r w)
  | ORemoveEvent => ignore removeEvent
  end.

Lemma sock_run_balanced op : balanced (sock_run op).
Proof.
  assert (Hi : forall A (m : SM A), balanced m -> balanced (ignore m)) by (intros A m Hm; unfold ignore; balance_auto).
  destruct op; cbn [sock_run]; try apply Hi;
    auto using connect_balanced, reconnect_balanced, close_balanced, shutdown_balanced, createUDP_balanced, listen_balanced,
      bindLocalAddress_balanced, write_balanced, read_balanced, setIntOption_balanced, setSoBlocking_balanced,
      setKeepAliveParameter_balanced, getPriority_balanced, setPriority_balanced, getPort_balanced, getSoError_balanced,
      addEvent_balanced, setEvent_balanced, removeEvent_balanced.
  by apply balanced_modify.
Qed.

(** The sockets of a process; deleting one runs its destructor. *)
Record net := mkNet { socks : list Socket; kern : kernel }.

Inductive net_op :=
| NNew (family : Z)
| NOp (i : nat) (op : sock_op)
| NAccept (i : nat) (peer : AddrSpec)
| NDelete (i : nat).

Definition net_run (n : net) (op : net_op) : option net :=
  match op with
  | NNew family => Some (mkNet (socks n ++ [Socket_new family]) (kern n))
  | NOp i op =>
      s ← socks n !! i;
      let '(_, (s, k)) := sock_run op (s, kern n) in Some (mkNet (<[i := s]> (socks n)) k)
  | NAccept i peer =>
      s ← socks n !! i;
      let '(h, (s, k)) := accept getMaxConnectionCount peer (s, kern n) in
      Some (mkNet (<[i := s]> (socks n) ++ option_list h) k)
  | NDelete i =>
      s ← socks n !! i;
      let '(_, (_, k)) := close (s, kern n) in Some (mkNet (delete i (socks n)) k)
  end.

Fixpoint net_runs (n : net) (ops : list net_op) : option net :=
  match ops with [] => Some n | op :: ops => n ← net_run n op; net_runs n ops end.

Definition held_all (l : list Socket) : list Z := l ≫= held.

Lemma split_at (l : list Socket) i s : l !! i = Some s ->
  exists l1 l2, l = l1 ++ s :: l2 /\ delete i l = l1 ++ l2 /\ forall s', <[i := s']> l = l1 ++ s' :: l2.
Proof.
  intros Hi. pose proof (lookup_lt_Some _ _ _ Hi). exists (take i l), (drop (S i) l).
  split_and!; [by rewrite take_drop_middle|by rewrite delete_take_drop|]. intros s'. by rewrite insert_take_drop.
Qed.

Lemma held_all_app l1 l2 : held_all (l1 ++ l2) = held_all l1 ++ held_all l2.
Proof. apply bind_app. Qed.

(** Replacing a socket that kept the balance; [new] are new sockets. *)
Lemma held_replace l1 l2 s s' o c op cl new :
  op ≡ₚ cl ++ held_all (l1 ++ s :: l2) -> held s ++ o ≡ₚ c ++ held_all s' ++ held_all new ->
  op ++ o ≡ₚ (cl ++ c) ++ held_all (l1 ++ s' ++ l2 ++ new).
Proof.
  intros H1 H2. rewrite H1. change (s :: l2) with ([s] ++ l2). rewrite !held_all_app.
  assert (E : held_all [s] = held s) by apply app_nil_r. rewrite E.
  transitivity (cl ++ held_all l1 ++ held_all l2 ++ (held s ++ o)); [solve_Permutation|]. rewrite H2. solve_Permutation.
Qed.

Lemma net_run_balanced n op n' :
  net_run n op = Some n' -> opened (calls (kern n)) ≡ₚ closed (calls (kern n)) ++ held_all (socks n) ->
  opened (calls (kern n')) ≡ₚ closed (calls (kern n')) ++ held_all (socks n').
Proof.
  intros E H. destruct op as [family|i op|i peer|i]; cbn [net_run] in E.
  - injection E as <-. cbn [kern socks]. rewrite held_all_app. cbn. by rewrite !app_nil_r.
  - apply bind_Some_inv in E as (s & (l1 & l2 & El & _ & Ei)%split_at & E). rewrite El in H.
    pose proof (sock_run_balanced op s (kern n) I) as Hb. destruct (sock_run op _) as [u [s' k']]. destruct Hb as [_ (o & c & E1 & E2 & HP)].
    injection E as <-. cbn [kern socks]. rewrite E1, E2, Ei.
    assert (HP' : held s ++ o ≡ₚ c ++ held_all [s'] ++ held_all []) by (cbn; by rewrite !app_nil_r).
    pose proof (held_replace l1 l2 s [s'] o c _ _ [] H HP') as Hr. by rewrite app_nil_r in Hr.
  - apply bind_Some_inv in E as (s & (l1 & l2 & El & _ & Ei)%split_at & E). rewrite El in H.
    destruct (accept _ _ _) as [h [s' k']] eqn:Ea. destruct (accept_balanced _ _ _ _ _ _ _ Ea) as (o & c & E1 & E2 & HP).
    injection E as <-. cbn [kern socks]. rewrite E1, E2, Ei.
    assert (HP' : held s ++ o ≡ₚ c ++ held_all [s'] ++ held_all (option_list h)) by (rewrite HP; unfold held_all; destruct h; simpl; by rewrite ?app_nil_r).
    rewrite <- (app_assoc l1 (s' :: l2)). exact (held_replace l1 l2 s [s'] o c _ _ _ H HP').
  - apply bind_Some_inv in E as (s & (l1 & l2 & El & Ed & _)%split_at & E). rewrite El in H.
    pose proof (close_spec s (kern n) I) as Hb. destruct (close _) as [u [s' k']]. destruct Hb as [Hs' (o & c & E1 & E2 & HP)].
    injection E as <-. cbn [kern socks]. rewrite E1, E2, Ed.
    assert (HP' : held s ++ o ≡ₚ c ++ held_all [] ++ held_all []) by (rewrite HP; unfold held; by rewrite Hs').
    pose proof (held_replace l1 l2 s [] o c _ _ [] H HP') as Hr. by rewrite app_nil_r in Hr.
Qed.

End Network.

Section Descriptors.

Context (getMaxConnectionCount : Z) (getEnableSocketNonBlockConnect : bool).

(** C21: No descriptor is leaked and none is closed twice.  Whatever the
    kernel answers, through any sequence of operations on any number of
    sockets, connecting again and rebinding, accepted sockets and deleted ones
    included, the descriptors [socket] and [accept] returned are exactly those
    passed to [close] and those a living socket holds, counted with
    multiplicity; when every socket has been deleted, all have been closed. *)
Theorem socket_descriptors_conserved ans ops n :
  net_runs getMaxConnectionCount getEnableSocketNonBlockConnect (mkNet [] (mkKernel ans 0 [] 0)) ops = Some n ->
  opened (calls (kern n)) ≡ₚ closed (calls (kern n)) ++ held_all (socks n) /\
  (socks n = [] -> opened (calls (kern n)) ≡ₚ closed (calls (kern n))).
Proof.
  intros E. enough (Hb : opened (calls (kern n)) ≡ₚ closed (calls (kern n)) ++ held_all (socks n)).
  { split; [done|]. intros En. by rewrite Hb, En, app_nil_r. }
  assert (H0 : opened (calls (kern (mkNet [] (mkKernel ans 0 [] 0)))) ≡ₚ
    closed (calls (kern (mkNet [] (mkKernel ans 0 [] 0)))) ++ held_all (socks (mkNet [] (mkKernel ans 0 [] 0)))) by done.
  revert E H0. generalize (mkNet [] (mkKernel ans 0 [] 0)). induction ops as [|op ops IH]; intros n0 E H0; [by injection E as <-|].
  cbn [net_runs] in E. apply bind_Some_inv in E as (n1 & E1 & E). eapply IH; [exact E|]. by eapply net_run_balanced.
Qed.

End Descriptors.

(** An address, as [setAddrSpec] leaves it. *)
Definition sample_addr : AddrSpec := mkAddr true (Some SOCK_STREAM) AF_INET 16777343 8080 (replicate 108 0).

(** A client whose first port is taken: [connect] fails with [EADDRNOTAVAIL]
    and is tried again on a new descriptor; then the socket is deleted. *)
Definition sample_ops : list net_op := [NNew AF_INET; NOp 0 (OSetAddr sample_addr); NOp 0 OConnect; NDelete 0].
Definition sample_answers : list (Z * Z) :=
  [(7, 0); (0, 0); (0, 0); (0, 0); (0, 0);                          (* socket, two fcntl, two fcntl *)
   (-1, EADDRNOTAVAIL); (0, 0);                                      (* connect, close *)
   (8, 0); (0, 0); (0, 0); (0, 0); (0, 0); (0, 0); (0, 0); (0, 0); (0, 0);   (* socket and its options *)
   (-1, EINPROGRESS); (40000, 0); (0, 0)].                           (* connect, getsockname, close *)

Lemma socket_descriptors_conserved_witness :
  exists n, net_runs 0 true (mkNet [] (mkKernel sample_answers 0 [] 0)) sample_ops = Some n /\
    opened (calls (kern n)) = [7; 8] /\ opened (calls (kern n)) ≡ₚ closed (calls (kern n)).
Proof.
  eexists. split; [vm_compute; reflexivity|]. split; [vm_compute; reflexivity|].
  refine (proj2 (socket_descriptors_conserved 0 true sample_answers sample_ops _ _) _); vm_compute; reflexivity.
Defined.

(** ** Two defects *)

(** The limit on accepted connections counts every socket that is closed: a
    client socket that was never accepted makes room for one more. *)
Definition limit_ops : list net_op :=
  [NNew AF_INET; NOp 0 (OSetAddr sample_addr); NOp 0 OListen;
   NAccept 0 sample_addr;                                            (* the first connection *)
   NNew AF_INET; NOp 2 (OSetAddr sample_addr); NOp 2 OConnect; NOp 2 OClose;   (* an outgoing one *)
   NAccept 0 sample_addr].                                           (* the second connection *)
Definition limit_answers : list (Z * Z) :=
  [(5, 0); (0, 0); (0, 0); (0, 0); (0, 0); (0, 0);                   (* listen *)
   (6, 0);                                                           (* accept *)
   (7, 0); (0, 0); (0, 0); (0, 0); (0, 0); (-1, EINPROGRESS); (40000, 0); (0, 0);   (* connect and close *)
   (8, 0)].                                                          (* accept *)

Theorem accept_limit_exceeded :
  exists n, net_runs 1 true (mkNet [] (mkKernel limit_answers 0 [] 0)) limit_ops = Some n /\
    held_all (socks n) = [5; 6; 8] /\ _globalAcceptConnCnt (kern n) = 1.
Proof. eexists. split; [vm_compute; reflexivity|]. by vm_compute. Qed.

(** [getPort] takes a [bool], so descriptor 0 is asked for the address the
    user set, which is its own port, and the connection is closed as one to
    itself. *)
Theorem connect_descriptor_zero :
  let s := set_addr sample_addr (Socket_new AF_INET) in
  let k := mkKernel [(0, 0); (0, 0); (0, 0); (0, 0); (0, 0); (0, 0); (0, 0)] 0 [] 0 in
  let '(ok, (s', k')) := connect true (s, k) in
  ok = false /\ _socketHandle s' = -1 /\ closed (calls k') = [0].
Proof. by vm_compute. Qed.
