(* ===== verification/Float32.v ===== *)
(** * Single-precision arithmetic used by [DataBuffer::expand]

    [expand] (src/agent_engine/network/anet/databuffer.h) computes the size of
    a grown buffer in a C++ [float].  This file models the IEEE-754 binary32
    operations that code uses on non-negative numbers that are integers or
    fractions of at most 23 bits: a number is held as an integer count of
    [2^-23], and every operation rounds to 24 significant bits, to nearest,
    ties to even.  The lemmas bound the rounding error and say on which
    numbers the operations are exact. *)

From S2P Require Import Prelude.

Definition F32_ONE : Z := 2 ^ 23.

Definition rne_div (a k : Z) : Z :=
  let q := a / 2 ^ k in
  let r := a mod 2 ^ k in
  let half := 2 ^ (k - 1) in
  if r <? half then q
  else if half <? r then q + 1
  else if Z.even q then q else q + 1.

Definition f32_round (x : Z) : Z :=
  let k := Z.log2 (Z.abs x) - 23 in
  if k <=? 0 then x else Z.sgn x * (rne_div (Z.abs x) k * 2 ^ k).

Definition f32_of_int (n : Z) : Z := f32_round (n * F32_ONE).
Definition f32_sub (x y : Z) : Z := f32_round (x - y).

(** [x *= 1.5]: the product is computed in [double], where it is exact, and
    then rounded to [float].  [x] is even for every float of value at least
    two, so the integer division is exact. *)
Definition f32_mul_3_2 (x : Z) : Z := f32_round (x * 3 / 2).

(** [(int)x] truncates. *)
Definition f32_to_int (x : Z) : Z := x / F32_ONE.

(** A number with a 24-bit significand. *)
Definition is_f32 (x : Z) : Prop := exists k, 0 <= k /\ (2 ^ k | x) /\ x <= 2 ^ (24 + k).

Lemma f32_round_pos x : 0 <= x ->
  f32_round x = if Z.log2 x - 23 <=? 0 then x else rne_div x (Z.log2 x - 23) * 2 ^ (Z.log2 x - 23).
Proof.
  intros Hx. unfold f32_round. rewrite Z.abs_eq by lia.
  case_bool; [done|]. assert (0 < x).
  { destruct (decide (x = 0)) as [->|]; [|lia]. simpl in *. lia. }
  rewrite Z.sgn_pos by lia. lia.
Qed.

Lemma rne_div_cases a k : rne_div a k = a / 2 ^ k \/ rne_div a k = a / 2 ^ k + 1.
Proof. unfold rne_div. repeat case_bool; auto. Qed.

Lemma rne_div_exact a k : 0 < k -> (2 ^ k | a) -> rne_div a k = a / 2 ^ k.
Proof.
  intros Hk Ha. unfold rne_div.
  assert (0 < 2 ^ (k - 1)) by (apply Z.pow_pos_nonneg; lia).
  rewrite (proj2 (Z.mod_divide a (2 ^ k) ltac:(apply Z.pow_nonzero; lia)) Ha).
  case_bool; [done|lia].
Qed.

Lemma f32_round_exact x k :
  0 <= k -> 0 <= x -> (2 ^ k | x) -> x <= 2 ^ (24 + k) -> f32_round x = x.
Proof.
  intros Hk Hx Hd Hle. rewrite f32_round_pos by done. case_bool; [done|].
  set (j := Z.log2 x - 23) in *.
  assert (Hx0 : 0 < x).
  { destruct (decide (x = 0)) as [->|]; [|lia]. subst j. simpl in *. lia. }
  assert (Hj : (2 ^ j | x)).
  { destruct (decide (x = 2 ^ (24 + k))) as [->|Hne].
    - subst j. rewrite Z.log2_pow2 by lia. exists (2 ^ 23).
      rewrite <- Z.pow_add_r by lia. f_equal; lia.
    - etrans; [|exact Hd]. exists (2 ^ (k - j)). rewrite <- Z.pow_add_r; [f_equal; lia| |lia].
      assert (Z.log2 x < 24 + k); [|lia]. apply Z.log2_lt_pow2; lia. }
  rewrite rne_div_exact by (lia || done).
  assert (0 < 2 ^ j) by (apply Z.pow_pos_nonneg; lia).
  pose proof (Z.div_mod x (2 ^ j)). apply Z.mod_divide in Hj; lia.
Qed.

Lemma is_f32_round x : is_f32 x -> 0 <= x -> f32_round x = x.
Proof. intros (k & ? & ? & ?) ?. by apply f32_round_exact with k. Qed.

(** Rounding moves a number by less than one unit in the last place. *)
Lemma f32_round_bounds x : 0 <= x ->
  x - x / 2 ^ 23 <= f32_round x <= x + x / 2 ^ 23.
Proof.
  intros Hx. rewrite f32_round_pos by done. case_bool.
  { assert (0 <= x / 2 ^ 23) by (apply Z.div_pos; lia). lia. }
  set (j := Z.log2 x - 23) in *.
  assert (Hx0 : 0 < x).
  { destruct (decide (x = 0)) as [->|]; [|lia]. subst j. simpl in *. lia. }
  assert (Hp : 0 < 2 ^ j) by (apply Z.pow_pos_nonneg; lia).
  assert (Hu : 2 ^ j <= x / 2 ^ 23).
  { apply Z.div_le_lower_bound; [lia|]. rewrite <- Z.pow_add_r by lia.
    subst j. replace (23 + (Z.log2 x - 23)) with (Z.log2 x) by lia.
    by apply Z.log2_spec. }
  pose proof (Z.div_mod x (2 ^ j) ltac:(lia)).
  pose proof (Z.mod_pos_bound x (2 ^ j) Hp).
  destruct (rne_div_cases x j) as [-> | ->]; lia.
Qed.

(** Rounding does not cross an integer of at most 24 bits. *)
Lemma f32_round_ge_int n x :
  0 <= n <= 2 ^ 24 -> n * F32_ONE <= x -> n * F32_ONE <= f32_round x.
Proof.
  intros Hn Hle. assert (Hx : 0 <= x) by (unfold F32_ONE in *; lia).
  rewrite f32_round_pos by done. case_bool; [done|].
  set (j := Z.log2 x - 23) in *.
  assert (Hx0 : 0 < x).
  { destruct (decide (x = 0)) as [->|]; [|lia]. subst j. simpl in *. lia. }
  assert (Hp : 0 < 2 ^ j) by (apply Z.pow_pos_nonneg; lia).
  assert (Hq : n * F32_ONE <= x / 2 ^ j * 2 ^ j); [|destruct (rne_div_cases x j) as [-> | ->]; lia].
  destruct (decide (j <= 23)) as [Hj|Hj].
  - assert (Hd : n * F32_ONE = n * 2 ^ (23 - j) * 2 ^ j).
    { unfold F32_ONE. rewrite <- Z.mul_assoc, <- Z.pow_add_r by lia. do 2 f_equal. lia. }
    rewrite Hd in Hle |- *. apply Z.mul_le_mono_nonneg_r; [lia|].
    apply Z.div_le_lower_bound; lia.
  - assert (2 ^ 23 <= x / 2 ^ j).
    { apply Z.div_le_lower_bound; [lia|]. rewrite <- Z.pow_add_r by lia.
      subst j. replace (Z.log2 x - 23 + 23) with (Z.log2 x) by lia. by apply Z.log2_spec. }
    assert (2 ^ 24 <= 2 ^ j) by (apply Z.pow_le_mono_r; lia).
    unfold F32_ONE. nia.
Qed.

Lemma f32_round_is_f32 x : 0 <= x -> is_f32 (f32_round x).
Proof.
  intros Hx. rewrite f32_round_pos by done. case_bool.
  - exists 0. split_and!; [lia|apply Z.divide_1_l|].
    destruct (decide (x = 0)) as [->|]; [lia|].
    apply Z.lt_le_incl, Z.log2_lt_pow2; lia.
  - set (j := Z.log2 x - 23) in *. exists j.
    assert (Hx0 : 0 < x).
    { destruct (decide (x = 0)) as [->|]; [|lia]. subst j. simpl in *. lia. }
    assert (Hp : 0 < 2 ^ j) by (apply Z.pow_pos_nonneg; lia).
    split_and!; [lia|apply Z.divide_factor_r|].
    rewrite Z.pow_add_r by lia. apply Z.mul_le_mono_nonneg_r; [lia|].
    assert (x / 2 ^ j < 2 ^ 24).
    { apply Z.div_lt_upper_bound; [lia|]. rewrite <- Z.pow_add_r by lia.
      apply Z.log2_lt_pow2; lia. }
    destruct (rne_div_cases x j) as [-> | ->]; lia.
Qed.

Lemma f32_of_int_exact n : 0 <= n <= 2 ^ 24 -> f32_of_int n = n * F32_ONE.
Proof.
  intros Hn. unfold f32_of_int. apply f32_round_exact with 23; unfold F32_ONE; [lia..| |lia].
  apply Z.divide_factor_r.
Qed.

(** The difference of a float of at most [2^24] and a smaller integer is exact. *)
Lemma f32_sub_exact x d :
  is_f32 x -> x <= 2 ^ 24 * F32_ONE -> 0 <= d -> d * F32_ONE <= x ->
  f32_sub x (d * F32_ONE) = x - d * F32_ONE.
Proof.
  intros (k & Hk & Hd & Hle) Hx Hd0 Hdx. unfold f32_sub, F32_ONE in *.
  destruct (decide (k <= 23)).
  - apply f32_round_exact with k; [lia..| |lia].
    apply Z.divide_sub_r; [done|]. apply Z.divide_mul_r. exists (2 ^ (23 - k)).
    rewrite <- Z.pow_add_r by lia. f_equal; lia.
  - apply f32_round_exact with 23; [lia..| |lia].
    apply Z.divide_sub_r; [|apply Z.divide_factor_r].
    etrans; [|exact Hd]. exists (2 ^ (k - 23)). rewrite <- Z.pow_add_r by lia. f_equal; lia.
Qed.

(** Multiplying by 1.5 grows a number of value at least one by a quarter. *)
Lemma f32_mul_3_2_bounds x : F32_ONE <= x ->
  5 * x <= 4 * f32_mul_3_2 x <= 7 * x.
Proof.
  intros Hx. unfold f32_mul_3_2, F32_ONE in *.
  assert (0 <= x * 3 / 2) by (apply Z.div_pos; lia).
  pose proof (f32_round_bounds (x * 3 / 2) ltac:(lia)).
  pose proof (Z.div_mod (x * 3) 2). pose proof (Z.mod_pos_bound (x * 3) 2).
  assert (x * 3 / 2 / 2 ^ 23 <= (x * 3 / 2) / 16).
  { apply Z.div_le_lower_bound; [lia|]. pose proof (Z.mul_div_le (x * 3 / 2) (2 ^ 23)).
    assert (0 <= x * 3 / 2 / 2 ^ 23) by (apply Z.div_pos; lia). lia. }
  pose proof (Z.mul_div_le (x * 3 / 2) 16). lia.
Qed.
