(* ===== verification/DataBuffer.v ===== *)
(** * DataBuffer (src/agent_engine/network/anet/databuffer.h)

    The byte buffer every packet is encoded into and decoded from.  The four
    pointers of the class become a memory block and two offsets into it; the
    memory cells that [malloc] returned and nobody wrote yet are
    indeterminate.  [rep b d] relates a buffer to the bytes it holds, and the
    lemmas of this file show that every operation acts on those bytes as an
    operation of a byte queue and keeps the representation. *)

From S2P Require Import Prelude Float32.

(** ** Memory blocks *)

Abbreviation cell := (option Z).

Definition malloc (n : Z) : list cell := replicate (Z.to_nat n) None.

(** [p[i]] for a byte-sized lvalue. *)
Definition load (m : list cell) (i : Z) : option Z :=
  if 0 <=? i then mjoin (m !! Z.to_nat i) else None.

Definition store (m : list cell) (i v : Z) : option (list cell) :=
  if (0 <=? i) && (i <? Z.of_nat (length m)) then Some (<[Z.to_nat i := Some v]> m) else None.

(** The source and the target of [memcpy] and [memmove]. *)
Definition mem_read (m : list cell) (i n : Z) : option (list cell) :=
  if (0 <=? i) && (0 <=? n) && (i + n <=? Z.of_nat (length m))
  then Some (take (Z.to_nat n) (drop (Z.to_nat i) m)) else None.

Definition mem_write (m : list cell) (i : Z) (src : list cell) : option (list cell) :=
  if (0 <=? i) && (i + Z.of_nat (length src) <=? Z.of_nat (length m))
  then Some (take (Z.to_nat i) m ++ src ++ drop (Z.to_nat i + length src) m) else None.

(** Reading values: every cell must have been written. *)
Definition mem_bytes (m : list cell) (i n : Z) : option (list Z) :=
  c ← mem_read m i n; mapM id c.

(** ** The class *)

Record DataBuffer := mkDataBuffer {
  _mem : option (list cell);   (* [None]: [_pstart == NULL] *)
  _pdata : Z;                  (* [_pdata - _pstart] *)
  _pfree : Z                   (* [_pfree - _pstart] *)
}.

Definition _pend (b : DataBuffer) : Z :=
  match _mem b with Some m => Z.of_nat (length m) | None => 0 end.

Definition DataBuffer_new : DataBuffer := mkDataBuffer None 0 0.

Definition INITIAL_BUFFER_SIZE : Z := 1024.

Definition getSpaceUsed (b : DataBuffer) : Z :=
  match _mem b with None => 0 | Some _ => _pend b end.

Definition getDataLen (b : DataBuffer) : Z := i32 (_pfree b - _pdata b).

Definition getFreeLen (b : DataBuffer) : Z := i32 (_pend b - _pfree b).

Definition clear (b : DataBuffer) : DataBuffer := mkDataBuffer (_mem b) 0 0.

Definition drainData (b : DataBuffer) (len : Z) : DataBuffer :=
  let p := _pdata b + len in
  let p := if _pfree b <? p then _pfree b else p in
  if p =? _pfree b then clear b else mkDataBuffer (_mem b) p (_pfree b).

Definition pourData (b : DataBuffer) (len : Z) : option DataBuffer :=
  _ ← assertb (len <=? _pend b - _pfree b);
  Some (mkDataBuffer (_mem b) (_pdata b) (_pfree b + len)).

Definition stripData (b : DataBuffer) (len : Z) : option DataBuffer :=
  _ ← assertb (len <=? _pfree b - _pdata b);
  Some (mkDataBuffer (_mem b) (_pdata b) (_pfree b - len)).

Definition shrink (b : DataBuffer) : option DataBuffer :=
  match _mem b with
  | None => Some b
  | Some m =>
      let dlen := i32 (_pfree b - _pdata b) in
      _ ← assertb (0 <=? dlen);
      if 0 <? dlen then
        src ← mem_read m (_pdata b) dlen;
        newbuf ← mem_write (malloc dlen) 0 src;
        Some (mkDataBuffer (Some newbuf) 0 dlen)
      else Some DataBuffer_new
  end.

(** *** Growing *)

(** [int len = INITIAL_BUFFER_SIZE; while (len < need) len <<= 1;] where a
    shift out of [int] has no defined result. *)
Fixpoint initial_size_loop (fuel : nat) (len need : Z) : option Z :=
  if len <? need then
    match fuel with
    | O => None
    | S fuel => if INT_MAX <? len * 2 then None else initial_size_loop fuel (len * 2) need
    end
  else Some len.

Definition initial_size (need : Z) : option Z := initial_size_loop 32 INITIAL_BUFFER_SIZE need.

(** [while (bufsize - dlen < need) bufsize *= 1.5;] on [float]s. *)
Fixpoint grow_loop (fuel : nat) (bufsize dlen need : Z) : option Z :=
  if f32_sub bufsize (f32_of_int dlen) <? f32_of_int need then
    match fuel with
    | O => None
    | S fuel => grow_loop fuel (f32_mul_3_2 bufsize) dlen need
    end
  else Some bufsize.

Definition grow_size (cap dlen need : Z) : option Z :=
  bufsize ← grow_loop 128 (f32_of_int (cap * 2)) dlen need;
  if INT_MAX <? f32_to_int bufsize then None else Some (f32_to_int bufsize).

Definition expand (b : DataBuffer) (need : Z) : option DataBuffer :=
  match _mem b with
  | None =>
      len ← initial_size need;
      Some (mkDataBuffer (Some (malloc len)) 0 0)
  | Some m =>
      if _pend b - _pfree b <? need then
        let flen := i32 ((_pend b - _pfree b) + _pdata b) in
        let dlen := i32 (_pfree b - _pdata b) in
        if (flen <? need) || (i32 (flen * 4) <? dlen) then
          bufsize ← grow_size (_pend b) dlen need;
          newbuf ← (if 0 <? dlen
                    then src ← mem_read m (_pdata b) dlen; mem_write (malloc bufsize) 0 src
                    else Some (malloc bufsize));
          Some (mkDataBuffer (Some newbuf) 0 dlen)
        else
          src ← mem_read m (_pdata b) dlen;
          m' ← mem_write m 0 src;
          Some (mkDataBuffer (Some m') 0 dlen)
      else Some b
  end.

Definition ensureFree (b : DataBuffer) (len : Z) : option DataBuffer := expand b len.

(** *** Writing *)

(** [p[k-1] = (unsigned char)n; n >>= 8; ... p[0] = (unsigned char)n;] *)
Fixpoint store_be (k : nat) (m : list cell) (p n : Z) : option (list cell) :=
  match k with
  | O => Some m
  | S k => m ← store m (p + Z.of_nat k) (u8 n); store_be k m p (Z.shiftr n 8)
  end.

Definition write_be (k : nat) (b : DataBuffer) (n : Z) : option DataBuffer :=
  b ← expand b (Z.of_nat k);
  m ← _mem b;
  m ← store_be k m (_pfree b) n;
  Some (mkDataBuffer (Some m) (_pdata b) (_pfree b + Z.of_nat k)).

Definition writeInt8 (b : DataBuffer) (n : Z) : option DataBuffer := write_be 1 b (i8 n).
Definition writeInt16 (b : DataBuffer) (n : Z) : option DataBuffer := write_be 2 b (i16 n).
Definition writeInt32 (b : DataBuffer) (n : Z) : option DataBuffer := write_be 4 b (i32 n).
Definition writeInt64 (b : DataBuffer) (n : Z) : option DataBuffer := write_be 8 b (i64 n).

(** [writeBytes(src, len)] where [src] points to the bytes [src]. *)
Definition writeBytes (b : DataBuffer) (src : list Z) (len : Z) : option DataBuffer :=
  b ← expand b len;
  m ← _mem b;
  src ← mem_read (Some <$> src) 0 len;
  m ← mem_write m (_pfree b) src;
  Some (mkDataBuffer (Some m) (_pdata b) (_pfree b + len)).

(** [fillInt32(getData() + off, n)] *)
Definition fillInt32 (b : DataBuffer) (off n : Z) : option DataBuffer :=
  m ← _mem b;
  m ← store_be 4 m (_pdata b + off) (u32 n);
  Some (mkDataBuffer (Some m) (_pdata b) (_pfree b)).

(** [*(getData() + off) = v], how the streamers edit the buffered bytes. *)
Definition setData (b : DataBuffer) (off v : Z) : option DataBuffer :=
  m ← _mem b;
  m ← store m (_pdata b + off) v;
  Some (mkDataBuffer (Some m) (_pdata b) (_pfree b)).

(** [socket->read(getFree(), len)] stores what was received; [pourData] then
    makes it part of the data. *)
Definition recvFree (b : DataBuffer) (received : list Z) : option DataBuffer :=
  match _mem b with
  | None => if received then Some b else None
  | Some m =>
      m ← mem_write m (_pfree b) (Some <$> received);
      Some (mkDataBuffer (Some m) (_pdata b) (_pfree b))
  end.

(** *** Reading *)

(** [n <<= 8; n |= p[i];] in a signed type of [w] bits. *)
Definition shift_in (w n byte : Z) : Z := wraps w (Z.lor (wraps w (Z.shiftl n 8)) byte).

Fixpoint load_be (w : Z) (k : nat) (m : list cell) (p n : Z) : option Z :=
  match k with
  | O => Some n
  | S k => byte ← load m p; load_be w k m (p + 1) (shift_in w n byte)
  end.

(** [k] bytes into a signed integer of [8 k] bits; the first byte is assigned
    to the variable, the others are shifted in. *)
Definition read_be (k : nat) (b : DataBuffer) : option (Z * DataBuffer) :=
  m ← _mem b;
  first ← load m (_pdata b);
  n ← load_be (8 * Z.of_nat k) (k - 1) m (_pdata b + 1) (wraps (8 * Z.of_nat k) first);
  Some (n, mkDataBuffer (_mem b) (_pdata b + Z.of_nat k) (_pfree b)).

Definition readInt8 (b : DataBuffer) : option (Z * DataBuffer) := read_be 1 b.
Definition readInt16 (b : DataBuffer) : option (Z * DataBuffer) := read_be 2 b.
Definition readInt32 (b : DataBuffer) : option (Z * DataBuffer) := read_be 4 b.
Definition readInt64 (b : DataBuffer) : option (Z * DataBuffer) := read_be 8 b.

(** The [len] bytes at [getData()], without consuming them. *)
Definition peekBytes (b : DataBuffer) (len : Z) : option (list Z) :=
  match _mem b with
  | None => if len =? 0 then Some [] else None
  | Some m => mem_bytes m (_pdata b) len
  end.

(** All buffered bytes: what [getData()] and [getDataLen()] give access to. *)
Definition getData (b : DataBuffer) : option (list Z) := peekBytes b (getDataLen b).

Definition readBytes (b : DataBuffer) (len : Z) : option (list Z * DataBuffer) :=
  l ← peekBytes b len;
  Some (l, mkDataBuffer (_mem b) (_pdata b + len) (_pfree b)).

(** [_pdata[i] == findstr[0] && memcmp(_pdata + i, findstr, len) == 0]: the
    buffer is [unsigned char], the pattern is [char], which is signed. *)
Fixpoint find_loop (fuel : nat) (m : list cell) (p : Z) (findstr : list Z) (i : Z) : option Z :=
  match fuel with
  | O => Some (-1)
  | S fuel =>
      byte ← load m (p + i);
      first ← head findstr;
      if byte =? i8 first then
        l ← mem_bytes m (p + i) (Z.of_nat (length findstr));
        if decide (l = findstr) then Some i else find_loop fuel m p findstr (i + 1)
      else find_loop fuel m p findstr (i + 1)
  end.

Definition findBytes (b : DataBuffer) (findstr : list Z) : option Z :=
  let dLen := i32 (_pfree b - _pdata b - Z.of_nat (length findstr) + 1) in
  match _mem b with
  | None => if 0 <? dLen then None else Some (-1)
  | Some m => find_loop (Z.to_nat dLen) m (_pdata b) findstr 0
  end.

(** [read] and [write] for the integer types of [8 k] bits
    ([SPECIALIZE_READ_WRITE_FOR_INT]). *)
Definition read_int (k : nat) (is_signed : bool) (b : DataBuffer) : option (Z * DataBuffer) :=
  '(n, b) ← read_be k b;
  Some (if is_signed then n else wrapu (8 * Z.of_nat k) n, b).

Definition write_int (k : nat) (b : DataBuffer) (value : Z) : option DataBuffer :=
  write_be k b (wraps (8 * Z.of_nat k) value).

(** [read(std::string &)] and [write(const std::string &)] *)
Definition write_string (b : DataBuffer) (value : list Z) : option DataBuffer :=
  b ← writeInt32 b (i32 (Z.of_nat (length value)));
  writeBytes b value (i32 (Z.of_nat (length value))).

Definition read_string (b : DataBuffer) : option (list Z * DataBuffer) :=
  '(size, b) ← readInt32 b;
  value ← peekBytes b size;
  Some (value, drainData b size).

(** ** Lemmas on memory blocks *)

Section Memory.

Implicit Types (a s c m : list cell).

Lemma mem_read_mid a s c i n :
  i = Z.of_nat (length a) -> n = Z.of_nat (length s) -> mem_read (a ++ s ++ c) i n = Some s.
Proof.
  intros -> ->. unfold mem_read. rewrite !length_app.
  rewrite (proj2 (andb_true_iff _ _)); [|split; [apply andb_true_iff; split|]; apply Z.leb_le; lia].
  rewrite !Nat2Z.id, drop_app_length, take_app_length. done.
Qed.

(** The bytes after the ones that are read do not matter. *)
Lemma mem_read_prefix (s t : list Z) : mem_read (Some <$> (s ++ t)) 0 (Z.of_nat (length s)) = Some (Some <$> s).
Proof. rewrite fmap_app. apply (mem_read_mid [] (Some <$> s)); [done|by rewrite length_fmap]. Qed.

Lemma mem_write_mid a s s' c i :
  i = Z.of_nat (length a) -> length s' = length s ->
  mem_write (a ++ s ++ c) i s' = Some (a ++ s' ++ c).
Proof.
  intros -> Hs. unfold mem_write. rewrite !length_app.
  rewrite (proj2 (andb_true_iff _ _)); [|split; apply Z.leb_le; lia].
  rewrite Nat2Z.id, take_app_length, Hs, <- length_app, (app_assoc a s c), drop_app_length. done.
Qed.

Lemma mem_write_0 m s :
  (length s <= length m)%nat -> mem_write m 0 s = Some (s ++ drop (length s) m).
Proof.
  intros Hs. unfold mem_write. simpl. by rewrite (proj2 (Z.leb_le _ _)) by lia.
Qed.

Lemma store_mid a x c i v :
  i = Z.of_nat (length a) -> store (a ++ x :: c) i v = Some (a ++ Some v :: c).
Proof.
  intros ->. unfold store. rewrite length_app. simpl length.
  rewrite (proj2 (andb_true_iff _ _)); [|split; [apply Z.leb_le|apply Z.ltb_lt]; lia].
  rewrite Nat2Z.id. f_equal. by rewrite insert_app_r_alt, Nat.sub_diag.
Qed.

Lemma load_mid a v c i : i = Z.of_nat (length a) -> load (a ++ Some v :: c) i = Some v.
Proof.
  intros ->. unfold load. rewrite (proj2 (Z.leb_le _ _)) by lia.
  by rewrite Nat2Z.id, list_lookup_middle.
Qed.

Lemma store_be_mid k a s c i n :
  i = Z.of_nat (length a) -> length s = k ->
  store_be k (a ++ s ++ c) i n = Some (a ++ (Some <$> be_bytes k n) ++ c).
Proof.
  revert s c n; induction k as [|k IH]; intros s c n -> Hs.
  { apply nil_length_inv in Hs as ->. done. }
  destruct s as [|x s _] using rev_ind; [done|]. rewrite length_app in Hs. simpl in Hs.
  simpl store_be. rewrite <- app_assoc, (app_assoc a s). simpl.
  rewrite store_mid by (rewrite length_app; lia). simpl.
  rewrite <- app_assoc, IH by lia. by rewrite fmap_app, <- app_assoc.
Qed.

Lemma mapM_id_Some (l : list Z) : mapM id (Some <$> l) = Some l.
Proof. apply mapM_Some, Forall2_fmap_l, Forall_Forall2_diag. by apply Forall_true. Qed.

Lemma mem_bytes_mid a (l : list Z) c i n :
  i = Z.of_nat (length a) -> n = Z.of_nat (length l) ->
  mem_bytes (a ++ (Some <$> l) ++ c) i n = Some l.
Proof.
  intros -> ->. unfold mem_bytes. rewrite mem_read_mid by (rewrite ?length_fmap; done).
  apply mapM_id_Some.
Qed.

Lemma shift_in_value k n byte :
  (0 < k)%nat -> is_byte byte ->
  shift_in (8 * Z.of_nat k) n byte = wraps (8 * Z.of_nat k) (n * 256 + byte).
Proof.
  intros Hk Hb. unfold shift_in, is_byte in *.
  rewrite Z.shiftl_mul_pow2 by lia. change (2 ^ 8) with 256.
  set (w := 8 * Z.of_nat k). set (x := n * 256).
  assert (Hdiv : (256 | wraps w x)).
  { unfold wraps. replace (2 ^ w) with (256 * 2 ^ (w - 8)).
    2:{ change 256 with (2 ^ 8). rewrite <- Z.pow_add_r by lia. f_equal; lia. }
    destruct (decide (k = 1%nat)) as [->|].
    - change w with 8. change (256 * 2 ^ (8 - 8)) with 256. change (2 ^ (8 - 1)) with 128.
      replace (x + 128) with (128 + n * 256) by lia.
      rewrite Z.mod_add by lia. apply Z.divide_0_r.
    - replace (2 ^ (w - 1)) with (256 * 2 ^ (w - 9)).
      2:{ change 256 with (2 ^ 8). rewrite <- Z.pow_add_r by lia. f_equal; lia. }
      replace (x + 256 * 2 ^ (w - 9)) with (256 * (n + 2 ^ (w - 9))) by lia.
      rewrite Z.mul_mod_distr_l by (try apply Z.pow_nonzero; lia).
      apply Z.divide_sub_r; apply Z.divide_factor_l. }
  destruct Hdiv as [q Hq].
  assert (Hor : Z.lor (wraps w x) byte = wraps w x + byte).
  { rewrite Hq. change 256 with (2 ^ 8). rewrite <- Z.shiftl_mul_pow2 by lia.
    symmetry.
    rewrite Z.add_nocarry_lxor, Z.lxor_lor; [done| |];
      (apply Z.bits_inj'; intros i Hi; rewrite Z.land_spec, Z.bits_0;
       destruct (decide (i < 8));
       [rewrite Z.shiftl_spec_low by lia; done
       |rewrite (Z.bits_above_log2 byte), andb_false_r; [done|lia|];
        destruct (decide (byte = 0)) as [->|]; [simpl; lia|];
        assert (Z.log2 byte < 8) by (apply Z.log2_lt_pow2; lia); lia]). }
  rewrite Hor. rewrite <- (wraps_wrapu w (wraps w x + byte)), <- (wraps_wrapu w (x + byte)) by lia.
  f_equal. unfold wrapu. rewrite <- Zplus_mod_idemp_l.
  change (wraps w x mod 2 ^ w) with (wrapu w (wraps w x)). rewrite wrapu_wraps by lia.
  unfold wrapu. apply Zplus_mod_idemp_l.
Qed.

Lemma wraps_shift w n byte : 0 < w -> wraps w (wraps w n * 256 + byte) = wraps w (n * 256 + byte).
Proof.
  intros Hw.
  rewrite <- (wraps_wrapu w (wraps w n * 256 + byte)), <- (wraps_wrapu w (n * 256 + byte)) by lia.
  f_equal. unfold wrapu.
  rewrite <- (Zplus_mod_idemp_l (wraps w n * 256)), <- (Zplus_mod_idemp_l (n * 256)).
  do 2 f_equal. rewrite <- (Zmult_mod_idemp_l (wraps w n)), <- (Zmult_mod_idemp_l n).
  do 2 f_equal. by apply wrapu_wraps.
Qed.

Lemma load_be_value k j a (l : list Z) c i n :
  (0 < k)%nat -> i = Z.of_nat (length a) -> length l = j -> Forall is_byte l ->
  load_be (8 * Z.of_nat k) j (a ++ (Some <$> l) ++ c) i (wraps (8 * Z.of_nat k) n) =
  Some (wraps (8 * Z.of_nat k) (foldl (fun acc b => acc * 256 + b) n l)).
Proof.
  intros Hk. revert a l i n. induction j as [|j IH]; intros a l i n -> Hl Hb.
  { by apply nil_length_inv in Hl as ->. }
  destruct l as [|b l]; [done|]. inversion Hb; subst. simpl.
  rewrite load_mid by done. simpl.
  rewrite shift_in_value, wraps_shift by (lia || done).
  rewrite (cons_middle (Some b) a), (app_assoc a [Some b]).
  apply IH; [rewrite length_app; simpl; lia | injection Hl; done | done].
Qed.

End Memory.

(** ** The representation invariant

    [rep b d]: either nothing is allocated, or the block is made of some
    bytes before the data, the data, each byte of it written, and some free
    cells.  [BUF_MAX] keeps the sizes far from the range of [int]. *)

Definition BUF_MAX : Z := 2 ^ 28.

Inductive rep (b : DataBuffer) (d : list Z) : Prop :=
| rep_null : b = DataBuffer_new -> d = [] -> rep b d
| rep_block (pre post : list cell) :
    b = mkDataBuffer (Some (pre ++ (Some <$> d) ++ post))
                     (Z.of_nat (length pre)) (Z.of_nat (length pre + length d)) ->
    Forall is_byte d ->
    (1 <= length pre + length d + length post)%nat ->
    Z.of_nat (length pre + length d + length post) <= BUF_MAX ->
    rep b d.

(** The largest frame for which [expand] is exact: a [float] has 24 bits. *)
Definition FRAME_MAX : Z := 2 ^ 24.

Section Rep.

Implicit Types (b : DataBuffer) (d src : list Z).

Lemma rep_new : rep DataBuffer_new [].
Proof. by apply rep_null. Qed.

Lemma rep_bytes b d : rep b d -> Forall is_byte d.
Proof. destruct 1; subst; auto. Qed.

Lemma rep_pend b d : rep b d -> 0 <= _pend b <= BUF_MAX.
Proof.
  unfold BUF_MAX. destruct 1 as [->|pre post -> ? ? ?]; unfold _pend; simpl; [lia|].
  unfold BUF_MAX in *. rewrite !length_app, length_fmap. lia.
Qed.

Lemma rep_length b d : rep b d -> Z.of_nat (length d) <= BUF_MAX.
Proof. destruct 1; subst; unfold BUF_MAX in *; simpl; lia. Qed.

Lemma rep_getDataLen b d : rep b d -> getDataLen b = Z.of_nat (length d).
Proof.
  intros H. pose proof (rep_length _ _ H). unfold getDataLen, BUF_MAX in *.
  destruct H as [->|pre post -> ? ? ?]; subst; simpl; [done|].
  rewrite i32_small; unfold INT_MIN, INT_MAX; lia.
Qed.

Lemma rep_getData b d : rep b d -> getData b = Some d.
Proof.
  intros H. unfold getData, peekBytes. rewrite (rep_getDataLen _ _ H).
  destruct H as [->|pre post -> ? ? ?]; subst; simpl; [done|].
  by apply mem_bytes_mid.
Qed.

Lemma rep_peekBytes b d n :
  rep b d -> 0 <= n <= Z.of_nat (length d) -> peekBytes b n = Some (take (Z.to_nat n) d).
Proof.
  intros [->|pre post -> ? ? ?] Hn; subst; unfold peekBytes; simpl.
  { simpl in Hn. assert (n = 0) as -> by lia. done. }
  rewrite <- (take_drop (Z.to_nat n) d) at 1. rewrite fmap_app, <- app_assoc.
  apply mem_bytes_mid; [done|]. rewrite length_take. lia.
Qed.

Lemma rep_clear b d : rep b d -> rep (clear b) [].
Proof.
  intros [->|pre post -> Hb H1 H2]; [by apply rep_null|]. unfold clear; simpl.
  apply (rep_block _ _ [] (pre ++ (Some <$> d) ++ post)); simpl; [done..| |];
    rewrite ?length_app, ?length_fmap; lia.
Qed.

Lemma rep_drainData b d len :
  rep b d -> 0 <= len -> rep (drainData b len) (drop (Z.to_nat len) d).
Proof.
  intros H Hlen. unfold drainData.
  destruct (decide (Z.of_nat (length d) <= len)) as [Hall|Hpart].
  - rewrite drop_ge by lia.
    assert (E : (if _pfree b <? _pdata b + len then _pfree b else _pdata b + len) = _pfree b).
    { destruct H as [->|pre post -> ? ? ?]; subst; simpl in *; case_bool; lia. }
    rewrite E, Z.eqb_refl. by apply rep_clear with d.
  - destruct H as [->|pre post -> Hb H1 H2]; [subst; simpl in *; lia|]. simpl.
    rewrite (proj2 (Z.ltb_ge _ _)) by lia. rewrite (proj2 (Z.eqb_neq _ _)) by lia.
    apply (rep_block _ _ (pre ++ (Some <$> take (Z.to_nat len) d)) post).
    + rewrite <- (take_drop (Z.to_nat len) d) at 1.
      rewrite fmap_app, <- !app_assoc, length_app, length_fmap, length_take, length_drop.
      f_equal; lia.
    + by apply Forall_drop.
    + rewrite length_app, length_fmap, length_take, length_drop. lia.
    + rewrite length_app, length_fmap, length_take, length_drop. lia.
Qed.

Lemma rep_stripData b d len :
  rep b d -> 0 <= len <= Z.of_nat (length d) ->
  exists b', stripData b len = Some b' /\ rep b' (take (length d - Z.to_nat len) d).
Proof.
  intros H Hlen. unfold stripData.
  destruct H as [->|pre post -> Hb H1 H2].
  - subst. simpl in *. rewrite (proj2 (Z.leb_le _ _)) by lia. simpl.
    eexists; split; [done|]. apply rep_null; [|done]. unfold DataBuffer_new. f_equal; lia.
  - simpl. rewrite (proj2 (Z.leb_le _ _)) by lia. simpl. eexists; split; [done|].
    set (k := (length d - Z.to_nat len)%nat).
    assert (Hd : d = take k d ++ drop k d) by (symmetry; apply take_drop).
    assert (length (take k d) = k) by (rewrite length_take; lia).
    assert (length (drop k d) = (length d - k)%nat) by apply length_drop.
    apply (rep_block _ _ pre ((Some <$> drop k d) ++ post)).
    + rewrite Hd at 1. rewrite fmap_app, <- app_assoc. f_equal; lia.
    + by apply Forall_take.
    + rewrite length_app, length_fmap. lia.
    + rewrite length_app, length_fmap. lia.
Qed.

Lemma rep_shrink b d : rep b d -> exists b', shrink b = Some b' /\ rep b' d.
Proof.
  intros H. pose proof (rep_getDataLen _ _ H) as Hl. unfold getDataLen in Hl.
  unfold shrink. destruct H as [->|pre post -> Hb H1 H2].
  { eexists; split; [done|]. subst. by apply rep_null. }
  simpl _mem. cbn iota beta. rewrite Hl. rewrite (proj2 (Z.leb_le _ _)) by lia. simpl.
  case_bool.
  - rewrite mem_read_mid by (rewrite ?length_fmap; done). simpl.
    unfold malloc. rewrite Nat2Z.id.
    rewrite mem_write_0 by (rewrite length_fmap, length_replicate; lia). simpl.
    eexists; split; [done|].
    rewrite drop_ge by (rewrite length_fmap, length_replicate; lia).
    apply (rep_block _ _ [] []); simpl; [done|done|lia|lia].
  - destruct d; [|simpl in *; lia]. eexists; split; [done|]. by apply rep_null.
Qed.


(** *** Growing *)

Lemma initial_size_loop_ok fuel len need :
  0 < len -> need <= 2 ^ 30 -> need <= len * 2 ^ Z.of_nat fuel ->
  exists r, initial_size_loop fuel len need = Some r /\ need <= r /\ len <= r /\ r <= Z.max len (2 * need).
Proof.
  revert len; induction fuel as [|fuel IH]; intros len Hl Hn Hf; simpl; case_bool.
  - rewrite Z.pow_0_r in Hf. lia.
  - eexists; split_and!; [done|lia..].
  - rewrite (proj2 (Z.ltb_ge _ _)) by (unfold INT_MAX; lia).
    destruct (IH (len * 2)) as (r & -> & ? & ? & ?); [lia..| |].
    + rewrite Nat2Z.inj_succ, Z.pow_succ_r in Hf by lia. lia.
    + eexists; split_and!; [done|lia..].
  - eexists; split_and!; [done|lia..].
Qed.

Lemma initial_size_ok need :
  need <= 2 ^ 30 ->
  exists r, initial_size need = Some r /\ need <= r /\
            INITIAL_BUFFER_SIZE <= r <= Z.max INITIAL_BUFFER_SIZE (2 * need).
Proof.
  intros Hn. destruct (initial_size_loop_ok 32 INITIAL_BUFFER_SIZE need) as (r & ? & ? & ? & ?);
    [unfold INITIAL_BUFFER_SIZE; lia..|]. eauto.
Qed.

Lemma grow_loop_ok fuel bs dlen need :
  is_f32 bs -> F32_ONE <= bs -> 0 <= dlen -> 0 <= need -> dlen + need <= FRAME_MAX ->
  dlen * F32_ONE <= bs ->
  FRAME_MAX * F32_ONE * 4 ^ Z.of_nat fuel <= bs * 5 ^ Z.of_nat fuel ->
  exists r, grow_loop fuel bs dlen need = Some r /\
    (dlen + need) * F32_ONE <= r <= Z.max bs (2 * FRAME_MAX * F32_ONE).
Proof.
  unfold FRAME_MAX. revert bs; induction fuel as [|fuel IH]; intros bs Hf H1 Hd Hn Hs Hdb Hfuel;
    simpl grow_loop; rewrite !f32_of_int_exact by lia; case_bool.
  1: { rewrite !Z.pow_0_r in Hfuel. pose proof (f32_round_ge_int need (bs - dlen * F32_ONE)).
       unfold f32_sub, F32_ONE in *. lia. }
  2: { assert (bs < (dlen + need) * F32_ONE).
       { apply Z.nle_gt. intros Hge. pose proof (f32_round_ge_int need (bs - dlen * F32_ONE)).
         unfold f32_sub, F32_ONE in *. lia. }
       pose proof (f32_mul_3_2_bounds bs H1).
       destruct (IH (f32_mul_3_2 bs)) as (r & -> & Hr); [|lia..| |].
       - apply f32_round_is_f32, Z.div_pos; unfold F32_ONE in *; lia.
       - rewrite Nat2Z.inj_succ, !Z.pow_succ_r in Hfuel by lia.
         assert (0 < 5 ^ Z.of_nat fuel) by (apply Z.pow_pos_nonneg; lia). nia.
       - exists r. split; [done|]. unfold F32_ONE in *. lia. }
  all: exists bs; split; [done|]; split; [|lia];
    destruct (decide (bs <= 2 ^ 24 * F32_ONE)); [|unfold F32_ONE in *; lia];
    rewrite f32_sub_exact in * by (done || lia); lia.
Qed.

Lemma grow_size_ok cap dlen need :
  1 <= cap <= 2 ^ 26 -> 0 <= dlen <= cap -> 0 <= need -> dlen + need <= FRAME_MAX ->
  exists r, grow_size cap dlen need = Some r /\ dlen + need <= r <= Z.max (3 * cap) (2 * FRAME_MAX).
Proof.
  intros Hc Hd Hn Hs. unfold grow_size.
  assert (Hx : 0 <= cap * 2 * F32_ONE) by (unfold F32_ONE; lia).
  pose proof (f32_round_bounds (cap * 2 * F32_ONE) Hx) as Hb.
  replace (cap * 2 * F32_ONE / 2 ^ 23) with (cap * 2) in Hb
    by (unfold F32_ONE; by rewrite Z.div_mul).
  fold (f32_of_int (cap * 2)) in Hb.
  destruct (grow_loop_ok 128 (f32_of_int (cap * 2)) dlen need) as (r & -> & Hr);
    [by apply f32_round_is_f32|unfold F32_ONE in *; lia|lia..|unfold F32_ONE in *; lia| |].
  { etrans; [|apply Z.mul_le_mono_nonneg_r; [apply Z.pow_nonneg; lia|]].
    2:{ transitivity F32_ONE; [reflexivity|]. unfold F32_ONE in *; lia. }
    vm_compute. discriminate. }
  simpl. unfold f32_to_int.
  assert (dlen + need <= r / F32_ONE) by (apply Z.div_le_lower_bound; unfold F32_ONE in *; lia).
  assert (r / F32_ONE <= Z.max (3 * cap) (2 * FRAME_MAX)).
  { apply Z.lt_succ_r, Z.div_lt_upper_bound; unfold F32_ONE in *; lia. }
  rewrite (proj2 (Z.ltb_ge _ _)) by (unfold INT_MAX, FRAME_MAX in *; lia). eauto.
Qed.

(** [expand] keeps the data and makes room for [need] more bytes. *)
Lemma expand_room b d need :
  rep b d -> 0 <= need -> Z.of_nat (length d) + need <= FRAME_MAX ->
  exists pre post,
    expand b need = Some (mkDataBuffer (Some (pre ++ (Some <$> d) ++ post))
                           (Z.of_nat (length pre)) (Z.of_nat (length pre + length d))) /\
    need <= Z.of_nat (length post) /\ (1 <= length pre + length d + length post)%nat /\
    Z.of_nat (length pre + length d + length post) <= BUF_MAX.
Proof.
  intros H Hn Hs. pose proof (rep_getDataLen _ _ H) as Hl. unfold getDataLen in Hl.
  pose proof (rep_pend _ _ H) as Hpe. unfold expand, FRAME_MAX, BUF_MAX in *.
  destruct H as [->|pre post -> Hb H1 H2].
  { subst d. destruct (initial_size_ok need) as (r & E & ? & ?); [lia|]. simpl. rewrite E. simpl.
    exists [], (malloc r). unfold malloc. rewrite length_replicate. simpl.
    unfold INITIAL_BUFFER_SIZE in *. split_and!; [done|lia..]. }
  cbn [_mem]. rewrite Hl. unfold _pend in *. cbn [_pdata _pfree _mem] in *.
  rewrite !length_app, length_fmap in *.
  set (n1 := length pre) in *; set (n2 := length d) in *; set (n3 := length post) in *.
  unfold BUF_MAX in *. case_bool; [|exists pre, post; split_and!; [done|lia..]].
  rewrite !i32_small by (unfold INT_MIN, INT_MAX; lia).
  destruct (_ || _) eqn:Hgrow; bool_to_prop.
  - assert (Z.of_nat (n1 + (n2 + n3)) <= 2 ^ 26) by (destruct Hgrow; bool_to_prop; lia).
    destruct (grow_size_ok (Z.of_nat (n1 + (n2 + n3))) (Z.of_nat n2) need) as (r & -> & Hr);
      [unfold FRAME_MAX in *; lia..|]. simpl. unfold FRAME_MAX in *.
    exists [], (drop n2 (malloc r)). simpl length.
    assert (Hm : length (malloc r) = Z.to_nat r) by apply length_replicate.
    rewrite length_drop, Hm.
    assert ((if 0 <? Z.of_nat n2
             then src ← mem_read (pre ++ (Some <$> d) ++ post) (Z.of_nat n1) (Z.of_nat n2);
                  mem_write (malloc r) 0 src
             else Some (malloc r)) = Some ((Some <$> d) ++ drop n2 (malloc r))) as ->.
    { case_bool.
      - rewrite mem_read_mid by (rewrite ?length_fmap; done). simpl.
        rewrite mem_write_0; rewrite length_fmap; [done|lia].
      - destruct d; [|subst n2; simpl in *; lia]. done. }
    simpl. split_and!; [done|lia..].
  - rewrite mem_read_mid by (rewrite ?length_fmap; done). simpl.
    exists [], (drop n2 (pre ++ (Some <$> d) ++ post)). simpl length.
    rewrite length_drop, !length_app, length_fmap.
    rewrite mem_write_0; rewrite length_fmap; [|rewrite !length_app, length_fmap; lia].
    simpl. split_and!; [done|lia..].
Qed.

Lemma rep_expand b d need :
  rep b d -> 0 <= need -> Z.of_nat (length d) + need <= FRAME_MAX ->
  exists b', expand b need = Some b' /\ rep b' d /\ need <= _pend b' - _pfree b'.
Proof.
  intros H Hn Hs. pose proof (rep_bytes _ _ H).
  destruct (expand_room b d need H Hn Hs) as (pre & post & E & ? & ? & ?).
  eexists; split_and!; [exact E|by apply (rep_block _ _ pre post)|].
  unfold _pend; simpl. rewrite !length_app, length_fmap. lia.
Qed.


(** *** Writing and reading *)

Lemma rep_write_be k b d n :
  rep b d -> Z.of_nat (length d + k) <= FRAME_MAX ->
  exists b', write_be k b n = Some b' /\ rep b' (d ++ be_bytes k n).
Proof.
  intros H Hs. pose proof (rep_bytes _ _ H).
  destruct (expand_room b d (Z.of_nat k) H) as (pre & post & E & Hp & H1 & H2); [lia..|].
  unfold write_be. rewrite E. simpl.
  rewrite <- (take_drop k post), (app_assoc pre).
  rewrite store_be_mid by (rewrite ?length_app, ?length_fmap, ?length_take; lia). simpl.
  eexists; split; [done|].
  apply (rep_block _ _ pre (drop k post)); rewrite ?length_app, ?be_bytes_length, ?length_drop.
  - rewrite fmap_app, <- !app_assoc. f_equal. lia.
  - apply Forall_app; auto using be_bytes_is_byte.
  - lia.
  - lia.
Qed.

Lemma rep_writeBytes b d src :
  rep b d -> Forall is_byte src -> Z.of_nat (length d + length src) <= FRAME_MAX ->
  exists b', writeBytes b src (Z.of_nat (length src)) = Some b' /\ rep b' (d ++ src).
Proof.
  intros H Hsrc Hs. pose proof (rep_bytes _ _ H).
  destruct (expand_room b d (Z.of_nat (length src)) H) as (pre & post & E & Hp & H1 & H2); [lia..|].
  unfold writeBytes. rewrite E. simpl.
  rewrite <- (app_nil_r (Some <$> src)), <- (app_nil_l ((Some <$> src) ++ [])).
  rewrite mem_read_mid by (rewrite ?length_fmap; done). simpl.
  rewrite <- (take_drop (length src) post), (app_assoc pre).
  rewrite mem_write_mid by (rewrite ?length_app, ?length_fmap, ?length_take; lia). simpl.
  eexists; split; [done|].
  apply (rep_block _ _ pre (drop (length src) post)); rewrite ?length_app, ?length_drop.
  - rewrite fmap_app, <- !app_assoc. f_equal. lia.
  - by apply Forall_app.
  - lia.
  - lia.
Qed.

Lemma rep_mid (d1 d2 d2' d3 : list Z) b :
  rep b (d1 ++ d2 ++ d3) -> d1 ++ d2 ++ d3 <> [] -> length d2' = length d2 -> Forall is_byte d2' ->
  exists a c,
    _mem b = Some (a ++ (Some <$> d2) ++ c) /\ _pdata b + Z.of_nat (length d1) = Z.of_nat (length a) /\
    rep (mkDataBuffer (Some (a ++ (Some <$> d2') ++ c)) (_pdata b) (_pfree b)) (d1 ++ d2' ++ d3).
Proof.
  intros [->|pre post -> Hb H1 H2] Hne Hl Hb'; [done|]. simpl.
  rewrite !length_app in *.
  exists (pre ++ (Some <$> d1)), ((Some <$> d3) ++ post).
  rewrite !length_app, !length_fmap, !fmap_app, <- !app_assoc. split_and!; [done|lia|].
  apply (rep_block _ _ pre post); rewrite ?length_app, ?fmap_app, ?Hl, <- ?app_assoc; try done.
  rewrite !Forall_app in *. tauto.
Qed.

Lemma rep_fillInt32 b d1 d2 d3 n :
  rep b (d1 ++ d2 ++ d3) -> length d2 = 4%nat ->
  exists b', fillInt32 b (Z.of_nat (length d1)) n = Some b' /\ rep b' (d1 ++ be_bytes 4 n ++ d3).
Proof.
  intros H Hl.
  destruct (rep_mid d1 d2 (be_bytes 4 n) d3 b H) as (a & c & Hm & Hp & Hr);
    [destruct d1, d2; done|by rewrite be_bytes_length|apply be_bytes_is_byte|].
  unfold fillInt32. rewrite Hm, Hp. cbn [mbind option_bind].
  rewrite (store_be_mid 4 a (Some <$> d2)) by (rewrite ?length_fmap; done).
  change 32 with (8 * Z.of_nat 4). rewrite be_bytes_wrapu. eauto.
Qed.

Lemma rep_setData b d1 x d3 v :
  rep b (d1 ++ x :: d3) -> is_byte v ->
  exists b', setData b (Z.of_nat (length d1)) v = Some b' /\ rep b' (d1 ++ v :: d3).
Proof.
  intros H Hv.
  destruct (rep_mid d1 [x] [v] d3 b H) as (a & c & Hm & Hp & Hr); [by destruct d1|done|by constructor|].
  unfold setData. rewrite Hm, Hp. simpl. rewrite store_mid by done. eauto.
Qed.

(** Received bytes become data. *)
Lemma rep_recv b d r :
  rep b d -> Forall is_byte r -> Z.of_nat (length r) <= _pend b - _pfree b ->
  exists b1 b2, recvFree b r = Some b1 /\ pourData b1 (Z.of_nat (length r)) = Some b2 /\ rep b2 (d ++ r).
Proof.
  intros [->|pre post -> Hb H1 H2] Hr Hl; unfold recvFree, pourData, _pend in *; simpl in *.
  - subst. destruct r; [|simpl in *; lia]. do 2 eexists; split_and!; [done..|by apply rep_null].
  - rewrite !length_app, length_fmap in Hl.
    rewrite <- (take_drop (length r) post), (app_assoc pre).
    rewrite mem_write_mid by (rewrite ?length_app, ?length_fmap, ?length_take; lia). simpl.
    eexists _, _. split; [done|]. simpl.
    rewrite !length_app, !length_fmap, length_drop.
    rewrite (proj2 (Z.leb_le _ _)) by lia. split; [done|].
    apply (rep_block _ _ pre (drop (length r) post)); rewrite ?length_app, ?length_drop.
    + rewrite fmap_app, <- !app_assoc. f_equal. lia.
    + by apply Forall_app.
    + lia.
    + lia.
Qed.

(** Moving [_pdata] past the first bytes consumes them. *)
Lemma rep_advance b d1 d2 :
  rep b (d1 ++ d2) ->
  rep (mkDataBuffer (_mem b) (_pdata b + Z.of_nat (length d1)) (_pfree b)) d2.
Proof.
  intros [->|pre post -> Hb H1 H2]; simpl.
  - destruct d1; [|done]. simpl in *. subst. by apply rep_null.
  - rewrite !length_app in *.
    apply (rep_block _ _ (pre ++ (Some <$> d1)) post); rewrite ?length_app, ?length_fmap; [|by apply Forall_app in Hb as []|lia..].
    rewrite fmap_app, <- !app_assoc. f_equal; lia.
Qed.

Lemma rep_read_be k b d1 d2 :
  rep b (d1 ++ d2) -> length d1 = k -> (0 < k)%nat ->
  exists b', read_be k b = Some (wraps (8 * Z.of_nat k) (be_value d1), b') /\ rep b' d2.
Proof.
  intros H Hk H0. pose proof (rep_advance _ _ _ H) as Ha. unfold read_be.
  destruct d1 as [|x d1]; [simpl in *; lia|].
  destruct H as [->|pre post -> Hb H1 H2]; [done|]. simpl.
  rewrite load_mid by done. simpl.
  rewrite fmap_app, <- app_assoc, (cons_middle (Some x) pre), (app_assoc pre [Some x]).
  rewrite load_be_value; [|done|rewrite length_app; simpl; lia|simpl in *; lia|].
  2:{ simpl in Hb. apply Forall_cons in Hb as [_ Hb]. by apply Forall_app in Hb as []. }
  simpl. eexists; split; [done|].
  rewrite <- Hk. simpl in Ha. rewrite fmap_app, <- app_assoc in Ha.
  rewrite <- app_assoc. exact Ha.
Qed.

Lemma rep_readBytes b d1 d2 :
  rep b (d1 ++ d2) ->
  exists b', readBytes b (Z.of_nat (length d1)) = Some (d1, b') /\ rep b' d2.
Proof.
  intros H. unfold readBytes. rewrite (rep_peekBytes _ _ _ H) by (rewrite length_app; lia).
  rewrite Nat2Z.id, take_app_length. simpl. eauto using rep_advance.
Qed.

End Rep.

(** ** The buffer as a byte queue

    [queue_step] is the abstract contract: a queue of bytes that is written at
    the back and consumed at the front.  [buf_step] runs the operation of the
    class. *)

Inductive buf_op :=
| OpWriteInt (k : nat) (n : Z)
| OpWriteBytes (src : list Z)
| OpReadInt (k : nat)
| OpReadBytes (n : nat)
| OpDrain (n : nat)
| OpStrip (n : nat)
| OpRecv (src : list Z)
| OpEnsureFree (n : nat)
| OpClear
| OpShrink.

Inductive buf_out := OutUnit | OutInt (n : Z) | OutBytes (l : list Z).

Definition buf_step (op : buf_op) (b : DataBuffer) : option (buf_out * DataBuffer) :=
  match op with
  | OpWriteInt k n => b ← write_int k b n; Some (OutUnit, b)
  | OpWriteBytes src => b ← writeBytes b src (Z.of_nat (length src)); Some (OutUnit, b)
  | OpReadInt k => '(n, b) ← read_int k true b; Some (OutInt n, b)
  | OpReadBytes n => '(l, b) ← readBytes b (Z.of_nat n); Some (OutBytes l, b)
  | OpDrain n => Some (OutUnit, drainData b (Z.of_nat n))
  | OpStrip n => b ← stripData b (Z.of_nat n); Some (OutUnit, b)
  | OpRecv src =>
      b ← ensureFree b (Z.of_nat (length src));
      b ← recvFree b src;
      b ← pourData b (Z.of_nat (length src));
      Some (OutUnit, b)
  | OpEnsureFree n => b ← ensureFree b (Z.of_nat n); Some (OutUnit, b)
  | OpClear => Some (OutUnit, clear b)
  | OpShrink => b ← shrink b; Some (OutUnit, b)
  end.

(** Appending is defined while the frame stays within [FRAME_MAX] bytes. *)
Definition queue_push (d src : list Z) : option (buf_out * list Z) :=
  if decide (Forall is_byte src /\ Z.of_nat (length d + length src) <= FRAME_MAX)
  then Some (OutUnit, d ++ src) else None.

Definition queue_step (op : buf_op) (d : list Z) : option (buf_out * list Z) :=
  match op with
  | OpWriteInt k n => queue_push d (be_bytes k n)
  | OpWriteBytes src | OpRecv src => queue_push d src
  | OpReadInt k =>
      if decide (0 < k <= length d)%nat
      then Some (OutInt (wraps (8 * Z.of_nat k) (be_value (take k d))), drop k d) else None
  | OpReadBytes n => if decide (n <= length d)%nat then Some (OutBytes (take n d), drop n d) else None
  | OpDrain n => Some (OutUnit, drop n d)
  | OpStrip n => if decide (n <= length d)%nat then Some (OutUnit, take (length d - n) d) else None
  | OpEnsureFree n => if decide (Z.of_nat (length d + n) <= FRAME_MAX) then Some (OutUnit, d) else None
  | OpClear => Some (OutUnit, [])
  | OpShrink => Some (OutUnit, d)
  end.

Fixpoint buf_run (ops : list buf_op) (b : DataBuffer) : option (list buf_out * DataBuffer) :=
  match ops with
  | [] => Some ([], b)
  | op :: ops => '(o, b) ← buf_step op b; '(os, b) ← buf_run ops b; Some (o :: os, b)
  end.

Fixpoint queue_run (ops : list buf_op) (d : list Z) : option (list buf_out * list Z) :=
  match ops with
  | [] => Some ([], d)
  | op :: ops => '(o, d) ← queue_step op d; '(os, d) ← queue_run ops d; Some (o :: os, d)
  end.

#[export] Instance is_byte_dec z : Decision (is_byte z).
Proof. unfold is_byte. apply _. Defined.

Lemma write_int_be_bytes k b d n :
  rep b d -> Z.of_nat (length d + k) <= FRAME_MAX ->
  exists b', write_int k b n = Some b' /\ rep b' (d ++ be_bytes k n).
Proof.
  intros H Hs. unfold write_int. destruct (decide (k = 0%nat)) as [->|].
  - apply rep_write_be with (k := 0%nat) (n := n) in H; [|done]. done.
  - rewrite <- (be_bytes_wraps k n) by lia. by apply rep_write_be.
Qed.

Lemma buf_step_refines op b d o d' :
  rep b d -> queue_step op d = Some (o, d') ->
  exists b', buf_step op b = Some (o, b') /\ rep b' d'.
Proof.
  intros H Hq. destruct op as [k n|src|k|n|n|n|src|n| |]; simpl in *; unfold queue_push in *;
    repeat case_decide; simplify_eq.
  - destruct (write_int_be_bytes k b d n H) as (b' & -> & ?);
      [rewrite be_bytes_length in *; lia|]. simpl; eauto.
  - destruct (rep_writeBytes b d src H) as (b' & -> & ?); [tauto..|]. simpl; eauto.
  - rewrite <- (take_drop k d) in H.
    destruct (rep_read_be k b (take k d) (drop k d) H) as (b' & E & ?);
      [rewrite length_take; lia|lia|]. unfold read_int. rewrite E. simpl; eauto.
  - rewrite <- (take_drop n d) in H.
    destruct (rep_readBytes b (take n d) (drop n d) H) as (b' & E & ?).
    rewrite length_take_le in E by done. rewrite E. simpl; eauto.
  - eexists; split; [done|]. rewrite <- (Nat2Z.id n) at 2. apply rep_drainData; [done|lia].
  - destruct (rep_stripData b d (Z.of_nat n) H) as (b' & -> & ?); [lia|].
    rewrite Nat2Z.id in *. simpl; eauto.
  - destruct (rep_expand b d (Z.of_nat (length src)) H) as (b1 & E & Hb1 & ?); [lia..|].
    unfold ensureFree. rewrite E. simpl.
    destruct (rep_recv b1 d src Hb1) as (b2 & b3 & E2 & E3 & ?); [tauto|lia|].
    rewrite E2. simpl. rewrite E3. simpl; eauto.
  - destruct (rep_expand b _ (Z.of_nat n) H) as (b1 & E & Hb1 & ?); [lia..|].
    unfold ensureFree. rewrite E. simpl; eauto.
  - eauto using rep_clear.
  - destruct (rep_shrink b _ H) as (b' & -> & ?). simpl; eauto.
Qed.

(** C40: The buffer is a byte queue.  Any sequence of writes, reads, drains,
    receptions, reservations and shrinks that the byte-queue contract allows
    (reads of bytes that are there, frames of at most 16 MiB) runs without
    undefined behaviour on every buffer holding the same bytes, returns the
    values the contract gives, and ends with the bytes the contract ends
    with. *)
Theorem databuffer_refines_queue ops b d os d' :
  rep b d -> queue_run ops d = Some (os, d') ->
  exists b', buf_run ops b = Some (os, b') /\ rep b' d'.
Proof.
  revert b d os d'; induction ops as [|op ops IH]; intros b d os d' H Hq; simpl in *.
  { simplify_eq. eauto. }
  apply bind_Some_inv in Hq as ([o d1] & H1 & Hq).
  apply bind_Some_inv in Hq as ([os1 d2] & H2 & Hq). simplify_eq.
  destruct (buf_step_refines op b d o d1 H H1) as (b1 & -> & Hb1).
  destruct (IH b1 d1 os1 d' Hb1 H2) as (b2 & E & Hb2).
  simpl. rewrite E. simpl. eauto.
Qed.

Lemma databuffer_refines_queue_witness :
  exists b', buf_run [OpWriteInt 4 (-2); OpWriteBytes [65; 66; 67]; OpReadInt 4; OpDrain 1;
                      OpEnsureFree 5000; OpShrink; OpReadBytes 2] DataBuffer_new =
             Some ([OutUnit; OutUnit; OutInt (-2); OutUnit; OutUnit; OutUnit; OutBytes [66; 67]], b') /\
             rep b' [].
Proof. apply (databuffer_refines_queue _ DataBuffer_new []); [apply rep_new|vm_compute; reflexivity]. Defined.

(** ** Round trips *)

Lemma read_int_be_bytes k sgn b n d :
  rep b (be_bytes k n ++ d) -> (0 < k)%nat ->
  exists b', read_int k sgn b =
    Some (if sgn then wraps (8 * Z.of_nat k) n else wrapu (8 * Z.of_nat k) n, b') /\ rep b' d.
Proof.
  intros H Hk. destruct (rep_read_be k b (be_bytes k n) d H) as (b' & E & ?);
    [apply be_bytes_length|done|].
  unfold read_int. rewrite E. simpl. rewrite be_value_be_bytes, wraps_wrapu by lia.
  destruct sgn; [eauto|]. rewrite wrapu_wraps by lia. eauto.
Qed.

Definition in_int_range (k : nat) (sgn : bool) (n : Z) : Prop :=
  if sgn then - 2 ^ (8 * Z.of_nat k - 1) <= n < 2 ^ (8 * Z.of_nat k - 1)
  else 0 <= n < 2 ^ (8 * Z.of_nat k).

(** Round trip of the integer codecs.  For every width of [k] bytes and
    either signedness, a value of that type written after the bytes [d] is the
    value read back once those bytes are consumed, whatever the buffer's
    layout. *)
Theorem int_roundtrip k sgn n b d :
  rep b d -> (0 < k)%nat -> in_int_range k sgn n -> Z.of_nat (length d + k) <= FRAME_MAX ->
  exists b1 b2, write_int k b n = Some b1 /\
    read_int k sgn (drainData b1 (Z.of_nat (length d))) = Some (n, b2) /\ rep b2 [].
Proof.
  intros H Hk Hn Hs. destruct (write_int_be_bytes k b d n H Hs) as (b1 & E1 & H1).
  apply (rep_drainData b1 _ (Z.of_nat (length d))) in H1; [|lia].
  rewrite Nat2Z.id, drop_app_length, <- (app_nil_r (be_bytes k n)) in H1.
  destruct (read_int_be_bytes k sgn _ n [] H1 Hk) as (b2 & E2 & H2).
  exists b1, b2. split_and!; [done| |done]. rewrite E2. unfold in_int_range in Hn.
  destruct sgn; rewrite ?wraps_small, ?wrapu_small by lia; done.
Qed.

Lemma int_roundtrip_witness :
  exists b1 b2, write_int 8 DataBuffer_new (-9223372036854775808) = Some b1 /\
    read_int 8 true (drainData b1 0) = Some (-9223372036854775808, b2) /\ rep b2 [].
Proof.
  apply (int_roundtrip 8 true (-9223372036854775808) DataBuffer_new []);
    [apply rep_new|lia|vm_compute; split; congruence|vm_compute; congruence].
Defined.

Lemma read_string_bytes b value d :
  rep b (be_bytes 4 (Z.of_nat (length value)) ++ value ++ d) -> Z.of_nat (length value) <= FRAME_MAX ->
  exists b', read_string b = Some (value, b') /\ rep b' d.
Proof.
  intros H Hl. unfold read_string, FRAME_MAX in *.
  destruct (rep_read_be 4 b _ _ H) as (b1 & E & H1); [apply be_bytes_length|lia|].
  unfold readInt32. rewrite E. cbn [mbind option_bind].
  rewrite be_value_be_bytes, wraps_wrapu by lia.
  rewrite wraps_small by lia. rewrite (rep_peekBytes _ _ _ H1) by (rewrite length_app; lia).
  cbn [mbind option_bind]. rewrite Nat2Z.id, take_app_length. eexists; split; [done|].
  apply (rep_drainData _ _ (Z.of_nat (length value))) in H1; [|lia].
  by rewrite Nat2Z.id, drop_app_length in H1.
Qed.

(** Round trip of [std::string].  A string of at most 16 MiB less the
    length field, written by [write(const std::string &)] after the bytes [d],
    is read back by [read(std::string &)] once those are consumed, and the
    buffer is then empty. *)
Theorem string_roundtrip b d value :
  rep b d -> Forall is_byte value -> Z.of_nat (length d + 4 + length value) <= FRAME_MAX ->
  exists b1 b2, write_string b value = Some b1 /\
    read_string (drainData b1 (Z.of_nat (length d))) = Some (value, b2) /\ rep b2 [].
Proof.
  intros H Hb Hs. unfold write_string, FRAME_MAX in *.
  assert (Hl : i32 (Z.of_nat (length value)) = Z.of_nat (length value))
    by (apply i32_small; unfold INT_MIN, INT_MAX; lia).
  destruct (rep_write_be 4 b d (i32 (i32 (Z.of_nat (length value)))) H) as (b1 & E1 & H1);
    [unfold FRAME_MAX; lia|].
  unfold writeInt32. rewrite E1. simpl. rewrite !Hl in *.
  destruct (rep_writeBytes b1 _ value H1 Hb) as (b2 & E2 & H2);
    [rewrite length_app, be_bytes_length; unfold FRAME_MAX; lia|].
  apply (rep_drainData b2 _ (Z.of_nat (length d))) in H2; [|lia].
  rewrite <- app_assoc, Nat2Z.id, drop_app_length in H2. rewrite E2.
  destruct (read_string_bytes (drainData b2 (Z.of_nat (length d))) value []) as (b3 & ? & ?);
    [rewrite app_nil_r; exact H2|unfold FRAME_MAX; lia|].
  eauto.
Qed.

Lemma string_roundtrip_witness :
  exists b1 b2, write_string DataBuffer_new [104; 105; 0; 255] = Some b1 /\
    read_string (drainData b1 0) = Some ([104; 105; 0; 255], b2) /\ rep b2 [].
Proof.
  apply (string_roundtrip DataBuffer_new []);
    [apply rep_new|repeat constructor; done|vm_compute; congruence].
Defined.

(** ** Growth: what holds and what does not *)

(** [expand] keeps its promise for frames of up to [2^24] bytes: it
    terminates, keeps the buffered bytes, and leaves at least [need] free
    bytes behind them, on each of its three paths (first allocation,
    reallocation, compaction). *)
Theorem expand_makes_room b d need :
  rep b d -> 0 <= need -> Z.of_nat (length d) + need <= FRAME_MAX ->
  exists b', expand b need = Some b' /\ getData b' = Some d /\ need <= getFreeLen b'.
Proof.
  intros H Hn Hs. destruct (rep_expand b d need H Hn Hs) as (b' & E & Hr & Hroom).
  exists b'. split_and!; [done|by apply rep_getData|]. unfold getFreeLen.
  pose proof (rep_pend _ _ Hr). unfold BUF_MAX, FRAME_MAX in *.
  rewrite i32_small; [lia|]. unfold INT_MIN, INT_MAX.
  destruct Hr as [->|pre post -> ? ? ?]; simpl in *; lia.
Qed.

Lemma expand_makes_room_witness :
  exists b', expand (mkDataBuffer (Some [None; Some 7; None]) 1 2) 20 = Some b' /\
    getData b' = Some [7] /\ 20 <= getFreeLen b'.
Proof.
  apply (expand_makes_room _ [7]); [|lia|vm_compute; congruence].
  apply (rep_block _ _ [None] [None]); [done|by repeat constructor|simpl; lia|vm_compute; congruence].
Defined.

Lemma malloc_length n : 0 <= n -> Z.of_nat (length (malloc n)) = n.
Proof. intros Hn. unfold malloc. rewrite length_replicate. lia. Qed.

(** An empty block that is too small is replaced by one of [grow_size] bytes. *)
Lemma expand_grows_empty m need sz :
  Z.of_nat (length m) <= INT_MAX -> Z.of_nat (length m) < need ->
  grow_size (Z.of_nat (length m)) 0 need = Some sz ->
  expand (mkDataBuffer (Some m) 0 0) need = Some (mkDataBuffer (Some (malloc sz)) 0 0).
Proof.
  intros Hm Hn Hg. unfold expand, _pend. cbn [_mem _pdata _pfree].
  rewrite !i32_small by (unfold INT_MIN, INT_MAX in *; lia). rewrite Z.sub_0_r, Z.add_0_r.
  rewrite (proj2 (Z.ltb_lt _ _)) by lia. cbn [orb]. change (i32 (0 - 0)) with 0. rewrite Hg. done.
Qed.

(** Beyond 24 bits the [float] computation of the new size rounds the
    request down: an empty buffer of 16 MiB asked for [2^25 + 1] bytes
    reports success with only [2^25] bytes, one less than the [memcpy] that
    follows writes. *)
Theorem expand_float_rounding_short :
  exists b', expand (mkDataBuffer (Some (malloc (2 ^ 24))) 0 0) (2 ^ 25 + 1) = Some b' /\
    _pend b' - _pfree b' < 2 ^ 25 + 1.
Proof.
  exists (mkDataBuffer (Some (malloc (2 ^ 25))) 0 0). split.
  - apply expand_grows_empty; rewrite malloc_length by lia; [done..|].
    vm_compute. reflexivity.
  - unfold _pend. cbn [_mem _pfree]. rewrite malloc_length by lia. lia.
Qed.

Lemma find_loop_neg fuel m p f i :
  (exists c, head f = Some c /\ 128 <= c < 256) ->
  (forall j, i <= j < i + Z.of_nat fuel -> exists v, load m (p + j) = Some v /\ is_byte v) ->
  find_loop fuel m p f i = Some (-1).
Proof.
  intros (c & Hc & Hr). revert i; induction fuel as [|fuel IH]; intros i Hl; [done|]. simpl.
  destruct (Hl i) as (v & E & Hv); [lia|]. rewrite E, Hc. simpl. unfold is_byte in Hv.
  assert (i8 c = c - 256) as ->.
  { unfold wraps. change (2 ^ (8 - 1)) with 128. change (2 ^ 8) with 256.
    rewrite <- (Z.mod_unique (c + 128) 256 1 (c - 128)); lia. }
  rewrite (proj2 (Z.eqb_neq _ _)) by lia. apply IH. intros j Hj. apply Hl. lia.
Qed.

Lemma load_data pre d post j :
  0 <= j < Z.of_nat (length d) ->
  load (pre ++ (Some <$> d) ++ post) (Z.of_nat (length pre) + j) = d !! Z.to_nat j.
Proof.
  intros Hj. destruct (lookup_lt_is_Some_2 d (Z.to_nat j)) as [v Hv]; [lia|].
  rewrite Hv. apply take_drop_middle in Hv as Hd. rewrite <- Hd at 1.
  rewrite fmap_app, fmap_cons, <- app_assoc, app_assoc. simpl.
  apply load_mid. rewrite length_app, length_fmap, length_take. lia.
Qed.

Lemma rep_load_data pre d post j :
  Forall is_byte d -> 0 <= j < Z.of_nat (length d) ->
  exists v, load (pre ++ (Some <$> d) ++ post) (Z.of_nat (length pre) + j) = Some v /\
            is_byte v /\ d !! Z.to_nat j = Some v.
Proof.
  intros Hb Hj. rewrite load_data by done.
  destruct (lookup_lt_is_Some_2 d (Z.to_nat j)) as [v Hv]; [lia|].
  exists v. split_and!; [done| |done]. by eapply Forall_lookup_1.
Qed.

(** [f] occurs in [d] at position [i]. *)
Definition occurs_at (f d : list Z) (i : nat) : Prop := take (length f) (drop i d) = f.

Lemma mem_bytes_data pre d post j (n : nat) :
  0 <= j -> j + Z.of_nat n <= Z.of_nat (length d) ->
  mem_bytes (pre ++ (Some <$> d) ++ post) (Z.of_nat (length pre) + j) (Z.of_nat n) =
  Some (take n (drop (Z.to_nat j) d)).
Proof.
  intros H0 Hj. rewrite <- (take_drop (Z.to_nat j) d) at 1.
  rewrite <- (take_drop n (drop (Z.to_nat j) d)) at 1.
  rewrite !fmap_app, <- !app_assoc, (app_assoc pre).
  apply mem_bytes_mid; rewrite ?length_app, ?length_fmap, ?length_take, ?length_drop; lia.
Qed.

Lemma find_loop_spec fuel pre d post c f i :
  Forall is_byte d -> 0 <= c < 128 ->
  (i + fuel + length f <= length d)%nat ->
  (forall j, (j < i)%nat -> ~ occurs_at (c :: f) d j) ->
  exists r, find_loop fuel (pre ++ (Some <$> d) ++ post) (Z.of_nat (length pre)) (c :: f) (Z.of_nat i) = Some r /\
    ((r = -1 /\ forall j, (j < i + fuel)%nat -> ~ occurs_at (c :: f) d j) \/
     (0 <= r /\ occurs_at (c :: f) d (Z.to_nat r) /\
      forall j, (j < Z.to_nat r)%nat -> ~ occurs_at (c :: f) d j)).
Proof.
  intros Hb Hc. revert i; induction fuel as [|fuel IH]; intros i Hlen Hno; simpl.
  { eexists; split; [done|]. left. split; [done|]. intros j Hj. apply Hno. lia. }
  destruct (rep_load_data pre d post (Z.of_nat i) Hb) as (v & -> & Hv & Hlk); [lia|]. simpl.
  rewrite wraps_small by lia. rewrite Nat2Z.id in Hlk.
  assert (Hrec : ~ occurs_at (c :: f) d i ->
    exists r, find_loop fuel (pre ++ (Some <$> d) ++ post) (Z.of_nat (length pre)) (c :: f) (Z.of_nat i + 1) = Some r /\
    ((r = -1 /\ forall j, (j < i + S fuel)%nat -> ~ occurs_at (c :: f) d j) \/
     (0 <= r /\ occurs_at (c :: f) d (Z.to_nat r) /\
      forall j, (j < Z.to_nat r)%nat -> ~ occurs_at (c :: f) d j))).
  { intros Hni. replace (Z.of_nat i + 1) with (Z.of_nat (S i)) by lia.
    rewrite <- Nat.add_succ_comm. apply IH; [lia|].
    intros j Hj. destruct (decide (j = i)) as [->|]; [done|]. apply Hno. lia. }
  case_bool.
  - subst v. change (S (length f)) with (length (c :: f)).
    rewrite mem_bytes_data by (simpl; lia). simpl mbind. rewrite Nat2Z.id. case_decide as Heq.
    + eexists; split; [done|]. right. rewrite Nat2Z.id. split_and!; [lia|exact Heq|done].
    + by apply Hrec.
  - apply Hrec. unfold occurs_at. rewrite (drop_S _ _ _ Hlk). simpl. congruence.
Qed.

(** [findBytes] finds the first occurrence.  For a pattern whose first
    byte is an ASCII character, the result is the least offset at which the
    pattern occurs in the buffered bytes, or -1 when it does not occur. *)
Theorem findBytes_first b d c f :
  rep b d -> 0 <= c < 128 -> Z.of_nat (length f) < BUF_MAX ->
  exists r, findBytes b (c :: f) = Some r /\
    ((r = -1 /\ forall j, ~ occurs_at (c :: f) d j) \/
     (0 <= r /\ occurs_at (c :: f) d (Z.to_nat r) /\
      forall j, (j < Z.to_nat r)%nat -> ~ occurs_at (c :: f) d j)).
Proof.
  intros H Hc Hf. pose proof (rep_length _ _ H). unfold findBytes, BUF_MAX in *.
  assert (Hbig : forall j, (length d < j + length (c :: f))%nat -> ~ occurs_at (c :: f) d j).
  { intros j Hj Ho. apply (f_equal length) in Ho. rewrite length_take, length_drop in Ho.
    cbn [length] in *. lia. }
  destruct H as [->|pre post -> Hb H1 H2].
  { subst. simpl _pfree. simpl _pdata. cbn [length].
    rewrite i32_small by (unfold INT_MIN, INT_MAX; lia). simpl _mem. cbn iota.
    rewrite (proj2 (Z.ltb_ge _ _)) by lia. eexists; split; [done|]. left.
    split; [done|]. intros j. apply Hbig. simpl; lia. }
  cbn [_mem _pfree _pdata].
  rewrite i32_small by (unfold INT_MIN, INT_MAX; cbn [length]; lia).
  set (n := Z.to_nat _). destruct (decide (length (c :: f) <= length d)%nat).
  - destruct (find_loop_spec n pre d post c f 0) as (r & E & Hr);
      [done|done|subst n; cbn [length] in *; lia|intros j Hj; lia|].
    exists r. split; [exact E|]. destruct Hr as [[? Hno]|?]; [left|by right]. split; [done|].
    intros j. destruct (decide (j < 0 + n)%nat); [by apply Hno|]. apply Hbig. subst n. cbn [length] in *. lia.
  - assert (n = 0%nat) as -> by (subst n; cbn [length] in *; lia).
    exists (-1). split; [done|]. left. split; [done|]. intros j. apply Hbig. cbn [length] in *. lia.
Qed.

Lemma findBytes_first_witness :
  exists r, findBytes (mkDataBuffer (Some [Some 71; Some 13; Some 13; Some 10]) 0 4) [13; 10] = Some r /\
    ((r = -1 /\ forall j, ~ occurs_at [13; 10] [71; 13; 13; 10] j) \/
     (0 <= r /\ occurs_at [13; 10] [71; 13; 13; 10] (Z.to_nat r) /\
      forall j, (j < Z.to_nat r)%nat -> ~ occurs_at [13; 10] [71; 13; 13; 10] j)).
Proof.
  apply (findBytes_first _ [71; 13; 13; 10] 13 [10]); [|lia|vm_compute; congruence].
  apply (rep_block _ _ [] []); [done|repeat constructor; done|simpl; lia|vm_compute; congruence].
Defined.

(** A pattern whose first byte is above 127 is never found, even where it
    occurs: the comparison of the first byte promotes the buffer's [unsigned
    char] and the pattern's signed [char] to different integers. *)
Theorem findBytes_misses_high_bytes b d c f :
  rep b d -> 128 <= c < 256 -> Z.of_nat (length f) < BUF_MAX -> findBytes b (c :: f) = Some (-1).
Proof.
  intros H Hc Hf. pose proof (rep_length _ _ H). unfold findBytes, BUF_MAX in *.
  destruct H as [->|pre post -> Hb H1 H2].
  { subst. cbn [length]. cbn [_mem _pfree _pdata DataBuffer_new].
    rewrite i32_small by (unfold INT_MIN, INT_MAX; lia).
    by rewrite (proj2 (Z.ltb_ge _ _)) by lia. }
  cbn [_mem _pfree _pdata]. rewrite i32_small by (unfold INT_MIN, INT_MAX; cbn [length]; lia).
  apply find_loop_neg; [by exists c|]. intros j Hj.
  destruct (rep_load_data pre d post j Hb) as (v & ? & ? & _); [cbn [length] in *; lia|]. eauto.
Qed.

Lemma findBytes_misses_high_bytes_witness :
  occurs_at [200] [1; 200; 3] 1 /\
  findBytes (mkDataBuffer (Some [Some 1; Some 200; Some 3]) 0 3) [200] = Some (-1).
Proof.
  split; [reflexivity|].
  apply (findBytes_misses_high_bytes _ [1; 200; 3] 200 []); [|lia|vm_compute; congruence].
  apply (rep_block _ _ [] []); [done|repeat constructor; done|simpl; lia|vm_compute; congruence].
Defined.
