(* ===== verification/PacketQueue.v ===== *)
(** * PacketQueue and OrderedPacketQueue

    Sources: src/agent_engine/network/anet/packetqueue.cpp and
    orderedpacketqueue.cpp.

    The queues are intrusive singly linked lists: the link is the [_next]
    field of the packet.  The model keeps the packets in a heap of nodes and
    the queue as the [_head] and [_tail] pointers and the [_size] field, so
    that the code's pointer updates are the model's heap updates.  [qrep h q l]
    says that the queue [q] holds the packets [l] in the heap [h]; the lemmas
    show what every operation does to [l], and that it changes no packet of
    another queue. *)

From Stdlib Require Import Sorted.
From S2P Require Import Prelude.

Abbreviation ptr := positive.

(** The fields of a packet the queues use. *)
Record node := mkNode { _expireTime : Z; _next : option ptr }.

Abbreviation heap := (gmap ptr node).

Record PacketQueue := mkQueue { _head : option ptr; _tail : option ptr; _size : Z }.

(** Accesses through a pointer; [None] when it dangles. *)
Definition expireTime (h : heap) (p : ptr) : option Z := _expireTime <$> h !! p.
Definition get_next (h : heap) (p : ptr) : option (option ptr) := _next <$> h !! p.
Definition set_next (h : heap) (p : ptr) (n : option ptr) : option heap :=
  x ← h !! p; Some (<[p := mkNode (_expireTime x) n]> h).

(** ** PacketQueue *)

Definition PacketQueue_new : PacketQueue := mkQueue None None 0.

(** The packets the destructor frees, in order. *)
Fixpoint destroy_loop (fuel : nat) (h : heap) (p : option ptr) : option (list ptr) :=
  match p with
  | None => Some []
  | Some q =>
      match fuel with
      | O => None
      | S fuel => p ← get_next h q; freed ← destroy_loop fuel h p; Some (q :: freed)
      end
  end.

Definition PacketQueue_destroy (h : heap) (q : PacketQueue) : option (list ptr * PacketQueue) :=
  freed ← destroy_loop (S (size h)) h (_head q);
  Some (freed, mkQueue None None 0).

Definition pop (h : heap) (q : PacketQueue) : option (option ptr * PacketQueue) :=
  match _head q with
  | None => Some (None, q)
  | Some packet =>
      head ← get_next h packet;
      let tail := match head with None => None | Some _ => _tail q end in
      Some (Some packet, mkQueue head tail (u64 (_size q - 1)))
  end.

Definition push (h : heap) (q : PacketQueue) (packet : ptr) : option (heap * PacketQueue) :=
  h ← set_next h packet None;
  match _tail q with
  | None => Some (h, mkQueue (Some packet) (Some packet) (u64 (_size q + 1)))
  | Some t => h ← set_next h t (Some packet);
              Some (h, mkQueue (_head q) (Some packet) (u64 (_size q + 1)))
  end.

Definition q_size (q : PacketQueue) : Z := _size q.
Definition q_empty (q : PacketQueue) : bool := _size q =? 0.

(** [q.moveTo(dest)]; the result is the heap, [q] and [dest]. *)
Definition moveTo (h : heap) (q dest : PacketQueue) : option (heap * PacketQueue * PacketQueue) :=
  match _head q with
  | None => Some (h, q, dest)
  | Some _ =>
      '(h, head) ← match _tail dest with
                   | None => Some (h, _head q)
                   | Some t => h ← set_next h t (_head q); Some (h, _head dest)
                   end;
      Some (h, mkQueue None None 0, mkQueue head (_tail q) (u64 (_size dest + _size q)))
  end.

(** [q.moveBack(src)] of the base class; the result is the heap, [q] and [src]. *)
Definition moveBack (h : heap) (q src : PacketQueue) : option (heap * PacketQueue * PacketQueue) :=
  match _head src with
  | None => Some (h, q, src)
  | Some _ =>
      '(h, head) ← match _tail q with
                   | None => Some (h, _head src)
                   | Some t => h ← set_next h t (_head src); Some (h, _head q)
                   end;
      Some (h, mkQueue head (_tail src) (u64 (_size q + _size src)), mkQueue None None 0)
  end.

(** The loop of [getTimeoutList]: [list] and [tail] are the two locals. *)
Fixpoint timeout_loop (fuel : nat) (h : heap) (now : Z) (head list tail : option ptr) (sz : Z)
  : option (heap * option ptr * option ptr * option ptr * Z) :=
  match head with
  | None => Some (h, head, list, tail, sz)
  | Some p =>
      t ← expireTime h p;
      if now <=? t then Some (h, head, list, tail, sz)
      else
        match fuel with
        | O => None
        | S fuel =>
            '(h, list) ← match tail with
                         | None => Some (h, Some p)
                         | Some tl => h ← set_next h tl (Some p); Some (h, list)
                         end;
            next ← get_next h p;
            timeout_loop fuel h now next list (Some p) (u64 (sz - 1))
        end
  end.

Definition getTimeoutList (h : heap) (q : PacketQueue) (now : Z)
  : option (heap * PacketQueue * option ptr) :=
  '(h, head, list, tail, sz) ← timeout_loop (S (size h)) h now (_head q) None None (_size q);
  h ← match tail with None => Some h | Some tl => set_next h tl None end;
  let qtail := match head with None => None | Some _ => _tail q end in
  Some (h, mkQueue head qtail sz, list).

(** ** OrderedPacketQueue *)

(** [while (expireTime >= p1->getExpireTime()) { p2 = p1; p1 = p1->_next; }] *)
Fixpoint insert_loop (fuel : nat) (h : heap) (e : Z) (p1 p2 : option ptr) : option (ptr * ptr) :=
  p ← p1;
  t ← expireTime h p;
  if t <=? e then
    match fuel with
    | O => None
    | S fuel => next ← get_next h p; insert_loop fuel h e next p1
    end
  else p2 ← p2; Some (p, p2).

Definition ordered_push (h : heap) (q : PacketQueue) (packet : ptr) : option (heap * PacketQueue) :=
  h ← set_next h packet None;
  let sz := u64 (_size q + 1) in
  match _head q with
  | None => Some (h, mkQueue (Some packet) (Some packet) sz)
  | Some hd =>
      e ← expireTime h packet;
      tl ← _tail q;
      te ← expireTime h tl;
      if te <=? e then
        h ← set_next h tl (Some packet);
        Some (h, mkQueue (_head q) (Some packet) sz)
      else
        he ← expireTime h hd;
        if e <? he then
          h ← set_next h packet (Some hd);
          Some (h, mkQueue (Some packet) (_tail q) sz)
        else
          '(p1, p2) ← insert_loop (S (size h)) h e (_head q) (_head q);
          h ← set_next h packet (Some p1);
          h ← set_next h p2 (Some packet);
          Some (h, mkQueue (_head q) (_tail q) sz)
  end.

(** The merge loop of [moveBack], with the local iterators as arguments. *)
Fixpoint merge_loop (fuel : nat) (h : heap) (lIter rIter : option ptr) (currIter : ptr)
  : option (heap * option ptr * option ptr * ptr) :=
  match lIter, rIter with
  | Some l, Some r =>
      match fuel with
      | O => None
      | S fuel =>
          el ← expireTime h l;
          er ← expireTime h r;
          if el <? er then
            h ← set_next h currIter lIter;
            lnext ← get_next h l;
            merge_loop fuel h lnext rIter l
          else
            h ← set_next h currIter rIter;
            rnext ← get_next h r;
            merge_loop fuel h lIter rnext r
      end
  | _, _ => Some (h, lIter, rIter, currIter)
  end.

Definition ordered_moveBack (h : heap) (q src : PacketQueue)
  : option (heap * PacketQueue * PacketQueue) :=
  match _head src with
  | None => Some (h, q, src)
  | Some r0 =>
      let sz := u64 (_size q + _size src) in
      match _head q with
      | None => Some (h, mkQueue (_head src) (_tail src) sz, mkQueue None None 0)
      | Some l0 =>
          st ← _tail src;
          ste ← expireTime h st;
          le ← expireTime h l0;
          if ste <=? le then
            h ← set_next h st (_head q);
            Some (h, mkQueue (_head src) (_tail q) sz, mkQueue None None 0)
          else
            re ← expireTime h r0;
            '(head, lIter, rIter) ←
              (if le <? re then n ← get_next h l0; Some (l0, n, Some r0)
               else n ← get_next h r0; Some (r0, Some l0, n));
            '(h, lIter, rIter, currIter) ← merge_loop (S (size h)) h lIter rIter head;
            '(h, tail) ← match lIter with
                         | Some _ => h ← set_next h currIter lIter; Some (h, _tail q)
                         | None => h ← set_next h currIter rIter; Some (h, _tail src)
                         end;
            Some (h, mkQueue (Some head) tail sz, mkQueue None None 0)
      end
  end.

(** [q.moveTo(dest)] is [dest->moveBack(this)]. *)
Definition ordered_moveTo (h : heap) (q dest : PacketQueue)
  : option (heap * PacketQueue * PacketQueue) :=
  '(h, dest, q) ← ordered_moveBack h dest q;
  Some (h, q, dest).

(** ** Linked segments *)

(** Following [_next] from [p] visits [l] and arrives at [e]. *)
Fixpoint lseg (h : heap) (p : option ptr) (l : list ptr) (e : option ptr) : Prop :=
  match l with
  | [] => p = e
  | x :: l => p = Some x /\ exists nd, h !! x = Some nd /\ lseg h (_next nd) l e
  end.

(** [q] holds the packets [l], in this order. *)
Record qrep (h : heap) (q : PacketQueue) (l : list ptr) : Prop := {
  qrep_nodup : NoDup l;
  qrep_list : lseg h (_head q) l None;
  qrep_tail : _tail q = last l;
  qrep_size : _size q = Z.of_nat (length l);
  qrep_bound : Z.of_nat (length l) < 2 ^ 63
}.

(** What an operation on the packets [l] leaves alone: the other packets, and
    the expiration time of every packet. *)
Record frame (h h' : heap) (l : list ptr) : Prop := {
  frame_other : forall x, x ∉ l -> h' !! x = h !! x;
  frame_time : forall x, expireTime h' x = expireTime h x
}.

Section Lists.

Implicit Types (h : heap) (l : list ptr) (p e : option ptr).

Lemma frame_refl h l : frame h h l.
Proof. by split. Qed.

Lemma frame_trans h1 h2 h3 l : frame h1 h2 l -> frame h2 h3 l -> frame h1 h3 l.
Proof. intros [A B] [C D]. split; intros x; [intros ?; by rewrite C, A|by rewrite D, B]. Qed.

Lemma frame_weaken h h' l l' : frame h h' l -> l ⊆ l' -> frame h h' l'.
Proof. intros [A B] Hs. split; [|done]. intros x Hx. apply A. set_solver. Qed.

Lemma lookup_expire h x nd : h !! x = Some nd -> expireTime h x = Some (_expireTime nd).
Proof. unfold expireTime. by intros ->. Qed.

Lemma frame_size h h' l : frame h h' l -> size h' = size h.
Proof.
  intros [_ Ht]. rewrite <- !size_dom. f_equal. apply set_eq. intros x.
  rewrite !elem_of_dom. specialize (Ht x). unfold expireTime in Ht.
  destruct (h !! x), (h' !! x); simpl in *; try done; split; intros []; eauto; done.
Qed.

(** Updating [_next] of an existing packet. *)
Lemma set_next_ok h x n :
  is_Some (h !! x) ->
  exists h', set_next h x n = Some h' /\ get_next h' x = Some n /\ frame h h' [x].
Proof.
  intros [nd Hx]. unfold set_next. rewrite Hx. simpl. eexists; split_and!; [done| |].
  - unfold get_next. by rewrite lookup_insert_eq.
  - split; intros y.
    + rewrite not_elem_of_cons. intros [Hy _]. by rewrite lookup_insert_ne.
    + unfold expireTime. destruct (decide (x = y)) as [<-|Hne];
        [by rewrite lookup_insert_eq, Hx|by rewrite lookup_insert_ne].
Qed.

Lemma frame_is_Some h h' l x : frame h h' l -> is_Some (h !! x) -> is_Some (h' !! x).
Proof.
  intros [_ Ht] [nd Hx]. specialize (Ht x). unfold expireTime in Ht. rewrite Hx in Ht.
  destruct (h' !! x); [eauto|done].
Qed.

Lemma lseg_frame h h' L p l e :
  frame h h' L -> (forall x, x ∈ l -> x ∉ L) -> lseg h p l e -> lseg h' p l e.
Proof.
  intros Hf. revert p; induction l as [|x l IH]; intros p Hd; simpl; [done|].
  intros (-> & nd & Hx & Hl). split; [done|]. exists nd.
  rewrite (frame_other _ _ _ Hf) by (apply Hd; set_solver). split; [done|].
  apply IH; [|done]. intros y Hy. apply Hd. set_solver.
Qed.

Lemma lseg_app h p l1 l2 e : lseg h p (l1 ++ l2) e <-> exists m, lseg h p l1 m /\ lseg h m l2 e.
Proof.
  revert p; induction l1 as [|x l1 IH]; intros p; simpl.
  - split; [eauto|]. intros (m & -> & ?). done.
  - split.
    + intros (-> & nd & ? & H). apply IH in H as (m & ? & ?). exists m. eauto 10.
    + intros (m & (-> & nd & ? & ?) & ?). split; [done|]. exists nd. split; [done|]. apply IH. eauto.
Qed.

Lemma lseg_alive h p l e x : lseg h p l e -> x ∈ l -> is_Some (h !! x).
Proof.
  revert p; induction l as [|y l IH]; intros p; simpl; [set_solver|].
  intros (-> & nd & ? & ?) [->|?]%elem_of_cons; eauto.
Qed.

Lemma lseg_head h p l e : lseg h p l e -> l <> [] -> p = head l.
Proof. destruct l; simpl; [done|]. by intros [-> _] _. Qed.

Lemma lseg_length h p l e : lseg h p l e -> NoDup l -> (length l <= size h)%nat.
Proof.
  intros H Hn. rewrite <- (size_list_to_set (C := gset ptr) l) by done.
  rewrite <- size_dom. apply subseteq_size. intros x. rewrite elem_of_list_to_set, elem_of_dom.
  eauto using lseg_alive.
Qed.

(** Redirecting the last packet of a segment. *)
Lemma lseg_redirect h h' p l x e n :
  lseg h p (l ++ [x]) e -> NoDup (l ++ [x]) -> get_next h' x = Some n -> frame h h' [x] ->
  lseg h' p (l ++ [x]) n.
Proof.
  intros H Hn Hx Hf. apply lseg_app in H as (m & H1 & -> & nd & Hnd & _).
  apply lseg_app. exists (Some x). apply NoDup_app in Hn as (_ & Hd & _). split.
  - eapply lseg_frame; [exact Hf| |done]. intros y Hy. rewrite list_elem_of_singleton.
    intros ->. apply (Hd _ Hy). set_solver.
  - simpl. split; [done|]. unfold get_next in Hx.
    destruct (h' !! x) as [nd'|] eqn:E; [|done]. exists nd'. simpl in Hx. by simplify_eq.
Qed.

Lemma qrep_other h h' L q l :
  frame h h' L -> (forall x, x ∈ l -> x ∉ L) -> qrep h q l -> qrep h' q l.
Proof. intros Hf Hd [? ? ? ? ?]. split; eauto using lseg_frame. Qed.

(** A queue only depends on its own packets. *)
Lemma lseg_agree h h' p l e : (forall x, x ∈ l -> h' !! x = h !! x) -> lseg h p l e -> lseg h' p l e.
Proof.
  revert p; induction l as [|x l IH]; intros p Ha; [done|]. intros (-> & nd & Hx & Hl). split; [done|].
  exists nd. rewrite Ha by set_solver. split; [done|]. apply IH; [|done]. intros y Hy. apply Ha. set_solver.
Qed.

Lemma qrep_agree h h' q l : (forall x, x ∈ l -> h' !! x = h !! x) -> qrep h q l -> qrep h' q l.
Proof. intros Ha [? Hl ? ? ?]. split; try done. by eapply lseg_agree. Qed.

Lemma qrep_new h : qrep h PacketQueue_new [].
Proof. split; simpl; [constructor|done..]. Qed.

Lemma qrep_none h sz : sz = 0 -> qrep h (mkQueue None None sz) [].
Proof. intros ->. apply qrep_new. Qed.

Lemma u64_succ n : Z.of_nat n < 2 ^ 63 -> u64 (Z.of_nat n + 1) = Z.of_nat (S n).
Proof. intros H. rewrite wrapu_small; lia. Qed.

Lemma last_cons_ne {A} (x : A) (l : list A) : l <> [] -> last (x :: l) = last l.
Proof. destruct l; done. Qed.

(** Appending: a detached packet, or a whole other queue, after a queue. *)
Lemma link_after h h' p l x p2 l2 :
  lseg h p (l ++ [x]) None -> lseg h p2 l2 None -> NoDup ((l ++ [x]) ++ l2) ->
  get_next h' x = Some p2 -> frame h h' [x] -> lseg h' p ((l ++ [x]) ++ l2) None.
Proof.
  intros H1 H2 Hn Hx Hf. apply NoDup_app in Hn as (Hn1 & Hd & _).
  apply lseg_app. exists p2. split; [by eapply lseg_redirect|].
  eapply lseg_frame; [exact Hf| |done]. intros y Hy. rewrite list_elem_of_singleton.
  intros ->. apply (Hd x); [set_solver|done].
Qed.

End Lists.

(** ** PacketQueue: a first-in first-out queue *)

Section Base.

Implicit Types (h : heap) (l : list ptr) (q : PacketQueue).

Lemma destroy_loop_ok h p l fuel :
  lseg h p l None -> (length l <= fuel)%nat -> destroy_loop fuel h p = Some l.
Proof.
  revert p fuel; induction l as [|x l IH]; intros p fuel; simpl.
  - intros -> _. by destruct fuel.
  - intros (-> & nd & Hx & Hl) Hf. destruct fuel as [|fuel]; [lia|]. simpl.
    unfold get_next. rewrite Hx. simpl. rewrite (IH _ fuel Hl) by lia. done.
Qed.

(** The destructor frees every packet once. *)
Lemma destroy_frees_all h q l :
  qrep h q l -> PacketQueue_destroy h q = Some (l, PacketQueue_new).
Proof.
  intros [Hn Hl _ _ _]. unfold PacketQueue_destroy.
  rewrite (destroy_loop_ok h _ l) by (done || (pose proof (lseg_length _ _ _ _ Hl Hn); lia)).
  done.
Qed.

Lemma pop_empty h q : qrep h q [] -> pop h q = Some (None, q).
Proof. intros [_ Hl _ _ _]. unfold pop. simpl in Hl. by rewrite Hl. Qed.

Lemma pop_ok h q x l :
  qrep h q (x :: l) -> exists q', pop h q = Some (Some x, q') /\ qrep h q' l.
Proof.
  intros [Hn (Hh & nd & Hx & Hl) Ht Hs Hb]. unfold pop. rewrite Hh.
  unfold get_next. rewrite Hx. simpl. eexists; split; [done|].
  apply NoDup_cons in Hn as [_ Hn]. split; simpl.
  - done.
  - done.
  - destruct l as [|y l]; [by rewrite Hl|]. rewrite (lseg_head _ _ _ _ Hl) by done.
    simpl. by rewrite Ht.
  - rewrite Hs. simpl length. rewrite wrapu_small; [lia|]. simpl length in Hb. lia.
  - simpl length in Hb. lia.
Qed.

Lemma push_ok h q l x :
  qrep h q l -> x ∉ l -> is_Some (h !! x) -> Z.of_nat (S (length l)) < 2 ^ 63 ->
  exists h' q', push h q x = Some (h', q') /\ qrep h' q' (l ++ [x]) /\ frame h h' (l ++ [x]).
Proof.
  intros [Hn Hl Ht Hs Hb] Hx Ha Hb'. unfold push.
  destruct (set_next_ok h x None Ha) as (h1 & -> & Hx1 & Hf1). simpl.
  assert (Hl1 : lseg h1 (_head q) l None).
  { eapply lseg_frame; [exact Hf1| |done]. intros y Hy. rewrite list_elem_of_singleton. by intros ->. }
  assert (HN : NoDup (l ++ [x])).
  { apply NoDup_app; split_and!; [done|set_solver|apply NoDup_singleton]. }
  assert (Hsx : lseg h1 (Some x) [x] None).
  { simpl. split; [done|]. unfold get_next in Hx1. destruct (h1 !! x) as [nd|]; [|done].
    exists nd. simpl in Hx1. by simplify_eq. }
  rewrite Ht. destruct l as [|t l _] using rev_ind; simpl.
  - do 2 eexists; split_and!; [done| |].
    + split; simpl; [done|exact Hsx|done|rewrite Hs; by apply u64_succ|done].
    + done.
  - rewrite last_snoc.
    destruct (set_next_ok h1 t (Some x)) as (h2 & -> & Ht2 & Hf2).
    { eapply lseg_alive; [exact Hl1|]. set_solver. }
    simpl. do 2 eexists; split_and!; [done| |].
    + split; simpl.
      * done.
      * by eapply link_after.
      * by rewrite last_snoc.
      * rewrite Hs, u64_succ by done. rewrite !length_app; simpl. lia.
      * rewrite !length_app in *; simpl in *. lia.
    + eapply frame_trans; eapply frame_weaken; eauto; set_solver.
Qed.

Lemma moveBack_ok h q src l r :
  qrep h q l -> qrep h src r -> NoDup (l ++ r) -> Z.of_nat (length (l ++ r)) < 2 ^ 63 ->
  exists h' q' src', moveBack h q src = Some (h', q', src') /\
    qrep h' q' (l ++ r) /\ qrep h' src' [] /\ frame h h' (l ++ r).
Proof.
  intros [Hn Hl Ht Hs Hb] Hr HN HB. pose proof Hr as [Hn2 Hl2 Ht2 Hs2 Hb2]. unfold moveBack.
  destruct r as [|y r].
  { simpl in Hl2. rewrite Hl2. do 3 eexists; split_and!; [done| |done|apply frame_refl].
    rewrite app_nil_r. by split. }
  rewrite (lseg_head _ _ _ _ Hl2) by done. simpl head. cbn iota. rewrite Ht.
  assert (Hsz : u64 (_size q + _size src) = Z.of_nat (length (l ++ y :: r))).
  { rewrite Hs, Hs2, length_app, wrapu_small by (rewrite length_app in HB; lia). lia. }
  destruct l as [|t l _] using rev_ind; simpl.
  - do 3 eexists; split_and!; [done| |by apply qrep_none|apply frame_refl].
    split; simpl; [done| |done|done|done].
    rewrite (lseg_head _ _ _ _ Hl2) in Hl2 by done. exact Hl2.
  - rewrite last_snoc.
    destruct (set_next_ok h t (_head src)) as (h2 & E & Ht' & Hf).
    { eapply lseg_alive; [exact Hl|]. set_solver. }
    rewrite (lseg_head _ _ _ _ Hl2) in E by done. simpl in E. rewrite E. simpl.
    do 3 eexists; split_and!; [done| |by apply qrep_none|eapply frame_weaken; eauto; set_solver].
    split; simpl; [done| | |done|done].
    + by eapply link_after.
    + rewrite Ht2. by rewrite last_app_cons.
Qed.

Lemma moveTo_ok h q dest l r :
  qrep h q l -> qrep h dest r -> NoDup (r ++ l) -> Z.of_nat (length (r ++ l)) < 2 ^ 63 ->
  exists h' q' dest', moveTo h q dest = Some (h', q', dest') /\
    qrep h' q' [] /\ qrep h' dest' (r ++ l) /\ frame h h' (r ++ l).
Proof.
  intros Hq Hd HN HB.
  destruct (moveBack_ok h dest q r l Hd Hq HN HB) as (h' & d' & q' & E & ? & ? & ?).
  exists h', q', d'. split_and!; [|done..]. revert E. unfold moveTo, moveBack.
  destruct (_head q); [|by intros; simplify_eq]. destruct (_tail dest); simpl.
  - destruct (set_next h p0 _); simpl; by intros; simplify_eq.
  - by intros; simplify_eq.
Qed.

End Base.

(** ** Expiration order *)

Definition ekey (h : heap) (x : ptr) : Z := default 0 (expireTime h x).

Definition sorted (h : heap) (l : list ptr) : Prop :=
  StronglySorted (fun x y => ekey h x <= ekey h y) l.

(** A packet goes behind the packets that expire no later. *)
Fixpoint insert_by (k : ptr -> Z) (x : ptr) (l : list ptr) : list ptr :=
  match l with
  | [] => [x]
  | y :: l' => if k y <=? k x then y :: insert_by k x l' else x :: l
  end.

(** Merging a queue [l] with the packets [r] given back to it: of packets
    that expire together, those of [r] come first. *)
Fixpoint merge_back (k : ptr -> Z) (l : list ptr) : list ptr -> list ptr :=
  match l with
  | [] => fun r => r
  | x :: l' =>
      fix go r :=
        match r with
        | [] => l
        | y :: r' => if k x <? k y then x :: merge_back k l' r else y :: go r'
        end
  end.

Section Keys.

Implicit Types (h : heap) (l r : list ptr) (k : ptr -> Z).

Lemma ekey_alive h x : is_Some (h !! x) -> expireTime h x = Some (ekey h x).
Proof. intros [nd H]. unfold ekey, expireTime. by rewrite H. Qed.

Lemma ekey_frame h h' L x : frame h h' L -> ekey h' x = ekey h x.
Proof. intros Hf. unfold ekey. by rewrite (frame_time _ _ _ Hf). Qed.

Lemma sorted_frame h h' L l : frame h h' L -> sorted h l -> sorted h' l.
Proof.
  intros Hf. unfold sorted. induction 1 as [|x l _ IH Hx]; constructor; [done|].
  eapply Forall_impl; [exact Hx|]. intros y. by rewrite !(ekey_frame _ _ _ _ Hf).
Qed.

Lemma sorted_agree h h' l : (forall x, x ∈ l -> expireTime h' x = expireTime h x) -> sorted h l -> sorted h' l.
Proof.
  intros Ha. unfold sorted. induction l as [|x l IH]; intros Hs; [constructor|].
  inversion Hs as [|? ? Hs' Hf]; subst. constructor; [apply IH; [|done]; intros y Hy; apply Ha; set_solver|].
  apply Forall_forall. intros y Hy. eapply Forall_forall in Hf; [|exact Hy]. unfold ekey in *. rewrite !Ha by set_solver. done.
Qed.

Lemma insert_by_split k x l :
  exists l1 l2, l = l1 ++ l2 /\ insert_by k x l = l1 ++ x :: l2 /\
    (forall y, y ∈ l1 -> k y <= k x) /\ (forall y, head l2 = Some y -> k x < k y).
Proof.
  induction l as [|y l IH]; simpl.
  { exists [], []. split_and!; [done..|set_solver|done]. }
  case_bool.
  - destruct IH as (l1 & l2 & -> & -> & H1 & H2). exists (y :: l1), l2.
    split_and!; [done..| |done]. intros z [->|?]%elem_of_cons; eauto.
  - exists [], (y :: l). split_and!; [done..|set_solver|]. intros ? [= <-]. lia.
Qed.

Lemma insert_by_Permutation k x l : insert_by k x l ≡ₚ x :: l.
Proof.
  destruct (insert_by_split k x l) as (l1 & l2 & -> & -> & _). symmetry. apply Permutation_middle.
Qed.

Lemma sorted_app h l1 l2 :
  sorted h (l1 ++ l2) <->
  sorted h l1 /\ sorted h l2 /\ forall x y, x ∈ l1 -> y ∈ l2 -> ekey h x <= ekey h y.
Proof.
  unfold sorted. induction l1 as [|z l1 IH]; simpl.
  - split; [intros; split_and!; [constructor|done|set_solver]|tauto].
  - split.
    + intros H. inversion H as [|? ? Hs Hf]; subst. apply IH in Hs as (? & ? & Hc).
      apply Forall_app in Hf as [Hf1 Hf2]. split_and!; [by constructor|done|].
      intros x y [->|?]%elem_of_cons ?; [by eapply Forall_forall in Hf2|eauto].
    + intros (H & ? & Hc). inversion H as [|? ? Hs Hf]; subst. constructor.
      * apply IH. split_and!; [done..|]. intros; apply Hc; set_solver.
      * apply Forall_app. split; [done|]. apply Forall_forall. intros; apply Hc; set_solver.
Qed.

Lemma sorted_head h x l y : sorted h (x :: l) -> y ∈ l -> ekey h x <= ekey h y.
Proof. inversion 1 as [|? ? _ Hf]; subst. intros Hy. by eapply Forall_forall in Hf. Qed.

Lemma insert_by_sorted h x l : sorted h l -> sorted h (insert_by (ekey h) x l).
Proof.
  destruct (insert_by_split (ekey h) x l) as (l1 & l2 & -> & -> & H1 & H2).
  intros (S1 & S2 & S12)%sorted_app.
  assert (Hx : forall y, y ∈ l2 -> ekey h x <= ekey h y).
  { intros y Hy. destruct l2 as [|z l2]; [set_solver|]. specialize (H2 z eq_refl).
    apply elem_of_cons in Hy as [->|Hy]; [lia|]. pose proof (sorted_head _ _ _ _ S2 Hy). lia. }
  apply sorted_app. split_and!; [done| |].
  - constructor; [done|]. by apply Forall_forall.
  - intros a b Ha [->|Hb]%elem_of_cons; eauto.
Qed.

Lemma merge_back_nil_r k l : merge_back k l [] = l.
Proof. by destruct l. Qed.

Lemma merge_back_cons k x l y r :
  merge_back k (x :: l) (y :: r) =
  if k x <? k y then x :: merge_back k l (y :: r) else y :: merge_back k (x :: l) r.
Proof. done. Qed.

Lemma merge_back_Permutation k l r : merge_back k l r ≡ₚ l ++ r.
Proof.
  revert r; induction l as [|x l IHl]; intros r; [done|].
  induction r as [|y r IHr]; [by rewrite merge_back_nil_r, app_nil_r|].
  rewrite merge_back_cons. case_bool; [by rewrite IHl|].
  rewrite IHr, <- Permutation_middle. done.
Qed.

Lemma merge_back_elem k l r x : x ∈ merge_back k l r <-> x ∈ l \/ x ∈ r.
Proof. by rewrite merge_back_Permutation, elem_of_app. Qed.

Lemma merge_back_sorted h l r :
  sorted h l -> sorted h r -> sorted h (merge_back (ekey h) l r).
Proof.
  revert r; induction l as [|x l IHl]; intros r Hl Hr; [done|].
  induction r as [|y r IHr]; [by rewrite merge_back_nil_r|].
  rewrite merge_back_cons. pose proof Hl as Hl'. pose proof Hr as Hr'.
  inversion Hl as [|? ? Sl Fl]; inversion Hr as [|? ? Sr Fr]; subst.
  case_bool; (constructor; [first [by apply IHl|by apply IHr]|]); apply Forall_forall; intros z [Hz|Hz]%merge_back_elem.
  - by eapply Forall_forall in Fl.
  - apply elem_of_cons in Hz as [->|Hz]; [lia|]. pose proof (sorted_head _ _ _ _ Hr' Hz). lia.
  - apply elem_of_cons in Hz as [->|Hz]; [lia|]. pose proof (sorted_head _ _ _ _ Hl' Hz). lia.
  - by eapply Forall_forall in Fr.
Qed.

(** When everything given back expires no later than the queue's head,
    merging is prepending. *)
Lemma merge_back_before k l r :
  (forall x y, x ∈ l -> y ∈ r -> k y <= k x) -> merge_back k l r = r ++ l.
Proof.
  intros H. induction r as [|y r IH]; [apply merge_back_nil_r|].
  destruct l as [|x l]; [by rewrite app_nil_r|]. rewrite merge_back_cons.
  rewrite (proj2 (Z.ltb_ge _ _)) by (apply H; set_solver).
  rewrite IH by (intros; apply H; set_solver). done.
Qed.

Lemma merge_back_sublist k l r : l `sublist_of` merge_back k l r /\ r `sublist_of` merge_back k l r.
Proof.
  revert r; induction l as [|x l IHl]; intros r; [split; [apply sublist_nil_l|done]|].
  induction r as [|y r IHr]; [rewrite merge_back_nil_r; split; [done|apply sublist_nil_l]|].
  rewrite merge_back_cons. case_bool.
  - destruct (IHl (y :: r)). split; by constructor.
  - destruct IHr. split; by constructor.
Qed.

Lemma filter_split (f : ptr -> bool) l1 l2 :
  (forall x, x ∈ l1 -> f x = true) -> (forall x, x ∈ l2 -> f x = false) ->
  List.filter f (l1 ++ l2) = l1 /\ List.filter (fun x => negb (f x)) (l1 ++ l2) = l2.
Proof.
  intros H1 H2. rewrite !List.filter_app. induction l1 as [|x l1 IH]; simpl.
  - induction l2 as [|y l2 IH]; simpl; [done|]. rewrite H2 by set_solver. simpl.
    destruct IH as [-> ->]; [intros; apply H2; set_solver|done].
  - rewrite H1 by set_solver. simpl. destruct IH as [-> IH]; [intros; apply H1; set_solver|].
    split; [done|exact IH].
Qed.

End Keys.

Section Ordered.

Implicit Types (h : heap) (l r : list ptr) (q : PacketQueue).

Lemma lseg_next h p x l e :
  lseg h p (x :: l) e -> exists n, get_next h x = Some n /\ lseg h n l e.
Proof. intros (_ & nd & Hx & Hl). exists (_next nd). unfold get_next. by rewrite Hx. Qed.

Lemma lseg_start h p l : lseg h p l None -> p = head l.
Proof. intros H. destruct l; simpl in *; [done|]. by destruct H. Qed.

Lemma set_next_id h x n : get_next h x = Some n -> set_next h x n = Some h.
Proof.
  unfold get_next, set_next. destruct (h !! x) as [nd|] eqn:E; simpl; [|done].
  intros [= <-]. f_equal. rewrite insert_id; [done|]. rewrite E. by destruct nd.
Qed.

(** *** getTimeoutList *)

Lemma timeout_loop_ok fuel h now p acc l :
  lseg h p (acc ++ l) None -> Z.of_nat (length l) < 2 ^ 63 -> (length l <= fuel)%nat ->
  exists l1 l2, l = l1 ++ l2 /\
    (forall x, x ∈ l1 -> ekey h x < now) /\ (forall y, head l2 = Some y -> now <= ekey h y) /\
    timeout_loop fuel h now (head l) (head acc) (last acc) (Z.of_nat (length l)) =
    Some (h, head l2, head (acc ++ l1), last (acc ++ l1), Z.of_nat (length l2)).
Proof.
  revert acc fuel; induction l as [|x l IH]; intros acc fuel Hl Hb Hf.
  { exists [], []. rewrite !app_nil_r. split_and!; [done|set_solver|done|by destruct fuel]. }
  assert (Hx : is_Some (h !! x)) by (eapply lseg_alive; [exact Hl|]; set_solver).
  destruct fuel as [|fuel]; [simpl in *; lia|]. cbn [timeout_loop head].
  rewrite ekey_alive by done. cbn [mbind option_bind]. case_bool.
  { exists [], (x :: l). rewrite app_nil_r. split_and!; [done|set_solver| |done]. by intros ? [= <-]. }
  assert (Hstep : match last acc with
                  | Some tl => h' ← set_next h tl (Some x); Some (h', head acc)
                  | None => Some (h, Some x)
                  end = Some (h, head (acc ++ [x]))).
  { destruct acc as [|t acc _] using rev_ind; [done|]. rewrite last_snoc.
    apply lseg_app in Hl as (m & Hacc & Hrest). apply lseg_app in Hacc as (m' & _ & _ & nd & Hnd & Hm).
    simpl in Hm. rewrite set_next_id.
    - simpl. by destruct acc.
    - unfold get_next. rewrite Hnd. simpl. f_equal. rewrite Hm. by destruct Hrest. }
  rewrite Hstep. cbn [mbind option_bind].
  assert (Hn : get_next h x = Some (head l)).
  { apply lseg_app in Hl as (m & _ & Hl). apply lseg_next in Hl as (n & -> & Hl).
    f_equal. by eapply lseg_start. }
  rewrite Hn. cbn [mbind option_bind].
  destruct (IH (acc ++ [x]) fuel) as (l1 & l2 & -> & H1 & H2 & E);
    [by rewrite <- app_assoc|simpl in *; lia|simpl in *; lia|].
  exists (x :: l1), l2. split_and!; [done| |done|].
  - intros y [->|?]%elem_of_cons; eauto.
  - rewrite last_snoc in E. rewrite <- app_assoc in E.
    replace (u64 (Z.of_nat (length (x :: l1 ++ l2)) - 1)) with (Z.of_nat (length (l1 ++ l2))).
    + exact E.
    + cbn [length] in *. rewrite wrapu_small; lia.
Qed.

Lemma getTimeoutList_ok h q l now :
  qrep h q l ->
  exists h' q' l1 l2, l = l1 ++ l2 /\ getTimeoutList h q now = Some (h', q', head l1) /\
    lseg h' (head l1) l1 None /\ qrep h' q' l2 /\ frame h h' l /\
    (forall x, x ∈ l1 -> ekey h x < now) /\ (forall y, head l2 = Some y -> now <= ekey h y).
Proof.
  intros [Hn Hl Ht Hs Hb]. unfold getTimeoutList.
  pose proof (lseg_start _ _ _ Hl) as Hh. rewrite Hh in Hl |- *.
  destruct (timeout_loop_ok (S (size h)) h now (head l) [] l) as (l1 & l2 & -> & H1 & H2 & E);
    [done|done|pose proof (lseg_length _ _ _ _ Hl Hn); lia|].
  rewrite Hs. cbn [head last app] in E. rewrite E. cbn [mbind option_bind].
  apply lseg_app in Hl as (m & Hl1 & Hl2).
  pose proof (lseg_start _ _ _ Hl2) as ->.
  pose proof Hn as HN. apply NoDup_app in Hn as (Hn1 & Hd & Hn2).
  destruct l1 as [|t l1 _] using rev_ind.
  - simpl. do 2 eexists. exists [], l2. split_and!; [done..| |apply frame_refl|done|done].
    simpl in *. split; simpl; [done|done| |done|done]. rewrite Ht. by destruct l2.
  - rewrite last_snoc.
    destruct (set_next_ok h t None) as (h' & E' & Ht' & Hf).
    { eapply lseg_alive; [exact Hl1|]. set_solver. }
    rewrite E'. cbn [mbind option_bind]. do 2 eexists. exists (l1 ++ [t]), l2.
    assert (Hstart : head ((l1 ++ [t]) ++ l2) = head (l1 ++ [t])) by (by destruct l1).
    split_and!; [done..| | | | |done].
    + rewrite <- Hstart. by eapply lseg_redirect.
    + split; simpl; [done| | |done|].
      * eapply lseg_frame; [exact Hf| |done]. intros y Hy. rewrite list_elem_of_singleton.
        intros ->. apply (Hd t); [set_solver|done].
      * destruct l2 as [|y l2]; [done|]. simpl. by rewrite Ht, last_app_cons.
      * rewrite length_app in Hb. lia.
    + eapply frame_weaken; [exact Hf|]. set_solver.
    + exact H1.
Qed.

(** *** push *)

Lemma insert_loop_ok fuel h e l1 y l2 p2 :
  lseg h (head (l1 ++ y :: l2)) (l1 ++ y :: l2) None ->
  (forall x, x ∈ l1 -> ekey h x <= e) -> e < ekey h y -> (length l1 <= fuel)%nat ->
  insert_loop fuel h e (head (l1 ++ y :: l2)) (Some p2) = Some (y, default p2 (last l1)).
Proof.
  revert fuel p2; induction l1 as [|x l1 IH]; intros fuel p2 Hl H1 Hy Hf.
  - simpl in *. destruct Hl as (_ & nd & Hnd & _).
    destruct fuel; simpl; rewrite ekey_alive by eauto; simpl;
      by rewrite (proj2 (Z.leb_gt _ _)) by lia.
  - destruct fuel as [|fuel]; [simpl in *; lia|]. cbn [insert_loop head app mbind option_bind].
    rewrite ekey_alive by (eapply lseg_alive; [exact Hl|]; set_solver). cbn [mbind option_bind].
    rewrite (proj2 (Z.leb_le _ _)) by (apply H1; set_solver).
    apply lseg_next in Hl as (n & -> & Hl). cbn [mbind option_bind].
    pose proof (lseg_start _ _ _ Hl) as ->.
    rewrite IH; [|done|intros; apply H1; set_solver|done|simpl in *; lia].
    destruct l1 as [|z l1 _] using rev_ind; [done|]. by rewrite app_comm_cons, !last_snoc.
Qed.

(** Linking a detached packet [x] between [l1] and [l2]. *)
Lemma link_middle h h1 h2 l1 p2 x l2 :
  lseg h (head ((l1 ++ [p2]) ++ l2)) ((l1 ++ [p2]) ++ l2) None ->
  NoDup (x :: (l1 ++ [p2]) ++ l2) ->
  get_next h1 x = Some (head l2) -> frame h h1 [x] ->
  get_next h2 p2 = Some (Some x) -> frame h1 h2 [p2] ->
  lseg h2 (head ((l1 ++ [p2]) ++ l2)) ((l1 ++ [p2]) ++ x :: l2) None.
Proof.
  intros Hl Hn Hx Hf1 Hp Hf2. apply NoDup_cons in Hn as [Hx' Hn].
  assert (Hl1 : lseg h1 (head ((l1 ++ [p2]) ++ l2)) ((l1 ++ [p2]) ++ l2) None).
  { eapply lseg_frame; [exact Hf1| |done]. intros y Hy. rewrite list_elem_of_singleton. by intros ->. }
  apply lseg_app in Hl1 as (m & Ha & Hb). apply NoDup_app in Hn as (Hn1 & Hd & Hn2).
  apply lseg_app. exists (Some x). split; [by eapply lseg_redirect|].
  simpl. split; [done|]. unfold get_next in Hx.
  destruct (h1 !! x) as [nd|] eqn:E; [|done]. simpl in Hx. injection Hx as Hx.
  assert (Hp2 : p2 ∉ x :: l2).
  { apply not_elem_of_cons. split; [intros ->; set_solver|]. apply Hd. set_solver. }
  exists nd. rewrite (frame_other _ _ _ Hf2), E by set_solver. split; [done|].
  rewrite Hx, <- (lseg_start _ _ _ Hb). eapply lseg_frame; [exact Hf2| |done].
  intros y Hy. rewrite list_elem_of_singleton. intros ->. set_solver.
Qed.

Lemma lseg_cons h x l :
  get_next h x = Some (head l) -> lseg h (head l) l None -> lseg h (Some x) (x :: l) None.
Proof.
  unfold get_next. intros Hx Hl. simpl. split; [done|].
  destruct (h !! x) as [nd|]; [|done]. exists nd. simpl in Hx. split; [done|].
  by injection Hx as ->.
Qed.

(** Where the packet goes, by the three tests of the code. *)
Lemma insert_by_back h x l t :
  sorted h (l ++ [t]) -> ekey h t <= ekey h x -> insert_by (ekey h) x (l ++ [t]) = (l ++ [t]) ++ [x].
Proof.
  intros Hs Ht. assert (Hall : forall y, y ∈ l ++ [t] -> ekey h y <= ekey h x).
  { apply sorted_app in Hs as (_ & _ & Hs). intros y [Hy|Hy]%elem_of_app.
    - specialize (Hs y t Hy ltac:(set_solver)). lia.
    - by apply list_elem_of_singleton in Hy as ->. }
  revert Hall. generalize (l ++ [t]). intros l'. induction l' as [|y l' IH]; intros Hall; [done|].
  simpl. rewrite (proj2 (Z.leb_le _ _)) by (apply Hall; set_solver).
  rewrite IH; [done|]. intros; apply Hall; set_solver.
Qed.

Lemma insert_by_front k x y l : k x < k y -> insert_by k x (y :: l) = x :: y :: l.
Proof. intros H. simpl. by rewrite (proj2 (Z.leb_gt _ _)). Qed.

Lemma insert_by_middle k x y l t :
  k y <= k x -> k x < k t -> t ∈ y :: l ->
  exists l1 p2 z l2, y :: l = (l1 ++ [p2]) ++ z :: l2 /\
    insert_by k x (y :: l) = (l1 ++ [p2]) ++ x :: z :: l2 /\
    (forall w, w ∈ l1 ++ [p2] -> k w <= k x) /\ k x < k z.
Proof.
  intros Hy Ht Hin. destruct (insert_by_split k x (y :: l)) as (l1 & l2 & Hl & Hi & Hle & Hgt).
  destruct l2 as [|z l2].
  { rewrite app_nil_r in Hl. subst l1. specialize (Hle t Hin). lia. }
  assert (Hne : l1 <> []).
  { intros ->. simpl in Hl. simplify_eq. specialize (Hgt _ eq_refl). lia. }
  destruct (exists_last Hne) as (l1' & p2 & ->). exists l1', p2, z, l2.
  split_and!; [done..|]. by apply Hgt.
Qed.

Lemma ordered_push_ok h q l x :
  qrep h q l -> sorted h l -> x ∉ l -> is_Some (h !! x) -> Z.of_nat (S (length l)) < 2 ^ 63 ->
  exists h' q', ordered_push h q x = Some (h', q') /\
    qrep h' q' (insert_by (ekey h) x l) /\ frame h h' (x :: l).
Proof.
  intros [Hn Hl Ht Hs Hb] Hsort Hx Ha Hb'. unfold ordered_push.
  destruct (set_next_ok h x None Ha) as (h1 & -> & Hx1 & Hf1). cbn [mbind option_bind].
  assert (Hl1 : lseg h1 (_head q) l None).
  { eapply lseg_frame; [exact Hf1| |done]. intros y Hy. rewrite list_elem_of_singleton. by intros ->. }
  assert (HN : NoDup (x :: l)) by (by constructor).
  pose proof (insert_by_Permutation (ekey h) x l) as HP.
  assert (Hmk : forall h' p t, lseg h' p (insert_by (ekey h) x l) None ->
            t = last (insert_by (ekey h) x l) -> frame h1 h' (x :: l) ->
            qrep h' (mkQueue p t (u64 (_size q + 1))) (insert_by (ekey h) x l) /\ frame h h' (x :: l)).
  { intros h' p t Hseg -> Hf. split.
    - split; simpl; [by rewrite HP|done..| |rewrite HP; simpl length; lia].
      rewrite Hs, u64_succ by done. by rewrite HP.
    - eapply frame_trans; [|exact Hf]. eapply frame_weaken; [exact Hf1|]. set_solver. }
  clear HP. pose proof (lseg_start _ _ _ Hl1) as Hh. rewrite Hh in Hl1 |- *.
  assert (Hk : forall y, ekey h1 y = ekey h y) by (intros; eapply ekey_frame; eauto).
  assert (Halive : forall y, y ∈ x :: l -> is_Some (h1 !! y)).
  { intros y [->|Hy]%elem_of_cons; [by eapply frame_is_Some|by eapply lseg_alive]. }
  assert (He : forall y, y ∈ x :: l -> expireTime h1 y = Some (ekey h y)).
  { intros y Hy. by rewrite ekey_alive, Hk by auto. }
  destruct l as [|y0 l0].
  { do 2 eexists. split; [done|]. apply Hmk; [by apply (lseg_cons h1 x [])|done|apply frame_refl]. }
  destruct (exists_last (l := y0 :: l0) ltac:(done)) as (l' & t & Hl'). rewrite Ht, Hl', last_snoc.
  assert (Htin : t ∈ y0 :: l0) by (rewrite Hl'; set_solver). rewrite <- Hl'. cbn [head].
  rewrite (He x) by set_solver. cbn [mbind option_bind]. rewrite (He t) by set_solver.
  cbn [mbind option_bind]. case_bool.
  - destruct (set_next_ok h1 t (Some x)) as (h2 & -> & Ht2 & Hf2); [apply Halive; set_solver|].
    cbn [mbind option_bind]. do 2 eexists. split; [done|].
    rewrite Hl' in Hsort, Hl1, Hmk, HN |- *. rewrite (insert_by_back h x l' t) in Hmk |- * by done.
    apply Hmk; [|by rewrite last_snoc|eapply frame_weaken; [exact Hf2|]; set_solver].
    replace (Some y0) with (head (l' ++ [t])) by (by rewrite <- Hl').
    eapply (link_after h1); [done|by apply (lseg_cons h1 x [])| |exact Ht2|done].
    by rewrite Permutation_app_comm.
  - rewrite (He y0) by set_solver. cbn [mbind option_bind]. case_bool.
    + destruct (set_next_ok h1 x (Some y0)) as (h2 & -> & Hx2 & Hf2); [apply Halive; set_solver|].
      cbn [mbind option_bind]. do 2 eexists. split; [done|].
      rewrite insert_by_front in Hmk |- * by done. apply Hmk.
      * apply lseg_cons; [done|]. eapply lseg_frame; [exact Hf2| |exact Hl1].
        intros y Hy. rewrite list_elem_of_singleton. by intros ->.
      * by rewrite last_cons_ne, Hl', last_snoc.
      * eapply frame_weaken; [exact Hf2|]. set_solver.
    + destruct (insert_by_middle (ekey h) x y0 l0 t) as (l1 & p2 & z & l2 & E & Hi & Hle & Hgt); [done..|].
      pose proof (lseg_length _ _ _ _ Hl1 Hn) as Hlen.
      assert (Hy0 : Some y0 = head ((l1 ++ [p2]) ++ z :: l2)) by (by rewrite <- E).
      assert (Hloop : insert_loop (S (size h1)) h1 (ekey h x) (Some y0) (Some y0) = Some (z, p2)).
      { cbn [head] in Hl1. rewrite Hy0 at 1. rewrite E, Hy0 in Hl1.
        rewrite insert_loop_ok; [by rewrite last_snoc|done|intros w Hw; rewrite Hk; by apply Hle|
          by rewrite Hk|rewrite E, length_app in Hlen; lia]. }
      rewrite Hloop. cbn [mbind option_bind].
      destruct (set_next_ok h1 x (Some z)) as (h2 & -> & Hx2 & Hf2); [apply Halive; set_solver|].
      cbn [mbind option_bind].
      destruct (set_next_ok h2 p2 (Some x)) as (h3 & -> & Hp3 & Hf3).
      { eapply frame_is_Some; [exact Hf2|]. apply Halive. rewrite E. set_solver. }
      cbn [mbind option_bind]. do 2 eexists. split; [done|]. apply Hmk; rewrite ?Hi.
      * cbn [head] in Hl1. rewrite Hy0. rewrite E, Hy0 in Hl1. rewrite E in HN.
        by eapply (link_middle h1 h2 h3).
      * rewrite last_app_cons, last_cons_ne by done.
        by rewrite <- (last_app_cons (l1 ++ [p2])), <- E, Hl', last_snoc.
      * rewrite E. eapply frame_trans; (eapply frame_weaken; [eassumption|]); set_solver.
Qed.

(** *** moveBack *)

(** The last assignment: the rest [M] of one list goes behind [c]. *)
Lemma attach_rest h c M :
  lseg h (head M) M None -> NoDup (c :: M) -> is_Some (h !! c) ->
  exists h2, set_next h c (head M) = Some h2 /\ lseg h2 (Some c) (c :: M) None /\ frame h h2 (c :: M).
Proof.
  intros HM Hn Hc. destruct (set_next_ok h c (head M) Hc) as (h2 & E & Hg & Hf).
  exists h2. split_and!; [done| |eapply frame_weaken; [exact Hf|]; set_solver].
  apply lseg_cons; [done|]. apply NoDup_cons in Hn as [Hn _].
  eapply lseg_frame; [exact Hf| |done]. intros y Hy. rewrite list_elem_of_singleton. by intros ->.
Qed.

(** One round of the merge: [z] is linked behind [c], and [h3] is the heap
    after the remaining rounds, which do not touch [c]. *)
Lemma merge_round h h1 h3 c z M rest :
  get_next h1 c = Some (Some z) -> frame h h1 [c] -> frame h1 h3 (z :: rest) ->
  c ∉ z :: rest -> lseg h3 (Some z) (z :: M) None ->
  lseg h3 (Some c) (c :: z :: M) None /\ frame h h3 (c :: z :: rest).
Proof.
  intros Hg Hf1 Hf3 Hc Hl. split.
  - change (Some z) with (head (z :: M)) in Hl. apply lseg_cons; [|done].
    unfold get_next. by rewrite (frame_other _ _ _ Hf3).
  - eapply frame_trans; (eapply frame_weaken; [eassumption|]); set_solver.
Qed.

Lemma merge_back_ne k l r : l ++ r <> [] -> merge_back k l r <> [].
Proof.
  intros Hne Hm. apply Hne. apply Permutation_nil_r.
  by rewrite <- (merge_back_Permutation k l r), Hm.
Qed.

Lemma merge_loop_ok k fuel h L R c :
  (forall x, ekey h x = k x) ->
  lseg h (head L) L None -> lseg h (head R) R None -> NoDup (c :: L ++ R) -> is_Some (h !! c) ->
  L ++ R <> [] -> (length L + length R <= fuel)%nat ->
  exists h1 lI rI c1 h2,
    merge_loop fuel h (head L) (head R) c = Some (h1, lI, rI, c1) /\
    set_next h1 c1 (match lI with Some _ => lI | None => rI end) = Some h2 /\
    lseg h2 (Some c) (c :: merge_back k L R) None /\ frame h h2 (c :: L ++ R) /\
    match lI with
    | Some _ => L <> [] /\ last (merge_back k L R) = last L
    | None => R <> [] /\ last (merge_back k L R) = last R
    end.
Proof.
  revert h L R c; induction fuel as [|fuel IH]; intros h L R c Hk HL HR Hn Hc Hne Hf;
    (destruct L as [|x l];
     [destruct (attach_rest h c R HR Hn Hc) as (h2 & ? & ? & ?);
      exists h, None, (head R), c, h2; split_and!; [by destruct (head R)|done..]|]).
  { simpl in Hf. lia. }
  destruct R as [|y r].
  { rewrite app_nil_r in *. destruct (attach_rest h c (x :: l) HL Hn Hc) as (h2 & ? & ? & ?).
    exists h, (Some x), None, c, h2. split_and!; done. }
  cbn [merge_loop head].
  rewrite (ekey_alive h x) by (eapply lseg_alive; [exact HL|set_solver]). cbn [mbind option_bind].
  rewrite (ekey_alive h y) by (eapply lseg_alive; [exact HR|set_solver]).
  cbn [mbind option_bind]. rewrite merge_back_cons, !Hk. cbn [length] in Hf.
  pose proof (lseg_next _ _ _ _ _ HL) as (xn & Hxn & Hl).
  pose proof (lseg_next _ _ _ _ _ HR) as (yn & Hyn & Hr).
  pose proof (lseg_start _ _ _ Hl) as ->. pose proof (lseg_start _ _ _ Hr) as ->.
  apply NoDup_cons in Hn as [Hcn Hn].
  assert (Hside : forall h1 z, frame h h1 [c] -> z ∈ (x :: l) ++ y :: r ->
            is_Some (h1 !! z) /\ get_next h1 z = get_next h z).
  { intros h1 z Hf1 Hz. split.
    - eapply frame_is_Some; [exact Hf1|]. 
      apply elem_of_app in Hz as [Hz|Hz]; [exact (lseg_alive _ _ _ _ _ HL Hz)|exact (lseg_alive _ _ _ _ _ HR Hz)].
    - unfold get_next. rewrite (frame_other _ _ _ Hf1); [done|]. set_solver. }
  assert (Hlseg : forall h1 M, frame h h1 [c] -> (forall z, z ∈ M -> z ∈ (x :: l) ++ y :: r) ->
            lseg h (head M) M None -> lseg h1 (head M) M None).
  { intros h1 M Hf1 Hin. apply lseg_frame with [c]; [done|]. intros z Hz. apply Hin in Hz. set_solver. }
  case_bool.
  - destruct (set_next_ok h c (Some x) Hc) as (h1 & -> & Hg & Hf1). cbn [mbind option_bind].
    destruct (Hside h1 x Hf1 ltac:(set_solver)) as [Hax ->]. rewrite Hxn. cbn [mbind option_bind].
    destruct (IH h1 l (y :: r) x) as (h2 & lI & rI & c1 & h3 & E & E2 & Hseg & Hfr & Hlast);
      [intros; rewrite (ekey_frame _ _ _ _ Hf1); apply Hk|apply Hlseg; [done|set_solver|done]..|done|done|by destruct l|simpl in *; lia|].
    destruct (merge_round h h1 h3 c x _ _ Hg Hf1 Hfr Hcn Hseg) as [Hs3 Hf3].
    exists h2, lI, rI, c1, h3. split; [exact E|]. split; [exact E2|]. split; [exact Hs3|].
    split; [exact Hf3|].
    rewrite last_cons_ne by (apply merge_back_ne; by destruct l).
    destruct lI; destruct Hlast as [? ->]; split; try done. by rewrite last_cons_ne.
  - destruct (set_next_ok h c (Some y) Hc) as (h1 & -> & Hg & Hf1). cbn [mbind option_bind].
    destruct (Hside h1 y Hf1 ltac:(set_solver)) as [Hay ->]. rewrite Hyn. cbn [mbind option_bind].
    assert (HP : y :: (x :: l) ++ r ≡ₚ (x :: l) ++ y :: r) by apply Permutation_middle.
    destruct (IH h1 (x :: l) r y) as (h2 & lI & rI & c1 & h3 & E & E2 & Hseg & Hfr & Hlast);
      [intros; rewrite (ekey_frame _ _ _ _ Hf1); apply Hk|apply Hlseg; [done|set_solver|done]..|by rewrite HP|done|done|simpl in *; lia|].
    destruct (merge_round h h1 h3 c y _ _ Hg Hf1 Hfr ltac:(set_solver) Hseg) as [Hs3 Hfc].
    exists h2, lI, rI, c1, h3. split; [exact E|]. split; [exact E2|]. split; [exact Hs3|]. split.
    + eapply frame_weaken; [exact Hfc|]. set_solver.
    + rewrite last_cons_ne by (apply merge_back_ne; done).
      destruct lI; destruct Hlast as [? ->]; split; try done. by rewrite last_cons_ne.
Qed.

(** The queue once the merged list is linked. *)
Lemma qrep_merged h h' q src l r p t :
  qrep h q l -> qrep h src r -> NoDup (l ++ r) -> Z.of_nat (length (l ++ r)) < 2 ^ 63 ->
  lseg h' p (merge_back (ekey h) l r) None -> t = last (merge_back (ekey h) l r) ->
  qrep h' (mkQueue p t (u64 (_size q + _size src))) (merge_back (ekey h) l r).
Proof.
  intros [_ _ _ Hs _] [_ _ _ Hs2 _] HN HB Hseg ->.
  pose proof (merge_back_Permutation (ekey h) l r) as HP.
  split; simpl; [by rewrite HP|done|done| |by rewrite HP].
  rewrite Hs, Hs2, HP, length_app, wrapu_small by (rewrite length_app in HB; lia). lia.
Qed.

Lemma lseg_alive2 h l r z :
  lseg h (head l) l None -> lseg h (head r) r None -> z ∈ l ++ r -> is_Some (h !! z).
Proof.
  intros H1 H2 [Hz|Hz]%elem_of_app; [exact (lseg_alive _ _ _ _ _ H1 Hz)|exact (lseg_alive _ _ _ _ _ H2 Hz)].
Qed.

Lemma lseg_length2 h l r :
  lseg h (head l) l None -> lseg h (head r) r None -> NoDup (l ++ r) ->
  (length l + length r <= size h)%nat.
Proof.
  intros H1 H2 Hn. rewrite <- length_app, <- (size_list_to_set (C := gset ptr) (l ++ r)) by done.
  rewrite <- size_dom. apply subseteq_size. intros x. rewrite elem_of_list_to_set, elem_of_dom.
  by apply lseg_alive2.
Qed.

(** Everything given back expires before the queue: the lists are joined. *)
Lemma join_front h h2 x l y r r' t :
  lseg h (head (x :: l)) (x :: l) None -> lseg h (head (y :: r)) (y :: r) None ->
  sorted h (x :: l) -> sorted h (y :: r) -> NoDup ((x :: l) ++ y :: r) -> y :: r = r' ++ [t] ->
  ekey h t <= ekey h x -> get_next h2 t = Some (Some x) -> frame h h2 [t] ->
  lseg h2 (Some y) (merge_back (ekey h) (x :: l) (y :: r)) None /\
  last (merge_back (ekey h) (x :: l) (y :: r)) = last (x :: l).
Proof.
  intros Hl Hr Sl Sr HN Er Ht Hg Hf. rewrite merge_back_before.
  - rewrite Er in Hr, HN |- *. replace (Some y) with (head (r' ++ [t])) by (by rewrite <- Er).
    split; [|by rewrite last_app_cons].
    eapply link_after; [exact Hr|exact Hl|by rewrite Permutation_app_comm|done|done].
  - intros a b Ha Hb. rewrite Er in Sr, Hb. apply sorted_app in Sr as (_ & _ & Sr).
    assert (ekey h b <= ekey h t).
    { apply elem_of_app in Hb as [Hb| ->%list_elem_of_singleton]; [|lia]. apply Sr; set_solver. }
    apply elem_of_cons in Ha as [->|Ha]; [lia|]. pose proof (sorted_head _ _ _ _ Sl Ha). lia.
Qed.

(** The merge once its first packet [c] is chosen. *)
Lemma merge_from h c L R lt rt sz :
  lseg h (head L) L None -> lseg h (head R) R None -> NoDup (c :: L ++ R) -> is_Some (h !! c) ->
  L ++ R <> [] -> (length L + length R <= size h)%nat ->
  (L <> [] -> lt = last L) -> (R <> [] -> rt = last R) ->
  exists h2,
    ('(h, lIter, rIter, currIter) ← merge_loop (S (size h)) h (head L) (head R) c;
     '(h, tail) ← match lIter with
                  | Some _ => h ← set_next h currIter lIter; Some (h, lt)
                  | None => h ← set_next h currIter rIter; Some (h, rt)
                  end;
     Some (h, mkQueue (Some c) tail sz, mkQueue None None 0)) =
    Some (h2, mkQueue (Some c) (last (c :: merge_back (ekey h) L R)) sz, mkQueue None None 0) /\
    lseg h2 (Some c) (c :: merge_back (ekey h) L R) None /\ frame h h2 (c :: L ++ R).
Proof.
  intros HL HR Hn Hc Hne Hf Hlt Hrt.
  destruct (merge_loop_ok (ekey h) (S (size h)) h L R c) as (h1 & lI & rI & c1 & h2 & E & E2 & Hs & Hfr & Hlast);
    [done..|lia|].
  exists h2. rewrite E, last_cons_ne by (by apply merge_back_ne). cbn [mbind option_bind].
  destruct lI; rewrite E2; destruct Hlast as [? ->]; cbn [mbind option_bind];
    (split; [first [by rewrite Hlt by done|by rewrite Hrt by done]|done]).
Qed.

Lemma ordered_moveBack_ok h q src l r :
  qrep h q l -> qrep h src r -> sorted h l -> sorted h r -> NoDup (l ++ r) ->
  Z.of_nat (length (l ++ r)) < 2 ^ 63 ->
  exists h' q' src', ordered_moveBack h q src = Some (h', q', src') /\
    qrep h' q' (merge_back (ekey h) l r) /\ qrep h' src' [] /\ frame h h' (l ++ r).
Proof.
  intros Hq Hr Sl Sr HN HB. pose proof (qrep_merged h) as Hmk.
  pose proof (qrep_list _ _ _ Hq) as Hl. pose proof (qrep_list _ _ _ Hr) as Hl2.
  pose proof (qrep_tail _ _ _ Hq) as Ht. pose proof (qrep_tail _ _ _ Hr) as Ht2. unfold ordered_moveBack.
  pose proof (lseg_start _ _ _ Hl2) as E2; rewrite E2 in Hl2 |- *.
  pose proof (lseg_start _ _ _ Hl) as E1; rewrite E1 in Hl |- *.
  destruct r as [|y r]; cbn [head].
  { do 3 eexists; split_and!; [done| |done|apply frame_refl]. by rewrite merge_back_nil_r. }
  destruct l as [|x l]; cbn [head].
  { do 3 eexists; split_and!; [done|by eapply Hmk|by apply qrep_none|apply frame_refl]. }
  pose proof (fun z => lseg_alive2 h _ _ z Hl Hl2) as Ha.
  destruct (exists_last (l := y :: r) ltac:(done)) as (r' & t & Er).
  rewrite Ht2, Er, last_snoc. cbn [mbind option_bind].
  rewrite (ekey_alive h t) by (apply Ha; rewrite Er; set_solver). cbn [mbind option_bind].
  rewrite (ekey_alive h x) by (apply Ha; set_solver). cbn [mbind option_bind]. rewrite <- Er. case_bool.
  - destruct (set_next_ok h t (Some x)) as (h2 & -> & Hg & Hf); [apply Ha; rewrite Er; set_solver|].
    destruct (join_front h h2 x l y r r' t) as [Hj Hj']; [done..|].
    cbn [mbind option_bind]. do 3 eexists; split_and!; [done|eapply Hmk; try done; by rewrite Hj'|
      by apply qrep_none|eapply frame_weaken; [exact Hf|]; rewrite Er; set_solver].
  - rewrite (ekey_alive h y) by (apply Ha; set_solver). cbn [mbind option_bind].
    pose proof (lseg_length2 _ _ _ Hl Hl2 HN) as Hlen. cbn [length] in Hlen. case_bool.
    + apply lseg_next in Hl as (n & -> & Hl'). pose proof (lseg_start _ _ _ Hl') as ->. cbn [mbind option_bind].
      destruct (merge_from h x l (y :: r) (_tail q) (Some t) (u64 (_size q + _size src)))
        as (h2 & E & Hseg & Hf); [done..|apply Ha; set_solver|by destruct l|cbn [length]; lia|
         intros; by rewrite Ht, last_cons_ne|intros; by rewrite Er, last_snoc|].
      cbn [head] in E. rewrite E. do 3 eexists; split_and!; [done| |by apply qrep_none|done].
      eapply Hmk; [done..| |]; rewrite merge_back_cons, (proj2 (Z.ltb_lt _ _)); done.
    + apply lseg_next in Hl2 as (n & -> & Hl'). pose proof (lseg_start _ _ _ Hl') as ->. cbn [mbind option_bind].
      assert (HP : y :: (x :: l) ++ r ≡ₚ (x :: l) ++ y :: r) by apply Permutation_middle.
      destruct (merge_from h y (x :: l) r (_tail q) (Some t) (u64 (_size q + _size src)))
        as (h2 & E & Hseg & Hf); [done..|by rewrite HP|apply Ha; set_solver|done|cbn [length]; lia|
         intros; by rewrite Ht|intros; by rewrite <- (last_cons_ne y r), Er, last_snoc|].
      cbn [head] in E. rewrite E. do 3 eexists; split_and!; [done| |by apply qrep_none|].
      * eapply Hmk; [done..| |]; rewrite merge_back_cons, (proj2 (Z.ltb_ge _ _)); done.
      * eapply frame_weaken; [exact Hf|]. set_solver.
Qed.

End Ordered.

(** ** Properties *)

(** A schedule of a send queue: packets posted, and packets taken by the
    writer. *)
Inductive queue_op := QPush (x : ptr) | QPop.

Definition queue_step (op : queue_op) (h : heap) (q : PacketQueue)
  : option (heap * PacketQueue * list ptr) :=
  match op with
  | QPush x => '(h, q) ← push h q x; Some (h, q, [])
  | QPop => '(r, q) ← pop h q; Some (h, q, option_list r)
  end.

Fixpoint queue_ops (ops : list queue_op) (h : heap) (q : PacketQueue)
  : option (heap * PacketQueue * list ptr) :=
  match ops with
  | [] => Some (h, q, [])
  | op :: ops =>
      '(h, q, o) ← queue_step op h q;
      '(h, q, os) ← queue_ops ops h q;
      Some (h, q, o ++ os)
  end.

(** The packets a schedule posts. *)
Definition posted (ops : list queue_op) : list ptr :=
  ops ≫= fun op => match op with QPush x => [x] | QPop => [] end.

(** The base queue is first in, first out.  For every schedule of posts
    and takes, over packets that are alive, distinct and not already queued,
    the queue never follows a dangling link; the packets taken out, followed
    by the packets still queued, are exactly the packets that were queued
    before followed by the posted ones, in order, and no other packet
    changes. *)
Theorem packetqueue_fifo ops h q l :
  qrep h q l -> NoDup (l ++ posted ops) -> (forall x, x ∈ posted ops -> is_Some (h !! x)) ->
  Z.of_nat (length (l ++ posted ops)) < 2 ^ 63 ->
  exists h' q' out l', queue_ops ops h q = Some (h', q', out) /\ qrep h' q' l' /\
    out ++ l' = l ++ posted ops /\ frame h h' (l ++ posted ops).
Proof.
  revert h q l; induction ops as [|op ops IH]; intros h q l Hq HN Ha HB.
  { exists h, q, [], l. split_and!; [done|done|by rewrite app_nil_r|apply frame_refl]. }
  destruct op as [x|]; cbn [queue_ops queue_step].
  - change (posted (QPush x :: ops)) with ([x] ++ posted ops) in *. rewrite app_assoc in *.
    destruct (push_ok h q l x) as (h1 & q1 & -> & Hq1 & Hf1); [done| |apply Ha; set_solver|
      rewrite !length_app in HB; simpl in HB; lia|].
    { apply NoDup_app in HN as (HN & _). apply NoDup_app in HN as (_ & HN & _). set_solver. }
    cbn [mbind option_bind].
    destruct (IH h1 q1 (l ++ [x])) as (h2 & q2 & out & l' & -> & Hq2 & Ho & Hf2); [done|done| |done|].
    { intros y Hy. eapply frame_is_Some; [exact Hf1|]. apply Ha. set_solver. }
    exists h2, q2, out, l'. split_and!; [done..|]. eapply frame_trans; [|exact Hf2].
    eapply frame_weaken; [exact Hf1|]. set_solver.
  - change (posted (QPop :: ops)) with (posted ops) in *.
    destruct l as [|x l].
    + rewrite (pop_empty h q Hq). cbn [mbind option_bind option_list].
      destruct (IH h q []) as (h2 & q2 & out & l' & -> & H); [done..|]. exists h2, q2, out, l'. done.
    + destruct (pop_ok h q x l Hq) as (q1 & -> & Hq1). cbn [mbind option_bind option_list].
      apply NoDup_cons in HN as [Hx HN].
      destruct (IH h q1 l) as (h2 & q2 & out & l' & -> & Hq2 & Ho & Hf2);
        [done..|rewrite length_app in *; simpl in *; lia|].
      exists h2, q2, (x :: out), l'. split_and!; [done|done|simpl; by rewrite Ho|].
      eapply frame_weaken; [exact Hf2|]. set_solver.
Qed.

(** Three detached packets. *)
Definition heap3 : heap := {[ 1%positive := mkNode 10 None; 2%positive := mkNode 20 None;
                              3%positive := mkNode 15 None ]}.

Lemma packetqueue_fifo_witness :
  exists h' q' out l',
    queue_ops [QPush 2; QPop; QPop; QPush 1; QPush 3; QPop] heap3 PacketQueue_new = Some (h', q', out) /\
    qrep h' q' l' /\ out ++ l' = [2; 1; 3]%positive /\ frame heap3 h' [2; 1; 3]%positive.
Proof.
  apply (packetqueue_fifo [QPush 2; QPop; QPop; QPush 1; QPush 3; QPop] heap3 PacketQueue_new []).
  - apply qrep_new.
  - apply (bool_decide_unpack _). vm_compute. exact I.
  - intros x Hx. cbn in Hx. repeat (apply elem_of_cons in Hx as [->|Hx]; [by eexists|]). by apply elem_of_nil in Hx.
  - vm_compute. reflexivity.
Defined.

(** The ordered queue keeps its packets sorted by expiration time.
    Posting a live packet that is not queued succeeds, puts it behind every
    packet that expires no later and in front of every packet that expires
    later (so packets with equal times stay in posting order), keeps the
    queue sorted and touches no other packet. *)
Theorem ordered_push_sorted h q l x :
  qrep h q l -> sorted h l -> x ∉ l -> is_Some (h !! x) -> Z.of_nat (S (length l)) < 2 ^ 63 ->
  exists h' q' l1 l2, ordered_push h q x = Some (h', q') /\ l = l1 ++ l2 /\
    qrep h' q' (l1 ++ x :: l2) /\ sorted h' (l1 ++ x :: l2) /\
    (forall y, y ∈ l1 -> ekey h y <= ekey h x) /\ (forall y, y ∈ l2 -> ekey h x < ekey h y) /\
    frame h h' (x :: l).
Proof.
  intros Hq Hs Hx Ha Hb. destruct (ordered_push_ok h q l x Hq Hs Hx Ha Hb) as (h' & q' & E & Hq' & Hf).
  pose proof (insert_by_sorted h x l Hs) as Hs'.
  destruct (insert_by_split (ekey h) x l) as (l1 & l2 & El & Ei & H1 & H2).
  exists h', q', l1, l2. rewrite <- Ei. split_and!; [done..| |done| |done]; [by eapply sorted_frame|].
  intros y Hy. subst l. apply sorted_app in Hs as (_ & Hs & _).
  destruct l2 as [|z l2]; [set_solver|]. specialize (H2 z eq_refl).
  apply elem_of_cons in Hy as [->|Hy]; [done|]. pose proof (sorted_head _ _ _ _ Hs Hy). lia.
Qed.

Definition heap_q12 : heap := {[ 1%positive := mkNode 10 (Some 2%positive);
                                 2%positive := mkNode 20 None; 3%positive := mkNode 15 None ]}.
Definition queue_q12 : PacketQueue := mkQueue (Some 1%positive) (Some 2%positive) 2.

Lemma qrep_q12 : qrep heap_q12 queue_q12 [1; 2]%positive.
Proof.
  split; try reflexivity.
  - apply (bool_decide_unpack _). vm_compute. exact I.
  - split; [done|]. eexists; split; [reflexivity|]. split; [done|]. eexists; split; reflexivity.
Qed.

Lemma sorted_q12 : sorted heap_q12 [1; 2]%positive.
Proof. repeat constructor. vm_compute. congruence. Qed.

Lemma ordered_push_sorted_witness :
  exists h' q' l1 l2, ordered_push heap_q12 queue_q12 3 = Some (h', q') /\ [1; 2]%positive = l1 ++ l2 /\
    qrep h' q' (l1 ++ 3%positive :: l2) /\ sorted h' (l1 ++ 3%positive :: l2) /\
    (forall y, y ∈ l1 -> ekey heap_q12 y <= ekey heap_q12 3) /\
    (forall y, y ∈ l2 -> ekey heap_q12 3 < ekey heap_q12 y) /\ frame heap_q12 h' [3; 1; 2]%positive.
Proof.
  apply (ordered_push_sorted heap_q12 queue_q12 [1; 2]%positive 3%positive);
    [apply qrep_q12|apply sorted_q12|apply (bool_decide_unpack _); vm_compute; exact I|
     by eexists|vm_compute; reflexivity].
Defined.

(** Giving a queue back.  [moveBack] of two sorted queues terminates with
    one sorted queue holding the packets of both, each queue's packets in
    their old relative order, and the source queue empty; no other packet is
    touched. *)
Theorem ordered_moveBack_merges h q src l r :
  qrep h q l -> qrep h src r -> sorted h l -> sorted h r -> NoDup (l ++ r) ->
  Z.of_nat (length (l ++ r)) < 2 ^ 63 ->
  exists h' q' src' m, ordered_moveBack h q src = Some (h', q', src') /\
    qrep h' q' m /\ qrep h' src' [] /\ sorted h' m /\ m ≡ₚ l ++ r /\
    l `sublist_of` m /\ r `sublist_of` m /\ frame h h' (l ++ r).
Proof.
  intros Hq Hr Sl Sr HN HB.
  destruct (ordered_moveBack_ok h q src l r Hq Hr Sl Sr HN HB) as (h' & q' & src' & E & Hq' & Hs' & Hf).
  exists h', q', src', (merge_back (ekey h) l r).
  destruct (merge_back_sublist (ekey h) l r) as [? ?].
  split_and!; [done..| |apply merge_back_Permutation|done|done|done].
  eapply sorted_frame; [exact Hf|]. by apply merge_back_sorted.
Qed.

Definition queue_q3 : PacketQueue := mkQueue (Some 3%positive) (Some 3%positive) 1.

Lemma qrep_q3 : qrep heap_q12 queue_q3 [3]%positive.
Proof.
  split; try reflexivity; [apply NoDup_singleton|].
  split; [done|]. eexists; split; reflexivity.
Qed.

Lemma ordered_moveBack_merges_witness :
  exists h' q' src' m, ordered_moveBack heap_q12 queue_q12 queue_q3 = Some (h', q', src') /\
    qrep h' q' m /\ qrep h' src' [] /\ sorted h' m /\ m ≡ₚ [1; 2; 3]%positive /\
    [1; 2]%positive `sublist_of` m /\ [3]%positive `sublist_of` m /\
    frame heap_q12 h' [1; 2; 3]%positive.
Proof.
  apply (ordered_moveBack_merges heap_q12 queue_q12 queue_q3 [1; 2]%positive [3]%positive);
    [apply qrep_q12|apply qrep_q3|apply sorted_q12|repeat constructor|
     apply (bool_decide_unpack _); vm_compute; exact I|vm_compute; reflexivity].
Defined.

(** Time-out collection is exact on a sorted queue.  [getTimeoutList now]
    hands out a terminated list of exactly the packets whose time is before
    [now], in order, and the queue keeps exactly the others, in order. *)
Theorem timeout_list_exact h q l now :
  qrep h q l -> sorted h l ->
  exists h' q', let expired x := bool_decide (ekey h x < now) in
    getTimeoutList h q now = Some (h', q', head (List.filter expired l)) /\
    lseg h' (head (List.filter expired l)) (List.filter expired l) None /\
    qrep h' q' (List.filter (fun x => negb (expired x)) l) /\ frame h h' l.
Proof.
  intros Hq Hs. destruct (getTimeoutList_ok h q l now Hq) as (h' & q' & l1 & l2 & -> & E & H1 & H2 & Hf & Hlt & Hge).
  exists h', q'. cbn zeta.
  assert (Hge' : forall y, y ∈ l2 -> now <= ekey h y).
  { intros y Hy. apply sorted_app in Hs as (_ & Hs & _). destruct l2 as [|z l2]; [set_solver|].
    specialize (Hge z eq_refl). apply elem_of_cons in Hy as [->|Hy]; [done|].
    pose proof (sorted_head _ _ _ _ Hs Hy). lia. }
  destruct (filter_split (fun x => bool_decide (ekey h x < now)) l1 l2) as [-> ->]; [| |done].
  - intros x Hx. apply bool_decide_eq_true. auto.
  - intros x Hx. apply bool_decide_eq_false. specialize (Hge' x Hx). lia.
Qed.

Lemma timeout_list_exact_witness :
  exists h' q', getTimeoutList heap_q12 queue_q12 15 = Some (h', q', Some 1%positive) /\
    lseg h' (Some 1%positive) [1]%positive None /\ qrep h' q' [2]%positive /\
    frame heap_q12 h' [1; 2]%positive.
Proof. apply (timeout_list_exact heap_q12 queue_q12 [1; 2]%positive 15); [apply qrep_q12|apply sorted_q12]. Defined.
