(* ===== verification/Crc.v ===== *)
(** * CRC32C

    Source: src/agent_engine/network/anet/crc.cpp and crc.h.

    The checksum of an advance packet.  The source has three implementations
    and picks one by the processor: a 256-entry table, the SSE4.2 [crc32]
    instruction on eight bytes at a time, and the AArch64 [crc32c]
    instructions.  The reference is the bit-serial division by the reflected
    Castagnoli polynomial; the instructions are that division on the bits of
    their operand. *)

From S2P Require Import Prelude.

#[local] Ltac Zify.zify_post_hook ::= Z.div_mod_to_equations.

(** ** Reference: bit-serial division *)

Definition CRC32C_POLY : Z := 0x82f63b78.

Definition crc_bit (c : Z) : Z :=
  if Z.testbit c 0 then Z.lxor (Z.shiftr c 1) CRC32C_POLY else Z.shiftr c 1.

Definition crc_bits (n : nat) (c : Z) : Z := Nat.iter n crc_bit c.

Definition crc_byte (crc b : Z) : Z := crc_bits 8 (Z.lxor crc b).

Definition crc_ref (crc : Z) (data : list Z) : Z := foldl crc_byte crc data.

(** ** The implementations *)

Definition Crc32cTable : list Z :=
  [0x00000000; 0xf26b8303; 0xe13b70f7; 0x1350f3f4; 0xc79a971f; 0x35f1141c; 0x26a1e7e8; 0xd4ca64eb;
   0x8ad958cf; 0x78b2dbcc; 0x6be22838; 0x9989ab3b; 0x4d43cfd0; 0xbf284cd3; 0xac78bf27; 0x5e133c24;
   0x105ec76f; 0xe235446c; 0xf165b798; 0x030e349b; 0xd7c45070; 0x25afd373; 0x36ff2087; 0xc494a384;
   0x9a879fa0; 0x68ec1ca3; 0x7bbcef57; 0x89d76c54; 0x5d1d08bf; 0xaf768bbc; 0xbc267848; 0x4e4dfb4b;
   0x20bd8ede; 0xd2d60ddd; 0xc186fe29; 0x33ed7d2a; 0xe72719c1; 0x154c9ac2; 0x061c6936; 0xf477ea35;
   0xaa64d611; 0x580f5512; 0x4b5fa6e6; 0xb93425e5; 0x6dfe410e; 0x9f95c20d; 0x8cc531f9; 0x7eaeb2fa;
   0x30e349b1; 0xc288cab2; 0xd1d83946; 0x23b3ba45; 0xf779deae; 0x05125dad; 0x1642ae59; 0xe4292d5a;
   0xba3a117e; 0x4851927d; 0x5b016189; 0xa96ae28a; 0x7da08661; 0x8fcb0562; 0x9c9bf696; 0x6ef07595;
   0x417b1dbc; 0xb3109ebf; 0xa0406d4b; 0x522bee48; 0x86e18aa3; 0x748a09a0; 0x67dafa54; 0x95b17957;
   0xcba24573; 0x39c9c670; 0x2a993584; 0xd8f2b687; 0x0c38d26c; 0xfe53516f; 0xed03a29b; 0x1f682198;
   0x5125dad3; 0xa34e59d0; 0xb01eaa24; 0x42752927; 0x96bf4dcc; 0x64d4cecf; 0x77843d3b; 0x85efbe38;
   0xdbfc821c; 0x2997011f; 0x3ac7f2eb; 0xc8ac71e8; 0x1c661503; 0xee0d9600; 0xfd5d65f4; 0x0f36e6f7;
   0x61c69362; 0x93ad1061; 0x80fde395; 0x72966096; 0xa65c047d; 0x5437877e; 0x4767748a; 0xb50cf789;
   0xeb1fcbad; 0x197448ae; 0x0a24bb5a; 0xf84f3859; 0x2c855cb2; 0xdeeedfb1; 0xcdbe2c45; 0x3fd5af46;
   0x7198540d; 0x83f3d70e; 0x90a324fa; 0x62c8a7f9; 0xb602c312; 0x44694011; 0x5739b3e5; 0xa55230e6;
   0xfb410cc2; 0x092a8fc1; 0x1a7a7c35; 0xe811ff36; 0x3cdb9bdd; 0xceb018de; 0xdde0eb2a; 0x2f8b6829;
   0x82f63b78; 0x709db87b; 0x63cd4b8f; 0x91a6c88c; 0x456cac67; 0xb7072f64; 0xa457dc90; 0x563c5f93;
   0x082f63b7; 0xfa44e0b4; 0xe9141340; 0x1b7f9043; 0xcfb5f4a8; 0x3dde77ab; 0x2e8e845f; 0xdce5075c;
   0x92a8fc17; 0x60c37f14; 0x73938ce0; 0x81f80fe3; 0x55326b08; 0xa759e80b; 0xb4091bff; 0x466298fc;
   0x1871a4d8; 0xea1a27db; 0xf94ad42f; 0x0b21572c; 0xdfeb33c7; 0x2d80b0c4; 0x3ed04330; 0xccbbc033;
   0xa24bb5a6; 0x502036a5; 0x4370c551; 0xb11b4652; 0x65d122b9; 0x97baa1ba; 0x84ea524e; 0x7681d14d;
   0x2892ed69; 0xdaf96e6a; 0xc9a99d9e; 0x3bc21e9d; 0xef087a76; 0x1d63f975; 0x0e330a81; 0xfc588982;
   0xb21572c9; 0x407ef1ca; 0x532e023e; 0xa145813d; 0x758fe5d6; 0x87e466d5; 0x94b49521; 0x66df1622;
   0x38cc2a06; 0xcaa7a905; 0xd9f75af1; 0x2b9cd9f2; 0xff56bd19; 0x0d3d3e1a; 0x1e6dcdee; 0xec064eed;
   0xc38d26c4; 0x31e6a5c7; 0x22b65633; 0xd0ddd530; 0x0417b1db; 0xf67c32d8; 0xe52cc12c; 0x1747422f;
   0x49547e0b; 0xbb3ffd08; 0xa86f0efc; 0x5a048dff; 0x8ecee914; 0x7ca56a17; 0x6ff599e3; 0x9d9e1ae0;
   0xd3d3e1ab; 0x21b862a8; 0x32e8915c; 0xc083125f; 0x144976b4; 0xe622f5b7; 0xf5720643; 0x07198540;
   0x590ab964; 0xab613a67; 0xb831c993; 0x4a5a4a90; 0x9e902e7b; 0x6cfbad78; 0x7fab5e8c; 0x8dc0dd8f;
   0xe330a81a; 0x115b2b19; 0x020bd8ed; 0xf0605bee; 0x24aa3f05; 0xd6c1bc06; 0xc5914ff2; 0x37faccf1;
   0x69e9f0d5; 0x9b8273d6; 0x88d28022; 0x7ab90321; 0xae7367ca; 0x5c18e4c9; 0x4f48173d; 0xbd23943e;
   0xf36e6f75; 0x0105ec76; 0x12551f82; 0xe03e9c81; 0x34f4f86a; 0xc69f7b69; 0xd5cf889d; 0x27a40b9e;
   0x79b737ba; 0x8bdcb4b9; 0x988c474d; 0x6ae7c44e; 0xbe2da0a5; 0x4c4623a6; 0x5f16d052; 0xad7d5351].

(** One table look-up for the next byte; the loop runs once per byte. *)
Definition lookup_step (crc b : Z) : Z :=
  Z.lxor (nth (Z.to_nat (Z.land (Z.lxor b crc) 0xFF)) Crc32cTable 0) (Z.shiftr crc 8).

Definition DoCrc32c_Lookup (crc : Z) (data : list Z) : Z := foldl lookup_step crc data.

(** A load of [length data] bytes on a little-endian machine. *)
Fixpoint le_value (data : list Z) : Z :=
  match data with
  | [] => 0
  | b :: data => Z.lor b (Z.shiftl (le_value data) 8)
  end.

(** The [crc32] family of instructions on an operand of [k] bytes, which
    starts at the head of [data]. *)
Definition crc_instr (k : nat) (crc : Z) (data : list Z) : Z :=
  crc_bits (8 * k) (Z.lxor crc (le_value (take k data))).

Definition DoCrc32c_Intel_Byte (crc : Z) (data : list Z) : Z :=
  foldl (fun crc b => crc_instr 1 crc [b]) crc data.

(** [while (quotient--)] with one [crc32q] a round; [p] is the rest of the data. *)
Fixpoint intel_loop (quotient : nat) (crc : Z) (p : list Z) : Z * list Z :=
  match quotient with
  | O => (crc, p)
  | S quotient => intel_loop quotient (crc_instr 8 crc p) (drop 8 p)
  end.

Definition DoCrc32c_Intel (crc : Z) (data : list Z) : Z :=
  let length := Z.of_nat (length data) in
  let quotient := u32 (length / 8) in
  let remainder := u32 (length mod 8) in
  let '(crc8, p) := intel_loop (Z.to_nat quotient) crc data in
  let crc := u32 crc8 in
  if negb (remainder =? 0) then DoCrc32c_Intel_Byte crc (take (Z.to_nat remainder) p) else crc.

(** The unrolled loop of the AArch64 variant: eight [crc32cx] a round while
    more than 64 bytes are left. *)
Fixpoint aarch64_loop64 (fuel : nat) (length : Z) (crc : Z) (p : list Z) : Z * Z * list Z :=
  match fuel with
  | O => (length, crc, p)
  | S fuel =>
      if 64 <? length then
        let '(crc, p) := intel_loop 8 crc p in
        aarch64_loop64 fuel (length - 64) crc p
      else (length, crc, p)
  end.

(** [while ((length -= 8) >= 0)], one [crc32cx] a round. *)
Fixpoint aarch64_loop8 (fuel : nat) (length : Z) (crc : Z) (p : list Z) : Z * Z * list Z :=
  let length := length - 8 in
  if 0 <=? length then
    match fuel with
    | O => (length, crc, p)
    | S fuel => aarch64_loop8 fuel length (crc_instr 8 crc p) (drop 8 p)
    end
  else (length, crc, p).

Definition DoCrc32c_Aarch64 (crc : Z) (data : list Z) : Z :=
  let fuel := length data in
  let '(length, crc, p) := aarch64_loop64 fuel (Z.of_nat (length data)) crc data in
  let '(length, crc, p) := aarch64_loop8 fuel length crc p in
  let '(crc, p) := if negb (Z.land length 4 =? 0) then (crc_instr 4 crc p, drop 4 p) else (crc, p) in
  let '(crc, p) := if negb (Z.land length 2 =? 0) then (crc_instr 2 crc p, drop 2 p) else (crc, p) in
  if negb (Z.land length 1 =? 0) then crc_instr 1 crc p else crc.

(** The processor the library runs on. *)
Inductive cpu := X86_64 (sse42 : bool) | Aarch64.

Definition GetDoCrc32cImpl (c : cpu) : Z -> list Z -> Z :=
  match c with
  | X86_64 sse42 => if sse42 then DoCrc32c_Intel else DoCrc32c_Lookup
  | Aarch64 => DoCrc32c_Aarch64
  end.

Definition DoCrc32c (c : cpu) (initCrc : Z) (data : list Z) : Z := GetDoCrc32cImpl c initCrc data.

(** ** The reference is linear *)

Section Linear.

Lemma crc_bit_lxor a b : crc_bit (Z.lxor a b) = Z.lxor (crc_bit a) (crc_bit b).
Proof.
  unfold crc_bit. rewrite Z.lxor_spec, Z.shiftr_lxor.
  destruct (Z.testbit a 0), (Z.testbit b 0); simpl xorb; cbn iota.
  - rewrite (Z.lxor_comm (Z.shiftr b 1)), <- !Z.lxor_assoc, (Z.lxor_assoc _ CRC32C_POLY CRC32C_POLY).
    by rewrite Z.lxor_nilpotent, Z.lxor_0_r.
  - by rewrite !Z.lxor_assoc, (Z.lxor_comm CRC32C_POLY).
  - by rewrite !Z.lxor_assoc.
  - done.
Qed.

Lemma crc_bits_S n c : crc_bits (S n) c = crc_bit (crc_bits n c).
Proof. done. Qed.

Lemma crc_bits_lxor n a b : crc_bits n (Z.lxor a b) = Z.lxor (crc_bits n a) (crc_bits n b).
Proof. induction n as [|n IH]; [done|]. by rewrite !crc_bits_S, IH, crc_bit_lxor. Qed.

Lemma crc_bits_plus n m c : crc_bits (n + m) c = crc_bits n (crc_bits m c).
Proof. induction n as [|n IH]; [done|]. cbn [Nat.add]. by rewrite !crc_bits_S, IH. Qed.

(** Low zero bits are shifted out. *)
Lemma crc_bits_shiftl n x : crc_bits n (Z.shiftl x (Z.of_nat n)) = x.
Proof.
  induction n as [|n IH]; [apply Z.shiftl_0_r|].
  replace (S n) with (n + 1)%nat by lia. rewrite crc_bits_plus.
  assert (crc_bits 1 (Z.shiftl x (Z.of_nat (n + 1))) = Z.shiftl x (Z.of_nat n)) as ->; [|done].
  rewrite crc_bits_S. unfold crc_bit. unfold crc_bits; cbn [Nat.iter nat_rect]. rewrite Z.shiftl_spec_low by lia.
  rewrite Z.shiftr_shiftl_l by lia. f_equal. lia.
Qed.

Lemma crc_bit_range c : 0 <= c < 2 ^ 32 -> 0 <= crc_bit c < 2 ^ 32.
Proof.
  intros Hc. unfold crc_bit.
  assert (Hs : 0 <= Z.shiftr c 1 < 2 ^ 32).
  { rewrite Z.shiftr_div_pow2 by lia. change (2 ^ 1) with 2. lia. }
  destruct (Z.testbit c 0); [|done].
  assert (0 <= Z.lxor (Z.shiftr c 1) CRC32C_POLY) by (apply Z.lxor_nonneg; unfold CRC32C_POLY; lia).
  split; [done|]. destruct (Z.eq_dec (Z.lxor (Z.shiftr c 1) CRC32C_POLY) 0) as [->|Hne]; [lia|].
  apply Z.log2_lt_pow2; [lia|]. eapply Z.le_lt_trans; [apply Z.log2_lxor; unfold CRC32C_POLY; lia|].
  apply Z.max_lub_lt; [|done].
  destruct (Z.eq_dec (Z.shiftr c 1) 0) as [->|]; [done|]. apply Z.log2_lt_pow2; lia.
Qed.

Lemma crc_bits_range n c : 0 <= c < 2 ^ 32 -> 0 <= crc_bits n c < 2 ^ 32.
Proof. intros Hc. induction n as [|n IH]; [done|]. by apply crc_bit_range. Qed.

Lemma lxor_cancel_r a b x : Z.lxor a x = Z.lxor b x -> a = b.
Proof.
  intros H. apply (f_equal (fun z => Z.lxor z x)) in H.
  by rewrite !Z.lxor_assoc, Z.lxor_nilpotent, !Z.lxor_0_r in H.
Qed.

Lemma lxor_cancel_l a b x : Z.lxor x a = Z.lxor x b -> a = b.
Proof. rewrite !(Z.lxor_comm x). apply lxor_cancel_r. Qed.

Lemma lxor_range c b : 0 <= c < 2 ^ 32 -> 0 <= b < 2 ^ 32 -> 0 <= Z.lxor c b < 2 ^ 32.
Proof.
  intros Hc Hb. split; [apply Z.lxor_nonneg; lia|].
  destruct (Z.eq_dec (Z.lxor c b) 0) as [->|Hne]; [lia|].
  assert (0 <= Z.lxor c b) by (apply Z.lxor_nonneg; lia).
  apply Z.log2_lt_pow2; [lia|]. eapply Z.le_lt_trans; [apply Z.log2_lxor; lia|].
  apply Z.max_lub_lt.
  - destruct (Z.eq_dec c 0) as [->|]; [done|]. apply Z.log2_lt_pow2; lia.
  - destruct (Z.eq_dec b 0) as [->|]; [done|]. apply Z.log2_lt_pow2; lia.
Qed.

Lemma lxor_byte_range c b : 0 <= c < 2 ^ 32 -> is_byte b -> 0 <= Z.lxor c b < 2 ^ 32.
Proof. unfold is_byte. intros ? ?. apply lxor_range; lia. Qed.

Lemma crc_byte_range c b : 0 <= c < 2 ^ 32 -> is_byte b -> 0 <= crc_byte c b < 2 ^ 32.
Proof. intros. by apply crc_bits_range, lxor_byte_range. Qed.

Lemma crc_ref_range data c : 0 <= c < 2 ^ 32 -> Forall is_byte data -> 0 <= crc_ref c data < 2 ^ 32.
Proof.
  intros Hc Hd. revert c Hc. induction Hd as [|b data Hb Hd IH]; intros c Hc; [done|].
  apply IH. by apply crc_byte_range.
Qed.

(** The division step loses nothing: it is injective on 32-bit values. *)
Lemma crc_bit_zero x : 0 <= x < 2 ^ 32 -> crc_bit x = 0 -> x = 0.
Proof.
  intros Hx. unfold crc_bit. pose proof (Z.bit0_odd x) as Ho.
  pose proof (Z.div2_odd x) as Hd. rewrite Z.div2_spec in Hd. rewrite Ho.
  destruct (Z.odd x); cbn [Z.b2z] in Hd; intros H.
  - apply Z.lxor_eq in H. unfold CRC32C_POLY in H. lia.
  - lia.
Qed.

Lemma crc_bits_zero n x : 0 <= x < 2 ^ 32 -> crc_bits n x = 0 -> x = 0.
Proof.
  intros Hx. induction n as [|n IH]; [done|]. intros H. apply IH.
  apply crc_bit_zero in H; [done|]. by apply crc_bits_range.
Qed.

End Linear.

(** ** The implementations compute the reference *)

Section Equivalence.

Lemma low_byte c : Z.land c 0xFF = c mod 256.
Proof. by apply (Z.land_ones c 8). Qed.

(** The table holds the reference's result for every byte. *)
Lemma table_entry i : 0 <= i < 256 -> nth (Z.to_nat i) Crc32cTable 0 = crc_bits 8 i.
Proof.
  intros Hi.
  assert (H : forall n, (n < 256)%nat -> nth n Crc32cTable 0 = crc_bits 8 (Z.of_nat n)).
  { intros n Hn. assert (E : nth n Crc32cTable 0 =? crc_bits 8 (Z.of_nat n) = true); [|by apply Z.eqb_eq].
    assert (Hall : forallb (fun n => nth n Crc32cTable 0 =? crc_bits 8 (Z.of_nat n)) (seq 0 256) = true)
      by (vm_compute; reflexivity).
    eapply forallb_forall in Hall; [exact Hall|]. apply in_seq. lia. }
  rewrite H, Z2Nat.id; [done|lia..].
Qed.

Lemma split_byte c : c = Z.lxor (Z.land c 0xFF) (Z.shiftl (Z.shiftr c 8) 8).
Proof.
  apply Z.bits_inj'. intros n Hn. rewrite Z.lxor_spec, Z.land_spec.
  change 0xFF with (Z.ones 8). destruct (Z_lt_le_dec n 8) as [Hl|Hl].
  - rewrite Z.ones_spec_low, Z.shiftl_spec_low by lia. by rewrite andb_true_r, xorb_false_r.
  - rewrite Z.ones_spec_high, andb_false_r, xorb_false_l, Z.shiftl_spec_high, Z.shiftr_spec by lia.
    f_equal. lia.
Qed.

Lemma lookup_step_ref c b : is_byte b -> lookup_step c b = crc_byte c b.
Proof.
  intros Hb. unfold lookup_step, crc_byte. rewrite (Z.lxor_comm b c).
  rewrite table_entry by (rewrite low_byte; lia).
  rewrite (split_byte (Z.lxor c b)) at 2. rewrite crc_bits_lxor. f_equal.
  change 8 with (Z.of_nat 8) at 3. rewrite crc_bits_shiftl, Z.shiftr_lxor.
  unfold is_byte in Hb. rewrite (Z.shiftr_div_pow2 b), Z.div_small by (change (2 ^ 8) with 256; lia).
  by rewrite Z.lxor_0_r.
Qed.

Lemma lookup_ref c data : Forall is_byte data -> DoCrc32c_Lookup c data = crc_ref c data.
Proof.
  intros Hd. revert c. induction Hd as [|b data Hb _ IH]; intros c; [done|].
  unfold DoCrc32c_Lookup, crc_ref in *. cbn [foldl]. by rewrite IH, lookup_step_ref.
Qed.

(** An instruction on [k] bytes is the reference on those bytes. *)
Lemma crc_instr_ref data c :
  Forall is_byte data -> crc_bits (8 * length data) (Z.lxor c (le_value data)) = crc_ref c data.
Proof.
  intros Hd. revert c. induction Hd as [|b data Hb Hd IH]; intros c; cbn [le_value length].
  { by rewrite Z.lxor_0_r. }
  unfold is_byte in Hb.
  assert (Z.lor b (Z.shiftl (le_value data) 8) = Z.lxor b (Z.shiftl (le_value data) 8)) as ->.
  { apply Z.bits_inj'. intros n Hn.
    rewrite Z.lor_spec, Z.lxor_spec. destruct (Z_lt_le_dec n 8) as [Hl|Hl].
    - rewrite Z.shiftl_spec_low by lia. by destruct (Z.testbit b n).
    - assert (Z.testbit b n = false) as ->; [|by destruct (Z.testbit _ n)].
      rewrite <- (Z.mod_small b (2 ^ 8)) by (change (2 ^ 8) with 256; lia).
      apply Z.mod_pow2_bits_high. lia. }
  replace (8 * S (length data))%nat with (8 * length data + 8)%nat by lia.
  rewrite crc_bits_plus, <- Z.lxor_assoc, crc_bits_lxor.
  pose proof (crc_bits_shiftl 8 (le_value data)) as E. change (Z.of_nat 8) with 8 in E.
  rewrite E. apply IH.
Qed.

Lemma crc_instr_take k c data :
  Forall is_byte data -> (k <= length data)%nat -> crc_instr k c data = crc_ref c (take k data).
Proof.
  intros Hd Hk. unfold crc_instr. rewrite <- crc_instr_ref by (by apply Forall_take).
  rewrite length_take. by replace (k `min` length data)%nat with k by lia.
Qed.

Lemma crc_ref_app c l1 l2 : crc_ref c (l1 ++ l2) = crc_ref (crc_ref c l1) l2.
Proof. apply foldl_app. Qed.

Lemma crc_ref_split k c data : crc_ref (crc_ref c (take k data)) (drop k data) = crc_ref c data.
Proof. by rewrite <- crc_ref_app, take_drop. Qed.

Lemma intel_byte_ref c data : Forall is_byte data -> DoCrc32c_Intel_Byte c data = crc_ref c data.
Proof.
  intros Hd. revert c. induction Hd as [|b data Hb Hd IH]; intros c; [done|].
  unfold DoCrc32c_Intel_Byte, crc_ref in *. cbn [foldl]. rewrite IH.
  rewrite (crc_instr_take 1 c [b]); [done|by apply Forall_singleton|done].
Qed.

Lemma intel_loop_ref n c p :
  Forall is_byte p -> (8 * n <= length p)%nat ->
  intel_loop n c p = (crc_ref c (take (8 * n) p), drop (8 * n) p).
Proof.
  revert c p; induction n as [|n IH]; intros c p Hp Hl; [by rewrite drop_0|].
  cbn [intel_loop]. rewrite IH by (by apply Forall_drop || (rewrite length_drop; lia)).
  rewrite crc_instr_take by (done || lia). rewrite drop_drop.
  replace (8 * S n)%nat with (8 + 8 * n)%nat by lia. f_equal.
  by rewrite <- take_take_drop, crc_ref_app.
Qed.

Lemma intel_ref c data :
  0 <= c < 2 ^ 32 -> Forall is_byte data -> Z.of_nat (length data) < 2 ^ 35 ->
  DoCrc32c_Intel c data = crc_ref c data.
Proof.
  intros Hc Hd Hl. unfold DoCrc32c_Intel.
  rewrite !wrapu_small by (split; [apply Z.div_pos || apply Z.mod_pos_bound; lia|]; lia).
  set (n := Z.to_nat (Z.of_nat (length data) / 8)).
  assert (Hn : Z.of_nat (8 * n) = 8 * (Z.of_nat (length data) / 8)) by lia.
  rewrite intel_loop_ref by (done || lia). rewrite wrapu_small by (apply crc_ref_range; [done|by apply Forall_take]).
  case_bool.
  - rewrite intel_byte_ref by (by apply Forall_take, Forall_drop). rewrite (take_ge (drop (8 * n) data)); [apply crc_ref_split|].
    rewrite length_drop. lia.
  - rewrite take_ge by lia. done.
Qed.

Lemma loop64_ref fuel c p :
  Forall is_byte p -> exists c' p',
    aarch64_loop64 fuel (Z.of_nat (length p)) c p = (Z.of_nat (length p'), c', p') /\
    Forall is_byte p' /\ (length p' <= length p)%nat /\ crc_ref c' p' = crc_ref c p.
Proof.
  revert c p; induction fuel as [|fuel IH]; intros c p Hp; cbn [aarch64_loop64]; [by eexists _, _|].
  case_bool; [|by eexists _, _]. rewrite intel_loop_ref by (done || lia).
  change (8 * 8)%nat with 64%nat. replace (Z.of_nat (length p) - 64) with (Z.of_nat (length (drop 64 p))) by (rewrite length_drop; lia).
  destruct (IH (crc_ref c (take 64 p)) (drop 64 p)) as (c' & p' & -> & ? & Hl & E); [by apply Forall_drop|].
  exists c', p'. rewrite length_drop in Hl. split_and!; [done|done|lia|]. by rewrite E, crc_ref_split.
Qed.

Lemma loop8_ref fuel c p :
  Forall is_byte p -> (length p <= 8 * fuel)%nat -> exists c' p',
    aarch64_loop8 fuel (Z.of_nat (length p)) c p = (Z.of_nat (length p') - 8, c', p') /\
    Forall is_byte p' /\ (length p' < 8)%nat /\ crc_ref c' p' = crc_ref c p.
Proof.
  revert c p; induction fuel as [|fuel IH]; intros c p Hp Hl; cbn [aarch64_loop8]; case_bool.
  1, 2: eexists _, _; split_and!; [done|done|lia|done].
  2: eexists _, _; split_and!; [done|done|lia|done].
  replace (Z.of_nat (length p) - 8) with (Z.of_nat (length (drop 8 p))) by (rewrite length_drop; lia).
  rewrite crc_instr_take by (done || lia).
  destruct (IH (crc_ref c (take 8 p)) (drop 8 p)) as (c' & p' & -> & ? & ? & E);
    [by apply Forall_drop|rewrite length_drop; lia|].
  exists c', p'. split_and!; [done..|]. by rewrite E, crc_ref_split.
Qed.

(** The tail of fewer than eight bytes, taken by its binary digits. *)
Lemma tail_ref c p :
  Forall is_byte p -> (length p < 8)%nat ->
  let length := Z.of_nat (length p) - 8 in
  (let '(crc, p) := if negb (Z.land length 4 =? 0) then (crc_instr 4 c p, drop 4 p) else (c, p) in
   let '(crc, p) := if negb (Z.land length 2 =? 0) then (crc_instr 2 crc p, drop 2 p) else (crc, p) in
   if negb (Z.land length 1 =? 0) then crc_instr 1 crc p else crc) = crc_ref c p.
Proof.
  intros Hp Hl.
  destruct p as [|b0 [|b1 [|b2 [|b3 [|b4 [|b5 [|b6 [|b7 p]]]]]]]]; [..|simpl in Hl; lia];
    repeat (apply Forall_cons in Hp as [? Hp]); cbv -[crc_instr crc_ref];
    rewrite ?crc_instr_take by first [simpl; lia|repeat (apply Forall_cons; split; [assumption|]); constructor].
  all: unfold crc_ref; cbn [take foldl]; reflexivity.
Qed.

Lemma aarch64_ref c data : Forall is_byte data -> DoCrc32c_Aarch64 c data = crc_ref c data.
Proof.
  intros Hd. unfold DoCrc32c_Aarch64.
  destruct (loop64_ref (length data) c data Hd) as (c1 & p1 & -> & H1 & Hl & E1).
  destruct (loop8_ref (length data) c1 p1 H1) as (c2 & p2 & -> & H2 & H8 & E2); [lia|].
  pose proof (tail_ref c2 p2 H2 H8) as Ht. cbn zeta in Ht. by rewrite Ht, E2.
Qed.

Lemma DoCrc32c_ref cpu c data :
  0 <= c < 2 ^ 32 -> Forall is_byte data -> Z.of_nat (length data) < 2 ^ 35 ->
  DoCrc32c cpu c data = crc_ref c data.
Proof.
  intros. destruct cpu as [[]|]; [by apply intel_ref|by apply lookup_ref|by apply aarch64_ref].
Qed.

End Equivalence.

(** ** Properties *)

(** All implementations agree.  On every processor the library supports,
    the checksum of any byte string shorter than 32 GiB, from any 32-bit
    start value, is the bit-serial CRC32C remainder; two machines of
    different kinds therefore accept each other's checksums. *)
Theorem crc32c_implementations_agree cpu crc data :
  0 <= crc < 2 ^ 32 -> Forall is_byte data -> Z.of_nat (length data) < 2 ^ 35 ->
  DoCrc32c cpu crc data = crc_ref crc data /\ 0 <= DoCrc32c cpu crc data < 2 ^ 32.
Proof. intros. rewrite DoCrc32c_ref by done. split; [done|by apply crc_ref_range]. Qed.

Lemma crc32c_implementations_agree_witness :
  DoCrc32c (X86_64 true) 0 [49; 50; 51; 52; 53; 54; 55; 56; 57] = crc_ref 0 [49; 50; 51; 52; 53; 54; 55; 56; 57] /\
  0 <= DoCrc32c (X86_64 true) 0 [49; 50; 51; 52; 53; 54; 55; 56; 57] < 2 ^ 32.
Proof.
  apply (crc32c_implementations_agree (X86_64 true) 0 [49; 50; 51; 52; 53; 54; 55; 56; 57]);
    [lia|repeat (constructor; [unfold is_byte; lia|]); constructor|vm_compute; reflexivity].
Defined.

Lemma crc_ref_diff data c c' :
  0 <= c < 2 ^ 32 -> 0 <= c' < 2 ^ 32 -> Forall is_byte data -> c <> c' -> crc_ref c data <> crc_ref c' data.
Proof.
  intros Hc Hc' Hd. revert c c' Hc Hc'. induction Hd as [|b data Hb Hd IH]; intros c c' Hc Hc' Hne; [done|].
  apply IH; [by apply crc_byte_range..|]. unfold crc_byte. intros E. apply Hne.
  apply Z.lxor_eq. apply (crc_bits_zero 8); [by apply lxor_range|].
  rewrite !crc_bits_lxor in E. rewrite crc_bits_lxor. apply Z.lxor_eq_0_iff.
  by eapply lxor_cancel_r.
Qed.

Lemma crc_ref_byte_error l1 l2 b b' :
  Forall is_byte (l1 ++ b :: l2) -> is_byte b' -> b <> b' -> crc_ref 0 (l1 ++ b :: l2) <> crc_ref 0 (l1 ++ b' :: l2).
Proof.
  intros Hd Hb' Hne. apply Forall_app in Hd as [H1 H2]. apply Forall_cons in H2 as [Hb H2].
  rewrite !crc_ref_app. cbn [crc_ref foldl].
  assert (Hc : 0 <= crc_ref 0 l1 < 2 ^ 32) by (by apply crc_ref_range).
  apply crc_ref_diff; [by apply crc_byte_range..|done|]. unfold crc_byte. intros E. apply Hne.
  apply Z.lxor_eq. unfold is_byte in *. apply (crc_bits_zero 8).
  - apply lxor_range; lia.
  - rewrite !crc_bits_lxor in E. rewrite crc_bits_lxor. apply Z.lxor_eq_0_iff. by eapply lxor_cancel_l.
Qed.

(** A corrupted byte is always noticed.  Two messages of the same length
    that differ in exactly one byte never have the same checksum, whatever
    implementation computed either of them. *)
Theorem crc32c_detects_byte_error cpu cpu' l1 l2 b b' :
  Forall is_byte (l1 ++ b :: l2) -> is_byte b' -> b <> b' ->
  Z.of_nat (length (l1 ++ b :: l2)) < 2 ^ 35 ->
  DoCrc32c cpu 0 (l1 ++ b :: l2) <> DoCrc32c cpu' 0 (l1 ++ b' :: l2).
Proof.
  intros Hd Hb' Hne Hl. rewrite !DoCrc32c_ref; try done; [by apply crc_ref_byte_error| |by rewrite !length_app in *].
  apply Forall_app in Hd as [H1 H2]. apply Forall_cons in H2 as [Hb H2].
  apply Forall_app; split; [done|]. by constructor.
Qed.

Lemma crc32c_detects_byte_error_witness :
  DoCrc32c Aarch64 0 ([1; 2] ++ 3 :: [4]) <> DoCrc32c (X86_64 false) 0 ([1; 2] ++ 7 :: [4]).
Proof.
  apply (crc32c_detects_byte_error Aarch64 (X86_64 false) [1; 2] [4] 3 7);
    [repeat (constructor; [unfold is_byte; lia|]); constructor|unfold is_byte; lia|lia|vm_compute; reflexivity].
Defined.
