(* ===== verification/Packet.v ===== *)
(** * Packets

    Sources: packet.h, packet.cpp, timeutil.cpp, channel.cpp (the fields a
    packet uses), controlpacket.h and controlpacket.cpp, connectionpriority.h,
    all under src/agent_engine/network/anet/.

    [Packet] is the base class; its virtual functions are the methods of the
    class [IPacket], of which every concrete packet is an instance.  The links
    of a queued packet are in [PacketQueue]. *)

From S2P Require Import Prelude DataBuffer.

(** ** TimeUtil *)

Definition TimeUtil_MIN : Z := - 2 ^ 63.
Definition TimeUtil_MAX : Z := Z.lnot (- 2 ^ 63).
Definition TimeUtil_PRE_MAX : Z := Z.lnot (- 2 ^ 63) - 1.

(** [getTime] from the two fields [gettimeofday] fills in. *)
Definition TimeUtil_getTime (tv_sec tv_usec : Z) : Z := i64 (tv_sec * 1000000 + tv_usec).

(** ** The packet header *)

Record PacketHeader := mkHeader {
  _chid : Z;      (* uint32_t *)
  _pcode : Z;     (* int32_t *)
  _dataLen : Z    (* int32_t *)
}.

Definition ANET_PACKET_FLAG : Z := 0x416e4574.
Definition PACKET_INFO_LEN : Z := 16.

#[global] Instance PacketHeader_eq_dec : EqDecision PacketHeader.
Proof. solve_decision. Defined.

Definition header_ok (h : PacketHeader) : Prop :=
  0 <= _chid h < 2 ^ 32 /\ - 2 ^ 31 <= _pcode h < 2 ^ 31 /\ - 2 ^ 31 <= _dataLen h < 2 ^ 31.

(** ** Connection priorities *)

Definition ANET_PRIORITY_DEFAULT : Z := 0.
Definition ANET_PRIORITY_LOW : Z := 1.
Definition ANET_PRIORITY_NORMAL : Z := 0.
Definition ANET_PRIORITY_HIGH : Z := 6.

Definition isValidPriority (prio : Z) : bool :=
  (ANET_PRIORITY_DEFAULT <=? prio) && (prio <=? ANET_PRIORITY_HIGH).

(** ** The base class *)

Record Packet := mkPacket {
  _packetHeader : PacketHeader;
  _expireTime : Z;
  _timeoutMs : Z;
  _channel : option positive;          (* the [Channel] object *)
  _packetDequeueCB : option positive   (* the [IPacketHandler] object *)
}.

Definition Packet_new : Packet := mkPacket (mkHeader 0 0 0) 0 0 None None.

Definition Packet_with_header (h : PacketHeader) (p : Packet) : Packet :=
  mkPacket h (_expireTime p) (_timeoutMs p) (_channel p) (_packetDequeueCB p).

(** [setPacketHeader]; the argument is not null at any call. *)
Definition setPacketHeader (h : PacketHeader) (p : Packet) : Packet := Packet_with_header h p.

Definition setPcode (pcode : Z) (p : Packet) : Packet :=
  let h := _packetHeader p in Packet_with_header (mkHeader (_chid h) pcode (_dataLen h)) p.

Definition getPcode (p : Packet) : Z := _pcode (_packetHeader p).

(** [Packet::setChannelId], [getChannelId], [setDataLen], [getDataLen]: the
    base class versions, which subclasses override or call. *)
Definition Packet_setChannelId (chid : Z) (p : Packet) : Packet :=
  let h := _packetHeader p in Packet_with_header (mkHeader (u32 chid) (_pcode h) (_dataLen h)) p.

Definition Packet_getChannelId (p : Packet) : Z := _chid (_packetHeader p).

Definition Packet_setDataLen (len : Z) (p : Packet) : Packet :=
  let h := _packetHeader p in Packet_with_header (mkHeader (_chid h) (_pcode h) len) p.

Definition Packet_getDataLen (p : Packet) : Z := _dataLen (_packetHeader p).

(** [setExpireTime]; [now] is what [TimeUtil::getTime] returns. *)
Definition setExpireTime (now milliseconds : Z) (p : Packet) : Packet :=
  if milliseconds <? 0 then
    mkPacket (_packetHeader p) TimeUtil_PRE_MAX (_timeoutMs p) (_channel p) (_packetDequeueCB p)
  else if milliseconds =? 0 then
    mkPacket (_packetHeader p) 0 (_timeoutMs p) (_channel p) (_packetDequeueCB p)
  else
    mkPacket (_packetHeader p) (i64 (now + milliseconds * 1000)) milliseconds (_channel p) (_packetDequeueCB p).

Definition setDequeueCB (cb : option positive) (p : Packet) : Packet :=
  mkPacket (_packetHeader p) (_expireTime p) (_timeoutMs p) (_channel p) cb.

(** [invokeDequeueCB]: the handler called, if any. *)
Definition invokeDequeueCB (p : Packet) : option positive := _packetDequeueCB p.

(** ** The virtual functions

    [encode p output] and [decode p input] return the result code, the packet
    (both may write its fields) and the buffer.  [decode]'s [header] argument
    is the packet's own header at its only call
    ([DefaultPacketStreamer::processData]), so it is not repeated; writes
    through one are seen through the other. *)

Class IPacket (P : Type) := {
  base : P -> Packet;
  upd_base : (Packet -> Packet) -> P -> P;
  encode : P -> DataBuffer -> option (bool * P * DataBuffer);
  decode : P -> DataBuffer -> option (bool * P * DataBuffer);
  isRegularPacket : P -> bool;
  getPriority : P -> Z;
  setPriority : Z -> P -> option P;
  setChannelId : Z -> P -> option P;
  getChannelId : P -> Z;
  cleanupFlags : P -> P;
  getPacketVersion : P -> Z;
  setPacketVersion : Z -> P -> P
}.

(** [base] and [upd_base] are the view of the base-class subobject. *)
Class IPacketBase (P : Type) `{IPacket P} := {
  base_upd : forall f p, base (upd_base f p) = f (base p);
  upd_upd : forall f g p, upd_base f (upd_base g p) = upd_base (fun q => f (g q)) p;
  upd_ext : forall f g p, f (base p) = g (base p) -> upd_base f p = upd_base g p
}.

(** [setChannel] binds the packet to the channel [ch] with the id [chid]; the
    result has the packet and the id the channel has afterwards. *)
Definition setChannel {P} `{IPacket P} (channel : option (positive * Z)) (p : P) : option (P * option Z) :=
  match channel with
  | None => Some (p, None)
  | Some (ch, chid) =>
      let p := upd_base (fun q => mkPacket (_packetHeader q) (_expireTime q) (_timeoutMs q)
                                           (Some ch) (_packetDequeueCB q)) p in
      p ← setChannelId chid p;
      Some (p, Some (getChannelId p))
  end.

(** ** ControlPacket *)

Inductive command :=
  CMD_BAD_PACKET | CMD_TIMEOUT_PACKET | CMD_CONNECTION_CLOSED
| CMD_RECEIVE_NEW_CONNECTION | CMD_CLOSE_CONNECTION.

#[global] Instance command_eq_dec : EqDecision command.
Proof. solve_decision. Defined.

Record ControlPacket := mkControlPacket {
  cp_base : Packet;
  _command : command;
  _freeDelete : bool
}.

Definition ControlPacket_new (c : command) (freeDelete : bool) : ControlPacket :=
  mkControlPacket Packet_new c freeDelete.

Definition BadPacket : ControlPacket := ControlPacket_new CMD_BAD_PACKET false.
Definition TimeoutPacket : ControlPacket := ControlPacket_new CMD_TIMEOUT_PACKET false.
Definition ConnectionClosedPacket : ControlPacket := ControlPacket_new CMD_CONNECTION_CLOSED false.
Definition ReceiveNewConnectionPacket : ControlPacket := ControlPacket_new CMD_RECEIVE_NEW_CONNECTION false.
Definition CloseConnectionPacket : ControlPacket := ControlPacket_new CMD_CLOSE_CONNECTION false.

Definition getCommand (p : ControlPacket) : command := _command p.

(** [free()] deletes the object or leaves it. *)
Definition ControlPacket_free (p : ControlPacket) : option ControlPacket :=
  if _freeDelete p then None else Some p.

Definition whatCmd (c : command) : string :=
  match c with
  | CMD_BAD_PACKET => "Bad Packet received"
  | CMD_TIMEOUT_PACKET => "Packet Timeout"
  | CMD_CONNECTION_CLOSED => "Drop packet due to closing connection"
  | CMD_RECEIVE_NEW_CONNECTION => "Receive new connection"
  | CMD_CLOSE_CONNECTION => "Close connection"
  end.

#[global] Instance ControlPacket_IPacket : IPacket ControlPacket := {
  base := cp_base;
  upd_base f p := mkControlPacket (f (cp_base p)) (_command p) (_freeDelete p);
  encode p output := Some (false, p, output);
  decode p input := Some (false, p, input);
  isRegularPacket _ := false;
  getPriority _ := ANET_PRIORITY_NORMAL;
  setPriority _ p := Some p;
  setChannelId chid p := Some (mkControlPacket (Packet_setChannelId chid (cp_base p)) (_command p) (_freeDelete p));
  getChannelId p := Packet_getChannelId (cp_base p);
  cleanupFlags p := p;
  getPacketVersion _ := 0;
  setPacketVersion _ p := p
}.

#[global] Instance ControlPacket_Base : IPacketBase ControlPacket.
Proof. split; [done..|]. intros f g p E. simpl in *. by rewrite E. Qed.

(** ** Lemmas *)

Lemma base_setDataLen p len : _dataLen (_packetHeader (Packet_setDataLen len p)) = len.
Proof. done. Qed.

Lemma header_eta h : mkHeader (_chid h) (_pcode h) (_dataLen h) = h.
Proof. by destruct h. Qed.
