(* ===== verification/Streamer.v ===== *)
(** * Streaming packets: StreamingContext and DefaultPacketStreamer

    Sources: streamingcontext.cpp, defaultpacketstreamer.cpp and the reading
    loop of tcpconnection.cpp, under src/agent_engine/network/anet/.

    The streamer turns packets into frames (a flag, the three header fields,
    the body) and a stream of received bytes back into packets.  It is written
    against the virtual functions of [IPacket] and a packet factory; what it
    needs from a packet type is the interface [PacketCodec], which the packet
    files discharge. *)

From S2P Require Import Prelude DataBuffer Packet.

(** ** StreamingContext *)

(** The packet under construction: one the factory made, or the control
    packet that replaces it when its body is bad. *)
Abbreviation dyn_packet P := (P + ControlPacket)%type.

Record StreamingContext (P : Type) := mkContext {
  _packet : option (dyn_packet P);
  _completed : bool;
  _broken : bool;
  _eof : bool;
  _errorNo : Z;
  _errorString : option string
}.
Arguments mkContext {P}.
Arguments _packet {P}.
Arguments _completed {P}.
Arguments _broken {P}.
Arguments _eof {P}.
Arguments _errorNo {P}.
Arguments _errorString {P}.

Definition StreamingContext_new {P} : StreamingContext P := mkContext None false false false 0 None.

Section Context.

Context {P : Type}.
Implicit Types (c : StreamingContext P).

Definition isCompleted c : bool := _completed c.
Definition isBroken c : bool := _broken c.
Definition isEndOfFile c : bool := _eof c.
Definition getPacket c : option (dyn_packet P) := _packet c.

Definition setCompleted (v : bool) c : StreamingContext P :=
  mkContext (_packet c) v (_broken c) (_eof c) (_errorNo c) (_errorString c).
Definition setBroken (v : bool) c : StreamingContext P :=
  mkContext (_packet c) (_completed c) v (_eof c) (_errorNo c) (_errorString c).
Definition setEndOfFile (v : bool) c : StreamingContext P :=
  mkContext (_packet c) (_completed c) (_broken c) v (_errorNo c) (_errorString c).
Definition setErrorNo (e : Z) c : StreamingContext P :=
  mkContext (_packet c) (_completed c) (_broken c) (_eof c) e (_errorString c).
Definition setErrorString (s : option string) c : StreamingContext P :=
  mkContext (_packet c) (_completed c) (_broken c) (_eof c) (_errorNo c) s.

(** [setPacket] frees the packet it replaces; the call sites never set the
    packet that is already there. *)
Definition setPacket (p : option (dyn_packet P)) c : StreamingContext P :=
  mkContext p (_completed c) (_broken c) (_eof c) (_errorNo c) (_errorString c).

Definition stealPacket c : option (dyn_packet P) * StreamingContext P := (_packet c, setPacket None c).

Definition reset c : StreamingContext P := mkContext None false false false 0 None.

End Context.

(** ** DefaultPacketStreamer *)

Definition max_package_size : Z := 0x40000000.

(** [getPacketInfo]: the result, the header (which is left unset when the
    streamer has no packet header), [*broken] and the buffer. *)
Definition getPacketInfo (existPacketHeader : bool) (input : DataBuffer)
  : option (bool * option PacketHeader * bool * DataBuffer) :=
  if existPacketHeader then
    if getDataLen input <? PACKET_INFO_LEN then Some (false, None, false, input)
    else
      '(flag, input) ← readInt32 input;
      '(chid, input) ← readInt32 input;
      '(pcode, input) ← readInt32 input;
      '(dataLen, input) ← readInt32 input;
      let header := Some (mkHeader (u32 chid) pcode dataLen) in
      if negb (flag =? ANET_PACKET_FLAG) || (dataLen <? 0) || (max_package_size <? dataLen)
      then Some (false, header, true, input)
      else Some (true, header, false, input)
  else if getDataLen input =? 0 then Some (false, None, false, input)
  else Some (true, None, false, input).

Section Streamer.

Context {P : Type} `{IPacket P}.
Context (existPacketHeader : bool).
Context (createPacket : Z -> P).   (* [_factory->createPacket] *)

Definition streamer_encode (p : P) (output : DataBuffer) : option (bool * P * DataBuffer) :=
  let header := _packetHeader (base p) in
  let oldLen := getDataLen output in
  '(output, pcodeOffset, dataLenOffset, headerSize) ←
    (if existPacketHeader then
       output ← writeInt32 output ANET_PACKET_FLAG;
       output ← writeInt32 output (_chid header);
       let pcodeOffset := getDataLen output in
       output ← writeInt32 output (_pcode header);
       let dataLenOffset := getDataLen output in
       output ← writeInt32 output 0;
       Some (output, pcodeOffset, dataLenOffset, 16)
     else Some (output, -1, -1, 0));
  '(ok, p, output) ← encode p output;
  if negb ok then
    output ← stripData output (getDataLen output - oldLen);
    Some (false, p, output)
  else
    let dataLen := i32 (getDataLen output - oldLen - headerSize) in
    let p := upd_base (Packet_setDataLen dataLen) p in
    _ ← assertb (oldLen + headerSize <=? getDataLen output);
    if 0 <=? dataLenOffset then
      output ← fillInt32 output dataLenOffset dataLen;
      output ← fillInt32 output pcodeOffset (_pcode (_packetHeader (base p)));
      Some (true, p, output)
    else Some (true, p, output).

(** The header of whichever packet the context holds, and its [decode]. *)
Definition dyn_header (d : dyn_packet P) : PacketHeader :=
  match d with inl p => _packetHeader (base p) | inr c => _packetHeader (base c) end.

Definition dyn_decode (d : dyn_packet P) (input : DataBuffer)
  : option (bool * dyn_packet P * DataBuffer) :=
  match d with
  | inl p => '(rc, p, input) ← decode p input; Some (rc, inl p, input)
  | inr c => '(rc, c, input) ← decode c input; Some (rc, inr c, input)
  end.

(** Second half of [processData]: the header is known. *)
Definition process_body (packet : dyn_packet P) (b : DataBuffer) (ctx : StreamingContext P)
  : option (bool * DataBuffer * StreamingContext P) :=
  let header := dyn_header packet in
  if getDataLen b <? _dataLen header then
    Some (negb (isEndOfFile ctx), b, setBroken (isEndOfFile ctx) ctx)
  else
    '(ok, packet, b) ← dyn_decode packet b;
    if negb ok then
      let cmd := ControlPacket_new CMD_BAD_PACKET true in
      let cmd := upd_base (setPacketHeader (dyn_header packet)) cmd in
      Some (true, b, setCompleted true (setPacket (Some (inr cmd)) ctx))
    else
      _ ← assertb (0 <=? _dataLen (dyn_header packet));
      Some (true, b, setCompleted true (setPacket (Some packet) ctx)).

Definition processData (b : DataBuffer) (ctx : StreamingContext P)
  : option (bool * DataBuffer * StreamingContext P) :=
  match getPacket ctx with
  | Some packet => process_body packet b ctx
  | None =>
      '(ok, header, brokenFlag, b) ← getPacketInfo existPacketHeader b;
      if negb ok then
        let ctx := setBroken brokenFlag ctx in
        Some (negb brokenFlag && negb (isEndOfFile ctx), b, ctx)
      else
        header ← header;
        let packet := upd_base (setPacketHeader header) (createPacket (_pcode header)) in
        let ctx := setPacket (Some (inl packet)) ctx in
        b ← ensureFree b (_dataLen header);
        process_body (inl packet) b ctx
  end.

(** ** The reading loop of [TCPConnection::readData]

    [deliver] is what the connection does with a completed packet; it does
    not touch the input buffer or the context. *)

Context {S : Type} (deliver : S -> dyn_packet P -> option S).

Fixpoint read_loop (fuel : nat) (b : DataBuffer) (ctx : StreamingContext P) (s : S)
  : option (DataBuffer * StreamingContext P * S) :=
  match fuel with
  | O => None
  | Datatypes.S fuel =>
      '(ok, b, ctx) ← processData b ctx;
      if negb ok then Some (b, ctx, s)
      else if negb (isCompleted ctx) then Some (b, ctx, s)
      else
        let '(packet, ctx) := stealPacket ctx in
        packet ← packet;
        s ← deliver s packet;
        read_loop fuel b (reset ctx) s
  end.

(** One round of the outer loop: [bufSize] is [_readWriteBufSize] and
    [received] the bytes the socket had, which is nothing at the end of the
    file. *)
Definition read_round (bufSize : Z) (received : list Z) (b : DataBuffer) (ctx : StreamingContext P) (s : S)
  : option (DataBuffer * StreamingContext P * S) :=
  b ← ensureFree b bufSize;
  b ← recvFree b received;
  let ret := Z.of_nat (length received) in
  let ctx := if ret =? 0 then setEndOfFile true ctx else ctx in
  b ← pourData b ret;
  read_loop (Z.to_nat (getDataLen b) + 2) b ctx s.

End Streamer.

(** ** What the streamer needs from a packet type

    [S] and [R] are the virtual functions at the sending and the receiving
    end, which may run with different global settings. *)

Class PacketCodec (P : Type) (S R : IPacket P) (createPacket : Z -> P) := {
  Content : Type;
  content : P -> Content;            (* what the packet carries *)
  sendable : P -> Prop;
  wire : P -> list Z;                (* the bytes [encode] appends *)
  sent_pcode : P -> Z;               (* the code [encode] leaves in the header *)
  accepts : P -> Z -> Prop;          (* the codes that make the factory build its kind *)
  send_base : @IPacketBase P S;
  recv_base : @IPacketBase P R;
  wire_bytes p : sendable p -> Forall is_byte (wire p);
  sent_accepts p : sendable p -> accepts p (sent_pcode p) /\ - 2 ^ 31 <= sent_pcode p < 2 ^ 31;
  encode_spec p b d :
    sendable p -> rep b d -> Z.of_nat (length d + length (wire p)) <= FRAME_MAX ->
    exists p' b', @encode P S p b = Some (true, p', b') /\ rep b' (d ++ wire p) /\
      _packetHeader (@base P S p') =
        mkHeader (_chid (_packetHeader (@base P S p))) (sent_pcode p) (_dataLen (_packetHeader (@base P S p)));
  decode_spec p h b rest :
    sendable p -> accepts p (_pcode h) -> _dataLen h = Z.of_nat (length (wire p)) -> rep b (wire p ++ rest) ->
    Z.of_nat (length (wire p)) <= FRAME_MAX ->
    exists q b', @decode P R (@upd_base P R (setPacketHeader h) (createPacket (_pcode h))) b = Some (true, q, b') /\
      rep b' rest /\ content q = content p /\
      _chid (_packetHeader (@base P R q)) = _chid h /\ _pcode (_packetHeader (@base P R q)) = _pcode h /\
      0 <= _dataLen (_packetHeader (@base P R q))
}.

(** ** Integers of the header *)

Lemma rep_writeInt32 b d n :
  rep b d -> Z.of_nat (length d + 4) <= FRAME_MAX ->
  exists b', writeInt32 b n = Some b' /\ rep b' (d ++ be_bytes 4 n).
Proof. apply (write_int_be_bytes 4). Qed.

Lemma rep_readInt32 b n d :
  rep b (be_bytes 4 n ++ d) -> exists b', readInt32 b = Some (i32 n, b') /\ rep b' d.
Proof.
  intros Hr. destruct (rep_read_be 4 b (be_bytes 4 n) d Hr) as (b' & E & ?); [apply be_bytes_length|lia|].
  exists b'. split; [|done]. unfold readInt32. rewrite E, be_value_be_bytes. by rewrite wraps_wrapu by lia.
Qed.

Definition header_bytes (h : PacketHeader) : list Z :=
  be_bytes 4 ANET_PACKET_FLAG ++ be_bytes 4 (_chid h) ++ be_bytes 4 (_pcode h) ++ be_bytes 4 (_dataLen h).

Lemma header_bytes_length h : length (header_bytes h) = 16%nat.
Proof. unfold header_bytes. by rewrite !length_app, !be_bytes_length. Qed.

Lemma header_bytes_is_byte h : Forall is_byte (header_bytes h).
Proof. unfold header_bytes. solve_wire. Qed.

(** A complete header is read back, whatever follows it. *)
Lemma getPacketInfo_ok b h rest :
  header_ok h -> 0 <= _dataLen h <= max_package_size -> rep b (header_bytes h ++ rest) ->
  exists b', getPacketInfo true b = Some (true, Some h, false, b') /\ rep b' rest.
Proof.
  intros Hh Hd Hr. unfold header_ok in Hh. unfold getPacketInfo.
  rewrite (rep_getDataLen _ _ Hr), length_app, header_bytes_length. unfold PACKET_INFO_LEN.
  rewrite (proj2 (Z.ltb_ge _ _)) by lia. unfold header_bytes in Hr. rewrite <- !app_assoc in Hr.
  do 4 (apply rep_readInt32 in Hr as (?b & -> & Hr); cbn [mbind option_bind]).
  rewrite i32_small by done. rewrite (wraps_small 32 (_dataLen h)), (wraps_small 32 (_pcode h)) by lia.
  rewrite wrapu_wraps, wrapu_small by lia. rewrite Z.eqb_refl. cbn [negb orb].
  rewrite (proj2 (Z.ltb_ge _ 0)), (proj2 (Z.ltb_ge _ _)) by lia. cbn [orb].
  rewrite header_eta. eauto.
Qed.

(** A short buffer is left alone. *)
Lemma getPacketInfo_short b d :
  rep b d -> (length d < 16)%nat -> getPacketInfo true b = Some (false, None, false, b).
Proof.
  intros Hr Hl. unfold getPacketInfo. rewrite (rep_getDataLen _ _ Hr). unfold PACKET_INFO_LEN.
  by rewrite (proj2 (Z.ltb_lt _ _)) by lia.
Qed.

Section Codec.

Context {P : Type} {Snd Rcv : IPacket P} {createPacket : Z -> P}.
Context {codec : PacketCodec P Snd Rcv createPacket}.

#[local] Existing Instance send_base.
#[local] Existing Instance recv_base.

Definition frame_header (p : P) : PacketHeader :=
  mkHeader (_chid (_packetHeader (@base P Snd p))) (sent_pcode p) (Z.of_nat (length (wire p))).

(** The bytes of a packet on the wire. *)
Definition frame (p : P) : list Z := header_bytes (frame_header p) ++ wire p.

Lemma frame_length p : length (frame p) = (16 + length (wire p))%nat.
Proof. unfold frame. by rewrite length_app, header_bytes_length. Qed.

Definition frame_ok (p : P) : Prop :=
  sendable p /\ 0 <= _chid (_packetHeader (@base P Snd p)) < 2 ^ 32 /\ Z.of_nat (length (frame p)) <= 2 ^ 22.

Lemma frame_header_ok p : frame_ok p -> header_ok (frame_header p) /\ 0 <= _dataLen (frame_header p) <= max_package_size.
Proof.
  intros (Hs & Hc & Hl). rewrite frame_length in Hl. destruct (sent_accepts p Hs) as [_ ?].
  unfold header_ok, frame_header, max_package_size; simpl. lia.
Qed.

(** Writing a frame: the placeholder of the length and the code are patched. *)
Lemma streamer_encode_ok p b d :
  frame_ok p -> rep b d -> Z.of_nat (length d + length (frame p)) <= FRAME_MAX ->
  exists p' b', @streamer_encode P Snd true p b = Some (true, p', b') /\ rep b' (d ++ frame p) /\
    _packetHeader (@base P Snd p') = frame_header p.
Proof.
  intros (Hs & Hc & Hl) Hr Hsz. pose proof (frame_length p) as Hfl. unfold FRAME_MAX in *.
  unfold streamer_encode. rewrite (rep_getDataLen _ _ Hr).
  set (h := _packetHeader (@base P Snd p)) in *.
  destruct (rep_writeInt32 b d ANET_PACKET_FLAG Hr) as (b1 & -> & R1); [unfold FRAME_MAX; lia|].
  cbn [mbind option_bind].
  destruct (rep_writeInt32 b1 _ (_chid h) R1) as (b2 & -> & R2);
    [unfold FRAME_MAX; wire_len|]. cbn [mbind option_bind].
  rewrite (rep_getDataLen _ _ R2).
  destruct (rep_writeInt32 b2 _ (_pcode h) R2) as (b3 & -> & R3);
    [unfold FRAME_MAX; wire_len|]. cbn [mbind option_bind].
  rewrite (rep_getDataLen _ _ R3).
  destruct (rep_writeInt32 b3 _ 0 R3) as (b4 & -> & R4);
    [unfold FRAME_MAX; wire_len|]. cbn [mbind option_bind].
  destruct (encode_spec p b4 _ Hs R4) as (p' & b5 & -> & R5 & Hh);
    [unfold FRAME_MAX; wire_len|]. cbn [mbind option_bind negb].
  rewrite (rep_getDataLen _ _ R5).
  assert (Hlen : i32 (Z.of_nat (length (((((d ++ be_bytes 4 ANET_PACKET_FLAG) ++ be_bytes 4 (_chid h)) ++
     be_bytes 4 (_pcode h)) ++ be_bytes 4 0) ++ wire p)) - Z.of_nat (length d) - 16) = Z.of_nat (length (wire p))).
  { rewrite !length_app, !be_bytes_length, i32_small; unfold INT_MIN, INT_MAX; lia. }
  rewrite Hlen, assertb_true by (apply Z.leb_le; rewrite !length_app, !be_bytes_length; lia).
  cbn [mbind option_bind]. rewrite (proj2 (Z.leb_le _ _)) by lia.
  rewrite <- app_assoc in R5.
  apply (rep_fillInt32 b5 _ _ _ (Z.of_nat (length (wire p)))) in R5 as (b6 & -> & R6); [|apply be_bytes_length].
  cbn [mbind option_bind].
  assert (Hpc : forall n, _pcode (_packetHeader (@base P Snd (@upd_base P Snd (Packet_setDataLen n) p'))) = sent_pcode p)
    by (intros n; rewrite base_upd; cbn; by rewrite Hh).
  rewrite Hpc. rewrite <- (app_assoc _ (be_bytes 4 (_pcode h))) in R6.
  apply (rep_fillInt32 b6 _ _ _ (sent_pcode p)) in R6 as (b7 & -> & R7); [|apply be_bytes_length].
  cbn [mbind option_bind]. do 2 eexists. split_and!; [done| |].
  - unfold frame, header_bytes, frame_header; simpl _chid; simpl _pcode; simpl _dataLen.
    rewrite <- !app_assoc in *. exact R7.
  - rewrite base_upd. unfold Packet_setDataLen, Packet_with_header. cbn [_packetHeader]. rewrite Hh. done.
Qed.

(** *** Reassembly *)

Implicit Types (ctx : StreamingContext P) (b : DataBuffer).

(** The bytes [x] arrived since the last complete packet: nothing of them was
    used yet, or their header was. *)
Inductive pending ctx b (x : list Z) : Prop :=
| pending_none :
    ctx = StreamingContext_new -> rep b x -> pending ctx b x
| pending_header h y :
    ctx = setPacket (Some (inl (@upd_base P Rcv (setPacketHeader h) (createPacket (_pcode h))))) StreamingContext_new ->
    header_ok h -> 0 <= _dataLen h <= max_package_size ->
    x = header_bytes h ++ y -> rep b y -> pending ctx b x.

Lemma header_bytes_inj h h' x y :
  header_ok h -> header_ok h' -> header_bytes h ++ x = header_bytes h' ++ y -> h = h' /\ x = y.
Proof.
  intros (A1 & A2 & A3) (B1 & B2 & B3) E. apply app_inj_1 in E as [E ->]; [|by rewrite !header_bytes_length].
  split; [|done]. unfold header_bytes in E. apply app_inj_1 in E as [_ E]; [|done].
  apply app_inj_1 in E as [E1 E]; [|by rewrite !be_bytes_length].
  apply app_inj_1 in E as [E2 E3]; [|by rewrite !be_bytes_length].
  apply (f_equal be_value) in E1, E2, E3. rewrite !be_value_be_bytes in E1, E2, E3.
  rewrite !wrapu_small in E1 by lia. change (8 * Z.of_nat 4) with 32 in *.
  apply (f_equal (wraps 32)) in E2, E3. rewrite !wraps_wrapu in E2, E3 by lia.
  rewrite !wraps_small in E2, E3 by lia. destruct h, h'; simpl in *; congruence.
Qed.

(** The context once a packet is complete, and the packet delivered. *)
Definition delivered (p q : P) : Prop :=
  content q = content p /\ _chid (_packetHeader (@base P Rcv q)) = _chid (_packetHeader (@base P Snd p)) /\
  _pcode (_packetHeader (@base P Rcv q)) = sent_pcode p.

Lemma process_body_complete p ctx b y :
  frame_ok p -> rep b (wire p ++ y) ->
  exists q b' ctx', @process_body P Rcv (inl (@upd_base P Rcv (setPacketHeader (frame_header p)) (createPacket (sent_pcode p))))
                      b ctx = Some (true, b', ctx') /\
    rep b' y /\ isCompleted ctx' = true /\ _packet ctx' = Some (inl q) /\ delivered p q.
Proof.
  intros Hp Hr. pose proof Hp as (Hs & Hc & Hl). rewrite frame_length in Hl. unfold process_body.
  cbn [dyn_header]. rewrite base_upd. cbn. rewrite (rep_getDataLen _ _ Hr), length_app.
  rewrite (proj2 (Z.ltb_ge _ _)) by lia. destruct (sent_accepts p Hs) as [Ha _].
  destruct (decode_spec p (frame_header p) b y Hs Ha eq_refl Hr) as (q & b' & E & R' & Hq & H1 & H2 & H3);
    [unfold FRAME_MAX; lia|].
  cbn [frame_header _pcode] in E. rewrite E. cbn [mbind option_bind negb].
  cbn [dyn_header]. rewrite assertb_true by (by apply Z.leb_le). cbn [mbind option_bind].
  exists q, b'. eexists. split; [done|]. by split_and!.
Qed.

Lemma process_body_short h ctx b y :
  _dataLen h > Z.of_nat (length y) -> rep b y -> isEndOfFile ctx = false -> isBroken ctx = false ->
  @process_body P Rcv (inl (@upd_base P Rcv (setPacketHeader h) (createPacket (_pcode h)))) b ctx = Some (true, b, ctx).
Proof using codec.
  intros Hd Hr He Hb. unfold process_body. cbn [dyn_header]. rewrite base_upd. cbn.
  rewrite (rep_getDataLen _ _ Hr), (proj2 (Z.ltb_lt _ _)), He by lia. destruct ctx; simpl in *. by subst.
Qed.

(** A frame that is complete is delivered; what follows it is kept. *)
Lemma processData_complete p ctx b y :
  frame_ok p -> pending ctx b (frame p ++ y) -> Z.of_nat (length (frame p ++ y)) <= 2 ^ 23 ->
  exists q b' ctx', @processData P Rcv true createPacket b ctx = Some (true, b', ctx') /\
    rep b' y /\ isCompleted ctx' = true /\ _packet ctx' = Some (inl q) /\ delivered p q.
Proof.
  intros Hp Hpend Hl. destruct (frame_header_ok p Hp) as [Hh Hd].
  rewrite length_app, frame_length in Hl. unfold frame in Hpend. rewrite <- app_assoc in Hpend.
  destruct Hpend as [-> Hr|h z -> Hhh Hdd E Hr].
  - unfold processData. cbn [getPacket _packet StreamingContext_new setPacket].
    destruct (getPacketInfo_ok b _ _ Hh Hd Hr) as (b1 & -> & R1). cbn [mbind option_bind negb].
    destruct (rep_expand b1 _ (_dataLen (frame_header p)) R1) as (b2 & E2 & R2 & _); [lia| |].
    { unfold FRAME_MAX. simpl _dataLen. rewrite length_app. lia. }
    unfold ensureFree. rewrite E2. cbn [mbind option_bind]. by apply process_body_complete.
  - apply header_bytes_inj in E as [<- <-]; [|done..]. unfold processData. cbn [getPacket _packet StreamingContext_new setPacket].
    by apply process_body_complete.
Qed.

(** Part of a frame leaves the stream pending. *)
Lemma processData_partial p ctx b x z :
  frame_ok p -> pending ctx b x -> x ++ z = frame p -> z <> [] ->
  exists b' ctx', @processData P Rcv true createPacket b ctx = Some (true, b', ctx') /\
    pending ctx' b' x /\ isCompleted ctx' = false.
Proof.
  intros Hp Hpend E Hz. destruct (frame_header_ok p Hp) as [Hh Hd].
  pose proof Hp as (_ & _ & Hl). rewrite frame_length in Hl.
  assert (0 < length z)%nat by (destruct z; [done|simpl; lia]).
  destruct Hpend as [-> Hr|h y -> Hhh Hdd -> Hr].
  - unfold processData. cbn [getPacket _packet StreamingContext_new setPacket]. destruct (decide (length x < 16)%nat) as [Hs|Hs].
    + rewrite (getPacketInfo_short b x Hr Hs). cbn. exists b, StreamingContext_new.
      split_and!; [done|by apply pending_none|done].
    + assert (Hx : x = header_bytes (frame_header p) ++ drop 16 x).
      { pose proof (f_equal (take 16) E) as E16. unfold frame in E16.
        rewrite take_app_le, (take_app_length' (header_bytes _)) in E16 by (rewrite ?header_bytes_length; lia).
        rewrite <- E16 at 1. by rewrite take_drop. }
      assert (Hlen : length (x ++ z) = (16 + length (wire p))%nat) by (by rewrite E, frame_length).
      rewrite length_app in Hlen. rewrite Hx in Hr.
      destruct (getPacketInfo_ok b _ _ Hh Hd Hr) as (b1 & -> & R1). cbn [mbind option_bind negb].
      destruct (rep_expand b1 _ (_dataLen (frame_header p)) R1) as (b2 & E2 & R2 & _); [lia| |].
      { unfold FRAME_MAX. simpl _dataLen. rewrite length_drop. lia. }
      unfold ensureFree. rewrite E2. cbn [mbind option_bind].
      rewrite (process_body_short (frame_header p) _ b2 (drop 16 x));
        [|simpl _dataLen; rewrite length_drop; lia|done..].
      do 2 eexists. split_and!; [done|by eapply pending_header|done].
  - unfold frame in E. rewrite <- app_assoc in E. apply header_bytes_inj in E as [-> E]; [|done..].
    unfold processData. cbn [getPacket _packet StreamingContext_new setPacket]. apply (f_equal length) in E. rewrite length_app in E.
    rewrite (process_body_short (frame_header p) _ b y); [|simpl _dataLen; lia|done..].
    do 2 eexists. split_and!; [done|by eapply pending_header|done].
Qed.

Lemma processData_empty ctx b :
  pending ctx b [] ->
  exists b' ctx', @processData P Rcv true createPacket b ctx = Some (true, b', ctx') /\
    pending ctx' b' [] /\ isCompleted ctx' = false.
Proof.
  intros [-> Hr|h y _ _ _ E _].
  - unfold processData. cbn [getPacket _packet StreamingContext_new setPacket].
    rewrite (getPacketInfo_short b [] Hr) by (simpl; lia). cbn. exists b, StreamingContext_new.
    split_and!; [done|by apply pending_none|done].
  - apply (f_equal length) in E. rewrite length_app, header_bytes_length in E. done.
Qed.

Context {S : Type} (deliver : S -> dyn_packet P -> option S).

Fixpoint deliver_all (s : S) (l : list (dyn_packet P)) : option S :=
  match l with
  | [] => Some s
  | d :: l => s ← deliver s d; deliver_all s l
  end.

(** Delivering a packet of the factory's type always succeeds. *)
Context (deliver_ok : forall s q, is_Some (deliver s (inl q))).

Lemma deliver_all_app s l1 l2 : deliver_all s (l1 ++ l2) = (s ← deliver_all s l1; deliver_all s l2).
Proof. revert s; induction l1 as [|d l1 IH]; intros s; simpl; [done|]. destruct (deliver s d); simpl; eauto. Qed.

(** Rounds the loop may still need. *)
Definition rounds ctx b : nat :=
  (Z.to_nat (getDataLen b) + match _packet ctx with None => 0 | Some _ => 1 end)%nat.

Lemma rounds_complete p ctx b y : pending ctx b (frame p ++ y) -> (length y < rounds ctx b)%nat.
Proof.
  unfold rounds. intros [-> Hr|h z -> _ _ E Hr]; rewrite (rep_getDataLen _ _ Hr), Nat2Z.id.
  - rewrite length_app, frame_length. lia.
  - apply (f_equal length) in E. rewrite !length_app, frame_length, header_bytes_length in E. simpl. lia.
Qed.

Lemma split_first x rest (f : list Z) l :
  x ++ rest = f ++ l -> (exists y, x = f ++ y /\ y ++ rest = l) \/ (exists z, f = x ++ z /\ z <> [] /\ z ++ l = rest).
Proof.
  intros E. apply app_eq_inv in E as [(y & -> & E)|(z & E & ->)]; [left; eauto|].
  destruct (decide (z = [])) as [->|Hz]; [left; exists []; by rewrite E, !app_nil_r|right; eauto].
Qed.

(** [x] is less than the first frame of [ps]. *)
Definition short (x : list Z) (ps : list P) : Prop :=
  match ps with [] => x = [] | p :: _ => (length x < length (frame p))%nat end.

Lemma short_length x ps : Forall frame_ok ps -> short x ps -> Z.of_nat (length x) <= 2 ^ 22.
Proof.
  destruct ps as [|p ps]; cbn [short]; [by intros _ ->|].
  intros [(_ & _ & Hl) _]%Forall_cons Hx. lia.
Qed.

(** What the loop ends with: the complete frames [ps1] were delivered. *)
Definition loop_result (ps : list P) (rest : list Z) (s : S) (r : option (DataBuffer * StreamingContext P * S)) : Prop :=
  exists ps1 ps2 qs x' b' ctx' s', ps = ps1 ++ ps2 /\ Forall2 delivered ps1 qs /\
    r = Some (b', ctx', s') /\ deliver_all s (inl <$> qs) = Some s' /\ x' ++ rest = concat (frame <$> ps2) /\
    pending ctx' b' x' /\ short x' ps2.

Lemma read_loop_ok ps fuel x rest ctx b s :
  Forall frame_ok ps -> pending ctx b x -> x ++ rest = concat (frame <$> ps) ->
  Z.of_nat (length x) <= 2 ^ 23 -> (rounds ctx b < fuel)%nat ->
  loop_result ps rest s (@read_loop P Rcv true createPacket S deliver fuel b ctx s).
Proof using deliver_ok.
  revert fuel x ctx b s. induction ps as [|p ps IH]; intros fuel x ctx b s Hok Hp E Hl Hf;
    (destruct fuel as [|fuel]; [lia|]); cbn [read_loop].
  - apply app_nil in E as [-> ->]. destruct (processData_empty ctx b Hp) as (b' & ctx' & -> & Hp' & Hc).
    cbn [mbind option_bind negb]. rewrite Hc. cbn [negb]. exists [], [], [], [], b', ctx', s.
    split_and!; done || constructor.
  - apply Forall_cons in Hok as [Hfo Hok]. cbn [fmap list_fmap concat] in E.
    apply split_first in E as [(y & -> & E)|(z & E & Hz & <-)].
    + pose proof (rounds_complete _ _ _ _ Hp) as Hr1.
      destruct (processData_complete p ctx b y Hfo Hp Hl) as (q & b1 & ctx1 & -> & Hr & Hc & Hpk & Hq).
      cbn [mbind option_bind negb]. rewrite Hc. cbn [negb stealPacket]. rewrite Hpk. cbn [mbind option_bind].
      destruct (deliver_ok s q) as [s1 Hs1]. rewrite Hs1. cbn [mbind option_bind].
      rewrite length_app in Hl.
      destruct (IH fuel y (reset ctx1) b1 s1) as (ps1 & ps2 & qs & x' & b' & ctx' & s' & -> & HF & Hrl & Hd & Hrest);
        [done|by apply pending_none|done|lia|unfold rounds; rewrite (rep_getDataLen _ _ Hr); simpl; lia|].
      exists (p :: ps1), ps2, (q :: qs), x', b', ctx', s'. split; [done|]. split; [by constructor|].
      split; [exact Hrl|]. split; [|done]. cbn [fmap list_fmap deliver_all]. by rewrite Hs1.
    + destruct (processData_partial p ctx b x z Hfo Hp) as (b' & ctx' & -> & Hp' & Hc); [done..|].
      cbn [mbind option_bind negb]. rewrite Hc. cbn [negb].
      exists [], (p :: ps), [], x, b', ctx', s. split_and!; try done; [by rewrite fmap_cons; cbn [concat]; rewrite E, <- app_assoc|].
      cbn [short]. rewrite E, length_app. destruct z; [done|simpl; lia].
Qed.

Lemma frames_bytes ps : Forall frame_ok ps -> Forall is_byte (concat (frame <$> ps)).
Proof.
  induction 1 as [|p ps (Hs & _) _ IH]; [constructor|]. rewrite fmap_cons. cbn [concat].
  apply Forall_app; split; [|done].
  apply Forall_app; split; [apply header_bytes_is_byte|by apply wire_bytes].
Qed.

(** Receiving the bytes [c] extends what is pending. *)
Lemma pending_receive ctx b x c bufSize :
  pending ctx b x -> Forall is_byte c -> Z.of_nat (length x) <= 2 ^ 22 ->
  0 < Z.of_nat (length c) <= bufSize -> bufSize <= 2 ^ 22 ->
  exists b1 b2 b3, expand b bufSize = Some b1 /\ recvFree b1 c = Some b2 /\
    pourData b2 (Z.of_nat (length c)) = Some b3 /\ pending ctx b3 (x ++ c).
Proof.
  intros Hp Hbytes Hl Hc Hb.
  assert (Hstep : exists d, rep b d /\ (length d <= length x)%nat /\
            forall b', rep b' (d ++ c) -> pending ctx b' (x ++ c)).
  { destruct Hp as [-> Hr|h y -> Hh Hd -> Hr]; eexists; split_and!; try exact Hr.
    - lia.
    - intros b' Hr'. by apply pending_none.
    - rewrite length_app. lia.
    - intros b' Hr'. rewrite <- app_assoc. by eapply pending_header. }
  destruct Hstep as (d & Hr & Hdl & Hpend).
  destruct (rep_expand b d bufSize Hr) as (b1 & -> & R1 & Hroom); [lia|unfold FRAME_MAX; lia|].
  destruct (rep_recv b1 d c R1 Hbytes) as (b2 & b3 & ? & ? & R3); [lia|]. exists b1, b2, b3. eauto.
Qed.

Lemma pending_rounds ctx b x : pending ctx b x -> (rounds ctx b < Z.to_nat (getDataLen b) + 2)%nat.
Proof. unfold rounds. intros _. destruct (_packet ctx); lia. Qed.

Lemma read_round_ok bufSize ps c x rest ctx b s :
  Forall frame_ok ps -> pending ctx b x -> (x ++ c) ++ rest = concat (frame <$> ps) ->
  short x ps -> 0 < Z.of_nat (length c) <= bufSize -> bufSize <= 2 ^ 22 ->
  loop_result ps rest s (@read_round P Rcv true createPacket S deliver bufSize c b ctx s).
Proof using deliver_ok.
  intros Hok Hp E Hl%short_length Hc Hb; [|done]. unfold read_round, ensureFree.
  assert (Hbytes : Forall is_byte c).
  { pose proof (frames_bytes ps Hok) as Ha. rewrite <- E in Ha. by apply Forall_app in Ha as [[_ Ha]%Forall_app _]. }
  destruct (pending_receive ctx b x c bufSize Hp Hbytes Hl Hc Hb) as (b1 & b2 & b3 & -> & E2 & E3 & Hp3).
  cbn [mbind option_bind]. rewrite E2. cbn [mbind option_bind].
  rewrite (proj2 (Z.eqb_neq _ _)) by lia. rewrite E3. cbn [mbind option_bind].
  eapply read_loop_ok; [done|exact Hp3|done|rewrite length_app; lia|].
  pose proof (pending_rounds _ _ _ Hp3). lia.
Qed.

(** The rounds of one or more calls of [readData], with the pieces the
    socket returned. *)
Fixpoint read_rounds (bufSize : Z) (chunks : list (list Z)) (b : DataBuffer) (ctx : StreamingContext P) (s : S)
  : option (DataBuffer * StreamingContext P * S) :=
  match chunks with
  | [] => Some (b, ctx, s)
  | c :: chunks =>
      '(b, ctx, s) ← @read_round P Rcv true createPacket S deliver bufSize c b ctx s;
      read_rounds bufSize chunks b ctx s
  end.

Lemma read_rounds_ok bufSize ps chunks x ctx b s :
  Forall frame_ok ps -> pending ctx b x -> x ++ concat chunks = concat (frame <$> ps) ->
  short x ps -> Forall (fun c => 0 < Z.of_nat (length c) <= bufSize) chunks -> bufSize <= 2 ^ 22 ->
  loop_result ps [] s (read_rounds bufSize chunks b ctx s).
Proof using deliver_ok.
  intros Hok Hp E Hl Hc Hb. revert ps x ctx b s Hok Hp E Hl. induction Hc as [|c chunks Hc _ IH]; intros ps x ctx b s Hok Hp E Hl.
  - exists [], ps, [], x, b, ctx, s. split_and!; done || constructor.
  - cbn [concat read_rounds] in *. rewrite app_assoc in E.
    destruct (read_round_ok bufSize ps c x (concat chunks) ctx b s Hok Hp E Hl Hc Hb)
      as (ps1 & ps2 & qs & x' & b' & ctx' & s' & -> & HF & -> & Hd & Ex & Hp' & Hl'). cbn [mbind option_bind].
    apply Forall_app in Hok as [Hok1 Hok2].
    destruct (IH ps2 x' ctx' b' s' Hok2 Hp' Ex Hl') as (ps3 & ps4 & qs2 & x2 & b2 & ctx2 & s2 & -> & HF2 & -> & Hd2 & Hrest).
    exists (ps1 ++ ps3), ps4, (qs ++ qs2), x2, b2, ctx2, s2. split; [by rewrite app_assoc|].
    split; [by apply Forall2_app|]. split; [done|]. split; [|done].
    by rewrite fmap_app, deliver_all_app, Hd.
Qed.

End Codec.
