(* ===== verification/DefaultPacket.v ===== *)
(** * DefaultPacket (src/agent_engine/network/anet/defaultpacket.cpp)

    A packet whose body is a byte string in one [malloc]ed block of
    [_capacity] bytes, of which the first [_bodyLength] are the body.  The
    block is a list of cells, as in [DataBuffer]; [Freed] is the state of a
    pointer whose block was given back. *)

From S2P Require Import Prelude DataBuffer Packet Streamer.

Inductive body_ptr := BNull | BBlock (m : list cell) | BFreed.

Record DefaultPacket := mkDefaultPacket {
  dp_base : Packet;
  _body : body_ptr;
  _bodyLength : Z;    (* size_t *)
  _capacity : Z       (* size_t *)
}.

Definition DefaultPacket_new : DefaultPacket := mkDefaultPacket Packet_new BNull 0 0.

Definition with_body (p : DefaultPacket) (b : body_ptr) (len cap : Z) : DefaultPacket :=
  mkDefaultPacket (dp_base p) b len cap.

(** [::free(_body)], which has no defined result on a freed block. *)
Definition body_free (b : body_ptr) : option () :=
  match b with BFreed => None | _ => Some () end.

Section Alloc.

(** Whether an allocation of a size succeeds. *)
Context (alloc_ok : Z -> bool).

(** [realloc(_body, n)]: the old pointer afterwards, and the result.  A block
    resized to 0 bytes is freed and the result is null. *)
Definition body_realloc (b : body_ptr) (n : Z) : option (body_ptr * option (list cell)) :=
  match b with
  | BFreed => None
  | BNull => if alloc_ok n then Some (b, Some (malloc n)) else Some (b, None)
  | BBlock m =>
      if n =? 0 then Some (BFreed, None)
      else if alloc_ok n then Some (b, Some (take (Z.to_nat n) (m ++ malloc n)))
      else Some (b, None)
  end.

Definition setCapacity (p : DefaultPacket) (capacity : Z) : option (bool * DefaultPacket) :=
  if capacity <? _bodyLength p then Some (false, p)
  else if capacity =? _capacity p then Some (true, p)
  else
    '(old, tmp) ← body_realloc (_body p) capacity;
    match tmp with
    | None => Some (false, with_body p old (_bodyLength p) (_capacity p))
    | Some m => Some (true, with_body p (BBlock m) (_bodyLength p) capacity)
    end.

(** [str] is null or points to the bytes [l]; [length] bytes are appended. *)
Definition appendBody (p : DefaultPacket) (str : option (list Z)) (length : Z)
  : option (bool * DefaultPacket) :=
  match str with
  | None => Some (false, p)
  | Some l =>
      if length =? 0 then Some (false, p)
      else
        '(ok, p) ←
          (if u64 (_capacity p - _bodyLength p) <? length then
             let tmpSize := if length <=? u64 (u64 (_capacity p * 2) - _bodyLength p)
                            then u64 (_capacity p * 2)
                            else u64 (u64 (length * 2) + _bodyLength p) in
             setCapacity p tmpSize
           else Some (true, p));
        if negb ok then Some (false, p)
        else
          match _body p with
          | BBlock m =>
              src ← mem_read (Some <$> l) 0 length;
              m ← mem_write m (_bodyLength p) src;
              Some (true, with_body p (BBlock m) (u64 (_bodyLength p + length)) (_capacity p))
          | _ => None
          end
  end.

Definition setBody (p : DefaultPacket) (str : option (list Z)) (length : Z)
  : option (bool * DefaultPacket) :=
  if length =? 0 then
    _ ← body_free (_body p);
    Some (true, with_body p BNull 0 0)
  else
    let oriLen := _bodyLength p in
    '(ok, p) ← appendBody (with_body p (_body p) 0 (_capacity p)) str length;
    if ok : bool then Some (true, p)
    else Some (false, with_body p (_body p) oriLen (_capacity p)).

(** [getBody(length)]: the bytes of the body. *)
Definition getBody (p : DefaultPacket) : option (list Z) :=
  match _body p with
  | BNull => if _bodyLength p =? 0 then Some [] else None
  | BBlock m => mem_bytes m 0 (_bodyLength p)
  | BFreed => None
  end.

Definition getBodyLen (p : DefaultPacket) : Z := _bodyLength p.
Definition getCapacity (p : DefaultPacket) : Z := _capacity p.

(** [writeBytes(_body, _bodyLength)]; the length is an [int] there. *)
Definition DefaultPacket_encode (p : DefaultPacket) (output : DataBuffer)
  : option (bool * DefaultPacket * DataBuffer) :=
  if 0 <? _bodyLength p then
    src ← getBody p;
    output ← writeBytes output src (i32 (_bodyLength p));
    Some (true, p, output)
  else Some (true, p, output).

(** The body is copied from the [header->_dataLen] bytes at [getData()]. *)
Definition DefaultPacket_decode (p : DefaultPacket) (input : DataBuffer)
  : option (bool * DefaultPacket * DataBuffer) :=
  let len := _dataLen (_packetHeader (dp_base p)) in
  _ ← assertb (len <=? getDataLen input);
  src ← (if 0 <=? len then peekBytes input len else Some []);
  '(rc, p) ← setBody p (Some src) (u64 len);
  Some (rc, p, drainData input len).

#[global] Instance DefaultPacket_IPacket : IPacket DefaultPacket := {
  base := dp_base;
  upd_base f p := mkDefaultPacket (f (dp_base p)) (_body p) (_bodyLength p) (_capacity p);
  encode := DefaultPacket_encode;
  decode := DefaultPacket_decode;
  isRegularPacket _ := true;
  getPriority _ := ANET_PRIORITY_NORMAL;
  setPriority _ p := Some p;
  setChannelId chid p :=
    Some (mkDefaultPacket (Packet_setChannelId chid (dp_base p)) (_body p) (_bodyLength p) (_capacity p));
  getChannelId p := Packet_getChannelId (dp_base p);
  cleanupFlags p := p;
  getPacketVersion _ := 0;
  setPacketVersion _ p := p
}.

End Alloc.

(** [DefaultPacketFactory::createPacket] *)
Definition DefaultPacketFactory_createPacket (pcode : Z) : DefaultPacket := DefaultPacket_new.

(** ** The body as a byte string *)

(** [p] holds the body [l]. *)
Record body_rep (p : DefaultPacket) (l : list Z) : Prop := {
  brep_len : _bodyLength p = Z.of_nat (length l);
  brep_le : _bodyLength p <= _capacity p < 2 ^ 62;
  brep_bytes : Forall is_byte l;
  brep_block : match _body p with
               | BNull => _capacity p = 0
               | BBlock m => Z.of_nat (length m) = _capacity p /\ take (length l) m = Some <$> l
               | BFreed => False
               end
}.

Section Body.

Context (alloc_ok : Z -> bool).

(** An allocator serves no request beyond the address space. *)
Context (alloc_limit : forall n, alloc_ok n = true -> n < 2 ^ 62).

Implicit Types (p : DefaultPacket) (l s : list Z).

Lemma mem_read_all (m : list cell) : mem_read m 0 (Z.of_nat (length m)) = Some m.
Proof. rewrite <- (app_nil_r m) at 1. by apply (mem_read_mid [] m []). Qed.

Lemma body_rep_new : body_rep DefaultPacket_new [].
Proof. split; simpl; [done|lia|constructor|done]. Qed.

Lemma body_rep_getBody p l : body_rep p l -> getBody p = Some l.
Proof.
  intros [Hl Hc Hb Hm]. unfold getBody. destruct (_body p) as [|m|]; [| |done].
  - rewrite Hm in Hc. destruct l; simpl in *; [by rewrite Hl|lia].
  - destruct Hm as [Hm Ht]. rewrite Hl, <- (take_drop (length l) m), Ht.
    by apply (mem_bytes_mid [] l).
Qed.

Lemma setCapacity_ok p l n :
  body_rep p l -> 0 < n < 2 ^ 64 ->
  exists ok p', setCapacity alloc_ok p n = Some (ok, p') /\ body_rep p' l /\ dp_base p' = dp_base p /\
    (ok = true -> n = _capacity p') /\
    (ok = false -> p' = p /\ (n < _bodyLength p \/ alloc_ok n = false)).
Proof using alloc_limit.
  intros H Hn. pose proof H as [Hl Hc Hb Hm]. unfold setCapacity, body_realloc.
  case_bool; [exists false, p; split_and!; eauto; done|].
  case_bool; [subst n; by exists true, p|].
  assert (Hkeep : with_body p (_body p) (_bodyLength p) (_capacity p) = p) by (by destruct p).
  assert (Hmk : forall m, Z.of_nat (length m) = n -> take (length l) m = Some <$> l -> n < 2 ^ 62 ->
            body_rep (with_body p (BBlock m) (_bodyLength p) n) l).
  { intros m Hlm Ht Hlt. split; simpl; [done|lia|done|done]. }
  assert (Hlen : length (malloc n) = Z.to_nat n) by apply length_replicate.
  destruct (_body p) as [|m|] eqn:E; [| |done].
  - destruct (alloc_ok n) eqn:Ea; cbn [mbind option_bind].
    + apply alloc_limit in Ea. assert (l = []) as -> by (destruct l; [done|simpl in *; lia]).
      eexists true, _. split_and!; [done|apply Hmk; [lia|done|lia]|done|done|done].
    + exists false, p. rewrite Hkeep. split_and!; eauto; done.
  - rewrite (proj2 (Z.eqb_neq _ _)) by lia. destruct Hm as [Hm Ht].
    destruct (alloc_ok n) eqn:Ea; cbn [mbind option_bind].
    + apply alloc_limit in Ea. eexists true, _. split_and!; [done| |done|done|done].
      apply Hmk; [rewrite length_take, length_app; lia| |lia].
      rewrite take_take, Nat.min_l by lia. rewrite take_app_le by lia. done.
    + exists false, p. rewrite Hkeep. split_and!; eauto; done.
Qed.

(** The allocator refused a request of at most [n] bytes. *)
Definition refused (n : Z) : Prop := exists m, 0 <= m <= n /\ alloc_ok m = false.

(** Appending: the body grows by the bytes, or the packet is unchanged. *)
Lemma appendBody_ok p l s :
  body_rep p l -> s <> [] -> Forall is_byte s -> Z.of_nat (length s) < 2 ^ 62 ->
  exists ok p', appendBody alloc_ok p (Some s) (Z.of_nat (length s)) = Some (ok, p') /\
    dp_base p' = dp_base p /\ body_rep p' (if ok : bool then l ++ s else l) /\
    (ok = false -> p' = p /\ refused (2 * _capacity p + 2 * Z.of_nat (length s) + _bodyLength p)).
Proof using alloc_limit.
  intros H Hs Hbs Hls. pose proof H as [Hl Hc Hb Hm]. unfold appendBody.
  assert (0 < Z.of_nat (length s)) by (destruct s; [done|simpl; lia]).
  rewrite (proj2 (Z.eqb_neq _ _)) by lia.
  set (n := if _ <=? _ then _ else _).
  assert (Hgrow : exists ok q,
    (if u64 (_capacity p - _bodyLength p) <? Z.of_nat (length s)
     then setCapacity alloc_ok p n else Some (true, p)) = Some (ok, q) /\
    body_rep q l /\ dp_base q = dp_base p /\
    (ok = false -> q = p /\ refused (2 * _capacity p + 2 * Z.of_nat (length s) + _bodyLength p)) /\
    (ok = true -> _bodyLength p + Z.of_nat (length s) <= _capacity q)).
  { rewrite (wrapu_small 64 (_capacity p - _bodyLength p)) by lia. case_bool.
    - assert (Hn : _bodyLength p + Z.of_nat (length s) <= n < 2 ^ 64).
      { unfold n. rewrite !wrapu_small by (repeat rewrite wrapu_small by lia; lia). case_bool; lia. }
      destruct (setCapacity_ok p l n H) as (ok & q & -> & Hq & Hbq & Ht & Hf); [lia|].
      exists ok, q. split_and!; [done..| |intros ->; rewrite <- (Ht eq_refl); lia].
      intros ->. destruct (Hf eq_refl) as [-> [?|?]]; [lia|]. split; [done|]. exists n. split; [|done].
      unfold n in *. rewrite !wrapu_small in * by (repeat rewrite wrapu_small by lia; lia). case_bool; lia.
    - exists true, p. split_and!; [done..|]. intros _. lia. }
  destruct Hgrow as (ok & q & -> & Hq & Hbq & Hf & Ht). cbn [mbind option_bind].
  destruct ok; cbn [negb]; [|by exists false, q].
  specialize (Ht eq_refl). destruct Hq as [Hl' Hc' _ Hm']. destruct (_body q) as [|m|] eqn:E; [lia| |done].
  destruct Hm' as [Hm' Htk]. pose proof (mem_read_all (Some <$> s)) as Er. rewrite length_fmap in Er.
  rewrite Er. cbn [mbind option_bind].
  rewrite <- (take_drop (length l) m), Htk, <- (take_drop (length s) (drop (length l) m)).
  rewrite mem_write_mid by (rewrite ?length_take, ?length_drop, ?length_fmap; lia). cbn [mbind option_bind].
  eexists true, _. split_and!; [done|done| |done].
  split; simpl.
  - rewrite length_app, wrapu_small; lia.
  - rewrite wrapu_small; lia.
  - by apply Forall_app.
  - rewrite !length_app, !length_fmap, !length_drop. split; [lia|].
    rewrite app_assoc, fmap_app. apply take_app_length'. rewrite length_app, !length_fmap. lia.
Qed.

(** The bytes after the ones that are appended do not matter. *)
Lemma appendBody_prefix p s t :
  appendBody alloc_ok p (Some (s ++ t)) (Z.of_nat (length s)) = appendBody alloc_ok p (Some s) (Z.of_nat (length s)).
Proof.
  clear alloc_limit. unfold appendBody. case_bool; [done|].
  match goal with |- ?m ≫= _ = _ => destruct m as [[ok q]|]; [|done] end. cbn [mbind option_bind].
  destruct ok; [|done]. cbn [negb]. destruct (_body q) as [|m|]; [done| |done].
  pose proof (mem_read_prefix s []) as E0. rewrite app_nil_r in E0. by rewrite (mem_read_prefix s t), E0.
Qed.

(** A block at most twice the size of its body stays so. *)
Lemma setCapacity_true p n q :
  setCapacity alloc_ok p n = Some (true, q) -> _capacity q = n /\ _bodyLength q = _bodyLength p.
Proof.
  clear alloc_limit. unfold setCapacity. case_bool; [done|]. case_bool; [by intros [= <-]|].
  intros E. apply bind_Some_inv in E as ([old [m|]] & _ & [= <-]). done.
Qed.

Lemma appendBody_room p l s :
  body_rep p l -> s <> [] -> Forall is_byte s -> Z.of_nat (length l + length s) < 2 ^ 30 ->
  _capacity p <= 2 * _bodyLength p -> (forall n, 0 <= n < 2 ^ 40 -> alloc_ok n = true) ->
  exists p', appendBody alloc_ok p (Some s) (Z.of_nat (length s)) = Some (true, p') /\
    body_rep p' (l ++ s) /\ _capacity p' <= 2 * _bodyLength p'.
Proof using alloc_limit.
  intros H Hs Hbs Hls Hcap Hall.
  destruct (appendBody_ok p l s H Hs Hbs) as (ok & p' & E & _ & Hr & Hf); [lia|].
  destruct ok.
  2: { destruct (Hf eq_refl) as [_ (m & Hm & Hno)]. rewrite Hall in Hno; [done|].
       rewrite (brep_len _ _ H) in *. lia. }
  exists p'. split_and!; [done|done|]. pose proof (brep_len _ _ H). pose proof (brep_len _ _ Hr) as Hl'. rewrite length_app in Hl'.
  pose proof (brep_le _ _ H) as Hle. rewrite Hl'. unfold appendBody in E. revert E.
  assert (0 < Z.of_nat (length s)) by (destruct s; [done|cbn; lia]). rewrite (proj2 (Z.eqb_neq _ _)) by lia.
  rewrite !(wrapu_small 64) by (repeat rewrite wrapu_small by lia; lia). intros E.
  apply bind_Some_inv in E as ([ok q] & Eg & E). destruct ok; [|done]. cbn [negb] in E.
  assert (Hq : _capacity q <= 2 * (Z.of_nat (length l) + Z.of_nat (length s))).
  { revert Eg. case_bool; [|intros [= <-]; lia]. intros [-> _]%setCapacity_true. case_bool; lia. }
  destruct (_body q); [done| |done]. apply bind_Some_inv in E as (src & _ & E). apply bind_Some_inv in E as (m' & _ & [= <-]).
  cbn. lia.
Qed.

Lemma setBody_ok p l s :
  body_rep p l -> Forall is_byte s -> Z.of_nat (length s) < 2 ^ 62 ->
  exists ok p', setBody alloc_ok p (Some s) (Z.of_nat (length s)) = Some (ok, p') /\
    dp_base p' = dp_base p /\ body_rep p' (if ok : bool then s else l) /\
    (ok = false -> p' = p /\ refused (2 * _capacity p + 2 * Z.of_nat (length s))).
Proof using alloc_limit.
  intros H Hbs Hls. pose proof H as [Hl Hc Hb Hm]. unfold setBody.
  destruct s as [|z s].
  { cbn [length]. destruct (_body p) eqn:E; [| |done]; (eexists true, _; split_and!; [done|done| |done]);
      apply body_rep_new || (split; simpl; [done|lia|constructor|done]). }
  rewrite (proj2 (Z.eqb_neq _ _)) by (cbn [length]; lia).
  assert (H0 : body_rep (with_body p (_body p) 0 (_capacity p)) []).
  { split; simpl; [done|lia|constructor|]. destruct (_body p); [done| |done]. by destruct Hm. }
  destruct (appendBody_ok _ [] (z :: s) H0) as (ok & q & -> & Hbq & Hq & Hf); [done..|].
  cbn [mbind option_bind]. destruct ok; [by exists true, q|].
  destruct (Hf eq_refl) as [-> Hr]. eexists false, _. cbn in *. rewrite Z.add_0_r in Hr. by destruct p.
Qed.

Lemma DefaultPacket_Base : @IPacketBase DefaultPacket (DefaultPacket_IPacket alloc_ok).
Proof. split; [done..|]. intros f g p E. simpl in *. by rewrite E. Qed.

Definition dp_wire (p : DefaultPacket) : list Z := default [] (getBody p).

Definition dp_sendable (p : DefaultPacket) : Prop :=
  (exists l, body_rep p l) /\ - 2 ^ 31 <= _pcode (_packetHeader (dp_base p)) < 2 ^ 31.

Lemma dp_encode_ok p b d :
  dp_sendable p -> rep b d -> Z.of_nat (length d + length (dp_wire p)) <= FRAME_MAX ->
  exists b', DefaultPacket_encode p b = Some (true, p, b') /\ rep b' (d ++ dp_wire p).
Proof.
  intros [[l Hb] _] Hr Hl. unfold DefaultPacket_encode, dp_wire in *. rewrite (body_rep_getBody p l Hb) in *.
  cbn [default from_option id] in *. pose proof Hb as [Hlen _ Hby _]. unfold FRAME_MAX in Hl.
  rewrite Hlen. destruct l as [|x l]; cbn [length].
  - rewrite app_nil_r. eauto.
  - rewrite (proj2 (Z.ltb_lt _ _)) by lia. cbn [mbind option_bind].
    rewrite i32_small by (unfold INT_MIN, INT_MAX; cbn [length] in *; lia).
    destruct (rep_writeBytes b d (x :: l) Hr Hby) as (b' & E & R); [unfold FRAME_MAX; lia|].
    cbn [length] in E. rewrite E. cbn. eauto.
Qed.

(** Requests for at most twice a frame are served. *)
Context (alloc_frame : forall n, 0 <= n <= 2 * FRAME_MAX -> alloc_ok n = true).

Lemma dp_decode_ok h b (l rest : list Z) :
  _dataLen h = Z.of_nat (length l) -> rep b (l ++ rest) -> Z.of_nat (length l) <= FRAME_MAX ->
  exists q b', DefaultPacket_decode alloc_ok (@upd_base _ (DefaultPacket_IPacket alloc_ok) (setPacketHeader h) DefaultPacket_new) b
                 = Some (true, q, b') /\ rep b' rest /\ body_rep q l /\ _packetHeader (dp_base q) = h.
Proof using alloc_limit alloc_frame.
  intros Hd Hr Hl. unfold DefaultPacket_decode. cbn [upd_base DefaultPacket_IPacket dp_base setPacketHeader
    Packet_with_header _packetHeader]. rewrite Hd, (rep_getDataLen _ _ Hr), length_app.
  pose proof (rep_bytes _ _ Hr) as Hby. apply Forall_app in Hby as [Hby _].
  rewrite assertb_true by (apply Z.leb_le; lia). cbn [mbind option_bind].
  rewrite (proj2 (Z.leb_le _ _)) by lia.
  rewrite (rep_peekBytes _ _ _ Hr) by (rewrite length_app; lia). cbn [mbind option_bind].
  rewrite Nat2Z.id, take_app_length. unfold FRAME_MAX in *. rewrite wrapu_small by lia.
  set (q0 := mkDefaultPacket _ _ _ _).
  assert (H0 : body_rep q0 []) by (split; simpl; [done|lia|constructor|done]).
  destruct (setBody_ok q0 [] l H0 Hby) as (ok & q & -> & Hb & Hq & Hf); [lia|]. cbn [mbind option_bind].
  destruct ok; [|destruct (Hf eq_refl) as [_ (m & Hm & Hn)]; rewrite alloc_frame in Hn; [done|simpl in Hm; lia]].
  do 2 eexists. split_and!; [done| |done|by rewrite Hb].
  apply (rep_drainData _ _ (Z.of_nat (length l))) in Hr; [|lia]. by rewrite Nat2Z.id, drop_app_length in Hr.
Qed.

End Body.

(** ** The streamer's interface *)

Section Interface.

Context (alloc_s alloc_r : Z -> bool).   (* the two ends' allocators *)
Context (limit_r : forall n, alloc_r n = true -> n < 2 ^ 62).
Context (frame_r : forall n, 0 <= n <= 2 * FRAME_MAX -> alloc_r n = true).

Program Definition DefaultPacket_codec :
  PacketCodec DefaultPacket (DefaultPacket_IPacket alloc_s) (DefaultPacket_IPacket alloc_r)
              DefaultPacketFactory_createPacket := {|
  Content := list Z;
  content p := dp_wire p;
  sendable := dp_sendable;
  wire := dp_wire;
  sent_pcode p := _pcode (_packetHeader (dp_base p));
  accepts _ _ := True;
  send_base := DefaultPacket_Base alloc_s;
  recv_base := DefaultPacket_Base alloc_r
|}.
Next Obligation.
  intros p [[l Hb] _]. unfold dp_wire. rewrite (body_rep_getBody p l Hb). by destruct Hb.
Qed.
Next Obligation. by intros p [_ ?]. Qed.
Next Obligation.
  intros p b d Hs Hr Hl. destruct (dp_encode_ok p b d Hs Hr Hl) as (b' & E & R).
  exists p, b'. split_and!; [done..|]. symmetry. apply header_eta.
Qed.
Next Obligation.
  intros p h b rest [[l Hb] _] _ Hd Hr Hl. unfold dp_wire in *. rewrite (body_rep_getBody p l Hb) in *.
  destruct (dp_decode_ok alloc_r limit_r frame_r h b l rest Hd Hr Hl) as (q & b' & E & R & Hq & Hh).
  exists q, b'. cbn [base DefaultPacket_IPacket]. rewrite Hh. split_and!; try done.
  - by rewrite (body_rep_getBody q l Hq).
  - rewrite Hd. lia.
Qed.

End Interface.

(** ** Properties *)

(** A client's calls on the body. *)
Inductive body_op := SetBody (s : list Z) | AppendBody (s : list Z) | SetCapacity (n : Z).

Definition body_step (alloc_ok : Z -> bool) (op : body_op) (p : DefaultPacket) : option (bool * DefaultPacket) :=
  match op with
  | SetBody s => setBody alloc_ok p (Some s) (Z.of_nat (length s))
  | AppendBody s => appendBody alloc_ok p (Some s) (Z.of_nat (length s))
  | SetCapacity n => setCapacity alloc_ok p n
  end.

(** What a call means for the body when it succeeds. *)
Definition body_spec (op : body_op) (l : list Z) : list Z :=
  match op with
  | SetBody s => s
  | AppendBody s => l ++ s
  | SetCapacity _ => l
  end.

Definition body_op_ok (op : body_op) : Prop :=
  match op with
  | SetBody s | AppendBody s => Forall is_byte s /\ Z.of_nat (length s) < 2 ^ 62
  | SetCapacity n => 0 < n < 2 ^ 64
  end.

(** All or nothing.  Whatever requests the allocator refuses, every call
    of [setBody], [appendBody] and [setCapacity] (to a positive size) is
    memory safe and either reports success with the body set, appended to or
    kept, or reports failure and leaves the packet exactly as it was. *)
Theorem defaultpacket_body_all_or_nothing alloc_ok op p l :
  (forall n, alloc_ok n = true -> n < 2 ^ 62) -> body_rep p l -> body_op_ok op ->
  exists ok p', body_step alloc_ok op p = Some (ok, p') /\
    if ok : bool then getBody p' = Some (body_spec op l) /\ body_rep p' (body_spec op l)
    else p' = p.
Proof.
  intros Ha H Hop. destruct op as [s|s|n]; simpl in *.
  - destruct Hop as [Hb Hl]. destruct (setBody_ok alloc_ok Ha p l s H Hb Hl) as (ok & p' & E & _ & Hr & Hf).
    exists ok, p'. split; [done|]. destruct ok; [eauto using body_rep_getBody|by apply Hf].
  - destruct Hop as [Hb Hl]. destruct s as [|z s]; [by exists false, p|].
    destruct (appendBody_ok alloc_ok Ha p l (z :: s) H) as (ok & p' & E & _ & Hr & Hf); [done..|].
    exists ok, p'. split; [done|]. destruct ok; [eauto using body_rep_getBody|by apply Hf].
  - destruct (setCapacity_ok alloc_ok Ha p l n H Hop) as (ok & p' & E & Hr & _ & _ & Hf).
    exists ok, p'. split; [done|]. destruct ok; [eauto using body_rep_getBody|by apply Hf].
Qed.

(** An allocator with a limit of 64 bytes. *)
Definition alloc64 (n : Z) : bool := n <=? 64.

Lemma defaultpacket_body_all_or_nothing_witness :
  exists ok p', body_step alloc64 (AppendBody [104; 105]) DefaultPacket_new = Some (ok, p') /\
    if ok : bool then getBody p' = Some [104; 105] /\ body_rep p' [104; 105] else p' = DefaultPacket_new.
Proof.
  apply (defaultpacket_body_all_or_nothing alloc64 (AppendBody [104; 105]) DefaultPacket_new []).
  - intros n Hn. apply Z.leb_le in Hn. lia.
  - apply body_rep_new.
  - split; [repeat (constructor; [unfold is_byte; lia|]); constructor|vm_compute; reflexivity].
Defined.

(** Shrinking an empty body to nothing loses the block.
    [setCapacity(0)] on a packet with a reserved but empty body makes
    [realloc] free the block and return null, which the code takes for a
    failed allocation: it keeps the freed pointer and its capacity, and the
    next [appendBody] that fits the recorded capacity, or [setBody] to
    nothing, touches freed memory. *)
Theorem defaultpacket_setCapacity_zero_dangles alloc_ok n s :
  0 < n < 2 ^ 64 -> alloc_ok n = true -> s <> [] -> Z.of_nat (length s) <= n ->
  exists p p', setCapacity alloc_ok DefaultPacket_new n = Some (true, p) /\
    setCapacity alloc_ok p 0 = Some (false, p') /\ _body p' = BFreed /\
    appendBody alloc_ok p' (Some s) (Z.of_nat (length s)) = None /\ setBody alloc_ok p' None 0 = None.
Proof.
  intros Hn Ha Hs Hl. unfold setCapacity at 1, DefaultPacket_new. simpl.
  rewrite (proj2 (Z.ltb_ge _ _)), (proj2 (Z.eqb_neq _ _)), Ha by lia. cbn [mbind option_bind].
  do 2 eexists. split; [done|]. unfold setCapacity, with_body. cbn [_body _bodyLength _capacity].
  rewrite (proj2 (Z.ltb_ge _ _)), (proj2 (Z.eqb_neq _ _)) by lia. cbn. split; [done|]. split; [done|].
  split; [|done]. unfold appendBody. cbn [_body _bodyLength _capacity].
  assert (0 < Z.of_nat (length s)) by (destruct s; [done|simpl; lia]).
  rewrite (proj2 (Z.eqb_neq _ _)) by lia. rewrite Z.sub_0_r, wrapu_small by lia.
  rewrite (proj2 (Z.ltb_ge _ _)) by lia. done.
Qed.

Lemma defaultpacket_setCapacity_zero_dangles_witness :
  exists p p', setCapacity alloc64 DefaultPacket_new 16 = Some (true, p) /\
    setCapacity alloc64 p 0 = Some (false, p') /\ _body p' = BFreed /\
    appendBody alloc64 p' (Some [65]) 1 = None /\ setBody alloc64 p' None 0 = None.
Proof.
  apply (defaultpacket_setCapacity_zero_dangles alloc64 16 [65]); [lia|reflexivity|discriminate|simpl; lia].
Defined.
