(* ===== verification/HttpPacket.v ===== *)
(** * HTTPPacket (src/agent_engine/network/anet/httppacket.cpp)

    An HTTP request or response: the start line, the headers and, inherited
    from [DefaultPacket], the body.  The strings the class owns are the lists
    of their characters, [None] being the null pointer.  [_headers] is a
    [std::map] ordered by [strcasecmp], here the list of its entries in that
    order, which is the order [encodeHeaders] walks. *)

From S2P Require Import Prelude CString DataBuffer Packet Streamer DefaultPacket.
From Stdlib Require Import Sorted.

(** ** Data *)

Abbreviation cstr := (list Z).
Abbreviation HeadersType := (list (cstr * cstr)).

(** The enumerations; a variable of such a type may hold another integer. *)
Definition PT_REQUEST : Z := 0.
Definition PT_RESPONSE : Z := 1.
Definition PT_INVALID : Z := 2.

Definition HTTP_1_0 : Z := 0.
Definition HTTP_1_1 : Z := 1.
Definition HTTP_UNSUPPORTED : Z := 2.

Definition HM_OPTIONS : Z := 0.
Definition HM_HEAD : Z := 1.
Definition HM_GET : Z := 2.
Definition HM_POST : Z := 3.
Definition HM_PUT : Z := 4.
Definition HM_DELETE : Z := 5.
Definition HM_TRACE : Z := 6.
Definition HM_CONNECT : Z := 7.
Definition HM_UNSUPPORTED : Z := 8.

Record HTTPPacket := mkHTTPPacket {
  hp_base : DefaultPacket;
  _type : Z;
  _version : Z;
  _method : Z;
  _URI : option cstr;
  _statusCode : Z;
  _reasonPhrase : option cstr;
  _extendMethod : option cstr;
  _headers : HeadersType;
  _headerLen : Z;                  (* int64_t *)
  _addContentLengthHeader : bool
}.

Definition HTTPPacket_new : HTTPPacket :=
  mkHTTPPacket DefaultPacket_new PT_INVALID HTTP_1_1 HM_UNSUPPORTED None 0 None None [] 0 true.

(** ** The header map *)

(** [keyCompareCaseInsensive] *)
Definition keyCompareCaseInsensive (s1 s2 : cstr) : bool := strcasecmp s1 s2 <? 0.

Definition same_key (s1 s2 : cstr) : bool :=
  negb (keyCompareCaseInsensive s1 s2) && negb (keyCompareCaseInsensive s2 s1).

(** [find], [erase] and [insert] of the map; [insert] leaves an entry with
    the key alone. *)
Fixpoint map_find (k : cstr) (m : HeadersType) : option (cstr * cstr) :=
  match m with
  | [] => None
  | e :: m => if same_key k e.1 then Some e else map_find k m
  end.

Definition map_erase (k : cstr) (m : HeadersType) : HeadersType :=
  filter (fun e => same_key k e.1 = false) m.

Fixpoint map_insert (k v : cstr) (m : HeadersType) : HeadersType :=
  match m with
  | [] => [(k, v)]
  | e :: m' =>
      if keyCompareCaseInsensive k e.1 then (k, v) :: m
      else if keyCompareCaseInsensive e.1 k then e :: map_insert k v m'
      else m
  end.

(** ** Setters and getters *)

Section Fields.

Implicit Types (p : HTTPPacket).

Definition setPacketType (type : Z) p : HTTPPacket :=
  mkHTTPPacket (hp_base p) (if (type <? PT_REQUEST) || (PT_INVALID <=? type) then PT_INVALID else type)
    (_version p) (_method p) (_URI p) (_statusCode p) (_reasonPhrase p) (_extendMethod p) (_headers p)
    (_headerLen p) (_addContentLengthHeader p).

Definition getPacketType p : Z := _type p.

Definition setVersion (version : Z) p : HTTPPacket :=
  mkHTTPPacket (hp_base p) (_type p)
    (if (version <? HTTP_1_0) || (HTTP_UNSUPPORTED <=? version) then HTTP_UNSUPPORTED else version)
    (_method p) (_URI p) (_statusCode p) (_reasonPhrase p) (_extendMethod p) (_headers p)
    (_headerLen p) (_addContentLengthHeader p).

Definition getVersion p : Z := _version p.

Definition setMethod (method : Z) p : HTTPPacket :=
  setPacketType PT_REQUEST
    (mkHTTPPacket (hp_base p) (_type p) (_version p)
      (if (method <? HM_OPTIONS) || (HM_UNSUPPORTED <=? method) then HM_UNSUPPORTED else method)
      (_URI p) (_statusCode p) (_reasonPhrase p) (_extendMethod p) (_headers p)
      (_headerLen p) (_addContentLengthHeader p)).

Definition getMethod p : Z := _method p.

Definition with_extendMethod (m : option cstr) p : HTTPPacket :=
  mkHTTPPacket (hp_base p) (_type p) (_version p) (_method p) (_URI p) (_statusCode p) (_reasonPhrase p)
    m (_headers p) (_headerLen p) (_addContentLengthHeader p).

(** The overload of [setMethod] for a string. *)
Definition setMethodString (method : cstr) p : HTTPPacket :=
  if streq method (lit "GET") then setMethod HM_GET p
  else if streq method (lit "POST") then setMethod HM_POST p
  else if streq method (lit "HEAD") then setMethod HM_HEAD p
  else if streq method (lit "OPTIONS") then setMethod HM_OPTIONS p
  else if streq method (lit "PUT") then setMethod HM_PUT p
  else if streq method (lit "DELETE") then setMethod HM_DELETE p
  else if streq method (lit "TRACE") then setMethod HM_TRACE p
  else if streq method (lit "CONNECT") then setMethod HM_CONNECT p
  else with_extendMethod (Some method) (setMethod HM_UNSUPPORTED p).

Definition getMethodString p : option cstr :=
  if HM_GET =? getMethod p then Some (lit "GET")
  else if HM_POST =? getMethod p then Some (lit "POST")
  else if HM_HEAD =? getMethod p then Some (lit "HEAD")
  else if HM_OPTIONS =? getMethod p then Some (lit "OPTIONS")
  else if HM_PUT =? getMethod p then Some (lit "PUT")
  else if HM_DELETE =? getMethod p then Some (lit "DELETE")
  else if HM_TRACE =? getMethod p then Some (lit "TRACE")
  else if HM_CONNECT =? getMethod p then Some (lit "CONNECT")
  else _extendMethod p.

(** [strdupTrimed]: the inner option is the pointer, the outer one says that
    the function has a result.  [p1] and [p2] are indices of the string. *)
Definition strdupTrimed (str : cstr) (front end_ : bool) : option (option cstr) :=
  let oriLen := length str in
  if Nat.eqb oriLen 0 then Some None
  else
    let is_blank c := c =? 32 in
    let p1 := 0%nat in
    let p2 := (oriLen - 1)%nat in
    p1 ← (if front then scan (p2 - p1) (fun c => negb (is_blank c)) str p1 else Some p1);
    p2 ← (if end_ then pred <$> scan_back (p2 - p1) (fun c => negb (is_blank c)) str (S p2) else Some p2);
    c ← str !! p1;
    if Nat.eqb p1 p2 && is_blank c then Some None
    else Some (Some (take (p2 - p1 + 1) (drop p1 str))).

Definition toLowerCase (str : option cstr) (length : nat) : option cstr :=
  match str with
  | None => None
  | Some s => Some ((tolower <$> take length s) ++ drop length s)
  end.

Definition with_URI (u : option cstr) p : HTTPPacket :=
  mkHTTPPacket (hp_base p) (_type p) (_version p) (_method p) u (_statusCode p) (_reasonPhrase p)
    (_extendMethod p) (_headers p) (_headerLen p) (_addContentLengthHeader p).

Definition setURI (URI : option cstr) p : option HTTPPacket :=
  match URI with
  | None => Some (with_URI None p)
  | Some s => u ← strdupTrimed s true true; Some (with_URI u p)
  end.

Definition getURI p : option cstr := _URI p.

Definition with_headers (m : HeadersType) (len : Z) p : HTTPPacket :=
  mkHTTPPacket (hp_base p) (_type p) (_version p) (_method p) (_URI p) (_statusCode p) (_reasonPhrase p)
    (_extendMethod p) m len (_addContentLengthHeader p).

Definition strlen2 (k v : cstr) : Z := Z.of_nat (length k) + Z.of_nat (length v).

Definition removeHeader (key : option cstr) p : bool * HTTPPacket :=
  match key with
  | None => (false, p)
  | Some key =>
      let len := match map_find key (_headers p) with
                 | Some (oldKey, oldValue) => i64 (_headerLen p - strlen2 oldKey oldValue)
                 | None => _headerLen p
                 end in
      (true, with_headers (map_erase key (_headers p)) len p)
  end.

(** [addHeader(key, value)] of strings that are not the packet's own. *)
Definition addHeader (key value : option cstr) p : bool * HTTPPacket :=
  match key, value with
  | Some k, Some v =>
      let p := (removeHeader key p).2 in
      (true, with_headers (map_insert k v (_headers p)) (i64 (_headerLen p + strlen2 k v)) p)
  | _, _ => (false, p)
  end.

Definition getHeader (key : option cstr) p : option cstr :=
  match key with
  | None => None
  | Some key => snd <$> map_find key (_headers p)
  end.

Definition with_reason (r : option cstr) p : HTTPPacket :=
  mkHTTPPacket (hp_base p) (_type p) (_version p) (_method p) (_URI p) (_statusCode p) r
    (_extendMethod p) (_headers p) (_headerLen p) (_addContentLengthHeader p).

Definition setReasonPhrase (reasonPhrase : option cstr) p : option HTTPPacket :=
  match reasonPhrase with
  | None => Some (with_reason None p)
  | Some s => r ← strdupTrimed s true false; Some (with_reason r p)
  end.

Definition getReasonPhrase p : cstr :=
  match _reasonPhrase p with
  | Some r => r
  | None =>
      if _statusCode p =? 200 then lit "OK"
      else if _statusCode p =? 404 then lit "NOT FOUND"
      else lit "UNKNOWN"
  end.

Definition setStatusCode (statusCode : Z) p : HTTPPacket :=
  setPacketType PT_RESPONSE
    (mkHTTPPacket (hp_base p) (_type p) (_version p) (_method p) (_URI p)
      (if (statusCode <? 100) || (600 <=? statusCode) then 0 else statusCode)
      (_reasonPhrase p) (_extendMethod p) (_headers p) (_headerLen p) (_addContentLengthHeader p)).

Definition getStatusCode p : Z := _statusCode p.

Definition CONNECTION_CLOSE : cstr := lit "close".
Definition CONNECTION_KEEP_ALIVE : cstr := lit "Keep-Alive".

Definition isKeepAlive p : bool :=
  let value := getHeader (Some (lit "Connection")) p in
  if HTTP_1_0 =? getVersion p then
    match value with Some v => streq CONNECTION_KEEP_ALIVE v | None => false end
  else
    match value with Some v => negb (streq CONNECTION_CLOSE v) | None => true end.

Definition setKeepAlive (keepAlive : bool) p : HTTPPacket :=
  if Bool.eqb (isKeepAlive p) keepAlive then p
  else if HTTP_1_0 =? getVersion p then
    if keepAlive then (addHeader (Some (lit "Connection")) (Some CONNECTION_KEEP_ALIVE) p).2
    else (removeHeader (Some (lit "Connection")) p).2
  else
    if keepAlive then (removeHeader (Some (lit "Connection")) p).2
    else (addHeader (Some (lit "Connection")) (Some CONNECTION_CLOSE) p).2.

Definition disableContentLengthHeader p : HTTPPacket :=
  mkHTTPPacket (hp_base p) (_type p) (_version p) (_method p) (_URI p) (_statusCode p) (_reasonPhrase p)
    (_extendMethod p) (_headers p) (_headerLen p) false.

Definition with_base (d : DefaultPacket) p : HTTPPacket :=
  mkHTTPPacket d (_type p) (_version p) (_method p) (_URI p) (_statusCode p) (_reasonPhrase p)
    (_extendMethod p) (_headers p) (_headerLen p) (_addContentLengthHeader p).

(** [getSpaceUsed]; [size] is [sizeof(HTTPPacket)]. *)
Definition http_getSpaceUsed (size : Z) p : Z :=
  i64 (_headerLen p + size + getBodyLen (hp_base p)).

End Fields.

(** ** Encoding *)

Section Encode.

Implicit Types (p : HTTPPacket) (output : DataBuffer).

(** [output->writeBytes(s, strlen(s))] *)
Definition writeStr output (s : cstr) : option DataBuffer :=
  writeBytes output s (i32 (Z.of_nat (length s))).

Definition CRLF : list Z := [13; 10].

Definition encodeStartLine p output : option (bool * DataBuffer) :=
  if PT_REQUEST =? getPacketType p then
    match getMethodString p, getURI p with
    | Some methodStr, Some uri =>
        output ← writeStr output methodStr;
        output ← writeBytes output (lit " ") 1;
        output ← writeStr output uri;
        output ← writeBytes output (lit " ") 1;
        output ← (if HTTP_1_0 =? getVersion p then writeBytes output (lit "HTTP/1.0") 8
                  else writeBytes output (lit "HTTP/1.1") 8);
        output ← writeBytes output (CRLF ++ lit " ") 2;
        Some (true, output)
    | _, _ => Some (false, output)
    end
  else
    let statusCode := getStatusCode p in
    if 0 =? statusCode then Some (false, output)
    else
      output ← (if HTTP_1_0 =? getVersion p then writeBytes output (lit "HTTP/1.0") 8
                else writeBytes output (lit "HTTP/1.1") 8);
      output ← writeBytes output (lit " ") 1;
      let codeStr := print_dec statusCode in
      output ← writeBytes output codeStr 3;
      output ← writeBytes output (lit " ") 1;
      output ← writeStr output (getReasonPhrase p);
      output ← writeBytes output CRLF 2;
      Some (true, output).

Fixpoint encode_header_lines (m : HeadersType) output : option DataBuffer :=
  match m with
  | [] => Some output
  | (key, value) :: m =>
      output ← writeStr output key;
      output ← writeBytes output (lit ": ") 2;
      output ← writeStr output value;
      output ← writeBytes output CRLF 2;
      encode_header_lines m output
  end.

Definition encodeHeaders p output : option (bool * DataBuffer) :=
  output ← encode_header_lines (_headers p) output;
  output ←
    (if _addContentLengthHeader p && negb (bool_decide (is_Some (getHeader (Some (lit "Content-Length")) p))) then
       writeStr output (lit "Content-Length: " ++ print_dec (_bodyLength (hp_base p)) ++ CRLF)
     else Some output);
  output ← writeBytes output CRLF 2;
  Some (true, output).

Definition encodeBody p output : option (bool * DataBuffer) :=
  if 0 <? _bodyLength (hp_base p) then
    src ← getBody (hp_base p);
    output ← writeBytes output src (i32 (_bodyLength (hp_base p)));
    Some (true, output)
  else Some (true, output).

Definition HTTPPacket_encode p output : option (bool * HTTPPacket * DataBuffer) :=
  '(ok, output) ← encodeStartLine p output;
  if negb ok then Some (false, p, output)
  else
    '(ok, output) ← encodeHeaders p output;
    if negb ok then Some (false, p, output)
    else '(ok, output) ← encodeBody p output; Some (ok, p, output).

End Encode.

#[global] Instance HTTPPacket_IPacket : IPacket HTTPPacket := {
  base p := dp_base (hp_base p);
  upd_base f p :=
    let d := hp_base p in with_base (mkDefaultPacket (f (dp_base d)) (_body d) (_bodyLength d) (_capacity d)) p;
  encode := HTTPPacket_encode;
  decode p input := Some (false, p, input);
  isRegularPacket _ := true;
  getPriority _ := ANET_PRIORITY_NORMAL;
  setPriority _ p := Some p;
  setChannelId chid p :=
    let d := hp_base p in
    Some (with_base (mkDefaultPacket (Packet_setChannelId chid (dp_base d)) (_body d) (_bodyLength d) (_capacity d)) p);
  getChannelId p := Packet_getChannelId (dp_base (hp_base p));
  cleanupFlags p := p;
  getPacketVersion _ := 0;
  setPacketVersion _ p := p
}.

(** [HTTPPacketFactory::createPacket] *)
Definition HTTPPacketFactory_createPacket (pcode : Z) : HTTPPacket := HTTPPacket_new.

(** ** The headers as a case-insensitive map

    [hview m] forgets the spelling of the keys and the order.  On it the
    operations of the class are those of a finite map. *)

Definition entry_ok (e : cstr * cstr) : Prop := Forall is_char e.1 /\ Forall is_char e.2.

Definition key_lt (e f : cstr * cstr) : Prop := strcasecmp e.1 f.1 < 0.

Record headers_ok (m : HeadersType) : Prop := {
  headers_entries : Forall entry_ok m;
  headers_sorted : StronglySorted key_lt m
}.

Definition hview (m : HeadersType) : gmap (list Z) cstr :=
  list_to_map ((fun e => (fold_case e.1, e.2)) <$> m).

Fixpoint headers_size (m : HeadersType) : Z :=
  match m with [] => 0 | e :: m => strlen2 e.1 e.2 + headers_size m end.

Section Headers.

Implicit Types (m : HeadersType) (k v : cstr) (e : cstr * cstr) (p : HTTPPacket).

Lemma hview_cons e m : hview (e :: m) = <[fold_case e.1 := e.2]> (hview m).
Proof. done. Qed.

Lemma same_key_fold k k' :
  Forall is_char k -> Forall is_char k' -> same_key k k' = bool_decide (fold_case k = fold_case k').
Proof.
  intros Hk Hk'. pose proof (strcasecmp_eq k k' Hk Hk') as He. pose proof (strcasecmp_opp k k').
  unfold same_key, keyCompareCaseInsensive.
  case_bool_decide as Hd; rewrite <- He in Hd.
  - by rewrite !(proj2 (Z.ltb_ge _ _)) by lia.
  - apply andb_false_iff. destruct (Z.ltb_spec (strcasecmp k k') 0); [by left|].
    right. by rewrite (proj2 (Z.ltb_lt _ _)) by lia.
Qed.

Lemma map_find_view k m :
  Forall is_char k -> Forall entry_ok m -> snd <$> map_find k m = hview m !! fold_case k.
Proof.
  intros Hk. induction 1 as [|e m [He _] Hm IH]; [done|]. rewrite hview_cons. cbn [map_find].
  rewrite same_key_fold by done. case_bool_decide as E.
  - rewrite E. by rewrite lookup_insert_eq.
  - by rewrite lookup_insert_ne by done.
Qed.

Lemma map_erase_view k m :
  Forall is_char k -> Forall entry_ok m -> hview (map_erase k m) = delete (fold_case k) (hview m).
Proof.
  intros Hk. induction 1 as [|e m [He _] Hm IH]; [done|]. unfold map_erase in *.
  rewrite filter_cons, hview_cons, same_key_fold by done. case_bool_decide as E.
  - rewrite decide_False by done. by rewrite IH, E, delete_insert_eq.
  - rewrite decide_True by done. by rewrite hview_cons, IH, delete_insert_ne.
Qed.

Lemma map_insert_in k v m e : e ∈ map_insert k v m -> e = (k, v) \/ e ∈ m.
Proof.
  induction m as [|f m IH]; cbn; [set_solver|]. repeat case_match; set_solver.
Qed.

Lemma map_insert_absent k v m :
  Forall is_char k -> Forall entry_ok m -> hview m !! fold_case k = None ->
  hview (map_insert k v m) = <[fold_case k := v]> (hview m) /\
  headers_size (map_insert k v m) = strlen2 k v + headers_size m.
Proof.
  intros Hk. induction 1 as [|e m [He _] Hm IH]; intros Hn; [done|].
  rewrite hview_cons, lookup_insert_None in Hn. destruct Hn as [Hn Hne].
  pose proof (strcasecmp_eq k e.1 Hk He) as Heq. pose proof (strcasecmp_opp k e.1).
  cbn [map_insert]. unfold keyCompareCaseInsensive.
  destruct (Z.ltb_spec (strcasecmp k e.1) 0); [done|]. destruct (Z.ltb_spec (strcasecmp e.1 k) 0).
  - rewrite !hview_cons. destruct (IH Hn) as [-> E]. cbn [headers_size]. rewrite E.
    split; [by rewrite insert_insert_ne|lia].
  - exfalso. apply Hne. symmetry. apply Heq. lia.
Qed.

Lemma map_insert_ok k v m :
  Forall is_char k -> Forall is_char v -> headers_ok m -> headers_ok (map_insert k v m).
Proof.
  intros Hk Hv [He Hs]. split.
  - rewrite Forall_forall in *. intros e [->|]%map_insert_in; auto. by split.
  - induction Hs as [|e m Hs IH Hlt]; cbn; [by repeat constructor|].
    apply Forall_cons in He as [[He1 He2] He]. unfold keyCompareCaseInsensive. repeat case_bool.
    + constructor; [by constructor|]. constructor; [done|].
      rewrite Forall_forall in *. intros f Hf. unfold key_lt in *. apply (strcasecmp_trans k e.1 f.1); try done.
      * by apply He.
      * specialize (Hlt f Hf). lia.
    + constructor; [by apply IH|]. rewrite Forall_forall in *. intros f [->|]%map_insert_in; [done|by apply Hlt].
    + by constructor.
Qed.

Lemma map_erase_ok k m : headers_ok m -> headers_ok (map_erase k m).
Proof.
  intros [He Hs]. split.
  - rewrite Forall_forall in *. intros e [_ ?]%list_elem_of_filter. auto.
  - unfold map_erase. induction Hs as [|e m Hs IH Hlt]; [constructor|]. apply Forall_cons in He as [_ He].
    rewrite filter_cons. case_decide; [|by apply IH]. constructor; [by apply IH|].
    rewrite Forall_forall in *. intros f [_ ?]%list_elem_of_filter. auto.
Qed.

Lemma map_erase_absent k m : map_find k m = None -> map_erase k m = m.
Proof.
  unfold map_erase. induction m as [|e m IH]; [done|]. cbn [map_find]. rewrite filter_cons.
  destruct (same_key k e.1); [done|]. intros E. rewrite decide_True by done. by rewrite IH.
Qed.

(** At most one entry goes away. *)
Lemma map_erase_size k m :
  Forall is_char k -> headers_ok m ->
  headers_size (map_erase k m) =
    headers_size m - match map_find k m with Some e => strlen2 e.1 e.2 | None => 0 end.
Proof.
  intros Hk [He Hs]. induction Hs as [|e m Hs IH Hlt]; [done|]. apply Forall_cons in He as [[He _] Hm].
  unfold map_erase in *. cbn [map_find]. rewrite filter_cons.
  destruct (same_key k e.1) eqn:Ek.
  - rewrite decide_False by done. cbn [headers_size]. change (filter _ m) with (map_erase k m).
    rewrite map_erase_absent; [lia|]. rewrite same_key_fold in Ek by done. apply bool_decide_eq_true in Ek.
    clear -Hk He Ek Hlt Hm. induction Hlt as [|f m Hf Hlt IH]; [done|]. apply Forall_cons in Hm as [[Hff _] Hm].
    cbn [map_find]. rewrite same_key_fold, bool_decide_eq_false_2; [by apply IH| |done..].
    intros E. rewrite Ek in E. apply strcasecmp_eq in E; [|done..]. unfold key_lt in Hf. lia.
  - rewrite decide_True by done. cbn [headers_size]. rewrite IH by done. lia.
Qed.

(** The invariant of the class: the map is in order and [_headerLen] counts
    its characters. *)
Definition headers_inv p : Prop :=
  headers_ok (_headers p) /\ _headerLen p = i64 (headers_size (_headers p)).

Lemma removeHeader_ok k p :
  Forall is_char k -> headers_inv p ->
  headers_inv (removeHeader (Some k) p).2 /\
  hview (_headers (removeHeader (Some k) p).2) = delete (fold_case k) (hview (_headers p)).
Proof.
  intros Hk [Ho Hl]. pose proof (map_erase_size k _ Hk Ho) as Hsz. unfold headers_inv. cbn.
  split; [split; [by apply map_erase_ok|]|apply map_erase_view; [done|apply Ho]].
  rewrite Hsz, Hl. destruct (map_find k (_headers p)) as [[k' v']|]; cbn [fst snd].
  - rewrite <- !Z.add_opp_r. by rewrite wraps_add_l.
  - by rewrite Z.sub_0_r.
Qed.

Lemma addHeader_ok k v p :
  Forall is_char k -> Forall is_char v -> headers_inv p ->
  headers_inv (addHeader (Some k) (Some v) p).2 /\
  hview (_headers (addHeader (Some k) (Some v) p).2) = <[fold_case k := v]> (hview (_headers p)).
Proof.
  intros Hk Hv Hi. destruct (removeHeader_ok k p Hk Hi) as [[Ho Hl] Hview].
  set (q := (removeHeader (Some k) p).2) in *.
  change (addHeader (Some k) (Some v) p).2 with (with_headers (map_insert k v (_headers q)) (i64 (_headerLen q + strlen2 k v)) q).
  unfold headers_inv, with_headers. cbn [_headers _headerLen].
  destruct (map_insert_absent k v (_headers q)) as [Hv' Hs'].
  { done. } { apply Ho. } { rewrite Hview. by rewrite lookup_delete_eq. }
  rewrite Hv', Hs', Hview, Hl. split; [split; [by apply map_insert_ok|]|by rewrite insert_delete_eq].
  rewrite wraps_add_l by lia. f_equal. lia.
Qed.

Lemma getHeader_ok k p :
  Forall is_char k -> headers_ok (_headers p) -> getHeader (Some k) p = hview (_headers p) !! fold_case k.
Proof. intros Hk [He _]. by apply map_find_view. Qed.

End Headers.

(** ** Runs of header operations *)

Inductive header_op := HAdd (k v : cstr) | HRemove (k : cstr) | HKeepAlive (b : bool).

Definition header_op_ok (o : header_op) : Prop :=
  match o with HAdd k v => Forall is_char k /\ Forall is_char v | HRemove k => Forall is_char k | HKeepAlive _ => True end.

Definition header_step (p : HTTPPacket) (o : header_op) : HTTPPacket :=
  match o with
  | HAdd k v => (addHeader (Some k) (Some v) p).2
  | HRemove k => (removeHeader (Some k) p).2
  | HKeepAlive b => setKeepAlive b p
  end.

(** The same on a map whose keys are the folded names.  Whether a connection
    is kept alive is a function of the version and of one entry. *)
Definition conn_key : list Z := fold_case (lit "Connection").

Definition map_keepAlive (version : Z) (m : gmap (list Z) cstr) : bool :=
  if HTTP_1_0 =? version then bool_decide (m !! conn_key = Some CONNECTION_KEEP_ALIVE)
  else negb (bool_decide (m !! conn_key = Some CONNECTION_CLOSE)).

Definition map_step (version : Z) (m : gmap (list Z) cstr) (o : header_op) : gmap (list Z) cstr :=
  match o with
  | HAdd k v => <[fold_case k := v]> m
  | HRemove k => delete (fold_case k) m
  | HKeepAlive b =>
      if Bool.eqb (map_keepAlive version m) b then m
      else match HTTP_1_0 =? version, b with
           | true, true => <[conn_key := CONNECTION_KEEP_ALIVE]> m
           | false, false => <[conn_key := CONNECTION_CLOSE]> m
           | _, _ => delete conn_key m
           end
  end.

Lemma lit_chars s : bool_decide (Forall is_char (lit s)) = true -> Forall is_char (lit s).
Proof. apply bool_decide_eq_true_1. Qed.

Lemma isKeepAlive_view p :
  headers_inv p -> isKeepAlive p = map_keepAlive (getVersion p) (hview (_headers p)).
Proof.
  intros [Ho _]. unfold isKeepAlive, map_keepAlive. rewrite getHeader_ok by (done || (apply lit_chars; by vm_compute)).
  fold conn_key. unfold streq. destruct (HTTP_1_0 =? getVersion p), (hview _ !! conn_key) as [v|]; [| | |done].
  - apply bool_decide_ext. split; congruence.
  - done.
  - f_equal. apply bool_decide_ext. split; congruence.
Qed.

Lemma header_step_ok p o :
  header_op_ok o -> headers_inv p ->
  headers_inv (header_step p o) /\ hview (_headers (header_step p o)) = map_step (getVersion p) (hview (_headers p)) o /\
  getVersion (header_step p o) = getVersion p.
Proof.
  intros Hok Hi. destruct o as [k v|k|b]; cbn [header_step map_step header_op_ok] in *.
  - destruct Hok as [Hk Hv]. by destruct (addHeader_ok k v p Hk Hv Hi).
  - by destruct (removeHeader_ok k p Hok Hi).
  - assert (HC : Forall is_char (lit "Connection")) by (apply lit_chars; by vm_compute).
    assert (Hcl : Forall is_char CONNECTION_CLOSE) by (apply lit_chars; by vm_compute).
    assert (Hka : Forall is_char CONNECTION_KEEP_ALIVE) by (apply lit_chars; by vm_compute).
    unfold setKeepAlive. rewrite (isKeepAlive_view p Hi). destruct (Bool.eqb _ _); [done|].
    destruct (removeHeader_ok _ p HC Hi), (addHeader_ok _ _ p HC Hcl Hi), (addHeader_ok _ _ p HC Hka Hi).
    destruct (HTTP_1_0 =? getVersion p), b; done.
Qed.

(** The headers of a packet are a case-insensitive map.  After any
    sequence of [addHeader], [removeHeader] and [setKeepAlive] on a packet
    without headers, [getHeader] finds under every spelling of a name the
    value a finite map keyed by the folded name holds, the entries are in the
    order of [strcasecmp] without duplicates, and [_headerLen] is the number
    of characters stored. *)
Theorem http_headers_map ops p0 k :
  _headers p0 = [] -> _headerLen p0 = 0 -> Forall header_op_ok ops -> Forall is_char k ->
  let p := foldl header_step p0 ops in
  getHeader (Some k) p = foldl (map_step (getVersion p0)) ∅ ops !! fold_case k /\
  headers_ok (_headers p) /\ _headerLen p = i64 (headers_size (_headers p)).
Proof.
  intros E0 El Hops Hk p.
  assert (H : forall q, headers_inv q -> getVersion q = getVersion p0 -> Forall header_op_ok ops ->
     headers_inv (foldl header_step q ops) /\
     hview (_headers (foldl header_step q ops)) = foldl (map_step (getVersion p0)) (hview (_headers q)) ops).
  { clear -ops. induction ops as [|o ops IH]; intros q Hq Hv Ho; [done|]. apply Forall_cons in Ho as [Ho Hos].
    destruct (header_step_ok q o Ho Hq) as (Hi & Hw & Hv'). cbn [foldl]. rewrite <- Hv, <- Hw, Hv.
    apply IH; [done|congruence|done]. }
  destruct (H p0) as [Hi Hv]; [|done|done|].
  { split; [rewrite E0; by split; constructor|by rewrite E0, El]. }
  fold p in Hi, Hv. destruct Hi as [Ho Hl]. split_and!; [|done|done]. rewrite getHeader_ok, Hv, E0 by done. done.
Qed.

Lemma http_headers_map_witness :
  let ops := [HAdd (lit "Host") (lit "a"); HAdd (lit "HOST") (lit "b"); HKeepAlive false; HRemove (lit "x")] in
  let p := foldl header_step HTTPPacket_new ops in
  getHeader (Some (lit "host")) p = Some (lit "b") /\ headers_ok (_headers p) /\ _headerLen p = i64 (headers_size (_headers p)).
Proof.
  apply (http_headers_map [HAdd (lit "Host") (lit "a"); HAdd (lit "HOST") (lit "b"); HKeepAlive false; HRemove (lit "x")]
           HTTPPacket_new (lit "host")).
  - reflexivity.
  - reflexivity.
  - repeat constructor; apply (bool_decide_unpack _); by vm_compute.
  - apply (bool_decide_unpack _); by vm_compute.
Defined.

(** [setKeepAlive] does what [isKeepAlive] reports, for either protocol
    version and whatever [Connection] header was there, keeps the invariant of
    the headers and touches no other header. *)
Theorem keepalive_set_get b p :
  headers_inv p ->
  isKeepAlive (setKeepAlive b p) = b /\ headers_inv (setKeepAlive b p) /\ getVersion (setKeepAlive b p) = getVersion p /\
  delete conn_key (hview (_headers (setKeepAlive b p))) = delete conn_key (hview (_headers p)).
Proof.
  intros Hi. destruct (header_step_ok p (HKeepAlive b) I Hi) as (Hi' & Hv & Hver). cbn [header_step map_step] in *.
  rewrite (isKeepAlive_view _ Hi'), Hver, Hv.
  destruct (Bool.eqb (map_keepAlive _ _) b) eqn:Eb; [apply eqb_prop in Eb; done|].
  unfold map_keepAlive. destruct (HTTP_1_0 =? getVersion p), b; cbn iota;
    rewrite ?lookup_insert_eq, ?lookup_delete_eq, ?delete_insert_eq, ?delete_delete_eq; by rewrite ?bool_decide_eq_true_2 by done.
Qed.

Lemma keepalive_set_get_witness :
  let p := setVersion HTTP_1_0 HTTPPacket_new in
  isKeepAlive (setKeepAlive true p) = true /\ headers_inv (setKeepAlive true p) /\
  getVersion (setKeepAlive true p) = getVersion p /\
  delete conn_key (hview (_headers (setKeepAlive true p))) = delete conn_key (hview (_headers p)).
Proof. apply (keepalive_set_get true (setVersion HTTP_1_0 HTTPPacket_new)). split; [split; constructor|reflexivity]. Defined.

(** ** The bytes of a packet *)

Definition version_bytes (p : HTTPPacket) : list Z :=
  if HTTP_1_0 =? getVersion p then lit "HTTP/1.0" else lit "HTTP/1.1".

Definition start_line (p : HTTPPacket) : list Z :=
  if PT_REQUEST =? getPacketType p then
    default [] (getMethodString p) ++ lit " " ++ default [] (getURI p) ++ lit " " ++ version_bytes p
  else version_bytes p ++ lit " " ++ print_dec (getStatusCode p) ++ lit " " ++ getReasonPhrase p.

Definition header_line (e : cstr * cstr) : list Z := e.1 ++ lit ": " ++ e.2 ++ CRLF.

Definition content_length_entry (p : HTTPPacket) : cstr * cstr :=
  (lit "Content-Length", print_dec (_bodyLength (hp_base p))).

(** The headers that are sent, in their order. *)
Definition sent_headers (p : HTTPPacket) : HeadersType :=
  _headers p ++
  (if _addContentLengthHeader p && negb (bool_decide (is_Some (getHeader (Some (lit "Content-Length")) p)))
   then [content_length_entry p] else []).

Definition http_wire (p : HTTPPacket) (body : list Z) : list Z :=
  start_line p ++ CRLF ++ concat (header_line <$> sent_headers p) ++ CRLF ++ body.

(** What [encode] needs: a start line it can print, and strings. *)
Record encodable (p : HTTPPacket) (body : list Z) : Prop := {
  enc_body : body_rep (hp_base p) body;
  enc_headers : headers_ok (_headers p);
  enc_method : PT_REQUEST = getPacketType p ->
     exists m u, getMethodString p = Some m /\ getURI p = Some u /\ Forall is_char m /\ Forall is_char u;
  enc_status : PT_REQUEST <> getPacketType p -> 100 <= getStatusCode p < 600 /\ Forall is_char (getReasonPhrase p)
}.

Section Wire.

Implicit Types (b : DataBuffer) (d s t : list Z) (p : HTTPPacket).

Lemma writeBytes_prefix b s t : writeBytes b (s ++ t) (Z.of_nat (length s)) = writeBytes b s (Z.of_nat (length s)).
Proof.
  unfold writeBytes. destruct (expand _ _) as [b'|]; [|done]. cbn [mbind option_bind].
  destruct (_mem b') as [m|]; [|done]. cbn [mbind option_bind].
  pose proof (mem_read_prefix s []) as E0. rewrite app_nil_r in E0. by rewrite (mem_read_prefix s t), E0.
Qed.

Lemma rep_writeStr b d s :
  rep b d -> Forall is_byte s -> Z.of_nat (length d + length s) <= FRAME_MAX ->
  exists b', writeStr b s = Some b' /\ rep b' (d ++ s).
Proof.
  intros Hr Hs Hl. unfold writeStr, FRAME_MAX in *. rewrite i32_small by (unfold INT_MIN, INT_MAX; lia).
  by apply rep_writeBytes.
Qed.

Lemma print_dec_3 n : 100 <= n < 600 -> length (print_dec n) = 3%nat.
Proof.
  intros Hn. unfold print_dec. change 20%nat with (3 + 17)%nat. cbn [print_loop Nat.add].
  assert (10 <= n / 10) by (apply Z.div_le_lower_bound; lia).
  assert (n / 10 / 10 < 10) by (rewrite Z.div_div by lia; apply Z.div_lt_upper_bound; lia).
  rewrite (proj2 (Z.ltb_ge n 10)), (proj2 (Z.ltb_ge (n / 10) 10)), (proj2 (Z.ltb_lt (n / 10 / 10) 10)) by lia. done.
Qed.

Lemma print_dec_bytes n : 0 <= n -> Forall is_byte (print_dec n).
Proof.
  intros Hn. eapply chars_bytes, Forall_impl; [by apply print_dec_digits|]. cbn. apply digit_char.
Qed.

Lemma rep_writeLit b d s n :
  rep b d -> Forall is_byte s -> n = Z.of_nat (length s) -> Z.of_nat (length d + length s) <= FRAME_MAX ->
  exists b', writeBytes b s n = Some b' /\ rep b' (d ++ s).
Proof. intros ? ? ->. by apply rep_writeBytes. Qed.

(** Lengths of literals, and one call of a chain of writes. *)
Local Ltac lit_len :=
  repeat match goal with
  | |- context [length (lit ?s)] =>
      let n := eval vm_compute in (length (lit s)) in change (length (lit s)) with n
  | H : context [length (lit ?s)] |- _ =>
      let n := eval vm_compute in (length (lit s)) in change (length (lit s)) with n in H
  end; change (length CRLF) with 2%nat in *.

Local Ltac bytes_side :=
  first [ assumption | by apply chars_bytes | apply lit_bytes | by repeat constructor ].

Local Ltac len_side := rewrite ?length_app in *; lit_len; lia.

Local Ltac wr :=
  match goal with
  | R : rep ?b ?d |- context [writeStr ?b ?s] =>
      destruct (rep_writeStr b d s R) as (?b & -> & ?R); [bytes_side|len_side|]; clear R
  | R : rep ?b ?d |- context [writeBytes ?b ?s ?n] =>
      destruct (rep_writeLit b d s n R) as (?b & -> & ?R); [bytes_side|len_side|len_side|]; clear R
  end; cbn [mbind option_bind].

Lemma encode_header_lines_ok m b d :
  Forall entry_ok m -> rep b d -> Z.of_nat (length d + length (concat (header_line <$> m))) <= FRAME_MAX ->
  exists b', encode_header_lines m b = Some b' /\ rep b' (d ++ concat (header_line <$> m)).
Proof.
  intros Hm. revert b d. induction Hm as [|[k v] m [Hk Hv] Hm IH]; intros b d Hr Hl.
  { exists b. rewrite app_nil_r. done. }
  rewrite fmap_cons in *. cbn [concat] in *. unfold header_line at 1 in Hl. unfold header_line at 1.
  cbn [fst snd] in *. rewrite !length_app in Hl. cbn [encode_header_lines]. do 4 wr.
  match goal with R : rep ?b ?d |- _ => destruct (IH b d R) as (?b & -> & ?R); [len_side|] end.
  eexists. split; [done|]. by rewrite <- !app_assoc in *.
Qed.

Lemma version_bytes_ok p b d :
  rep b d -> Z.of_nat (length d + 8) <= FRAME_MAX ->
  exists b', (if HTTP_1_0 =? getVersion p then writeBytes b (lit "HTTP/1.0") 8
              else writeBytes b (lit "HTTP/1.1") 8) = Some b' /\ rep b' (d ++ version_bytes p).
Proof. intros Hr Hl. unfold version_bytes. case_bool; wr; eauto. Qed.

Lemma version_bytes_length p : length (version_bytes p) = 8%nat.
Proof. unfold version_bytes. by case_bool. Qed.

Lemma encodeStartLine_ok p body b d :
  encodable p body -> rep b d -> Z.of_nat (length d + (length (start_line p) + 2)) <= FRAME_MAX ->
  exists b', encodeStartLine p b = Some (true, b') /\ rep b' (d ++ start_line p ++ CRLF).
Proof.
  intros [_ _ Hreq Hres] R Hl. unfold encodeStartLine, start_line in *.
  destruct (Z.eqb_spec PT_REQUEST (getPacketType p)) as [Et|Et].
  - destruct (Hreq Et) as (m & u & Em & Eu & Hm & Hu). rewrite Em, Eu in *. cbn [default from_option id] in *.
    rewrite !length_app, version_bytes_length in Hl. do 4 wr.
    match goal with R : rep ?b ?d |- _ => destruct (version_bytes_ok p b d R) as (?b & -> & ?R); [len_side|]; clear R end.
    cbn [mbind option_bind]. change 2 with (Z.of_nat (length CRLF)) at 1. rewrite writeBytes_prefix.
    change (Z.of_nat (length CRLF)) with 2. pose proof (version_bytes_length p). wr.
    eexists. split; [done|]. by rewrite <- !app_assoc in *.
  - destruct (Hres Et) as [Hst Hre]. rewrite (proj2 (Z.eqb_neq 0 _)) by lia.
    pose proof (version_bytes_length p). pose proof (print_dec_3 _ Hst). rewrite !length_app in Hl.
    pose proof (print_dec_bytes (getStatusCode p) ltac:(lia)).
    destruct (version_bytes_ok p b d R) as (b1 & -> & R1); [lit_len; lia|]. clear R. cbn [mbind option_bind].
    do 5 wr. eexists. split; [done|]. by rewrite <- !app_assoc in *.
Qed.

Lemma encodeHeaders_ok p body b d :
  encodable p body -> rep b d ->
  Z.of_nat (length d + (length (concat (header_line <$> sent_headers p)) + 2)) <= FRAME_MAX ->
  exists b', encodeHeaders p b = Some (true, b') /\ rep b' (d ++ concat (header_line <$> sent_headers p) ++ CRLF).
Proof.
  intros [Hb [He _] _ _] R Hl. unfold encodeHeaders, sent_headers in *. rewrite fmap_app, concat_app, length_app in Hl.
  rewrite fmap_app, concat_app.
  destruct (encode_header_lines_ok _ b d He R) as (b1 & -> & R1); [lia|]. clear R. cbn [mbind option_bind].
  destruct (_ && _); cbn [fmap list_fmap concat] in *.
  - set (n := print_dec _) in *. assert (Forall is_byte n) by (apply print_dec_bytes; rewrite (brep_len _ _ Hb); lia).
    assert (Hc : header_line (content_length_entry p) = lit "Content-Length: " ++ n ++ CRLF).
    { unfold header_line, content_length_entry. cbn [fst snd]. fold n. clearbody n.
      change (lit "Content-Length: ") with (lit "Content-Length" ++ lit ": "). by rewrite <- app_assoc. }
    clearbody n.
    rewrite Hc, app_nil_r in *. rewrite !length_app in Hl.
    assert (Forall is_byte (lit "Content-Length: " ++ n ++ CRLF)).
    { apply Forall_app; split; [apply lit_bytes|]. apply Forall_app; split; [done|bytes_side]. }
    do 2 wr. eexists. split; [done|]. by rewrite <- !app_assoc in *.
  - cbn [mbind option_bind app length] in *. wr. eexists. split; [done|]. by rewrite <- !app_assoc in *.
Qed.

(** [encode] appends the message. *)
Lemma HTTPPacket_encode_ok p body b d :
  encodable p body -> rep b d -> Z.of_nat (length d + length (http_wire p body)) <= FRAME_MAX ->
  exists b', HTTPPacket_encode p b = Some (true, p, b') /\ rep b' (d ++ http_wire p body).
Proof.
  intros He R Hl. unfold http_wire in *. rewrite !length_app in Hl. change (length CRLF) with 2%nat in *.
  unfold HTTPPacket_encode.
  destruct (encodeStartLine_ok p body b d He R) as (b1 & -> & R1); [lia|]. cbn [mbind option_bind negb].
  destruct (encodeHeaders_ok p body b1 _ He R1) as (b2 & -> & R2); [len_side|]. cbn [mbind option_bind negb].
  pose proof (enc_body _ _ He) as Hb. pose proof (brep_len _ _ Hb) as Hbl. unfold encodeBody. case_bool.
  - rewrite (body_rep_getBody _ _ Hb). cbn [mbind option_bind].
    rewrite i32_small by (unfold INT_MIN, INT_MAX, FRAME_MAX in *; lia). pose proof (brep_bytes _ _ Hb). wr.
    eexists. split; [done|]. by rewrite <- !app_assoc in *.
  - cbn [mbind option_bind]. assert (body = []) as -> by (destruct body; [done|cbn in *; lia]).
    eexists. split; [done|]. rewrite app_nil_r. by rewrite <- !app_assoc in *.
Qed.

End Wire.
