(* ===== verification/HttpStreamer.v ===== *)
(** * HTTPStreamer (src/agent_engine/network/anet/httpstreamer.cpp)

    The incremental HTTP parser and its context (httpstreamingcontext.cpp).
    The pointers of the source into the input buffer are indices of the array
    of its unread bytes; the zeros the parser writes over delimiters are
    written to that array and, with [putData], to the buffer.  An index
    outside the array has no result, so a run that has one never left the
    data it was given. *)

From S2P Require Import Prelude CString DataBuffer Packet Streamer DefaultPacket HttpPacket.

(** ** AnetError *)

Definition INVALID_DATA : Z := 1.
Definition CONNECTION_CLOSED : Z := 2.
Definition PKG_TOO_LARGE : Z := 3.
Definition LENGTH_REQUIRED : Z := 411.
Definition URI_TOO_LARGE : Z := 414.
Definition VERSION_NOT_SUPPORT : Z := 505.
Definition TOO_MANY_HEADERS : Z := 499.

(** The strings of the error codes. *)
Definition error_string (errorNo : Z) : option string :=
  if errorNo =? INVALID_DATA then Some "Invalid Data"%string
  else if errorNo =? PKG_TOO_LARGE then Some "Packet Too Large"%string
  else if errorNo =? LENGTH_REQUIRED then Some "Length Required"%string
  else if errorNo =? URI_TOO_LARGE then Some "Request-URI Too Long"%string
  else if errorNo =? VERSION_NOT_SUPPORT then Some "HTTP Version Not Supported"%string
  else if errorNo =? TOO_MANY_HEADERS then Some "Too Many Headers"%string
  else if errorNo =? CONNECTION_CLOSED then Some "Connection closed"%string
  else None.

(** ** HTTPStreamingContext *)

Inductive HTTPStreamingStep := HSS_START_LINE | HSS_MESSAGE_HEADER | HSS_MESSAGE_BODY.
Inductive HTTPEncodingType := HET_NO_BODY | HET_LENGTH | HET_CHUNKED | HET_EOF.
Inductive HTTPChunkedState := CHUNK_SIZE | CHUNK_DATA | CHUNK_DATA_CRLF | TRAILER.

Record HTTPStreamingContext := mkHttpContext {
  hc_base : StreamingContext HTTPPacket;
  _step : HTTPStreamingStep;
  _chunkState : HTTPChunkedState;
  _encodingType : option HTTPEncodingType;   (* [None]: not set by the constructor *)
  _dataLength : Z;                           (* size_t, like the next two *)
  _drainedLength : Z;
  _headersCount : Z
}.

Definition HTTPStreamingContext_new : HTTPStreamingContext :=
  mkHttpContext StreamingContext_new HSS_START_LINE CHUNK_SIZE None 0 0 0.

Section Context.

Implicit Types (c : HTTPStreamingContext).

Definition on_ctx (f : StreamingContext HTTPPacket -> StreamingContext HTTPPacket) c : HTTPStreamingContext :=
  mkHttpContext (f (hc_base c)) (_step c) (_chunkState c) (_encodingType c) (_dataLength c)
    (_drainedLength c) (_headersCount c).
Definition with_step s c : HTTPStreamingContext :=
  mkHttpContext (hc_base c) s (_chunkState c) (_encodingType c) (_dataLength c) (_drainedLength c) (_headersCount c).
Definition with_chunkState s c : HTTPStreamingContext :=
  mkHttpContext (hc_base c) (_step c) s (_encodingType c) (_dataLength c) (_drainedLength c) (_headersCount c).
Definition with_encodingType e c : HTTPStreamingContext :=
  mkHttpContext (hc_base c) (_step c) (_chunkState c) (Some e) (_dataLength c) (_drainedLength c) (_headersCount c).
Definition with_dataLength n c : HTTPStreamingContext :=
  mkHttpContext (hc_base c) (_step c) (_chunkState c) (_encodingType c) n (_drainedLength c) (_headersCount c).
Definition add_drained n c : HTTPStreamingContext :=
  mkHttpContext (hc_base c) (_step c) (_chunkState c) (_encodingType c) (_dataLength c)
    (u64 (_drainedLength c + n)) (_headersCount c).
Definition count_header c : HTTPStreamingContext :=
  mkHttpContext (hc_base c) (_step c) (_chunkState c) (_encodingType c) (_dataLength c)
    (_drainedLength c) (u64 (_headersCount c + 1)).

Definition http_reset c : HTTPStreamingContext :=
  mkHttpContext (reset (hc_base c)) HSS_START_LINE CHUNK_SIZE (_encodingType c) 0 0 0.

Definition http_setErrorNo (errorNo : Z) c : HTTPStreamingContext :=
  on_ctx (fun b => setErrorString (error_string errorNo) (setErrorNo errorNo (setBroken true b))) c.

(** [dynamic_cast<HTTPPacket *>(context->getPacket())] *)
Definition http_packet c : option HTTPPacket :=
  match getPacket (hc_base c) with Some (inl p) => Some p | _ => None end.

(** The packet of the context after a call that changed it. *)
Definition put_packet (p : HTTPPacket) c : HTTPStreamingContext := on_ctx (setPacket (Some (inl p))) c.

End Context.

(** ** Scanning *)

Section Scan.

Implicit Types (d : list Z).

Definition is_ws (c : Z) : bool := (c =? 32) || (c =? 9).

(** [findCRLF]: the index of the end of the line and the number of bytes up
    to and with the line feed, if there is one. *)
Definition findCRLF d (start end_ : nat) : option (option (nat * nat)) :=
  p ← scan (end_ - start) (fun c => c =? 10) d start;
  if Nat.eqb p end_ then Some None
  else
    let length := (p - start + 1)%nat in
    c ← (if Nat.ltb 1 length then d !! (p - 1)%nat else Some 0);
    Some (Some (if Nat.ltb 1 length && (c =? 13) then (p - 1)%nat else p, length)).

Definition findNextWhiteSpace d (begin end_ : nat) : option nat := scan (end_ - begin) is_ws d begin.

Definition skipWhiteSpaces d (begin end_ : nat) : option nat := scan (end_ - begin) (fun c => negb (is_ws c)) d begin.

Fixpoint find_replace_loop (n : nat) d (p : nat) : option (list Z * nat) :=
  match n with
  | O => Some (d, p)
  | S n =>
      c ← d !! p;
      if is_ws c then Some (d, p)
      else
        d ← (if c =? 0 then poke d p 32 else Some d);
        find_replace_loop n d (S p)
  end.

Definition findNextWhiteSpaceAndReplaceZero d (begin end_ : nat) : option (list Z * nat) :=
  find_replace_loop (end_ - begin) d begin.

Fixpoint replace_loop (n : nat) d (p : nat) : option (list Z) :=
  match n with
  | O => Some d
  | S n =>
      c ← d !! p;
      d ← (if c =? 0 then poke d p 32 else Some d);
      replace_loop n d (S p)
  end.

Definition replaceZero d (begin end_ : nat) : option (list Z) := replace_loop (end_ - begin) d begin.

Definition trim d (begin end_ : nat) (left right : bool) : option (nat * nat) :=
  begin ← (if left then skipWhiteSpaces d begin end_ else Some begin);
  end_ ← (if right then scan_back (end_ - begin) (fun c => negb (is_ws c)) d end_ else Some end_);
  Some (begin, end_).

(** [isValidStatusCode] of the string [p]. *)
Definition isValidStatusCode (p : list Z) : option bool :=
  if negb (Nat.eqb (length p) 3) then Some false
  else
    c0 ← p !! 0%nat; c1 ← p !! 1%nat; c2 ← p !! 2%nat;
    Some (isdigit c0 && isdigit c1 && isdigit c2).

Definition _table : list Z := [
  0; 0; 0; 0; 0; 0; 0; 0; 0; 0; 0; 0; 0; 0; 0; 0; 0; 0; 0; 0; 0; 0; 0; 0; 0; 0; 0; 0; 0; 0; 0; 0; 0; 1; 0; 1; 1;
  1; 1; 1; 0; 0; 1; 1; 0; 1; 1; 0; 1; 1; 1; 1; 1; 1; 1; 1; 1; 1; 0; 0; 0; 0; 0; 0; 0; 1; 1; 1; 1; 1; 1; 1; 1; 1;
  1; 1; 1; 1; 1; 1; 1; 1; 1; 1; 1; 1; 1; 1; 1; 1; 1; 0; 0; 0; 1; 1; 1; 1; 1; 1; 1; 1; 1; 1; 1; 1; 1; 1; 1; 1; 1;
  1; 1; 1; 1; 1; 1; 1; 1; 1; 1; 1; 1; 0; 1; 0; 1; 0; 0; 0; 0; 0; 0; 0; 0; 0; 0; 0; 0; 0; 0; 0; 0; 0; 0; 0; 0; 0;
  0; 0; 0; 0; 0; 0; 0; 0; 0; 0; 0; 0; 0; 0; 0; 0; 0; 0; 0; 0; 0; 0; 0; 0; 0; 0; 0; 0; 0; 0; 0; 0; 0; 0; 0; 0; 0;
  0; 0; 0; 0; 0; 0; 0; 0; 0; 0; 0; 0; 0; 0; 0; 0; 0; 0; 0; 0; 0; 0; 0; 0; 0; 0; 0; 0; 0; 0; 0; 0; 0; 0; 0; 0; 0;
  0; 0; 0; 0; 0; 0; 0; 0; 0; 0; 0; 0; 0; 0; 0; 0; 0; 0; 0; 0; 0; 0; 0; 0; 0; 0; 0; 0; 0; 0; 0; 0; 0; 0].

Definition isTokenCharacter (c : Z) : option bool :=
  v ← _table !! Z.to_nat c; Some (negb (v =? 0)).

Fixpoint token_loop (n : nat) d (p : nat) : option bool :=
  match n with
  | O => Some true
  | S n =>
      c ← d !! p; ok ← isTokenCharacter c;
      if negb ok then Some false else token_loop n d (S p)
  end.

Definition isValidToken d (begin end_ : nat) : option bool := token_loop (end_ - begin) d begin.

Definition isValidDigits (dist : list Z) : bool := forallb isdigit dist.

(** *** The start line *)

(** The part of [processRequestLine] from the version on. *)
Definition request_version (ctx : HTTPStreamingContext) (packet : HTTPPacket) (version : list Z)
  : bool * HTTPStreamingContext :=
  if streq version (lit "HTTP/1.0") then (true, put_packet (setVersion HTTP_1_0 packet) ctx)
  else if streq version (lit "HTTP/1.1") then (true, put_packet (setVersion HTTP_1_1 packet) ctx)
  else (false, http_setErrorNo VERSION_NOT_SUPPORT (put_packet (setVersion HTTP_UNSUPPORTED packet) ctx)).

Definition URI_LIMIT : Z := 1024 * 64.

Definition processRequestLine (ctx : HTTPStreamingContext) d (start end_ : nat)
  : option (bool * list Z * HTTPStreamingContext) :=
  p ← findNextWhiteSpace d start end_;
  if Nat.eqb p end_ then Some (false, d, http_setErrorNo INVALID_DATA ctx)
  else
    d ← poke d p 0;
    packet ← http_packet ctx;
    ok ← isValidToken d start p;
    if negb ok then Some (false, d, http_setErrorNo INVALID_DATA ctx)
    else
      method ← cstring_at d start;
      let packet := setMethodString method (setPacketType PT_REQUEST packet) in
      let ctx := put_packet packet ctx in
      start ← skipWhiteSpaces d (p + 1) end_;
      if Nat.eqb start end_ then Some (false, d, http_setErrorNo INVALID_DATA ctx)
      else
        '(d, p) ← findNextWhiteSpaceAndReplaceZero d start end_;
        if Nat.eqb p end_ then Some (false, d, http_setErrorNo INVALID_DATA ctx)
        else
          d ← poke d p 0;
          if URI_LIMIT <? Z.of_nat (p - start) then Some (false, d, http_setErrorNo URI_TOO_LARGE ctx)
          else
            uri ← cstring_at d start;
            packet ← setURI (Some uri) packet;
            start ← skipWhiteSpaces d (p + 1) end_;
            version ← cstring_at d start;
            let '(rc, ctx) := request_version ctx packet version in
            Some (rc, d, ctx).

(** The part of [processStatusLine] from the status code on. *)
Definition status_code (ctx : HTTPStreamingContext) (packet : HTTPPacket) d (start end_ : nat)
  : option (bool * list Z * HTTPStreamingContext) :=
  p ← findNextWhiteSpace d start end_;
  d ← (if Nat.eqb p end_ then Some d else poke d p 0);
  code ← cstring_at d start;
  ok ← isValidStatusCode code;
  if negb ok then Some (false, d, http_setErrorNo INVALID_DATA ctx)
  else
    let packet := setStatusCode (atoi code) packet in
    let ctx := put_packet packet ctx in
    if Nat.eqb p end_ then Some (true, d, ctx)
    else
      start ← skipWhiteSpaces d (p + 1) end_;
      if negb (Nat.eqb start end_) then
        reason ← cstring_at d start;
        packet ← setReasonPhrase (Some reason) packet;
        Some (true, d, put_packet packet ctx)
      else Some (true, d, ctx).

Definition processStatusLine (ctx : HTTPStreamingContext) d (start end_ : nat)
  : option (bool * list Z * HTTPStreamingContext) :=
  p ← findNextWhiteSpace d start end_;
  if Nat.eqb p end_ then Some (false, d, http_setErrorNo INVALID_DATA ctx)
  else
    d ← poke d p 0;
    packet ← http_packet ctx;
    let packet := setPacketType PT_RESPONSE packet in
    version ← cstring_at d start;
    let '(rc, ctx) := request_version ctx packet version in
    if negb rc then Some (false, d, ctx)
    else
      packet ← http_packet ctx;
      start ← skipWhiteSpaces d (p + 1) end_;
      if Nat.eqb start end_ then Some (false, d, http_setErrorNo INVALID_DATA ctx)
      else status_code ctx packet d start end_.

Definition processPerHeaderLine d (pstart pend : nat) (packet : HTTPPacket)
  : option (bool * list Z * HTTPPacket) :=
  let key := pstart in
  pstart ← scan (pend - pstart) (fun c => c =? 58) d pstart;
  if Nat.leb pend pstart then Some (false, d, packet)
  else
    d ← poke d pstart 0;
    '(pstart, pend) ← trim d (pstart + 1) pend true true;
    d ← replaceZero d pstart pend;
    d ← poke d pend 0;
    key ← cstring_at d key;
    value ← cstring_at d pstart;
    Some (true, d, (addHeader (Some key) (Some value) packet).2).

End Scan.

(** ** The streamer on its buffer *)

(** What the writes through [getData()] leave in the buffer. *)
Definition putData (b : DataBuffer) (d : list Z) : option DataBuffer :=
  match _mem b with
  | None => match d with [] => Some b | _ => None end
  | Some m =>
      m ← mem_write m (_pdata b) (Some <$> d);
      Some (mkDataBuffer (Some m) (_pdata b) (_pfree b))
  end.

(** [getData()] as an argument: the null pointer before the first allocation. *)
Definition dataPtr (b : DataBuffer) : option (option (list Z)) :=
  match _mem b with None => Some None | Some _ => Some <$> getData b end.

Definition PKG_LIMIT : Z := 67108864.
Definition HEADERS_LIMIT : Z := 128.

Section Streamer.

Context (alloc_ok : Z -> bool).
Context (pkgLimit : Z).               (* [_pkgLimit], set by [setPkgLimit] *)

Implicit Types (b : DataBuffer) (ctx : HTTPStreamingContext).

Definition getPkgLimit : Z := if pkgLimit =? 0 then PKG_LIMIT else pkgLimit.

Definition processStartLine b ctx : option (bool * DataBuffer * HTTPStreamingContext) :=
  d ← getData b;
  line ← findCRLF d 0 (length d);
  match line with
  | None =>
      if getPkgLimit <? u64 (getDataLen b) then Some (false, b, http_setErrorNo PKG_TOO_LARGE ctx)
      else Some (false, b, ctx)
  | Some (cr, length) =>
      let len := Z.of_nat length in
      d ← poke d cr 0;
      if getPkgLimit <? len then
        b ← putData b d; Some (false, b, http_setErrorNo PKG_TOO_LARGE ctx)
      else
        _ ← assertb (match getPacket (hc_base ctx) with None => true | Some _ => false end);
        let ctx := put_packet (HTTPPacketFactory_createPacket 0) ctx in
        s ← cstring_at d 0;
        '(rc, d, ctx) ← (if strneq s (lit "HTTP/") 5 then processStatusLine ctx d 0 cr
                         else processRequestLine ctx d 0 cr);
        b ← putData b d;
        Some (rc : bool, drainData b (i32 len), add_drained len ctx)
  end.

Fixpoint headers_loop (fuel : nat) b ctx : option (bool * DataBuffer * HTTPStreamingContext) :=
  match fuel with
  | O => None
  | S fuel =>
      d ← getData b;
      line ← findCRLF d 0 (length d);
      match line with
      | None =>
          if getPkgLimit <? u64 (getDataLen b + _drainedLength ctx)
          then Some (false, b, http_setErrorNo PKG_TOO_LARGE ctx)
          else Some (false, b, ctx)
      | Some (cr, length) =>
          let drainLength := Z.of_nat length in
          if getPkgLimit <? u64 (_drainedLength ctx + drainLength)
          then Some (false, b, http_setErrorNo PKG_TOO_LARGE ctx)
          else
            d ← poke d cr 0;
            if Nat.eqb cr 0 then
              b ← putData b d;
              Some (true, drainData b (i32 drainLength), add_drained drainLength ctx)
            else
              packet ← http_packet ctx;
              '(_, d, packet) ← processPerHeaderLine d 0 cr packet;
              b ← putData b d;
              let b := drainData b (i32 drainLength) in
              let ctx := count_header (put_packet packet ctx) in
              let ctx := if HEADERS_LIMIT <? _headersCount ctx then http_setErrorNo TOO_MANY_HEADERS ctx else ctx in
              headers_loop fuel b (add_drained drainLength ctx)
      end
  end.

(** Every round takes at least the line feed away. *)
Definition processHeadersOrTrailers b ctx : option (bool * DataBuffer * HTTPStreamingContext) :=
  _ ← http_packet ctx;
  headers_loop (S (Z.to_nat (getDataLen b))) b ctx.

Definition messageHeadersEnd ctx : option (bool * HTTPStreamingContext) :=
  packet ← http_packet ctx;
  match getHeader (Some (lit "Transfer-Encoding")) packet with
  | None =>
      match getHeader (Some (lit "Content-Length")) packet with
      | None =>
          if PT_RESPONSE =? getPacketType packet then Some (true, with_encodingType HET_EOF ctx)
          else Some (true, with_encodingType HET_NO_BODY ctx)
      | Some contentLength =>
          if negb (isValidDigits contentLength) then Some (false, http_setErrorNo INVALID_DATA ctx)
          else
            let length := atoi contentLength in
            if 0 <? length then
              let ctx := with_dataLength (u64 length) (with_encodingType HET_LENGTH ctx) in
              if getPkgLimit <? u64 (length + _drainedLength ctx)
              then Some (false, http_setErrorNo PKG_TOO_LARGE ctx)
              else Some (true, ctx)
            else Some (true, with_encodingType HET_NO_BODY ctx)
      end
  | Some encodingType =>
      if streq (lit "chunked") encodingType then Some (true, with_encodingType HET_CHUNKED ctx)
      else Some (false, http_setErrorNo INVALID_DATA ctx)
  end.

Definition processHeaders b ctx : option (bool * DataBuffer * HTTPStreamingContext) :=
  '(ok, b, ctx) ← processHeadersOrTrailers b ctx;
  if ok : bool then '(rc, ctx) ← messageHeadersEnd ctx; Some (rc, b, ctx)
  else Some (false, b, ctx).

(** [packet->appendBody(getData(), n)]; its result is not looked at. *)
Definition append_data b (n : Z) ctx : option HTTPStreamingContext :=
  packet ← http_packet ctx;
  str ← dataPtr b;
  '(_, dp) ← appendBody alloc_ok (hp_base packet) str n;
  Some (put_packet (with_base dp packet) ctx).

Definition processLengthBody b ctx : option (bool * DataBuffer * HTTPStreamingContext) :=
  let bufferLength := u64 (getDataLen b) in
  if _dataLength ctx <=? bufferLength then
    ctx ← append_data b (_dataLength ctx) ctx;
    Some (true, drainData b (i32 (_dataLength ctx)), add_drained (_dataLength ctx) ctx)
  else
    ctx ← append_data b bufferLength ctx;
    Some (false, clear b, add_drained bufferLength (with_dataLength (u64 (_dataLength ctx - bufferLength)) ctx)).

Definition processEOFBody b ctx : option (bool * DataBuffer * HTTPStreamingContext) :=
  ctx ← append_data b (u64 (getDataLen b)) ctx;
  Some (isEndOfFile (hc_base ctx), clear b, ctx).

Definition processChunkSize b ctx : option (bool * DataBuffer * HTTPStreamingContext) :=
  d ← getData b;
  line ← findCRLF d 0 (length d);
  match line with
  | None =>
      if getPkgLimit <? u64 (getDataLen b + _drainedLength ctx)
      then Some (false, b, http_setErrorNo PKG_TOO_LARGE ctx)
      else Some (false, b, ctx)
  | Some (cr, length) =>
      let drainLength := Z.of_nat length in
      d ← poke d cr 0;
      b ← putData b d;
      if getPkgLimit <? u64 (_drainedLength ctx + drainLength)
      then Some (false, b, http_setErrorNo PKG_TOO_LARGE ctx)
      else
        pstart ← skipWhiteSpaces d 0 cr;
        s ← cstring_at d pstart;
        let '(n, c) := sscanf_xc s in
        let chunkSize := default (-1) n in
        let c := default 0 c in
        if (chunkSize <? 0) || (negb (0 =? c) && negb (59 =? c))
        then Some (false, b, http_setErrorNo INVALID_DATA ctx)
        else
          let ctx := with_dataLength chunkSize ctx in
          let b := drainData b (i32 drainLength) in
          let ctx := add_drained drainLength ctx in
          if _dataLength ctx =? 0 then Some (true, b, with_chunkState TRAILER ctx)
          else if getPkgLimit <? u64 (_drainedLength ctx + _dataLength ctx)
          then Some (false, b, http_setErrorNo PKG_TOO_LARGE ctx)
          else Some (true, b, with_chunkState CHUNK_DATA ctx)
  end.

Definition getCRLF b ctx : option (bool * DataBuffer * HTTPStreamingContext) :=
  d ← getData b;
  let length := u64 (getDataLen b) in
  if length <? 1 then Some (false, b, ctx)
  else
    c ← d !! 0%nat;
    if length =? 1 then
      if 10 =? c then Some (true, drainData b 1, add_drained 1 ctx)
      else if negb (13 =? c) then Some (false, b, http_setErrorNo INVALID_DATA ctx)
      else Some (false, clear b, add_drained 1 ctx)
    else if 10 =? c then Some (true, drainData b 1, add_drained 1 ctx)
    else
      c1 ← d !! 1%nat;
      if (13 =? c) && (10 =? c1) then Some (true, drainData b 2, add_drained 2 ctx)
      else Some (false, b, http_setErrorNo INVALID_DATA ctx).

Fixpoint chunk_loop (fuel : nat) b ctx : option (bool * DataBuffer * HTTPStreamingContext) :=
  match fuel with
  | O => None
  | S fuel =>
      match _chunkState ctx with
      | CHUNK_SIZE =>
          '(ok, b, ctx) ← processChunkSize b ctx;
          if negb ok then Some (false, b, ctx) else chunk_loop fuel b ctx
      | CHUNK_DATA =>
          '(ok, b, ctx) ← processLengthBody b ctx;
          if negb ok then Some (false, b, ctx)
          else chunk_loop fuel b (with_chunkState CHUNK_DATA_CRLF ctx)
      | CHUNK_DATA_CRLF =>
          '(ok, b, ctx) ← getCRLF b ctx;
          if negb ok then Some (false, b, ctx)
          else chunk_loop fuel b (with_chunkState CHUNK_SIZE ctx)
      | TRAILER => processHeadersOrTrailers b ctx
      end
  end.

(** Every round takes at least one byte away, but for the last two. *)
Definition processChunkedBody b ctx : option (bool * DataBuffer * HTTPStreamingContext) :=
  chunk_loop (Z.to_nat (getDataLen b) + 2) b ctx.

Definition processBody b ctx : option (bool * DataBuffer * HTTPStreamingContext) :=
  e ← _encodingType ctx;
  match e with
  | HET_NO_BODY => Some (true, b, ctx)
  | HET_LENGTH => processLengthBody b ctx
  | HET_CHUNKED => processChunkedBody b ctx
  | HET_EOF => processEOFBody b ctx
  end.

(** The cases of the switch of [processData], each falling through to the
    next one. *)
Definition body_case b ctx : option (DataBuffer * HTTPStreamingContext) :=
  '(ok, b, ctx) ← processBody b ctx;
  Some (b, if ok : bool then on_ctx (setCompleted true) ctx else ctx).

Definition header_case b ctx : option (DataBuffer * HTTPStreamingContext) :=
  '(ok, b, ctx) ← processHeaders b ctx;
  if ok : bool then body_case b (with_step HSS_MESSAGE_BODY ctx) else Some (b, ctx).

Definition start_case b ctx : option (DataBuffer * HTTPStreamingContext) :=
  '(ok, b, ctx) ← processStartLine b ctx;
  if ok : bool then header_case b (with_step HSS_MESSAGE_HEADER ctx) else Some (b, ctx).

Definition http_processData b ctx : option (bool * DataBuffer * HTTPStreamingContext) :=
  '(b, ctx) ← (match _step ctx with
               | HSS_START_LINE => start_case b ctx
               | HSS_MESSAGE_HEADER => header_case b ctx
               | HSS_MESSAGE_BODY => body_case b ctx
               end);
  let ctx :=
    if isEndOfFile (hc_base ctx) then
      if match http_packet ctx with Some p => PT_REQUEST =? getPacketType p | None => false end
         || (negb (isCompleted (hc_base ctx)) && negb (isBroken (hc_base ctx)))
      then http_setErrorNo CONNECTION_CLOSED ctx else ctx
    else ctx in
  Some (negb (isBroken (hc_base ctx)), b, ctx).

(** ** The reading loop of [TCPConnection::readData] with this streamer

    The packets that were completed, in their order. *)

Fixpoint http_read_loop (fuel : nat) b ctx (done : list (dyn_packet HTTPPacket))
  : option (DataBuffer * HTTPStreamingContext * list (dyn_packet HTTPPacket)) :=
  match fuel with
  | O => None
  | S fuel =>
      '(ok, b, ctx) ← http_processData b ctx;
      if negb ok then Some (b, ctx, done)
      else if negb (isCompleted (hc_base ctx)) then Some (b, ctx, done)
      else
        let '(packet, base) := stealPacket (hc_base ctx) in
        packet ← packet;
        http_read_loop fuel b (http_reset (on_ctx (fun _ => base) ctx)) (done ++ [packet])
  end.

(** One round: what the socket had, which is nothing at the end of the file. *)
Definition http_read_round (bufSize : Z) (received : list Z) b ctx (done : list (dyn_packet HTTPPacket))
  : option (DataBuffer * HTTPStreamingContext * list (dyn_packet HTTPPacket)) :=
  b ← ensureFree b bufSize;
  b ← recvFree b received;
  let ret := Z.of_nat (length received) in
  let ctx := if ret =? 0 then on_ctx (setEndOfFile true) ctx else ctx in
  b ← pourData b ret;
  http_read_loop (Z.to_nat (getDataLen b) + 2) b ctx done.

(** Rounds until the context is broken or the file ends. *)
Fixpoint http_read_rounds (bufSize : Z) (pieces : list (list Z)) b ctx (done : list (dyn_packet HTTPPacket))
  : option (DataBuffer * HTTPStreamingContext * list (dyn_packet HTTPPacket)) :=
  match pieces with
  | [] => Some (b, ctx, done)
  | r :: pieces =>
      '(b, ctx, done) ← http_read_round bufSize r b ctx done;
      if isBroken (hc_base ctx) || Nat.eqb (length r) 0 then Some (b, ctx, done)
      else http_read_rounds bufSize pieces b ctx done
  end.

End Streamer.
