(* ===== verification/HttpSafety.v ===== *)
(** * The HTTP parser on arbitrary input

    Whatever bytes arrive, the parser of [HttpStreamer] has a result: it
    never leaves the data, its loops end, its assertions hold; it breaks the
    context with an error code or goes on, and the body it stores stays
    within the limit. *)

From S2P Require Import Prelude CString DataBuffer Packet Streamer DefaultPacket HttpPacket HttpStreamer.

(** ** Scanning stays in the array *)

Section Arrays.

Implicit Types (d : list Z).

(** A byte array of the length of [d]; what the parser may turn [d] into. *)
Definition edited d d' : Prop := length d' = length d /\ Forall is_byte d'.

Lemma edited_refl d : Forall is_byte d -> edited d d.
Proof. done. Qed.

Lemma edited_trans d1 d2 d3 : edited d1 d2 -> edited d2 d3 -> edited d1 d3.
Proof. intros [E _] [E' ?]. split; [congruence|done]. Qed.

Lemma poke_ok d p v :
  (p < length d)%nat -> is_byte v -> Forall is_byte d ->
  exists d', poke d p v = Some d' /\ edited d d' /\ d' !! p = Some v /\ (forall q, q <> p -> d' !! q = d !! q).
Proof.
  intros Hp Hv Hd. rewrite poke_total by done. eexists. split_and!; [done| | |].
  - split; [apply length_insert|by apply Forall_insert].
  - by rewrite list_lookup_insert_eq.
  - intros q Hq. by rewrite list_lookup_insert_ne by done.
Qed.

Lemma findCRLF_total d :
  exists r, findCRLF d 0 (length d) = Some r /\
    match r with
    | None => 10 ∉ d
    | Some (cr, n) => (cr < n <= length d)%nat
    end.
Proof.
  unfold findCRLF. rewrite Nat.sub_0_r.
  destruct (scan_total (length d) (fun c => c =? 10) d 0) as (q & -> & Hq & Hb & He); [lia|].
  cbn [mbind option_bind]. destruct (Nat.eqb_spec q (length d)) as [->|Hne].
  - exists None. split; [done|]. intros [i Hi]%list_elem_of_lookup_1.
    specialize (Hb i 10 ltac:(apply lookup_lt_Some in Hi; lia) Hi). done.
  - destruct (Nat.ltb_spec 1 (q - 0 + 1)); cbn [andb].
    + destruct (lookup_lt_is_Some_2 d (q - 1)) as [c ->]; [lia|]. cbn [mbind option_bind].
      eexists. split; [done|]. cbn. destruct (c =? 13); lia.
    + cbn [mbind option_bind]. eexists. split; [done|]. cbn. lia.
Qed.

Lemma scan_range d stop (p q : nat) :
  (p <= q <= length d)%nat -> exists r, scan (q - p) stop d p = Some r /\ (p <= r <= q)%nat.
Proof. intros H. destruct (scan_total (q - p) stop d p) as (r & E & Hr & _); [lia|]. exists r. split; [done|lia]. Qed.

Lemma find_replace_ok n d p :
  (p + n <= length d)%nat -> Forall is_byte d ->
  exists d' q, find_replace_loop n d p = Some (d', q) /\ (p <= q <= p + n)%nat /\ edited d d' /\
    (forall i, (p + n <= i)%nat -> d' !! i = d !! i).
Proof.
  revert d p. induction n as [|n IH]; intros d p Hl Hd; cbn [find_replace_loop].
  { exists d, p. split_and!; [done|lia|lia|done|done]. }
  destruct (lookup_lt_is_Some_2 d p) as [c ->]; [lia|]. cbn [mbind option_bind].
  destruct (is_ws c). { exists d, p. split_and!; [done|lia|lia|done|done]. }
  assert (Hk : exists d1, (if c =? 0 then poke d p 32 else Some d) = Some d1 /\ edited d d1 /\
     (forall i, (p < i)%nat -> d1 !! i = d !! i)).
  { destruct (c =? 0); [|by exists d].
    destruct (poke_ok d p 32) as (d1 & -> & ? & _ & Hi); [lia|unfold is_byte; lia|done|].
    exists d1. split_and!; [done..|]. intros i ?. apply Hi. lia. }
  destruct Hk as (d1 & -> & [Hl1 Hb1] & Hi1). cbn [mbind option_bind].
  destruct (IH d1 (S p)) as (d' & q & -> & Hq & [Hl2 Hb2] & Hi2); [lia|done|].
  exists d', q. split_and!; [done|lia|lia|split; [congruence|done]|].
  intros i Hi. rewrite Hi2, Hi1 by lia. done.
Qed.

Lemma replace_loop_ok n d p :
  (p + n <= length d)%nat -> Forall is_byte d ->
  exists d', replace_loop n d p = Some d' /\ edited d d' /\
    (forall i, (i < p \/ p + n <= i)%nat -> d' !! i = d !! i).
Proof.
  revert d p. induction n as [|n IH]; intros d p Hl Hd; cbn [replace_loop].
  { by exists d. }
  destruct (lookup_lt_is_Some_2 d p) as [c ->]; [lia|]. cbn [mbind option_bind].
  assert (Hk : exists d1, (if c =? 0 then poke d p 32 else Some d) = Some d1 /\ edited d d1 /\
     (forall i, i <> p -> d1 !! i = d !! i)).
  { destruct (c =? 0); [|by exists d].
    destruct (poke_ok d p 32) as (d1 & -> & ? & _ & Hi); [lia|unfold is_byte; lia|done|]. by exists d1. }
  destruct Hk as (d1 & -> & [Hl1 Hb1] & Hi1). cbn [mbind option_bind].
  destruct (IH d1 (S p)) as (d' & -> & [Hl2 Hb2] & Hi2); [lia|done|].
  exists d'. split_and!; [done|split; [congruence|done]|].
  intros i Hi. rewrite Hi2, Hi1 by lia. done.
Qed.

Lemma token_loop_total n d p :
  (p + n <= length d)%nat -> Forall is_byte d -> exists ok, token_loop n d p = Some ok.
Proof.
  revert p. induction n as [|n IH]; intros p Hl Hd; cbn [token_loop]; [eauto|].
  destruct (lookup_lt_is_Some_2 d p) as [c Ec]; [lia|]. rewrite Ec. cbn [mbind option_bind].
  assert (Hc : is_byte c) by (eapply Forall_lookup_1; eauto). unfold isTokenCharacter.
  destruct (lookup_lt_is_Some_2 _table (Z.to_nat c)) as [v ->].
  { change (length _table) with 256%nat. unfold is_byte in Hc. lia. }
  cbn [mbind option_bind]. destruct (v =? 0); cbn [negb]; [eauto|]. apply IH; [lia|done].
Qed.

Lemma strdupTrimed_total s front end_ :
  Forall is_char s -> exists u, strdupTrimed s front end_ = Some u /\ forall t, u = Some t -> Forall is_char t.
Proof.
  intros Hs. unfold strdupTrimed. destruct (Nat.eqb_spec (length s) 0); [eexists; split; done|].
  assert (H1 : exists p1, (if front then scan (length s - 1 - 0) (fun c => negb (c =? 32)) s 0 else Some 0%nat) = Some p1
            /\ (p1 <= length s - 1)%nat).
  { destruct front; [|exists 0%nat; split; [done|lia]].
    destruct (scan_range s (fun c => negb (c =? 32)) 0 (length s - 1)) as (r & -> & ?); [lia|].
    exists r. split; [done|lia]. }
  destruct H1 as (p1 & -> & Hp1). cbn [mbind option_bind].
  assert (H2 : exists p2, (if end_ then pred <$> scan_back (length s - 1 - p1) (fun c => negb (c =? 32)) s (S (length s - 1))
             else Some (length s - 1)%nat) = Some p2).
  { destruct end_; [|eauto].
    destruct (scan_back_total (length s - 1 - p1) (fun c => negb (c =? 32)) s (S (length s - 1))) as (r & -> & _); [lia|].
    eexists. done. }
  destruct H2 as (p2 & ->). cbn [mbind option_bind].
  destruct (lookup_lt_is_Some_2 s p1) as [c ->]; [lia|]. cbn [mbind option_bind].
  destruct (_ && _); eexists; (split; [done|]); intros t [= <-]. by apply Forall_take, Forall_drop.
Qed.

(** A terminated string has no zero and only bytes of the array. *)
Lemma cstring_at_ok d p q :
  d !! q = Some 0 -> (p <= q)%nat -> Forall is_byte d ->
  exists s, cstring_at d p = Some s /\ Forall is_char s /\ (length s <= q - p)%nat.
Proof.
  intros Hq Hp Hd. destruct (cstring_at_some d p q Hq Hp) as (s & E & H0 & Hl & Hs).
  exists s. split_and!; [done| |done]. apply chars_of_bytes; [|done].
  rewrite Hs. by apply Forall_take, Forall_drop.
Qed.

End Arrays.

#[local] Hint Resolve edited_refl : core.

(** ** The context *)

Implicit Types (c : HTTPStreamingContext) (p : HTTPPacket) (b : DataBuffer) (d : list Z).

(** A broken context says why. *)
Definition err_ok c : Prop := isBroken (hc_base c) = true -> is_Some (_errorString (hc_base c)).

(** What parsing a line leaves alone in the context and in the packet. *)
Record keeps c c' : Prop := {
  keeps_step : _step c' = _step c;
  keeps_chunk : _chunkState c' = _chunkState c;
  keeps_enc : _encodingType c' = _encodingType c;
  keeps_data : _dataLength c' = _dataLength c;
  keeps_drained : _drainedLength c' = _drainedLength c;
  keeps_count : _headersCount c' = _headersCount c;
  keeps_eof : isEndOfFile (hc_base c') = isEndOfFile (hc_base c);
  keeps_completed : isCompleted (hc_base c') = isCompleted (hc_base c)
}.

Definition same_load p p' : Prop :=
  hp_base p' = hp_base p /\ _headers p' = _headers p /\ _headerLen p' = _headerLen p.

Record line_post c p (rc : bool) c' : Prop := {
  line_keeps : keeps c c';
  line_packet : exists p', http_packet c' = Some p' /\ same_load p p';
  line_err : err_ok c';
  line_broken : isBroken (hc_base c') = if rc then isBroken (hc_base c) else true
}.

Lemma line_fail e c c1 p p1 :
  is_Some (error_string e) -> keeps c c1 -> http_packet c1 = Some p1 -> same_load p p1 ->
  line_post c p false (http_setErrorNo e c1).
Proof. intros He [] Hp Hl. split; [by split|by exists p1|by intros _|done]. Qed.

Lemma line_good c c1 p p1 :
  keeps c c1 -> err_ok c -> isBroken (hc_base c1) = isBroken (hc_base c) ->
  _errorString (hc_base c1) = _errorString (hc_base c) -> http_packet c1 = Some p1 -> same_load p p1 ->
  line_post c p true c1.
Proof. intros Hk He Hb Hs Hp Hl. split; [done|by exists p1| |done]. unfold err_ok. by rewrite Hb, Hs. Qed.

(** The error codes the parser uses have a string. *)
Lemma known_error e :
  e ∈ [INVALID_DATA; CONNECTION_CLOSED; PKG_TOO_LARGE; URI_TOO_LARGE; VERSION_NOT_SUPPORT; TOO_MANY_HEADERS] ->
  is_Some (error_string e).
Proof. intros H. repeat (apply elem_of_cons in H as [->|H]; [by eexists|]). by apply elem_of_nil in H. Qed.

Local Ltac known := apply known_error; unfold INVALID_DATA, CONNECTION_CLOSED, PKG_TOO_LARGE, URI_TOO_LARGE,
  VERSION_NOT_SUPPORT, TOO_MANY_HEADERS; set_solver.

Lemma keeps_put p c : keeps c (put_packet p c).
Proof. done. Qed.

Lemma request_version_ok c c0 p p0 v :
  keeps c0 c -> err_ok c0 -> isBroken (hc_base c) = isBroken (hc_base c0) ->
  _errorString (hc_base c) = _errorString (hc_base c0) -> same_load p0 p ->
  line_post c0 p0 (request_version c p v).1 (request_version c p v).2.
Proof.
  intros Hk He Hb Hs Hl. unfold request_version. repeat case_match.
  1, 2: by eapply line_good; eauto; destruct Hk; split.
  eapply line_fail; [known|destruct Hk; by split|done|done].
Qed.

Lemma setMethodString_load p m : same_load p (setMethodString m p).
Proof. unfold setMethodString. repeat case_match; done. Qed.

Lemma setURI_load p u :
  Forall is_char u -> exists p', setURI (Some u) p = Some p' /\ same_load p p'.
Proof.
  intros Hu. unfold setURI. destruct (strdupTrimed_total u true true Hu) as (r & -> & _). cbn. by eexists.
Qed.

Lemma setReasonPhrase_load p u :
  Forall is_char u -> exists p', setReasonPhrase (Some u) p = Some p' /\ same_load p p'.
Proof.
  intros Hu. unfold setReasonPhrase. destruct (strdupTrimed_total u true false Hu) as (r & -> & _). cbn. by eexists.
Qed.

Lemma same_load_trans p1 p2 p3 : same_load p1 p2 -> same_load p2 p3 -> same_load p1 p3.
Proof. intros (? & ? & ?) (? & ? & ?). split_and!; congruence. Qed.

(** The request line: every path has a result. *)
Lemma processRequestLine_ok c p d cr :
  http_packet c = Some p -> d !! cr = Some 0 -> Forall is_byte d -> err_ok c ->
  exists rc d' c', processRequestLine c d 0 cr = Some (rc, d', c') /\ edited d d' /\ line_post c p rc c'.
Proof.
  intros Hp Hz Hd He. pose proof (lookup_lt_Some _ _ _ Hz) as Hcr. unfold processRequestLine.
  unfold findNextWhiteSpace, skipWhiteSpaces, findNextWhiteSpaceAndReplaceZero, isValidToken.
  destruct (scan_range d is_ws 0 cr) as (q & -> & Hq); [lia|]. cbn [mbind option_bind].
  destruct (Nat.eqb_spec q cr).
  { eexists false, d, _. split_and!; [done|done|eapply line_fail; [known|done|done|done]]. }
  destruct (poke_ok d q 0) as (d1 & -> & [Hl1 Hb1] & Hq0 & Hi1); [lia|unfold is_byte; lia|done|].
  rewrite Hp. cbn [mbind option_bind]. assert (Hz1 : d1 !! cr = Some 0) by (rewrite Hi1 by lia; done).
  destruct (token_loop_total (q - 0) d1 0) as [ok ->]; [lia|done|]. cbn [mbind option_bind].
  destruct ok; cbn [negb].
  2: { eexists false, d1, _. split_and!; [done|done|eapply line_fail; [known|done|done|done]]. }
  destruct (cstring_at_ok d1 0 q) as (m & -> & Hm & _); [done|lia|done|]. cbn [mbind option_bind].
  set (p1 := setMethodString m (setPacketType PT_REQUEST p)).
  assert (Hs1 : same_load p p1) by (eapply same_load_trans; [|apply setMethodString_load]; done).
  clearbody p1. destruct (scan_range d1 (fun x => negb (is_ws x)) (q + 1) cr) as (s & -> & Hs); [lia|].
  cbn [mbind option_bind]. destruct (Nat.eqb_spec s cr).
  { eexists false, d1, _. split_and!; [done|done|eapply line_fail; [known|apply keeps_put|done|done]]. }
  destruct (find_replace_ok (cr - s) d1 s) as (d2 & r & -> & Hr & [Hl2 Hb2] & Hi2); [lia|done|].
  cbn [mbind option_bind]. destruct (Nat.eqb_spec r cr).
  { eexists false, d2, _. split_and!; [done|split; [congruence|done]|eapply line_fail; [known|apply keeps_put|done|done]]. }
  destruct (poke_ok d2 r 0) as (d3 & -> & [Hl3 Hb3] & Hr0 & Hi3); [lia|unfold is_byte; lia|done|]. cbn [mbind option_bind].
  assert (Hz3 : d3 !! cr = Some 0) by (rewrite Hi3, Hi2 by lia; done).
  assert (Hed : edited d d3) by (split; [congruence|done]).
  destruct (URI_LIMIT <? _).
  { eexists false, d3, _. split_and!; [done|done|eapply line_fail; [known|apply keeps_put|done|done]]. }
  destruct (cstring_at_ok d3 s r) as (u & -> & Hu & _); [done|lia|done|]. cbn [mbind option_bind].
  destruct (setURI_load p1 u Hu) as (p2 & -> & Hs2). cbn [mbind option_bind].
  destruct (scan_range d3 (fun x => negb (is_ws x)) (r + 1) cr) as (v & -> & Hv); [lia|]. cbn [mbind option_bind].
  destruct (cstring_at_ok d3 v cr) as (w & -> & _ & _); [done|lia|done|]. cbn [mbind option_bind].
  pose proof (request_version_ok (put_packet p1 c) c p2 p w (keeps_put _ _) He eq_refl eq_refl
                (same_load_trans _ _ _ Hs1 Hs2)) as Hpost.
  destruct (request_version _ _ _) as [rc c']. eexists rc, d3, c'. done.
Qed.

Lemma isValidStatusCode_total s : exists ok, isValidStatusCode s = Some ok.
Proof.
  unfold isValidStatusCode. destruct (Nat.eqb_spec (length s) 3) as [E|]; cbn [negb]; [|eauto].
  destruct s as [|x [|y [|z [|]]]]; try done. cbn. eauto.
Qed.

Lemma status_code_ok c0 c p0 p d s cr :
  http_packet c = Some p -> same_load p0 p -> keeps c0 c -> err_ok c0 -> isBroken (hc_base c) = isBroken (hc_base c0) ->
  _errorString (hc_base c) = _errorString (hc_base c0) -> d !! cr = Some 0 -> (s <= cr)%nat -> Forall is_byte d ->
  exists rc d' c', status_code c p d s cr = Some (rc, d', c') /\ edited d d' /\ line_post c0 p0 rc c'.
Proof.
  intros Hp Hl0 Hk He Hb Hes Hz Hs Hd. pose proof (lookup_lt_Some _ _ _ Hz) as Hcr. unfold status_code.
  unfold findNextWhiteSpace, skipWhiteSpaces. destruct (scan_range d is_ws s cr) as (q & -> & Hq); [lia|].
  cbn [mbind option_bind].
  assert (Hd1 : exists d1, (if Nat.eqb q cr then Some d else poke d q 0) = Some d1 /\ edited d d1 /\
            d1 !! q = Some 0 /\ d1 !! cr = Some 0).
  { destruct (Nat.eqb_spec q cr) as [->|]; [by exists d|].
    destruct (poke_ok d q 0) as (d1 & -> & ? & Hq0 & Hi); [lia|unfold is_byte; lia|done|].
    exists d1. split_and!; [done..|]. rewrite Hi by lia. done. }
  destruct Hd1 as (d1 & -> & [Hl1 Hb1] & Hq0 & Hz1). cbn [mbind option_bind].
  destruct (cstring_at_ok d1 s q) as (code & -> & _ & _); [done|lia|done|]. cbn [mbind option_bind].
  destruct (isValidStatusCode_total code) as [ok ->]. cbn [mbind option_bind]. destruct ok; cbn [negb].
  2: { eexists false, d1, _. split_and!; [done|done|]. by eapply line_fail; [known| | |]. }
  set (p1 := setStatusCode (atoi code) p). assert (Hl1' : same_load p0 p1) by done. clearbody p1.
  assert (Hk1 : keeps c0 (put_packet p1 c)) by (destruct Hk; by split).
  destruct (Nat.eqb_spec q cr).
  { eexists true, d1, _. split_and!; [done|done|]. by eapply line_good. }
  destruct (scan_range d1 (fun x => negb (is_ws x)) (q + 1) cr) as (v & -> & Hv); [lia|]. cbn [mbind option_bind].
  destruct (Nat.eqb_spec v cr); cbn [negb].
  { eexists true, d1, _. split_and!; [done|done|]. by eapply line_good. }
  destruct (cstring_at_ok d1 v cr) as (w & -> & Hw & _); [done|lia|done|]. cbn [mbind option_bind].
  destruct (setReasonPhrase_load p1 w Hw) as (p2 & -> & Hl2). cbn [mbind option_bind].
  eexists true, d1, _. split_and!; [done|done|]. eapply line_good; eauto using same_load_trans.
  destruct Hk; by split.
Qed.

Lemma processStatusLine_ok c p d cr :
  http_packet c = Some p -> d !! cr = Some 0 -> Forall is_byte d -> err_ok c ->
  exists rc d' c', processStatusLine c d 0 cr = Some (rc, d', c') /\ edited d d' /\ line_post c p rc c'.
Proof.
  intros Hp Hz Hd He. pose proof (lookup_lt_Some _ _ _ Hz) as Hcr. unfold processStatusLine.
  unfold findNextWhiteSpace, skipWhiteSpaces.
  destruct (scan_range d is_ws 0 cr) as (q & -> & Hq); [lia|]. cbn [mbind option_bind].
  destruct (Nat.eqb_spec q cr).
  { eexists false, d, _. split_and!; [done|done|eapply line_fail; [known|done|done|done]]. }
  destruct (poke_ok d q 0) as (d1 & -> & [Hl1 Hb1] & Hq0 & Hi1); [lia|unfold is_byte; lia|done|].
  rewrite Hp. cbn [mbind option_bind]. assert (Hz1 : d1 !! cr = Some 0) by (rewrite Hi1 by lia; done).
  destruct (cstring_at_ok d1 0 q) as (v & -> & _ & _); [done|lia|done|]. cbn [mbind option_bind].
  pose proof (request_version_ok c c (setPacketType PT_RESPONSE p) p v) as Hv.
  assert (Hs : (request_version c (setPacketType PT_RESPONSE p) v).1 = true ->
     _errorString (hc_base (request_version c (setPacketType PT_RESPONSE p) v).2) = _errorString (hc_base c)).
  { unfold request_version. by repeat case_match. }
  destruct (request_version _ _ _) as [rc c']. destruct Hv as [Hk (p' & Hp' & Hl') He' Hb']; [done..|].
  cbn [fst snd] in *. destruct rc; cbn [negb].
  2: { eexists false, d1, c'. split_and!; [done|done|]. split; eauto. }
  rewrite Hp'. cbn [mbind option_bind].
  destruct (scan_range d1 (fun x => negb (is_ws x)) (q + 1) cr) as (s & -> & Hss); [lia|]. cbn [mbind option_bind].
  destruct (Nat.eqb_spec s cr).
  { eexists false, d1, _. split_and!; [done|done|]. by eapply line_fail; [known| | |]. }
  destruct (status_code_ok c c' p p' d1 s cr) as (rc & d2 & c2 & -> & [Hl2 ?] & Hpost); try done; [by apply Hs|lia|].
  exists rc, d2, c2. split_and!; [done|split; [congruence|done]|done].
Qed.

Lemma processPerHeaderLine_ok d cr p :
  d !! cr = Some 0 -> Forall is_byte d -> headers_inv p ->
  exists rc d' p', processPerHeaderLine d 0 cr p = Some (rc, d', p') /\ edited d d' /\
    headers_inv p' /\ hp_base p' = hp_base p.
Proof.
  intros Hz Hd Hi. pose proof (lookup_lt_Some _ _ _ Hz) as Hcr. unfold processPerHeaderLine, trim, skipWhiteSpaces.
  destruct (scan_range d (fun x => x =? 58) 0 cr) as (q & -> & Hq); [lia|]. cbn [mbind option_bind].
  destruct (Nat.leb_spec cr q); [by eexists false, d, p|].
  destruct (poke_ok d q 0) as (d1 & -> & [Hl1 Hb1] & Hq0 & Hi1); [lia|unfold is_byte; lia|done|].
  cbn [mbind option_bind].
  destruct (scan_range d1 (fun x => negb (is_ws x)) (q + 1) cr) as (s & -> & Hs); [lia|]. cbn [mbind option_bind].
  destruct (scan_back_total (cr - s) (fun x => negb (is_ws x)) d1 cr) as (e & -> & He & _); [lia|]. cbn [mbind option_bind].
  unfold replaceZero. destruct (replace_loop_ok (e - s) d1 s) as (d2 & -> & [Hl2 Hb2] & Hi2); [lia|done|].
  cbn [mbind option_bind].
  destruct (poke_ok d2 e 0) as (d3 & -> & [Hl3 Hb3] & He0 & Hi3); [lia|unfold is_byte; lia|done|]. cbn [mbind option_bind].
  destruct (cstring_at_ok d3 0 q) as (k & -> & Hk & _); [rewrite Hi3, Hi2 by lia; done|lia|done|]. cbn [mbind option_bind].
  destruct (cstring_at_ok d3 s e) as (v & -> & Hv & _); [done|lia|done|]. cbn [mbind option_bind].
  eexists true, d3, _. split_and!; [done|split; [congruence|done]|by apply addHeader_ok|done].
Qed.

(** ** The buffer *)

Lemma rep_putData b d d' : rep b d -> edited d d' -> exists b', putData b d' = Some b' /\ rep b' d'.
Proof.
  intros Hr [Hl Hb]. unfold putData. destruct d as [|x d].
  { apply nil_length_inv in Hl as ->. destruct Hr as [->|pre post -> ? ? ?]; [eexists; split; [done|by apply rep_null]|].
    cbn [_mem _pdata fmap list_fmap app length]. rewrite Nat.add_0_r.
    rewrite (mem_write_mid pre [] [] post) by done. cbn [mbind option_bind].
    eexists. split; [done|]. apply (rep_block _ _ pre post); try done. cbn. by rewrite Nat.add_0_r. }
  destruct (rep_mid [] (x :: d) d' [] b) as (a & e & Hm & Hp & Hr'); [by rewrite app_nil_r|done|done|done|].
  rewrite Hm. cbn [length] in Hp. rewrite Z.add_0_r in Hp. rewrite Hp.
  rewrite mem_write_mid by (rewrite ?length_fmap; done). cbn [mbind option_bind].
  eexists. split; [done|]. rewrite <- Hp. rewrite app_nil_r in Hr'. done.
Qed.

Lemma rep_drain b d (n : nat) :
  rep b d -> (n <= length d)%nat -> rep (drainData b (i32 (Z.of_nat n))) (drop n d).
Proof.
  intros Hr Hn. pose proof (rep_length _ _ Hr). unfold BUF_MAX in *.
  rewrite i32_small by (unfold INT_MIN, INT_MAX; lia).
  pose proof (rep_drainData b d (Z.of_nat n) Hr ltac:(lia)) as H'. by rewrite Nat2Z.id in H'.
Qed.

Lemma u64_len b d : rep b d -> u64 (getDataLen b) = Z.of_nat (length d).
Proof.
  intros Hr. pose proof (rep_length _ _ Hr). unfold BUF_MAX in *. rewrite (rep_getDataLen _ _ Hr).
  apply wrapu_small. lia.
Qed.

Lemma rep_dataPtr b d : rep b d -> dataPtr b = Some (Some d) \/ (dataPtr b = Some None /\ d = []).
Proof.
  intros Hr. unfold dataPtr. rewrite (rep_getData _ _ Hr).
  destruct Hr as [->|pre post -> ? ? ?]; [by right|by left].
Qed.

(** ** Headers, body and chunks *)

Section Body.

Context (pkgLimit : Z).

Abbreviation limit := (getPkgLimit pkgLimit).

Implicit Types (l : list Z).

Definition packet_ok p l : Prop := headers_inv p /\ body_rep (hp_base p) l.

(** Bytes only move from the buffer to the count of those that were taken. *)
Record moves c d c' d' : Prop := {
  moves_range : 0 <= _drainedLength c';
  moves_up : _drainedLength c <= _drainedLength c';
  moves_len : (length d' <= length d)%nat;
  moves_sum : _drainedLength c' + Z.of_nat (length d') <= _drainedLength c + Z.of_nat (length d);
  moves_err : err_ok c';
  moves_eof : isEndOfFile (hc_base c') = isEndOfFile (hc_base c);
  moves_completed : isCompleted (hc_base c') = isCompleted (hc_base c);
  moves_step : _step c' = _step c;
  moves_enc : _encodingType c' = _encodingType c
}.

Definition small c d : Prop := 0 <= _drainedLength c /\ _drainedLength c + Z.of_nat (length d) <= 2 ^ 62.

Lemma drained_add c d n :
  small c d -> 0 <= n <= Z.of_nat (length d) -> u64 (_drainedLength c + n) = _drainedLength c + n.
Proof. intros [? ?] ?. apply wrapu_small. lia. Qed.

Lemma moves_refl c d : small c d -> err_ok c -> moves c d c d.
Proof. intros [? ?] ?. by split. Qed.

Lemma moves_trans c d c1 d1 c2 d2 : moves c d c1 d1 -> moves c1 d1 c2 d2 -> moves c d c2 d2.
Proof. intros [] []. split; [done|lia|lia|lia|done|congruence..]. Qed.

Lemma moves_small c d c' d' : small c d -> moves c d c' d' -> small c' d'.
Proof. intros [? ?] []. split; lia. Qed.

Lemma moves_fail e c d c' d' : is_Some (error_string e) -> moves c d c' d' -> moves c d (http_setErrorNo e c') d'.
Proof. intros He []. split; try done. by intros _. Qed.

(** *** The header lines *)

Record headers_post c d p (ok : bool) c' d' p' : Prop := {
  hp_moves : moves c d c' d';
  hp_packet : http_packet c' = Some p';
  hp_inv : headers_inv p';
  hp_load : hp_base p' = hp_base p;
  hp_chunk : _chunkState c' = _chunkState c;
  hp_data : _dataLength c' = _dataLength c;
  hp_less : ok = true -> (length d' < length d)%nat;
  hp_limit : ok = true -> _drainedLength c' <= limit
}.

Lemma headers_loop_ok fuel b d c p :
  (length d < fuel)%nat -> rep b d -> small c d -> err_ok c -> http_packet c = Some p -> headers_inv p ->
  exists ok b' c' d' p', headers_loop pkgLimit fuel b c = Some (ok, b', c') /\ rep b' d' /\
    headers_post c d p ok c' d' p'.
Proof.
  revert b d c p. induction fuel as [|fuel IH]; intros b d c p Hf Hr Hsm He Hp Hi; [lia|].
  cbn [headers_loop]. rewrite (rep_getData _ _ Hr). cbn [mbind option_bind].
  destruct (findCRLF_total d) as ([[cr n]|] & -> & Hcr); cbn [mbind option_bind].
  2: { destruct (limit <? _); eexists false, b, _, d, p; (split_and!; [done|done|]); split;
       eauto using moves_refl; try done; apply moves_fail; [known|by apply moves_refl]. }
  rewrite (drained_add c d) by (done || lia).
  destruct (limit <? _) eqn:El.
  { eexists false, b, _, d, p. split_and!; [done|done|]. split; try done.
    apply moves_fail; [known|by apply moves_refl]. }
  bool_to_prop. destruct (poke_ok d cr 0) as (d1 & -> & [Hl1 Hb1] & Hz & _); [lia|unfold is_byte; lia|by eapply rep_bytes|].
  cbn [mbind option_bind]. destruct (Nat.eqb_spec cr 0) as [->|Hcr0].
  - destruct (rep_putData b d d1 Hr) as (b1 & -> & R1); [done|]. cbn [mbind option_bind].
    eexists true, _, _, (drop n d1), p. split_and!; [done|apply rep_drain; [done|lia]|].
    split; try done; cbn; rewrite ?length_drop, ?(drained_add c d) by (done || lia); [|lia|lia].
    destruct Hsm. split; cbn; rewrite ?length_drop, ?(drained_add c d) by (done || lia); try done; lia.
  - rewrite Hp. cbn [mbind option_bind].
    destruct (processPerHeaderLine_ok d1 cr p Hz Hb1 Hi) as (rc & d2 & p2 & -> & [Hl2 Hb2] & Hi2 & Hbase).
    cbn [mbind option_bind].
    destruct (rep_putData b d d2 Hr) as (b1 & -> & R1); [split; [congruence|done]|]. cbn [mbind option_bind].
    pose proof (rep_drain b1 d2 n R1 ltac:(lia)) as R2.
    set (c1 := count_header (put_packet p2 c)).
    set (c2 := if HEADERS_LIMIT <? _ then http_setErrorNo TOO_MANY_HEADERS c1 else c1).
    assert (Hc2 : err_ok c2 /\ http_packet c2 = Some p2 /\ _drainedLength c2 = _drainedLength c /\
       isEndOfFile (hc_base c2) = isEndOfFile (hc_base c) /\ isCompleted (hc_base c2) = isCompleted (hc_base c) /\
       _step c2 = _step c /\ _encodingType c2 = _encodingType c /\ _chunkState c2 = _chunkState c /\ _dataLength c2 = _dataLength c).
    { unfold c2. destruct (HEADERS_LIMIT <? _); [|done]. split_and!; try done. intros _. apply known_error.
      unfold TOO_MANY_HEADERS. set_solver. }
    destruct Hc2 as (He2 & Hp2 & Hdr & He' & Hc' & Hst & Hen & Hch & Hda). clearbody c2.
    assert (Hm : moves c d (add_drained (Z.of_nat n) c2) (drop n d2)).
    { destruct Hsm. split; cbn; rewrite ?Hdr, ?length_drop, ?(drained_add c d) by (done || lia); try done; lia. }
    destruct (IH (drainData b1 (i32 (Z.of_nat n))) (drop n d2) (add_drained (Z.of_nat n) c2) p2) as (ok & b' & c' & d' & p' & -> & R' & [Hm' ? ? Hb' Hch' Hda' Hle Hli]).
    { rewrite length_drop. lia. } { exact R2. } { by eapply moves_small. } { done. } { done. } { done. }
    exists ok, b', c', d', p'. split_and!; [done|done|]. split; try done.
    + by eapply moves_trans.
    + congruence.
    + by rewrite Hch'.
    + by rewrite Hda'.
    + intros Ht. specialize (Hle Ht). rewrite length_drop in Hle. lia.
Qed.

Lemma processHeadersOrTrailers_ok b d c p :
  rep b d -> small c d -> err_ok c -> http_packet c = Some p -> headers_inv p ->
  exists ok b' c' d' p', processHeadersOrTrailers pkgLimit b c = Some (ok, b', c') /\ rep b' d' /\
    headers_post c d p ok c' d' p'.
Proof.
  intros Hr Hs He Hp Hi. unfold processHeadersOrTrailers. rewrite Hp. cbn [mbind option_bind].
  rewrite (rep_getDataLen _ _ Hr), Nat2Z.id. by apply headers_loop_ok; [lia|..].
Qed.

(** *** The body *)

(** An allocator serves no request beyond the address space; the limit is a
    size the program can count to. *)
Context (alloc_ok : Z -> bool) (alloc_limit : forall n, alloc_ok n = true -> n < 2 ^ 62).
Context (limit_range : 0 <= pkgLimit < 2 ^ 63).

Lemma getPkgLimit_range : 0 <= limit < 2 ^ 63.
Proof using limit_range. clear alloc_limit. unfold getPkgLimit, PKG_LIMIT. case_bool; lia. Qed.

(** Appending to the body succeeds or leaves it as it was. *)
Lemma append_data_ok b d (n : nat) c p l :
  rep b d -> (n <= length d)%nat -> http_packet c = Some p -> packet_ok p l ->
  exists p' l', append_data alloc_ok b (Z.of_nat n) c = Some (put_packet p' c) /\ packet_ok p' l' /\ 
    (l' = l \/ l' = l ++ take n d) /\ getPacketType p' = getPacketType p.
Proof using alloc_limit.
  clear limit_range. intros Hr Hn Hp [Hi Hb]. unfold append_data. rewrite Hp. cbn [mbind option_bind].
  assert (Hpk : packet_ok p l) by done. assert (Hw : with_base (hp_base p) p = p) by (by destruct p).
  destruct (rep_dataPtr b d Hr) as [->|[-> ->]]; cbn [mbind option_bind].
  2: { exists p, l. cbn [appendBody mbind option_bind]. rewrite Hw. split_and!; auto. }
  destruct (decide (n = 0%nat)) as [->|Hn0].
  { exists p, l. unfold appendBody. change (Z.of_nat 0) with 0. rewrite Z.eqb_refl. cbn [mbind option_bind]. rewrite Hw. split_and!; auto. }
  assert (Hlen : length (take n d) = n) by (rewrite length_take; lia).
  pose proof (rep_length _ _ Hr). unfold BUF_MAX in *.
  destruct (appendBody_ok alloc_ok alloc_limit (hp_base p) l (take n d)) as (ok & q & E & Hbase & Hq & _).
  { done. } { intros E. by rewrite E in Hlen. } { apply Forall_take. by eapply rep_bytes. } { rewrite Hlen. lia. }
  rewrite Hlen in E. pose proof (appendBody_prefix alloc_ok (hp_base p) (take n d) (drop n d)) as Epre.
  rewrite take_drop, Hlen in Epre. rewrite Epre, E. cbn [mbind option_bind].
  exists (with_base q p), (if ok then l ++ take n d else l). split_and!; [done|done|destruct ok; auto|done].
Qed.

Lemma processLengthBody_ok b d c p l :
  rep b d -> small c d -> err_ok c -> http_packet c = Some p -> packet_ok p l -> 0 < _dataLength c <= INT_MAX ->
  exists ok b' c' d' p' l', processLengthBody alloc_ok b c = Some (ok, b', c') /\ rep b' d' /\ moves c d c' d' /\
    http_packet c' = Some p' /\ packet_ok p' l' /\ _chunkState c' = _chunkState c /\
    Z.of_nat (length l') + _drainedLength c <= Z.of_nat (length l) + _drainedLength c' /\
    (ok = true -> Z.of_nat (length l') <= Z.of_nat (length l) + _dataLength c /\ (length d' < length d)%nat) /\
    (ok = false -> 0 < _dataLength c' <= INT_MAX /\
       Z.of_nat (length l') + _dataLength c' <= Z.of_nat (length l) + _dataLength c).
Proof using alloc_limit.
  clear limit_range. intros Hr Hs He Hp Hpk Hn. unfold processLengthBody. rewrite (u64_len _ _ Hr).
  unfold INT_MAX in *. pose proof Hs as [Hs1 Hs2]. destruct (Z.leb_spec (_dataLength c) (Z.of_nat (length d))).
  - assert (Hz : _dataLength c = Z.of_nat (Z.to_nat (_dataLength c))) by lia.
    destruct (append_data_ok b d (Z.to_nat (_dataLength c)) c p l Hr) as (p' & l' & E & Hpk' & Hl' & _); [lia|done|done|].
    rewrite Hz, E. cbn [mbind option_bind]. change (_dataLength (put_packet p' c)) with (_dataLength c). rewrite Hz.
    eexists true, _, _, (drop (Z.to_nat (_dataLength c)) d), p', l'.
    split; [done|]. split; [apply rep_drain; [done|lia]|].
    assert (Ed : _drainedLength (add_drained (Z.of_nat (Z.to_nat (_dataLength c))) (put_packet p' c)) =
              _drainedLength c + _dataLength c) by (cbn; rewrite (drained_add c d) by (done || lia); lia).
    assert (Z.of_nat (length l') <= Z.of_nat (length l) + _dataLength c).
    { destruct Hl' as [->| ->]; rewrite ?length_app, ?length_take; lia. }
    split; [split; rewrite ?Ed, ?length_drop; try done; lia|].
    split_and!; [done|done|done|rewrite Ed; lia|rewrite length_drop; split; lia|done].
  - destruct (append_data_ok b d (length d) c p l Hr) as (p' & l' & -> & Hpk' & Hl' & _); [lia|done|done|].
    cbn [mbind option_bind]. eexists false, _, _, [], p', l'.
    split; [done|]. split; [by eapply rep_clear|]. rewrite firstn_all in Hl'.
    set (c' := add_drained _ _).
    assert (Ed : _drainedLength c' = _drainedLength c + Z.of_nat (length d))
      by (cbn; rewrite (drained_add c d) by (done || lia); lia).
    assert (En : _dataLength c' = _dataLength c - Z.of_nat (length d)) by (cbn; rewrite wrapu_small; lia).
    assert (Z.of_nat (length l') <= Z.of_nat (length l) + Z.of_nat (length d)).
    { destruct Hl' as [->| ->]; rewrite ?length_app; lia. }
    split; [split; rewrite ?Ed; cbn [length]; try done; lia|].
    split_and!; [done|done|done|rewrite Ed; lia|done|rewrite En; lia].
Qed.

Lemma processEOFBody_ok b d c p l :
  rep b d -> small c d -> err_ok c -> http_packet c = Some p -> packet_ok p l ->
  exists b' c' p' l', processEOFBody alloc_ok b c = Some (isEndOfFile (hc_base c), b', c') /\ rep b' [] /\
    moves c d c' [] /\ http_packet c' = Some p' /\ packet_ok p' l' /\ getPacketType p' = getPacketType p.
Proof using alloc_limit.
  clear limit_range. intros Hr [Hs1 Hs2] He Hp Hpk. unfold processEOFBody. rewrite (u64_len _ _ Hr).
  destruct (append_data_ok b d (length d) c p l Hr) as (p' & l' & -> & Hpk' & _ & Hty); [lia|done|done|].
  cbn [mbind option_bind]. eexists _, _, p', l'. split; [done|]. split; [by eapply rep_clear|].
  split; [split; cbn; try done; lia|]. done.
Qed.

(** *** Chunks *)

Lemma sscanf_xc_range s n r : sscanf_xc s = (Some n, r) -> INT_MIN <= n <= INT_MAX.
Proof.
  clear alloc_ok alloc_limit limit_range. unfold sscanf_xc. intros E. repeat case_match; simplify_eq;
  match goal with |- context [i32 ?x] => pose proof (wraps_range 32 x ltac:(lia)); unfold INT_MIN, INT_MAX; lia end.
Qed.

Lemma processChunkSize_ok b d c p l :
  rep b d -> small c d -> err_ok c -> http_packet c = Some p -> packet_ok p l -> Z.of_nat (length l) <= _drainedLength c ->
  exists ok b' c' d', processChunkSize pkgLimit b c = Some (ok, b', c') /\ rep b' d' /\ moves c d c' d' /\
    http_packet c' = Some p /\ _drainedLength c <= _drainedLength c' /\
    (ok = true -> (length d' < length d)%nat /\ (_chunkState c' = TRAILER \/
       _chunkState c' = CHUNK_DATA /\ 0 < _dataLength c' <= INT_MAX /\ Z.of_nat (length l) + _dataLength c' <= limit)) /\
    (ok = false -> isBroken (hc_base c') = true \/ c' = c).
Proof using limit_range.
  clear alloc_ok alloc_limit. intros Hr Hs He Hp Hpk Hdl. pose proof Hs as [Hs1 Hs2].
  pose proof (moves_refl c d Hs He) as Hm0. unfold processChunkSize.
  rewrite (rep_getData _ _ Hr). cbn [mbind option_bind].
  destruct (findCRLF_total d) as ([[cr n]|] & -> & Hcr); cbn [mbind option_bind].
  2: { destruct (limit <? _); eexists false, b, _, d.
       - split_and!; [done|done|apply moves_fail; [known|done]|done|cbn; lia|done|by left].
       - split_and!; [done|done|done|done|lia|done|by right]. }
  destruct (poke_ok d cr 0) as (d1 & -> & [Hl1 Hb1] & Hz & _); [lia|unfold is_byte; lia|by eapply rep_bytes|].
  cbn [mbind option_bind]. destruct (rep_putData b d d1 Hr) as (b1 & -> & R1); [done|]. cbn [mbind option_bind].
  assert (Hm1 : moves c d c d1) by (split; try done; lia).
  destruct (limit <? _).
  { eexists false, b1, _, d1. split_and!; [done|done|apply moves_fail; [known|done]|done|cbn; lia|done|by left]. }
  unfold skipWhiteSpaces.
  destruct (scan_range d1 (fun x => negb (is_ws x)) 0 cr) as (s & -> & Hsr); [lia|]. cbn [mbind option_bind].
  destruct (cstring_at_ok d1 s cr) as (str & -> & _ & _); [done|lia|done|]. cbn [mbind option_bind].
  destruct (sscanf_xc str) as [v x] eqn:Esc. set (chunkSize := default (-1) v).
  assert (Hcs : chunkSize <= INT_MAX).
  { unfold chunkSize. destruct v as [v|]; cbn; [|unfold INT_MAX; lia]. apply sscanf_xc_range in Esc. lia. }
  destruct (_ || _) eqn:Ebad.
  { eexists false, b1, _, d1. split_and!; [done|done|apply moves_fail; [known|done]|done|cbn; lia|done|by left]. }
  apply orb_false_iff in Ebad as [Ecs _]. apply Z.ltb_ge in Ecs.
  change (_dataLength (add_drained _ _)) with chunkSize. clearbody chunkSize.
  pose proof (rep_drain b1 d1 n R1 ltac:(lia)) as R2.
  set (c1 := add_drained (Z.of_nat n) (with_dataLength chunkSize c)).
  assert (Ed : _drainedLength c1 = _drainedLength c + Z.of_nat n) by (cbn; rewrite (drained_add c d) by (done || lia); lia).
  assert (Hm : moves c d c1 (drop n d1)) by (split; rewrite ?Ed, ?length_drop; try done; lia).
  assert (Hlt : (length (drop n d1) < length d)%nat) by (rewrite length_drop; lia).
  destruct (Z.eqb_spec chunkSize 0) as [->|Hnz].
  { eexists true, _, _, (drop n d1). split_and!; [done|exact R2| |done|change (_drainedLength c <= _drainedLength c1); lia| |done].
    - destruct Hm. by split.
    - split; [done|by left]. }
  destruct (limit <? _) eqn:El.
  { eexists false, _, _, (drop n d1).
    split_and!; [done|exact R2|apply moves_fail; [known|done]|done|change (_drainedLength c <= _drainedLength c1); lia|done|by left]. }
  apply Z.ltb_ge in El. rewrite wrapu_small in El by (rewrite Ed; unfold INT_MAX in *; lia).
  eexists true, _, _, (drop n d1). split_and!; [done|exact R2| |done|change (_drainedLength c <= _drainedLength c1); lia| |done].
  - destruct Hm. by split.
  - split; [done|]. right. cbn. split_and!; [done|lia|lia|lia].
Qed.

Lemma getCRLF_ok b d c :
  rep b d -> small c d -> err_ok c ->
  exists ok b' c' d', getCRLF b c = Some (ok, b', c') /\ rep b' d' /\ moves c d c' d' /\
    http_packet c' = http_packet c /\ _chunkState c' = _chunkState c /\ _drainedLength c <= _drainedLength c' /\
    (ok = true -> (length d' < length d)%nat) /\ (ok = false -> isBroken (hc_base c') = true \/ _dataLength c' = _dataLength c).
Proof.
  clear alloc_ok alloc_limit limit_range. intros Hr Hs He. pose proof Hs as [Hs1 Hs2].
  pose proof (moves_refl c d Hs He) as Hm0. unfold getCRLF.
  rewrite (rep_getData _ _ Hr), (u64_len _ _ Hr). cbn [mbind option_bind].
  assert (Hdrain : forall n : nat, (0 < n <= length d)%nat ->
     rep (drainData b (Z.of_nat n)) (drop n d) /\ moves c d (add_drained (Z.of_nat n) c) (drop n d) /\
     _drainedLength c <= _drainedLength (add_drained (Z.of_nat n) c) /\ (length (drop n d) < length d)%nat).
  { intros n Hn. pose proof (rep_drainData b d (Z.of_nat n) Hr ltac:(lia)) as R. rewrite Nat2Z.id in R.
    assert (Ed : _drainedLength (add_drained (Z.of_nat n) c) = _drainedLength c + Z.of_nat n)
      by (cbn; rewrite (drained_add c d) by (done || lia); lia).
    split_and!; [done| |lia|rewrite length_drop; lia]. split; rewrite ?Ed, ?length_drop; try done; lia. }
  case_bool; [exists false, b, c, d; split_and!; auto; lia|].
  destruct d as [|x d]; [cbn in *; lia|]. cbn [lookup list_lookup mbind option_bind].
  assert (Hbad : exists b' c' d', Some (false, b, http_setErrorNo INVALID_DATA c) = Some (false, b', c') /\ rep b' d' /\
     moves c (x :: d) c' d' /\ http_packet c' = http_packet c /\ _chunkState c' = _chunkState c /\
     _drainedLength c <= _drainedLength c' /\ (false = true -> (length d' < length (x :: d))%nat) /\
     (false = false -> isBroken (hc_base c') = true \/ _dataLength c' = _dataLength c)).
  { eexists b, _, (x :: d). split_and!; [done|done|apply moves_fail; [known|done]|done|done|cbn; lia|done|by left]. }
  destruct (Hdrain 1%nat) as (R1 & M1 & L1 & K1); [cbn; lia|]. change (Z.of_nat 1) with 1 in *.
  repeat case_bool; try (by exists false);
    try (eexists true, _, _, _; split_and!; [done|exact R1|exact M1|done|done|exact L1|done|done]).
  - eexists false, _, _, []. split_and!; [done|by eapply rep_clear| |done|done|exact L1|done|by right].
    destruct M1. split; try done; cbn [length] in *; lia.
  - destruct d as [|y d]; [cbn in *; lia|]. cbn [lookup list_lookup mbind option_bind].
    destruct (Hdrain 2%nat) as (R2 & M2 & L2 & K2); [cbn; lia|]. change (Z.of_nat 2) with 2 in *.
    destruct (_ && _); [|by exists false].
    eexists true, _, _, _. split_and!; [done|exact R2|exact M2|done|done|exact L2|done|done].
Qed.

(** Between two calls: the body is within the limit, and so is the body with
    the chunk that is being read. *)
Definition chunk_inv c l : Prop :=
  Z.of_nat (length l) <= _drainedLength c /\ Z.of_nat (length l) <= limit /\
  (_chunkState c = CHUNK_DATA -> 0 < _dataLength c <= INT_MAX /\ Z.of_nat (length l) + _dataLength c <= limit).

Definition chunk_result c d (ok : bool) b' c' : Prop :=
  exists d' p' l', rep b' d' /\ moves c d c' d' /\ http_packet c' = Some p' /\ packet_ok p' l' /\
    Z.of_nat (length l') <= limit /\ (ok = true -> (length d' < length d)%nat) /\
    (ok = false -> isBroken (hc_base c') = true \/ chunk_inv c' l').

Lemma chunk_result_moves c d c1 d1 ok b' c' :
  moves c d c1 d1 -> chunk_result c1 d1 ok b' c' -> chunk_result c d ok b' c'.
Proof.
  clear alloc_ok alloc_limit limit_range. intros Hm (d' & p' & l' & Hr & Hm' & Hrest).
  exists d', p', l'. destruct Hrest as (? & ? & ? & Hlt & ?). pose proof (moves_len _ _ _ _ Hm).
  split_and!; [done|by eapply moves_trans|done..|intros Ht; specialize (Hlt Ht); lia|done].
Qed.

Lemma moves_chunkState s c d c' d' : moves c d c' d' -> moves c d (with_chunkState s c') d'.
Proof. intros []. by split. Qed.

Lemma chunk_loop_ok fuel b d c p l :
  (length d < fuel)%nat -> rep b d -> small c d -> err_ok c -> http_packet c = Some p -> packet_ok p l -> chunk_inv c l ->
  exists ok b' c', chunk_loop alloc_ok pkgLimit fuel b c = Some (ok, b', c') /\ chunk_result c d ok b' c'.
Proof using alloc_limit limit_range.
  revert b d c p l. induction fuel as [|fuel IH]; intros b d c p l Hf Hr Hs He Hp Hpk (Hd & Hl & Hch); [lia|].
  assert (Hgo : forall b1 d1 c1 p1 l1, (length d1 < length d)%nat -> rep b1 d1 -> moves c d c1 d1 ->
     http_packet c1 = Some p1 -> packet_ok p1 l1 -> chunk_inv c1 l1 ->
     exists ok b' c', chunk_loop alloc_ok pkgLimit fuel b1 c1 = Some (ok, b', c') /\ chunk_result c d ok b' c').
  { intros b1 d1 c1 p1 l1 Hlt R1 M1 P1 K1 I1.
    destruct (IH b1 d1 c1 p1 l1) as (ok & b' & c' & E & Hres); try done; [lia|by eapply moves_small|apply M1|].
    exists ok, b', c'. split; [done|]. by eapply chunk_result_moves. }
  cbn [chunk_loop]. destruct (_chunkState c) eqn:Ech.
  - destruct (processChunkSize_ok b d c p l Hr Hs He Hp Hpk Hd) as (ok & b1 & c1 & d1 & -> & R1 & M1 & P1 & U1 & Ht & Hff).
    cbn [mbind option_bind]. destruct ok; cbn [negb].
    + destruct (Ht eq_refl) as [Hlt Hst]. apply (Hgo b1 d1 c1 p l Hlt R1 M1 P1 Hpk).
      split_and!; [lia|done|]. intros Hst'. destruct Hst as [Hst|(_ & ? & ?)]; [congruence|done].
    + exists false, b1, c1. split; [done|]. exists d1, p, l. split_and!; [done..|]. intros _.
      destruct (Hff eq_refl) as [?| ->]; [by left|]. right. split_and!; [done|done|]. by rewrite Ech.
  - destruct (Hch eq_refl) as [Hn Hln].
    destruct (processLengthBody_ok b d c p l Hr Hs He Hp Hpk Hn) as (ok & b1 & c1 & d1 & p1 & l1 & -> & R1 & M1 & P1 & K1 & C1 & U1 & Ht & Hff).
    cbn [mbind option_bind]. destruct ok; cbn [negb].
    + destruct (Ht eq_refl) as [Hl1 Hlt]. apply (Hgo b1 d1 (with_chunkState CHUNK_DATA_CRLF c1) p1 l1 Hlt R1); [by apply moves_chunkState|done|done|].
      split_and!; [change (Z.of_nat (length l1) <= _drainedLength c1); lia|lia|done].
    + destruct (Hff eq_refl) as [Hn1 Hl1]. exists false, b1, c1. split; [done|]. exists d1, p1, l1.
      split_and!; [done..|lia|done|]. intros _. right. split_and!; [lia|lia|]. intros _. split; [done|lia].
  - destruct (getCRLF_ok b d c Hr Hs He) as (ok & b1 & c1 & d1 & -> & R1 & M1 & P1 & C1 & U1 & Ht & Hff).
    cbn [mbind option_bind]. rewrite Hp in P1. destruct ok; cbn [negb].
    + apply (Hgo b1 d1 (with_chunkState CHUNK_SIZE c1) p l (Ht eq_refl) R1); [by apply moves_chunkState|done|done|].
      split_and!; [change (Z.of_nat (length l) <= _drainedLength c1); lia|lia|done].
    + exists false, b1, c1. split; [done|]. exists d1, p, l. split_and!; [done..|]. intros _. right.
      split_and!; [lia|done|]. by rewrite C1, Ech.
  - destruct (processHeadersOrTrailers_ok b d c p Hr Hs He Hp) as (ok & b1 & c1 & d1 & p1 & -> & R1 & [M1 P1 I1 B1 C1 D1 Hlt _]); [apply Hpk|].
    exists ok, b1, c1. split; [done|]. exists d1, p1, l. destruct Hpk as [_ Hb]. pose proof (moves_up _ _ _ _ M1).
    split_and!; [done|done|done|split; [done|by rewrite B1]|done|done|]. intros _. right. split_and!; [lia|done|]. by rewrite C1, Ech.
Qed.

(** ** The whole parser *)

Definition body_inv c p l : Prop :=
  match _encodingType c with
  | Some HET_NO_BODY => Z.of_nat (length l) <= limit
  | Some HET_LENGTH => 0 < _dataLength c <= INT_MAX /\ Z.of_nat (length l) + _dataLength c <= limit
  | Some HET_CHUNKED => chunk_inv c l
  | Some HET_EOF => getPacketType p = PT_RESPONSE
  | None => False
  end.

(** A context that waits for more bytes. *)
Definition step_ok c : Prop :=
  match _step c with
  | HSS_START_LINE => getPacket (hc_base c) = None /\ _chunkState c = CHUNK_SIZE
  | HSS_MESSAGE_HEADER => (exists p, http_packet c = Some p /\ packet_ok p []) /\ _chunkState c = CHUNK_SIZE
  | HSS_MESSAGE_BODY =>
      (exists p l, http_packet c = Some p /\ packet_ok p l /\ body_inv c p l) /\ _encodingType c <> Some HET_NO_BODY
  end.

(** A context with a complete packet: its body is within the limit, unless it
    ends with the connection. *)
Definition ready c : Prop :=
  exists p l, getPacket (hc_base c) = Some (inl p) /\ packet_ok p l /\
    (Z.of_nat (length l) <= limit \/ _encodingType c = Some HET_EOF /\ getPacketType p = PT_RESPONSE).

Record case_post c d b' c' d' : Prop := {
  case_rep : rep b' d';
  case_range : 0 <= _drainedLength c';
  case_len : (length d' <= length d)%nat;
  case_sum : _drainedLength c' + Z.of_nat (length d') <= _drainedLength c + Z.of_nat (length d);
  case_err : err_ok c';
  case_eof : isEndOfFile (hc_base c') = isEndOfFile (hc_base c);
  case_wait : isBroken (hc_base c') = false -> isCompleted (hc_base c') = false -> step_ok c';
  case_ready : isBroken (hc_base c') = false -> isCompleted (hc_base c') = true ->
    ready c' /\ ((length d' < length d)%nat \/ isEndOfFile (hc_base c) = true)
}.

Lemma http_packet_get c p : http_packet c = Some p -> getPacket (hc_base c) = Some (inl p).
Proof. unfold http_packet. repeat case_match; congruence. Qed.

Lemma complete_post c d b' c' d' p l :
  rep b' d' -> moves c d c' d' -> http_packet c' = Some p -> packet_ok p l ->
  (Z.of_nat (length l) <= limit \/ _encodingType c' = Some HET_EOF /\ getPacketType p = PT_RESPONSE) ->
  (length d' < length d)%nat \/ isEndOfFile (hc_base c) = true ->
  case_post c d b' (on_ctx (setCompleted true) c') d'.
Proof.
  intros Hr [] Hp Hk Hl Hlt. split; try done. intros _ _. split; [|done].
  exists p, l. split_and!; [by apply http_packet_get|done..].
Qed.

Lemma wait_post c d b' c' d' :
  rep b' d' -> moves c d c' d' -> isCompleted (hc_base c) = false ->
  (isBroken (hc_base c') = false -> step_ok c') -> case_post c d b' c' d'.
Proof. intros Hr [] Hc Hs. split; try done; [by auto|]. intros _. congruence. Qed.

Lemma body_case_ok b d c p l :
  rep b d -> small c d -> err_ok c -> _step c = HSS_MESSAGE_BODY -> isCompleted (hc_base c) = false ->
  http_packet c = Some p -> packet_ok p l -> body_inv c p l ->
  exists b' c', body_case alloc_ok pkgLimit b c = Some (b', c') /\
    ((exists d', case_post c d b' c' d') \/
     (_encodingType c = Some HET_NO_BODY /\ b' = b /\ c' = on_ctx (setCompleted true) c)).
Proof using alloc_limit limit_range.
  intros Hr Hs He Hst Hcm Hp Hk Hi. unfold body_case, processBody, body_inv in *.
  destruct (_encodingType c) as [[]|] eqn:Een; [| | | |done]; cbn [mbind option_bind].
  - eexists b, _. split; [done|]. by right.
  - destruct Hi as [Hn Hli].
    destruct (processLengthBody_ok b d c p l Hr Hs He Hp Hk Hn) as (ok & b1 & c1 & d1 & p1 & l1 & -> & R1 & M1 & P1 & K1 & C1 & _ & Ht & Hf).
    cbn [mbind option_bind]. eexists b1, _. split; [done|]. left. exists d1. destruct ok.
    + destruct (Ht eq_refl). eapply complete_post; eauto. left. lia.
    + destruct (Hf eq_refl). apply wait_post; [done|done|done|]. intros _. unfold step_ok. rewrite (moves_step _ _ _ _ M1), Hst.
      unfold body_inv. rewrite (moves_enc _ _ _ _ M1), Een. split; [|done]. exists p1, l1. split_and!; try done; lia.
  - unfold processChunkedBody. rewrite (rep_getDataLen _ _ Hr), Nat2Z.id.
    destruct (chunk_loop_ok (length d + 2) b d c p l) as (ok & b1 & c1 & -> & d1 & p1 & l1 & R1 & M1 & P1 & K1 & L1 & Hlt & Hf); try done; [lia|].
    cbn [mbind option_bind]. eexists b1, _. split; [done|]. left. exists d1. destruct ok.
    + eapply complete_post; eauto.
    + apply wait_post; [done|done|done|]. intros Hnb. destruct (Hf eq_refl) as [?|Hci]; [congruence|].
      unfold step_ok, body_inv. rewrite (moves_step _ _ _ _ M1), Hst, (moves_enc _ _ _ _ M1), Een.
      split; [by exists p1, l1|done].
  - destruct (processEOFBody_ok b d c p l Hr Hs He Hp Hk) as (b1 & c1 & p1 & l1 & -> & R1 & M1 & P1 & K1 & T1).
    cbn [mbind option_bind]. eexists b1, _. split; [done|]. left. exists []. destruct (isEndOfFile (hc_base c)) eqn:Eeof.
    + eapply complete_post; eauto. right. split; [by rewrite (moves_enc _ _ _ _ M1)|congruence].
    + apply wait_post; [done|done|done|]. intros _. unfold step_ok, body_inv. rewrite (moves_step _ _ _ _ M1), Hst, (moves_enc _ _ _ _ M1), Een.
      split; [exists p1, l1; split_and!; [done|done|congruence]|done].
Qed.

Lemma messageHeadersEnd_ok c p :
  http_packet c = Some p -> _chunkState c = CHUNK_SIZE -> 0 <= _drainedLength c <= 2 ^ 62 -> err_ok c ->
  exists rc c', messageHeadersEnd pkgLimit c = Some (rc, c') /\ http_packet c' = Some p /\
    _drainedLength c' = _drainedLength c /\ isEndOfFile (hc_base c') = isEndOfFile (hc_base c) /\
    isCompleted (hc_base c') = isCompleted (hc_base c) /\ err_ok c' /\
    (rc = true -> body_inv c' p []) /\ (rc = false -> isBroken (hc_base c') = true).
Proof using limit_range.
  intros Hp Hch Hd He. pose proof getPkgLimit_range as Hlim. clear alloc_ok alloc_limit.
  unfold messageHeadersEnd. rewrite Hp. cbn [mbind option_bind].
  assert (Herr : forall c1 e, is_Some (error_string e) -> err_ok (http_setErrorNo e c1)) by (intros c1 e ? _; done).
  assert (Hb : is_Some (error_string INVALID_DATA)) by known.
  assert (Hb' : is_Some (error_string PKG_TOO_LARGE)) by known.
  destruct (getHeader _ p) as [te|].
  { destruct (streq _ te); [eexists true, _|eexists false, _]; split_and!; auto; try done.
    intros _. cbn. unfold chunk_inv. cbn. rewrite Hch. split_and!; [lia|lia|done]. }
  destruct (getHeader _ p) as [cl|].
  2: { destruct (PT_RESPONSE =? _) eqn:Et; eexists true, _; split_and!; auto; try done; intros _; cbn; [|lia].
       by apply Z.eqb_eq in Et. }
  destruct (isValidDigits cl); cbn [negb]; [|eexists false, _; split_and!; auto; done].
  assert (Ha : - 2 ^ 31 <= atoi cl < 2 ^ 31).
  { unfold atoi. repeat case_match; apply (wraps_range 32); lia. }
  case_bool; [|eexists true, _; split_and!; auto; try done; intros _; cbn; lia].
  case_bool; [eexists false, _; split_and!; auto; done|].
  eexists true, _. split_and!; auto; try done. intros _. cbn [body_inv _encodingType with_encodingType with_dataLength _dataLength length].
  change (_drainedLength (with_dataLength _ _)) with (_drainedLength c) in *.
  rewrite wrapu_small in * by lia. unfold INT_MAX. lia.
Qed.

Lemma case_post_trans c d c1 d1 b' c' d' :
  (length d1 <= length d)%nat -> _drainedLength c1 + Z.of_nat (length d1) <= _drainedLength c + Z.of_nat (length d) ->
  isEndOfFile (hc_base c1) = isEndOfFile (hc_base c) -> case_post c1 d1 b' c' d' -> case_post c d b' c' d'.
Proof.
  intros Hl Hsum He [Hr Hrg Hlen Hsm Her Heof Hw Hrd]. split; [done|done|lia|lia|done|congruence|done|].
  intros Hb Hc. destruct (Hrd Hb Hc) as [? Hlt]. split; [done|]. destruct Hlt; [left; lia|right; congruence].
Qed.

Lemma header_case_ok b d c p :
  rep b d -> small c d -> err_ok c -> _step c = HSS_MESSAGE_HEADER -> isCompleted (hc_base c) = false ->
  http_packet c = Some p -> packet_ok p [] -> _chunkState c = CHUNK_SIZE ->
  exists b' c' d', header_case alloc_ok pkgLimit b c = Some (b', c') /\ case_post c d b' c' d'.
Proof using alloc_limit limit_range.
  intros Hr Hs He Hst Hcm Hp [Hi Hb] Hch. unfold header_case, processHeaders.
  destruct (processHeadersOrTrailers_ok b d c p Hr Hs He Hp Hi) as (ok & b1 & c1 & d1 & p1 & -> & R1 & [M1 P1 I1 B1 C1 D1 Hlt _]).
  cbn [mbind option_bind]. pose proof (moves_small _ _ _ _ Hs M1) as Hs1.
  assert (K1 : packet_ok p1 []) by (split; [done|by rewrite B1]). destruct ok; cbn [mbind option_bind].
  2: { exists b1, c1, d1. split; [done|]. apply wait_post; [done|done|done|]. intros _.
       unfold step_ok. rewrite (moves_step _ _ _ _ M1), Hst, C1. split; [by exists p1|done]. }
  destruct (messageHeadersEnd_ok c1 p1) as (rc & c2 & -> & P2 & D2 & E2 & F2 & Er2 & Ht & Hf);
    [done|by rewrite C1|destruct Hs1; split; lia|apply M1|]. cbn [mbind option_bind].
  pose proof (moves_eof _ _ _ _ M1) as He1. pose proof (moves_completed _ _ _ _ M1) as Hc1.
  pose proof (moves_sum _ _ _ _ M1) as Hs1'. pose proof (moves_len _ _ _ _ M1) as Hl1. pose proof (moves_range _ _ _ _ M1) as Hg1.
  destruct rc; cbn [mbind option_bind].
  2: { exists b1, c2, d1. split; [done|]. specialize (Hf eq_refl). split; rewrite ?D2, ?E2; try done; congruence. }
  specialize (Hlt eq_refl). set (c3 := with_step HSS_MESSAGE_BODY c2).
  destruct (body_case_ok b1 d1 c3 p1 []) as (b' & c' & -> & [[d' Hpost]|(Hno & -> & ->)]); try done.
  - unfold small in *. change (_drainedLength c3) with (_drainedLength c2). by rewrite D2.
  - change (isCompleted (hc_base c2) = false). congruence.
  - by apply Ht.
  - exists b', c', d'. split; [done|]. eapply case_post_trans; [| | |exact Hpost]; [done| |].
    + change (_drainedLength c3) with (_drainedLength c2). lia.
    + change (isEndOfFile (hc_base c2) = isEndOfFile (hc_base c)). congruence.
  - eexists b1, _, d1. split; [done|].
    assert (Hlim : 0 <= limit) by apply getPkgLimit_range.
    split; [done|change (0 <= _drainedLength c2); lia|lia|change (_drainedLength c2 + Z.of_nat (length d1) <= _drainedLength c + Z.of_nat (length d)); lia
           |done|change (isEndOfFile (hc_base c2) = isEndOfFile (hc_base c)); congruence|done|].
    intros _ _. split; [|by left]. exists p1, []. split_and!; [by apply http_packet_get|done|]. left. cbn. lia.
Qed.

Lemma packet_ok_new : packet_ok (HTTPPacketFactory_createPacket 0) [].
Proof. split; [by split; [split; constructor|]|apply body_rep_new]. Qed.

Lemma start_case_ok b d c :
  rep b d -> small c d -> err_ok c -> _step c = HSS_START_LINE -> isCompleted (hc_base c) = false ->
  getPacket (hc_base c) = None -> _chunkState c = CHUNK_SIZE ->
  exists b' c' d', start_case alloc_ok pkgLimit b c = Some (b', c') /\ case_post c d b' c' d'.
Proof using alloc_limit limit_range.
  intros Hr Hs He Hst Hcm Hp Hch. pose proof (moves_refl c d Hs He) as Hm0.
  unfold start_case, processStartLine. rewrite (rep_getData _ _ Hr). cbn [mbind option_bind].
  destruct (findCRLF_total d) as ([[cr n]|] & -> & Hcr); cbn [mbind option_bind].
  2: { destruct (limit <? _); cbn [mbind option_bind]; eexists b, _, d; (split; [done|]).
       - apply wait_post; [done|apply moves_fail; [known|done]|done|done].
       - apply wait_post; [done|done|done|]. intros _. unfold step_ok. by rewrite Hst. }
  destruct (poke_ok d cr 0) as (d1 & -> & [Hl1 Hb1] & Hz & _); [lia|unfold is_byte; lia|by eapply rep_bytes|].
  cbn [mbind option_bind]. destruct (limit <? _).
  { destruct (rep_putData b d d1 Hr) as (b1 & -> & R1); [done|]. cbn [mbind option_bind].
    eexists b1, _, d1. split; [done|]. apply wait_post; [done|apply moves_fail; [known|]|done|done].
    destruct Hm0. split; try done; lia. }
  rewrite Hp. cbn [assertb mbind option_bind].
  destruct (cstring_at_ok d1 0 cr Hz) as (s & -> & _ & _); [lia|done|]. cbn [mbind option_bind].
  set (p0 := HTTPPacketFactory_createPacket 0). set (c1 := put_packet p0 c).
  assert (Hline : exists rc d' c', (if strneq s (lit "HTTP/") 5 then processStatusLine c1 d1 0 cr
     else processRequestLine c1 d1 0 cr) = Some (rc, d', c') /\ edited d1 d' /\ line_post c1 p0 rc c').
  { destruct (strneq _ _ _); [apply processStatusLine_ok|apply processRequestLine_ok]; done. }
  destruct Hline as (rc & d2 & c2 & -> & [Hl2 Hb2] & [[] (p2 & P2 & (Bp & Hp2 & Hlp2)) Er2 Br2]). cbn [mbind option_bind].
  destruct (rep_putData b d d2 Hr) as (b1 & -> & R1); [split; [congruence|done]|]. cbn [mbind option_bind].
  pose proof (rep_drain b1 d2 n R1 ltac:(lia)) as R2.
  assert (K2 : packet_ok p2 []).
  { destruct packet_ok_new as [Hi Hb]. split; [|by rewrite Bp]. unfold headers_inv in *. by rewrite Hp2, Hlp2. }
  assert (M : moves c d (add_drained (Z.of_nat n) c2) (drop n d2)).
  { assert (Ed : _drainedLength (add_drained (Z.of_nat n) c2) = _drainedLength c + Z.of_nat n).
    { cbn. rewrite keeps_drained0. apply (drained_add c d); [done|lia]. }
    destruct Hs. split; rewrite ?Ed, ?length_drop; try done; lia. }
  destruct rc.
  2: { eexists _, _, _. split; [done|]. apply wait_post; [exact R2|exact M|done|]. cbn. congruence. }
  destruct (header_case_ok (drainData b1 (i32 (Z.of_nat n))) (drop n d2) (with_step HSS_MESSAGE_HEADER (add_drained (Z.of_nat n) c2)) p2)
    as (b' & c' & d' & -> & Hpost); try done.
  - by apply (moves_small c d _ _ Hs M).
  - cbn. by rewrite keeps_completed0.
  - cbn. by rewrite keeps_chunk0.
  - exists b', c', d'. split; [done|]. destruct M. by eapply case_post_trans; [..|exact Hpost].
Qed.

(** A call on a context that waits. *)
Definition waiting c : Prop :=
  isBroken (hc_base c) = false /\ isCompleted (hc_base c) = false /\ step_ok c.

Record call_post c d (ok : bool) b' c' d' : Prop := {
  call_rep : rep b' d';
  call_small : 0 <= _drainedLength c';
  call_len : (length d' <= length d)%nat;
  call_sum : _drainedLength c' + Z.of_nat (length d') <= _drainedLength c + Z.of_nat (length d);
  call_error : ok = false -> isBroken (hc_base c') = true /\ is_Some (_errorString (hc_base c'));
  call_wait : ok = true -> isCompleted (hc_base c') = false -> waiting c';
  call_ready : ok = true -> isCompleted (hc_base c') = true ->
    ready c' /\ ((length d' < length d)%nat \/ isEndOfFile (hc_base c) = true)
}.

Lemma http_processData_ok b d c :
  rep b d -> small c d -> waiting c ->
  exists ok b' c' d', http_processData alloc_ok pkgLimit b c = Some (ok, b', c') /\ call_post c d ok b' c' d'.
Proof using alloc_limit limit_range.
  intros Hr Hs (Hnb & Hcm & Hst). assert (He : err_ok c) by (intros E; congruence). unfold http_processData.
  assert (Hcase : exists b' c' d', match _step c with
               | HSS_START_LINE => start_case alloc_ok pkgLimit b c
               | HSS_MESSAGE_HEADER => header_case alloc_ok pkgLimit b c
               | HSS_MESSAGE_BODY => body_case alloc_ok pkgLimit b c
               end = Some (b', c') /\ case_post c d b' c' d').
  { unfold step_ok in Hst. destruct (_step c) eqn:Es.
    - destruct Hst as [Hp Hch]. by apply start_case_ok.
    - destruct Hst as [(p & Hp & Hk) Hch]. by eapply header_case_ok.
    - destruct Hst as [(p & l & Hp & Hk & Hi) Hno].
      destruct (body_case_ok b d c p l Hr Hs He Es Hcm Hp Hk Hi) as (b' & c' & ? & [[d' ?]|(? & _)]); [eauto|done]. }
  destruct Hcase as (b' & c' & d' & -> & [R Hg Hl Hsum Her Heof Hw Hrd]). cbn [mbind option_bind].
  match goal with |- context [if isEndOfFile _ then if ?x then _ else _ else _] => set (cond := x) end.
  set (c2 := if isEndOfFile (hc_base c') then _ else c').
  assert (Hc2 : c2 = c' \/ c2 = http_setErrorNo CONNECTION_CLOSED c').
  { unfold c2. destruct (isEndOfFile _), cond; auto. }
  clearbody c2. clear cond. eexists _, b', c2, d'. split; [done|]. destruct Hc2 as [->| ->].
  - destruct (isBroken (hc_base c')) eqn:Eb; cbn [negb].
    + split; [done..| |done|done]. intros _. split; [done|by apply Her].
    + split; [done..| |]; intros _ Hcc; [split_and!; [done|done|by apply Hw]|by apply Hrd].
  - cbn [negb]. split; [done..| |done|done]. intros _. split; [done|]. cbn. by eexists.
Qed.


(** ** Any stream of bytes *)

(** A delivered packet: an HTTP packet whose headers and body are in order. *)
Definition delivered_ok (q : dyn_packet HTTPPacket) : Prop :=
  exists p l, q = inl p /\ packet_ok p l /\ (Z.of_nat (length l) <= limit \/ getPacketType p = PT_RESPONSE).

(** Where a run of the parser may stop: it waits, or it is broken and says why. *)
Definition stopped c : Prop :=
  waiting c \/ isBroken (hc_base c) = true /\ is_Some (_errorString (hc_base c)).

Definition loop_ok c d (done : list (dyn_packet HTTPPacket))
    (r : option (DataBuffer * HTTPStreamingContext * list (dyn_packet HTTPPacket))) : Prop :=
  exists b' c' d' qs, r = Some (b', c', done ++ qs) /\ rep b' d' /\ stopped c' /\ Forall delivered_ok qs /\
    0 <= _drainedLength c' /\ _drainedLength c' + Z.of_nat (length d') <= _drainedLength c + Z.of_nat (length d).

Lemma waiting_reset c : waiting (http_reset c).
Proof. by split_and!. Qed.

Lemma http_read_loop_ok fuel b d c done :
  (length d + (if isEndOfFile (hc_base c) then 1 else 0) < fuel)%nat -> rep b d -> small c d -> waiting c ->
  loop_ok c d done (http_read_loop alloc_ok pkgLimit fuel b c done).
Proof using alloc_limit limit_range.
  revert b d c done. induction fuel as [|fuel IH]; intros b d c done Hf Hr Hs Hw; [lia|]. cbn [http_read_loop].
  destruct (http_processData_ok b d c Hr Hs Hw) as (ok & b1 & c1 & d1 & -> & [R1 G1 L1 S1 Herr Hwait Hrdy]).
  cbn [mbind option_bind].
  destruct ok; cbn [negb]; [|exists b1, c1, d1, []; rewrite app_nil_r; split_and!; try done; right; by apply Herr].
  destruct (isCompleted (hc_base c1)) eqn:Ec; cbn [negb].
  2: { exists b1, c1, d1, []. rewrite app_nil_r. split_and!; try done. left. by apply Hwait. }
  destruct (Hrdy eq_refl eq_refl) as [(p & l & Hp & Hk & Hl) Hlt]. cbn [stealPacket]. unfold getPacket in Hp. rewrite Hp.
  cbn [mbind option_bind]. set (c2 := http_reset _).
  destruct (IH b1 d1 c2 (done ++ [inl p])) as (b' & c' & d' & qs & -> & R' & Hst & Hqs & Hg & Hsum).
  { change (isEndOfFile (hc_base c2)) with false. destruct Hlt as [?|Ht]; [|rewrite Ht in Hf]; lia. }
  { done. } { destruct Hs. split; cbn; lia. } { apply waiting_reset. }
  exists b', c', d', (inl p :: qs). rewrite <- app_assoc. split_and!; try done.
  - constructor; [|done]. exists p, l. split_and!; [done|apply Hk..|]. destruct Hl as [?|[_ ?]]; [by left|by right].
  - change (_drainedLength c2) with 0 in Hsum. lia.
Qed.

Lemma waiting_eof v c : waiting c -> waiting (on_ctx (setEndOfFile v) c).
Proof. intros (? & ? & ?). by split_and!. Qed.

Lemma http_read_round_ok bufSize r b d c done :
  rep b d -> waiting c -> 0 <= _drainedLength c -> Forall is_byte r -> Z.of_nat (length r) <= bufSize ->
  _drainedLength c + Z.of_nat (length d) + bufSize <= FRAME_MAX ->
  loop_ok c (d ++ r) done (http_read_round alloc_ok pkgLimit bufSize r b c done).
Proof using alloc_limit limit_range.
  intros Hr Hw Hd Hb Hlr Hsz. unfold http_read_round, ensureFree.
  destruct (rep_expand b d bufSize Hr) as (b1 & -> & R1 & Hroom); [lia|lia|]. cbn [mbind option_bind].
  destruct (rep_recv b1 d r R1 Hb) as (b2 & b3 & -> & E3 & R3); [lia|]. cbn [mbind option_bind]. rewrite E3. cbn [mbind option_bind].
  set (c1 := if _ =? 0 then _ else c).
  assert (Hc1 : waiting c1 /\ _drainedLength c1 = _drainedLength c).
  { unfold c1. destruct (_ =? 0); [split; [by apply waiting_eof|done]|done]. }
  destruct Hc1 as [Hw1 Hd1]. rewrite (rep_getDataLen _ _ R3), Nat2Z.id. unfold FRAME_MAX in *.
  destruct (http_read_loop_ok (length (d ++ r) + 2) b3 (d ++ r) c1 done) as (b' & c' & d' & qs & ? & ? & ? & ? & ? & ?); try done.
  - destruct (isEndOfFile _); lia.
  - split; rewrite ?Hd1, ?length_app; lia.
  - exists b', c', d', qs. rewrite Hd1 in *. split_and!; done.
Qed.

Lemma http_read_rounds_ok bufSize pieces b d c done :
  rep b d -> waiting c -> 0 <= _drainedLength c ->
  Forall (fun r => Forall is_byte r /\ Z.of_nat (length r) <= bufSize) pieces ->
  _drainedLength c + Z.of_nat (length (d ++ concat pieces)) + bufSize <= FRAME_MAX ->
  exists b' c' qs, http_read_rounds alloc_ok pkgLimit bufSize pieces b c done = Some (b', c', done ++ qs) /\
    stopped c' /\ Forall delivered_ok qs.
Proof using alloc_limit limit_range.
  intros Hr Hw Hd Hps. revert b d c done Hr Hw Hd. induction Hps as [|r pieces [Hb Hlr] Hps IH]; intros b d c done Hr Hw Hd Hsz.
  { exists b, c, []. rewrite app_nil_r. split_and!; [done|by left|constructor]. }
  cbn [http_read_rounds concat] in *. rewrite !length_app in Hsz.
  destruct (http_read_round_ok bufSize r b d c done) as (b1 & c1 & d1 & qs & -> & R1 & Hst & Hqs & Hg & Hsum); [done..|lia|].
  cbn [mbind option_bind]. rewrite length_app in Hsum.
  destruct (isBroken (hc_base c1)) eqn:Eb; cbn [orb]; [by exists b1, c1, qs|].
  destruct (Nat.eqb (length r) 0); [by exists b1, c1, qs|].
  destruct Hst as [Hw1|[? _]]; [|congruence].
  destruct (IH b1 d1 c1 (done ++ qs) R1 Hw1 Hg) as (b' & c' & qs' & -> & Hst & Hqs').
  { rewrite length_app. lia. }
  exists b', c', (qs ++ qs'). rewrite <- app_assoc. split_and!; [done|done|by apply Forall_app].
Qed.

End Body.

Lemma waiting_new pkgLimit : waiting pkgLimit HTTPStreamingContext_new.
Proof. by split_and!. Qed.


(** A chunk size with a sign, a negative one, in three pieces. *)
Definition hostile_pieces : list (list Z) :=
  [lit "POST / HT"; lit "TP/1.1" ++ CRLF ++ lit "transfer-encoding: chunked" ++ CRLF ++ CRLF; lit "-5" ++ CRLF ++ [0; 255]].

