(* ===== verification/HttpRoundtrip.v ===== *)
(** * HTTP messages from one end to the other

    What [HTTPPacket::encode] writes, [HTTPStreamer] reads back: the start
    line, the headers and the body, however the bytes are cut on the way. *)

From S2P Require Import Prelude CString DataBuffer Packet Streamer DefaultPacket HttpPacket HttpStreamer HttpSafety.

(** ** Messages that can be read back *)

Definition token_char (c : Z) : Prop := isTokenCharacter c = Some true.
Definition uri_char (c : Z) : Prop := is_char c /\ is_ws c = false /\ c <> 10.
Definition line_char (c : Z) : Prop := is_char c /\ c <> 10.

(** No blank at the front; no blank at either end. *)
Definition no_front_ws (v : cstr) : Prop := forall c, head v = Some c -> is_ws c = false.
Definition trimmed (v : cstr) : Prop := no_front_ws v /\ forall c, last v = Some c -> is_ws c = false.

Definition header_sendable (e : cstr * cstr) : Prop :=
  Forall (fun c => line_char c /\ c <> 58) e.1 /\ Forall line_char e.2 /\ trimmed e.2.

Record http_sendable (limit : Z) (p : HTTPPacket) (body : list Z) : Prop := {
  hs_encodable : encodable p body;
  hs_request : getPacketType p = PT_REQUEST -> exists m u, getMethodString p = Some m /\ getURI p = Some u /\
     Forall token_char m /\ u <> [] /\ Forall uri_char u /\ Z.of_nat (length u) <= URI_LIMIT;
  hs_response : getPacketType p <> PT_REQUEST -> getPacketType p = PT_RESPONSE /\
     getReasonPhrase p <> [] /\ Forall line_char (getReasonPhrase p) /\ no_front_ws (getReasonPhrase p);
  hs_headers : Forall header_sendable (_headers p);
  hs_length : _addContentLengthHeader p = true /\ getHeader (Some (lit "Content-Length")) p = None;
  hs_plain : getHeader (Some (lit "Transfer-Encoding")) p = None;
  hs_count : Z.of_nat (length (_headers p)) < HEADERS_LIMIT;
  hs_size : Z.of_nat (length (http_wire p body)) <= limit
}.

(** ** Lines *)

Section Lines.

Implicit Types (a s t d : list Z) (p q : HTTPPacket).

Lemma findCRLF_line s t :
  10 ∉ s -> findCRLF (s ++ CRLF ++ t) 0 (length (s ++ CRLF ++ t)) = Some (Some (length s, length s + 2)%nat).
Proof.
  intros Hs. unfold findCRLF. rewrite Nat.sub_0_r.
  change (s ++ CRLF ++ t) with ([] ++ s ++ [13] ++ 10 :: t). rewrite (app_assoc s).
  rewrite (scan_app [] (s ++ [13]) 10 t); cycle 1.
  { apply Forall_app. split; [|by repeat constructor]. apply Forall_forall. intros x Hx. apply Z.eqb_neq. by intros ->. }
  { done. } { rewrite !length_app. cbn. lia. }
  cbn [mbind option_bind app length]. rewrite !length_app. cbn [length].
  destruct (Nat.eqb_spec (0 + (length s + 1)) (length s + 1 + S (length t))); [lia|].
  rewrite (proj2 (Nat.ltb_lt 1 _)) by lia.
  rewrite <- app_assoc, lookup_app_r by lia. replace (0 + (length s + 1) - 1 - length s)%nat with 0%nat by lia.
  cbn [app lookup list_lookup mbind option_bind andb Z.eqb Pos.eqb]. do 3 f_equal; lia.
Qed.

Lemma findCRLF_none d : 10 ∉ d -> findCRLF d 0 (length d) = Some None.
Proof.
  intros Hd. unfold findCRLF. rewrite Nat.sub_0_r.
  pose proof (scan_none [] d [] (fun c => c =? 10)) as E. rewrite app_nil_r in E. cbn [app length] in E.
  rewrite E; [cbn; by rewrite Nat.eqb_refl|].
  apply Forall_forall. intros x Hx. apply Z.eqb_neq. by intros ->.
Qed.

(** The bytes that have arrived of a line and of what follows it. *)
Lemma line_arrived d z s t :
  d ++ z = s ++ CRLF ++ t -> 10 ∉ s ->
  (exists d', d = s ++ CRLF ++ d' /\ d' ++ z = t) \/ (10 ∉ d /\ (length d < length s + 2)%nat).
Proof.
  intros E Hs. destruct (decide (length s + 2 <= length d)%nat) as [Hl|Hl].
  - left. exists (drop (length s + 2) d).
    assert (E1 : take (length s + 2) d = s ++ CRLF).
    { rewrite <- (take_app_le d z) by lia. rewrite E, app_assoc. apply take_app_length'. rewrite length_app. done. }
    split.
    + rewrite app_assoc, <- E1. by rewrite take_drop.
    + rewrite <- drop_app_le by lia. rewrite E, app_assoc. apply drop_app_length'. rewrite length_app. done.
  - right. split; [|lia]. intros Hin. assert (Ed : d = take (length d) (s ++ [13])).
    { rewrite <- (take_app_length d z) at 1. rewrite E. change (s ++ CRLF ++ t) with (s ++ [13] ++ 10 :: t).
      rewrite app_assoc. apply take_app_le. rewrite length_app. cbn. lia. }
    rewrite Ed in Hin. apply elem_of_take in Hin as (i & Hi & _). apply list_elem_of_lookup_2 in Hi.
    apply elem_of_app in Hi as [?|Hi]; [done|]. apply list_elem_of_singleton in Hi. done.
Qed.

(** Scans that start at a known place. *)
Lemma scan_at a s x t n stop i :
  i = length a -> Forall (fun c => stop c = false) s -> stop x = true -> (length s < n)%nat ->
  scan n stop (a ++ s ++ x :: t) i = Some (i + length s)%nat.
Proof. intros ->. apply scan_app. Qed.

Lemma poke_at a x t i v : i = length a -> poke (a ++ x :: t) i v = Some (a ++ v :: t).
Proof. intros ->. apply poke_app. Qed.

Lemma token_loop_at a s t i :
  i = length a -> Forall token_char s -> token_loop (length s) (a ++ s ++ t) i = Some true.
Proof.
  intros -> Hs. revert a. induction Hs as [|x s Hx Hs IH]; intros a; cbn [length token_loop app]; [done|].
  rewrite list_lookup_middle by done. cbn [mbind option_bind]. rewrite Hx. cbn [mbind option_bind negb].
  specialize (IH (a ++ [x])). rewrite length_app, <- app_assoc in IH. cbn [app length] in IH. by rewrite Nat.add_1_r in IH.
Qed.

Lemma find_replace_at a s x t n i :
  i = length a -> Forall (fun c => is_ws c = false /\ c <> 0) s -> is_ws x = true -> (length s < n)%nat ->
  find_replace_loop n (a ++ s ++ x :: t) i = Some (a ++ s ++ x :: t, i + length s)%nat.
Proof.
  intros -> Hs Hx. revert a n. induction Hs as [|y s [Hy H0] Hs IH]; intros a n Hn;
    (destruct n as [|n]; [cbn in Hn; lia|]); cbn [find_replace_loop app].
  - rewrite list_lookup_middle by done. cbn [mbind option_bind]. rewrite Hx. do 2 f_equal. cbn. lia.
  - rewrite list_lookup_middle by done. cbn [mbind option_bind]. rewrite Hy, (proj2 (Z.eqb_neq _ _)) by done.
    cbn [mbind option_bind]. specialize (IH (a ++ [y]) n ltac:(cbn in Hn; lia)).
    rewrite length_app, <- app_assoc in IH. cbn [app length] in *. rewrite Nat.add_1_r in IH. rewrite IH. do 2 f_equal. lia.
Qed.

Lemma replace_loop_at a s t i :
  i = length a -> Forall (fun c => c <> 0) s -> replace_loop (length s) (a ++ s ++ t) i = Some (a ++ s ++ t).
Proof.
  intros -> Hs. revert a. induction Hs as [|y s H0 Hs IH]; intros a; cbn [length replace_loop app]; [done|].
  rewrite list_lookup_middle by done. cbn [mbind option_bind]. rewrite (proj2 (Z.eqb_neq _ _)) by done.
  cbn [mbind option_bind]. specialize (IH (a ++ [y])). rewrite length_app, <- app_assoc in IH. cbn [app length] in IH.
  by rewrite Nat.add_1_r in IH.
Qed.

(** Trimming a string that has nothing to trim. *)
Lemma strdupTrimed_id s (e : bool) :
  s <> [] -> (forall x, head s = Some x -> x <> 32) -> (e = true -> forall x, last s = Some x -> x <> 32) ->
  strdupTrimed s true e = Some (Some s).
Proof.
  intros Hne Hh Hl. unfold strdupTrimed. destruct s as [|x s]; [done|]. clear Hne.
  specialize (Hh x eq_refl). cbn [length Nat.eqb].
  assert (E1 : scan (S (length s) - 1 - 0) (fun c => negb (c =? 32)) (x :: s) 0 = Some 0%nat).
  { destruct (S (length s) - 1 - 0)%nat; [done|]. cbn. by rewrite (proj2 (Z.eqb_neq x 32)). }
  rewrite E1. cbn [mbind option_bind].
  assert (E2 : (if e then pred <$> scan_back (S (length s) - 1 - 0) (fun c => negb (c =? 32)) (x :: s) (S (S (length s) - 1))
            else Some (S (length s) - 1)%nat) = Some (length s)).
  { replace (S (length s) - 1 - 0)%nat with (length s) by lia. replace (S (length s) - 1)%nat with (length s) by lia.
    destruct e; [|done]. destruct s as [|y s]; [done|]. cbn [length scan_back pred].
    destruct (lookup_lt_is_Some_2 (x :: y :: s) (S (length s))) as [z Ez]; [cbn; lia|]. rewrite Ez.
    cbn [mbind option_bind]. rewrite (proj2 (Z.eqb_neq z 32)); [done|]. apply (Hl eq_refl).
    rewrite last_lookup. cbn [length pred]. done. }
  rewrite E2. cbn [mbind option_bind lookup list_lookup]. rewrite (proj2 (Z.eqb_neq x 32)), andb_false_r by done.
  do 2 f_equal. rewrite Nat.sub_0_r, drop_0, Nat.add_1_r. apply take_ge. cbn. lia.
Qed.

(** *** The start line *)

(** [q] has the start line of [p]. *)
Record same_start p q : Prop := {
  ss_version : (HTTP_1_0 =? getVersion q) = (HTTP_1_0 =? getVersion p);
  ss_type : getPacketType q = getPacketType p;
  ss_request : getPacketType p = PT_REQUEST -> getMethodString q = getMethodString p /\ getURI q = getURI p;
  ss_response : getPacketType p = PT_RESPONSE ->
    getStatusCode q = getStatusCode p /\ getReasonPhrase q = getReasonPhrase p
}.

Lemma version_bytes_chars p : Forall is_char (version_bytes p) /\ head (version_bytes p) = Some 72.
Proof. unfold version_bytes. case_bool; (split; [|done]); apply (bool_decide_unpack _); by vm_compute. Qed.

Lemma request_version_bytes ctx p q :
  request_version ctx q (version_bytes p) = (true, put_packet (setVersion (if HTTP_1_0 =? getVersion p then HTTP_1_0 else HTTP_1_1) q) ctx).
Proof. unfold version_bytes. by destruct (HTTP_1_0 =? getVersion p). Qed.

Lemma get_setMethodString m p : getMethodString (setMethodString m p) = Some m.
Proof.
  unfold setMethodString, streq. repeat (case_bool_decide as E; [by rewrite E|clear E]). done.
Qed.

Lemma setMethodString_type m p : getPacketType (setMethodString m p) = PT_REQUEST.
Proof. unfold setMethodString. by repeat case_match. Qed.

Lemma token_not_blank x : token_char x -> is_byte x -> is_ws x = false /\ x <> 47 /\ x <> 0.
Proof.
  unfold token_char, isTokenCharacter, is_byte, is_ws. intros Ht Hb.
  destruct (decide (x = 32)) as [->|]; [by vm_compute in Ht|]. destruct (decide (x = 9)) as [->|]; [by vm_compute in Ht|].
  destruct (decide (x = 47)) as [->|]; [by vm_compute in Ht|]. destruct (decide (x = 0)) as [->|]; [by vm_compute in Ht|].
  split; [|done]. by rewrite !(proj2 (Z.eqb_neq _ _)) by done.
Qed.

(** Conditions on single characters carry over to what the scans test. *)
Lemma uri_scan u : Forall uri_char u -> Forall (fun x => is_ws x = false /\ x <> 0) u /\ 0 ∉ u.
Proof.
  intros Hu. split; [|apply chars_not_nul]; (eapply Forall_impl; [exact Hu|]); intros x (Hx & ? & ?); [|done].
  unfold is_char in Hx. split; [done|lia].
Qed.

Lemma head_app_cons (u t : list Z) : u <> [] -> exists x r, u ++ t = x :: r /\ head u = Some x.
Proof. destruct u as [|x u]; [done|]. intros _. by exists x, (u ++ t). Qed.

(** A scan for the first character that is no blank stays where it is. *)
Lemma skip_at a u t n i :
  i = length a -> u <> [] -> no_front_ws u -> scan n (fun x => negb (is_ws x)) (a ++ u ++ t) i = Some i.
Proof.
  intros -> Hne Hh. destruct u as [|x u]; [done|]. specialize (Hh x eq_refl). destruct n as [|n]; [done|].
  cbn [scan app]. rewrite list_lookup_middle by done. cbn [mbind option_bind]. by rewrite Hh.
Qed.

Lemma uri_front u : Forall uri_char u -> no_front_ws u.
Proof. intros Hu x Hx. destruct u as [|y u]; [done|]. injection Hx as <-. inversion_clear Hu as [|? ? (? & ? & ?)]. done. Qed.

Lemma ws_32 : is_ws 32 = true. Proof. done. Qed.

(** The request line is read back. *)
Lemma processRequestLine_back ctx p p0 m u t :
  http_packet ctx = Some p0 -> getPacketType p = PT_REQUEST -> getMethodString p = Some m -> getURI p = Some u ->
  Forall is_char m -> Forall token_char m -> u <> [] -> Forall uri_char u -> Z.of_nat (length u) <= URI_LIMIT ->
  exists q e, processRequestLine ctx (start_line p ++ 0 :: 10 :: t) 0 (length (start_line p)) = Some (true, e ++ t, put_packet q ctx) /\
    length e = (length (start_line p) + 2)%nat /\ Forall is_byte e /\ same_load p0 q /\ same_start p q.
Proof.
  intros Hp Hty Hm Hu Hmc Hmt Hun Huc Hul. set (v := version_bytes p).
  destruct (version_bytes_chars p) as [Hvc Hvh]. fold v in Hvc, Hvh.
  assert (Esl : start_line p = m ++ 32 :: u ++ 32 :: v) by (unfold start_line; by rewrite Hty, Hm, Hu).
  assert (Hvne : v <> []) by (by intros E; rewrite E in Hvh). rewrite Esl. set (w := v ++ 0 :: 10 :: t).
  assert (Ed : (m ++ 32 :: u ++ 32 :: v) ++ 0 :: 10 :: t = m ++ 32 :: u ++ 32 :: w).
  { unfold w. by rewrite <- !app_assoc, <- !app_comm_cons, <- !app_assoc. }
  assert (El : length (m ++ 32 :: u ++ 32 :: v) = (length m + S (length u + S (length v)))%nat) by (by rewrite !length_app, !length_cons, !length_app).
  rewrite Ed, El. clear Ed El Esl. set (cr := (length m + S (length u + S (length v)))%nat).
  destruct (uri_scan u Huc) as [Hus Hu0]. assert (Hv0 : 0 ∉ v) by (by apply chars_not_nul).
  assert (Hmw : Forall (fun x => is_ws x = false) m).
  { rewrite Forall_forall in *. intros x Hx. apply token_not_blank; [by apply Hmt|]. specialize (Hmc x Hx). unfold is_char, is_byte in *. lia. }
  assert (Hm0 : 0 ∉ m) by (by apply chars_not_nul).
  unfold processRequestLine, findNextWhiteSpace, skipWhiteSpaces, findNextWhiteSpaceAndReplaceZero, isValidToken.
  rewrite (scan_at [] m 32 (u ++ 32 :: w)) by (done || lia). cbn [mbind option_bind Nat.add].
  rewrite (proj2 (Nat.eqb_neq _ _)) by lia. rewrite poke_at by done. rewrite Hp. cbn [mbind option_bind]. rewrite Nat.sub_0_r.
  rewrite (token_loop_at [] m (0 :: u ++ 32 :: w)) by done. cbn [mbind option_bind negb].
  rewrite (cstring_at_app [] m (u ++ 32 :: w)) by done. cbn [mbind option_bind].
  set (p1 := setMethodString m (setPacketType PT_REQUEST p0)).
  change (m ++ 0 :: u ++ 32 :: w) with (m ++ [0] ++ u ++ 32 :: w). rewrite (app_assoc m [0]).
  assert (Ea : length (m ++ [0]) = (length m + 1)%nat) by (by rewrite length_app).
  rewrite (skip_at (m ++ [0]) u (32 :: w)) by (auto using uri_front). cbn [mbind option_bind].
  rewrite (proj2 (Nat.eqb_neq _ _)) by lia.
  rewrite (find_replace_at (m ++ [0]) u 32 w) by (auto; lia). cbn [mbind option_bind].
  rewrite (proj2 (Nat.eqb_neq _ _)) by lia. rewrite (app_assoc (m ++ [0]) u). rewrite poke_at by (rewrite !length_app; cbn; lia).
  cbn [mbind option_bind]. replace (length m + 1 + length u - (length m + 1))%nat with (length u) by lia.
  rewrite (proj2 (Z.ltb_ge _ _)) by done. rewrite <- (app_assoc (m ++ [0]) u).
  rewrite (cstring_at_app (m ++ [0]) u w) by done. cbn [mbind option_bind]. unfold setURI at 1.
  rewrite strdupTrimed_id; [|done| |]; cycle 1.
  { intros x Hx ->. by apply (uri_front u Huc) in Hx. }
  { intros _ x Hx ->. apply last_Some_elem_of in Hx. rewrite Forall_forall in Huc. by destruct (Huc 32 Hx) as (_ & ? & _). }
  cbn [mbind option_bind]. change ((m ++ [0]) ++ u ++ 0 :: w) with ((m ++ [0]) ++ u ++ [0] ++ w).
  rewrite (app_assoc u [0]), (app_assoc (m ++ [0])). unfold w.
  assert (Eb : length ((m ++ [0]) ++ u ++ [0]) = (length m + 1 + length u + 1)%nat) by (rewrite !length_app; cbn; lia).
  assert (Hvf : no_front_ws v) by (intros x Hx; rewrite Hvh in Hx; by injection Hx as <-).
  rewrite (skip_at ((m ++ [0]) ++ u ++ [0]) v (0 :: 10 :: t)) by done. cbn [mbind option_bind].
  rewrite (cstring_at_app ((m ++ [0]) ++ u ++ [0]) v (10 :: t)) by done. cbn [mbind option_bind].
  unfold v. rewrite request_version_bytes. fold v.
  eexists _, (m ++ [0] ++ u ++ [0] ++ v ++ [0; 10]). split; [do 3 f_equal; by rewrite <- !app_assoc|]. split_and!.
  - rewrite !length_app. cbn [length]. lia.
  - repeat (apply Forall_app; split); try (by apply chars_bytes); try (by repeat constructor).
    apply chars_bytes. eapply Forall_impl; [exact Huc|]. by intros x (? & ? & ?).
  - eapply same_load_trans; [|done]. eapply same_load_trans; [|apply (setMethodString_load (setPacketType PT_REQUEST p0) m)]. done.
  - split.
    + by destruct (HTTP_1_0 =? getVersion p).
    + rewrite Hty. apply (setMethodString_type m (setPacketType PT_REQUEST p0)).
    + intros _. rewrite Hm, Hu. split; [|done]. apply (get_setMethodString m (setPacketType PT_REQUEST p0)).
    + rewrite Hty. done.
Qed.

Lemma version_bytes_ws p : Forall (fun x => is_ws x = false) (version_bytes p).
Proof. unfold version_bytes. case_bool; by repeat constructor. Qed.

Lemma print_dec_valid n : 100 <= n < 600 -> isValidStatusCode (print_dec n) = Some true.
Proof.
  intros Hn. unfold isValidStatusCode. pose proof (print_dec_3 n Hn) as Hl.
  pose proof (print_dec_digits n ltac:(lia)) as Hd. destruct (print_dec n) as [|x [|y [|z [|]]]]; try done.
  cbn [length Nat.eqb negb lookup list_lookup mbind option_bind].
  inversion_clear Hd as [|? ? Hx Hd1]. inversion_clear Hd1 as [|? ? Hy Hd2]. inversion_clear Hd2 as [|? ? Hz _].
  by rewrite Hx, Hy, Hz.
Qed.

Lemma digits_ws s : Forall (fun x => isdigit x = true) s -> Forall (fun x => is_ws x = false) s /\ Forall is_char s.
Proof.
  intros Hs. split; (eapply Forall_impl; [exact Hs|]); intros x Hx; [|by apply digit_char].
  unfold isdigit, is_ws in *. bool_to_prop. by rewrite !(proj2 (Z.eqb_neq _ _)) by lia.
Qed.

(** The status code and the reason. *)
Lemma status_code_back ctx q a n r t :
  100 <= n < 600 -> r <> [] -> Forall line_char r -> no_front_ws r ->
  let d := a ++ print_dec n ++ 32 :: r ++ 0 :: t in
  status_code ctx q d (length a) (length (a ++ print_dec n ++ 32 :: r)) =
    Some (true, a ++ print_dec n ++ 0 :: r ++ 0 :: t, put_packet (with_reason (Some r) (setStatusCode n q)) ctx).
Proof.
  intros Hn Hrne Hrc Hrf d. unfold d, status_code, findNextWhiteSpace, skipWhiteSpaces. clear d.
  destruct (digits_ws _ (print_dec_digits n ltac:(lia))) as [Hws Hch].
  assert (Hc0 : 0 ∉ print_dec n) by (by apply chars_not_nul).
  assert (Hr0 : 0 ∉ r) by (apply chars_not_nul; eapply Forall_impl; [exact Hrc|]; by intros x []).
  assert (El : length (a ++ print_dec n ++ 32 :: r) = (length a + length (print_dec n) + S (length r))%nat) by (rewrite !length_app; cbn [length]; lia).
  rewrite El. rewrite (scan_at a (print_dec n) 32) by (done || lia). cbn [mbind option_bind].
  assert (Hrl : (0 < length r)%nat) by (destruct r; [done|cbn; lia]).
  rewrite (proj2 (Nat.eqb_neq _ _)) by lia. rewrite (app_assoc a), poke_at by (by rewrite length_app).
  cbn [mbind option_bind]. rewrite <- (app_assoc a), (cstring_at_app a) by done. cbn [mbind option_bind].
  rewrite print_dec_valid by done. cbn [mbind option_bind negb]. rewrite atoi_print by (unfold INT_MAX; lia).
  change (a ++ print_dec n ++ 0 :: r ++ 0 :: t) with (a ++ print_dec n ++ [0] ++ r ++ 0 :: t).
  rewrite (app_assoc (print_dec n)), (app_assoc a).
  assert (Eb : length (a ++ print_dec n ++ [0]) = (length a + length (print_dec n) + 1)%nat) by (rewrite !length_app; cbn; lia).
  rewrite (skip_at _ r) by done. cbn [mbind option_bind]. rewrite (proj2 (Nat.eqb_neq _ _)) by lia. cbn [negb].
  rewrite (cstring_at_app _ r) by done. cbn [mbind option_bind]. unfold setReasonPhrase.
  rewrite strdupTrimed_id; [done|done| |done]. intros x Hx ->. by apply Hrf in Hx.
Qed.

Lemma processStatusLine_back ctx p p0 t :
  http_packet ctx = Some p0 -> getPacketType p = PT_RESPONSE -> 100 <= getStatusCode p < 600 ->
  getReasonPhrase p <> [] -> Forall line_char (getReasonPhrase p) -> no_front_ws (getReasonPhrase p) ->
  exists q e, processStatusLine ctx (start_line p ++ 0 :: 10 :: t) 0 (length (start_line p)) = Some (true, e ++ t, put_packet q ctx) /\
    length e = (length (start_line p) + 2)%nat /\ Forall is_byte e /\ same_load p0 q /\ same_start p q.
Proof.
  intros Hp Hty Hst Hrne Hrc Hrf. set (v := version_bytes p). set (n := getStatusCode p) in *. set (r := getReasonPhrase p) in *.
  destruct (version_bytes_chars p) as [Hvc Hvh]. fold v in Hvc, Hvh. assert (Hv0 : 0 ∉ v) by (by apply chars_not_nul).
  assert (Esl : start_line p = v ++ 32 :: print_dec n ++ 32 :: r) by (unfold start_line; by rewrite Hty).
  rewrite Esl. clear Esl. set (w := print_dec n ++ 32 :: r ++ 0 :: 10 :: t).
  assert (Ed : (v ++ 32 :: print_dec n ++ 32 :: r) ++ 0 :: 10 :: t = v ++ 32 :: w).
  { unfold w. by rewrite <- !app_assoc, <- !app_comm_cons, <- !app_assoc. }
  rewrite Ed. clear Ed. unfold processStatusLine, findNextWhiteSpace, skipWhiteSpaces.
  assert (El : length (v ++ 32 :: print_dec n ++ 32 :: r) = (length v + S (length (print_dec n) + S (length r)))%nat) by (by rewrite length_app, length_cons, length_app).
  rewrite (scan_at [] v 32 w) by (first [done|apply version_bytes_ws|rewrite El; lia]). cbn [mbind option_bind Nat.add].
  rewrite (proj2 (Nat.eqb_neq _ _)) by (rewrite El; lia). rewrite poke_at by done. rewrite Hp. cbn [mbind option_bind].
  rewrite (cstring_at_app [] v w) by done. cbn [mbind option_bind]. unfold v at 1. rewrite request_version_bytes. fold v. cbn [negb].
  set (p1 := setVersion _ _). change (http_packet (put_packet p1 ctx)) with (Some p1). cbn [mbind option_bind].
  destruct (digits_ws _ (print_dec_digits n ltac:(lia))) as [Hws Hch]. pose proof (print_dec_3 n Hst) as H3.
  change (v ++ 0 :: w) with (v ++ [0] ++ w). rewrite (app_assoc v). unfold w.
  assert (Ea : length (v ++ [0]) = (length v + 1)%nat) by (by rewrite length_app).
  rewrite (skip_at (v ++ [0]) (print_dec n)); [|done|by intros E; rewrite E in H3|]; cycle 1.
  { intros x Hx. destruct (print_dec n); [done|]. injection Hx as <-. by inversion_clear Hws. }
  cbn [mbind option_bind]. rewrite (proj2 (Nat.eqb_neq _ _)) by (rewrite El; lia). rewrite <- Ea.
  replace (length (v ++ 32 :: print_dec n ++ 32 :: r)) with (length ((v ++ [0]) ++ print_dec n ++ 32 :: r)) by (rewrite !length_app, !length_cons, !length_app; cbn [length]; lia).
  rewrite (status_code_back (put_packet p1 ctx) p1 (v ++ [0]) n r (10 :: t)) by done.
  eexists _, (v ++ [0] ++ print_dec n ++ [0] ++ r ++ [0; 10]). split; [do 3 f_equal; by rewrite <- !app_assoc|]. split_and!.
  - repeat (rewrite length_app || rewrite length_cons). cbn [length]. lia.
  - repeat (apply Forall_app; split); try (by apply chars_bytes); try (by repeat constructor).
    apply chars_bytes. eapply Forall_impl; [exact Hrc|]. by intros x [].
  - done.
  - split; [by destruct (HTTP_1_0 =? getVersion p)|done|by rewrite Hty|]. intros _. split; [|done].
    cbn. fold n. rewrite (proj2 (Z.ltb_ge _ _)), (proj2 (Z.leb_gt _ _)) by lia. done.
Qed.

(** *** A header line *)

Lemma trim_back a v t :
  trimmed v -> trim (a ++ 32 :: v ++ 0 :: t) (length a) (length a + 1 + length v) true true =
    Some (length a + 1, length a + 1 + length v)%nat.
Proof.
  intros [Hf Hl]. unfold trim, skipWhiteSpaces. replace (length a + 1 + length v - length a)%nat with (S (length v)) by lia.
  cbn [scan]. rewrite list_lookup_middle by done. cbn [mbind option_bind]. cbn [is_ws Z.eqb Pos.eqb orb negb].
  assert (E : scan (length v) (fun x => negb (is_ws x)) (a ++ 32 :: v ++ 0 :: t) (S (length a)) = Some (length a + 1)%nat).
  { destruct (decide (v = [])) as [->|Hne]; [cbn; f_equal; lia|].
    change (a ++ 32 :: v ++ 0 :: t) with (a ++ [32] ++ v ++ 0 :: t). rewrite app_assoc.
    rewrite (skip_at (a ++ [32]) v) by (rewrite ?length_app; cbn; auto; lia). f_equal. lia. }
  rewrite E. cbn [mbind option_bind]. replace (length a + 1 + length v - (length a + 1))%nat with (length v) by lia.
  destruct (last v) as [x|] eqn:El.
  - specialize (Hl x eq_refl). apply last_Some in El as [v' ->]. rewrite length_app. cbn [length].
    replace (length v' + 1)%nat with (S (length v')) by lia. cbn [scan_back].
    replace (pred (length a + 1 + S (length v'))) with (length (a ++ 32 :: v')) by (rewrite length_app; cbn; lia).
    replace (a ++ 32 :: (v' ++ [x]) ++ 0 :: t) with ((a ++ 32 :: v') ++ x :: 0 :: t) by (by rewrite <- !app_assoc, <- app_comm_cons).
    rewrite list_lookup_middle by done. cbn [mbind option_bind]. by rewrite Hl.
  - apply last_None in El as ->. done.
Qed.

Lemma processPerHeaderLine_back e t p :
  header_sendable e ->
  exists w, processPerHeaderLine (e.1 ++ lit ": " ++ e.2 ++ 0 :: 10 :: t) 0 (length (e.1 ++ lit ": " ++ e.2)) p =
    Some (true, w ++ t, (addHeader (Some e.1) (Some e.2) p).2) /\
    length w = (length (e.1 ++ lit ": " ++ e.2) + 2)%nat /\ Forall is_byte w.
Proof.
  destruct e as [k v]. intros (Hk & Hv & Ht). cbn [fst snd] in *. change (lit ": ") with [58; 32]. cbn [app].
  assert (Hkc : Forall is_char k) by (eapply Forall_impl; [exact Hk|]; by intros x [[]]).
  assert (Hvc : Forall is_char v) by (eapply Forall_impl; [exact Hv|]; by intros x []).
  assert (Hk0 : 0 ∉ k) by (by apply chars_not_nul). assert (Hv0 : 0 ∉ v) by (by apply chars_not_nul).
  assert (El : length (k ++ 58 :: 32 :: v) = (length k + S (S (length v)))%nat) by (by rewrite length_app).
  unfold processPerHeaderLine. rewrite El.
  rewrite (scan_at [] k 58 (32 :: v ++ 0 :: 10 :: t)); [|done| |done|lia]; cycle 1.
  { eapply Forall_impl; [exact Hk|]. intros x [_ ?]. by apply Z.eqb_neq. }
  cbn [mbind option_bind Nat.add]. rewrite (proj2 (Nat.leb_gt _ _)) by lia. rewrite poke_at by done. cbn [mbind option_bind].
  change (k ++ 0 :: 32 :: v ++ 0 :: 10 :: t) with (k ++ [0] ++ 32 :: v ++ 0 :: 10 :: t). rewrite (app_assoc k).
  set (k0 := k ++ [0]). assert (Ea : length k0 = (length k + 1)%nat) by (unfold k0; by rewrite length_app). rewrite <- Ea.
  replace (length k + S (S (length v)))%nat with (length k0 + 1 + length v)%nat by lia.
  rewrite trim_back by done. cbn [mbind option_bind]. unfold replaceZero.
  change (k0 ++ 32 :: v ++ 0 :: 10 :: t) with (k0 ++ [32] ++ v ++ 0 :: 10 :: t). rewrite (app_assoc k0).
  set (k1 := k0 ++ [32]). assert (Eb : length k1 = (length k0 + 1)%nat) by (unfold k1; by rewrite length_app). rewrite <- Eb.
  replace (length k1 + length v - length k1)%nat with (length v) by lia.
  rewrite replace_loop_at; [|done|]; cycle 1.
  { eapply Forall_impl; [exact Hvc|]. unfold is_char. intros x Hx. lia. }
  cbn [mbind option_bind]. rewrite (app_assoc _ v), poke_at by (by rewrite length_app). cbn [mbind option_bind].
  rewrite <- (app_assoc _ v). rewrite (cstring_at_app k1 v) by done. unfold k1, k0.
  replace (((k ++ [0]) ++ [32]) ++ v ++ 0 :: 10 :: t) with ([] ++ k ++ 0 :: 32 :: v ++ 0 :: 10 :: t) by (by rewrite <- !app_assoc).
  rewrite (cstring_at_app [] k) by done. cbn [mbind option_bind].
  exists (k ++ [0; 32] ++ v ++ [0; 10]). split; [do 3 f_equal; by rewrite <- !app_assoc|]. split.
  - rewrite !length_app. cbn [length]. lia.
  - repeat (apply Forall_app; split); try (by apply chars_bytes); by repeat constructor.
Qed.

End Lines.

(** ** Messages in pieces *)

Section Stream.

Context (pkgLimit : Z) (limit_range : 0 <= pkgLimit < 2 ^ 62).

Abbreviation limit := (getPkgLimit pkgLimit).

Implicit Types (p q : HTTPPacket) (c : HTTPStreamingContext) (b : DataBuffer) (d x z l rest : list Z) (hs : HeadersType).

Lemma limit_small : 0 <= limit < 2 ^ 62.
Proof using limit_range. unfold getPkgLimit, PKG_LIMIT. case_bool; lia. Qed.

(** The map a list of headers makes when they are added one by one. *)
Definition add_all hs : gmap (list Z) cstr := foldl (fun m e => <[fold_case e.1 := e.2]> m) ∅ hs.

(** The context of a message that is under way. *)
Definition active c (s : HTTPStreamingStep) q : Prop :=
  hc_base c = mkContext (Some (inl q)) false false false 0 None /\ _step c = s /\ _chunkState c = CHUNK_SIZE.

Definition fresh c : Prop :=
  hc_base c = StreamingContext_new /\ _step c = HSS_START_LINE /\ _chunkState c = CHUNK_SIZE /\
  _drainedLength c = 0 /\ _headersCount c = 0.

(** [c] waits for [x] to complete the message of [p] and [l]. *)
Inductive pend p l : HTTPStreamingContext -> list Z -> Prop :=
| pend_start c : fresh c -> pend p l c (http_wire p l)
| pend_headers c q hs1 hs2 x :
    active c HSS_MESSAGE_HEADER q -> sent_headers p = hs1 ++ hs2 -> _headersCount c = Z.of_nat (length hs1) ->
    same_start p q -> headers_inv q -> hp_base q = DefaultPacket_new -> hview (_headers q) = add_all hs1 ->
    x = concat (header_line <$> hs2) ++ CRLF ++ l -> _drainedLength c + Z.of_nat (length x) = Z.of_nat (length (http_wire p l)) ->
    0 <= _drainedLength c -> pend p l c x
| pend_body c q l1 l2 :
    active c HSS_MESSAGE_BODY q -> l = l1 ++ l2 -> l2 <> [] -> _encodingType c = Some HET_LENGTH ->
    _dataLength c = Z.of_nat (length l2) -> same_start p q -> headers_inv q -> hview (_headers q) = add_all (sent_headers p) ->
    body_rep (hp_base q) l1 -> _capacity (hp_base q) <= 2 * _bodyLength (hp_base q) ->
    _drainedLength c + Z.of_nat (length l2) = Z.of_nat (length (http_wire p l)) -> 0 <= _drainedLength c ->
    pend p l c l2.

(** [q] is the message of [p] and [l] at the other end. *)
Record received p l q : Prop := {
  rc_start : same_start p q;
  rc_headers : hview (_headers q) = add_all (sent_headers p);
  rc_inv : headers_inv q;
  rc_body : body_rep (hp_base q) l
}.

(** What a case of the parser does with the bytes [d] that have arrived: the
    message is complete, or the context waits for the rest of it. *)
Definition case_result p l d z rest (r : option (DataBuffer * HTTPStreamingContext)) : Prop :=
  exists b' c' d', r = Some (b', c') /\ rep b' d' /\ (length d' <= length d)%nat /\
   ((exists q, hc_base c' = mkContext (Some (inl q)) true false false 0 None /\ received p l q /\ d' ++ z = rest /\
        (length d' < length d)%nat) \/
    (exists x', pend p l c' x' /\ d' ++ z = x' ++ rest /\ (length d' < length x')%nat)).

Lemma add_all_snoc hs e : add_all (hs ++ [e]) = <[fold_case e.1 := e.2]> (add_all hs).
Proof. unfold add_all. by rewrite foldl_app. Qed.

Lemma poke_line s t : poke (s ++ CRLF ++ t) (length s) 0 = Some (s ++ 0 :: 10 :: t).
Proof. apply (poke_app s 13 (10 :: t)). Qed.

(** *** Headers *)

Lemma header_line_nl e : header_sendable e -> 10 ∉ e.1 ++ lit ": " ++ e.2.
Proof.
  intros (Hk & Hv & _). rewrite !not_elem_of_app, !Forall_forall in *. split_and!.
  - intros Hin. by destruct (Hk 10 Hin) as [[_ ?] _].
  - apply (bool_decide_unpack _). by vm_compute.
  - intros Hin. by destruct (Hv 10 Hin) as [_ ?].
Qed.

Lemma header_line_app e t : header_line e ++ t = (e.1 ++ lit ": " ++ e.2) ++ CRLF ++ t.
Proof. unfold header_line. by rewrite <- !app_assoc. Qed.

(** One header line that is there. *)
Lemma headers_loop_line fuel b d e c q :
  rep b (header_line e ++ d) -> header_sendable e -> active c HSS_MESSAGE_HEADER q ->
  0 <= _drainedLength c -> _drainedLength c + Z.of_nat (length (header_line e)) <= limit -> 0 <= _headersCount c < HEADERS_LIMIT ->
  exists b' c', headers_loop pkgLimit (S fuel) b c = headers_loop pkgLimit fuel b' c' /\ rep b' d /\
    active c' HSS_MESSAGE_HEADER (addHeader (Some e.1) (Some e.2) q).2 /\ _encodingType c' = _encodingType c /\
    _drainedLength c' = _drainedLength c + Z.of_nat (length (header_line e)) /\ _headersCount c' = _headersCount c + 1.
Proof using limit_range.
  intros Hr Hs (Hb & Hst & Hch) Hd Hlim Hcnt. pose proof limit_small.
  cbn [headers_loop]. rewrite (rep_getData _ _ Hr). cbn [mbind option_bind].
  set (s := e.1 ++ lit ": " ++ e.2). pose proof (header_line_nl e Hs) as Hnl. fold s in Hnl.
  assert (Hlen : length (header_line e) = (length s + 2)%nat) by (rewrite <- (app_nil_r (header_line e)), header_line_app; fold s; by rewrite !length_app).
  rewrite header_line_app in *. fold s in Hr |- *. rewrite findCRLF_line by done. cbn [mbind option_bind]. rewrite Hlen in *.
  rewrite (wrapu_small 64 (_drainedLength c + _)) by lia. rewrite (proj2 (Z.ltb_ge _ _)) by lia.
  rewrite poke_line. cbn [mbind option_bind].
  assert (Hs0 : length s <> 0%nat) by (unfold s; rewrite !length_app; cbn; lia). rewrite (proj2 (Nat.eqb_neq _ _)) by done.
  assert (Hp : http_packet c = Some q) by (unfold http_packet, getPacket; by rewrite Hb). rewrite Hp. cbn [mbind option_bind].
  destruct (processPerHeaderLine_back e d q Hs) as (w & E & Hwl & Hwb). fold s in E, Hwl.
  assert (Es : s ++ 0 :: 10 :: d = e.1 ++ lit ": " ++ e.2 ++ 0 :: 10 :: d) by (unfold s; by rewrite <- !app_assoc).
  rewrite Es, E. cbn [mbind option_bind].
  destruct (rep_putData b _ (w ++ d) Hr) as (b1 & -> & R1).
  { split; [rewrite !length_app; cbn; lia|]. apply Forall_app. split; [done|]. apply rep_bytes in Hr. rewrite !Forall_app in Hr. tauto. }
  cbn [mbind option_bind]. pose proof (rep_drain b1 (w ++ d) (length s + 2) R1 ltac:(rewrite length_app; lia)) as R2.
  rewrite drop_app_length' in R2 by lia.
  change (_headersCount (count_header (put_packet _ c))) with (u64 (_headersCount c + 1)).
  unfold HEADERS_LIMIT in *. rewrite (wrapu_small 64) by lia. rewrite (proj2 (Z.ltb_ge _ _)) by lia.
  eexists _, _. split; [done|]. split; [exact R2|].
  split; [split; [|done]|split_and!; cbn; [done|apply wrapu_small; lia|apply wrapu_small; lia]].
  cbn. rewrite Hb. done.
Qed.

(** The line is not there yet. *)
Lemma headers_loop_short fuel b d c :
  rep b d -> 10 ∉ d -> 0 <= _drainedLength c -> _drainedLength c + Z.of_nat (length d) <= limit ->
  headers_loop pkgLimit (S fuel) b c = Some (false, b, c).
Proof using limit_range.
  intros Hr Hnl Hd Hlim. pose proof limit_small. cbn [headers_loop].
  rewrite (rep_getData _ _ Hr). cbn [mbind option_bind]. rewrite findCRLF_none by done. cbn [mbind option_bind].
  rewrite (rep_getDataLen _ _ Hr), (wrapu_small 64) by lia. by rewrite (proj2 (Z.ltb_ge _ _)) by lia.
Qed.

(** The empty line. *)
Lemma headers_loop_end fuel b d c :
  rep b (CRLF ++ d) -> 0 <= _drainedLength c -> _drainedLength c + 2 <= limit ->
  exists b', headers_loop pkgLimit (S fuel) b c = Some (true, b', add_drained 2 c) /\ rep b' d.
Proof using limit_range.
  intros Hr Hd Hlim. pose proof limit_small. cbn [headers_loop].
  rewrite (rep_getData _ _ Hr). cbn [mbind option_bind].
  pose proof (findCRLF_line [] d (not_elem_of_nil _)) as Ef. cbn [app length Nat.add] in Ef. cbn [CRLF app] in *.
  rewrite Ef. cbn [mbind option_bind].
  change (Z.of_nat 2) with 2. rewrite (wrapu_small 64) by lia. rewrite (proj2 (Z.ltb_ge _ _)) by lia.
  pose proof (poke_line [] d) as Ep. cbn [app length CRLF] in Ep. rewrite Ep. cbn [mbind option_bind Nat.eqb].
  destruct (rep_putData b _ (0 :: 10 :: d) Hr) as (b1 & -> & R1).
  { split; [done|]. apply rep_bytes in Hr. inversion_clear Hr as [|? ? _ Hr']. inversion_clear Hr'.
    do 2 (constructor; [unfold is_byte; lia|]). done. }
  cbn [mbind option_bind]. eexists. split; [done|]. apply (rep_drain b1 (0 :: 10 :: d) 2 R1). cbn. lia.
Qed.

(** Adding the headers of a packet in their order gives its map. *)
Lemma hview_absent k (hs : HeadersType) :
  Forall is_char k -> Forall entry_ok hs -> Forall (fun e => strcasecmp k e.1 <> 0) hs -> hview hs !! fold_case k = None.
Proof.
  intros Hk He Hs. induction hs as [|e hs IH]; [done|]. apply Forall_cons in He as [[He1 _] He]. apply Forall_cons in Hs as [Hs1 Hs].
  rewrite hview_cons, lookup_insert_ne; [by apply IH|]. intros E. apply Hs1. by apply strcasecmp_eq.
Qed.

Lemma add_all_union hs (m : gmap (list Z) cstr) :
  headers_ok hs -> foldl (fun m e => <[fold_case e.1 := e.2]> m) m hs = hview hs ∪ m.
Proof.
  intros [He Hs]. revert m. induction Hs as [|e hs Hs IH Hlt]; intros m; cbn [foldl].
  { change (hview []) with (∅ : gmap (list Z) cstr). by rewrite (left_id_L ∅ (∪)). }
  apply Forall_cons in He as [[He1 He2] He]. rewrite IH by done. rewrite hview_cons, <- insert_union_l, insert_union_r; [done|].
  apply hview_absent; [done|done|]. eapply Forall_impl; [exact Hlt|]. unfold key_lt. intros f. lia.
Qed.

Lemma add_all_hview hs : headers_ok hs -> add_all hs = hview hs.
Proof. intros H. unfold add_all. by rewrite add_all_union, (right_id_L ∅ (∪)). Qed.

Definition CL : cstr := lit "Content-Length".
Definition TE : cstr := lit "Transfer-Encoding".

Lemma sent_headers_eq p l : http_sendable limit p l -> sent_headers p = _headers p ++ [content_length_entry p].
Proof using limit_range. intros [_ _ _ _ [Ha Hn] _ _ _]. unfold sent_headers. by rewrite Ha, Hn. Qed.

Lemma content_length_sendable p l : body_rep (hp_base p) l -> header_sendable (content_length_entry p).
Proof.
  intros Hb. unfold content_length_entry. rewrite (brep_len _ _ Hb).
  pose proof (print_dec_digits (Z.of_nat (length l)) ltac:(lia)) as Hd. destruct (digits_ws _ Hd) as [Hw Hc].
  split_and!; cbn [fst snd].
  - apply Forall_forall. intros x Hx. assert (Hl : Forall (fun y => (is_char y /\ y <> 10) /\ y <> 58) (lit "Content-Length"))
      by (apply (bool_decide_unpack _); by vm_compute). rewrite Forall_forall in Hl. by apply Hl.
  - rewrite Forall_forall in *. intros x Hx. split; [by apply Hc|]. intros ->. by specialize (Hd 10 Hx).
  - rewrite Forall_forall in Hw. split; intros x Hx; apply Hw; [by apply head_Some_elem_of|by apply last_Some_elem_of].
Qed.

Lemma sent_headers_sendable p l : http_sendable limit p l -> Forall header_sendable (sent_headers p).
Proof using limit_range.
  intros Hs. rewrite (sent_headers_eq p l Hs). apply Forall_app. split; [apply Hs|].
  constructor; [|constructor]. eapply content_length_sendable. apply Hs.
Qed.

(** The two headers that tell how long the body is. *)
Lemma sent_headers_lookup p l :
  http_sendable limit p l ->
  add_all (sent_headers p) !! fold_case CL = Some (print_dec (Z.of_nat (length l))) /\
  add_all (sent_headers p) !! fold_case TE = None.
Proof using limit_range.
  intros Hs. rewrite (sent_headers_eq p l Hs), add_all_snoc. cbn [content_length_entry fst snd].
  rewrite (brep_len _ _ (enc_body _ _ (hs_encodable _ _ _ Hs))). fold CL. split; [by rewrite lookup_insert_eq|].
  rewrite lookup_insert_ne by (apply (bool_decide_unpack _); by vm_compute).
  pose proof (enc_headers _ _ (hs_encodable _ _ _ Hs)) as Ho. rewrite add_all_hview by done.
  rewrite <- getHeader_ok; [apply Hs|apply (bool_decide_unpack _); by vm_compute|done].
Qed.

Lemma same_start_headers p q k v : same_start p q -> same_start p (addHeader (Some k) (Some v) q).2.
Proof. intros []. by split. Qed.

(** What follows the start line of a message under way. *)
Record header_state p l c q hs1 : Prop := {
  hst_active : active c HSS_MESSAGE_HEADER q;
  hst_count : _headersCount c = Z.of_nat (length hs1);
  hst_start : same_start p q;
  hst_inv : headers_inv q;
  hst_base : hp_base q = DefaultPacket_new;
  hst_view : hview (_headers q) = add_all hs1;
  hst_range : 0 <= _drainedLength c
}.

Lemma headers_phase p l hs1 hs2 fuel b d z rest c q :
  http_sendable limit p l -> (length d < fuel)%nat -> rep b d -> sent_headers p = hs1 ++ hs2 ->
  header_state p l c q hs1 ->
  d ++ z = (concat (header_line <$> hs2) ++ CRLF ++ l) ++ rest ->
  _drainedLength c + Z.of_nat (length (concat (header_line <$> hs2) ++ CRLF ++ l)) = Z.of_nat (length (http_wire p l)) ->
  (exists b' c' d' q', headers_loop pkgLimit fuel b c = Some (true, b', c') /\ rep b' d' /\ d' ++ z = l ++ rest /\
     header_state p l c' q' (sent_headers p) /\ (length d' < length d)%nat /\
     _drainedLength c' + Z.of_nat (length l) = Z.of_nat (length (http_wire p l))) \/
  (exists b' c' d' x', headers_loop pkgLimit fuel b c = Some (false, b', c') /\ rep b' d' /\ pend p l c' x' /\
     d' ++ z = x' ++ rest /\ (length d' < length x')%nat /\ (length d' <= length d)%nat).
Proof using limit_range.
  intros Hs. pose proof (hs_size _ _ _ Hs) as Hsz. pose proof (sent_headers_sendable p l Hs) as Hsend.
  revert hs1 fuel b d c q. induction hs2 as [|e hs2 IH]; intros hs1 fuel b d c q Hf Hr Eh [Ha Hc Hss Hi Hb Hv Hg] Ed Hdr;
    (destruct fuel as [|fuel]; [lia|]).
  - cbn [fmap list_fmap concat app] in *. rewrite <- app_assoc in Ed. rewrite length_app in Hdr. change (length CRLF) with 2%nat in Hdr.
    destruct (line_arrived d z [] (l ++ rest) Ed) as [(d' & -> & Ez)|[Hnl Hl]]; [by apply not_elem_of_nil| |].
    + left. cbn [app] in Hr. destruct (headers_loop_end fuel b d' c Hr Hg) as (b' & -> & R'); [lia|].
      assert (Edr : _drainedLength (add_drained 2 c) = _drainedLength c + 2) by (apply wrapu_small; pose proof limit_small; lia).
      exists b', (add_drained 2 c), d', q. rewrite app_nil_r in Eh. subst hs1. split_and!; [done|done|done| |cbn; lia|lia].
      split; [exact Ha|done..|lia].
    + right. cbn [length] in Hl. exists b, c, d, (CRLF ++ l).
      split_and!; [eapply headers_loop_short; [done..|lia]|done| |by rewrite <- app_assoc|rewrite length_app; cbn; lia|lia].
      by eapply (pend_headers _ _ _ q hs1 []).
  - rewrite fmap_cons in *. cbn [concat] in *. rewrite Eh, Forall_app, Forall_cons in Hsend. destruct Hsend as (_ & Hse & _).
    rewrite <- !app_assoc, header_line_app in Ed. rewrite !length_app in Hdr. change (length CRLF) with 2%nat in Hdr.
    assert (Hlen : length (header_line e) = (length (e.1 ++ lit ": " ++ e.2) + 2)%nat) by (rewrite <- (app_nil_r (header_line e)), header_line_app; by rewrite !length_app).
    pose proof (hs_count _ _ _ Hs) as Hcnt. assert (Hc2 : Z.of_nat (length hs1) < HEADERS_LIMIT).
    { apply (f_equal length) in Eh. rewrite (sent_headers_eq p l Hs), !length_app in Eh. cbn [length] in Eh. lia. }
    destruct (line_arrived d z _ _ Ed (header_line_nl e Hse)) as [(d' & -> & Ez)|[Hnl Hl]].
    + rewrite <- header_line_app in Hr, Hf. rewrite length_app in Hf.
      destruct (headers_loop_line fuel b d' e c q Hr Hse Ha Hg) as (b1 & c1 & -> & R1 & A1 & En1 & D1 & C1); [lia|lia|].
      destruct Hse as (Hk1 & Hv1 & _).
      assert (Hek : Forall is_char e.1) by (eapply Forall_impl; [exact Hk1|]; by intros ? [[]]).
      assert (Hev : Forall is_char e.2) by (eapply Forall_impl; [exact Hv1|]; by intros ? []).
      destruct (addHeader_ok e.1 e.2 q Hek Hev Hi) as [Hi' Hv'].
      destruct (IH (hs1 ++ [e]) fuel b1 d' c1 (addHeader (Some e.1) (Some e.2) q).2) as [Hdone|Hwait].
      * lia.
      * done.
      * by rewrite <- app_assoc.
      * split; [done|rewrite C1, Hc, length_app; cbn; lia|by apply same_start_headers|done|done|by rewrite Hv', add_all_snoc, Hv|lia].
      * by rewrite <- app_assoc.
      * rewrite D1, !length_app. change (length CRLF) with 2%nat. lia.
      * left. destruct Hdone as (b' & c' & d2 & q' & ? & ? & ? & ? & ? & ?). exists b', c', d2, q'.
        rewrite <- header_line_app, length_app. split_and!; try done. lia.
      * right. destruct Hwait as (b' & c' & d2 & x' & ? & ? & ? & ? & ? & ?). exists b', c', d2, x'.
        rewrite <- header_line_app, (length_app (header_line e)). split_and!; try done. lia.
    + right. assert (Ex : concat (header_line <$> e :: hs2) ++ CRLF ++ l =
        (e.1 ++ lit ": " ++ e.2) ++ CRLF ++ concat (header_line <$> hs2) ++ CRLF ++ l).
      { rewrite fmap_cons. cbn [concat]. by rewrite <- app_assoc, header_line_app. }
      exists b, c, d, (concat (header_line <$> e :: hs2) ++ CRLF ++ l).
      split_and!; [eapply headers_loop_short; [done..|lia]|done| |rewrite Ed, Ex; by rewrite <- !app_assoc
                  |rewrite Ex, (length_app _ (CRLF ++ _)), (length_app CRLF); cbn [length CRLF]; lia|lia].
      eapply (pend_headers _ _ _ q hs1 (e :: hs2)); try done.
      rewrite Ex, (length_app _ (CRLF ++ _)), !(length_app CRLF), !length_app. rewrite !length_app in Hlen. change (length CRLF) with 2%nat. lia.
Qed.

(** *** The body *)

Context (alloc_ok : Z -> bool) (alloc_limit : forall n, alloc_ok n = true -> n < 2 ^ 62).
Context (alloc_all : forall n, 0 <= n < 2 ^ 40 -> alloc_ok n = true).

Lemma append_data_room b s t c q l :
  rep b (s ++ t) -> http_packet c = Some q -> body_rep (hp_base q) l -> _capacity (hp_base q) <= 2 * _bodyLength (hp_base q) ->
  Z.of_nat (length l + length s) < 2 ^ 30 ->
  exists dp, append_data alloc_ok b (Z.of_nat (length s)) c = Some (put_packet (with_base dp q) c) /\
    body_rep dp (l ++ s) /\ _capacity dp <= 2 * _bodyLength dp.
Proof using alloc_limit alloc_all.
  clear limit_range. intros Hr Hp Hb Hcap Hsz. unfold append_data. rewrite Hp. cbn [mbind option_bind].
  destruct (decide (s = [])) as [->|Hne].
  { exists (hp_base q). rewrite app_nil_r.
    destruct (rep_dataPtr b _ Hr) as [->|[-> _]]; cbn [mbind option_bind]; unfold appendBody; change (Z.of_nat (length [])) with 0;
      rewrite ?Z.eqb_refl; by cbn [mbind option_bind]. }
  destruct (rep_dataPtr b _ Hr) as [->|[_ E]]; [|by destruct s]. cbn [mbind option_bind].
  rewrite appendBody_prefix.
  destruct (appendBody_room alloc_ok alloc_limit (hp_base q) l s) as (dp & -> & Hb' & Hcap'); try done.
  { apply rep_bytes in Hr. by apply Forall_app in Hr as [? _]. }
  cbn [mbind option_bind]. by exists dp.
Qed.

(** The parts of the state that the body does not touch. *)
Definition body_state p l c q : Prop :=
  active c HSS_MESSAGE_BODY q /\ same_start p q /\ headers_inv q /\ hview (_headers q) = add_all (sent_headers p).

Lemma body_phase p l l1 l2 b d z rest c q :
  http_sendable limit p l -> body_state p l c q -> l = l1 ++ l2 -> l2 <> [] -> _encodingType c = Some HET_LENGTH ->
  _dataLength c = Z.of_nat (length l2) -> body_rep (hp_base q) l1 -> _capacity (hp_base q) <= 2 * _bodyLength (hp_base q) ->
  _drainedLength c + Z.of_nat (length l2) = Z.of_nat (length (http_wire p l)) -> 0 <= _drainedLength c ->
  Z.of_nat (length l) < 2 ^ 30 -> rep b d -> d ++ z = l2 ++ rest ->
  case_result p l d z rest (body_case alloc_ok pkgLimit b c).
Proof using limit_range alloc_limit alloc_all.
  intros Hs ((Hbase & Hst & Hch) & Hss & Hi & Hv) El Hne Hen Hdl Hb Hcap Hdr Hg Hsz Hr Ed.
  pose proof (hs_size _ _ _ Hs). pose proof limit_small. unfold body_case, processBody. rewrite Hen. cbn [mbind option_bind].
  assert (Hp : http_packet c = Some q) by (unfold http_packet, getPacket; by rewrite Hbase).
  assert (Hll : (length l1 + length l2)%nat = length l) by (by rewrite El, length_app).
  unfold processLengthBody. rewrite (u64_len _ _ Hr), Hdl.
  destruct (Z.leb_spec (Z.of_nat (length l2)) (Z.of_nat (length d))) as [Hle|Hlt].
  - assert (Hd : exists d', d = l2 ++ d' /\ d' ++ z = rest).
    { exists (drop (length l2) d). assert (E1 : take (length l2) d = l2).
      { rewrite <- (take_app_le d z) by lia. rewrite Ed. apply take_app_length. }
      split; [rewrite <- E1 at 1; by rewrite take_drop|]. rewrite <- drop_app_le by lia. rewrite Ed. apply drop_app_length. }
    destruct Hd as (d' & -> & Ez).
    destruct (append_data_room b l2 d' c q l1 Hr Hp Hb Hcap) as (dp & -> & Hb' & Hcap'); [lia|]. cbn [mbind option_bind].
    change (_dataLength (put_packet _ c)) with (_dataLength c). rewrite Hdl.
    eexists _, _, d'. split; [done|]. split.
    { pose proof (rep_drain b (l2 ++ d') (length l2) Hr ltac:(rewrite length_app; lia)) as R. by rewrite drop_app_length in R. }
    split; [rewrite length_app; lia|]. left. exists (with_base dp q). cbn. rewrite Hbase. split_and!; [done| |done|].
    + split; [by destruct Hss; split|done|done|by rewrite El].
    + rewrite length_app. destruct l2; [done|cbn; lia].
  - assert (Hd : exists l3, l2 = d ++ l3 /\ l3 ++ rest = z).
    { exists (drop (length d) l2). assert (E1 : take (length d) l2 = d).
      { rewrite <- (take_app_le l2 rest) by lia. rewrite <- Ed. apply take_app_length. }
      split; [rewrite <- E1 at 1; by rewrite take_drop|]. rewrite <- drop_app_le by lia. rewrite <- Ed. apply drop_app_length. }
    destruct Hd as (l3 & -> & Ez). rewrite length_app in *. rewrite <- (app_nil_r d) in Hr at 1.
    destruct (append_data_room b d [] c q l1 Hr Hp Hb Hcap) as (dp & -> & Hb' & Hcap'); [lia|]. cbn [mbind option_bind].
    eexists _, _, []. split; [done|]. split; [by eapply rep_clear|]. split; [cbn; lia|]. right. exists l3.
    assert (Hl3 : l3 <> []) by (intros ->; cbn in Hlt; lia). split_and!; [|done|destruct l3; [done|cbn; lia]].
    assert (Edr : u64 (_drainedLength c + Z.of_nat (length d)) = _drainedLength c + Z.of_nat (length d)) by (apply wrapu_small; lia).
    assert (Edl : u64 (_dataLength c - Z.of_nat (length d)) = Z.of_nat (length l3)) by (rewrite wrapu_small; lia).
    eapply (pend_body _ _ _ (with_base dp q) (l1 ++ d) l3); try done.
    + split; [|done]. cbn. by rewrite Hbase.
    + by rewrite <- app_assoc.
    + by destruct Hss; split.
    + cbn. rewrite Edr. lia.
    + cbn. rewrite Edr. lia.
Qed.

(** The end of the headers decides about the body. *)
Lemma messageHeadersEnd_back p l c q :
  http_sendable limit p l -> header_state p l c q (sent_headers p) -> Z.of_nat (length l) < 2 ^ 30 ->
  _drainedLength c + Z.of_nat (length l) = Z.of_nat (length (http_wire p l)) ->
  messageHeadersEnd pkgLimit c =
    Some (true, if decide (l = []) then with_encodingType HET_NO_BODY c
                else with_dataLength (Z.of_nat (length l)) (with_encodingType HET_LENGTH c)).
Proof using limit_range.
  clear alloc_limit alloc_all alloc_ok.
  intros Hs [(Hbase & _) _ _ [Ho _] _ Hv Hg] Hsz Hdr. pose proof (hs_size _ _ _ Hs). pose proof limit_small.
  destruct (sent_headers_lookup p l Hs) as [Hcl Hte]. unfold messageHeadersEnd.
  assert (Hp : http_packet c = Some q) by (unfold http_packet, getPacket; by rewrite Hbase). rewrite Hp. cbn [mbind option_bind].
  rewrite (getHeader_ok TE), Hv, Hte by (done || (apply (bool_decide_unpack _); by vm_compute)).
  rewrite (getHeader_ok CL), Hv, Hcl by (done || (apply (bool_decide_unpack _); by vm_compute)).
  assert (Hd : isValidDigits (print_dec (Z.of_nat (length l))) = true).
  { apply forallb_forall. intros y Hy. pose proof (print_dec_digits (Z.of_nat (length l)) ltac:(lia)) as Hd.
    rewrite Forall_forall in Hd. apply Hd. by apply list_elem_of_In. }
  rewrite Hd. cbn [negb]. rewrite atoi_print by (unfold INT_MAX; lia). destruct (decide (l = [])) as [->|Hne].
  - done.
  - assert (0 < Z.of_nat (length l)) by (destruct l; [done|cbn; lia]). rewrite (proj2 (Z.ltb_lt _ _)) by lia.
    change (_drainedLength (with_dataLength _ _)) with (_drainedLength c). rewrite !(wrapu_small 64) by lia.
    by rewrite (proj2 (Z.ltb_ge _ _)) by lia.
Qed.

Lemma header_phase_case p l hs1 hs2 b d z rest c q :
  http_sendable limit p l -> Z.of_nat (length l) < 2 ^ 30 -> rep b d -> sent_headers p = hs1 ++ hs2 -> header_state p l c q hs1 ->
  d ++ z = (concat (header_line <$> hs2) ++ CRLF ++ l) ++ rest ->
  _drainedLength c + Z.of_nat (length (concat (header_line <$> hs2) ++ CRLF ++ l)) = Z.of_nat (length (http_wire p l)) ->
  case_result p l d z rest (header_case alloc_ok pkgLimit b c).
Proof using limit_range alloc_limit alloc_all.
  intros Hs Hsz Hr Eh Hst Ed Hdr. unfold header_case, processHeaders, processHeadersOrTrailers.
  assert (Hp : http_packet c = Some q) by (destruct Hst as [(Hb & _) _ _ _ _ _ _]; unfold http_packet, getPacket; by rewrite Hb).
  rewrite Hp. cbn [mbind option_bind]. rewrite (rep_getDataLen _ _ Hr), Nat2Z.id.
  destruct (headers_phase p l hs1 hs2 (S (length d)) b d z rest c q Hs ltac:(lia) Hr Eh Hst Ed Hdr)
    as [(b1 & c1 & d1 & q1 & -> & R1 & Ez & Hst1 & Hlt & Hdr1)|(b1 & c1 & d1 & x' & -> & R1 & Hpd & Ez & Hlt & Hle)];
    cbn [mbind option_bind].
  2: { exists b1, c1, d1. split_and!; [done|done|done|]. right. by exists x'. }
  rewrite (messageHeadersEnd_back p l c1 q1) by done. cbn [mbind option_bind].
  destruct Hst1 as [(Hbase & Hstep & Hch) _ Hss Hi Hb Hv Hg]. destruct (decide (l = [])) as [->|Hne].
  - cbn [body_case processBody _encodingType with_step with_encodingType mbind option_bind].
    eexists b1, _, d1. split; [done|]. split; [done|]. split; [lia|]. left. exists q1. cbn. rewrite Hbase. split_and!; [done| |done|done].
    split; [done|done|done|]. rewrite Hb. apply body_rep_new.
  - set (c2 := with_step _ _). destruct (body_phase p l [] l b1 d1 z rest c2 q1) as (b' & c' & d' & -> & R' & Hle & Hres); try done.
    + rewrite Hb. apply body_rep_new.
    + by rewrite Hb.
    + exists b', c', d'. split_and!; [done|done|lia|]. destruct Hres as [(q' & ? & ? & ? & ?)|Hw]; [left|by right].
      exists q'. split_and!; try done. lia.
Qed.

(** *** The start line *)

Lemma start_line_parsed ctx p l p0 t :
  http_sendable limit p l -> http_packet ctx = Some p0 ->
  exists q e s, cstring_at (start_line p ++ 0 :: 10 :: t) 0 = Some s /\
    (if strneq s (lit "HTTP/") 5 then processStatusLine ctx (start_line p ++ 0 :: 10 :: t) 0 (length (start_line p))
     else processRequestLine ctx (start_line p ++ 0 :: 10 :: t) 0 (length (start_line p))) = Some (true, e ++ t, put_packet q ctx) /\
    length e = (length (start_line p) + 2)%nat /\ Forall is_byte e /\ same_load p0 q /\ same_start p q /\ 10 ∉ start_line p.
Proof using limit_range.
  clear alloc_limit alloc_all alloc_ok. intros Hs Hp. destruct (version_bytes_chars p) as [Hvc _].
  assert (Hv10 : 10 ∉ version_bytes p) by (unfold version_bytes; case_bool; apply (bool_decide_unpack _); by vm_compute).
  destruct (decide (getPacketType p = PT_REQUEST)) as [Hty|Hty].
  - destruct (hs_request _ _ _ Hs Hty) as (m & u & Hm & Hu & Hmt & Hune & Huc & Hul).
    destruct (enc_method _ _ (hs_encodable _ _ _ Hs) ltac:(by symmetry)) as (m' & u' & Em & Eu & Hmc & _). simplify_eq.
    destruct (processRequestLine_back ctx p p0 m u t Hp Hty Hm Hu Hmc Hmt Hune Huc Hul) as (q & e & E & He & Heb & Hl & Hss).
    assert (Esl : start_line p = m ++ 32 :: u ++ 32 :: version_bytes p) by (unfold start_line; by rewrite Hty, Hm, Hu).
    assert (Hc : Forall is_char (start_line p)).
    { rewrite Esl. apply Forall_app; split; [done|]. constructor; [done|]. apply Forall_app; split; [|by constructor].
      eapply Forall_impl; [exact Huc|]. by intros ? (? & ? & ?). }
    exists q, e, (start_line p). split; [apply (cstring_at_app [] (start_line p)); [done|by apply chars_not_nul]|].
    assert (Hn : strneq (start_line p) (lit "HTTP/") 5 = false).
    { apply bool_decide_eq_false. rewrite Esl. intros Et. change (take 5 (lit "HTTP/")) with [72; 84; 84; 80; 47] in Et.
      rewrite Forall_forall in Hmt, Hmc. destruct (decide (length m < 5)%nat) as [Hl5|Hl5].
      - assert (Hx : take 5 (m ++ 32 :: u ++ 32 :: version_bytes p) !! length m = Some 32) by (rewrite lookup_take_lt by done; by apply list_lookup_middle).
        rewrite Et in Hx. apply list_elem_of_lookup_2 in Hx. by vm_compute in Hx; set_solver.
      - assert (Hx : take 5 (m ++ 32 :: u ++ 32 :: version_bytes p) !! 4%nat = Some 47) by (by rewrite Et).
        rewrite lookup_take_lt, lookup_app_l in Hx by lia. apply list_elem_of_lookup_2 in Hx.
        specialize (Hmc 47 Hx). destruct (token_not_blank 47 (Hmt 47 Hx)) as (_ & ? & _); [unfold is_byte; lia|done]. }
    rewrite Hn. split_and!; try done. rewrite Esl. rewrite !not_elem_of_app, !not_elem_of_cons, not_elem_of_app, not_elem_of_cons.
    rewrite Forall_forall in Hmt, Huc. split_and!; try done.
    + intros Hin. specialize (Hmt 10 Hin). by vm_compute in Hmt.
    + intros Hin. by destruct (Huc 10 Hin) as (_ & _ & ?).
  - destruct (hs_response _ _ _ Hs Hty) as (Hr & Hrne & Hrc & Hrf).
    destruct (enc_status _ _ (hs_encodable _ _ _ Hs)) as [Hst Hrch]; [congruence|].
    destruct (processStatusLine_back ctx p p0 t Hp Hr Hst Hrne Hrc Hrf) as (q & e & E & He & Heb & Hl & Hss).
    assert (Esl : start_line p = version_bytes p ++ 32 :: print_dec (getStatusCode p) ++ 32 :: getReasonPhrase p) by (unfold start_line; by rewrite Hr).
    pose proof (print_dec_digits (getStatusCode p) ltac:(lia)) as Hdg. destruct (digits_ws _ Hdg) as [_ Hdc].
    assert (Hc : Forall is_char (start_line p)).
    { rewrite Esl. apply Forall_app; split; [done|]. constructor; [done|]. apply Forall_app; split; [done|by constructor]. }
    exists q, e, (start_line p). split; [apply (cstring_at_app [] (start_line p)); [done|by apply chars_not_nul]|].
    assert (Hn : strneq (start_line p) (lit "HTTP/") 5 = true).
    { apply bool_decide_eq_true. rewrite Esl. unfold version_bytes. by case_bool. }
    rewrite Hn. split_and!; try done. rewrite Esl. rewrite !not_elem_of_app, !not_elem_of_cons, not_elem_of_app, not_elem_of_cons.
    rewrite Forall_forall in Hdg, Hrc. split_and!; try done.
    + intros Hin. by specialize (Hdg 10 Hin).
    + intros Hin. by destruct (Hrc 10 Hin) as [_ ?].
Qed.

Lemma start_phase_case p l b d z rest c :
  http_sendable limit p l -> Z.of_nat (length l) < 2 ^ 30 -> rep b d -> fresh c -> d ++ z = http_wire p l ++ rest ->
  case_result p l d z rest (start_case alloc_ok pkgLimit b c).
Proof using limit_range alloc_limit alloc_all.
  intros Hs Hsz Hr Hf Ed. pose proof Hf as (Hbase & Hst & Hch & Hd0 & Hc0).
  pose proof (hs_size _ _ _ Hs) as Hlim. pose proof limit_small as Hlr. unfold start_case, processStartLine.
  rewrite (rep_getData _ _ Hr). cbn [mbind option_bind].
  set (c1 := put_packet (HTTPPacketFactory_createPacket 0) c).
  assert (E10 : 10 ∉ start_line p) by (by destruct (start_line_parsed c1 p l _ [] Hs eq_refl) as (? & ? & ? & _ & _ & _ & _ & _ & _ & ?)).
  assert (Ew : http_wire p l ++ rest = start_line p ++ CRLF ++ (concat (header_line <$> sent_headers p) ++ CRLF ++ l) ++ rest)
    by (unfold http_wire; by rewrite <- !app_assoc).
  rewrite Ew in Ed. destruct (line_arrived d z _ _ Ed E10) as [(d' & -> & Ez)|[Hnl Hl]].
  - rewrite findCRLF_line by done. cbn [mbind option_bind]. rewrite poke_line. cbn [mbind option_bind].
    assert (Hwl : length (http_wire p l) = (length (start_line p) + 2 + length (concat (header_line <$> sent_headers p) ++ CRLF ++ l))%nat)
      by (unfold http_wire; rewrite (length_app (start_line p)), (length_app CRLF); cbn [length CRLF]; lia).
    rewrite (proj2 (Z.ltb_ge _ _)) by lia.
    assert (Hnp : getPacket (hc_base c) = None) by (unfold getPacket; by rewrite Hbase). rewrite Hnp. cbn [assertb mbind option_bind].
    destruct (start_line_parsed c1 p l _ d' Hs eq_refl) as (q & e & s & -> & E & Hel & Heb & (Hlb & Hlh & Hll) & Hss & _).
    cbn [mbind option_bind]. fold c1. rewrite E. cbn [mbind option_bind].
    destruct (rep_putData b _ (e ++ d') Hr) as (b1 & -> & R1).
    { split; [rewrite !length_app; cbn; lia|]. apply Forall_app. split; [done|]. apply rep_bytes in Hr. rewrite !Forall_app in Hr. tauto. }
    cbn [mbind option_bind]. pose proof (rep_drain b1 (e ++ d') (length (start_line p) + 2) R1 ltac:(rewrite length_app; lia)) as R2.
    rewrite drop_app_length' in R2 by lia. set (c2 := with_step _ _).
    assert (Hd2 : _drainedLength c2 = Z.of_nat (length (start_line p) + 2)) by (cbn; rewrite Hd0; apply wrapu_small; lia).
    destruct (header_phase_case p l [] (sent_headers p) (drainData b1 (i32 (Z.of_nat (length (start_line p) + 2)))) d' z rest c2 q)
      as (b' & c' & d2 & -> & R' & Hle & Hres); try done.
    + split; [split; [cbn; by rewrite Hbase|done]|exact Hc0|done| |done|by rewrite Hlh|rewrite Hd2; lia].
      split; [split; rewrite Hlh; constructor|by rewrite Hlh, Hll].
    + rewrite Hd2. lia.
    + exists b', c', d2. split_and!; [done|done|rewrite !length_app; lia|]. destruct Hres as [(q' & ? & ? & ? & ?)|Hw]; [left|by right].
      exists q'. split_and!; try done. rewrite !length_app. lia.
  - rewrite findCRLF_none by done. cbn [mbind option_bind].
    assert (length (start_line p) + 2 <= length (http_wire p l))%nat by (unfold http_wire; rewrite !length_app; cbn [length CRLF]; lia).
    rewrite (u64_len _ _ Hr), (proj2 (Z.ltb_ge _ _)) by lia. cbn [mbind option_bind].
    exists b, c, d. split_and!; [done|done|lia|]. right. exists (http_wire p l). split_and!; [by constructor|by rewrite Ew|lia].
Qed.

Lemma pend_flags p l c x :
  pend p l c x -> isBroken (hc_base c) = false /\ isEndOfFile (hc_base c) = false /\ isCompleted (hc_base c) = false.
Proof. destruct 1 as [c (-> & _)|c q hs1 hs2 x (-> & _)|c q l1 l2 (-> & _)]; done. Qed.

(** *** A call, the reading loop, the rounds *)

Definition call_result p l d z rest (r : option (bool * DataBuffer * HTTPStreamingContext)) : Prop :=
  exists b' c', r = Some (true, b', c') /\ case_result p l d z rest (Some (b', c')).

Lemma call_phase p l b d z rest c x :
  http_sendable limit p l -> Z.of_nat (length l) < 2 ^ 30 -> rep b d -> pend p l c x -> d ++ z = x ++ rest ->
  call_result p l d z rest (http_processData alloc_ok pkgLimit b c).
Proof using limit_range alloc_limit alloc_all.
  intros Hs Hsz Hr Hp Ed. unfold http_processData.
  assert (Hcase : case_result p l d z rest (match _step c with
     | HSS_START_LINE => start_case alloc_ok pkgLimit b c
     | HSS_MESSAGE_HEADER => header_case alloc_ok pkgLimit b c
     | HSS_MESSAGE_BODY => body_case alloc_ok pkgLimit b c end)).
  { destruct Hp as [c Hf|c q hs1 hs2 x Ha Eh Hc Hss Hi Hb Hv Ex Hdr Hg|c q l1 l2 Ha El Hne Hen Hdl Hss Hi Hv Hb Hcap Hdr Hg].
    - destruct Hf as (? & Hst & ?). rewrite Hst. by apply start_phase_case.
    - pose proof Ha as (_ & -> & _). subst x. by eapply header_phase_case.
    - pose proof Ha as (_ & -> & _). by eapply body_phase. }
  destruct Hcase as (b' & c' & d' & -> & R' & Hle & Hres). cbn [mbind option_bind].
  assert (Hfl : isBroken (hc_base c') = false /\ isEndOfFile (hc_base c') = false).
  { destruct Hres as [(q & -> & _)|(x' & Hp' & _)]; [done|]. by destruct (pend_flags _ _ _ _ Hp') as (? & ? & _). }
  destruct Hfl as [Hb He]. rewrite He, Hb. cbn [negb]. exists b', c'. split; [done|]. exists b', c', d'. done.
Qed.

Abbreviation msg := (HTTPPacket * list Z)%type.

Definition msg_ok (m : msg) : Prop := http_sendable limit m.1 m.2 /\ Z.of_nat (length m.2) < 2 ^ 30.

Definition msg_wire (m : msg) : list Z := http_wire m.1 m.2.

(** [X] is what is still to come of the messages [ms], some of it buffered. *)
Definition stream c X (ms : list msg) : Prop :=
  match ms with
  | [] => fresh c /\ X = []
  | m :: ms => exists x, pend m.1 m.2 c x /\ X = x ++ concat (msg_wire <$> ms)
  end.

(** The first of [ms] is not complete. *)
Definition partial c d (ms : list msg) : Prop :=
  match ms with
  | [] => d = []
  | m :: _ => exists x, pend m.1 m.2 c x /\ (length d < length x)%nat
  end.

Definition loop_result ms d z done (r : option (DataBuffer * HTTPStreamingContext * list (dyn_packet HTTPPacket))) : Prop :=
  exists b' c' d' ms1 ms2 qs, r = Some (b', c', done ++ (inl <$> qs)) /\ ms = ms1 ++ ms2 /\
    Forall2 (fun m q => received m.1 m.2 q) ms1 qs /\ rep b' d' /\ stream c' (d' ++ z) ms2 /\ partial c' d' ms2 /\
    (length d' <= length d)%nat.

Lemma fresh_reset c : fresh (http_reset c).
Proof. done. Qed.

Lemma fresh_stream c ms : fresh c -> stream c (concat (msg_wire <$> ms)) ms.
Proof. destruct ms as [|m ms]; [done|]. intros Hf. exists (msg_wire m). split; [by constructor|done]. Qed.

(** With nothing to read the parser stays as it is. *)
Lemma fresh_idle b c : rep b [] -> fresh c -> http_processData alloc_ok pkgLimit b c = Some (true, b, c).
Proof using limit_range.
  clear alloc_limit alloc_all. intros Hr (Hb & Hst & _). unfold http_processData, start_case, processStartLine.
  rewrite Hst, (rep_getData _ _ Hr). cbn [mbind option_bind]. change (findCRLF [] 0 (length [])) with (Some (None : option (nat * nat))).
  cbn [mbind option_bind]. rewrite (u64_len _ _ Hr). pose proof limit_small. rewrite (proj2 (Z.ltb_ge _ _)) by (cbn; lia).
  cbn [mbind option_bind]. assert (isEndOfFile (hc_base c) = false) as -> by (by rewrite Hb).
  assert (isBroken (hc_base c) = false) as -> by (by rewrite Hb). done.
Qed.

Lemma loop_phase ms fuel b d z c done :
  Forall msg_ok ms -> (length d < fuel)%nat -> rep b d -> stream c (d ++ z) ms ->
  loop_result ms d z done (http_read_loop alloc_ok pkgLimit fuel b c done).
Proof using limit_range alloc_limit alloc_all.
  intros Hms. revert fuel b d c done. induction Hms as [|[p l] ms [Hs Hsz] Hms IH]; intros fuel b d c done Hf Hr Hst;
    (destruct fuel as [|fuel]; [lia|]); cbn [http_read_loop].
  - destruct Hst as [Hfr Ed]. apply app_nil in Ed as [-> ->]. rewrite fresh_idle by done. cbn [mbind option_bind negb].
    assert (isCompleted (hc_base c) = false) as -> by (by destruct Hfr as (-> & _)). cbn [negb].
    exists b, c, [], [], [], []. rewrite app_nil_r. split_and!; try done; constructor.
  - destruct Hst as (x & Hp & Ed). cbn [fst snd] in *.
    destruct (call_phase p l b d z _ c x Hs Hsz Hr Hp Ed) as (b1 & c1 & -> & (b1' & c1' & d1 & [= <- <-] & R1 & Hle & Hres)).
    cbn [mbind option_bind negb]. destruct Hres as [(q & Hb1 & Hrc & Ez & Hlt)|(x' & Hp' & Ez & Hlt)].
    + assert (isCompleted (hc_base c1) = true) as -> by (by rewrite Hb1). cbn [negb]. rewrite Hb1. cbn [stealPacket _packet mbind option_bind].
      destruct (IH fuel b1 d1 (http_reset (on_ctx (fun _ => setPacket None (hc_base c1)) c1)) (done ++ [inl q]))
        as (b' & c' & d' & ms1 & ms2 & qs & E & -> & HF & R' & Hst' & Hpart & Hle'); [lia|done|rewrite Ez; apply fresh_stream, fresh_reset|].
      rewrite Hb1 in E. exists b', c', d', ((p, l) :: ms1), ms2, (q :: qs). rewrite <- app_assoc in E. cbn [app] in E.
      split_and!; [exact E|done|by constructor|done|done|done|lia].
    + destruct (pend_flags _ _ _ _ Hp') as (_ & _ & ->). cbn [negb].
      exists b1, c1, d1, [], ((p, l) :: ms), []. rewrite app_nil_r. split_and!; [done|done|constructor|done|by exists x'|by exists x'|done].
Qed.

Lemma stream_flags c X ms : stream c X ms -> isBroken (hc_base c) = false.
Proof. destruct ms as [|m ms]; [by intros [(-> & _) _]|intros (x & Hp & _); by apply pend_flags in Hp as (? & _)]. Qed.

Lemma rounds_phase bufSize pieces ms b d c done :
  Forall msg_ok ms -> rep b d -> stream c (d ++ concat pieces) ms -> partial c d ms ->
  Forall (fun r => Forall is_byte r /\ (0 < length r)%nat /\ Z.of_nat (length r) <= bufSize) pieces ->
  Z.of_nat (length (d ++ concat pieces)) + bufSize <= FRAME_MAX ->
  exists b' c' qs, http_read_rounds alloc_ok pkgLimit bufSize pieces b c done = Some (b', c', done ++ (inl <$> qs)) /\
    rep b' [] /\ fresh c' /\ Forall2 (fun m q => received m.1 m.2 q) ms qs.
Proof using limit_range alloc_limit alloc_all.
  intros Hms Hr Hst Hpart Hps. revert ms b d c done Hms Hr Hst Hpart.
  induction Hps as [|r pieces (Hb & Hlr & Hlb) Hps IH]; intros ms b d c done Hms Hr Hst Hpart Hsz; cbn [http_read_rounds].
  - cbn [concat] in *. rewrite app_nil_r in *. destruct ms as [|m ms].
    + destruct Hst as [Hf ->]. exists b, c, []. rewrite app_nil_r. split_and!; try done; constructor.
    + exfalso. destruct Hst as (x & Hp & ->). destruct Hpart as (x' & Hp' & Hlt). rewrite length_app in Hlt.
      assert (x' = x) as ->; [|lia]. clear -Hp Hp'.
      destruct Hp as [c (? & E & _)|c q hs1 hs2 x (? & E & _) Eh Hc ? ? ? ? Ex|c q l1 l2 (? & E & _) El ? ? Hdl];
        destruct Hp' as [c (? & E' & _)|c q' hs1' hs2' x' (? & E' & _) Eh' Hc' ? ? ? ? Ex'|c q' l1' l2' (? & E' & _) El' ? ? Hdl']; try congruence.
      * subst x x'. rewrite Eh in Eh'. apply app_inj_1 in Eh' as [_ ->]; [done|lia].
      * rewrite El in El'. apply app_inj_2 in El' as [_ ->]; [done|lia].
  - unfold http_read_round, ensureFree. cbn [concat] in *. rewrite !length_app in Hsz.
    destruct (rep_expand b d bufSize Hr) as (b1 & -> & R1 & Hroom); [lia|lia|]. cbn [mbind option_bind].
    destruct (rep_recv b1 d r R1 Hb) as (b2 & b3 & -> & E3 & R3); [lia|]. cbn [mbind option_bind]. rewrite E3. cbn [mbind option_bind].
    rewrite (proj2 (Z.eqb_neq (Z.of_nat (length r)) 0)) by lia. rewrite (rep_getDataLen _ _ R3), Nat2Z.id.
    rewrite app_assoc in Hst.
    destruct (loop_phase ms (length (d ++ r) + 2) b3 (d ++ r) (concat pieces) c done Hms) as (b4 & c4 & d4 & ms1 & ms2 & qs & -> & -> & HF & R4 & Hst4 & Hp4 & Hle4); [lia|done|done|].
    cbn [mbind option_bind]. rewrite (stream_flags _ _ _ Hst4), (proj2 (Nat.eqb_neq (length r) 0)) by lia. cbn [orb].
    apply Forall_app in Hms as [_ Hms2].
    rewrite length_app in Hle4.
    destruct (IH ms2 b4 d4 c4 (done ++ (inl <$> qs)) Hms2 R4 Hst4 Hp4) as (b' & c' & qs' & -> & R' & Hf & HF').
    { rewrite length_app. lia. }
    exists b', c', (qs ++ qs'). rewrite fmap_app, <- app_assoc. split_and!; [done|done|done|by apply Forall2_app].
Qed.

End Stream.

(** ** From end to end *)

(** [DefaultPacketStreamer::encode] of one packet after the other, by a
    streamer without packet header. *)
Fixpoint http_encode_all (ps : list HTTPPacket) (b : DataBuffer) : option DataBuffer :=
  match ps with
  | [] => Some b
  | p :: ps => '(_, _, b) ← streamer_encode false p b; http_encode_all ps b
  end.

Lemma streamer_encode_http p l b d :
  encodable p l -> rep b d -> Z.of_nat (length d + length (http_wire p l)) <= FRAME_MAX ->
  exists p' b', streamer_encode false p b = Some (true, p', b') /\ rep b' (d ++ http_wire p l).
Proof.
  intros He Hr Hl. unfold streamer_encode. cbn [mbind option_bind].
  destruct (HTTPPacket_encode_ok p l b d He Hr Hl) as (b' & E & R'). change (@encode HTTPPacket _ p b) with (HTTPPacket_encode p b).
  rewrite E. cbn [mbind option_bind negb]. rewrite (rep_getDataLen _ _ Hr), (rep_getDataLen _ _ R').
  rewrite assertb_true by (apply Z.leb_le; rewrite length_app; lia). cbn [mbind option_bind].
  change (0 <=? -1) with false. cbn iota. by eexists _, b'.
Qed.

Lemma http_encode_all_ok limit ms b d :
  Forall (fun m : HTTPPacket * list Z => http_sendable limit m.1 m.2) ms -> rep b d ->
  Z.of_nat (length (d ++ concat (msg_wire <$> ms))) <= FRAME_MAX ->
  exists b', http_encode_all (fst <$> ms) b = Some b' /\ rep b' (d ++ concat (msg_wire <$> ms)).
Proof.
  intros Hms. revert b d. induction Hms as [|[p l] ms Hs Hms IH]; intros b d Hr Hl.
  { exists b. by rewrite app_nil_r. }
  rewrite fmap_cons in *. cbn [concat fmap list_fmap http_encode_all fst] in *.
  change (msg_wire (p, l)) with (http_wire p l) in *. cbn [fst snd] in Hs. rewrite !length_app in Hl.
  destruct (streamer_encode_http p l b d) as (p' & b1 & -> & R1); [apply Hs|done|lia|]. cbn [mbind option_bind].
  destruct (IH b1 (d ++ http_wire p l) R1) as (b' & E & R'); [rewrite !length_app; lia|].
  change (list_fmap _ _ fst ms) with (fst <$> ms) in *. exists b'. split; [exact E|]. by rewrite <- app_assoc in R'.
Qed.

(** C8: HTTP messages arrive as they were sent.  Requests and responses with
    any methods, URIs, status lines, headers and bodies that fit a start line
    and a header line, encoded one after the other into a connection's output
    buffer and cut into any non-empty pieces on the way, are delivered by the
    incremental parser in order: the same kind, version, method, URI, status
    code and reason phrase, the same header map with the [Content-Length] that
    [encode] adds, and the same body; no byte is left and the parser is ready
    for the next message. *)
Theorem http_roundtrip alloc_ok pkgLimit ms pieces bufSize :
  (forall n, alloc_ok n = true -> n < 2 ^ 62) -> (forall n, 0 <= n < 2 ^ 40 -> alloc_ok n = true) ->
  0 <= pkgLimit < 2 ^ 62 -> Forall (msg_ok pkgLimit) ms -> concat pieces = concat (msg_wire <$> ms) ->
  Forall (fun r => (0 < length r)%nat /\ Z.of_nat (length r) <= bufSize) pieces ->
  0 <= bufSize -> Z.of_nat (length (concat pieces)) + bufSize <= FRAME_MAX ->
  (exists b, http_encode_all (fst <$> ms) DataBuffer_new = Some b /\ getData b = Some (concat pieces)) /\
  exists b' c' qs,
    http_read_rounds alloc_ok pkgLimit bufSize pieces DataBuffer_new HTTPStreamingContext_new [] = Some (b', c', inl <$> qs) /\
    Forall2 (fun m q => received m.1 m.2 q) ms qs /\ rep b' [] /\ fresh c'.
Proof.
  intros Ha Hall Hlim Hms Ed Hps Hbs Hsz.
  destruct (http_encode_all_ok (getPkgLimit pkgLimit) ms DataBuffer_new []) as (b & E & R).
  { eapply Forall_impl; [exact Hms|]. by intros m []. } { apply rep_new. } { cbn [app]. rewrite <- Ed. lia. }
  cbn [app] in R. rewrite <- Ed in R. split; [exists b; split; [done|by apply rep_getData]|].
  destruct (rounds_phase pkgLimit Hlim alloc_ok Ha Hall bufSize pieces ms DataBuffer_new [] HTTPStreamingContext_new [])
    as (b' & c' & qs & Er & R' & Hf & HF).
  - done.
  - apply rep_new.
  - cbn [app]. rewrite Ed. by apply fresh_stream.
  - destruct ms as [|m ms]; [done|]. exists (msg_wire m). split; [by constructor|].
    unfold msg_wire, http_wire. rewrite !length_app. cbn. lia.
  - apply rep_bytes in R. clear -Hps R. induction Hps as [|r pieces [? ?] Hps IH]; [constructor|].
    cbn [concat] in R. apply Forall_app in R as [? ?]. constructor; [by split_and!|by apply IH].
  - done.
  - by exists b', c', qs.
Qed.

(** A request with a header and a body, and a response without a body. *)
Definition sample_request : HTTPPacket :=
  (addHeader (Some (lit "Host")) (Some (lit "a.b"))
    (with_URI (Some (lit "/q?x=1")) (setMethodString (lit "POST")
      (with_base (mkDefaultPacket Packet_new (BBlock [Some 104; Some 105]) 2 2) HTTPPacket_new)))).2.
Definition sample_response : HTTPPacket := setVersion HTTP_1_0 (setStatusCode 404 HTTPPacket_new).

Definition sample_msgs : list (HTTPPacket * list Z) := [(sample_request, [104; 105]); (sample_response, [])].
Definition sample_bytes : list Z := Eval vm_compute in concat (msg_wire <$> sample_msgs).
Definition sample_pieces : list (list Z) := [take 7 sample_bytes; take 60 (drop 7 sample_bytes); drop 67 sample_bytes].

Lemma forallb_Forall {A} (f : A -> bool) (Q : A -> Prop) (s : list A) :
  (forall a, f a = true -> Q a) -> forallb f s = true -> Forall Q s.
Proof.
  intros Hf. induction s as [|a s IH]; [constructor|]. cbn. intros [? ?]%andb_true_iff. constructor; auto.
Qed.

Lemma line_char_b a : (0 <? a) && (a <? 256) && negb (a =? 10) = true -> line_char a.
Proof. intros H. bool_to_prop. split; [split; done|done]. Qed.

Lemma uri_char_b a : (0 <? a) && (a <? 256) && negb (a =? 10) && negb (is_ws a) = true -> uri_char a.
Proof. intros [H Hw]%andb_true_iff. apply line_char_b in H as [? ?]. apply negb_true_iff in Hw. done. Qed.

Lemma sample_request_ok : msg_ok 0 (sample_request, [104; 105]).
Proof.
  split; [|vm_compute; reflexivity]. split; cbn [fst snd].
  - split.
    + split; [done|vm_compute; split; [discriminate|reflexivity]|apply (bool_decide_unpack _); by vm_compute|done].
    + split; [|by repeat constructor]. constructor; [|constructor]. split; apply (bool_decide_unpack _); by vm_compute.
    + intros _. exists (lit "POST"), (lit "/q?x=1"). split_and!; [done|done|apply (bool_decide_unpack _); by vm_compute..].
    + intros E. by exfalso; apply E.
  - intros _. exists (lit "POST"), (lit "/q?x=1"). split_and!; [done|done| |done| |vm_compute; discriminate].
    + by repeat constructor.
    + eapply forallb_Forall; [apply uri_char_b|]. by vm_compute.
  - intros E. by exfalso; apply E.
  - constructor; [|constructor]. split_and!; cbn [fst snd].
    + eapply (forallb_Forall (fun a => (0 <? a) && (a <? 256) && negb (a =? 10) && negb (a =? 58))).
      * intros a [H Hw]%andb_true_iff. split; [by apply line_char_b|]. by bool_to_prop.
      * by vm_compute.
    + eapply forallb_Forall; [apply line_char_b|]. by vm_compute.
    + split; intros a Ha; by injection Ha as <-.
  - by vm_compute.
  - by vm_compute.
  - by vm_compute.
  - by vm_compute.
Qed.

Lemma sample_response_ok : msg_ok 0 (sample_response, []).
Proof.
  split; [|vm_compute; reflexivity]. split; cbn [fst snd].
  - split; [apply body_rep_new|by split; constructor|done|].
    intros _. split; [vm_compute; split; [discriminate|reflexivity]|apply (bool_decide_unpack _); by vm_compute].
  - done.
  - intros _. split_and!; [done|by vm_compute| |].
    + eapply forallb_Forall; [apply line_char_b|]. by vm_compute.
    + intros a Ha. by injection Ha as <-.
  - constructor.
  - by vm_compute.
  - by vm_compute.
  - by vm_compute.
  - by vm_compute.
Qed.

Lemma http_roundtrip_witness :
  (exists b, http_encode_all [sample_request; sample_response] DataBuffer_new = Some b /\ getData b = Some (concat sample_pieces)) /\
  exists b' c' qs,
    http_read_rounds (fun n => n <? 2 ^ 41) 0 100 sample_pieces DataBuffer_new HTTPStreamingContext_new [] = Some (b', c', inl <$> qs) /\
    Forall2 (fun m q => received m.1 m.2 q) sample_msgs qs /\ rep b' [] /\ fresh c'.
Proof.
  apply (http_roundtrip (fun n => n <? 2 ^ 41) 0 sample_msgs sample_pieces 100).
  - intros n Hn. apply Z.ltb_lt in Hn. lia.
  - intros n Hn. apply Z.ltb_lt. lia.
  - lia.
  - constructor; [apply sample_request_ok|]. constructor; [apply sample_response_ok|constructor].
  - vm_compute. reflexivity.
  - repeat (constructor; [vm_compute; split; [lia|discriminate]|]). constructor.
  - lia.
  - vm_compute. discriminate.
Defined.
