(* ===== verification/HttpChunked.v ===== *)
(** * Chunked bodies and the corners of the HTTP parser

    The chunked coding is decoded to the concatenation of its chunks; and
    three behaviours of the number and delimiter parsing that a peer can use
    to make two parsers disagree about where a message ends. *)

From S2P Require Import Prelude CString DataBuffer Packet Streamer DefaultPacket HttpPacket HttpStreamer HttpSafety HttpRoundtrip.

(** A chunk: its size line, with whatever extension, and its data. *)
Abbreviation chunk := (list Z * list Z)%type.

(** The line says how long the data is. *)
Definition size_line (s : list Z) (n : Z) : Prop :=
  s <> [] /\ Forall line_char s /\ no_front_ws s /\
  exists r, sscanf_xc s = (Some n, r) /\ (r = None \/ r = Some 59).

Definition chunk_ok (k : chunk) : Prop :=
  size_line k.1 (Z.of_nat (length k.2)) /\ k.2 <> [] /\ Z.of_nat (length k.2) < 2 ^ 30.

Definition chunk_wire (k : chunk) : list Z := k.1 ++ CRLF ++ k.2 ++ CRLF.

(** The body on the wire: the chunks, the last chunk and an empty trailer. *)
Definition chunked_wire (ks : list chunk) (last : list Z) : list Z :=
  concat (chunk_wire <$> ks) ++ last ++ CRLF ++ CRLF.

Definition chunk_data (ks : list chunk) : list Z := concat (snd <$> ks).

Section Chunked.

Context (pkgLimit : Z) (limit_range : 0 <= pkgLimit < 2 ^ 62).
Context (alloc_ok : Z -> bool) (alloc_limit : forall n, alloc_ok n = true -> n < 2 ^ 62).
Context (alloc_all : forall n, 0 <= n < 2 ^ 40 -> alloc_ok n = true).

Abbreviation limit := (getPkgLimit pkgLimit).

Implicit Types (q : HTTPPacket) (c : HTTPStreamingContext) (b : DataBuffer) (d l rest : list Z).

Lemma line_no_nl s : Forall line_char s -> 10 ∉ s /\ Forall is_char s.
Proof.
  intros Hs. split; [|eapply Forall_impl; [exact Hs|]; by intros ? []]. intros Hin. rewrite Forall_forall in Hs. by destruct (Hs 10 Hin).
Qed.

Lemma processChunkSize_back b s d c n :
  size_line s n -> 0 <= n -> rep b (s ++ CRLF ++ d) -> 0 <= _drainedLength c ->
  _drainedLength c + Z.of_nat (length s + 2) + n <= limit ->
  exists b', processChunkSize pkgLimit b c = Some (true, b',
      with_chunkState (if n =? 0 then TRAILER else CHUNK_DATA) (add_drained (Z.of_nat (length s + 2)) (with_dataLength n c))) /\
    rep b' d.
Proof using limit_range.
  clear alloc_limit alloc_all alloc_ok. intros (Hne & Hs & Hf & r & Esc & Hr') Hn Hr Hd Hlim. pose proof (limit_small pkgLimit limit_range).
  destruct (line_no_nl s Hs) as [Hnl Hch]. unfold processChunkSize. rewrite (rep_getData _ _ Hr). cbn [mbind option_bind].
  rewrite findCRLF_line by done. cbn [mbind option_bind]. rewrite poke_line. cbn [mbind option_bind].
  destruct (rep_putData b _ (s ++ 0 :: 10 :: d) Hr) as (b1 & -> & R1).
  { split; [by rewrite !length_app|]. apply Forall_app. split; [by apply chars_bytes|].
    apply rep_bytes in Hr. rewrite !Forall_app in Hr. destruct Hr as (_ & _ & Hd0).
    constructor; [unfold is_byte; lia|]. constructor; [unfold is_byte; lia|done]. }
  cbn [mbind option_bind]. rewrite (wrapu_small 64) by lia. rewrite (proj2 (Z.ltb_ge _ _)) by lia.
  unfold skipWhiteSpaces. rewrite (skip_at [] s (0 :: 10 :: d)) by done. cbn [mbind option_bind].
  rewrite (cstring_at_app [] s (10 :: d)) by (done || by apply chars_not_nul). cbn [mbind option_bind]. rewrite Esc.
  cbn [default from_option id]. rewrite (proj2 (Z.ltb_ge _ _)) by lia.
  assert (Hc : negb (0 =? default 0 r) && negb (59 =? default 0 r) = false) by (destruct Hr' as [->| ->]; done).
  cbn [default from_option id] in Hc. unfold default in *. rewrite Hc. cbn [orb].
  change (_dataLength (add_drained _ _)) with n.
  change (_drainedLength (add_drained _ _)) with (u64 (_drainedLength c + Z.of_nat (length s + 2))).
  rewrite (wrapu_small 64 (_ + Z.of_nat _)) by lia. rewrite (wrapu_small 64 (_ + n)) by lia.
  pose proof (rep_drain b1 (s ++ 0 :: 10 :: d) (length s + 2) R1 ltac:(rewrite length_app; cbn; lia)) as R2.
  change (s ++ 0 :: 10 :: d) with (s ++ [0; 10] ++ d) in R2. rewrite app_assoc, drop_app_length' in R2 by (by rewrite length_app).
  destruct (n =? 0); [by eexists|]. rewrite (proj2 (Z.ltb_ge _ _)) by lia. by eexists.
Qed.

Lemma getCRLF_back b d c : rep b (CRLF ++ d) -> exists b', getCRLF b c = Some (true, b', add_drained 2 c) /\ rep b' d.
Proof.
  clear limit_range alloc_limit alloc_all. intros Hr. unfold getCRLF. rewrite (rep_getData _ _ Hr), (u64_len _ _ Hr).
  cbn [CRLF app mbind option_bind lookup list_lookup length]. rewrite !(proj2 (Z.ltb_ge _ _)), (proj2 (Z.eqb_neq _ _)) by lia.
  cbn [Z.eqb Pos.eqb andb]. eexists. split; [done|]. apply (rep_drainData b _ 2 Hr). lia.
Qed.

Lemma processLengthBody_back b s d c q l :
  rep b (s ++ d) -> http_packet c = Some q -> body_rep (hp_base q) l -> _capacity (hp_base q) <= 2 * _bodyLength (hp_base q) ->
  Z.of_nat (length l + length s) < 2 ^ 30 -> _dataLength c = Z.of_nat (length s) ->
  exists b' dp, processLengthBody alloc_ok b c =
      Some (true, b', add_drained (Z.of_nat (length s)) (put_packet (with_base dp q) c)) /\ rep b' d /\
    body_rep dp (l ++ s) /\ _capacity dp <= 2 * _bodyLength dp.
Proof using alloc_limit alloc_all.
  clear limit_range. intros Hr Hp Hb Hcap Hsz Hdl. unfold processLengthBody. rewrite (u64_len _ _ Hr), Hdl.
  rewrite (proj2 (Z.leb_le _ _)) by (rewrite length_app; lia).
  destruct (append_data_room alloc_ok alloc_limit alloc_all b s d c q l Hr Hp Hb Hcap Hsz) as (dp & -> & Hb' & Hcap').
  cbn [mbind option_bind]. change (_dataLength (put_packet _ c)) with (_dataLength c). rewrite Hdl.
  eexists _, dp. split; [done|]. split; [|done].
  pose proof (rep_drain b (s ++ d) (length s) Hr ltac:(rewrite length_app; lia)) as R. by rewrite drop_app_length in R.
Qed.

(** The state between two chunks. *)
Record between c q l : Prop := {
  bt_state : _chunkState c = CHUNK_SIZE;
  bt_packet : http_packet c = Some q;
  bt_body : body_rep (hp_base q) l;
  bt_cap : _capacity (hp_base q) <= 2 * _bodyLength (hp_base q);
  bt_range : 0 <= _drainedLength c
}.

(** One chunk: three rounds of the loop. *)
Lemma chunk_step fuel b k d c q l :
  chunk_ok k -> rep b (chunk_wire k ++ d) -> between c q l -> Z.of_nat (length l + length k.2) < 2 ^ 30 ->
  _drainedLength c + Z.of_nat (length (chunk_wire k)) <= limit ->
  exists b' c' q', chunk_loop alloc_ok pkgLimit (S (S (S fuel))) b c = chunk_loop alloc_ok pkgLimit fuel b' c' /\
    rep b' d /\ between c' q' (l ++ k.2) /\ _headers q' = _headers q /\ getPacketType q' = getPacketType q /\
    isBroken (hc_base c') = isBroken (hc_base c) /\ _drainedLength c' = _drainedLength c + Z.of_nat (length (chunk_wire k)).
Proof using limit_range alloc_limit alloc_all.
  intros (Hsl & Hne & Hlt) Hr [Hst Hp Hb Hcap Hg] Hsz Hlim. pose proof (limit_small pkgLimit limit_range).
  unfold chunk_wire in *. rewrite <- !app_assoc in Hr.
  assert (Hw : length (k.1 ++ CRLF ++ k.2 ++ CRLF) = (length k.1 + 2 + length k.2 + 2)%nat) by (rewrite !length_app; cbn; lia). rewrite Hw in *.
  cbn [chunk_loop]. rewrite Hst.
  destruct (processChunkSize_back b k.1 (k.2 ++ CRLF ++ d) c (Z.of_nat (length k.2)) Hsl) as (b1 & -> & R1); [lia|done|done|lia|].
  assert (Hn0 : Z.of_nat (length k.2) =? 0 = false) by (apply Z.eqb_neq; destruct k.2; [done|cbn; lia]). rewrite Hn0.
  cbn [mbind option_bind negb]. set (c1 := with_chunkState CHUNK_DATA _). cbn [chunk_loop].
  change (_chunkState c1) with CHUNK_DATA. cbn iota.
  destruct (processLengthBody_back b1 k.2 (CRLF ++ d) c1 q l R1 Hp Hb Hcap Hsz) as (b2 & dp & -> & R2 & Hb2 & Hcap2); [done|].
  cbn [mbind option_bind negb]. set (c2 := with_chunkState CHUNK_DATA_CRLF _).
  change (_chunkState c2) with CHUNK_DATA_CRLF. cbn iota. destruct (getCRLF_back b2 d c2 R2) as (b3 & -> & R3).
  cbn [mbind option_bind negb].
  assert (Ed : u64 (u64 (u64 (_drainedLength c + Z.of_nat (length k.1 + 2)) + Z.of_nat (length k.2)) + 2) =
     _drainedLength c + Z.of_nat (length k.1 + 2 + length k.2 + 2)).
  { rewrite (wrapu_small 64 (_ + Z.of_nat (length k.1 + 2))) by lia. rewrite (wrapu_small 64 (_ + Z.of_nat (length k.2))) by lia.
    rewrite wrapu_small; lia. }
  eexists b3, _, (with_base dp q). split; [done|]. split; [done|]. split.
  - split; [done|done|done|done|]. cbn. rewrite Ed. lia.
  - by split_and!.
Qed.

Lemma chunks_loop ks last fuel b rest c q l :
  Forall chunk_ok ks -> size_line last 0 -> rep b (chunked_wire ks last ++ rest) -> between c q l ->
  Z.of_nat (length l + length (chunk_data ks)) < 2 ^ 30 ->
  _drainedLength c + Z.of_nat (length (chunked_wire ks last)) <= limit -> (3 * length ks + 2 <= fuel)%nat ->
  exists b' c' q', chunk_loop alloc_ok pkgLimit fuel b c = Some (true, b', c') /\ rep b' rest /\
    http_packet c' = Some q' /\ body_rep (hp_base q') (l ++ chunk_data ks) /\ _headers q' = _headers q /\
    getPacketType q' = getPacketType q /\ isBroken (hc_base c') = isBroken (hc_base c) /\
    _drainedLength c' = _drainedLength c + Z.of_nat (length (chunked_wire ks last)).
Proof using limit_range alloc_limit alloc_all.
  intros Hks Hlast. revert fuel b c q l. unfold chunked_wire, chunk_data. pose proof (limit_small pkgLimit limit_range).
  induction Hks as [|k ks Hk Hks IH]; intros fuel b c q l Hr Hbt Hsz Hlim Hf.
  - destruct fuel as [|[|fuel]]; [cbn in Hf; lia..|]. cbn [fmap list_fmap concat app] in *. rewrite <- !app_assoc in Hr.
    rewrite !length_app in Hlim. change (length CRLF) with 2%nat in *. destruct Hbt as [Hst Hp Hb Hcap Hg].
    cbn [chunk_loop]. rewrite Hst.
    destruct (processChunkSize_back b last (CRLF ++ rest) c 0 Hlast) as (b1 & -> & R1); [lia|done|done|lia|].
    cbn [mbind option_bind negb Z.eqb]. set (c1 := with_chunkState TRAILER _). change (_chunkState c1) with TRAILER. cbn iota.
    assert (Hd1 : _drainedLength c1 = _drainedLength c + Z.of_nat (length last + 2)) by (apply wrapu_small; lia).
    unfold processHeadersOrTrailers. change (http_packet c1) with (http_packet c). rewrite Hp. cbn [mbind option_bind].
    destruct (headers_loop_end pkgLimit limit_range (Z.to_nat (getDataLen b1)) b1 rest c1 R1) as (b2 & -> & R2); [lia|lia|].
    eexists b2, _, q. rewrite app_nil_r. split_and!; try done.
    change (u64 (_drainedLength c1 + 2) = _drainedLength c + Z.of_nat (length (last ++ CRLF ++ CRLF))).
    rewrite !length_app, Hd1. change (length CRLF) with 2%nat. rewrite wrapu_small; lia.
  - rewrite fmap_cons in *. cbn [concat] in *. rewrite <- !app_assoc in Hr. rewrite <- !app_assoc, length_app in Hlim.
    cbn [fmap list_fmap concat] in Hsz. rewrite (length_app k.2) in Hsz. cbn [length] in Hf.
    destruct fuel as [|[|[|fuel]]]; [lia..|].
    destruct (chunk_step fuel b k _ c q l Hk Hr Hbt) as (b1 & c1 & q1 & -> & R1 & Hbt1 & Hh1 & Ht1 & Hb1 & Hd1); [lia|lia|].
    destruct (IH fuel b1 c1 q1 (l ++ k.2)) as (b' & c' & q' & -> & R' & Hp' & Hb' & Hh' & Ht' & Hbr' & Hd').
    { by rewrite <- !app_assoc. } { done. } { rewrite length_app. lia. } { rewrite Hd1. lia. } { lia. }
    exists b', c', q'. cbn [fmap list_fmap concat]. rewrite <- app_assoc in Hb'. split_and!; try done; try congruence.
    rewrite Hd', Hd1, <- !app_assoc, (length_app (chunk_wire k)). lia.
Qed.

Lemma chunked_rounds ks last : Forall chunk_ok ks -> (3 * length ks + 2 <= length (chunked_wire ks last) + 2)%nat.
Proof.
  clear limit_range alloc_limit alloc_all. intros Hks. unfold chunked_wire. rewrite length_app.
  induction Hks as [|k ks [(Hne & _) _] _ IH]; [cbn; lia|]. rewrite fmap_cons. cbn [concat length]. rewrite length_app.
  assert (3 <= length (chunk_wire k))%nat; [|lia]. unfold chunk_wire. rewrite !length_app. change (length CRLF) with 2%nat.
  destruct k.1; [done|cbn [length]; lia].
Qed.

End Chunked.

(** C10: The chunked coding is decoded to its data.  For any sequence of
    chunks (each with any spelling of its size that [sscanf] reads back,
    extensions after a semicolon included), followed by a last chunk of size
    zero and an empty trailer, [processChunkedBody] completes, appends exactly
    the concatenation of the chunks' data to the body, takes exactly the coded
    bytes from the buffer and leaves what follows for the next message. *)
Theorem chunked_body_decoded alloc_ok pkgLimit ks last rest b c q l :
  (forall n, alloc_ok n = true -> n < 2 ^ 62) -> (forall n, 0 <= n < 2 ^ 40 -> alloc_ok n = true) ->
  0 <= pkgLimit < 2 ^ 62 -> Forall chunk_ok ks -> size_line last 0 -> between c q l ->
  rep b (chunked_wire ks last ++ rest) -> Z.of_nat (length l + length (chunk_data ks)) < 2 ^ 30 ->
  _drainedLength c + Z.of_nat (length (chunked_wire ks last)) <= getPkgLimit pkgLimit ->
  exists b' c' q', processChunkedBody alloc_ok pkgLimit b c = Some (true, b', c') /\ getData b' = Some rest /\
    http_packet c' = Some q' /\ getBody (hp_base q') = Some (l ++ chunk_data ks) /\
    _headers q' = _headers q /\ isBroken (hc_base c') = isBroken (hc_base c).
Proof.
  intros Ha Hall Hl Hks Hlast Hbt Hr Hsz Hlim. unfold processChunkedBody. rewrite (rep_getDataLen _ _ Hr), Nat2Z.id.
  destruct (chunks_loop pkgLimit Hl alloc_ok Ha Hall ks last (length (chunked_wire ks last ++ rest) + 2) b rest c q l)
    as (b' & c' & q' & -> & R' & Hp' & Hb' & Hh' & _ & Hbr' & _); try done.
  { pose proof (chunked_rounds ks last Hks). rewrite length_app. lia. }
  exists b', c', q'. split_and!; [done|by apply rep_getData|done|by apply body_rep_getBody|done|done].
Qed.

Definition sample_chunks : list chunk := [(lit "3;name=x", lit "abc"); (lit "00A", lit "0123456789")].
Definition sample_chunked : list Z := Eval vm_compute in chunked_wire sample_chunks (lit "0") ++ lit "GET".
Definition sample_context : HTTPStreamingContext :=
  put_packet HTTPPacket_new (with_step HSS_MESSAGE_BODY HTTPStreamingContext_new).

Lemma sample_chunked_buffer : exists b, writeBytes DataBuffer_new sample_chunked (Z.of_nat (length sample_chunked)) = Some b /\ rep b sample_chunked.
Proof. apply (rep_writeBytes DataBuffer_new []); [apply rep_new|apply (bool_decide_unpack _); by vm_compute|vm_compute; discriminate]. Qed.

Lemma chunked_body_decoded_witness :
  exists b0, rep b0 sample_chunked /\
  exists b' c' q', processChunkedBody (fun n => n <? 2 ^ 41) 0 b0 sample_context = Some (true, b', c') /\ getData b' = Some (lit "GET") /\
    http_packet c' = Some q' /\ getBody (hp_base q') = Some ([] ++ chunk_data sample_chunks) /\
    _headers q' = _headers HTTPPacket_new /\ isBroken (hc_base c') = isBroken (hc_base sample_context).
Proof.
  destruct sample_chunked_buffer as (b0 & _ & R0). exists b0. split; [exact R0|].
  apply (chunked_body_decoded (fun n => n <? 2 ^ 41) 0 sample_chunks (lit "0") (lit "GET") b0 sample_context HTTPPacket_new []).
  - intros n Hn. apply Z.ltb_lt in Hn. lia.
  - intros n Hn. apply Z.ltb_lt. lia.
  - lia.
  - repeat (constructor; [split; [split_and!; [done|eapply forallb_Forall; [apply line_char_b|by vm_compute]|intros a Ha; by injection Ha as <-|eexists; split; [vm_compute; reflexivity|auto]]|split; [done|vm_compute; reflexivity]]|]). constructor.
  - split_and!; [done|eapply forallb_Forall; [apply line_char_b|by vm_compute]|intros a Ha; by injection Ha as <-|eexists; split; [vm_compute; reflexivity|auto]].
  - split; [done|done|apply body_rep_new|done|done].
  - exact R0.
  - vm_compute. reflexivity.
  - vm_compute. discriminate.
Defined.

(** ** Where a message ends

    Runs of the parser on concrete bytes. *)

Definition bodies (r : option (DataBuffer * HTTPStreamingContext * list (dyn_packet HTTPPacket)))
  : option (bool * list (option (list Z))) :=
  match r with
  | Some (_, c, qs) =>
      Some (isBroken (hc_base c), (fun q => match q with inl p => getBody (hp_base p) | inr _ => None end) <$> qs)
  | None => None
  end.

Definition run_parser (pieces : list (list Z)) : option (bool * list (option (list Z))) :=
  bodies (http_read_rounds (fun n => n <? 2 ^ 41) 0 1000 pieces DataBuffer_new HTTPStreamingContext_new []).

(** [atoi] keeps 32 bits: a body of 4294967301 bytes is taken to have 5. *)
Theorem content_length_truncated :
  run_parser [lit "POST / HTTP/1.1" ++ CRLF ++ lit "Content-Length: 4294967301" ++ CRLF ++ CRLF ++ lit "hello"] =
  Some (false, [Some (lit "hello")]).
Proof. vm_compute. reflexivity. Qed.

(** So does [sscanf] into an [int]: a chunk of 0x100000000 bytes is the last one. *)
Theorem chunk_size_truncated :
  run_parser [lit "POST / HTTP/1.1" ++ CRLF ++ lit "Transfer-Encoding: chunked" ++ CRLF ++ CRLF ++
              lit "100000000" ++ CRLF ++ CRLF] =
  Some (false, [Some []]).
Proof. vm_compute. reflexivity. Qed.

Definition odd_delimiter : list Z * list Z :=
  (lit "POST / HTTP/1.1" ++ CRLF ++ lit "Transfer-Encoding: chunked" ++ CRLF ++ CRLF ++ lit "1" ++ CRLF ++ lit "a" ++ [13],
   CRLF ++ lit "0" ++ CRLF ++ CRLF).

(** A carriage return that arrives alone after the data of a chunk is dropped:
    the same bytes are a message or an error, as they are cut. *)
Theorem chunk_delimiter_depends_on_cut :
  run_parser [odd_delimiter.1 ++ odd_delimiter.2] = Some (true, []) /\
  run_parser [odd_delimiter.1; odd_delimiter.2] = Some (false, [Some (lit "a")]).
Proof. split; vm_compute; reflexivity. Qed.
