(* ===== verification/AdvancePacket.v ===== *)
(** * AdvancePacket<T> and its factory

    Sources: advancepacket.h and advancepacketfactory.h under
    src/agent_engine/network/anet/.

    An advance packet is a packet of type [T] behind a 16-byte header with a
    time to live, the high half of a 64-bit channel id, flags and a CRC32C
    checksum.  The template parameter is the type [T] with its instance of
    [IPacket]; the template is again an instance. *)

From S2P Require Import Prelude DataBuffer Crc Packet Streamer.

(** ** Flags *)

Definition ADDON_ATTR_MASK : Z := 0x80.
Definition ADDON_ATTR_REQUIRED : Z := 0x80.
Definition HEADER_NO_ADDON : Z := 0.

Definition HasAddon (addonType : Z) : bool := addonType =? HEADER_NO_ADDON.
Definition IsAddonRequired (addonType : Z) : bool :=
  Z.land addonType ADDON_ATTR_MASK =? ADDON_ATTR_REQUIRED.

Definition PACKET_FLAGS_EOR_MASK : Z := 0x01.
Definition PACKET_FLAGS_COMPRESSION_MASK : Z := 0x06.
Definition PACKET_FLAGS_CHECKSUM_MASK : Z := 0x18.
Definition PACKET_FLAGS_NOCOMPRESSION : Z := 0x00.
Definition PACKET_FLAGS_NOCHECKSUM : Z := 0x00.
Definition PACKET_FLAGS_CHECKSUM_CRC32C : Z := 0x08.

Definition IsEndOfReply (flags : Z) : bool := negb (Z.land flags PACKET_FLAGS_EOR_MASK =? 0).
Definition IsCompressedPacket (flags : Z) : bool :=
  negb (Z.land flags PACKET_FLAGS_COMPRESSION_MASK =? PACKET_FLAGS_NOCOMPRESSION).
Definition GetChecksumMethod (flags : Z) : Z := Z.land flags PACKET_FLAGS_CHECKSUM_MASK.
Definition SetChecksumMethod (checksumMethod flags : Z) : Z :=
  u8 (Z.lor (Z.land flags (Z.lnot PACKET_FLAGS_CHECKSUM_MASK)) checksumMethod).

(** ** The extended header *)

Record AdvancePacketHeader := mkAdvHeader {
  ttlInMs : Z;          (* uint32_t *)
  packetChecksum : Z;   (* uint32_t *)
  chidHigh : Z;         (* uint32_t *)
  priority : Z;         (* 3 bits *)
  packetFlags : Z;      (* 5 bits *)
  packetVersion : Z;    (* uint8_t *)
  nextHeaderType : Z;   (* uint8_t *)
  reserved : Z          (* uint8_t *)
}.

(** The byte the two bit-fields share: [priority] is in its low bits. *)
Definition flagsData (h : AdvancePacketHeader) : Z := Z.lor (priority h) (Z.shiftl (packetFlags h) 3).

Definition ADV_HEADER_LEN : Z := 16.            (* sizeof(AdvancePacketHeader) *)
Definition CHECKSUM_OFFSET : Z := 4.            (* offsetof(..., packetChecksum) *)
Definition FLAGS_OFFSET : Z := 12.              (* offsetof(..., flagsData) *)

Definition AdvHeader_new : AdvancePacketHeader := mkAdvHeader 0 0 0 0 0 0 0 0.

Definition with_checksum (c : Z) (h : AdvancePacketHeader) : AdvancePacketHeader :=
  mkAdvHeader (ttlInMs h) c (chidHigh h) (priority h) (packetFlags h) (packetVersion h) (nextHeaderType h) (reserved h).
Definition with_flags (f : Z) (h : AdvancePacketHeader) : AdvancePacketHeader :=
  mkAdvHeader (ttlInMs h) (packetChecksum h) (chidHigh h) (priority h) f (packetVersion h) (nextHeaderType h) (reserved h).
Definition with_priority (p : Z) (h : AdvancePacketHeader) : AdvancePacketHeader :=
  mkAdvHeader (ttlInMs h) (packetChecksum h) (chidHigh h) p (packetFlags h) (packetVersion h) (nextHeaderType h) (reserved h).
Definition with_chidHigh (c : Z) (h : AdvancePacketHeader) : AdvancePacketHeader :=
  mkAdvHeader (ttlInMs h) (packetChecksum h) c (priority h) (packetFlags h) (packetVersion h) (nextHeaderType h) (reserved h).
Definition with_version (v : Z) (h : AdvancePacketHeader) : AdvancePacketHeader :=
  mkAdvHeader (ttlInMs h) (packetChecksum h) (chidHigh h) (priority h) (packetFlags h) v (nextHeaderType h) (reserved h).
Definition with_ttl (t : Z) (h : AdvancePacketHeader) : AdvancePacketHeader :=
  mkAdvHeader t (packetChecksum h) (chidHigh h) (priority h) (packetFlags h) (packetVersion h) (nextHeaderType h) (reserved h).

(** ** The packet code's flag *)

Definition ADVANCE_PACKET_MASK : Z := 0x8000.

Definition IsAdvancePacket (pcode : Z) : bool := negb (Z.land pcode ADVANCE_PACKET_MASK =? 0).

Definition mark_base (p : Packet) : Packet := setPcode (i32 (Z.lor (getPcode p) ADVANCE_PACKET_MASK)) p.
Definition cleanup_base (p : Packet) : Packet := setPcode (i32 (Z.land (getPcode p) (Z.lnot ADVANCE_PACKET_MASK))) p.

(** Raw bytes at [getData() + off]: the accesses through the [uint32_t] and
    [uint8_t] pointers into the received data. *)
Definition data_bytes (b : DataBuffer) (off n : Z) : option (list Z) :=
  m ← _mem b; mem_bytes m (_pdata b + off) n.

Definition put_bytes (b : DataBuffer) (off : Z) (l : list Z) : option DataBuffer :=
  m ← _mem b;
  m ← mem_write m (_pdata b + off) (Some <$> l);
  Some (mkDataBuffer (Some m) (_pdata b) (_pfree b)).

(** ** The class template *)

Record AdvancePacket (T : Type) := mkAdvance { mAdvHeader : AdvancePacketHeader; adv_packet : T }.
Arguments mkAdvance {T}.
Arguments mAdvHeader {T}.
Arguments adv_packet {T}.

(** The processor and the global flag [ChecksumState]. *)
Record flags_env := mkFlags { env_cpu : cpu; checksumState : bool }.

Section Advance.

Context {T : Type} `{IPacket T} (env : flags_env).
Implicit Types (p : AdvancePacket T).

Definition AdvancePacket_new (t : T) : AdvancePacket T := mkAdvance AdvHeader_new t.

Definition upd_adv (f : AdvancePacketHeader -> AdvancePacketHeader) p : AdvancePacket T :=
  mkAdvance (f (mAdvHeader p)) (adv_packet p).

Definition adv_upd_base (f : Packet -> Packet) p : AdvancePacket T :=
  mkAdvance (mAdvHeader p) (upd_base f (adv_packet p)).

Definition adv_getChannelId p : Z :=
  u64 (Packet_getChannelId (base (adv_packet p)) + Z.shiftl (chidHigh (mAdvHeader p)) 32).

Definition adv_setChannelId (chid : Z) p : option (AdvancePacket T) :=
  _ ← assertb (chid <=? 2 ^ 60);
  let high := Z.shiftr chid 32 in
  let p := upd_adv (with_chidHigh (u32 high)) p in
  Some (adv_upd_base (Packet_setChannelId (u64 (chid - u64 (Z.shiftl high 32)))) p).

Definition adv_getPriority p : Z := priority (mAdvHeader p).

Definition adv_setPriority (prio : Z) p : option (AdvancePacket T) :=
  _ ← assertb ((ANET_PRIORITY_DEFAULT <? prio) && (prio <=? ANET_PRIORITY_HIGH));
  Some (upd_adv (with_priority (wrapu 3 prio)) p).

Definition getTTL p : Z := ttlInMs (mAdvHeader p).
Definition setTTL (ttl : Z) p : AdvancePacket T := upd_adv (with_ttl ttl) p.
Definition getPacketFlags p : Z := packetFlags (mAdvHeader p).
Definition setPacketFlags (flags : Z) p : AdvancePacket T := upd_adv (with_flags (wrapu 5 flags)) p.
Definition getChecksum p : Z := packetChecksum (mAdvHeader p).
Definition setChecksum (crc : Z) p : AdvancePacket T := upd_adv (with_checksum crc) p.
Definition isChecksumEnabled p : bool :=
  negb (GetChecksumMethod (packetFlags (mAdvHeader p)) =? PACKET_FLAGS_NOCHECKSUM).
Definition setChecksumMethod (c : Z) p : AdvancePacket T :=
  upd_adv (fun h => with_flags (wrapu 5 (SetChecksumMethod c (packetFlags h))) h) p.
Definition markAdvancePacket p : AdvancePacket T := adv_upd_base mark_base p.
Definition isAdvancePacket p : bool := IsAdvancePacket (getPcode (base (adv_packet p))).

Definition write_adv_header (h : AdvancePacketHeader) (output : DataBuffer) : option (DataBuffer * Z) :=
  output ← writeInt32 output (ttlInMs h);
  let checksumOffset := getDataLen output in
  output ← writeInt32 output (packetChecksum h);
  output ← writeInt32 output (chidHigh h);
  output ← writeInt8 output (flagsData h);
  output ← writeInt8 output (packetVersion h);
  output ← writeInt8 output (nextHeaderType h);
  output ← writeInt8 output (reserved h);
  Some (output, checksumOffset).

Definition adv_encode p (output : DataBuffer) : option (bool * AdvancePacket T * DataBuffer) :=
  let oldLen := getDataLen output in
  let p := setChecksum 0 p in
  let p := if checksumState env then setChecksumMethod PACKET_FLAGS_CHECKSUM_CRC32C p
           else setChecksumMethod PACKET_FLAGS_NOCHECKSUM p in
  '(output, checksumOffset) ← write_adv_header (mAdvHeader p) output;
  let p := markAdvancePacket p in
  '(rc, t, output) ← encode (adv_packet p) output;
  let p := mkAdvance (mAdvHeader p) t in
  if checksumState env then
    let newLen := getDataLen output in
    _ ← assertb (oldLen + ADV_HEADER_LEN <=? newLen);
    let advPktLen := newLen - oldLen in
    data ← data_bytes output oldLen advPktLen;
    let p := setChecksum (DoCrc32c (env_cpu env) 0 data) p in
    output ← fillInt32 output checksumOffset (getChecksum p);
    Some (rc, p, output)
  else Some (rc, p, output).

(** The checksum test of [decode]: whether it passed, and the buffer. *)
Definition adv_verify (dataLen : Z) (input : DataBuffer) : option (bool * DataBuffer) :=
  pktCRC ← data_bytes input CHECKSUM_OFFSET 4;
  flags ← data_bytes input FLAGS_OFFSET 1;
  let pktFlags := Z.shiftr (default 0 (head flags)) 3 in
  if checksumState env && negb (GetChecksumMethod pktFlags =? PACKET_FLAGS_NOCHECKSUM) then
    input ← put_bytes input CHECKSUM_OFFSET [0; 0; 0; 0];
    checkSum ← (if GetChecksumMethod pktFlags =? PACKET_FLAGS_CHECKSUM_CRC32C
                then data ← peekBytes input dataLen; Some (DoCrc32c (env_cpu env) 0 data)
                else Some 0);
    if negb (be_value pktCRC =? checkSum) then Some (false, input)
    else input ← put_bytes input CHECKSUM_OFFSET pktCRC; Some (true, input)
  else Some (true, input).

Definition read_adv_header (input : DataBuffer) : option (AdvancePacketHeader * DataBuffer) :=
  '(ttl, input) ← readInt32 input;
  '(crc, input) ← readInt32 input;
  '(high, input) ← readInt32 input;
  '(flags, input) ← readInt8 input;
  '(version, input) ← readInt8 input;
  '(next, input) ← readInt8 input;
  '(res, input) ← readInt8 input;
  Some (mkAdvHeader (u32 ttl) (u32 crc) (u32 high) (Z.land (u8 flags) 7) (Z.shiftr (u8 flags) 3)
                    (u8 version) (u8 next) (u8 res), input).

Definition adv_decode p (input : DataBuffer) : option (bool * AdvancePacket T * DataBuffer) :=
  let dataLen := Packet_getDataLen (base (adv_packet p)) in
  '(ok, input) ← adv_verify dataLen input;
  if negb ok then Some (false, p, drainData input dataLen)
  else
    '(h, input) ← read_adv_header input;
    let p := mkAdvance h (adv_packet p) in
    let p := adv_upd_base (Packet_setDataLen (i32 (dataLen - ADV_HEADER_LEN))) p in
    '(rc, t, input) ← decode (adv_packet p) input;
    Some (rc, mkAdvance (mAdvHeader p) t, input).

#[global] Instance AdvancePacket_IPacket : IPacket (AdvancePacket T) := {
  base p := base (adv_packet p);
  upd_base := adv_upd_base;
  encode := adv_encode;
  decode := adv_decode;
  isRegularPacket p := isRegularPacket (adv_packet p);
  getPriority := adv_getPriority;
  setPriority := adv_setPriority;
  setChannelId := adv_setChannelId;
  getChannelId := adv_getChannelId;
  cleanupFlags := adv_upd_base cleanup_base;
  getPacketVersion p := packetVersion (mAdvHeader p);
  setPacketVersion v := upd_adv (with_version v)
}.

End Advance.

(** ** AdvancePacketFactory<T>

    The factory makes a plain [T] or an advance packet, by the code. *)

Section Factory.

Context {T : Type} (newT : T).

Definition AdvancePacketFactory_createPacket (pcode : Z) : T + AdvancePacket T :=
  if IsAdvancePacket pcode then inr (AdvancePacket_new newT) else inl newT.

End Factory.

Section Either.

Context {A B : Type} `{IPacket A} `{IPacket B}.

(** Dynamic dispatch between the two. *)
#[global] Instance sum_IPacket : IPacket (A + B) := {
  base p := match p with inl a => base a | inr b => base b end;
  upd_base f p := match p with inl a => inl (upd_base f a) | inr b => inr (upd_base f b) end;
  encode p o := match p with
                | inl a => '(rc, a, o) ← encode a o; Some (rc, inl a, o)
                | inr b => '(rc, b, o) ← encode b o; Some (rc, inr b, o)
                end;
  decode p i := match p with
                | inl a => '(rc, a, i) ← decode a i; Some (rc, inl a, i)
                | inr b => '(rc, b, i) ← decode b i; Some (rc, inr b, i)
                end;
  isRegularPacket p := match p with inl a => isRegularPacket a | inr b => isRegularPacket b end;
  getPriority p := match p with inl a => getPriority a | inr b => getPriority b end;
  setPriority v p := match p with inl a => inl <$> setPriority v a | inr b => inr <$> setPriority v b end;
  setChannelId v p := match p with inl a => inl <$> setChannelId v a | inr b => inr <$> setChannelId v b end;
  getChannelId p := match p with inl a => getChannelId a | inr b => getChannelId b end;
  cleanupFlags p := match p with inl a => inl (cleanupFlags a) | inr b => inr (cleanupFlags b) end;
  getPacketVersion p := match p with inl a => getPacketVersion a | inr b => getPacketVersion b end;
  setPacketVersion v p := match p with inl a => inl (setPacketVersion v a) | inr b => inr (setPacketVersion v b) end
}.

End Either.

(** ** Bytes of the extended header *)

Definition adv_bytes (h : AdvancePacketHeader) : list Z :=
  be_bytes 4 (ttlInMs h) ++ be_bytes 4 (packetChecksum h) ++ be_bytes 4 (chidHigh h) ++
  be_bytes 1 (flagsData h) ++ be_bytes 1 (packetVersion h) ++ be_bytes 1 (nextHeaderType h) ++
  be_bytes 1 (reserved h).

Definition adv_ok (h : AdvancePacketHeader) : Prop :=
  0 <= ttlInMs h < 2 ^ 32 /\ 0 <= packetChecksum h < 2 ^ 32 /\ 0 <= chidHigh h < 2 ^ 32 /\
  0 <= priority h < 8 /\ 0 <= packetFlags h < 32 /\
  is_byte (packetVersion h) /\ is_byte (nextHeaderType h) /\ is_byte (reserved h).

Section Bytes.

Lemma adv_bytes_length h : length (adv_bytes h) = 16%nat.
Proof. unfold adv_bytes. by rewrite !length_app, !be_bytes_length. Qed.

Lemma adv_bytes_is_byte h : Forall is_byte (adv_bytes h).
Proof. unfold adv_bytes. solve_wire. Qed.

Lemma below_forallb (f : Z -> bool) n z :
  forallb (fun i => f (Z.of_nat i)) (seq 0 n) = true -> 0 <= z < Z.of_nat n -> f z = true.
Proof.
  intros Hf Hz. eapply forallb_forall in Hf; [|apply (in_seq n 0 (Z.to_nat z)); lia].
  by rewrite Z2Nat.id in Hf by lia.
Qed.

Lemma flags_split pr fl :
  0 <= pr < 8 -> 0 <= fl < 32 ->
  is_byte (Z.lor pr (Z.shiftl fl 3)) /\ Z.land (Z.lor pr (Z.shiftl fl 3)) 7 = pr /\
  Z.shiftr (Z.lor pr (Z.shiftl fl 3)) 3 = fl.
Proof.
  intros Hp Hf. unfold is_byte.
  set (f := fun pr fl => (0 <=? Z.lor pr (Z.shiftl fl 3)) && (Z.lor pr (Z.shiftl fl 3) <? 256) &&
              (Z.land (Z.lor pr (Z.shiftl fl 3)) 7 =? pr) && (Z.shiftr (Z.lor pr (Z.shiftl fl 3)) 3 =? fl)).
  assert (E : forallb (fun i => forallb (fun j => f (Z.of_nat i) (Z.of_nat j)) (seq 0 32)) (seq 0 8) = true)
    by (vm_compute; reflexivity).
  apply (below_forallb (fun pr => forallb (fun j => f pr (Z.of_nat j)) (seq 0 32)) 8 pr) in E; [|lia].
  apply (below_forallb (f pr) 32 fl) in E; [|lia]. unfold f in E. bool_to_prop. lia.
Qed.

Lemma method_set c fl :
  c = 0 \/ c = 8 -> 0 <= fl < 32 ->
  let fl' := wrapu 5 (SetChecksumMethod c fl) in
  0 <= fl' < 32 /\ GetChecksumMethod fl' = c /\ Z.land fl' (Z.lnot 0x18) = Z.land fl (Z.lnot 0x18).
Proof.
  intros Hc Hf. cbn zeta. split; [apply wrapu_range; lia|].
  set (f := fun c fl => (GetChecksumMethod (wrapu 5 (SetChecksumMethod c fl)) =? c) &&
     (Z.land (wrapu 5 (SetChecksumMethod c fl)) (Z.lnot 0x18) =? Z.land fl (Z.lnot 0x18))).
  assert (E : f c fl = true); [|unfold f in E; bool_to_prop; split; lia].
  destruct Hc as [-> | ->]; (eapply (below_forallb (f _) 32); [vm_compute; reflexivity|lia]).
Qed.

Lemma rep_writeInt8 b d n :
  rep b d -> Z.of_nat (length d + 1) <= FRAME_MAX ->
  exists b', writeInt8 b n = Some b' /\ rep b' (d ++ be_bytes 1 n).
Proof. apply (write_int_be_bytes 1). Qed.

Lemma rep_readInt8 b n d :
  rep b (be_bytes 1 n ++ d) -> exists b', readInt8 b = Some (i8 n, b') /\ rep b' d.
Proof.
  intros Hr. destruct (rep_read_be 1 b (be_bytes 1 n) d Hr) as (b' & E & ?); [apply be_bytes_length|lia|].
  exists b'. split; [|done]. unfold readInt8. rewrite E, be_value_be_bytes. by rewrite wraps_wrapu by lia.
Qed.

Lemma write_adv_header_ok h b d :
  rep b d -> Z.of_nat (length d + 16) <= FRAME_MAX ->
  exists b', write_adv_header h b = Some (b', Z.of_nat (length d + 4)) /\ rep b' (d ++ adv_bytes h).
Proof.
  intros Hr Hl. unfold write_adv_header.
  destruct (rep_writeInt32 b d (ttlInMs h) Hr) as (b1 & -> & R1); [lia|]. cbn [mbind option_bind].
  rewrite (rep_getDataLen _ _ R1), length_app, be_bytes_length.
  destruct (rep_writeInt32 b1 _ (packetChecksum h) R1) as (b2 & -> & R2);
    [wire_len|]. cbn [mbind option_bind].
  destruct (rep_writeInt32 b2 _ (chidHigh h) R2) as (b3 & -> & R3);
    [wire_len|]. cbn [mbind option_bind].
  destruct (rep_writeInt8 b3 _ (flagsData h) R3) as (b4 & -> & R4);
    [wire_len|]. cbn [mbind option_bind].
  destruct (rep_writeInt8 b4 _ (packetVersion h) R4) as (b5 & -> & R5);
    [wire_len|]. cbn [mbind option_bind].
  destruct (rep_writeInt8 b5 _ (nextHeaderType h) R5) as (b6 & -> & R6);
    [wire_len|]. cbn [mbind option_bind].
  destruct (rep_writeInt8 b6 _ (reserved h) R6) as (b7 & -> & R7);
    [wire_len|]. cbn [mbind option_bind].
  exists b7. split; [done|]. unfold adv_bytes. by rewrite <- !app_assoc in R7.
Qed.

Lemma u32_i32 n : 0 <= n < 2 ^ 32 -> u32 (i32 n) = n.
Proof. intros Hn. rewrite wrapu_wraps by lia. by apply wrapu_small. Qed.

Lemma u8_i8 n : is_byte n -> u8 (i8 n) = n.
Proof. unfold is_byte. intros Hn. rewrite wrapu_wraps by lia. apply wrapu_small. lia. Qed.

Lemma read_adv_header_ok h b rest :
  adv_ok h -> rep b (adv_bytes h ++ rest) -> exists b', read_adv_header b = Some (h, b') /\ rep b' rest.
Proof.
  intros (H1 & H2 & H3 & H4 & H5 & H6 & H7 & H8) Hr.
  destruct (flags_split (priority h) (packetFlags h) H4 H5) as (Hb & Hp & Hf).
  unfold adv_bytes in Hr. rewrite <- !app_assoc in Hr. unfold read_adv_header.
  do 3 (apply rep_readInt32 in Hr as (?b & -> & Hr); cbn [mbind option_bind]).
  do 4 (apply rep_readInt8 in Hr as (?b & -> & Hr); cbn [mbind option_bind]).
  rewrite !u32_i32, !u8_i8 by done. unfold flagsData. rewrite Hp, Hf. eexists. split; [|done]. by destruct h.
Qed.

Lemma data_bytes_ok b d1 d2 d3 off n :
  rep b (d1 ++ d2 ++ d3) -> d2 <> [] -> off = Z.of_nat (length d1) -> n = Z.of_nat (length d2) ->
  data_bytes b off n = Some d2.
Proof.
  intros Hr Hne -> ->.
  destruct (rep_mid d1 d2 d2 d3 b Hr) as (a & c & Hm & Hp & _); [by destruct d1, d2|done|..].
  { apply rep_bytes in Hr. by apply Forall_app in Hr as [_ [Hr _]%Forall_app]. }
  unfold data_bytes. rewrite Hm, Hp. by apply mem_bytes_mid.
Qed.

Lemma put_bytes_ok b d1 d2 d2' d3 off :
  rep b (d1 ++ d2 ++ d3) -> d2 <> [] -> off = Z.of_nat (length d1) -> length d2' = length d2 -> Forall is_byte d2' ->
  exists b', put_bytes b off d2' = Some b' /\ rep b' (d1 ++ d2' ++ d3).
Proof.
  intros Hr Hne -> Hl Hb.
  destruct (rep_mid d1 d2 d2' d3 b Hr) as (a & c & Hm & Hp & Hr'); [by destruct d1, d2|done|done|].
  unfold put_bytes. rewrite Hm, Hp. cbn [mbind option_bind].
  rewrite mem_write_mid by (rewrite ?length_fmap; done). cbn [mbind option_bind]. eauto.
Qed.

End Bytes.

(** ** Encoding and decoding *)

Section Codec.

Context {T : Type} (SndT RcvT : IPacket T) (createT : Z -> T).
Context {codecT : PacketCodec T SndT RcvT createT}.
Context (env_s env_r : flags_env).   (* the two ends *)

#[local] Existing Instance send_base.
#[local] Existing Instance recv_base.

Implicit Types (p q : AdvancePacket T).

Abbreviation SndA := (@AdvancePacket_IPacket T SndT env_s).
Abbreviation RcvA := (@AdvancePacket_IPacket T RcvT env_r).

(** The packet as [encode] prepares it. *)
Definition sent_method : Z :=
  if checksumState env_s then PACKET_FLAGS_CHECKSUM_CRC32C else PACKET_FLAGS_NOCHECKSUM.

Definition sent_header p : AdvancePacketHeader :=
  let h := with_checksum 0 (mAdvHeader p) in
  with_flags (wrapu 5 (SetChecksumMethod sent_method (packetFlags h))) h.

Definition marked p : T := @upd_base T SndT mark_base (adv_packet p).

Definition sent_checksum p : Z :=
  if checksumState env_s then crc_ref 0 (adv_bytes (sent_header p) ++ wire (marked p)) else 0.

Definition adv_wire p : list Z :=
  adv_bytes (with_checksum (sent_checksum p) (sent_header p)) ++ wire (marked p).

Definition adv_sendable p : Prop :=
  adv_ok (mAdvHeader p) /\ sendable (marked p) /\ Z.of_nat (length (adv_wire p)) < 2 ^ 35.

Lemma adv_upd_Base (I : IPacket T) env : @IPacketBase T I -> @IPacketBase _ (@AdvancePacket_IPacket T I env).
Proof.
  intros HB. split.
  - intros f p. cbn. apply base_upd.
  - intros f g p. cbn. unfold adv_upd_base. cbn. by rewrite upd_upd.
  - intros f g p E. cbn in *. unfold adv_upd_base. f_equal. by apply upd_ext.
Qed.

Lemma adv_wire_length p : length (adv_wire p) = (16 + length (wire (marked p)))%nat.
Proof. unfold adv_wire. by rewrite length_app, adv_bytes_length. Qed.

Lemma sent_method_cases : sent_method = 0 \/ sent_method = 8.
Proof. unfold sent_method. destruct (checksumState env_s); auto. Qed.

Lemma sent_checksum_range p : adv_sendable p -> 0 <= sent_checksum p < 2 ^ 32.
Proof.
  intros (_ & Hs & _). unfold sent_checksum. destruct (checksumState env_s); [|lia].
  apply crc_ref_range; [lia|]. apply Forall_app; split; [apply adv_bytes_is_byte|by apply wire_bytes].
Qed.

Lemma sent_header_ok p : adv_sendable p -> adv_ok (with_checksum (sent_checksum p) (sent_header p)).
Proof.
  intros Hp. pose proof (sent_checksum_range p Hp). destruct Hp as ((H1 & H2 & H3 & H4 & H5 & H6 & H7 & H8) & _).
  destruct (method_set sent_method (packetFlags (mAdvHeader p)) sent_method_cases H5) as (? & _).
  unfold adv_ok. cbn. split_and!; done || lia.
Qed.

(** The header bytes around the checksum field. *)
Definition adv_tail (h : AdvancePacketHeader) : list Z :=
  be_bytes 4 (chidHigh h) ++ be_bytes 1 (flagsData h) ++ be_bytes 1 (packetVersion h) ++
  be_bytes 1 (nextHeaderType h) ++ be_bytes 1 (reserved h).

Lemma adv_bytes_split c h :
  adv_bytes (with_checksum c h) = be_bytes 4 (ttlInMs h) ++ be_bytes 4 c ++ adv_tail h.
Proof. done. Qed.

Lemma be_bytes_ne k n : (0 < k)%nat -> be_bytes k n <> [].
Proof. intros Hk E. apply (f_equal length) in E. rewrite be_bytes_length in E. simpl in E. lia. Qed.

Lemma adv_encode_ok p b d :
  adv_sendable p -> rep b d -> Z.of_nat (length d + length (adv_wire p)) <= FRAME_MAX ->
  exists p' b', @adv_encode T SndT env_s p b = Some (true, p', b') /\ rep b' (d ++ adv_wire p) /\
    _packetHeader (@base T SndT (adv_packet p')) =
      mkHeader (_chid (_packetHeader (@base T SndT (adv_packet p)))) (sent_pcode (marked p))
               (_dataLen (_packetHeader (@base T SndT (adv_packet p)))).
Proof using codecT.
  intros Hp Hr Hl. pose proof Hp as (_ & Hs & Hl35). rewrite adv_wire_length in Hl, Hl35. unfold adv_encode.
  rewrite (rep_getDataLen _ _ Hr).
  assert (Hq : (if checksumState env_s then setChecksumMethod PACKET_FLAGS_CHECKSUM_CRC32C (setChecksum 0 p)
                else setChecksumMethod PACKET_FLAGS_NOCHECKSUM (setChecksum 0 p)) = mkAdvance (sent_header p) (adv_packet p)).
  { unfold sent_header, sent_method. by destruct (checksumState env_s). }
  rewrite Hq. cbn [mAdvHeader].
  destruct (write_adv_header_ok (sent_header p) b d Hr) as (b1 & -> & R1); [lia|]. cbn [mbind option_bind].
  change (adv_packet (markAdvancePacket (mkAdvance (sent_header p) (adv_packet p)))) with (marked p).
  destruct (encode_spec (marked p) b1 _ Hs R1) as (t & b2 & -> & R2 & Hh);
    [rewrite length_app, adv_bytes_length; lia|]. cbn [mbind option_bind].
  unfold marked in Hh. rewrite base_upd in Hh. fold (marked p) in Hh. cbn in Hh.
  assert (Hbytes : Forall is_byte (adv_bytes (sent_header p) ++ wire (marked p))).
  { apply Forall_app; split; [apply adv_bytes_is_byte|by apply wire_bytes]. }
  unfold adv_wire, sent_checksum. destruct (checksumState env_s); [|by do 2 eexists; split_and!; [done|rewrite app_assoc|done]].
  rewrite (rep_getDataLen _ _ R2), !length_app, adv_bytes_length. unfold ADV_HEADER_LEN.
  rewrite assertb_true by (apply Z.leb_le; lia). cbn [mbind option_bind].
  rewrite <- app_assoc in R2.
  rewrite (data_bytes_ok b2 d (adv_bytes (sent_header p) ++ wire (marked p)) []);
    [|by rewrite app_nil_r|intros E; apply (f_equal length) in E; rewrite length_app, adv_bytes_length in E; done|done
     |rewrite !length_app, adv_bytes_length; lia].
  cbn [mbind option_bind]. rewrite DoCrc32c_ref by (done || lia || (rewrite !length_app, adv_bytes_length; lia)).
  change (sent_header p) with (with_checksum 0 (sent_header p)) in R2. rewrite adv_bytes_split in R2.
  rewrite <- !app_assoc, (app_assoc d) in R2. cbn [getChecksum setChecksum upd_adv mAdvHeader with_checksum packetChecksum].
  apply (rep_fillInt32 b2 _ _ _ (crc_ref 0 (adv_bytes (sent_header p) ++ wire (marked p)))) in R2 as (b3 & E3 & R3);
    [|apply be_bytes_length].
  rewrite length_app, be_bytes_length in E3. rewrite E3. cbn [mbind option_bind].
  do 2 eexists. split_and!; [done| |done]. rewrite adv_bytes_split, <- !app_assoc in *. exact R3.
Qed.

(** The checksum test passes on what the sender wrote and restores the data. *)
Lemma adv_verify_ok p b rest dataLen :
  adv_sendable p -> dataLen = Z.of_nat (length (adv_wire p)) -> rep b (adv_wire p ++ rest) ->
  exists b', adv_verify env_r dataLen b = Some (true, b') /\ rep b' (adv_wire p ++ rest).
Proof using codecT.
  intros Hp -> Hr. pose proof (sent_checksum_range p Hp) as Hc. pose proof Hp as ((_ & _ & _ & H4 & H5 & _) & Hs & Hl35).
  destruct (method_set sent_method (packetFlags (mAdvHeader p)) sent_method_cases H5) as (Hf & Hm & _).
  destruct (flags_split _ _ H4 Hf) as (Hfb & _ & Hff). unfold adv_verify, CHECKSUM_OFFSET, FLAGS_OFFSET.
  pose proof Hr as Hr0. unfold adv_wire in Hr. rewrite adv_bytes_split, <- !app_assoc in Hr.
  rewrite (data_bytes_ok b _ _ _ 4 4 Hr) by (rewrite ?be_bytes_length; done || by apply be_bytes_ne; lia).
  cbn [mbind option_bind].
  assert (Hfd : data_bytes b 12 1 = Some (be_bytes 1 (flagsData (sent_header p)))).
  { unfold adv_tail in Hr. rewrite <- !app_assoc in Hr. rewrite (app_assoc _ _ (be_bytes 4 _ ++ _)), (app_assoc _ (be_bytes 4 _)) in Hr.
    eapply data_bytes_ok; [exact Hr|by apply be_bytes_ne; lia|by rewrite !length_app, !be_bytes_length|by rewrite be_bytes_length]. }
  rewrite Hfd. cbn [mbind option_bind].
  change (default 0 (head (be_bytes 1 (flagsData (sent_header p))))) with (u8 (flagsData (sent_header p))).
  unfold is_byte in Hfb. rewrite (wrapu_small 8 (flagsData _)) by exact Hfb.
  change (flagsData (sent_header p)) with (Z.lor (priority (mAdvHeader p)) (Z.shiftl (wrapu 5 (SetChecksumMethod sent_method (packetFlags (mAdvHeader p)))) 3)).
  rewrite Hff, Hm. destruct (checksumState env_r); cbn [andb]; [|eauto]. unfold sent_method in *.
  destruct (checksumState env_s) eqn:Es;
    unfold PACKET_FLAGS_CHECKSUM_CRC32C, PACKET_FLAGS_NOCHECKSUM; cbn [Z.eqb Pos.eqb negb]; [|eauto].
  destruct (put_bytes_ok b _ _ [0; 0; 0; 0] _ 4 Hr) as (b1 & E1 & R1);
    [by apply be_bytes_ne; lia|by rewrite be_bytes_length|by rewrite be_bytes_length|
     repeat (constructor; [unfold is_byte; lia|]); constructor|].
  rewrite E1. cbn [mbind option_bind].
  change [0; 0; 0; 0] with (be_bytes 4 0) in R1. rewrite !app_assoc in R1.
  assert (E0 : ((be_bytes 4 (ttlInMs (sent_header p)) ++ be_bytes 4 0) ++ adv_tail (sent_header p)) = adv_bytes (sent_header p)).
  { rewrite <- app_assoc. symmetry. apply (adv_bytes_split 0 (sent_header p)). }
  pose proof R1 as R1'. rewrite E0 in R1.
  rewrite (rep_peekBytes _ _ _ R1) by (rewrite adv_wire_length, !length_app, adv_bytes_length; lia).
  cbn [mbind option_bind]. rewrite Nat2Z.id, take_app_length' by (by rewrite adv_wire_length, length_app, adv_bytes_length).
  rewrite adv_wire_length in Hl35. rewrite DoCrc32c_ref;
    [|lia|apply Forall_app; split; [apply adv_bytes_is_byte|by apply wire_bytes]|rewrite length_app, adv_bytes_length; lia].
  rewrite be_value_be_bytes, wrapu_small by lia. unfold sent_checksum at 1. rewrite Es, Z.eqb_refl. cbn [negb].
  rewrite <- !app_assoc in R1'.
  destruct (put_bytes_ok b1 _ _ (be_bytes 4 (sent_checksum p)) _ 4 R1') as (b2 & E2 & R2);
    [done|by rewrite be_bytes_length|by rewrite be_bytes_length|apply be_bytes_is_byte|].
  rewrite E2. cbn [mbind option_bind]. eexists. split; [done|].
  unfold adv_wire. by rewrite adv_bytes_split, <- !app_assoc.
Qed.

(** What an advance packet carries, apart from the checksum bits. *)
Definition adv_content p : Z * Z * Z * Z * Z * Z * Z :=
  let h := mAdvHeader p in
  (ttlInMs h, chidHigh h, priority h, Z.land (packetFlags h) (Z.lnot PACKET_FLAGS_CHECKSUM_MASK),
   packetVersion h, nextHeaderType h, reserved h).

Definition adv_createPacket (pcode : Z) : AdvancePacket T := AdvancePacket_new (createT pcode).

Lemma adv_decode_ok p h b rest :
  adv_sendable p -> accepts (marked p) (_pcode h) -> _dataLen h = Z.of_nat (length (adv_wire p)) ->
  rep b (adv_wire p ++ rest) -> Z.of_nat (length (adv_wire p)) <= FRAME_MAX ->
  exists q b', @adv_decode T RcvT env_r (@adv_upd_base T RcvT (setPacketHeader h) (adv_createPacket (_pcode h))) b
                 = Some (true, q, b') /\
    rep b' rest /\ adv_content q = adv_content p /\ content (adv_packet q) = content (marked p) /\
    _chid (_packetHeader (@base T RcvT (adv_packet q))) = _chid h /\
    _pcode (_packetHeader (@base T RcvT (adv_packet q))) = _pcode h /\
    0 <= _dataLen (_packetHeader (@base T RcvT (adv_packet q))).
Proof using codecT.
  intros Hp Ha Hd Hr Hl. unfold adv_decode, Packet_getDataLen. cbn [adv_upd_base adv_packet].
  rewrite base_upd. cbn [setPacketHeader Packet_with_header _packetHeader]. rewrite Hd.
  destruct (adv_verify_ok p b rest _ Hp eq_refl Hr) as (b1 & -> & R1). cbn [mbind option_bind negb].
  unfold adv_wire in R1. rewrite <- app_assoc in R1.
  destruct (read_adv_header_ok _ _ _ (sent_header_ok p Hp) R1) as (b2 & -> & R2). cbn [mbind option_bind].
  unfold adv_upd_base. cbn [mAdvHeader adv_packet adv_createPacket AdvancePacket_new]. rewrite upd_upd.
  set (h' := mkHeader (_chid h) (_pcode h) (i32 (Z.of_nat (length (adv_wire p)) - ADV_HEADER_LEN))).
  rewrite (upd_ext _ (setPacketHeader h') (createT (_pcode h))) by done.
  pose proof Hp as (_ & Hs & _). rewrite adv_wire_length in Hl. unfold FRAME_MAX in Hl.
  destruct (decode_spec (marked p) h' b2 rest Hs Ha) as (q & b3 & E & R3 & Hc & H1 & H2 & H3).
  { unfold h'. cbn [_dataLen]. rewrite adv_wire_length, i32_small; unfold ADV_HEADER_LEN, INT_MIN, INT_MAX; lia. }
  { exact R2. }
  { unfold FRAME_MAX. lia. }
  change (_pcode h') with (_pcode h) in E. rewrite E. cbn [mbind option_bind].
  do 2 eexists. split_and!; [done|done| |done..]. cbn [mAdvHeader].
  destruct Hp as ((_ & _ & _ & _ & H5 & _) & _).
  destruct (method_set sent_method (packetFlags (mAdvHeader p)) sent_method_cases H5) as (_ & _ & Hk).
  unfold adv_content, sent_header, with_checksum, with_flags, PACKET_FLAGS_CHECKSUM_MASK.
  cbn [mAdvHeader ttlInMs chidHigh priority packetFlags packetVersion nextHeaderType reserved]. by rewrite Hk.
Qed.

(** An advance packet discharges what the streamer needs, whenever [T] does. *)
Program Definition AdvancePacket_codec : PacketCodec (AdvancePacket T) SndA RcvA adv_createPacket := {|
  Content := (Z * Z * Z * Z * Z * Z * Z) * @Content T SndT RcvT createT codecT;
  content p := (adv_content p, content (adv_packet p));
  sendable p := adv_sendable p /\ content (marked p) = content (adv_packet p);
  wire := adv_wire;
  sent_pcode p := sent_pcode (marked p);
  accepts p z := accepts (marked p) z;
  send_base := adv_upd_Base SndT env_s send_base;
  recv_base := adv_upd_Base RcvT env_r recv_base
|}.
Next Obligation.
  intros p [(_ & Hs & _) _]. unfold adv_wire. apply Forall_app; split; [apply adv_bytes_is_byte|by apply wire_bytes].
Qed.
Next Obligation. intros p [(_ & Hs & _) _]. by apply sent_accepts. Qed.
Next Obligation. intros p b d [Hp _] Hr Hl. by apply adv_encode_ok. Qed.
Next Obligation.
  intros p h b rest [Hp Hm] Ha Hd Hr Hl.
  destruct (adv_decode_ok p h b rest Hp Ha Hd Hr Hl) as (q & b' & E & R & H1 & H2 & Hrest).
  exists q, b'. split; [done|]. split; [done|]. split; [|done]. by rewrite H1, H2, Hm.
Qed.

End Codec.

(** ** The factory's packets *)

Section EitherCodec.

Context {T : Type} (SndT RcvT : IPacket T) (newT : T).
Context {codecT : PacketCodec T SndT RcvT (fun _ => newT)}.
Context (env_s env_r : flags_env).

Abbreviation SndE := (@sum_IPacket T (AdvancePacket T) SndT (@AdvancePacket_IPacket T SndT env_s)).
Abbreviation RcvE := (@sum_IPacket T (AdvancePacket T) RcvT (@AdvancePacket_IPacket T RcvT env_r)).

Abbreviation codecA := (AdvancePacket_codec SndT RcvT (fun _ => newT) env_s env_r).

Lemma sum_Base A B (IA : IPacket A) (IB : IPacket B) : @IPacketBase A IA -> @IPacketBase B IB -> @IPacketBase (A + B) (@sum_IPacket A B IA IB).
Proof.
  intros HA HB. split.
  - intros f [a|b]; cbn; apply base_upd.
  - intros f g [a|b]; cbn; f_equal; apply upd_upd.
  - intros f g [a|b] E; cbn in *; f_equal; by apply upd_ext.
Qed.

Program Definition AdvancePacketFactory_codec :
  PacketCodec (T + AdvancePacket T) SndE RcvE (AdvancePacketFactory_createPacket newT) := {|
  Content := @Content T SndT RcvT _ codecT + @Content _ _ _ _ codecA;
  content p := match p with inl t => inl (content t) | inr a => inr (@content _ _ _ _ codecA a) end;
  sendable p := match p with
                | inl t => sendable t /\ IsAdvancePacket (sent_pcode t) = false
                | inr a => @sendable _ _ _ _ codecA a /\ IsAdvancePacket (@sent_pcode _ _ _ _ codecA a) = true
                end;
  wire p := match p with inl t => wire t | inr a => @wire _ _ _ _ codecA a end;
  sent_pcode p := match p with inl t => sent_pcode t | inr a => @sent_pcode _ _ _ _ codecA a end;
  accepts p z := match p with
                 | inl t => accepts t z /\ IsAdvancePacket z = false
                 | inr a => @accepts _ _ _ _ codecA a z /\ IsAdvancePacket z = true
                 end;
  send_base := sum_Base _ _ _ _ send_base (@send_base _ _ _ _ codecA);
  recv_base := sum_Base _ _ _ _ recv_base (@recv_base _ _ _ _ codecA)
|}.
Next Obligation. intros [t|a] [Hs _]; [by apply wire_bytes|by apply (@wire_bytes _ _ _ _ codecA)]. Qed.
Next Obligation.
  intros [t|a] [Hs Hx]; [destruct (sent_accepts t Hs)|destruct (@sent_accepts _ _ _ _ codecA a Hs)]; done.
Qed.
Next Obligation.
  intros [t|a] b d [Hs _] Hr Hl; cbn.
  - destruct (encode_spec t b d Hs Hr Hl) as (t' & b' & -> & R & Hh). by exists (inl t'), b'.
  - destruct (@encode_spec _ _ _ _ codecA a b d Hs Hr Hl) as (a' & b' & E & R & Hh). cbn in E. rewrite E.
    by exists (inr a'), b'.
Qed.
Next Obligation.
  intros [t|a] h b rest [Hs _] [Ha Hx] Hd Hr Hl; unfold AdvancePacketFactory_createPacket; rewrite Hx; cbn.
  - destruct (decode_spec t h b rest Hs Ha Hd Hr Hl) as (q & b' & E & R & Hc & Hrest). rewrite E.
    exists (inl q), b'. cbn. by rewrite Hc.
  - destruct (@decode_spec _ _ _ _ codecA a h b rest Hs Ha Hd Hr Hl) as (q & b' & E & R & Hc & Hrest). cbn in E.
    unfold adv_createPacket in E. rewrite E. exists (inr q), b'. cbn in *. by rewrite Hc.
Qed.

End EitherCodec.

(** ** Corruption *)

Lemma be_value_inj l l' :
  length l = length l' -> Forall is_byte l -> Forall is_byte l' -> be_value l = be_value l' -> l = l'.
Proof.
  revert l'. induction l as [|x l IH] using rev_ind; intros l' Hl Hb Hb' E.
  { by destruct l'. }
  destruct l' as [|y l' _] using rev_ind; [rewrite length_app in Hl; simpl in Hl; lia|].
  rewrite !be_value_snoc in E. apply Forall_app in Hb as [Hb Hx], Hb' as [Hb' Hy].
  apply Forall_cons in Hx as [Hx _], Hy as [Hy _]. unfold is_byte in Hx, Hy. rewrite !length_app in Hl. simpl in Hl.
  assert (x = y) as <- by lia. f_equal. apply IH; [lia|done|done|lia].
Qed.

(** The verdict on any received bytes that claim a CRC32C checksum; the
    buffer keeps what follows them. *)
Lemma adv_verify_verdict env b (A C B rest : list Z) f :
  checksumState env = true -> length A = 4%nat -> length C = 4%nat -> B !! 4%nat = Some f ->
  GetChecksumMethod (Z.shiftr f 3) = PACKET_FLAGS_CHECKSUM_CRC32C ->
  rep b ((A ++ C ++ B) ++ rest) -> Z.of_nat (length (A ++ C ++ B)) < 2 ^ 35 ->
  be_value C <> crc_ref 0 (A ++ [0; 0; 0; 0] ++ B) ->
  exists b', adv_verify env (Z.of_nat (length (A ++ C ++ B))) b = Some (false, b') /\
    rep b' ((A ++ [0; 0; 0; 0] ++ B) ++ rest).
Proof.
  intros Hon HA HC Hf Hm Hr Hl Hne. unfold adv_verify, CHECKSUM_OFFSET, FLAGS_OFFSET.
  assert (HCne : C <> []) by (by destruct C). assert (Hz : length [0; 0; 0; 0] = length C) by done.
  rewrite <- !app_assoc in Hr.
  rewrite (data_bytes_ok b _ _ _ 4 4 Hr) by (rewrite ?HA, ?HC; done). cbn [mbind option_bind].
  assert (Hfd : data_bytes b 12 1 = Some [f]).
  { assert (Hr2 : rep b (A ++ C ++ (take 4 B ++ [f] ++ drop 5 B) ++ rest))
      by (change ([f] ++ drop 5 B) with (f :: drop 5 B); by rewrite take_drop_middle).
    rewrite <- !app_assoc, (app_assoc C), (app_assoc A) in Hr2.
    eapply data_bytes_ok; [exact Hr2|done| |done].
    rewrite !length_app, HA, HC, length_take. apply lookup_lt_Some in Hf. lia. }
  rewrite Hfd, Hon.
  cbn [mbind option_bind head default from_option id andb negb].
  rewrite Hm.
  unfold PACKET_FLAGS_CHECKSUM_CRC32C, PACKET_FLAGS_NOCHECKSUM. cbn [Z.eqb Pos.eqb negb].
  destruct (put_bytes_ok b A C [0; 0; 0; 0] (B ++ rest) 4 Hr) as (b1 & -> & R1);
    [done|by rewrite HA|done|repeat (constructor; [unfold is_byte; lia|]); constructor|].
  cbn [mbind option_bind]. assert (Hlen : length (A ++ [0; 0; 0; 0] ++ B) = length (A ++ C ++ B)) by (rewrite !length_app; lia).
  rewrite !app_assoc in R1. rewrite <- (app_assoc A) in R1.
  rewrite (rep_peekBytes _ _ _ R1) by (rewrite <- Hlen, (length_app (A ++ _)); lia).
  cbn [mbind option_bind]. rewrite Nat2Z.id, take_app_length' by done.
  pose proof (rep_bytes _ _ R1) as HB. apply Forall_app in HB as [HB _].
  rewrite DoCrc32c_ref by (done || lia || by rewrite Hlen). rewrite (proj2 (Z.eqb_neq _ _)) by done. cbn [negb].
  eauto.
Qed.

Lemma crc_ref_insert (L : list Z) i x y :
  L !! i = Some x -> Forall is_byte L -> is_byte y -> x <> y -> crc_ref 0 L <> crc_ref 0 (<[i := y]> L).
Proof.
  intros Hi Hb Hy Hne. rewrite (insert_take_drop L i y) by (by eapply lookup_lt_Some).
  rewrite <- (take_drop_middle L i x Hi) at 1. apply crc_ref_byte_error; [|done..].
  by rewrite take_drop_middle.
Qed.

Lemma be_value_insert (L : list Z) i x y :
  L !! i = Some x -> Forall is_byte L -> is_byte y -> x <> y -> be_value (<[i := y]> L) <> be_value L.
Proof.
  intros Hi Hb Hy Hne E. apply be_value_inj in E; [|apply length_insert|by apply Forall_insert|done].
  apply Hne. apply (f_equal (fun l => l !! i)) in E. rewrite list_lookup_insert_eq in E by (by eapply lookup_lt_Some).
  congruence.
Qed.

Section Corruption.

Context {T : Type} (SndT RcvT : IPacket T) (createT : Z -> T).
Context {codecT : PacketCodec T SndT RcvT createT}.
Context (env_s env_r : flags_env) (on_s : checksumState env_s = true) (on_r : checksumState env_r = true).

Abbreviation aw := (@adv_wire T SndT RcvT createT codecT env_s).

(** The three regions of an encoded packet, and what the receiver tests. *)
Lemma adv_wire_regions p :
  @adv_sendable T SndT RcvT createT codecT env_s p ->
  exists A C B f, aw p = A ++ C ++ B /\ length A = 4%nat /\ length C = 4%nat /\ B !! 4%nat = Some f /\
    GetChecksumMethod (Z.shiftr f 3) = PACKET_FLAGS_CHECKSUM_CRC32C /\
    be_value C = crc_ref 0 (A ++ [0; 0; 0; 0] ++ B) /\ Forall is_byte (A ++ C ++ B).
Proof using on_s.
  intros Hp. pose proof (sent_checksum_range _ _ _ _ p Hp) as Hc. pose proof Hp as ((_ & _ & _ & H4 & H5 & _) & Hs & _).
  pose proof (sent_method_cases env_s) as Hmc.
  destruct (method_set (sent_method env_s) (packetFlags (mAdvHeader p)) Hmc H5) as (Hf & Hm & _).
  destruct (flags_split _ _ H4 Hf) as (Hfb & _ & Hff).
  set (h := sent_header env_s p).
  exists (be_bytes 4 (ttlInMs h)), (be_bytes 4 (sent_checksum SndT RcvT createT env_s p)),
    (adv_tail h ++ wire (marked SndT p)), (flagsData h).
  split_and!.
  - unfold adv_wire. by rewrite adv_bytes_split, <- !app_assoc.
  - apply be_bytes_length.
  - apply be_bytes_length.
  - unfold adv_tail. rewrite <- !app_assoc, lookup_app_r by (by rewrite be_bytes_length).
    rewrite be_bytes_length. cbn [be_bytes app Nat.sub lookup list_lookup]. f_equal. apply wrapu_small. exact Hfb.
  - change (flagsData h) with (Z.lor (priority (mAdvHeader p)) (Z.shiftl (wrapu 5 (SetChecksumMethod (sent_method env_s) (packetFlags (mAdvHeader p)))) 3)).
    rewrite Hff, Hm. unfold sent_method. by rewrite on_s.
  - rewrite be_value_be_bytes, wrapu_small by lia. unfold sent_checksum. rewrite on_s. reflexivity.
  - apply Forall_app; split; [apply be_bytes_is_byte|]. apply Forall_app; split; [apply be_bytes_is_byte|].
    apply Forall_app; split; [|by apply wire_bytes]. unfold adv_tail.
    do 4 (apply Forall_app; split; [apply be_bytes_is_byte|]). apply be_bytes_is_byte.
Qed.

(** One changed byte outside the flags makes the test fail. *)
Lemma adv_verify_corrupt p i x y b rest :
  @adv_sendable T SndT RcvT createT codecT env_s p -> aw p !! i = Some x -> is_byte y -> x <> y -> i <> 12%nat ->
  rep b (<[i := y]> (aw p) ++ rest) ->
  exists b' w, adv_verify env_r (Z.of_nat (length (aw p))) b = Some (false, b') /\
    rep b' (w ++ rest) /\ length w = length (aw p).
Proof using on_s on_r.
  intros Hp Hi Hy Hne H12 Hr. pose proof Hp as (_ & _ & Hl35).
  destruct (adv_wire_regions p Hp) as (A & C & B & f & E & HA & HC & Hf & Hm & Hcrc & Hb).
  rewrite E in *. apply Forall_app in Hb as [HbA [HbC HbB]%Forall_app].
  assert (Hgo : forall A' C' B', <[i := y]> (A ++ C ++ B) = A' ++ C' ++ B' -> length A' = 4%nat -> length C' = 4%nat ->
    length B' = length B -> B' !! 4%nat = Some f -> be_value C' <> crc_ref 0 (A' ++ [0; 0; 0; 0] ++ B') ->
    exists b' w, adv_verify env_r (Z.of_nat (length (A ++ C ++ B))) b = Some (false, b') /\
      rep b' (w ++ rest) /\ length w = length (A ++ C ++ B)).
  { intros A' C' B' EW HA' HC' HB' Hf' Hd. rewrite EW in Hr.
    assert (HL : length (A' ++ C' ++ B') = length (A ++ C ++ B)) by (rewrite !length_app; lia).
    rewrite <- HL in Hl35 |- *.
    destruct (adv_verify_verdict env_r b A' C' B' rest f on_r HA' HC' Hf' Hm Hr Hl35 Hd) as (b' & Ev & Rv).
    exists b', (A' ++ [0; 0; 0; 0] ++ B'). split_and!; [done..|]. rewrite !length_app. simpl. lia. }
  assert (Hz : Forall is_byte (A ++ [0; 0; 0; 0] ++ B)).
  { apply Forall_app; split; [done|]. apply Forall_app; split; [|done].
    repeat (constructor; [unfold is_byte; lia|]). constructor. }
  destruct (decide (i < 4)%nat) as [H4|H4]; [|destruct (decide (i < 8)%nat) as [H8|H8]].
  - rewrite lookup_app_l in Hi by lia.
    apply (Hgo (<[i := y]> A) C B); [by rewrite insert_app_l by lia|by rewrite length_insert|done|done|done|].
    rewrite Hcrc, <- insert_app_l by lia. apply (crc_ref_insert _ i x y); [by apply lookup_app_l_Some|done..].
  - rewrite lookup_app_r, HA, lookup_app_l in Hi by lia.
    apply (Hgo A (<[i - 4 := y]> C)%nat B);
      [by rewrite insert_app_r_alt, insert_app_l, HA by lia|done|by rewrite length_insert|done|done|].
    rewrite <- Hcrc. by eapply be_value_insert.
  - rewrite lookup_app_r, HA, lookup_app_r, HC in Hi by lia.
    apply (Hgo A C (<[i - 4 - 4 := y]> B)%nat);
      [by rewrite insert_app_r_alt, insert_app_r_alt, HA, HC by lia|done|done|by rewrite length_insert| |].
    { rewrite list_lookup_insert_ne by lia. done. }
    rewrite Hcrc. pose proof (crc_ref_insert (A ++ [0; 0; 0; 0] ++ B) i x y) as Hci.
    rewrite insert_app_r_alt, insert_app_r_alt in Hci by (simpl; lia). rewrite HA in Hci. apply Hci; try done.
    rewrite lookup_app_r, HA, lookup_app_r by (simpl; lia). done.
Qed.

End Corruption.
