(* ===== verification/Framing.v ===== *)
(** * From packets to bytes and back

    The properties of the streamer as a whole: what the sender's
    [DefaultPacketStreamer::encode] and the receiver's
    [DefaultPacketStreamer::processData], driven by the reading loop of
    [TCPConnection::readData], do to a sequence of packets.  The theorems are
    stated for every packet type that meets [PacketCodec]; the witnesses use
    [AdvancePacketFactory<DefaultPacket>]. *)

From S2P Require Import Prelude DataBuffer Crc Packet Streamer DefaultPacket AdvancePacket.

(** ** Concrete packets for the witnesses *)

Section Example.

(** An allocator that serves up to 64 MiB. *)
Definition alloc_64M (n : Z) : bool := n <=? 2 ^ 26.

Lemma alloc_64M_limit n : alloc_64M n = true -> n < 2 ^ 62.
Proof. unfold alloc_64M. intros H. apply Z.leb_le in H. lia. Qed.

Lemma alloc_64M_frame n : 0 <= n <= 2 * FRAME_MAX -> alloc_64M n = true.
Proof. unfold alloc_64M, FRAME_MAX. intros H. apply Z.leb_le. lia. Qed.

Definition env_on : flags_env := mkFlags (X86_64 true) true.
Definition env_off : flags_env := mkFlags Aarch64 false.

Abbreviation DP := (DefaultPacket_IPacket alloc_64M).

Definition codec_dp : PacketCodec DefaultPacket DP DP (fun _ => DefaultPacket_new) :=
  DefaultPacket_codec alloc_64M alloc_64M alloc_64M_limit alloc_64M_frame.

(** The packets of the factory, sent with the checksum on. *)
Definition codec_adv := @AdvancePacketFactory_codec DefaultPacket DP DP DefaultPacket_new codec_dp env_on env_on.

Definition packet_of (chid pcode : Z) (body : list Z) : DefaultPacket :=
  mkDefaultPacket (mkPacket (mkHeader chid pcode 0) 0 0 None None)
                  (BBlock (Some <$> body)) (Z.of_nat (length body)) (Z.of_nat (length body)).

Lemma packet_of_sendable chid pcode body :
  Forall is_byte body -> Z.of_nat (length body) < 2 ^ 62 -> - 2 ^ 31 <= pcode < 2 ^ 31 ->
  dp_sendable (packet_of chid pcode body).
Proof.
  intros Hb Hl Hp. split; [|done]. exists body. split; simpl; [done|lia|done|].
  rewrite length_fmap. split; [done|]. apply take_ge. by rewrite length_fmap.
Qed.

Definition example_packets : list (DefaultPacket + AdvancePacket DefaultPacket) :=
  [inl (packet_of 7 3 [104; 105]);
   inr (mkAdvance (mkAdvHeader 1500 0 9 6 1 2 0 0) (packet_of 8 5 [1; 2; 3; 4; 5]))].

Lemma example_bytes (l : list Z) : forallb (fun z => (0 <=? z) && (z <? 256)) l = true -> Forall is_byte l.
Proof.
  intros H. apply Forall_forall. intros x Hx. eapply forallb_forall in H; [|by apply list_elem_of_In].
  unfold is_byte. bool_to_prop. lia.
Qed.

End Example.

(** ** Delivery *)

Section Delivery.

Context {P : Type} {Snd Rcv : IPacket P} {createPacket : Z -> P}.
Context {codec : PacketCodec P Snd Rcv createPacket}.

(** Everything the connection is handed, in order. *)
Definition record (s : list (dyn_packet P)) (d : dyn_packet P) : option (list (dyn_packet P)) := Some (s ++ [d]).

Lemma record_all s l : deliver_all record s l = Some (s ++ l).
Proof.
  revert s; induction l as [|d l IH]; intros s; cbn; [by rewrite app_nil_r|]. by rewrite IH, <- app_assoc.
Qed.

(** [encode] of several packets into one output buffer. *)
Fixpoint encode_all (ps : list P) (b : DataBuffer) : option DataBuffer :=
  match ps with
  | [] => Some b
  | p :: ps => '(ok, _, b) ← @streamer_encode P Snd true p b; if ok : bool then encode_all ps b else None
  end.

Lemma encode_all_ok ps b d :
  Forall frame_ok ps -> rep b d -> Z.of_nat (length (d ++ concat (frame <$> ps))) <= FRAME_MAX ->
  exists b', encode_all ps b = Some b' /\ rep b' (d ++ concat (frame <$> ps)).
Proof.
  intros Hok. revert b d. induction Hok as [|p ps Hp _ IH]; intros b d Hr Hl; cbn [encode_all].
  { exists b. split; [done|]. by rewrite app_nil_r. }
  rewrite fmap_cons in Hl |- *. cbn [concat] in Hl |- *. rewrite app_assoc in Hl |- *.
  destruct (streamer_encode_ok p b d Hp Hr) as (p' & b1 & -> & R1 & _).
  { rewrite !length_app in Hl. lia. }
  cbn [mbind option_bind]. by apply IH.
Qed.

Lemma pending_nil ctx b : @pending P Rcv createPacket ctx b [] -> ctx = StreamingContext_new /\ rep b [].
Proof.
  intros [-> Hr|h y _ _ _ E _]; [done|]. apply (f_equal length) in E.
  rewrite length_app, header_bytes_length in E. done.
Qed.

(** C3: End-to-end delivery.  Packets encoded one after another into the
    sender's buffer and received in pieces of any sizes (as TCP delivers
    them) come out of the receiver's reading loop as the same packets, with
    the same contents, channel ids and codes, in the same order, exactly
    once; afterwards the receiver's buffer is empty and its context is ready
    for the next packet. *)
Theorem end_to_end_delivery ps chunks bufSize :
  Forall frame_ok ps -> Z.of_nat (length (concat (frame <$> ps))) <= FRAME_MAX ->
  Forall (fun c => 0 < Z.of_nat (length c) <= bufSize) chunks -> bufSize <= 2 ^ 22 ->
  concat chunks = concat (frame <$> ps) ->
  (exists b, encode_all ps DataBuffer_new = Some b /\ getData b = Some (concat chunks)) /\
  exists qs b', @read_rounds P Rcv createPacket _ record bufSize chunks DataBuffer_new StreamingContext_new []
                  = Some (b', StreamingContext_new, inl <$> qs) /\
    Forall2 delivered ps qs /\ rep b' [].
Proof.
  intros Hok Hl Hc Hb Ed.
  destruct (encode_all_ok ps DataBuffer_new [] Hok rep_new Hl) as (b1 & E1 & R1).
  split; [exists b1; split; [done|]; by rewrite (rep_getData _ _ R1), Ed|].
  assert (Hs0 : short [] ps) by (destruct ps; cbn [short length]; [done|rewrite frame_length; lia]).
  destruct (read_rounds_ok record (fun s q => ex_intro _ _ eq_refl) bufSize ps chunks [] StreamingContext_new DataBuffer_new [])
    as (ps1 & ps2 & qs & x' & b' & ctx' & s' & -> & HF & -> & Hd & Ex & Hp & Hsh);
    [done|apply pending_none; [done|apply rep_new]|done..|].
  rewrite app_nil_r in Ex. rewrite record_all in Hd. injection Hd as <-.
  destruct ps2 as [|p ps2].
  - simpl in Hsh. subst x'. apply pending_nil in Hp as [-> Hr]. exists qs, b'. rewrite app_nil_r. by split_and!.
  - exfalso. apply (f_equal length) in Ex. rewrite fmap_cons in Ex. cbn [concat] in Ex.
    rewrite length_app in Ex. cbn [short] in Hsh. lia.
Qed.

End Delivery.

(** The two packets above are fit to send. *)
Lemma example_frames_ok : Forall (@frame_ok _ _ _ _ codec_adv) example_packets.
Proof.
  apply Forall_cons; split; [|apply Forall_cons; split; [|constructor]]; split_and!.
  - split; [|vm_compute; reflexivity]. apply packet_of_sendable; [by apply example_bytes|done|lia].
  - vm_compute. discriminate.
  - vm_compute. reflexivity.
  - vm_compute. discriminate.
  - split; [|vm_compute; reflexivity]. split; [|vm_compute; reflexivity]. split; [|split].
    + unfold adv_ok, is_byte. cbn. lia.
    + apply (packet_of_sendable 8 32773 [1; 2; 3; 4; 5]); [by apply example_bytes|done|lia].
    + vm_compute. reflexivity.
  - vm_compute. discriminate.
  - vm_compute. reflexivity.
  - vm_compute. discriminate.
Qed.

(** The bytes on the wire, cut into pieces of up to 10 bytes. *)
Definition example_stream : list Z := concat (@frame _ _ _ _ codec_adv <$> example_packets).
Definition example_chunks : list (list Z) :=
  [take 3 example_stream; take 10 (drop 3 example_stream); take 10 (drop 13 example_stream);
   take 10 (drop 23 example_stream); take 10 (drop 33 example_stream); drop 43 example_stream].

Lemma end_to_end_delivery_witness :
  (exists b, @encode_all _ (@sum_IPacket _ _ (DefaultPacket_IPacket alloc_64M) (@AdvancePacket_IPacket _ (DefaultPacket_IPacket alloc_64M) env_on))
               example_packets DataBuffer_new = Some b /\ getData b = Some (concat example_chunks)) /\
  exists qs b', @read_rounds _ (@sum_IPacket _ _ (DefaultPacket_IPacket alloc_64M) (@AdvancePacket_IPacket _ (DefaultPacket_IPacket alloc_64M) env_on))
                  (AdvancePacketFactory_createPacket DefaultPacket_new) _ record 16 example_chunks
                  DataBuffer_new StreamingContext_new []
                  = Some (b', StreamingContext_new, inl <$> qs) /\
    Forall2 (@delivered _ _ _ _ codec_adv) example_packets qs /\ rep b' [].
Proof.
  apply (@end_to_end_delivery _ _ _ _ codec_adv example_packets example_chunks 16).
  - apply example_frames_ok.
  - vm_compute. discriminate.
  - repeat (constructor; [vm_compute; split; [reflexivity|discriminate]|]). constructor.
  - vm_compute. discriminate.
  - vm_compute. reflexivity.
Defined.

(** ** Failures *)

(** A packet that cannot be encoded leaves no trace.  When a packet's
    [encode] reports failure after writing any number of bytes, the streamer
    strips them together with the frame header: the buffer holds exactly
    what it held before. *)
Theorem streamer_encode_failure_restores {P} `{IPacket P} (p : P) b d n :
  rep b d -> Z.of_nat (length d + 16 + n) <= FRAME_MAX ->
  (forall b1 d1, rep b1 d1 -> Z.of_nat (length d1 + n) <= FRAME_MAX ->
     exists p' b2 junk, encode p b1 = Some (false, p', b2) /\ rep b2 (d1 ++ junk) /\ (length junk <= n)%nat) ->
  exists p' b', streamer_encode true p b = Some (false, p', b') /\ rep b' d.
Proof.
  intros Hr Hl Henc. unfold streamer_encode. rewrite (rep_getDataLen _ _ Hr). unfold FRAME_MAX in *.
  set (h := _packetHeader (base p)).
  destruct (rep_writeInt32 b d ANET_PACKET_FLAG Hr) as (b1 & -> & R1); [unfold FRAME_MAX; lia|].
  cbn [mbind option_bind].
  destruct (rep_writeInt32 b1 _ (_chid h) R1) as (b2 & -> & R2);
    [unfold FRAME_MAX; wire_len|]. cbn [mbind option_bind].
  destruct (rep_writeInt32 b2 _ (_pcode h) R2) as (b3 & -> & R3);
    [unfold FRAME_MAX; wire_len|]. cbn [mbind option_bind].
  destruct (rep_writeInt32 b3 _ 0 R3) as (b4 & -> & R4);
    [unfold FRAME_MAX; wire_len|]. cbn [mbind option_bind].
  destruct (Henc b4 _ R4) as (p' & b5 & junk & -> & R5 & Hj);
    [wire_len|]. cbn [mbind option_bind negb].
  rewrite (rep_getDataLen _ _ R5). rewrite <- !app_assoc in R5 |- *.
  set (w := be_bytes 4 ANET_PACKET_FLAG ++ _) in *. rewrite length_app.
  destruct (rep_stripData b5 (d ++ w) (Z.of_nat (length d + length w) - Z.of_nat (length d)) R5) as (b6 & -> & R6);
    [rewrite length_app; lia|]. cbn [mbind option_bind].
  do 2 eexists. split; [done|]. rewrite length_app in R6.
  replace (length d + length w - _)%nat with (length d) in R6 by lia. by rewrite take_app_length in R6.
Qed.

Lemma streamer_encode_failure_restores_witness :
  exists p' b', streamer_encode true BadPacket DataBuffer_new = Some (false, p', b') /\ rep b' [].
Proof.
  apply (streamer_encode_failure_restores BadPacket DataBuffer_new [] 0); [apply rep_new|vm_compute; discriminate|].
  intros b1 d1 Hr _. exists BadPacket, b1, []. rewrite app_nil_r. split_and!; done.
Defined.

(** A bad frame header breaks the stream.  When sixteen bytes have
    arrived and they do not start with the flag, or announce a negative
    length or one beyond 1 GiB, [processData] fails, marks the context as
    broken and creates no packet. *)
Theorem bad_header_breaks_stream {P} `{IPacket P} (createPacket : Z -> P) b flag chid pcode dataLen rest :
  rep b (be_bytes 4 flag ++ be_bytes 4 chid ++ be_bytes 4 pcode ++ be_bytes 4 dataLen ++ rest) ->
  i32 flag <> ANET_PACKET_FLAG \/ i32 dataLen < 0 \/ max_package_size < i32 dataLen ->
  exists b' ctx', processData true createPacket b StreamingContext_new = Some (false, b', ctx') /\
    isBroken ctx' = true /\ getPacket ctx' = None /\ rep b' rest.
Proof.
  intros Hr Hbad. unfold processData. cbn [getPacket _packet StreamingContext_new]. unfold getPacketInfo.
  rewrite (rep_getDataLen _ _ Hr), !length_app, !be_bytes_length. unfold PACKET_INFO_LEN.
  rewrite (proj2 (Z.ltb_ge _ _)) by lia.
  do 4 (apply rep_readInt32 in Hr as (?b & -> & Hr); cbn [mbind option_bind]).
  assert (negb (i32 flag =? ANET_PACKET_FLAG) || (i32 dataLen <? 0) || (max_package_size <? i32 dataLen) = true) as ->.
  { destruct Hbad as [Hx|[Hx|Hx]].
    - by rewrite (proj2 (Z.eqb_neq _ _)) by done.
    - rewrite (proj2 (Z.ltb_lt _ 0)) by done. by rewrite orb_true_r.
    - rewrite (proj2 (Z.ltb_lt _ _) Hx). by rewrite orb_true_r. }
  cbn [mbind option_bind negb andb]. do 2 eexists. split; [done|]. done.
Qed.

Definition buffer_of (d : list Z) : DataBuffer :=
  mkDataBuffer (Some ((Some <$> d) ++ malloc 16)) 0 (Z.of_nat (length d)).

Lemma rep_buffer_of d : Forall is_byte d -> Z.of_nat (length d) <= 2 ^ 20 -> rep (buffer_of d) d.
Proof.
  intros Hb Hl. apply (rep_block _ _ [] (malloc 16)); [done|done|..].
  all: unfold BUF_MAX; change (length (malloc 16)) with 16%nat; cbn [length]; lia.
Qed.

Lemma bad_header_breaks_stream_witness :
  exists b' ctx', processData true (fun _ => BadPacket)
      (buffer_of (be_bytes 4 ANET_PACKET_FLAG ++ be_bytes 4 1 ++ be_bytes 4 0 ++ be_bytes 4 (-5) ++ []))
      StreamingContext_new = Some (false, b', ctx') /\
    isBroken ctx' = true /\ getPacket ctx' = None /\ rep b' [].
Proof.
  apply (bad_header_breaks_stream (fun _ => BadPacket) _ ANET_PACKET_FLAG 1 0 (-5) []).
  - apply rep_buffer_of; [by apply example_bytes|vm_compute; discriminate].
  - right. left. vm_compute. reflexivity.
Defined.

(** ** Checksums *)

(** Corruption is rejected and contained.  When both ends use checksums
    and one byte of an encoded advance packet, other than its flags byte, is
    changed on the way, the receiver's [decode] refuses the packet and drains
    exactly its bytes, so the next frame is read intact. *)
Theorem advance_corruption_detected {T} (SndT RcvT : IPacket T) (createT : Z -> T)
    {codecT : PacketCodec T SndT RcvT createT} env_s env_r p q i x y b rest :
  checksumState env_s = true -> checksumState env_r = true ->
  @adv_sendable T SndT RcvT createT codecT env_s p ->
  adv_wire SndT RcvT createT env_s p !! i = Some x -> is_byte y -> x <> y -> i <> 12%nat ->
  Packet_getDataLen (@base T RcvT (adv_packet q)) = Z.of_nat (length (adv_wire SndT RcvT createT env_s p)) ->
  rep b (<[i := y]> (adv_wire SndT RcvT createT env_s p) ++ rest) ->
  exists b', @adv_decode T RcvT env_r q b = Some (false, q, b') /\ rep b' rest.
Proof.
  intros Hs Hr Hp Hi Hy Hne H12 Hq Hb. unfold adv_decode. rewrite Hq.
  destruct (adv_verify_corrupt SndT RcvT createT env_s env_r Hs Hr p i x y b rest) as (b' & w & -> & R & Hl); [done..|].
  cbn [mbind option_bind negb]. eexists. split; [done|].
  apply (rep_drainData _ _ (Z.of_nat (length w))) in R; [|lia].
  rewrite Nat2Z.id, drop_app_length in R. by rewrite <- Hl.
Qed.

Definition example_adv : AdvancePacket DefaultPacket :=
  mkAdvance (mkAdvHeader 1500 0 9 6 1 2 0 0) (packet_of 8 5 [1; 2; 3; 4; 5]).

Definition example_adv_wire : list Z := @adv_wire DefaultPacket _ _ _ codec_dp env_on example_adv.

Lemma example_adv_sendable : @adv_sendable DefaultPacket _ _ _ codec_dp env_on example_adv.
Proof.
  split; [|split].
  - unfold adv_ok, is_byte. cbn. lia.
  - apply (packet_of_sendable 8 32773 [1; 2; 3; 4; 5]); [by apply example_bytes|done|lia].
  - vm_compute. reflexivity.
Qed.

Lemma advance_corruption_detected_witness :
  exists b', @adv_decode DefaultPacket (DefaultPacket_IPacket alloc_64M) env_on
      (@adv_upd_base DefaultPacket (DefaultPacket_IPacket alloc_64M) (Packet_setDataLen 21) (AdvancePacket_new DefaultPacket_new))
      (buffer_of (<[18%nat := 77]> example_adv_wire ++ [1; 2])) =
    Some (false, @adv_upd_base DefaultPacket (DefaultPacket_IPacket alloc_64M) (Packet_setDataLen 21) (AdvancePacket_new DefaultPacket_new), b') /\
    rep b' [1; 2].
Proof.
  apply (@advance_corruption_detected DefaultPacket _ _ _ codec_dp env_on env_on example_adv _ 18 3 77);
    [reflexivity|reflexivity|apply example_adv_sendable|vm_compute; reflexivity|unfold is_byte; lia|lia|lia|
     vm_compute; reflexivity|].
  apply rep_buffer_of; [apply example_bytes; vm_compute; reflexivity|vm_compute; discriminate].
Defined.

(** A short advance frame is read past its end.  A frame whose code has
    the advance flag but whose length is below the 16 bytes of the extended
    header is not rejected: on a fresh connection, sixteen bytes from the
    peer make the receiver read memory that nothing was written to.  With
    the flag cleared the same frame is delivered. *)
Theorem advance_short_frame_undefined :
  let read pcode := @read_round _
    (@sum_IPacket _ _ (DefaultPacket_IPacket alloc_64M) (@AdvancePacket_IPacket _ (DefaultPacket_IPacket alloc_64M) env_on))
    true (AdvancePacketFactory_createPacket DefaultPacket_new) _ record 1024
    (header_bytes (mkHeader 1 pcode 0)) DataBuffer_new StreamingContext_new [] in
  read ADVANCE_PACKET_MASK = None /\
  exists b p, read 0 = Some (b, StreamingContext_new, [inl (inl p)]).
Proof. split; [vm_compute; reflexivity|]. do 2 eexists. vm_compute. reflexivity. Qed.

(** ** Channel ids *)

(** Channel ids survive the packet.  Binding an advance packet to a
    channel stores the whole 60-bit id, split over the two headers, and reads
    it back; a plain packet keeps the low 32 bits.  In both cases the channel
    ends up with the id the reply will be looked up by. *)
Theorem setChannel_keeps_id alloc_ok env (a : AdvancePacket DefaultPacket) (p : DefaultPacket) ch chid :
  0 <= chid <= 2 ^ 60 ->
  (exists a', @setChannel _ (@AdvancePacket_IPacket _ (DefaultPacket_IPacket alloc_ok) env) (Some (ch, chid)) a = Some (a', Some chid) /\
     @getChannelId _ (@AdvancePacket_IPacket _ (DefaultPacket_IPacket alloc_ok) env) a' = chid) /\
  (exists p', @setChannel _ (DefaultPacket_IPacket alloc_ok) (Some (ch, chid)) p = Some (p', Some (chid mod 2 ^ 32)) /\
     @getChannelId _ (DefaultPacket_IPacket alloc_ok) p' = chid mod 2 ^ 32).
Proof.
  intros Hc. split; [|by eexists].
  unfold setChannel, setChannelId, getChannelId. cbn -[Z.pow Z.shiftr Z.shiftl wrapu].
  unfold adv_setChannelId. rewrite assertb_true by (apply Z.leb_le; lia). cbn [mbind option_bind].
  assert (E : u64 (u32 (u64 (chid - u64 (Z.shiftl (Z.shiftr chid 32) 32))) +
            Z.shiftl (u32 (Z.shiftr chid 32)) 32) = chid).
  { rewrite Z.shiftr_div_pow2, !Z.shiftl_mul_pow2 by lia.
    pose proof (Z.div_mod chid (2 ^ 32) ltac:(lia)) as Hd. pose proof (Z.mod_pos_bound chid (2 ^ 32) ltac:(lia)) as Hm.
    assert (0 <= chid / 2 ^ 32 <= 2 ^ 28) by (split; [apply Z.div_pos; lia|apply Z.div_le_upper_bound; lia]).
    rewrite (wrapu_small 64 (chid / 2 ^ 32 * 2 ^ 32)) by lia. rewrite (wrapu_small 64 (chid - _)) by lia.
    rewrite (wrapu_small 32 (chid - _)), (wrapu_small 32 (chid / _)) by lia. rewrite wrapu_small; lia. }
  eexists. split; [apply f_equal, f_equal2; [reflexivity|apply f_equal, E]|].
  apply E.
Qed.

Lemma setChannel_keeps_id_witness :
  (exists a', @setChannel _ (@AdvancePacket_IPacket _ (DefaultPacket_IPacket alloc_64M) env_on) (Some (4%positive, 2 ^ 40 + 5)) example_adv
      = Some (a', Some (2 ^ 40 + 5)) /\
     @getChannelId _ (@AdvancePacket_IPacket _ (DefaultPacket_IPacket alloc_64M) env_on) a' = 2 ^ 40 + 5) /\
  (exists p', @setChannel _ (DefaultPacket_IPacket alloc_64M) (Some (4%positive, 2 ^ 40 + 5)) DefaultPacket_new
      = Some (p', Some ((2 ^ 40 + 5) mod 2 ^ 32)) /\
     @getChannelId _ (DefaultPacket_IPacket alloc_64M) p' = (2 ^ 40 + 5) mod 2 ^ 32).
Proof. apply (setChannel_keeps_id alloc_64M env_on example_adv DefaultPacket_new 4 (2 ^ 40 + 5)). lia. Defined.
