(* ===== verification/ChannelPool.v ===== *)
(** * ChannelPool

    Sources: channel.cpp, channelpool.h and channelpool.cpp under
    src/agent_engine/network/anet/.

    A channel is the client's record of a request: its id, its handler and
    when it expires.  The pool allocates channels in clusters of 64 and keeps
    two doubly linked lists through the channels' [_prev] and [_next]: the
    free channels, and the channels that wait for a reply, in expiration
    order, with a map from id to waiting channel.  The model keeps the channels
    in a heap and the pool as its head and tail pointers. *)

From Stdlib Require Import Sorted.
From S2P Require Import Prelude.

Abbreviation ptr := positive.

(** ** Channel *)

Record Channel := mkChannel {
  _id : Z;                    (* uint64_t *)
  _args : option positive;
  _handler : option positive;
  _placeholder : option positive * Z;   (* address and uint32_t length *)
  _expireTime : Z;            (* int64_t *)
  _timeoutMs : Z;             (* int32_t *)
  _prev : option ptr;
  _next : option ptr
}.

(** [init] leaves the placeholder. *)
Definition Channel_init (id : Z) (c : Channel) : Channel := mkChannel id None None (_placeholder c) 0 0 None None.
Definition Channel_new : Channel := Channel_init 0 (mkChannel 0 None None (None, 0) 0 0 None None).

Definition with_prev (p : option ptr) (c : Channel) : Channel :=
  mkChannel (_id c) (_args c) (_handler c) (_placeholder c) (_expireTime c) (_timeoutMs c) p (_next c).
Definition with_next (n : option ptr) (c : Channel) : Channel :=
  mkChannel (_id c) (_args c) (_handler c) (_placeholder c) (_expireTime c) (_timeoutMs c) (_prev c) n.
Definition setId (id : Z) (c : Channel) : Channel :=
  mkChannel id (_args c) (_handler c) (_placeholder c) (_expireTime c) (_timeoutMs c) (_prev c) (_next c).
Definition setArgs (a : option positive) (c : Channel) : Channel :=
  mkChannel (_id c) a (_handler c) (_placeholder c) (_expireTime c) (_timeoutMs c) (_prev c) (_next c).
Definition setHandler (hd : option positive) (c : Channel) : Channel :=
  mkChannel (_id c) (_args c) hd (_placeholder c) (_expireTime c) (_timeoutMs c) (_prev c) (_next c).
Definition setPlaceholder (ph : option positive * Z) (c : Channel) : Channel :=
  mkChannel (_id c) (_args c) (_handler c) ph (_expireTime c) (_timeoutMs c) (_prev c) (_next c).
Definition setExpireTime (t : Z) (c : Channel) : Channel :=
  mkChannel (_id c) (_args c) (_handler c) (_placeholder c) t (_timeoutMs c) (_prev c) (_next c).
Definition setTimeoutMs (t : Z) (c : Channel) : Channel :=
  mkChannel (_id c) (_args c) (_handler c) (_placeholder c) (_expireTime c) t (_prev c) (_next c).

Abbreviation cheap := (gmap ptr Channel).

(** An assignment to a field of [*x]. *)
Definition upd (h : cheap) (x : ptr) (f : Channel -> Channel) : option cheap :=
  c ← h !! x; Some (<[x := f c]> h).

(** [if (p != NULL) p->field = ...;] *)
Definition upd_opt (h : cheap) (p : option ptr) (f : Channel -> Channel) : option cheap :=
  match p with None => Some h | Some x => upd h x f end.

(** ** The pool *)

Definition CHANNEL_CLUSTER_SIZE : nat := 64.
Definition AUTO_CHANNEL_ID_MAX : Z := 0x0FFFFFFFFFFFFFFF.
Definition HTTP_CHANNEL_ID : Z := 0x10000000.
Definition ADMIN_CHANNEL_ID : Z := 0x10000001.

Record ChannelPool := mkPool {
  heap : cheap;
  _waitReplyMap : gmap Z ptr;
  _clusterList : list nat;
  _freeListHead : option ptr;
  _freeListTail : option ptr;
  _waitReplyHead : option ptr;
  _waitReplyTail : option ptr;
  _useCount : Z
}.

Definition ChannelPool_new : ChannelPool := mkPool ∅ ∅ [] None None None None 0.

(** The destructor deletes every cluster. *)
Definition ChannelPool_destroy (p : ChannelPool) : list nat := _clusterList p.

Definition getUseListCount (p : ChannelPool) : Z := u64 (_useCount p).
Definition addUseCountByOne (p : ChannelPool) : ChannelPool :=
  mkPool (heap p) (_waitReplyMap p) (_clusterList p) (_freeListHead p) (_freeListTail p)
         (_waitReplyHead p) (_waitReplyTail p) (i32 (_useCount p + 1)).
Definition subUseCountByOne (p : ChannelPool) : ChannelPool :=
  mkPool (heap p) (_waitReplyMap p) (_clusterList p) (_freeListHead p) (_freeListTail p)
         (_waitReplyHead p) (_waitReplyTail p) (i32 (_useCount p - 1)).

(** [&channelCluster[i]] of the [k]-th cluster. *)
Definition cluster_ptr (k i : nat) : ptr := Pos.of_succ_nat (64 * k + i).

(** [new Channel[CHANNEL_CLUSTER_SIZE]] *)
Definition new_cluster (k : nat) (h : cheap) : cheap :=
  foldr (fun i h => <[cluster_ptr k i := Channel_new]> h) h (seq 0 CHANNEL_CLUSTER_SIZE).

(** The loop that links the cluster's channels from index 2 on. *)
Fixpoint link_loop (k : nat) (idx : list nat) (h : cheap) (tail : ptr) : option (cheap * ptr) :=
  match idx with
  | [] => Some (h, tail)
  | i :: idx =>
      h ← upd h tail (with_next (Some (cluster_ptr k i)));
      h ← upd h (cluster_ptr k i) (with_prev (Some tail));
      link_loop k idx h (cluster_ptr k i)
  end.

(** [createChannelId]; [g] is the static [_globalChannelId]. *)
Fixpoint auto_id_loop (fuel : nat) (g : Z) : option (Z * Z) :=
  match fuel with
  | O => None
  | S fuel =>
      let g := i64 (g + 1) in
      let id := Z.land (u64 g) AUTO_CHANNEL_ID_MAX in
      let id := if (u32 id =? HTTP_CHANNEL_ID) || (u32 id =? ADMIN_CHANNEL_ID) || (u32 id =? 0) then 0 else id in
      if 0 =? id then auto_id_loop fuel g else Some (id, g)
  end.

Definition createChannelId (chid g : Z) : option (Z * Z) :=
  if (chid <=? AUTO_CHANNEL_ID_MAX) && (negb (chid =? HTTP_CHANNEL_ID) && negb (chid =? ADMIN_CHANNEL_ID))
  then auto_id_loop 4 g
  else Some (chid, g).

(** The first step of [allocChannel]: a channel leaves the free list, which
    a new cluster fills when it is empty. *)
Definition take_free (p : ChannelPool) : option (ptr * ChannelPool) :=
  match _freeListHead p with
  | None =>
      let k := length (_clusterList p) in
      let h := new_cluster k (heap p) in
      '(h, tail) ← link_loop k (seq 2 (CHANNEL_CLUSTER_SIZE - 2)) h (cluster_ptr k 1);
      h ← upd h (cluster_ptr k 1) (with_prev None);
      h ← upd h tail (with_next None);
      Some (cluster_ptr k 0,
            mkPool h (_waitReplyMap p) (_clusterList p ++ [k]) (Some (cluster_ptr k 1)) (Some tail)
                   (_waitReplyHead p) (_waitReplyTail p) (_useCount p))
  | Some channel =>
      c ← heap p !! channel;
      h ← upd_opt (heap p) (_next c) (with_prev None);
      let tail := match _next c with None => None | Some _ => _freeListTail p end in
      Some (channel, mkPool h (_waitReplyMap p) (_clusterList p) (_next c) tail
                            (_waitReplyHead p) (_waitReplyTail p) (_useCount p))
  end.

(** [allocChannel(chid)]: the channel, the pool and the id counter. *)
Definition allocChannel (p : ChannelPool) (chid g : Z) : option (ptr * ChannelPool * Z) :=
  '(channel, p) ← take_free p;
  '(id, g) ← createChannelId chid g;
  h ← upd (heap p) channel (Channel_init id);
  let p := mkPool h (_waitReplyMap p) (_clusterList p) (_freeListHead p) (_freeListTail p)
                  (_waitReplyHead p) (_waitReplyTail p) (_useCount p) in
  Some (channel, addUseCountByOne p, g).

Definition freeWaitingChannel (p : ChannelPool) (channel : ptr) : option ChannelPool :=
  c ← heap p !! channel;
  let map := delete (_id c) (_waitReplyMap p) in
  let head := if decide (Some channel = _waitReplyHead p) then _next c else _waitReplyHead p in
  let tail := if decide (Some channel = _waitReplyTail p) then _prev c else _waitReplyTail p in
  h ← upd_opt (heap p) (_prev c) (with_next (_next c));
  h ← upd_opt h (_next c) (with_prev (_prev c));
  Some (mkPool h map (_clusterList p) (_freeListHead p) (_freeListTail p) head tail (_useCount p)).

Definition recycleChannel (p : ChannelPool) (channel : ptr) : option ChannelPool :=
  h ← upd (heap p) channel (fun c => with_next None (with_prev (_freeListTail p) c));
  '(h, head) ← match _freeListTail p with
               | None => Some (h, Some channel)
               | Some t => h ← upd h t (with_next (Some channel)); Some (h, _freeListHead p)
               end;
  Some (mkPool h (_waitReplyMap p) (_clusterList p) head (Some channel)
               (_waitReplyHead p) (_waitReplyTail p) (_useCount p)).

Definition freeChannel (p : ChannelPool) (channel : option ptr) : option (bool * ChannelPool) :=
  match channel with
  | None => Some (false, p)
  | Some x =>
      c ← heap p !! x;
      p ← (if 0 <? _expireTime c then freeWaitingChannel p x else Some p);
      p ← recycleChannel p x;
      Some (true, subUseCountByOne p)
  end.

Definition findChannel (p : ChannelPool) (id : Z) : option ptr := _waitReplyMap p !! id.

(** The loop of [getTimeoutList]: the first channel that has not expired,
    and the map and use count without the ones that have. *)
Fixpoint timeout_loop (fuel : nat) (h : cheap) (now : Z) (channel : option ptr) (map : gmap Z ptr) (uses : Z)
  : option (option ptr * gmap Z ptr * Z) :=
  match channel with
  | None => Some (None, map, uses)
  | Some x =>
      c ← h !! x;
      if (_expireTime c =? 0) || (now <=? _expireTime c) then Some (channel, map, uses)
      else match fuel with
           | O => None
           | S fuel => timeout_loop fuel h now (_next c) (delete (_id c) map) (i32 (uses - 1))
           end
  end.

Definition getTimeoutList (p : ChannelPool) (now : Z) : option (option ptr * ChannelPool) :=
  match _waitReplyHead p with
  | None => Some (None, p)
  | Some _ =>
      '(channel, map, uses) ←
        timeout_loop (S (size (heap p))) (heap p) now (_waitReplyHead p) (_waitReplyMap p) (_useCount p);
      if decide (channel = _waitReplyHead p) then
        Some (None, mkPool (heap p) map (_clusterList p) (_freeListHead p) (_freeListTail p)
                           (_waitReplyHead p) (_waitReplyTail p) uses)
      else
        match channel with
        | None => Some (_waitReplyHead p,
                        mkPool (heap p) map (_clusterList p) (_freeListHead p) (_freeListTail p) None None uses)
        | Some x =>
            c ← heap p !! x;
            prev ← _prev c;
            h ← upd (heap p) prev (with_next None);
            h ← upd h x (with_prev None);
            Some (_waitReplyHead p,
                  mkPool h map (_clusterList p) (_freeListHead p) (_freeListTail p) (Some x) (_waitReplyTail p) uses)
        end
  end.

(** [while (tail->_next != NULL) tail = tail->_next;] *)
Fixpoint find_tail (fuel : nat) (h : cheap) (tail : ptr) : option ptr :=
  c ← h !! tail;
  match _next c with
  | None => Some tail
  | Some n => match fuel with O => None | S fuel => find_tail fuel h n end
  end.

Definition appendFreeList (p : ChannelPool) (addList : option ptr) : option (bool * ChannelPool) :=
  match addList with
  | None => Some (true, p)
  | Some x =>
      tail ← find_tail (S (size (heap p))) (heap p) x;
      h ← upd (heap p) x (with_prev (_freeListTail p));
      '(h, head) ← match _freeListTail p with
                   | None => Some (h, addList)
                   | Some t => h ← upd h t (with_next addList); Some (h, _freeListHead p)
                   end;
      Some (true, mkPool h (_waitReplyMap p) (_clusterList p) head (Some tail)
                         (_waitReplyHead p) (_waitReplyTail p) (_useCount p))
  end.

(** The search for the first channel that expires after [e]. *)
Fixpoint insert_loop (fuel : nat) (h : cheap) (e : Z) (next : option ptr) : option (option ptr) :=
  match next with
  | None => Some None
  | Some x =>
      c ← h !! x;
      if e <? _expireTime c then Some next
      else match fuel with O => None | S fuel => insert_loop fuel h e (_next c) end
  end.

Definition addToWaitingList (p : ChannelPool) (channel : ptr) : option ChannelPool :=
  c ← heap p !! channel;
  if _expireTime c =? 0 then Some p
  else
    let map := <[_id c := channel]> (_waitReplyMap p) in
    let result h head tail :=
      Some (mkPool h map (_clusterList p) (_freeListHead p) (_freeListTail p) head tail (_useCount p)) in
    match _waitReplyHead p with
    | None =>
        h ← upd (heap p) channel (fun c => with_next None (with_prev None c));
        result h (Some channel) (Some channel)
    | Some hd =>
        ch ← heap p !! hd;
        if _expireTime c <? _expireTime ch then
          h ← upd (heap p) channel (fun c => with_next (Some hd) (with_prev None c));
          h ← upd h hd (with_prev (Some channel));
          result h (Some channel) (_waitReplyTail p)
        else
          next ← insert_loop (S (size (heap p))) (heap p) (_expireTime c) (_next ch);
          match next with
          | None =>
              h ← upd (heap p) channel (fun c => with_next None (with_prev (_waitReplyTail p) c));
              t ← _waitReplyTail p;
              h ← upd h t (with_next (Some channel));
              result h (_waitReplyHead p) (Some channel)
          | Some n =>
              cn ← heap p !! n;
              h ← upd (heap p) channel (fun c => with_next (Some n) (with_prev (_prev cn) c));
              pre ← _prev cn;
              h ← upd h pre (with_next (Some channel));
              h ← upd h n (with_prev (Some channel));
              result h (_waitReplyHead p) (_waitReplyTail p)
          end
    end.

(** ** Doubly linked segments *)

(** Walking [l] forwards ends at [n], walking it backwards ends at [p]. *)
Fixpoint dlseg (h : cheap) (p : option ptr) (l : list ptr) (n : option ptr) : Prop :=
  match l with
  | [] => True
  | x :: l =>
      (exists c, h !! x = Some c /\ _prev c = p /\ _next c = match l with [] => n | y :: _ => Some y end) /\
      dlseg h (Some x) l n
  end.

(** Everything of a channel but its links. *)
Definition core (c : Channel) : Z * option positive * option positive * (option positive * Z) * Z * Z :=
  (_id c, _args c, _handler c, _placeholder c, _expireTime c, _timeoutMs c).

Definition same_core (h h' : cheap) : Prop := forall x, core <$> h' !! x = core <$> h !! x.

(** The first element, or what comes after the list. *)
Definition hd_or (l : list ptr) (n : option ptr) : option ptr := match l with [] => n | y :: _ => Some y end.
Definition last_or (p : option ptr) (l : list ptr) : option ptr := match last l with None => p | Some x => Some x end.

Section Segments.

Implicit Types (h : cheap) (l : list ptr) (p n : option ptr).

Lemma last_or_cons p x l : last_or p (x :: l) = last_or (Some x) l.
Proof. unfold last_or. destruct l as [|y l]; [done|]. change (last (x :: y :: l)) with (last (y :: l)). by destruct (last (y :: l)) eqn:E; [|apply last_None in E]. Qed.

Lemma last_or_snoc p l x : last_or p (l ++ [x]) = Some x.
Proof. unfold last_or. by rewrite last_snoc. Qed.

Lemma hd_or_app l1 l2 n : hd_or (l1 ++ l2) n = hd_or l1 (hd_or l2 n).
Proof. by destruct l1. Qed.

Lemma dlseg_app h p l1 l2 n :
  dlseg h p (l1 ++ l2) n <-> dlseg h p l1 (hd_or l2 n) /\ dlseg h (last_or p l1) l2 n.
Proof.
  revert p; induction l1 as [|x l1 IH]; intros p; simpl; [by unfold last_or; simpl; tauto|].
  rewrite last_or_cons, IH. destruct l1 as [|y l1]; [destruct l2; simpl; tauto|simpl; tauto].
Qed.

Lemma dlseg_frame h h' p l n : (forall x, x ∈ l -> h' !! x = h !! x) -> dlseg h p l n -> dlseg h' p l n.
Proof.
  revert p; induction l as [|x l IH]; intros p Hf; simpl; [done|]. intros [(c & Hx & Hc) Hl].
  split; [exists c; rewrite Hf by set_solver; done|]. apply IH; [|done]. intros y Hy. apply Hf. set_solver.
Qed.

Lemma dlseg_alive h p l n x : dlseg h p l n -> x ∈ l -> is_Some (h !! x).
Proof.
  revert p; induction l as [|y l IH]; intros p; simpl; [set_solver|].
  intros [(c & Hy & _) Hl] [->|Hx]%elem_of_cons; [eauto|by eapply IH].
Qed.

Lemma dlseg_length h p l n : dlseg h p l n -> NoDup l -> (length l <= size h)%nat.
Proof.
  intros H Hn. rewrite <- (size_list_to_set (C := gset ptr) l) by done. rewrite <- size_dom.
  apply subseteq_size. intros x. rewrite elem_of_list_to_set, elem_of_dom. eauto using dlseg_alive.
Qed.

(** *** Assignments *)

Lemma upd_ok h x f : is_Some (h !! x) ->
  exists c h', h !! x = Some c /\ upd h x f = Some h' /\ h' !! x = Some (f c) /\ (forall y, y <> x -> h' !! y = h !! y).
Proof.
  intros [c Hc]. exists c, (<[x := f c]> h). unfold upd. rewrite Hc. split_and!; [done..|by rewrite lookup_insert_eq|].
  intros y Hy. by rewrite lookup_insert_ne.
Qed.

Lemma same_core_refl h : same_core h h.
Proof. done. Qed.

Lemma same_core_trans h1 h2 h3 : same_core h1 h2 -> same_core h2 h3 -> same_core h1 h3.
Proof. intros H1 H2 x. by rewrite H2. Qed.

Lemma upd_same_core h x f h' : upd h x f = Some h' -> (forall c, core (f c) = core c) -> same_core h h'.
Proof.
  unfold upd. intros (c & Hc & [= <-])%bind_Some_inv Hf y. destruct (decide (x = y)) as [<-|Hne].
  - rewrite lookup_insert_eq, Hc. simpl. by rewrite Hf.
  - by rewrite lookup_insert_ne.
Qed.

(** Redirecting the end of a segment. *)
Lemma dlseg_set_next h h' p l x n m :
  dlseg h p (l ++ [x]) n -> NoDup (l ++ [x]) -> upd h x (with_next m) = Some h' -> dlseg h' p (l ++ [x]) m.
Proof.
  intros [H1 [(c & Hc & Hp & _) _]]%dlseg_app Hn Hu. apply dlseg_app. simpl in *.
  destruct (upd_ok h x (with_next m)) as (c' & h'' & Hc' & Hu' & Hx & Hy); [eauto|]. simplify_eq.
  apply NoDup_app in Hn as (_ & Hd & _). split; [|split; [|done]].
  - eapply dlseg_frame; [|exact H1]. intros y Hin. apply Hy. intros ->. apply (Hd x Hin). set_solver.
  - eexists; split_and!; [done|done|done].
Qed.

(** Redirecting its beginning. *)
Lemma dlseg_set_prev h h' p l x n q :
  dlseg h p (x :: l) n -> NoDup (x :: l) -> upd h x (with_prev q) = Some h' -> dlseg h' q (x :: l) n.
Proof.
  intros [(c & Hc & _ & Hnx) Hl] [Hnin _]%NoDup_cons Hu. simpl.
  destruct (upd_ok h x (with_prev q)) as (c' & h'' & Hc' & Hu' & Hx & Hy); [eauto|]. simplify_eq.
  split; [by eexists|]. eapply dlseg_frame; [|exact Hl]. intros y Hin. apply Hy. by intros ->.
Qed.

Lemma upd_other h x f h' y : upd h x f = Some h' -> y <> x -> h' !! y = h !! y.
Proof. unfold upd. intros (c & _ & [= <-])%bind_Some_inv Hne. by rewrite lookup_insert_ne. Qed.

Lemma upd_frame h x f h' p l n : upd h x f = Some h' -> x ∉ l -> dlseg h p l n -> dlseg h' p l n.
Proof. intros Hu Hx. apply dlseg_frame. intros y Hy. eapply upd_other; [exact Hu|]. by intros ->. Qed.

(** A null-guarded assignment at either end of a segment. *)
Lemma upd_last h p l n m :
  dlseg h p l n -> NoDup l -> p = None ->
  exists h', upd_opt h (last_or p l) (with_next m) = Some h' /\ dlseg h' p l m /\ same_core h h' /\
    (forall y, y ∉ l -> h' !! y = h !! y).
Proof.
  intros Hl Hn ->. destruct l as [|x l _] using rev_ind; [by exists h|]. rewrite last_or_snoc. simpl.
  destruct (upd_ok h x (with_next m)) as (c & h' & Hc & Hu & _ & Hy); [eapply dlseg_alive; [exact Hl|set_solver]|].
  exists h'. split_and!; [done|by eapply dlseg_set_next|by eapply upd_same_core|].
  intros y Hin. apply Hy. set_solver.
Qed.

Lemma upd_first h p l n q :
  dlseg h p l n -> NoDup l ->  n = None ->
  exists h', upd_opt h (hd_or l n) (with_prev q) = Some h' /\ dlseg h' q l n /\ same_core h h' /\
    (forall y, y ∉ l -> h' !! y = h !! y).
Proof.
  intros Hl Hn ->. destruct l as [|x l]; [by exists h|]. simpl.
  destruct (upd_ok h x (with_prev q)) as (c & h' & Hc & Hu & _ & Hy); [eapply dlseg_alive; [exact Hl|set_solver]|].
  exists h'. split; [done|]. split; [exact (dlseg_set_prev h h' p l x None q Hl Hn Hu)|].
  split; [by eapply upd_same_core|].
  intros y Hin. apply Hy. set_solver.
Qed.

End Segments.

(** ** The invariant *)

Definition expire (h : cheap) (x : ptr) : Z := from_option _expireTime 0 (h !! x).
Definition chan_id (h : cheap) (x : ptr) : Z := from_option _id 0 (h !! x).

Definition sorted (h : cheap) (l : list ptr) : Prop := StronglySorted (fun x y => expire h x <= expire h y) l.

(** Allocated, and on no list. *)
Definition detached (h : cheap) (D : list ptr) : Prop :=
  forall x, x ∈ D -> exists c, h !! x = Some c /\ _prev c = None /\ _next c = None.

(** [F]: the free channels; [W]: the waiting ones, in order; [D]: handed out
    and not waiting; [L]: expired and not yet given back; [X]: being freed,
    with links of no meaning.  Between operations [L] and [X] are empty. *)
Record pool_state (p : ChannelPool) (F W D L X : list ptr) : Prop := {
  pi_nodup : NoDup (F ++ W ++ D ++ L ++ X);
  pi_alive : forall x, is_Some (heap p !! x) <-> x ∈ F ++ W ++ D ++ L ++ X;
  pi_ptrs : forall x, is_Some (heap p !! x) <-> (Pos.to_nat x <= 64 * length (_clusterList p))%nat;
  pi_clusters : _clusterList p = seq 0 (length (_clusterList p));
  pi_free : dlseg (heap p) None F None;
  pi_fhead : _freeListHead p = head F;
  pi_ftail : _freeListTail p = last F;
  pi_wait : dlseg (heap p) None W None;
  pi_whead : _waitReplyHead p = head W;
  pi_wtail : _waitReplyTail p = last W;
  pi_det : detached (heap p) D;
  pi_out : dlseg (heap p) None L None;
  pi_sorted : sorted (heap p) W;
  pi_pos : forall x, x ∈ W -> 0 < expire (heap p) x;
  pi_map : forall id x, _waitReplyMap p !! id = Some x <-> x ∈ W /\ chan_id (heap p) x = id;
  pi_uses : _useCount p = Z.of_nat (length W + length D + length X);
  pi_bound : Z.of_nat (64 * length (_clusterList p)) < 2 ^ 31
}.

Abbreviation pool_inv p F W D := (pool_state p F W D [] []).

Section Invariant.

Implicit Types (h : cheap) (F W D L : list ptr) (p : ChannelPool).

Lemma hd_or_head l : hd_or l None = head l.
Proof. by destruct l. Qed.

Lemma last_or_last l : last_or None l = last l.
Proof. unfold last_or. by destruct (last l). Qed.

Lemma core_eq h h' x : core <$> h' !! x = core <$> h !! x -> expire h' x = expire h x /\ chan_id h' x = chan_id h x.
Proof.
  unfold expire, chan_id, core. intros E. destruct (h' !! x), (h !! x); simpl in *; try done. by simplify_eq.
Qed.

Lemma sorted_core h h' W : (forall x, x ∈ W -> core <$> h' !! x = core <$> h !! x) -> sorted h W -> sorted h' W.
Proof.
  intros Hc. unfold sorted. induction W as [|x W IH]; intros Hs; [constructor|]. inversion Hs as [|? ? Hs' Hf]; subst.
  constructor; [apply IH; [intros; apply Hc; set_solver|done]|]. apply Forall_forall. intros y Hy.
  eapply Forall_forall in Hf; [|exact Hy]. destruct (core_eq h h' x) as [-> _]; [apply Hc; set_solver|].
  destruct (core_eq h h' y) as [-> _]; [apply Hc; set_solver|]. done.
Qed.

Lemma detached_frame h h' D : (forall x, x ∈ D -> h' !! x = h !! x) -> detached h D -> detached h' D.
Proof. intros Hf Hd x Hx. rewrite Hf by done. by apply Hd. Qed.

Lemma same_core_alive h h' x : same_core h h' -> is_Some (h' !! x) <-> is_Some (h !! x).
Proof. intros Hs. specialize (Hs x). destruct (h' !! x), (h !! x); simpl in *; try done; split; intros []; eauto; done. Qed.

Lemma disjoint5 F W D L X :
  NoDup (F ++ W ++ D ++ L ++ X) ->
  (forall x, x ∈ F -> x ∉ W ++ D ++ L ++ X) /\ (forall x, x ∈ W -> x ∉ F ++ D ++ L ++ X) /\
  (forall x, x ∈ D -> x ∉ F ++ W ++ L ++ X) /\ (forall x, x ∈ L -> x ∉ F ++ W ++ D ++ X) /\
  (forall x, x ∈ X -> x ∉ F ++ W ++ D ++ L).
Proof.
  rewrite !NoDup_app. intros (_ & H1 & _ & H2 & _ & H3 & _ & H4 & _). split_and!; intros x Hx; set_solver.
Qed.

(** The pool's channels are those of its clusters. *)
Lemma pool_perm p F W D L X :
  pool_state p F W D L X -> F ++ W ++ D ++ L ++ X ≡ₚ Pos.of_succ_nat <$> seq 0 (64 * length (_clusterList p)).
Proof.
  intros Hi. apply NoDup_Permutation; [exact (pi_nodup _ _ _ _ _ _ Hi)| |].
  - apply NoDup_fmap; [|apply NoDup_seq]. intros i j E. lia.
  - intros x. rewrite <- (pi_alive _ _ _ _ _ _ Hi), (pi_ptrs _ _ _ _ _ _ Hi), list_elem_of_fmap. split.
    + intros Hx. exists (Nat.pred (Pos.to_nat x)). rewrite elem_of_seq. lia.
    + intros (i & -> & Hx%elem_of_seq). lia.
Qed.

Lemma pool_count p F W D L X :
  pool_state p F W D L X ->
  (length F + length W + length D + length L + length X)%nat = (64 * length (_clusterList p))%nat.
Proof.
  intros Hi. pose proof (Permutation_length (pool_perm _ _ _ _ _ _ Hi)) as Hp.
  rewrite !length_app, length_fmap, length_seq in Hp. lia.
Qed.

(** A new cluster is only needed when all channels are in use. *)
Lemma pool_room p F W D :
  pool_inv p F W D -> _useCount p < 2 ^ 31 - 128 -> F = [] -> Z.of_nat (64 * S (length (_clusterList p))) < 2 ^ 31.
Proof.
  intros Hp Hu ->. pose proof (pool_count _ _ _ _ _ _ Hp) as Hc. rewrite (pi_uses _ _ _ _ _ _ Hp) in Hu. simpl in Hc. lia.
Qed.

Lemma pool_inv_new : pool_inv ChannelPool_new [] [] [].
Proof.
  split; simpl; try done; try constructor.
  - intros [c Hc]. by rewrite lookup_empty in Hc.
  - intros []%elem_of_nil.
  - intros [c Hc]. by rewrite lookup_empty in Hc.
  - lia.
  - intros x []%elem_of_nil.
  - intros x []%elem_of_nil.
  - by rewrite lookup_empty.
  - intros [[]%elem_of_nil _].
Qed.

Lemma pool_state_perm p F W D D' L X : D ≡ₚ D' -> pool_state p F W D L X -> pool_state p F W D' L X.
Proof.
  intros HP [? Ha ? ? ? ? ? ? ? ? Hd ? ? ? ? ? ?]. split; try done.
  - by rewrite <- HP.
  - intros x. by rewrite Ha, HP.
  - intros x Hx. apply Hd. by rewrite HP.
  - by rewrite <- HP.
Qed.

(** A link assignment that rearranges [F], [W] or [L] leaves the rest. *)
Lemma state_relink p p' F W D L X F' W' L' X' :
  pool_state p F W D L X ->
  F ++ W ++ L ++ X ≡ₚ F' ++ W' ++ L' ++ X' ->
  same_core (heap p) (heap p') -> (forall y, y ∈ D -> heap p' !! y = heap p !! y) ->
  _clusterList p' = _clusterList p ->
  dlseg (heap p') None F' None -> _freeListHead p' = head F' -> _freeListTail p' = last F' ->
  dlseg (heap p') None W' None -> _waitReplyHead p' = head W' -> _waitReplyTail p' = last W' ->
  dlseg (heap p') None L' None -> (forall y, y ∈ W' -> 0 < expire (heap p) y) -> sorted (heap p) W' ->
  (forall id x, _waitReplyMap p' !! id = Some x <-> x ∈ W' /\ chan_id (heap p) x = id) ->
  _useCount p' = Z.of_nat (length W' + length D + length X') ->
  pool_state p' F' W' D L' X'.
Proof.
  intros Hi HP Hc HD Hcl HF HFh HFt HW HWh HWt HL HWW Hs Hm Hu.
  assert (HP' : F ++ W ++ D ++ L ++ X ≡ₚ F' ++ W' ++ D ++ L' ++ X').
  { rewrite (Permutation_app_swap_app W D), (Permutation_app_swap_app F D).
    rewrite (Permutation_app_swap_app W' D), (Permutation_app_swap_app F' D). by rewrite HP. }
  split; try done.
  - rewrite <- HP'. by apply (pi_nodup _ _ _ _ _ _ Hi).
  - intros x. rewrite (same_core_alive _ _ _ Hc), <- HP'. apply (pi_alive _ _ _ _ _ _ Hi).
  - intros x. rewrite (same_core_alive _ _ _ Hc), Hcl. apply (pi_ptrs _ _ _ _ _ _ Hi).
  - rewrite Hcl. apply (pi_clusters _ _ _ _ _ _ Hi).
  - eapply detached_frame; [exact HD|]. apply (pi_det _ _ _ _ _ _ Hi).
  - eapply sorted_core; [|exact Hs]. intros x _. apply Hc.
  - intros x Hx. destruct (core_eq _ _ x (Hc x)) as [-> _]. by apply HWW.
  - intros id x. rewrite Hm. by destruct (core_eq _ _ x (Hc x)) as [_ ->].
  - rewrite Hcl. apply (pi_bound _ _ _ _ _ _ Hi).
Qed.

(** *** Giving a channel back *)

Lemma recycle_links h F x :
  dlseg h None F None -> x ∉ F -> NoDup F -> is_Some (h !! x) ->
  exists h' h2, upd h x (fun c => with_next None (with_prev (last F) c)) = Some h2 /\
    match last F with
    | None => h' = h2
    | Some t => upd h2 t (with_next (Some x)) = Some h'
    end /\
    dlseg h' None (F ++ [x]) None /\ same_core h h' /\ (forall y, y ∉ x :: F -> h' !! y = h !! y).
Proof.
  intros Hf Hx Hn Ha.
  destruct (upd_ok h x (fun c => with_next None (with_prev (last F) c)) Ha) as (c & h2 & Hc & Hu & Hx2 & Hy2).
  assert (Hf2 : dlseg h2 None F None) by (by eapply upd_frame).
  destruct (upd_last h2 None F None (Some x) Hf2 Hn eq_refl) as (h' & Hu' & Hf' & Hs' & Hy').
  rewrite last_or_last in Hu'. exists h', h2. split; [done|]. split; [destruct (last F); simpl in Hu'; [done|congruence]|].
  split; [|split].
  - apply dlseg_app. split; [done|]. simpl. split; [|done]. rewrite last_or_last.
    eexists. rewrite Hy' by done. split; [exact Hx2|done].
  - eapply same_core_trans; [by eapply upd_same_core|done].
  - intros y [Hne Hy]%not_elem_of_cons. by rewrite Hy', Hy2.
Qed.

(** Unlinking from the middle of the waiting list. *)
Lemma unlink_links h W1 x W2 c :
  dlseg h None (W1 ++ x :: W2) None -> NoDup (W1 ++ x :: W2) -> h !! x = Some c ->
  _prev c = last W1 /\ _next c = head W2 /\
  exists h1 h', upd_opt h (_prev c) (with_next (_next c)) = Some h1 /\ upd_opt h1 (_next c) (with_prev (_prev c)) = Some h' /\
    dlseg h' None (W1 ++ W2) None /\ same_core h h' /\ (forall y, y ∉ W1 ++ W2 -> h' !! y = h !! y).
Proof.
  intros [H1 [(c' & Hc' & Hp & Hnx) H2]]%dlseg_app Hn Hc. simplify_eq. rewrite last_or_last in Hp.
  change (match W2 with [] => None | y :: _ => Some y end) with (hd_or W2 None) in Hnx. rewrite hd_or_head in Hnx.
  split; [done|]. split; [done|]. apply NoDup_app in Hn as (Hn1 & Hd & Hn2). apply NoDup_cons in Hn2 as [Hx2 Hn2].
  destruct (upd_last h None W1 _ (head W2) H1 Hn1 eq_refl) as (h1 & Hu1 & Hd1 & Hs1 & Hy1).
  assert (H2' : dlseg h1 (Some x) W2 None).
  { eapply dlseg_frame; [|exact H2]. intros y Hy. apply Hy1. intros Hin. apply (Hd y Hin). set_solver. }
  destruct (upd_first h1 _ W2 None (last W1) H2' Hn2 eq_refl) as (h' & Hu' & Hd' & Hs' & Hy').
  rewrite last_or_last in Hu1. rewrite hd_or_head in Hu'. exists h1, h'. rewrite Hp, Hnx.
  split; [done|]. split; [done|]. split; [|split].
  - apply dlseg_app. rewrite last_or_last, hd_or_head. split; [|done].
    eapply dlseg_frame; [|exact Hd1]. intros y Hy. apply Hy'. intros Hin. apply (Hd y Hy). set_solver.
  - by eapply same_core_trans.
  - intros y Hy. rewrite Hy', Hy1; set_solver.
Qed.

Lemma sorted_remove h W1 x W2 : sorted h (W1 ++ x :: W2) -> sorted h (W1 ++ W2).
Proof.
  unfold sorted. induction W1 as [|y W1 IH]; simpl; intros Hs; inversion Hs as [|? ? Hs' Hf]; subst; [done|].
  constructor; [by apply IH|]. apply Forall_app in Hf as [? Hf]. apply Forall_app. split; [done|].
  by apply Forall_cons in Hf as [_ Hf].
Qed.

Lemma alive_in p F W D L X x : pool_state p F W D L X -> x ∈ F ++ W ++ D ++ L ++ X -> exists c, heap p !! x = Some c.
Proof. intros Hi Hx. by apply (pi_alive _ _ _ _ _ _ Hi) in Hx. Qed.

Lemma lookup_core h x c : h !! x = Some c -> expire h x = _expireTime c /\ chan_id h x = _id c.
Proof. unfold expire, chan_id. by intros ->. Qed.

(** Removing a channel's id from the map removes that channel. *)
Lemma map_without h (m : gmap Z ptr) W1 x W2 :
  (forall id y, m !! id = Some y <-> y ∈ W1 ++ x :: W2 /\ chan_id h y = id) -> x ∉ W1 ++ W2 ->
  forall id y, delete (chan_id h x) m !! id = Some y <-> y ∈ W1 ++ W2 /\ chan_id h y = id.
Proof.
  intros Hm Hx id y. destruct (decide (id = chan_id h x)) as [->|Hne].
  - rewrite lookup_delete_eq. split; [done|]. intros [Hin Heq].
    assert (Hyx : m !! chan_id h x = Some y) by (apply Hm; set_solver).
    assert (Hxx : m !! chan_id h x = Some x) by (apply Hm; set_solver). set_solver.
  - rewrite lookup_delete_ne by done. rewrite Hm, !elem_of_app, elem_of_cons. split; [|tauto].
    intros [[?|[->|?]] Heq]; [tauto| |tauto]. congruence.
Qed.

Lemma freeWaiting_ok p F W1 x W2 D L X :
  pool_state p F (W1 ++ x :: W2) D L X ->
  exists p', freeWaitingChannel p x = Some p' /\ pool_state p' F (W1 ++ W2) D L (x :: X).
Proof.
  intros Hi. pose proof (pi_nodup _ _ _ _ _ _ Hi) as Hn. destruct (disjoint5 _ _ _ _ _ Hn) as (D1 & D2 & D3 & D4 & D5).
  destruct (alive_in _ _ _ _ _ _ x Hi) as [c Hc]; [set_solver|]. unfold freeWaitingChannel. rewrite Hc. cbn [mbind option_bind].
  assert (HnW : NoDup (W1 ++ x :: W2)) by (apply NoDup_app in Hn as (_ & _ & Hn); by apply NoDup_app in Hn as (Hn & _)).
  destruct (unlink_links (heap p) W1 x W2 c (pi_wait _ _ _ _ _ _ Hi) HnW Hc) as (Hp & Hnx & h1 & h' & -> & E2 & HW & Hs & Hy).
  cbn [mbind option_bind]. rewrite E2. cbn [mbind option_bind]. eexists. split; [done|].
  assert (Hout : forall y, y ∈ F ++ D ++ L -> h' !! y = heap p !! y).
  { intros y Hin. apply Hy. intros Hw. apply (D2 y); set_solver. }
  assert (Hxn : x ∉ W1 ++ W2).
  { rewrite <- Permutation_middle in HnW. by apply NoDup_cons in HnW as [? _]. }
  destruct (lookup_core _ _ _ Hc) as [_ Hid].
  eapply state_relink; simpl; try exact Hi; try done; simpl.
  - apply Permutation_app_head. rewrite <- !app_assoc. apply Permutation_app_head. cbn [app].
    rewrite (app_assoc W2 L X), (app_assoc W2 L (x :: X)). apply Permutation_middle.
  - intros y Hin. apply Hout. set_solver.
  - eapply dlseg_frame; [|apply (pi_free _ _ _ _ _ _ Hi)]. intros y Hin. apply Hout. set_solver.
  - apply (pi_fhead _ _ _ _ _ _ Hi).
  - apply (pi_ftail _ _ _ _ _ _ Hi).
  - rewrite (pi_whead _ _ _ _ _ _ Hi). destruct W1 as [|w W1]; simpl.
    + by rewrite decide_True by done.
    + rewrite decide_False; [done|]. intros [= ->]. set_solver.
  - rewrite (pi_wtail _ _ _ _ _ _ Hi). destruct W2 as [|w W2 _] using rev_ind.
    + rewrite last_snoc, app_nil_r, decide_True by done. done.
    + rewrite app_comm_cons, !app_assoc, !last_snoc, decide_False; [done|]. intros [= ->]. set_solver.
  - eapply dlseg_frame; [|apply (pi_out _ _ _ _ _ _ Hi)]. intros y Hin. apply Hout. set_solver.
  - intros y Hin. apply (pi_pos _ _ _ _ _ _ Hi). set_solver.
  - eapply sorted_remove, (pi_sorted _ _ _ _ _ _ Hi).
  - rewrite <- Hid. apply map_without; [apply (pi_map _ _ _ _ _ _ Hi)|done].
  - rewrite (pi_uses _ _ _ _ _ _ Hi), !length_app. simpl. lia.
Qed.

Lemma state_loosen p F W D L X x : pool_state p F W (x :: D) L X -> pool_state p F W D L (x :: X).
Proof.
  intros [Hn Ha ? ? ? ? ? ? ? ? Hd ? ? ? ? Hu ?]. split; simpl; try done.
  - assert (HP : F ++ W ++ (x :: D) ++ L ++ X ≡ₚ F ++ W ++ D ++ L ++ x :: X); [|by rewrite <- HP].
    do 2 apply Permutation_app_head. cbn [app]. rewrite (app_assoc D L X), (app_assoc D L (x :: X)).
    apply Permutation_middle.
  - intros y. rewrite Ha. set_solver.
  - intros y Hy. apply Hd. set_solver.
  - rewrite Hu. simpl. lia.
Qed.

(** A channel on no list has nothing to unlink, and its id is not mapped. *)
Lemma freeWaiting_detached p F W D L X x c :
  pool_state p F W (x :: D) L X -> heap p !! x = Some c -> _waitReplyMap p !! _id c = None ->
  freeWaitingChannel p x = Some p.
Proof.
  intros Hi Hc Hm. destruct (disjoint5 _ _ _ _ _ (pi_nodup _ _ _ _ _ _ Hi)) as (D1 & D2 & D3 & D4 & D5).
  destruct (pi_det _ _ _ _ _ _ Hi x ltac:(set_solver)) as (c' & Hc' & Hp & Hnx). simplify_eq.
  unfold freeWaitingChannel. rewrite Hc. cbn [mbind option_bind]. rewrite Hp, Hnx. cbn.
  rewrite delete_id by done.
  assert (HxW : x ∉ W) by (intros Hx; apply (D3 x); set_solver).
  rewrite decide_False by (rewrite (pi_whead _ _ _ _ _ _ Hi); intros E; symmetry in E; apply head_Some_elem_of in E; done).
  rewrite decide_False by (rewrite (pi_wtail _ _ _ _ _ _ Hi); intros E; symmetry in E; apply last_Some_elem_of in E; done).
  by destruct p.
Qed.

Lemma recycle_ok p F W D L X x :
  pool_state p F W D L (x :: X) ->
  exists p', recycleChannel p x = Some p' /\ pool_state (subUseCountByOne p') (F ++ [x]) W D L X.
Proof.
  intros Hi. pose proof (pi_nodup _ _ _ _ _ _ Hi) as Hn. destruct (disjoint5 _ _ _ _ _ Hn) as (D1 & D2 & D3 & D4 & D5).
  destruct (recycle_links (heap p) F x (pi_free _ _ _ _ _ _ Hi)) as (h' & h2 & E1 & E2 & HF & Hs & Hy);
    [intros Hx; apply (D1 x Hx); set_solver|by apply NoDup_app in Hn as (? & _)|
     apply (alive_in _ _ _ _ _ _ x Hi); set_solver|].
  unfold recycleChannel. rewrite (pi_ftail _ _ _ _ _ _ Hi), E1. cbn [mbind option_bind].
  assert (Hstep : exists hd, (match last F with
     | None => Some (h2, Some x)
     | Some t => h ← upd h2 t (with_next (Some x)); Some (h, _freeListHead p)
     end) = Some (h', hd) /\ hd = head (F ++ [x])).
  { rewrite (pi_fhead _ _ _ _ _ _ Hi). destruct F as [|f F _] using rev_ind; [simpl in *; subst; eauto|].
    rewrite last_snoc in E2 |- *. rewrite E2. cbn. eexists. split; [done|]. by destruct F. }
  destruct Hstep as (hd & -> & ->). cbn [mbind option_bind]. eexists. split; [done|].
  assert (Hout : forall y, y ∈ W ++ D ++ L -> h' !! y = heap p !! y).
  { intros y Hin. apply Hy. intros [->|Hf]%elem_of_cons; [apply (D5 x); set_solver|apply (D1 y Hf); set_solver]. }
  eapply state_relink; simpl; try exact Hi; try done; simpl.
  - rewrite <- !app_assoc. apply Permutation_app_head. cbn [app].
    rewrite (app_assoc W L X), (app_assoc W L (x :: X)). symmetry. apply Permutation_middle.
  - intros y Hin. apply Hout. set_solver.
  - by rewrite last_snoc.
  - eapply dlseg_frame; [|apply (pi_wait _ _ _ _ _ _ Hi)]. intros y Hin. apply Hout. set_solver.
  - apply (pi_whead _ _ _ _ _ _ Hi).
  - apply (pi_wtail _ _ _ _ _ _ Hi).
  - eapply dlseg_frame; [|apply (pi_out _ _ _ _ _ _ Hi)]. intros y Hin. apply Hout. set_solver.
  - apply (pi_pos _ _ _ _ _ _ Hi).
  - apply (pi_sorted _ _ _ _ _ _ Hi).
  - apply (pi_map _ _ _ _ _ _ Hi).
  - pose proof (pool_count _ _ _ _ _ _ Hi). pose proof (pi_bound _ _ _ _ _ _ Hi).
    rewrite (pi_uses _ _ _ _ _ _ Hi) in *. simpl in *. rewrite i32_small by (unfold INT_MIN, INT_MAX; lia). lia.
Qed.

(** [freeChannel] of a waiting channel, and of one that never waited. *)
Lemma freeChannel_waiting p F W1 x W2 D L X :
  pool_state p F (W1 ++ x :: W2) D L X ->
  exists p', freeChannel p (Some x) = Some (true, p') /\ pool_state p' (F ++ [x]) (W1 ++ W2) D L X.
Proof.
  intros Hi. destruct (alive_in _ _ _ _ _ _ x Hi) as [c Hc]; [set_solver|]. unfold freeChannel. rewrite Hc.
  cbn [mbind option_bind]. pose proof (pi_pos _ _ _ _ _ _ Hi x ltac:(set_solver)) as Hpos.
  destruct (lookup_core _ _ _ Hc) as [He _]. rewrite He in Hpos. rewrite (proj2 (Z.ltb_lt _ _)) by done.
  destruct (freeWaiting_ok _ _ _ _ _ _ _ _ Hi) as (p1 & -> & Hi1). cbn [mbind option_bind].
  destruct (recycle_ok _ _ _ _ _ _ _ Hi1) as (p2 & -> & Hi2). cbn [mbind option_bind]. eauto.
Qed.

Lemma freeChannel_detached p F W x D L X :
  pool_state p F W (x :: D) L X ->
  (0 < expire (heap p) x -> _waitReplyMap p !! chan_id (heap p) x = None) ->
  exists p', freeChannel p (Some x) = Some (true, p') /\ pool_state p' (F ++ [x]) W D L X.
Proof.
  intros Hi Hm. destruct (alive_in _ _ _ _ _ _ x Hi) as [c Hc]; [set_solver|]. unfold freeChannel. rewrite Hc.
  cbn [mbind option_bind]. destruct (lookup_core _ _ _ Hc) as [He Hid]. rewrite He, Hid in Hm.
  assert (E : (if 0 <? _expireTime c then freeWaitingChannel p x else Some p) = Some p).
  { case_bool; [|done]. eapply freeWaiting_detached; eauto. }
  rewrite E. cbn [mbind option_bind]. apply state_loosen in Hi.
  destruct (recycle_ok _ _ _ _ _ _ _ Hi) as (p2 & -> & Hi2). cbn [mbind option_bind]. eauto.
Qed.

(** *** Waiting *)

Lemma insert_links h W1 W2 x :
  dlseg h None (W1 ++ W2) None -> NoDup (x :: W1 ++ W2) -> is_Some (h !! x) ->
  exists h1 h2 h', upd h x (fun c => with_next (head W2) (with_prev (last W1) c)) = Some h1 /\
    upd_opt h1 (last W1) (with_next (Some x)) = Some h2 /\ upd_opt h2 (head W2) (with_prev (Some x)) = Some h' /\
    dlseg h' None (W1 ++ x :: W2) None /\ same_core h h' /\ (forall y, y ∉ x :: W1 ++ W2 -> h' !! y = h !! y).
Proof.
  intros [H1 H2]%dlseg_app [Hx Hn]%NoDup_cons Ha. rewrite last_or_last in H2. rewrite hd_or_head in H1.
  destruct (upd_ok h x (fun c => with_next (head W2) (with_prev (last W1) c)) Ha) as (c & h1 & Hc & Hu & Hx1 & Hy1).
  apply NoDup_app in Hn as (Hn1 & Hd & Hn2).
  assert (HW1 : dlseg h1 None W1 (head W2)) by (eapply upd_frame; [exact Hu|set_solver|done]).
  assert (HW2 : dlseg h1 (last W1) W2 None) by (eapply upd_frame; [exact Hu|set_solver|done]).
  destruct (upd_last h1 None W1 _ (Some x) HW1 Hn1 eq_refl) as (h2 & Hu2 & Hd2 & Hs2 & Hy2).
  assert (HW2' : dlseg h2 (last W1) W2 None).
  { eapply dlseg_frame; [|exact HW2]. intros y Hy. apply Hy2. intros Hin. by apply (Hd y Hin). }
  destruct (upd_first h2 _ W2 None (Some x) HW2' Hn2 eq_refl) as (h' & Hu3 & Hd3 & Hs3 & Hy3).
  rewrite last_or_last in Hu2. rewrite hd_or_head in Hu3. exists h1, h2, h'.
  split; [done|]. split; [done|]. split; [done|]. split; [|split].
  - apply dlseg_app. rewrite last_or_last. split.
    + eapply dlseg_frame; [|exact Hd2]. intros y Hy. apply Hy3. intros Hin. by apply (Hd y Hy).
    + split; [|done]. exists (with_next (head W2) (with_prev (last W1) c)).
      rewrite Hy3, Hy2 by set_solver. split; [done|]. split; [done|]. by destruct W2.
  - eapply same_core_trans; [by eapply upd_same_core|]. by eapply same_core_trans.
  - intros y Hy. rewrite Hy3, Hy2, Hy1; set_solver.
Qed.

(** Where a channel that expires at [e] goes. *)
Definition splits (h : cheap) (e : Z) (W1 W2 : list ptr) : Prop :=
  (forall y, y ∈ W1 -> expire h y <= e) /\ (forall y, y ∈ W2 -> e < expire h y).

Lemma sorted_inv h x W : sorted h (x :: W) -> sorted h W /\ (forall y, y ∈ W -> expire h x <= expire h y).
Proof. intros Hs. inversion Hs as [|? ? Hs' Hf]; subst. split; [done|]. by apply Forall_forall. Qed.

Lemma pool_insert_loop_ok fuel h e q W :
  dlseg h q W None -> sorted h W -> (length W <= fuel)%nat ->
  exists W1 W2, W = W1 ++ W2 /\ splits h e W1 W2 /\ insert_loop fuel h e (head W) = Some (head W2).
Proof.
  revert fuel q; induction W as [|x W IH]; intros fuel q Hl Hs Hf.
  { exists [], []. split; [done|]. split; [split; set_solver|by destruct fuel]. }
  destruct Hl as [(c & Hc & _ & Hnx) Hl]. apply sorted_inv in Hs as [Hs Hle].
  destruct (lookup_core _ _ _ Hc) as [He _].
  assert (Hstep : insert_loop fuel h e (head (x :: W)) =
    if e <? _expireTime c then Some (Some x) else match fuel with O => None | S fuel => insert_loop fuel h e (head W) end).
  { change (match W with [] => None | y :: _ => Some y end) with (hd_or W None) in Hnx. rewrite hd_or_head in Hnx.
    rewrite <- Hnx. destruct fuel; simpl; rewrite Hc; done. }
  rewrite Hstep. case_bool.
  - exists [], (x :: W). split; [done|]. split; [|done]. split; [set_solver|].
    intros y [->|Hy]%elem_of_cons; [lia|]. specialize (Hle y Hy). lia.
  - destruct fuel as [|fuel]; [simpl in Hf; lia|].
    destruct (IH fuel (Some x) Hl Hs) as (W1 & W2 & -> & [HW1 HW2] & E); [simpl in Hf; lia|].
    exists (x :: W1), W2. split; [done|]. split; [|done]. split; [|done].
    intros y [->|Hy]%elem_of_cons; [lia|by apply HW1].
Qed.

Lemma sorted_app_iff h W1 W2 :
  sorted h (W1 ++ W2) <-> sorted h W1 /\ sorted h W2 /\ (forall a b, a ∈ W1 -> b ∈ W2 -> expire h a <= expire h b).
Proof.
  unfold sorted. induction W1 as [|x W1 IH]; simpl.
  - split; [intros ?; split_and!; [constructor|done|set_solver]|tauto].
  - split.
    + intros Hs. inversion Hs as [|? ? Hs' Hf]; subst. apply IH in Hs' as (H1 & H2 & H3).
      apply Forall_app in Hf as [Hf1 Hf2]. split_and!; [by constructor|done|].
      intros a b [->|Ha]%elem_of_cons Hb; [by eapply Forall_forall in Hf2|by apply H3].
    + intros (Hs & H2 & H3). inversion Hs as [|? ? Hs' Hf]; subst. constructor.
      * apply IH. split_and!; [done..|]. intros; apply H3; set_solver.
      * apply Forall_app. split; [done|]. apply Forall_forall. intros y Hy. apply H3; set_solver.
Qed.

Lemma sorted_insert h W1 W2 x :
  sorted h (W1 ++ W2) -> splits h (expire h x) W1 W2 -> sorted h (W1 ++ x :: W2).
Proof.
  intros (S1 & S2 & S12)%sorted_app_iff [H1 H2]. apply sorted_app_iff. split_and!; [done| |].
  - constructor; [done|]. apply Forall_forall. intros y Hy. specialize (H2 y Hy). lia.
  - intros a b Ha [->|Hb]%elem_of_cons; [by apply H1|by apply S12].
Qed.

Lemma map_with h (m : gmap Z ptr) W1 x W2 :
  (forall id y, m !! id = Some y <-> y ∈ W1 ++ W2 /\ chan_id h y = id) -> m !! chan_id h x = None ->
  forall id y, <[chan_id h x := x]> m !! id = Some y <-> y ∈ W1 ++ x :: W2 /\ chan_id h y = id.
Proof.
  intros Hm Hx id y. destruct (decide (id = chan_id h x)) as [->|Hne].
  - rewrite lookup_insert_eq. split; [intros [= <-]; set_solver|]. intros [Hin Heq].
    apply elem_of_app in Hin as [Hin|[->|Hin]%elem_of_cons]; [|done|];
      (assert (Hy : m !! chan_id h x = Some y) by (apply Hm; set_solver); congruence).
  - rewrite lookup_insert_ne by done. rewrite Hm, !elem_of_app, elem_of_cons. split; [tauto|].
    intros [[?|[->|?]] Heq]; [tauto| |tauto]. congruence.
Qed.

(** The state once [x] is linked between [W1] and [W2]. *)
Lemma wait_state p F W1 W2 D L X x h' hd tl :
  pool_state p F (W1 ++ W2) (x :: D) L X -> 0 < expire (heap p) x -> splits (heap p) (expire (heap p) x) W1 W2 ->
  _waitReplyMap p !! chan_id (heap p) x = None ->
  dlseg h' None (W1 ++ x :: W2) None -> same_core (heap p) h' -> (forall y, y ∉ x :: W1 ++ W2 -> h' !! y = heap p !! y) ->
  hd = head (W1 ++ x :: W2) -> tl = last (W1 ++ x :: W2) ->
  pool_state (mkPool h' (<[chan_id (heap p) x := x]> (_waitReplyMap p)) (_clusterList p) (_freeListHead p)
                     (_freeListTail p) hd tl (_useCount p)) F (W1 ++ x :: W2) D L X.
Proof.
  intros Hi Hpos Hsp Hm HW Hs Hy -> ->. apply state_loosen in Hi.
  destruct (disjoint5 _ _ _ _ _ (pi_nodup _ _ _ _ _ _ Hi)) as (D1 & D2 & D3 & D4 & D5).
  assert (Hout : forall y, y ∈ F ++ D ++ L -> h' !! y = heap p !! y).
  { intros y Hin. apply Hy. intros [->|Hw]%elem_of_cons; [apply (D5 x); set_solver|apply (D2 y Hw); set_solver]. }
  eapply state_relink; simpl; try exact Hi; try done; simpl.
  - apply Permutation_app_head. rewrite <- !app_assoc. apply Permutation_app_head. cbn [app].
    rewrite (app_assoc W2 L X), (app_assoc W2 L (x :: X)). symmetry. apply Permutation_middle.
  - intros y Hin. apply Hout. set_solver.
  - eapply dlseg_frame; [|apply (pi_free _ _ _ _ _ _ Hi)]. intros y Hin. apply Hout. set_solver.
  - apply (pi_fhead _ _ _ _ _ _ Hi).
  - apply (pi_ftail _ _ _ _ _ _ Hi).
  - eapply dlseg_frame; [|apply (pi_out _ _ _ _ _ _ Hi)]. intros y Hin. apply Hout. set_solver.
  - intros y Hin. destruct (decide (y = x)) as [->|Hne]; [done|]. apply (pi_pos _ _ _ _ _ _ Hi). set_solver.
  - apply sorted_insert; [apply (pi_sorted _ _ _ _ _ _ Hi)|done].
  - apply map_with; [apply (pi_map _ _ _ _ _ _ Hi)|done].
  - rewrite (pi_uses _ _ _ _ _ _ Hi), !length_app. simpl. lia.
Qed.

Lemma addToWaiting_ok p F W D L X x :
  pool_state p F W (x :: D) L X -> 0 < expire (heap p) x -> _waitReplyMap p !! chan_id (heap p) x = None ->
  exists p' W1 W2, addToWaitingList p x = Some p' /\ W = W1 ++ W2 /\ splits (heap p) (expire (heap p) x) W1 W2 /\
    pool_state p' F (W1 ++ x :: W2) D L X /\ same_core (heap p) (heap p') /\
    _waitReplyMap p' = <[chan_id (heap p) x := x]> (_waitReplyMap p).
Proof.
  intros Hi Hpos Hm. destruct (alive_in _ _ _ _ _ _ x Hi) as [c Hc]; [set_solver|].
  destruct (lookup_core _ _ _ Hc) as [He Hid]. pose proof (pi_wait _ _ _ _ _ _ Hi) as HW.
  pose proof (pi_sorted _ _ _ _ _ _ Hi) as HS. pose proof (pi_nodup _ _ _ _ _ _ Hi) as Hn.
  assert (HnW : NoDup (x :: W)).
  { destruct (disjoint5 _ _ _ _ _ Hn) as (_ & _ & D3 & _). apply NoDup_app in Hn as (_ & _ & Hn).
    apply NoDup_app in Hn as (Hn & _). constructor; [|done]. intros Hx. apply (D3 x); set_solver. }
  assert (Ha : is_Some (heap p !! x)) by eauto.
  (* linking after the position is known *)
  assert (Hgo : forall W1 W2, W = W1 ++ W2 -> splits (heap p) (expire (heap p) x) W1 W2 ->
    exists h1 h2 h', upd (heap p) x (fun c => with_next (head W2) (with_prev (last W1) c)) = Some h1 /\
      upd_opt h1 (last W1) (with_next (Some x)) = Some h2 /\ upd_opt h2 (head W2) (with_prev (Some x)) = Some h' /\
      forall hd tl, hd = head (W1 ++ x :: W2) -> tl = last (W1 ++ x :: W2) ->
        exists p' W1 W2, Some (mkPool h' (<[_id c := x]> (_waitReplyMap p)) (_clusterList p) (_freeListHead p)
           (_freeListTail p) hd tl (_useCount p)) = Some p' /\ W = W1 ++ W2 /\ splits (heap p) (expire (heap p) x) W1 W2 /\
           pool_state p' F (W1 ++ x :: W2) D L X /\ same_core (heap p) (heap p') /\
           _waitReplyMap p' = <[chan_id (heap p) x := x]> (_waitReplyMap p)).
  { intros W1 W2 -> Hsp. destruct (insert_links (heap p) W1 W2 x HW HnW Ha) as (h1 & h2 & h' & E1 & E2 & E3 & Hd & Hs & Hy).
    exists h1, h2, h'. split; [done|]. split; [done|]. split; [done|]. intros hd tl Eh Et. rewrite <- Hid.
    eexists _, W1, W2. split; [done|]. split; [done|]. split; [done|]. split; [by apply wait_state|]. split; [done|]. done. }
  unfold addToWaitingList. rewrite Hc. cbn [mbind option_bind]. rewrite He in Hpos. rewrite (proj2 (Z.eqb_neq _ _)) by lia.
  rewrite (pi_whead _ _ _ _ _ _ Hi), (pi_wtail _ _ _ _ _ _ Hi). destruct W as [|w W]; cbn [head].
  - destruct (Hgo [] [] eq_refl) as (h1 & h2 & h' & E1 & [= <-] & [= <-] & Hfin); [split; set_solver|].
    cbn [head last] in E1. rewrite E1. cbn [mbind option_bind]. by apply Hfin.
  - destruct HW as [(cw & Hcw & _ & Hnx) HW]. rewrite Hcw. cbn [mbind option_bind].
    destruct (lookup_core _ _ _ Hcw) as [Hew _]. apply sorted_inv in HS as [HS Hle]. case_bool.
    + destruct (Hgo [] (w :: W) eq_refl) as (h1 & h2 & h' & E1 & [= <-] & E3 & Hfin).
      { split; [set_solver|]. intros y [->|Hy]%elem_of_cons; [lia|]. specialize (Hle y Hy). lia. }
      cbn [head last upd_opt] in E1, E3. rewrite E1. cbn [mbind option_bind]. rewrite E3. cbn [mbind option_bind].
      apply Hfin; [done|]. cbn [app]. by destruct W.
    + change (match W with [] => None | y :: _ => Some y end) with (hd_or W None) in Hnx. rewrite hd_or_head in Hnx.
      assert (Hlen : (length W <= S (size (heap p)))%nat).
      { apply NoDup_cons in HnW as [_ [_ HnW]%NoDup_cons]. pose proof (dlseg_length _ _ _ _ HW HnW). lia. }
      destruct (pool_insert_loop_ok _ _ (_expireTime c) _ W HW HS Hlen) as (W1 & W2 & -> & Hsp & E). rewrite Hnx, E.
      cbn [mbind option_bind]. destruct (Hgo (w :: W1) W2 eq_refl) as (h1 & h2 & h' & E1 & E2 & E3 & Hfin).
      { rewrite He. destruct Hsp as [Hs1 Hs2]. split; [|done]. intros y [->|Hy]%elem_of_cons; [lia|by apply Hs1]. }
      destruct W2 as [|n W2]; cbn [head].
      * rewrite app_nil_r in *. cbn [head] in E1, E3. simpl in E3. injection E3 as <-. rewrite E1. cbn [mbind option_bind].
        destruct (last (w :: W1)) as [t|] eqn:El; [|by apply last_None in El]. cbn [upd_opt] in E2.
        cbn [mbind option_bind]. rewrite E2. cbn [mbind option_bind]. apply Hfin; [done|by rewrite last_snoc].
      * cbn [head upd_opt] in E1, E3. apply dlseg_app in HW as [_ [(cn & Hcn & Hpn & _) _]]. rewrite Hcn.
        cbn [mbind option_bind]. rewrite <- last_or_cons with (p := None) in Hpn. rewrite last_or_last in Hpn.
        rewrite Hpn, E1. cbn [mbind option_bind].
        destruct (last (w :: W1)) as [t|] eqn:El; [|by apply last_None in El]. cbn [upd_opt] in E2.
        cbn [mbind option_bind]. rewrite E2. cbn [mbind option_bind]. rewrite E3. cbn [mbind option_bind].
        apply Hfin; [done|]. rewrite app_comm_cons, !last_app_cons. by destruct W2.
Qed.

(** *** Timeouts *)

Lemma pool_timeout_loop_ok fuel h now W (q : option ptr) (m : gmap Z ptr) u :
  dlseg h q W None -> sorted h W -> NoDup W -> (forall x, x ∈ W -> 0 < expire h x) -> (length W <= fuel)%nat ->
  (forall id y, m !! id = Some y <-> y ∈ W /\ chan_id h y = id) ->
  Z.of_nat (length W) <= u < 2 ^ 31 ->
  exists W1 W2 m', W = W1 ++ W2 /\ (forall y, y ∈ W1 -> expire h y < now) /\ (forall y, y ∈ W2 -> now <= expire h y) /\
    timeout_loop fuel h now (head W) m u = Some (head W2, m', u - Z.of_nat (length W1)) /\
    (forall id y, m' !! id = Some y <-> y ∈ W2 /\ chan_id h y = id).
Proof.
  revert fuel q m u; induction W as [|x W IH]; intros fuel q m u Hl Hs Hn Hpos Hf Hm Hu.
  { exists [], [], m. split; [done|]. split; [set_solver|]. split; [set_solver|]. split; [|done].
    destruct fuel; simpl; by rewrite Z.sub_0_r. }
  destruct Hl as [(c & Hc & _ & Hnx) Hl]. apply sorted_inv in Hs as [Hs Hle].
  destruct (lookup_core _ _ _ Hc) as [He Hid]. pose proof (Hpos x ltac:(set_solver)) as Hx. rewrite He in Hx.
  change (match W with [] => None | y :: _ => Some y end) with (hd_or W None) in Hnx. rewrite hd_or_head in Hnx.
  assert (Hstep : timeout_loop fuel h now (head (x :: W)) m u =
    if now <=? _expireTime c then Some (Some x, m, u)
    else match fuel with O => None | S fuel => timeout_loop fuel h now (head W) (delete (_id c) m) (i32 (u - 1)) end).
  { destruct fuel; cbn [timeout_loop head]; rewrite Hc; cbn [mbind option_bind];
      rewrite (proj2 (Z.eqb_neq _ _)), ?Hnx by lia; done. }
  rewrite Hstep. apply NoDup_cons in Hn as [Hxn Hn]. case_bool.
  - exists [], (x :: W), m. split; [done|]. split; [set_solver|]. split.
    { intros y [->|Hy]%elem_of_cons; [lia|]. specialize (Hle y Hy). lia. }
    split; [by rewrite Z.sub_0_r|done].
  - destruct fuel as [|fuel]; [simpl in Hf; lia|]. cbn [length] in Hf, Hu.
    rewrite i32_small by (unfold INT_MIN, INT_MAX; lia). rewrite <- Hid.
    destruct (IH fuel (Some x) (delete (chan_id h x) m) (u - 1)) as (W1 & W2 & m' & -> & H1 & H2 & E & Hm');
      [done..|intros; apply Hpos; set_solver|lia|by apply (map_without h m [] x W)|lia|].
    exists (x :: W1), W2, m'. split; [done|]. split; [intros y [->|Hy]%elem_of_cons; [lia|by apply H1]|].
    split; [done|]. split; [|done]. rewrite E. cbn [length]. do 2 f_equal. lia.
Qed.

(** Cutting the waiting list in two. *)
Lemma cut_links h W1 x W2 c :
  dlseg h None (W1 ++ x :: W2) None -> NoDup (W1 ++ x :: W2) -> W1 <> [] -> h !! x = Some c ->
  exists t h1 h', _prev c = Some t /\ upd h t (with_next None) = Some h1 /\ upd h1 x (with_prev None) = Some h' /\
    dlseg h' None W1 None /\ dlseg h' None (x :: W2) None /\ same_core h h' /\
    (forall y, y ∉ W1 ++ x :: W2 -> h' !! y = h !! y).
Proof.
  intros [H1 H2]%dlseg_app Hn Hne Hc. pose proof H2 as [(c' & Hc' & Hp & _) _]. simplify_eq.
  destruct (exists_last Hne) as (W1' & t & ->). rewrite last_or_snoc in Hp, H2. exists t.
  apply NoDup_app in Hn as (Hn1 & Hd & Hn2).
  destruct (upd_ok h t (with_next None)) as (ct & h1 & Hct & Hu1 & _ & Hy1); [eapply dlseg_alive; [exact H1|set_solver]|].
  assert (H1' : dlseg h1 None (W1' ++ [t]) None) by (by eapply dlseg_set_next).
  assert (H2' : dlseg h1 (Some t) (x :: W2) None).
  { eapply upd_frame; [exact Hu1| |exact H2]. apply Hd. set_solver. }
  destruct (upd_ok h1 x (with_prev None)) as (cx & h' & Hcx & Hu2 & _ & Hy2); [eapply dlseg_alive; [exact H2'|set_solver]|].
  exists h1, h'. split; [done|]. split; [done|]. split; [done|]. split; [|split; [|split]].
  - eapply upd_frame; [exact Hu2| |exact H1']. intros Hx. apply (Hd x Hx). set_solver.
  - by eapply dlseg_set_prev.
  - eapply same_core_trans; eapply upd_same_core; done.
  - intros y Hy. rewrite Hy2, Hy1; set_solver.
Qed.

(** The state once the expired channels [W1] are cut off. *)
Lemma timeout_state p F W1 W2 D X h' m' hd tl :
  pool_state p F (W1 ++ W2) D [] X ->
  same_core (heap p) h' -> (forall y, y ∉ W1 ++ W2 -> h' !! y = heap p !! y) ->
  dlseg h' None W1 None -> dlseg h' None W2 None -> hd = head W2 -> tl = last W2 ->
  (forall id y, m' !! id = Some y <-> y ∈ W2 /\ chan_id (heap p) y = id) ->
  pool_state (mkPool h' m' (_clusterList p) (_freeListHead p) (_freeListTail p) hd tl
                     (_useCount p - Z.of_nat (length W1))) F W2 D W1 X.
Proof.
  intros Hi Hs Hy H1 H2 -> -> Hm.
  destruct (disjoint5 _ _ _ _ _ (pi_nodup _ _ _ _ _ _ Hi)) as (D1 & D2 & D3 & D4 & D5).
  assert (Hout : forall y, y ∈ F ++ D -> h' !! y = heap p !! y).
  { intros y Hin. apply Hy. intros Hw. apply (D2 y Hw). set_solver. }
  eapply state_relink; simpl; try exact Hi; try done; simpl.
  - apply Permutation_app_head. rewrite (Permutation_app_comm W1 W2). by rewrite <- app_assoc.
  - intros y Hin. apply Hout. set_solver.
  - eapply dlseg_frame; [|apply (pi_free _ _ _ _ _ _ Hi)]. intros y Hin. apply Hout. set_solver.
  - apply (pi_fhead _ _ _ _ _ _ Hi).
  - apply (pi_ftail _ _ _ _ _ _ Hi).
  - intros y Hin. apply (pi_pos _ _ _ _ _ _ Hi). set_solver.
  - pose proof (pi_sorted _ _ _ _ _ _ Hi) as HS. by apply sorted_app_iff in HS as (_ & ? & _).
  - rewrite (pi_uses _ _ _ _ _ _ Hi), !length_app. lia.
Qed.

Lemma pool_getTimeoutList_ok p F W D now :
  pool_inv p F W D ->
  exists p' W1 W2, W = W1 ++ W2 /\ (forall y, y ∈ W1 -> expire (heap p) y < now) /\
    (forall y, y ∈ W2 -> now <= expire (heap p) y) /\
    getTimeoutList p now = Some (head W1, p') /\ pool_state p' F W2 D W1 [] /\ same_core (heap p) (heap p').
Proof.
  intros Hi. pose proof (pi_nodup _ _ _ _ _ _ Hi) as Hn.
  assert (HnW : NoDup W) by (apply NoDup_app in Hn as (_ & _ & Hn); by apply NoDup_app in Hn as (Hn & _)).
  pose proof (pi_wait _ _ _ _ _ _ Hi) as HW. unfold getTimeoutList. rewrite (pi_whead _ _ _ _ _ _ Hi).
  destruct W as [|w W]; cbn [head].
  { exists p, [], []. split; [done|]. split; [set_solver|]. split; [set_solver|]. split; [done|]. done. }
  pose proof (dlseg_length _ _ _ _ HW HnW) as Hlen. pose proof (pool_count _ _ _ _ _ _ Hi) as Hcnt.
  pose proof (pi_bound _ _ _ _ _ _ Hi) as Hbd.
  destruct (pool_timeout_loop_ok (S (size (heap p))) (heap p) now (w :: W) None (_waitReplyMap p) (_useCount p))
    as (W1 & W2 & m' & E & H1 & H2 & Et & Hm);
    [done|apply (pi_sorted _ _ _ _ _ _ Hi)|done|apply (pi_pos _ _ _ _ _ _ Hi)|lia|apply (pi_map _ _ _ _ _ _ Hi)|
     rewrite (pi_uses _ _ _ _ _ _ Hi); simpl in *; lia|].
  change (Some w) with (head (w :: W)). rewrite Et. cbn [mbind option_bind]. rewrite E in *.
  destruct W1 as [|w1 W1].
  { rewrite decide_True by done. eexists _, [], W2. split; [done|]. split; [set_solver|]. split; [done|].
    split; [done|]. split; [|done]. apply (timeout_state p F [] W2 D []); try done;
      [by rewrite (pi_wtail _ _ _ _ _ _ Hi)]. }
  cbn [app] in E. injection E as <- ->. cbn [app head].
  destruct W2 as [|x W2]; cbn [head].
  { rewrite decide_False by done. eexists _, (w :: W1), []. split; [done|]. split; [done|]. split; [set_solver|].
    split; [done|]. split; [|done]. rewrite app_nil_r in HW. by apply (timeout_state p F (w :: W1) [] D []). }
  rewrite decide_False.
  2: { intros [= ->]. apply NoDup_cons in HnW as [HnW _]. set_solver. }
  destruct (alive_in _ _ _ _ _ _ x Hi) as [c Hc]; [set_solver|]. rewrite Hc. cbn [mbind option_bind].
  destruct (cut_links (heap p) (w :: W1) x W2 c HW HnW) as (t & h1 & h' & Ep & E1 & E2 & HL & HR & Hs & Hy); [done..|].
  rewrite Ep. cbn [mbind option_bind]. rewrite E1. cbn [mbind option_bind]. rewrite E2. cbn [mbind option_bind].
  eexists _, (w :: W1), (x :: W2). split; [done|]. split; [done|]. split; [done|]. split; [done|]. split; [|done].
  apply (timeout_state p F (w :: W1) (x :: W2) D []); try done.
  rewrite (pi_wtail _ _ _ _ _ _ Hi). apply (last_app_cons (w :: W1)).
Qed.

Lemma find_tail_ok fuel h (q : option ptr) x l :
  dlseg h q (x :: l) None -> (length l <= fuel)%nat -> find_tail fuel h x = last (x :: l).
Proof.
  revert fuel q x; induction l as [|y l IH]; intros fuel q x [(c & Hc & _ & Hnx) Hl] Hf.
  - destruct fuel; simpl; rewrite Hc; simpl; by rewrite Hnx.
  - destruct fuel as [|fuel]; [simpl in Hf; lia|]. cbn [find_tail]. rewrite Hc. cbn [mbind option_bind]. rewrite Hnx.
    change (last (x :: y :: l)) with (last (y :: l)). eapply IH; [exact Hl|simpl in Hf; lia].
Qed.

Lemma appendFreeList_ok p F W D L X :
  pool_state p F W D L X ->
  exists p', appendFreeList p (head L) = Some (true, p') /\ pool_state p' (F ++ L) W D [] X /\
    same_core (heap p) (heap p') /\ _waitReplyMap p' = _waitReplyMap p.
Proof.
  intros Hi. pose proof (pi_nodup _ _ _ _ _ _ Hi) as Hn. destruct (disjoint5 _ _ _ _ _ Hn) as (D1 & D2 & D3 & D4 & D5).
  destruct L as [|x L]; cbn [head appendFreeList].
  { exists p. split; [done|]. split; [by rewrite app_nil_r|done]. }
  assert (HnF : NoDup F) by (by apply NoDup_app in Hn as (? & _)).
  assert (HnL : NoDup (x :: L)).
  { do 3 (apply NoDup_app in Hn as (_ & _ & Hn)). by apply NoDup_app in Hn as (? & _). }
  pose proof (pi_out _ _ _ _ _ _ Hi) as HL. pose proof (dlseg_length _ _ _ _ HL HnL) as Hlen.
  rewrite (find_tail_ok _ _ None x L HL) by (simpl in Hlen; lia).
  destruct (last (x :: L)) as [tl|] eqn:Etl; [|by apply last_None in Etl]. cbn [mbind option_bind].
  destruct (upd_first (heap p) None (x :: L) None (last F) HL HnL eq_refl) as (h1 & E1 & HL1 & Hs1 & Hy1).
  cbn [hd_or upd_opt] in E1. rewrite (pi_ftail _ _ _ _ _ _ Hi), E1. cbn [mbind option_bind].
  assert (HF1 : dlseg h1 None F None).
  { eapply dlseg_frame; [|apply (pi_free _ _ _ _ _ _ Hi)]. intros y Hy. apply Hy1. intros Hx. apply (D1 y Hy). set_solver. }
  destruct (upd_last h1 None F None (Some x) HF1 HnF eq_refl) as (h' & E2 & HF' & Hs2 & Hy2). rewrite last_or_last in E2.
  assert (Hstep : exists hd, (match last F with
     | None => Some (h1, Some x)
     | Some t => h ← upd h1 t (with_next (Some x)); Some (h, _freeListHead p)
     end) = Some (h', hd) /\ hd = head (F ++ x :: L)).
  { rewrite (pi_fhead _ _ _ _ _ _ Hi). destruct F as [|f F _] using rev_ind; [simpl in *; simplify_eq; eauto|].
    rewrite last_snoc in E2 |- *. simpl in E2. rewrite E2. cbn. eexists. split; [done|]. by destruct F. }
  destruct Hstep as (hd & -> & ->). cbn [mbind option_bind]. eexists. split; [done|].
  assert (Hs : same_core (heap p) h') by (by eapply same_core_trans). split; [|done].
  assert (Hout : forall y, y ∈ W ++ D -> h' !! y = heap p !! y).
  { intros y Hin. rewrite Hy2, Hy1; [done|intros Hx; apply (D4 y Hx); set_solver|intros Hx; apply (D1 y Hx); set_solver]. }
  eapply state_relink; simpl; try exact Hi; try done; simpl.
  - rewrite <- !app_assoc. apply Permutation_app_head, (Permutation_app_swap_app W (x :: L) X).
  - intros y Hin. apply Hout. set_solver.
  - apply dlseg_app. split; [done|]. rewrite last_or_last. eapply dlseg_frame; [|exact HL1].
    intros y Hy. apply Hy2. intros Hf. apply (D1 y Hf). set_solver.
  - rewrite last_app_cons. by rewrite Etl.
  - eapply dlseg_frame; [|apply (pi_wait _ _ _ _ _ _ Hi)]. intros y Hin. apply Hout. set_solver.
  - apply (pi_whead _ _ _ _ _ _ Hi).
  - apply (pi_wtail _ _ _ _ _ _ Hi).
  - apply (pi_pos _ _ _ _ _ _ Hi).
  - apply (pi_sorted _ _ _ _ _ _ Hi).
  - apply (pi_map _ _ _ _ _ _ Hi).
  - apply (pi_uses _ _ _ _ _ _ Hi).
Qed.

(** *** Allocation *)

Lemma cluster_ptr_inj k i j : cluster_ptr k i = cluster_ptr k j -> i = j.
Proof. unfold cluster_ptr. lia. Qed.

Lemma cluster_lookup k (l : list nat) h y :
  foldr (fun i h => <[cluster_ptr k i := Channel_new]> h) h l !! y =
  if decide (y ∈ cluster_ptr k <$> l) then Some Channel_new else h !! y.
Proof.
  induction l as [|i l IH]; cbn [foldr fmap list_fmap]; [by rewrite decide_False by set_solver|].
  destruct (decide (y = cluster_ptr k i)) as [->|Hne].
  - rewrite lookup_insert_eq, decide_True by set_solver. done.
  - rewrite lookup_insert_ne, IH by done. apply decide_ext. set_solver.
Qed.

Lemma cluster_elem k n y : y ∈ cluster_ptr k <$> seq 0 n <-> (64 * k < Pos.to_nat y <= 64 * k + n)%nat.
Proof.
  unfold cluster_ptr. rewrite list_elem_of_fmap. split.
  - intros (i & -> & Hi%elem_of_seq). lia.
  - intros Hy. exists (Nat.pred (Pos.to_nat y) - 64 * k)%nat. rewrite elem_of_seq. lia.
Qed.

Lemma link_loop_ok k idx h l tail :
  dlseg h None (l ++ [tail]) None -> NoDup ((l ++ [tail]) ++ (cluster_ptr k <$> idx)) ->
  (forall i, i ∈ idx -> exists c, h !! cluster_ptr k i = Some c /\ _next c = None) ->
  exists h' l' tail', link_loop k idx h tail = Some (h', tail') /\
    (l ++ [tail]) ++ (cluster_ptr k <$> idx) = l' ++ [tail'] /\ dlseg h' None (l' ++ [tail']) None /\
    same_core h h' /\ (forall y, y ∉ l' ++ [tail'] -> h' !! y = h !! y).
Proof.
  revert h l tail; induction idx as [|i idx IH]; intros h l tail Hl Hn Hi; cbn [link_loop].
  { exists h, l, tail. cbn. rewrite app_nil_r. split; [done|]. split; [done|]. split; [done|]. done. }
  rewrite fmap_cons in Hn |- *. set (xi := cluster_ptr k i) in *.
  pose proof Hn as Hn'. apply NoDup_app in Hn' as (Hn1 & Hd & [Hxi Hn2]%NoDup_cons).
  assert (Hxl : xi ∉ l ++ [tail]) by (intros Hx; apply (Hd xi Hx); set_solver).
  destruct (upd_ok h tail (with_next (Some xi))) as (ct & h1 & _ & E1 & _ & Hy1);
    [eapply dlseg_alive; [exact Hl|set_solver]|].
  rewrite E1. cbn [mbind option_bind]. destruct (Hi i) as (c & Hc & Hnx); [set_solver|].
  assert (Hc1 : h1 !! xi = Some c) by (rewrite Hy1; [done|set_solver]).
  destruct (upd_ok h1 xi (with_prev (Some tail))) as (c' & h2 & Hc' & E2 & Hx2 & Hy2); [eauto|]. simplify_eq.
  rewrite E2. cbn [mbind option_bind].
  assert (Hl2 : dlseg h2 None ((l ++ [tail]) ++ [xi]) None).
  { apply dlseg_app. rewrite last_or_snoc. split.
    - eapply upd_frame; [exact E2|done|]. by eapply dlseg_set_next.
    - split; [|done]. by eexists. }
  destruct (IH h2 (l ++ [tail]) xi Hl2) as (h' & l' & tail' & -> & El & Hl' & Hs & Hy).
  { by rewrite <- app_assoc. }
  { intros j Hj. destruct (Hi j) as (cj & Hcj & Hnj); [set_solver|]. exists cj. split; [|done].
    assert (Hin : cluster_ptr k j ∈ cluster_ptr k <$> idx) by (by apply list_elem_of_fmap_2).
    rewrite Hy2, Hy1; [done|intros Ex; apply (Hd (cluster_ptr k j)); set_solver|intros Ex; apply Hxi; by rewrite <- Ex]. }
  exists h', l', tail'. rewrite <- El. split; [done|]. split; [by rewrite <- (app_assoc _ [xi])|]. split; [by rewrite El|].
  split; [eapply same_core_trans; [eapply same_core_trans|exact Hs]; by eapply upd_same_core|].
  intros y Hy'. rewrite El in Hy'. rewrite Hy by done. rewrite <- El in Hy'. rewrite Hy2, Hy1; set_solver.
Qed.

Lemma take_free_reuse p F W D L X x :
  pool_state p (x :: F) W D L X ->
  exists p', take_free p = Some (x, p') /\ pool_state (addUseCountByOne p') F W D L (x :: X) /\
    same_core (heap p) (heap p').
Proof.
  intros Hi. pose proof (pi_nodup _ _ _ _ _ _ Hi) as Hn. destruct (disjoint5 _ _ _ _ _ Hn) as (D1 & _).
  unfold take_free. rewrite (pi_fhead _ _ _ _ _ _ Hi). cbn [head].
  pose proof (pi_free _ _ _ _ _ _ Hi) as [(c & Hc & _ & Hnx) HF]. rewrite Hc. cbn [mbind option_bind].
  change (match F with [] => None | y :: _ => Some y end) with (hd_or F None) in Hnx.
  apply NoDup_app in Hn as ([HxF HnF]%NoDup_cons & _ & _).
  destruct (upd_first (heap p) _ F None None HF HnF eq_refl) as (h' & E & HF' & Hs & Hy).
  rewrite Hnx, E. cbn [mbind option_bind]. eexists. split; [done|]. split; [|done].
  assert (Hout : forall y, y ∈ W ++ D ++ L -> h' !! y = heap p !! y).
  { intros y Hin. apply Hy. intros Hf. apply (D1 y); set_solver. }
  pose proof (pool_count _ _ _ _ _ _ Hi) as Hcnt. pose proof (pi_bound _ _ _ _ _ _ Hi) as Hb.
  eapply state_relink; simpl; try exact Hi; try done; simpl.
  - rewrite !(app_assoc W L), !(app_assoc F). apply Permutation_middle.
  - intros y Hin. apply Hout. set_solver.
  - rewrite (pi_ftail _ _ _ _ _ _ Hi). by destruct F.
  - eapply dlseg_frame; [|apply (pi_wait _ _ _ _ _ _ Hi)]. intros y Hin. apply Hout. set_solver.
  - apply (pi_whead _ _ _ _ _ _ Hi).
  - apply (pi_wtail _ _ _ _ _ _ Hi).
  - eapply dlseg_frame; [|apply (pi_out _ _ _ _ _ _ Hi)]. intros y Hin. apply Hout. set_solver.
  - apply (pi_pos _ _ _ _ _ _ Hi).
  - apply (pi_sorted _ _ _ _ _ _ Hi).
  - apply (pi_map _ _ _ _ _ _ Hi).
  - rewrite (pi_uses _ _ _ _ _ _ Hi) in *. simpl in *. rewrite i32_small by (unfold INT_MIN, INT_MAX; lia). lia.
Qed.

(** The links of a new cluster. *)
Lemma cluster_links k h :
  exists h1 h2 h' tl, link_loop k (seq 2 (CHANNEL_CLUSTER_SIZE - 2)) (new_cluster k h) (cluster_ptr k 1) = Some (h1, tl) /\
    upd h1 (cluster_ptr k 1) (with_prev None) = Some h2 /\ upd h2 tl (with_next None) = Some h' /\
    dlseg h' None (cluster_ptr k <$> seq 1 63) None /\ last (cluster_ptr k <$> seq 1 63) = Some tl /\
    same_core (new_cluster k h) h' /\
    (forall y, y ∉ cluster_ptr k <$> seq 1 63 -> h' !! y = new_cluster k h !! y).
Proof.
  assert (Hlk : forall i, (i < 64)%nat -> new_cluster k h !! cluster_ptr k i = Some Channel_new).
  { intros i Hi. unfold new_cluster, CHANNEL_CLUSTER_SIZE. rewrite cluster_lookup, decide_True; [done|].
    apply list_elem_of_fmap_2, elem_of_seq. lia. }
  assert (Hcons : cluster_ptr k <$> seq 1 63 = ([] ++ [cluster_ptr k 1]) ++ (cluster_ptr k <$> seq 2 62)) by done.
  assert (Hnd : NoDup (cluster_ptr k <$> seq 1 63)).
  { apply NoDup_fmap; [intros i j; apply cluster_ptr_inj|apply NoDup_seq]. }
  destruct (link_loop_ok k (seq 2 62) (new_cluster k h) [] (cluster_ptr k 1)) as (h1 & l' & tl & E & El & Hl & Hs & Hy).
  { split; [|done]. exists Channel_new. by rewrite Hlk by lia. }
  { by rewrite <- Hcons. }
  { intros i Hi%elem_of_seq. exists Channel_new. by rewrite Hlk by lia. }
  rewrite <- Hcons in El. rewrite <- El in Hl, Hy.
  change (cluster_ptr k <$> seq 1 63) with (cluster_ptr k 1 :: (cluster_ptr k <$> seq 2 62)) in Hl, Hnd.
  destruct (upd_first h1 None _ None None Hl Hnd eq_refl) as (h2 & E2 & Hl2 & Hs2 & Hy2). cbn [hd_or upd_opt] in E2.
  destruct (upd_last h2 None _ None None Hl2 Hnd eq_refl) as (h' & E3 & Hl3 & Hs3 & Hy3).
  change (cluster_ptr k 1 :: (cluster_ptr k <$> seq 2 62)) with (cluster_ptr k <$> seq 1 63) in *.
  rewrite El, last_or_snoc in E3. exists h1, h2, h', tl.
  split; [exact E|]. split; [exact E2|]. split; [exact E3|]. split; [exact Hl3|]. split; [by rewrite El, last_snoc|].
  split; [eapply same_core_trans; [exact Hs|]; by eapply same_core_trans|].
  intros y Hout. by rewrite Hy3, Hy2, Hy.
Qed.

Lemma take_free_cluster p W D L X :
  pool_state p [] W D L X -> Z.of_nat (64 * S (length (_clusterList p))) < 2 ^ 31 ->
  let k := length (_clusterList p) in
  exists p', take_free p = Some (cluster_ptr k 0, p') /\
    pool_state (addUseCountByOne p') (cluster_ptr k <$> seq 1 63) W D L (cluster_ptr k 0 :: X) /\
    (forall y, is_Some (heap p !! y) -> heap p' !! y = heap p !! y) /\ heap p !! cluster_ptr k 0 = None.
Proof.
  intros Hi Hb k. unfold take_free. rewrite (pi_fhead _ _ _ _ _ _ Hi). cbn [head]. fold k.
  destruct (cluster_links k (heap p)) as (h1 & h2 & h' & tl & E1 & E2 & E3 & HF & Htl & Hs & Hy).
  rewrite E1. cbn [mbind option_bind]. rewrite E2. cbn [mbind option_bind]. rewrite E3. cbn [mbind option_bind].
  eexists. split; [done|]. pose proof (pi_ptrs _ _ _ _ _ _ Hi) as Hp. fold k in Hp.
  assert (Hnew : forall y, y ∈ cluster_ptr k <$> seq 0 64 -> heap p !! y = None).
  { intros y Hin%cluster_elem. destruct (heap p !! y) eqn:Ey; [|done].
    assert (Hx : is_Some (heap p !! y)) by eauto. apply Hp in Hx. lia. }
  assert (Hold : forall y, is_Some (heap p !! y) -> h' !! y = heap p !! y).
  { intros y Hy'. assert (Hn : y ∉ cluster_ptr k <$> seq 0 64).
    { intros Hin. rewrite (Hnew y Hin) in Hy'. by destruct Hy'. }
    rewrite Hy.
    - unfold new_cluster, CHANNEL_CLUSTER_SIZE. by rewrite cluster_lookup, decide_False.
    - intros Hin. apply Hn. apply list_elem_of_fmap in Hin as (i & -> & Hi'%elem_of_seq).
      apply list_elem_of_fmap_2, elem_of_seq. lia. }
  assert (Hal : forall y, is_Some (h' !! y) <-> is_Some (heap p !! y) \/ y ∈ cluster_ptr k <$> seq 0 64).
  { intros y. rewrite (same_core_alive _ _ y Hs). unfold new_cluster, CHANNEL_CLUSTER_SIZE.
    rewrite cluster_lookup. case_decide; split; eauto; intros [?|?]; eauto; done. }
  split; [|split; [exact Hold|apply Hnew; apply list_elem_of_fmap_2, elem_of_seq; lia]].
  assert (HlW : forall y, y ∈ W ++ D ++ L -> h' !! y = heap p !! y).
  { intros y Hin. apply Hold, (pi_alive _ _ _ _ _ _ Hi). clear -Hin. set_solver. }
  assert (Hcore : forall y, y ∈ W -> expire h' y = expire (heap p) y /\ chan_id h' y = chan_id (heap p) y).
  { intros y Hin. apply core_eq. rewrite HlW by (clear -Hin; set_solver). done. }
  assert (HPerm : (cluster_ptr k <$> seq 1 63) ++ W ++ D ++ L ++ cluster_ptr k 0 :: X ≡ₚ
                  (cluster_ptr k <$> seq 0 64) ++ W ++ D ++ L ++ X).
  { change (cluster_ptr k <$> seq 0 64) with (cluster_ptr k 0 :: (cluster_ptr k <$> seq 1 63)).
    rewrite !(app_assoc D L), !(app_assoc W (D ++ L)), !(app_assoc _ (W ++ D ++ L)). symmetry.
    apply (Permutation_middle ((cluster_ptr k <$> seq 1 63) ++ W ++ D ++ L)). }
  pose proof (pool_count _ _ _ _ _ _ Hi) as Hcnt. fold k in Hcnt.
  split; cbn [addUseCountByOne heap _waitReplyMap _clusterList _freeListHead _freeListTail _waitReplyHead _waitReplyTail _useCount].
  - rewrite HPerm. apply NoDup_app. split_and!.
    + apply NoDup_fmap; [intros i j; apply cluster_ptr_inj|apply NoDup_seq].
    + intros y Hin Hx. apply Hnew in Hin. assert (Ha : is_Some (heap p !! y)) by (by apply (pi_alive _ _ _ _ _ _ Hi)).
      rewrite Hin in Ha. by destruct Ha.
    + apply (pi_nodup _ _ _ _ _ _ Hi).
  - intros y. rewrite HPerm, Hal, (pi_alive _ _ _ _ _ _ Hi y). cbn [app]. rewrite (elem_of_app (_ <$> _)). tauto.
  - intros y. rewrite Hal, Hp, cluster_elem, length_app. cbn [length]. fold k. lia.
  - rewrite length_app. cbn [length]. rewrite (pi_clusters _ _ _ _ _ _ Hi) at 1. fold k. rewrite seq_app. by rewrite Nat.add_0_l.
  - exact HF.
  - done.
  - by rewrite Htl.
  - eapply dlseg_frame; [|apply (pi_wait _ _ _ _ _ _ Hi)]. intros y Hin. apply HlW. clear -Hin. set_solver.
  - apply (pi_whead _ _ _ _ _ _ Hi).
  - apply (pi_wtail _ _ _ _ _ _ Hi).
  - eapply detached_frame; [|apply (pi_det _ _ _ _ _ _ Hi)]. intros y Hin. apply HlW. clear -Hin. set_solver.
  - eapply dlseg_frame; [|apply (pi_out _ _ _ _ _ _ Hi)]. intros y Hin. apply HlW. clear -Hin. set_solver.
  - eapply sorted_core; [|apply (pi_sorted _ _ _ _ _ _ Hi)]. intros y Hin. rewrite HlW by (clear -Hin; set_solver). done.
  - intros y Hin. destruct (Hcore y Hin) as [-> _]. by apply (pi_pos _ _ _ _ _ _ Hi).
  - intros id y. rewrite (pi_map _ _ _ _ _ _ Hi). split; intros [Hin Heq]; (split; [done|]);
      destruct (Hcore y Hin) as [_ Hc]; congruence.
  - rewrite (pi_uses _ _ _ _ _ _ Hi). clear -Hcnt Hb. fold k in Hb. cbn [length] in *.
    rewrite i32_small by (unfold INT_MIN, INT_MAX; lia). lia.
  - rewrite length_app. cbn [length]. fold k in Hb. lia.
Qed.

(** [init] turns a loose channel into a detached one with the given id. *)
Lemma init_state p F W D L X x id :
  pool_state p F W D L (x :: X) ->
  exists c h', upd (heap p) x (Channel_init id) = Some h' /\ h' !! x = Some (Channel_init id c) /\
    (forall y, y <> x -> h' !! y = heap p !! y) /\
    pool_state (mkPool h' (_waitReplyMap p) (_clusterList p) (_freeListHead p) (_freeListTail p)
                       (_waitReplyHead p) (_waitReplyTail p) (_useCount p)) F W (x :: D) L X.
Proof.
  intros Hi. destruct (disjoint5 _ _ _ _ _ (pi_nodup _ _ _ _ _ _ Hi)) as (_ & _ & _ & _ & D5).
  specialize (D5 x ltac:(set_solver)).
  destruct (upd_ok (heap p) x (Channel_init id)) as (c & h' & Hc & Hu & Hx & Hy);
    [apply (alive_in _ _ _ _ _ _ x Hi); set_solver|].
  exists c, h'. split; [done|]. split; [done|]. split; [done|].
  assert (Hout : forall y, y ∈ F ++ W ++ D ++ L -> h' !! y = heap p !! y) by (intros y Hin; apply Hy; set_solver).
  assert (Hal : forall y, is_Some (h' !! y) <-> is_Some (heap p !! y)).
  { intros y. destruct (decide (y = x)) as [->|Hne]; [|by rewrite Hy]. rewrite Hx, Hc. split; eauto. }
  assert (Hcore : forall y, y ∈ W -> expire h' y = expire (heap p) y /\ chan_id h' y = chan_id (heap p) y).
  { intros y Hin. apply core_eq. rewrite Hout by set_solver. done. }
  destruct Hi as [Hn Ha ? ? HF ? ? HW ? ? Hd HL HS Hpos Hm Hu' ?]. split; simpl; try done.
  - assert (HP : F ++ W ++ (x :: D) ++ L ++ X ≡ₚ F ++ W ++ D ++ L ++ x :: X); [|by rewrite HP].
    do 2 apply Permutation_app_head. cbn [app]. rewrite (app_assoc D L X), (app_assoc D L (x :: X)).
    apply Permutation_middle.
  - intros y. rewrite Hal, Ha. set_solver.
  - intros y. by rewrite Hal.
  - eapply dlseg_frame; [|exact HF]. intros y Hin. apply Hout. set_solver.
  - eapply dlseg_frame; [|exact HW]. intros y Hin. apply Hout. set_solver.
  - intros y [->|Hin]%elem_of_cons; [by eexists|]. rewrite Hout by set_solver. by apply Hd.
  - eapply dlseg_frame; [|exact HL]. intros y Hin. apply Hout. set_solver.
  - eapply sorted_core; [|exact HS]. intros y Hin. rewrite Hout by set_solver. done.
  - intros y Hin. destruct (Hcore y Hin) as [-> _]. by apply Hpos.
  - intros id' y. rewrite Hm. split; intros [Hin Heq]; (split; [done|]); destruct (Hcore y Hin) as [_ Hc']; congruence.
  - rewrite Hu'. simpl. lia.
Qed.

(** *** Ids *)

Definition reserved_low (z : Z) : Prop := z mod 2 ^ 32 = HTTP_CHANNEL_ID \/ z mod 2 ^ 32 = ADMIN_CHANNEL_ID \/ z mod 2 ^ 32 = 0.

Definition masked (g : Z) : Z := g mod 2 ^ 60.

Lemma masked_low g : u32 (masked g) = g mod 2 ^ 32.
Proof. unfold wrapu, masked. symmetry. apply Znumtheory.Zmod_div_mod; [lia|lia|]. by exists (2 ^ 28). Qed.

Lemma auto_id_mask g : Z.land (u64 (i64 g)) AUTO_CHANNEL_ID_MAX = masked g.
Proof.
  rewrite wrapu_wraps by lia. change AUTO_CHANNEL_ID_MAX with (Z.ones 60). rewrite Z.land_ones by lia.
  unfold wrapu, masked. symmetry. apply Znumtheory.Zmod_div_mod; [lia|lia|]. by exists (2 ^ 4).
Qed.

Lemma auto_id_step fuel g :
  0 <= g < 2 ^ 63 - 1 ->
  auto_id_loop (S fuel) g =
    if (masked (g + 1) mod 2 ^ 32 =? HTTP_CHANNEL_ID) || (masked (g + 1) mod 2 ^ 32 =? ADMIN_CHANNEL_ID) ||
       (masked (g + 1) mod 2 ^ 32 =? 0)
    then auto_id_loop fuel (g + 1) else Some (masked (g + 1), g + 1).
Proof.
  intros Hg. cbn [auto_id_loop]. rewrite auto_id_mask. unfold wrapu at 1 2 3.
  rewrite (wraps_small 64 (g + 1)) by lia. destruct (_ || _ || _) eqn:E1; [done|].
  destruct (0 =? masked (g + 1)) eqn:E; [|done]. apply Z.eqb_eq in E. rewrite <- E in E1.
  exfalso. revert E1. rewrite Zmod_0_l. by vm_compute.
Qed.

Lemma auto_id_ok g :
  0 <= g < 2 ^ 63 - 4 ->
  exists n, 1 <= n <= 3 /\ auto_id_loop 4 g = Some (masked (g + n), g + n) /\ ~ reserved_low (g + n).
Proof.
  intros Hg. assert (Hlow : forall z, masked z mod 2 ^ 32 = z mod 2 ^ 32) by (intros z; apply masked_low).
  assert (Hres : forall z, ((z mod 2 ^ 32 =? HTTP_CHANNEL_ID) || (z mod 2 ^ 32 =? ADMIN_CHANNEL_ID) || (z mod 2 ^ 32 =? 0) = false)
                   -> ~ reserved_low z).
  { intros z E. unfold reserved_low. bool_to_prop. tauto. }
  rewrite auto_id_step, Hlow by lia. destruct (_ || _) eqn:E1; [|exists 1; split_and!; [lia|lia|done|by apply Hres]].
  rewrite auto_id_step, Hlow by lia. destruct (((g + 1 + 1) mod _ =? _) || _ || _) eqn:E2;
    [|exists 2; rewrite <- Z.add_assoc in *; split_and!; [lia|lia|done|by apply Hres]].
  rewrite auto_id_step, Hlow by lia. destruct (((g + 1 + 1 + 1) mod _ =? _) || _ || _) eqn:E3;
    [|exists 3; rewrite <- !Z.add_assoc in *; split_and!; [lia|lia|done|by apply Hres]].
  exfalso. unfold HTTP_CHANNEL_ID, ADMIN_CHANNEL_ID in *. bool_to_prop.
  pose proof (Z.div_mod (g + 1) (2 ^ 32) ltac:(lia)). pose proof (Z.mod_pos_bound (g + 1) (2 ^ 32) ltac:(lia)).
  pose proof (Z.div_mod (g + 1 + 1) (2 ^ 32) ltac:(lia)). pose proof (Z.mod_pos_bound (g + 1 + 1) (2 ^ 32) ltac:(lia)).
  pose proof (Z.div_mod (g + 1 + 1 + 1) (2 ^ 32) ltac:(lia)). pose proof (Z.mod_pos_bound (g + 1 + 1 + 1) (2 ^ 32) ltac:(lia)).
  repeat match goal with H : _ \/ _ |- _ => destruct H end; bool_to_prop; lia.
Qed.

Lemma createChannelId_ok chid g :
  0 <= g < 2 ^ 63 - 4 -> exists id g', createChannelId chid g = Some (id, g') /\ g <= g' <= g + 3.
Proof.
  intros Hg. unfold createChannelId. case_bool; [|exists chid, g; split; [done|lia]].
  destruct (auto_id_ok g Hg) as (n & Hn & E & _). rewrite E. eexists _, _. split; [done|lia].
Qed.

Lemma take_free_map p x p' : take_free p = Some (x, p') -> _waitReplyMap p' = _waitReplyMap p.
Proof.
  unfold take_free. destruct (_freeListHead p) as [y|]; intros E.
  - repeat (apply bind_Some_inv in E as (? & _ & E)). by simplify_eq.
  - apply bind_Some_inv in E as ([h t] & _ & E). repeat (apply bind_Some_inv in E as (? & _ & E)). by simplify_eq.
Qed.

Lemma allocChannel_ok p F W D L X chid g :
  pool_state p F W D L X -> 0 <= g < 2 ^ 63 - 4 ->
  (F = [] -> Z.of_nat (64 * S (length (_clusterList p))) < 2 ^ 31) ->
  exists x p' F' id g', allocChannel p chid g = Some (x, p', g') /\ createChannelId chid g = Some (id, g') /\
    pool_state p' F' W (x :: D) L X /\ (exists c, heap p' !! x = Some (Channel_init id c)) /\ x ∉ W ++ D ++ L ++ X /\
    (forall y, y ∈ W ++ D -> core <$> heap p' !! y = core <$> heap p !! y) /\ _waitReplyMap p' = _waitReplyMap p.
Proof.
  intros Hi Hg Hb. destruct (createChannelId_ok chid g Hg) as (id & g' & Eid & _).
  assert (Htake : exists x p1 F', take_free p = Some (x, p1) /\ pool_state (addUseCountByOne p1) F' W D L (x :: X) /\
            x ∉ W ++ D ++ L ++ X /\ (forall y, y ∈ W ++ D -> core <$> heap p1 !! y = core <$> heap p !! y) /\
            _waitReplyMap p1 = _waitReplyMap p).
  { destruct F as [|x F].
    - destruct (take_free_cluster p W D L X Hi (Hb eq_refl)) as (p1 & E & Hi1 & Hold & Hnew).
      eexists _, p1, _. split; [exact E|]. split; [exact Hi1|]. split; [|split].
      + intros Hin. assert (Ha : is_Some (heap p !! cluster_ptr (length (_clusterList p)) 0)).
        { by apply (pi_alive _ _ _ _ _ _ Hi). }
        rewrite Hnew in Ha. by destruct Ha.
      + intros y Hin. rewrite Hold; [done|]. apply (pi_alive _ _ _ _ _ _ Hi). clear -Hin. set_solver.
      + by eapply take_free_map.
    - destruct (take_free_reuse p F W D L X x Hi) as (p1 & E & Hi1 & Hs). exists x, p1, F.
      split; [done|]. split; [done|]. split; [|split].
      + destruct (disjoint5 _ _ _ _ _ (pi_nodup _ _ _ _ _ _ Hi)) as (D1 & _). apply D1. set_solver.
      + intros y _. apply Hs.
      + by eapply take_free_map. }
  destruct Htake as (x & p1 & F' & E1 & Hi1 & Hx & Hcore & Hm). unfold allocChannel. rewrite E1. cbn [mbind option_bind].
  rewrite Eid. cbn [mbind option_bind].
  destruct (init_state _ _ _ _ _ _ x id Hi1) as (c2 & h' & E2 & Hx2 & Hy2 & Hi2). cbn [addUseCountByOne heap] in E2, Hy2.
  rewrite E2. cbn [mbind option_bind]. eexists x, _, F', id, g'. split; [done|]. split; [done|].
  split; [exact Hi2|]. split; [by exists c2|]. split; [exact Hx|]. split; [|exact Hm].
  intros y Hin. cbn [addUseCountByOne heap]. rewrite Hy2; [by apply Hcore|]. intros ->. apply Hx. set_solver.
Qed.

End Invariant.

(** ** A client of the pool

    The connection allocates a channel per request and keeps it with the
    queued packet ([D] below); it sets the handler and the expiration time,
    puts the channel on the waiting list when the packet is encoded or gives
    it back when no reply is expected, and gives it back on the reply or when
    it expires. *)

Record client := mkClient {
  pool : ChannelPool;
  globalId : Z;
  owned : list ptr
}.

Definition client_new : client := mkClient ChannelPool_new 0 [].

(** Calls that set the handler, the arguments and the expiration of a channel. *)
Definition is_setup (f : Channel -> Channel) : Prop :=
  forall c, _id (f c) = _id c /\ _prev (f c) = _prev c /\ _next (f c) = _next c.

Definition with_heap (p : ChannelPool) (h : cheap) : ChannelPool :=
  mkPool h (_waitReplyMap p) (_clusterList p) (_freeListHead p) (_freeListTail p)
         (_waitReplyHead p) (_waitReplyTail p) (_useCount p).

Inductive client_op :=
| OpAlloc
| OpSetup (x : ptr) (f : Channel -> Channel)
| OpWait (x : ptr)
| OpDrop (x : ptr)
| OpReply (id : Z)
| OpSweep (now : Z).

(** What the client does for an operation; [None] is undefined behaviour. *)
Definition remove_ptr (x : ptr) (D : list ptr) : list ptr := base.filter (fun y => y <> x) D.

Definition client_run (s : client) (op : client_op) : option client :=
  match op with
  | OpAlloc =>
      '(x, p, g) ← allocChannel (pool s) 0 (globalId s);
      Some (mkClient p g (x :: owned s))
  | OpSetup x f =>
      h ← upd (heap (pool s)) x f;
      Some (mkClient (with_heap (pool s) h) (globalId s) (owned s))
  | OpWait x =>
      p ← addToWaitingList (pool s) x;
      Some (mkClient p (globalId s) (remove_ptr x (owned s)))
  | OpDrop x =>
      '(_, p) ← freeChannel (pool s) (Some x);
      Some (mkClient p (globalId s) (remove_ptr x (owned s)))
  | OpReply id =>
      '(_, p) ← freeChannel (pool s) (findChannel (pool s) id);
      Some (mkClient p (globalId s) (owned s))
  | OpSweep now =>
      '(l, p) ← getTimeoutList (pool s) now;
      '(_, p) ← appendFreeList p l;
      Some (mkClient p (globalId s) (owned s))
  end.

(** When the client may: it only uses channels it owns, and the counters
    have room. *)
Definition client_may (s : client) (op : client_op) : Prop :=
  match op with
  | OpAlloc => globalId s < 2 ^ 60 - 4 /\ _useCount (pool s) < 2 ^ 31 - 128
  | OpSetup x f => x ∈ owned s /\ is_setup f
  | OpWait x => x ∈ owned s /\ 0 < expire (heap (pool s)) x
  | OpDrop x => x ∈ owned s
  | OpReply _ | OpSweep _ => True
  end.

Inductive reachable : client -> Prop :=
| reach_new : reachable client_new
| reach_step s op s' : reachable s -> client_may s op -> client_run s op = Some s' -> reachable s'.

Section Client.

Implicit Types (s : client) (F W D : list ptr) (p : ChannelPool).

(** Every channel in use has an id of its own. *)
Record inj_inv (p : ChannelPool) (F W D : list ptr) : Prop := {
  ii_pool : pool_inv p F W D;
  ii_inj : forall x y, x ∈ W ++ D -> y ∈ W ++ D -> chan_id (heap p) x = chan_id (heap p) y -> x = y
}.

(** The ids were drawn from the counter. *)
Record client_inv (p : ChannelPool) (g : Z) (F W D : list ptr) : Prop := {
  ci_inj : inj_inv p F W D;
  ci_g : 0 <= g < 2 ^ 60;
  ci_ids : forall x, x ∈ W ++ D -> 0 < chan_id (heap p) x <= g
}.

Definition ci_pool p g F W D (Hc : client_inv p g F W D) : pool_inv p F W D := ii_pool _ _ _ _ (ci_inj _ _ _ _ _ Hc).

Lemma inj_inv_new : inj_inv ChannelPool_new [] [] [].
Proof. split; [apply pool_inv_new|set_solver]. Qed.

Lemma client_inv_new : client_inv ChannelPool_new 0 [] [] [].
Proof. split; [apply inj_inv_new|lia|set_solver]. Qed.

Lemma inj_inv_perm p F W D D' : D ≡ₚ D' -> inj_inv p F W D -> inj_inv p F W D'.
Proof.
  intros HP [H1 H4]. split; [by eapply pool_state_perm|]. intros x y Hx Hy. apply H4; by rewrite HP.
Qed.

(** The channels in use are a subset with the same ids. *)
Lemma inj_inv_sub p p' F F' W W' D D' :
  inj_inv p F W D -> pool_inv p' F' W' D' -> (forall x, x ∈ W' ++ D' -> x ∈ W ++ D) ->
  (forall x, x ∈ W' ++ D' -> chan_id (heap p') x = chan_id (heap p) x) -> inj_inv p' F' W' D'.
Proof.
  intros [H1 H4] Hp Hs Hid. split; [done|]. intros x y Hx Hy. rewrite !Hid by done. apply H4; by apply Hs.
Qed.

Lemma client_inv_sub p p' g F F' W W' D D' :
  client_inv p g F W D -> inj_inv p' F' W' D' -> (forall x, x ∈ W' ++ D' -> x ∈ W ++ D) ->
  (forall x, x ∈ W' ++ D' -> chan_id (heap p') x = chan_id (heap p) x) -> client_inv p' g F' W' D'.
Proof.
  intros [_ H2 H3] Hp Hs Hid. split; [done|done|]. intros x Hx. rewrite Hid by done. by apply H3, Hs.
Qed.

Lemma remove_ptr_perm p F W D x : pool_inv p F W D -> x ∈ D -> D ≡ₚ x :: remove_ptr x D.
Proof.
  intros Hi Hx. assert (Hn : NoDup D).
  { pose proof (pi_nodup _ _ _ _ _ _ Hi) as Hn. rewrite !NoDup_app in Hn. tauto. }
  apply NoDup_Permutation; [done| |].
  - constructor; [|by apply NoDup_filter]. unfold remove_ptr. rewrite list_elem_of_filter. tauto.
  - intros y. unfold remove_ptr. rewrite elem_of_cons, list_elem_of_filter. split; [|naive_solver].
    intros Hy. destruct (decide (y = x)); tauto.
Qed.

(** Only the links change when a channel is given back. *)
Lemma upd_opt_same_core (h h' : cheap) q f :
  upd_opt h q f = Some h' -> (forall c, core (f c) = core c) -> same_core h h'.
Proof. destruct q; simpl; [by apply upd_same_core|]. by intros [= ->] _. Qed.

Lemma freeWaiting_core p x p' : freeWaitingChannel p x = Some p' -> same_core (heap p) (heap p').
Proof.
  unfold freeWaitingChannel. intros (c & _ & (h1 & E1 & (h2 & E2 & [= <-])%bind_Some_inv)%bind_Some_inv)%bind_Some_inv.
  eapply same_core_trans; eapply upd_opt_same_core; done.
Qed.

Lemma recycle_core p x p' : recycleChannel p x = Some p' -> same_core (heap p) (heap p').
Proof.
  unfold recycleChannel. intros (h1 & E1 & ([h2 hd] & E2 & [= <-])%bind_Some_inv)%bind_Some_inv.
  apply upd_same_core in E1; [|done]. destruct (_freeListTail p).
  - apply bind_Some_inv in E2 as (h3 & E3 & [= <- <-]). apply upd_same_core in E3; [|done]. by eapply same_core_trans.
  - by injection E2 as <- <-.
Qed.

Lemma freeChannel_core p q b p' : freeChannel p q = Some (b, p') -> same_core (heap p) (heap p').
Proof.
  unfold freeChannel. destruct q as [x|]; [|by intros [= _ ->]].
  intros (c & _ & (p1 & E1 & (p2 & E2 & [= _ <-])%bind_Some_inv)%bind_Some_inv)%bind_Some_inv.
  apply recycle_core in E2. eapply same_core_trans; [|exact E2].
  destruct (0 <? _expireTime c); [by eapply freeWaiting_core|by injection E1 as ->].
Qed.

Lemma same_core_id h h' x : same_core h h' -> chan_id h' x = chan_id h x.
Proof. intros Hs. by destruct (core_eq _ _ _ (Hs x)). Qed.

(** A channel that is not waiting has no entry under its id. *)
Lemma inj_fresh p F W D x :
  inj_inv p F W D -> x ∈ D -> _waitReplyMap p !! chan_id (heap p) x = None.
Proof.
  intros [Hp Hinj] Hx. destruct (_waitReplyMap p !! _) as [y|] eqn:E; [|done].
  apply (pi_map _ _ _ _ _ _ Hp) in E as [Hy E]. assert (y = x) as -> by (apply Hinj; set_solver).
  destruct (disjoint5 _ _ _ _ _ (pi_nodup _ _ _ _ _ _ Hp)) as (_ & Hd & _). destruct (Hd x Hy). set_solver.
Qed.

(** Setting up a channel that is on no list, with an id not in use. *)
Lemma setup_inv p F W D x f :
  pool_inv p F W D -> x ∈ D -> (forall c, _prev (f c) = _prev c /\ _next (f c) = _next c) ->
  exists c h', heap p !! x = Some c /\ upd (heap p) x f = Some h' /\ h' !! x = Some (f c) /\
    (forall y, y <> x -> h' !! y = heap p !! y) /\ pool_inv (with_heap p h') F W D.
Proof.
  intros Hi HxD Hf.
  destruct (disjoint5 _ _ _ _ _ (pi_nodup _ _ _ _ _ _ Hi)) as (_ & _ & D3 & _). specialize (D3 x HxD).
  destruct (pi_det _ _ _ _ _ _ Hi x HxD) as (c & Hcx & Hp & Hn).
  destruct (upd_ok (heap p) x f) as (c' & h' & Hc' & Hu & Hx & Hy); [eauto|].
  assert (c' = c) as -> by congruence. clear Hc'.
  exists c, h'. split_and!; try done. destruct (Hf c) as (Hfp & Hfn).
  assert (Hout : forall y, y ∈ F ++ W -> h' !! y = heap p !! y) by (intros y Hin; apply Hy; intros ->; apply D3; clear -Hin; set_solver).
  assert (Hal : forall y, is_Some (h' !! y) <-> is_Some (heap p !! y)).
  { intros y. destruct (decide (y = x)) as [->|Hne]; [|by rewrite Hy]. rewrite Hx, Hcx. split; eauto. }
  assert (HW : forall y, y ∈ W -> h' !! y = heap p !! y) by (intros y Hin; apply Hout; clear -Hin; set_solver).
  destruct Hi as [? Ha Hpt ? HF ? ? HWs ? ? Hd ? HS Hpos Hm ? ?]. split; simpl; try done.
  - intros y. by rewrite Hal, Ha.
  - intros y. by rewrite Hal.
  - eapply dlseg_frame; [|exact HF]. intros y Hin. apply Hout. clear -Hin; set_solver.
  - by eapply dlseg_frame.
  - intros y Hin. destruct (decide (y = x)) as [->|Hne]; [|rewrite Hy by done; by apply Hd].
    exists (f c). split_and!; congruence.
  - eapply sorted_core; [|exact HS]. intros y Hin. by rewrite HW.
  - intros y Hin. unfold expire. rewrite HW by done. by apply Hpos.
  - intros id y. rewrite Hm. unfold chan_id. split; intros [Hin E]; (split; [done|]); [by rewrite HW|by rewrite HW in E].
Qed.

Lemma setup_inj p F W D x f :
  inj_inv p F W D -> x ∈ D -> is_setup f ->
  exists c h', heap p !! x = Some c /\ upd (heap p) x f = Some h' /\ h' !! x = Some (f c) /\
    (forall y, y <> x -> h' !! y = heap p !! y) /\ (forall y, chan_id h' y = chan_id (heap p) y) /\
    inj_inv (with_heap p h') F W D.
Proof.
  intros Hi Hx Hf. destruct (setup_inv p F W D x f (ii_pool _ _ _ _ Hi) Hx) as (c & h' & Hc & Hu & Hx' & Hy & Hp); [intros c; apply Hf|].
  assert (Hid : forall y, chan_id h' y = chan_id (heap p) y).
  { intros y. unfold chan_id. destruct (decide (y = x)) as [->|Hne]; [|by rewrite Hy].
    rewrite Hx', Hc. simpl. apply Hf. }
  exists c, h'. split_and!; try done. eapply inj_inv_sub; [exact Hi|done|done|by intros; apply Hid].
Qed.

Lemma alloc_inv p g F W D :
  client_inv p g F W D -> g < 2 ^ 60 - 4 -> _useCount p < 2 ^ 31 - 128 ->
  exists x p' F' g', allocChannel p 0 g = Some (x, p', g') /\ client_inv p' g' F' W (x :: D) /\
    x ∉ W ++ D /\ chan_id (heap p') x = g' /\ g < g' <= g + 3 /\ ~ reserved_low g'.
Proof.
  intros Hc Hlt Hu. pose proof (ci_pool _ _ _ _ _ Hc) as Hp. destruct Hc as [[_ Hinj] Hg Hids].
  destruct (allocChannel_ok p F W D [] [] 0 g Hp ltac:(lia) (pool_room _ _ _ _ Hp Hu))
    as (x & p' & F' & id & g' & E & Eid & Hi & [c Hx] & Hnin & Hcore & Hm).
  destruct (auto_id_ok g ltac:(lia)) as (n & Hn & Ea & Hr).
  change (createChannelId 0 g) with (auto_id_loop 4 g) in Eid. rewrite Ea in Eid. injection Eid as <- <-.
  assert (Hmask : masked (g + n) = g + n) by (apply Z.mod_small; lia). rewrite Hmask in Hx.
  assert (Hidx : chan_id (heap p') x = g + n) by (unfold chan_id; by rewrite Hx).
  assert (Hid : forall y, y ∈ W ++ D -> chan_id (heap p') y = chan_id (heap p) y).
  { intros y Hy. by destruct (core_eq _ _ y (Hcore y Hy)). }
  assert (Hsplit : forall y, y ∈ W ++ x :: D -> y = x \/ y ∈ W ++ D) by (intros y; clear; set_solver).
  exists x, p', F', (g + n). split; [done|]. split; [|split_and!; try done; try lia; clear -Hnin; set_solver].
  split; [split; [done|]|lia|].
  - intros y z [->|Hy]%Hsplit [->|Hz]%Hsplit; rewrite ?Hidx, ?(Hid y), ?(Hid z) by done; intros Eq; [done| | |by apply Hinj].
    + specialize (Hids z Hz). lia.
    + specialize (Hids y Hy). lia.
  - intros y [->|Hy]%Hsplit; [lia|]. rewrite Hid by done. specialize (Hids y Hy). lia.
Qed.

Lemma alloc_init p chid g x p' g' : allocChannel p chid g = Some (x, p', g') -> exists c, heap p' !! x = Some (Channel_init (chan_id (heap p') x) c).
Proof.
  unfold allocChannel. intros ([y q] & _ & ([id g1] & _ & (h & Hu & [= -> <- _])%bind_Some_inv)%bind_Some_inv)%bind_Some_inv.
  unfold upd in Hu. apply bind_Some_inv in Hu as (c & _ & [= <-]). exists c. unfold chan_id. cbn [addUseCountByOne heap].
  by rewrite lookup_insert_eq.
Qed.

Lemma drop_inv p F W D x :
  inj_inv p F W (x :: D) ->
  exists p', freeChannel p (Some x) = Some (true, p') /\ inj_inv p' (F ++ [x]) W D /\ same_core (heap p) (heap p').
Proof.
  intros Hc. destruct (freeChannel_detached p F W x D [] [] (ii_pool _ _ _ _ Hc)) as (p' & E & Hp).
  { intros _. apply (inj_fresh _ _ _ _ _ Hc). set_solver. }
  pose proof (freeChannel_core _ _ _ _ E) as Hs.
  exists p'. split_and!; [done| |done]. eapply inj_inv_sub; [exact Hc|done|set_solver|].
  intros y _. by apply same_core_id.
Qed.

Lemma wait_inv p F W D x :
  inj_inv p F W (x :: D) -> 0 < expire (heap p) x ->
  exists p' W1 W2, addToWaitingList p x = Some p' /\ W = W1 ++ W2 /\ inj_inv p' F (W1 ++ x :: W2) D /\
    same_core (heap p) (heap p') /\ _waitReplyMap p' = <[chan_id (heap p) x := x]> (_waitReplyMap p).
Proof.
  intros Hc He. destruct (addToWaiting_ok p F W D [] [] x (ii_pool _ _ _ _ Hc) He) as (p' & W1 & W2 & E & -> & _ & Hp & Hs & Hm).
  { apply (inj_fresh _ _ _ _ _ Hc). set_solver. }
  exists p', W1, W2. split_and!; [done|done| |done|done]. eapply inj_inv_sub; [exact Hc|done|set_solver|].
  intros y _. by apply same_core_id.
Qed.

Lemma reply_inv p F W D id :
  inj_inv p F W D ->
  match findChannel p id with
  | None => forall x, x ∈ W -> chan_id (heap p) x <> id
  | Some x => chan_id (heap p) x = id /\ exists p' W1 W2, freeChannel p (Some x) = Some (true, p') /\
      W = W1 ++ x :: W2 /\ inj_inv p' (F ++ [x]) (W1 ++ W2) D /\ same_core (heap p) (heap p')
  end.
Proof.
  intros Hc. pose proof (pi_map _ _ _ _ _ _ (ii_pool _ _ _ _ Hc)) as Hm. unfold findChannel.
  destruct (_waitReplyMap p !! id) as [x|] eqn:E.
  - apply Hm in E as [Hx Hid]. split; [done|]. apply list_elem_of_split in Hx as (W1 & W2 & ->).
    destruct (freeChannel_waiting p F W1 x W2 D [] [] (ii_pool _ _ _ _ Hc)) as (p' & E & Hp).
    pose proof (freeChannel_core _ _ _ _ E) as Hs.
    exists p', W1, W2. split_and!; [done|done| |done]. eapply inj_inv_sub; [exact Hc|done|set_solver|].
    intros y _. by apply same_core_id.
  - intros x Hx Hid. assert (Hs : _waitReplyMap p !! id = Some x) by (by apply Hm). congruence.
Qed.

(** The map after the reply for [x]. *)
Lemma reply_lookup p p' F F' W1 W2 D x id id' (m : option ptr) :
  inj_inv p F (W1 ++ x :: W2) D -> inj_inv p' F' (W1 ++ W2) D -> same_core (heap p) (heap p') ->
  chan_id (heap p) x = id -> (id' <> id -> findChannel p id' = m) ->
  findChannel p' id' = if decide (id' = id) then None else m.
Proof.
  intros Hc Hc' Hs Hid Hm. pose proof (pi_map _ _ _ _ _ _ (ii_pool _ _ _ _ Hc)) as M.
  pose proof (pi_map _ _ _ _ _ _ (ii_pool _ _ _ _ Hc')) as M'. unfold findChannel in *.
  assert (Hn : x ∉ W1 ++ W2).
  { pose proof (pi_nodup _ _ _ _ _ _ (ii_pool _ _ _ _ Hc)) as Hn. apply NoDup_app in Hn as (_ & _ & Hn).
    apply NoDup_app in Hn as (Hn & _). rewrite <- Permutation_middle in Hn. by apply NoDup_cons in Hn as [Hn _]. }
  assert (Hk : forall y, _waitReplyMap p' !! id' = Some y <-> _waitReplyMap p !! id' = Some y /\ y <> x).
  { intros y. rewrite M, M', (same_core_id _ _ y Hs). rewrite !elem_of_app, elem_of_cons in *. naive_solver. }
  case_decide as Hd.
  - apply eq_None_not_Some. intros [y [[Hy E]%M Hne]%Hk].
    destruct Hne. apply (ii_inj _ _ _ _ Hc); [clear -Hy; set_solver|clear; set_solver|congruence].
  - rewrite <- Hm by done. apply option_eq. intros y. rewrite Hk. split; [tauto|]. intros E. split; [done|].
    intros ->. apply M in E as [_ E]. congruence.
Qed.

(** The sweep: between the two calls the connection walks the list. *)
Lemma sweep_inv p F W D now :
  inj_inv p F W D ->
  exists p1 p' W1 W2, W = W1 ++ W2 /\ (forall y, y ∈ W1 -> expire (heap p) y < now) /\
    (forall y, y ∈ W2 -> now <= expire (heap p) y) /\
    getTimeoutList p now = Some (head W1, p1) /\ dlseg (heap p1) None W1 None /\ same_core (heap p) (heap p1) /\
    appendFreeList p1 (head W1) = Some (true, p') /\
    inj_inv p' (F ++ W1) W2 D /\ same_core (heap p) (heap p').
Proof.
  intros Hc. destruct (pool_getTimeoutList_ok p F W D now (ii_pool _ _ _ _ Hc)) as (p1 & W1 & W2 & -> & H1 & H2 & E1 & Hp1 & Hs1).
  destruct (appendFreeList_ok _ _ _ _ _ _ Hp1) as (p' & E2 & Hp2 & Hs2 & _).
  assert (Hs : same_core (heap p) (heap p')) by (by eapply same_core_trans).
  exists p1, p', W1, W2. split; [done|]. split; [done|]. split; [done|]. split; [done|].
  split; [apply (pi_out _ _ _ _ _ _ Hp1)|]. split; [done|]. split; [done|]. split; [|done].
  eapply inj_inv_sub; [exact Hc|done|set_solver|]. intros y _. by apply same_core_id.
Qed.

(** Every operation the client may do is defined and keeps the invariant. *)
Lemma client_step_inv s op F W :
  client_inv (pool s) (globalId s) F W (owned s) -> client_may s op ->
  exists s' F' W', client_run s op = Some s' /\ client_inv (pool s') (globalId s') F' W' (owned s').
Proof.
  intros Hc Hmay. pose proof (ci_inj _ _ _ _ _ Hc) as Hi. destruct s as [p g D].
  assert (Hperm : forall x, x ∈ D -> inj_inv p F W (x :: remove_ptr x D) /\ forall y, y ∈ remove_ptr x D -> y ∈ D).
  { intros x Hx. cbn in Hi. pose proof (remove_ptr_perm _ _ _ _ _ (ii_pool _ _ _ _ Hi) Hx) as HP.
    split; [by eapply inj_inv_perm|]. intros y Hy. rewrite HP. set_solver. }
  destruct op as [|x f|x|x|id|now]; cbn [client_run client_may pool globalId owned] in *.
  - destruct Hmay as [Hg Hu]. destruct (alloc_inv _ _ _ _ _ Hc Hg Hu) as (x & p' & F' & g' & -> & Hc' & _).
    eexists _, F', W. split; [done|]. done.
  - destruct Hmay as [Hx Hf]. destruct (setup_inj _ _ _ _ _ _ Hi Hx Hf) as (c & h' & _ & -> & _ & _ & Hid & Hc').
    eexists _, F, W. split; [done|]. by eapply client_inv_sub; [exact Hc|exact Hc'|..].
  - destruct Hmay as [Hx He]. destruct (Hperm x Hx) as [Hi' Hr].
    destruct (wait_inv _ _ _ _ _ Hi' He) as (p' & W1 & W2 & -> & -> & Hc' & Hs & _).
    eexists _, F, _. split; [done|]. eapply client_inv_sub; [exact Hc|exact Hc'| |intros y _; by apply same_core_id].
    clear -Hr Hx. set_solver.
  - destruct (Hperm x Hmay) as [Hi' Hr]. destruct (drop_inv _ _ _ _ _ Hi') as (p' & -> & Hc' & Hs).
    eexists _, _, W. split; [done|]. eapply client_inv_sub; [exact Hc|exact Hc'| |intros y _; by apply same_core_id].
    clear -Hr. set_solver.
  - pose proof (reply_inv _ _ _ _ id Hi) as Hr. destruct (findChannel p id) as [x|].
    + destruct Hr as (_ & p' & W1 & W2 & -> & -> & Hc' & Hs). eexists _, _, _. split; [done|].
      eapply client_inv_sub; [exact Hc|exact Hc'|clear; set_solver|intros y _; by apply same_core_id].
    + eexists _, F, W. split; [done|]. done.
  - destruct (sweep_inv _ _ _ _ now Hi) as (p1 & p' & W1 & W2 & -> & _ & _ & -> & _ & _ & E2 & Hc' & Hs).
    cbn [mbind option_bind]. rewrite E2. eexists _, _, _. split; [done|].
    eapply client_inv_sub; [exact Hc|exact Hc'|clear; set_solver|intros y _; by apply same_core_id].
Qed.

Lemma reachable_inv s : reachable s -> exists F W, client_inv (pool s) (globalId s) F W (owned s).
Proof.
  induction 1 as [|s op s' Hr (F & W & IH) Hmay E]; [exists [], []; apply client_inv_new|].
  destruct (client_step_inv _ _ _ _ IH Hmay) as (s1 & F' & W' & E' & Hi). simplify_eq. eauto.
Qed.

(** The state after an operation. *)
Definition after (s : client) (op : client_op) : client := default s (client_run s op).

Lemma after_run s op : reachable s -> client_may s op -> client_run s op = Some (after s op).
Proof.
  intros Hr Hmay. destruct (reachable_inv s Hr) as (F & W & Hc).
  destruct (client_step_inv _ _ _ _ Hc Hmay) as (s' & _ & _ & E & _). unfold after. by rewrite E.
Qed.

Lemma after_reach s op : reachable s -> client_may s op -> reachable (after s op).
Proof. intros Hr Hmay. eapply reach_step; [done|done|]. by apply after_run. Qed.

(** Two requests that wait for a reply, the second one expiring first. *)
Definition sample_ops : list client_op :=
  [OpAlloc; OpAlloc; OpSetup 1 (setExpireTime 20); OpSetup 2 (setExpireTime 10)].

Definition sample : client := foldl after client_new sample_ops.

Lemma sample_reachable : reachable sample.
Proof.
  unfold sample, sample_ops. cbn [foldl].
  repeat (apply after_reach); [apply reach_new|..]; (split; [first [by vm_compute|apply (bool_decide_unpack _); by vm_compute]|try by vm_compute]); done.
Qed.

Definition sample_waiting : client := foldl after sample [OpWait 1; OpWait 2].

Lemma sample_waiting_reachable : reachable sample_waiting.
Proof.
  unfold sample_waiting. cbn [foldl].
  do 2 (apply after_reach; [|split; [apply (bool_decide_unpack _); by vm_compute|by vm_compute]]); exact sample_reachable.
Qed.

End Client.

(** ** Properties *)

(** C27: In every state a client can reach, every operation it may perform is
    defined (no use of a dangling or null channel pointer, every list walk
    ends), and the pool's channels are exactly partitioned: each of the 64 per
    cluster is free, waiting or owned by the client, the waiting list is
    sorted by expiration time, the map holds exactly the waiting channels
    under their ids, and the use count is the number of channels in use. *)
Theorem channelpool_reachable_safe s :
  reachable s ->
  (forall op, client_may s op -> exists s', client_run s op = Some s' /\ reachable s') /\
  exists F W,
    F ++ W ++ owned s ≡ₚ Pos.of_succ_nat <$> seq 0 (64 * length (_clusterList (pool s))) /\
    dlseg (heap (pool s)) None F None /\ _freeListHead (pool s) = head F /\ _freeListTail (pool s) = last F /\
    dlseg (heap (pool s)) None W None /\ _waitReplyHead (pool s) = head W /\ _waitReplyTail (pool s) = last W /\
    sorted (heap (pool s)) W /\
    (forall id x, findChannel (pool s) id = Some x <-> x ∈ W /\ chan_id (heap (pool s)) x = id) /\
    _useCount (pool s) = Z.of_nat (length W + length (owned s)).
Proof.
  intros Hr. destruct (reachable_inv s Hr) as (F & W & Hc). split.
  - intros op Hmay. destruct (client_step_inv _ _ _ _ Hc Hmay) as (s' & _ & _ & E & _). eauto using reach_step.
  - pose proof (ci_pool _ _ _ _ _ Hc) as Hi. exists F, W.
    pose proof (pool_perm _ _ _ _ _ _ Hi) as HP. rewrite !app_nil_r in HP.
    destruct Hi as [? ? ? ? HF ? ? HW ? ? ? ? HS ? Hm Hu ?]. split; [done|]. split; [done|]. split; [done|]. split; [done|].
    split; [done|]. split; [done|]. split; [done|]. split; [done|]. split; [done|]. rewrite Hu. simpl. lia.
Qed.

Lemma channelpool_reachable_safe_witness :
  reachable sample_waiting /\ client_may sample_waiting (OpReply 1) /\
  exists s', client_run sample_waiting (OpReply 1) = Some s' /\ reachable s'.
Proof.
  split; [exact sample_waiting_reachable|]. split; [done|].
  apply (channelpool_reachable_safe sample_waiting); [exact sample_waiting_reachable|done].
Defined.

(** Allocating a channel draws a new id: it exceeds every id drawn
    before (by at most three), its low 32 bits are neither 0 nor the ids
    reserved for HTTP and administration, no channel in use has it, and the
    channel handed out was not in use. *)
Theorem allocChannel_fresh_id s :
  reachable s -> client_may s OpAlloc ->
  exists x p g, allocChannel (pool s) 0 (globalId s) = Some (x, p, g) /\
    (exists c, heap p !! x = Some (Channel_init g c)) /\ globalId s < g <= globalId s + 3 /\ ~ reserved_low g /\
    x ∉ owned s /\ findChannel (pool s) g = None /\
    (forall y, y ∈ owned s -> chan_id (heap (pool s)) y < g) /\
    (forall id y, findChannel (pool s) id = Some y -> y <> x /\ id < g).
Proof.
  intros Hr [Hg Hu]. destruct (reachable_inv s Hr) as (F & W & Hc).
  destruct (alloc_inv _ _ _ _ _ Hc Hg Hu) as (x & p & F' & g & E & Hc' & Hx & Hid & Hrange & Hres).
  exists x, p, g. pose proof (ci_ids _ _ _ _ _ Hc) as Hids.
  assert (Hfind : forall id y, findChannel (pool s) id = Some y -> y <> x /\ id < g).
  { intros id y [Hy <-]%(pi_map _ _ _ _ _ _ (ci_pool _ _ _ _ _ Hc)). split; [intros ->; apply Hx; clear -Hy; set_solver|].
    specialize (Hids y ltac:(clear -Hy; set_solver)). lia. }
  split_and!; [done|rewrite <- Hid; by eapply alloc_init|lia|lia|done|clear -Hx; set_solver| |
    intros y Hy; specialize (Hids y ltac:(clear -Hy; set_solver)); lia|done].
  destruct (findChannel (pool s) g) as [y|] eqn:Ef; [|done]. destruct (Hfind _ _ Ef). lia.
Qed.

Lemma allocChannel_fresh_id_witness :
  client_may sample_waiting OpAlloc /\ exists x p g, allocChannel (pool sample_waiting) 0 (globalId sample_waiting) = Some (x, p, g) /\ 2 < g.
Proof.
  assert (H : client_may sample_waiting OpAlloc) by (by vm_compute). split; [exact H|].
  destruct (allocChannel_fresh_id sample_waiting sample_waiting_reachable H) as (x & p & g & E & _ & [Hg _] & _).
  exists x, p, g. split; [exact E|]. exact Hg.
Defined.

(** A request waits until its reply: once its channel is on the waiting
    list the reply's id finds that channel, with the handler and arguments it
    was given; giving the channel back makes the id unknown, so a second reply
    with the same id finds nothing, and no other request is affected. *)
Theorem channel_request_reply s x :
  reachable s -> client_may s (OpWait x) ->
  let id := chan_id (heap (pool s)) x in
  exists s1 s2, client_run s (OpWait x) = Some s1 /\ client_run s1 (OpReply id) = Some s2 /\
    findChannel (pool s) id = None /\ findChannel (pool s1) id = Some x /\ findChannel (pool s2) id = None /\
    core <$> heap (pool s1) !! x = core <$> heap (pool s) !! x /\
    (forall id', id' <> id -> findChannel (pool s1) id' = findChannel (pool s) id' /\
       findChannel (pool s2) id' = findChannel (pool s) id') /\
    _freeListTail (pool s2) = Some x.
Proof.
  intros Hr [Hx He] id. destruct (reachable_inv s Hr) as (F & W & Hc).
  pose proof (remove_ptr_perm _ _ _ _ _ (ci_pool _ _ _ _ _ Hc) Hx) as HP.
  pose proof (ci_inj _ _ _ _ _ Hc) as Hi. pose proof (inj_fresh _ _ _ _ _ Hi Hx) as Hnone.
  destruct (wait_inv _ _ _ _ _ (inj_inv_perm _ _ _ _ _ HP Hi) He) as (p1 & W1 & W2 & E1 & EW & Hc1 & Hs & Hm).
  pose proof (reply_inv _ _ _ _ id Hc1) as Hrep.
  assert (Hf1 : findChannel p1 id = Some x) by (unfold findChannel; rewrite Hm; apply lookup_insert_eq).
  rewrite Hf1 in Hrep. destruct Hrep as (_ & p2 & V1 & V2 & E2 & EV & Hc2 & Hs2).
  assert (Hf2 : forall id', findChannel p2 id' = if decide (id' = id) then None else findChannel (pool s) id').
  { intros id'. rewrite EV in Hc1. eapply reply_lookup; [exact Hc1|exact Hc2|exact Hs2|..].
    - unfold id. by apply same_core_id.
    - intros Hne. unfold findChannel. rewrite Hm. by apply lookup_insert_ne. }
  eexists _, _. cbn [client_run]. rewrite E1. cbn [mbind option_bind].
  split; [done|]. cbn [pool]. rewrite Hf1, E2. cbn [mbind option_bind]. split; [done|]. cbn [pool].
  split; [done|]. split; [done|]. split; [rewrite Hf2; by rewrite decide_True|]. split; [apply Hs|]. split.
  - intros id' Hne. split; [unfold findChannel; rewrite Hm; by apply lookup_insert_ne|]. rewrite Hf2. by rewrite decide_False.
  - rewrite (pi_ftail _ _ _ _ _ _ (ii_pool _ _ _ _ Hc2)). by rewrite last_snoc.
Qed.

Lemma channel_request_reply_witness :
  client_may sample (OpWait 1) /\ exists s1, client_run sample (OpWait 1) = Some s1 /\ findChannel (pool s1) 1 = Some 1%positive.
Proof.
  assert (H : client_may sample (OpWait 1)) by (split; [apply (bool_decide_unpack _); by vm_compute|by vm_compute]).
  split; [exact H|].
  destruct (channel_request_reply sample 1 sample_reachable H) as (s1 & s2 & E & _ & _ & Hf & _).
  exists s1. split; [exact E|]. exact Hf.
Defined.

(** A sweep at [now] ends exactly the requests whose expiration time has
    passed: [getTimeoutList] returns them as a list in expiration order, they
    go back to the free list, their ids become unknown, and every other
    request still waits. *)
Theorem channel_timeout_exact s now :
  reachable s ->
  exists l p1 s', getTimeoutList (pool s) now = Some (head l, p1) /\ dlseg (heap p1) None l None /\
    sorted (heap (pool s)) l /\ client_run s (OpSweep now) = Some s' /\
    (forall x, x ∈ l <-> findChannel (pool s) (chan_id (heap (pool s)) x) = Some x /\ expire (heap (pool s)) x < now) /\
    (forall id x, findChannel (pool s') id = Some x <->
       findChannel (pool s) id = Some x /\ now <= expire (heap (pool s)) x) /\
    _useCount (pool s') = _useCount (pool s) - Z.of_nat (length l).
Proof.
  intros Hr. destruct (reachable_inv s Hr) as (F & W & Hc).
  destruct (pool_getTimeoutList_ok (pool s) F W (owned s) now (ci_pool _ _ _ _ _ Hc)) as (p1 & W1 & W2 & -> & H1 & H2 & E1 & Hp1 & Hs1).
  destruct (appendFreeList_ok _ _ _ _ _ _ Hp1) as (p2 & E2 & Hp2 & Hs2 & _).
  pose proof (ci_pool _ _ _ _ _ Hc) as Hp.
  exists W1, p1, (mkClient p2 (globalId s) (owned s)). split; [done|]. split; [apply (pi_out _ _ _ _ _ _ Hp1)|].
  split; [pose proof (pi_sorted _ _ _ _ _ _ Hp) as HS; apply sorted_app_iff in HS; tauto|].
  split; [cbn [client_run]; rewrite E1; cbn [mbind option_bind]; by rewrite E2|]. cbn [pool].
  assert (Hid : forall y, chan_id (heap p2) y = chan_id (heap (pool s)) y).
  { intros y. apply same_core_id. by eapply same_core_trans. }
  split_and!.
  - intros x. unfold findChannel. rewrite (pi_map _ _ _ _ _ _ Hp), elem_of_app. split.
    + intros Hx. split; [tauto|by apply H1].
    + intros [[[Hx|Hx] _] Hlt]; [done|]. specialize (H2 x Hx). lia.
  - intros id x. unfold findChannel. rewrite (pi_map _ _ _ _ _ _ Hp), (pi_map _ _ _ _ _ _ Hp2), Hid, elem_of_app. split.
    + intros [Hx <-]. split; [tauto|by apply H2].
    + intros [[[Hx|Hx] <-] Hle]; [specialize (H1 x Hx); lia|done].
  - rewrite (pi_uses _ _ _ _ _ _ Hp), (pi_uses _ _ _ _ _ _ Hp2), length_app. simpl. lia.
Qed.

Lemma channel_timeout_exact_witness :
  reachable sample_waiting /\ exists s', client_run sample_waiting (OpSweep 15) = Some s' /\
    findChannel (pool s') 1 = Some 1%positive.
Proof.
  split; [exact sample_waiting_reachable|].
  destruct (channel_timeout_exact sample_waiting 15 sample_waiting_reachable) as (l & p1 & s' & _ & _ & _ & E & _ & H & _).
  exists s'. split; [exact E|]. apply H. split; [by vm_compute|by vm_compute].
Defined.
