(* ===== verification/Connection.v ===== *)
(** * Connection

    Sources: connection.h and connection.cpp under
    src/agent_engine/network/anet/.

    The part of a connection that does not depend on the transport: the queue
    of packets to send, the pool of channels for the requests that wait for a
    reply, posting, replies, time-outs and closing.  The packets that were
    posted live in a heap; what the connection does to the outside (calls to
    handlers, to the I/O component and to the condition variable) is recorded
    in order in a trace.  A poster that blocks on the condition variable is a
    result of its own, and goes on with [post_wake]. *)

From S2P Require Import Prelude DataBuffer PacketQueue Packet Streamer ChannelPool.

(** ** State *)

Record ConnConfig := mkConfig {
  _isServer : bool;
  existPacketHeader : bool;                  (* of the streamer *)
  _serverAdapter : bool;                     (* not null *)
  _defaultPacketHandler : option positive;
  _queueTimeout : Z;                         (* int, milliseconds *)
  _queueLimit : Z                            (* size_t *)
}.

Record ConnStat := mkStat {
  totalRxBytes : Z; totalTxBytes : Z; packetPosted : Z; packetHandled : Z;
  packetTimeout : Z; queueSize : Z; callWriteCount : Z; callReadCount : Z
}.

Definition ConnStat_new : ConnStat := mkStat 0 0 0 0 0 0 0 0.

Definition READ_WRITE_SIZE : Z := 8192.

Section Connection.

Context {P : Type} `{IPacket P}.
Context (spaceUsed : P -> Z).   (* the virtual [Packet::getSpaceUsed] *)

Inductive event :=
| EvPosted (x : ptr) (handler args : option positive)     (* a post succeeded *)
| EvCallback (handler : positive) (what : dyn_packet P) (args : option positive)
| EvServer (what : dyn_packet P)                          (* [_serverAdapter->handlePacket] *)
| EvDequeue (cb : positive)
| EvFree (x : ptr)                                        (* a posted packet is freed *)
| EvFreeReply (what : dyn_packet P)                       (* a reply nobody waits for *)
| EvEnableWrite (on : bool)
| EvCloseIoc                                              (* [closeAndSetState] *)
| EvShutdown
| EvBroadcast
| EvSent (bytes : list Z).

Record Connection := mkConn {
  cfg : ConnConfig;
  packets : gmap ptr P;
  links : PacketQueue.heap;
  _outputQueue : PacketQueue;
  _myQueue : PacketQueue;
  _channelPool : ChannelPool;
  _globalChannelId : Z;
  _waitingThreads : Z;
  _closed : bool;
  _lasttime : Z;
  _outputQueueSize : Z;
  _outputQueueSpaceUsed : Z;
  _stats : ConnStat;
  trace : list event
}.

Definition set_queue (h : PacketQueue.heap) (q : PacketQueue) (c : Connection) : Connection :=
  mkConn (cfg c) (packets c) h q (_myQueue c) (_channelPool c) (_globalChannelId c) (_waitingThreads c) (_closed c) (_lasttime c) (_outputQueueSize c) (_outputQueueSpaceUsed c) (_stats c) (trace c).
Definition set_queues (h : PacketQueue.heap) (q m : PacketQueue) (c : Connection) : Connection :=
  mkConn (cfg c) (packets c) h q m (_channelPool c) (_globalChannelId c) (_waitingThreads c) (_closed c) (_lasttime c) (_outputQueueSize c) (_outputQueueSpaceUsed c) (_stats c) (trace c).
Definition set_pool (p : ChannelPool) (c : Connection) : Connection :=
  mkConn (cfg c) (packets c) (links c) (_outputQueue c) (_myQueue c) p (_globalChannelId c) (_waitingThreads c) (_closed c) (_lasttime c) (_outputQueueSize c) (_outputQueueSpaceUsed c) (_stats c) (trace c).
Definition set_ids (g : Z) (c : Connection) : Connection :=
  mkConn (cfg c) (packets c) (links c) (_outputQueue c) (_myQueue c) (_channelPool c) g (_waitingThreads c) (_closed c) (_lasttime c) (_outputQueueSize c) (_outputQueueSpaceUsed c) (_stats c) (trace c).
Definition set_waiting (n : Z) (c : Connection) : Connection :=
  mkConn (cfg c) (packets c) (links c) (_outputQueue c) (_myQueue c) (_channelPool c) (_globalChannelId c) n (_closed c) (_lasttime c) (_outputQueueSize c) (_outputQueueSpaceUsed c) (_stats c) (trace c).
Definition set_closed (v : bool) (c : Connection) : Connection :=
  mkConn (cfg c) (packets c) (links c) (_outputQueue c) (_myQueue c) (_channelPool c) (_globalChannelId c) (_waitingThreads c) v (_lasttime c) (_outputQueueSize c) (_outputQueueSpaceUsed c) (_stats c) (trace c).
Definition set_lasttime (t : Z) (c : Connection) : Connection :=
  mkConn (cfg c) (packets c) (links c) (_outputQueue c) (_myQueue c) (_channelPool c) (_globalChannelId c) (_waitingThreads c) (_closed c) t (_outputQueueSize c) (_outputQueueSpaceUsed c) (_stats c) (trace c).
Definition set_counts (n s : Z) (c : Connection) : Connection :=
  mkConn (cfg c) (packets c) (links c) (_outputQueue c) (_myQueue c) (_channelPool c) (_globalChannelId c) (_waitingThreads c) (_closed c) (_lasttime c) n s (_stats c) (trace c).
Definition set_stats (st : ConnStat) (c : Connection) : Connection :=
  mkConn (cfg c) (packets c) (links c) (_outputQueue c) (_myQueue c) (_channelPool c) (_globalChannelId c) (_waitingThreads c) (_closed c) (_lasttime c) (_outputQueueSize c) (_outputQueueSpaceUsed c) st (trace c).
Definition set_config (g : ConnConfig) (c : Connection) : Connection :=
  mkConn g (packets c) (links c) (_outputQueue c) (_myQueue c) (_channelPool c) (_globalChannelId c) (_waitingThreads c) (_closed c) (_lasttime c) (_outputQueueSize c) (_outputQueueSpaceUsed c) (_stats c) (trace c).
Definition emit (e : event) (c : Connection) : Connection :=
  mkConn (cfg c) (packets c) (links c) (_outputQueue c) (_myQueue c) (_channelPool c) (_globalChannelId c) (_waitingThreads c) (_closed c) (_lasttime c) (_outputQueueSize c) (_outputQueueSpaceUsed c) (_stats c) (trace c ++ [e]).
Definition put_packet (x : ptr) (p : P) (c : Connection) : Connection :=
  mkConn (cfg c) (<[x := p]> (packets c)) (<[x := PacketQueue.mkNode (Packet._expireTime (base p)) None]> (links c)) (_outputQueue c) (_myQueue c) (_channelPool c) (_globalChannelId c) (_waitingThreads c) (_closed c) (_lasttime c) (_outputQueueSize c) (_outputQueueSpaceUsed c) (_stats c) (trace c).
Definition drop_packet (x : ptr) (c : Connection) : Connection :=
  mkConn (cfg c) (delete x (packets c)) (delete x (links c)) (_outputQueue c) (_myQueue c) (_channelPool c) (_globalChannelId c) (_waitingThreads c) (_closed c) (_lasttime c) (_outputQueueSize c) (_outputQueueSpaceUsed c) (_stats c) (trace c ++ [EvFree x]).

Definition with_posted (s : ConnStat) : ConnStat :=
  mkStat (totalRxBytes s) (totalTxBytes s) (i64 (packetPosted s + 1)) (packetHandled s) (packetTimeout s)
         (queueSize s) (callWriteCount s) (callReadCount s).
Definition with_handled (s : ConnStat) : ConnStat :=
  mkStat (totalRxBytes s) (totalTxBytes s) (packetPosted s) (i64 (packetHandled s + 1)) (packetTimeout s)
         (queueSize s) (callWriteCount s) (callReadCount s).
Definition with_timeout (s : ConnStat) : ConnStat :=
  mkStat (totalRxBytes s) (totalTxBytes s) (packetPosted s) (packetHandled s) (i64 (packetTimeout s + 1))
         (queueSize s) (callWriteCount s) (callReadCount s).

Definition Connection_new (existHeader isServer adapter : bool) (now : Z) : Connection :=
  mkConn (mkConfig isServer existHeader adapter None 5000 (if existHeader then 50 else 1))
         ∅ ∅ PacketQueue_new PacketQueue_new ChannelPool_new 0 0 false now 0 0 ConnStat_new [].

Definition isClosed (c : Connection) : bool := _closed c.

(** ** Callbacks *)

(** A call to a handler between [beforeCallback] and [afterCallback]. *)
Definition callback (e : event) (c : Connection) : Connection :=
  set_stats (with_handled (_stats c)) (emit e c).

Definition updateQueueStatus (p : P) (pushOrPopFlag : bool) (c : Connection) : Connection :=
  if pushOrPopFlag
  then set_counts (i32 (_outputQueueSize c + 1)) (i64 (_outputQueueSpaceUsed c + spaceUsed p)) c
  else set_counts (i32 (_outputQueueSize c - 1)) (i64 (_outputQueueSpaceUsed c - spaceUsed p)) c.

Definition wakeUpSender (c : Connection) : Connection :=
  if 0 <? _queueLimit (cfg c) then
    if (getUseListCount (_channelPool c) <? _queueLimit (cfg c)) || isClosed c then
      if negb (_waitingThreads c =? 0) then emit EvBroadcast c else c
    else c
  else c.

(** The handler of a channel, or else the connection's. *)
Definition effective (dflt : option positive) (ch : Channel) : option positive :=
  match _handler ch with None => dflt | h => h end.

(** ** postPacket *)

Inductive post_result := Posted | Refused (p : option P) | Blocked (p : P).

(** The client's part: a channel for the packet. *)
Definition bind_channel (p : P) (handler args : option positive) (c : Connection) : option (P * Connection) :=
  let chid := if existPacketHeader (cfg c) then 0 else HTTP_CHANNEL_ID in
  '(ch, pool, g) ← allocChannel (_channelPool c) chid (_globalChannelId c);
  h ← upd (heap pool) ch (setHandler handler);
  h ← upd h ch (setArgs args);
  obj ← h !! ch;
  '(p, id) ← setChannel (Some (ch, _id obj)) p;
  id ← id;
  h ← upd h ch (setId id);
  Some (p, set_ids g (set_pool (with_heap pool h) c)).

(** From the check for a channel on. *)
Definition post_finish (x : ptr) (p : P) (handler args : option positive) (c : Connection)
  : option (post_result * Connection) :=
  '(p, c) ← (if _isServer (cfg c) then
               if existPacketHeader (cfg c)
               then _ ← assertb (negb (getChannelId p =? 0)); Some (p, c)
               else Some (p, c)
             else bind_channel p handler args c);
  let qsize := i32 (q_size (_outputQueue c)) in
  let c := put_packet x p c in
  '(h, q) ← ordered_push (links c) (_outputQueue c) x;
  let c := set_queue h q c in
  let c := updateQueueStatus p true c in
  let c := if qsize =? 0 then emit (EvEnableWrite true) c else c in
  let c := set_stats (with_posted (_stats c)) c in
  Some (Posted, emit (EvPosted x handler args) c).

(** The waiting loop: its condition, and what follows it. *)
Definition post_check (x : ptr) (p : P) (handler args : option positive) (c : Connection)
  : option (post_result * Connection) :=
  if negb (_isServer (cfg c)) && (0 <? _queueLimit (cfg c)) then
    if (_queueLimit (cfg c) <=? getUseListCount (_channelPool c)) && negb (isClosed c) then
      Some (Blocked p, set_waiting (i32 (_waitingThreads c + 1)) c)
    else if isClosed c then Some (Refused (Some p), c)
    else post_finish x p handler args c
  else post_finish x p handler args c.

Definition post_wake (x : ptr) (p : P) (handler args : option positive) (c : Connection)
  : option (post_result * Connection) :=
  post_check x p handler args (set_waiting (i32 (_waitingThreads c - 1)) c).

(** [now0] and [now] are the times the two calls of [getTime] return. *)
Definition postPacket (now0 now : Z) (packet : option (ptr * P)) (handler args : option positive) (block : bool)
  (c : Connection) : option (post_result * Connection) :=
  match packet with
  | None => Some (Refused None, c)
  | Some (x, p) =>
      let p := if Packet._expireTime (base p) =? 0
               then upd_base (Packet.setExpireTime now0 (_queueTimeout (cfg c))) p else p in
      if isClosed c then Some (Refused (Some p), c)
      else
        let client := negb (_isServer (cfg c)) in
        let idle := q_size (_outputQueue c) =? 0 in
        if client && negb idle && (i64 (_lasttime c + 4000000) <? now) then Some (Refused (Some p), c)
        else
          let c := if client && idle then set_lasttime now c else c in
          if client && (0 <? _queueLimit (cfg c)) && negb block &&
             (_queueLimit (cfg c) <=? getUseListCount (_channelPool c))
          then Some (Refused (Some p), c)
          else post_check x p handler args c
  end.

(** ** handlePacket *)

Definition dyn_setChannelId (chid : Z) (d : dyn_packet P) : option (dyn_packet P) :=
  match d with inl p => inl <$> setChannelId chid p | inr p => inr <$> setChannelId chid p end.
Definition dyn_getChannelId (d : dyn_packet P) : Z :=
  match d with inl p => getChannelId p | inr p => getChannelId p end.

Definition handlePacket (packet : dyn_packet P) (c : Connection) : option (bool * Connection) :=
  if _isServer (cfg c) then
    _ ← assertb (_serverAdapter (cfg c));
    Some (true, callback (EvServer packet) c)
  else
    packet ← (if existPacketHeader (cfg c) then Some packet else dyn_setChannelId HTTP_CHANNEL_ID packet);
    match findChannel (_channelPool c) (dyn_getChannelId packet) with
    | None => Some (false, emit (EvFreeReply packet) c)
    | Some x =>
        ch ← heap (_channelPool c) !! x;
        '(_, pool) ← freeChannel (_channelPool c) (Some x);
        let c := set_pool pool c in
        handler ← effective (_defaultPacketHandler (cfg c)) ch;
        let c := callback (EvCallback handler packet (_args ch)) c in
        Some (true, wakeUpSender c)
    end.

(** ** checkTimeout *)

Definition notify (handler : option positive) (cmd : ControlPacket) (args : option positive) (c : Connection) : Connection :=
  match handler with
  | None => c
  | Some hd => callback (EvCallback hd (inr cmd) args) c
  end.

(** The loop over the expired channels. *)
Fixpoint timeout_channels (fuel : nat) (cmd : ControlPacket) (channel : option ptr) (c : Connection) : option Connection :=
  match channel with
  | None => Some c
  | Some x =>
      ch ← heap (_channelPool c) !! x;
      let c := notify (effective (_defaultPacketHandler (cfg c)) ch) cmd (_args ch) c in
      let c := set_stats (with_timeout (_stats c)) c in
      match fuel with O => None | S fuel => timeout_channels fuel cmd (ChannelPool._next ch) c end
  end.

(** One packet of the queue that expired. *)
Definition timeout_packet (cmd : ControlPacket) (x : ptr) (p : P) (c : Connection) : option Connection :=
  let c := updateQueueStatus p false c in
  c ← (if _isServer (cfg c) then
         Some (if _serverAdapter (cfg c) then callback (EvServer (inr cmd)) c else c)
       else
         match _channel (base p) with
         | None => Some c
         | Some y =>
             ch ← heap (_channelPool c) !! y;
             '(_, pool) ← freeChannel (_channelPool c) (Some y);
             Some (notify (effective (_defaultPacketHandler (cfg c)) ch) cmd (_args ch) (set_pool pool c))
         end);
  let c := set_stats (with_timeout (_stats c)) c in
  Some (drop_packet x c).

Fixpoint timeout_packets (fuel : nat) (cmd : ControlPacket) (packetList : option ptr) (c : Connection) : option Connection :=
  match packetList with
  | None => Some c
  | Some x =>
      p ← packets c !! x;
      next ← get_next (links c) x;
      c ← timeout_packet cmd x p c;
      match fuel with O => None | S fuel => timeout_packets fuel cmd next c end
  end.

Definition timeout_cmd (now : Z) : ControlPacket :=
  if now =? TimeUtil_MAX then ConnectionClosedPacket else TimeoutPacket.

Definition check_channels (now : Z) (c : Connection) : option Connection :=
  if _isServer (cfg c) then Some c
  else
    '(list, pool) ← ChannelPool.getTimeoutList (_channelPool c) now;
    let c := set_pool pool c in
    match list with
    | None => Some c
    | Some _ =>
        let c := if negb (existPacketHeader (cfg c)) && negb (now =? TimeUtil_MAX) then emit EvCloseIoc c else c in
        c ← timeout_channels (S (size (heap pool))) (timeout_cmd now) list c;
        '(_, pool) ← appendFreeList (_channelPool c) list;
        Some (set_pool pool c)
    end.

Definition check_queue (now : Z) (c : Connection) : option Connection :=
  '(h, q, list) ← PacketQueue.getTimeoutList (links c) (_outputQueue c) now;
  timeout_packets (S (size h)) (timeout_cmd now) list (set_queue h q c).

Definition checkTimeout (now : Z) (c : Connection) : option Connection :=
  c ← check_channels now c;
  c ← check_queue now c;
  Some (wakeUpSender c).

(** ** A packet leaves the queue

    What [TCPConnection::writeData] does with a packet after encoding it. *)

Definition send_channel (p : P) (c : Connection) : option Connection :=
  match _channel (base p) with
  | None => Some c
  | Some x =>
      ch ← heap (_channelPool c) !! x;
      match effective (_defaultPacketHandler (cfg c)) ch with
      | None => '(_, pool) ← freeChannel (_channelPool c) (Some x); Some (set_pool pool c)
      | Some _ =>
          h ← upd (heap (_channelPool c)) x (ChannelPool.setExpireTime (Packet._expireTime (base p)));
          h ← upd h x (setTimeoutMs (Packet._timeoutMs (base p)));
          pool ← addToWaitingList (with_heap (_channelPool c) h) x;
          Some (set_pool pool c)
      end
  end.

Definition sent_packet (x : ptr) (p : P) (c : Connection) : option Connection :=
  c ← send_channel p c;
  let c := updateQueueStatus p false c in
  let c := match invokeDequeueCB (base p) with None => c | Some cb => emit (EvDequeue cb) c end in
  Some (drop_packet x c).

(** ** Opening and closing *)

Definition closeHook (c : Connection) : option Connection :=
  let first := negb (_closed c) in
  let c := set_closed true c in
  let c := if first && (_isServer (cfg c) && _serverAdapter (cfg c))
           then callback (EvServer (inr CloseConnectionPacket)) c else c in
  checkTimeout TimeUtil_MAX c.

Definition openHook (c : Connection) : Connection := set_closed false c.

Definition setQueueLimit (limit : Z) (c : Connection) : bool * Connection :=
  if existPacketHeader (cfg c) then
    let g := cfg c in
    (true, set_config (mkConfig (_isServer g) (existPacketHeader g) (_serverAdapter g)
                                (_defaultPacketHandler g) (_queueTimeout g) limit) c)
  else (limit =? 1, c).

Definition setDefaultPacketHandler (ph : option positive) (c : Connection) : Connection :=
  let g := cfg c in
  set_config (mkConfig (_isServer g) (existPacketHeader g) (_serverAdapter g) ph (_queueTimeout g) (_queueLimit g)) c.

Definition setQueueTimeout (t : Z) (c : Connection) : Connection :=
  let g := cfg c in
  set_config (mkConfig (_isServer g) (existPacketHeader g) (_serverAdapter g) (_defaultPacketHandler g) t (_queueLimit g)) c.

End Connection.

Arguments event : clear implicits.
Arguments Connection : clear implicits.

(** ** Channel ids of a packet type *)

(** What the connection needs from a packet: ids below [chid_max] are kept,
    and neither [setChannelId] nor [encode] touches the expiration time or the
    channel pointer. *)
Class ChannelPacket (P : Type) `{IPacket P} := {
  chid_max : Z;
  chid_max_range : 2 ^ 32 <= chid_max <= 2 ^ 60;
  setChannelId_ok : forall id (p : P), 0 <= id < chid_max ->
    exists p', setChannelId id p = Some p' /\ getChannelId p' = id /\
      Packet._expireTime (base p') = Packet._expireTime (base p) /\ _channel (base p') = _channel (base p);
  encode_keeps : forall (p : P) b ok p' b', encode p b = Some (ok, p', b') ->
    Packet._expireTime (base p') = Packet._expireTime (base p) /\ _channel (base p') = _channel (base p)
}.

(** ** The invariant *)

(** The answers that are owed for the channel [x]: the handler to call and
    its argument. *)
Definition owes (dflt : option positive) (h : cheap) (x : ptr) : list (positive * option positive) :=
  match h !! x with
  | None => []
  | Some ch => match effective dflt ch with None => [] | Some hd => [(hd, _args ch)] end
  end.

(** What of a channel the client sees: its id, handler and arguments. *)
Definition face (ch : Channel) : Z * option positive * option positive := (_id ch, _handler ch, _args ch).

Lemma core_face (a b : option Channel) : core <$> a = core <$> b -> face <$> a = face <$> b.
Proof. destruct a as [a|], b as [b|]; simpl; try done. unfold core, face. intros [= -> -> -> _ _ _]. done. Qed.

Lemma owes_face dflt (h h' : cheap) x : face <$> h' !! x = face <$> h !! x -> owes dflt h' x = owes dflt h x.
Proof.
  unfold owes. destruct (h' !! x) as [a|], (h !! x) as [b|]; simpl; try done.
  unfold face. intros [= _ Hh Ha]. unfold effective. by rewrite Ha, Hh.
Qed.

Lemma face_id (h h' : cheap) x : face <$> h' !! x = face <$> h !! x -> chan_id h' x = chan_id h x.
Proof. unfold chan_id. destruct (h' !! x) as [a|], (h !! x) as [b|]; simpl; try done. by intros [= -> _ _]. Qed.

Lemma owes_list dflt (h h' : cheap) (l : list ptr) :
  (forall x, x ∈ l -> face <$> h' !! x = face <$> h !! x) -> l ≫= owes dflt h' = l ≫= owes dflt h.
Proof.
  induction l as [|x l IH]; intros Hc; [done|]. cbn [mbind list_bind]. rewrite (owes_face dflt h h' x) by (apply Hc; set_solver).
  f_equal. apply IH. intros y Hy. apply Hc. set_solver.
Qed.

Section Invariant.

Context {P : Type} `{IPacket P} {HB : IPacketBase P} {HC : ChannelPacket P} (spaceUsed : P -> Z).

Implicit Types (c : Connection P) (F W D Q M T : list ptr) (h : cheap) (tr : list (event P)).

#[local] Set Default Proof Using "Type+HB+HC".

(** The answers a client asked for, and those it got. *)
Definition asked (dflt : option positive) (tr : list (event P)) : list (positive * option positive) :=
  tr ≫= fun e => match e with
                 | EvPosted _ hd a => match (match hd with None => dflt | _ => hd end) with None => [] | Some hd => [(hd, a)] end
                 | _ => []
                 end.

Definition answers (tr : list (event P)) : list (positive * option positive) :=
  tr ≫= fun e => match e with EvCallback hd _ a => [(hd, a)] | _ => [] end.

Definition dflt_of c : option positive := _defaultPacketHandler (cfg c).

Definition channel_of c (x : ptr) : option ptr := p ← packets c !! x; _channel (base p).

Definition good_id c (id : Z) : Prop :=
  if existPacketHeader (cfg c) then 0 < id <= _globalChannelId c else id = HTTP_CHANNEL_ID.

(** The channels: [W] wait for a reply, [D] belong to packets not yet sent. *)
Record chan_inv c F W D : Prop := {
  ch_pool : inj_inv (_channelPool c) F W D;
  ch_ids : forall x, x ∈ W ++ D -> good_id c (chan_id (heap (_channelPool c)) x);
  ch_g : 0 <= _globalChannelId c < chid_max;
  ch_max : forall x, x ∈ W -> expire (heap (_channelPool c)) x < TimeUtil_MAX;
  ch_handler : forall x ch, x ∈ W -> heap (_channelPool c) !! x = Some ch -> is_Some (effective (dflt_of c) ch);
  ch_owed : _isServer (cfg c) = false ->
            asked (dflt_of c) (trace c) ≡ₚ
            answers (trace c) ++ ((W ++ D) ≫= owes (dflt_of c) (heap (_channelPool c)))
}.

(** The queues: [Q] to be sent, [M] being sent, [T] out of the queues and not
    yet freed. *)
Record queue_inv c Q M T : Prop := {
  qi_out : qrep (links c) (_outputQueue c) Q;
  qi_my : qrep (links c) (_myQueue c) M;
  qi_sorted : PacketQueue.sorted (links c) Q;
  qi_msorted : PacketQueue.sorted (links c) M;
  qi_nodup : NoDup (Q ++ M ++ T);
  qi_alive : forall x, is_Some (packets c !! x) <-> x ∈ Q ++ M ++ T;
  qi_time : forall x p, packets c !! x = Some p -> expireTime (links c) x = Some (Packet._expireTime (base p));
  qi_range : forall x p, packets c !! x = Some p -> 0 < Packet._expireTime (base p) < TimeUtil_MAX;
  qi_bound : Z.of_nat (length (Q ++ M ++ T)) < 2 ^ 31;
  qi_count : _outputQueueSize c = Z.of_nat (length (Q ++ M ++ T))
}.

(** A client's queued packets have the channels [D]; a server has none. *)
Definition linked c W D (R : list ptr) : Prop :=
  if _isServer (cfg c) then W = [] /\ D = [] /\ (forall x, x ∈ R -> channel_of c x = None) else channel_of c <$> R ≡ₚ Some <$> D.

Record conn_inv c F W D Q M T : Prop := {
  cv_chan : chan_inv c F W D;
  cv_queue : queue_inv c Q M T;
  cv_linked : linked c W D (Q ++ M ++ T);
  cv_limit : 0 < _queueLimit (cfg c) -> Z.of_nat (length (W ++ D)) <= _queueLimit (cfg c)
}.

Lemma asked_app dflt t1 t2 : asked dflt (t1 ++ t2) = asked dflt t1 ++ asked dflt t2.
Proof. unfold asked. apply bind_app. Qed.

Lemma answers_app t1 t2 : answers (t1 ++ t2) = answers t1 ++ answers t2.
Proof. unfold answers. apply bind_app. Qed.

(** Operations that change neither queue, pool nor the trace's answers. *)
Definition same_view c c' : Prop :=
  cfg c' = cfg c /\ packets c' = packets c /\ links c' = links c /\ _outputQueue c' = _outputQueue c /\
  _myQueue c' = _myQueue c /\ _channelPool c' = _channelPool c /\ _globalChannelId c' = _globalChannelId c /\
  _outputQueueSize c' = _outputQueueSize c /\
  asked (dflt_of c) (trace c') = asked (dflt_of c) (trace c) /\ answers (trace c') = answers (trace c).

Lemma same_view_inv c c' F W D Q M T : same_view c c' -> conn_inv c F W D Q M T -> conn_inv c' F W D Q M T.
Proof.
  unfold same_view, dflt_of. intros (E1 & E2 & E3 & E4 & E5 & E6 & E7 & E8 & E9 & E10) [[] [] Hl Hlim].
  split; [split|split| |]; unfold good_id, dflt_of, linked, channel_of in *;
    rewrite ?E1, ?E2, ?E3, ?E4, ?E5, ?E6, ?E7, ?E8, ?E9, ?E10; try done.
Qed.

Lemma same_view_refl c : same_view c c.
Proof. by repeat split. Qed.

Lemma same_view_trans c1 c2 c3 : same_view c1 c2 -> same_view c2 c3 -> same_view c1 c3.
Proof.
  unfold same_view, dflt_of. intros (E1 & ? & ? & ? & ? & ? & ? & ? & E9 & ?) (F1 & ? & ? & ? & ? & ? & ? & ? & F9 & ?).
  rewrite E1 in F9. split_and!; congruence.
Qed.

(** *** A channel for a packet *)

Lemma upd_upd_eq (h h1 : cheap) x f g : upd h x f = Some h1 -> upd h1 x g = upd h x (fun ch => g (f ch)).
Proof.
  unfold upd. intros (ch & Hx & [= <-])%bind_Some_inv. rewrite lookup_insert_eq, Hx. cbn [mbind option_bind].
  by rewrite insert_insert_eq.
Qed.

Lemma setChannel_binds (p : P) ch id :
  0 <= id < chid_max ->
  exists p', setChannel (Some (ch, id)) p = Some (p', Some id) /\ _channel (base p') = Some ch /\
    Packet._expireTime (base p') = Packet._expireTime (base p).
Proof.
  intros Hid. unfold setChannel. destruct (setChannelId_ok id (upd_base (fun q => mkPacket (_packetHeader q) (Packet._expireTime q)
    (Packet._timeoutMs q) (Some ch) (_packetDequeueCB q)) p) Hid) as (p' & -> & Hg & He & Hc).
  cbn [mbind option_bind]. exists p'. rewrite Hg, He, Hc, !base_upd. done.
Qed.

(** The id [allocChannel] draws for the connection. *)
Lemma drawn_id c F W D :
  chan_inv c F W D -> _globalChannelId c < chid_max - 4 -> (existPacketHeader (cfg c) = false -> W ++ D = []) ->
  exists id g', createChannelId (if existPacketHeader (cfg c) then 0 else HTTP_CHANNEL_ID) (_globalChannelId c) = Some (id, g') /\
    _globalChannelId c <= g' < chid_max /\ 0 <= id < chid_max /\
    (if existPacketHeader (cfg c) then 0 < id <= g' else id = HTTP_CHANNEL_ID) /\
    forall x, x ∈ W ++ D -> chan_id (heap (_channelPool c)) x <> id.
Proof.
  intros Hc Hg Hempty. pose proof chid_max_range as Hr. pose proof (ch_g _ _ _ _ Hc) as Hg0.
  pose proof (ch_ids _ _ _ _ Hc) as Hids. unfold good_id in Hids. destruct (existPacketHeader (cfg c)).
  - destruct (auto_id_ok (_globalChannelId c) ltac:(lia)) as (n & Hn & Ea & _).
    change (createChannelId 0 (_globalChannelId c)) with (auto_id_loop 4 (_globalChannelId c)).
    assert (Hm : masked (_globalChannelId c + n) = _globalChannelId c + n) by (apply Z.mod_small; lia).
    rewrite Ea, Hm. eexists _, _. split; [done|]. split_and!; try lia. intros x Hx. specialize (Hids x Hx). lia.
  - exists HTTP_CHANNEL_ID, (_globalChannelId c). rewrite (Hempty eq_refl).
    split_and!; [done|lia|lia|done|unfold HTTP_CHANNEL_ID; lia|done|set_solver].
Qed.

Lemma bind_channel_ok c F W D (p : P) handler args :
  chan_inv c F W D -> _globalChannelId c < chid_max - 4 -> (existPacketHeader (cfg c) = false -> W ++ D = []) ->
  _useCount (_channelPool c) < 2 ^ 31 - 128 ->
  exists p' pool' g' F' ch obj, bind_channel p handler args c = Some (p', set_ids g' (set_pool pool' c)) /\
    _channel (base p') = Some ch /\ Packet._expireTime (base p') = Packet._expireTime (base p) /\
    inj_inv pool' F' W (ch :: D) /\ _globalChannelId c <= g' < chid_max /\
    (if existPacketHeader (cfg c) then 0 < chan_id (heap pool') ch <= g' else chan_id (heap pool') ch = HTTP_CHANNEL_ID) /\
    heap pool' !! ch = Some obj /\ _handler obj = handler /\ _args obj = args /\ ch ∉ W ++ D /\
    (forall y, y ∈ W ++ D -> core <$> heap pool' !! y = core <$> heap (_channelPool c) !! y).
Proof.
  intros Hc Hg Hempty Hu. pose proof (ii_pool _ _ _ _ (ch_pool _ _ _ _ Hc)) as Hp.
  destruct (drawn_id c F W D Hc Hg Hempty) as (id & g' & Eid & Hg' & Hidr & Hgood & Hfresh).
  assert (Hgr : 0 <= _globalChannelId c < 2 ^ 63 - 4) by (pose proof chid_max_range; pose proof (ch_g _ _ _ _ Hc); lia).
  destruct (allocChannel_ok _ _ _ _ [] [] (if existPacketHeader (cfg c) then 0 else HTTP_CHANNEL_ID) (_globalChannelId c) Hp Hgr
    (pool_room _ _ _ _ Hp Hu)) as (ch & p1 & F' & id1 & g1 & E & Eid1 & Hi & [c0 Hx] & Hnin & Hcore & _).
  rewrite Eid in Eid1. injection Eid1 as <- <-. unfold bind_channel. rewrite E. cbn [mbind option_bind].
  set (f := fun o => setId id (setArgs args (setHandler handler o))).
  destruct (setup_inv p1 F' W (ch :: D) ch f Hi ltac:(clear; set_solver) ltac:(done)) as (o & h3 & Ho & Eu & Hx3 & Hy3 & Hi3).
  assert (o = Channel_init id c0) as -> by congruence.
  destruct (upd_ok (heap p1) ch (setHandler handler)) as (? & h1 & _ & E1 & _ & _); [eauto|]. rewrite E1. cbn [mbind option_bind].
  destruct (upd_ok (heap p1) ch (fun o => setArgs args (setHandler handler o))) as (o2 & h2 & Ho2 & E2 & Hx2 & _); [eauto|].
  rewrite (upd_upd_eq _ _ _ _ _ E1), E2. cbn [mbind option_bind]. rewrite Hx2. cbn [mbind option_bind].
  assert (o2 = Channel_init id c0) as -> by congruence. cbn [setArgs setHandler Channel_init _id].
  destruct (setChannel_binds p ch id Hidr) as (p' & -> & Hch & Hexp). cbn [mbind option_bind].
  rewrite (upd_upd_eq _ _ _ _ _ E2). fold f. rewrite Eu. cbn [mbind option_bind].
  assert (Hid3 : forall y, y ∈ W ++ D -> core <$> h3 !! y = core <$> heap (_channelPool c) !! y).
  { intros y Hy. rewrite Hy3; [by apply Hcore|]. intros ->. apply Hnin. clear -Hy. set_solver. }
  assert (Hidc : chan_id h3 ch = id) by (unfold chan_id; by rewrite Hx3).
  eexists p', (with_heap p1 h3), g', F', ch, _. split; [done|]. split; [done|]. split; [done|].
  split; [|split; [done|split; [cbn [with_heap heap]; by rewrite Hidc|]]].
  - split; [done|]. assert (Hsplit : forall y, y ∈ W ++ ch :: D -> y = ch \/ y ∈ W ++ D) by (clear; set_solver).
    assert (Hold : forall y, y ∈ W ++ D -> chan_id h3 y = chan_id (heap (_channelPool c)) y) by (intros y Hy; by destruct (core_eq _ _ y (Hid3 y Hy))).
    cbn [with_heap heap]. intros y z [->|Hy]%Hsplit [->|Hz]%Hsplit; rewrite ?Hidc, ?(Hold y), ?(Hold z) by done; [done| | |].
    + intros Eq. by destruct (Hfresh z Hz).
    + intros Eq. by destruct (Hfresh y Hy).
    + by apply (ii_inj _ _ _ _ (ch_pool _ _ _ _ Hc)).
  - split; [exact Hx3|]. split; [done|]. split; [done|]. split; [clear -Hnin; set_solver|exact Hid3].
Qed.

(** *** Entering and leaving the queue *)

Lemma put_packet_queues c Q M T x (p : P) :
  queue_inv c Q M T -> packets c !! x = None ->
  x ∉ Q ++ M ++ T /\ qrep (links (put_packet x p c)) (_outputQueue c) Q /\ qrep (links (put_packet x p c)) (_myQueue c) M /\
  PacketQueue.sorted (links (put_packet x p c)) Q /\ PacketQueue.sorted (links (put_packet x p c)) M.
Proof.
  clear spaceUsed.
  intros Hq Hx. assert (Hnin : x ∉ Q ++ M ++ T) by (rewrite <- (qi_alive _ _ _ _ Hq), Hx; by intros []).
  assert (Ha : forall y, y ∈ Q ++ M ++ T -> links (put_packet x p c) !! y = links c !! y).
  { intros y Hy. cbn. rewrite lookup_insert_ne; [done|]. by intros ->. }
  assert (Ht : forall y, y ∈ Q ++ M ++ T -> expireTime (links (put_packet x p c)) y = expireTime (links c) y).
  { intros y Hy. unfold expireTime. by rewrite Ha. }
  split; [done|]. split; [eapply qrep_agree; [|apply (qi_out _ _ _ _ Hq)]; intros; apply Ha; set_solver|].
  split; [eapply qrep_agree; [|apply (qi_my _ _ _ _ Hq)]; intros; apply Ha; set_solver|].
  split; (eapply sorted_agree; [|first [apply (qi_sorted _ _ _ _ Hq)|apply (qi_msorted _ _ _ _ Hq)]]); intros; apply Ht; set_solver.
Qed.

Lemma enqueue_ok c Q M T x (p : P) :
  queue_inv c Q M T -> packets c !! x = None -> 0 < Packet._expireTime (base p) < TimeUtil_MAX ->
  Z.of_nat (S (length (Q ++ M ++ T))) < 2 ^ 31 ->
  exists (h : PacketQueue.heap) q Q', ordered_push (links (put_packet x p c)) (_outputQueue c) x = Some (h, q) /\ Q' ≡ₚ x :: Q /\
    queue_inv (updateQueueStatus spaceUsed p true (set_queue h q (put_packet x p c))) Q' M T.
Proof.
  intros Hq Hx Hr Hb. destruct (put_packet_queues c Q M T x p Hq Hx) as (Hnin & HQ & HM & HsQ & HsM).
  assert (Hlx : links (put_packet x p c) !! x = Some (PacketQueue.mkNode (Packet._expireTime (base p)) None)) by apply lookup_insert_eq.
  assert (Hly : forall y, x <> y -> links (put_packet x p c) !! y = links c !! y) by (intros y Hne; by apply lookup_insert_ne).
  remember (links (put_packet x p c)) as l1 eqn:Hl1. clear Hl1.
  assert (Hl : Z.of_nat (S (length Q)) < 2 ^ 63) by (rewrite length_app in Hb; lia).
  destruct (ordered_push_ok l1 (_outputQueue c) Q x HQ HsQ ltac:(set_solver) ltac:(eauto) Hl) as (h & q & E & HQ' & Hf).
  pose proof (insert_by_Permutation (ekey l1) x Q) as HP. pose proof (insert_by_sorted l1 x Q HsQ) as HsQ'.
  remember (insert_by (ekey l1) x Q) as Q' eqn:HQ'e. clear HQ'e.
  exists h, q, Q'. split; [done|]. split; [done|].
  assert (HPM : Q' ++ M ++ T ≡ₚ x :: Q ++ M ++ T) by (by rewrite HP).
  assert (Hxn : forall y, y ∈ M -> y ∉ x :: Q).
  { intros y Hy Hin. apply elem_of_cons in Hin as [->|Hin]; [set_solver|].
    pose proof (qi_nodup _ _ _ _ Hq) as Hn. apply NoDup_app in Hn as (_ & Hd & _). apply (Hd y Hin). set_solver. }
  split; cbn.
  - exact HQ'.
  - eapply qrep_agree; [|exact HM]. intros y Hy. apply (frame_other _ _ _ Hf). by apply Hxn.
  - by eapply sorted_frame.
  - by eapply sorted_frame.
  - rewrite HPM. constructor; [done|apply (qi_nodup _ _ _ _ Hq)].
  - intros y. rewrite HPM. destruct (decide (x = y)) as [<-|Hne].
    + rewrite lookup_insert_eq. split; [set_solver|eauto].
    + rewrite lookup_insert_ne, (qi_alive _ _ _ _ Hq) by done. set_solver.
  - intros y py. rewrite (frame_time _ _ _ Hf). unfold expireTime. destruct (decide (x = y)) as [<-|Hne].
    + rewrite lookup_insert_eq, Hlx. by intros [= ->].
    + rewrite lookup_insert_ne, Hly by done. apply (qi_time _ _ _ _ Hq).
  - intros y py. destruct (decide (x = y)) as [<-|Hne]; [rewrite lookup_insert_eq; by intros [= ->]|].
    rewrite lookup_insert_ne by done. apply (qi_range _ _ _ _ Hq).
  - rewrite HPM. simpl. lia.
  - rewrite (qi_count _ _ _ _ Hq), HPM. rewrite i32_small by (unfold INT_MIN, INT_MAX; lia). simpl. lia.
Qed.

(** Case on whether the queue was empty. *)
Ltac case_idle := match goal with |- context [i32 ?a =? 0] => destruct (i32 a =? 0) end.

(** The packets' channels when the packet [x] comes in. *)
Lemma channel_of_put c Q M T x (p : P) Q' :
  x ∉ Q ++ M ++ T -> Q' ≡ₚ x :: Q ->
  (fun y => p ← <[x := p]> (packets c) !! y; _channel (base p)) <$> Q' ++ M ++ T ≡ₚ
  _channel (base p) :: (channel_of c <$> Q ++ M ++ T).
Proof.
  clear spaceUsed. intros Hx HQ. rewrite HQ. cbn [app fmap list_fmap]. rewrite lookup_insert_eq. cbn [mbind option_bind]. constructor.
  match goal with |- ?l ≡ₚ ?r => assert (l = r) as ->; [|done] end.
  apply list_fmap_ext. intros i y Hy. unfold channel_of. rewrite lookup_insert_ne; [done|].
  intros ->. apply Hx. by eapply list_elem_of_lookup_2.
Qed.

(** What posting needs: for a client room in the pool and in the id space. *)
Definition may_post c (p : P) : Prop :=
  0 < Packet._expireTime (base p) < TimeUtil_MAX /\ _outputQueueSize c + 1 < 2 ^ 31 /\
  if _isServer (cfg c) then (existPacketHeader (cfg c) = true -> getChannelId p <> 0) /\ _channel (base p) = None
  else _globalChannelId c < chid_max - 4 /\ _useCount (_channelPool c) < 2 ^ 31 - 128 /\
       (existPacketHeader (cfg c) = false -> _queueLimit (cfg c) = 1) /\
       (0 < _queueLimit (cfg c) -> _useCount (_channelPool c) < _queueLimit (cfg c)).

Lemma in_use c F W D : chan_inv c F W D -> _useCount (_channelPool c) = Z.of_nat (length (W ++ D)).
Proof. intros Hc. rewrite (pi_uses _ _ _ _ _ _ (ii_pool _ _ _ _ (ch_pool _ _ _ _ Hc))), length_app. simpl. lia. Qed.

Lemma post_chan_inv c F W D F' ch pool' g' x handler args obj tr' :
  chan_inv c F W D -> inj_inv pool' F' W (ch :: D) -> _globalChannelId c <= g' < chid_max ->
  (if existPacketHeader (cfg c) then 0 < chan_id (heap pool') ch <= g' else chan_id (heap pool') ch = HTTP_CHANNEL_ID) ->
  heap pool' !! ch = Some obj -> _handler obj = handler -> _args obj = args ->
  (forall y, y ∈ W ++ D -> core <$> heap pool' !! y = core <$> heap (_channelPool c) !! y) ->
  asked (dflt_of c) tr' = [] -> answers tr' = [] ->
  chan_inv (mkConn (cfg c) (packets c) (links c) (_outputQueue c) (_myQueue c) pool' g' 0 false 0 0 0 ConnStat_new
                   ((trace c ++ tr') ++ [EvPosted x handler args])) F' W (ch :: D).
Proof.
  intros Hc Hi Hg' Hid Hobj Hhd Hargs Hcore Ht1 Ht2.
  assert (HcW : forall y, y ∈ W -> core <$> heap pool' !! y = core <$> heap (_channelPool c) !! y).
  { intros y Hy. apply Hcore. clear -Hy. set_solver. }
  split; unfold good_id, dflt_of in *; cbn [cfg _channelPool _globalChannelId trace] in *.
  - done.
  - intros y Hy. assert (y = ch \/ y ∈ W ++ D) as [->|Hy'] by (clear -Hy; set_solver); [done|].
    destruct (core_eq _ _ y (Hcore y Hy')) as [_ ->]. pose proof (ch_ids _ _ _ _ Hc y Hy') as Hg. unfold good_id in Hg.
    destruct (existPacketHeader (cfg c)); [lia|done].
  - pose proof (ch_g _ _ _ _ Hc). lia.
  - intros y Hy. destruct (core_eq _ _ y (HcW y Hy)) as [-> _]. by apply (ch_max _ _ _ _ Hc).
  - intros y o Hy Ho. specialize (HcW y Hy). rewrite Ho in HcW.
    destruct (heap (_channelPool c) !! y) as [o'|] eqn:Eo; [|done]. pose proof (ch_handler _ _ _ _ Hc y o' Hy Eo) as Hh.
    unfold effective, dflt_of in *. assert (_handler o = _handler o') as -> by (unfold core in HcW; simpl in HcW; congruence). done.
  - intros Hs. rewrite !asked_app, !answers_app, Ht1, Ht2, !app_nil_r. cbn [asked answers mbind list_bind]. rewrite !app_nil_r.
    rewrite (ch_owed _ _ _ _ Hc Hs). unfold dflt_of. rewrite <- (owes_list _ _ (heap pool') (W ++ D)) by (intros y Hy; by apply core_face, Hcore).
    rewrite <- (Permutation_middle W D ch). cbn [mbind list_bind]. rewrite <- app_assoc. apply Permutation_app_head.
    rewrite Permutation_app_comm. apply Permutation_app_tail. unfold owes. rewrite Hobj. unfold effective.
    rewrite Hhd, Hargs. by destruct handler.
Qed.

Lemma post_finish_ok c F W D Q M T x (p : P) handler args :
  conn_inv c F W D Q M T -> packets c !! x = None -> may_post c p ->
  exists c' F' D' Q', post_finish spaceUsed x p handler args c = Some (Posted, c') /\
    conn_inv c' F' W D' Q' M T /\ Q' ≡ₚ x :: Q /\ cfg c' = cfg c.
Proof.
  intros [Hc Hq Hl Hlim] Hx (Hr & Hsz & Hmay). unfold post_finish. rewrite (qi_count _ _ _ _ Hq) in Hsz.
  assert (Hb : Z.of_nat (S (length (Q ++ M ++ T))) < 2 ^ 31) by lia.
  assert (Hnin : x ∉ Q ++ M ++ T) by (rewrite <- (qi_alive _ _ _ _ Hq), Hx; by intros []).
  unfold linked in Hl. destruct (_isServer (cfg c)) eqn:Hs.
  - destruct Hl as (-> & -> & Hl). destruct Hmay as [Hmay Hpc].
    destruct (enqueue_ok c Q M T x p Hq Hx Hr Hb) as (h & q & Q' & E & HQ & Hq').
    assert (Hlk : forall y, y ∈ Q' ++ M ++ T -> (p ← <[x := p]> (packets c) !! y; _channel (base p)) = None).
    { intros y Hy. rewrite HQ in Hy. cbn [app] in Hy. destruct (decide (x = y)) as [<-|Hne]; [by rewrite lookup_insert_eq|].
      rewrite lookup_insert_ne by done. apply Hl. clear -Hy Hne. set_solver. }
    assert (Ea : (if existPacketHeader (cfg c) then _ ← assertb (negb (getChannelId p =? 0)); Some (p, c) else Some (p, c)) = Some (p, c)).
    { destruct (existPacketHeader (cfg c)); [|done]. rewrite (proj2 (Z.eqb_neq _ _)) by (by apply Hmay). done. }
    rewrite Ea. cbn [mbind option_bind]. change (_outputQueue (put_packet x p c)) with (_outputQueue c). rewrite E. cbn [mbind option_bind].
    eexists _, F, [], Q'. split; [done|]. split; [|split; [done|by case_idle]]. case_idle.
    + split; [destruct Hc; split; first [done|cbn; congruence]|destruct Hq'; by split|unfold linked, channel_of; cbn; by rewrite Hs|done].
    + split; [destruct Hc; split; first [done|cbn; congruence]|destruct Hq'; by split|unfold linked, channel_of; cbn; by rewrite Hs|done].
  - destruct Hmay as (Hg & Hu & Hh & Hlt). pose proof (in_use _ _ _ _ Hc) as Huse.
    assert (Hempty : existPacketHeader (cfg c) = false -> W ++ D = []).
    { intros Hf. specialize (Hh Hf). destruct (W ++ D); [done|]. rewrite Hh in Hlt. cbn [length] in Huse. lia. }
    destruct (bind_channel_ok c F W D p handler args Hc Hg Hempty Hu)
      as (p' & pool' & g' & F' & ch & obj & -> & Hch & He & Hi & Hg' & Hid & Hobj & Hhd & Hargs & Hcn & Hcore).
    cbn [mbind option_bind]. set (c1 := set_ids g' (set_pool pool' c)).
    assert (Hq1 : queue_inv c1 Q M T) by (destruct Hq; by split).
    destruct (enqueue_ok c1 Q M T x p' Hq1 Hx ltac:(by rewrite He) Hb) as (h & q & Q' & E & HQ & Hq').
    change (_outputQueue (put_packet x p' c1)) with (_outputQueue c1). rewrite E. cbn [mbind option_bind].
    eexists _, F', (ch :: D), Q'. split; [done|]. split; [|split; [done|by case_idle]].
    assert (Hkey : forall tr' : list (event P), asked (dflt_of c) tr' = [] -> answers tr' = [] ->
        chan_inv (mkConn (cfg c) (packets c) (links c) (_outputQueue c) (_myQueue c) pool' g' 0 false 0 0 0 ConnStat_new
                         ((trace c ++ tr') ++ [EvPosted x handler args])) F' W (ch :: D)).
    { intros tr' Ht1 Ht2. eapply post_chan_inv; try done. }
    assert (Hlk : (fun y => p ← <[x := p']> (packets c) !! y; _channel (base p)) <$> Q' ++ M ++ T ≡ₚ Some <$> ch :: D).
    { rewrite (channel_of_put c Q M T x p' Q' Hnin HQ), Hch. cbn [fmap list_fmap]. by rewrite Hl. }
    assert (Hlim' : 0 < _queueLimit (cfg c) -> Z.of_nat (length (W ++ ch :: D)) <= _queueLimit (cfg c)).
    { intros H0. specialize (Hlt H0). rewrite length_app in *. cbn [length]. lia. }
    case_idle.
    + split; [destruct (Hkey [EvEnableWrite true] eq_refl eq_refl); by split|destruct Hq'; by split|unfold linked; cbn; by rewrite Hs|exact Hlim'].
    + split; [pose proof (Hkey [] eq_refl eq_refl) as Hk; rewrite app_nil_r in Hk; destruct Hk; by split|destruct Hq'; by split|unfold linked; cbn; by rewrite Hs|exact Hlim'].
Qed.

(** *** Answers *)

(** The channels [gone] were answered and given back; the others show the
    same face. *)
Lemma chan_inv_next c c' F F' W W' D D' gone :
  chan_inv c F W D -> cfg c' = cfg c -> _globalChannelId c' = _globalChannelId c ->
  inj_inv (_channelPool c') F' W' D' -> W ++ D ≡ₚ gone ++ W' ++ D' ->
  (forall y, y ∈ W' ++ D' -> face <$> heap (_channelPool c') !! y = face <$> heap (_channelPool c) !! y) ->
  (forall y, y ∈ W' -> expire (heap (_channelPool c')) y < TimeUtil_MAX) ->
  (forall y, y ∈ W' -> owes (dflt_of c) (heap (_channelPool c)) y <> []) ->
  asked (dflt_of c) (trace c') = asked (dflt_of c) (trace c) ->
  answers (trace c') ≡ₚ answers (trace c) ++ (gone ≫= owes (dflt_of c) (heap (_channelPool c))) ->
  chan_inv c' F' W' D'.
Proof.
  clear spaceUsed. intros Hc E1 E2 Hi HP Hf Hm Hh Ha Hans. assert (Ed : dflt_of c' = dflt_of c) by (unfold dflt_of; by rewrite E1).
  split; rewrite ?E1, ?E2, ?Ed; try done.
  - intros x Hx. rewrite (face_id _ _ _ (Hf x Hx)). unfold good_id. rewrite E1, E2. apply (ch_ids _ _ _ _ Hc).
    rewrite HP. clear -Hx. set_solver.
  - apply (ch_g _ _ _ _ Hc).
  - intros x o Hx Ho. specialize (Hh x Hx). specialize (Hf x ltac:(clear -Hx; set_solver)).
    rewrite <- (owes_face _ _ _ _ Hf) in Hh. unfold owes in Hh. rewrite Ho in Hh. by destruct (effective _ o).
  - intros Hs. rewrite Ha, (ch_owed _ _ _ _ Hc Hs), Hans, HP, bind_app, <- app_assoc.
    do 2 apply Permutation_app_head. by rewrite (owes_list _ _ (heap (_channelPool c')) _ Hf).
Qed.

Lemma waiting_owes c F W D x : chan_inv c F W D -> x ∈ W -> owes (dflt_of c) (heap (_channelPool c)) x <> [].
Proof.
  clear spaceUsed. intros Hc Hx. destruct (alive_in _ _ _ _ _ _ x (ii_pool _ _ _ _ (ch_pool _ _ _ _ Hc))) as [o Ho]; [clear -Hx; set_solver|].
  unfold owes. rewrite Ho. destruct (ch_handler _ _ _ _ Hc x o Hx Ho) as [hd ->]. done.
Qed.

Lemma emit_view e c : asked (dflt_of c) [e] = [] -> answers [e] = [] -> same_view c (emit e c).
Proof.
  clear spaceUsed. intros H1 H2. unfold same_view. split_and!; try done; cbn [emit trace].
  - by rewrite asked_app, H1, app_nil_r.
  - by rewrite answers_app, H2, app_nil_r.
Qed.

Lemma wakeUpSender_view c : same_view c (wakeUpSender c).
Proof.
  clear spaceUsed. unfold wakeUpSender. repeat case_bool; try apply same_view_refl. by apply emit_view.
Qed.

Lemma same_view_chan c c' F W D : same_view c c' -> chan_inv c F W D -> chan_inv c' F W D.
Proof.
  unfold same_view, dflt_of. intros (E1 & _ & _ & _ & _ & E6 & E7 & _ & E9 & E10) [].
  split; unfold good_id, dflt_of in *; rewrite ?E1, ?E6, ?E7, ?E9, ?E10; done.
Qed.

(** A reply for a channel that waits. *)
Lemma reply_ok c F W D Q M T (packet : dyn_packet P) x :
  conn_inv c F W D Q M T -> _isServer (cfg c) = false -> findChannel (_channelPool c) (dyn_getChannelId packet) = Some x ->
  exists o hd pool' W1 W2, heap (_channelPool c) !! x = Some o /\ effective (dflt_of c) o = Some hd /\
    freeChannel (_channelPool c) (Some x) = Some (true, pool') /\ W = W1 ++ x :: W2 /\ same_core (heap (_channelPool c)) (heap pool') /\
    conn_inv (callback (EvCallback hd packet (_args o)) (set_pool pool' c)) (F ++ [x]) (W1 ++ W2) D Q M T.
Proof.
  clear spaceUsed. intros [Hc Hq Hl Hlim] Hs Hfind. unfold linked in Hl. rewrite Hs in Hl.
  pose proof (reply_inv _ _ _ _ (dyn_getChannelId packet) (ch_pool _ _ _ _ Hc)) as Hr. rewrite Hfind in Hr.
  destruct Hr as (_ & pool' & W1 & W2 & Ef & -> & Hi & Hsc).
  destruct (alive_in _ _ _ _ _ _ x (ii_pool _ _ _ _ (ch_pool _ _ _ _ Hc))) as [o Ho]; [clear; set_solver|].
  destruct (ch_handler _ _ _ _ Hc x o ltac:(clear; set_solver) Ho) as [hd Hhd].
  exists o, hd, pool', W1, W2. do 5 (split; [done|]).
  assert (Hchan : chan_inv (callback (EvCallback hd packet (_args o)) (set_pool pool' c)) (F ++ [x]) (W1 ++ W2) D).
  { eapply (chan_inv_next c _ F (F ++ [x]) (W1 ++ x :: W2) (W1 ++ W2) D D [x]); [exact Hc|done|done|exact Hi| | | | | |].
    - by rewrite <- (Permutation_middle W1 W2 x).
    - intros y _. apply core_face, Hsc.
    - intros y Hy. cbn. destruct (core_eq _ _ y (Hsc y)) as [-> _]. apply (ch_max _ _ _ _ Hc). clear -Hy; set_solver.
    - intros y Hy. apply (waiting_owes _ _ _ _ _ Hc). clear -Hy; set_solver.
    - cbn [callback set_stats emit set_pool trace]. by rewrite asked_app, app_nil_r.
    - cbn [callback set_stats emit set_pool trace]. rewrite answers_app. cbn [mbind list_bind]. unfold owes. by rewrite Ho, Hhd. }
  split; [exact Hchan|destruct Hq; by split|unfold linked; cbn; by rewrite Hs|].
  intros H0. specialize (Hlim H0). cbn. rewrite !length_app in *. cbn [length] in Hlim. lia.
Qed.

(** A reply. *)
Lemma handlePacket_ok c F W D Q M T (packet : dyn_packet P) :
  conn_inv c F W D Q M T -> (_isServer (cfg c) = true -> _serverAdapter (cfg c) = true) ->
  exists b c' F' W', handlePacket packet c = Some (b, c') /\ conn_inv c' F' W' D Q M T /\ cfg c' = cfg c.
Proof.
  clear spaceUsed. intros Hinv Hsa. unfold handlePacket. destruct (_isServer (cfg c)) eqn:Hs.
  - destruct Hinv as [Hc Hq Hl Hlim]. rewrite (Hsa eq_refl). cbn [assertb mbind option_bind]. eexists _, _, F, W. split; [done|]. split; [|done].
    unfold linked in Hl. rewrite Hs in Hl.
    split; [destruct Hc; split; first [done|cbn; congruence]|destruct Hq; by split|unfold linked; cbn; by rewrite Hs|done].
  - assert (Hp : exists packet', (if existPacketHeader (cfg c) then Some packet else dyn_setChannelId HTTP_CHANNEL_ID packet) = Some packet').
    { destruct (existPacketHeader (cfg c)); [eauto|]. destruct packet as [p|p]; [|by eexists].
      destruct (setChannelId_ok HTTP_CHANNEL_ID p) as (p' & Ep & _); [pose proof chid_max_range; unfold HTTP_CHANNEL_ID; lia|].
      unfold dyn_setChannelId. rewrite Ep. by eexists. }
    destruct Hp as [packet' ->]. cbn [mbind option_bind].
    destruct (findChannel (_channelPool c) (dyn_getChannelId packet')) as [x|] eqn:Hfind.
    + destruct (reply_ok _ _ _ _ _ _ _ packet' x Hinv Hs Hfind) as (o & hd & pool' & W1 & W2 & -> & Hhd & Ef & -> & _ & Hi).
      cbn [mbind option_bind]. rewrite Ef. cbn [mbind option_bind].
      change (_defaultPacketHandler (cfg (set_pool pool' c))) with (dflt_of c). rewrite Hhd. cbn [mbind option_bind].
      eexists _, _, (F ++ [x]), (W1 ++ W2). split; [done|]. split; [|unfold wakeUpSender; by repeat case_bool].
      eapply same_view_inv; [apply wakeUpSender_view|done].
    + eexists _, _, F, W. split; [done|]. split; [|done]. eapply (same_view_inv c); [by apply emit_view|done].
Qed.

(** *** Giving packets up *)

Lemma release_ok c Q M T x (p : P) :
  queue_inv c Q M (x :: T) ->
  queue_inv (drop_packet x (updateQueueStatus spaceUsed p false c)) Q M T.
Proof.
  intros Hq. assert (HP : Q ++ M ++ x :: T ≡ₚ x :: Q ++ M ++ T) by (by rewrite !(app_assoc Q M), (Permutation_middle (Q ++ M) T x)).
  pose proof (qi_nodup _ _ _ _ Hq) as Hn. rewrite HP in Hn. apply NoDup_cons in Hn as [Hnin Hn].
  assert (Hne : forall y, y ∈ Q ++ M ++ T -> x <> y) by (intros y Hy ->; done).
  pose proof (qi_bound _ _ _ _ Hq) as Hb. rewrite HP in Hb. cbn [length] in Hb.
  destruct Hq as [Ho Hm Hs Hms _ Ha Ht Hr _ Hc]. split; cbn; try done.
  - eapply qrep_agree; [|exact Ho]. intros y Hy. rewrite lookup_delete_ne; [done|]. apply Hne. set_solver.
  - eapply qrep_agree; [|exact Hm]. intros y Hy. rewrite lookup_delete_ne; [done|]. apply Hne. set_solver.
  - eapply sorted_agree; [|exact Hs]. intros y Hy. unfold expireTime. rewrite lookup_delete_ne; [done|]. apply Hne. set_solver.
  - eapply sorted_agree; [|exact Hms]. intros y Hy. unfold expireTime. rewrite lookup_delete_ne; [done|]. apply Hne. set_solver.
  - intros y. destruct (decide (x = y)) as [<-|Hxy].
    + rewrite lookup_delete_eq. split; [by intros []|]. intros Hin. by destruct Hnin.
    + rewrite lookup_delete_ne, Ha, HP by done. rewrite elem_of_cons. naive_solver.
  - intros y py [Hxy Hy]%lookup_delete_Some. unfold expireTime. rewrite lookup_delete_ne by done. by apply Ht.
  - intros y py [Hxy Hy]%lookup_delete_Some. by eapply Hr.
  - lia.
  - rewrite Hc, HP. cbn [length]. rewrite i32_small by (unfold INT_MIN, INT_MAX; lia). lia.
Qed.

(** The channel of a client's packet. *)
Lemma linked_take c Q M T x (p : P) D :
  channel_of c <$> Q ++ M ++ x :: T ≡ₚ Some <$> D -> packets c !! x = Some p -> x ∉ Q ++ M ++ T ->
  exists y D', _channel (base p) = Some y /\ D ≡ₚ y :: D' /\
    ((fun z => q ← delete x (packets c) !! z; _channel (base q)) <$> Q ++ M ++ T) ≡ₚ Some <$> D'.
Proof.
  clear spaceUsed. intros Hl Hx Hnin. rewrite !(app_assoc Q M), <- (Permutation_middle (Q ++ M) T x) in Hl. cbn [fmap list_fmap] in Hl.
  assert (Hch : channel_of c x = _channel (base p)) by (unfold channel_of; by rewrite Hx).
  assert (Hin : channel_of c x ∈ Some <$> D) by (rewrite <- Hl; set_solver). rewrite Hch in *.
  apply list_elem_of_fmap in Hin as (y & Hy & Hin). apply list_elem_of_split in Hin as (D1 & D2 & ->).
  exists y, (D1 ++ D2). split; [done|]. split; [by rewrite <- Permutation_middle|].
  rewrite <- (Permutation_middle D1 D2 y) in Hl. cbn [fmap list_fmap] in Hl. rewrite Hy in Hl. apply Permutation_cons_inv in Hl.
  rewrite <- Hl, app_assoc. match goal with |- ?l ≡ₚ ?r => assert (l = r) as ->; [|done] end.
  apply list_fmap_ext. intros i z Hz. unfold channel_of. rewrite lookup_delete_ne; [done|].
  intros ->. apply Hnin. rewrite app_assoc. by eapply list_elem_of_lookup_2.
Qed.

Lemma nodup_released c Q M T x : queue_inv c Q M (x :: T) -> x ∉ Q ++ M ++ T.
Proof.
  clear spaceUsed. intros Hq. pose proof (qi_nodup _ _ _ _ Hq) as Hn.
  rewrite !(app_assoc Q M), <- (Permutation_middle (Q ++ M) T x), <- app_assoc in Hn. by apply NoDup_cons in Hn as [? _].
Qed.

(** The trace after calling a handler, if there is one. *)
Lemma notify_answers c ch cmd :
  answers (trace (notify (effective (dflt_of c) ch) cmd (_args ch) c)) =
    answers (trace c) ++ (match effective (dflt_of c) ch with None => [] | Some hd => [(hd, _args ch)] end) /\
  asked (dflt_of c) (trace (notify (effective (dflt_of c) ch) cmd (_args ch) c)) = asked (dflt_of c) (trace c).
Proof.
  clear spaceUsed. unfold notify. destruct (effective (dflt_of c) ch) as [hd|]; [|by rewrite app_nil_r].
  cbn [callback set_stats emit trace]. rewrite answers_app, asked_app. split; [done|]. by rewrite app_nil_r.
Qed.

Lemma server_release c W D Q M T x :
  W = [] /\ D = [] /\ (forall y, y ∈ Q ++ M ++ x :: T -> channel_of c y = None) ->
  W = [] /\ D = [] /\ (forall y, y ∈ Q ++ M ++ T -> (q ← delete x (packets c) !! y; _channel (base q)) = None).
Proof.
  clear spaceUsed. intros (-> & -> & Hl). split_and!; [done|done|]. intros y Hy. destruct (decide (x = y)) as [<-|Hne]; [by rewrite lookup_delete_eq|].
  rewrite lookup_delete_ne by done. apply Hl. clear -Hy. set_solver.
Qed.

Lemma timeout_packet_ok cmd c F W D Q M T x (p : P) :
  conn_inv c F W D Q M (x :: T) -> packets c !! x = Some p ->
  exists c' F' D', timeout_packet spaceUsed cmd x p c = Some c' /\ conn_inv c' F' W D' Q M T /\
    cfg c' = cfg c /\ _closed c' = _closed c /\ links c' = delete x (links c) /\ packets c' = delete x (packets c).
Proof.
  intros [Hc Hq Hl Hlim] Hx. pose proof (release_ok _ _ _ _ _ p Hq) as Hq'. pose proof (nodup_released _ _ _ _ _ Hq) as Hnin.
  unfold timeout_packet. unfold linked in Hl.
  change (_isServer (cfg (updateQueueStatus spaceUsed p false c))) with (_isServer (cfg c)). destruct (_isServer (cfg c)) eqn:Hs.
  - cbn [mbind option_bind]. eexists _, F, D. split; [done|].
    destruct (_serverAdapter _); (split; [|done]);
      (split; [destruct Hc; split; first [done|cbn; congruence]|destruct Hq'; by split|
         by unfold linked, channel_of; cbn; rewrite Hs; eauto using server_release|done]).
  - destruct (linked_take c Q M T x p D Hl Hx Hnin) as (y & D' & Hch & HP & Hl').
    rewrite Hch. change (_channelPool (updateQueueStatus spaceUsed p false c)) with (_channelPool c).
    pose proof (inj_inv_perm _ _ _ _ _ HP (ch_pool _ _ _ _ Hc)) as Hi.
    destruct (alive_in _ _ _ _ _ _ y (ii_pool _ _ _ _ Hi)) as [o Ho]; [clear; set_solver|].
    destruct (drop_inv _ _ _ _ _ Hi) as (pool' & -> & Hi' & Hsc). rewrite Ho. cbn [mbind option_bind].
    set (c1 := set_pool pool' (updateQueueStatus spaceUsed p false c)).
    change (_defaultPacketHandler (cfg (updateQueueStatus spaceUsed p false c))) with (dflt_of c1).
    destruct (notify_answers c1 o cmd) as [Hans Hask]. set (c2 := notify _ cmd _ c1) in *.
    assert (Hc2 : cfg c2 = cfg c /\ _globalChannelId c2 = _globalChannelId c /\ _channelPool c2 = pool' /\ _closed c2 = _closed c /\
                  packets c2 = packets c /\ links c2 = links c /\ _outputQueue c2 = _outputQueue c /\ _myQueue c2 = _myQueue c /\
                  _outputQueueSize c2 = i32 (_outputQueueSize c - 1)) by (unfold c2, notify; by destruct (effective _ o)).
    destruct Hc2 as (E1 & E2 & E3 & E4 & E5 & E6 & E7 & E8 & E9).
    eexists _, (F ++ [y]), D'. split; [done|]. split; [|cbn; by rewrite E4, E5, E6].
    assert (Hchan : chan_inv c2 (F ++ [y]) W D').
    { eapply (chan_inv_next c c2 F (F ++ [y]) W W D D' [y]); [exact Hc|done|done|by rewrite E3| | | | | |]; rewrite ?E3.
      - rewrite HP. by rewrite <- (Permutation_middle W D' y).
      - intros z _. apply core_face, Hsc.
      - intros z Hz. destruct (core_eq _ _ z (Hsc z)) as [-> _]. by apply (ch_max _ _ _ _ Hc).
      - intros z Hz. by apply (waiting_owes _ _ _ _ _ Hc).
      - exact Hask.
      - rewrite Hans. cbn [mbind list_bind]. rewrite app_nil_r. unfold owes. by rewrite Ho. }
    split.
    + destruct Hchan as [? ? ? ? ? Hw]. split; try done. intros H0. cbn [drop_packet set_stats trace]. rewrite asked_app, answers_app.
      rewrite !app_nil_r. by apply Hw.
    + destruct Hq' as [Q1 Q2 Q3 Q4 Q5 Q6 Q7 Q8 Q9 Q10]. cbn in *. split; cbn; rewrite ?E5, ?E6, ?E7, ?E8, ?E9; done.
    + unfold linked, channel_of. cbn. by rewrite E1, Hs, E5.
    + intros H0. cbn in *. rewrite E1 in *. specialize (Hlim H0). rewrite HP in Hlim. rewrite length_app in *. cbn [length] in Hlim. lia.
Qed.

Lemma timeout_packets_ok cmd fuel c F W D Q M T :
  conn_inv c F W D Q M T -> lseg (links c) (head T) T None -> (length T <= fuel)%nat ->
  exists c' F' D', timeout_packets spaceUsed fuel cmd (head T) c = Some c' /\ conn_inv c' F' W D' Q M [] /\
    cfg c' = cfg c /\ _closed c' = _closed c.
Proof.
  revert fuel c F D. induction T as [|x T IH]; intros fuel c F D Hi Hl Hf.
  - exists c, F, D. by destruct fuel.
  - destruct fuel as [|fuel]; [simpl in Hf; lia|]. pose proof (nodup_released _ _ _ _ _ (cv_queue _ _ _ _ _ _ _ Hi)) as Hnin.
    destruct (proj2 (qi_alive _ _ _ _ (cv_queue _ _ _ _ _ _ _ Hi) x) ltac:(set_solver)) as [p Hp].
    cbn [head lseg] in Hl. destruct Hl as (_ & nd & Hnd & Hl). pose proof (lseg_start _ _ _ Hl) as Hst.
    cbn [head timeout_packets]. rewrite Hp. cbn [mbind option_bind]. unfold get_next. rewrite Hnd. cbn [fmap option_fmap option_map mbind option_bind].
    destruct (timeout_packet_ok cmd c F W D Q M T x p Hi Hp) as (c1 & F1 & D1 & -> & Hi1 & E1 & E2 & E3 & _).
    cbn [mbind option_bind]. rewrite Hst in *. simpl in Hf.
    destruct (IH fuel c1 F1 D1 Hi1) as (c' & F' & D' & E & Hi' & E4 & E5); [|lia|].
    + rewrite E3. eapply lseg_agree; [|exact Hl]. intros y Hy. rewrite lookup_delete_ne; [done|]. intros ->. apply Hnin. set_solver.
    + exists c', F', D'. split; [done|]. split; [done|]. by rewrite E4, E5.
Qed.

(** The expired packets of the queue are answered and freed. *)
Lemma check_queue_ok now c F W D Q :
  conn_inv c F W D Q [] [] ->
  exists c' F' D' Q', check_queue spaceUsed now c = Some c' /\ conn_inv c' F' W D' Q' [] [] /\
    cfg c' = cfg c /\ _closed c' = _closed c /\ (now = TimeUtil_MAX -> Q' = []).
Proof.
  intros [Hc Hq Hl Hlim]. destruct (PacketQueue.getTimeoutList_ok (links c) (_outputQueue c) Q now (qi_out _ _ _ _ Hq))
    as (h & q & l1 & l2 & -> & E & Hl1 & Hq2 & Hf & _ & Hnow).
  unfold check_queue. rewrite E. cbn [mbind option_bind].
  assert (HP : (l1 ++ l2) ++ [] ++ [] ≡ₚ l2 ++ [] ++ l1) by (cbn [app]; rewrite app_nil_r; apply Permutation_app_comm).
  assert (Hi : conn_inv (set_queue h q c) F W D l2 [] l1).
  { split; [destruct Hc; by split| |unfold linked in *; cbn; destruct (_isServer (cfg c)); [|by rewrite <- HP]; destruct Hl as (-> & -> & Hl); split_and!; try done;
      intros y Hy; apply Hl; by rewrite HP|done].
    pose proof (proj1 (PacketQueue.sorted_app _ _ _) (qi_sorted _ _ _ _ Hq)) as Hso. destruct Hq as [? Hmy ? ? Hnd Hal Htm ? Hb Hct].
    split; cbn [set_queue links _outputQueue _myQueue packets _outputQueueSize]; try done.
    - eapply qrep_agree; [|exact Hmy]. set_solver.
    - eapply sorted_frame; [exact Hf|]. tauto.
    - constructor.
    - by rewrite <- HP.
    - intros x. by rewrite Hal, HP.
    - intros x p Hx. rewrite (frame_time _ _ _ Hf). by apply Htm.
    - by rewrite <- HP.
    - by rewrite <- HP. }
  assert (Hlen : (length l1 <= S (size h))%nat).
  { pose proof (qi_nodup _ _ _ _ (cv_queue _ _ _ _ _ _ _ Hi)) as Hn. apply NoDup_app in Hn as (_ & _ & Hn).
    pose proof (lseg_length _ _ _ _ Hl1 Hn). lia. }
  destruct (timeout_packets_ok (timeout_cmd now) (S (size h)) _ F W D l2 [] l1 Hi Hl1 Hlen) as (c' & F' & D' & Et & Hi' & E1 & E2).
  exists c', F', D', l2. split; [done|]. split; [done|]. split; [done|]. split; [done|].
  intros ->. destruct l2 as [|y l2]; [done|]. exfalso. specialize (Hnow y eq_refl).
  destruct (proj2 (qi_alive _ _ _ _ Hq y) ltac:(set_solver)) as [p Hp]. pose proof (qi_range _ _ _ _ Hq y p Hp) as Hr.
  unfold ekey in Hnow. rewrite (qi_time _ _ _ _ Hq y p Hp) in Hnow. simpl in Hnow. lia.
Qed.

(** *** Expired channels *)

(** [c'] is [c] after callbacks that answered [l]. *)
Definition answered c c' (l : list (positive * option positive)) : Prop :=
  cfg c' = cfg c /\ packets c' = packets c /\ links c' = links c /\ _outputQueue c' = _outputQueue c /\
  _myQueue c' = _myQueue c /\ _channelPool c' = _channelPool c /\ _globalChannelId c' = _globalChannelId c /\
  _outputQueueSize c' = _outputQueueSize c /\ _closed c' = _closed c /\
  asked (dflt_of c) (trace c') = asked (dflt_of c) (trace c) /\ answers (trace c') = answers (trace c) ++ l.

Lemma answered_refl c : answered c c [].
Proof. clear spaceUsed. unfold answered. by rewrite app_nil_r. Qed.

Lemma answered_trans c1 c2 c3 l1 l2 : answered c1 c2 l1 -> answered c2 c3 l2 -> answered c1 c3 (l1 ++ l2).
Proof.
  clear spaceUsed. unfold answered, dflt_of. intros (E1 & ? & ? & ? & ? & ? & ? & ? & ? & E9 & E10) (F1 & ? & ? & ? & ? & ? & ? & ? & ? & F9 & F10).
  rewrite E1 in F9. split_and!; try congruence. by rewrite F10, E10, app_assoc.
Qed.

Lemma notify_answered c ch cmd :
  answered c (set_stats (with_timeout (_stats (notify (effective (dflt_of c) ch) cmd (_args ch) c))) (notify (effective (dflt_of c) ch) cmd (_args ch) c))
    (match effective (dflt_of c) ch with None => [] | Some hd => [(hd, _args ch)] end).
Proof.
  clear spaceUsed. destruct (notify_answers c ch cmd) as [H1 H2]. unfold answered. cbn [set_stats trace]. rewrite H1, H2.
  unfold notify. by destruct (effective (dflt_of c) ch).
Qed.

Lemma timeout_channels_ok cmd fuel c q L :
  dlseg (heap (_channelPool c)) q L None -> (length L <= fuel)%nat ->
  exists c', timeout_channels fuel cmd (head L) c = Some c' /\
    answered c c' (L ≫= owes (dflt_of c) (heap (_channelPool c))).
Proof.
  clear spaceUsed. revert fuel c q. induction L as [|x L IH]; intros fuel c q Hl Hf.
  - exists c. split; [by destruct fuel|apply answered_refl].
  - destruct fuel as [|fuel]; [simpl in Hf; lia|]. destruct Hl as [(ch & Hx & _ & Hn) Hl].
    cbn [head timeout_channels]. rewrite Hx. cbn [mbind option_bind].
    change (_defaultPacketHandler (cfg c)) with (dflt_of c). pose proof (notify_answered c ch cmd) as Ha.
    set (c1 := set_stats _ _) in *. assert (E1 : cfg c1 = cfg c) by apply Ha. assert (E6 : _channelPool c1 = _channelPool c) by apply Ha.
    destruct (IH fuel c1 (Some x)) as (c' & E & Ha'); [by rewrite E6|simpl in Hf; lia|].
    exists c'. assert (Hnx : ChannelPool._next ch = head L) by (rewrite Hn; by destruct L). rewrite Hnx, E. split; [done|].
    assert (Ed : dflt_of c1 = dflt_of c) by (unfold dflt_of; by rewrite E1). rewrite Ed, E6 in Ha'.
    cbn [mbind list_bind]. unfold owes at 1. rewrite Hx. by eapply answered_trans.
Qed.

(** The channels that expired are answered and given back. *)
Lemma check_channels_ok now c F W D Q M T :
  conn_inv c F W D Q M T ->
  exists c' F' W', check_channels now c = Some c' /\ conn_inv c' F' W' D Q M T /\
    cfg c' = cfg c /\ _closed c' = _closed c /\ (now = TimeUtil_MAX -> W' = []).
Proof.
  clear spaceUsed. intros Hi. pose proof Hi as [Hc Hq Hl Hlim]. unfold check_channels. unfold linked in Hl. destruct (_isServer (cfg c)) eqn:Hs.
  { exists c, F, W. split_and!; try done. intros _. by destruct Hl. }
  destruct (sweep_inv _ _ _ _ now (ch_pool _ _ _ _ Hc)) as (p1 & p' & W1 & W2 & -> & H1 & H2 & E1 & Hd & Hs1 & E2 & Hi' & Hs2).
  assert (Hmax : now = TimeUtil_MAX -> W2 = []).
  { intros ->. destruct W2 as [|y W2]; [done|]. specialize (H2 y ltac:(clear; set_solver)).
    pose proof (ch_max _ _ _ _ Hc y ltac:(clear; set_solver)). lia. }
  rewrite E1. cbn [mbind option_bind]. set (c0 := set_pool p1 c).
  assert (Hloop : exists c1, answered c0 c1 (W1 ≫= owes (dflt_of c0) (heap (_channelPool c0))) /\
    match head W1 with
    | None => Some c0
    | Some _ =>
        let c1 := if negb (existPacketHeader (cfg c0)) && negb (now =? TimeUtil_MAX) then emit EvCloseIoc c0 else c0 in
        c1 ← timeout_channels (S (size (heap p1))) (timeout_cmd now) (head W1) c1;
        '(_, pool) ← appendFreeList (_channelPool c1) (head W1);
        Some (set_pool pool c1)
    end = Some (set_pool p' c1)).
  { destruct W1 as [|x W1].
    - exists c0. split; [apply answered_refl|]. cbn in E2. by injection E2 as <-.
    - cbn [head]. cbv zeta. set (c1 := if negb (existPacketHeader (cfg c0)) && negb (now =? TimeUtil_MAX) then emit EvCloseIoc c0 else c0).
      assert (Ha0 : answered c0 c1 []).
      { unfold c1. destruct (_ && _); [|apply answered_refl]. unfold answered. cbn [emit trace]. by rewrite asked_app, answers_app, !app_nil_r. }
      assert (Ep : _channelPool c1 = p1) by (unfold c1; by destruct (_ && _)). assert (Ecf : cfg c1 = cfg c0) by (unfold c1; by destruct (_ && _)).
      assert (Hlen : (length (x :: W1) <= S (size (heap p1)))%nat).
      { pose proof (pi_nodup _ _ _ _ _ _ (ii_pool _ _ _ _ (ch_pool _ _ _ _ Hc))) as Hn. rewrite !NoDup_app in Hn.
        destruct Hn as (_ & _ & (Hn & _) & _). pose proof (dlseg_length _ _ _ _ Hd Hn). lia. }
      destruct (timeout_channels_ok (timeout_cmd now) (S (size (heap p1))) c1 None (x :: W1)) as (c2 & Et & Ha); [by rewrite Ep|done|].
      cbn [head] in Et. rewrite Et. cbn [mbind option_bind]. assert (Ep2 : _channelPool c2 = p1) by (rewrite <- Ep; apply Ha).
      rewrite Ep2. cbn [head] in E2. rewrite E2. cbn [mbind option_bind]. exists c2. split; [|done].
      assert (Ed : dflt_of c1 = dflt_of c0) by (unfold dflt_of; by rewrite Ecf). rewrite Ed, Ep in Ha. exact (answered_trans _ _ _ _ _ Ha0 Ha). }
  destruct Hloop as (c1 & (A1 & A2 & A3 & A4 & A5 & A6 & A7 & A8 & A9 & A10 & A11) & Heq).
  eexists _, (F ++ W1), W2. split; [exact Heq|]. split; [|split; [exact A1|split; [exact A9|exact Hmax]]].
  assert (Hchan : chan_inv (set_pool p' c1) (F ++ W1) W2 D).
  { eapply (chan_inv_next c _ F (F ++ W1) (W1 ++ W2) W2 D D W1); [exact Hc|exact A1|exact A7|exact Hi'| | | | | |].
    - by rewrite <- app_assoc.
    - intros y _. apply core_face, Hs2.
    - intros y Hy. cbn. destruct (core_eq _ _ y (Hs2 y)) as [-> _]. apply (ch_max _ _ _ _ Hc). clear -Hy; set_solver.
    - intros y Hy. apply (waiting_owes _ _ _ _ _ Hc). clear -Hy; set_solver.
    - exact A10.
    - cbn [set_pool trace]. rewrite A11. cbn [c0 set_pool trace _channelPool]. apply Permutation_app_head.
      change (dflt_of (set_pool p1 c)) with (dflt_of c). by rewrite (owes_list _ (heap (_channelPool c)) (heap p1) W1) by (intros y _; apply core_face, Hs1). }
  split; [exact Hchan| | |].
  - destruct Hq. split; cbn; rewrite ?A2, ?A3, ?A4, ?A5, ?A8; done.
  - unfold linked, channel_of. cbn. rewrite A1, A2. cbn. rewrite Hs. exact Hl.
  - cbn. rewrite A1. intros H0. specialize (Hlim H0). rewrite !length_app in *. cbn [cfg c0 set_pool] in *. lia.
Qed.

Lemma checkTimeout_ok now c F W D Q :
  conn_inv c F W D Q [] [] ->
  exists c' F' W' D' Q', checkTimeout spaceUsed now c = Some c' /\ conn_inv c' F' W' D' Q' [] [] /\
    cfg c' = cfg c /\ _closed c' = _closed c /\ (now = TimeUtil_MAX -> W' = [] /\ Q' = []).
Proof.
  intros Hi. unfold checkTimeout.
  destruct (check_channels_ok now c F W D Q [] [] Hi) as (c1 & F1 & W1 & -> & Hi1 & E1 & E2 & Hm1). cbn [mbind option_bind].
  destruct (check_queue_ok now c1 F1 W1 D Q Hi1) as (c2 & F2 & D2 & Q2 & -> & Hi2 & E3 & E4 & Hm2). cbn [mbind option_bind].
  eexists _, F2, W1, D2, Q2. split; [done|]. split; [eapply same_view_inv; [apply wakeUpSender_view|done]|].
  unfold wakeUpSender. repeat case_bool; cbn; rewrite E3, E4; auto.
Qed.

(** Closing leaves nothing that waits. *)
Lemma closeHook_ok c F W D Q :
  conn_inv c F W D Q [] [] ->
  exists c' F' D', closeHook spaceUsed c = Some c' /\ conn_inv c' F' [] D' [] [] [] /\
    cfg c' = cfg c /\ _closed c' = true.
Proof.
  intros Hi. unfold closeHook. set (c1 := if _ && _ then _ else _).
  assert (Hi1 : conn_inv c1 F W D Q [] [] /\ cfg c1 = cfg c /\ _closed c1 = true).
  { unfold c1. destruct (negb _ && _) eqn:E; [|split; [by eapply (same_view_inv c)|done]].
    split; [|done]. eapply (same_view_inv c); [|exact Hi]. unfold same_view. split_and!; try done; cbn [callback set_stats emit set_closed trace].
    - by rewrite asked_app, app_nil_r.
    - by rewrite answers_app, app_nil_r. }
  destruct Hi1 as (Hi1 & E1 & E2).
  destruct (checkTimeout_ok TimeUtil_MAX c1 F W D Q Hi1) as (c' & F' & W' & D' & Q' & -> & Hi' & E3 & E4 & Hmax).
  destruct (Hmax eq_refl) as [-> ->]. exists c', F', D'. split; [done|]. split; [done|]. by rewrite E3, E4, E1.
Qed.

(** *** Sending *)

Lemma send_channel_ok c F W D (p : P) y D' :
  chan_inv c F W D -> _channel (base p) = Some y -> D ≡ₚ y :: D' -> 0 < Packet._expireTime (base p) < TimeUtil_MAX ->
  exists pool' F' W', send_channel p c = Some (set_pool pool' c) /\ chan_inv (set_pool pool' c) F' W' D' /\
    (length (W' ++ D') <= length (W ++ D))%nat.
Proof.
  clear spaceUsed. intros Hc Hch HP Hr. unfold send_channel. rewrite Hch.
  pose proof (inj_inv_perm _ _ _ _ _ HP (ch_pool _ _ _ _ Hc)) as Hi.
  assert (Hlen : length (W ++ D) = S (length (W ++ D'))) by (rewrite HP, !length_app; cbn [length]; lia).
  destruct (alive_in _ _ _ _ _ _ y (ii_pool _ _ _ _ Hi)) as [o Ho]; [clear; set_solver|]. rewrite Ho. cbn [mbind option_bind].
  change (_defaultPacketHandler (cfg c)) with (dflt_of c). destruct (effective (dflt_of c) o) as [hd|] eqn:Hhd.
  - set (f := fun ch => setTimeoutMs (Packet._timeoutMs (base p)) (ChannelPool.setExpireTime (Packet._expireTime (base p)) ch)).
    destruct (setup_inj _ _ _ _ y f Hi ltac:(clear; set_solver) ltac:(by intros ?)) as (o' & h2 & Ho' & Eu & Hx & Hy & Hid & Hi2).
    assert (o' = o) as -> by congruence.
    destruct (upd_ok (heap (_channelPool c)) y (ChannelPool.setExpireTime (Packet._expireTime (base p)))) as (? & h1 & _ & E1 & _ & _); [eauto|].
    rewrite E1. cbn [mbind option_bind]. rewrite (upd_upd_eq _ _ _ _ _ E1). fold f. rewrite Eu. cbn [mbind option_bind].
    assert (Hexp : expire (heap (with_heap (_channelPool c) h2)) y = Packet._expireTime (base p)) by (unfold expire; cbn [with_heap heap]; by rewrite Hx).
    destruct (wait_inv _ _ _ _ _ Hi2 ltac:(rewrite Hexp; lia)) as (pool' & W1 & W2 & -> & -> & Hi3 & Hs & _). cbn [mbind option_bind].
    exists pool', F, (W1 ++ y :: W2). split; [done|]. split; [|rewrite Hlen, !length_app; cbn [length]; lia].
    assert (Hface : forall z, face <$> heap pool' !! z = face <$> heap (_channelPool c) !! z).
    { intros z. rewrite (core_face _ _ (Hs z)). cbn [with_heap heap]. destruct (decide (z = y)) as [->|Hne]; [by rewrite Hx, Ho|by rewrite Hy]. }
    eapply (chan_inv_next c _ F F (W1 ++ W2) (W1 ++ y :: W2) D D' []); [exact Hc|done|done|exact Hi3| | | | |done|by rewrite app_nil_r].
    + rewrite HP. cbn [app]. rewrite <- (Permutation_middle W1 W2 y). symmetry. exact (Permutation_middle (W1 ++ W2) D' y).
    + intros z _. apply Hface.
    + intros z Hz. cbn [set_pool _channelPool]. destruct (core_eq _ _ z (Hs z)) as [-> _]. destruct (decide (z = y)) as [->|Hne]; [rewrite Hexp; lia|].
      unfold expire. cbn [with_heap heap]. rewrite Hy by done. apply (ch_max _ _ _ _ Hc). clear -Hz Hne. set_solver.
    + intros z Hz. destruct (decide (z = y)) as [->|Hne]; [unfold owes; by rewrite Ho, Hhd|].
      apply (waiting_owes _ _ _ _ _ Hc). clear -Hz Hne. set_solver.
  - destruct (drop_inv _ _ _ _ _ Hi) as (pool' & -> & Hi' & Hs). cbn [mbind option_bind].
    exists pool', (F ++ [y]), W. split; [done|]. split; [|lia].
    eapply (chan_inv_next c _ F (F ++ [y]) W W D D' [y]); [exact Hc|done|done|exact Hi'| | | | |done|].
    + rewrite HP. by rewrite <- (Permutation_middle W D' y).
    + intros z _. apply core_face, Hs.
    + intros z Hz. cbn [set_pool _channelPool]. destruct (core_eq _ _ z (Hs z)) as [-> _]. by apply (ch_max _ _ _ _ Hc).
    + intros z Hz. by apply (waiting_owes _ _ _ _ _ Hc).
    + cbn [mbind list_bind]. unfold owes. rewrite Ho, Hhd. by rewrite !app_nil_r.
Qed.

Lemma sent_packet_ok c F W D Q M T x (p0 p : P) :
  conn_inv c F W D Q M (x :: T) -> packets c !! x = Some p0 ->
  _channel (base p) = _channel (base p0) -> Packet._expireTime (base p) = Packet._expireTime (base p0) ->
  exists c' F' W' D', sent_packet spaceUsed x p c = Some c' /\ conn_inv c' F' W' D' Q M T /\
    cfg c' = cfg c /\ links c' = delete x (links c) /\ packets c' = delete x (packets c) /\
    _myQueue c' = _myQueue c /\ _outputQueue c' = _outputQueue c.
Proof.
  intros [Hc Hq Hl Hlim] Hx Hch Hexp. pose proof (release_ok _ _ _ _ _ p Hq) as Hq'. pose proof (nodup_released _ _ _ _ _ Hq) as Hnin.
  unfold sent_packet. unfold linked in Hl.
  assert (Hsend : exists pool' F' W' D', send_channel p c = Some (set_pool pool' c) /\ chan_inv (set_pool pool' c) F' W' D' /\
    (length (W' ++ D') <= length (W ++ D))%nat /\
    if _isServer (cfg c) then W' = [] /\ D' = [] /\ (forall y, y ∈ Q ++ M ++ T -> (q ← delete x (packets c) !! y; _channel (base q)) = None)
    else ((fun z => q ← delete x (packets c) !! z; _channel (base q)) <$> Q ++ M ++ T) ≡ₚ Some <$> D').
  { destruct (_isServer (cfg c)) eqn:Hs.
    - exists (_channelPool c), F, W, D. split; [|split; [destruct Hc; by split|split; [lia|by apply server_release]]].
      destruct Hl as (_ & _ & Hl). specialize (Hl x ltac:(clear; set_solver)). unfold channel_of in Hl. rewrite Hx in Hl. cbn in Hl.
      unfold send_channel. rewrite Hch, Hl. by destruct c.
    - destruct (linked_take c Q M T x p0 D Hl Hx Hnin) as (y & D' & Hy & HP & Hl').
      destruct (send_channel_ok c F W D p y D' Hc) as (pool' & F' & W' & E & Hc' & Hlen); [by rewrite Hch|done| |].
      + rewrite Hexp. by apply (qi_range _ _ _ _ Hq x).
      + by exists pool', F', W', D'. }
  destruct Hsend as (pool' & F' & W' & D' & -> & Hc' & Hlen & Hl'). cbn [mbind option_bind].
  eexists _, F', W', D'. split; [done|].
  destruct (invokeDequeueCB (base p)) as [cb|]; (split; [|done]).
  all: split; [destruct Hc' as [? ? ? ? ? Hw]; split; try done; intros H0; cbn [drop_packet updateQueueStatus emit set_counts trace];
                 rewrite !asked_app, !answers_app, !app_nil_r; by apply Hw
              |destruct Hq'; by split|unfold linked, channel_of; exact Hl'|intros H0; specialize (Hlim H0); cbn; lia].
Qed.

(** *** Posting *)

Lemma getUseListCount_small c F W D : chan_inv c F W D -> getUseListCount (_channelPool c) = _useCount (_channelPool c).
Proof.
  clear spaceUsed. intros Hc. pose proof (ii_pool _ _ _ _ (ch_pool _ _ _ _ Hc)) as Hp. apply wrapu_small. rewrite (in_use _ _ _ _ Hc).
  pose proof (pool_count _ _ _ _ _ _ Hp). pose proof (pi_bound _ _ _ _ _ _ Hp). rewrite length_app. cbn [length] in *. lia.
Qed.

(** *** The writer's queue *)

Lemma moveBack_conn c F W D Q M :
  conn_inv c F W D Q M [] ->
  exists (h : PacketQueue.heap) q m Q', ordered_moveBack (links c) (_outputQueue c) (_myQueue c) = Some (h, q, m) /\ Q' ≡ₚ Q ++ M /\
    (Q = [] -> Q' = M) /\ q_size q = Z.of_nat (length Q') /\ conn_inv (set_queues h q m c) F W D Q' [] [].
Proof.
  clear spaceUsed. intros [Hc Hq Hl Hlim]. pose proof Hq as [Ho Hm Hs Hms Hn Ha Ht Hr Hb Hct]. rewrite app_nil_r in *.
  destruct (ordered_moveBack_ok (links c) _ _ Q M Ho Hm Hs Hms Hn ltac:(lia)) as (h & q & m & E & HQ & HM & Hf).
  pose proof (merge_back_Permutation (ekey (links c)) Q M) as HP.
  exists h, q, m, (merge_back (ekey (links c)) Q M). split; [done|]. split; [done|]. split; [by intros ->|].
  split; [apply HQ|].
  split; [destruct Hc; by split| |unfold linked, channel_of in *; cbn; destruct (_isServer (cfg c))|done].
  - pose proof (merge_back_sorted (links c) Q M Hs Hms) as Hs'. remember (merge_back _ Q M) as Q' eqn:EQ. clear EQ.
    split; cbn; rewrite ?app_nil_r; try done.
    + by eapply sorted_frame.
    + constructor.
    + by rewrite HP.
    + intros x. by rewrite Ha, HP.
    + intros x p Hx. rewrite (frame_time _ _ _ Hf). by apply Ht.
    + by rewrite HP.
    + by rewrite HP.
  - destruct Hl as (-> & -> & Hl). split_and!; try done. intros x Hx. apply Hl. rewrite app_nil_r in Hx. by rewrite <- HP.
  - by rewrite app_nil_r, HP.
Qed.

Lemma moveTo_conn c F W D Q :
  conn_inv c F W D Q [] [] ->
  exists (h : PacketQueue.heap) q m, ordered_moveTo (links c) (_outputQueue c) (_myQueue c) = Some (h, q, m) /\
    q_size m = Z.of_nat (length Q) /\ conn_inv (set_queues h q m c) F W D [] Q [].
Proof.
  clear spaceUsed. intros [Hc Hq Hl Hlim]. pose proof Hq as [Ho Hm Hs Hms Hn Ha Ht Hr Hb Hct]. cbn [app] in *. rewrite app_nil_r in *.
  destruct (ordered_moveBack_ok (links c) (_myQueue c) (_outputQueue c) [] Q Hm Ho Hms Hs Hn) as (h & m & q & E & HM & HQ & Hf); [cbn [app]; lia|].
  unfold ordered_moveTo. rewrite E. cbn [mbind option_bind]. exists h, q, m. split; [done|]. split; [apply HM|].
  cbn [merge_back] in HM. split; [destruct Hc; by split| |unfold linked, channel_of in *; cbn [app]; by rewrite app_nil_r|done].
  split; cbn; rewrite ?app_nil_r; try done.
  - constructor.
  - by eapply sorted_frame.
  - intros x p Hx. rewrite (frame_time _ _ _ Hf). by apply Ht.
Qed.

(** The first packet of the writer's queue is taken out. *)
Lemma pop_conn c F W D Q x M :
  conn_inv c F W D Q (x :: M) [] ->
  exists q p, pop (links c) (_myQueue c) = Some (Some x, q) /\ packets c !! x = Some p /\
    conn_inv (set_queues (links c) (_outputQueue c) q c) F W D Q M [x].
Proof.
  clear spaceUsed. intros [Hc Hq Hl Hlim]. pose proof Hq as [Ho Hm Hs Hms Hn Ha Ht Hr Hb Hct].
  destruct (pop_ok (links c) (_myQueue c) x M Hm) as (q & E & HM).
  destruct (proj2 (Ha x) ltac:(set_solver)) as [p Hp]. exists q, p. split; [done|]. split; [done|].
  assert (HP : Q ++ (x :: M) ++ [] ≡ₚ Q ++ M ++ [x]) by (rewrite app_nil_r; apply Permutation_app_head, Permutation_cons_append).
  split; [destruct Hc; by split| |unfold linked, channel_of in *; cbn [set_queues cfg packets]; destruct (_isServer (cfg c))|done].
  - split; cbn [set_queues links _outputQueue _myQueue packets _outputQueueSize]; rewrite <- ?HP; try done.
    + by inversion Hms.
    + intros y. by rewrite Ha, HP.
  - destruct Hl as (-> & -> & Hl). split_and!; try done. intros y Hy. apply Hl. by rewrite HP.
  - by rewrite <- HP.
Qed.

Lemma streamer_encode_keeps hdr (p : P) b ok p' b' :
  streamer_encode hdr p b = Some (ok, p', b') ->
  _channel (base p') = _channel (base p) /\ Packet._expireTime (base p') = Packet._expireTime (base p).
Proof.
  clear spaceUsed. unfold streamer_encode. intros ([[[? ?] ?] ?] & _ & E)%bind_Some_inv.
  apply bind_Some_inv in E as ([[ok1 p1] b1] & Ee & E). apply encode_keeps in Ee as [He Hc].
  destruct ok1; cbn [negb] in E.
  - apply bind_Some_inv in E as (? & _ & E).
    match type of E with context [if ?t then _ else _] => destruct t end.
    + apply bind_Some_inv in E as (? & _ & E). apply bind_Some_inv in E as (? & _ & [= _ <- _]). by rewrite base_upd.
    + injection E as _ <- _. by rewrite base_upd.
  - apply bind_Some_inv in E as (? & _ & [= _ <- _]). done.
Qed.

End Invariant.
