(* ===== verification/TcpConnection.v ===== *)
(** * TCPConnection

    Sources: tcpconnection.h and tcpconnection.cpp under
    src/agent_engine/network/anet/.

    A connection over a stream socket: [writeData] encodes queued packets into
    the output buffer and writes it to the socket, [readData] reads bytes and
    hands out the packets they complete.  The socket is a list of answers:
    for a write, how many bytes the kernel accepts or which error it reports,
    for a read, the bytes that arrived (none at the end of the stream) or the
    error. *)

From S2P Require Import Prelude DataBuffer PacketQueue Packet Streamer DefaultPacket AdvancePacket Framing ChannelPool Connection.

Definition EAGAIN : Z := 11.
Definition EWOULDBLOCK : Z := 11.

Section Tcp.

Context {P : Type} `{IPacket P}.
Context (spaceUsed : P -> Z).
Context (createPacket : Z -> P).   (* the factory of the streamer *)

Record TCPConnection := mkTcp {
  tconn : Connection P;
  _output : DataBuffer;
  _input : DataBuffer;
  _context : StreamingContext P;
  _writeFinishClose : bool;
  _writeFinishShutdown : bool;
  _inputBufferSpaceAllocated : Z;
  _outputBufferSpaceAllocated : Z;
  _maxRecvPacketSize : Z;
  _maxSendPacketSize : Z;
  _readWriteBufSize : Z
}.

Definition with_conn (c : Connection P) (t : TCPConnection) : TCPConnection :=
  mkTcp c (_output t) (_input t) (_context t) (_writeFinishClose t) (_writeFinishShutdown t) (_inputBufferSpaceAllocated t) (_outputBufferSpaceAllocated t) (_maxRecvPacketSize t) (_maxSendPacketSize t) (_readWriteBufSize t).
Definition with_output (b : DataBuffer) (t : TCPConnection) : TCPConnection :=
  mkTcp (tconn t) b (_input t) (_context t) (_writeFinishClose t) (_writeFinishShutdown t) (_inputBufferSpaceAllocated t) (_outputBufferSpaceAllocated t) (_maxRecvPacketSize t) (_maxSendPacketSize t) (_readWriteBufSize t).
Definition with_input (b : DataBuffer) (ctx : StreamingContext P) (t : TCPConnection) : TCPConnection :=
  mkTcp (tconn t) (_output t) b ctx (_writeFinishClose t) (_writeFinishShutdown t) (_inputBufferSpaceAllocated t) (_outputBufferSpaceAllocated t) (_maxRecvPacketSize t) (_maxSendPacketSize t) (_readWriteBufSize t).
Definition with_maxSend (n : Z) (t : TCPConnection) : TCPConnection :=
  mkTcp (tconn t) (_output t) (_input t) (_context t) (_writeFinishClose t) (_writeFinishShutdown t) (_inputBufferSpaceAllocated t) (_outputBufferSpaceAllocated t) (_maxRecvPacketSize t) n (_readWriteBufSize t).
Definition with_maxRecv (n : Z) (t : TCPConnection) : TCPConnection :=
  mkTcp (tconn t) (_output t) (_input t) (_context t) (_writeFinishClose t) (_writeFinishShutdown t) (_inputBufferSpaceAllocated t) (_outputBufferSpaceAllocated t) n (_maxSendPacketSize t) (_readWriteBufSize t).
Definition setWriteFinishClose (v : bool) (t : TCPConnection) : TCPConnection :=
  mkTcp (tconn t) (_output t) (_input t) (_context t) v (_writeFinishShutdown t) (_inputBufferSpaceAllocated t) (_outputBufferSpaceAllocated t) (_maxRecvPacketSize t) (_maxSendPacketSize t) (_readWriteBufSize t).
Definition setWriteFinishShutdown (v : bool) (t : TCPConnection) : TCPConnection :=
  mkTcp (tconn t) (_output t) (_input t) (_context t) (_writeFinishClose t) v (_inputBufferSpaceAllocated t) (_outputBufferSpaceAllocated t) (_maxRecvPacketSize t) (_maxSendPacketSize t) (_readWriteBufSize t).
Definition addInputBufferSpaceAllocated (size : Z) (t : TCPConnection) : TCPConnection :=
  mkTcp (tconn t) (_output t) (_input t) (_context t) (_writeFinishClose t) (_writeFinishShutdown t) (i64 (_inputBufferSpaceAllocated t + size)) (_outputBufferSpaceAllocated t) (_maxRecvPacketSize t) (_maxSendPacketSize t) (_readWriteBufSize t).
Definition addOutputBufferSpaceAllocated (size : Z) (t : TCPConnection) : TCPConnection :=
  mkTcp (tconn t) (_output t) (_input t) (_context t) (_writeFinishClose t) (_writeFinishShutdown t) (_inputBufferSpaceAllocated t) (i64 (_outputBufferSpaceAllocated t + size)) (_maxRecvPacketSize t) (_maxSendPacketSize t) (_readWriteBufSize t).

Definition TCPConnection_new (existHeader isServer adapter : bool) (now bufSize : Z) : TCPConnection :=
  mkTcp (Connection_new existHeader isServer adapter now) DataBuffer_new DataBuffer_new StreamingContext_new
        false false 0 0 0 0 bufSize.

Definition with_sent (n : Z) (s : ConnStat) : ConnStat :=
  mkStat (totalRxBytes s) (i64 (totalTxBytes s + n)) (packetPosted s) (packetHandled s) (packetTimeout s)
         (queueSize s) (callWriteCount s) (callReadCount s).
Definition with_received (n : Z) (s : ConnStat) : ConnStat :=
  mkStat (i64 (totalRxBytes s + n)) (totalTxBytes s) (packetPosted s) (packetHandled s) (packetTimeout s)
         (queueSize s) (callWriteCount s) (callReadCount s).
Definition with_queueSize (n : Z) (s : ConnStat) : ConnStat :=
  mkStat (totalRxBytes s) (totalTxBytes s) (packetPosted s) (packetHandled s) (packetTimeout s)
         n (callWriteCount s) (callReadCount s).
Definition with_writes (n : Z) (s : ConnStat) : ConnStat :=
  mkStat (totalRxBytes s) (totalTxBytes s) (packetPosted s) (packetHandled s) (packetTimeout s)
         (queueSize s) (i64 (callWriteCount s + n)) (callReadCount s).
Definition with_reads (n : Z) (s : ConnStat) : ConnStat :=
  mkStat (totalRxBytes s) (totalTxBytes s) (packetPosted s) (packetHandled s) (packetTimeout s)
         (queueSize s) (callWriteCount s) (i64 (callReadCount s + n)).

Definition on_stats (f : ConnStat -> ConnStat) (c : Connection P) : Connection P := set_stats (f (_stats c)) c.

Definition clearOutputBuffer (t : TCPConnection) : TCPConnection := with_output (clear (_output t)) t.
Definition clearInputBuffer (t : TCPConnection) : TCPConnection := with_input (clear (_input t)) (_context t) t.

(** [Connection::resetContext] *)
Definition resetContext (t : TCPConnection) : TCPConnection :=
  let t := clearInputBuffer (clearOutputBuffer t) in
  with_input (_input t) (reset (_context t)) t.

Definition shrinkInputBuffer (t : TCPConnection) : option TCPConnection :=
  let oldSpaceUsed := getSpaceUsed (_input t) in
  b ← shrink (_input t);
  Some (addInputBufferSpaceAllocated (getSpaceUsed b - oldSpaceUsed) (with_input b (_context t) t)).

Definition shrinkOutputBuffer (t : TCPConnection) : option TCPConnection :=
  let oldSpaceUsed := getSpaceUsed (_output t) in
  b ← shrink (_output t);
  Some (addOutputBufferSpaceAllocated (getSpaceUsed b - oldSpaceUsed) (with_output b t)).

(** ** writeData *)

(** The inner loop: packets are encoded while the output buffer is short;
    [n] is [myQueueSize]. *)
Fixpoint fill_loop (n : nat) (t : TCPConnection) : option (TCPConnection * nat) :=
  match n with
  | O => Some (t, O)
  | S n' =>
      if getDataLen (_output t) <? _readWriteBufSize t then
        let c := tconn t in
        '(x, q) ← pop (links c) (_myQueue c);
        x ← x;
        p ← packets c !! x;
        '(_, p, out) ← streamer_encode (existPacketHeader (cfg c)) p (_output t);
        let packetSizeInBuffer := getDataLen out - getDataLen (_output t) in
        let t1 := with_output out t in
        let t1 := if _maxSendPacketSize t <? packetSizeInBuffer then with_maxSend packetSizeInBuffer t1 else t1 in
        let t1 := addOutputBufferSpaceAllocated (getSpaceUsed out - getSpaceUsed (_output t)) t1 in
        c ← sent_packet spaceUsed x p (set_queues (links c) (_outputQueue c) q c);
        fill_loop n' (with_conn c t1)
      else Some (t, n)
  end.

(** What the socket answers to a write: it accepts up to [k] bytes, or it
    fails and reports an error. *)
Definition next_write (writes : list (Z + Z)) : (Z + Z) * list (Z + Z) :=
  match writes with
  | [] => (inr EAGAIN, [])
  | w :: writes => (w, writes)
  end.

(** The outer loop; [rounds] bounds the iterations by the constant 10 of the
    code.  The result has the error and the number of writes. *)
Fixpoint write_rounds (rounds : nat) (n : nat) (writes : list (Z + Z)) (t : TCPConnection)
  : option (TCPConnection * Z * Z) :=
  match rounds with
  | O => Some (t, 0, 0)
  | S rounds =>
      '(t, n) ← fill_loop n t;
      let len := getDataLen (_output t) in
      if len =? 0 then Some (t, 0, 0)
      else
        match next_write writes with
        | (inr err, _) => Some (t, err, 1)
        | (inl k, writes) =>
            let ret := Z.min k len in
            if 0 <? ret then
              bytes ← peekBytes (_output t) ret;
              let t := with_output (drainData (_output t) ret) t in
              let t := with_conn (on_stats (with_sent ret) (emit (EvSent bytes) (tconn t))) t in
              if (getDataLen (_output t) =? 0) && negb (Nat.eqb n 0) then
                '(t, err, cnt) ← write_rounds rounds n writes t;
                Some (t, err, cnt + 1)
              else Some (t, 0, 1)
            else Some (t, 0, 1)
        end
  end.

(** After the loop: the packets that are left go back to the queue, and the
    interest in writing is updated. *)
Definition write_finish (error : Z) (t : TCPConnection) : option (bool * TCPConnection) :=
  let c := tconn t in
  '(h, q, m) ← ordered_moveBack (links c) (_outputQueue c) (_myQueue c);
  let c := set_queues h q m c in
  let t := with_conn c t in
  if negb (error =? 0) && negb (error =? EWOULDBLOCK) && negb (error =? EAGAIN) then Some (false, clearOutputBuffer t)
  else
    let queueSize := i32 (q_size (_outputQueue c) + (if 0 <? getDataLen (_output t) then 1 else 0)) in
    let notify_senders c :=
      if negb (_isServer (cfg c)) && (0 <? _queueLimit (cfg c)) &&
         (getUseListCount (_channelPool c) <? _queueLimit (cfg c)) && (0 <? _waitingThreads c)
      then emit EvBroadcast c else c in
    if 0 <? queueSize then Some (true, with_conn (notify_senders c) t)
    else if _writeFinishShutdown t then Some (true, with_conn (emit EvShutdown (emit (EvEnableWrite false) c)) t)
    else if _writeFinishClose t then Some (false, clearOutputBuffer t)
    else Some (true, with_conn (notify_senders (emit (EvEnableWrite false) c)) t).

Definition writeData (now : Z) (writes : list (Z + Z)) (t : TCPConnection) : option (bool * TCPConnection) :=
  let c := tconn t in
  '(h, q, m) ← ordered_moveTo (links c) (_outputQueue c) (_myQueue c);
  let c := set_queues h q m c in
  if (q_size m =? 0) && (getDataLen (_output t) =? 0) then
    Some (true, with_conn (emit (EvEnableWrite false) c) t)
  else
    let c := on_stats (with_queueSize (i32 (q_size m))) c in
    let c := set_lasttime now c in
    '(t, error, writeCnt) ← write_rounds 10 (Z.to_nat (i32 (q_size m))) writes (with_conn c t);
    write_finish error (with_conn (on_stats (with_writes writeCnt) (tconn t)) t).

(** ** readData *)

Definition dyn_base (d : dyn_packet P) : Packet := match d with inl p => base p | inr p => base p end.
Definition dyn_cleanup (d : dyn_packet P) : dyn_packet P :=
  match d with inl p => inl (cleanupFlags p) | inr p => inr (cleanupFlags p) end.

(** What happens to a completed packet; the state is the connection and
    [_maxRecvPacketSize]. *)
Definition deliver (s : Connection P * Z) (packet : dyn_packet P) : option (Connection P * Z) :=
  let '(c, m) := s in
  let packetSizeInBuffer := PACKET_INFO_LEN + Packet_getDataLen (dyn_base packet) in
  let m := if m <? packetSizeInBuffer then packetSizeInBuffer else m in
  '(_, c) ← handlePacket (dyn_cleanup packet) c;
  Some (c, m).

Definition next_read (reads : list (list Z + Z)) : (list Z + Z) * list (list Z + Z) :=
  match reads with
  | [] => (inr EAGAIN, [])
  | r :: reads => (r, reads)
  end.

(** The loop: the connection, [ret], [error], [broken] and [readCnt]. *)
Fixpoint read_data_loop (rounds : nat) (reads : list (list Z + Z)) (t : TCPConnection)
  : option (TCPConnection * Z * Z * bool * Z) :=
  match rounds with
  | O => Some (t, 0, 0, false, 0)
  | S rounds =>
      let bufSize := _readWriteBufSize t in
      let oldSpaceUsed := getSpaceUsed (_input t) in
      match next_read reads with
      | (inr err, _) =>
          b ← ensureFree (_input t) bufSize;
          Some (addInputBufferSpaceAllocated (getSpaceUsed b - oldSpaceUsed) (with_input b (_context t) t), -1, err, false, 1)
      | (inl bytes, reads) =>
          let received := take (Z.to_nat bufSize) bytes in
          let ret := Z.of_nat (length received) in
          let c := on_stats (with_received ret) (tconn t) in
          '(b, ctx, (c, m)) ← read_round (existPacketHeader (cfg c)) createPacket deliver bufSize received
                                (_input t) (_context t) (c, _maxRecvPacketSize t);
          let t := with_maxRecv m (with_conn c (with_input b ctx t)) in
          let broken := isBroken ctx in
          let t := addInputBufferSpaceAllocated (getSpaceUsed b - oldSpaceUsed) t in
          if (ret =? bufSize) && negb broken && negb (Nat.eqb rounds 0) then
            '(t, ret, err, broken, cnt) ← read_data_loop rounds reads t;
            Some (t, ret, err, broken, cnt + 1)
          else Some (t, ret, 0, broken, 1)
      end
  end.

Definition readData (reads : list (list Z + Z)) (t : TCPConnection) : option (bool * TCPConnection) :=
  '(t, ret, error, broken, readCnt) ← read_data_loop 10 reads t;
  let t := with_conn (on_stats (with_reads readCnt) (tconn t)) t in
  let broken := broken || ((ret =? 0) || ((ret <? 0) &&
                  (negb (error =? 0) && negb (error =? EAGAIN) && negb (error =? EWOULDBLOCK)))) in
  Some (negb broken, t).

End Tcp.

Arguments TCPConnection : clear implicits.

(** ** The invariant over reading and writing *)

Section TcpInv.

Context {P : Type} `{IPacket P} {HB : IPacketBase P} {HC : ChannelPacket P}.
Context (spaceUsed : P -> Z) (createPacket : Z -> P).

#[local] Set Default Proof Using "Type+HB+HC".

Implicit Types (t : TCPConnection P) (c : Connection P) (F W D Q M : list ptr).

(** One packet of the inner loop. *)
Lemma fill_step t n t' n' F W D Q M x :
  conn_inv (tconn t) F W D Q (x :: M) [] -> fill_loop spaceUsed (S n) t = Some (t', n') ->
  (t' = t /\ n' = S n) \/
  exists t1 F1 W1 D1, fill_loop spaceUsed n t1 = Some (t', n') /\ conn_inv (tconn t1) F1 W1 D1 Q M [] /\ cfg (tconn t1) = cfg (tconn t).
Proof.
  intros Hi E. destruct (pop_conn _ _ _ _ _ _ _ Hi) as (q & p & Ep & Hp & Hi1). cbn [fill_loop] in E.
  destruct (_ <? _); [right|left; by injection E as <- <-].
  rewrite Ep in E. cbn [mbind option_bind] in E. rewrite Hp in E. cbn [mbind option_bind] in E.
  apply bind_Some_inv in E as ([[ok p'] out] & Ee & E). apply streamer_encode_keeps in Ee as [Hch Hexp].
  set (t1 := addOutputBufferSpaceAllocated _ _) in E.
  destruct (sent_packet_ok spaceUsed _ _ _ _ _ _ _ _ p p' Hi1 Hp Hch Hexp) as (c2 & F2 & W2 & D2 & Es & Hi2 & Ec & _).
  rewrite Es in E. cbn [mbind option_bind] in E. exists (with_conn c2 t1), F2, W2, D2. split_and!; done.
Qed.

Lemma fill_loop_inv n t t' n' F W D Q M :
  conn_inv (tconn t) F W D Q M [] -> length M = n -> fill_loop spaceUsed n t = Some (t', n') ->
  exists F' W' D' M', conn_inv (tconn t') F' W' D' Q M' [] /\ length M' = n' /\ cfg (tconn t') = cfg (tconn t).
Proof.
  revert t F W D M. induction n as [|n IH]; intros t F W D M Hi Hn E.
  - injection E as <- <-. by exists F, W, D, M.
  - destruct M as [|x M]; [done|]. destruct (fill_step _ _ _ _ _ _ _ _ _ _ Hi E) as [[-> ->]|(t1 & F1 & W1 & D1 & E1 & Hi1 & Ec)].
    + by exists F, W, D, (x :: M).
    + injection Hn as Hn. destruct (IH t1 F1 W1 D1 M Hi1 Hn E1) as (F' & W' & D' & M' & Hi' & Hn' & Ec').
      exists F', W', D', M'. by rewrite Ec', Ec.
Qed.

Lemma sent_view ret bytes c : same_view c (on_stats (with_sent ret) (emit (EvSent bytes) c)).
Proof. clear spaceUsed createPacket. exact (emit_view (EvSent bytes) c eq_refl eq_refl). Qed.

Lemma stats_view (f : ConnStat -> ConnStat) c : same_view c (on_stats f c).
Proof. clear spaceUsed createPacket. by split_and!. Qed.

Lemma write_rounds_inv rounds n writes t t' err cnt F W D Q M :
  conn_inv (tconn t) F W D Q M [] -> length M = n -> write_rounds spaceUsed rounds n writes t = Some (t', err, cnt) ->
  exists F' W' D' M', conn_inv (tconn t') F' W' D' Q M' [] /\ cfg (tconn t') = cfg (tconn t).
Proof.
  revert n writes t t' err cnt F W D M. induction rounds as [|rounds IH]; intros n writes t t' err cnt F W D M Hi Hn E.
  - injection E as <- _ _. by exists F, W, D, M.
  - cbn [write_rounds] in E. apply bind_Some_inv in E as ([t1 n1] & Ef & E).
    destruct (fill_loop_inv _ _ _ _ _ _ _ _ _ Hi Hn Ef) as (F1 & W1 & D1 & M1 & Hi1 & Hn1 & Ec1).
    destruct (_ =? 0); [injection E as <- _ _; by exists F1, W1, D1, M1|].
    destruct (next_write writes) as [[k|e] ws]; [|injection E as <- _ _; by exists F1, W1, D1, M1].
    destruct (0 <? _); [|injection E as <- _ _; by exists F1, W1, D1, M1].
    apply bind_Some_inv in E as (bytes & _ & E). cbv zeta in E. set (t2 := with_conn _ _) in E.
    assert (Hi2 : conn_inv (tconn t2) F1 W1 D1 Q M1 []) by (eapply same_view_inv; [apply sent_view|exact Hi1]).
    destruct (_ && _); [|injection E as <- _ _; by exists F1, W1, D1, M1].
    apply bind_Some_inv in E as ([[t3 e3] n3] & Er & [= <- _ _]).
    destruct (IH n1 ws t2 t3 e3 n3 F1 W1 D1 M1 Hi2 Hn1 Er) as (F' & W' & D' & M' & Hi' & Ec').
    exists F', W', D', M'. split; [done|]. rewrite Ec'. exact Ec1.
Qed.

Lemma write_finish_inv err t b t' F W D Q M :
  conn_inv (tconn t) F W D Q M [] -> write_finish err t = Some (b, t') ->
  exists Q', conn_inv (tconn t') F W D Q' [] [] /\ cfg (tconn t') = cfg (tconn t).
Proof.
  clear spaceUsed createPacket. intros Hi E. unfold write_finish in E.
  destruct (moveBack_conn _ _ _ _ _ _ Hi) as (h & q & m & Q' & Em & _ & _ & _ & Hi1).
  rewrite Em in E. cbn [mbind option_bind] in E. exists Q'. set (c1 := set_queues h q m (tconn t)) in *.
  assert (Hbr : forall c, same_view c1 c -> same_view c1 (if negb (_isServer (cfg c)) && (0 <? _queueLimit (cfg c)) &&
         (getUseListCount (_channelPool c) <? _queueLimit (cfg c)) && (0 <? _waitingThreads c) then emit EvBroadcast c else c)).
  { intros c Hv. case_bool; [|done]. eapply same_view_trans; [exact Hv|]. by apply emit_view. }
  assert (Hoff : same_view c1 (emit (EvEnableWrite false) c1)) by (by apply emit_view).
  assert (Hdone : forall c, same_view c1 c -> conn_inv c F W D Q' [] [] /\ cfg c = cfg (tconn t)).
  { intros c Hv. split; [by eapply same_view_inv|]. apply Hv. }
  cbv zeta in E. fold c1 in E.
  repeat match type of E with context [if ?g then Some _ else _] => destruct g end; injection E as _ <-.
  - exact (Hdone c1 (same_view_refl c1)).
  - exact (Hdone _ (Hbr c1 (same_view_refl c1))).
  - exact (Hdone _ (same_view_trans _ _ _ Hoff (emit_view EvShutdown (emit (EvEnableWrite false) c1) eq_refl eq_refl))).
  - exact (Hdone c1 (same_view_refl c1)).
  - exact (Hdone _ (Hbr _ Hoff)).
Qed.

Lemma writeData_inv now writes t b t' F W D Q :
  conn_inv (tconn t) F W D Q [] [] -> writeData spaceUsed now writes t = Some (b, t') ->
  exists F' W' D' Q', conn_inv (tconn t') F' W' D' Q' [] [] /\ cfg (tconn t') = cfg (tconn t).
Proof.
  intros Hi E. unfold writeData in E. destruct (moveTo_conn _ _ _ _ _ Hi) as (h & q & m & Em & Hsz & Hi1).
  rewrite Em in E. cbn [mbind option_bind] in E. rewrite Hsz in E. set (c1 := set_queues h q m (tconn t)) in *.
  destruct (_ && _) eqn:Eb.
  - injection E as _ <-. bool_to_prop. destruct Q; [|cbn in *; lia]. exists F, W, D, []. split; [|done].
    eapply same_view_inv; [by apply emit_view|exact Hi1].
  - apply bind_Some_inv in E as ([[t1 err] cnt] & Er & E).
    assert (Hn : length Q = Z.to_nat (i32 (Z.of_nat (length Q)))).
    { pose proof (qi_bound _ _ _ _ (cv_queue _ _ _ _ _ _ _ Hi)) as Hb. rewrite app_nil_r in Hb. cbn [app] in Hb.
      rewrite i32_small; unfold INT_MIN, INT_MAX; rewrite ?app_nil_r in *; lia. }
    assert (Hi2 : conn_inv (tconn (with_conn (set_lasttime now (on_stats (with_queueSize (i32 (Z.of_nat (length Q)))) c1)) t)) F W D [] Q []).
    { eapply (same_view_inv c1); [by split_and!|exact Hi1]. }
    destruct (write_rounds_inv _ _ _ _ _ _ _ _ _ _ _ _ Hi2 Hn Er) as (F1 & W1 & D1 & M1 & Hi3 & Ec3).
    destruct (write_finish_inv err (with_conn (on_stats (with_writes cnt) (tconn t1)) t1) b t' F1 W1 D1 [] M1 (same_view_inv _ _ _ _ _ _ _ _ (stats_view (with_writes cnt) (tconn t1)) Hi3) E)
      as (Q' & Hi4 & Ec4). exists F1, W1, D1, Q'. split; [done|]. rewrite Ec4. exact Ec3.
Qed.

(** *** Reading *)

Lemma read_loop_keeps {S} (I : S -> Prop) hdr (dlv : S -> dyn_packet P -> option S) fuel b ctx s b' ctx' s' :
  (forall s d s', I s -> dlv s d = Some s' -> I s') -> I s ->
  read_loop hdr createPacket dlv fuel b ctx s = Some (b', ctx', s') -> I s'.
Proof.
  clear spaceUsed. intros Hd. revert b ctx s. induction fuel as [|fuel IH]; intros b ctx s HI E; [done|].
  cbn [read_loop] in E. apply bind_Some_inv in E as ([[ok b1] ctx1] & _ & E).
  destruct (negb ok); [by injection E as _ _ <-|]. destruct (negb (isCompleted ctx1)); [by injection E as _ _ <-|].
  cbn [stealPacket] in E. apply bind_Some_inv in E as (pk & _ & E). apply bind_Some_inv in E as (s1 & Es & E).
  eapply IH; [|exact E]. by eapply Hd.
Qed.

Lemma deliver_inv F W D Q (s : Connection P * Z) d s' :
  conn_inv (fst s) F W D Q [] [] -> (_isServer (cfg (fst s)) = true -> _serverAdapter (cfg (fst s)) = true) ->
  deliver s d = Some s' ->
  exists F' W', conn_inv (fst s') F' W' D Q [] [] /\ cfg (fst s') = cfg (fst s).
Proof.
  clear spaceUsed createPacket. destruct s as [c m]. intros Hi Hsa E. unfold deliver in E. cbn [fst] in *.
  destruct (handlePacket_ok c F W D Q [] [] (dyn_cleanup d) Hi Hsa) as (b & c' & F' & W' & Eh & Hi' & Ec).
  rewrite Eh in E. injection E as <-. by exists F', W'.
Qed.

Lemma read_data_loop_inv rounds reads t t' ret err broken cnt F W D Q :
  conn_inv (tconn t) F W D Q [] [] -> (_isServer (cfg (tconn t)) = true -> _serverAdapter (cfg (tconn t)) = true) ->
  read_data_loop createPacket rounds reads t = Some (t', ret, err, broken, cnt) ->
  exists F' W', conn_inv (tconn t') F' W' D Q [] [] /\ cfg (tconn t') = cfg (tconn t).
Proof.
  clear spaceUsed. revert reads t t' ret err broken cnt F W. induction rounds as [|rounds IH]; intros reads t t' ret err broken cnt F W Hi Hsa E.
  - injection E as <- _ _ _ _. by exists F, W.
  - cbn [read_data_loop] in E. destruct (next_read reads) as [[bytes|e] rs].
    2:{ apply bind_Some_inv in E as (b & _ & [= <- _ _ _ _]). by exists F, W. }
    apply bind_Some_inv in E as ([[b ctx] [c m]] & Er & E). unfold read_round in Er.
    apply bind_Some_inv in Er as (b1 & _ & Er). apply bind_Some_inv in Er as (b2 & _ & Er). apply bind_Some_inv in Er as (b3 & _ & Er).
    set (I := fun s : Connection P * Z => (exists F' W', conn_inv (fst s) F' W' D Q [] []) /\ cfg (fst s) = cfg (tconn t)).
    assert (HI : I (c, m)).
    { eapply (read_loop_keeps I); [| |exact Er].
      - intros s d s' [(F1 & W1 & Hi1) Ec] Ed. rewrite <- Ec in Hsa.
        destruct (deliver_inv F1 W1 D Q s d s' Hi1 Hsa Ed) as (F2 & W2 & Hi2 & Ec2). split; [eauto|by rewrite Ec2].
      - split; [|done]. exists F, W. eapply (same_view_inv (tconn t)); [|exact Hi]. apply (stats_view (with_received _)). }
    destruct HI as [(F1 & W1 & Hi1) Ec1].
    cbn [fst] in Hi1, Ec1. cbv zeta in E. destruct (_ && _ && _); [|injection E as <- _ _ _ _; by exists F1, W1].
    apply bind_Some_inv in E as ([[[[t2 r2] e2] br2] c2] & E2 & [= <- _ _ _ _]).
    eapply IH in E2; [|exact Hi1|cbn; by rewrite Ec1]. destruct E2 as (F2 & W2 & Hi2 & Ec2).
    exists F2, W2. split; [done|]. rewrite Ec2. exact Ec1.
Qed.

Lemma readData_inv reads t b t' F W D Q :
  conn_inv (tconn t) F W D Q [] [] -> (_isServer (cfg (tconn t)) = true -> _serverAdapter (cfg (tconn t)) = true) ->
  readData createPacket reads t = Some (b, t') ->
  exists F' W', conn_inv (tconn t') F' W' D Q [] [] /\ cfg (tconn t') = cfg (tconn t).
Proof.
  clear spaceUsed. intros Hi Hsa E. unfold readData in E. apply bind_Some_inv in E as ([[[[t1 ret] err] br] cnt] & Er & [= _ <-]).
  destruct (read_data_loop_inv _ _ _ _ _ _ _ _ _ _ _ _ Hi Hsa Er) as (F' & W' & Hi' & Ec). exists F', W'.
  split; [eapply same_view_inv; [apply stats_view|exact Hi']|exact Ec].
Qed.

(** *** Posting *)

(** A configuration the constructor and [setQueueLimit] allow; a server has
    an adapter. *)
Definition config_ok (g : ConnConfig) : Prop :=
  (existPacketHeader g = false -> _queueLimit g = 1) /\ (_isServer g = true -> _serverAdapter g = true).

(** What a caller must respect to post [p], stored at [x]: the packet is not
    posted already, it expires at a time that can be represented, and the
    counters have room. *)
Definition room c (x : ptr) (p : P) : Prop :=
  packets c !! x = None /\ 0 < Packet._expireTime (base p) < TimeUtil_MAX /\ _outputQueueSize c + 1 < 2 ^ 31 /\
  if _isServer (cfg c) then (existPacketHeader (cfg c) = true -> getChannelId p <> 0) /\ _channel (base p) = None
  else _globalChannelId c < chid_max - 4 /\ _useCount (_channelPool c) < 2 ^ 31 - 128.

Lemma post_check_ok c F W D Q x (p : P) handler args :
  conn_inv c F W D Q [] [] -> room c x p -> config_ok (cfg c) ->
  exists r c' F' D' Q', post_check spaceUsed x p handler args c = Some (r, c') /\
    conn_inv c' F' W D' Q' [] [] /\ cfg c' = cfg c.
Proof.
  clear createPacket. intros Hi (Hx & Hr & Hsz & Hroom) (Hh & _). unfold post_check.
  rewrite (getUseListCount_small _ _ _ _ (cv_chan _ _ _ _ _ _ _ Hi)).
  assert (Hpost : (_isServer (cfg c) = false -> 0 < _queueLimit (cfg c) -> _useCount (_channelPool c) < _queueLimit (cfg c)) ->
    exists r c' F' D' Q', post_finish spaceUsed x p handler args c = Some (r, c') /\ conn_inv c' F' W D' Q' [] [] /\ cfg c' = cfg c).
  { intros Hlim. assert (Hmay : may_post c p).
    { unfold may_post. destruct (_isServer (cfg c)); [tauto|]. destruct Hroom. auto 10. }
    destruct (post_finish_ok spaceUsed c F W D Q [] [] x p handler args Hi Hx Hmay) as (c' & F' & D' & Q' & E & Hi' & _ & Ec).
    by exists Posted, c', F', D', Q'. }
  destruct (_isServer (cfg c)) eqn:Hs; cbn [negb andb].
  - by apply Hpost.
  - destruct (0 <? _queueLimit (cfg c)) eqn:El; bool_to_prop; [|apply Hpost; lia].
    destruct (_queueLimit (cfg c) <=? _useCount (_channelPool c)) eqn:Eu; bool_to_prop; cbn [andb].
    + destruct (isClosed c); cbn [negb]; [by exists (Refused (Some p)), c, F, D, Q|].
      eexists _, _, F, D, Q. split; [done|]. split; [|done]. eapply (same_view_inv c); [by split_and!|exact Hi].
    + destruct (isClosed c); [by exists (Refused (Some p)), c, F, D, Q|]. apply Hpost. lia.
Qed.

(** The packet with its expiration time. *)
Definition stamped now0 c (p : P) : P :=
  if Packet._expireTime (base p) =? 0 then upd_base (Packet.setExpireTime now0 (_queueTimeout (cfg c))) p else p.

Lemma postPacket_ok now0 now c F W D Q x (p : P) handler args block :
  conn_inv c F W D Q [] [] -> room c x (stamped now0 c p) -> config_ok (cfg c) ->
  exists r c' F' D' Q', postPacket spaceUsed now0 now (Some (x, p)) handler args block c = Some (r, c') /\
    conn_inv c' F' W D' Q' [] [] /\ cfg c' = cfg c.
Proof.
  clear createPacket. intros Hi Hroom Hcfg. unfold postPacket. change (if Packet._expireTime (base p) =? 0 then _ else _) with (stamped now0 c p).
  set (p1 := stamped now0 c p) in *. cbv zeta.
  assert (Hst : exists r c' F' D' Q', Some (Refused (Some p1), c) = Some (r, c') /\ conn_inv c' F' W D' Q' [] [] /\ cfg c' = cfg c)
    by (by exists (Refused (Some p1)), c, F, D, Q).
  destruct (isClosed c); [done|].
  destruct (negb (_isServer (cfg c)) && negb (q_size (_outputQueue c) =? 0) && _); [done|].
  set (c1 := if negb (_isServer (cfg c)) && (q_size (_outputQueue c) =? 0) then set_lasttime now c else c).
  assert (Hi1 : conn_inv c1 F W D Q [] [] /\ room c1 x p1 /\ cfg c1 = cfg c).
  { unfold c1. destruct (_ && _); [|done]. split; [|done]. eapply (same_view_inv c); [by split_and!|exact Hi]. }
  destruct Hi1 as (Hi1 & Hr1 & E1). rewrite <- E1 in *.
  match goal with |- context [if ?b then Some (Refused (Some p1), c1) else _] => destruct b end; [by exists (Refused (Some p1)), c1, F, D, Q|].
  by apply (post_check_ok c1 F W D Q).
Qed.

(** ** Runs of a connection *)

Inductive tcp_op :=
| TPost (now0 now : Z) (x : ptr) (p : P) (handler args : option positive) (block : bool)
| TWake (x : ptr) (p : P) (handler args : option positive)
| TWrite (now : Z) (writes : list (Z + Z))
| TRead (reads : list (list Z + Z))
| TTimeout (now : Z)
| TClose
| TOpen.

Definition tcp_run t (op : tcp_op) : option (TCPConnection P) :=
  let on_conn (r : option (Connection P)) := c ← r; Some (with_conn c t) in
  match op with
  | TPost now0 now x p handler args block =>
      on_conn (snd <$> postPacket spaceUsed now0 now (Some (x, p)) handler args block (tconn t))
  | TWake x p handler args => on_conn (snd <$> post_wake spaceUsed x p handler args (tconn t))
  | TWrite now writes => snd <$> writeData spaceUsed now writes t
  | TRead reads => snd <$> readData createPacket reads t
  | TTimeout now => on_conn (checkTimeout spaceUsed now (tconn t))
  | TClose => on_conn (closeHook spaceUsed (tconn t))
  | TOpen => on_conn (Some (openHook (tconn t)))
  end.

Definition tcp_may t (op : tcp_op) : Prop :=
  match op with
  | TPost now0 _ x p _ _ _ => room (tconn t) x (stamped now0 (tconn t) p)
  | TWake x p _ _ => room (tconn t) x p
  | _ => True
  end.

Definition tcp_init (hdr server adapter : bool) (ph : option positive) (now bufSize : Z) : TCPConnection P :=
  let t := TCPConnection_new hdr server adapter now bufSize in
  with_conn (setDefaultPacketHandler ph (tconn t)) t.

Inductive tcp_reachable : TCPConnection P -> Prop :=
| tcp_start hdr server adapter ph now bufSize :
    (server = true -> adapter = true) -> tcp_reachable (tcp_init hdr server adapter ph now bufSize)
| tcp_step t op t' : tcp_reachable t -> tcp_may t op -> tcp_run t op = Some t' -> tcp_reachable t'.

Definition tcp_inv t : Prop :=
  config_ok (cfg (tconn t)) /\ exists F W D Q, conn_inv (tconn t) F W D Q [] [].

Lemma conn_inv_new hdr server adapter ph now : conn_inv (setDefaultPacketHandler ph (Connection_new (P := P) hdr server adapter now)) [] [] [] [] [] [].
Proof.
  clear spaceUsed createPacket. split.
  - split; cbn; [apply inj_inv_new|set_solver|pose proof chid_max_range; lia|set_solver|set_solver|done].
  - split; cbn; [apply qrep_new|apply qrep_new|constructor|constructor|constructor| | | |lia|done].
    + intros x. rewrite lookup_empty. split; [by intros []|by intros []%elem_of_nil].
    + intros x p. by rewrite lookup_empty.
    + intros x p. by rewrite lookup_empty.
  - unfold linked. cbn. destruct server; [|done]. by split_and!.
  - cbn. destruct hdr; lia.
Qed.

(** A step keeps the invariant and the configuration. *)
Lemma tcp_step_ok t op t' :
  tcp_inv t -> tcp_may t op -> tcp_run t op = Some t' -> tcp_inv t' /\ cfg (tconn t') = cfg (tconn t).
Proof.
  intros [Hcfg (F & W & D & Q & Hi)] Hmay E.
  enough (Hok : cfg (tconn t') = cfg (tconn t) /\ exists F W D Q, conn_inv (tconn t') F W D Q [] []).
  { destruct Hok as [Ec Hi']. split; [split; [by rewrite Ec|done]|done]. }
  destruct op; cbn [tcp_run tcp_may] in *.
  - destruct (postPacket_ok now0 now (tconn t) F W D Q x p handler args block Hi Hmay Hcfg) as (r & c' & F' & D' & Q' & Ep & Hi' & Ec).
    rewrite Ep in E. injection E as <-. split; [exact Ec|by exists F', W, D', Q'].
  - unfold post_wake in E. set (c1 := set_waiting _ _) in E. assert (Hi1 : conn_inv c1 F W D Q [] []) by (eapply (same_view_inv (tconn t)); [by split_and!|exact Hi]).
    destruct (post_check_ok c1 F W D Q x p handler args Hi1 Hmay Hcfg) as (r & c' & F' & D' & Q' & Ep & Hi' & Ec).
    rewrite Ep in E. injection E as <-. split; [exact Ec|by exists F', W, D', Q'].
  - destruct (writeData _ _ _ _) as [[b t1]|] eqn:Ew; [|done]. injection E as <-.
    destruct (writeData_inv _ _ _ _ _ _ _ _ _ Hi Ew) as (F' & W' & D' & Q' & Hi' & Ec). split; [exact Ec|by exists F', W', D', Q'].
  - destruct (readData _ _ _) as [[b t1]|] eqn:Ew; [|done]. injection E as <-.
    destruct (readData_inv _ _ _ _ _ _ _ _ Hi (proj2 Hcfg) Ew) as (F' & W' & Hi' & Ec). split; [exact Ec|by exists F', W', D, Q].
  - destruct (checkTimeout_ok spaceUsed now _ _ _ _ _ Hi) as (c' & F' & W' & D' & Q' & Ec & Hi' & Ecf & _).
    rewrite Ec in E. injection E as <-. split; [exact Ecf|by exists F', W', D', Q'].
  - destruct (closeHook_ok spaceUsed _ _ _ _ _ Hi) as (c' & F' & D' & Ec & Hi' & Ecf & _).
    rewrite Ec in E. injection E as <-. split; [exact Ecf|by exists F', [], D', []].
  - injection E as <-. split; [done|]. exists F, W, D, Q. eapply (same_view_inv (tconn t)); [by split_and!|exact Hi].
Qed.

(** Every step but reading and writing is defined. *)
Lemma tcp_step_defined t op :
  tcp_inv t -> tcp_may t op -> match op with TRead _ | TWrite _ _ => True | _ => exists t', tcp_run t op = Some t' end.
Proof.
  intros [Hcfg (F & W & D & Q & Hi)] Hmay. destruct op; try done; cbn [tcp_run tcp_may] in *.
  - destruct (postPacket_ok now0 now (tconn t) F W D Q x p handler args block Hi Hmay Hcfg) as (r & c' & ? & ? & ? & -> & _). eauto.
  - unfold post_wake. destruct (post_check_ok (set_waiting (i32 (_waitingThreads (tconn t) - 1)) (tconn t)) F W D Q x p handler args)
      as (r & c' & ? & ? & ? & -> & _); [eapply (same_view_inv (tconn t)); [by split_and!|exact Hi]|exact Hmay|exact Hcfg|]. eauto.
  - destruct (checkTimeout_ok spaceUsed now _ _ _ _ _ Hi) as (c' & ? & ? & ? & ? & -> & _). eauto.
  - destruct (closeHook_ok spaceUsed _ _ _ _ _ Hi) as (c' & ? & ? & -> & _). eauto.
  - eauto.
Qed.

Lemma tcp_reachable_inv t : tcp_reachable t -> tcp_inv t.
Proof.
  induction 1 as [hdr server adapter ph now bufSize Hsa|t op t' _ IH Hmay E]; [|by eapply tcp_step_ok].
  split; [split; cbn; [by intros ->|done]|]. exists [], [], [], []. apply conn_inv_new.
Qed.

(** A closed connection with nothing outstanding; closing leads there, and
    only [openHook] leads out. *)
Definition quiet t : Prop :=
  tcp_inv t /\ _closed (tconn t) = true /\ exists F D, conn_inv (tconn t) F [] D [] [] [].

Lemma close_quiet t : tcp_inv t -> exists t', tcp_run t TClose = Some t' /\ quiet t' /\ cfg (tconn t') = cfg (tconn t).
Proof.
  intros [Hcfg (F & W & D & Q & Hi)]. destruct (closeHook_ok spaceUsed _ _ _ _ _ Hi) as (c' & F' & D' & Ec & Hi' & Ecf & Hcl).
  exists (with_conn c' t). cbn [tcp_run]. rewrite Ec. split; [done|]. split; [|exact Ecf]. split; [|split; [done|by exists F', D']].
  split; [cbn; by rewrite Ecf|by exists F', [], D', []].
Qed.

(** *** The channels in use, read off the state *)

Definition in_use_channels c : list ptr :=
  (map_to_list (_waitReplyMap (_channelPool c))).*2 ++
  omap (fun xp => _channel (base xp.2)) (map_to_list (packets c)).

Definition outstanding c : list (positive * option positive) :=
  in_use_channels c ≫= owes (dflt_of c) (heap (_channelPool c)).

Lemma waiting_perm (p : ChannelPool) F W D : inj_inv p F W D -> (map_to_list (_waitReplyMap p)).*2 ≡ₚ W.
Proof.
  clear spaceUsed createPacket. intros Hi. pose proof (pi_map _ _ _ _ _ _ (ii_pool _ _ _ _ Hi)) as Hm.
  assert (HnW : NoDup W).
  { pose proof (pi_nodup _ _ _ _ _ _ (ii_pool _ _ _ _ Hi)) as Hn. rewrite !NoDup_app in Hn. tauto. }
  apply NoDup_Permutation; [|done|].
  - apply NoDup_fmap_2_strong; [|apply NoDup_map_to_list].
    intros [i x] [j y] H1%elem_of_map_to_list H2%elem_of_map_to_list. cbn. intros ->.
    apply Hm in H1 as [_ <-]. apply Hm in H2 as [_ <-]. done.
  - intros x. rewrite list_elem_of_fmap. split.
    + intros ([i y] & -> & H1%elem_of_map_to_list). by apply Hm in H1 as [? _].
    + intros Hx. exists (chan_id (heap p) x, x). split; [done|]. apply elem_of_map_to_list, Hm. done.
Qed.

Lemma queued_perm c Q D :
  queue_inv c Q [] [] -> channel_of c <$> Q ≡ₚ Some <$> D ->
  omap (fun xp => _channel (base xp.2)) (map_to_list (packets c)) ≡ₚ D.
Proof.
  clear spaceUsed createPacket. intros Hq Hl. pose proof (qi_nodup _ _ _ _ Hq) as Hn. pose proof (qi_alive _ _ _ _ Hq) as Ha.
  cbn [app] in *. rewrite app_nil_r in Hn. assert (Hk : (map_to_list (packets c)).*1 ≡ₚ Q).
  { apply NoDup_Permutation; [apply NoDup_fst_map_to_list|done|]. intros x. rewrite list_elem_of_fmap. split.
    - intros ([y p] & -> & Hy%elem_of_map_to_list). cbn. specialize (proj1 (Ha y) ltac:(eauto)). by rewrite app_nil_r.
    - intros Hx. destruct (proj2 (Ha x)) as [p Hp]; [by rewrite app_nil_r|]. exists (x, p). split; [done|]. by apply elem_of_map_to_list. }
  rewrite <- Hk, <- list_fmap_compose in Hl.
  assert (Hf : channel_of c ∘ fst <$> map_to_list (packets c) = (fun xp => _channel (base xp.2)) <$> map_to_list (packets c)).
  { apply list_fmap_ext. intros i [x p] Hx%list_elem_of_lookup_2%elem_of_map_to_list. unfold channel_of. cbn. by rewrite Hx. }
  rewrite Hf in Hl. by apply omap_fmap_Some.
Qed.

Lemma in_use_perm c F W D Q :
  conn_inv c F W D Q [] [] -> _isServer (cfg c) = false -> in_use_channels c ≡ₚ W ++ D.
Proof.
  clear spaceUsed createPacket. intros [Hc Hq Hl _] Hs. unfold linked in Hl. rewrite Hs in Hl. cbn [app] in Hl. rewrite app_nil_r in Hl.
  unfold in_use_channels. by rewrite (waiting_perm _ _ _ _ (ch_pool _ _ _ _ Hc)), (queued_perm _ _ _ Hq Hl).
Qed.

Lemma outstanding_perm c F W D Q :
  conn_inv c F W D Q [] [] -> _isServer (cfg c) = false -> asked (dflt_of c) (trace c) ≡ₚ answers (trace c) ++ outstanding c.
Proof.
  clear spaceUsed createPacket. intros Hi Hs. unfold outstanding. rewrite (in_use_perm _ _ _ _ _ Hi Hs). by apply (ch_owed _ _ _ _ (cv_chan _ _ _ _ _ _ _ Hi)).
Qed.

(** Once closed, everyone has been answered. *)
Lemma quiet_answered t :
  quiet t -> _isServer (cfg (tconn t)) = false ->
  outstanding (tconn t) = [] /\ packets (tconn t) = ∅ /\ _useCount (_channelPool (tconn t)) = 0 /\
  asked (dflt_of (tconn t)) (trace (tconn t)) ≡ₚ answers (trace (tconn t)).
Proof.
  clear spaceUsed createPacket. intros (_ & Hcl & F & D & Hi) Hs.
  assert (HD : D = []).
  { pose proof (cv_linked _ _ _ _ _ _ _ Hi) as Hl. unfold linked in Hl. rewrite Hs in Hl. cbn in Hl.
    apply Permutation_nil_l in Hl. by destruct D. }
  subst D. pose proof (outstanding_perm _ _ _ _ _ Hi Hs) as Hp.
  assert (Hout : outstanding (tconn t) = []).
  { unfold outstanding. pose proof (in_use_perm _ _ _ _ _ Hi Hs) as Hu. symmetry in Hu. apply Permutation_nil_l in Hu. by rewrite <- Hu. }
  split; [done|]. split; [|split; [by rewrite (in_use _ _ _ _ (cv_chan _ _ _ _ _ _ _ Hi))|by rewrite Hp, Hout, app_nil_r]].
  apply map_empty. intros x. pose proof (qi_alive _ _ _ _ (cv_queue _ _ _ _ _ _ _ Hi) x) as Ha.
  apply eq_None_not_Some. rewrite Ha. by intros ?%elem_of_nil.
Qed.

(** A closed connection refuses posts and can be closed again. *)
Lemma quiet_post t now0 now x p handler args block :
  quiet t -> exists t', tcp_run t (TPost now0 now x p handler args block) = Some t' /\ quiet t' /\ cfg (tconn t') = cfg (tconn t).
Proof.
  intros Hq. assert (Hcl : isClosed (tconn t) = true) by apply Hq. exists (with_conn (tconn t) t). cbn [tcp_run]. unfold postPacket.
  cbv zeta. rewrite Hcl. by split.
Qed.

Lemma quiet_wake t x p handler args :
  quiet t -> _isServer (cfg (tconn t)) = false -> 0 < _queueLimit (cfg (tconn t)) ->
  exists t', tcp_run t (TWake x p handler args) = Some t' /\ quiet t' /\ cfg (tconn t') = cfg (tconn t).
Proof.
  intros ([Hcfg _] & Hcl & F & D & Hi) Hs Hl. set (c1 := set_waiting (i32 (_waitingThreads (tconn t) - 1)) (tconn t)).
  assert (Hi1 : conn_inv c1 F [] D [] [] []) by (eapply (same_view_inv (tconn t)); [by split_and!|exact Hi]).
  exists (with_conn c1 t). cbn [tcp_run]. unfold post_wake, post_check. fold c1. change (isClosed c1) with (_closed (tconn t)).
  change (cfg c1) with (cfg (tconn t)). rewrite Hs, Hcl, (proj2 (Z.ltb_lt _ _) Hl), andb_false_r. split; [done|].
  split; [|done]. split; [split; [done|by exists F, [], D, []]|]. split; [done|by exists F, D].
Qed.

End TcpInv.

(** ** Packet types *)

#[global] Instance DefaultPacket_channel alloc_ok : @ChannelPacket DefaultPacket (DefaultPacket_IPacket alloc_ok).
Proof.
  refine (@Build_ChannelPacket DefaultPacket (DefaultPacket_IPacket alloc_ok) (2 ^ 32) _ _ _); [lia| |].
  - intros id p Hid. eexists. split; [done|]. split_and!; try done. cbn. by apply wrapu_small.
  - intros p b ok p' b' E. cbn in E. unfold DefaultPacket_encode in E. destruct (0 <? _); [|by injection E as _ <- _].
    repeat (apply bind_Some_inv in E as (? & _ & E)). by injection E as _ <- _.
Defined.

#[global] Instance AdvancePacket_channel {T} {I : IPacket T} {HBT : IPacketBase T} {HCT : ChannelPacket T} env :
  @ChannelPacket (AdvancePacket T) (AdvancePacket_IPacket env).
Proof.
  refine (@Build_ChannelPacket (AdvancePacket T) (AdvancePacket_IPacket env) (2 ^ 60) _ _ _); [lia| |].
  - intros id p Hid. cbn. unfold adv_setChannelId. rewrite assertb_true by (apply Z.leb_le; lia). cbn [mbind option_bind].
    eexists. split; [done|]. cbn. rewrite !base_upd. cbn. split; [|done]. unfold adv_getChannelId, Packet_getChannelId. cbn.
    rewrite base_upd. cbn. rewrite Z.shiftr_div_pow2, !Z.shiftl_mul_pow2 by lia.
    assert (Hd : 0 <= id / 2 ^ 32 < 2 ^ 28) by (split; [apply Z.div_pos; lia|apply Z.div_lt_upper_bound; lia]).
    pose proof (Z.div_mod id (2 ^ 32) ltac:(lia)) as Hm. pose proof (Z.mod_pos_bound id (2 ^ 32) ltac:(lia)) as Hb.
    rewrite (wrapu_small 32 (id / 2 ^ 32)), (wrapu_small 64 (id / 2 ^ 32 * 2 ^ 32)) by lia.
    rewrite (wrapu_small 64 (id - _)), (wrapu_small 32), wrapu_small by lia. lia.
  - intros p b ok p' b' E. cbn in E |- *. unfold adv_encode in E. apply bind_Some_inv in E as ([o off] & _ & E).
    apply bind_Some_inv in E as ([[rc t] o2] & Ee & E). apply encode_keeps in Ee as [He Hc].
    assert (Hp : adv_packet p' = t).
    { destruct (checksumState env); [|by injection E as _ <- _].
      repeat (apply bind_Some_inv in E as (? & _ & E)). by injection E as _ <- _. }
    rewrite Hp, He, Hc. by destruct (checksumState env); cbn; rewrite base_upd.
Defined.

(** ** The bytes on the socket *)

Definition sent_bytes {P} (tr : list (event P)) : list Z :=
  tr ≫= fun e => match e with EvSent bytes => bytes | _ => [] end.

Lemma sent_bytes_app {P} (t1 t2 : list (event P)) : sent_bytes (t1 ++ t2) = sent_bytes t1 ++ sent_bytes t2.
Proof. apply bind_app. Qed.

Lemma sent_packet_bytes {P} `{IPacket P} (spaceUsed : P -> Z) x p c c' :
  sent_packet spaceUsed x p c = Some c' -> sent_bytes (trace c') = sent_bytes (trace c).
Proof.
  unfold sent_packet. intros (c1 & Es & [= <-])%bind_Some_inv.
  assert (Ht : trace c1 = trace c).
  { unfold send_channel in Es. destruct (_channel (base p)); [|by injection Es as <-].
    apply bind_Some_inv in Es as (ch & _ & Es). destruct (effective _ ch).
    - repeat (apply bind_Some_inv in Es as (? & _ & Es)). by injection Es as <-.
    - apply bind_Some_inv in Es as ([? pool] & _ & [= <-]). done. }
  destruct (invokeDequeueCB (base p)); cbn [drop_packet emit updateQueueStatus set_counts trace];
    by rewrite !sent_bytes_app, Ht, !app_nil_r.
Qed.

Section Sending.

Context {P : Type} {Snd Rcv : IPacket P} {createPacket : Z -> P}.
Context {codec : PacketCodec P Snd Rcv createPacket} {HC : @ChannelPacket P Snd}.
Context (spaceUsed : P -> Z).

#[local] Existing Instance send_base.
#[local] Set Default Proof Using "Type".

Implicit Types (t : TCPConnection P) (F W D Q M : list ptr) (ps : list P).

(** The packets stored at [l]. *)
Definition packets_at (m : gmap ptr P) (l : list ptr) ps : Prop := Forall2 (fun x p => m !! x = Some p) l ps.

Definition all_frames_ok t : Prop := forall x p, packets (tconn t) !! x = Some p -> frame_ok p.

(** One packet of the inner loop, when there is room. *)
Lemma fill_one t n F W D Q M x d :
  conn_inv (tconn t) F W D Q (x :: M) [] -> all_frames_ok t -> existPacketHeader (cfg (tconn t)) = true ->
  rep (_output t) d -> Z.of_nat (length d) < _readWriteBufSize t <= 2 ^ 22 ->
  exists p t1 F1 W1 D1, packets (tconn t) !! x = Some p /\
    @fill_loop P Snd spaceUsed (S n) t = @fill_loop P Snd spaceUsed n t1 /\
    conn_inv (tconn t1) F1 W1 D1 Q M [] /\ rep (_output t1) (d ++ frame p) /\ Z.of_nat (length (d ++ frame p)) <= 2 ^ 23 /\
    packets (tconn t1) = delete x (packets (tconn t)) /\ cfg (tconn t1) = cfg (tconn t) /\
    _readWriteBufSize t1 = _readWriteBufSize t /\ sent_bytes (trace (tconn t1)) = sent_bytes (trace (tconn t)) /\
    _writeFinishClose t1 = _writeFinishClose t /\ _writeFinishShutdown t1 = _writeFinishShutdown t.
Proof.
  intros Hi Hok Hh Hr Hlen. destruct (pop_conn _ _ _ _ _ _ _ Hi) as (q & p & Ep & Hp & Hi1).
  pose proof (Hok x p Hp) as Hf. assert (Hfl : Z.of_nat (length (frame p)) <= 2 ^ 22) by apply Hf.
  destruct (streamer_encode_ok p (_output t) d Hf Hr) as (p' & out & Ee & Hr' & _); [unfold FRAME_MAX; lia|].
  pose proof (streamer_encode_keeps _ _ _ _ _ _ Ee) as [Hch Hexp].
  destruct (sent_packet_ok spaceUsed _ _ _ _ _ _ _ _ p p' Hi1 Hp Hch Hexp) as (c2 & F2 & W2 & D2 & Es & Hi2 & Ec & _ & Epk & _).
  eexists p, _, F2, W2, D2. split; [done|]. split.
  { cbn [fill_loop]. rewrite (rep_getDataLen _ _ Hr), (proj2 (Z.ltb_lt _ _)) by lia. rewrite Ep. cbn [mbind option_bind].
    rewrite Hp. cbn [mbind option_bind]. rewrite Hh, Ee. cbn [mbind option_bind]. rewrite Es. cbn [mbind option_bind]. reflexivity. }
  split; [exact Hi2|]. split; [case_bool; exact Hr'|]. split; [rewrite length_app; lia|]. split; [exact Epk|]. split; [exact Ec|].
  split; [by case_bool|]. split; [exact (sent_packet_bytes _ _ _ _ _ Es)|]. by case_bool.
Qed.

(** What a phase of the writer did: it took the packets [M1], with the frames
    that were appended, and left [M2]. *)
Record phase t t' F' W' D' Q M1 M2 ps : Prop := {
  ph_conn : conn_inv (tconn t') F' W' D' Q M2 [];
  ph_taken : packets_at (packets (tconn t)) M1 ps;
  ph_left : forall x p, packets (tconn t') !! x = Some p -> packets (tconn t) !! x = Some p;
  ph_cfg : cfg (tconn t') = cfg (tconn t);
  ph_size : _readWriteBufSize t' = _readWriteBufSize t;
  ph_close : _writeFinishClose t' = _writeFinishClose t;
  ph_shutdown : _writeFinishShutdown t' = _writeFinishShutdown t
}.

Lemma phase_frames t t' F' W' D' Q M1 M2 ps : phase t t' F' W' D' Q M1 M2 ps -> all_frames_ok t -> all_frames_ok t'.
Proof. intros Hp Hok x p Hx. eapply Hok, (ph_left _ _ _ _ _ _ _ _ _ Hp), Hx. Qed.

Lemma fill_loop_ok n t F W D Q M d :
  conn_inv (tconn t) F W D Q M [] -> length M = n -> all_frames_ok t -> existPacketHeader (cfg (tconn t)) = true ->
  rep (_output t) d -> Z.of_nat (length d) <= 2 ^ 23 -> _readWriteBufSize t <= 2 ^ 22 ->
  exists t' F' W' D' M1 M2 ps, @fill_loop P Snd spaceUsed n t = Some (t', length M2) /\ M = M1 ++ M2 /\
    phase t t' F' W' D' Q M1 M2 ps /\ rep (_output t') (d ++ concat (frame <$> ps)) /\
    Z.of_nat (length (d ++ concat (frame <$> ps))) <= 2 ^ 23 /\
    sent_bytes (trace (tconn t')) = sent_bytes (trace (tconn t)) /\
    (M2 = [] \/ _readWriteBufSize t <= Z.of_nat (length (d ++ concat (frame <$> ps)))).
Proof.
  revert t F W D M d. induction n as [|n IH]; intros t F W D M d Hi Hn Hok Hh Hr Hd Hb.
  - destruct M; [|done]. exists t, F, W, D, [], [], []. cbn. rewrite app_nil_r.
    split_and!; try done; [|by left]. split; try done. constructor.
  - destruct M as [|x M]; [done|]. injection Hn as Hn.
    destruct (decide (Z.of_nat (length d) < _readWriteBufSize t)) as [Hlt|Hge].
    + destruct (fill_one t n F W D Q M x d Hi Hok Hh Hr (conj Hlt Hb))
        as (p & t1 & F1 & W1 & D1 & Hp & E & Hi1 & Hr1 & Hd1 & Epk & Ec & Es & Et & E5 & E6).
      assert (Hok1 : all_frames_ok t1) by (intros y q; rewrite Epk, lookup_delete_Some; intros [_ Hy]; by eapply Hok).
      destruct (IH t1 F1 W1 D1 M (d ++ frame p) Hi1 Hn Hok1) as (t' & F' & W' & D' & M1 & M2 & ps & E' & -> & [] & Hr' & Hd' & Es' & Hend);
        [by rewrite Ec|done|done|by rewrite Es|].
      exists t', F', W', D', (x :: M1), M2, (p :: ps). rewrite E. cbn [fmap list_fmap concat]. rewrite app_assoc.
      split; [done|]. split; [done|]. split; [|split_and!; try done; [congruence|by rewrite <- Es]].
      split; try congruence; try done.
      * constructor; [done|]. eapply Forall2_impl; [done|]. cbn. intros y q. rewrite Epk, lookup_delete_Some. tauto.
      * intros y q Hy%ph_left0. rewrite Epk, lookup_delete_Some in Hy. tauto.
    + exists t, F, W, D, [], (x :: M), []. cbn [fill_loop]. rewrite (rep_getDataLen _ _ Hr), (proj2 (Z.ltb_ge _ _)) by lia.
      cbn [fmap list_fmap concat length]. rewrite app_nil_r, Hn. split_and!; try done; [|right; lia]. split; try done. constructor.
Qed.

Lemma phase_trans t t1 t2 t' F1 W1 D1 F' W' D' Q M1 M2 M3 M4 ps1 ps2 :
  phase t t1 F1 W1 D1 Q M1 M2 ps1 -> packets (tconn t2) = packets (tconn t1) -> cfg (tconn t2) = cfg (tconn t1) ->
  _readWriteBufSize t2 = _readWriteBufSize t1 -> _writeFinishClose t2 = _writeFinishClose t1 ->
  _writeFinishShutdown t2 = _writeFinishShutdown t1 -> phase t2 t' F' W' D' Q M3 M4 ps2 ->
  phase t t' F' W' D' Q (M1 ++ M3) M4 (ps1 ++ ps2).
Proof.
  intros [A1 A2 A3 A4 A5 A6 A7] E1 E2 E3 E4 E5 [B1 B2 B3 B4 B5 B6 B7]. rewrite E1 in *. split; try congruence; try done.
  - apply Forall2_app; [done|]. eapply Forall2_impl; [exact B2|]. intros x p. apply A3.
  - intros x p Hx. by apply A3, B3.
Qed.

(** The bytes that went out followed by those in the buffer are what was in
    the buffer followed by the frames. *)
Lemma write_rounds_ok rounds n writes t F W D Q M d :
  conn_inv (tconn t) F W D Q M [] -> length M = n -> all_frames_ok t -> existPacketHeader (cfg (tconn t)) = true ->
  rep (_output t) d -> Z.of_nat (length d) <= 2 ^ 23 -> _readWriteBufSize t <= 2 ^ 22 ->
  exists t' err cnt F' W' D' M1 M2 ps d' s, @write_rounds P Snd spaceUsed rounds n writes t = Some (t', err, cnt) /\ M = M1 ++ M2 /\
    phase t t' F' W' D' Q M1 M2 ps /\ rep (_output t') d' /\
    sent_bytes (trace (tconn t')) = sent_bytes (trace (tconn t)) ++ s /\ s ++ d' = d ++ concat (frame <$> ps).
Proof.
  revert n writes t F W D M d. induction rounds as [|rounds IH]; intros n writes t F W D M d Hi Hn Hok Hh Hr Hd Hb.
  - exists t, 0, 0, F, W, D, [], M, [], d, []. cbn. rewrite !app_nil_r. split_and!; try done. split; try done. constructor.
  - cbn [write_rounds]. destruct (fill_loop_ok n t F W D Q M d Hi Hn Hok Hh Hr Hd Hb)
      as (t1 & F1 & W1 & D1 & M1 & M2 & ps & -> & -> & Hp & Hr1 & Hd1 & Hs1 & _). cbn [mbind option_bind].
    set (dd := d ++ concat (frame <$> ps)) in *. rewrite (rep_getDataLen _ _ Hr1).
    assert (Hstop : forall err cnt : Z, exists t' (err' cnt' : Z) F' W' D' N1 N2 ps' d' s, Some (t1, err, cnt) = Some (t', err', cnt') /\ M1 ++ M2 = N1 ++ N2 /\
      phase t t' F' W' D' Q N1 N2 ps' /\ rep (_output t') d' /\
      sent_bytes (trace (tconn t')) = sent_bytes (trace (tconn t)) ++ s /\ s ++ d' = d ++ concat (frame <$> ps')).
    { intros err cnt. exists t1, err, cnt, F1, W1, D1, M1, M2, ps, dd, []. by rewrite app_nil_r. }
    destruct (_ =? 0); [apply Hstop|]. destruct (next_write writes) as [[k|e] ws]; [|apply Hstop].
    destruct (0 <? Z.min k _) eqn:Ek; bool_to_prop; [|apply Hstop]. set (ret := Z.min k (Z.of_nat (length dd))) in *.
    rewrite (rep_peekBytes _ _ ret Hr1) by lia. cbn [mbind option_bind].
    pose proof (rep_drainData _ _ ret Hr1 ltac:(lia)) as Hr2. set (s1 := take (Z.to_nat ret) dd) in *. set (d2 := drop (Z.to_nat ret) dd) in *.
    assert (Hdd : s1 ++ d2 = dd) by apply take_drop.
    set (t2 := with_conn _ (with_output _ t1)).
    assert (Hs2 : sent_bytes (trace (tconn t2)) = sent_bytes (trace (tconn t)) ++ s1).
    { change (trace (tconn t2)) with (trace (tconn t1) ++ [EvSent s1]). rewrite sent_bytes_app, Hs1.
      change (sent_bytes [EvSent s1]) with (s1 ++ []). by rewrite app_nil_r. }
    destruct ((getDataLen (_output t2) =? 0) && negb (Nat.eqb (length M2) 0)) eqn:Econt.
    + apply andb_true_iff in Econt as [E0 _]. apply Z.eqb_eq in E0. change (_output t2) with (drainData (_output t1) ret) in E0.
      rewrite (rep_getDataLen _ _ Hr2) in E0. assert (Hd2 : d2 = []) by (destruct d2; [done|cbn in E0; lia]).
      rewrite Hd2 in *. rewrite app_nil_r in Hdd.
      assert (Hi2 : conn_inv (tconn t2) F1 W1 D1 Q M2 []) by (eapply same_view_inv; [apply sent_view|exact (ph_conn _ _ _ _ _ _ _ _ _ Hp)]).
      pose proof (phase_frames _ _ _ _ _ _ _ _ _ Hp Hok) as Hok1.
      destruct (IH (length M2) ws t2 F1 W1 D1 M2 [] Hi2 eq_refl Hok1) as (t' & err & cnt & F' & W' & D' & M3 & M4 & ps2 & d' & s2 & E & -> & Hp2 & Hr' & Hs' & Hd');
        [cbn; by rewrite (ph_cfg _ _ _ _ _ _ _ _ _ Hp)|exact Hr2|cbn; lia|cbn; by rewrite (ph_size _ _ _ _ _ _ _ _ _ Hp)|].
      rewrite E. cbn [mbind option_bind].
      exists t', err, (cnt + 1), F', W', D', (M1 ++ M3), M4, (ps ++ ps2), d', (s1 ++ s2). split; [done|]. split; [by rewrite app_assoc|].
      split; [exact (phase_trans t t1 t2 t' _ _ _ _ _ _ _ _ _ _ _ _ _ Hp eq_refl eq_refl eq_refl eq_refl eq_refl Hp2)|].
      split; [done|]. split; [rewrite Hs', Hs2; by rewrite app_assoc|].
      cbn [app] in Hd'. rewrite fmap_app, concat_app, <- app_assoc, Hd', Hdd. unfold dd. by rewrite <- app_assoc.
    + exists t2, 0, 1, F1, W1, D1, M1, M2, ps, d2, s1. split; [done|]. split; [done|]. split; [|split_and!; try done].
      destruct Hp. split; try done. eapply same_view_inv; [apply sent_view|done].
Qed.

Lemma write_finish_ok err t F W D M d :
  conn_inv (tconn t) F W D [] M [] -> rep (_output t) d ->
  exists b t', write_finish err t = Some (b, t') /\ conn_inv (tconn t') F W D M [] [] /\
    rep (_output t') (if b then d else []) /\ sent_bytes (trace (tconn t')) = sent_bytes (trace (tconn t)).
Proof using codec.
  intros Hi Hr. destruct (moveBack_conn _ _ _ _ _ _ Hi) as (h & q & m & Q' & Em & _ & HQ & _ & Hi1). rewrite (HQ eq_refl) in Hi1.
  unfold write_finish. rewrite Em. cbn [mbind option_bind]. cbv zeta. set (c1 := set_queues h q m (tconn t)) in *.
  pose proof (rep_clear _ _ Hr) as Hcl.
  assert (Hemit : forall e c, same_view c1 c -> sent_bytes (trace c) = sent_bytes (trace (tconn t)) ->
    asked (dflt_of c) [e] = [] -> answers [e] = [] -> sent_bytes [e] = [] ->
    same_view c1 (emit e c) /\ sent_bytes (trace (emit e c)) = sent_bytes (trace (tconn t))).
  { intros e c Hv Hs H1 H2 H3. split; [eapply same_view_trans; [exact Hv|by apply emit_view]|].
    cbn [emit trace]. by rewrite sent_bytes_app, H3, app_nil_r. }
  assert (Hdone : forall c, same_view c1 c /\ sent_bytes (trace c) = sent_bytes (trace (tconn t)) ->
    conn_inv c F W D M [] [] /\ sent_bytes (trace c) = sent_bytes (trace (tconn t))).
  { intros c [Hv Hs]. split; [by eapply same_view_inv|done]. }
  assert (H0 : same_view c1 c1 /\ sent_bytes (trace c1) = sent_bytes (trace (tconn t))) by (split; [apply same_view_refl|done]).
  pose proof (Hemit (EvEnableWrite false) c1 (proj1 H0) (proj2 H0) eq_refl eq_refl eq_refl) as Hoff.
  assert (Hbr : forall (g : bool) c, same_view c1 c /\ sent_bytes (trace c) = sent_bytes (trace (tconn t)) ->
    same_view c1 (if g then emit EvBroadcast c else c) /\ sent_bytes (trace (if g then emit EvBroadcast c else c)) = sent_bytes (trace (tconn t))).
  { intros [] c [Hv Hs]; [|done]. by apply Hemit. }
  repeat match goal with |- context [if ?g then Some _ else _] => destruct g end; eexists _, _; (split; [reflexivity|]).
  - destruct (Hdone c1 H0). by split_and!.
  - split; [exact (proj1 (Hdone _ (Hbr _ _ H0)))|split; [exact Hr|exact (proj2 (Hdone _ (Hbr _ _ H0)))]].
  - destruct (Hdone _ (Hemit EvShutdown _ (proj1 Hoff) (proj2 Hoff) eq_refl eq_refl eq_refl)). by split_and!.
  - destruct (Hdone c1 H0). by split_and!.
  - split; [exact (proj1 (Hdone _ (Hbr _ _ Hoff)))|split; [exact Hr|exact (proj2 (Hdone _ (Hbr _ _ Hoff)))]].
Qed.

Lemma writeData_ok now writes t F W D Q d :
  conn_inv (tconn t) F W D Q [] [] -> all_frames_ok t -> existPacketHeader (cfg (tconn t)) = true ->
  rep (_output t) d -> Z.of_nat (length d) <= 2 ^ 23 -> _readWriteBufSize t <= 2 ^ 22 ->
  exists b t' F' W' D' Q1 Q2 ps d' s, @writeData P Snd spaceUsed now writes t = Some (b, t') /\ Q = Q1 ++ Q2 /\
    conn_inv (tconn t') F' W' D' Q2 [] [] /\ packets_at (packets (tconn t)) Q1 ps /\
    sent_bytes (trace (tconn t')) = sent_bytes (trace (tconn t)) ++ s /\ s ++ d' = d ++ concat (frame <$> ps) /\
    rep (_output t') (if b then d' else []).
Proof.
  intros Hi Hok Hh Hr Hd Hb. unfold writeData. destruct (moveTo_conn _ _ _ _ _ Hi) as (h & q & m & -> & Hsz & Hi1). cbn [mbind option_bind].
  rewrite Hsz, (rep_getDataLen _ _ Hr). set (c1 := set_queues h q m (tconn t)) in *.
  destruct ((Z.of_nat (length Q) =? 0) && (Z.of_nat (length d) =? 0)) eqn:Eb.
  - bool_to_prop. destruct Q; [|cbn in *; lia]. destruct d; [|cbn in *; lia].
    eexists _, _, F, W, D, [], [], [], [], []. split; [reflexivity|]. split; [done|].
    split; [eapply same_view_inv; [by apply emit_view|exact Hi1]|]. split; [constructor|].
    split; [cbn [with_conn tconn emit trace]; by rewrite sent_bytes_app|]. by split.
  - assert (Hn : length Q = Z.to_nat (i32 (Z.of_nat (length Q)))).
    { pose proof (qi_bound _ _ _ _ (cv_queue _ _ _ _ _ _ _ Hi)) as Hbd. cbn [app] in Hbd. rewrite app_nil_r in Hbd.
      rewrite i32_small; unfold INT_MIN, INT_MAX; lia. }
    set (t1 := with_conn (set_lasttime now (on_stats (with_queueSize (i32 (Z.of_nat (length Q)))) c1)) t).
    assert (Hi2 : conn_inv (tconn t1) F W D [] Q []) by (eapply (same_view_inv c1); [by split_and!|exact Hi1]).
    destruct (write_rounds_ok 10 _ writes t1 F W D [] Q d Hi2 Hn Hok Hh Hr Hd Hb)
      as (t2 & err & cnt & F' & W' & D' & M1 & M2 & ps & d' & s & -> & EQ & Hp & Hr' & Hs' & Hd'). cbn [mbind option_bind].
    set (t3 := with_conn (on_stats (with_writes cnt) (tconn t2)) t2).
    assert (Hi3 : conn_inv (tconn t3) F' W' D' [] M2 []).
    { eapply (same_view_inv (tconn t2)); [apply stats_view|exact (ph_conn _ _ _ _ _ _ _ _ _ Hp)]. }
    destruct (write_finish_ok err t3 F' W' D' M2 d' Hi3 Hr') as (b & t' & -> & Hi' & Hrb & Hsb).
    exists b, t', F', W', D', M1, M2, ps, d', s. split_and!; try done; [exact (ph_taken _ _ _ _ _ _ _ _ _ Hp)|by rewrite Hsb].
Qed.

End Sending.

(** ** Properties *)

Section Properties.

Context {P : Type} `{IPacket P} {HB : IPacketBase P} {HC : ChannelPacket P}.
Context (spaceUsed : P -> Z) (createPacket : Z -> P).

#[local] Set Default Proof Using "Type+HB".

Implicit Types (t : TCPConnection P).

Abbreviation reach := (tcp_reachable spaceUsed createPacket).
Abbreviation run := (tcp_run spaceUsed createPacket).

(** C1: Every request is answered at most once and never forgotten.  In every
    reachable state of a client connection, through any interleaving of
    posting, waiting for room, writing, reading, time-outs, closing and
    reopening, the requests that asked for an answer are exactly those whose
    handler was called (with the reply, a time-out or a close notice) and
    those still outstanding, counted with multiplicity. *)
Theorem requests_answered_once t :
  reach t -> _isServer (cfg (tconn t)) = false ->
  asked (dflt_of (tconn t)) (trace (tconn t)) ≡ₚ answers (trace (tconn t)) ++ outstanding (tconn t).
Proof. intros [_ (F & W & D & Q & Hi)]%tcp_reachable_inv Hs. exact (outstanding_perm _ _ _ _ _ Hi Hs). Qed.

(** C2: Closing answers everyone.  In every reachable state [closeHook]
    succeeds and leaves no outstanding request, no queued packet and no
    channel in use: every handler that was owed an answer has been called
    exactly once. *)
Theorem close_answers_everyone t :
  reach t -> _isServer (cfg (tconn t)) = false ->
  exists t', run t TClose = Some t' /\ outstanding (tconn t') = [] /\ packets (tconn t') = ∅ /\
    _useCount (_channelPool (tconn t')) = 0 /\ _closed (tconn t') = true /\
    asked (dflt_of (tconn t')) (trace (tconn t')) ≡ₚ answers (trace (tconn t')).
Proof.
  intros Hr Hs. destruct (close_quiet spaceUsed createPacket t (tcp_reachable_inv _ _ _ Hr)) as (t' & E & Hq & Ec).
  destruct (quiet_answered t' Hq) as (H1 & H2 & H3 & H4); [by rewrite Ec|]. exists t'. split_and!; try done. apply Hq.
Qed.

(** The queue limit holds.  A client connection with a limit never has
    more requests in flight than the limit, and the pool's counter is the
    number of channels in use. *)
Theorem queue_limit_respected t :
  reach t -> _isServer (cfg (tconn t)) = false ->
  getUseListCount (_channelPool (tconn t)) = Z.of_nat (length (in_use_channels (tconn t))) /\
  (0 < _queueLimit (cfg (tconn t)) -> getUseListCount (_channelPool (tconn t)) <= _queueLimit (cfg (tconn t))).
Proof.
  intros [_ (F & W & D & Q & Hi)]%tcp_reachable_inv Hs. pose proof (cv_chan _ _ _ _ _ _ _ Hi) as Hc.
  rewrite (getUseListCount_small _ _ _ _ Hc), (in_use _ _ _ _ Hc), (in_use_perm _ _ _ _ _ Hi Hs).
  split; [done|]. apply (cv_limit _ _ _ _ _ _ _ Hi).
Qed.

(** Posting, waking up, time-outs and closing are defined in every
    reachable state: no dangling packet or channel pointer is followed, no
    assertion fails and every list walk ends. *)
Theorem connection_operations_defined t op :
  reach t -> tcp_may t op ->
  match op with TRead _ | TWrite _ _ => True | _ => exists t', run t op = Some t' /\ reach t' end.
Proof.
  intros Hr Hmay. pose proof (tcp_step_defined spaceUsed createPacket t op (tcp_reachable_inv _ _ _ Hr) Hmay) as He.
  destruct op; try done; destruct He as [t' He]; exists t'; (split; [exact He|by eapply tcp_step]).
Qed.

End Properties.

Section Frames.

Context {P : Type} {Snd Rcv : IPacket P} {createPacket : Z -> P}.
Context {codec : PacketCodec P Snd Rcv createPacket} {HC : @ChannelPacket P Snd}.
Context (spaceUsed : P -> Z).

#[local] Existing Instance send_base.
#[local] Set Default Proof Using "Type+codec".

Implicit Types (t : TCPConnection P).

(** C4: Writing sends frames, in order and without loss.  When every queued
    packet can be encoded, [writeData] succeeds whatever the socket answers;
    it takes packets from the front of the queue, in expiration order, and
    the bytes that went to the socket in this call followed by the bytes left
    in the output buffer are the bytes that were in the buffer followed by
    exactly the frames of those packets.  (When it reports failure it drops
    the buffer, since the connection is to be closed.) *)
Theorem writeData_sends_frames now writes t d :
  @tcp_reachable P Snd HC spaceUsed createPacket t -> all_frames_ok t -> existPacketHeader (cfg (tconn t)) = true ->
  rep (_output t) d -> Z.of_nat (length d) <= 2 ^ 23 -> _readWriteBufSize t <= 2 ^ 22 ->
  exists ok t' Q1 Q2 ps s d', @writeData P Snd spaceUsed now writes t = Some (ok, t') /\
    qrep (links (tconn t)) (_outputQueue (tconn t)) (Q1 ++ Q2) /\ PacketQueue.sorted (links (tconn t)) (Q1 ++ Q2) /\
    packets_at (packets (tconn t)) Q1 ps /\ qrep (links (tconn t')) (_outputQueue (tconn t')) Q2 /\
    sent_bytes (trace (tconn t')) = sent_bytes (trace (tconn t)) ++ s /\
    s ++ d' = d ++ concat (frame <$> ps) /\ rep (_output t') (if ok then d' else []).
Proof.
  intros [_ (F & W & D & Q & Hi)]%tcp_reachable_inv Hok Hh Hr Hd Hb.
  destruct (writeData_ok spaceUsed now writes t F W D Q d Hi Hok Hh Hr Hd Hb)
    as (b & t' & F' & W' & D' & Q1 & Q2 & ps & d' & s & E & -> & Hi' & Hps & Hs & Hd' & Hrb).
  exists b, t', Q1, Q2, ps, s, d'. split_and!; try done.
  - exact (qi_out _ _ _ _ (cv_queue _ _ _ _ _ _ _ Hi)).
  - exact (qi_sorted _ _ _ _ (cv_queue _ _ _ _ _ _ _ Hi)).
  - exact (qi_out _ _ _ _ (cv_queue _ _ _ _ _ _ _ Hi')).
Qed.

End Frames.

(** ** Witnesses

    A client of plain packets: it posts a request with a handler. *)

Definition dp_space (p : DefaultPacket) : Z := 100 + getBodyLen p.

Abbreviation DP := (DefaultPacket_IPacket alloc_64M).

Abbreviation dp_reachable :=
  (@tcp_reachable DefaultPacket DP (DefaultPacket_channel alloc_64M) dp_space (fun _ => DefaultPacket_new)).
Abbreviation dp_run := (@tcp_run DefaultPacket DP dp_space (fun _ => DefaultPacket_new)).

Definition sample_start : TCPConnection DefaultPacket := tcp_init true false false None 0 8192.

Definition sample_post : @tcp_op DefaultPacket :=
  TPost 1000 1000 7 (packet_of 0 3 [104; 105]) (Some 5%positive) (Some 6%positive) false.

Definition sample_posted : TCPConnection DefaultPacket := default sample_start (dp_run sample_start sample_post).

Lemma sample_room : @tcp_may DefaultPacket DP (DefaultPacket_channel alloc_64M) sample_start sample_post.
Proof. repeat split; vm_compute; done. Qed.

Lemma sample_start_reachable : dp_reachable sample_start.
Proof. by apply tcp_start. Qed.

Lemma sample_posted_reachable : dp_reachable sample_posted.
Proof.
  eapply tcp_step; [exact sample_start_reachable|exact sample_room|]. vm_compute. reflexivity.
Qed.

Lemma requests_answered_once_witness :
  _isServer (cfg (tconn sample_posted)) = false /\
  asked (dflt_of (tconn sample_posted)) (trace (tconn sample_posted)) ≡ₚ
  answers (trace (tconn sample_posted)) ++ @outstanding _ DP (tconn sample_posted).
Proof.
  split; [vm_compute; reflexivity|].
  apply (@requests_answered_once DefaultPacket DP (DefaultPacket_Base alloc_64M) (DefaultPacket_channel alloc_64M) dp_space (fun _ => DefaultPacket_new) sample_posted);
    [exact sample_posted_reachable|vm_compute; reflexivity].
Defined.

Lemma close_answers_everyone_witness :
  _isServer (cfg (tconn sample_posted)) = false /\
  exists t', dp_run sample_posted TClose = Some t' /\ packets (tconn t') = ∅ /\ _closed (tconn t') = true.
Proof.
  split; [vm_compute; reflexivity|].
  destruct (@close_answers_everyone DefaultPacket DP (DefaultPacket_Base alloc_64M) (DefaultPacket_channel alloc_64M) dp_space (fun _ => DefaultPacket_new) sample_posted
    sample_posted_reachable ltac:(vm_compute; reflexivity)) as (t' & E & _ & Hp & _ & Hc & _).
  exists t'. split; [exact E|]. split; [exact Hp|exact Hc].
Defined.

Lemma queue_limit_respected_witness :
  0 < _queueLimit (cfg (tconn sample_posted)) /\
  getUseListCount (_channelPool (tconn sample_posted)) <= _queueLimit (cfg (tconn sample_posted)).
Proof.
  assert (H : 0 < _queueLimit (cfg (tconn sample_posted))) by (vm_compute; reflexivity). split; [exact H|].
  apply (@queue_limit_respected DefaultPacket DP (DefaultPacket_Base alloc_64M) (DefaultPacket_channel alloc_64M) dp_space (fun _ => DefaultPacket_new) sample_posted);
    [exact sample_posted_reachable|vm_compute; reflexivity|exact H].
Defined.

Lemma connection_operations_defined_witness :
  exists t', dp_run sample_start sample_post = Some t' /\ dp_reachable t'.
Proof.
  apply (@connection_operations_defined DefaultPacket DP (DefaultPacket_Base alloc_64M) (DefaultPacket_channel alloc_64M) dp_space (fun _ => DefaultPacket_new) sample_start sample_post);
    [exact sample_start_reachable|exact sample_room].
Defined.

(** The packet as it is queued: it has the channel's id and an expiration. *)
Definition sample_queued : DefaultPacket :=
  mkDefaultPacket (mkPacket (mkHeader 1 3 0) 5001000 5000 (Some 1%positive) None) (BBlock [Some 104; Some 105]) 2 2.

Lemma sample_frames_ok : @all_frames_ok _ _ _ _ codec_dp sample_posted.
Proof.
  intros x p Hx. assert (E : packets (tconn sample_posted) = {[ 7%positive := sample_queued ]}) by (vm_compute; reflexivity).
  rewrite E in Hx. apply lookup_singleton_Some in Hx as [_ <-]. split_and!; [|vm_compute; discriminate|vm_compute; reflexivity|vm_compute; discriminate].
  split; [|cbn; lia]. exists [104; 105]. split; [done|cbn; lia|by apply example_bytes|by split].
Qed.

(** The kernel accepts 5 bytes of the 18. *)
Lemma writeData_sends_frames_witness :
  exists ok t' s d', @writeData _ DP dp_space 2000 [inl 5] sample_posted = Some (ok, t') /\
    sent_bytes (trace (tconn t')) = s /\ rep (_output t') (if ok then d' else []) /\
    exists ps, s ++ d' = concat (@frame _ _ _ _ codec_dp <$> ps).
Proof.
  destruct (@writeData_sends_frames _ _ _ _ codec_dp (DefaultPacket_channel alloc_64M) dp_space 2000 [inl 5] sample_posted [])
    as (ok & t' & Q1 & Q2 & ps & s & d' & E & _ & _ & _ & _ & Hs & Hd & Hr).
  - exact sample_posted_reachable.
  - exact sample_frames_ok.
  - vm_compute. reflexivity.
  - assert (Eo : _output sample_posted = DataBuffer_new) by (vm_compute; reflexivity). rewrite Eo. apply rep_new.
  - vm_compute. discriminate.
  - vm_compute. discriminate.
  - exists ok, t', s, d'. split; [exact E|]. split; [rewrite Hs; vm_compute (sent_bytes (trace (tconn sample_posted))); reflexivity|].
    split; [exact Hr|]. exists ps. exact Hd.
Defined.
