(* ===== verification/Direct.v ===== *)
(** * Direct packets

    Sources: directpacket.h, directpacket.cpp, directplaceholder.h,
    directstreamingcontext.h, directpacketstreamer.h and
    directpacketstreamer.cpp under src/agent_engine/network/anet/.

    A second framing.  A direct packet is a header of 44 bytes, a message, and
    a payload that is copied neither when it is sent nor when it is received:
    the receiver puts it where the placeholder in the channel of the request
    points to.  The memory of the user is a map from addresses to bytes; a
    write to an address that is not in it is undefined. *)

From S2P Require Import Prelude DataBuffer Packet Streamer DefaultPacket ChannelPool Connection TcpConnection.

(** ** DirectPacket *)

Definition ANET_DIRECT_PACKET_FLAG : Z := 0x494F5249.
Definition ANET_DIRECT_PACKET_VER : Z := 0x1.
Definition ANET_DIRECT_PACKET_INFO_LEN : Z := 44.
Definition DIRECT_WRITE_PAYLOAD_THRESHOLD : Z := 8 * 1024.

Record DirectPacketHeader := mkDirectHeader {
  _flag : Z;              (* uint32_t *)
  _ver : Z;               (* uint32_t *)
  _reserved : Z;          (* uint64_t *)
  _msgSize : Z;           (* int32_t *)
  _payloadSize : Z;       (* int32_t *)
  _toReceiveSize : Z      (* int32_t *)
}.

(** A payload: null, or the bytes that can be read from its address on. *)
Record DirectPayload := mkPayload {
  payload_addr : option (list Z);
  payload_len : Z         (* uint32_t *)
}.

Definition kEmptyPayload : DirectPayload := mkPayload None 0.

(** A placeholder is an address and a length, as in [Channel]. *)
Abbreviation DirectPlaceholder := (option positive * Z)%type.
Definition kEmptyPlaceholder : DirectPlaceholder := (None, 0).

Record DirectPacket := mkDirectPacket {
  direct_default : DefaultPacket;
  _directHeader : DirectPacketHeader;
  _payload : DirectPayload;
  _placeholder : DirectPlaceholder;
  _hasPlaceholder : bool
}.

(** [new DirectPacket()] *)
Definition DirectPacket_new : DirectPacket :=
  mkDirectPacket DefaultPacket_new (mkDirectHeader 0 0 0 0 0 0) kEmptyPayload kEmptyPlaceholder false.

(** [DirectPacketFactory::createDirectPacket] *)
Definition createDirectPacket (pcode : Z) : DirectPacket := DirectPacket_new.

Definition with_default (d : DefaultPacket) (p : DirectPacket) : DirectPacket :=
  mkDirectPacket d (_directHeader p) (_payload p) (_placeholder p) (_hasPlaceholder p).
Definition setDirectHeader (h : DirectPacketHeader) (p : DirectPacket) : DirectPacket :=
  mkDirectPacket (direct_default p) h (_payload p) (_placeholder p) (_hasPlaceholder p).
Definition setPayload (payload : DirectPayload) (p : DirectPacket) : DirectPacket :=
  mkDirectPacket (direct_default p) (_directHeader p) payload (_placeholder p) (_hasPlaceholder p).
Definition packet_setPlaceholder (ph : DirectPlaceholder) (p : DirectPacket) : DirectPacket :=
  mkDirectPacket (direct_default p) (_directHeader p) (_payload p) ph true.

(** [setPlaceholder(addr, len)] *)
Definition setPlaceholder_at (addr : option positive) (len : Z) (p : DirectPacket) : option DirectPacket :=
  _ ← assertb (negb (_hasPlaceholder p));
  Some (match addr with
        | Some _ => if 0 <? len then packet_setPlaceholder (addr, u32 len) p else p
        | None => p
        end).

Definition getPayloadSizeFromHeader (p : DirectPacket) : Z := _payloadSize (_directHeader p).
Definition getToReceiveSizeFromHeader (p : DirectPacket) : Z := _toReceiveSize (_directHeader p).

(** ** The memory of the user, and the socket *)

Abbreviation memory := (gmap Z Z).

(** [memcpy(addr, src, length(src))] *)
Fixpoint poke (m : memory) (a : Z) (src : list Z) : option memory :=
  match src with
  | [] => Some m
  | v :: src => _ ← m !! a; poke (<[a := v]> m) (a + 1) src
  end.

Definition peek (m : memory) (a : Z) (n : nat) : option (list Z) := mapM (fun i => m !! (a + Z.of_nat i)) (seq 0 n).

(** What the kernel replies to a read: [k + 1] bytes are ready, or it fails,
    or the peer has closed.  Without an answer nothing is ready. *)
Inductive answer := Ready (k : nat) | Failed (err : Z) | Closed.

Record stream := mkStream {
  incoming : list Z;          (* the bytes on their way *)
  replies : list answer;
  so_error : Z
}.

(** [Socket::read]: [ret] and the bytes. *)
Definition socket_read (len : Z) (s : stream) : Z * list Z * stream :=
  match replies s with
  | [] => (-1, [], mkStream (incoming s) [] EAGAIN)
  | Closed :: rest => (0, [], mkStream (incoming s) rest 0)
  | Failed err :: rest => (-1, [], mkStream (incoming s) rest err)
  | Ready k :: rest =>
      if decide (incoming s = []) then (-1, [], mkStream [] rest EAGAIN)
      else
        let n := Nat.min (S k) (Z.to_nat len) in
        let bytes := take n (incoming s) in
        (Z.of_nat (length bytes), bytes, mkStream (drop n (incoming s)) rest 0)
  end.

(** ** The packet's operations *)

Section Alloc.

Context (alloc_ok : Z -> bool).

(** The virtual functions are those of [DefaultPacket]. *)
#[local] Instance DirectPacket_IPacket : IPacket DirectPacket := {
  base p := dp_base (direct_default p);
  upd_base f p := with_default (@upd_base _ (DefaultPacket_IPacket alloc_ok) f (direct_default p)) p;
  encode p output := '(ok, d, output) ← DefaultPacket_encode (direct_default p) output; Some (ok, with_default d p, output);
  decode p input := '(ok, d, input) ← DefaultPacket_decode alloc_ok (direct_default p) input; Some (ok, with_default d p, input);
  isRegularPacket _ := true;
  getPriority _ := ANET_PRIORITY_NORMAL;
  setPriority _ p := Some p;
  setChannelId chid p := d ← @setChannelId _ (DefaultPacket_IPacket alloc_ok) chid (direct_default p); Some (with_default d p);
  getChannelId p := Packet_getChannelId (dp_base (direct_default p));
  cleanupFlags p := p;
  getPacketVersion _ := 0;
  setPacketVersion _ p := p
}.

Lemma DirectPacket_Base : @IPacketBase DirectPacket DirectPacket_IPacket.
Proof. split; [done..|]. intros f g p E. cbn in *. unfold with_default. by rewrite E. Qed.

(** [decode(input, header)]: the body is copied from the [_msgSize] bytes at
    [getData()]; the size is a [size_t] there. *)
Definition DirectPacket_decode (p : DirectPacket) (input : DataBuffer) (header : DirectPacketHeader)
  : option (bool * DirectPacket * DataBuffer) :=
  if getDataLen input <? _msgSize header then Some (false, p, input)
  else
    src ← getData input;
    '(rc, d) ← setBody alloc_ok (direct_default p) (Some src) (u64 (_msgSize header));
    Some (rc, with_default d p, drainData input (_msgSize header)).

(** ** DirectStreamingContext *)

Record DirectStreamingContext := mkDirectContext {
  streaming : StreamingContext DirectPacket;
  _payloadCompleted : bool;
  _payloadReadOffset : Z     (* size_t *)
}.

Definition DirectStreamingContext_new : DirectStreamingContext := mkDirectContext StreamingContext_new true 0.

Definition on_streaming (f : StreamingContext DirectPacket -> StreamingContext DirectPacket) (c : DirectStreamingContext) : DirectStreamingContext :=
  mkDirectContext (f (streaming c)) (_payloadCompleted c) (_payloadReadOffset c).
Definition setPayloadCompleted (v : bool) (c : DirectStreamingContext) : DirectStreamingContext :=
  mkDirectContext (streaming c) v (_payloadReadOffset c).
Definition setPayloadReadOffset (n : Z) (c : DirectStreamingContext) : DirectStreamingContext :=
  mkDirectContext (streaming c) (_payloadCompleted c) n.
Definition direct_reset (c : DirectStreamingContext) : DirectStreamingContext := mkDirectContext (reset (streaming c)) true 0.

(** [getDirectPacket]: a [static_cast] of the packet, which has no defined
    result on a packet of another class. *)
Definition as_direct (d : option (dyn_packet DirectPacket)) : option (option DirectPacket) :=
  match d with
  | None => Some None
  | Some (inl p) => Some (Some p)
  | Some (inr _) => None
  end.
Definition getDirectPacket (c : DirectStreamingContext) : option (option DirectPacket) := as_direct (getPacket (streaming c)).
Definition stealDirectPacket (c : DirectStreamingContext) : option (option DirectPacket * DirectStreamingContext) :=
  let '(d, s) := stealPacket (streaming c) in
  p ← as_direct d; Some (p, on_streaming (fun _ => s) c).

(** ** DirectPacketStreamer *)

Section Streamer.

Context (existPacketHeader : bool).

(** [encode]: the result, the packet, the buffer, [payloadToWrite] and the
    channels.  The packet's pcode may be changed by its [encode]. *)
Definition direct_encode (p : DirectPacket) (output : DataBuffer) (payloadToWrite : DirectPayload) (h : cheap)
  : option (bool * DirectPacket * DataBuffer * DirectPayload * cheap) :=
  let header := _packetHeader (base p) in
  let oldLen := getDataLen output in
  let payload := _payload p in
  let payloadSize := i32 (payload_len payload) in
  let toReceiveSize := if _hasPlaceholder p then i32 (_placeholder p).2 else 0 in
  '(output, pcodeOffset, dataLenOffset, msgSizeOffset) ←
    (if existPacketHeader then
       output ← writeInt32 output ANET_PACKET_FLAG;
       output ← writeInt32 output (_chid header);
       let pcodeOffset := getDataLen output in
       output ← writeInt32 output (_pcode header);
       let dataLenOffset := getDataLen output in
       output ← writeInt32 output 0;
       output ← writeInt32 output ANET_DIRECT_PACKET_FLAG;
       output ← writeInt32 output ANET_DIRECT_PACKET_VER;
       output ← writeInt64 output 0;
       let msgSizeOffset := getDataLen output in
       output ← writeInt32 output 0;
       output ← writeInt32 output payloadSize;
       output ← writeInt32 output toReceiveSize;
       Some (output, pcodeOffset, dataLenOffset, msgSizeOffset)
     else Some (output, -1, -1, -1));
  '(ok, p, output) ← encode p output;
  if negb ok then
    output ← stripData output (getDataLen output - oldLen);
    Some (false, p, output, payloadToWrite, h)
  else
    let msgSize := i32 (getDataLen output - oldLen - ANET_DIRECT_PACKET_INFO_LEN) in
    let p := upd_base (Packet_setDataLen (i32 (ANET_DIRECT_PACKET_INFO_LEN + msgSize + payloadSize - PACKET_INFO_LEN))) p in
    _ ← assertb (oldLen + ANET_DIRECT_PACKET_INFO_LEN <=? getDataLen output);
    output ←
      (if 0 <=? dataLenOffset then
         output ← fillInt32 output dataLenOffset (_dataLen (_packetHeader (base p)));
         output ← fillInt32 output pcodeOffset (_pcode (_packetHeader (base p)));
         fillInt32 output msgSizeOffset msgSize
       else Some output);
    '(output, payloadToWrite) ←
      (if 0 <? payloadSize then
         if payloadSize <? DIRECT_WRITE_PAYLOAD_THRESHOLD then
           src ← payload_addr payload;
           output ← writeBytes output src payloadSize;
           Some (output, payloadToWrite)
         else Some (output, payload)
       else Some (output, payloadToWrite));
    h ← (match _channel (base p) with
         | Some ch => if _hasPlaceholder p then upd h ch (setPlaceholder (_placeholder p)) else Some h
         | None => Some h
         end);
    Some (true, p, output, payloadToWrite, h).

(** [getPacketInfo]: the result, the headers, [*broken] and the buffer. *)
Definition getDirectPacketInfo (input : DataBuffer)
  : option (bool * option (PacketHeader * DirectPacketHeader) * bool * DataBuffer) :=
  if getDataLen input <? ANET_DIRECT_PACKET_INFO_LEN then Some (false, None, false, input)
  else
    '(ok, header, broken, input) ← getPacketInfo existPacketHeader input;
    if negb ok then Some (false, None, broken, input)
    else
      '(flag, input) ← readInt32 input;
      '(ver, input) ← readInt32 input;
      '(reserved, input) ← readInt64 input;
      '(msgSize, input) ← readInt32 input;
      '(payloadSize, input) ← readInt32 input;
      '(toReceiveSize, input) ← readInt32 input;
      let directHeader := mkDirectHeader (u32 flag) (u32 ver) (u64 reserved) msgSize payloadSize toReceiveSize in
      if negb (u32 flag =? ANET_DIRECT_PACKET_FLAG) || negb (u32 ver =? ANET_DIRECT_PACKET_VER)
      then Some (false, None, true, input)
      else header ← header; Some (true, Some (header, directHeader), false, input).

(** Second half of [processData]: the headers are known. *)
Definition direct_body (packet : DirectPacket) (b : DataBuffer) (ctx : DirectStreamingContext)
  : option (bool * DataBuffer * DirectStreamingContext) :=
  let eof := isEndOfFile (streaming ctx) in
  let directHeader := _directHeader packet in
  if getDataLen b <? _msgSize directHeader then Some (negb eof, b, on_streaming (setBroken eof) ctx)
  else
    '(ok, packet, b) ← DirectPacket_decode packet b directHeader;
    let d := if ok : bool then inl packet
             else inr (upd_base (setPacketHeader (_packetHeader (base packet))) (ControlPacket_new CMD_BAD_PACKET true)) in
    Some (true, b, on_streaming (fun c => setCompleted true (setPacket (Some d) c)) ctx).

Definition direct_processData (b : DataBuffer) (ctx : DirectStreamingContext)
  : option (bool * DataBuffer * DirectStreamingContext) :=
  packet ← getDirectPacket ctx;
  match packet with
  | Some packet => direct_body packet b ctx
  | None =>
      '(ok, headers, brokenFlag, b) ← getDirectPacketInfo b;
      let eof := isEndOfFile (streaming ctx) in
      if negb ok then Some (negb brokenFlag && negb eof, b, on_streaming (setBroken (brokenFlag || eof)) ctx)
      else
        '(header, directHeader) ← headers;
        b ← ensureFree b (_msgSize directHeader);
        let packet := setDirectHeader directHeader (upd_base (setPacketHeader header) (createDirectPacket (_pcode header))) in
        direct_body packet b (on_streaming (setPacket (Some (inl packet))) ctx)
  end.

End Streamer.

(** ** Receiving *)

Section Receive.

Context (existPacketHeader : bool).
Context {S : Type}.
Context (getPlaceholderFromChannel : S -> Z -> DirectPlaceholder).
Context (count : Z -> S -> S).                            (* [_stats.totalRxBytes += ret] *)
Context (deliver : memory -> S -> DirectPacket -> option S).   (* [handlePacket] *)

Record reading := mkReading {
  r_input : DataBuffer;
  r_context : DirectStreamingContext;
  r_memory : memory;
  r_socket : stream;
  r_ret : Z;
  r_error : Z;
  r_allocated : Z;        (* [_inputBufferSpaceAllocated] *)
  r_state : S
}.

Definition set_input (b : DataBuffer) (c : DirectStreamingContext) (st : reading) : reading :=
  mkReading b c (r_memory st) (r_socket st) (r_ret st) (r_error st) (r_allocated st) (r_state st).
Definition set_memory (m : memory) (st : reading) : reading :=
  mkReading (r_input st) (r_context st) m (r_socket st) (r_ret st) (r_error st) (r_allocated st) (r_state st).
Definition set_socket (s : stream) (ret : Z) (st : reading) : reading :=
  mkReading (r_input st) (r_context st) (r_memory st) s ret (r_error st) (r_allocated st) (r_state st).
Definition set_error (e : Z) (st : reading) : reading :=
  mkReading (r_input st) (r_context st) (r_memory st) (r_socket st) (r_ret st) e (r_allocated st) (r_state st).
Definition set_state (s : S) (st : reading) : reading :=
  mkReading (r_input st) (r_context st) (r_memory st) (r_socket st) (r_ret st) (r_error st) (r_allocated st) s.

(** [addInputBufferSpaceAllocated], by what the buffer has grown. *)
Definition account (oldSpaceUsed : Z) (st : reading) : reading :=
  mkReading (r_input st) (r_context st) (r_memory st) (r_socket st) (r_ret st) (r_error st)
            (i64 (r_allocated st + (getSpaceUsed (r_input st) - oldSpaceUsed))) (r_state st).

Definition on_context (f : DirectStreamingContext -> DirectStreamingContext) (st : reading) : reading :=
  set_input (r_input st) (f (r_context st)) st.

(** The part of [readPayload] that takes what the buffer has: [leftToRead]
    afterwards. *)
Definition payload_from_buffer (addr leftToRead : Z) (st : reading) : option (Z * reading) :=
  let offset := _payloadReadOffset (r_context st) in
  let bufferLen := getDataLen (r_input st) in
  let bufferReadLen := if leftToRead <=? bufferLen then leftToRead else bufferLen in
  if 0 <? bufferReadLen then
    src ← peekBytes (r_input st) bufferReadLen;
    m ← poke (r_memory st) (addr + offset) src;
    let ctx := setPayloadReadOffset (u64 (offset + bufferReadLen)) (r_context st) in
    Some (leftToRead - bufferReadLen, set_memory m (set_input (drainData (r_input st) bufferReadLen) ctx st))
  else Some (leftToRead, st).

(** The part that reads the socket. *)
Definition payload_from_socket (addr leftToRead : Z) (st : reading) : option (bool * reading) :=
  let offset := _payloadReadOffset (r_context st) in
  let '(ret, bytes, sock) := socket_read leftToRead (r_socket st) in
  m ← poke (r_memory st) (addr + offset) bytes;
  let st := set_memory m (set_socket sock ret st) in
  if ret <? 0 then Some (false, st)
  else if ret =? 0 then Some (false, on_context (on_streaming (fun c => setBroken true (setEndOfFile true c))) st)
  else Some (ret =? leftToRead, on_context (setPayloadReadOffset (u64 (offset + ret))) st).

Definition readPayload (st : reading) : option (bool * reading) :=
  packet ← getDirectPacket (r_context st);
  packet ← packet;
  let payloadSize := _payloadSize (_directHeader packet) in
  if payloadSize <? 0 then Some (false, on_context (on_streaming (setBroken true)) st)
  else if payloadSize =? 0 then Some (true, st)
  else
    let placeholder := getPlaceholderFromChannel (r_state st) (getChannelId packet) in
    match placeholder.1 with
    | None => Some (false, on_context (on_streaming (setBroken true)) st)
    | Some addr =>
        if i32 placeholder.2 <? payloadSize then Some (false, on_context (on_streaming (setBroken true)) st)
        else
          let st := on_context (on_streaming (setPacket (Some (inl (packet_setPlaceholder placeholder packet))))) st in
          let leftToRead := i32 (u64 (payloadSize - _payloadReadOffset (r_context st))) in
          _ ← assertb (0 <? leftToRead);
          '(leftToRead, st) ← payload_from_buffer (Z.pos addr) leftToRead st;
          if leftToRead =? 0 then Some (true, st) else payload_from_socket (Z.pos addr) leftToRead st
    end.

(** The body of the inner loop from the label on: the payload, and the packet
    when it is complete.  Whether the loop goes on. *)
Definition finish_packet (st : reading) : option (bool * reading) :=
  '(success, st) ← readPayload st;
  let st := if 0 <? r_ret st then set_state (count (r_ret st) (r_state st)) st else st in
  if negb success then
    let st := on_context (setPayloadCompleted false) st in
    Some (false, if negb (isBroken (streaming (r_context st))) && (r_ret st <? 0) then set_error (so_error (r_socket st)) st else st)
  else
    '(packet, ctx) ← stealDirectPacket (r_context st);
    packet ← packet;
    _ ← assertb (i32 (_payloadReadOffset ctx) =? _payloadSize (_directHeader packet));
    s ← deliver (r_memory st) (r_state st) packet;
    Some (true, set_state s (set_input (r_input st) (direct_reset ctx) st)).

(** The inner loop of [readData]; [resume] when it is entered by the [goto]. *)
Fixpoint direct_loop (fuel : nat) (resume : bool) (st : reading) : option reading :=
  match fuel with
  | O => None
  | Datatypes.S fuel =>
      '(go, st) ←
        (if resume then Some (true, st)
         else
           '(ok, b, ctx) ← direct_processData existPacketHeader (r_input st) (r_context st);
           Some (ok && isCompleted (streaming ctx), set_input b ctx st));
      if negb go then Some st
      else
        '(again, st) ← finish_packet st;
        if again : bool then direct_loop fuel false st else Some st
  end.

Definition loop_fuel (st : reading) : nat := (Z.to_nat (getDataLen (r_input st)) + 3)%nat.

(** One round of the outer loop: whether it was left by the [break], and
    [broken]. *)
Definition direct_round (bufSize : Z) (st : reading) : option (bool * reading) :=
  let oldSpaceUsed := getSpaceUsed (r_input st) in
  if negb (_payloadCompleted (r_context st)) then
    packet ← getDirectPacket (r_context st);
    _ ← packet;
    st ← direct_loop (loop_fuel st) true st;
    Some (false, account oldSpaceUsed st)
  else
    b ← ensureFree (r_input st) bufSize;
    let st := set_input b (r_context st) st in
    let '(ret, bytes, sock) := socket_read bufSize (r_socket st) in
    let st := set_socket sock ret st in
    if ret <? 0 then Some (true, set_error (so_error sock) (account oldSpaceUsed st))
    else
      let st := if ret =? 0 then on_context (on_streaming (setEndOfFile true)) st else st in
      b ← recvFree (r_input st) bytes;
      b ← pourData b ret;
      let st := set_state (count ret (r_state st)) (set_input b (r_context st) st) in
      st ← direct_loop (loop_fuel st) false st;
      Some (false, account oldSpaceUsed st).

(** The outer loop: [broken]. *)
Fixpoint direct_rounds (rounds : nat) (bufSize : Z) (st : reading) : option (bool * reading) :=
  match rounds with
  | O => Some (false, st)
  | Datatypes.S rounds =>
      '(stop, st) ← direct_round bufSize st;
      if stop : bool then Some (false, st)
      else
        let broken := isBroken (streaming (r_context st)) in
        if (r_ret st =? bufSize) && negb broken && negb (Nat.eqb rounds 0) then direct_rounds rounds bufSize st
        else Some (broken, st)
  end.

Definition direct_readData (bufSize : Z) (st : reading) : option (bool * reading) :=
  '(broken, st) ← direct_rounds 10 bufSize (set_error 0 (set_socket (r_socket st) 0 st));
  let broken := broken || ((r_ret st =? 0) ||
                  ((r_ret st <? 0) && (negb (r_error st =? 0) && negb (r_error st =? EAGAIN)))) in
  Some (negb broken, st).

End Receive.

End Alloc.

Arguments reading : clear implicits.
