(* ===== verification/DirectDelivery.v ===== *)
(** * Delivery of direct packets

    What a sender writes for direct packets, and that the receiver takes from
    it, in whatever pieces it arrives, exactly these packets, each payload in
    its place when the handler is called. *)

From S2P Require Import Prelude DataBuffer Packet Streamer DefaultPacket Framing ChannelPool Connection TcpConnection Direct.

(** ** Frames *)

Definition body_bytes (p : DirectPacket) : list Z := dp_wire (direct_default p).

Definition payload_bytes (p : DirectPacket) : list Z :=
  match payload_addr (_payload p) with Some l => take (Z.to_nat (payload_len (_payload p))) l | None => [] end.

Definition toReceive (p : DirectPacket) : Z := if _hasPlaceholder p then i32 (_placeholder p).2 else 0.

Definition direct_header_bytes (msgSize payloadSize toReceiveSize : Z) : list Z :=
  be_bytes 4 ANET_DIRECT_PACKET_FLAG ++ be_bytes 4 ANET_DIRECT_PACKET_VER ++ be_bytes 8 0 ++
  be_bytes 4 msgSize ++ be_bytes 4 payloadSize ++ be_bytes 4 toReceiveSize.

Definition base_of (p : DirectPacket) : Packet := dp_base (direct_default p).

(** The header of a packet on the wire. *)
Definition sent_header (p : DirectPacket) : PacketHeader :=
  mkHeader (_chid (_packetHeader (base_of p))) (_pcode (_packetHeader (base_of p)))
           (28 + Z.of_nat (length (body_bytes p)) + Z.of_nat (length (payload_bytes p))).

Definition sent_direct_header (p : DirectPacket) : DirectPacketHeader :=
  mkDirectHeader ANET_DIRECT_PACKET_FLAG ANET_DIRECT_PACKET_VER 0
                 (Z.of_nat (length (body_bytes p))) (Z.of_nat (length (payload_bytes p))) (toReceive p).

(** The 44 bytes of the headers. *)
Definition info_bytes (p : DirectPacket) : list Z :=
  header_bytes (sent_header p) ++ direct_header_bytes (_msgSize (sent_direct_header p)) (_payloadSize (sent_direct_header p)) (toReceive p).

Definition direct_frame (p : DirectPacket) : list Z := info_bytes p ++ body_bytes p ++ payload_bytes p.

(** A packet that fits: a body of up to 4 MiB and a payload of up to 512 MiB. *)
Record direct_ok (p : DirectPacket) : Prop := {
  dok_default : dp_sendable (direct_default p);
  dok_chid : 0 <= _chid (_packetHeader (base_of p)) < 2 ^ 32;
  dok_body : Z.of_nat (length (body_bytes p)) <= 2 ^ 22;
  dok_payload : payload_len (_payload p) = Z.of_nat (length (payload_bytes p));
  dok_size : Z.of_nat (length (payload_bytes p)) <= 2 ^ 29;
  dok_bytes : Forall is_byte (payload_bytes p)
}.

Lemma direct_header_bytes_length m n r : length (direct_header_bytes m n r) = 28%nat.
Proof. unfold direct_header_bytes. by rewrite !length_app, !be_bytes_length. Qed.

Lemma info_bytes_length p : length (info_bytes p) = 44%nat.
Proof. unfold info_bytes. by rewrite length_app, header_bytes_length, direct_header_bytes_length. Qed.

Lemma body_is_bytes p : direct_ok p -> Forall is_byte (body_bytes p).
Proof. intros [[[l Hb] _] _ _ _ _ _]. unfold body_bytes, dp_wire. rewrite (body_rep_getBody _ l Hb). by destruct Hb. Qed.

Lemma direct_frame_bytes p : direct_ok p -> Forall is_byte (direct_frame p).
Proof.
  intros Hp. unfold direct_frame, info_bytes, direct_header_bytes. rewrite !Forall_app. split_and!; try apply be_bytes_is_byte;
    [apply header_bytes_is_byte|by apply body_is_bytes|by destruct Hp].
Qed.

(** ** Encoding *)

Lemma rep_writeInt64 b d n :
  rep b d -> Z.of_nat (length d + 8) <= FRAME_MAX -> exists b', writeInt64 b n = Some b' /\ rep b' (d ++ be_bytes 8 n).
Proof. apply (write_int_be_bytes 8). Qed.

Ltac write_step lemma b d n R :=
  let b' := fresh "b" in let E := fresh "E" in let R' := fresh "R" in
  destruct (lemma b d n R) as (b' & E & R'); [unfold FRAME_MAX in *; wire_len|]; rewrite E; clear E; cbn [mbind option_bind].

Ltac write_int :=
  match goal with
  | R : rep ?b ?d |- context [writeInt32 ?b ?n] => write_step rep_writeInt32 b d n R
  | R : rep ?b ?d |- context [writeInt64 ?b ?n] => write_step rep_writeInt64 b d n R
  end.

(** A field is patched: [d1], the field, and what follows. *)
Lemma patch_int b d1 d2 d3 d off n :
  rep b d -> d = d1 ++ d2 ++ d3 -> length d2 = 4%nat -> off = Z.of_nat (length d1) ->
  exists b', fillInt32 b off n = Some b' /\ rep b' (d1 ++ be_bytes 4 n ++ d3).
Proof. intros R -> Hl ->. by apply (rep_fillInt32 b d1 d2 d3 n). Qed.

(** Only the first [n] bytes of the source are read. *)
Lemma writeBytes_take b src n :
  0 <= n <= Z.of_nat (length src) -> writeBytes b src n = writeBytes b (take (Z.to_nat n) src) n.
Proof.
  intros Hn. unfold writeBytes. destruct (expand b n); [|done]. cbn [mbind option_bind].
  assert (E : mem_read (Some <$> src) 0 n = mem_read (Some <$> take (Z.to_nat n) src) 0 n); [|by rewrite E].
  rewrite <- (take_drop (Z.to_nat n) src) at 1. assert (Hl : n = Z.of_nat (length (take (Z.to_nat n) src))) by (rewrite length_take; lia).
  rewrite Hl at 3 5. rewrite mem_read_prefix. symmetry. rewrite <- (app_nil_r (take (Z.to_nat n) src)) at 1. apply mem_read_prefix.
Qed.

Section Encode.

Context (alloc_ok : Z -> bool).
#[local] Existing Instance DirectPacket_IPacket.
#[local] Hint Extern 0 (IPacket DirectPacket) => exact (DirectPacket_IPacket alloc_ok) : typeclass_instances.

(** What [encode] leaves to be written from the payload itself. *)
Definition inline_payload (p : DirectPacket) : list Z :=
  if payload_len (_payload p) <? DIRECT_WRITE_PAYLOAD_THRESHOLD then payload_bytes p else [].

Definition set_channel_placeholder (p : DirectPacket) (h : cheap) : option cheap :=
  match _channel (base_of p) with
  | Some ch => if _hasPlaceholder p then upd h ch (setPlaceholder (_placeholder p)) else Some h
  | None => Some h
  end.

Lemma inline_ok p b d w :
  direct_ok p -> rep b d -> Z.of_nat (length d) + DIRECT_WRITE_PAYLOAD_THRESHOLD <= FRAME_MAX ->
  exists b', (if 0 <? payload_len (_payload p)
    then if payload_len (_payload p) <? DIRECT_WRITE_PAYLOAD_THRESHOLD
         then src ← payload_addr (_payload p); output ← writeBytes b src (payload_len (_payload p)); Some (output, w)
         else Some (b, _payload p)
    else Some (b, w)) = Some (b', if payload_len (_payload p) <? DIRECT_WRITE_PAYLOAD_THRESHOLD then w else _payload p) /\
    rep b' (d ++ inline_payload p).
Proof.
  intros [_ _ _ Hpay _ Hbytes] R Hl. unfold inline_payload, payload_bytes, DIRECT_WRITE_PAYLOAD_THRESHOLD in *.
  destruct (payload_addr (_payload p)) as [l|].
  - set (n := payload_len (_payload p)) in *. rewrite length_take in Hpay. destruct (Z.ltb_spec 0 n).
    + destruct (Z.ltb_spec n (8 * 1024)); [|exists b; by rewrite app_nil_r]. cbn [mbind option_bind]. rewrite writeBytes_take by lia.
      destruct (rep_writeBytes b d (take (Z.to_nat n) l) R Hbytes) as (b' & E & R'); [rewrite length_take; lia|].
      assert (En : Z.of_nat (length (take (Z.to_nat n) l)) = n) by (rewrite length_take; lia). rewrite En in E. rewrite E. by exists b'.
    + rewrite (proj2 (Z.ltb_lt n (8 * 1024))) by lia. exists b. split; [done|]. replace (Z.to_nat n) with 0%nat by lia. by rewrite app_nil_r.
  - rewrite Hpay. exists b. by rewrite app_nil_r.
Qed.

Lemma direct_encode_ok p b d w h h' :
  direct_ok p -> rep b d -> Z.of_nat (length d + 44 + length (body_bytes p)) + DIRECT_WRITE_PAYLOAD_THRESHOLD <= FRAME_MAX ->
  set_channel_placeholder p h = Some h' ->
  exists p' b', direct_encode alloc_ok true p b w h =
      Some (true, p', b', (if payload_len (_payload p) <? DIRECT_WRITE_PAYLOAD_THRESHOLD then w else _payload p), h') /\
    rep b' (d ++ info_bytes p ++ body_bytes p ++ inline_payload p) /\
    p' = with_default (mkDefaultPacket (Packet_with_header (sent_header p) (base_of p)) (_body (direct_default p)) (_bodyLength (direct_default p)) (_capacity (direct_default p))) p.
Proof.
  intros Hok R Hl Hch. pose proof Hok as [Hs Hchid Hbody Hpay Hsize Hbytes]. unfold DIRECT_WRITE_PAYLOAD_THRESHOLD, FRAME_MAX in Hl.
  unfold direct_encode. rewrite (rep_getDataLen _ _ R). cbn [base DirectPacket_IPacket]. fold (base_of p). cbv zeta.
  do 2 write_int. rewrite (rep_getDataLen _ _ R1). write_int. rewrite (rep_getDataLen _ _ R2). do 4 write_int. rewrite (rep_getDataLen _ _ R6).
  write_int. rewrite Hpay, i32_small by (unfold INT_MIN, INT_MAX; lia). do 2 write_int. fold (toReceive p) in *.
  destruct (dp_encode_ok (direct_default p) b9 _ Hs R9) as (b10 & E10 & R10); [fold (body_bytes p); unfold FRAME_MAX; wire_len|].
  cbn [encode DirectPacket_IPacket]. rewrite E10. clear E10 R0 R1 R2 R3 R4 R5 R6 R7 R8 R9. cbn [mbind option_bind negb]. fold (body_bytes p) in R10. rewrite (rep_getDataLen _ _ R10).
  set (n := Z.of_nat (length (payload_bytes p))) in *. set (m := Z.of_nat (length (body_bytes p))) in *.
  rewrite !length_app, !be_bytes_length. unfold ANET_DIRECT_PACKET_INFO_LEN, PACKET_INFO_LEN.
  match goal with |- context [i32 (44 + i32 ?x + n - 16)] => assert (i32 x = m) as -> by (rewrite i32_small; unfold m, INT_MIN, INT_MAX; lia) end.
  rewrite (i32_small (44 + m + n - 16)) by (unfold m, INT_MIN, INT_MAX; lia).
  rewrite assertb_true by (apply Z.leb_le; lia). cbn [mbind option_bind]. rewrite (proj2 (Z.leb_le 0 _)) by lia.
  cbn [upd_base base DirectPacket_IPacket with_default direct_default DefaultPacket_IPacket dp_base Packet_setDataLen Packet_with_header _packetHeader _dataLen _pcode _chid
    _channel _hasPlaceholder _placeholder _packetDequeueCB Packet._expireTime Packet._timeoutMs Packet._channel]. fold (base_of p).
  rewrite <- !app_assoc in R10. set (chid := _chid (_packetHeader (base_of p))) in *. set (pcode := _pcode (_packetHeader (base_of p))) in *.
  destruct (patch_int b10 (d ++ be_bytes 4 ANET_PACKET_FLAG ++ be_bytes 4 chid ++ be_bytes 4 pcode) (be_bytes 4 0)
      (be_bytes 4 ANET_DIRECT_PACKET_FLAG ++ be_bytes 4 ANET_DIRECT_PACKET_VER ++ be_bytes 8 0 ++ be_bytes 4 0 ++ be_bytes 4 n ++ be_bytes 4 (toReceive p) ++ body_bytes p) _
      (Z.of_nat (length d + 4 + 4 + 4)) (44 + m + n - 16) R10)
    as (b11 & -> & R11); [by rewrite <- !app_assoc|apply be_bytes_length|rewrite !length_app, !be_bytes_length; lia|]. cbn [mbind option_bind].
  rewrite <- !app_assoc in R11.
  destruct (patch_int b11 (d ++ be_bytes 4 ANET_PACKET_FLAG ++ be_bytes 4 chid) (be_bytes 4 pcode)
      (be_bytes 4 (44 + m + n - 16) ++ be_bytes 4 ANET_DIRECT_PACKET_FLAG ++ be_bytes 4 ANET_DIRECT_PACKET_VER ++ be_bytes 8 0 ++ be_bytes 4 0 ++ be_bytes 4 n ++ be_bytes 4 (toReceive p) ++ body_bytes p) _
      (Z.of_nat (length d + 4 + 4)) pcode R11)
    as (b12 & -> & R12); [by rewrite <- !app_assoc|apply be_bytes_length|rewrite !length_app, !be_bytes_length; lia|]. cbn [mbind option_bind].
  rewrite <- !app_assoc in R12.
  destruct (patch_int b12 (d ++ be_bytes 4 ANET_PACKET_FLAG ++ be_bytes 4 chid ++ be_bytes 4 pcode ++ be_bytes 4 (44 + m + n - 16) ++
      be_bytes 4 ANET_DIRECT_PACKET_FLAG ++ be_bytes 4 ANET_DIRECT_PACKET_VER ++ be_bytes 8 0) (be_bytes 4 0)
      (be_bytes 4 n ++ be_bytes 4 (toReceive p) ++ body_bytes p) _
      (Z.of_nat (length d + 4 + 4 + 4 + 4 + 4 + 4 + 8)) m R12)
    as (b13 & -> & R13); [by rewrite <- !app_assoc|apply be_bytes_length|rewrite !length_app, !be_bytes_length; lia|]. cbn [mbind option_bind].
  clear R10 R11 R12. rewrite <- !app_assoc in R13.
  assert (Hinfo : d ++ info_bytes p ++ body_bytes p ++ inline_payload p =
    (d ++ be_bytes 4 ANET_PACKET_FLAG ++ be_bytes 4 chid ++ be_bytes 4 pcode ++ be_bytes 4 (44 + m + n - 16) ++
      be_bytes 4 ANET_DIRECT_PACKET_FLAG ++ be_bytes 4 ANET_DIRECT_PACKET_VER ++ be_bytes 8 0 ++ be_bytes 4 m ++ be_bytes 4 n ++ be_bytes 4 (toReceive p) ++
      body_bytes p) ++ inline_payload p).
  { unfold info_bytes, header_bytes, direct_header_bytes, sent_header, sent_direct_header. cbn [_chid _pcode _dataLen _msgSize _payloadSize]. fold n m chid pcode.
    replace (44 + m + n - 16) with (28 + m + n) by lia. by rewrite <- !app_assoc. }
  rewrite Hinfo. clear Hinfo. fold (set_channel_placeholder p h).
  match type of R13 with rep _ ?D => destruct (inline_ok p b13 D w Hok R13) as (b14 & E & R14) end.
  { unfold DIRECT_WRITE_PAYLOAD_THRESHOLD, FRAME_MAX. rewrite !length_app, !be_bytes_length. lia. }
  rewrite Hpay in E. rewrite E, Hch. cbn [mbind option_bind]. do 2 eexists. split; [reflexivity|]. split; [exact R14|].
  assert (Eb : Packet_setDataLen (44 + m + n - 16) (base_of p) = Packet_with_header (sent_header p) (base_of p)).
  { unfold Packet_setDataLen, sent_header. fold n m. by replace (28 + m + n) with (44 + m + n - 16) by lia. }
  by rewrite Eb.
Qed.

End Encode.

(** ** Memory *)

Lemma poke_defined src : forall m a, (forall i, 0 <= i < Z.of_nat (length src) -> is_Some (m !! (a + i))) ->
  exists m', poke m a src = Some m' /\ dom m' = dom m /\
    (forall j, j < a \/ a + Z.of_nat (length src) <= j -> m' !! j = m !! j) /\
    (forall i, (i < length src)%nat -> m' !! (a + Z.of_nat i) = src !! i).
Proof.
  induction src as [|v src IH]; intros m a Hm; cbn [poke length] in *.
  - exists m. split_and!; [done..|]. lia.
  - destruct (Hm 0 ltac:(lia)) as [x Hx]. rewrite Z.add_0_r in Hx. rewrite Hx. cbn [mbind option_bind].
    destruct (IH (<[a := v]> m) (a + 1)) as (m' & -> & Hd & Ho & Hi).
    { intros i Hi. rewrite lookup_insert_ne by lia. replace (a + 1 + i) with (a + (i + 1)) by lia. apply Hm. lia. }
    exists m'. split; [done|]. split; [rewrite Hd; apply dom_insert_lookup_L; eauto|]. split.
    + intros j Hj. rewrite Ho by lia. apply lookup_insert_ne. lia.
    + intros [|i] Hl; cbn [lookup].
      * rewrite Z.add_0_r, Ho by lia. by rewrite lookup_insert_eq.
      * replace (a + Z.of_nat (S i)) with (a + 1 + Z.of_nat i) by lia. apply Hi. lia.
Qed.

(** Nothing outside the range is written, nothing outside the memory. *)
Lemma poke_frame src : forall m a m', poke m a src = Some m' ->
  dom m' = dom m /\ forall j, j < a \/ a + Z.of_nat (length src) <= j -> m' !! j = m !! j.
Proof.
  induction src as [|v src IH]; intros m a m' E; cbn [poke length] in *; [injection E as <-; split; [done|auto]|].
  apply bind_Some_inv in E as (x & Hx & E). apply IH in E as [Hd Ho]. split; [rewrite Hd; apply dom_insert_lookup_L; eauto|].
  intros j Hj. rewrite Ho by lia. apply lookup_insert_ne. lia.
Qed.

(** [m] holds the bytes [l] from [a] on. *)
Definition holds (m : memory) (a : Z) (l : list Z) : Prop := forall i, (i < length l)%nat -> m !! (a + Z.of_nat i) = l !! i.

Lemma holds_app m a l1 l2 : holds m a l1 -> holds m (a + Z.of_nat (length l1)) l2 -> holds m a (l1 ++ l2).
Proof.
  intros H1 H2 i Hi. rewrite length_app in Hi. destruct (decide (i < length l1)%nat).
  - rewrite lookup_app_l by done. by apply H1.
  - rewrite lookup_app_r by lia. rewrite <- H2 by lia. f_equal. lia.
Qed.

Lemma holds_peek m a l : holds m a l -> peek m a (length l) = Some l.
Proof.
  unfold peek. revert a. induction l as [|v l IH]; intros a H; [done|]. cbn [length seq mapM]. rewrite (H 0%nat) by (cbn; lia). cbn [lookup mbind option_bind list_lookup].
  assert (E : mapM (fun i => m !! (a + Z.of_nat i)) (seq 1 (length l)) = Some l).
  { rewrite <- fmap_S_seq. rewrite <- (IH (a + 1)).
    - generalize (seq 0 (length l)) as L. induction L as [|i L IHL]; [done|]. cbn [fmap list_fmap mapM]. rewrite IHL. by replace (a + 1 + Z.of_nat i) with (a + Z.of_nat (S i)) by lia.
    - intros i Hi. replace (a + 1 + Z.of_nat i) with (a + Z.of_nat (S i)) by lia. apply (H (S i)). cbn. lia. }
  by rewrite E.
Qed.

(** ** Reading the headers *)

Lemma rep_readInt64 b n d : rep b (be_bytes 8 n ++ d) -> exists b', readInt64 b = Some (i64 n, b') /\ rep b' d.
Proof.
  intros Hr. destruct (rep_read_be 8 b (be_bytes 8 n) d Hr) as (b' & E & ?); [apply be_bytes_length|lia|].
  exists b'. split; [|done]. unfold readInt64. rewrite E, be_value_be_bytes. by rewrite wraps_wrapu by lia.
Qed.

Lemma toReceive_range p : INT_MIN <= toReceive p <= INT_MAX.
Proof. unfold toReceive. destruct (_hasPlaceholder p); [|vm_compute; split; discriminate]. pose proof (wraps_range 32 (_placeholder p).2 ltac:(lia)). unfold INT_MIN, INT_MAX. lia. Qed.

Lemma direct_header_ok p : direct_ok p -> header_ok (sent_header p) /\ 0 <= _dataLen (sent_header p) <= max_package_size.
Proof.
  intros [[_ Hpc] Hc Hb _ Hs _]. unfold header_ok, sent_header, max_package_size, base_of in *. cbn [_chid _pcode _dataLen]. lia.
Qed.

Lemma getDirectPacketInfo_ok p b rest :
  direct_ok p -> rep b (info_bytes p ++ rest) ->
  exists b', getDirectPacketInfo true b = Some (true, Some (sent_header p, sent_direct_header p), false, b') /\ rep b' rest.
Proof.
  intros Hp R. unfold getDirectPacketInfo. rewrite (rep_getDataLen _ _ R), length_app, info_bytes_length.
  rewrite (proj2 (Z.ltb_ge _ _)) by (unfold ANET_DIRECT_PACKET_INFO_LEN; lia).
  destruct (direct_header_ok p Hp) as [Hh Hd]. unfold info_bytes in R. rewrite <- app_assoc in R.
  destruct (getPacketInfo_ok b _ _ Hh Hd R) as (b1 & -> & R1). cbn [mbind option_bind negb].
  unfold direct_header_bytes in R1. rewrite <- !app_assoc in R1. destruct Hp as [_ _ Hb _ Hs _].
  do 2 (apply rep_readInt32 in R1 as (?b & -> & R1); cbn [mbind option_bind]).
  apply rep_readInt64 in R1 as (?b & -> & R1); cbn [mbind option_bind].
  do 3 (apply rep_readInt32 in R1 as (?b & -> & R1); cbn [mbind option_bind]).
  change (u32 (i32 ANET_DIRECT_PACKET_FLAG)) with ANET_DIRECT_PACKET_FLAG. change (u32 (i32 ANET_DIRECT_PACKET_VER)) with ANET_DIRECT_PACKET_VER.
  change (u64 (i64 0)) with 0. rewrite !Z.eqb_refl. cbn [negb orb mbind option_bind]. pose proof (toReceive_range p).
  rewrite (i32_small (toReceive p)) by done. unfold sent_direct_header. cbn [_msgSize _payloadSize]. rewrite !i32_small by (unfold INT_MIN, INT_MAX; lia). eauto.
Qed.

Lemma getDirectPacketInfo_short b d : rep b d -> (length d < 44)%nat -> getDirectPacketInfo true b = Some (false, None, false, b).
Proof. intros R Hl. unfold getDirectPacketInfo. rewrite (rep_getDataLen _ _ R). by rewrite (proj2 (Z.ltb_lt _ _)) by (unfold ANET_DIRECT_PACKET_INFO_LEN; lia). Qed.

(** ** Decoding *)

Section Decode.

Context (alloc_ok : Z -> bool).
Context (alloc_limit : forall n, alloc_ok n = true -> n < 2 ^ 62).
Context (alloc_frame : forall n, 0 <= n <= 2 * FRAME_MAX -> alloc_ok n = true).

(** The packet [processData] makes when it has read the headers. *)
Definition fresh_packet (h : PacketHeader) (dh : DirectPacketHeader) : DirectPacket :=
  setDirectHeader dh (@upd_base _ (DirectPacket_IPacket alloc_ok) (setPacketHeader h) (createDirectPacket (_pcode h))).

(** [q] is [p] as it was received, but for the payload. *)
Definition received (p q : DirectPacket) : Prop :=
  getBody (direct_default q) = Some (body_bytes p) /\ _packetHeader (base_of q) = sent_header p /\ _directHeader q = sent_direct_header p.

Lemma setBody_prefix p s t : setBody alloc_ok p (Some (s ++ t)) (Z.of_nat (length s)) = setBody alloc_ok p (Some s) (Z.of_nat (length s)).
Proof. unfold setBody. case_bool; [done|]. by rewrite appendBody_prefix. Qed.

Lemma direct_decode_ok p b rest :
  direct_ok p -> rep b (body_bytes p ++ rest) ->
  exists q b', DirectPacket_decode alloc_ok (fresh_packet (sent_header p) (sent_direct_header p)) b (sent_direct_header p) = Some (true, q, b') /\
    rep b' rest /\ received p q.
Proof using alloc_limit alloc_frame.
  intros Hp R. pose proof (body_is_bytes p Hp) as Hby. destruct Hp as [_ _ Hb _ _ _]. unfold DirectPacket_decode. rewrite (rep_getDataLen _ _ R), length_app.
  unfold sent_direct_header at 1. cbn [_msgSize]. rewrite (proj2 (Z.ltb_ge _ _)) by lia. rewrite (rep_getData _ _ R). cbn [mbind option_bind].
  cbn [_msgSize sent_direct_header]. rewrite wrapu_small by lia. rewrite setBody_prefix. set (d0 := direct_default _).
  assert (H0 : body_rep d0 []) by (split; cbn; [done|lia|constructor|done]).
  destruct (setBody_ok alloc_ok alloc_limit d0 [] (body_bytes p) H0 Hby) as (ok & d & -> & Hd & Hr & Hf); [lia|]. cbn [mbind option_bind].
  destruct ok; [|destruct (Hf eq_refl) as [_ (m & Hm & Hn)]; rewrite alloc_frame in Hn; [done|unfold FRAME_MAX in *; cbn in Hm; lia]].
  do 2 eexists. split; [done|]. split.
  - apply (rep_drainData _ _ (Z.of_nat (length (body_bytes p)))) in R; [|lia]. by rewrite Nat2Z.id, drop_app_length in R.
  - split_and!; [by apply body_rep_getBody|unfold base_of; cbn; by rewrite Hd|done].
Qed.

End Decode.

(** ** The socket of a peer that stays *)

Fixpoint pieces (l : list answer) : nat :=
  match l with [] => 0%nat | Ready _ :: l => S (pieces l) | _ :: l => pieces l end.

(** Bytes arrive in any pieces, with any reads in between that would block,
    and there are replies for all of them. *)
Definition enough (s : stream) : Prop :=
  Forall (fun a => (exists k, a = Ready k) \/ a = Failed EAGAIN) (replies s) /\ (length (incoming s) <= pieces (replies s))%nat.

Definition got (ret : Z) (bytes : list Z) (s' : stream) : Prop :=
  (ret = Z.of_nat (length bytes) /\ bytes <> []) \/ (ret = -1 /\ bytes = [] /\ so_error s' = EAGAIN).

Lemma socket_read_step s len : enough s -> 0 < len ->
  exists ret bytes s', socket_read len s = (ret, bytes, s') /\ got ret bytes s' /\ Z.of_nat (length bytes) <= len /\
    incoming s = bytes ++ incoming s' /\ enough s' /\ length (replies s') = Nat.pred (length (replies s)).
Proof.
  intros [Hr Hl] Hlen. unfold socket_read, got. destruct (replies s) as [|a rest].
  { do 3 eexists. split; [done|]. cbn in *. split_and!; [by right|lia|done| |done]. split; [done|cbn; lia]. }
  apply Forall_cons in Hr as [[[k ->]| ->] Hr].
  - destruct (decide (incoming s = [])) as [Hi|Hi].
    + do 3 eexists. split; [done|]. rewrite Hi. split_and!; [by right|cbn; lia|done| |done]. split; [done|cbn; lia].
    + assert (0 < length (incoming s))%nat by (destruct (incoming s); [done|cbn; lia]).
      do 3 eexists. split; [done|]. rewrite length_take. split_and!; [left; split; [done|]|lia|cbn [incoming]; by rewrite take_drop| |done].
      * intros Hn. apply (f_equal length) in Hn. rewrite length_take in Hn. change (length []) with 0%nat in Hn. lia.
      * split; [done|]. cbn [incoming replies pieces] in *. rewrite length_drop. lia.
  - do 3 eexists. split; [done|]. split_and!; [by right|cbn; lia|done| |done]. by split.
Qed.

(** ** What the receiver of the packets promises

    [S] is the state of the connection.  It is [ready] for packets to come
    when their payloads have places and [handlePacket] will take them; what
    it took is in the [log], with the memory as the handler saw it. *)

Definition chid_of (p : DirectPacket) : Z := _chid (_packetHeader (base_of p)).

Class Receiver {S : Type} (getPlaceholderFromChannel : S -> Z -> DirectPlaceholder) (count : Z -> S -> S)
  (deliver : memory -> S -> DirectPacket -> option S) := {
  target : Z -> positive;
  ready : S -> list DirectPacket -> Prop;
  log : S -> list (memory * DirectPacket);
  ready_place : forall s p ps, ready s (p :: ps) -> payload_bytes p <> [] ->
    exists len, getPlaceholderFromChannel s (chid_of p) = (Some (target (chid_of p)), len) /\ Z.of_nat (length (payload_bytes p)) <= i32 len;
  ready_count : forall n s ps, ready s ps -> ready (count n s) ps;
  log_count : forall n s, log (count n s) = log s;
  ready_deliver : forall m s p ps q, ready s (p :: ps) -> received p q ->
    exists s', deliver m s q = Some s' /\ log s' = log s ++ [(m, q)] /\ ready s' ps
}.

(** ** A payload arrives *)

Section Receiving.

Context (alloc_ok : Z -> bool).
Context (alloc_limit : forall n, alloc_ok n = true -> n < 2 ^ 62).
Context (alloc_frame : forall n, 0 <= n <= 2 * FRAME_MAX -> alloc_ok n = true).
Context {S : Type} {getPlaceholderFromChannel : S -> Z -> DirectPlaceholder} {count : Z -> S -> S} {deliver : memory -> S -> DirectPacket -> option S}.
Context {receiver : Receiver getPlaceholderFromChannel count deliver}.

(** Where the payload of a packet goes. *)
Definition place (p : DirectPacket) : Z := Z.pos (target (chid_of p)).

Definition room (m : memory) (p : DirectPacket) : Prop := forall i, 0 <= i < Z.of_nat (length (payload_bytes p)) -> is_Some (m !! (place p + i)).

Implicit Types (st : reading S) (p q : DirectPacket).

Definition completed_context q : StreamingContext DirectPacket := mkContext (Some (inl q)) true false false 0 None.

Lemma received_placeholder p q ph : received p q -> received p (packet_setPlaceholder ph q).
Proof. done. Qed.

Lemma room_dom m m' p : dom m' = dom m -> room m p -> room m' p.
Proof. intros Hd Hr i Hi. apply elem_of_dom. rewrite Hd. apply elem_of_dom. by apply Hr. Qed.

(** The bytes at their place extend what is there already. *)
Lemma poke_payload m p n src rest :
  room m p -> drop n (payload_bytes p) = src ++ rest -> holds m (place p) (take n (payload_bytes p)) -> (n <= length (payload_bytes p))%nat ->
  exists m', poke m (place p + Z.of_nat n) src = Some m' /\ dom m' = dom m /\ holds m' (place p) (take (n + length src) (payload_bytes p)).
Proof.
  intros Hr E Hh Hn. pose proof (f_equal length E) as El. rewrite length_drop, length_app in El.
  destruct (poke_defined src m (place p + Z.of_nat n)) as (m' & Ep & Hd & Ho & Hi).
  { intros i Hi. rewrite <- Z.add_assoc. apply Hr. lia. }
  exists m'. split_and!; [done|done|].
  assert (Et : take (n + length src) (payload_bytes p) = take n (payload_bytes p) ++ src).
  { rewrite <- (take_drop n (payload_bytes p)) at 1. rewrite E.
    assert (Hl : length (take n (payload_bytes p)) = n) by (rewrite length_take; lia). rewrite <- Hl at 1. by rewrite take_app_add, take_app_length. }
  rewrite Et. apply holds_app.
  - intros i Hl. rewrite <- Hh by done. rewrite length_take in Hl. apply Ho. lia.
  - intros i Hl. rewrite length_take, Nat.min_l by lia. by apply Hi.
Qed.

(** What the reading state keeps while a payload of [p] arrives: [n] bytes of
    it are at their place, and the buffer has [y]. *)
Record arriving p pc (n : nat) (y : list Z) st : Prop := {
  ar_ctx : exists q, r_context st = mkDirectContext (completed_context q) pc (Z.of_nat n) /\ received p q;
  ar_len : (n <= length (payload_bytes p))%nat;
  ar_held : holds (r_memory st) (place p) (take n (payload_bytes p));
  ar_room : room (r_memory st) p;
  ar_input : rep (r_input st) y;
  ar_enough : enough (r_socket st)
}.

Lemma from_buffer_ok p pc n y tail st :
  direct_ok p -> arriving p pc n y st -> (n < length (payload_bytes p))%nat -> y ++ incoming (r_socket st) = drop n (payload_bytes p) ++ tail ->
  exists k st', payload_from_buffer (place p) (Z.of_nat (length (payload_bytes p) - n)) st = Some (Z.of_nat (length (payload_bytes p) - (n + k)), st') /\
    arriving p pc (n + k) (drop k y) st' /\ k = Nat.min (length y) (length (payload_bytes p) - n) /\
    r_socket st' = r_socket st /\ r_state st' = r_state st /\ dom (r_memory st') = dom (r_memory st) /\ r_ret st' = r_ret st.
Proof.
  intros Hok [(q & Hctx & Hq) Hlen Hheld Hroom Hin Hen] Hn E. set (L := length (payload_bytes p)) in *. exists (Nat.min (length y) (L - n)).
  pose proof (dok_size p Hok) as Hsize. fold L in Hsize. unfold payload_from_buffer. rewrite (rep_getDataLen _ _ Hin).
  set (k := Nat.min (length y) (L - n)).
  assert (Hk : (if Z.of_nat (L - n) <=? Z.of_nat (length y) then Z.of_nat (L - n) else Z.of_nat (length y)) = Z.of_nat k) by (unfold k; case_bool; lia).
  rewrite Hk. destruct (Z.ltb_spec 0 (Z.of_nat k)).
  - assert (Hky : (k <= length y)%nat) by lia. rewrite (rep_peekBytes _ _ _ Hin) by lia. cbn [mbind option_bind]. rewrite Nat2Z.id, Hctx. cbn [_payloadReadOffset].
    assert (Ey : exists rest, drop n (payload_bytes p) = take k y ++ rest).
    { exists (drop k (drop n (payload_bytes p))). rewrite <- (take_drop k (drop n (payload_bytes p))) at 1. f_equal.
      apply (f_equal (take k)) in E. rewrite !take_app_le in E by (rewrite ?length_drop; fold L; lia). done. }
    destruct Ey as [rest Ey]. destruct (poke_payload _ p n (take k y) rest Hroom Ey Hheld Hlen) as (m' & -> & Hd & Hh). cbn [mbind option_bind].
    rewrite length_take, Nat.min_l in Hh by lia. rewrite wrapu_small by lia.
    eexists. split; [f_equal; f_equal; unfold L; lia|]. split; [|done]. split; cbn.
    + exists q. split; [|done]. unfold setPayloadReadOffset. cbn. f_equal. lia.
    + fold L. lia.
    + done.
    + by eapply room_dom.
    + apply (rep_drainData _ _ (Z.of_nat k)) in Hin; [|lia]. by rewrite Nat2Z.id in Hin.
    + done.
  - assert (k = 0%nat) as -> by lia. rewrite Nat.add_0_r. exists st. split; [done|]. split; [|done]. split; try done; eauto.
Qed.

Lemma from_socket_ok p pc n tail st :
  direct_ok p -> arriving p pc n [] st -> (n < length (payload_bytes p))%nat -> incoming (r_socket st) = drop n (payload_bytes p) ++ tail ->
  exists ok k st', payload_from_socket (place p) (Z.of_nat (length (payload_bytes p) - n)) st = Some (ok, st') /\
    arriving p pc (n + k) [] st' /\ ok = ((n + k =? length (payload_bytes p))%nat) /\
    incoming (r_socket st') = drop (n + k) (payload_bytes p) ++ tail /\ r_state st' = r_state st /\ dom (r_memory st') = dom (r_memory st) /\
    length (replies (r_socket st')) = Nat.pred (length (replies (r_socket st))) /\
    (0 < r_ret st' \/ r_ret st' = -1 /\ k = 0%nat /\ so_error (r_socket st') = EAGAIN).
Proof.
  intros Hok [(q & Hctx & Hq) Hlen Hheld Hroom Hin Hen] Hn E. set (L := length (payload_bytes p)) in *.
  pose proof (dok_size p Hok) as Hsize. fold L in Hsize. unfold payload_from_socket.
  destruct (socket_read_step (r_socket st) (Z.of_nat (L - n)) Hen ltac:(lia)) as (ret & bytes & s' & -> & Hgot & Hbl & Ei & Hen' & Ha).
  rewrite Ei in E. assert (Ed : exists rest, drop n (payload_bytes p) = bytes ++ rest /\ incoming s' = rest ++ tail).
  { apply app_eq_inv in E as [(k & E1 & E2)|(k & E1 & E2)]; [|eauto].
    apply (f_equal length) in E1 as El. rewrite length_app, length_drop in El. fold L in El. assert (k = []) as -> by (destruct k; [done|cbn in El; lia]).
    rewrite app_nil_r in E1. exists []. rewrite app_nil_r. by split. }
  destruct Ed as (rest & Ed & Es). pose proof (f_equal length Ed) as El. rewrite length_drop, length_app in El. fold L in El.
  rewrite Hctx. cbn [_payloadReadOffset]. destruct (poke_payload _ p n bytes rest Hroom Ed Hheld Hlen) as (m' & -> & Hd & Hh). cbn [mbind option_bind].
  assert (Hrest : rest ++ tail = drop (n + length bytes) (payload_bytes p) ++ tail) by (rewrite <- drop_drop, Ed; by rewrite drop_app_length).
  destruct Hgot as [[-> Hb]|(-> & -> & Hso)].
  - assert (Hlb : (0 < length bytes)%nat) by (destruct bytes; [done|cbn; lia]).
    rewrite (proj2 (Z.ltb_ge _ _)), (proj2 (Z.eqb_neq _ 0)) by lia. rewrite wrapu_small by lia. eexists _, (length bytes), _. split; [done|]. split_and!; [|..|done|done|done|].
    + split; cbn; [|fold L; lia|done|by eapply room_dom|done|done]. exists q. split; [|done]. rewrite Hctx. unfold setPayloadReadOffset. cbn. f_equal. lia.
    + destruct (Nat.eqb_spec (n + length bytes) L); [apply Z.eqb_eq|apply Z.eqb_neq]; lia.
    + cbn. by rewrite Es.
    + left. cbn. lia.
  - cbn [length] in *. rewrite Nat.add_0_r in *. eexists false, 0%nat, _. split; [done|]. rewrite Nat.add_0_r. split_and!; [|..|done|done|done|].
    + split; cbn; [|done|done|by eapply room_dom|done|done]. by exists q.
    + symmetry. apply Nat.eqb_neq. lia.
    + cbn. by rewrite Es.
    + right. by split_and!.
Qed.

(** The result of a try: all is there, and [y] is left in the buffer, or
    some is missing. *)
Definition payload_result p pc (y tail : list Z) st (ok : bool) st' : Prop :=
  r_state st' = r_state st /\ dom (r_memory st') = dom (r_memory st) /\
  (if ok then exists y', arriving p pc (length (payload_bytes p)) y' st' /\ (length y' <= length y)%nat /\ y' ++ incoming (r_socket st') = tail
   else exists n, arriving p pc n [] st' /\ (n < length (payload_bytes p))%nat /\ incoming (r_socket st') = drop n (payload_bytes p) ++ tail) /\
  (length (replies (r_socket st')) <= length (replies (r_socket st)))%nat /\
  (ok = true /\ r_ret st' = r_ret st \/ 0 < r_ret st' \/ ok = false /\ r_ret st' = -1 /\ so_error (r_socket st') = EAGAIN).

Lemma readPayload_ok p ps pc n y tail st :
  direct_ok p -> ready (r_state st) (p :: ps) -> arriving p pc n y st -> (n < length (payload_bytes p))%nat \/ payload_bytes p = [] ->
  y ++ incoming (r_socket st) = drop n (payload_bytes p) ++ tail ->
  exists ok st', readPayload alloc_ok getPlaceholderFromChannel st = Some (ok, st') /\ payload_result p pc y tail st ok st' /\
    (payload_bytes p <> [] -> y = [] -> length (replies (r_socket st')) = Nat.pred (length (replies (r_socket st))) /\
      (0 < r_ret st' \/ ok = false)).
Proof.
  intros Hok Ht Har Hn E. pose proof Har as [(q & Hctx & Hq) Hlen Hheld Hroom Hin Hen]. pose proof (dok_size p Hok) as Hsize.
  unfold readPayload. rewrite Hctx. cbn [getDirectPacket as_direct streaming getPacket _packet completed_context mbind option_bind].
  pose proof Hq as (_ & Hh & Hd). rewrite Hd. cbn [_payloadSize sent_direct_header]. rewrite (proj2 (Z.ltb_ge _ 0)) by lia.
  destruct (Z.eqb_spec (Z.of_nat (length (payload_bytes p))) 0) as [E0|E0].
  { assert (Ep : payload_bytes p = []) by (apply length_zero_iff_nil; lia). exists true, st. split; [done|]. split; [|done].
    split_and!; [done|done| |done|by left]. exists y. rewrite Ep in *. cbn [length] in *. assert (n = 0%nat) as -> by lia. split; [done|]. split; [done|exact E]. }
  destruct Hn as [Hn|Hn]; [|by rewrite Hn in E0]. change (@getChannelId _ (DirectPacket_IPacket alloc_ok) q) with (_chid (_packetHeader (base_of q))).
  rewrite Hh. cbn [_chid sent_header]. fold (chid_of p). destruct (ready_place _ _ _ Ht) as (len & -> & Hfit); [by intros H0; rewrite H0 in E0|]. cbn [fst snd]. rewrite (proj2 (Z.ltb_ge _ _)) by lia.
  set (ph := (Some _, len)). set (st1 := on_context _ st).
  assert (Har1 : arriving p pc n y st1).
  { split; try done. exists (packet_setPlaceholder ph q). split; [|done]. unfold st1, on_context, set_input. cbn [r_context]. by rewrite Hctx. }
  assert (Hleft : i32 (u64 (Z.of_nat (length (payload_bytes p)) - _payloadReadOffset (r_context st1))) = Z.of_nat (length (payload_bytes p) - n)).
  { destruct Har1 as [(q1 & -> & _) _ _ _ _ _]. cbn [_payloadReadOffset]. rewrite wrapu_small, i32_small by (unfold INT_MIN, INT_MAX; lia). lia. }
  rewrite Hleft, assertb_true by (apply Z.ltb_lt; lia). cbn [mbind option_bind].
  destruct (from_buffer_ok p pc n y tail st1 Hok Har1 Hn E) as (k & st2 & E2 & Har2 & Hk & Hs2 & Hst2 & Hd2 & Hr2). unfold place in E2. rewrite E2. cbn [mbind option_bind].
  assert (Hinc : incoming (r_socket st2) = incoming (r_socket st)) by (by rewrite Hs2).
  destruct (Z.eqb_spec (Z.of_nat (length (payload_bytes p) - (n + k))) 0) as [E3|E3].
  - exists true, st2. split; [done|]. assert (Hnk : (n + k = length (payload_bytes p))%nat) by lia. rewrite Hnk in Har2. split.
    + split_and!; [done|done| |by rewrite Hs2|left; by rewrite Hr2]. exists (drop k y). split; [done|]. split; [rewrite length_drop; lia|]. rewrite Hinc. apply (f_equal (drop k)) in E.
      rewrite drop_app_le in E by lia. rewrite E, drop_app_le by (rewrite length_drop; lia). by rewrite drop_drop, Hnk, drop_all.
    + intros _ ->. cbn in Hk. lia.
  - assert (Hy : k = length y) by lia. clear Hk. subst k. rewrite drop_all in Har2.
    assert (E4 : incoming (r_socket st2) = drop (n + length y) (payload_bytes p) ++ tail).
    { rewrite Hinc. apply (f_equal (drop (length y))) in E. rewrite drop_app_length in E. rewrite E, drop_app_le by (rewrite length_drop; lia). by rewrite drop_drop. }
    destruct (from_socket_ok p pc (n + length y) tail st2 Hok Har2 ltac:(lia) E4) as (ok & k' & st3 & E5 & Har3 & Hokv & E6 & Hst3 & Hd3 & Ha & Hret).
    unfold place in E5. rewrite Hs2 in Ha. exists ok, st3. split; [exact E5|]. assert (Hret' : 0 < r_ret st3 \/ ok = false /\ r_ret st3 = -1 /\ so_error (r_socket st3) = EAGAIN).
    { destruct Hret as [?|(? & -> & ?)]; [by left|right]. split_and!; [|done|done]. rewrite Hokv. apply Nat.eqb_neq. lia. }
    split; [|intros _ _; split; [exact Ha|destruct Hret' as [?|[? _]]; [by left|by right]]]. split_and!; [by rewrite Hst3, Hst2|by rewrite Hd3, Hd2| |cbn in Ha; lia|by right]. destruct ok.
    + symmetry in Hokv. apply Nat.eqb_eq in Hokv. rewrite Hokv in *. exists []. split; [done|]. split; [cbn; lia|]. by rewrite E6, drop_all.
    + symmetry in Hokv. apply Nat.eqb_neq in Hokv. pose proof (ar_len _ _ _ _ _ Har3). eexists. split; [exact Har3|]. split; [lia|done].
Qed.

(** ** Packets arrive *)

(** What the user gets for [p]: the packet, and the payload in its place. *)
Definition good p (d : memory * DirectPacket) : Prop := received p d.2 /\ holds d.1 (place p) (payload_bytes p).

Lemma arriving_count p pc n y st k : arriving p pc n y st -> arriving p pc n y (set_state (count k (r_state st)) st).
Proof. intros []; split; done. Qed.

Definition idle st (y : list Z) : Prop := r_context st = DirectStreamingContext_new /\ rep (r_input st) y.

(** The last read was good, or would have blocked. *)
Definition calm st : Prop := (0 < r_ret st \/ r_ret st = -1 /\ r_error st = EAGAIN) /\ isBroken (streaming (r_context st)) = false.

(** One packet from its body on. *)
Lemma finish_packet_ok p ps pc n y tail st :
  direct_ok p -> ready (r_state st) (p :: ps) -> arriving p pc n y st -> (n < length (payload_bytes p))%nat \/ payload_bytes p = [] ->
  y ++ incoming (r_socket st) = drop n (payload_bytes p) ++ tail -> 0 < r_ret st \/ payload_bytes p <> [] /\ y = [] ->
  exists again st', finish_packet alloc_ok getPlaceholderFromChannel count deliver st = Some (again, st') /\
    dom (r_memory st') = dom (r_memory st) /\ enough (r_socket st') /\ (length (replies (r_socket st')) <= length (replies (r_socket st)))%nat /\
    (payload_bytes p <> [] -> y = [] -> length (replies (r_socket st')) = Nat.pred (length (replies (r_socket st)))) /\
    calm st' /\
    if again then 0 < r_ret st' /\ exists d y', good p d /\ log (r_state st') = log (r_state st) ++ [d] /\ idle st' y' /\ ready (r_state st') ps /\ (length y' <= length y)%nat /\ y' ++ incoming (r_socket st') = tail
    else exists n', arriving p false n' [] st' /\ (n' < length (payload_bytes p))%nat /\ log (r_state st') = log (r_state st) /\ ready (r_state st') (p :: ps) /\
           incoming (r_socket st') = drop n' (payload_bytes p) ++ tail.
Proof.
  intros Hok Ht Har Hn E Hpos. destruct (readPayload_ok p ps pc n y tail st Hok Ht Har Hn E) as (ok & st1 & E1 & (Hs & Hd & Hres & Hle & Hret) & Hlt).
  unfold finish_packet. rewrite E1. cbn [mbind option_bind].
  set (st2 := if 0 <? r_ret st1 then _ else _).
  assert (H2 : r_context st2 = r_context st1 /\ r_input st2 = r_input st1 /\ r_memory st2 = r_memory st1 /\ r_socket st2 = r_socket st1 /\
    log (r_state st2) = log (r_state st) /\ ready (r_state st2) (p :: ps) /\ r_ret st2 = r_ret st1) by (rewrite <- Hs in Ht |- *; unfold st2; destruct (0 <? r_ret st1); cbn; rewrite ?log_count; split_and!; try done; by apply ready_count).
  destruct H2 as (Ec & Ei & Em & Ek & El & Erd & Er). destruct ok; cbn [negb].
  - destruct Hres as (y' & Har' & Hly & Ey). pose proof Har' as [(q & Hctx & Hq) _ Hheld Hroom Hin Hen]. rewrite Ec, Hctx. cbn [stealDirectPacket streaming stealPacket completed_context _packet as_direct mbind option_bind].
    assert (Hr1 : 0 < r_ret st1).
    { destruct Hret as [[_ Hr]|[?|[? _]]]; [|done|done]. destruct Hpos as [?|[H1 H2]]; [by rewrite Hr|]. by destruct (Hlt H1 H2) as [_ [?|?]]. }
    cbn [on_streaming _payloadReadOffset]. pose proof Hq as (_ & _ & Hdh). rewrite Hdh. cbn [_payloadSize sent_direct_header]. pose proof (dok_size p Hok).
    rewrite i32_small, Z.eqb_refl by (unfold INT_MIN, INT_MAX; lia). cbn [assertb mbind option_bind]. rewrite Em.
    destruct (ready_deliver (r_memory st1) _ _ _ q Erd Hq) as (s' & -> & Hlog & Hrd). cbn [mbind option_bind]. do 2 eexists. split; [done|]. cbn. rewrite Em, Ek, Ei. do 3 (split; [done|]). split; [intros H1 H2; by apply Hlt|]. split.
    { split; [left; cbn; by rewrite Er|done]. }
    rewrite Er. split; [done|]. exists (r_memory st1, q), y'. rewrite Hlog, El. split; [split; [done|by rewrite take_ge in Hheld by done]|]. split; [done|]. split; [by split|]. by split_and!.
  - destruct Hres as (n' & Har' & Hn' & E2). do 2 eexists. split; [done|]. set (st3 := if _ && _ then _ else _).
    assert (H3 : r_context st3 = setPayloadCompleted false (r_context st1) /\ r_input st3 = r_input st1 /\ r_memory st3 = r_memory st1 /\ r_socket st3 = r_socket st1 /\
      log (r_state st3) = log (r_state st) /\ ready (r_state st3) (p :: ps) /\ r_ret st3 = r_ret st1) by (unfold st3; destruct (_ && _); cbn; rewrite ?Ec, ?Ei, ?Em, ?Ek, ?El, ?Er; repeat (split; [done|]); done).
    assert (Hcalm : calm st3).
    { destruct Har' as [(q & Hctx & _) _ _ _ _ _]. unfold st3. cbn [on_context r_context set_input]. rewrite Ec, Hctx. cbn [isBroken streaming setPayloadCompleted completed_context _broken negb andb].
      cbn [r_ret on_context set_input]. rewrite Er. destruct Hret as [[? _]|[Hr|(_ & Hr & Hso)]]; [done| |].
      - rewrite (proj2 (Z.ltb_ge _ _)) by lia. split; cbn; [left; by rewrite Er|by rewrite Ec, Hctx].
      - rewrite Hr. split; cbn; [right; rewrite Er, Ek; by split|by rewrite Ec, Hctx]. }
    destruct H3 as (Fc & Fi & Fm & Fk & Fl & Frd & _). rewrite Fm, Fk. destruct Har' as [(q & Hctx & Hq) Hl Hheld Hroom Hin Hen]. split_and!; [done|done|done|intros H1 H2; by apply Hlt|done|].
    exists n'. split; [|by split_and!]. split; rewrite ?Fm, ?Fi, ?Fk; try done. exists q. by rewrite Fc, Hctx.
Qed.

(** The context when the headers of [p] have been read. *)
Definition info_context p : DirectStreamingContext :=
  on_streaming (setPacket (Some (inl (fresh_packet alloc_ok (sent_header p) (sent_direct_header p))))) DirectStreamingContext_new.

(** Nothing of the frame of [p] was used yet, or its headers were; [x] are the
    bytes that have arrived of it. *)
Inductive heading p (c : DirectStreamingContext) (b : DataBuffer) (x : list Z) : Prop :=
| heading_idle : c = DirectStreamingContext_new -> rep b x -> heading p c b x
| heading_info y : c = info_context p -> x = info_bytes p ++ y -> rep b y -> heading p c b x.

Lemma direct_body_ok p b y :
  direct_ok p -> rep b (body_bytes p ++ y) ->
  exists q b', direct_body alloc_ok (fresh_packet alloc_ok (sent_header p) (sent_direct_header p)) b (info_context p) =
      Some (true, b', mkDirectContext (completed_context q) true 0) /\ rep b' y /\ received p q.
Proof using alloc_limit alloc_frame.
  intros Hok R. unfold direct_body. change (_directHeader (fresh_packet alloc_ok (sent_header p) (sent_direct_header p))) with (sent_direct_header p).
  rewrite (rep_getDataLen _ _ R), length_app. cbn [_msgSize sent_direct_header]. rewrite (proj2 (Z.ltb_ge _ _)) by lia.
  destruct (direct_decode_ok alloc_ok alloc_limit alloc_frame p b y Hok R) as (q & b' & E & R' & Hq).
  rewrite E. cbn [mbind option_bind]. eauto.
Qed.

Lemma direct_body_short p b y :
  rep b y -> (length y < length (body_bytes p))%nat ->
  direct_body alloc_ok (fresh_packet alloc_ok (sent_header p) (sent_direct_header p)) b (info_context p) = Some (true, b, info_context p).
Proof. intros R Hl. unfold direct_body. rewrite (rep_getDataLen _ _ R). cbn. by rewrite (proj2 (Z.ltb_lt _ _)) by lia. Qed.

(** The headers of [p] are in the buffer. *)
Lemma read_headers p b y :
  direct_ok p -> rep b (info_bytes p ++ y) -> Z.of_nat (length y) <= 2 ^ 23 + 2 ^ 22 ->
  exists b', direct_processData alloc_ok true b DirectStreamingContext_new =
      direct_body alloc_ok (fresh_packet alloc_ok (sent_header p) (sent_direct_header p)) b' (info_context p) /\ rep b' y.
Proof.
  intros Hok R Hl. unfold direct_processData. cbn [getDirectPacket as_direct DirectStreamingContext_new streaming getPacket _packet StreamingContext_new mbind option_bind].
  destruct (getDirectPacketInfo_ok p b y Hok R) as (b1 & -> & R1). cbn [mbind option_bind negb].
  cbn [_msgSize sent_direct_header]. destruct (rep_expand b1 y (Z.of_nat (length (body_bytes p))) R1) as (b2 & E2 & R2 & _);
    [lia|destruct Hok as [_ _ Hb _ _ _]; unfold FRAME_MAX; lia|]. unfold ensureFree. rewrite E2. cbn [mbind option_bind]. exists b2. by split.
Qed.

Lemma processData_body p c b y :
  direct_ok p -> heading p c b (info_bytes p ++ body_bytes p ++ y) -> Z.of_nat (length (body_bytes p ++ y)) <= 2 ^ 23 + 2 ^ 22 ->
  exists q b', direct_processData alloc_ok true b c = Some (true, b', mkDirectContext (completed_context q) true 0) /\ rep b' y /\ received p q.
Proof using alloc_limit alloc_frame.
  intros Hok [-> R|z -> E R] Hl.
  - destruct (read_headers p b _ Hok R Hl) as (b1 & -> & R1). by apply direct_body_ok.
  - apply (app_inv_head (info_bytes p)) in E as <-. unfold direct_processData. cbn [getDirectPacket as_direct info_context on_streaming streaming setPacket getPacket _packet mbind option_bind].
    by apply direct_body_ok.
Qed.

Lemma processData_head p c b x z :
  direct_ok p -> heading p c b x -> x ++ z = info_bytes p ++ body_bytes p -> z <> [] ->
  exists b' c', direct_processData alloc_ok true b c = Some (true, b', c') /\ isCompleted (streaming c') = false /\ heading p c' b' x.
Proof.
  intros Hok Hh E Hz. assert (Hzl : (0 < length z)%nat) by (destruct z; [done|cbn; lia]).
  pose proof (f_equal length E) as El. rewrite !length_app, info_bytes_length in El. destruct Hh as [-> R|y -> -> R].
  - destruct (decide (length x < 44)%nat) as [Hs|Hs].
    + unfold direct_processData. cbn [getDirectPacket as_direct DirectStreamingContext_new streaming getPacket _packet StreamingContext_new mbind option_bind].
      rewrite (getDirectPacketInfo_short b x R Hs). cbn. do 2 eexists. split; [done|]. split; [done|]. by apply heading_idle.
    + assert (Hx : x = info_bytes p ++ drop 44 x).
      { rewrite <- (take_drop 44 x) at 1. f_equal. apply (f_equal (take 44)) in E. rewrite take_app_le in E by lia. rewrite E.
        apply take_app_length'. by rewrite info_bytes_length. }
      rewrite Hx in R. destruct (read_headers p b _ Hok R) as (b1 & -> & R1); [destruct Hok; rewrite length_drop; lia|].
      rewrite (direct_body_short p b1 (drop 44 x) R1) by (rewrite length_drop; lia). do 2 eexists. split; [done|]. split; [done|]. by eapply heading_info.
  - rewrite length_app, info_bytes_length in El. unfold direct_processData. cbn [getDirectPacket as_direct info_context on_streaming streaming setPacket getPacket _packet mbind option_bind].
    rewrite (direct_body_short p b y R) by lia. do 2 eexists. split; [done|]. split; [done|]. by eapply heading_info.
Qed.

Lemma processData_idle b : rep b [] -> direct_processData alloc_ok true b DirectStreamingContext_new = Some (true, b, DirectStreamingContext_new).
Proof.
  intros R. unfold direct_processData. cbn [getDirectPacket as_direct DirectStreamingContext_new streaming getPacket _packet StreamingContext_new mbind option_bind].
  rewrite (getDirectPacketInfo_short b [] R) by (cbn; lia). done.
Qed.

(** Between two calls: no packet is left, or the head of a frame has arrived
    in part, or a payload has. *)
Inductive waiting st : list DirectPacket -> list Z -> Prop :=
| wait_none : idle st [] -> waiting st [] []
| wait_head p ps x : heading p (r_context st) (r_input st) x -> (length x < 44 + length (body_bytes p))%nat -> waiting st (p :: ps) x
| wait_payload p ps n :
    arriving p false n [] st -> (n < length (payload_bytes p))%nat -> waiting st (p :: ps) (info_bytes p ++ body_bytes p ++ take n (payload_bytes p)).

Definition position ps st : Prop :=
  enough (r_socket st) /\ ready (r_state st) ps /\ exists x, waiting st ps x /\ x ++ incoming (r_socket st) = concat (direct_frame <$> ps).

Definition fit (m : memory) p : Prop := direct_ok p /\ room m p.

Lemma fit_dom m m' ps : dom m' = dom m -> Forall (fit m) ps -> Forall (fit m') ps.
Proof. intros Hd Hf. eapply Forall_impl; [exact Hf|]. intros p (? & ?). split; [done|by eapply room_dom]. Qed.

(** The packets [ps1] were delivered. *)
Definition progress ps st st' : Prop :=
  exists ps1 ps2 lg, ps = ps1 ++ ps2 /\ Forall2 good ps1 lg /\ log (r_state st') = log (r_state st) ++ lg /\ position ps2 st' /\
    dom (r_memory st') = dom (r_memory st) /\ (length (replies (r_socket st')) <= length (replies (r_socket st)))%nat /\ calm st'.

Lemma progress_none ps st st' :
  position ps st' -> log (r_state st') = log (r_state st) -> dom (r_memory st') = dom (r_memory st) ->
  (length (replies (r_socket st')) <= length (replies (r_socket st)))%nat -> calm st' -> progress ps st st'.
Proof. intros Hp Hl Hd Hi Hc. exists [], ps, []. split_and!; try done. by rewrite app_nil_r. Qed.

Lemma progress_one p ps d st st1 st2 :
  good p d -> log (r_state st1) = log (r_state st) ++ [d] -> dom (r_memory st1) = dom (r_memory st) ->
  (length (replies (r_socket st1)) <= length (replies (r_socket st)))%nat -> progress ps st1 st2 -> progress (p :: ps) st st2.
Proof.
  intros Hg Hl Hd Hi (ps1 & ps2 & lg & -> & HF & Hl2 & Hp & Hd2 & Hi2 & Hc). exists (p :: ps1), ps2, (d :: lg).
  split_and!; [done|by constructor|by rewrite Hl2, Hl, <- app_assoc|done|by rewrite Hd2|lia|done].
Qed.

(** What the loop starts from: [x] is in the buffer but for headers read. *)
Definition starting st ps (x : list Z) : Prop :=
  match ps with [] => idle st [] /\ x = [] | p :: _ => heading p (r_context st) (r_input st) x end.

Definition loop_rounds st : nat :=
  (Z.to_nat (getDataLen (r_input st)) + match _packet (streaming (r_context st)) with None => 0 | Some _ => 1 end)%nat.

Lemma idle_starting st ps y : idle st y -> y ++ incoming (r_socket st) = concat (direct_frame <$> ps) -> starting st ps y.
Proof.
  intros [Hc R] E. destruct ps as [|p ps]; cbn; [|by apply heading_idle]. apply app_nil in E as [-> _]. by split.
Qed.

Lemma idle_rounds st y : idle st y -> loop_rounds st = length y.
Proof. intros [Hc R]. unfold loop_rounds. rewrite Hc, (rep_getDataLen _ _ R), Nat2Z.id. cbn. lia. Qed.

Lemma heading_rounds p st y :
  heading p (r_context st) (r_input st) (info_bytes p ++ body_bytes p ++ y) -> (length y < loop_rounds st)%nat.
Proof.
  unfold loop_rounds. intros [Hc R|z Hc E R]; rewrite Hc, (rep_getDataLen _ _ R), Nat2Z.id.
  - rewrite !length_app, info_bytes_length. cbn. lia.
  - apply (app_inv_head (info_bytes p)) in E as <-. rewrite length_app. cbn. lia.
Qed.

Lemma payload_case p : (0 < length (payload_bytes p))%nat \/ payload_bytes p = [].
Proof. destruct (payload_bytes p); [by right|left; cbn; lia]. Qed.

Lemma heading_sound p c b x : heading p c b x -> isBroken (streaming c) = false /\ _payloadCompleted c = true.
Proof. by intros [-> _|y -> _ _]. Qed.

Abbreviation loop := (direct_loop alloc_ok true getPlaceholderFromChannel count deliver).

Lemma direct_loop_ok ps : forall fuel st x,
  Forall (fit (r_memory st)) ps -> enough (r_socket st) -> ready (r_state st) ps -> starting st ps x -> x ++ incoming (r_socket st) = concat (direct_frame <$> ps) ->
  Z.of_nat (length x) <= 2 ^ 23 -> (loop_rounds st < fuel)%nat -> 0 < r_ret st ->
  exists st', loop fuel false st = Some st' /\ progress ps st st'.
Proof using alloc_limit alloc_frame .
  induction ps as [|p ps IH]; intros fuel st x Hfit Hen Hrd Hst E Hl Hf Hret; (destruct fuel as [|fuel]; [lia|]); cbn [direct_loop].
  - destruct Hst as [[Hc R] ->]. rewrite Hc, processData_idle by done. cbn. eexists. split; [done|]. apply progress_none; [|done..|].
    { split; [done|]. split; [done|]. exists []. split; [by apply wait_none|done]. }
    split; [by left|done].
  - apply Forall_cons in Hfit as [(Hok & Hroom) Hfit]. cbn [starting fmap list_fmap concat] in Hst, E. unfold direct_frame at 1 in E.
    rewrite (app_assoc (info_bytes p)), <- app_assoc in E. apply split_first in E as [(y & -> & E)|(z & E & Hz & Ei)].
    + rewrite <- app_assoc in Hst, Hl. pose proof (heading_rounds p st y Hst) as Hr.
      destruct (processData_body p _ _ y Hok Hst) as (q & b' & -> & R & Hq); [rewrite !length_app in *; lia|]. cbn [mbind option_bind streaming completed_context isCompleted _completed andb negb].
      set (st1 := set_input b' _ st). assert (Har : arriving p true 0 y st1).
      { split; [exists q; by split|lia|intros i Hi; change (i < 0)%nat in Hi; lia|done|done|done]. }
      destruct (finish_packet_ok p ps true 0 y (concat (direct_frame <$> ps)) st1 Hok Hrd Har (payload_case p) E (or_introl Hret))
        as (again & st2 & -> & Hd & Hen2 & Hle & _ & Hcalm & Hres). cbn [mbind option_bind]. destruct again.
      * destruct Hres as (Hret2 & d & y' & Hg & Hlog & Hidle & Hrd2 & Hly & Ey). rewrite !length_app in Hl.
        destruct (IH fuel st2 y') as (st3 & -> & Hp); [by eapply fit_dom|done|done|by apply idle_starting|done|lia|rewrite (idle_rounds _ y') by done; lia|done|].
        exists st3. split; [done|]. by eapply progress_one.
      * destruct Hres as (n & Har' & Hn & Hlog & Hrd2 & Ei). exists st2. split; [done|]. apply progress_none; [|done..]. split; [done|]. split; [done|].
        eexists. split; [by apply wait_payload|]. rewrite Ei, fmap_cons. cbn [concat]. unfold direct_frame at 2. rewrite <- (take_drop n (payload_bytes p)) at 3.
        by rewrite <- !app_assoc.
    + destruct (processData_head p _ _ x z Hok Hst) as (b' & c' & -> & Hc & Hh); [done|done|]. cbn [mbind option_bind]. rewrite Hc. cbn [andb negb]. eexists. split; [done|].
      apply progress_none; [|done|done|done|split; [by left|by eapply heading_sound]]. split; [done|]. split; [done|]. exists x. split.
      * apply wait_head; [done|]. apply (f_equal length) in E. rewrite !length_app, info_bytes_length in E. destruct z; [done|cbn in E; lia].
      * cbn [r_socket set_input]. rewrite <- Ei, fmap_cons. cbn [concat]. unfold direct_frame at 2. by rewrite (app_assoc (info_bytes p)), E, <- !app_assoc.
Qed.

(** ** Calls of [readData] *)

Lemma progress_app ps1 ps2 lg st st1 st2 :
  Forall2 good ps1 lg -> log (r_state st1) = log (r_state st) ++ lg -> dom (r_memory st1) = dom (r_memory st) ->
  (length (replies (r_socket st1)) <= length (replies (r_socket st)))%nat -> progress ps2 st1 st2 -> progress (ps1 ++ ps2) st st2.
Proof.
  intros HF Hl Hd Hi (ps3 & ps4 & lg2 & -> & HF2 & Hl2 & Hp2 & Hd2 & Hi2 & Hc2). exists (ps1 ++ ps3), ps4, (lg ++ lg2).
  split_and!; [by rewrite app_assoc|by apply Forall2_app|by rewrite Hl2, Hl, app_assoc|done|by rewrite Hd2|lia|done].
Qed.

Lemma resume_ok p ps n st :
  Forall (fit (r_memory st)) (p :: ps) -> ready (r_state st) (p :: ps) -> arriving p false n [] st -> (n < length (payload_bytes p))%nat ->
  incoming (r_socket st) = drop n (payload_bytes p) ++ concat (direct_frame <$> ps) ->
  exists st', loop (loop_fuel st) true st = Some st' /\ progress (p :: ps) st st' /\ (length (replies (r_socket st')) <= Nat.pred (length (replies (r_socket st))))%nat.
Proof using alloc_limit alloc_frame.
  intros [(Hok & Hroom) Hfit]%Forall_cons Hrd Har Hn E. unfold loop_fuel. rewrite (rep_getDataLen _ _ (ar_input _ _ _ _ _ Har)).
  change (Z.to_nat (Z.of_nat (length [])) + 3)%nat with 3%nat. cbn [direct_loop mbind option_bind negb].
  assert (Hpos : 0 < r_ret st \/ payload_bytes p <> [] /\ [] = @nil Z) by (right; split; [destruct (payload_bytes p); [cbn in Hn; lia|done]|done]).
  destruct (finish_packet_ok p ps false n [] (concat (direct_frame <$> ps)) st Hok Hrd Har (or_introl Hn) E Hpos)
    as (again & st2 & -> & Hd & Hen2 & Hle & Ha & Hcalm & Hres). cbn [mbind option_bind].
  assert (Hae : length (replies (r_socket st2)) = Nat.pred (length (replies (r_socket st)))).
  { apply Ha; [|done]. destruct (payload_bytes p); [cbn in Hn; lia|done]. }
  destruct again.
  - destruct Hres as (Hret2 & d & y' & Hg & Hlog & Hidle & Hrd2 & Hly & Ey). cbn [length] in Hly.
    destruct (direct_loop_ok ps 2 st2 y') as (st3 & E3 & Hp); [by eapply fit_dom|done|done|by apply idle_starting|done|lia|rewrite (idle_rounds _ y') by done; lia|done|].
    exists st3. split; [exact E3|]. split; [by eapply progress_one|]. destruct Hp as (? & ? & ? & _ & _ & _ & _ & _ & Hi & _). lia.
  - destruct Hres as (n' & Har' & Hn' & Hlog & Hrd2 & Ei). exists st2. split; [done|]. split; [|lia]. apply progress_none; [|done..]. split; [done|]. split; [done|].
    eexists. split; [by apply wait_payload|]. rewrite Ei, fmap_cons. cbn [concat]. unfold direct_frame at 2. rewrite <- (take_drop n' (payload_bytes p)) at 3.
    by rewrite <- !app_assoc.
Qed.

(** No payload is on its way. *)
Definition between st ps x : Prop := starting st ps x /\ match ps with [] => True | p :: _ => (length x < 44 + length (body_bytes p))%nat end.

Lemma between_waiting st ps x : between st ps x -> waiting st ps x.
Proof. destruct ps as [|p ps]; intros [Hs Hl]; cbn in *; [destruct Hs as [Hi ->]; by apply wait_none|by apply wait_head]. Qed.

Lemma between_completed st ps x : between st ps x -> _payloadCompleted (r_context st) = true /\ isBroken (streaming (r_context st)) = false.
Proof. destruct ps as [|p ps]; intros [Hs _]; cbn in *; [destruct Hs as [[-> _] _]; done|]. by apply heading_sound in Hs as []. Qed.

Lemma between_length st ps x : Forall direct_ok ps -> between st ps x -> Z.of_nat (length x) <= 2 ^ 22 + 44.
Proof. destruct ps as [|p ps]; intros Hok [Hs Hl]; [destruct Hs as [_ ->]; cbn; lia|]. apply Forall_cons in Hok as [[_ _ Hb _ _ _] _]. lia. Qed.

(** The bytes of a read extend what is in the buffer. *)
Lemma between_receive st ps x : between st ps x ->
  exists d, rep (r_input st) d /\ (length d <= length x)%nat /\
    forall st' e, r_context st' = r_context st -> rep (r_input st') (d ++ e) -> (ps = [] -> e = []) ->
      starting st' ps (x ++ e) /\ (loop_rounds st' < Z.to_nat (getDataLen (r_input st')) + 3)%nat.
Proof.
  assert (Hr : forall st', (loop_rounds st' < Z.to_nat (getDataLen (r_input st')) + 3)%nat) by (intros st'; unfold loop_rounds; destruct (_packet _); lia).
  destruct ps as [|p ps]; intros [Hs _]; cbn [starting] in Hs.
  - destruct Hs as [[Hc R] ->]. exists []. split; [done|]. split; [done|]. intros st' e Hc' R' He. rewrite (He eq_refl) in *. split; [|done]. cbn. split; [|done]. by split; [rewrite Hc'|].
  - destruct Hs as [Hc R|y Hc -> R]; [exists x|exists y]; (split; [exact R|]); (split; [rewrite ?length_app; lia|]); intros st' e Hc' R' _; (split; [|done]); cbn [starting].
    + apply heading_idle; [by rewrite Hc'|done].
    + rewrite <- app_assoc. eapply heading_info; [by rewrite Hc'|done|done].
Qed.

Lemma frames_are_bytes m ps : Forall (fit m) ps -> Forall is_byte (concat (direct_frame <$> ps)).
Proof. induction 1 as [|p ps (Hok & _) _ IH]; [constructor|]. rewrite fmap_cons. cbn [concat]. apply Forall_app. split; [by apply direct_frame_bytes|done]. Qed.

Lemma progress_account old ps st st' : progress ps st st' -> progress ps st (account old st').
Proof.
  intros (ps1 & ps2 & lg & -> & HF & Hl & (Hen & Hrd & x & Hw & E) & Hd & Hi & Hc). exists ps1, ps2, lg. split_and!; try done. split; [done|]. split; [done|]. exists x. split; [|done].
  destruct Hw as [[H1 H2]|p ps x Hh Hx|p ps n [H1 ? ? ? ? ?] Hn]; [by apply wait_none|by apply wait_head|by apply wait_payload].
Qed.

Lemma receive_ok bufSize ps x st :
  0 < bufSize <= 2 ^ 21 -> Forall (fit (r_memory st)) ps -> enough (r_socket st) -> ready (r_state st) ps -> between st ps x ->
  x ++ incoming (r_socket st) = concat (direct_frame <$> ps) ->
  exists stop st', direct_round alloc_ok true getPlaceholderFromChannel count deliver bufSize st = Some (stop, st') /\
    progress ps st st' /\ (length (replies (r_socket st')) <= Nat.pred (length (replies (r_socket st))))%nat.
Proof using alloc_limit alloc_frame.
  intros Hb Hfit Hen Hrd Hbet E. pose proof (between_completed _ _ _ Hbet) as [Hpc Hbr]. unfold direct_round. rewrite Hpc. cbn [negb].
  pose proof (between_length st ps x ltac:(eapply Forall_impl; [exact Hfit|]; by intros p []) Hbet) as Hl.
  destruct (between_receive _ _ _ Hbet) as (d & R & Hd & Hgrow). unfold ensureFree.
  destruct (rep_expand (r_input st) d bufSize R) as (b1 & -> & R1 & Hroom); [lia|unfold FRAME_MAX; lia|]. cbn [mbind option_bind r_socket set_input].
  destruct (socket_read_step (r_socket st) bufSize Hen ltac:(lia)) as (ret & bytes & s' & -> & Hgot & Hbl & Ei & Hen' & Ha).
  destruct Hgot as [[-> Hne]|(-> & -> & Hso)].
  - assert (Hlb : (0 < length bytes)%nat) by (destruct bytes; [done|cbn; lia]). rewrite (proj2 (Z.ltb_ge _ 0)), (proj2 (Z.eqb_neq _ 0)) by lia.
    assert (Hbytes : Forall is_byte bytes).
    { pose proof (frames_are_bytes _ _ Hfit) as Hf. rewrite <- E, Ei in Hf. apply Forall_app in Hf as [_ Hf]. by apply Forall_app in Hf as [? _]. }
    cbn [r_input set_socket set_input r_context]. destruct (rep_recv b1 d bytes R1 Hbytes) as (b2 & b3 & -> & E3 & R3); [lia|]. cbn [mbind option_bind]. rewrite E3. cbn [mbind option_bind].
    set (st1 := set_state _ _). destruct (Hgrow st1 bytes eq_refl R3) as [Hst Hf].
    { intros ->. cbn in E. apply app_nil in E as [_ E]. rewrite E in Ei. symmetry in Ei. by apply app_nil in Ei as [-> _]. }
    destruct (direct_loop_ok ps (loop_fuel st1) st1 (x ++ bytes)) as (st2 & -> & Hp); [done|done|exact (ready_count _ _ _ Hrd)|done|rewrite <- app_assoc; cbn; by rewrite <- Ei|rewrite length_app; lia|done|cbn; lia|].
    cbn [mbind option_bind]. do 2 eexists. split; [done|]. assert (Hla : length (replies (r_socket st1)) = Nat.pred (length (replies (r_socket st)))) by done.
    destruct Hp as (ps1 & ps2 & lg & -> & HF & Hlog & Hpos & Hdom & Hi & Hc). split; [|cbn [account r_socket]; lia]. apply progress_account.
    exists ps1, ps2, lg. split_and!; [done|done|by rewrite Hlog; cbn; rewrite log_count|done|done|lia|done].
  - do 2 eexists. split; [done|]. cbn [r_socket set_error set_socket set_input account]. split; [|lia]. apply progress_none; [|done|done|cbn; lia|].
    + split; [done|]. split; [done|]. exists x. cbn [app] in Ei. split; [|cbn; by rewrite <- Ei]. apply between_waiting. split; [|by destruct Hbet].
      rewrite <- (app_nil_r x). apply Hgrow; [done|by rewrite app_nil_r|done].
    + split; [right; by split|done].
Qed.

Lemma direct_round_ok bufSize ps st :
  0 < bufSize <= 2 ^ 21 -> Forall (fit (r_memory st)) ps -> position ps st ->
  exists stop st', direct_round alloc_ok true getPlaceholderFromChannel count deliver bufSize st = Some (stop, st') /\
    progress ps st st' /\ (length (replies (r_socket st')) <= Nat.pred (length (replies (r_socket st))))%nat.
Proof using alloc_limit alloc_frame.
  intros Hb Hfit (Hen & Hrd & x & Hw & E). destruct Hw as [Hi|p ps x Hh Hl|p ps n Har Hn].
  - by apply (receive_ok bufSize [] []).
  - by apply (receive_ok bufSize (p :: ps) x).
  - rewrite fmap_cons in E. cbn [concat] in E. unfold direct_frame at 1 in E. rewrite <- (take_drop n (payload_bytes p)) in E at 2.
    rewrite <- !app_assoc in E. do 3 apply app_inv_head in E. destruct (resume_ok p ps n st Hfit Hrd Har Hn E) as (st' & E' & Hp & Ha).
    unfold direct_round. destruct (ar_ctx _ _ _ _ _ Har) as (q & Hc & _). rewrite Hc. cbn [negb _payloadCompleted getDirectPacket as_direct streaming getPacket completed_context _packet mbind option_bind].
    rewrite E'. cbn [mbind option_bind]. do 2 eexists. split; [done|]. split; [by apply progress_account|done].
Qed.

Lemma position_reset ps st : position ps st -> position ps (set_error 0 (set_socket (r_socket st) 0 st)).
Proof.
  intros (Hen & Hrd & x & Hw & E). split; [done|]. split; [done|]. exists x. split; [|done]. destruct Hw as [[Hc R]|p ps x Hh Hl|p ps n [Hc ? ? ? ? ?] Hn].
  - by apply wait_none.
  - by apply wait_head.
  - by apply wait_payload.
Qed.

Lemma direct_rounds_ok bufSize rounds : forall ps st,
  0 < bufSize <= 2 ^ 21 -> Forall (fit (r_memory st)) ps -> position ps st ->
  exists st', direct_rounds alloc_ok true getPlaceholderFromChannel count deliver (Datatypes.S rounds) bufSize st = Some (false, st') /\
    progress ps st st' /\ (length (replies (r_socket st')) <= Nat.pred (length (replies (r_socket st))))%nat.
Proof using alloc_limit alloc_frame.
  induction rounds as [|rounds IH]; intros ps st Hb Hfit Hpos; cbn [direct_rounds];
    destruct (direct_round_ok bufSize ps st Hb Hfit Hpos) as (stop & st1 & -> & Hp & Ha); cbn [mbind option_bind];
    (destruct stop; [by exists st1|]); assert (Hbr : isBroken (streaming (r_context st1)) = false) by (destruct Hp as (? & ? & ? & _ & _ & _ & _ & _ & _ & [_ Hbr]); exact Hbr); rewrite Hbr.
  - cbn [Nat.eqb negb]. rewrite andb_false_r. by exists st1.
  - destruct (_ && _); [|by exists st1].
    destruct Hp as (ps1 & ps2 & lg & -> & HF & Hlog & Hpos1 & Hdom & Hi & Hc). apply Forall_app in Hfit as Hfit2. destruct Hfit2 as [_ Hfit2].
    destruct (IH ps2 st1 Hb ltac:(by eapply fit_dom) Hpos1) as (st2 & E2 & Hp2 & Ha2). exists st2. split; [exact E2|]. split; [|lia].
    by eapply progress_app.
Qed.

(** A call takes at least an answer, and never reports the end. *)
Lemma direct_readData_ok bufSize ps st :
  0 < bufSize <= 2 ^ 21 -> Forall (fit (r_memory st)) ps -> position ps st ->
  exists st', direct_readData alloc_ok true getPlaceholderFromChannel count deliver bufSize st = Some (true, st') /\
    progress ps st st' /\ (length (replies (r_socket st')) <= Nat.pred (length (replies (r_socket st))))%nat.
Proof using alloc_limit alloc_frame.
  intros Hb Hfit Hpos. unfold direct_readData. set (st0 := set_error 0 _).
  destruct (direct_rounds_ok bufSize 9 ps st0 Hb Hfit (position_reset _ _ Hpos)) as (st1 & -> & Hp & Ha). cbn [mbind option_bind orb].
  exists st1. split; [|by split]. destruct Hp as (_ & _ & _ & _ & _ & _ & _ & _ & _ & [[Hr|[Hr He]] _]).
  - rewrite (proj2 (Z.eqb_neq _ 0)), (proj2 (Z.ltb_ge _ 0)) by lia. done.
  - by rewrite Hr, He.
Qed.

(** The calls of [readData], one for each notice of the kernel. *)
Fixpoint read_calls (n : nat) (bufSize : Z) st : option (reading S) :=
  match n with
  | O => Some st
  | Datatypes.S n =>
      '(ok, st) ← direct_readData alloc_ok true getPlaceholderFromChannel count deliver bufSize st;
      if ok : bool then read_calls n bufSize st else None
  end.

Lemma read_calls_ok bufSize n : forall ps st,
  0 < bufSize <= 2 ^ 21 -> Forall (fit (r_memory st)) ps -> position ps st -> (length (replies (r_socket st)) <= n)%nat ->
  exists lg st', read_calls n bufSize st = Some st' /\ Forall2 good ps lg /\ log (r_state st') = log (r_state st) ++ lg /\ idle st' [] /\
    incoming (r_socket st') = [].
Proof using alloc_limit alloc_frame.
  induction n as [|n IH]; intros ps st Hb Hfit Hpos Hn; cbn [read_calls].
  - destruct Hpos as ([_ Hinc] & _ & x & Hw & E). assert (Ei : incoming (r_socket st) = []).
    { destruct (replies (r_socket st)); [|cbn in Hn; lia]. destruct (incoming (r_socket st)); [done|cbn in Hinc; lia]. }
    rewrite Ei, app_nil_r in E. destruct Hw as [Hi|p ps x Hh Hl|p ps k Har Hk].
    + exists [], st. split_and!; try done. by rewrite app_nil_r.
    + exfalso. apply (f_equal length) in E. rewrite fmap_cons in E. cbn [concat] in E. unfold direct_frame at 1 in E. rewrite !length_app, info_bytes_length in E. lia.
    + exfalso. apply (f_equal length) in E. rewrite fmap_cons in E. cbn [concat] in E. unfold direct_frame at 1 in E. rewrite !length_app, length_take in E. lia.
  - destruct (direct_readData_ok bufSize ps st Hb Hfit Hpos) as (st1 & -> & Hp & Ha). cbn [mbind option_bind].
    destruct Hp as (ps1 & ps2 & lg & -> & HF & Hlog & Hpos1 & Hdom & Hi & _). apply Forall_app in Hfit as [_ Hfit].
    destruct (IH ps2 st1 Hb ltac:(by eapply fit_dom) Hpos1 ltac:(lia)) as (lg2 & st2 & -> & HF2 & Hlog2 & Hidle & Hinc).
    exists (lg ++ lg2), st2. split_and!; [done|by apply Forall2_app|by rewrite Hlog2, Hlog, app_assoc|done|done].
Qed.

End Receiving.
