(* ===== verification/DirectConnection.v ===== *)
(** * DirectTCPConnection

    Sources: directtcpconnection.h and directtcpconnection.cpp under
    src/agent_engine/network/anet/.

    A connection that carries direct packets.  A payload of 8 KiB or more is
    not copied to the output buffer: the packet is kept, and its payload is
    written from the memory of the user, over as many calls of [writeData] as
    the kernel needs.  [readData] is [direct_readData] over the state of the
    connection: the channels say where a payload goes, and [handlePacket]
    takes the packet. *)

From S2P Require Import Prelude DataBuffer PacketQueue Packet Streamer DefaultPacket ChannelPool Connection Framing TcpConnection Direct DirectDelivery.

Definition DIRECT_READ_WRITE_SIZE : Z := READ_WRITE_SIZE.

(** The state [direct_readData] works on: the connection, [_maxRecvPacketSize]
    and what the handlers were shown. *)
Abbreviation reader := (Connection DirectPacket * Z * list (memory * DirectPacket))%type.

Section Direct.

Context (alloc_ok : Z -> bool).
Context (spaceUsed : DirectPacket -> Z).

#[local] Hint Extern 0 (IPacket DirectPacket) => exact (DirectPacket_IPacket alloc_ok) : typeclass_instances.

(** [_context] and [_directContext] are one object; its parts that a plain
    context has are in the [TCPConnection]. *)
Record DirectTCPConnection := mkDirectTcp {
  dtcp : TCPConnection DirectPacket;
  payloadCompleted : bool;
  payloadReadOffset : Z;
  _payloadLeftToWrite : Z;                       (* size_t *)
  _writingPayload : DirectPayload;
  _writingPacket : option (ptr * DirectPacket)   (* owned *)
}.

Definition with_tcp (t : TCPConnection DirectPacket) (d : DirectTCPConnection) : DirectTCPConnection :=
  mkDirectTcp t (payloadCompleted d) (payloadReadOffset d) (_payloadLeftToWrite d) (_writingPayload d) (_writingPacket d).
Definition dconn (d : DirectTCPConnection) : Connection DirectPacket := tconn (dtcp d).
Definition on_dconn (f : Connection DirectPacket -> Connection DirectPacket) (d : DirectTCPConnection) : DirectTCPConnection :=
  with_tcp (with_conn (f (dconn d)) (dtcp d)) d.
Definition with_writing (left : Z) (payload : DirectPayload) (packet : option (ptr * DirectPacket)) (d : DirectTCPConnection) : DirectTCPConnection :=
  mkDirectTcp (dtcp d) (payloadCompleted d) (payloadReadOffset d) left payload packet.
Definition directContext (d : DirectTCPConnection) : DirectStreamingContext :=
  mkDirectContext (_context (dtcp d)) (payloadCompleted d) (payloadReadOffset d).

Definition DirectTCPConnection_new (isServer adapter : bool) (now : Z) : DirectTCPConnection :=
  mkDirectTcp (TCPConnection_new true isServer adapter now READ_WRITE_SIZE) true 0 0 kEmptyPayload None.

(** ** Writing *)

Definition clearWritingPacket (d : DirectTCPConnection) : option DirectTCPConnection :=
  match _writingPacket d with
  | None => _ ← assertb (_payloadLeftToWrite d <=? 0); Some d
  | Some (x, _) => Some (with_writing 0 kEmptyPayload None (on_dconn (emit (EvFree x)) d))
  end.

Definition finishPacketWrite (d : DirectTCPConnection) : option DirectTCPConnection :=
  _ ← assertb (_payloadLeftToWrite d =? 0);
  '(_, p) ← _writingPacket d;
  let d := on_dconn (updateQueueStatus spaceUsed p false) d in
  let d := match invokeDequeueCB (base p) with None => d | Some cb => on_dconn (emit (EvDequeue cb)) d end in
  clearWritingPacket d.

(** The loop's variables: [ret], [error], [writeCnt], [myQueueSize], and the
    answers of the kernel. *)
Record writing := mkWriting {
  w_conn : DirectTCPConnection;
  w_ret : Z;
  w_error : Z;
  w_cnt : Z;
  w_queue : nat;
  w_socket : list (Z + Z)
}.

Definition on_w (f : DirectTCPConnection -> option DirectTCPConnection) (w : writing) : option writing :=
  d ← f (w_conn w); Some (mkWriting d (w_ret w) (w_error w) (w_cnt w) (w_queue w) (w_socket w)).

(** [Socket::write] of [len] bytes. *)
Definition socket_write (len : Z) (writes : list (Z + Z)) : Z * Z * list (Z + Z) :=
  match next_write writes with
  | (inl k, writes) => (Z.max 0 (Z.min k len), 0, writes)
  | (inr err, writes) => (-1, err, writes)
  end.

Definition sendBuffer (w : writing) : option writing :=
  let t := dtcp (w_conn w) in
  let '(ret, soError, writes) := socket_write (getDataLen (_output t)) (w_socket w) in
  if 0 <? ret then
    bytes ← peekBytes (_output t) ret;
    let t := with_output (drainData (_output t) ret) t in
    let t := with_conn (on_stats (with_sent ret) (emit (EvSent bytes) (tconn t))) t in
    Some (mkWriting (with_tcp t (w_conn w)) ret (w_error w) (w_cnt w + 1) (w_queue w) writes)
  else Some (mkWriting (w_conn w) ret soError (w_cnt w + 1) (w_queue w) writes).

Definition sendPayload (w : writing) : option writing :=
  let d := w_conn w in
  _ ← assertb (0 <? _payloadLeftToWrite d);
  _ ← _writingPacket d;
  addr ← payload_addr (_writingPayload d);
  let len := payload_len (_writingPayload d) in
  let '(ret, soError, writes) := socket_write (_payloadLeftToWrite d) (w_socket w) in
  if 0 <? ret then
    _ ← assertb (len <=? Z.of_nat (length addr));
    let bytes := take (Z.to_nat ret) (drop (Z.to_nat (len - _payloadLeftToWrite d)) addr) in
    let d := on_dconn (fun c => on_stats (with_sent ret) (emit (EvSent bytes) c)) d in
    let d := with_writing (u64 (_payloadLeftToWrite d - ret)) (_writingPayload d) (_writingPacket d) d in
    Some (mkWriting d ret (w_error w) (w_cnt w + 1) (w_queue w) writes)
  else Some (mkWriting d ret soError (w_cnt w + 1) (w_queue w) writes).

(** A packet leaves the queue: it belongs to [_writingPacket] now. *)
Definition take_packet (x : ptr) (c : Connection DirectPacket) : Connection DirectPacket :=
  mkConn (cfg c) (delete x (packets c)) (delete x (links c)) (_outputQueue c) (_myQueue c) (_channelPool c) (_globalChannelId c) (_waitingThreads c) (_closed c) (_lasttime c) (_outputQueueSize c) (_outputQueueSpaceUsed c) (_stats c) (trace c).

(** Unlike in [TCPConnection], the time-out in milliseconds is not kept. *)
Definition direct_send_channel (p : DirectPacket) (c : Connection DirectPacket) : option (Connection DirectPacket) :=
  match _channel (base p) with
  | None => Some c
  | Some x =>
      ch ← heap (_channelPool c) !! x;
      match effective (_defaultPacketHandler (cfg c)) ch with
      | None => '(_, pool) ← freeChannel (_channelPool c) (Some x); Some (set_pool pool c)
      | Some _ =>
          h ← upd (heap (_channelPool c)) x (ChannelPool.setExpireTime (Packet._expireTime (base p)));
          pool ← addToWaitingList (with_heap (_channelPool c) h) x;
          Some (set_pool pool c)
      end
  end.

(** The next packet is encoded. *)
Definition encode_next (d : DirectTCPConnection) : option DirectTCPConnection :=
  let t := dtcp d in
  let c := tconn t in
  '(x, q) ← pop (links c) (_myQueue c);
  x ← x;
  p ← packets c !! x;
  '(_, p, out, payload, h) ← direct_encode alloc_ok (existPacketHeader (cfg c)) p (_output t) (_writingPayload d) (heap (_channelPool c));
  let c := set_pool (with_heap (_channelPool c) h) (set_queues (links c) (_outputQueue c) q c) in
  left ← (match payload_addr payload with
          | Some _ => if 0 <? payload_len payload then _ ← assertb (_payloadLeftToWrite d =? 0); Some (payload_len payload) else Some (_payloadLeftToWrite d)
          | None => Some (_payloadLeftToWrite d)
          end);
  let packetSizeInBuffer := getDataLen out - getDataLen (_output t) in
  let t1 := with_output out t in
  let t1 := if _maxSendPacketSize t <? packetSizeInBuffer then with_maxSend packetSizeInBuffer t1 else t1 in
  let t1 := addOutputBufferSpaceAllocated (getSpaceUsed out - getSpaceUsed (_output t)) t1 in
  c ← direct_send_channel p c;
  Some (with_writing left payload (Some (x, p)) (with_tcp (with_conn (take_packet x c) t1) d)).

(** From the label on, while a payload is left. *)
Definition continue_payload (w : writing) : option writing :=
  let out w := getDataLen (_output (dtcp (w_conn w))) in
  w ← (if 0 <? out w then sendBuffer w else Some w);
  if 0 <? out w then Some w
  else
    w ← sendPayload w;
    if _payloadLeftToWrite (w_conn w) =? 0 then on_w finishPacketWrite w else Some w.

(** The inner loop; [n] is [myQueueSize]. *)
Fixpoint direct_fill (n : nat) (w : writing) : option writing :=
  let d := w_conn w in
  let w := mkWriting d (w_ret w) (w_error w) (w_cnt w) n (w_socket w) in
  if getDataLen (_output (dtcp d)) <? DIRECT_READ_WRITE_SIZE then
    if 0 <? _payloadLeftToWrite d then _ ← _writingPacket d; continue_payload w
    else
      match n with
      | O => Some w
      | S n =>
          w ← on_w encode_next (mkWriting d (w_ret w) (w_error w) (w_cnt w) n (w_socket w));
          if 0 <? _payloadLeftToWrite (w_conn w) then continue_payload w
          else w ← on_w finishPacketWrite w; direct_fill n w
      end
  else Some w.

(** The outer loop.  It goes round again at most ten times. *)
Fixpoint direct_write_rounds (fuel : nat) (w : writing) : option writing :=
  match fuel with
  | O => None
  | S fuel =>
      w ← direct_fill (w_queue w) w;
      w ← (if 0 <? getDataLen (_output (dtcp (w_conn w))) then sendBuffer w else Some w);
      if (0 <? w_ret w) && (getDataLen (_output (dtcp (w_conn w))) =? 0) && (_payloadLeftToWrite (w_conn w) =? 0) &&
         negb (Nat.eqb (w_queue w) 0) && (w_cnt w <? 10)
      then direct_write_rounds fuel w else Some w
  end.

Definition direct_write_finish (error : Z) (d : DirectTCPConnection) : option (bool * DirectTCPConnection) :=
  let c := dconn d in
  '(h, q, m) ← ordered_moveBack (links c) (_outputQueue c) (_myQueue c);
  let c := set_queues h q m c in
  let d := on_dconn (fun _ => c) d in
  let clear d := with_tcp (clearOutputBuffer (dtcp d)) d in
  if negb (error =? 0) && negb (error =? EWOULDBLOCK) && negb (error =? EAGAIN) then
    d ← clearWritingPacket (clear d); Some (false, d)
  else
    let queueSize := i32 (q_size (_outputQueue c) + (if 0 <? getDataLen (_output (dtcp d)) then 1 else 0) +
                          (if 0 <? _payloadLeftToWrite d then 1 else 0)) in
    let notify_senders c :=
      if negb (_isServer (cfg c)) && (0 <? _queueLimit (cfg c)) &&
         (getUseListCount (_channelPool c) <? _queueLimit (cfg c)) && (0 <? _waitingThreads c)
      then emit EvBroadcast c else c in
    if 0 <? queueSize then Some (true, on_dconn notify_senders d)
    else if _writeFinishShutdown (dtcp d) then Some (true, on_dconn (fun c => emit EvShutdown (emit (EvEnableWrite false) c)) d)
    else if _writeFinishClose (dtcp d) then Some (false, clear d)
    else Some (true, on_dconn (fun c => notify_senders (emit (EvEnableWrite false) c)) d).

Definition direct_writeData (now : Z) (writes : list (Z + Z)) (d : DirectTCPConnection) : option (bool * DirectTCPConnection) :=
  let c := dconn d in
  '(h, q, m) ← ordered_moveTo (links c) (_outputQueue c) (_myQueue c);
  let c := set_queues h q m c in
  if (q_size m =? 0) && (getDataLen (_output (dtcp d)) =? 0) && (_payloadLeftToWrite d =? 0) then
    Some (true, on_dconn (fun _ => emit (EvEnableWrite false) c) d)
  else
    let d := on_dconn (fun _ => set_lasttime now c) d in
    w ← direct_write_rounds 11 (mkWriting d 0 0 0 (Z.to_nat (i32 (q_size m))) writes);
    direct_write_finish (w_error w) (w_conn w).

(** ** Reading *)

Definition conn_placeholder (s : reader) (channelId : Z) : DirectPlaceholder :=
  match findChannel (_channelPool s.1.1) channelId with
  | None => kEmptyPlaceholder
  | Some x => match heap (_channelPool s.1.1) !! x with None => kEmptyPlaceholder | Some ch => ChannelPool._placeholder ch end
  end.

Definition conn_count (ret : Z) (s : reader) : reader := (on_stats (with_received ret) s.1.1, s.1.2, s.2).

Definition conn_deliver (m : memory) (s : reader) (packet : DirectPacket) : option reader :=
  let '(c, largest, shown) := s in
  let packetSizeInBuffer := ANET_DIRECT_PACKET_INFO_LEN + _msgSize (_directHeader packet) in
  let largest := if largest <? packetSizeInBuffer then packetSizeInBuffer else largest in
  '(_, c) ← handlePacket (inl (cleanupFlags packet)) c;
  Some (c, largest, shown ++ [(m, packet)]).

(** [readData]: [user] is the memory of the user, [shown] what the handlers
    were shown. *)
Definition conn_readData (user : memory) (shown : list (memory * DirectPacket)) (sock : stream) (d : DirectTCPConnection)
  : option (bool * DirectTCPConnection * memory * list (memory * DirectPacket) * stream) :=
  let t := dtcp d in
  '(ok, st) ← direct_readData alloc_ok (existPacketHeader (cfg (dconn d))) conn_placeholder conn_count conn_deliver DIRECT_READ_WRITE_SIZE
                (mkReading (_input t) (directContext d) user sock 0 0 (_inputBufferSpaceAllocated t) (dconn d, _maxRecvPacketSize t, shown));
  let '(c, largest, shown) := r_state st in
  let t := with_maxRecv largest (with_conn c (with_input (r_input st) (streaming (r_context st)) t)) in
  let t := mkTcp (tconn t) (_output t) (_input t) (_context t) (_writeFinishClose t) (_writeFinishShutdown t) (r_allocated st) (_outputBufferSpaceAllocated t) (_maxRecvPacketSize t) (_maxSendPacketSize t) (_readWriteBufSize t) in
  Some (ok, mkDirectTcp t (_payloadCompleted (r_context st)) (_payloadReadOffset (r_context st)) (_payloadLeftToWrite d) (_writingPayload d) (_writingPacket d),
        r_memory st, shown, r_socket st).

End Direct.

(** [writeData], called again and again until it fails. *)
Fixpoint direct_writes (alloc_ok : Z -> bool) (spaceUsed : DirectPacket -> Z) (calls : list (Z * list (Z + Z))) (d : DirectTCPConnection)
  : option (bool * DirectTCPConnection) :=
  match calls with
  | [] => Some (true, d)
  | (now, writes) :: calls =>
      '(ok, d) ← direct_writeData alloc_ok spaceUsed now writes d;
      if ok : bool then direct_writes alloc_ok spaceUsed calls d else Some (false, d)
  end.

(** [Connection::resetContext], when the socket has connected again; [reset]
    is virtual. *)
Definition direct_resetContext (d : DirectTCPConnection) : DirectTCPConnection :=
  let t := resetContext (dtcp d) in
  let c := direct_reset (directContext d) in
  mkDirectTcp t (_payloadCompleted c) (_payloadReadOffset c) (_payloadLeftToWrite d) (_writingPayload d) (_writingPacket d).

(** ** The invariant while a packet is written *)

#[global] Instance DirectPacket_channel alloc_ok : @ChannelPacket DirectPacket (DirectPacket_IPacket alloc_ok).
Proof.
  refine (@Build_ChannelPacket DirectPacket (DirectPacket_IPacket alloc_ok) (2 ^ 32) _ _ _); [lia| |].
  - intros id p Hid. destruct (@setChannelId_ok _ _ (DefaultPacket_channel alloc_ok) id (direct_default p) Hid) as (q & E & Hg & He & Hc).
    exists (with_default q p). cbn [setChannelId DirectPacket_IPacket]. rewrite E. by split_and!.
  - intros p b ok p' b' E. cbn in E. apply bind_Some_inv in E as ([[ok1 q] o] & Ee & [= <- <- <-]).
    exact (@encode_keeps _ _ (DefaultPacket_channel alloc_ok) _ _ _ _ _ Ee).
Defined.

Section Writing.

Context (alloc_ok : Z -> bool).
Context (spaceUsed : DirectPacket -> Z).

#[local] Hint Extern 0 (IPacket DirectPacket) => exact (DirectPacket_IPacket alloc_ok) : typeclass_instances.
#[local] Hint Extern 0 (IPacketBase DirectPacket) => exact (DirectPacket_Base alloc_ok) : typeclass_instances.

Implicit Types (d : DirectTCPConnection) (c : Connection DirectPacket) (F W D Q M T : list ptr) (p q : DirectPacket) (ps : list DirectPacket).

(** A packet that is being written still counts. *)
Definition settled d : Connection DirectPacket :=
  match _writingPacket d with None => dconn d | Some (_, p) => updateQueueStatus spaceUsed p false (dconn d) end.

(** [r] is what is left of a payload. *)
Definition rest d (r : list Z) : Prop :=
  _payloadLeftToWrite d = Z.of_nat (length r) /\
  match r with
  | [] => _writingPacket d = None /\ _writingPayload d = kEmptyPayload
  | _ => is_Some (_writingPacket d) /\ exists l, payload_addr (_writingPayload d) = Some l /\ payload_len (_writingPayload d) <= Z.of_nat (length l) /\
           payload_len (_writingPayload d) < 2 ^ 31 /\ r = drop (Z.to_nat (payload_len (_writingPayload d)) - length r) (take (Z.to_nat (payload_len (_writingPayload d))) l)
  end.

Definition all_direct_ok d : Prop := forall x p, packets (dconn d) !! x = Some p -> direct_ok p.

Record wstate d F W D Q M (out r : list Z) : Prop := {
  ws_conn : conn_inv (settled d) F W D Q M [];
  ws_out : rep (_output (dtcp d)) out;
  ws_len : Z.of_nat (length out) <= 2 ^ 23;
  ws_rest : rest d r;
  ws_ok : all_direct_ok d;
  ws_hdr : existPacketHeader (cfg (dconn d)) = true
}.

(** The placeholder is put in the channel of the packet. *)
Lemma placeholder_ok c F W D Q M x T p :
  conn_inv c F W D Q M (x :: T) -> packets c !! x = Some p ->
  exists h, set_channel_placeholder p (heap (_channelPool c)) = Some h /\
    conn_inv (set_pool (with_heap (_channelPool c) h) c) F W D Q M (x :: T).
Proof.
  intros Hi Hx. unfold set_channel_placeholder. pose proof Hi as [Hc Hq Hl Hlim].
  assert (Hsame : conn_inv (set_pool (with_heap (_channelPool c) (heap (_channelPool c))) c) F W D Q M (x :: T)).
  { eapply same_view_inv; [|exact Hi]. split_and!; try done. by destruct (_channelPool c). }
  destruct (_channel (base_of p)) as [y|] eqn:Hy; [|eauto]. destruct (_hasPlaceholder p); [|eauto].
  unfold linked in Hl. destruct (_isServer (cfg c)) eqn:Hs.
  - destruct Hl as (_ & _ & Hl). specialize (Hl x ltac:(clear; set_solver)). unfold channel_of in Hl. rewrite Hx in Hl. cbn in Hl. unfold base_of in Hy. congruence.
  - destruct (linked_take c Q M T x p D Hl Hx (nodup_released _ _ _ _ _ Hq)) as (z & D' & Hz & HP & _).
    change (_channel (base p)) with (_channel (base_of p)) in Hz. rewrite Hy in Hz. injection Hz as <-.
    destruct (setup_inj _ _ _ _ y (setPlaceholder (_placeholder p)) (ch_pool _ _ _ _ Hc)) as (o & h & Ho & -> & Hhy & Hne & _ & Hpool); [rewrite HP; clear; set_solver|by intros ?|].
    exists h. split; [done|].
    assert (Hface : forall z, face <$> h !! z = face <$> heap (_channelPool c) !! z).
    { intros z. destruct (decide (z = y)) as [->|Hn]; [by rewrite Hhy, Ho|by rewrite Hne]. }
    split; [|destruct Hq; by split|unfold linked; cbn [set_pool cfg]; by rewrite Hs|done].
    eapply (chan_inv_next c _ F F W W D D []); [exact Hc|done|done|exact Hpool|done| | | |done|by rewrite app_nil_r].
    + intros z _. apply Hface.
    + intros z Hz. cbn [set_pool _channelPool with_heap heap]. unfold expire. destruct (decide (z = y)) as [->|Hn]; [|rewrite Hne by done; by apply (ch_max _ _ _ _ Hc)].
      rewrite Hhy. pose proof (ch_max _ _ _ _ Hc y Hz) as Hm. unfold expire in Hm. by rewrite Ho in Hm.
    + intros z Hz. by apply (waiting_owes _ _ _ _ _ Hc).
Qed.

(** [direct_send_channel] is [send_channel] for the time-out the channel has. *)
Lemma direct_send_channel_eq p c :
  exists q, direct_send_channel alloc_ok p c = send_channel q c /\ _channel (base q) = _channel (base p) /\
    Packet._expireTime (base q) = Packet._expireTime (base p).
Proof.
  unfold direct_send_channel. destruct (_channel (base p)) as [y|] eqn:Hy; [|exists p; unfold send_channel; by rewrite Hy].
  destruct (heap (_channelPool c) !! y) as [ch|] eqn:Hch; [|exists p; unfold send_channel; by rewrite Hy, Hch].
  exists (upd_base (fun b => mkPacket (_packetHeader b) (Packet._expireTime b) (ChannelPool._timeoutMs ch) (_channel b) (_packetDequeueCB b)) p).
  split; [|by rewrite base_upd, <- Hy]. unfold send_channel. rewrite !base_upd. cbn [_channel Packet._expireTime Packet._timeoutMs]. rewrite Hy, Hch. cbn [mbind option_bind].
  destruct (effective _ ch); [|done]. unfold upd. rewrite Hch. cbn [mbind option_bind]. rewrite lookup_insert_eq. cbn [mbind option_bind].
  rewrite insert_insert_eq. by destruct ch.
Qed.

Lemma send_channel_trace p c c' : send_channel p c = Some c' -> trace c' = trace c /\ packets c' = packets c /\ cfg c' = cfg c.
Proof.
  unfold send_channel. destruct (_channel (base p)); [|by intros [= <-]]. intros (ch & _ & E)%bind_Some_inv. destruct (effective _ ch).
  - repeat (apply bind_Some_inv in E as (? & _ & E)). by injection E as <-.
  - apply bind_Some_inv in E as ([? pool] & _ & [= <-]). done.
Qed.

Lemma direct_sent_ok c F W D Q M x T p0 p :
  conn_inv c F W D Q M (x :: T) -> packets c !! x = Some p0 ->
  _channel (base p) = _channel (base p0) -> Packet._expireTime (base p) = Packet._expireTime (base p0) ->
  exists c' F' W' D', direct_send_channel alloc_ok p c = Some c' /\ conn_inv (updateQueueStatus spaceUsed p false (take_packet x c')) F' W' D' Q M T /\
    trace c' = trace c /\ packets c' = packets c /\ cfg c' = cfg c.
Proof.
  intros Hi Hx Hch Hexp. destruct (direct_send_channel_eq p c) as (q & -> & Hqc & Hqe).
  destruct (sent_packet_ok spaceUsed c F W D Q M T x p0 q Hi Hx) as (c2 & F' & W' & D' & E & Hi2 & _); [by rewrite Hqc|by rewrite Hqe|].
  unfold sent_packet in E. apply bind_Some_inv in E as (c1 & E1 & [= <-]). rewrite E1. exists c1, F', W', D'. split; [done|].
  split; [|by eapply send_channel_trace]. eapply same_view_inv; [|exact Hi2].
  destruct (invokeDequeueCB _); split_and!; try done; cbn [drop_packet emit updateQueueStatus take_packet set_counts trace];
    rewrite ?asked_app, ?answers_app; by rewrite !app_nil_r.
Qed.

(** What was written: the packets taken from the queue, and the bytes.  They
    are followed by what is in the buffer and what is left of a payload. *)
Definition wrote d d' M M' (out r out' r' : list Z) : Prop :=
  exists M1 ps s, M = M1 ++ M' /\ packets_at (packets (dconn d)) M1 ps /\
    (forall x p, packets (dconn d') !! x = Some p -> packets (dconn d) !! x = Some p) /\
    sent_bytes (trace (dconn d')) = sent_bytes (trace (dconn d)) ++ s /\ s ++ out' ++ r' = out ++ r ++ concat (direct_frame <$> ps).

Lemma wrote_refl d M (out r : list Z) : wrote d d M M out r out r.
Proof. exists [], [], []. cbn. rewrite !app_nil_r. split_and!; try done. constructor. Qed.

Lemma wrote_trans d d1 d2 M M1 M2 (out r out1 r1 out2 r2 : list Z) :
  wrote d d1 M M1 out r out1 r1 -> wrote d1 d2 M1 M2 out1 r1 out2 r2 -> wrote d d2 M M2 out r out2 r2.
Proof.
  intros (N1 & ps1 & s1 & -> & A1 & B1 & C1 & E1) (N2 & ps2 & s2 & -> & A2 & B2 & C2 & E2). exists (N1 ++ N2), (ps1 ++ ps2), (s1 ++ s2).
  split; [by rewrite app_assoc|]. split; [|split; [|split]].
  - apply Forall2_app; [done|]. eapply Forall2_impl; [exact A2|]. intros x p. apply B1.
  - intros x p Hx. by apply B1, B2.
  - by rewrite C2, C1, app_assoc.
  - rewrite fmap_app, concat_app, <- app_assoc, E2, (app_assoc out1), (app_assoc s1), E1. by rewrite <- !app_assoc.
Qed.

(** Bytes go out. *)
Lemma wrote_bytes d d' M (out r out' r' s : list Z) :
  packets (dconn d') = packets (dconn d) -> sent_bytes (trace (dconn d')) = sent_bytes (trace (dconn d)) ++ s -> s ++ out' ++ r' = out ++ r ->
  wrote d d' M M out r out' r'.
Proof. intros Ep Es E. exists [], [], s. cbn. rewrite app_nil_r, Ep. split_and!; try done. constructor. Qed.

Lemma bytes_left l p : direct_ok p -> payload_addr (_payload p) = Some l -> payload_bytes p = take (Z.to_nat (payload_len (_payload p))) l /\
  payload_len (_payload p) <= Z.of_nat (length l) /\ payload_len (_payload p) < 2 ^ 31.
Proof.
  intros Hok Hl. destruct Hok as [_ _ _ Hpay Hsize _]. unfold payload_bytes in *. rewrite Hl in *. rewrite length_take in *. split; [done|lia].
Qed.

(** The next packet: its frame is in the buffer but for a long payload. *)
Lemma encode_next_ok d F W D Q x M (out : list Z) :
  wstate d F W D Q (x :: M) out [] -> Z.of_nat (length out) < DIRECT_READ_WRITE_SIZE ->
  exists p d' F' W' D', encode_next alloc_ok d = Some d' /\ packets (dconn d) !! x = Some p /\ direct_ok p /\ conn_inv (settled d') F' W' D' Q M [] /\
    rep (_output (dtcp d')) (out ++ info_bytes p ++ body_bytes p ++ inline_payload p) /\ is_Some (_writingPacket d') /\
    _payloadLeftToWrite d' = (if payload_len (_payload p) <? DIRECT_WRITE_PAYLOAD_THRESHOLD then 0 else payload_len (_payload p)) /\
    _writingPayload d' = (if payload_len (_payload p) <? DIRECT_WRITE_PAYLOAD_THRESHOLD then kEmptyPayload else _payload p) /\
    packets (dconn d') = delete x (packets (dconn d)) /\ cfg (dconn d') = cfg (dconn d) /\ sent_bytes (trace (dconn d')) = sent_bytes (trace (dconn d)).
Proof.
  intros [Hi R Hlen [Hleft [Hwp Hpay]] Hall Hh] Hlt. unfold settled in Hi. rewrite Hwp in Hi. unfold dconn in *.
  destruct (pop_conn _ _ _ _ _ _ _ Hi) as (q & p & Ep & Hp & Hi1). pose proof (Hall x p Hp) as Hok.
  destruct (placeholder_ok _ _ _ _ _ _ _ _ _ Hi1 Hp) as (h & Eh & Hi2). cbn [set_queues _channelPool] in Eh.
  destruct (direct_encode_ok alloc_ok p (_output (dtcp d)) out (_writingPayload d) (heap (_channelPool (tconn (dtcp d)))) h Hok R) as (p' & b' & Ee & R' & Hp'); [|done|].
  { destruct Hok as [_ _ Hb _ _ _]. unfold DIRECT_READ_WRITE_SIZE, READ_WRITE_SIZE, DIRECT_WRITE_PAYLOAD_THRESHOLD, FRAME_MAX in *. lia. }
  unfold encode_next. rewrite Ep. cbn [mbind option_bind]. rewrite Hp. cbn [mbind option_bind]. rewrite Hh, Ee. cbn [mbind option_bind]. rewrite Hpay.
  set (pay := if payload_len (_payload p) <? DIRECT_WRITE_PAYLOAD_THRESHOLD then kEmptyPayload else _payload p).
  assert (El : forall A (f : Z -> option A), (left ← (match payload_addr pay with
       | Some _ => if 0 <? payload_len pay then _ ← assertb (_payloadLeftToWrite d =? 0); Some (payload_len pay) else Some (_payloadLeftToWrite d)
       | None => Some (_payloadLeftToWrite d) end); f left) =
      f (if payload_len (_payload p) <? DIRECT_WRITE_PAYLOAD_THRESHOLD then 0 else payload_len (_payload p))).
  { intros A f. cbn [length] in Hleft. unfold pay. rewrite Hleft. destruct (Z.ltb_spec (payload_len (_payload p)) DIRECT_WRITE_PAYLOAD_THRESHOLD) as [Hs|Hs]; [done|].
    unfold DIRECT_WRITE_PAYLOAD_THRESHOLD in Hs. destruct Hok as [_ _ _ Hpl _ _]. unfold payload_bytes in Hpl. destruct (payload_addr (_payload p)); [|cbn in Hpl; lia].
    rewrite (proj2 (Z.ltb_lt 0 _)) by lia. done. }
  rewrite El. clear El.
  destruct (direct_sent_ok _ F W D Q M x [] p p' Hi2 Hp) as (c' & F' & W' & D' & Es & Hi3 & Et & Epk & Ec); [by rewrite Hp'|by rewrite Hp'|].
  change (_channelPool (set_queues _ _ _ ?c)) with (_channelPool c) in Es.
  rewrite Es. cbn [mbind option_bind]. eexists p, _, F', W', D'. split; [reflexivity|]. split; [done|]. split; [done|]. split; [exact Hi3|].
  split; [cbn [dtcp with_writing with_tcp]; case_bool; exact R'|]. split; [by eexists|]. split; [done|]. split; [done|].
  cbn. rewrite Epk, Ec, Et. done.
Qed.

Lemma sent_emit e c : sent_bytes [e] = [] -> sent_bytes (trace (emit e c)) = sent_bytes (trace c).
Proof. intros H. cbn [emit trace]. by rewrite sent_bytes_app, H, app_nil_r. Qed.

(** The packet is written. *)
Lemma finishPacketWrite_ok d F W D Q M :
  conn_inv (settled d) F W D Q M [] -> is_Some (_writingPacket d) -> _payloadLeftToWrite d = 0 ->
  exists d', finishPacketWrite alloc_ok spaceUsed d = Some d' /\ conn_inv (settled d') F W D Q M [] /\ _output (dtcp d') = _output (dtcp d) /\
    rest d' [] /\ packets (dconn d') = packets (dconn d) /\ cfg (dconn d') = cfg (dconn d) /\ sent_bytes (trace (dconn d')) = sent_bytes (trace (dconn d)).
Proof.
  intros Hi [[x p] Hw] Hl. unfold settled in Hi. unfold finishPacketWrite. rewrite Hl, Hw. cbn [assertb mbind option_bind].
  rewrite Hw in Hi. unfold clearWritingPacket.
  set (d1 := on_dconn (updateQueueStatus spaceUsed p false) d) in *. change (updateQueueStatus spaceUsed p false (dconn d)) with (dconn d1) in Hi.
  set (d2 := match invokeDequeueCB (base p) with Some _ => _ | None => _ end).
  assert (H2 : same_view (dconn d1) (dconn d2) /\ _writingPacket d2 = Some (x, p) /\ _output (dtcp d2) = _output (dtcp d) /\ packets (dconn d2) = packets (dconn d) /\
      cfg (dconn d2) = cfg (dconn d) /\ sent_bytes (trace (dconn d2)) = sent_bytes (trace (dconn d))).
  { unfold d2. destruct (invokeDequeueCB (base p)) as [cb|]; [|split; [apply same_view_refl|by split_and!]].
    split; [by apply emit_view|]. split_and!; try done. exact (sent_emit (EvDequeue cb) (dconn d1) eq_refl). }
  destruct H2 as (Hv & -> & Ho & Hpk & Hc & Hs). eexists. split; [reflexivity|]. split; [|split; [exact Ho|split; [by split|split; [exact Hpk|split; [exact Hc|]]]]].
  - unfold settled. cbn [_writingPacket with_writing]. eapply same_view_inv; [|exact Hi]. eapply same_view_trans; [exact Hv|].
    apply (emit_view (EvFree x) (dconn d2) eq_refl eq_refl).
  - rewrite <- Hs. exact (sent_emit (EvFree x) (dconn d2) eq_refl).
Qed.

Lemma socket_write_range len writes : 0 <= len -> exists ret err rest, socket_write len writes = (ret, err, rest) /\ ret <= len.
Proof. clear alloc_ok spaceUsed. intros Hl. unfold socket_write. destruct (next_write writes) as [[k|e] ws]; do 3 eexists; (split; [done|]); lia. Qed.

Lemma rest_same d d' r :
  _payloadLeftToWrite d' = _payloadLeftToWrite d -> _writingPayload d' = _writingPayload d -> _writingPacket d' = _writingPacket d -> rest d r -> rest d' r.
Proof. unfold rest. by intros -> -> ->. Qed.

Lemma sent_event_view (ret : Z) (bytes : list Z) c : same_view c (on_stats (with_sent ret) (emit (EvSent bytes) c)).
Proof using alloc_ok. exact (emit_view (EvSent bytes) c eq_refl eq_refl). Qed.

Lemma settled_view d d' : same_view (dconn d) (dconn d') -> _writingPacket d' = _writingPacket d -> same_view (settled d) (settled d').
Proof.
  intros Hv E. unfold settled. rewrite E. destruct (_writingPacket d) as [[x p]|]; [|done].
  destruct Hv as (E1 & E2 & E3 & E4 & E5 & E6 & E7 & E8 & E9 & E10). split_and!; try done. cbn. by rewrite E8.
Qed.

Lemma sendBuffer_ok w F W D Q M (out r : list Z) :
  wstate (w_conn w) F W D Q M out r ->
  exists w' (out' : list Z), sendBuffer w = Some w' /\ wstate (w_conn w') F W D Q M out' r /\ wrote (w_conn w) (w_conn w') M M out r out' r /\
    w_cnt w' = w_cnt w + 1 /\ w_queue w' = w_queue w /\ _writingPacket (w_conn w') = _writingPacket (w_conn w).
Proof.
  intros [Hi R Hlen Hr Hok Hh]. unfold sendBuffer. rewrite (rep_getDataLen _ _ R).
  destruct (socket_write_range (Z.of_nat (length out)) (w_socket w)) as (ret & err & ws & -> & Hret); [lia|].
  destruct (Z.ltb_spec 0 ret).
  - rewrite (rep_peekBytes _ _ _ R) by lia. cbn [mbind option_bind]. eexists _, (drop (Z.to_nat ret) out). split; [reflexivity|]. split; [|split; [|done]].
    + split; cbn [w_conn]; [|apply (rep_drainData _ _ ret) in R; [exact R|lia]|rewrite length_drop; lia|by eapply rest_same|exact Hok|exact Hh].
      eapply same_view_inv; [apply settled_view|exact Hi]; [|done]. apply sent_event_view.
    + apply (wrote_bytes _ _ _ _ _ _ _ (take (Z.to_nat ret) out)); [done| |by rewrite app_assoc, take_drop].
      etransitivity; [exact (sent_bytes_app (trace (dconn (w_conn w))) [EvSent (take (Z.to_nat ret) out)])|]. cbn. by rewrite app_nil_r.
  - eexists _, out. split; [reflexivity|]. split; [by split|]. split; [apply wrote_refl|done].
Qed.

Lemma rest_some d (r : list Z) : r <> [] ->
  rest d r <-> _payloadLeftToWrite d = Z.of_nat (length r) /\ is_Some (_writingPacket d) /\
    exists l, payload_addr (_writingPayload d) = Some l /\ payload_len (_writingPayload d) <= Z.of_nat (length l) /\
      payload_len (_writingPayload d) < 2 ^ 31 /\ r = drop (Z.to_nat (payload_len (_writingPayload d)) - length r) (take (Z.to_nat (payload_len (_writingPayload d))) l).
Proof. by destruct r. Qed.

(** A part of the payload goes out, or the last of it. *)
Lemma sendPayload_ok w F W D Q M (r : list Z) :
  wstate (w_conn w) F W D Q M [] r -> r <> [] ->
  exists w' (r' : list Z), (w' ← sendPayload w; if _payloadLeftToWrite (w_conn w') =? 0 then on_w (finishPacketWrite alloc_ok spaceUsed) w' else Some w') = Some w' /\
    wstate (w_conn w') F W D Q M [] r' /\ wrote (w_conn w) (w_conn w') M M [] r [] r' /\ w_cnt w' = w_cnt w + 1 /\ w_queue w' = w_queue w.
Proof.
  intros [Hi R Hlen Hr Hok Hh] Hne. assert (Hrl : (0 < length r)%nat) by (destruct r; [done|cbn; lia]).
  apply (rest_some _ _ Hne) in Hr as Hr'. destruct Hr' as (Hleft & [xp Hxp] & l & Hl & Hll & Hlen31 & Er). set (n := payload_len (_writingPayload (w_conn w))) in *.
  assert (Hrn : Z.of_nat (length r) <= n) by (rewrite Er, length_drop, length_take in Hrl |- *; lia).
  unfold sendPayload. rewrite Hleft, Hxp, Hl, assertb_true by (apply Z.ltb_lt; lia). cbn [mbind option_bind]. fold n.
  destruct (socket_write_range (Z.of_nat (length r)) (w_socket w)) as (ret & err & ws & -> & Hret); [lia|].
  destruct (Z.ltb_spec 0 ret).
  - rewrite assertb_true by (apply Z.leb_le; lia). cbn [mbind option_bind].
    set (a := Z.to_nat (n - Z.of_nat (length r))).
    assert (Er' : r = take (length r) (drop a l)).
    { rewrite take_drop_commute. rewrite Er at 1. unfold a. f_equal; [lia|]. f_equal. lia. }
    assert (Eb : take (Z.to_nat ret) (drop a l) = take (Z.to_nat ret) r) by (rewrite Er', take_take; f_equal; lia).
    rewrite Eb. cbn [w_conn _payloadLeftToWrite with_writing on_dconn with_tcp _writingPayload _writingPacket]. rewrite Hleft, wrapu_small by lia.
    set (r' := drop (Z.to_nat ret) r). assert (Hlr' : Z.of_nat (length r) - ret = Z.of_nat (length r')) by (unfold r'; rewrite length_drop; lia). rewrite Hlr'.
    set (d1 := with_writing (Z.of_nat (length r')) _ _ _).
    assert (Hi1 : conn_inv (settled d1) F W D Q M []).
    { eapply same_view_inv; [apply (settled_view (w_conn w) d1)|exact Hi]; [|done]. apply sent_event_view. }
    assert (Hs1 : sent_bytes (trace (dconn d1)) = sent_bytes (trace (dconn (w_conn w))) ++ take (Z.to_nat ret) r).
    { change (trace (dconn d1)) with (trace (dconn (w_conn w)) ++ [EvSent (take (Z.to_nat ret) r)]). rewrite sent_bytes_app. cbn. by rewrite app_nil_r. }
    destruct (Z.eqb_spec (Z.of_nat (length r')) 0) as [E0|E0].
    + assert (Hr0 : r' = []) by (destruct r'; [done|cbn in E0; lia]). destruct (finishPacketWrite_ok d1 F W D Q M Hi1) as (d2 & Ef & Hi2 & Ho & Hrest & Hpk & Hc & Hs); [by eexists|exact E0|].
      unfold on_w. cbn [w_conn]. rewrite Ef. cbn [mbind option_bind]. eexists _, []. split; [reflexivity|]. cbn [w_conn w_cnt w_queue]. split; [|split; [|done]].
      * split; [exact Hi2|by rewrite Ho|done|done| |by rewrite Hc]. intros x p. rewrite Hpk. apply Hok.
      * apply (wrote_bytes _ _ _ _ _ _ _ (take (Z.to_nat ret) r)); [by rewrite Hpk|by rewrite Hs|]. fold r' in Hr0. rewrite <- (take_drop (Z.to_nat ret) r) at 2. fold r'. by rewrite Hr0.
    + eexists _, r'. split; [reflexivity|]. cbn [w_conn w_cnt w_queue]. split; [|split; [|done]].
      * split; [exact Hi1|exact R|done| |exact Hok|exact Hh].
        apply rest_some; [intros Hr0; by rewrite Hr0 in E0|]. split; [done|]. split; [by eexists|]. exists l. cbn. fold n. split; [done|]. split; [done|]. split; [done|].
        unfold r' at 1. rewrite Er at 1. rewrite drop_drop. f_equal. lia.
      * apply (wrote_bytes _ _ _ _ _ _ _ (take (Z.to_nat ret) r)); [done|exact Hs1|]. unfold r'. by rewrite !app_nil_l, take_drop.
  - cbn [mbind option_bind w_conn]. rewrite Hleft, (proj2 (Z.eqb_neq _ 0)) by lia. eexists _, r. split; [reflexivity|]. cbn [w_conn w_cnt w_queue]. split; [|split; [apply wrote_refl|done]].
    by split.
Qed.

Lemma continue_payload_ok w F W D Q M (out r : list Z) :
  wstate (w_conn w) F W D Q M out r -> r <> [] ->
  exists w' (out' r' : list Z), continue_payload alloc_ok spaceUsed w = Some w' /\ wstate (w_conn w') F W D Q M out' r' /\
    wrote (w_conn w) (w_conn w') M M out r out' r' /\ w_cnt w < w_cnt w' /\ w_queue w' = w_queue w.
Proof.
  intros Hw Hne. unfold continue_payload. rewrite (rep_getDataLen _ _ (ws_out _ _ _ _ _ _ _ _ Hw)). destruct (Z.ltb_spec 0 (Z.of_nat (length out))) as [Ho|Ho].
  - destruct (sendBuffer_ok w F W D Q M out r Hw) as (w1 & out1 & -> & Hw1 & Hwr1 & Hc1 & Hq1 & _). cbn [mbind option_bind].
    rewrite (rep_getDataLen _ _ (ws_out _ _ _ _ _ _ _ _ Hw1)). destruct (Z.ltb_spec 0 (Z.of_nat (length out1))) as [Ho1|Ho1].
    + exists w1, out1, r. split_and!; try done. lia.
    + assert (out1 = []) as -> by (destruct out1; [done|cbn in Ho1; lia]). destruct (sendPayload_ok w1 F W D Q M r Hw1 Hne) as (w2 & r2 & -> & Hw2 & Hwr2 & Hc2 & Hq2).
      exists w2, [], r2. split; [done|]. split; [done|]. split; [by eapply wrote_trans|]. split; [lia|congruence].
  - assert (out = []) as -> by (destruct out; [done|cbn in Ho; lia]). cbn [mbind option_bind].
    rewrite (rep_getDataLen _ _ (ws_out _ _ _ _ _ _ _ _ Hw)). cbn [length Z.of_nat Z.ltb Z.compare].
    destruct (sendPayload_ok w F W D Q M r Hw Hne) as (w2 & r2 & -> & Hw2 & Hwr2 & Hc2 & Hq2). exists w2, [], r2. split_and!; try done. lia.
Qed.

(** A taken packet, as the phases of the writer see it. *)
Lemma wrote_one d d' x p M (out out' r' : list Z) :
  packets (dconn d) !! x = Some p -> packets (dconn d') = delete x (packets (dconn d)) ->
  sent_bytes (trace (dconn d')) = sent_bytes (trace (dconn d)) -> out' ++ r' = out ++ direct_frame p -> wrote d d' (x :: M) M out [] out' r'.
Proof.
  intros Hp Hpk Hs E. exists [x], [p], []. split; [done|]. split; [by constructor|]. split; [|split].
  - intros y q. rewrite Hpk, lookup_delete_Some. by intros [_ ?].
  - by rewrite Hs, app_nil_r.
  - cbn. by rewrite app_nil_r.
Qed.

Lemma encoded_ok d F W D Q x M (out : list Z) :
  wstate d F W D Q (x :: M) out [] -> Z.of_nat (length out) < DIRECT_READ_WRITE_SIZE ->
  exists d' F' W' D', encode_next alloc_ok d = Some d' /\
    ((_payloadLeftToWrite d' = 0 /\ exists d'' (out' : list Z), finishPacketWrite alloc_ok spaceUsed d' = Some d'' /\ wstate d'' F' W' D' Q M out' [] /\ wrote d d'' (x :: M) M out [] out' []) \/
     (0 < _payloadLeftToWrite d' /\ exists (out' r' : list Z), r' <> [] /\ wstate d' F' W' D' Q M out' r' /\ wrote d d' (x :: M) M out [] out' r')).
Proof.
  intros Hw Hlt. destruct (encode_next_ok d F W D Q x M out Hw Hlt) as (p & d' & F' & W' & D' & E & Hp & Hok & Hi & R & Hwp & Hl & Hpay & Hpk & Hc & Hs).
  exists d', F', W', D'. split; [done|]. pose proof Hw as [_ _ _ _ Hall Hh].
  assert (Hall' : all_direct_ok d') by (intros y q; rewrite Hpk, lookup_delete_Some; intros [_ Hy]; by eapply Hall).
  assert (Hlen : Z.of_nat (length (out ++ info_bytes p ++ body_bytes p ++ inline_payload p)) <= 2 ^ 23).
  { unfold inline_payload. destruct Hok as [_ _ Hb Hpl _ _]. rewrite !length_app, info_bytes_length. unfold DIRECT_READ_WRITE_SIZE, READ_WRITE_SIZE, DIRECT_WRITE_PAYLOAD_THRESHOLD in *. case_bool; cbn [length]; lia. }
  unfold inline_payload in *. destruct (Z.ltb_spec (payload_len (_payload p)) DIRECT_WRITE_PAYLOAD_THRESHOLD) as [Hsm|Hsm].
  - left. split; [done|]. destruct (finishPacketWrite_ok d' F' W' D' Q M Hi Hwp Hl) as (d2 & Ef & Hi2 & Ho & Hr & Hpk2 & Hc2 & Hs2).
    exists d2, (out ++ direct_frame p). split; [done|]. split; [split; [done|by rewrite Ho|done|done| |by rewrite Hc2, Hc]|].
    + intros y q. rewrite Hpk2. apply Hall'.
    + apply (wrote_one _ _ x p); [done|by rewrite Hpk2|by rewrite Hs2|by rewrite app_nil_r].
  - right. pose proof Hok as [_ _ _ Hpl Hsz _]. unfold DIRECT_WRITE_PAYLOAD_THRESHOLD in Hsm. split; [lia|].
    assert (Hne : payload_bytes p <> []) by (intros H0; rewrite H0 in Hpl; cbn in Hpl; lia).
    destruct (payload_addr (_payload p)) as [l|] eqn:Ea; [|unfold payload_bytes in Hne; by rewrite Ea in Hne].
    destruct (bytes_left l p Hok Ea) as (Eb & Hll & Hl31). rewrite app_nil_r in R. exists (out ++ info_bytes p ++ body_bytes p), (payload_bytes p). split; [done|].
    split; [split; [done|done|rewrite app_nil_r in Hlen; exact Hlen| |done|by rewrite Hc]|].
    + apply rest_some; [done|]. rewrite Hpay, Hl. split; [done|]. split; [done|]. exists l. do 3 (split; [done|]).
      assert (H0 : (Z.to_nat (payload_len (_payload p)) - length (payload_bytes p))%nat = 0%nat) by lia. rewrite H0, drop_0. exact Eb.
    + apply (wrote_one _ _ x p); [done..|]. unfold direct_frame. by rewrite <- !app_assoc.
Qed.

Lemma direct_fill_ok n : forall w F W D Q M (out r : list Z),
  wstate (w_conn w) F W D Q M out r -> length M = n ->
  exists w' F' W' D' M' (out' r' : list Z), direct_fill alloc_ok spaceUsed n w = Some w' /\ wstate (w_conn w') F' W' D' Q M' out' r' /\
    wrote (w_conn w) (w_conn w') M M' out r out' r' /\ w_queue w' = length M' /\ w_cnt w <= w_cnt w' /\ (w_cnt w < w_cnt w' \/ M' = [] \/ out' <> []).
Proof.
  induction n as [|n IH]; intros w F W D Q M out r Hw Hn; cbn [direct_fill]; rewrite (rep_getDataLen _ _ (ws_out _ _ _ _ _ _ _ _ Hw));
    pose proof (ws_rest _ _ _ _ _ _ _ _ Hw) as Hr; pose proof (proj1 Hr) as Hl; rewrite Hl.
  all: destruct (Z.ltb_spec (Z.of_nat (length out)) DIRECT_READ_WRITE_SIZE) as [Hlt|Hge];
    [|eexists _, F, W, D, M, out, r; split; [reflexivity|]; split; [exact Hw|]; split; [apply wrote_refl|]; split; [by rewrite Hn|]; split; [cbn; lia|];
      right; right; intros ->; cbn in Hge; unfold DIRECT_READ_WRITE_SIZE, READ_WRITE_SIZE in Hge; lia].
  all: destruct (Z.ltb_spec 0 (Z.of_nat (length r))) as [Hr0|Hr0].
  1, 3: assert (Hne : r <> []) by (intros ->; cbn in Hr0; lia); pose proof (proj1 (rest_some _ _ Hne) Hr) as (_ & [xp Hxp] & _); rewrite Hxp; cbn [mbind option_bind];
    match goal with |- context [continue_payload _ _ ?w0] => destruct (continue_payload_ok w0 F W D Q M out r Hw Hne) as (w' & out' & r' & -> & Hw' & Hwr & Hc & Hq) end;
    exists w', F, W, D, M, out', r'; cbn in Hq, Hc; split_and!; try done; [by rewrite Hq, Hn|lia|by left].
  - eexists _, F, W, D, M, out, r. split; [reflexivity|]. split; [exact Hw|]. split; [apply wrote_refl|]. split; [done|]. split; [cbn; lia|]. right; left. by destruct M.
  - assert (r = []) as -> by (destruct r; [done|cbn in Hr0; lia]). destruct M as [|x M]; [done|]. injection Hn as Hn.
    destruct (encoded_ok _ F W D Q x M out Hw Hlt) as (d1 & F1 & W1 & D1 & E1 & Hcase). unfold on_w. cbn [w_conn]. rewrite E1. cbn [mbind option_bind w_conn].
    destruct Hcase as [(E0 & d2 & out2 & Ef & Hw2 & Hwr2)|(Hpos & out2 & r2 & Hne2 & Hw2 & Hwr2)].
    + rewrite E0. cbn [Z.ltb Z.compare]. rewrite Ef. cbn [mbind option_bind].
      match goal with |- context [direct_fill _ _ n ?w0] => destruct (IH w0 F1 W1 D1 Q M out2 [] Hw2 Hn) as (w' & F' & W' & D' & M' & out' & r' & -> & Hw' & Hwr' & Hq & Hc & Hend) end.
      exists w', F', W', D', M', out', r'. split_and!; try done. by eapply wrote_trans.
    + rewrite (proj2 (Z.ltb_lt _ _) Hpos).
      match goal with |- context [continue_payload _ _ ?w0] => destruct (continue_payload_ok w0 F1 W1 D1 Q M out2 r2 Hw2 Hne2) as (w' & out' & r' & -> & Hw' & Hwr & Hc & Hq) end.
      cbn in Hq, Hc. exists w', F1, W1, D1, M, out', r'. split_and!; try done; [by eapply wrote_trans|by rewrite Hq|lia|by left].
Qed.

Lemma direct_write_rounds_ok fuel : forall w F W D Q M (out r : list Z),
  wstate (w_conn w) F W D Q M out r -> w_queue w = length M -> 10 - w_cnt w < Z.of_nat fuel -> (0 < fuel)%nat ->
  exists w' F' W' D' M' (out' r' : list Z), direct_write_rounds alloc_ok spaceUsed fuel w = Some w' /\ wstate (w_conn w') F' W' D' Q M' out' r' /\
    wrote (w_conn w) (w_conn w') M M' out r out' r'.
Proof.
  induction fuel as [|fuel IH]; intros w F W D Q M out r Hw Hq Hf Hf0; [lia|]. cbn [direct_write_rounds].
  destruct (direct_fill_ok (w_queue w) w F W D Q M out r Hw (eq_sym Hq)) as (w1 & F1 & W1 & D1 & M1 & out1 & r1 & -> & Hw1 & Hwr1 & Hq1 & Hc1 & Hend). cbn [mbind option_bind].
  rewrite (rep_getDataLen _ _ (ws_out _ _ _ _ _ _ _ _ Hw1)).
  assert (H2 : exists w2 (out2 : list Z), (if 0 <? Z.of_nat (length out1) then sendBuffer w1 else Some w1) = Some w2 /\ wstate (w_conn w2) F1 W1 D1 Q M1 out2 r1 /\
    wrote (w_conn w) (w_conn w2) M M1 out r out2 r1 /\ w_queue w2 = length M1 /\ (w_cnt w < w_cnt w2 \/ M1 = [])).
  { destruct (Z.ltb_spec 0 (Z.of_nat (length out1))) as [Ho|Ho].
    - destruct (sendBuffer_ok w1 F1 W1 D1 Q M1 out1 r1 Hw1) as (w2 & out2 & E2 & Hw2 & Hwr2 & Hc2 & Hq2 & _). exists w2, out2.
      split; [done|]. split; [done|]. split; [by eapply wrote_trans|]. split; [congruence|left; lia].
    - exists w1, out1. split_and!; try done. destruct Hend as [?|[?|Hne]]; [by left|by right|]. destruct out1; [done|cbn in Ho; lia]. }
  destruct H2 as (w2 & out2 & -> & Hw2 & Hwr2 & Hq2 & Hc2). cbn [mbind option_bind].
  destruct (_ && _ && _ && _ && _) eqn:Ego; [|by exists w2, F1, W1, D1, M1, out2, r1].
  bool_to_prop. rewrite Hq2 in *. destruct Hc2 as [Hc2| ->]; [|done].
  destruct (IH w2 F1 W1 D1 Q M1 out2 r1 Hw2 Hq2) as (w3 & F3 & W3 & D3 & M3 & out3 & r3 & E3 & Hw3 & Hwr3); [lia|lia|].
  exists w3, F3, W3, D3, M3, out3, r3. split; [done|]. split; [done|]. by eapply wrote_trans.
Qed.

Lemma wstate_same d d' F W D Q M (out r : list Z) :
  wstate d F W D Q M out r -> same_view (dconn d) (dconn d') -> _output (dtcp d') = _output (dtcp d) -> _payloadLeftToWrite d' = _payloadLeftToWrite d ->
  _writingPayload d' = _writingPayload d -> _writingPacket d' = _writingPacket d -> wstate d' F W D Q M out r.
Proof.
  intros [Hi R Hlen Hr Hok Hh] Hv Eo El Ep Ew. pose proof Hv as (Ec & Epk & _). split; [|by rewrite Eo|done|by eapply rest_same| |by rewrite Ec].
  - eapply same_view_inv; [by apply settled_view|done].
  - intros x p. rewrite Epk. apply Hok.
Qed.

(** The queues of a connection whose packet is being written. *)
Lemma settled_queues d h (q : PacketQueue) m : settled (on_dconn (fun _ => set_queues h q m (dconn d)) d) = set_queues h q m (settled d).
Proof. unfold settled. cbn [_writingPacket on_dconn with_tcp]. by destruct (_writingPacket d) as [[x p]|]. Qed.

Lemma settled_links d : links (settled d) = links (dconn d) /\ _outputQueue (settled d) = _outputQueue (dconn d) /\ _myQueue (settled d) = _myQueue (dconn d) /\
  packets (settled d) = packets (dconn d) /\ cfg (settled d) = cfg (dconn d).
Proof. unfold settled. by destruct (_writingPacket d) as [[x p]|]. Qed.

Lemma direct_write_finish_ok err d F W D M (out r : list Z) :
  wstate d F W D [] M out r ->
  exists b d', direct_write_finish err d = Some (b, d') /\ packets (dconn d') = packets (dconn d) /\ sent_bytes (trace (dconn d')) = sent_bytes (trace (dconn d)) /\
    if b : bool then wstate d' F W D M [] out r else rep (_output (dtcp d')) [].
Proof.
  intros Hw. pose proof Hw as [Hi R Hlen Hr Hok Hh]. destruct (moveBack_conn _ _ _ _ _ _ Hi) as (h & q & m & Q' & Em & _ & HQ & _ & Hi1). rewrite (HQ eq_refl) in Hi1.
  destruct (settled_links d) as (El & Eo & Ey & Epk & Ec). rewrite El, Eo, Ey in Em. unfold direct_write_finish. rewrite Em. cbn [mbind option_bind]. cbv zeta.
  set (d1 := on_dconn (fun _ => set_queues h q m (dconn d)) d). rewrite <- settled_queues in Hi1. fold d1 in Hi1.
  assert (Hw1 : wstate d1 F W D M [] out r) by (split; try done; by eapply rest_same).
  assert (Hs1 : sent_bytes (trace (dconn d1)) = sent_bytes (trace (dconn d))) by done.
  assert (Hemit : forall (e : event DirectPacket) c, same_view (dconn d1) c /\ sent_bytes (trace c) = sent_bytes (trace (dconn d)) ->
    asked (dflt_of c) [e] = [] -> answers [e] = [] -> sent_bytes [e] = [] ->
    same_view (dconn d1) (emit e c) /\ sent_bytes (trace (emit e c)) = sent_bytes (trace (dconn d))).
  { intros e c [Hv Hs] H1 H2 H3. split; [eapply same_view_trans; [exact Hv|by apply emit_view]|]. by rewrite sent_emit. }
  assert (H0 : same_view (dconn d1) (dconn d1) /\ sent_bytes (trace (dconn d1)) = sent_bytes (trace (dconn d))) by (split; [apply same_view_refl|done]).
  pose proof (Hemit (EvEnableWrite false) _ H0 eq_refl eq_refl eq_refl) as Hoff.
  assert (Hbr : forall (g : bool) c, same_view (dconn d1) c /\ sent_bytes (trace c) = sent_bytes (trace (dconn d)) ->
    same_view (dconn d1) (if g then emit EvBroadcast c else c) /\ sent_bytes (trace (if g then emit EvBroadcast c else c)) = sent_bytes (trace (dconn d))).
  { intros [] c [Hv Hs]; [|done]. by apply Hemit. }
  assert (Hdone : forall f : Connection DirectPacket -> Connection DirectPacket, same_view (dconn d1) (f (dconn d1)) /\ sent_bytes (trace (f (dconn d1))) = sent_bytes (trace (dconn d)) ->
    exists b d', Some (true, on_dconn f d1) = Some (b, d') /\ packets (dconn d') = packets (dconn d) /\ sent_bytes (trace (dconn d')) = sent_bytes (trace (dconn d)) /\
      if b : bool then wstate d' F W D M [] out r else rep (_output (dtcp d')) []).
  { intros f [Hv Hs]. exists true, (on_dconn f d1). split; [done|]. split; [exact (proj1 (proj2 Hv))|]. split; [exact Hs|]. by eapply wstate_same. }
  pose proof (rep_clear _ _ R) as Hcl. case_bool.
  - set (d2 := with_tcp _ d1). assert (E2 : exists d3, clearWritingPacket d2 = Some d3 /\ packets (dconn d3) = packets (dconn d) /\ sent_bytes (trace (dconn d3)) = sent_bytes (trace (dconn d)) /\
      _output (dtcp d3) = clear (_output (dtcp d))).
    { unfold clearWritingPacket. destruct (_writingPacket d2) as [[x p]|] eqn:E.
      - eexists. split; [reflexivity|]. split; [done|]. split; [exact (sent_emit (EvFree x) (dconn d1) eq_refl)|done].
      - exists d2. split; [|done]. destruct Hr as [Hl Hr]. destruct r; [|destruct Hr as [[? Hs] _]; change (_writingPacket d2) with (_writingPacket d) in E; congruence].
        change (_payloadLeftToWrite d2) with (_payloadLeftToWrite d). by rewrite Hl. }
    destruct E2 as (d3 & -> & E3 & E4 & E5). cbn [mbind option_bind]. exists false, d3. by rewrite E5.
  - case_bool; [exact (Hdone _ (Hbr _ _ H0))|]. case_bool; [exact (Hdone (fun c => emit EvShutdown (emit (EvEnableWrite false) c)) (Hemit EvShutdown _ Hoff eq_refl eq_refl eq_refl))|].
    case_bool; [eexists false, _; split; [reflexivity|]; by split_and!|]. refine (Hdone _ _); exact (Hbr _ _ Hoff).
Qed.

Lemma direct_writeData_ok now writes d F W D Q (out r : list Z) :
  wstate d F W D Q [] out r ->
  exists b d' Q' (out' r' : list Z), direct_writeData alloc_ok spaceUsed now writes d = Some (b, d') /\ wrote d d' Q Q' out r out' r' /\
    if b : bool then exists F' W' D', wstate d' F' W' D' Q' [] out' r' else rep (_output (dtcp d')) [].
Proof.
  intros Hw. pose proof Hw as [Hi R Hlen Hr Hok Hh]. destruct (moveTo_conn _ _ _ _ _ Hi) as (h & q & m & Em & Hsz & Hi1).
  destruct (settled_links d) as (El & Eo & Ey & Epk & Ec). rewrite El, Eo, Ey in Em. unfold direct_writeData. rewrite Em. cbn [mbind option_bind]. rewrite Hsz.
  set (d1 := on_dconn (fun _ => set_queues h q m (dconn d)) d). rewrite <- settled_queues in Hi1. fold d1 in Hi1.
  assert (Hw1 : wstate d1 F W D [] Q out r) by (split; try done; by eapply rest_same).
  rewrite (rep_getDataLen _ _ R), (proj1 Hr). case_bool.
  - bool_to_prop. assert (out = []) as -> by (destruct out; [done|cbn in *; lia]). assert (r = []) as -> by (destruct r; [done|cbn in *; lia]). destruct Q; [|cbn in *; lia].
    eexists true, _, [], [], []. split; [reflexivity|]. split; [apply (wrote_bytes _ _ _ _ _ _ _ []); [done| |done]|].
    + rewrite app_nil_r. exact (sent_emit (EvEnableWrite false) (dconn d1) eq_refl).
    + exists F, W, D. eapply (wstate_same d1); [exact Hw1| |done..]. by apply emit_view.
  - set (d2 := on_dconn (fun _ => set_lasttime _ _) d). assert (Hw2 : wstate d2 F W D [] Q out r) by (eapply (wstate_same d1); [exact Hw1| |done..]; by split_and!).
    assert (Hn : Z.to_nat (i32 (Z.of_nat (length Q))) = length Q).
    { pose proof (qi_bound _ _ _ _ (cv_queue _ _ _ _ _ _ _ Hi)) as Hbd. cbn [app] in Hbd. rewrite app_nil_r in Hbd. rewrite i32_small by (unfold INT_MIN, INT_MAX; lia). lia. }
    destruct (direct_write_rounds_ok 11 (mkWriting d2 0 0 0 (Z.to_nat (i32 (Z.of_nat (length Q)))) writes) F W D [] Q out r Hw2 Hn)
      as (w & F3 & W3 & D3 & M3 & out3 & r3 & -> & Hw3 & Hwr3); [cbn; lia|lia|]. cbn [mbind option_bind].
    destruct (direct_write_finish_ok (w_error w) (w_conn w) F3 W3 D3 M3 out3 r3 Hw3) as (b & d4 & -> & Hpk & Hs & Hfin).
    exists b, d4, M3, out3, r3. split; [done|]. split; [|destruct b; eauto].
    destruct Hwr3 as (M1 & ps & s & -> & A & B & C & E). exists M1, ps, s. cbn [w_conn] in *. split; [done|]. split; [exact A|]. split; [by rewrite Hpk|]. split; [by rewrite Hs|done].
Qed.

End Writing.
