(* ===== verification/DirectReplies.v ===== *)
(** * Frames between direct connections

    The properties of [writeData] and [readData] of a [DirectTCPConnection]:
    frames are sent in order and without loss, and a client that waits for
    replies with payloads gets them, each in its place.  The connection is
    the [Receiver] that the delivery of direct packets asks for. *)

From S2P Require Import Prelude DataBuffer PacketQueue Packet Streamer DefaultPacket ChannelPool Connection Framing TcpConnection Direct DirectDelivery DirectConnection.

(** ** Replies with payloads *)

Section Replies.

Context (alloc_ok : Z -> bool).
Context (places : Z -> positive).     (* by channel id *)

#[local] Hint Extern 0 (IPacket DirectPacket) => exact (DirectPacket_IPacket alloc_ok) : typeclass_instances.
#[local] Hint Extern 0 (IPacketBase DirectPacket) => exact (DirectPacket_Base alloc_ok) : typeclass_instances.

Implicit Types (c : Connection DirectPacket) (F W D Q : list ptr) (p q : DirectPacket) (ps : list DirectPacket).

(** A channel waits for [p]; if there is a payload, it has a placeholder of
    sufficient length. *)
Definition waits_for c p : Prop :=
  exists x ch, findChannel (_channelPool c) (chid_of p) = Some x /\ heap (_channelPool c) !! x = Some ch /\
    (payload_bytes p <> [] -> exists len, ChannelPool._placeholder ch = (Some (places (chid_of p)), len) /\ Z.of_nat (length (payload_bytes p)) <= i32 len).

Definition expects c ps : Prop :=
  (exists F W D Q, conn_inv c F W D Q [] []) /\ _isServer (cfg c) = false /\ existPacketHeader (cfg c) = true /\
  NoDup (chid_of <$> ps) /\ Forall (waits_for c) ps.

Lemma waits_same c c' p : _channelPool c' = _channelPool c -> waits_for c p -> waits_for c' p.
Proof. unfold waits_for. by intros ->. Qed.

(** The other channels still wait when one has its reply. *)
Lemma waits_other c c' F W1 x W2 D Q p q :
  conn_inv c F (W1 ++ x :: W2) D Q [] [] -> conn_inv c' (F ++ [x]) (W1 ++ W2) D Q [] [] ->
  same_core (heap (_channelPool c)) (heap (_channelPool c')) -> findChannel (_channelPool c) (chid_of p) = Some x ->
  chid_of q <> chid_of p -> waits_for c q -> waits_for c' q.
Proof.
  intros Hi Hi' Hs Hx Hne (y & ch & Hy & Hch & Hpl).
  pose proof (pi_map _ _ _ _ _ _ (ii_pool _ _ _ _ (ch_pool _ _ _ _ (cv_chan _ _ _ _ _ _ _ Hi)))) as Hm.
  pose proof (pi_map _ _ _ _ _ _ (ii_pool _ _ _ _ (ch_pool _ _ _ _ (cv_chan _ _ _ _ _ _ _ Hi')))) as Hm'.
  apply Hm in Hx as [_ Hidx]. apply Hm in Hy as [Hiny Hidy].
  pose proof (Hs y) as Hcy. rewrite Hch in Hcy. cbn in Hcy.
  destruct (heap (_channelPool c') !! y) as [ch'|] eqn:Hch'; [|done]. cbn in Hcy. unfold core in Hcy.
  exists y, ch'. split; [|split; [done|]].
  - apply Hm'. assert (Hyx : y <> x) by (intros ->; congruence). split.
    { rewrite elem_of_app in Hiny |- *. rewrite elem_of_cons in Hiny. clear -Hiny Hyx. naive_solver. }
   
    destruct (core_eq (heap (_channelPool c)) (heap (_channelPool c')) y (Hs y)) as [_ ->]. done.
  - intros Hb. destruct (Hpl Hb) as (len & Ep & Hlen). exists len. split; [|done]. congruence.
Qed.

Lemma wakeUpSender_pool c : _channelPool (wakeUpSender c) = _channelPool c.
Proof. unfold wakeUpSender. by repeat case_bool. Qed.

Lemma conn_deliver_ok m c (largest : Z) (shown : list (memory * DirectPacket)) p ps q :
  expects c (p :: ps) -> received p q ->
  exists c' largest', conn_deliver alloc_ok m (c, largest, shown) q = Some (c', largest', shown ++ [(m, q)]) /\ expects c' ps /\ cfg c' = cfg c.
Proof.
  intros ((F & W & D & Q & Hi) & Hs & Hh & Hn & Hw) (_ & Hhd & _). rewrite fmap_cons in Hn. apply NoDup_cons in Hn as [Hnin Hn].
  apply Forall_cons in Hw as [Hwp Hw]. destruct Hwp as (x & ch & Hx & Hch & _).
  assert (Hid : dyn_getChannelId (inl q : dyn_packet DirectPacket) = chid_of p).
  { change (_chid (_packetHeader (base_of q)) = chid_of p). by rewrite Hhd. }
  destruct (reply_ok c F W D Q [] [] (inl q) x Hi Hs) as (o & hd & pool' & W1 & W2 & Ho & Hhdl & Ef & -> & Hsc & Hi'); [by rewrite Hid|].
  unfold conn_deliver, handlePacket. rewrite Hs, Hh. cbn [mbind option_bind cleanupFlags DirectPacket_IPacket]. rewrite Hid, Hx, Ho. cbn [mbind option_bind].
  rewrite Ef. cbn [mbind option_bind]. change (_defaultPacketHandler (cfg (set_pool pool' c))) with (dflt_of c). rewrite Hhdl. cbn [mbind option_bind].
  do 2 eexists. split; [reflexivity|]. set (c1 := callback _ _) in *.
  assert (Hc : cfg (wakeUpSender c1) = cfg c) by (unfold wakeUpSender; by repeat case_bool).
  split; [|done]. split; [|rewrite Hc; split_and!; try done].
  - exists (F ++ [x]), (W1 ++ W2), D, Q. eapply same_view_inv; [apply wakeUpSender_view|exact Hi'].
  - apply Forall_forall. intros q' Hq'. eapply (waits_same c1); [apply wakeUpSender_pool|].
    eapply (waits_other c c1); [exact Hi|exact Hi'|exact Hsc|exact Hx| |by eapply Forall_forall].
    intros He. apply Hnin. rewrite <- He. by apply list_elem_of_fmap_2.
Qed.

(** The connection is a receiver. *)
#[local] Instance connection_Receiver : Receiver conn_placeholder conn_count (conn_deliver alloc_ok).
Proof using alloc_ok places.
  refine {| target := places; ready := fun s => expects s.1.1; log := fun s => s.2 |}.
  - intros s p ps (_ & _ & _ & _ & Hw) Hb. apply Forall_cons in Hw as [(x & ch & Hx & Hch & Hpl) _]. destruct (Hpl Hb) as (len & E & Hlen).
    exists len. unfold conn_placeholder. by rewrite Hx, Hch, E.
  - intros n s ps ((F & W & D & Q & Hi) & Hs & Hh & Hn & Hw). split; [|by split_and!].
    exists F, W, D, Q. eapply same_view_inv; [|exact Hi]. by split_and!.
  - done.
  - intros m [[c largest] shown] p ps q Hr Hq. destruct (conn_deliver_ok m c largest shown p ps q Hr Hq) as (c' & largest' & E & He & _).
    exists (c', largest', shown ++ [(m, q)]). by split_and!.
Defined.

(** *** Calls of [readData] *)

Context (alloc_limit : forall n, alloc_ok n = true -> n < 2 ^ 62).
Context (alloc_frame : forall n, 0 <= n <= 2 * FRAME_MAX -> alloc_ok n = true).

(** What [readData] starts from. *)
Definition reading_of (user : memory) (shown : list (memory * DirectPacket)) (sock : stream) (d : DirectTCPConnection) : reading reader :=
  mkReading (_input (dtcp d)) (directContext d) user sock 0 0 (_inputBufferSpaceAllocated (dtcp d)) (dconn d, _maxRecvPacketSize (dtcp d), shown).

(** The connection between two calls: packets are on their way, of which some
    bytes may have arrived. *)
Definition receiving user shown sock d ps : Prop := position alloc_ok ps (reading_of user shown sock d) /\ Forall (fit user) ps.

(** A position does not depend on the outcome of the last read. *)
Lemma position_same (st st' : reading reader) ps :
  r_input st' = r_input st -> r_context st' = r_context st -> r_memory st' = r_memory st -> r_socket st' = r_socket st -> r_state st' = r_state st ->
  position alloc_ok ps st -> position alloc_ok ps st'.
Proof.
  intros E1 E2 E3 E4 E5 (Hen & Hrd & x & Hw & E). unfold position. rewrite E4, E5. split; [done|]. split; [done|]. exists x. split; [|done].
  destruct Hw as [[Hc R]|p ps x Hh Hl|p ps n [Hc ? ? ? ? ?] Hn].
  - apply wait_none. split; by rewrite ?E1, ?E2.
  - apply wait_head; [by rewrite E1, E2|done].
  - apply wait_payload; [|done]. split; by rewrite ?E1, ?E2, ?E3, ?E4.
Qed.

Lemma conn_readData_ok user shown sock d ps :
  receiving user shown sock d ps ->
  exists d' user' ps1 ps2 lg sock', conn_readData alloc_ok user shown sock d = Some (true, d', user', shown ++ lg, sock') /\
    ps = ps1 ++ ps2 /\ Forall2 good ps1 lg /\ receiving user' (shown ++ lg) sock' d' ps2 /\ dom user' = dom user /\
    (length (replies sock') <= Nat.pred (length (replies sock)))%nat.
Proof using alloc_limit alloc_frame.
  intros [Hpos Hfit]. assert (Hh : existPacketHeader (cfg (dconn d)) = true) by apply Hpos. unfold conn_readData. rewrite Hh. fold (reading_of user shown sock d).
  destruct (direct_readData_ok alloc_ok alloc_limit alloc_frame DIRECT_READ_WRITE_SIZE ps (reading_of user shown sock d)) as (st & -> & Hp & Ha); [vm_compute; by split|exact Hfit|exact Hpos|].
  cbn [mbind option_bind]. destruct (r_state st) as [[c largest] shown'] eqn:Est. destruct Hp as (ps1 & ps2 & lg & -> & HF & Hlog & Hpos2 & Hdom & _ & _).
  rewrite Est in Hlog. change (shown' = shown ++ lg) in Hlog. subst shown'. eexists _, (r_memory st), ps1, ps2, lg, (r_socket st). split; [reflexivity|].
  split; [done|]. split; [done|]. split; [|by split]. split.
  - apply (position_same st); [done| |done|done|by rewrite Est|exact Hpos2]. cbn. by destruct (r_context st).
  - apply Forall_app in Hfit as [_ Hfit]. by eapply fit_dom.
Qed.

Fixpoint conn_reads (n : nat) (user : memory) (shown : list (memory * DirectPacket)) (sock : stream) (d : DirectTCPConnection)
  : option (DirectTCPConnection * memory * list (memory * DirectPacket) * stream) :=
  match n with
  | O => Some (d, user, shown, sock)
  | S n =>
      '(ok, d, user, shown, sock) ← conn_readData alloc_ok user shown sock d;
      if ok : bool then conn_reads n user shown sock d else None
  end.

Lemma nothing_left user shown sock d ps : receiving user shown sock d ps -> replies sock = [] -> ps = [].
Proof.
  intros [([_ Hinc] & _ & x & Hw & E) _] Hn. cbn in *. rewrite Hn in Hinc. cbn in Hinc.
  assert (Ei : incoming sock = []) by (destruct (incoming sock); [done|cbn in Hinc; lia]).
  rewrite Ei, app_nil_r in E. destruct Hw as [Hi|p ps x Hh Hl|p ps k Har Hk]; [done|..]; exfalso;
    apply (f_equal length) in E; rewrite fmap_cons in E; cbn [concat] in E; unfold direct_frame at 1 in E; rewrite !length_app in E.
  - rewrite info_bytes_length in E. lia.
  - rewrite length_take in E. lia.
Qed.

Lemma conn_reads_ok n : forall user shown sock d ps,
  receiving user shown sock d ps -> (length (replies sock) <= n)%nat ->
  exists d' user' lg sock', conn_reads n user shown sock d = Some (d', user', shown ++ lg, sock') /\ Forall2 good ps lg.
Proof using alloc_limit alloc_frame.
  induction n as [|n IH]; intros user shown sock d ps Hr Hn; cbn [conn_reads].
  - exists d, user, [], sock. rewrite app_nil_r. split; [done|]. rewrite (nothing_left _ _ _ _ _ Hr); [constructor|]. destruct (replies sock); [done|cbn in Hn; lia].
  - destruct (conn_readData_ok _ _ _ _ _ Hr) as (d1 & user1 & ps1 & ps2 & lg1 & sock1 & -> & -> & HF & Hr1 & _ & Hl). cbn [mbind option_bind].
    destruct (IH _ _ _ _ _ Hr1 ltac:(lia)) as (d2 & user2 & lg2 & sock2 & -> & HF2). exists d2, user2, (lg1 ++ lg2), sock2.
    split; [by rewrite app_assoc|by apply Forall2_app].
Qed.

(** A client that has sent its requests, before any reply. *)
Record awaiting d ps : Prop := {
  aw_input : rep (_input (dtcp d)) [];
  aw_context : directContext d = DirectStreamingContext_new;
  aw_expects : expects (dconn d) ps
}.

Lemma awaiting_receiving user shown sock d ps :
  awaiting d ps -> Forall (fit user) ps -> enough sock -> incoming sock = concat (direct_frame <$> ps) -> receiving user shown sock d ps.
Proof.
  intros [Hi Hc He] Hf Hen E. split; [|done]. split; [done|]. split; [done|]. exists []. split; [|done]. destruct ps as [|p ps].
  - apply wait_none. by split.
  - apply wait_head; [by apply heading_idle|cbn; lia].
Qed.

End Replies.

(** ** Properties *)

Section Properties.

Context (alloc_ok : Z -> bool).
Context (spaceUsed : DirectPacket -> Z).

#[local] Hint Extern 0 (IPacket DirectPacket) => exact (DirectPacket_IPacket alloc_ok) : typeclass_instances.

Implicit Types (d : DirectTCPConnection) (F W D Q : list ptr) (p : DirectPacket) (ps : list DirectPacket).

(** Writing direct packets sends their frames, in order and without
    loss.  Over any calls of [writeData], whatever the socket answers, none
    is undefined and each takes packets from the front of the queue; the
    bytes that went out, then the output buffer, then the part of a long
    payload that is still to be written from the user's memory, are what was
    pending before followed by exactly the frames of those packets. *)
Theorem direct_sends_frames calls d F W D Q (out r : list Z) :
  wstate alloc_ok spaceUsed d F W D Q [] out r ->
  exists ok d' Q1 Q2 ps s (out' r' : list Z), direct_writes alloc_ok spaceUsed calls d = Some (ok, d') /\
    Q = Q1 ++ Q2 /\ packets_at (packets (dconn d)) Q1 ps /\
    sent_bytes (trace (dconn d')) = sent_bytes (trace (dconn d)) ++ s /\ s ++ out' ++ r' = out ++ r ++ concat (direct_frame <$> ps) /\
    if ok : bool then exists F' W' D', wstate alloc_ok spaceUsed d' F' W' D' Q2 [] out' r' else rep (_output (dtcp d')) [].
Proof.
  intros Hw. enough (Hall : exists ok d' Q' (out' r' : list Z), direct_writes alloc_ok spaceUsed calls d = Some (ok, d') /\ wrote d d' Q Q' out r out' r' /\
    if ok : bool then exists F' W' D', wstate alloc_ok spaceUsed d' F' W' D' Q' [] out' r' else rep (_output (dtcp d')) []).
  { destruct Hall as (ok & d' & Q' & out' & r' & E & (Q1 & ps & s & HQ & Hps & _ & Hs & He) & Hfin). by exists ok, d', Q1, Q', ps, s, out', r'. }
  revert d F W D Q out r Hw. induction calls as [|[now writes] calls IH]; intros d F W D Q out r Hw; cbn [direct_writes].
  - exists true, d, Q, out, r. split; [done|]. split; [apply wrote_refl|eauto].
  - destruct (direct_writeData_ok alloc_ok spaceUsed now writes d F W D Q out r Hw) as (b & d1 & Q1 & out1 & r1 & -> & Hwr & Hb). cbn [mbind option_bind].
    destruct b; [|by exists false, d1, Q1, out1, r1]. destruct Hb as (F1 & W1 & D1 & Hw1).
    destruct (IH d1 F1 W1 D1 Q1 out1 r1 Hw1) as (ok & d2 & Q2 & out2 & r2 & E & Hwr2 & Hfin). exists ok, d2, Q2, out2, r2.
    split; [done|]. split; [by eapply wrote_trans|done].
Qed.


(** C5: Frames of direct packets are delivered.  When a client whose
    channels wait for the replies [ps], with placeholders that are long
    enough and point to memory of the user, receives their frames, cut into
    any pieces, with any reads in between that would block, then [readData]
    is never undefined, never reports the connection broken, and the handlers
    get exactly the packets [ps] in order, each with its payload already in
    the place of its placeholder. *)
Theorem direct_delivery places (user : memory) (shown : list (memory * DirectPacket)) (sock : stream) d ps :
  (forall n, alloc_ok n = true -> n < 2 ^ 62) -> (forall n, 0 <= n <= 2 * FRAME_MAX -> alloc_ok n = true) ->
  awaiting alloc_ok places d ps ->
  Forall (fun p => direct_ok p /\ forall i, 0 <= i < Z.of_nat (length (payload_bytes p)) -> is_Some (user !! (Z.pos (places (chid_of p)) + i))) ps ->
  enough sock -> incoming sock = concat (direct_frame <$> ps) ->
  exists d' user' lg sock', conn_reads alloc_ok (length (replies sock)) user shown sock d = Some (d', user', shown ++ lg, sock') /\
    Forall2 (fun p '(m, q) => getBody (direct_default q) = Some (body_bytes p) /\ _packetHeader (base_of q) = sent_header p /\
      _directHeader q = sent_direct_header p /\ peek m (Z.pos (places (chid_of p))) (length (payload_bytes p)) = Some (payload_bytes p)) ps lg.
Proof.
  intros Hlim Hfr Ha Hfit Hen Hinc.
  destruct (conn_reads_ok alloc_ok places Hlim Hfr (length (replies sock)) user shown sock d ps) as (d' & user' & lg & sock' & E & HF); [by apply awaiting_receiving|done|].
  exists d', user', lg, sock'. split; [done|]. eapply Forall2_impl; [exact HF|]. intros p [m q] [(H1 & H2 & H3) H4]. split_and!; try done. by apply holds_peek.
Qed.

End Properties.

(** ** Witnesses

    A client posts a request that leaves room for 16 bytes of payload at
    address 1000, and has itself a payload of 8 KiB. *)

Definition direct_space (p : DirectPacket) : Z := 300.

Abbreviation XP := (DirectPacket_IPacket alloc_64M).
Abbreviation direct_reachable := (@tcp_reachable DirectPacket XP (DirectPacket_channel alloc_64M) direct_space (fun _ => DirectPacket_new)).
Abbreviation direct_run := (@tcp_run DirectPacket XP direct_space (fun _ => DirectPacket_new)).

Definition sample_request : DirectPacket :=
  mkDirectPacket (packet_of 0 3 [104; 105]) (mkDirectHeader 0 0 0 0 0 0) (mkPayload (Some (replicate (Z.to_nat 8192) 7)) 8192) (Some 1000%positive, 16) true.

Definition sample_client : TCPConnection DirectPacket := tcp_init true false false None 0 8192.
Definition sample_client_post : @tcp_op DirectPacket := TPost 1000 1000 7 sample_request (Some 5%positive) (Some 6%positive) false.

(** [dtcp] of a new connection. *)
Definition direct_of (t : TCPConnection DirectPacket) : DirectTCPConnection := mkDirectTcp t true 0 0 kEmptyPayload None.

Definition sample_direct : DirectTCPConnection := direct_of (default sample_client (direct_run sample_client sample_client_post)).

Lemma sample_client_room : @tcp_may DirectPacket XP (DirectPacket_channel alloc_64M) sample_client sample_client_post.
Proof. repeat split; vm_compute; done. Qed.

Lemma sample_direct_reachable : direct_reachable (dtcp sample_direct).
Proof.
  apply (@tcp_step DirectPacket XP (DirectPacket_channel alloc_64M) direct_space (fun _ => DirectPacket_new) sample_client sample_client_post).
  - by apply tcp_start.
  - exact sample_client_room.
  - vm_compute. reflexivity.
Qed.

(** The request as it is queued. *)
Definition sample_pending : DirectPacket :=
  with_default (mkDefaultPacket (mkPacket (mkHeader 1 3 0) 5001000 5000 (Some 1%positive) None) (BBlock [Some 104; Some 105]) 2 2) sample_request.

Lemma sample_pending_ok : direct_ok sample_pending.
Proof.
  split.
  - split; [|cbn; lia]. exists [104; 105]. split; [done|cbn; lia|repeat constructor; unfold is_byte; lia|by split].
  - cbn. lia.
  - vm_compute. by intros [=].
  - vm_compute. reflexivity.
  - unfold payload_bytes. cbn [sample_pending sample_request with_default _payload payload_addr payload_len]. rewrite length_take, length_replicate. lia.
  - unfold payload_bytes. cbn [sample_pending sample_request with_default _payload payload_addr payload_len]. apply Forall_take, Forall_replicate. unfold is_byte. lia.
Qed.

Lemma sample_wstate : exists F W D Q, wstate alloc_64M direct_space sample_direct F W D Q [] [] [].
Proof.
  destruct (@tcp_reachable_inv DirectPacket XP (DirectPacket_Base alloc_64M) (DirectPacket_channel alloc_64M) direct_space (fun _ => DirectPacket_new) _ sample_direct_reachable)
    as [_ (F & W & D & Q & Hi)]. exists F, W, D, Q. split.
  - exact Hi.
  - vm_compute. by apply rep_null.
  - cbn. lia.
  - vm_compute. by split_and!.
  - intros x p Hx. assert (E : packets (dconn sample_direct) = {[ 7%positive := sample_pending ]}) by (vm_compute; reflexivity).
    rewrite E in Hx. apply lookup_singleton_Some in Hx as [_ <-]. exact sample_pending_ok.
  - vm_compute. reflexivity.
Qed.

(** After a call in which the kernel takes 46 bytes and 100 of the payload,
    and after one in which it takes everything. *)
Definition sample_stopped : DirectTCPConnection :=
  from_option snd sample_direct (direct_writeData alloc_64M direct_space 2000 [inl 46; inl 100] sample_direct).
Definition sample_sent : DirectTCPConnection :=
  from_option snd sample_direct (direct_writeData alloc_64M direct_space 2000 [inl 46; inl 8192] sample_direct).

Lemma after_write writes d :
  (from_option fst false (direct_writeData alloc_64M direct_space 2000 writes sample_direct)) = true ->
  from_option snd sample_direct (direct_writeData alloc_64M direct_space 2000 writes sample_direct) = d ->
  exists F W D Q (out r : list Z), wstate alloc_64M direct_space d F W D Q [] out r.
Proof.
  intros Hok <-. destruct sample_wstate as (F & W & D & Q & Hw).
  destruct (direct_writeData_ok alloc_64M direct_space 2000 writes sample_direct F W D Q [] [] Hw) as (b & d' & Q' & out' & r' & E & _ & Hb).
  rewrite E in *. cbn in Hok. subst b. cbn. destruct Hb as (F' & W' & D' & Hw'). by exists F', W', D', Q', out', r'.
Qed.

Lemma direct_sends_frames_witness :
  exists ok d' s (out' r' : list Z), direct_writes alloc_64M direct_space [(2000, [inl 46; inl 100]); (3000, [inl 8000])] sample_direct = Some (ok, d') /\
    sent_bytes (trace (dconn d')) = s /\ exists ps, s ++ out' ++ r' = concat (direct_frame <$> ps).
Proof.
  destruct sample_wstate as (F & W & D & Q & Hw).
  destruct (direct_sends_frames alloc_64M direct_space [(2000, [inl 46; inl 100]); (3000, [inl 8000])] sample_direct F W D Q [] [] Hw)
    as (ok & d' & Q1 & Q2 & ps & s & out' & r' & E & _ & _ & Hs & He & _).
  exists ok, d', s, out', r'. split; [exact E|]. split; [rewrite Hs; vm_compute (sent_bytes (trace (dconn sample_direct))); reflexivity|]. by exists ps.
Defined.


(** The reply: a body of two bytes and a payload of three. *)
Definition sample_reply : DirectPacket :=
  mkDirectPacket (packet_of 1 0 [111; 107]) (mkDirectHeader 0 0 0 0 0 0) (mkPayload (Some [1; 2; 3]) 3) kEmptyPlaceholder false.

Lemma sample_reply_ok : direct_ok sample_reply.
Proof.
  split.
  - split; [|cbn; lia]. exists [111; 107]. split; [done|cbn; lia|repeat constructor; unfold is_byte; lia|by split].
  - cbn. lia.
  - vm_compute. by intros [=].
  - vm_compute. reflexivity.
  - vm_compute. by intros [=].
  - repeat constructor; unfold is_byte; lia.
Qed.

Definition sample_user : memory := list_to_map ((fun i => (Z.of_nat i, 0)) <$> seq 1000 16).

Definition sample_stream : stream := mkStream (direct_frame sample_reply) ([Ready 20; Failed EAGAIN] ++ replicate 49 (Ready 2)) 0.

Lemma sample_enough : enough sample_stream.
Proof.
  split; [|vm_compute; lia]. repeat (apply Forall_cons; split; [first [left; by eexists|by right]|]). constructor.
Qed.

Lemma sample_awaiting : awaiting alloc_64M (fun _ => 1000%positive) sample_sent [sample_reply].
Proof.
  destruct (after_write [inl 46; inl 8192] sample_sent ltac:(vm_compute; reflexivity) eq_refl) as (F & W & D & Q & out & r & Hw).
  pose proof (ws_conn _ _ _ _ _ _ _ _ _ _ Hw) as Hi. unfold settled in Hi. assert (E : _writingPacket sample_sent = None) by (vm_compute; reflexivity). rewrite E in Hi.
  split; [vm_compute; by apply rep_null|vm_compute; reflexivity|]. split; [by exists F, W, D, Q|]. split; [vm_compute; reflexivity|]. split; [vm_compute; reflexivity|]. split.
  - apply NoDup_singleton.
  - apply Forall_singleton. eexists 1%positive, _. split; [vm_compute; reflexivity|]. split; [vm_compute; reflexivity|]. intros _. exists 16. vm_compute. by split.
Qed.

Lemma direct_delivery_witness :
  exists d' user' sock' m q, conn_reads alloc_64M 51 sample_user [] sample_stream sample_sent = Some (d', user', [(m, q)], sock') /\
    getBody (direct_default q) = Some [111; 107] /\ peek m 1000 3 = Some [1; 2; 3].
Proof.
  destruct (direct_delivery alloc_64M (fun _ => 1000%positive) sample_user [] sample_stream sample_sent [sample_reply]) as (d' & user' & lg & sock' & E & HF).
  - exact alloc_64M_limit.
  - exact alloc_64M_frame.
  - exact sample_awaiting.
  - apply Forall_singleton. split; [exact sample_reply_ok|]. intros i Hi. change (0 <= i < 3) in Hi.
    assert (i = 0 \/ i = 1 \/ i = 2) as [->|[->| ->]] by lia; vm_compute; eauto.
  - exact sample_enough.
  - cbn [fmap list_fmap concat]. by rewrite app_nil_r.
  - apply Forall2_cons_inv_l in HF as ([m q] & lg' & (H1 & _ & _ & H4) & HF & ->). apply Forall2_nil_inv_l in HF as ->. exists d', user', sock', m, q. split; [exact E|]. split; [exact H1|exact H4].
Defined.
