(* ===== verification/DirectSafety.v ===== *)
(** * Where payloads are written

    Whatever a peer sends, the memory of the user changes only inside the
    placeholders of channels that wait, and each write is inside one of
    them. *)

From S2P Require Import Prelude DataBuffer Packet Streamer DefaultPacket ChannelPool Connection TcpConnection Framing Direct DirectDelivery DirectConnection DirectReplies.

Section Safety.

Context (alloc_ok : Z -> bool) (existPacketHeader : bool).
Context {S : Type} (getPlaceholderFromChannel : S -> Z -> DirectPlaceholder) (count : Z -> S -> S) (deliver : memory -> S -> DirectPacket -> option S).

(** The bytes of the placeholders. *)
Definition owned (s : S) (a : Z) : Prop :=
  exists chid addr len, getPlaceholderFromChannel s chid = (Some addr, len) /\ Z.pos addr <= a < Z.pos addr + i32 len.

Context (sound : S -> Prop).
Context (count_safe : forall n s, sound s -> sound (count n s) /\ forall a, owned (count n s) a -> owned s a).
Context (deliver_safe : forall m s p s', sound s -> deliver m s p = Some s' -> sound s' /\ forall a, owned s' a -> owned s a).

Implicit Types (st : reading S) (c : DirectStreamingContext) (b : DataBuffer).

(** The offset is inside the payload of the packet. *)
Definition offset_ok c : Prop :=
  match _packet (streaming c) with
  | None => _payloadReadOffset c = 0
  | Some (inl p) => 0 <= _payloadReadOffset c <= Z.max 0 (_payloadSize (_directHeader p)) /\ _payloadSize (_directHeader p) < 2 ^ 31
  | Some (inr _) => True
  end.

(** What a step may change. *)
Definition safe_step st st' : Prop :=
  sound (r_state st') /\ offset_ok (r_context st') /\ dom (r_memory st') = dom (r_memory st) /\
  (forall a, owned (r_state st') a -> owned (r_state st) a) /\
  (forall a, r_memory st' !! a <> r_memory st !! a -> owned (r_state st) a).

Lemma safe_refl st st' : sound (r_state st') -> offset_ok (r_context st') -> r_memory st' = r_memory st -> r_state st' = r_state st -> safe_step st st'.
Proof. intros Hs Ho Em Es. unfold safe_step. rewrite Em, Es in *. split_and!; try done. Qed.

Lemma safe_trans st1 st2 st3 : safe_step st1 st2 -> safe_step st2 st3 -> safe_step st1 st3.
Proof.
  intros (_ & _ & D1 & O1 & M1) (S2 & C2 & D2 & O2 & M2). split; [done|]. split; [done|]. split; [congruence|]. split; [auto|].
  intros a Ha. destruct (decide (r_memory st2 !! a = r_memory st1 !! a)) as [E|E]; [|by apply M1]. apply O1, M2. congruence.
Qed.

(** A write of [src] at an offset inside a placeholder. *)
Lemma poke_safe st m chid addr len (off : Z) (src : list Z) :
  getPlaceholderFromChannel (r_state st) chid = (Some addr, len) -> 0 <= off -> off + Z.of_nat (length src) <= i32 len ->
  poke (r_memory st) (Z.pos addr + off) src = Some m ->
  dom m = dom (r_memory st) /\ forall a, m !! a <> r_memory st !! a -> owned (r_state st) a.
Proof.
  intros Hp Ho Hl E. apply poke_frame in E as [Hd Hf]. split; [done|]. intros a Ha. exists chid, addr, len. split; [done|].
  destruct (decide (Z.pos addr + off <= a < Z.pos addr + off + Z.of_nat (length src))) as [?|Hout]; [lia|]. destruct Ha. apply Hf. lia.
Qed.

Lemma load_be_range k m : forall p n v, load_be 32 k m p n = Some v -> - 2 ^ 31 <= n < 2 ^ 31 -> - 2 ^ 31 <= v < 2 ^ 31.
Proof.
  induction k as [|k IH]; intros p n v E Hn; cbn [load_be] in E; [by injection E as <-|]. apply bind_Some_inv in E as (x & _ & E).
  apply (IH _ _ _ E). unfold shift_in. apply (wraps_range 32). lia.
Qed.

Lemma readInt32_range b n b' : readInt32 b = Some (n, b') -> - 2 ^ 31 <= n < 2 ^ 31.
Proof.
  unfold readInt32, read_be. intros E. apply bind_Some_inv in E as (m & _ & E). apply bind_Some_inv in E as (f & _ & E).
  apply bind_Some_inv in E as (v & E & [= <- _]). apply (load_be_range _ _ _ _ _ E). apply (wraps_range 32). lia.
Qed.

Lemma socket_read_length len s ret (bytes : list Z) s' : 0 < len -> socket_read len s = (ret, bytes, s') -> Z.of_nat (length bytes) <= len /\ (0 <= ret -> ret = Z.of_nat (length bytes)).
Proof.
  intros Hl. unfold socket_read. destruct (replies s) as [|[k|e|] rest]; [| destruct (decide _)| |]; intros E; injection E as <- <- _; cbn [length]; try (split; lia).
  rewrite length_take. destruct (Z.to_nat len) eqn:En; split; [lia|done|lia|done].
Qed.

Lemma peekBytes_length b (n : Z) (src : list Z) : peekBytes b n = Some src -> Z.of_nat (length src) <= Z.max 0 n.
Proof.
  unfold peekBytes. destruct (_mem b) as [m|]; [|case_bool; [intros [= <-]; cbn; lia|done]]. unfold mem_bytes. intros E. apply bind_Some_inv in E as (cs & Ec & E).
  apply mapM_Some in E. apply Forall2_length in E. rewrite <- E. unfold mem_read in Ec. destruct (_ && _); [|done]. injection Ec as <-. rewrite length_take. lia.
Qed.

Lemma getDirectPacketInfo_size b h dh (broken : bool) b' :
  getDirectPacketInfo existPacketHeader b = Some (true, Some (h, dh), broken, b') -> _payloadSize dh < 2 ^ 31.
Proof.
  unfold getDirectPacketInfo. case_bool; [done|]. intros E. apply bind_Some_inv in E as ([[[ok hd] br] b1] & _ & E). destruct (negb ok); [done|].
  do 4 apply bind_Some_inv in E as ([? ?] & _ & E). apply bind_Some_inv in E as ([n b2] & Er & E). apply bind_Some_inv in E as ([? ?] & _ & E).
  destruct (_ || _); [done|]. apply bind_Some_inv in E as (h' & _ & [= <- <- _ _]). apply readInt32_range in Er. cbn. lia.
Qed.

Lemma direct_body_offset (p : DirectPacket) b c ok b' c' :
  _packet (streaming c) = Some (inl p) -> offset_ok c -> direct_body alloc_ok p b c = Some (ok, b', c') -> offset_ok c'.
Proof.
  intros Hp Ho. unfold offset_ok in Ho. rewrite Hp in Ho. unfold direct_body. case_bool.
  - intros [= _ _ <-]. unfold offset_ok. cbn. by rewrite Hp.
  - intros E. apply bind_Some_inv in E as ([[rc q] b1] & Ed & E).
    assert (Hq : _directHeader q = _directHeader p).
    { unfold DirectPacket_decode in Ed. destruct (_ <? _); [by injection Ed as _ <- _|]. apply bind_Some_inv in Ed as (? & _ & Ed).
      apply bind_Some_inv in Ed as ([? ?] & _ & Ed). by injection Ed as _ <- _. }
    injection E as _ _ <-. unfold offset_ok. destruct rc; cbn; [by rewrite Hq|done].
Qed.

Lemma processData_offset b c ok b' c' : offset_ok c -> direct_processData alloc_ok existPacketHeader b c = Some (ok, b', c') -> offset_ok c'.
Proof.
  intros Ho E. unfold direct_processData in E. apply bind_Some_inv in E as (packet & Ep & E). unfold getDirectPacket, getPacket in Ep.
  destruct (_packet (streaming c)) as [[p|p]|] eqn:Hp; cbn [as_direct] in Ep; try done; injection Ep as <-; [by eapply direct_body_offset|].
  unfold offset_ok in Ho. rewrite Hp in Ho. apply bind_Some_inv in E as ([[[ok1 hd] br] b1] & Ei & E). destruct ok1; cbn [negb] in E.
  - apply bind_Some_inv in E as ([h dh] & -> & E). apply bind_Some_inv in E as (b2 & _ & E). apply getDirectPacketInfo_size in Ei.
    eapply direct_body_offset; [| |exact E]; [done|]. unfold offset_ok. cbn. rewrite Ho. lia.
  - injection E as _ _ <-. unfold offset_ok. cbn. by rewrite Hp, Ho.
Qed.

Lemma on_context_safe f st : sound (r_state st) -> offset_ok (f (r_context st)) -> safe_step st (on_context f st).
Proof. intros Hs Ho. by apply safe_refl. Qed.

(** A state in which a packet's payload may go to a placeholder. *)
Record targeted st (p : DirectPacket) (chid : Z) (addr : positive) (len : Z) : Prop := {
  tg_packet : _packet (streaming (r_context st)) = Some (inl p);
  tg_sound : sound (r_state st);
  tg_place : getPlaceholderFromChannel (r_state st) chid = (Some addr, len);
  tg_fits : _payloadSize (_directHeader p) <= i32 len;
  tg_size : _payloadSize (_directHeader p) < 2 ^ 31;
  tg_offset : 0 <= _payloadReadOffset (r_context st)
}.

Lemma from_buffer_safe st p chid addr len (left left' : Z) st' :
  targeted st p chid addr len -> 0 < left -> _payloadReadOffset (r_context st) + left = _payloadSize (_directHeader p) ->
  payload_from_buffer (Z.pos addr) left st = Some (left', st') ->
  safe_step st st' /\ targeted st' p chid addr len /\ 0 <= left' /\ _payloadReadOffset (r_context st') + left' = _payloadSize (_directHeader p).
Proof.
  intros [Hp Hs Hpl Hfit Hsz Hoff] Hl He E. unfold payload_from_buffer in E. set (n := if left <=? _ then _ else _) in E.
  assert (Hn : n <= left) by (unfold n; case_bool; lia).
  assert (Hok : offset_ok (r_context st)) by (unfold offset_ok; rewrite Hp; lia).
  destruct (Z.ltb_spec 0 n).
  - apply bind_Some_inv in E as (src & Esrc & E). apply bind_Some_inv in E as (m & Em & [= <- <-]).
    pose proof (peekBytes_length _ _ _ Esrc).
    destruct (poke_safe st m chid addr len _ src Hpl Hoff ltac:(lia) Em) as [Hd Hm].
    assert (Ho' : u64 (_payloadReadOffset (r_context st) + n) = _payloadReadOffset (r_context st) + n) by (apply wrapu_small; lia).
    split; [|split; [split; try done; cbn; rewrite Ho'; lia|split; [lia|cbn; rewrite Ho'; lia]]].
    split; [done|]. split; [unfold offset_ok; cbn; rewrite Hp, Ho'; lia|]. by split_and!.
  - injection E as <- <-. split; [by apply safe_refl|]. split; [by split|]. lia.
Qed.

Lemma from_socket_safe st p chid addr len (left : Z) ok st' :
  targeted st p chid addr len -> 0 < left -> _payloadReadOffset (r_context st) + left = _payloadSize (_directHeader p) ->
  payload_from_socket (Z.pos addr) left st = Some (ok, st') -> safe_step st st'.
Proof.
  intros [Hp Hs Hpl Hfit Hsz Hoff] Hl He E. unfold payload_from_socket in E. destruct (socket_read _ _) as [[ret bytes] sock] eqn:Es.
  destruct (socket_read_length _ _ _ _ _ Hl Es) as [Hbl Hret]. apply bind_Some_inv in E as (m & Em & E).
  destruct (poke_safe st m chid addr len _ bytes Hpl Hoff ltac:(lia) Em) as [Hd Hm].
  assert (Hok : offset_ok (r_context st)) by (unfold offset_ok; rewrite Hp; lia).
  assert (Hgo : forall c', offset_ok c' -> safe_step st (on_context (fun _ => c') (set_memory m (set_socket sock ret st)))) by (intros c' Hc; by split_and!).
  destruct (Z.ltb_spec ret 0); [injection E as _ <-; exact (Hgo _ Hok)|]. destruct (Z.eqb_spec ret 0); injection E as _ <-; apply Hgo.
  - unfold offset_ok in *. cbn. by rewrite Hp in *.
  - unfold offset_ok. cbn. rewrite Hp. rewrite (wrapu_small 64) by lia. lia.
Qed.

Lemma readPayload_safe st ok st' :
  sound (r_state st) -> offset_ok (r_context st) -> readPayload alloc_ok getPlaceholderFromChannel st = Some (ok, st') -> safe_step st st'.
Proof.
  intros Hs Ho E. unfold readPayload in E. apply bind_Some_inv in E as (packet & Ep & E). apply bind_Some_inv in E as (p & -> & E). unfold getDirectPacket, getPacket in Ep.
  destruct (_packet (streaming (r_context st))) as [[q|q]|] eqn:Hp; try done. injection Ep as ->.
  assert (Hb : forall f : StreamingContext DirectPacket -> StreamingContext DirectPacket, (forall sc, _packet (f sc) = _packet sc) -> safe_step st (on_context (on_streaming f) st)).
  { intros f Hf. apply on_context_safe; [done|]. unfold offset_ok in *. cbn. by rewrite Hf. }
  pose proof Ho as Ho'. unfold offset_ok in Ho'. rewrite Hp in Ho'. destruct Ho' as [Ho1 Hsz].
  destruct (Z.ltb_spec (_payloadSize (_directHeader p)) 0); [injection E as _ <-; by apply Hb|].
  destruct (_ =? 0); [injection E as _ <-; by apply safe_refl|].
  destruct (getPlaceholderFromChannel (r_state st) _) as [[addr|] len] eqn:Hpl; cbn [fst snd] in E; [|injection E as _ <-; by apply Hb].
  destruct (Z.ltb_spec (i32 len) (_payloadSize (_directHeader p))); [injection E as _ <-; by apply Hb|]. cbv zeta in E.
  set (p1 := packet_setPlaceholder (Some addr, len) p) in *. set (st1 := on_context _ st) in E.
  assert (Eo : _payloadReadOffset (r_context st1) = _payloadReadOffset (r_context st)) by done. rewrite Eo in E.
  assert (Hleft : i32 (u64 (_payloadSize (_directHeader p) - _payloadReadOffset (r_context st))) = _payloadSize (_directHeader p) - _payloadReadOffset (r_context st)).
  { rewrite wrapu_small by lia. apply i32_small. unfold INT_MIN, INT_MAX. lia. }
  rewrite Hleft in E. apply bind_Some_inv in E as ([] & Ea & E). unfold assertb in Ea. destruct (Z.ltb_spec 0 (_payloadSize (_directHeader p) - _payloadReadOffset (r_context st))); [|done].
  apply bind_Some_inv in E as ([left st2] & Eb & E).
  assert (Hst1 : safe_step st st1) by (apply on_context_safe; [done|]; unfold offset_ok; cbn; lia).
  destruct (from_buffer_safe st1 p1 (@getChannelId _ (DirectPacket_IPacket alloc_ok) p) addr len (_payloadSize (_directHeader p) - _payloadReadOffset (r_context st)) left st2) as (Hst2 & Ht & Hl & He); [split; try done; cbn; lia|done|cbn; lia|exact Eb|].
  eapply safe_trans; [exact Hst1|]. eapply safe_trans; [exact Hst2|]. destruct (Z.eqb_spec left 0).
  - injection E as _ <-. destruct Hst2 as (? & ? & _). by apply safe_refl.
  - eapply from_socket_safe; [exact Ht| |exact He|exact E]. lia.
Qed.

Lemma finish_packet_safe st again st' :
  sound (r_state st) -> offset_ok (r_context st) -> finish_packet alloc_ok getPlaceholderFromChannel count deliver st = Some (again, st') -> safe_step st st'.
Proof using count_safe deliver_safe.
  intros Hs Ho E. unfold finish_packet in E. apply bind_Some_inv in E as ([ok st1] & Er & E). apply readPayload_safe in Er as H1; [|done..].
  eapply safe_trans; [exact H1|]. pose proof H1 as (Hs1 & Ho1 & _). set (st2 := if 0 <? r_ret st1 then _ else _) in E.
  assert (H2 : safe_step st1 st2).
  { unfold st2. case_bool; [|by apply safe_refl]. destruct (count_safe (r_ret st1) _ Hs1) as [Hc Hw]. by split_and!. }
  eapply safe_trans; [exact H2|]. pose proof H2 as (Hs2 & Ho2 & _). destruct (negb ok).
  - injection E as _ <-. case_bool; by apply safe_refl.
  - apply bind_Some_inv in E as ([packet ctx] & _ & E). apply bind_Some_inv in E as (p & _ & E). apply bind_Some_inv in E as ([] & _ & E).
    apply bind_Some_inv in E as (s & Ed & [= _ <-]). destruct (deliver_safe _ _ _ _ Hs2 Ed) as [Hs3 Hw]. split; [done|]. split; [done|]. by split_and!.
Qed.

Lemma direct_loop_safe fuel : forall resume st st',
  sound (r_state st) -> offset_ok (r_context st) -> direct_loop alloc_ok existPacketHeader getPlaceholderFromChannel count deliver fuel resume st = Some st' -> safe_step st st'.
Proof using count_safe deliver_safe.
  induction fuel as [|fuel IH]; intros resume st st' Hs Ho E; [done|]. cbn [direct_loop] in E. apply bind_Some_inv in E as ([go st1] & E1 & E).
  assert (H1 : safe_step st st1).
  { destruct resume; [injection E1 as _ <-; by apply safe_refl|]. apply bind_Some_inv in E1 as ([[ok b] c] & Ep & [= _ <-]). apply safe_refl; try done. by eapply processData_offset. }
  eapply safe_trans; [exact H1|]. pose proof H1 as (Hs1 & Ho1 & _). destruct (negb go); [injection E as <-; by apply safe_refl|].
  apply bind_Some_inv in E as ([again st2] & E2 & E). apply finish_packet_safe in E2 as H2; [|done..]. eapply safe_trans; [exact H2|].
  pose proof H2 as (Hs2 & Ho2 & _). destruct again; [by eapply IH|injection E as <-; by apply safe_refl].
Qed.

Lemma direct_round_safe bufSize st stop st' :
  sound (r_state st) -> offset_ok (r_context st) -> direct_round alloc_ok existPacketHeader getPlaceholderFromChannel count deliver bufSize st = Some (stop, st') -> safe_step st st'.
Proof using count_safe deliver_safe.
  intros Hs Ho E. unfold direct_round in E. destruct (negb _).
  - apply bind_Some_inv in E as (q & _ & E). apply bind_Some_inv in E as (? & _ & E). apply bind_Some_inv in E as (st1 & E1 & [= _ <-]).
    exact (direct_loop_safe _ _ _ _ Hs Ho E1).
  - apply bind_Some_inv in E as (b & _ & E). destruct (socket_read _ _) as [[ret bytes] sock]. cbv zeta in E.
    destruct (ret <? 0); [injection E as _ <-; by apply safe_refl|]. apply bind_Some_inv in E as (b1 & _ & E). apply bind_Some_inv in E as (b2 & _ & E).
    apply bind_Some_inv in E as (st1 & E1 & [= _ <-]). set (st0 := set_state _ _) in E1. destruct (count_safe ret _ Hs) as [Hc Hw].
    assert (Ho0 : offset_ok (r_context st0)) by (unfold st0; destruct (ret =? 0); done).
    assert (H0 : safe_step st st0) by (unfold st0 in *; destruct (ret =? 0); by split_and!).
    eapply safe_trans; [exact H0|]. pose proof H0 as (Hs0 & _). exact (direct_loop_safe _ _ _ _ Hs0 Ho0 E1).
Qed.

Lemma direct_rounds_safe rounds bufSize : forall st broken st',
  sound (r_state st) -> offset_ok (r_context st) -> direct_rounds alloc_ok existPacketHeader getPlaceholderFromChannel count deliver rounds bufSize st = Some (broken, st') -> safe_step st st'.
Proof using count_safe deliver_safe.
  induction rounds as [|rounds IH]; intros st broken st' Hs Ho E; cbn [direct_rounds] in E; [injection E as _ <-; by apply safe_refl|].
  apply bind_Some_inv in E as ([stop st1] & E1 & E). apply direct_round_safe in E1 as H1; [|done..]. eapply safe_trans; [exact H1|]. pose proof H1 as (Hs1 & Ho1 & _).
  destruct stop; [injection E as _ <-; by apply safe_refl|]. destruct (_ && _); [by eapply IH|injection E as _ <-; by apply safe_refl].
Qed.

Lemma direct_readData_safe bufSize st ok st' :
  sound (r_state st) -> offset_ok (r_context st) -> direct_readData alloc_ok existPacketHeader getPlaceholderFromChannel count deliver bufSize st = Some (ok, st') -> safe_step st st'.
Proof using count_safe deliver_safe.
  intros Hs Ho E. unfold direct_readData in E. apply bind_Some_inv in E as ([br st1] & E1 & [= _ <-]).
  eapply (safe_trans _ (set_error 0 (set_socket (r_socket st) 0 st))); [by apply safe_refl|]. by eapply direct_rounds_safe.
Qed.

End Safety.

(** ** The placeholders of a connection *)

Section Connected.

Context (alloc_ok : Z -> bool).

#[local] Hint Extern 0 (IPacket DirectPacket) => exact (DirectPacket_IPacket alloc_ok) : typeclass_instances.
#[local] Hint Extern 0 (IPacketBase DirectPacket) => exact (DirectPacket_Base alloc_ok) : typeclass_instances.

Implicit Types (c : Connection DirectPacket) (F W D Q : list ptr).

Definition conn_sound (s : reader) : Prop :=
  (exists F W D Q, conn_inv s.1.1 F W D Q [] []) /\ (_isServer (cfg s.1.1) = true -> _serverAdapter (cfg s.1.1) = true).

(** Every channel that waits waited before, for the same placeholder. *)
Definition waits_less c c' : Prop :=
  forall id x, findChannel (_channelPool c') id = Some x ->
    findChannel (_channelPool c) id = Some x /\ core <$> heap (_channelPool c') !! x = core <$> heap (_channelPool c) !! x.

Lemma waits_less_refl c c' : _channelPool c' = _channelPool c -> waits_less c c'.
Proof. intros E id x. by rewrite E. Qed.

Lemma waits_less_owned c c' (n n' : Z) (l l' : list (memory * DirectPacket)) a :
  waits_less c c' -> owned conn_placeholder (c', n', l') a -> owned conn_placeholder (c, n, l) a.
Proof.
  intros Hw (chid & addr & len & Hp & Ha). exists chid, addr, len. split; [|done]. unfold conn_placeholder in *. cbn [fst snd] in *.
  destruct (findChannel (_channelPool c') chid) as [x|] eqn:Hf; [|done]. destruct (Hw _ _ Hf) as [-> Hcore].
  destruct (heap (_channelPool c') !! x) as [ch'|]; [|done]. destruct (heap (_channelPool c) !! x) as [ch|]; [|done].
  cbn in Hcore. unfold core in Hcore. injection Hcore as _ _ _ Hph _ _. congruence.
Qed.

Lemma handlePacket_waits c F W D Q (d : dyn_packet DirectPacket) b c' :
  conn_inv c F W D Q [] [] -> handlePacket d c = Some (b, c') -> waits_less c c'.
Proof using alloc_ok.
  intros Hi E. unfold handlePacket in E. destruct (_isServer (cfg c)); [apply bind_Some_inv in E as (_ & _ & [= _ <-]); by apply waits_less_refl|].
  apply bind_Some_inv in E as (pk & _ & E). pose proof (cv_chan _ _ _ _ _ _ _ Hi) as Hc. pose proof (reply_inv _ _ _ _ (dyn_getChannelId pk) (ch_pool _ _ _ _ Hc)) as Hr.
  destruct (findChannel (_channelPool c) (dyn_getChannelId pk)) as [x|]; [|injection E as _ <-; by apply waits_less_refl].
  destruct Hr as (_ & p' & W1 & W2 & Ef & -> & Hi' & Hs). apply bind_Some_inv in E as (ch & _ & E). rewrite Ef in E. cbn [mbind option_bind] in E.
  apply bind_Some_inv in E as (hd & _ & [= _ <-]). intros id y Hy. rewrite wakeUpSender_pool in Hy |- *. cbn [callback set_stats emit set_pool _channelPool] in *.
  split; [|apply Hs]. apply (pi_map _ _ _ _ _ _ (ii_pool _ _ _ _ Hi')) in Hy as [Hin Hid]. apply (pi_map _ _ _ _ _ _ (ii_pool _ _ _ _ (ch_pool _ _ _ _ Hc))).
  split; [rewrite elem_of_app in Hin |- *; rewrite elem_of_cons; clear -Hin; naive_solver|]. rewrite <- Hid. by destruct (core_eq _ _ y (Hs y)) as [_ ->].
Qed.

Lemma conn_count_safe n s : conn_sound s -> conn_sound (conn_count n s) /\ forall a, owned conn_placeholder (conn_count n s) a -> owned conn_placeholder s a.
Proof using alloc_ok.
  intros [(F & W & D & Q & Hi) Ha]. split; [|done]. split; [|done]. exists F, W, D, Q. eapply same_view_inv; [|exact Hi]. by split_and!.
Qed.

Lemma conn_deliver_safe m s p s' :
  conn_sound s -> conn_deliver alloc_ok m s p = Some s' -> conn_sound s' /\ forall a, owned conn_placeholder s' a -> owned conn_placeholder s a.
Proof.
  destruct s as [[c n] l]. intros [(F & W & D & Q & Hi) Ha] E. unfold conn_deliver in E. apply bind_Some_inv in E as ([b c'] & Eh & [= <-]).
  destruct (handlePacket_ok c F W D Q [] [] (inl (cleanupFlags p)) Hi Ha) as (b1 & c1 & F' & W' & Eh1 & Hi1 & Hc1). rewrite Eh1 in Eh. injection Eh as <- <-.
  split; [split; [by exists F', W', D, Q|cbn [fst]; by rewrite Hc1]|]. intros a. apply waits_less_owned. by eapply handlePacket_waits.
Qed.


End Connected.


(** ** Two defects *)

(** The message size of a peer is not checked.  When it is negative the body
    cannot be decoded, [processData] completes with a [ControlPacket], and
    [readPayload] takes it for a [DirectPacket]. *)
Definition negative_message : list Z := header_bytes (mkHeader 1 0 28) ++ direct_header_bytes (-1) 0 0.

Definition is_bad_packet (c : DirectStreamingContext) : bool :=
  match getPacket (streaming c) with Some (inr cmd) => match _command cmd with CMD_BAD_PACKET => true | _ => false end | _ => false end.

Example negative_message_undefined :
  match writeBytes DataBuffer_new negative_message 44 with
  | Some b => match direct_processData alloc_64M true b DirectStreamingContext_new with
              | Some (ok, _, c) => (ok, isCompleted (streaming c), is_bad_packet c)
              | None => (false, false, false)
              end
  | None => (false, false, false)
  end = (true, true, true) /\
  match conn_readData alloc_64M ∅ [] (mkStream negative_message [Ready 100] 0) sample_sent with None => true | Some _ => false end = true.
Proof. split; vm_compute; reflexivity. Qed.

(** [Channel::init] leaves the placeholder: a channel that is used again
    still points to the memory of an earlier request, and the payload of a
    reply to a request without a placeholder is written there. *)
Lemma upd_placeholder h x f h' y : upd h x f = Some h' -> (forall ch, ChannelPool._placeholder (f ch) = ChannelPool._placeholder ch) ->
  ChannelPool._placeholder <$> h' !! y = ChannelPool._placeholder <$> h !! y.
Proof.
  unfold upd. intros (ch & Hx & [= <-])%bind_Some_inv Hf. destruct (decide (y = x)) as [->|Hn]; [by rewrite lookup_insert_eq, Hx; cbn; rewrite Hf|by rewrite lookup_insert_ne].
Qed.

Lemma recycled_channel_keeps_placeholder p chid g x p' g' :
  _freeListHead p <> None -> allocChannel p chid g = Some (x, p', g') ->
  ChannelPool._placeholder <$> heap p' !! x = ChannelPool._placeholder <$> heap p !! x.
Proof.
  intros Hh E. unfold allocChannel, take_free in E. destruct (_freeListHead p) as [y|]; [|done]. apply bind_Some_inv in E as ([z q] & Et & E).
  apply bind_Some_inv in Et as (ch & Hy & Et). apply bind_Some_inv in Et as (h1 & E1 & [= <- <-]).
  apply bind_Some_inv in E as ([id g1] & _ & E). apply bind_Some_inv in E as (h2 & E2 & [= <- <- <-]). cbn [heap addUseCountByOne] in *.
  rewrite (upd_placeholder _ _ _ _ y E2) by done. unfold upd_opt in E1. destruct (_next ch) as [n|]; [|by injection E1 as <-]. by rewrite (upd_placeholder _ _ _ _ y E1).
Qed.

(** A packet that is given up because of a write error is freed, but still
    counted in [_outputQueueSize]: only [finishPacketWrite] takes it off. *)
Example write_error_keeps_count :
  match direct_writes alloc_64M direct_space [(2000, [inl 46; inl 100]); (3000, [inr 104])] sample_direct with
  | Some (ok, d) => (ok, map_to_list (packets (dconn d)), _writingPacket d, _outputQueueSize (dconn d))
  | None => (true, [], None, 0)
  end = (false, [], None, 1).
Proof. vm_compute. reflexivity. Qed.
