(* ===== verification/TcpComponent.v ===== *)
(** * TCPComponent

    Sources: iocomponent.h, iocomponent.cpp, tcpcomponent.h and
    tcpcomponent.cpp under src/agent_engine/network/anet/.

    The component that owns a socket and the connection over it, and the states
    it goes through: it connects, is connected, loses its connection and
    reconnects by itself or is closed.  An operation runs on the component, its
    socket, the kernel and the commands it posts to its I/O worker; it fails
    where the code follows a null pointer or an assertion does not hold.  An
    operation runs under the component's lock, so operations do not
    interleave; a callback that gives the lock up is taken to return before
    another operation starts, so [_rwCbState] is always idle here.

    What a connection asks of its component ([enableWrite], [shutdownSocket])
    is read off the events it leaves.  The streamer is one with packet headers:
    without them a time-out closes the component from inside the connection,
    see [check_channels] in Connection.v.  Quality-of-service groups are left
    out. *)

From S2P Require Import Prelude AddrSpec Socket DataBuffer PacketQueue Packet Streamer DefaultPacket Framing ChannelPool Connection TcpConnection.

Definition MAX_RECONNECTING_TIMES : Z := 30.
Definition MAX_IDLE_TIME_IN_MICROSECONDS : Z := 900000000.
Definition RECONNECTING_INTERVAL : Z := 1000000.
Definition SHRINK_COUNTDOWN : Z := 10.

Inductive RECONNErr := ANET_RECONN_OK | ANET_RECONN_CONFLICT | ANET_RECONN_CONNECTED | ANET_RECONN_CLOSED | ANET_RECONN_SOCKFAILED.

Inductive IOCState := ANET_TO_BE_CONNECTING | ANET_CONNECTING | ANET_CONNECTED | ANET_CLOSING | ANET_CLOSED.

#[global] Instance RECONNErr_eq_dec : EqDecision RECONNErr.
Proof. solve_decision. Defined.
#[global] Instance IOCState_eq_dec : EqDecision IOCState.
Proof. solve_decision. Defined.

(** The values of the enumeration, which the code compares. *)
Definition ioc_code (s : IOCState) : Z :=
  match s with
  | ANET_TO_BE_CONNECTING => 1 | ANET_CONNECTING => 2 | ANET_CONNECTED => 3 | ANET_CLOSING => 4 | ANET_CLOSED => 5
  end.

(** [Transport::CommandType] *)
Inductive CommandType := TC_ADD_IOC | TC_REMOVE_IOC.

Section Component.

Context {P : Type} `{IPacket P}.
Context (spaceUsed : P -> Z) (createPacket : Z -> P).
Context (getConnectTimeout : Z) (getEnableSocketNonBlockConnect : bool).

Record TCPComponent := mkComp {
  _state : IOCState;
  _autoReconn : Z;
  ioc_isServer : bool;
  _startConnectTime : Z;
  _lastUseTime : Z;
  _enableRead : bool;
  _enableWrite : bool;
  _maxIdleTimeInMicroseconds : Z;
  _isSocketInEpoll : bool;
  _socketEvent : bool;              (* not null *)
  _shrinkCount : Z;
  _connection : option (TCPConnection P)
}.

(** What an operation runs on. *)
Record cstate := mkC {
  comp : TCPComponent;
  sock : Socket;
  kern : kernel;
  posted : list CommandType
}.

Definition CM (A : Type) : Type := cstate -> option (A * cstate).

#[global] Instance CM_ret : MRet CM := fun A x s => Some (x, s).
#[global] Instance CM_bind : MBind CM := fun A B f m s => '(x, s) ← m s; f x s.

Definition undefined {A} : CM A := fun _ => None.
Definition get {A} (f : TCPComponent -> A) : CM A := fun s => Some (f (comp s), s).
Definition upd_comp (f : TCPComponent -> TCPComponent) : CM () := fun s => Some ((), mkC (f (comp s)) (sock s) (kern s) (posted s)).
Definition on_socket {A} (m : SM A) : CM A := fun s =>
  let '(x, (sk, k)) := m (sock s, kern s) in Some (x, mkC (comp s) sk k (posted s)).
Definition postCommand (c : CommandType) : CM () := fun s => Some ((), mkC (comp s) (sock s) (kern s) (posted s ++ [c])).

Definition with_state (v : IOCState) (c : TCPComponent) : TCPComponent :=
  mkComp v (_autoReconn c) (ioc_isServer c) (_startConnectTime c) (_lastUseTime c) (_enableRead c) (_enableWrite c) (_maxIdleTimeInMicroseconds c) (_isSocketInEpoll c) (_socketEvent c) (_shrinkCount c) (_connection c).
Definition with_autoReconn (v : Z) (c : TCPComponent) : TCPComponent :=
  mkComp (_state c) v (ioc_isServer c) (_startConnectTime c) (_lastUseTime c) (_enableRead c) (_enableWrite c) (_maxIdleTimeInMicroseconds c) (_isSocketInEpoll c) (_socketEvent c) (_shrinkCount c) (_connection c).
Definition with_isServer (v : bool) (c : TCPComponent) : TCPComponent :=
  mkComp (_state c) (_autoReconn c) v (_startConnectTime c) (_lastUseTime c) (_enableRead c) (_enableWrite c) (_maxIdleTimeInMicroseconds c) (_isSocketInEpoll c) (_socketEvent c) (_shrinkCount c) (_connection c).
Definition with_startConnectTime (v : Z) (c : TCPComponent) : TCPComponent :=
  mkComp (_state c) (_autoReconn c) (ioc_isServer c) v (_lastUseTime c) (_enableRead c) (_enableWrite c) (_maxIdleTimeInMicroseconds c) (_isSocketInEpoll c) (_socketEvent c) (_shrinkCount c) (_connection c).
Definition updateUseTime (v : Z) (c : TCPComponent) : TCPComponent :=
  mkComp (_state c) (_autoReconn c) (ioc_isServer c) (_startConnectTime c) v (_enableRead c) (_enableWrite c) (_maxIdleTimeInMicroseconds c) (_isSocketInEpoll c) (_socketEvent c) (_shrinkCount c) (_connection c).
Definition with_enable (r w : bool) (c : TCPComponent) : TCPComponent :=
  mkComp (_state c) (_autoReconn c) (ioc_isServer c) (_startConnectTime c) (_lastUseTime c) r w (_maxIdleTimeInMicroseconds c) (_isSocketInEpoll c) (_socketEvent c) (_shrinkCount c) (_connection c).
Definition with_maxIdle (v : Z) (c : TCPComponent) : TCPComponent :=
  mkComp (_state c) (_autoReconn c) (ioc_isServer c) (_startConnectTime c) (_lastUseTime c) (_enableRead c) (_enableWrite c) v (_isSocketInEpoll c) (_socketEvent c) (_shrinkCount c) (_connection c).
Definition with_inEpoll (v : bool) (c : TCPComponent) : TCPComponent :=
  mkComp (_state c) (_autoReconn c) (ioc_isServer c) (_startConnectTime c) (_lastUseTime c) (_enableRead c) (_enableWrite c) (_maxIdleTimeInMicroseconds c) v (_socketEvent c) (_shrinkCount c) (_connection c).
Definition with_socketEvent (v : bool) (c : TCPComponent) : TCPComponent :=
  mkComp (_state c) (_autoReconn c) (ioc_isServer c) (_startConnectTime c) (_lastUseTime c) (_enableRead c) (_enableWrite c) (_maxIdleTimeInMicroseconds c) (_isSocketInEpoll c) v (_shrinkCount c) (_connection c).
Definition with_shrinkCount (v : Z) (c : TCPComponent) : TCPComponent :=
  mkComp (_state c) (_autoReconn c) (ioc_isServer c) (_startConnectTime c) (_lastUseTime c) (_enableRead c) (_enableWrite c) (_maxIdleTimeInMicroseconds c) (_isSocketInEpoll c) (_socketEvent c) v (_connection c).
Definition with_connection (v : TCPConnection P) (c : TCPComponent) : TCPComponent :=
  mkComp (_state c) (_autoReconn c) (ioc_isServer c) (_startConnectTime c) (_lastUseTime c) (_enableRead c) (_enableWrite c) (_maxIdleTimeInMicroseconds c) (_isSocketInEpoll c) (_socketEvent c) (_shrinkCount c) (Some v).

(** [now] is the time the base constructor reads. *)
Definition TCPComponent_new (now : Z) : TCPComponent :=
  mkComp ANET_TO_BE_CONNECTING 0 false 0 now true false MAX_IDLE_TIME_IN_MICROSECONDS false false SHRINK_COUNTDOWN None.

(** ** IOComponent *)

(** [enableRead] and [enableWrite] *)
Definition set_event : CM () :=
  ev ← get _socketEvent;
  inEpoll ← get _isSocketInEpoll;
  if (ev : bool) && inEpoll then
    r ← get _enableRead; w ← get _enableWrite;
    _ ← on_socket (setEvent r w); mret ()
  else mret ().
Definition enableRead (on : bool) : CM () := _ ← upd_comp (fun c => with_enable on (_enableWrite c) c); set_event.
Definition enableWrite (on : bool) : CM () := _ ← upd_comp (fun c => with_enable (_enableRead c) on c); set_event.

Definition isAutoReconn (c : TCPComponent) : bool := negb (_autoReconn c =? 0) && negb (ioc_isServer c).
Definition setAutoReconn (on : bool) (c : TCPComponent) : TCPComponent :=
  with_autoReconn (if ioc_isServer c || negb on then 0 else MAX_RECONNECTING_TIMES) c.
Definition setMaxIdleTime (ms : Z) (c : TCPComponent) : TCPComponent :=
  with_maxIdle (if ms =? 0 then MAX_IDLE_TIME_IN_MICROSECONDS else if ms <? 0 then TimeUtil_MAX else i64 (ms * 1000)) c.

Definition closeSocketNoLock : CM () :=
  inEpoll ← get _isSocketInEpoll;
  if negb inEpoll then mret ()
  else
    _ ← on_socket removeEvent;
    _ ← upd_comp (with_inEpoll false);
    on_socket close.

(** ** The connection *)

(** What the connection asked of its component; [EvCloseIoc] only comes from a
    connection without packet headers, which [createConnection] leaves out. *)
Definition run_event (e : event P) : CM () :=
  match e with
  | EvEnableWrite on => enableWrite on
  | EvShutdown => on_socket shutdown
  | _ => mret ()
  end.

Fixpoint run_events (es : list (event P)) : CM () :=
  match es with [] => mret () | e :: es => _ ← run_event e; run_events es end.

(** A call of the connection. *)
Definition on_connection {A} (f : TCPConnection P -> option (A * TCPConnection P)) : CM A := fun s =>
  t ← _connection (comp s);
  '(x, t') ← f t;
  '(_, s) ← run_events (drop (length (trace (tconn t))) (trace (tconn t')))
                       (mkC (with_connection t' (comp s)) (sock s) (kern s) (posted s));
  Some (x, s).

Definition conn_op (op : tcp_op) : CM () :=
  on_connection (fun t => t ← tcp_run spaceUsed createPacket t op; Some ((), t)).

(** ** TCPComponent *)

Definition setState (state : IOCState) : CM bool :=
  cur ← get _state;
  if ioc_code cur <? ioc_code ANET_CLOSING then
    _ ← upd_comp (with_state state);
    c ← get _connection;
    _ ← (match c with
         | Some _ => if ioc_code ANET_CLOSING <=? ioc_code state then conn_op TClose else mret ()
         | None => mret ()
         end);
    mret true
  else if (ioc_code cur =? ioc_code ANET_CLOSING) && (ioc_code state =? ioc_code ANET_CONNECTING) then
    _ ← upd_comp (with_state state); mret true
  else if ioc_code cur <? ioc_code state then
    _ ← upd_comp (with_state state); mret true
  else mret false.

Definition closeAndSetState : CM () :=
  _ ← closeSocketNoLock;
  auto ← get _autoReconn;
  _ ← setState (if negb (auto =? 0) then ANET_TO_BE_CONNECTING else ANET_CLOSING);
  postCommand TC_REMOVE_IOC.

Definition socketConnect : CM bool :=
  valid ← on_socket isAddressValid;
  if negb valid then mret false
  else
    _ ← on_socket setSoBlocking;
    ok ← on_socket (connect getEnableSocketNonBlockConnect);
    if negb ok then
      error ← on_socket get_errno;
      if negb (error =? EINPROGRESS) && negb (error =? Socket.EWOULDBLOCK) then _ ← on_socket close; mret false
      else mret true
    else mret true.

Definition socketReconnect (now : Z) : CM bool :=
  _ ← upd_comp (with_startConnectTime now);
  ok ← socketConnect;
  if ok : bool then
    ev ← get _socketEvent;
    if negb ev then undefined
    else
      _ ← upd_comp (with_enable true true);
      _ ← upd_comp (with_inEpoll true);
      _ ← on_socket (addEvent true true);
      _ ← postCommand TC_ADD_IOC;
      mret true
  else mret false.

Definition init (isServer : bool) (now : Z) : CM bool :=
  _ ← on_socket setSoLinger;
  _ ← on_socket setIntOption;
  _ ← on_socket setTcpNoDelay;
  ok ← (if negb isServer then
          ok ← socketConnect;
          if negb ok then mret false
          else
            _ ← upd_comp (fun c => with_enable (_enableRead c) true c);
            _ ← setState ANET_CONNECTING; mret true
        else
          _ ← on_socket setSoBlocking;
          _ ← upd_comp (fun c => with_enable (_enableRead c) false c);
          _ ← setState ANET_CONNECTED; mret true);
  if negb ok then mret false
  else
    _ ← upd_comp (updateUseTime now);
    _ ← upd_comp (with_startConnectTime now);
    _ ← upd_comp (fun c => with_enable true (_enableWrite c) c);
    _ ← upd_comp (with_isServer isServer);
    _ ← upd_comp (with_socketEvent true);        (* initialize() *)
    mret true.

(** The result tells whether there is a connection. *)
Definition createConnection (streamer adapter : bool) (now bufSize : Z) : CM bool :=
  server ← get ioc_isServer;
  if negb streamer then mret false
  else if (server : bool) && negb adapter then mret false
  else
    _ ← upd_comp (with_connection (TCPConnection_new true server adapter now bufSize));
    _ ← upd_comp (with_inEpoll true);
    ev ← get _socketEvent;
    if negb ev then undefined
    else
      r ← get _enableRead; w ← get _enableWrite;
      _ ← on_socket (addEvent r w);
      _ ← postCommand TC_ADD_IOC;
      mret true.

Definition reconnect (now : Z) : CM RECONNErr :=
  auto ← get _autoReconn;
  state ← get _state;
  if negb (auto =? 0) then mret ANET_RECONN_CONFLICT
  else if ioc_code state <=? ioc_code ANET_CONNECTED then mret ANET_RECONN_CONNECTED
  else if ioc_code state =? ioc_code ANET_CLOSING then
    ok ← socketReconnect now;
    if ok : bool then
      _ ← setState ANET_CONNECTING;
      _ ← conn_op TOpen;
      mret ANET_RECONN_OK
    else mret ANET_RECONN_SOCKFAILED
  else mret ANET_RECONN_CLOSED.

Definition closeConnection : CM () :=
  _ ← closeSocketNoLock;
  changed ← setState ANET_CLOSING;
  if changed : bool then postCommand TC_REMOVE_IOC else mret ().

Definition handleWriteEvent (now : Z) (writes : list (Z + Z)) : CM bool :=
  state ← get _state;
  _ ← (if ioc_code state =? ioc_code ANET_CONNECTING then
         _ ← setState ANET_CONNECTED;
         _ ← upd_comp (fun c => setAutoReconn (isAutoReconn c) c);
         on_connection (fun t => Some ((), resetContext t))
       else mret ());
  state ← get _state;
  if ioc_code state =? ioc_code ANET_CONNECTED then
    rc ← on_connection (writeData spaceUsed now writes);
    if negb rc then _ ← closeAndSetState; mret rc else mret rc
  else mret false.

Definition handleErrorEvent : CM bool :=
  state ← get _state;
  if (ioc_code state =? ioc_code ANET_CONNECTED) || (ioc_code state =? ioc_code ANET_CONNECTING)
  then _ ← closeAndSetState; mret false else mret false.

Definition handleReadEvent (reads : list (list Z + Z)) : CM bool :=
  state ← get _state;
  if ioc_code state =? ioc_code ANET_CONNECTED then
    rc ← on_connection (readData createPacket reads);
    if negb rc then _ ← closeAndSetState; mret rc else mret rc
  else mret false.

(** The periodic shrinking of the buffers. *)
Definition clearMaxSizes (t : TCPConnection P) : TCPConnection P := with_maxSend 0 (with_maxRecv 0 t).

(** A buffer is shrunk when no recent packet took half of it. *)
Definition shrink_if_large (t : TCPConnection P) : option (() * TCPConnection P) :=
  t ← (if _maxRecvPacketSize t <? Z.shiftr (_inputBufferSpaceAllocated t) 1 then shrinkInputBuffer t else Some t);
  t ← (if _maxSendPacketSize t <? Z.shiftr (_outputBufferSpaceAllocated t) 1 then shrinkOutputBuffer t else Some t);
  Some ((), clearMaxSizes t).

Definition shrink_buffers : CM () :=
  _ ← upd_comp (fun c => with_shrinkCount (i32 (_shrinkCount c - 1)) c);
  n ← get _shrinkCount;
  if n <=? 0 then
    _ ← on_connection shrink_if_large;
    upd_comp (with_shrinkCount SHRINK_COUNTDOWN)
  else mret ().

(** What follows: the time-outs of the component itself. *)
Definition check_state (now ref : Z) : CM bool :=
  state ← get _state;
  start ← get _startConnectTime;
  auto ← get _autoReconn;
  server ← get ioc_isServer;
  lastUse ← get _lastUseTime;
  maxIdle ← get _maxIdleTimeInMicroseconds;
  match state with
  | ANET_CONNECTING =>
      if (0 <? start) && (start <? i64 (now - getConnectTimeout)) then
        _ ← closeAndSetState;
        _ ← upd_comp (with_startConnectTime now);
        mret true
      else mret true
  | ANET_CONNECTED =>
      if (server : bool) && (maxIdle <? i64 (now - lastUse)) then
        _ ← upd_comp (with_autoReconn 0);
        _ ← closeAndSetState;
        mret true
      else mret true
  | ANET_TO_BE_CONNECTING =>
      if negb (auto =? 0) && (start <? i64 (now - RECONNECTING_INTERVAL)) then
        _ ← upd_comp (with_autoReconn (i32 (auto - 1)));
        ok ← socketReconnect now;
        if ok : bool then _ ← setState ANET_CONNECTING; mret true
        else if i32 (auto - 1) =? 0 then _ ← setState ANET_CLOSING; mret true else mret true
      else mret true
  | ANET_CLOSING =>
      if ref =? 1 then _ ← setState ANET_CLOSED; mret false else mret true
  | ANET_CLOSED => mret true
  end.

(** The connection's part of a check. *)
Definition check_connection (now : Z) : CM () :=
  state ← get _state;
  if ioc_code state <? ioc_code ANET_CLOSING then conn_op (TTimeout now)
  else _ ← on_connection (fun t => Some ((), clearOutputBuffer t)); conn_op TClose.

(** [ref] is [getRef()]; the result is false when the component leaves the
    checking list. *)
Definition checkTimeout (now ref : Z) : CM bool :=
  conn ← get _connection;
  match conn with
  | None => undefined
  | Some _ =>
      _ ← check_connection now;
      _ ← shrink_buffers;
      check_state now ref
  end.

End Component.

Arguments TCPComponent : clear implicits.
Arguments cstate : clear implicits.
Arguments CM : clear implicits.

(** ** What an operation keeps *)

(** Whether the worker has the component on its list, once it has processed
    the commands. *)
Definition listed (cmds : list CommandType) : bool :=
  foldl (fun _ c => match c with TC_ADD_IOC => true | TC_REMOVE_IOC => false end) false cmds.

Lemma listed_snoc cmds c : listed (cmds ++ [c]) = match c with TC_ADD_IOC => true | TC_REMOVE_IOC => false end.
Proof. unfold listed. by rewrite foldl_app. Qed.

Section Invariant.

Context {P : Type} `{IPacket P} {HB : IPacketBase P} {HC : ChannelPacket P}.
Context (spaceUsed : P -> Z) (createPacket : Z -> P).
Context (getConnectTimeout : Z) (getEnableSocketNonBlockConnect : bool).

#[local] Set Default Proof Using "Type+HB+HC".

Implicit Types (s : cstate P) (t : TCPConnection P) (Q : TCPConnection P -> Prop).

(** The state of a component: [server], the state [st], [auto] attempts to
    reconnect left, the time [start] of the last attempt, [ep] whether its
    socket is in the epoll set, [l] whether it is listed, and what is known of
    its connection. *)
Record view (server : bool) (st : IOCState) (auto start : Z) (ep l : bool) Q s : Prop := {
  vw_conn : exists t, _connection (comp s) = Some t /\ Q t;
  vw_state : _state (comp s) = st;
  vw_auto : _autoReconn (comp s) = auto;
  vw_start : _startConnectTime (comp s) = start;
  vw_server : ioc_isServer (comp s) = server;
  vw_event : _socketEvent (comp s) = true;
  vw_ep : _isSocketInEpoll (comp s) = ep;
  vw_fd : ep = false -> _socketHandle (sock s) = -1;
  vw_listed : listed (posted s) = l
}.

(** The connection of a component. *)
Definition conn_ok (server : bool) t : Prop :=
  tcp_inv t /\ existPacketHeader (cfg (tconn t)) = true /\ _isServer (cfg (tconn t)) = server.
Definition conn_closed (server : bool) t : Prop := quiet t /\ conn_ok server t.

Lemma view_weaken server st auto start ep l Q Q' s :
  view server st auto start ep l Q s -> (forall t, Q t -> Q' t) -> view server st auto start ep l Q' s.
Proof. intros [(t & E & Ht) ? ? ? ? ? ? ? ?] HQ. split; try done. exists t. auto. Qed.

(** *** Small steps *)

Lemma on_socket_eq {A} (m : SM A) s :
  exists x sk k, m (sock s, kern s) = (x, (sk, k)) /\ on_socket m s = Some (x, mkC (comp s) sk k (posted s)).
Proof. unfold on_socket. destruct (m _) as [x [sk k]] eqn:E. by exists x, sk, k. Qed.

(** A call on the socket that does not touch the descriptor. *)
Definition keeps_fd {A} (m : SM A) : Prop := forall (sk : Socket) k, _socketHandle (m (sk, k)).2.1 = _socketHandle sk.

Lemma sys_keeps_fd c : keeps_fd (sys c).
Proof. intros sk k. by destruct (sys_ok c sk k) as (rc & k' & -> & _). Qed.

Lemma on_socket_view {A} (m : SM A) server st auto start ep l Q s :
  view server st auto start ep l Q s -> ep = true \/ keeps_fd m ->
  exists x s', on_socket m s = Some (x, s') /\ view server st auto start ep l Q s' /\ comp s' = comp s.
Proof.
  intros Hv Hm. destruct (on_socket_eq m s) as (x & sk & k & E & ->). eexists _, _. split; [done|]. split; [|done].
  destruct Hv. split; try done. cbn. intros Hep. destruct Hm as [->|Hm]; [done|].
  specialize (Hm (sock s) (kern s)). rewrite E in Hm. cbn in Hm. rewrite Hm. auto.
Qed.

Lemma set_event_view server st auto start ep l Q s :
  view server st auto start ep l Q s ->
  exists s', set_event s = Some ((), s') /\ view server st auto start ep l Q s' /\ comp s' = comp s.
Proof.
  intros Hv. unfold set_event, mbind, CM_bind, get. cbn [mbind option_bind]. rewrite (vw_event _ _ _ _ _ _ _ _ Hv), (vw_ep _ _ _ _ _ _ _ _ Hv).
  cbn [andb]. destruct ep; [|by exists s].
  destruct (on_socket_view (setEvent (_enableRead (comp s)) (_enableWrite (comp s))) _ _ _ _ _ _ _ _ Hv (or_introl eq_refl))
    as (x & s' & -> & Hv' & Ec). by exists s'.
Qed.

Lemma enable_view server st auto start ep l Q s r w :
  view server st auto start ep l Q s ->
  view server st auto start ep l Q (mkC (with_enable r w (comp s)) (sock s) (kern s) (posted s)).
Proof. by intros []. Qed.

Lemma run_events_view es server st auto start ep l Q s :
  view server st auto start ep l Q s ->
  exists s', run_events es s = Some ((), s') /\ view server st auto start ep l Q s'.
Proof.
  revert s. induction es as [|e es IH]; intros s Hv; [by exists s|]. cbn [run_events]. unfold mbind, CM_bind at 1. cbn [mbind option_bind].
  enough (He : exists s', run_event e s = Some ((), s') /\ view server st auto start ep l Q s').
  { destruct He as (s1 & -> & Hv1). cbn [mbind option_bind]. by apply IH. }
  destruct e; try (by exists s); cbn [run_event].
  - unfold enableWrite, mbind, CM_bind, upd_comp. cbn [mbind option_bind].
    destruct (set_event_view _ _ _ _ _ _ _ _ (enable_view _ _ _ _ _ _ _ s (_enableRead (comp s)) on Hv)) as (s' & -> & Hv' & _). by exists s'.
  - destruct (on_socket_view shutdown _ _ _ _ _ _ _ _ Hv) as (x & s' & E & Hv' & _); [right|by exists s'; destruct x].
    intros sk k. unfold shutdown, mbind, SM_bind, gets. cbn [fst]. destruct (negb _); [|done].
    by destruct (sys_ok (SysShutdown (_socketHandle sk)) sk k) as (rc & k' & -> & _).
Qed.

(** A call of the connection, when it returns. *)
Lemma on_connection_view {A} (f : TCPConnection P -> option (A * TCPConnection P)) server st auto start ep l Q s t x t' :
  view server st auto start ep l Q s -> _connection (comp s) = Some t -> f t = Some (x, t') ->
  exists s', on_connection f s = Some (x, s') /\ view server st auto start ep l (eq t') s'.
Proof.
  intros Hv Et Ef. unfold on_connection. rewrite Et. cbn [mbind option_bind]. rewrite Ef. cbn [mbind option_bind].
  set (s1 := mkC _ _ _ _). assert (Hv1 : view server st auto start ep l (eq t') s1).
  { destruct Hv. split; try done. by exists t'. }
  destruct (run_events_view (drop (length (trace (tconn t))) (trace (tconn t'))) _ _ _ _ _ _ _ _ Hv1) as (s' & -> & Hv'). by exists s'.
Qed.

Lemma on_connection_total {A} (f : TCPConnection P -> option (A * TCPConnection P)) server st auto start ep l Q Q' s :
  view server st auto start ep l Q s -> (forall t, Q t -> exists x t', f t = Some (x, t') /\ Q' t') ->
  exists x s', on_connection f s = Some (x, s') /\ view server st auto start ep l Q' s'.
Proof.
  intros Hv Hf. destruct (vw_conn _ _ _ _ _ _ _ _ Hv) as (t & Et & Ht). destruct (Hf t Ht) as (x & t' & Ef & Ht').
  destruct (on_connection_view f _ _ _ _ _ _ _ _ _ _ _ Hv Et Ef) as (s' & E & Hv'). exists x, s'. split; [done|].
  eapply view_weaken; [exact Hv'|by intros ? <-].
Qed.

Lemma on_connection_partial {A} (f : TCPConnection P -> option (A * TCPConnection P)) server st auto start ep l Q Q' s x s' :
  view server st auto start ep l Q s -> on_connection f s = Some (x, s') ->
  (forall t t', Q t -> f t = Some (x, t') -> Q' t') -> view server st auto start ep l Q' s'.
Proof.
  intros Hv E Hf. destruct (vw_conn _ _ _ _ _ _ _ _ Hv) as (t & Et & Ht). pose proof E as E0. unfold on_connection in E0. rewrite Et in E0.
  cbn [mbind option_bind] in E0. apply bind_Some_inv in E0 as ([y t'] & Ef & E0).
  destruct (on_connection_view f _ _ _ _ _ _ _ _ _ _ _ Hv Et Ef) as (s1 & E1 & Hv1). rewrite E1 in E. injection E as -> ->.
  eapply view_weaken; [exact Hv1|]. intros ? <-. by eapply Hf.
Qed.

Lemma conn_op_total op server st auto start ep l Q Q' s :
  view server st auto start ep l Q s -> (forall t, Q t -> exists t', tcp_run spaceUsed createPacket t op = Some t' /\ Q' t') ->
  exists s', conn_op spaceUsed createPacket op s = Some ((), s') /\ view server st auto start ep l Q' s'.
Proof.
  intros Hv Hop. unfold conn_op. edestruct (on_connection_total (fun t => t ← tcp_run spaceUsed createPacket t op; Some ((), t)) server st auto start ep l Q Q' s Hv) as ([] & s' & E & Hv').
  - intros t Ht. destruct (Hop t Ht) as (t' & -> & Ht'). by exists (), t'.
  - by exists s'.
Qed.

(** *** Closing *)

Lemma closeSocketNoLock_view server st auto start ep l Q s :
  view server st auto start ep l Q s ->
  exists s', closeSocketNoLock s = Some ((), s') /\ view server st auto start false l Q s'.
Proof.
  intros Hv. unfold closeSocketNoLock, mbind, CM_bind, get, upd_comp. cbn [mbind option_bind]. rewrite (vw_ep _ _ _ _ _ _ _ _ Hv).
  destruct ep; cbn [negb]; [|by exists s].
  destruct (on_socket_view removeEvent _ _ _ _ _ _ _ _ Hv (or_introl eq_refl)) as (x & s1 & -> & Hv1 & _). cbn [mbind option_bind].
  set (s2 := mkC _ _ _ _). destruct (on_socket_eq close s2) as ([] & sk & k & Ec & ->). eexists. split; [done|].
  pose proof (close_spec (sock s2) (kern s2) I) as Hc. rewrite Ec in Hc. destruct Hc as [Hfd _]. by destruct Hv1.
Qed.

(** The state after a call of [setState]. *)
Definition next_state (cur new : IOCState) : IOCState :=
  if ioc_code cur <? 4 then new
  else if (ioc_code cur =? 4) && (ioc_code new =? 2) then new
  else if ioc_code cur <? ioc_code new then new else cur.

Lemma setState_open new server st auto start ep l Q s :
  view server st auto start ep l Q s -> ioc_code st < 4 -> ioc_code new < 4 ->
  exists s', setState spaceUsed createPacket new s = Some (true, s') /\ view server new auto start ep l Q s'.
Proof.
  intros Hv Hst Hn. unfold setState, mbind, CM_bind, get, upd_comp. cbn [mbind option_bind]. rewrite (vw_state _ _ _ _ _ _ _ _ Hv).
  change (ioc_code ANET_CLOSING) with 4. rewrite (proj2 (Z.ltb_lt _ _) Hst). cbn [mbind option_bind].
  destruct (vw_conn _ _ _ _ _ _ _ _ Hv) as (t & Et & _). cbn [comp with_state _connection]. rewrite Et.
  rewrite (proj2 (Z.leb_gt _ _) Hn). eexists. split; [done|]. by destruct Hv.
Qed.

(** Closing runs [closeHook]. *)
Lemma setState_closing server st auto start ep l s :
  view server st auto start ep l (conn_ok server) s -> ioc_code st < 4 ->
  exists s', setState spaceUsed createPacket ANET_CLOSING s = Some (true, s') /\
    view server ANET_CLOSING auto start ep l (conn_closed server) s'.
Proof.
  intros Hv Hst. unfold setState, mbind, CM_bind, get, upd_comp. cbn [mbind option_bind]. rewrite (vw_state _ _ _ _ _ _ _ _ Hv).
  change (ioc_code ANET_CLOSING) with 4. rewrite (proj2 (Z.ltb_lt _ _) Hst). cbn [mbind option_bind].
  destruct (vw_conn _ _ _ _ _ _ _ _ Hv) as (t & Et & _). cbn [comp with_state _connection]. rewrite Et.
  set (s1 := mkC _ _ _ _). assert (Hv1 : view server ANET_CLOSING auto start ep l (conn_ok server) s1) by (by destruct Hv).
  change (4 <=? 4) with true. cbn iota.
  destruct (conn_op_total TClose _ _ _ _ _ _ _ (conn_closed server) _ Hv1) as (s' & -> & Hv').
  - intros t1 (Hi & Hh & Hs). destruct (close_quiet spaceUsed createPacket t1 Hi) as (t' & E & Hq & Ec). exists t'.
    split; [done|]. split; [done|]. split; [apply Hq|by rewrite Ec].
  - by exists s'.
Qed.

(** A state at or after [ANET_CLOSING] only moves forward, or back to
    [ANET_CONNECTING]. *)
Lemma setState_closed new server st auto start ep l Q s :
  view server st auto start ep l Q s -> 4 <= ioc_code st ->
  exists b s', setState spaceUsed createPacket new s = Some (b, s') /\ view server (next_state st new) auto start ep l Q s' /\
    (b = false -> next_state st new = st).
Proof.
  intros Hv Hst. unfold setState, next_state, mbind, CM_bind, get, upd_comp. cbn [mbind option_bind]. rewrite (vw_state _ _ _ _ _ _ _ _ Hv).
  change (ioc_code ANET_CLOSING) with 4. change (ioc_code ANET_CONNECTING) with 2. rewrite (proj2 (Z.ltb_ge _ _) Hst).
  destruct (_ && _); [eexists _, _; split; [done|split; [by destruct Hv|done]]|].
  destruct (_ <? _); eexists _, _; (split; [done|split; [by destruct Hv|done]]).
Qed.

Lemma postCommand_view c server st auto start ep l Q s :
  view server st auto start ep l Q s ->
  exists s', postCommand c s = Some ((), s') /\ view server st auto start ep (match c with TC_ADD_IOC => true | _ => false end) Q s'.
Proof.
  intros Hv. eexists. split; [done|]. destruct Hv. split; try done. cbn. rewrite listed_snoc. by destruct c.
Qed.

(** Where a lost connection leads. *)
Definition lost (auto : Z) : IOCState := if negb (auto =? 0) then ANET_TO_BE_CONNECTING else ANET_CLOSING.

Lemma closeAndSetState_view server st auto start ep l s :
  view server st auto start ep l (conn_ok server) s -> ioc_code st < 4 ->
  exists s', closeAndSetState spaceUsed createPacket s = Some ((), s') /\
    view server (lost auto) auto start false false (if auto =? 0 then conn_closed server else conn_ok server) s'.
Proof.
  intros Hv Hst. unfold closeAndSetState, mbind, CM_bind. destruct (closeSocketNoLock_view _ _ _ _ _ _ _ _ Hv) as (s1 & -> & Hv1).
  cbn [mbind option_bind]. unfold get at 1. cbn [mbind option_bind]. rewrite (vw_auto _ _ _ _ _ _ _ _ Hv1).
  change (if negb (auto =? 0) then _ else _) with (lost auto). unfold lost.
  destruct (auto =? 0); cbn [negb].
  - destruct (setState_closing _ _ _ _ _ _ _ Hv1 Hst) as (s2 & -> & Hv2). cbn [mbind option_bind].
    destruct (postCommand_view TC_REMOVE_IOC _ _ _ _ _ _ _ _ Hv2) as (s3 & -> & Hv3). by exists s3.
  - destruct (setState_open ANET_TO_BE_CONNECTING _ _ _ _ _ _ _ _ Hv1 Hst) as (s2 & -> & Hv2); [done|]. cbn [mbind option_bind].
    destruct (postCommand_view TC_REMOVE_IOC _ _ _ _ _ _ _ _ Hv2) as (s3 & -> & Hv3). by exists s3.
Qed.

(** *** Connecting *)

Lemma socketConnect_eq s :
  exists b s', socketConnect getEnableSocketNonBlockConnect s = Some (b, s') /\ comp s' = comp s /\ posted s' = posted s /\
    (b = false -> _socketHandle (sock s) = -1 -> _socketHandle (sock s') = -1).
Proof.
  unfold socketConnect, mbind, CM_bind. destruct (on_socket_eq isAddressValid s) as (v & sk0 & k0 & E0 & ->). cbn [mbind option_bind].
  injection E0 as <- <- <-. destruct (negb _); [by eexists _, _; split_and!|].
  match goal with |- context [on_socket setSoBlocking ?x] => destruct (on_socket_eq setSoBlocking x) as (b1 & sk1 & k1 & _ & ->) end.
  cbn [mbind option_bind].
  match goal with |- context [on_socket (connect ?g) ?x] => destruct (on_socket_eq (connect g) x) as (b2 & sk2 & k2 & _ & ->) end.
  cbn [mbind option_bind comp posted]. destruct b2; cbn [negb]; [by eexists true, _; split_and!|].
  match goal with |- context [on_socket get_errno ?x] => destruct (on_socket_eq get_errno x) as (e & sk4 & k4 & _ & ->) end.
  cbn [mbind option_bind comp posted]. destruct (_ && _); [|by eexists true, _; split_and!].
  match goal with |- context [on_socket close ?x] => destruct (on_socket_eq close x) as (b3 & sk3 & k3 & E3 & ->) end.
  cbn [mbind option_bind]. eexists false, _. split_and!; try done. intros _ _.
  match type of E3 with close (?a, ?b) = _ => pose proof (close_spec a b I) as Hc end. rewrite E3 in Hc. by destruct Hc.
Qed.

Lemma socketReconnect_view now server st auto start l Q s :
  view server st auto start false l Q s ->
  exists b s', socketReconnect getEnableSocketNonBlockConnect now s = Some (b, s') /\
    if b then view server st auto now true true Q s' else view server st auto now false l Q s'.
Proof.
  intros Hv. unfold socketReconnect, mbind, CM_bind, upd_comp. cbn [mbind option_bind]. set (s1 := mkC _ _ _ _).
  assert (Hv1 : view server st auto now false l Q s1) by (by destruct Hv).
  destruct (socketConnect_eq s1) as (b & s2 & -> & Ec & Ep & Hf). cbn [mbind option_bind].
  destruct b; [|exists false, s2; split; [done|]; destruct Hv1; split; rewrite ?Ec, ?Ep; auto].
  unfold get at 1. cbn [mbind option_bind]. rewrite Ec, (vw_event _ _ _ _ _ _ _ _ Hv1). cbn [negb mbind option_bind comp sock kern posted].
  rewrite Ec. set (s3 := mkC _ _ _ _). destruct (on_socket_eq (addEvent true true) s3) as (x & sk & k & _ & ->).
  cbn [mbind option_bind]. eexists true, _. split; [reflexivity|]. destruct Hv1. split; try done.
  cbn [posted s3]. by rewrite listed_snoc.
Qed.

(** ** Between operations *)

(** In the epoll set and listed exactly while connecting or connected; closed
    with everyone answered from [ANET_CLOSING] on. *)
Definition ep_of (st : IOCState) : bool := match st with ANET_CONNECTING | ANET_CONNECTED => true | _ => false end.
Definition conn_of (server : bool) (st : IOCState) : TCPConnection P -> Prop :=
  if 4 <=? ioc_code st then conn_closed server else conn_ok server.

Abbreviation at_state server st auto start s := (view server st auto start (ep_of st) (ep_of st) (conn_of server st) s).

Lemma conn_of_ok server st t : conn_of server st t -> conn_ok server t.
Proof. unfold conn_of. destruct (_ <=? _); [by intros []|done]. Qed.

Lemma conn_of_lost server auto : conn_of server (lost auto) = if auto =? 0 then conn_closed server else conn_ok server.
Proof. unfold lost. by destruct (auto =? 0). Qed.

Lemma ep_of_lost auto : ep_of (lost auto) = false.
Proof. unfold lost. by destruct (_ =? 0). Qed.

Lemma closeAndSetState_at server st auto start ep l s :
  view server st auto start ep l (conn_ok server) s -> ioc_code st < 4 ->
  exists s', closeAndSetState spaceUsed createPacket s = Some ((), s') /\ at_state server (lost auto) auto start s'.
Proof.
  intros Hv Hst. destruct (closeAndSetState_view _ _ _ _ _ _ _ Hv Hst) as (s' & E & Hv'). exists s'.
  by rewrite ep_of_lost, conn_of_lost.
Qed.

Definition live (st : IOCState) : bool := ep_of st.

Lemma handleErrorEvent_at server st auto start s :
  at_state server st auto start s ->
  exists s', handleErrorEvent spaceUsed createPacket s = Some (false, s') /\
    at_state server (if live st then lost auto else st) auto start s'.
Proof.
  intros Hv. unfold handleErrorEvent, mbind, CM_bind. unfold get at 1. cbn [mbind option_bind]. rewrite (vw_state _ _ _ _ _ _ _ _ Hv).
  destruct st; cbn [ioc_code Z.eqb Pos.eqb orb live ep_of]; try (by eexists; split; [done|exact Hv]);
    (destruct (closeAndSetState_at _ _ _ _ _ _ _ Hv) as (s' & -> & Hv'); [done|by exists s']).
Qed.

(** Closing is final unless the user reconnects. *)
Lemma closeConnection_at server st auto start s :
  at_state server st auto start s ->
  exists s', closeConnection spaceUsed createPacket s = Some ((), s') /\
    at_state server (if ioc_code st <? 4 then ANET_CLOSING else st) auto start s'.
Proof.
  intros Hv. unfold closeConnection, mbind, CM_bind. destruct (closeSocketNoLock_view _ _ _ _ _ _ _ _ Hv) as (s1 & -> & Hv1).
  cbn [mbind option_bind]. destruct (Z.ltb_spec (ioc_code st) 4) as [Hst|Hst].
  - destruct (setState_closing server st auto start false (ep_of st) s1) as (s2 & -> & Hv2); [|done|].
    { eapply view_weaken; [exact Hv1|]. intros t. apply conn_of_ok. }
    cbn [mbind option_bind]. destruct (postCommand_view TC_REMOVE_IOC _ _ _ _ _ _ _ _ Hv2) as (s3 & -> & Hv3). by exists s3.
  - destruct (setState_closed ANET_CLOSING _ _ _ _ _ _ _ _ Hv1 Hst) as (b & s2 & -> & Hv2 & _). cbn [mbind option_bind].
    assert (En : next_state st ANET_CLOSING = st /\ ep_of st = false) by (destruct st; by cbn in *). destruct En as [En Ep].
    rewrite En, Ep in Hv2. destruct b; [|exists s2; split; [done|by rewrite Ep]].
    destruct (postCommand_view TC_REMOVE_IOC _ _ _ _ _ _ _ _ Hv2) as (s3 & -> & Hv3). exists s3. split; [done|by rewrite Ep].
Qed.

(** Reconnecting by hand. *)
Ltac rc_cases := cbn; split_and!; split; intros; destruct_and?; destruct_or?; try done; try lia; auto.

Lemma reconnect_at now server st auto start s :
  at_state server st auto start s ->
  exists rc s' start', reconnect spaceUsed createPacket getEnableSocketNonBlockConnect now s = Some (rc, s') /\
    at_state server (if decide (rc = ANET_RECONN_OK) then ANET_CONNECTING else st) auto start' s' /\
    (rc = ANET_RECONN_OK \/ rc = ANET_RECONN_SOCKFAILED <-> auto = 0 /\ st = ANET_CLOSING) /\
    (rc = ANET_RECONN_CONFLICT <-> auto <> 0) /\
    (rc = ANET_RECONN_CONNECTED <-> auto = 0 /\ ioc_code st < 4) /\
    (rc = ANET_RECONN_CLOSED <-> auto = 0 /\ st = ANET_CLOSED).
Proof.
  intros Hv. unfold reconnect, mbind, CM_bind. unfold get at 1 2. cbn [mbind option_bind].
  rewrite (vw_auto _ _ _ _ _ _ _ _ Hv), (vw_state _ _ _ _ _ _ _ _ Hv). unfold get. cbn [mbind option_bind]. rewrite ?(vw_state _ _ _ _ _ _ _ _ Hv).
  destruct (Z.eqb_spec auto 0) as [Ea|Ea]; cbn [negb].
  2:{ exists ANET_RECONN_CONFLICT, s, start. split; [done|]. split; [exact Hv|]. rc_cases. }
  destruct st; cbn [ioc_code Z.leb Z.eqb Z.compare Pos.compare Pos.compare_cont Pos.eqb];
    try (exists ANET_RECONN_CONNECTED, s, start; split; [done|]; split; [exact Hv|]; rc_cases);
    try (exists ANET_RECONN_CLOSED, s, start; split; [done|]; split; [exact Hv|]; rc_cases).
  destruct (socketReconnect_view now _ _ _ _ _ _ _ Hv) as (b & s1 & -> & Hv1). cbn [mbind option_bind]. destruct b.
  - destruct (setState_closed ANET_CONNECTING _ _ _ _ _ _ _ _ Hv1) as (b & s2 & -> & Hv2 & _); [done|]. cbn [mbind option_bind].
    destruct (conn_op_total TOpen _ _ _ _ _ _ _ (conn_ok server) _ Hv2) as (s3 & -> & Hv3).
    { intros t [Hq (Hi & Hh & Hs)]. destruct (tcp_step_defined spaceUsed createPacket t TOpen Hi I) as [t' E]. exists t'. split; [done|].
      destruct (tcp_step_ok spaceUsed createPacket t TOpen t' Hi I E) as [Hi' Ec]. split; [done|]. by rewrite Ec. }
    cbn [mbind option_bind]. exists ANET_RECONN_OK, s3, now. split; [done|]. split; [exact Hv3|]. rc_cases.
  - exists ANET_RECONN_SOCKFAILED, s1, now. split; [done|]. split; [exact Hv1|]. rc_cases.
Qed.

(** *** Events of the socket *)

(** What a read or a write of the connection keeps. *)
Lemma conn_ok_write server now writes t b t' :
  conn_ok server t -> writeData spaceUsed now writes t = Some (b, t') -> conn_ok server t'.
Proof using HB HC createPacket spaceUsed.
  intros (Hi & Hh & Hs) E. assert (Er : tcp_run spaceUsed createPacket t (TWrite now writes) = Some t') by (cbn [tcp_run]; by rewrite E).
  destruct (tcp_step_ok spaceUsed createPacket t (TWrite now writes) t' Hi I Er) as [Hi' Ec]. by rewrite <- Ec in *.
Qed.

Lemma conn_ok_read server reads t b t' :
  conn_ok server t -> readData createPacket reads t = Some (b, t') -> conn_ok server t'.
Proof using HB HC createPacket spaceUsed.
  intros (Hi & Hh & Hs) E. assert (Er : tcp_run spaceUsed createPacket t (TRead reads) = Some t') by (cbn [tcp_run]; by rewrite E).
  destruct (tcp_step_ok spaceUsed createPacket t (TRead reads) t' Hi I Er) as [Hi' Ec]. by rewrite <- Ec in *.
Qed.

(** The end of an event: the connection is given up when the call failed. *)
Lemma event_end server st auto start b s x s' :
  at_state server st auto start s -> live st = true ->
  (if negb b then _ ← closeAndSetState spaceUsed createPacket; mret b else mret b) s = Some (x, s') ->
  x = b /\ at_state server (if b then st else lost auto) auto start s'.
Proof.
  intros Hv Hst E. destruct b; cbn [negb] in E; [by injection E as <- <-|].
  assert (Hlt : ioc_code st < 4 /\ conn_of server st = conn_ok server) by (by destruct st). destruct Hlt as [Hlt Ec]. rewrite Ec in Hv.
  destruct (closeAndSetState_at _ _ _ _ _ _ _ Hv Hlt) as (s1 & E1 & Hv1). unfold mbind, CM_bind in E. rewrite E1 in E.
  injection E as <- <-. by split.
Qed.

Lemma handleReadEvent_at reads server st auto start s b s' :
  at_state server st auto start s -> handleReadEvent spaceUsed createPacket reads s = Some (b, s') ->
  at_state server (if decide (st = ANET_CONNECTED) then (if b then st else lost auto) else st) auto start s' /\
  (st <> ANET_CONNECTED -> b = false).
Proof.
  intros Hv E. unfold handleReadEvent, mbind, CM_bind in E. unfold get at 1 in E. cbn [mbind option_bind] in E.
  rewrite (vw_state _ _ _ _ _ _ _ _ Hv) in E. destruct st; cbn [ioc_code Z.eqb Pos.eqb] in E; try (by injection E as <- <-).
  apply bind_Some_inv in E as ([rc s1] & E1 & E). split; [|done].
  assert (Hv1 : at_state server ANET_CONNECTED auto start s1).
  { eapply on_connection_partial; [exact Hv|exact E1|]. intros t t'. apply conn_ok_read. }
  destruct (event_end _ _ _ _ _ _ _ _ Hv1 eq_refl E) as [-> Hv2]. by destruct rc.
Qed.

(** The attempts left after a success. *)
Definition renewed (server : bool) (auto : Z) : Z := if negb (auto =? 0) && negb server then MAX_RECONNECTING_TIMES else 0.

Lemma handleWriteEvent_at now writes server st auto start s b s' :
  at_state server st auto start s -> handleWriteEvent spaceUsed createPacket now writes s = Some (b, s') ->
  let auto' := if decide (st = ANET_CONNECTING) then renewed server auto else auto in
  at_state server (if live st then (if b then ANET_CONNECTED else lost auto') else st) auto' start s' /\ (live st = false -> b = false).
Proof.
  intros Hv E. unfold handleWriteEvent, mbind, CM_bind, get in E. cbn [mbind option_bind] in E.
  rewrite (vw_state _ _ _ _ _ _ _ _ Hv) in E.
  assert (Hconn : forall auto1 s1, at_state server ANET_CONNECTED auto1 start s1 ->
    (rc ← on_connection (writeData spaceUsed now writes);
     if negb rc then _ ← closeAndSetState spaceUsed createPacket; mret rc else mret rc : CM P bool) s1 = Some (b, s') ->
    at_state server (if b then ANET_CONNECTED else lost auto1) auto1 start s').
  { intros auto1 s1 Hv1 E1. unfold mbind, CM_bind in E1. apply bind_Some_inv in E1 as ([rc s2] & Ew & E1).
    assert (Hv2 : at_state server ANET_CONNECTED auto1 start s2).
    { eapply on_connection_partial; [exact Hv1|exact Ew|]. intros t t'. apply conn_ok_write. }
    destruct (event_end _ _ _ _ _ _ _ _ Hv2 eq_refl E1) as [-> Hv3]. exact Hv3. }
  destruct st; cbn [ioc_code Z.eqb Pos.eqb live ep_of] in *; cbn [mbind option_bind] in E.
  - unfold mret, CM_ret in E. cbn [mbind option_bind] in E. rewrite (vw_state _ _ _ _ _ _ _ _ Hv) in E. by injection E as <- <-.
  - destruct (setState_open ANET_CONNECTED _ _ _ _ _ _ _ _ Hv) as (s1 & E1 & Hv1); [done|done|]. rewrite E1 in E. cbn [mbind option_bind upd_comp] in E.
    set (s2 := mkC _ _ _ _) in E. assert (Hv2 : at_state server ANET_CONNECTED (renewed server auto) start s2).
    { unfold renewed. destruct Hv1 as [? ? Ha ? Hsv]. split; try done. cbn. unfold setAutoReconn, isAutoReconn. cbn. rewrite Ha, Hsv.
      by destruct server, (auto =? 0). }
    destruct (on_connection_total (fun t => Some ((), resetContext t)) _ _ _ _ _ _ _ (conn_ok server) _ Hv2) as ([] & s3 & E3 & Hv3).
    { intros t Ht. by exists (), (resetContext t). }
    unfold mbind, CM_bind in E. rewrite E3 in E. cbn [mbind option_bind] in E.
    rewrite (vw_state _ _ _ _ _ _ _ _ Hv3) in E. split; [|done]. eapply Hconn; [exact Hv3|exact E].
  - unfold mret, CM_ret in E. cbn [mbind option_bind] in E. rewrite (vw_state _ _ _ _ _ _ _ _ Hv) in E. split; [|done].
    eapply Hconn; [exact Hv|exact E].
  - unfold mret, CM_ret in E. cbn [mbind option_bind] in E. rewrite (vw_state _ _ _ _ _ _ _ _ Hv) in E. by injection E as <- <-.
  - unfold mret, CM_ret in E. cbn [mbind option_bind] in E. rewrite (vw_state _ _ _ _ _ _ _ _ Hv) in E. by injection E as <- <-.
Qed.

(** *** The timer *)

(** What a check does at time [now] to the state, the attempts left and the
    time of the last attempt. *)
Inductive tick (now ref : Z) : IOCState -> Z -> Z -> bool -> IOCState -> Z -> Z -> Prop :=
| tick_wait st auto start :
    (st = ANET_CONNECTING -> start <= 0 \/ i64 (now - getConnectTimeout) <= start) ->
    (st = ANET_TO_BE_CONNECTING -> auto = 0 \/ i64 (now - RECONNECTING_INTERVAL) <= start) ->
    (st = ANET_CLOSING -> ref <> 1) ->
    tick now ref st auto start true st auto start
| tick_slow auto start :       (* the peer does not answer *)
    0 < start -> start < i64 (now - getConnectTimeout) -> tick now ref ANET_CONNECTING auto start true (lost auto) auto now
| tick_idle auto start :       (* a server's client says nothing *)
    tick now ref ANET_CONNECTED auto start true ANET_CLOSING 0 start
| tick_attempt auto start :
    auto <> 0 -> start < i64 (now - RECONNECTING_INTERVAL) ->
    tick now ref ANET_TO_BE_CONNECTING auto start true ANET_CONNECTING (i32 (auto - 1)) now
| tick_failed auto start :
    auto <> 0 -> start < i64 (now - RECONNECTING_INTERVAL) ->
    tick now ref ANET_TO_BE_CONNECTING auto start true (lost (i32 (auto - 1))) (i32 (auto - 1)) now
| tick_closed auto start :     (* only the checking list knows it *)
    ref = 1 -> tick now ref ANET_CLOSING auto start false ANET_CLOSED auto start.

Lemma check_state_at now ref server st auto start s :
  at_state server st auto start s ->
  exists b s' st' auto' start',
    check_state spaceUsed createPacket getConnectTimeout getEnableSocketNonBlockConnect now ref s = Some (b, s') /\
    at_state server st' auto' start' s' /\ tick now ref st auto start b st' auto' start'.
Proof.
  intros Hv. unfold check_state, mbind, CM_bind, get. cbn [mbind option_bind].
  rewrite (vw_state _ _ _ _ _ _ _ _ Hv), (vw_start _ _ _ _ _ _ _ _ Hv), (vw_auto _ _ _ _ _ _ _ _ Hv), (vw_server _ _ _ _ _ _ _ _ Hv).
  destruct st; cbn iota.
  - destruct (negb (auto =? 0) && (start <? _)) eqn:Eb; bool_to_prop.
    2:{ exists true, s, ANET_TO_BE_CONNECTING, auto, start. split; [done|]. split; [exact Hv|]. constructor; try done. lia. }
    unfold upd_comp. cbn [mbind option_bind]. set (s1 := mkC _ _ _ _).
    assert (Hv1 : at_state server ANET_TO_BE_CONNECTING (i32 (auto - 1)) start s1) by (by destruct Hv).
    destruct (socketReconnect_view now _ _ _ _ _ _ _ Hv1) as (b & s2 & -> & Hv2). cbn [mbind option_bind]. destruct b.
    + destruct (setState_open ANET_CONNECTING _ _ _ _ _ _ _ _ Hv2) as (s3 & -> & Hv3); [done|done|]. cbn [mbind option_bind].
      exists true, s3, ANET_CONNECTING, (i32 (auto - 1)), now. split; [done|]. split; [exact Hv3|by constructor].
    + assert (Ht : tick now ref ANET_TO_BE_CONNECTING auto start true (lost (i32 (auto - 1))) (i32 (auto - 1)) now) by (by constructor).
      destruct (i32 (auto - 1) =? 0) eqn:Ea.
      * destruct (setState_closing _ _ _ _ _ _ _ Hv2) as (s3 & -> & Hv3); [done|]. cbn [mbind option_bind].
        exists true, s3, (lost (i32 (auto - 1))), (i32 (auto - 1)), now. split; [done|]. split; [|exact Ht].
        unfold lost. rewrite Ea. exact Hv3.
      * exists true, s2, (lost (i32 (auto - 1))), (i32 (auto - 1)), now. split; [done|]. split; [|exact Ht].
        unfold lost. rewrite Ea. exact Hv2.
  - destruct ((0 <? start) && _) eqn:Eb; bool_to_prop.
    2:{ exists true, s, ANET_CONNECTING, auto, start. split; [done|]. split; [exact Hv|]. constructor; try done. lia. }
    destruct (closeAndSetState_at _ _ _ _ _ _ _ Hv) as (s1 & -> & Hv1); [done|]. cbn [mbind option_bind upd_comp].
    eexists true, _, (lost auto), auto, now. split; [done|]. split; [by destruct Hv1|by constructor].
  - destruct (server && _).
    2:{ exists true, s, ANET_CONNECTED, auto, start. split; [done|]. split; [exact Hv|by constructor]. }
    unfold upd_comp. cbn [mbind option_bind]. set (s1 := mkC _ _ _ _).
    assert (Hv1 : at_state server ANET_CONNECTED 0 start s1) by (by destruct Hv).
    destruct (closeAndSetState_at _ _ _ _ _ _ _ Hv1) as (s2 & -> & Hv2); [done|]. cbn [mbind option_bind].
    exists true, s2, ANET_CLOSING, 0, start. split; [done|]. split; [exact Hv2|constructor].
  - destruct (Z.eqb_spec ref 1) as [Er|Er].
    2:{ exists true, s, ANET_CLOSING, auto, start. split; [done|]. split; [exact Hv|by constructor]. }
    destruct (setState_closed ANET_CLOSED _ _ _ _ _ _ _ _ Hv) as (b & s1 & -> & Hv1 & _); [done|]. cbn [mbind option_bind].
    exists false, s1, ANET_CLOSED, auto, start. split; [done|]. split; [exact Hv1|by constructor].
  - exists true, s, ANET_CLOSED, auto, start. split; [done|]. split; [exact Hv|by constructor].
Qed.

(** [shrink] never fails on a well-formed buffer; here it may. *)
Lemma shrink_buffers_partial server st auto start s x s' :
  at_state server st auto start s -> shrink_buffers s = Some (x, s') -> at_state server st auto start s'.
Proof.
  intros Hv E. unfold shrink_buffers, mbind, CM_bind, get, upd_comp in E. cbn [mbind option_bind] in E. set (s1 := mkC _ _ _ _) in E.
  assert (Hv1 : at_state server st auto start s1) by (by destruct Hv). destruct (_ <=? 0); [|by injection E as _ <-].
  apply bind_Some_inv in E as ([y s2] & E2 & [= _ <-]).
  assert (Hv2 : at_state server st auto start s2); [|by destruct Hv2].
  eapply on_connection_partial; [exact Hv1|exact E2|]. intros t t' Ht Ef.
  unfold shrink_if_large in Ef. apply bind_Some_inv in Ef as (t1 & E1 & Ef). apply bind_Some_inv in Ef as (t2 & E3 & [= _ <-]).
  assert (H1 : tconn t1 = tconn t).
  { destruct (_maxRecvPacketSize t <? Z.shiftr (_inputBufferSpaceAllocated t) 1); [|by injection E1 as <-]. unfold shrinkInputBuffer in E1. by apply bind_Some_inv in E1 as (? & _ & [= <-]). }
  assert (H2 : tconn t2 = tconn t1).
  { destruct (_maxSendPacketSize t1 <? Z.shiftr (_outputBufferSpaceAllocated t1) 1); [|by injection E3 as <-]. unfold shrinkOutputBuffer in E3. by apply bind_Some_inv in E3 as (? & _ & [= <-]). }
  unfold conn_of in *. destruct (4 <=? _); unfold conn_closed, conn_ok, quiet, tcp_inv in *;
    cbn [clearMaxSizes with_maxSend with_maxRecv tconn]; by rewrite H2, H1.
Qed.

Lemma check_connection_at now server st auto start s :
  at_state server st auto start s ->
  exists s', check_connection spaceUsed createPacket now s = Some ((), s') /\ at_state server st auto start s'.
Proof.
  intros Hv. unfold check_connection, mbind, CM_bind, get. cbn [mbind option_bind]. rewrite (vw_state _ _ _ _ _ _ _ _ Hv).
  change (ioc_code ANET_CLOSING) with 4. unfold conn_of in *. destruct (Z.ltb_spec (ioc_code st) 4) as [Hst|Hst].
  - rewrite (proj2 (Z.leb_gt _ _) Hst) in *. apply (conn_op_total (TTimeout now) _ _ _ _ _ _ _ (conn_ok server) _ Hv).
    intros t (Hi & Hh & Hs). destruct (tcp_step_defined spaceUsed createPacket t (TTimeout now) Hi I) as [t' Er]. exists t'. split; [done|].
    destruct (tcp_step_ok spaceUsed createPacket t (TTimeout now) t' Hi I Er) as [Hi' Ecf]. split; [done|]. by rewrite Ecf.
  - rewrite (proj2 (Z.leb_le _ _) Hst) in *.
    destruct (on_connection_total (fun t => Some ((), clearOutputBuffer t)) _ _ _ _ _ _ _ (conn_closed server) _ Hv) as ([] & s1 & E1 & Hv1).
    { intros t Ht. by exists (), (clearOutputBuffer t). }
    rewrite E1. cbn [mbind option_bind]. apply (conn_op_total TClose _ _ _ _ _ _ _ (conn_closed server) _ Hv1).
    intros t [_ (Hi & Hh & Hs)]. destruct (close_quiet spaceUsed createPacket t Hi) as (t' & Er & Hq & Ecf). exists t'. split; [done|].
    split; [done|]. split; [apply Hq|by rewrite Ecf].
Qed.

Lemma checkTimeout_at now ref server st auto start s b s' :
  at_state server st auto start s ->
  checkTimeout spaceUsed createPacket getConnectTimeout getEnableSocketNonBlockConnect now ref s = Some (b, s') ->
  exists st' auto' start', at_state server st' auto' start' s' /\ tick now ref st auto start b st' auto' start'.
Proof.
  intros Hv E. unfold checkTimeout, mbind, CM_bind, get in E. cbn [mbind option_bind] in E.
  destruct (vw_conn _ _ _ _ _ _ _ _ Hv) as (t & Et & Ht). rewrite Et in E. cbn [mbind option_bind] in E.
  destruct (check_connection_at now _ _ _ _ _ Hv) as (s1 & E1 & Hv1). rewrite E1 in E. cbn [mbind option_bind] in E.
  apply bind_Some_inv in E as ([[] s2] & E2 & E).
  assert (Hv2 : at_state server st auto start s2) by (by eapply shrink_buffers_partial).
  destruct (check_state_at now ref _ _ _ _ _ Hv2) as (b' & s3 & st' & auto' & start' & E3 & Hv3 & Ht3). rewrite E3 in E. injection E as <- <-.
  by exists st', auto', start'.
Qed.

(** ** The start of a component *)

(** The part of [Transport::doConnect] and of [TCPAcceptor::handleReadEvent]
    that makes a component. *)
Definition connect_component (autoReconn : bool) (now bufSize : Z) : CM P bool :=
  ok ← init spaceUsed createPacket getEnableSocketNonBlockConnect false now;
  if negb ok then mret false
  else
    _ ← upd_comp (setAutoReconn autoReconn);
    createConnection true false now bufSize.

Definition accept_component (maxIdleTime now bufSize : Z) : CM P bool :=
  _ ← upd_comp (setMaxIdleTime maxIdleTime);
  ok ← init spaceUsed createPacket getEnableSocketNonBlockConnect true now;
  if negb ok then mret false else createConnection true true now bufSize.

(** A step on the socket of a run that is already known. *)
Ltac on_socket_step E :=
  match type of E with context [on_socket ?m ?x] =>
    let E1 := fresh in destruct (on_socket_eq m x) as (? & ? & ? & _ & E1); rewrite E1 in E; clear E1
  end; cbn [mbind option_bind comp posted] in E.

Lemma conn_ok_new server adapter now bufSize :
  (server = true -> adapter = true) -> conn_ok server (TCPConnection_new true server adapter now bufSize).
Proof.
  intros Ha. split; [|done]. split; [by split|]. exists [], [], [], []. exact (conn_inv_new true server adapter None now).
Qed.

Lemma init_eq isServer now s b s' :
  _state (comp s) = ANET_TO_BE_CONNECTING -> _connection (comp s) = None ->
  init spaceUsed createPacket getEnableSocketNonBlockConnect isServer now s = Some (b, s') -> b = true ->
  posted s' = posted s /\
  comp s' = with_socketEvent true (with_isServer isServer (with_enable true (negb isServer)
    (with_startConnectTime now (updateUseTime now (with_state (if isServer then ANET_CONNECTED else ANET_CONNECTING) (comp s)))))).
Proof.
  intros Hst Hc E ->. unfold init, mbind, CM_bind in E. do 3 on_socket_step E. destruct isServer; cbn [negb] in E.
  - on_socket_step E. unfold setState, mbind, CM_bind, get, upd_comp in E. cbn in E. rewrite Hst in E. cbn in E. rewrite Hc in E. cbn in E. by injection E as <-.
  - match type of E with context [socketConnect ?g ?x] => destruct (socketConnect_eq x) as (ok & s1 & E1 & Ec & Ep & _) end.
    rewrite E1 in E. cbn [mbind option_bind comp posted] in *. destruct ok; cbn [negb] in E; [|by injection E].
    unfold setState, mbind, CM_bind, get, upd_comp in E. cbn in E. rewrite Ec, Hst in E. cbn in E. rewrite Hc in E. cbn in E. injection E as <-.
    cbn. by rewrite Ep.
Qed.

Lemma createConnection_view adapter now bufSize s b s' server st auto start :
  createConnection true adapter now bufSize s = Some (b, s') -> b = true ->
  _state (comp s) = st -> ioc_isServer (comp s) = server -> _autoReconn (comp s) = auto -> _startConnectTime (comp s) = start ->
  view server st auto start true true (conn_ok server) s'.
Proof.
  intros E -> Hst Hs Ha Hstart. unfold createConnection, mbind, CM_bind, get, upd_comp, undefined in E. cbn [mbind option_bind comp negb] in E. rewrite Hs in E.
  destruct (server && negb adapter) eqn:Eb; [by injection E|]. cbn [_socketEvent with_inEpoll with_connection] in E.
  destruct (_socketEvent (comp s)) eqn:Eev; cbn [negb] in E; [|done]. cbn [mbind option_bind comp _enableRead _enableWrite with_inEpoll with_connection] in E.
  on_socket_step E. injection E as <-. split; try done; cbn.
  - eexists. split; [done|]. apply conn_ok_new. by destruct server, adapter.
  - by rewrite listed_snoc.
Qed.

Lemma connect_component_at autoReconn now0 now bufSize sk k s' :
  connect_component autoReconn now bufSize (mkC (TCPComponent_new now0) sk k []) = Some (true, s') ->
  at_state false ANET_CONNECTING (if autoReconn then MAX_RECONNECTING_TIMES else 0) now s'.
Proof.
  intros E. unfold connect_component, mbind, CM_bind in E. apply bind_Some_inv in E as ([ok s1] & E1 & E). destruct ok; [|by injection E]. cbn [negb] in E.
  destruct (init_eq false now (mkC (TCPComponent_new now0) sk k []) true s1 eq_refl eq_refl E1 eq_refl) as [Ep Ec]. unfold upd_comp in E. cbn [mbind option_bind] in E.
  eapply createConnection_view; [exact E|done|..]; cbn; rewrite Ec; try done. by destruct autoReconn.
Qed.

Lemma accept_component_at maxIdleTime now0 now bufSize sk k s' :
  accept_component maxIdleTime now bufSize (mkC (TCPComponent_new now0) sk k []) = Some (true, s') ->
  at_state true ANET_CONNECTED 0 now s'.
Proof.
  intros E. unfold accept_component, mbind, CM_bind, upd_comp in E. cbn [mbind option_bind] in E.
  apply bind_Some_inv in E as ([ok s1] & E1 & E). destruct ok; [|by injection E]. cbn [negb] in E.
  destruct (init_eq true now (mkC (setMaxIdleTime maxIdleTime (TCPComponent_new now0)) sk k []) true s1 eq_refl eq_refl E1 eq_refl) as [Ep Ec].
  eapply createConnection_view; [exact E|done|..]; cbn; by rewrite Ec.
Qed.

(** ** What the timer keeps besides *)

(** A property of the component that an operation keeps when it returns. *)
Definition keeps {A} (I : TCPComponent P -> Prop) (m : CM P A) : Prop :=
  forall s x s', I (comp s) -> m s = Some (x, s') -> I (comp s').

Section Keeps.

Context {I : TCPComponent P -> Prop}.

Lemma keeps_bind {A B} (m : CM P A) (f : A -> CM P B) : keeps I m -> (forall x, keeps I (f x)) -> keeps I (m ≫= f).
Proof. intros Hm Hf s x s' Hs E. unfold mbind, CM_bind in E. apply bind_Some_inv in E as ([y s1] & E1 & E). eapply Hf; [|exact E]. by eapply Hm. Qed.

Lemma keeps_ret {A} (x : A) : keeps I (mret x : CM P A).
Proof. intros s y s' Hs E. by injection E as _ <-. Qed.

Lemma keeps_undefined {A} : keeps I (undefined : CM P A).
Proof. done. Qed.

Lemma keeps_get {A} (f : TCPComponent P -> A) : keeps I (get f).
Proof. intros s y s' Hs E. by injection E as _ <-. Qed.

Lemma keeps_upd f : (forall c, I c -> I (f c)) -> keeps I (upd_comp f).
Proof. intros Hf s y s' Hs E. injection E as _ <-. cbn. auto. Qed.

Lemma keeps_socket {A} (m : SM A) : keeps I (on_socket m).
Proof. intros s y s' Hs E. destruct (on_socket_eq m s) as (x & sk & k & _ & E1). rewrite E1 in E. by injection E as _ <-. Qed.

Lemma keeps_post c : keeps I (postCommand c).
Proof. intros s y s' Hs E. by injection E as _ <-. Qed.

Lemma keeps_if {A} (b : bool) (m1 m2 : CM P A) : keeps I m1 -> keeps I m2 -> keeps I (if b then m1 else m2).
Proof. by destruct b. Qed.

End Keeps.

#[local] Hint Resolve keeps_bind keeps_ret keeps_undefined keeps_get keeps_socket keeps_post keeps_if keeps_upd : keeps.
#[local] Hint Extern 2 (keeps _ (match ?o with Some _ => _ | None => _ end)) => destruct o : keeps.

(** The operations keep what the flags, the states and times do not touch and
    calls of the connection keep. *)
Section Timer.

Context (I : TCPComponent P -> Prop).
Context (I_enable : forall r w c, I c -> I (with_enable r w c)).
Context (I_state : forall v c, I c -> I (with_state v c)).
Context (I_auto : forall v c, I c -> I (with_autoReconn v c)).
Context (I_start : forall v c, I c -> I (with_startConnectTime v c)).
Context (I_ep : forall v c, I c -> I (with_inEpoll v c)).
Context (I_shrink : forall v c, I c -> I (with_shrinkCount v c)).
Context (I_conn : forall c t op t', I c -> _connection c = Some t -> tcp_run spaceUsed createPacket t op = Some t' ->
  (op = TClose \/ exists now, op = TTimeout now) -> I (with_connection t' c)).

#[local] Hint Resolve I_enable I_state I_auto I_start I_ep I_shrink : keeps.

Lemma keeps_set_event : keeps I set_event.
Proof. unfold set_event. auto 20 with keeps nocore. Qed.

Lemma keeps_run_events es : keeps I (run_events es).
Proof using HB HC I_enable.
  induction es as [|e es IH]; cbn [run_events]; [apply keeps_ret|]. apply keeps_bind; [|done].
  pose proof keeps_set_event. destruct e; cbn [run_event]; unfold enableWrite; auto 20 with keeps nocore.
Qed.

Lemma keeps_on_connection {A} (f : TCPConnection P -> option (A * TCPConnection P)) :
  (forall c t x t', I c -> _connection c = Some t -> f t = Some (x, t') -> I (with_connection t' c)) -> keeps I (on_connection f).
Proof using HB HC I_enable.
  intros Hf s x s' Hs E. unfold on_connection in E. apply bind_Some_inv in E as (t & Et & E). apply bind_Some_inv in E as ([y t'] & Ef & E).
  apply bind_Some_inv in E as ([u s1] & E1 & [= _ <-]). eapply keeps_run_events; [|exact E1]. cbn. by eapply Hf.
Qed.

Lemma keeps_conn_op op : op = TClose \/ (exists now, op = TTimeout now) -> keeps I (conn_op spaceUsed createPacket op).
Proof using HB HC I_enable I_conn.
  intros Hop. apply keeps_on_connection. intros c t x t' Hc Et E. apply bind_Some_inv in E as (t1 & E1 & [= _ <-]). by eapply I_conn.
Qed.

Lemma keeps_setState new : keeps I (setState spaceUsed createPacket new).
Proof using HB HC I_enable I_conn I_state.
  unfold setState. pose proof (keeps_conn_op TClose (or_introl eq_refl)). auto 20 with keeps nocore.
Qed.

Lemma keeps_closeAndSetState : keeps I (closeAndSetState spaceUsed createPacket).
Proof using HB HC I_enable I_conn I_state I_ep.
  unfold closeAndSetState, closeSocketNoLock. pose proof keeps_setState. auto 20 with keeps nocore.
Qed.

Lemma keeps_socketReconnect now : keeps I (socketReconnect getEnableSocketNonBlockConnect now).
Proof using HB HC I_enable I_start I_ep. unfold socketReconnect, socketConnect. auto 30 with keeps nocore. Qed.

Lemma keeps_check_state now ref : keeps I (check_state spaceUsed createPacket getConnectTimeout getEnableSocketNonBlockConnect now ref).
Proof using HB HC I_enable I_conn I_state I_ep I_start I_auto.
  unfold check_state. pose proof keeps_setState. pose proof keeps_closeAndSetState. pose proof (keeps_socketReconnect now).
  do 6 (apply keeps_bind; [apply keeps_get|intros ?]). destruct x; auto 30 with keeps nocore.
Qed.

Context (I_clear : forall c t, I c -> _connection c = Some t -> I (with_connection (clearOutputBuffer t) c)).

Lemma keeps_check_connection now : keeps I (check_connection spaceUsed createPacket now).
Proof using HB HC I_enable I_conn I_clear.
  unfold check_connection. pose proof (keeps_conn_op TClose (or_introl eq_refl)). pose proof (keeps_conn_op (TTimeout now) (or_intror (ex_intro _ now eq_refl))).
  apply keeps_bind; [apply keeps_get|intros st]. apply keeps_if; [done|]. apply keeps_bind; [|done].
  apply keeps_on_connection. intros c t x t' Hc Et [= _ <-]. by apply I_clear.
Qed.

End Timer.

(** With well-formed buffers a check returns, and keeps them so. *)
Definition buffers_ok t : Prop := (exists d, rep (_input t) d) /\ exists d, rep (_output t) d.
Definition comp_buffers (c : TCPComponent P) : Prop := exists t, _connection c = Some t /\ buffers_ok t.

Lemma comp_buffers_conn c t op t' :
  comp_buffers c -> _connection c = Some t -> tcp_run spaceUsed createPacket t op = Some t' ->
  (op = TClose \/ exists now, op = TTimeout now) -> comp_buffers (with_connection t' c).
Proof.
  intros (t0 & E0 & Hb) Et E Hop. rewrite Et in E0. injection E0 as <-. exists t'. split; [done|].
  destruct Hop as [->|[now ->]]; cbn [tcp_run] in E; apply bind_Some_inv in E as (c' & _ & [= <-]); exact Hb.
Qed.

Lemma comp_buffers_clear c t : comp_buffers c -> _connection c = Some t -> comp_buffers (with_connection (clearOutputBuffer t) c).
Proof.
  intros (t0 & E0 & Hi & d & Ho) Et. rewrite Et in E0. injection E0 as <-. exists (clearOutputBuffer t). split; [done|].
  split; [exact Hi|]. exists []. by eapply rep_clear.
Qed.

Lemma shrink_total s :
  comp_buffers (comp s) -> exists s', shrink_buffers s = Some ((), s') /\ comp_buffers (comp s').
Proof.
  intros Hb. unfold shrink_buffers, mbind, CM_bind, get, upd_comp. cbn [mbind option_bind]. set (s1 := mkC _ _ _ _).
  destruct (_ <=? 0); [|by exists s1]. destruct Hb as (t & Et & (d1 & R1) & (d2 & R2)).
  assert (Hf : exists t', shrink_if_large t = Some ((), t') /\ buffers_ok t').
  { unfold shrink_if_large. destruct (rep_shrink _ _ R1) as (b1 & E1 & Q1). destruct (rep_shrink _ _ R2) as (b2 & E2 & Q2).
    assert (Hin : exists t1, (if _maxRecvPacketSize t <? Z.shiftr (_inputBufferSpaceAllocated t) 1 then shrinkInputBuffer t else Some t) = Some t1 /\
      (exists d, rep (_input t1) d) /\ _output t1 = _output t).
    { destruct (_ <? _); [|eauto]. unfold shrinkInputBuffer. rewrite E1. cbn [mbind option_bind]. eexists. split; [done|]. split; [by exists d1|done]. }
    destruct Hin as (t1 & -> & Hi1 & Eo). cbn [mbind option_bind].
    destruct (_ <? _); [|eexists; split; [done|]; split; [done|exists d2; cbn; by rewrite Eo]].
    unfold shrinkOutputBuffer. rewrite Eo, E2. cbn [mbind option_bind]. eexists. split; [done|]. split; [done|by exists d2]. }
  destruct Hf as (t' & Ef & Hb'). unfold on_connection. cbn [comp s1 with_shrinkCount _connection]. rewrite Et. cbn [mbind option_bind].
  rewrite Ef. cbn [mbind option_bind]. set (s2 := mkC _ _ _ _).
  assert (Hes : forall es s, exists s', run_events es s = Some ((), s') /\ _connection (comp s') = _connection (comp s)).
  { clear -HB HC. induction es as [|e es IH]; intros s; [by exists s|]. cbn [run_events]. unfold mbind, CM_bind at 1. cbn [mbind option_bind].
    assert (He : exists s1, run_event e s = Some ((), s1) /\ _connection (comp s1) = _connection (comp s)).
    { destruct e; try (by exists s); cbn [run_event].
      - unfold enableWrite, set_event, mbind, CM_bind, upd_comp, get. cbn [mbind option_bind comp]. destruct (_ && _); [|by eexists].
        match goal with |- context [on_socket ?m ?x] => destruct (on_socket_eq m x) as (? & ? & ? & _ & ->) end. by eexists.
      - destruct (on_socket_eq shutdown s) as ([] & ? & ? & _ & ->). by eexists. }
    destruct He as (s1 & -> & E1). cbn [mbind option_bind]. destruct (IH s1) as (s' & -> & E'). exists s'. by rewrite E', E1. }
  match goal with |- context [run_events ?es ?x] => destruct (Hes es x) as (s3 & -> & E3) end. cbn [mbind option_bind].
  eexists. split; [done|]. exists t'. split; [exact E3|done].
Qed.

Lemma checkTimeout_total now ref server st auto start s :
  at_state server st auto start s -> comp_buffers (comp s) ->
  exists b s' st' auto' start',
    checkTimeout spaceUsed createPacket getConnectTimeout getEnableSocketNonBlockConnect now ref s = Some (b, s') /\
    at_state server st' auto' start' s' /\ tick now ref st auto start b st' auto' start' /\ comp_buffers (comp s').
Proof.
  intros Hv Hb. unfold checkTimeout, mbind, CM_bind, get. cbn [mbind option_bind].
  destruct (vw_conn _ _ _ _ _ _ _ _ Hv) as (t & Et & Ht). rewrite Et. cbn [mbind option_bind].
  destruct (check_connection_at now _ _ _ _ _ Hv) as (s1 & E1 & Hv1). rewrite E1. cbn [mbind option_bind].
  assert (Hb1 : comp_buffers (comp s1)).
  { eapply (keeps_check_connection comp_buffers); [..|exact Hb|exact E1]; try done; intros; first [by eapply comp_buffers_conn|by apply comp_buffers_clear]. }
  destruct (shrink_total s1 Hb1) as (s2 & E2 & Hb2). rewrite E2. cbn [mbind option_bind].
  assert (Hv2 : at_state server st auto start s2) by (by eapply shrink_buffers_partial).
  destruct (check_state_at now ref _ _ _ _ _ Hv2) as (b & s3 & st' & auto' & start' & E3 & Hv3 & Ht3).
  exists b, s3, st', auto', start'. split_and!; try done.
  eapply (keeps_check_state comp_buffers); [..|exact Hb2|exact E3]; try done. intros. by eapply comp_buffers_conn.
Qed.

(** ** Runs of a component *)

Inductive comp_op :=
| CReconnect (now : Z)
| CClose
| CWrite (now : Z) (writes : list (Z + Z))
| CRead (reads : list (list Z + Z))
| CError
| CTimeout (now ref : Z)
| CAutoReconn (on : bool)
| CUseTime (now : Z)
| CMaxIdle (ms : Z)
| CEnableRead (on : bool)
| CEnableWrite (on : bool)
| CPost (now0 now : Z) (x : ptr) (p : P) (handler args : option positive) (block : bool)
| CWake (x : ptr) (p : P) (handler args : option positive).

Definition comp_run (op : comp_op) : CM P () :=
  match op with
  | CReconnect now => _ ← reconnect spaceUsed createPacket getEnableSocketNonBlockConnect now; mret ()
  | CClose => closeConnection spaceUsed createPacket
  | CWrite now writes => _ ← handleWriteEvent spaceUsed createPacket now writes; mret ()
  | CRead reads => _ ← handleReadEvent spaceUsed createPacket reads; mret ()
  | CError => _ ← handleErrorEvent spaceUsed createPacket; mret ()
  | CTimeout now ref => _ ← checkTimeout spaceUsed createPacket getConnectTimeout getEnableSocketNonBlockConnect now ref; mret ()
  | CAutoReconn on => upd_comp (setAutoReconn on)
  | CUseTime now => upd_comp (updateUseTime now)
  | CMaxIdle ms => upd_comp (setMaxIdleTime ms)
  | CEnableRead on => enableRead on
  | CEnableWrite on => enableWrite on
  | CPost now0 now x p handler args block => conn_op spaceUsed createPacket (TPost now0 now x p handler args block)
  | CWake x p handler args => conn_op spaceUsed createPacket (TWake x p handler args)
  end.

(** What a caller must respect: a post that fits the connection; only a sender
    of a client that waited for room is woken. *)
Definition comp_may s (op : comp_op) : Prop :=
  forall t, _connection (comp s) = Some t ->
  match op with
  | CPost now0 now x p handler args block => tcp_may t (TPost now0 now x p handler args block)
  | CWake x p handler args => tcp_may t (TWake x p handler args) /\ _isServer (cfg (tconn t)) = false /\ 0 < _queueLimit (cfg (tconn t))
  | _ => True
  end.

Inductive comp_reachable : cstate P -> Prop :=
| reach_connect autoReconn now0 now bufSize sk k s :
    connect_component autoReconn now bufSize (mkC (TCPComponent_new now0) sk k []) = Some (true, s) -> comp_reachable s
| reach_accept maxIdleTime now0 now bufSize sk k s :
    accept_component maxIdleTime now bufSize (mkC (TCPComponent_new now0) sk k []) = Some (true, s) -> comp_reachable s
| reach_step s op s' : comp_reachable s -> comp_may s op -> comp_run op s = Some ((), s') -> comp_reachable s'.

(** The states and the moves between them. *)
Inductive ioc_step : IOCState -> IOCState -> Prop :=
| ioc_stay st : ioc_step st st
| ioc_connected : ioc_step ANET_CONNECTING ANET_CONNECTED
| ioc_lost st auto : live st = true -> ioc_step st (lost auto)
| ioc_close st : ioc_code st < 4 -> ioc_step st ANET_CLOSING
| ioc_retry : ioc_step ANET_TO_BE_CONNECTING ANET_CONNECTING
| ioc_manual : ioc_step ANET_CLOSING ANET_CONNECTING
| ioc_closed : ioc_step ANET_CLOSING ANET_CLOSED.

Definition auto_ok (server : bool) (auto : Z) : Prop := 0 <= auto <= MAX_RECONNECTING_TIMES /\ (server = true -> auto = 0).

Lemma tick_step now ref server st auto start b st' auto' start' :
  tick now ref st auto start b st' auto' start' -> auto_ok server auto -> ioc_step st st' /\ auto_ok server auto'.
Proof.
  clear spaceUsed createPacket. unfold auto_ok, MAX_RECONNECTING_TIMES. intros Ht [Ha Hs]. assert (Hi : 1 <= auto -> i32 (auto - 1) = auto - 1).
  { intros H1. apply i32_small. unfold INT_MIN, INT_MAX. lia. }
  destruct Ht as [|auto start|auto start|auto start|auto start|auto start]; try (split; [constructor; done|tauto]).
  - split; [by constructor|lia].
  - rewrite Hi by lia. split; [constructor|destruct server; lia].
  - rewrite Hi by lia. split; [|destruct server; lia]. unfold lost. destruct (_ =? 0); cbn [negb]; constructor. done.
Qed.

(** A call of the connection by a user. *)
Lemma conn_op_user op server st auto start s s' :
  at_state server st auto start s -> conn_op spaceUsed createPacket op s = Some ((), s') ->
  (forall t t', conn_of server st t -> _connection (comp s) = Some t -> tcp_run spaceUsed createPacket t op = Some t' -> conn_of server st t') ->
  at_state server st auto start s'.
Proof.
  intros Hv E Hop. destruct (vw_conn _ _ _ _ _ _ _ _ Hv) as (t & Et & Ht).
  assert (Hv1 : view server st auto start (ep_of st) (ep_of st) (fun u => u = t /\ conn_of server st u) s).
  { destruct Hv as [_]. split; try done. by exists t. }
  unfold conn_op in E. eapply on_connection_partial; [exact Hv1|exact E|]. intros u u' [-> Hu] Eu.
  apply bind_Some_inv in Eu as (t1 & E1 & [= <-]). by eapply Hop.
Qed.

Lemma comp_step_at op server st auto start s s' :
  at_state server st auto start s -> auto_ok server auto -> comp_may s op -> comp_run op s = Some ((), s') ->
  exists st' auto' start', at_state server st' auto' start' s' /\ ioc_step st st' /\ auto_ok server auto'.
Proof.
  intros Hv Ha Hmay E. assert (Hrenew : auto_ok server (renewed server auto)).
  { unfold auto_ok, renewed, MAX_RECONNECTING_TIMES in *. destruct (negb _), server; cbn; lia. }
  destruct op; cbn [comp_run] in E; unfold mbind, CM_bind in E.
  - destruct (reconnect_at now _ _ _ _ _ Hv) as (rc & s1 & start' & E1 & Hv1 & Hrc & _). rewrite E1 in E. injection E as <-.
    eexists _, auto, start'. split; [exact Hv1|]. split; [|done]. case_decide as Hd; [|constructor].
    destruct (proj1 Hrc (or_introl Hd)) as [_ ->]. constructor.
  - destruct (closeConnection_at _ _ _ _ _ Hv) as (s1 & E1 & Hv1). rewrite E1 in E. injection E as <-.
    eexists _, auto, start. split; [exact Hv1|]. split; [|done]. destruct (Z.ltb_spec (ioc_code st) 4); by constructor.
  - apply bind_Some_inv in E as ([b s1] & E1 & [= <-]). destruct (handleWriteEvent_at _ _ _ _ _ _ _ _ _ Hv E1) as [Hv1 _].
    eexists _, _, start. split; [exact Hv1|]. split; [|by case_decide]. destruct (live st) eqn:El; [|constructor].
    destruct b; [destruct st; try done; constructor|by constructor].
  - apply bind_Some_inv in E as ([b s1] & E1 & [= <-]). destruct (handleReadEvent_at _ _ _ _ _ _ _ _ Hv E1) as [Hv1 _].
    eexists _, auto, start. split; [exact Hv1|]. split; [|done]. case_decide as Hd; [subst; destruct b; by constructor|constructor].
  - destruct (handleErrorEvent_at _ _ _ _ _ Hv) as (s1 & E1 & Hv1). rewrite E1 in E. injection E as <-.
    eexists _, auto, start. split; [exact Hv1|]. split; [|done]. destruct (live st) eqn:El; by constructor.
  - apply bind_Some_inv in E as ([b s1] & E1 & [= <-]). destruct (checkTimeout_at _ _ _ _ _ _ _ _ _ Hv E1) as (st' & auto' & start' & Hv1 & Ht).
    exists st', auto', start'. split; [exact Hv1|]. by eapply tick_step.
  - injection E as <-. exists st, (if server || negb on then 0 else MAX_RECONNECTING_TIMES), start. split; [|split; [constructor|]].
    + destruct Hv as [? ? ? ? Hs]. split; try done. cbn. by rewrite Hs.
    + unfold auto_ok, MAX_RECONNECTING_TIMES. destruct server, on; cbn; lia.
  - injection E as <-. exists st, auto, start. split; [by destruct Hv|]. by split; [constructor|].
  - injection E as <-. exists st, auto, start. split; [by destruct Hv|]. by split; [constructor|].
  - unfold enableRead, mbind, CM_bind, upd_comp in E. cbn [mbind option_bind] in E. exists st, auto, start. split; [|by split; [constructor|]].
    destruct (set_event_view _ _ _ _ _ _ _ _ (enable_view _ _ _ _ _ _ _ s on (_enableWrite (comp s)) Hv)) as (s1 & E1 & Hv1 & _). rewrite E1 in E. by injection E as <-.
  - unfold enableWrite, mbind, CM_bind, upd_comp in E. cbn [mbind option_bind] in E. exists st, auto, start. split; [|by split; [constructor|]].
    destruct (set_event_view _ _ _ _ _ _ _ _ (enable_view _ _ _ _ _ _ _ s (_enableRead (comp s)) on Hv)) as (s1 & E1 & Hv1 & _). rewrite E1 in E. by injection E as <-.
  - exists st, auto, start. split; [|by split; [constructor|]]. eapply conn_op_user; [exact Hv|exact E|]. intros t t' Ht Et Er. specialize (Hmay t Et). cbn beta iota in Hmay.
    assert (Hok : conn_ok server t') by (destruct (conn_of_ok _ _ _ Ht) as (Hi & Hh & Hs); destruct (tcp_step_ok _ _ _ _ _ Hi Hmay Er) as [Hi' Ec]; by rewrite <- Ec in *).
    unfold conn_of in *. destruct (4 <=? _); [|done]. split; [|done]. destruct Ht as [Hq _].
    destruct (quiet_post spaceUsed createPacket t now0 now x p handler args block Hq) as (t1 & E1 & Hq1 & _). rewrite E1 in Er. by injection Er as <-.
  - exists st, auto, start. split; [|by split; [constructor|]]. eapply conn_op_user; [exact Hv|exact E|]. intros t t' Ht Et Er. destruct (Hmay t Et) as (Hm & Hcl & Hlim).
    assert (Hok : conn_ok server t') by (destruct (conn_of_ok _ _ _ Ht) as (Hi & Hh & Hs); destruct (tcp_step_ok _ _ _ _ _ Hi Hm Er) as [Hi' Ec]; by rewrite <- Ec in *).
    unfold conn_of in *. destruct (4 <=? _); [|done]. split; [|done]. destruct Ht as [Hq _].
    destruct (quiet_wake spaceUsed createPacket t x p handler args Hq Hcl Hlim) as (t1 & E1 & Hq1 & _). rewrite E1 in Er. by injection Er as <-.
Qed.

(** The operations that do not read, write or check are defined. *)
Lemma comp_op_defined op server st auto start s :
  at_state server st auto start s -> comp_may s op ->
  match op with CWrite _ _ | CRead _ | CTimeout _ _ => True | _ => exists s', comp_run op s = Some ((), s') end.
Proof.
  intros Hv Hmay. assert (Huser : forall top, (forall t, _connection (comp s) = Some t -> tcp_may t top) ->
    match top with TRead _ | TWrite _ _ => True | _ => exists s', conn_op spaceUsed createPacket top s = Some ((), s') end).
  { intros top Hm. enough (He : match top with TRead _ | TWrite _ _ => True | _ =>
      forall t, _connection (comp s) = Some t /\ conn_of server st t -> exists t', tcp_run spaceUsed createPacket t top = Some t' /\ True end).
    { assert (Hv1 : view server st auto start (ep_of st) (ep_of st) (fun t => _connection (comp s) = Some t /\ conn_of server st t) s).
      { destruct Hv as [(t & Et & Ht)]. split; try done. by exists t. }
      destruct top; try done; destruct (conn_op_total _ _ _ _ _ _ _ _ (fun _ => True) _ Hv1 He) as (s' & E & _); by exists s'. }
    destruct top; try done; intros t [Et Ht]; destruct (conn_of_ok _ _ _ Ht) as (Hi & _);
      destruct (tcp_step_defined spaceUsed createPacket t _ Hi (Hm t Et)) as [t' E]; by exists t'. }
  destruct op; try done; cbn [comp_run]; unfold mbind, CM_bind.
  - destruct (reconnect_at now _ _ _ _ _ Hv) as (rc & s1 & ? & -> & _). by exists s1.
  - destruct (closeConnection_at _ _ _ _ _ Hv) as (s1 & -> & _). by exists s1.
  - destruct (handleErrorEvent_at _ _ _ _ _ Hv) as (s1 & -> & _). by exists s1.
  - by eexists.
  - by eexists.
  - by eexists.
  - unfold enableRead, mbind, CM_bind, upd_comp. cbn [mbind option_bind].
    destruct (set_event_view _ _ _ _ _ _ _ _ (enable_view _ _ _ _ _ _ _ s on (_enableWrite (comp s)) Hv)) as (s1 & E1 & _). by exists s1.
  - unfold enableWrite, mbind, CM_bind, upd_comp. cbn [mbind option_bind].
    destruct (set_event_view _ _ _ _ _ _ _ _ (enable_view _ _ _ _ _ _ _ s (_enableRead (comp s)) on Hv)) as (s1 & E1 & _). by exists s1.
  - apply (Huser (TPost now0 now x p handler args block)). intros t Et. exact (Hmay t Et).
  - apply (Huser (TWake x p handler args)). intros t Et. apply (Hmay t Et).
Qed.

Lemma comp_reachable_at s : comp_reachable s -> exists server st auto start, at_state server st auto start s /\ auto_ok server auto.
Proof.
  induction 1 as [autoReconn now0 now bufSize sk k s E|maxIdleTime now0 now bufSize sk k s E|s op s' _ (server & st & auto & start & Hv & Ha) Hmay E].
  - eexists _, _, _, _. split; [by eapply connect_component_at|]. unfold auto_ok, MAX_RECONNECTING_TIMES. by destruct autoReconn.
  - eexists _, _, _, _. split; [by eapply accept_component_at|]. unfold auto_ok, MAX_RECONNECTING_TIMES. by split.
  - destruct (comp_step_at op _ _ _ _ _ _ Hv Ha Hmay E) as (st' & auto' & start' & Hv' & _ & Ha'). eexists _, _, _, _. split; [exact Hv'|exact Ha'].
Qed.

End Invariant.

(** ** Properties *)

Section Properties.

Context {P : Type} `{IPacket P} {HB : IPacketBase P} {HC : ChannelPacket P}.
Context (spaceUsed : P -> Z) (createPacket : Z -> P).
Context (getConnectTimeout : Z) (getEnableSocketNonBlockConnect : bool).

#[local] Set Default Proof Using "Type+HB+HC".

Implicit Types (s : cstate P) (t : TCPConnection P).

Abbreviation reach := (comp_reachable spaceUsed createPacket getConnectTimeout getEnableSocketNonBlockConnect).
Abbreviation run := (comp_run spaceUsed createPacket getConnectTimeout getEnableSocketNonBlockConnect).
Abbreviation check := (checkTimeout spaceUsed createPacket getConnectTimeout getEnableSocketNonBlockConnect).


(** C13: A component moves as its state machine says.  In every reachable
    state, closing, reconnecting, error events, posts and settings are defined:
    no null connection and no null event is followed.  An operation that
    returns leaves the state alone or takes one of the moves of [ioc_step]: to
    connected from connecting only, from a lost connection to the wait for a
    reconnection or to closing, from closing back to connecting by hand only,
    and from closed nowhere. *)
Theorem component_state_machine s op :
  reach s -> comp_may s op ->
  match op with CWrite _ _ | CRead _ | CTimeout _ _ => True | _ => exists s', run op s = Some ((), s') /\ reach s' end /\
  (forall s', run op s = Some ((), s') ->
     ioc_step (_state (comp s)) (_state (comp s')) /\
     (_state (comp s) = ANET_CLOSED -> _state (comp s') = ANET_CLOSED)).
Proof.
  intros Hr Hmay. destruct (comp_reachable_at _ _ _ _ s Hr) as (server & st & auto & start & Hv & Ha). split.
  - pose proof (comp_op_defined spaceUsed createPacket getConnectTimeout getEnableSocketNonBlockConnect op _ _ _ _ s Hv Hmay) as Hd.
    destruct op; try done; destruct Hd as [s' E]; exists s'; (split; [exact E|by eapply reach_step]).
  - intros s' E. destruct (comp_step_at _ _ _ _ op _ _ _ _ _ _ Hv Ha Hmay E) as (st' & auto' & start' & Hv' & Hst & _).
    rewrite (vw_state _ _ _ _ _ _ _ _ Hv), (vw_state _ _ _ _ _ _ _ _ Hv'). split; [done|]. intros ->. by inversion Hst.
Qed.

(** The checks of the timer at the times [ticks], until the component leaves
    the checking list. *)
Fixpoint checks (ticks : list (Z * Z)) : CM P () :=
  match ticks with
  | [] => mret ()
  | (now, ref) :: ticks => b ← check now ref; if b : bool then checks ticks else mret ()
  end.

(** Each time is later than the one before by more than both limits. *)
Fixpoint spaced (prev : Z) (ticks : list (Z * Z)) : Prop :=
  match ticks with
  | [] => True
  | (now, _) :: ticks => prev + Z.max getConnectTimeout RECONNECTING_INTERVAL < now < 2 ^ 63 /\ spaced now ticks
  end.

Definition hopeless (st : IOCState) (auto : Z) : Prop :=
  st = ANET_CONNECTING \/ (st = ANET_TO_BE_CONNECTING /\ auto <> 0) \/ 4 <= ioc_code st.

(** How many checks the component can still survive. *)
Definition patience (st : IOCState) (auto : Z) : Z :=
  match st with ANET_CONNECTING => 2 * auto + 1 | ANET_TO_BE_CONNECTING => 2 * auto | _ => 0 end.

Ltac patience_cases :=
  split_and!; first [done|lia|by left|right; left; split; [done|lia]|right; right; cbn; lia|intros; cbn in *; lia].

Lemma tick_patience now ref server st auto start b st' auto' start' :
  tick getConnectTimeout now ref st auto start b st' auto' start' -> auto_ok server auto -> 0 <= getConnectTimeout ->
  hopeless st auto -> 0 < start -> start + Z.max getConnectTimeout RECONNECTING_INTERVAL < now < 2 ^ 63 ->
  hopeless st' auto' /\ (ioc_code st < 4 -> start' = now) /\ (4 <= ioc_code st -> 4 <= ioc_code st') /\ (b = false -> 4 <= ioc_code st') /\
  (ioc_code st < 4 -> ioc_code st' < 4 -> patience st' auto' <= patience st auto - 1).
Proof.
  clear spaceUsed createPacket. unfold auto_ok, MAX_RECONNECTING_TIMES, hopeless. intros Ht [Ha _] Hto Hh Hpos [Hgap Hmax].
  assert (Hi : 1 <= auto -> i32 (auto - 1) = auto - 1) by (intros; apply i32_small; unfold INT_MIN, INT_MAX; lia).
  assert (Hw : forall d, 0 <= d < now -> i64 (now - d) = now - d) by (intros d Hd; apply wraps_small; lia).
  unfold RECONNECTING_INTERVAL in *.
  destruct Ht as [st auto start H1 H2 H3|auto start|auto start|auto start|auto start|auto start].
  - unfold RECONNECTING_INTERVAL in *. rewrite (Hw getConnectTimeout) in H1 by lia. rewrite (Hw 1000000) in H2 by lia. destruct st; cbn in *; destruct Hh as [|[[]|]]; try done; try lia;
      try (specialize (H1 eq_refl)); try (specialize (H2 eq_refl)); try lia; patience_cases.
  - unfold lost. destruct (Z.eqb_spec auto 0); cbn; patience_cases.
  - destruct Hh as [|[[]|]]; done.
  - rewrite Hi by lia. cbn; patience_cases.
  - rewrite Hi by lia. unfold lost. destruct (Z.eqb_spec (auto - 1) 0); cbn; patience_cases.
  - cbn; patience_cases.
Qed.

Lemma checks_closed ticks : forall st auto start s,
  view false st auto start (ep_of st) (ep_of st) (conn_of false st) s -> comp_buffers (comp s) -> 4 <= ioc_code st ->
  exists s' st' auto' start', checks ticks s = Some ((), s') /\ 4 <= ioc_code st' /\
    view false st' auto' start' (ep_of st') (ep_of st') (conn_of false st') s'.
Proof.
  induction ticks as [|[now ref] ticks IH]; intros st auto start s Hv Hb Hc; [by exists s, st, auto, start|].
  destruct (checkTimeout_total spaceUsed createPacket getConnectTimeout getEnableSocketNonBlockConnect now ref _ _ _ _ s Hv Hb)
    as (b & s1 & st1 & auto1 & start1 & E & Hv1 & Ht & Hb1).
  assert (Hc1 : 4 <= ioc_code st1) by (destruct Ht; cbn in *; lia).
  cbn [checks]. unfold mbind, CM_bind. rewrite E. cbn [mbind option_bind].
  destruct b; [by eapply IH|by exists s1, st1, auto1, start1].
Qed.

Lemma checks_close ticks : forall st auto start s,
  view false st auto start (ep_of st) (ep_of st) (conn_of false st) s -> auto_ok false auto -> comp_buffers (comp s) -> 0 <= getConnectTimeout ->
  hopeless st auto -> 0 < start -> spaced start ticks -> (ioc_code st < 4 -> patience st auto <= Z.of_nat (length ticks)) ->
  exists s' st' auto' start', checks ticks s = Some ((), s') /\ 4 <= ioc_code st' /\
    view false st' auto' start' (ep_of st') (ep_of st') (conn_of false st') s'.
Proof.
  induction ticks as [|[now ref] ticks IH]; intros st auto start s Hv Ha Hb Hto Hh Hpos Hsp Hlen.
  - exists s, st, auto, start. split; [done|]. split; [|done]. cbn in Hlen. unfold auto_ok in Ha.
    destruct Hh as [->|[[-> ?]|]]; cbn in *; lia.
  - destruct Hsp as [Hgap Hsp]. destruct (checkTimeout_total spaceUsed createPacket getConnectTimeout getEnableSocketNonBlockConnect now ref _ _ _ _ s Hv Hb)
      as (b & s1 & st1 & auto1 & start1 & E & Hv1 & Ht & Hb1).
    destruct (tick_step _ _ _ _ _ _ _ _ _ _ _ Ht Ha) as [_ Ha1].
    destruct (tick_patience _ _ _ _ _ _ _ _ _ _ Ht Ha Hto Hh Hpos Hgap) as (Hh1 & Hn & Hc & Hf & Hp).
    cbn [checks]. unfold mbind, CM_bind. rewrite E. cbn [mbind option_bind]. destruct b; [|exists s1, st1, auto1, start1; auto].
    destruct (Z.lt_ge_cases (ioc_code st) 4) as [H4|H4].
    + rewrite (Hn H4) in *. apply (IH st1 auto1 now s1); try done; [lia|]. intros H4'. specialize (Hlen H4). specialize (Hp H4 H4').
      cbn [length] in Hlen. lia.
    + apply (checks_closed ticks st1 auto1 start1 s1); auto.
Qed.

(** C12: Reconnecting comes to an end and closing answers everyone.  When the
    peer never answers, a client component that is connecting, or waits to
    reconnect with attempts left, is closing after at most twice the attempts
    and one more checks of the timer that are further apart than the two
    limits, whatever the kernel answers to the attempts; then every request
    has been answered. *)
Theorem reconnection_gives_up s ticks :
  reach s -> ioc_isServer (comp s) = false -> comp_buffers (comp s) -> 0 <= getConnectTimeout ->
  _state (comp s) = ANET_CONNECTING \/ _state (comp s) = ANET_TO_BE_CONNECTING /\ _autoReconn (comp s) <> 0 ->
  0 < _startConnectTime (comp s) -> spaced (_startConnectTime (comp s)) ticks ->
  2 * _autoReconn (comp s) + 1 <= Z.of_nat (length ticks) ->
  exists s' t, checks ticks s = Some ((), s') /\ ioc_code ANET_CLOSING <= ioc_code (_state (comp s')) /\
    _connection (comp s') = Some t /\ _closed (tconn t) = true /\ outstanding (tconn t) = [] /\
    asked (dflt_of (tconn t)) (trace (tconn t)) ≡ₚ Connection.answers (trace (tconn t)).
Proof.
  intros Hr Hs Hb Hto Hst Hpos Hsp Hlen. destruct (comp_reachable_at _ _ _ _ s Hr) as (server & st & auto & start & Hv & Ha).
  rewrite (vw_server _ _ _ _ _ _ _ _ Hv) in Hs. subst server.
  rewrite (vw_state _ _ _ _ _ _ _ _ Hv), (vw_auto _ _ _ _ _ _ _ _ Hv) in Hst. rewrite (vw_start _ _ _ _ _ _ _ _ Hv) in Hpos, Hsp.
  rewrite (vw_auto _ _ _ _ _ _ _ _ Hv) in Hlen.
  destruct (checks_close ticks st auto start s Hv Ha Hb Hto) as (s' & st' & auto' & start' & E & Hc & Hv'); try done.
  { destruct Hst as [->|[-> ?]]; [by left|right; left; by split]. }
  { destruct Hst as [->|[-> ?]]; cbn; lia. }
  destruct (vw_conn _ _ _ _ _ _ _ _ Hv') as (t & Et & Ht). unfold conn_of in Ht. rewrite (proj2 (Z.leb_le _ _) Hc) in Ht.
  destruct Ht as [Hq (_ & _ & Hs)]. destruct (quiet_answered t Hq Hs) as (H1 & _ & _ & H2).
  exists s', t. rewrite (vw_state _ _ _ _ _ _ _ _ Hv'). split_and!; try done. apply Hq.
Qed.

End Properties.

(** ** Witnesses

    A client that reconnects by itself and whose connection attempt is on its
    way, with a request posted. *)

Definition client_answers : list (Z * Z) :=
  [(7, 0); (0, 0); (0, 0); (0, 0); (0, 0); (0, 0);        (* socket and its options *)
   (0, 0); (0, 0); (0, 0); (0, 0);                         (* non-blocking, twice *)
   (-1, EINPROGRESS); (40000, 0); (0, 0)].                 (* connect, getsockname, epoll_ctl *)

Definition client_socket : Socket := set_addr sample_addr (Socket_new AF_INET).

Abbreviation dp_connect := (@connect_component DefaultPacket DP dp_space (fun _ => DefaultPacket_new) true).
Abbreviation dp_comp_run := (@comp_run DefaultPacket DP dp_space (fun _ => DefaultPacket_new) 5000000 true).
Abbreviation dp_comp_reachable :=
  (@comp_reachable DefaultPacket DP (DefaultPacket_channel alloc_64M) dp_space (fun _ => DefaultPacket_new) 5000000 true).

Definition client_zero : cstate DefaultPacket := mkC (TCPComponent_new 1000000) client_socket (mkKernel client_answers 0 [] 0) [].
Definition client_start : cstate DefaultPacket :=
  match dp_connect true 1000000 8192 client_zero with Some (_, s) => s | None => client_zero end.

Definition client_post : @comp_op DefaultPacket :=
  CPost 1000 1000 7 (packet_of 0 3 [104; 105]) (Some 5%positive) (Some 6%positive) false.
Definition client_posted : cstate DefaultPacket :=
  match dp_comp_run client_post client_start with Some (_, s) => s | None => client_start end.

Lemma client_start_reachable : dp_comp_reachable client_start.
Proof.
  refine (@reach_connect DefaultPacket DP (DefaultPacket_channel alloc_64M) dp_space (fun _ => DefaultPacket_new) 5000000 true
    true 1000000 1000000 8192 client_socket (mkKernel client_answers 0 [] 0) client_start _).
  vm_compute. reflexivity.
Qed.

Lemma client_may : @comp_may DefaultPacket DP (DefaultPacket_channel alloc_64M) client_start client_post.
Proof. intros t Et. vm_compute in Et. injection Et as <-. repeat split; vm_compute; done. Qed.

Lemma client_posted_reachable : dp_comp_reachable client_posted.
Proof.
  refine (@reach_step DefaultPacket DP (DefaultPacket_channel alloc_64M) dp_space (fun _ => DefaultPacket_new) 5000000 true
    client_start client_post client_posted client_start_reachable client_may _).
  vm_compute. reflexivity.
Qed.

Definition client_closed : cstate DefaultPacket :=
  match dp_comp_run CClose client_posted with Some (_, s) => s | None => client_posted end.

Lemma client_closed_reachable : dp_comp_reachable client_closed.
Proof.
  refine (@reach_step DefaultPacket DP (DefaultPacket_channel alloc_64M) dp_space (fun _ => DefaultPacket_new) 5000000 true
    client_posted CClose client_closed client_posted_reachable (fun _ _ => I) _).
  vm_compute. reflexivity.
Qed.


Lemma component_state_machine_witness :
  exists s', dp_comp_run client_post client_start = Some ((), s') /\ dp_comp_reachable s'.
Proof.
  apply (@component_state_machine DefaultPacket DP (DefaultPacket_Base alloc_64M) (DefaultPacket_channel alloc_64M) dp_space (fun _ => DefaultPacket_new) 5000000 true
    client_start client_post client_start_reachable client_may).
Defined.

(** The peer never answers: 30 attempts, 10 seconds between two checks. *)
Definition silent_ticks : list (Z * Z) := (fun i => (2000000 + 10000000 * Z.of_nat i, 2)) <$> seq 1 61.

Lemma reconnection_gives_up_witness :
  _autoReconn (comp client_posted) = 30 /\
  exists s' t, @checks DefaultPacket DP dp_space (fun _ => DefaultPacket_new) 5000000 true silent_ticks client_posted = Some ((), s') /\
    4 <= ioc_code (_state (comp s')) /\ _connection (comp s') = Some t /\ @outstanding _ DP (tconn t) = [].
Proof.
  assert (Ea : _autoReconn (comp client_posted) = 30) by (vm_compute; reflexivity). split; [exact Ea|].
  destruct (@reconnection_gives_up DefaultPacket DP (DefaultPacket_Base alloc_64M) (DefaultPacket_channel alloc_64M) dp_space (fun _ => DefaultPacket_new) 5000000 true
    client_posted silent_ticks) as (s' & t & E & Hc & Et & _ & Ho & _).
  - exact client_posted_reachable.
  - vm_compute. reflexivity.
  - assert (Eb : exists t, _connection (comp client_posted) = Some t /\ _input t = DataBuffer_new /\ _output t = DataBuffer_new)
      by (eexists; split; [vm_compute; reflexivity|by split]).
    destruct Eb as (t & Et & Ei & Eo). exists t. split; [exact Et|]. split; exists []; [rewrite Ei|rewrite Eo]; apply rep_new.
  - lia.
  - left. vm_compute. reflexivity.
  - assert (Es : _startConnectTime (comp client_posted) = 1000000) by (vm_compute; reflexivity). rewrite Es. lia.
  - assert (Es : _startConnectTime (comp client_posted) = 1000000) by (vm_compute; reflexivity). rewrite Es.
    unfold RECONNECTING_INTERVAL. repeat split; by vm_compute.
  - rewrite Ea. vm_compute. discriminate.
  - exists s', t. split; [exact E|]. split; [exact Hc|]. split; [exact Et|exact Ho].
Defined.
