(* ===== verification/Transport.v ===== *)
(** * IoWorker and Transport

    Sources: ioworker.h, ioworker.cpp, transport.h, transport.cpp and
    iocomponent.cpp under src/agent_engine/network/anet/.

    Components are shared by the threads of a transport and by its users, and
    the last reference frees them.  The heap maps a pointer to a component with
    its counter and its links in the worker's list; an access to a freed
    component is the error [Dangling].  What a component does by itself is
    behind the interface [Component]; an operation is [Stuck] where the
    component's own operation is undefined.

    The transport has one worker, as the default constructor makes it; with
    more workers each component stays with the one it got in [initialize].  A
    step is what a thread does while it holds the lock of a component or of the
    worker: the worker fetches events, handles them one after the other and
    then processes the commands, the timer takes one component of its list at a
    time, and users act in between. *)

From S2P Require Import Prelude TcpComponent.

(** ** The interface of a component *)

(** [C] is the type of components, [W] what they all act on, the kernel.  An
    operation returns the commands it posted to the worker.  [o_handle] also
    returns the components it accepted, each with its commands. *)
Class Component (C W : Type) := {
  o_start : Type;
  o_user : Type;
  o_event : Type;
  o_create : o_start -> W -> option (option (C * list CommandType) * W);
  o_checked : o_start -> bool;            (* the timer will check it *)
  o_run : o_user -> C -> W -> option (C * W * list CommandType);
  o_handle : o_event -> C -> W -> option (C * W * list CommandType * list (C * list CommandType));
  o_close : C -> W -> option (C * W * list CommandType);
  o_checkTimeout : Z -> Z -> C -> W -> option (bool * (C * W * list CommandType));
  o_destroy : C -> W -> option W;
  o_inEpoll : C -> bool
}.

(** Whether the worker lists a component once it has processed its commands. *)
Definition after_command (l : bool) (c : CommandType) : bool := match c with TC_ADD_IOC => true | TC_REMOVE_IOC => false end.
Definition after_commands (l : bool) (cs : list CommandType) : bool := foldl after_command l cs.

(** The most commands one operation posts. *)
Definition MAX_POSTS : nat := 4.

(** What the transport relies on: a component that enters the epoll set or
    leaves it tells its worker, with few commands; closing and destroying are
    always possible. *)
Class ComponentLaws (C W : Type) `{Component C W} := {
  o_inv : C -> Prop;
  o_may : o_user -> C -> Prop;
  posts_ok (o o' : C) (cs : list CommandType) : Prop :=
    o_inv o' /\ after_commands (o_inEpoll o) cs = o_inEpoll o' /\ (length cs <= MAX_POSTS)%nat;
  born_ok (o : C) (cs : list CommandType) : Prop :=
    o_inv o /\ after_commands false cs = o_inEpoll o /\ (length cs <= MAX_POSTS)%nat;
  law_create st w o cs w' : o_create st w = Some (Some (o, cs), w') -> born_ok o cs;
  law_run op o w o' w' cs : o_inv o -> o_may op o -> o_run op o w = Some (o', w', cs) -> posts_ok o o' cs;
  law_handle ev o w o' w' cs new : o_inv o -> o_handle ev o w = Some (o', w', cs, new) ->
    posts_ok o o' cs /\ Forall (fun '(o, cs) => born_ok o cs) new;
  law_close o w : o_inv o -> exists o' w' cs, o_close o w = Some (o', w', cs) /\ posts_ok o o' cs;
  law_check now ref o w b o' w' cs : o_inv o -> o_checkTimeout now ref o w = Some (b, (o', w', cs)) -> posts_ok o o' cs;
  law_destroy o w : o_inv o -> is_Some (o_destroy o w)
}.

(** ** Results *)

Abbreviation ptr := positive.

Inductive res (A : Type) :=
| Ok (x : A)
| Dangling (x : ptr)          (* a freed component is used *)
| Stuck.                      (* a component's operation is undefined *)
Arguments Ok {A} _.
Arguments Dangling {A} _.
Arguments Stuck {A}.

Section Transport.

Context {C W : Type} `{Component C W}.

Record node := mkNode {
  obj : C;
  _refcount : Z;
  _refByReadWriteThread : bool;
  _prev : option ptr;
  _next : option ptr
}.

(** The list of the timer with its iterator: the components it has passed in
    this round and those from the iterator on. *)
Record Transport := mkT {
  heap : gmap ptr node;
  world : W;
  _iocListHead : option ptr;
  _iocListTail : option ptr;
  _commands : list (CommandType * ptr);
  _checkingDone : list ptr;
  _checkingList : list ptr;
  _newCheckingList : list ptr;
  events : list (ptr * o_event)        (* fetched, not yet handled *)
}.

Definition Transport_new (w : W) : Transport := mkT ∅ w None None [] [] [] [] [].

Definition TM (A : Type) : Type := Transport -> res (A * Transport).

#[global] Instance TM_ret : MRet TM := fun A x t => Ok (x, t).
#[global] Instance TM_bind : MBind TM := fun A B f m t =>
  match m t with Ok (x, t) => f x t | Dangling x => Dangling x | Stuck => Stuck end.

Definition gets {A} (f : Transport -> A) : TM A := fun t => Ok (f t, t).
Definition lift {A} (m : option A) : TM A := fun t => match m with Some x => Ok (x, t) | None => Stuck end.
Definition load (x : ptr) : TM node := fun t => match heap t !! x with Some n => Ok (n, t) | None => Dangling x end.

Definition with_heap (h : gmap ptr node) (t : Transport) : Transport :=
  mkT h (world t) (_iocListHead t) (_iocListTail t) (_commands t) (_checkingDone t) (_checkingList t) (_newCheckingList t) (events t).
Definition with_world (w : W) (t : Transport) : Transport :=
  mkT (heap t) w (_iocListHead t) (_iocListTail t) (_commands t) (_checkingDone t) (_checkingList t) (_newCheckingList t) (events t).
Definition with_ends (hd tl : option ptr) (t : Transport) : Transport :=
  mkT (heap t) (world t) hd tl (_commands t) (_checkingDone t) (_checkingList t) (_newCheckingList t) (events t).
Definition with_commands (cs : list (CommandType * ptr)) (t : Transport) : Transport :=
  mkT (heap t) (world t) (_iocListHead t) (_iocListTail t) cs (_checkingDone t) (_checkingList t) (_newCheckingList t) (events t).
Definition with_checking (d l n : list ptr) (t : Transport) : Transport :=
  mkT (heap t) (world t) (_iocListHead t) (_iocListTail t) (_commands t) d l n (events t).
Definition with_events (es : list (ptr * o_event)) (t : Transport) : Transport :=
  mkT (heap t) (world t) (_iocListHead t) (_iocListTail t) (_commands t) (_checkingDone t) (_checkingList t) (_newCheckingList t) es.
Definition modify (f : Transport -> Transport) : TM () := fun t => Ok ((), f t).
Definition modify_node (x : ptr) (f : node -> node) : TM () := _ ← load x; modify (fun t => with_heap (alter f x (heap t)) t).

Definition with_obj (o : C) (n : node) : node := mkNode o (_refcount n) (_refByReadWriteThread n) (_prev n) (_next n).
Definition with_ref (r : Z) (n : node) : node := mkNode (obj n) r (_refByReadWriteThread n) (_prev n) (_next n).
Definition referencedByReadWriteThread (b : bool) (n : node) : node := mkNode (obj n) (_refcount n) b (_prev n) (_next n).
Definition with_prev (p : option ptr) (n : node) : node := mkNode (obj n) (_refcount n) (_refByReadWriteThread n) p (_next n).
Definition with_next (p : option ptr) (n : node) : node := mkNode (obj n) (_refcount n) (_refByReadWriteThread n) (_prev n) p.

(** ** References *)

Definition addRef (x : ptr) : TM () := modify_node x (fun n => with_ref (i32 (_refcount n + 1)) n).

(** [delete this] runs the destructor. *)
Definition subRef (x : ptr) : TM () :=
  n ← load x;
  if i32 (_refcount n - 1) =? 0 then
    w ← gets world;
    w ← lift (o_destroy (obj n) w);
    _ ← modify (with_world w);
    modify (fun t => with_heap (delete x (heap t)) t)
  else modify_node x (fun n => with_ref (i32 (_refcount n - 1)) n).

(** [new] *)
Definition alloc (o : C) : TM ptr :=
  x ← gets (fun t => fresh (dom (heap t)));
  _ ← modify (fun t => with_heap (<[x := mkNode o 1 false None None]> (heap t)) t);
  mret x.

(** ** The worker *)

Definition postCommand (type : CommandType) (x : ptr) : TM () :=
  _ ← addRef x;
  modify (fun t => with_commands (_commands t ++ [(type, x)]) t).

Fixpoint post_all (types : list CommandType) (x : ptr) : TM () :=
  match types with [] => mret () | type :: types => _ ← postCommand type x; post_all types x end.

Definition addComponent (x : ptr) : TM () :=
  n ← load x;
  if _refByReadWriteThread n then mret ()
  else
    tail ← gets _iocListTail;
    head ← gets _iocListHead;
    _ ← modify_node x (fun n => with_next None (with_prev tail n));
    _ ← (match tail with
         | None => modify (with_ends (Some x) (Some x))
         | Some y => _ ← modify_node y (with_next (Some x)); modify (with_ends head (Some x))
         end);
    _ ← addRef x;
    modify_node x (referencedByReadWriteThread true).

Definition modify_opt (x : option ptr) (f : node -> node) : TM () := match x with None => mret () | Some y => modify_node y f end.

(** The part of [removeComponent] that unlinks. *)
Definition unlink (x : ptr) (n : node) : TM () :=
  _ ← modify (fun t => with_ends (if decide (_iocListHead t = Some x) then _next n else _iocListHead t)
                                 (if decide (_iocListTail t = Some x) then _prev n else _iocListTail t) t);
  _ ← modify_opt (_prev n) (with_next (_next n));
  _ ← modify_opt (_next n) (with_prev (_prev n));
  modify_node x (referencedByReadWriteThread false).

Definition removeComponent (x : ptr) : TM () :=
  n ← load x;
  if negb (_refByReadWriteThread n) then mret () else _ ← unlink x n; subRef x.

Fixpoint process_loop (cs : list (CommandType * ptr)) : TM () :=
  match cs with
  | [] => mret ()
  | (type, x) :: cs =>
      _ ← (match type with TC_ADD_IOC => addComponent x | TC_REMOVE_IOC => removeComponent x end);
      _ ← subRef x;
      process_loop cs
  end.

Definition processCommands : TM () :=
  cs ← gets _commands;
  _ ← process_loop cs;
  modify (with_commands []).

(** What a call of a component leaves. *)
Definition finish_call (x : ptr) (r : C * W * list CommandType) : TM () :=
  let '(o, w, cs) := r in
  _ ← modify (with_world w);
  _ ← modify_node x (with_obj o);
  post_all cs x.

Definition call (x : ptr) (f : C -> W -> option (C * W * list CommandType)) : TM () :=
  n ← load x;
  w ← gets world;
  r ← lift (f (obj n) w);
  finish_call x r.

(** [while (list) { ioc = list; list = list->_next; ioc->close(); ioc->subRef(); }] *)
Fixpoint close_loop (fuel : nat) (list : option ptr) : TM () :=
  match list with
  | None => mret ()
  | Some x =>
      match fuel with
      | 0%nat => lift None
      | S fuel =>
          n ← load x;
          let list := _next n in
          _ ← call x o_close;
          _ ← subRef x;
          close_loop fuel list
      end
  end.

Fixpoint drop_loop (cs : list (CommandType * ptr)) : TM () :=
  match cs with [] => mret () | (_, x) :: cs => _ ← subRef x; drop_loop cs end.

Definition worker_closeComponents : TM () :=
  head ← gets _iocListHead;
  n ← gets (fun t => size (heap t));
  _ ← close_loop n head;
  _ ← modify (with_ends None None);
  cs ← gets _commands;
  _ ← drop_loop cs;
  modify (with_commands []).

(** ** The transport *)

Definition addToCheckingList (x : ptr) : TM () :=
  _ ← addRef x;
  modify (fun t => with_checking (_checkingDone t) (_checkingList t) (_newCheckingList t ++ [x]) t).

(** The iterator goes to the beginning. *)
Definition collectNewComponets : TM () :=
  modify (fun t => with_checking [] (_checkingDone t ++ _checkingList t ++ _newCheckingList t) [] t).

(** One component of [timeoutIteration]: whether it stays. *)
Definition timeout_one (now : Z) (x : ptr) : TM bool :=
  n ← load x;
  w ← gets world;
  r ← lift (o_checkTimeout now (_refcount n) (obj n) w);
  _ ← finish_call x r.2;
  mret r.1.

Definition timer_next (now : Z) : TM () :=
  l ← gets _checkingList;
  match l with
  | [] => mret ()
  | x :: rest =>
      b ← timeout_one now x;
      if b : bool then modify (fun t => with_checking (_checkingDone t ++ [x]) rest (_newCheckingList t) t)
      else
        _ ← subRef x;
        modify (fun t => with_checking (_checkingDone t) rest (_newCheckingList t) t)
  end.

Fixpoint timeout_loop (now : Z) (n : nat) : TM () :=
  match n with 0%nat => mret () | S n => _ ← timer_next now; timeout_loop now n end.

Definition timeoutIteration (now : Z) : TM () :=
  _ ← collectNewComponets;
  l ← gets _checkingList;
  timeout_loop now (length l).

Fixpoint close_checking (todo : list ptr) : TM () :=
  match todo with
  | [] => mret ()
  | x :: todo =>
      _ ← call x o_close;
      _ ← subRef x;
      _ ← modify (fun t => with_checking [] todo (_newCheckingList t) t);
      close_checking todo
  end.

Definition closeComponents : TM () :=
  _ ← collectNewComponets;
  l ← gets _checkingList;
  _ ← close_checking l;
  worker_closeComponents.

(** [connect] and [listen], when the arguments are good. *)
Definition create_component (s : o_start) : TM (option ptr) :=
  w ← gets world;
  r ← lift (o_create s w);
  _ ← modify (with_world r.2);
  match r.1 with
  | None => mret None
  | Some (o, cs) =>
      x ← alloc o;
      _ ← post_all cs x;
      _ ← (if o_checked s then addToCheckingList x else mret ());
      mret (Some x)
  end.

(** What [TCPAcceptor::handleReadEvent] does with each component it makes. *)
Fixpoint adopt_all (new : list (C * list CommandType)) : TM () :=
  match new with
  | [] => mret ()
  | (o, cs) :: new =>
      x ← alloc o;
      _ ← post_all cs x;
      _ ← addToCheckingList x;
      _ ← subRef x;
      adopt_all new
  end.

(** ** [step]: one turn of its loop *)

Definition handle_event (x : ptr) (ev : o_event) : TM () :=
  n ← load x;
  w ← gets world;
  r ← lift (o_handle ev (obj n) w);
  _ ← finish_call x r.1;
  adopt_all r.2.

Definition handle_next : TM () :=
  es ← gets events;
  match es with
  | [] => mret ()
  | (x, ev) :: es => _ ← handle_event x ev; modify (with_events es)
  end.

Fixpoint handle_loop (n : nat) : TM () := match n with 0%nat => mret () | S n => _ ← handle_next; handle_loop n end.

(** [step], where epoll reports [es]. *)
Definition worker_step (es : list (ptr * o_event)) : TM () :=
  _ ← modify (with_events es);
  _ ← handle_loop (length es);
  processCommands.

End Transport.

Arguments node : clear implicits.
Arguments Transport C W {_}.
Arguments TM C W {_} _.

(** ** Counting references *)

Fixpoint cnt (x : ptr) (l : list ptr) : Z :=
  match l with [] => 0 | y :: l => (if decide (x = y) then 1 else 0) + cnt x l end.

Lemma cnt_app x l k : cnt x (l ++ k) = cnt x l + cnt x k.
Proof. induction l as [|y l IH]; [done|]. cbn. lia. Qed.

Lemma cnt_nonneg x l : 0 <= cnt x l.
Proof. induction l as [|y l IH]; cbn; [done|]. case_decide; lia. Qed.

Lemma cnt_elem x l : 0 < cnt x l <-> x ∈ l.
Proof.
  induction l as [|y l IH]; cbn; [rewrite elem_of_nil; lia|]. rewrite elem_of_cons, <- IH.
  pose proof (cnt_nonneg x l). case_decide as E; subst; [split; [auto|lia]|]. split; [intros; right; lia|intros [?|?]; [done|lia]].
Qed.

Lemma cnt_not_elem x l : x ∉ l -> cnt x l = 0.
Proof. rewrite <- cnt_elem. pose proof (cnt_nonneg x l). lia. Qed.

Lemma cnt_length x l : cnt x l <= Z.of_nat (length l).
Proof. induction l as [|y l IH]; cbn [cnt length]; [lia|]. case_decide; lia. Qed.

Lemma cnt_nodup x l : NoDup l -> cnt x l <= 1.
Proof.
  induction 1 as [|y l Hy Hl IH]; cbn; [lia|]. case_decide; [|lia]. subst. rewrite cnt_not_elem by done. lia.
Qed.

Lemma cnt_replicate x n y : cnt x (replicate n y) = if decide (x = y) then Z.of_nat n else 0.
Proof. induction n as [|n IH]; cbn [cnt replicate]; [by case_decide|]. rewrite IH. case_decide; lia. Qed.

#[export] Hint Rewrite cnt_app : cnt.

(** ** The state of a transport *)

Section Invariant.

Context {C W : Type} `{Component C W} {HL : ComponentLaws C W}.

Implicit Types (t : Transport C W) (n : node C) (R L : list ptr) (x y : ptr).

(** Every component is held by the references [R], counts them, and has at
    least one. *)
Record counted R t : Prop := {
  ct_count x n : heap t !! x = Some n -> _refcount n = cnt x R /\ x ∈ R;
  ct_alive x : x ∈ R -> is_Some (heap t !! x)
}.

Definition objs t : Prop := forall x n, heap t !! x = Some n -> o_inv (obj n).

(** The worker's list holds [L], and its members are marked. *)
Record chain L t : Prop := {
  ch_nodup : NoDup L;
  ch_head : _iocListHead t = head L;
  ch_tail : _iocListTail t = last L;
  ch_node A x B : L = A ++ x :: B -> exists n, heap t !! x = Some n /\ _prev n = last A /\ _next n = head B
}.
Definition marks L t : Prop := forall x n, heap t !! x = Some n -> _refByReadWriteThread n = bool_decide (x ∈ L).

(** A component is listed after its pending commands exactly when it is in the
    epoll set. *)
Definition cmds_of x (cs : list (CommandType * ptr)) : list CommandType :=
  (filter (fun c => c.2 = x) cs).*1.
Definition synced (cs : list (CommandType * ptr)) t : Prop :=
  forall x n, heap t !! x = Some n -> after_commands (_refByReadWriteThread n) (cmds_of x cs) = o_inEpoll (obj n).

(** What is kept by a change of counters, with components freed at most. *)
Definition core n : C * bool * option ptr * option ptr := (obj n, _refByReadWriteThread n, _prev n, _next n).
Definition lists t := (_iocListHead t, _iocListTail t, _commands t, _checkingDone t, _checkingList t, _newCheckingList t, events t).
Definition others t := (_commands t, _checkingDone t, _checkingList t, _newCheckingList t, events t).

Definition shrinks t t' : Prop :=
  lists t' = lists t /\ forall x n', heap t' !! x = Some n' -> exists n, heap t !! x = Some n /\ core n' = core n.

Lemma lists_others t t' : lists t' = lists t -> others t' = others t.
Proof. intros [= _ _ E1 E2 E3 E4 E5]. unfold others. by rewrite E1, E2, E3, E4, E5. Qed.

Lemma shrinks_refl t : shrinks t t.
Proof. split; [done|]. eauto. Qed.

Lemma shrinks_trans t1 t2 t3 : shrinks t1 t2 -> shrinks t2 t3 -> shrinks t1 t3.
Proof.
  intros [E1 H1] [E2 H2]. split; [congruence|]. intros x n3 E. destruct (H2 x n3 E) as (n2 & ? & ?).
  destruct (H1 x n2) as (n1 & ? & ?); [done|]. exists n1. split; [done|congruence].
Qed.

(** The same, when links may change too. *)
Definition keeps t t' : Prop :=
  forall x n', heap t' !! x = Some n' -> exists n, heap t !! x = Some n /\ obj n' = obj n /\ _refByReadWriteThread n' = _refByReadWriteThread n.

Lemma shrinks_keeps t t' : shrinks t t' -> keeps t t'.
Proof. intros [_ Hs] x n' E. destruct (Hs x n' E) as (n & E0 & Ec). injection Ec as ? ? _ _. by exists n. Qed.

Lemma keeps_trans t1 t2 t3 : keeps t1 t2 -> keeps t2 t3 -> keeps t1 t3.
Proof.
  intros H1 H2 x n3 E. destruct (H2 x n3 E) as (n2 & E2 & ? & ?). destruct (H1 x n2 E2) as (n1 & ? & ? & ?). exists n1. split; [done|]. split; congruence.
Qed.

Lemma keeps_objs t t' : keeps t t' -> objs t -> objs t'.
Proof. intros Hs Ho x n E. destruct (Hs x n E) as (n0 & E0 & -> & _). by eapply Ho. Qed.

Lemma keeps_synced cs t t' : keeps t t' -> synced cs t -> synced cs t'.
Proof. intros Hs Hy x n E. destruct (Hs x n E) as (n0 & E0 & -> & ->). by apply Hy. Qed.

Lemma keeps_marks L t t' : keeps t t' -> marks L t -> marks L t'.
Proof. intros Hs Hm x n' En'. destruct (Hs x n' En') as (n & En & _ & ->). by apply Hm. Qed.

Lemma shrinks_chain L t t' : shrinks t t' -> (forall x, x ∈ L -> is_Some (heap t' !! x)) -> chain L t -> chain L t'.
Proof.
  intros [El Hs] Hal Hl. injection El as E1 E2 _ _ _ _ _. split.
  - apply Hl.
  - rewrite E1. apply Hl.
  - rewrite E2. apply Hl.
  - intros A x B E. destruct (Hal x) as [n' En']; [rewrite E; set_solver|]. destruct (Hs x n' En') as (n & En & Ec). injection Ec as _ _ Ep Ex.
    destruct (ch_node _ _ Hl A x B E) as (n0 & En0 & ? & ?). exists n'. split; [done|]. rewrite En in En0. injection En0 as <-. by rewrite Ep, Ex.
Qed.

Lemma counted_cnt R R' t : (forall x, cnt x R' = cnt x R) -> counted R t -> counted R' t.
Proof.
  intros E [Hc Ha]. assert (forall x, x ∈ R' <-> x ∈ R) as Hin by (intros x; by rewrite <- !cnt_elem, E). split.
  - intros x n En. rewrite E, Hin. by apply Hc.
  - intros x Hx. by apply Ha, Hin.
Qed.

(** *** Counters *)

Lemma load_eq x t n : heap t !! x = Some n -> load x t = Ok (n, t).
Proof. unfold load. by intros ->. Qed.

Lemma modify_node_eq x f t n : heap t !! x = Some n -> modify_node x f t = Ok ((), with_heap (alter f x (heap t)) t).
Proof. intros E. unfold modify_node, mbind, TM_bind. by rewrite (load_eq _ _ _ E). Qed.

Lemma alter_inv (f : node C -> node C) x (h : gmap ptr (node C)) y n' :
  alter f x h !! y = Some n' -> exists n, h !! y = Some n /\ n' = if decide (x = y) then f n else n.
Proof.
  rewrite lookup_alter. case_decide; [|by exists n']. subst. rewrite fmap_Some. intros (n & ? & ->). by exists n.
Qed.

Lemma alter_shrinks x f t : (forall n, core (f n) = core n) -> shrinks t (with_heap (alter f x (heap t)) t).
Proof.
  intros Hf. split; [done|]. intros y n' E. cbn in E. apply alter_inv in E as (n & E & ->). exists n. split; [done|]. by case_decide.
Qed.

Lemma addRef_ok x R t :
  counted R t -> x ∈ R -> cnt x R < INT_MAX ->
  exists t', addRef x t = Ok ((), t') /\ counted (x :: R) t' /\ shrinks t t'.
Proof.
  intros [Hc Ha] Hx Hb. destruct (Ha x Hx) as [n En]. destruct (Hc x n En) as [En' _]. eexists. split; [by eapply modify_node_eq|].
  split; [|by apply alter_shrinks]. pose proof (cnt_nonneg x R). split; cbn [heap with_heap].
  - intros y m E. apply alter_inv in E as (m0 & E & ->). destruct (Hc y m0 E) as [Em Hy]. cbn [cnt]. split; [|set_solver].
    destruct (decide (y = x)); case_decide; try congruence; [|by rewrite Em]. subst. rewrite En in E. injection E as <-. cbn.
    rewrite i32_small by (unfold INT_MIN, INT_MAX in *; lia). lia.
  - intros y Hy. rewrite lookup_alter. case_decide; [|apply Ha; set_solver]. apply fmap_is_Some, Ha. set_solver.
Qed.

Lemma subRef_ok x R t :
  counted (x :: R) t -> cnt x R < INT_MAX -> objs t ->
  exists t', subRef x t = Ok ((), t') /\ counted R t' /\ shrinks t t'.
Proof.
  intros [Hc Ha] Hb Ho. destruct (Ha x) as [n En]; [set_solver|]. destruct (Hc x n En) as [Er _]. cbn [cnt] in Er.
  rewrite decide_True in Er by done. pose proof (cnt_nonneg x R) as H0.
  unfold subRef, mbind, TM_bind. rewrite (load_eq _ _ _ En), Er, i32_small by (unfold INT_MIN, INT_MAX in *; lia).
  replace (1 + cnt x R - 1) with (cnt x R) by lia. destruct (Z.eqb_spec (cnt x R) 0) as [E0|E0].
  - cbn [gets]. unfold gets. destruct (law_destroy (obj n) (world t) (Ho x n En)) as [w Ew]. rewrite Ew. cbn [lift modify].
    eexists. split; [done|]. assert (x ∉ R) as Hx by (rewrite <- cnt_elem; lia). split; [split; cbn [heap with_heap with_world]|].
    + intros y m E. apply lookup_delete_Some in E as [Hne E]. destruct (Hc y m E) as [Em Hy]. cbn [cnt] in Em.
      rewrite decide_False in Em by done. split; [lia|set_solver].
    + intros y Hy. rewrite lookup_delete_ne by (by intros ->). apply Ha. set_solver.
    + split; [done|]. cbn. intros y m E. apply lookup_delete_Some in E as [_ E]. by exists m.
  - eexists. split; [by eapply modify_node_eq|]. split; [|by apply alter_shrinks]. split; cbn [heap with_heap].
    + intros y m E. apply alter_inv in E as (m0 & E & ->). destruct (Hc y m0 E) as [Em Hy]. cbn [cnt] in Em.
      destruct (decide (y = x)) as [->|Hne]; [|rewrite decide_False by congruence; split; [lia|set_solver]].
      rewrite decide_True by done. rewrite En in E. injection E as <-. cbn. rewrite Er, i32_small by (unfold INT_MIN, INT_MAX in *; lia).
      split; [lia|]. apply cnt_elem. lia.
    + intros y Hy. rewrite lookup_alter. case_decide; [|apply Ha; set_solver]. apply fmap_is_Some, Ha. set_solver.
Qed.

(** *** Posting *)

Lemma alter_counted R x f t :
  (forall n, _refcount (f n) = _refcount n) -> counted R t -> counted R (with_heap (alter f x (heap t)) t).
Proof.
  intros Hf [Hc Ha]. split; cbn [heap with_heap].
  - intros y m E. apply alter_inv in E as (m0 & E & ->). destruct (Hc y m0 E) as [Em Hy]. split; [|done]. case_decide; by rewrite ?Hf.
  - intros y Hy. rewrite lookup_alter. case_decide; [subst; apply fmap_is_Some|]; by apply Ha.
Qed.

(** The state before the counters change. *)
Definition after_post (types : list CommandType) x t : Transport C W := with_commands (_commands t ++ ((., x) <$> types)) t.

Lemma postCommand_ok type x R t :
  counted R t -> x ∈ R -> cnt x R < INT_MAX ->
  exists t', postCommand type x t = Ok ((), t') /\ counted (x :: R) t' /\ shrinks (after_post [type] x t) t'.
Proof.
  intros Hc Hx Hb. destruct (addRef_ok x R t Hc Hx Hb) as (t1 & E & Hc1 & [El Hs]). unfold postCommand, mbind, TM_bind. rewrite E.
  injection El as E1 E2 E3 E4 E5 E6 E7. eexists. split; [done|]. split; [by destruct Hc1|]. split; [|exact Hs].
  unfold lists. cbn. by rewrite E1, E2, E3, E4, E5, E6, E7.
Qed.

Lemma post_all_ok types x R t :
  counted R t -> x ∈ R -> cnt x R + Z.of_nat (length types) <= INT_MAX ->
  exists t', post_all types x t = Ok ((), t') /\ counted (replicate (length types) x ++ R) t' /\ shrinks (after_post types x t) t'.
Proof.
  revert R t. induction types as [|ty types IH]; intros R t Hc Hx Hb.
  - exists t. split; [done|]. split; [done|]. split; [unfold lists; cbn; by rewrite app_nil_r|]. cbn. eauto.
  - cbn [length] in Hb. cbn [post_all]. unfold mbind, TM_bind at 1.
    destruct (postCommand_ok ty x R t Hc Hx) as (t1 & -> & Hc1 & Hs1); [lia|].
    destruct (IH (x :: R) t1 Hc1) as (t2 & E2 & Hc2 & Hs2); [set_solver|cbn; rewrite decide_True by done; lia|]. exists t2. split; [exact E2|]. split.
    + eapply counted_cnt; [|exact Hc2]. intros y. rewrite !cnt_app, !cnt_replicate. cbn. case_decide; lia.
    + destruct Hs1 as [El1 H1], Hs2 as [El2 H2]. split; [|intros y n' En; destruct (H2 y n' En) as (n1 & En1 & ?); destruct (H1 y n1 En1) as (n & ? & ?); exists n; split; [done|congruence]].
      rewrite El2. unfold lists in *. cbn in El1 |- *. injection El1 as -> -> -> -> -> -> ->. by rewrite <- app_assoc.
Qed.

(** *** The worker's list *)

Lemma with_ends_heap hd tl t : heap (with_ends hd tl t) = heap t.
Proof. done. Qed.

Lemma alter_chain L x f t :
  (forall n, _prev (f n) = _prev n /\ _next (f n) = _next n) -> chain L t -> chain L (with_heap (alter f x (heap t)) t).
Proof.
  intros Hf [Hn Hh Ht Hx]. split; try done. intros A y B E. destruct (Hx A y B E) as (n & En & Hp). cbn [heap with_heap].
  exists (if decide (x = y) then f n else n). rewrite lookup_alter, En. destruct (Hf n) as [E1 E2]. case_decide; subst; rewrite ?E1, ?E2; by rewrite ?En.
Qed.

(** [x] is appended to the list. *)
Definition linked_last x L t : Transport C W :=
  let t := with_heap (alter (fun n => with_next None (with_prev (last L) n)) x (heap t)) t in
  match last L with
  | None => with_ends (Some x) (Some x) t
  | Some y => with_ends (head L) (Some x) (with_heap (alter (with_next (Some x)) y (heap t)) t)
  end.

Lemma snoc_split {A} (L U V : list A) (x y : A) : L ++ [x] = U ++ y :: V -> (V = [] /\ y = x /\ U = L) \/ exists V', V = V' ++ [x] /\ L = U ++ y :: V'.
Proof.
  destruct V as [|z V _] using rev_ind; intros E.
  - left. apply app_inj_tail in E as [-> ->]. done.
  - right. exists V. rewrite app_comm_cons, app_assoc in E. apply app_inj_tail in E as [-> ->]. done.
Qed.

Lemma chain_snoc L x n t : chain L t -> heap t !! x = Some n -> x ∉ L -> chain (L ++ [x]) (linked_last x L t).
Proof.
  intros Hc En Hx. pose proof (ch_nodup _ _ Hc) as Hnd. split.
  - apply NoDup_app. split; [done|]. split; [set_solver|apply NoDup_singleton].
  - unfold linked_last. destruct L as [|y L]; [done|]. cbn [app head]. by destruct (last (y :: L)) as [z|] eqn:E; [|apply last_None in E].
  - unfold linked_last. rewrite last_snoc. by destruct (last L).
  - intros U y V E. apply snoc_split in E as [(-> & -> & ->)|(V' & -> & ->)].
    + exists (with_next None (with_prev (last L) n)). split; [|done]. unfold linked_last.
      destruct (last L) as [z|] eqn:El; cbn [heap with_heap with_ends].
      * rewrite lookup_alter_ne by (intros ->; apply Hx; by apply last_Some_elem_of). rewrite lookup_alter, decide_True, En by done. done.
      * rewrite lookup_alter, decide_True, En by done. done.
    + destruct (ch_node _ _ Hc U y V' eq_refl) as (m & Em & Hp & Hq). unfold linked_last.
      assert (x ≠ y) as Hxy by (intros ->; apply Hx; set_solver).
      destruct (last (U ++ y :: V')) as [z|] eqn:El; [|by apply last_None in El; destruct U].
      cbn [heap with_heap with_ends]. destruct V' as [|v V' _] using rev_ind.
      * rewrite last_snoc in El. injection El as ->. rewrite lookup_alter, decide_True, lookup_alter_ne, Em by done. by eexists.
      * rewrite app_comm_cons, app_assoc, last_snoc in El. injection El as ->. rewrite !lookup_alter_ne, Em; try done.
        -- exists m. split; [done|]. split; [done|]. rewrite Hq. by destruct V'.
        -- intros ->. apply NoDup_app in Hnd as (_ & _ & Hnd). apply NoDup_cons in Hnd as [Hnd _]. set_solver.
Qed.

Definition alter_opt (o : option ptr) (f : node C -> node C) (h : gmap ptr (node C)) : gmap ptr (node C) :=
  match o with None => h | Some y => alter f y h end.

Lemma lookup_alter_opt o f h y : alter_opt o f h !! y = if decide (o = Some y) then f <$> h !! y else h !! y.
Proof.
  destruct o as [z|]; cbn [alter_opt]; [|done]. rewrite lookup_alter. destruct (decide (z = y)) as [->|Hne].
  - by rewrite decide_True.
  - rewrite decide_False; [done|congruence].
Qed.

Lemma modify_opt_eq o f t :
  (forall y, o = Some y -> is_Some (heap t !! y)) -> modify_opt o f t = Ok ((), with_heap (alter_opt o f (heap t)) t).
Proof.
  destruct o as [y|]; intros Ho; [|by destruct t]. cbn [modify_opt alter_opt]. destruct (Ho y eq_refl) as [n En]. by eapply modify_node_eq.
Qed.

(** The neighbours of a member of a list without duplicates. *)
Lemma last_app_nodup (A B : list ptr) y : NoDup (A ++ y :: B) -> last (A ++ y :: B) = Some y <-> B = [].
Proof.
  intros Hn. rewrite last_app_cons. destruct B as [|z B _] using rev_ind; [done|]. rewrite app_comm_cons, last_snoc. split; [|by destruct B].
  intros [= ->]. apply NoDup_app in Hn as (_ & _ & Hn). apply NoDup_cons in Hn as [Hn _]. set_solver.
Qed.

Lemma head_app_nodup (A B : list ptr) y : NoDup (A ++ y :: B) -> head (A ++ y :: B) = Some y <-> A = [].
Proof.
  intros Hn. destruct A as [|z A]; [done|]. split; [|done]. intros [= ->]. apply NoDup_cons in Hn as [Hn _]. set_solver.
Qed.

(** The heap without the links to [x], which is between [A] and [B]. *)
Definition unlinked_heap (A B : list ptr) (h : gmap ptr (node C)) : gmap ptr (node C) :=
  alter_opt (head B) (with_prev (last A)) (alter_opt (last A) (with_next (head B)) h).

Lemma unlinked_lookup A B h y m :
  h !! y = Some m -> exists m', unlinked_heap A B h !! y = Some m' /\ obj m' = obj m /\ _refcount m' = _refcount m /\
    _refByReadWriteThread m' = _refByReadWriteThread m /\
    _prev m' = (if decide (head B = Some y) then last A else _prev m) /\ _next m' = (if decide (last A = Some y) then head B else _next m).
Proof.
  intros E. unfold unlinked_heap. rewrite !lookup_alter_opt, E.
  destruct (decide (head B = Some y)), (decide (last A = Some y)); by eexists.
Qed.

Lemma unlinked_lookup_inv A B h y m' :
  unlinked_heap A B h !! y = Some m' -> exists m, h !! y = Some m.
Proof. unfold unlinked_heap. rewrite !lookup_alter_opt. destruct (h !! y) as [m|]; [by exists m|]. by do 2 case_decide. Qed.

Lemma unlinked_chain A x B t :
  chain (A ++ x :: B) t ->
  chain (A ++ B) (with_heap (unlinked_heap A B (heap t)) (with_ends (head (A ++ B)) (last (A ++ B)) t)).
Proof.
  intros Hc. pose proof (ch_nodup _ _ Hc) as Hn. assert (Hn' : NoDup (A ++ B)).
  { apply NoDup_app in Hn as (H1 & H2 & H3). apply NoDup_cons in H3 as [_ H3]. apply NoDup_app. split; [done|]. split; [|done]. set_solver. }
  split; [done..|]. intros U y V E. cbn [heap with_heap].
  pose proof E as E'. apply app_eq_app in E' as (D & [[-> HB]|[-> HA]]).
  - destruct D as [|z D]; cbn in HB.
    + rewrite app_nil_r in *. subst B. destruct (ch_node _ _ Hc (U ++ [x]) y V) as (m & Em & Hp & Hq); [by rewrite <- app_assoc|].
      destruct (unlinked_lookup U (y :: V) _ _ _ Em) as (m' & Em' & _ & _ & _ & Ep & Ex). exists m'. split; [done|].
      rewrite Ep, Ex, decide_True by done. split; [done|]. rewrite decide_False; [done|]. intros El%last_Some_elem_of.
      apply NoDup_app in Hn' as (_ & Hd & _). apply (Hd y El). set_solver.
    + injection HB as -> ->. destruct (ch_node _ _ Hc U z (D ++ x :: B)) as (m & Em & Hp & Hq); [by rewrite <- app_assoc|].
      destruct (unlinked_lookup (U ++ z :: D) B _ _ _ Em) as (m' & Em' & _ & _ & _ & Ep & Ex). exists m'. split; [done|]. rewrite Ep, Ex. clear Ep Ex. split.
      * rewrite decide_False; [done|]. intros Eh%head_Some_elem_of. apply NoDup_app in Hn' as (_ & Hd & _). apply (Hd z); [set_solver|done].
      * assert (HnA : NoDup (U ++ z :: D)) by (by apply NoDup_app in Hn' as (? & _)).
        case_decide as Ed; [apply last_app_nodup in Ed as ->; [done|done]|]. rewrite Hq. destruct D as [|d D]; [|done].
        exfalso. apply Ed. by apply last_app_nodup.
  - subst B. destruct (ch_node _ _ Hc (A ++ x :: D) y V) as (m & Em & Hp & Hq); [by rewrite <- app_assoc|].
    destruct (unlinked_lookup A (D ++ y :: V) _ _ _ Em) as (m' & Em' & _ & _ & _ & Ep & Ex). exists m'. split; [done|]. rewrite Ep, Ex. clear Ep Ex. split.
    + assert (HnB : NoDup (D ++ y :: V)) by (by apply NoDup_app in Hn' as (_ & _ & ?)).
      case_decide as Ed; [apply head_app_nodup in Ed as ->; [by rewrite app_nil_r|done]|]. rewrite Hp.
      destruct D as [|d D _] using rev_ind; [by exfalso; apply Ed|]. by rewrite app_comm_cons, !app_assoc, !last_snoc.
    + rewrite decide_False; [done|]. intros El%last_Some_elem_of. apply NoDup_app in Hn' as (_ & Hd & _). apply (Hd y El). set_solver.
Qed.

(** *** The whole state *)

(** [R] are the references, [L] the worker's list and [cs] the commands it
    still has to process. *)
Record sound R L (cs : list (CommandType * ptr)) t : Prop := {
  sd_counted : counted R t;
  sd_chain : chain L t;
  sd_marks : marks L t;
  sd_objs : objs t;
  sd_synced : synced cs t;
  sd_sub x : x ∈ L -> x ∈ R
}.

Lemma sound_cnt R R' L cs t : (forall x, cnt x R' = cnt x R) -> sound R L cs t -> sound R' L cs t.
Proof.
  intros E []. split; try done; [by eapply counted_cnt|]. intros x Hx. apply cnt_elem. rewrite E. by apply cnt_elem, sd_sub0.
Qed.

Lemma shrinks_sound R R' L cs t t' :
  shrinks t t' -> counted R' t' -> (forall x, x ∈ L -> x ∈ R') -> sound R L cs t -> sound R' L cs t'.
Proof.
  intros Hs Hc Hsub [_ H1 H2 H3 H4 _]. pose proof (shrinks_keeps _ _ Hs) as Hk. split; eauto using keeps_marks, keeps_objs, keeps_synced.
  eapply shrinks_chain; [done| |done]. intros x Hx. by eapply ct_alive, Hsub.
Qed.

Lemma addRef_sound x R L cs t :
  sound R L cs t -> x ∈ R -> cnt x R < INT_MAX ->
  exists t', addRef x t = Ok ((), t') /\ sound (x :: R) L cs t' /\ lists t' = lists t.
Proof.
  intros Hs Hx Hb. destruct (addRef_ok x R t (sd_counted _ _ _ _ Hs) Hx Hb) as (t' & E & Hc & Hsh). exists t'. split; [done|].
  split; [|apply Hsh]. eapply shrinks_sound; eauto. intros y Hy. right. by eapply sd_sub.
Qed.

Lemma subRef_sound x R L cs t :
  sound (x :: R) L cs t -> cnt x R < INT_MAX -> (forall y, y ∈ L -> y ∈ R) ->
  exists t', subRef x t = Ok ((), t') /\ sound R L cs t' /\ lists t' = lists t.
Proof.
  intros Hs Hb Hsub. destruct (subRef_ok x R t (sd_counted _ _ _ _ Hs) Hb (sd_objs _ _ _ _ Hs)) as (t' & E & Hc & Hsh). exists t'.
  split; [done|]. split; [|apply Hsh]. by eapply shrinks_sound.
Qed.

(** *** Commands *)

Lemma cmds_of_cons x c y cs : cmds_of x ((c, y) :: cs) = if decide (y = x) then c :: cmds_of x cs else cmds_of x cs.
Proof. unfold cmds_of. rewrite filter_cons. cbn. by case_decide. Qed.

Lemma cmds_of_app x cs cs' : cmds_of x (cs ++ cs') = cmds_of x cs ++ cmds_of x cs'.
Proof. unfold cmds_of. by rewrite filter_app, fmap_app. Qed.

Lemma cmds_of_posts x y (types : list CommandType) : cmds_of x ((., y) <$> types) = if decide (y = x) then types else [].
Proof. induction types as [|ty types IH]; [by case_decide|]. rewrite fmap_cons, cmds_of_cons, IH. by case_decide. Qed.

Lemma cmds_of_none x cs : x ∉ cs.*2 -> cmds_of x cs = [].
Proof.
  induction cs as [|[c y] cs IH]; [done|]. cbn [fmap list_fmap]. intros Hx. rewrite cmds_of_cons, decide_False by (intros ->; apply Hx; by left).
  apply IH. intros Hc. apply Hx. by right.
Qed.

(** A command that the worker has carried out. *)
Lemma synced_done c x cs t t' :
  synced ((c, x) :: cs) t ->
  (forall y m', heap t' !! y = Some m' -> exists m, heap t !! y = Some m /\ obj m' = obj m /\
     _refByReadWriteThread m' = if decide (x = y) then after_command (_refByReadWriteThread m) c else _refByReadWriteThread m) ->
  synced cs t'.
Proof.
  intros Hs Hk y m' E. destruct (Hk y m' E) as (m & Em & -> & ->). specialize (Hs y m Em). rewrite cmds_of_cons in Hs.
  by case_decide.
Qed.

Lemma linked_last_eq x L R n t :
  chain L t -> counted R t -> (forall y, y ∈ L -> y ∈ R) -> heap t !! x = Some n ->
  keeps t (linked_last x L t) /\ counted R (linked_last x L t) /\ lists (linked_last x L t) = lists (with_ends (head (L ++ [x])) (Some x) t) /\
  (_ ← modify_node x (fun n => with_next None (with_prev (_iocListTail t) n));
   match _iocListTail t with
   | None => modify (with_ends (Some x) (Some x))
   | Some y => _ ← modify_node y (with_next (Some x)); modify (with_ends (_iocListHead t) (Some x))
   end) t = Ok ((), linked_last x L t).
Proof.
  intros Hc HR Hsub En. unfold mbind, TM_bind. rewrite (modify_node_eq _ _ _ _ En), (ch_tail _ _ Hc), (ch_head _ _ Hc). unfold linked_last.
  set (t1 := with_heap _ t). assert (H1 : counted R t1) by (by apply alter_counted).
  assert (K1 : keeps t t1). { intros y m E. cbn in E. apply alter_inv in E as (m0 & E & ->). exists m0. by case_decide. }
  destruct (last L) as [y|] eqn:El.
  - destruct (ct_alive _ _ H1 y) as [m Em]; [apply Hsub; by apply last_Some_elem_of|].
    split_and!; [|by destruct (alter_counted R y (with_next (Some x)) t1 (fun _ => eq_refl) H1)|by destruct L|by rewrite (modify_node_eq _ _ _ _ Em)].
    eapply keeps_trans; [exact K1|]. intros z m' E. cbn [heap with_ends with_heap] in E. apply alter_inv in E as (m0 & E & ->). exists m0. by case_decide.
  - apply last_None in El as ->. split_and!; try done. by destruct H1.
Qed.

Lemma addComponent_sound x L Q cs t :
  sound (x :: L ++ Q) L ((TC_ADD_IOC, x) :: cs) t -> cnt x (x :: L ++ Q) < INT_MAX ->
  exists L' t', addComponent x t = Ok ((), t') /\ sound (x :: L' ++ Q) L' cs t' /\ others t' = others t /\ forall y, cnt y L' <= cnt y (x :: L).
Proof.
  intros Hs Hb. pose proof Hs as [Hc Hch Hm Ho Hy Hsub]. destruct (ct_alive _ _ Hc x) as [n En]; [by left|].
  unfold addComponent, mbind, TM_bind. rewrite (load_eq _ _ _ En), (Hm x n En). case_bool_decide as Hx.
  { exists L, t. split_and!; [done| |done|intros y; cbn; case_decide; lia]. split; try done. eapply synced_done; [exact Hy|].
    intros y m E. exists m. split_and!; [done..|]. case_decide as Exy; [|done]. subst. rewrite (Hm y m E). by case_bool_decide. }
  unfold gets. cbn [mbind]. destruct (linked_last_eq x L _ n t Hch Hc Hsub En) as (Hk1 & Hc1 & El1 & E1).
  unfold mbind, TM_bind in E1. match goal with |- context [match modify_node x ?f t with _ => _ end] => destruct (modify_node x f t) as [[[] t0]| |] eqn:E0; try done end.
  rewrite E1. clear E0 E1 t0. set (t1 := linked_last x L t) in *.
  destruct (addRef_ok x _ t1 Hc1 ltac:(by left) Hb) as (t2 & -> & Hc2 & Hs2). destruct (ct_alive _ _ Hc2 x) as [n2 En2]; [by left|].
  rewrite (modify_node_eq _ _ _ _ En2). eexists (L ++ [x]), _. split; [done|].
  assert (Hk2 : keeps t t2) by (eapply keeps_trans; [exact Hk1|by apply shrinks_keeps]).
  assert (Hk3 : forall y m', alter (referencedByReadWriteThread true) x (heap t2) !! y = Some m' -> exists m, heap t !! y = Some m /\ obj m' = obj m /\
     _refByReadWriteThread m' = if decide (x = y) then true else _refByReadWriteThread m).
  { intros y m' E. apply alter_inv in E as (m2 & E & ->). destruct (Hk2 y m2 E) as (m & Em & ? & ?). exists m. by case_decide. }
  split_and!.
  - split.
    + eapply counted_cnt; [|apply alter_counted; [done|exact Hc2]]. intros y. cbn. rewrite !cnt_app. cbn. lia.
    + apply alter_chain; [done|]. eapply shrinks_chain; [exact Hs2| |by eapply chain_snoc].
      intros y Hy2. eapply ct_alive; [exact Hc2|]. set_solver.
    + intros y m' E. destruct (Hk3 y m' E) as (m & Em & _ & ->). rewrite (Hm y m Em). case_decide as Exy; [subst|]; symmetry; [apply bool_decide_eq_true; set_solver|].
      apply bool_decide_ext. rewrite elem_of_app, list_elem_of_singleton. naive_solver.
    + intros y m' E. destruct (Hk3 y m' E) as (m & Em & -> & _). by eapply Ho.
    + eapply synced_done; [exact Hy|]. exact Hk3.
    + set_solver.
  - cbn. transitivity (others t2); [done|]. destruct Hs2 as [El2 _]. rewrite (lists_others _ _ El2), (lists_others _ _ El1). done.
  - intros y. rewrite cnt_app. cbn. lia.
Qed.

Lemma unlink_ends A x B n t :
  chain (A ++ x :: B) t -> heap t !! x = Some n ->
  with_ends (if decide (_iocListHead t = Some x) then _next n else _iocListHead t)
            (if decide (_iocListTail t = Some x) then _prev n else _iocListTail t) t = with_ends (head (A ++ B)) (last (A ++ B)) t.
Proof.
  intros Hc En. pose proof (ch_nodup _ _ Hc) as Hn. destruct (ch_node _ _ Hc A x B eq_refl) as (n' & En' & Ep & Ex).
  rewrite En in En'. injection En' as <-. rewrite (ch_head _ _ Hc), (ch_tail _ _ Hc), Ep, Ex. f_equal.
  - case_decide as Ed; [by apply head_app_nodup in Ed as ->|]. destruct A; [|done]. exfalso. by apply Ed.
  - case_decide as Ed; [apply last_app_nodup in Ed as ->; [by rewrite app_nil_r|done]|].
    destruct B as [|b B]; [exfalso; by apply Ed, last_app_nodup|]. by rewrite !last_app_cons, last_cons_cons.
Qed.

Lemma unlink_ok A x B n R t :
  chain (A ++ x :: B) t -> counted R t -> (forall y, y ∈ A ++ x :: B -> y ∈ R) -> heap t !! x = Some n ->
  exists t1, unlink x n t = Ok ((), t1) /\ counted R t1 /\ chain (A ++ B) t1 /\ others t1 = others t /\
    forall y m', heap t1 !! y = Some m' -> exists m, heap t !! y = Some m /\ obj m' = obj m /\
      _refByReadWriteThread m' = if decide (x = y) then false else _refByReadWriteThread m.
Proof.
  intros Hc HR Hsub En. destruct (ch_node _ _ Hc A x B eq_refl) as (n' & En' & Ep & Ex). rewrite En in En'. injection En' as <-.
  unfold unlink, mbind, TM_bind. unfold modify at 1. rewrite (unlink_ends A x B n t Hc En), Ep, Ex. set (t0 := with_ends _ _ t).
  assert (Hal : forall y, y ∈ A ++ x :: B -> is_Some (heap t !! y)) by (intros y Hy; by eapply ct_alive, Hsub).
  rewrite modify_opt_eq by (intros y Hy; apply last_Some_elem_of in Hy; apply Hal; set_solver). cbn [heap with_heap with_ends t0].
  rewrite modify_opt_eq; cycle 1.
  { intros y Hy. apply head_Some_elem_of in Hy. destruct (Hal y) as [m Em]; [set_solver|]. cbn. rewrite lookup_alter_opt, Em. by case_decide. }
  cbn [heap with_heap]. fold (unlinked_heap A B (heap t)). destruct (unlinked_lookup A B _ _ _ En) as (nx & Enx & _).
  erewrite modify_node_eq by exact Enx. eexists. split; [done|]. set (t1 := with_heap (unlinked_heap A B (heap t)) t0).
  assert (Hc1 : counted R t1).
  { split; cbn [heap with_heap t1].
    - intros y m' E. destruct (unlinked_lookup_inv _ _ _ _ _ E) as (m & Em). destruct (unlinked_lookup A B _ _ _ Em) as (m2 & E2 & _ & Er & _).
      rewrite E in E2. injection E2 as <-. rewrite Er. by eapply ct_count.
    - intros y Hy. destruct (ct_alive _ _ HR y Hy) as [m Em]. destruct (unlinked_lookup A B _ _ _ Em) as (m2 & -> & _). done. }
  split_and!.
  - by apply (alter_counted R x (referencedByReadWriteThread false) t1).
  - apply (alter_chain _ x (referencedByReadWriteThread false) t1); [done|]. by apply (unlinked_chain A x B).
  - done.
  - cbn [heap with_heap]. intros y m' E. apply alter_inv in E as (m2 & E & ->). destruct (unlinked_lookup_inv _ _ _ _ _ E) as (m & Em).
    destruct (unlinked_lookup A B _ _ _ Em) as (m3 & E3 & Eo & _ & Ef & _). rewrite E in E3. injection E3 as <-. exists m. by case_decide.
Qed.

Lemma removeComponent_sound x L Q cs t :
  sound (x :: L ++ Q) L ((TC_REMOVE_IOC, x) :: cs) t -> (forall y, cnt y (x :: L ++ Q) < INT_MAX) ->
  exists L' t', removeComponent x t = Ok ((), t') /\ sound (x :: L' ++ Q) L' cs t' /\ others t' = others t /\ forall y, cnt y L' <= cnt y (x :: L).
Proof.
  intros Hs Hb. pose proof Hs as [Hc Hch Hm Ho Hy Hsub]. destruct (ct_alive _ _ Hc x) as [n En]; [by left|].
  unfold removeComponent, mbind, TM_bind. rewrite (load_eq _ _ _ En), (Hm x n En). case_bool_decide as Hx; cbn [negb]; cycle 1.
  { exists L, t. split_and!; [done| |done|intros y; cbn; case_decide; lia]. split; try done. eapply synced_done; [exact Hy|].
    intros y m E. exists m. split_and!; [done..|]. case_decide as Exy; [|done]. subst. rewrite (Hm y m E). by case_bool_decide. }
  apply list_elem_of_split in Hx as (A & B & ->). pose proof (ch_nodup _ _ Hch) as Hnd.
  destruct (unlink_ok A x B n _ t Hch Hc Hsub En) as (t1 & -> & Hc1 & Hch1 & Eo1 & Hk1).
  assert (Hs1 : sound (x :: x :: (A ++ B) ++ Q) (A ++ B) cs t1).
  { split.
    - eapply counted_cnt; [|exact Hc1]. intros y. cbn. rewrite !cnt_app. cbn. lia.
    - done.
    - intros y m' E. destruct (Hk1 y m' E) as (m & Em & _ & ->). rewrite (Hm y m Em). apply NoDup_app in Hnd as (_ & Hd & Hnd). apply NoDup_cons in Hnd as [Hxb _].
      case_decide as Exy; [subst|]; symmetry; [apply bool_decide_eq_false; set_solver|]. apply bool_decide_ext. set_solver.
    - intros y m' E. destruct (Hk1 y m' E) as (m & Em & -> & _). by eapply Ho.
    - eapply synced_done; [exact Hy|]. exact Hk1.
    - set_solver. }
  destruct (subRef_sound x _ _ _ _ Hs1) as (t2 & E2 & Hs2 & El2); [|set_solver|].
  { specialize (Hb x). cbn in *. rewrite !cnt_app in *. cbn in Hb. case_decide; [lia|done]. }
  exists (A ++ B), t2. split_and!; [done|done|by rewrite (lists_others _ _ El2)|]. intros y. cbn. rewrite !cnt_app. cbn. case_decide; lia.
Qed.

(** [processCommands] carries the commands out and gives their references
    back. *)
Lemma process_loop_sound cs L Q t :
  sound (cs.*2 ++ L ++ Q) L cs t -> (forall y, cnt y (cs.*2 ++ L ++ Q) < INT_MAX) ->
  exists L' t', process_loop cs t = Ok ((), t') /\ sound (L' ++ Q) L' [] t' /\ others t' = others t.
Proof.
  revert L t. induction cs as [|[c x] cs IH]; intros L t Hs Hb; [by exists L, t|]. cbn [process_loop]. unfold mbind, TM_bind.
  assert (Hs0 : sound (x :: L ++ cs.*2 ++ Q) L ((c, x) :: cs) t).
  { eapply sound_cnt; [|exact Hs]. intros y. cbn. rewrite !cnt_app. lia. }
  assert (Hb0 : forall y, cnt y (x :: L ++ cs.*2 ++ Q) < INT_MAX).
  { intros y. specialize (Hb y). cbn in *. rewrite !cnt_app in *. lia. }
  assert (H1 : exists L' t', (match c with TC_ADD_IOC => addComponent x | TC_REMOVE_IOC => removeComponent x end) t = Ok ((), t') /\
    sound (x :: L' ++ cs.*2 ++ Q) L' cs t' /\ others t' = others t /\ forall y, cnt y L' <= cnt y (x :: L)).
  { destruct c; [by apply addComponent_sound|by apply removeComponent_sound]. }
  destruct H1 as (L1 & t1 & -> & Hs1 & Eo1 & HL1).
  assert (Hb1 : forall y, cnt y (cs.*2 ++ L1 ++ Q) < INT_MAX).
  { intros y. specialize (Hb y). specialize (HL1 y). cbn in *. rewrite !cnt_app in *. lia. }
  destruct (subRef_sound x (L1 ++ cs.*2 ++ Q) _ _ _ Hs1) as (t2 & -> & Hs2 & El2).
  { specialize (Hb1 x). rewrite !cnt_app in *. lia. }
  { set_solver. }
  destruct (IH L1 t2) as (L' & t' & E & Hs' & Eo'); [|done|].
  { eapply sound_cnt; [|exact Hs2]. intros y. rewrite !cnt_app. lia. }
  exists L', t'. split_and!; [done|done|]. by rewrite Eo', (lists_others _ _ El2).
Qed.

(** *** Calls *)

Lemma posts_snd x (types : list CommandType) : ((., x) <$> types).*2 = replicate (length types) x.
Proof. induction types as [|ty types IH]; [done|]. cbn. f_equal. exact IH. Qed.

(** The state before the counters change. *)
Definition after_call x (o : C) (w : W) (types : list CommandType) t : Transport C W :=
  after_post types x (with_heap (alter (with_obj o) x (heap t)) (with_world w t)).

Lemma finish_call_ok x n o w types R t :
  counted R t -> heap t !! x = Some n -> cnt x R + Z.of_nat (length types) <= INT_MAX ->
  exists t', finish_call x (o, w, types) t = Ok ((), t') /\ counted (replicate (length types) x ++ R) t' /\ shrinks (after_call x o w types t) t'.
Proof.
  intros Hc En Hb. unfold finish_call, mbind, TM_bind. unfold modify at 1. rewrite (modify_node_eq x _ (with_world w t) n En).
  apply post_all_ok; [|apply (ct_count _ _ Hc x n En)|done]. by apply (alter_counted R x (with_obj o) (with_world w t)); [|destruct Hc].
Qed.

Lemma after_call_lookup x o w types t y m' :
  heap (after_call x o w types t) !! y = Some m' -> exists m, heap t !! y = Some m /\ m' = if decide (x = y) then with_obj o m else m.
Proof. apply alter_inv. Qed.

Lemma after_call_objs x o w types t : objs t -> o_inv o -> objs (after_call x o w types t).
Proof. intros Ho Hi y m' E. destruct (after_call_lookup _ _ _ _ _ _ _ E) as (m & Em & ->). case_decide; [done|by eapply Ho]. Qed.

Lemma finish_call_sound x n o w types R L cs t :
  sound R L cs t -> heap t !! x = Some n -> posts_ok (obj n) o types -> cnt x R + Z.of_nat MAX_POSTS <= INT_MAX ->
  exists t', finish_call x (o, w, types) t = Ok ((), t') /\
    sound (replicate (length types) x ++ R) L (cs ++ ((., x) <$> types)) t' /\ others t' = others (after_post types x t).
Proof.
  intros [Hc Hch Hm Ho Hy Hsub] En (Hi & He & Hl) Hb. destruct (finish_call_ok x n o w types R t Hc En) as (t' & E & Hc' & Hs'); [lia|].
  exists t'. split; [done|]. split; [|destruct Hs' as [El _]; by rewrite (lists_others _ _ El)].
  eapply shrinks_sound; [exact Hs'|exact Hc'|intros y Hy1; apply elem_of_app; right; by apply Hsub|].
  assert (Hch1 : chain L (with_heap (alter (with_obj o) x (heap t)) (with_world w t))).
  { apply (alter_chain L x (with_obj o) (with_world w t)); [done|by destruct Hch]. }
  split.
  - destruct (alter_counted R x (with_obj o) t (fun _ => eq_refl) Hc). by split.
  - by destruct Hch1.
  - intros y m' Em'. destruct (after_call_lookup _ _ _ _ _ _ _ Em') as (m & Em & ->). rewrite <- (Hm y m Em). by case_decide.
  - by apply after_call_objs.
  - intros y m' Em'. destruct (after_call_lookup _ _ _ _ _ _ _ Em') as (m & Em & ->). specialize (Hy y m Em).
    rewrite cmds_of_app, cmds_of_posts. unfold after_commands in *. rewrite foldl_app.
    case_decide as Exy; [|by rewrite Hy]. subst y. rewrite En in Em. injection Em as <-. cbn [_refByReadWriteThread with_obj obj]. by rewrite Hy.
  - done.
Qed.

(** A new component is counted once and is not on the worker's list. *)
Lemma alloc_sound o types R L cs t :
  sound R L cs t -> (forall x, x ∈ cs.*2 -> x ∈ R) -> born_ok o types ->
  exists x t1 t2, alloc o t = Ok (x, t1) /\ post_all types x t1 = Ok ((), t2) /\ x ∉ R /\
    sound (replicate (length types) x ++ x :: R) L (cs ++ ((., x) <$> types)) t2 /\ others t2 = others (after_post types x t).
Proof.
  intros [Hc Hch Hm Ho Hy Hsub] Hcs (Hi & He & Hl). set (x := fresh (dom (heap t))). assert (Hx : heap t !! x = None).
  { apply not_elem_of_dom, is_fresh. }
  assert (HxR : x ∉ R). { intros HxR. destruct (ct_alive _ _ Hc x HxR) as [n En]. congruence. }
  exists x. eexists. unfold alloc, mbind, TM_bind, gets, modify, mret, TM_ret. fold x. set (t1 := with_heap _ t).
  assert (Hk : forall y m', heap t1 !! y = Some m' -> y = x /\ m' = mkNode o 1 false None None \/ y <> x /\ heap t !! y = Some m').
  { intros y m' E. cbn in E. apply lookup_insert_Some in E as [[<- <-]|[? ?]]; auto. }
  assert (Hc1 : counted (x :: R) t1).
  { split.
    - intros y m' E. cbn [cnt]. destruct (Hk y m' E) as [[-> ->]|[Hne E0]]; [|rewrite decide_False by done].
      + rewrite decide_True, cnt_not_elem by done. split; [done|by left].
      + destruct (ct_count _ _ Hc y m' E0). split; [lia|by right].
    - intros y Hy1. cbn. destruct (decide (x = y)) as [->|Hne]; [by rewrite lookup_insert_eq|]. rewrite lookup_insert_ne by done. apply (ct_alive _ _ Hc).
      apply elem_of_cons in Hy1 as [->|?]; done. }
  destruct (post_all_ok types x (x :: R) t1 Hc1) as (t2 & E2 & Hc2 & Hs2); [by left| |].
  { cbn. rewrite decide_True, cnt_not_elem by done. unfold INT_MAX, MAX_POSTS in *. lia. }
  exists t2. split_and!; [done|done|done| |by destruct Hs2 as [El2 _]; rewrite (lists_others _ _ El2)].
  assert (HxL : forall y, y ∈ L -> y <> x) by (intros y Hy1 ->; by apply HxR, Hsub).
  eapply shrinks_sound; [exact Hs2|exact Hc2|intros y Hy1; apply elem_of_app; right; right; by apply Hsub|]. split.
  - destruct Hc1. split; [exact ct_count0|done].
  - destruct Hch as [H1 H2 H3 H4]. split; try done. intros A y B E. destruct (H4 A y B E) as (m & Em & ?). exists m. split; [|done]. cbn.
    rewrite lookup_insert_ne; [done|]. intros <-. apply (HxL x); [|done]. rewrite E. set_solver.
  - intros y m' E. destruct (Hk y m' E) as [[-> ->]|[Hne E0]]; [|by apply Hm]. symmetry. apply bool_decide_eq_false. by intros ?%HxL.
  - intros y m' E. destruct (Hk y m' E) as [[-> ->]|[Hne E0]]; [done|by eapply Ho].
  - intros y m' E. rewrite cmds_of_app, cmds_of_posts. destruct (Hk y m' E) as [[-> ->]|[Hne E0]].
    + rewrite decide_True by done. rewrite cmds_of_none; [exact He|]. by intros ?%Hcs.
    + rewrite decide_False by done. rewrite app_nil_r. by apply Hy.
  - intros y Hy1. right. by apply Hsub.
Qed.

(** ** Steps *)

Inductive top :=
| TCreate (s : o_start)                  (* [connect] or [listen] *)
| TUser (x : ptr) (op : o_user)
| TAddRef (x : ptr)
| TSubRef (x : ptr)
| TFetch (es : list (ptr * o_event))     (* the worker *)
| THandle
| TCommands
| TRound                                 (* the timer *)
| TTick (now : Z).

Fixpoint drop_one x (l : list ptr) : list ptr :=
  match l with [] => [] | y :: l => if decide (x = y) then l else y :: drop_one x l end.

(** [users] are the references that users hold. *)
Definition t_run (op : top) (users : list ptr) : TM C W (list ptr) :=
  match op with
  | TCreate s => r ← create_component s; mret (match r with Some x => x :: users | None => users end)
  | TUser x op => _ ← call x (o_run op); mret users
  | TAddRef x => _ ← addRef x; mret (x :: users)
  | TSubRef x => _ ← subRef x; mret (drop_one x users)
  | TFetch es => _ ← modify (with_events es); mret users
  | THandle => _ ← handle_next; mret users
  | TCommands => _ ← processCommands; mret users
  | TRound => _ ← collectNewComponets; mret users
  | TTick now => _ ← timer_next now; mret users
  end.

(** Fewer references than a counter of 32 bits holds. *)
Definition room (users : list ptr) t : Prop :=
  Z.of_nat (length (users ++ (_commands t).*2 ++ _checkingDone t ++ _checkingList t ++ _newCheckingList t)) <= 2 ^ 28.

(** Users use what they hold; epoll reports what is in its set; the worker
    takes the next events and the commands when it has handled the last. *)
Definition t_may (op : top) (users : list ptr) t : Prop :=
  room users t /\
  match op with
  | TUser x op => x ∈ users /\ forall n, heap t !! x = Some n -> o_may op (obj n)
  | TAddRef x | TSubRef x => x ∈ users
  | TFetch es => events t = [] /\ Forall (fun e => exists n, heap t !! e.1 = Some n /\ o_inEpoll (obj n) = true) es
  | TCommands => events t = []
  | _ => True
  end.

Inductive t_reachable : list ptr -> Transport C W -> Prop :=
| t_init w : t_reachable [] (Transport_new w)
| t_step users t op users' t' :
    t_reachable users t -> t_may op users t -> t_run op users t = Ok (users', t') -> t_reachable users' t'.

(** *** The invariant *)

Definition refs (users : list ptr) t L : list ptr :=
  users ++ (_commands t).*2 ++ _checkingDone t ++ _checkingList t ++ _newCheckingList t ++ L.

Definition t_inv (users : list ptr) t : Prop :=
  exists L, sound (refs users t L) L (_commands t) t /\ Forall (fun e => e.1 ∈ L ++ (_commands t).*2) (events t).

Lemma room_cnt users t L x : room users t -> NoDup L -> cnt x (refs users t L) + 16 <= INT_MAX.
Proof.
  unfold room, refs. intros Hr Hn. pose proof (cnt_nodup x L Hn). pose proof (cnt_length x (users ++ (_commands t).*2 ++ _checkingDone t ++ _checkingList t ++ _newCheckingList t)).
  rewrite !cnt_app in *. unfold INT_MAX. lia.
Qed.

Lemma others_refs users t t' L : others t' = others t -> refs users t' L = refs users t L.
Proof. unfold refs. intros [= E1 E2 E3 E4 _]. by rewrite E1, E2, E3, E4. Qed.

Lemma drop_one_cnt x y l : x ∈ l -> cnt y (drop_one x l) = cnt y l - (if decide (y = x) then 1 else 0).
Proof.
  induction l as [|z l IH]; [by intros ?%elem_of_nil|]. intros Hx. cbn. destruct (decide (x = z)) as [->|Hne]; [lia|].
  apply elem_of_cons in Hx as [?|Hx]; [done|]. cbn. rewrite IH by done. lia.
Qed.

(** The state after an operation, whatever it is. *)
Definition ok_or_stuck {A} (Q : A -> Transport C W -> Prop) (r : res (A * Transport C W)) : Prop :=
  match r with Ok (x, t) => Q x t | Dangling _ => False | Stuck => True end.

Lemma oos_bind {A B} (m : TM C W A) (f : A -> TM C W B) Q t :
  ok_or_stuck (fun (x : A) t => ok_or_stuck Q (f x t)) (m t) -> ok_or_stuck Q ((m ≫= f) t).
Proof. unfold mbind, TM_bind. by destruct (m t) as [[]| |]. Qed.

Lemma oos_gets {A B} (f : Transport C W -> A) (k : A -> TM C W B) Q t : ok_or_stuck Q (k (f t) t) -> ok_or_stuck Q ((gets f ≫= k) t).
Proof. done. Qed.

Lemma oos_load {B} x n (k : node C -> TM C W B) Q t : heap t !! x = Some n -> ok_or_stuck Q (k n t) -> ok_or_stuck Q ((load x ≫= k) t).
Proof. intros E. unfold mbind, TM_bind. by rewrite (load_eq _ _ _ E). Qed.

Lemma oos_lift {A B} (m : option A) (k : A -> TM C W B) Q t :
  (forall a, m = Some a -> ok_or_stuck Q (k a t)) -> ok_or_stuck Q ((lift m ≫= k) t).
Proof. unfold mbind, TM_bind, lift. destruct m; cbn; auto. Qed.

Lemma oos_step {A B} (m : TM C W A) (k : A -> TM C W B) a t t' Q : m t = Ok (a, t') -> ok_or_stuck Q (k a t') -> ok_or_stuck Q ((m ≫= k) t).
Proof. intros E. unfold mbind, TM_bind. by rewrite E. Qed.

Ltac cnt_solve :=
  intros ?; unfold refs;
  cbn [app cnt _commands _checkingDone _checkingList _newCheckingList events with_commands with_checking with_events after_post];
  rewrite ?fmap_app, ?fmap_nil, ?posts_snd; repeat first [rewrite cnt_app | rewrite cnt_replicate | progress cbn [app cnt]];
  try lia; case_decide; lia.

(** What a call leaves, in terms of the invariant. *)
Lemma finish_call_inv x n o w types users t :
  t_inv users t -> room users t -> heap t !! x = Some n -> posts_ok (obj n) o types ->
  exists t', finish_call x (o, w, types) t = Ok ((), t') /\ t_inv users t' /\ others t' = others (after_post types x t).
Proof.
  intros (L & Hs & He) Hr En Hp. destruct (finish_call_sound x n o w types _ _ _ t Hs En Hp) as (t' & E & Hs' & Eo).
  { pose proof (room_cnt users t L x Hr (ch_nodup _ _ (sd_chain _ _ _ _ Hs))). unfold MAX_POSTS. lia. }
  exists t'. split; [done|]. split; [|done]. exists L. injection Eo as E1 E2 E3 E4 E5. rewrite E1, E5. split.
  - eapply sound_cnt; [|exact Hs']. unfold refs. rewrite E1, E2, E3, E4. cnt_solve.
  - eapply Forall_impl; [exact He|]. intros e. cbn. rewrite fmap_app. set_solver.
Qed.

Lemma call_inv x f n users t :
  t_inv users t -> room users t -> heap t !! x = Some n ->
  (forall o w cs, f (obj n) (world t) = Some (o, w, cs) -> posts_ok (obj n) o cs) ->
  ok_or_stuck (fun _ t' => t_inv users t') (call x f t).
Proof.
  intros Hi Hr En Hf. unfold call. eapply oos_load; [exact En|]. apply oos_gets, oos_lift.
  intros [[o w] cs] E. destruct (finish_call_inv x n o w cs users t Hi Hr En (Hf o w cs E)) as (t' & -> & Hi' & _). done.
Qed.

(** A component has at most [k] references. *)
Definition light (k : Z) x t : Prop := forall n, heap t !! x = Some n -> _refcount n <= k.

Lemma room_light users t x : t_inv users t -> room users t -> light (INT_MAX - 16) x t.
Proof.
  intros (L & Hs & _) Hr n En. destruct (ct_count _ _ (sd_counted _ _ _ _ Hs) x n En) as [-> _].
  pose proof (room_cnt users t L x Hr (ch_nodup _ _ (sd_chain _ _ _ _ Hs))). lia.
Qed.

Lemma light_cnt k x R t : counted R t -> x ∈ R -> light k x t -> cnt x R <= k.
Proof. intros Hc Hx Hl. destruct (ct_alive _ _ Hc x Hx) as [n En]. destruct (ct_count _ _ Hc x n En) as [<- _]. by apply Hl. Qed.

Lemma cnt_light k x R t : counted R t -> cnt x R <= k -> light k x t.
Proof. intros Hc Hk n En. by destruct (ct_count _ _ Hc x n En) as [-> _]. Qed.

Lemma addRef_inv k x users t :
  t_inv users t -> x ∈ users -> light k x t -> k < INT_MAX ->
  exists t', addRef x t = Ok ((), t') /\ t_inv (x :: users) t' /\ lists t' = lists t /\ light (k + 1) x t'.
Proof.
  intros (L & Hs & He) Hx Hl Hk. assert (Hx' : x ∈ refs users t L) by set_solver.
  pose proof (light_cnt k x _ t (sd_counted _ _ _ _ Hs) Hx' Hl) as Hc.
  destruct (addRef_sound x _ _ _ t Hs Hx') as (t' & E & Hs' & El); [lia|]. exists t'. split; [done|].
  pose proof (lists_others _ _ El) as Eo. split_and!; [|done|].
  - exists L. injection El as E1 E2 E3 E4 E5 E6 E7. rewrite E3, E7. split; [|done]. eapply sound_cnt; [|exact Hs']. unfold refs. by rewrite E3, E4, E5, E6.
  - eapply cnt_light; [apply Hs'|]. cbn. rewrite decide_True by done. lia.
Qed.

Lemma subRef_inv k x users t :
  t_inv (x :: users) t -> light k x t -> k <= INT_MAX ->
  exists t', subRef x t = Ok ((), t') /\ t_inv users t' /\ lists t' = lists t.
Proof.
  intros (L & Hs & He) Hl Hk. pose proof (light_cnt k x _ t (sd_counted _ _ _ _ Hs) ltac:(by left) Hl) as Hc.
  assert (Hs0 : sound (x :: refs users t L) L (_commands t) t) by exact Hs. cbn in Hc. rewrite decide_True in Hc by done. fold (refs users t L) in Hc.
  destruct (subRef_sound x _ _ _ t Hs0) as (t' & E & Hs' & El); [lia|unfold refs; set_solver|]. exists t'. split; [done|]. split; [|done].
  exists L. injection El as E1 E2 E3 E4 E5 E6 E7. rewrite E3, E7. split; [|done]. unfold refs in *. by rewrite E3, E4, E5, E6.
Qed.

(** Giving a reference of a user to the timer. *)
Lemma addToCheckingList_inv k x users t :
  t_inv users t -> x ∈ users -> light k x t -> k < INT_MAX ->
  exists t', addToCheckingList x t = Ok ((), t') /\ t_inv users t' /\ light (k + 1) x t' /\ events t' = events t.
Proof.
  intros Hi Hx Hl Hk. destruct (addRef_inv k x users t Hi Hx Hl Hk) as (t1 & E & (L & Hs & He) & El & Hl1).
  unfold addToCheckingList, mbind, TM_bind. rewrite E. eexists. split; [done|]. split_and!; [|done|by injection El].
  exists L. split; [|done]. eapply (sound_cnt (refs (x :: users) t1 L)); [cnt_solve|]. destruct Hs as [[] [] ? ? ? ?]. split; done.
Qed.

Lemma born_inv o cs users t :
  t_inv users t -> born_ok o cs ->
  exists x t1 t2, alloc o t = Ok (x, t1) /\ post_all cs x t1 = Ok ((), t2) /\ t_inv (x :: users) t2 /\ light 8 x t2 /\ events t2 = events t.
Proof.
  intros (L & Hs & He) Hb. destruct (alloc_sound o cs _ _ _ t Hs) as (x & t1 & t2 & E1 & E2 & Hx & Hs2 & Eo); [unfold refs; set_solver|done|].
  exists x, t1, t2. injection Eo as F1 F2 F3 F4 F5. split_and!; [done|done| | |done].
  - exists L. rewrite F1, F5. split.
    + eapply sound_cnt; [|exact Hs2]. unfold refs. rewrite F1, F2, F3, F4. cnt_solve.
    + eapply Forall_impl; [exact He|]. intros e. cbn. rewrite fmap_app. set_solver.
  - eapply cnt_light; [apply Hs2|]. rewrite cnt_app, cnt_replicate. cbn. rewrite !decide_True, cnt_not_elem by done. destruct Hb as (_ & _ & Hb). unfold MAX_POSTS in Hb. lia.
Qed.

Lemma adopt_all_inv new users t :
  t_inv users t -> Forall (fun '(o, cs) => born_ok o cs) new ->
  exists t', adopt_all new t = Ok ((), t') /\ t_inv users t' /\ events t' = events t.
Proof.
  intros Hi Hb. revert t Hi. induction Hb as [|[o cs] new Hb _ IH]; intros t Hi; [by exists t|].
  destruct (born_inv o cs users t Hi Hb) as (x & t1 & t2 & E1 & E2 & Hi2 & Hl2 & Ev2). cbn [adopt_all]. unfold mbind, TM_bind. rewrite E1, E2.
  destruct (addToCheckingList_inv 8 x _ t2 Hi2 ltac:(by left) Hl2) as (t3 & -> & Hi3 & Hl3 & Ev3); [done|].
  destruct (subRef_inv _ x users t3 Hi3 Hl3) as (t4 & -> & Hi4 & El4); [done|]. injection El4 as _ _ _ _ _ _ Ev4.
  destruct (IH t4 Hi4) as (t' & E & Hi' & Ev). exists t'. split_and!; [done|done|congruence].
Qed.

Lemma sound_heap R L cs t t' :
  heap t' = heap t -> _iocListHead t' = _iocListHead t -> _iocListTail t' = _iocListTail t -> sound R L cs t -> sound R L cs t'.
Proof.
  intros E1 E2 E3 [[Hc Ha] [? ? ? ?] Hm Ho Hy Hs].
  split; [split|split| | | |]; unfold marks, objs, synced; rewrite ?E1, ?E2, ?E3; done.
Qed.

(** *** Every step keeps it *)

Lemma create_step s users t :
  t_inv users t -> ok_or_stuck t_inv (t_run (TCreate s) users t).
Proof.
  intros Hi. cbn [t_run]. apply oos_bind. unfold create_component. apply oos_gets, oos_lift. intros [[[o cs]|] w] E; (eapply oos_step; [done|]); cbn [fst snd].
  - pose proof (law_create _ _ _ _ _ E) as Hb. assert (Hi1 : t_inv users (with_world w t)).
    { destruct Hi as (L & Hs & He). exists L. split; [|done]. by apply (sound_heap _ _ _ t). }
    destruct (born_inv o cs users _ Hi1 Hb) as (x & t1 & t2 & E1 & E2 & Hi2 & Hl2 & _).
    eapply oos_step; [exact E1|]. eapply oos_step; [exact E2|]. destruct (o_checked s); [|done].
    destruct (addToCheckingList_inv 8 x _ t2 Hi2 ltac:(by left) Hl2) as (t3 & E3 & Hi3 & _); [done|]. by eapply oos_step; [exact E3|].
  - destruct Hi as (L & Hs & He). exists L. split; [|done]. by apply (sound_heap _ _ _ t).
Qed.

Lemma handle_step users t : t_inv users t -> room users t -> ok_or_stuck t_inv (t_run THandle users t).
Proof.
  intros Hi Hr. cbn [t_run]. apply oos_bind. unfold handle_next. apply oos_gets. destruct (events t) as [|[x ev] es] eqn:Ee; [done|].
  pose proof Hi as (L & Hs & He). rewrite Ee in He. apply Forall_cons in He as [Hx _]. cbn in Hx.
  destruct (ct_alive _ _ (sd_counted _ _ _ _ Hs) x) as [n En]; [unfold refs; set_solver|].
  apply oos_bind. unfold handle_event. eapply oos_load; [exact En|]. apply oos_gets, oos_lift. intros [[[o w] cs] new] E.
  destruct (law_handle _ _ _ _ _ _ _ (sd_objs _ _ _ _ Hs x n En) E) as [Hp Hnew].
  destruct (finish_call_inv x n o w cs users t Hi Hr En Hp) as (t1 & E1 & Hi1 & Eo1). eapply oos_step; [exact E1|].
  destruct (adopt_all_inv new users t1 Hi1 Hnew) as (t2 & E2 & (L2 & Hs2 & He2) & Ev2). cbn [snd]. rewrite E2. exists L2. injection Eo1 as _ _ _ _ Ev1.
  split; [by apply (sound_heap _ _ _ t2)|]. rewrite Ev2, Ev1 in He2. cbn in He2. rewrite Ee in He2. by apply Forall_cons in He2 as [_ ?].
Qed.

Lemma process_step users t :
  t_inv users t -> room users t -> events t = [] ->
  exists t', processCommands t = Ok ((), t') /\ t_inv users t' /\ _commands t' = [] /\ others t' = others (with_commands [] t).
Proof.
  intros (L & Hs & He) Hr Ee. set (Q := users ++ _checkingDone t ++ _checkingList t ++ _newCheckingList t).
  destruct (process_loop_sound (_commands t) L Q t) as (L' & t1 & E & Hs1 & Eo).
  { eapply sound_cnt; [|exact Hs]. unfold Q. cnt_solve. }
  { intros y. pose proof (room_cnt users t L y Hr (ch_nodup _ _ (sd_chain _ _ _ _ Hs))) as Hb. unfold refs in Hb. unfold Q. rewrite !cnt_app in *. lia. }
  unfold processCommands, mbind, TM_bind, gets. rewrite E. eexists. split; [done|]. injection Eo as F1 F2 F3 F4 F5. split_and!; [|done|].
  - exists L'. cbn [events _commands with_commands]. rewrite F5, Ee. split; [|constructor]. apply (sound_heap _ _ _ t1); [done..|].
    eapply sound_cnt; [|exact Hs1]. unfold refs, Q. cbn [_commands _checkingDone _checkingList _newCheckingList with_commands]. rewrite F2, F3, F4. cnt_solve.
  - unfold others. cbn. by rewrite F2, F3, F4, F5.
Qed.

Lemma timer_step now users t : t_inv users t -> room users t -> ok_or_stuck t_inv (t_run (TTick now) users t).
Proof.
  intros Hi Hr. cbn [t_run]. apply oos_bind. unfold timer_next. apply oos_gets. destruct (_checkingList t) as [|x rest] eqn:El; [done|].
  pose proof Hi as (L & Hs & He). destruct (ct_alive _ _ (sd_counted _ _ _ _ Hs) x) as [n En]; [unfold refs; rewrite El; set_solver|].
  apply oos_bind. unfold timeout_one. eapply oos_load; [exact En|]. apply oos_gets, oos_lift. intros [b [[o w] cs]] E.
  pose proof (law_check _ _ _ _ _ _ _ _ (sd_objs _ _ _ _ Hs x n En) E) as Hp.
  pose proof (room_cnt users t L x Hr (ch_nodup _ _ (sd_chain _ _ _ _ Hs))) as Hb.
  destruct (finish_call_sound x n o w cs _ _ _ t Hs En Hp) as (t1 & E1 & Hs1 & Eo1); [unfold MAX_POSTS; lia|].
  injection Eo1 as F1 F2 F3 F4 F5. eapply oos_step; [exact E1|]. cbn [fst].
  assert (Hev : Forall (fun e => e.1 ∈ L ++ (_commands t1).*2) (events t1)).
  { rewrite F1, F5. eapply Forall_impl; [exact He|]. intros e. cbn. rewrite fmap_app. set_solver. }
  destruct b.
  - exists L. split; [|done]. apply (sound_heap _ _ _ t1); [done..|]. cbn. rewrite F1. eapply sound_cnt; [|exact Hs1].
    unfold refs. cbn. rewrite F1, F2, F4, El. cbn. cnt_solve.
  - set (R := refs users (with_checking (_checkingDone t1) rest (_newCheckingList t1) t1) L).
    destruct (subRef_sound x R L (_commands t1) t1) as (t2 & E2 & Hs2 & El2).
    + rewrite F1. eapply sound_cnt; [|exact Hs1]. unfold R, refs. cbn. rewrite F1, F2, F4, El. cnt_solve.
    + unfold R. unfold refs in Hb |- *. cbn. rewrite F1, F2, F4. rewrite El in Hb. destruct Hp as (_ & _ & Hp). unfold MAX_POSTS in Hp.
      rewrite fmap_app, posts_snd. rewrite !cnt_app, cnt_replicate, ?cnt_app in *. cbn in Hb. rewrite decide_True in * by done. lia.
    + unfold R, refs. set_solver.
    + cbn [ok_or_stuck mret TM_ret]. unfold mbind, TM_bind. rewrite E2. injection El2 as _ _ G1 G2 G3 G4 G5. exists L. cbn [_commands events with_checking]. rewrite G1, G5. split; [|done]. apply (sound_heap _ _ _ t2); [done..|].
      eapply sound_cnt; [|exact Hs2]. unfold R, refs. cbn. by rewrite G1, G2, G4.
Qed.

Lemma fetch_step es users t :
  t_inv users t -> Forall (fun e => exists n, heap t !! e.1 = Some n /\ o_inEpoll (obj n) = true) es -> t_inv users (with_events es t).
Proof.
  intros (L & Hs & _) Hes. exists L. split; [by apply (sound_heap _ _ _ t)|]. eapply Forall_impl; [exact Hes|]. intros [x ev] (n & En & Hep).
  cbn in *. pose proof (sd_synced _ _ _ _ Hs x n En) as Hy. rewrite Hep in Hy. apply elem_of_app.
  destruct (decide (x ∈ (_commands t).*2)) as [|Hx]; [by right|]. left. rewrite cmds_of_none, (sd_marks _ _ _ _ Hs x n En) in Hy by done. cbn in Hy.
  by apply bool_decide_eq_true in Hy.
Qed.

Lemma t_step_ok op users t : t_inv users t -> t_may op users t -> ok_or_stuck t_inv (t_run op users t).
Proof.
  intros Hi [Hr Hm]. pose proof (fun x => room_light users t x Hi Hr) as Hl. destruct op as [s|x op|x|x|es| | | |now]; cbn [t_run].
  - by apply create_step.
  - destruct Hm as [Hx Hm]. apply oos_bind. pose proof Hi as (L & Hs & _). destruct (ct_alive _ _ (sd_counted _ _ _ _ Hs) x) as [n En]; [unfold refs; set_solver|].
    eapply (call_inv x _ n users t Hi Hr En). intros o w cs E. eapply law_run; [by eapply sd_objs|by apply Hm|exact E].
  - destruct (addRef_inv _ x users t Hi Hm (Hl x)) as (t' & E & Hi' & _); [unfold INT_MAX; lia|]. by eapply oos_step; [exact E|].
  - assert (Hi1 : t_inv (x :: drop_one x users) t).
    { destruct Hi as (L & Hs & He). exists L. split; [|done]. eapply sound_cnt; [|exact Hs]. intros y. unfold refs. cbn. rewrite !cnt_app, drop_one_cnt by done. lia. }
    destruct (subRef_inv _ x _ t Hi1 (Hl x)) as (t' & E & Hi' & _); [unfold INT_MAX; lia|]. by eapply oos_step; [exact E|].
  - destruct Hm as [_ Hm]. by apply (fetch_step es users t).
  - by apply handle_step.
  - destruct (process_step users t Hi Hr Hm) as (t' & E & Hi' & _). by eapply oos_step; [exact E|].
  - destruct Hi as (L & Hs & He). exists L. split; [|done]. apply (sound_heap _ _ _ t); [done..|]. eapply sound_cnt; [|exact Hs]. cnt_solve.
  - by apply timer_step.
Qed.

Lemma t_inv_new w : t_inv [] (Transport_new w).
Proof.
  exists []. split; [|constructor]. split.
  - split; [done|]. by intros x ?%elem_of_nil.
  - split; [constructor|done|done|]. by intros [].
  - done.
  - done.
  - done.
  - by intros x ?%elem_of_nil.
Qed.

Lemma t_reachable_inv users t : t_reachable users t -> t_inv users t.
Proof.
  induction 1 as [w|users t op users' t' _ IH Hm E]; [apply t_inv_new|]. pose proof (t_step_ok op users t IH Hm) as Hs. by rewrite E in Hs.
Qed.

(** ** Closing *)

Lemma call_close_eq x n t :
  heap t !! x = Some n -> objs t ->
  exists o w cs, call x o_close t = finish_call x (o, w, cs) t /\ posts_ok (obj n) o cs.
Proof.
  intros En Ho. destruct (law_close (obj n) (world t) (Ho x n En)) as (o & w & cs & E & Hp). exists o, w, cs. split; [|done].
  unfold call, mbind, TM_bind. rewrite (load_eq _ _ _ En). unfold gets, lift. by rewrite E.
Qed.

(** The loop over the timer's list.  Every close posts few commands, so the
    counters stay below five times what they were. *)
Lemma close_checking_sound todo users t L :
  sound (todo ++ users ++ (_commands t).*2 ++ L) L (_commands t) t ->
  _checkingDone t = [] -> _checkingList t = todo -> _newCheckingList t = [] ->
  (forall y, cnt y (users ++ (_commands t).*2 ++ L) + 5 * cnt y todo <= INT_MAX - 4) ->
  exists t', close_checking todo t = Ok ((), t') /\ sound (users ++ (_commands t').*2 ++ L) L (_commands t') t' /\
    _checkingDone t' = [] /\ _checkingList t' = [] /\ _newCheckingList t' = [] /\
    forall y, cnt y (users ++ (_commands t').*2 ++ L) <= INT_MAX - 4.
Proof.
  revert t. induction todo as [|x todo IH]; intros t Hs Ed El En Hb.
  { exists t. split_and!; try done. intros y. specialize (Hb y). cbn in Hb. lia. }
  destruct (ct_alive _ _ (sd_counted _ _ _ _ Hs) x) as [n Hn]; [by left|]. destruct (call_close_eq x n t Hn (sd_objs _ _ _ _ Hs)) as (o & w & cs & Ec & Hp).
  pose proof Hp as (_ & _ & Hlen). pose proof (cnt_nonneg x todo) as H0.
  destruct (finish_call_sound x n o w cs _ _ _ t Hs Hn Hp) as (t1 & E1 & Hs1 & Eo1).
  { specialize (Hb x). cbn in Hb |- *. rewrite cnt_app. rewrite decide_True in * by done. unfold MAX_POSTS. lia. }
  injection Eo1 as F1 F2 F3 F4 F5. cbn [close_checking]. unfold mbind, TM_bind. rewrite Ec, E1.
  destruct (subRef_sound x (todo ++ users ++ (_commands t1).*2 ++ L) L (_commands t1) t1) as (t2 & -> & Hs2 & El2).
  { rewrite F1. eapply sound_cnt; [|exact Hs1]. cnt_solve. }
  { specialize (Hb x). rewrite F1, fmap_app, posts_snd. cbn in Hb. rewrite !cnt_app, cnt_replicate in *. rewrite decide_True in * by done. unfold MAX_POSTS in Hlen. lia. }
  { set_solver. }
  injection El2 as _ _ G1 G2 G3 G4 G5. unfold modify at 1.
  set (t3 := with_checking [] todo (_newCheckingList t2) t2). destruct (IH t3) as (t' & E' & H').
  - cbn [_commands with_checking t3]. rewrite G1. apply (sound_heap _ _ _ t2); done.
  - done.
  - done.
  - cbn. by rewrite G4, F4.
  - intros y. specialize (Hb y). cbn [_commands with_checking t3]. rewrite G1, F1, fmap_app, posts_snd. cbn in Hb. rewrite !cnt_app, cnt_replicate in *.
    unfold MAX_POSTS in Hlen. case_decide; lia.
  - exists t'. by split.
Qed.

(** The worker's list from a node on. *)
Definition nexts L t : Prop := forall A x B, L = A ++ x :: B -> exists n, heap t !! x = Some n /\ _next n = head B.

Lemma nexts_tail x L t : nexts (x :: L) t -> nexts L t.
Proof. intros Hn A y B ->. by apply (Hn (x :: A)). Qed.

Lemma nexts_keep L t t' :
  nexts L t -> (forall x, x ∈ L -> is_Some (heap t' !! x)) ->
  (forall x n', heap t' !! x = Some n' -> exists n, heap t !! x = Some n /\ _next n' = _next n) -> nexts L t'.
Proof.
  intros Hn Ha Hk A x B E. destruct (Ha x) as [n' En']; [rewrite E; set_solver|]. destruct (Hk x n' En') as (n & En & Ex).
  destruct (Hn A x B E) as (n0 & En0 & Ex0). exists n'. split; [done|]. congruence.
Qed.

Lemma shrinks_next t t' x n' : shrinks t t' -> heap t' !! x = Some n' -> exists n, heap t !! x = Some n /\ _next n' = _next n.
Proof. intros [_ Hs] E. destruct (Hs x n' E) as (n & En & Ec). injection Ec as _ _ _ ?. by exists n. Qed.

Lemma close_loop_ok L users fuel t :
  counted (L ++ users ++ (_commands t).*2) t -> objs t -> nexts L t -> NoDup L -> (length L <= fuel)%nat ->
  (forall y, cnt y (L ++ users ++ (_commands t).*2) + 4 * cnt y L <= INT_MAX) ->
  exists t', close_loop fuel (head L) t = Ok ((), t') /\ counted (users ++ (_commands t').*2) t' /\ objs t' /\
    _checkingDone t' = _checkingDone t /\ _checkingList t' = _checkingList t /\ _newCheckingList t' = _newCheckingList t /\
    (forall y, cnt y (users ++ (_commands t').*2) <= INT_MAX).
Proof.
  revert fuel t. induction L as [|x L IH]; intros fuel t Hc Ho Hn Hnd Hf Hb.
  { exists t. split; [by destruct fuel|]. split_and!; try done. intros y. specialize (Hb y). cbn in Hb. lia. }
  destruct fuel as [|fuel]; [cbn in Hf; lia|]. destruct (Hn [] x L eq_refl) as (n & En & Ex). apply NoDup_cons in Hnd as [Hx Hnd].
  destruct (call_close_eq x n t En Ho) as (o & w & cs & Ec & Hi & _ & Hlen). unfold MAX_POSTS in Hlen.
  pose proof (Hb x) as Hbx. cbn [app cnt] in Hbx. rewrite decide_True in Hbx by done. rewrite (cnt_not_elem x L Hx) in Hbx.
  destruct (finish_call_ok x n o w cs _ t Hc En) as (t1 & E1 & Hc1 & Hs1); [cbn [app cnt]; rewrite decide_True by done; lia|].
  pose proof Hs1 as [El1 _]. injection El1 as _ _ F1 F2 F3 F4 F5. assert (Ho1 : objs t1) by (eapply keeps_objs; [by apply shrinks_keeps|by apply after_call_objs]).
  cbn [head close_loop]. unfold mbind, TM_bind. rewrite (load_eq _ _ _ En), Ex, Ec, E1.
  destruct (subRef_ok x (L ++ users ++ (_commands t1).*2) t1) as (t2 & -> & Hc2 & Hs2).
  { eapply counted_cnt; [|exact Hc1]. rewrite F1. cnt_solve. }
  { rewrite F1. cbn [_commands after_call after_post with_heap with_world]. rewrite fmap_app, posts_snd.
    cbn in Hbx. rewrite !cnt_app, cnt_replicate in *. rewrite decide_True by done. rewrite (cnt_not_elem x L Hx) in *. lia. }
  { done. }
  pose proof Hs2 as [El2 _]. injection El2 as _ _ G1 G2 G3 G4 G5. destruct (IH fuel t2) as (t' & E' & Hc' & Ho' & K2 & K3 & K4 & Hb').
  - by rewrite G1.
  - eapply keeps_objs; [by apply shrinks_keeps|done].
  - eapply nexts_keep; [by eapply nexts_tail| |].
    + intros y Hy. eapply ct_alive; [exact Hc2|]. set_solver.
    + intros y n2 E2. destruct (shrinks_next _ _ _ _ Hs2 E2) as (n1 & E1' & ->). destruct (shrinks_next _ _ _ _ Hs1 E1') as (n0 & E0 & ->).
      destruct (after_call_lookup _ _ _ _ _ _ _ E0) as (m & Em & ->). exists m. by case_decide.
  - done.
  - cbn in Hf. lia.
  - intros y. rewrite G1, F1. cbn [_commands after_call after_post with_heap with_world]. rewrite fmap_app, posts_snd.
    specialize (Hb y). cbn in Hb. rewrite !cnt_app, cnt_replicate in *. case_decide; lia.
  - exists t'. split_and!; try done; congruence.
Qed.

Lemma drop_loop_ok cs users t :
  counted (cs.*2 ++ users) t -> objs t -> (forall y, cnt y (cs.*2 ++ users) <= INT_MAX) ->
  exists t', drop_loop cs t = Ok ((), t') /\ counted users t' /\ shrinks t t'.
Proof.
  revert t. induction cs as [|[c x] cs IH]; intros t Hc Ho Hb; [exists t; split_and!; try done; apply shrinks_refl|].
  cbn [drop_loop]. unfold mbind, TM_bind. destruct (subRef_ok x (cs.*2 ++ users) t Hc) as (t1 & -> & Hc1 & Hs1); [|done|].
  { specialize (Hb x). cbn in Hb. rewrite decide_True in Hb by done. fold (cs.*2) in Hb. lia. }
  destruct (IH t1 Hc1) as (t' & E & Hc' & Hs'); [eapply keeps_objs; [by apply shrinks_keeps|done]| |].
  { intros y. specialize (Hb y). cbn in Hb. fold (cs.*2) in Hb. case_decide; lia. }
  exists t'. split_and!; try done. by eapply shrinks_trans.
Qed.

(** The fuel of [close_loop] is enough. *)
Lemma listed_size L t : NoDup L -> (forall x, x ∈ L -> is_Some (heap t !! x)) -> (length L <= size (heap t))%nat.
Proof.
  intros Hn Ha. rewrite <- size_dom, <- (size_list_to_set (C := gset ptr) L Hn). apply subseteq_size. intros x Hx.
  apply elem_of_list_to_set in Hx. by apply elem_of_dom, Ha.
Qed.

Lemma worker_closeComponents_ok L users t :
  sound (users ++ (_commands t).*2 ++ L) L (_commands t) t -> (forall y, cnt y (users ++ (_commands t).*2 ++ L) <= INT_MAX - 4) ->
  exists t', worker_closeComponents t = Ok ((), t') /\ counted users t' /\ _commands t' = [] /\ _iocListHead t' = None /\ _iocListTail t' = None /\
    _checkingDone t' = _checkingDone t /\ _checkingList t' = _checkingList t /\ _newCheckingList t' = _newCheckingList t.
Proof.
  intros [Hc Hch Hm Ho Hy Hsub] Hb. pose proof (ch_nodup _ _ Hch) as Hnd.
  assert (Ha : forall x, x ∈ L -> is_Some (heap t !! x)) by (intros x Hx; by eapply ct_alive, Hsub).
  destruct (close_loop_ok L users (size (heap t)) t) as (t1 & E1 & Hc1 & Ho1 & F2 & F3 & F4 & Hb1); [|done| |done|by apply listed_size| |].
  { eapply counted_cnt; [|exact Hc]. cnt_solve. }
  { intros A x B E. destruct (ch_node _ _ Hch A x B E) as (n & En & _ & Ex). by exists n. }
  { intros y. specialize (Hb y). pose proof (cnt_nodup y L Hnd). rewrite !cnt_app in *. lia. }
  unfold worker_closeComponents, mbind, TM_bind, gets. rewrite (ch_head _ _ Hch), E1. unfold modify at 1.
  destruct (drop_loop_ok (_commands t1) users (with_ends None None t1)) as (t2 & E2 & Hc2 & Hs2).
  { destruct Hc1 as [Hc1 Ha1]. eapply counted_cnt; [|split; [exact Hc1|exact Ha1]]. cnt_solve. }
  { done. }
  { intros y. specialize (Hb1 y). rewrite cnt_app in *. lia. }
  cbn [_commands with_ends]. rewrite E2. eexists. split; [done|]. destruct Hs2 as [El2 _]. injection El2 as G1 G2 G3 G4 G5 G6 G7.
  split; [by destruct Hc2|]. cbn. split_and!; congruence.
Qed.

Lemma closeComponents_ok users t :
  t_inv users t -> room users t ->
  exists t', closeComponents t = Ok ((), t') /\ counted users t' /\ _commands t' = [] /\ _iocListHead t' = None /\ _iocListTail t' = None /\
    _checkingDone t' = [] /\ _checkingList t' = [] /\ _newCheckingList t' = [].
Proof.
  intros (L & Hs & _) Hr. set (todo := _checkingDone t ++ _checkingList t ++ _newCheckingList t). set (t0 := with_checking [] todo [] t).
  destruct (close_checking_sound todo users t0 L) as (t1 & E1 & Hs1 & D1 & D2 & D3 & Hb1); [|done..| |].
  - apply (sound_heap _ _ _ t); [done..|]. eapply sound_cnt; [|exact Hs]. unfold todo, t0. cnt_solve.
  - intros y. pose proof (cnt_nodup y L (ch_nodup _ _ (sd_chain _ _ _ _ Hs))) as HL1. pose proof (cnt_length y (users ++ (_commands t).*2 ++ todo)) as Hl.
    unfold room in Hr. fold todo in Hr. cbn [_commands with_checking t0]. pose proof (cnt_nonneg y (users ++ (_commands t).*2)) as H0.
    rewrite !cnt_app in *. pose proof (cnt_nonneg y users). pose proof (cnt_nonneg y (_commands t).*2). unfold INT_MAX. lia.
  - destruct (worker_closeComponents_ok L users t1 Hs1 Hb1) as (t' & E' & Hc' & K1 & K2 & K3 & K4 & K5 & K6). exists t'.
    split; [|split_and!; congruence]. unfold closeComponents, mbind, TM_bind, collectNewComponets. unfold modify at 1. fold todo t0. cbn [gets]. unfold gets. cbn [_checkingList t0 with_checking].
    by rewrite E1.
Qed.

End Invariant.

(** ** The properties *)

Section Properties.

Context {C W : Type} `{Component C W} {HL : ComponentLaws C W}.

Implicit Types (t : Transport C W) (users : list ptr).

(** C18: A component is alive while anybody can reach it, and no longer.  In
    every state of a transport that its users, its worker and its timer can
    reach in any order, the counter of every component is the number of
    references that users hold, that pending commands hold and that the timer
    holds, plus one when it is on the worker's list; none of them points to a
    freed component; and no step uses one: handling a fetched event, processing
    a command, checking a time-out, releasing a reference. *)
Theorem transport_memory_safe users t :
  t_reachable users t ->
  (forall x n, heap t !! x = Some n ->
     0 < _refcount n /\
     _refcount n = cnt x users + cnt x (_commands t).*2 + cnt x (_checkingDone t ++ _checkingList t ++ _newCheckingList t) +
                   (if _refByReadWriteThread n then 1 else 0)) /\
  (forall x, x ∈ users ++ (_commands t).*2 ++ _checkingDone t ++ _checkingList t ++ _newCheckingList t ++ (events t).*1 -> is_Some (heap t !! x)) /\
  (forall op x, t_may op users t -> t_run op users t <> Dangling x).
Proof.
  intros Hr. pose proof (t_reachable_inv users t Hr) as Hi. split_and!.
  - destruct Hi as (L & [Hc Hch Hm _ _ _] & _). intros x n En. destruct (ct_count _ _ Hc x n En) as [E Hx]. apply cnt_elem in Hx. rewrite E. split; [done|].
    rewrite (Hm x n En). unfold refs. rewrite !cnt_app. case_bool_decide as Hin; [|rewrite (cnt_not_elem x L Hin); lia].
    pose proof (cnt_nodup x L (ch_nodup _ _ Hch)). apply cnt_elem in Hin. lia.
  - destruct Hi as (L & [Hc _ _ _ _ Hsub] & He). intros x Hx. apply (ct_alive _ _ Hc). unfold refs in *.
    rewrite !elem_of_app in *. destruct Hx as [?|[?|[?|[?|[?|Hx]]]]]; auto 10. apply list_elem_of_fmap in Hx as (e & -> & Hx).
    rewrite Forall_forall in He. specialize (He e Hx). rewrite elem_of_app in He. destruct He; auto 10.
  - intros op x Hm E. pose proof (t_step_ok op users t Hi Hm) as Hs. by rewrite E in Hs.
Qed.


(** C20: A closed transport leaks nothing.  From every reachable state,
    [closeComponents] returns; then the components that are left are exactly
    those a user still refers to, each counting its users, and the worker's
    list, its commands and the timer's lists are empty; without users every
    component has been freed. *)
Theorem transport_close_leaks_nothing users t :
  t_reachable users t -> room users t ->
  exists t', closeComponents t = Ok ((), t') /\
    (forall x, x ∈ users <-> is_Some (heap t' !! x)) /\
    (forall x n, heap t' !! x = Some n -> _refcount n = cnt x users) /\
    _iocListHead t' = None /\ _iocListTail t' = None /\ _commands t' = [] /\ _checkingDone t' ++ _checkingList t' ++ _newCheckingList t' = [] /\
    (users = [] -> heap t' = ∅).
Proof.
  intros Hr Hroom. destruct (closeComponents_ok users t (t_reachable_inv users t Hr) Hroom) as (t' & E & [Hc Ha] & K1 & K2 & K3 & K4 & K5 & K6).
  exists t'. assert (Hin : forall x, x ∈ users <-> is_Some (heap t' !! x)).
  { intros x. split; [apply Ha|]. intros [n En]. by apply (Hc x n). }
  split_and!; try done; [intros x n En; by apply Hc|by rewrite K4, K5, K6|]. intros ->. apply map_empty. intros x. apply eq_None_not_Some. rewrite <- Hin. apply not_elem_of_nil.
Qed.

End Properties.
