(* ===== verification/TransportTcp.v ===== *)
(** * The transport with TCP components

    Sources: transport.cpp, tcpacceptor.h, tcpacceptor.cpp, tcpcomponent.cpp
    and iocomponent.cpp under src/agent_engine/network/anet/.

    How a transport chooses a worker, connects and listens, the acceptor, and
    the instance of the interface [Component] with which the theorems of
    [Transport] hold for TCP components and acceptors. *)

From S2P Require Import Prelude CString AddrSpec Socket DataBuffer PacketQueue Packet Streamer DefaultPacket Framing ChannelPool Connection TcpConnection TcpComponent Transport.

(** ** Workers *)

Inductive IocType := IOC_BASE | IOC_TCPACCEPTOR | IOC_TCPCOMPONENT.

#[global] Instance IocType_eq_dec : EqDecision IocType.
Proof. solve_decision. Defined.

Inductive ListenFdThreadMode := SHARE_THREAD | EXCLUSIVE_LISTEN_THREAD.

Definition MAX_IO_THREAD_NUM : Z := 32.

(** [_ioThreadNum] and [_listenThreadNum] as the constructor sets them. *)
Definition Transport_threads (ioThreadNum : Z) (mode : ListenFdThreadMode) : Z * Z :=
  (if ioThreadNum <? 1 then 1 else if MAX_IO_THREAD_NUM <? ioThreadNum then MAX_IO_THREAD_NUM else ioThreadNum,
   match mode with EXCLUSIVE_LISTEN_THREAD => 1 | SHARE_THREAD => 0 end).

(** [%] truncates. *)
Definition SimpleHashStrategy (fd ioThreadNum : Z) : Z := if fd =? -1 then 0 else Z.rem fd ioThreadNum.

Definition PrioritySeparateStrategy (ioType : IocType) (priority fd ioThreadNum : Z) : Z :=
  if bool_decide (ioType = IOC_TCPACCEPTOR) || (priority =? ANET_PRIORITY_HIGH) then ioThreadNum else SimpleHashStrategy fd ioThreadNum.

(** [priority] is what [getPriority] returns. *)
Definition getChunkId (mode : ListenFdThreadMode) (ioThreadNum : Z) (ioc : option (IocType * Z * Z)) : Z :=
  match ioc with
  | None => 0
  | Some (type, priority, fd) =>
      match mode with
      | EXCLUSIVE_LISTEN_THREAD => PrioritySeparateStrategy type priority fd ioThreadNum
      | SHARE_THREAD => SimpleHashStrategy fd ioThreadNum
      end
  end.

(** ** [parseLocalAddr] *)

(** [strchr(s, ':')]: what is before and what is after. *)
Fixpoint split_colon (s : list Z) : list Z * option (list Z) :=
  match s with
  | [] => ([], None)
  | c :: s => if c =? 58 then ([], Some s) else let '(ip, rest) := split_colon s in (c :: ip, rest)
  end.

(** The string left in [ipStr] and the port, which is not set when the address
    does not fit. *)
Definition parseLocalAddr (localAddr : list Z) (ipStrBufLen : Z) : list Z * option Z :=
  let '(ip, rest) := split_colon localAddr in
  if ipStrBufLen <=? Z.of_nat (length ip) then ([], None)
  else (ip, Some (match rest with None => 0 | Some s => u16 (atoi s) end)).

Definition is_null {A} (p : option A) : bool := match p with None => true | Some _ => false end.

(** ** TCPAcceptor *)

Record TCPAcceptor := mkAcc {
  acc_state : IOCState;
  acc_inEpoll : bool;             (* [_isSocketInEpoll] *)
  acc_timeout : Z;
  acc_maxIdleTimeInMillseconds : Z
}.

Section Acceptor.

Context {P : Type} `{IPacket P}.
Context (spaceUsed : P -> Z) (createPacket : Z -> P).
Context (getConnectTimeout : Z) (getEnableSocketNonBlockConnect : bool) (getMaxConnectionCount : Z).
Context (inet_addr : list Z -> Z) (getaddrinfo : list Z -> Z + Z) (inet_aton : list Z -> bool).

Definition TCPAcceptor_new (timeout maxIdleTimeInMillseconds : Z) : TCPAcceptor :=
  mkAcc ANET_TO_BE_CONNECTING false timeout maxIdleTimeInMillseconds.

(** [init]: whether it succeeded, the acceptor and the commands. *)
Definition acceptor_init (a : TCPAcceptor) : SM (bool * TCPAcceptor * list CommandType) :=
  _ ← setSoBlocking;
  rc ← listen;
  if rc : bool then
    let a := mkAcc ANET_CONNECTED true (acc_timeout a) (acc_maxIdleTimeInMillseconds a) in
    rc ← addEvent true false;
    if rc : bool then mret (true, a, [TC_ADD_IOC]) else mret (false, a, [])
  else mret (false, a, []).

(** [closeSocketNoLock] of the base class. *)
Definition acceptor_closeSocketNoLock (a : TCPAcceptor) : SM TCPAcceptor :=
  if negb (acc_inEpoll a) then mret a
  else
    _ ← removeEvent;
    _ ← close;
    mret (mkAcc (acc_state a) false (acc_timeout a) (acc_maxIdleTimeInMillseconds a)).

Definition acceptor_close (a : TCPAcceptor) : SM (TCPAcceptor * list CommandType) :=
  a ← (if negb (ioc_code (acc_state a) =? ioc_code ANET_CLOSED) then
         a ← acceptor_closeSocketNoLock a;
         mret (mkAcc ANET_CLOSED (acc_inEpoll a) (acc_timeout a) (acc_maxIdleTimeInMillseconds a))
       else mret a);
  mret (a, [TC_REMOVE_IOC]).

(** A component with its socket and every command it has posted. *)
Record tcp_ioc := mkIoc { ti_comp : TCPComponent P; ti_sock : Socket; ti_log : list CommandType }.

(** What epoll reports for a component: an error, what can be read and what
    the socket takes; [ev_now] is the time of the round. *)
Record io_event := mkIoEvent {
  ev_error : bool;
  ev_read : option (list (list Z + Z));
  ev_write : option (list (Z + Z));
  ev_now : Z
}.

(** One turn of the loop of [IoWorker::step]. *)
Definition handle_io (e : io_event) : CM P () :=
  rc ← (if ev_error e then handleErrorEvent spaceUsed createPacket else mret true);
  rc ← (match ev_read e with Some reads => if rc : bool then handleReadEvent spaceUsed createPacket reads else mret rc | None => mret rc end);
  _ ← (match ev_write e with Some writes => if rc : bool then handleWriteEvent spaceUsed createPacket (ev_now e) writes else mret rc | None => mret rc end);
  upd_comp (updateUseTime (ev_now e)).

(** [setQueueTimeout] and the notice to the server's adapter. *)
Definition greet (timeout : Z) (t : TCPConnection P) : option (() * TCPConnection P) :=
  Some ((), with_conn (emit (EvServer (inr ReceiveNewConnectionPacket)) (setQueueTimeout timeout (tconn t))) t).

(** The destructors [~TCPComponent] and [~IOComponent]. *)
Definition destroy : CM P () :=
  conn ← get _connection;
  _ ← (match conn with
       | Some t => if _closed (tconn t) then mret () else conn_op spaceUsed createPacket TClose
       | None => mret ()
       end);
  on_socket close.

(** A component for the accepted socket [sk]. *)
Definition accepted (a : TCPAcceptor) (now bufSize : Z) : CM P bool :=
  ok ← accept_component spaceUsed createPacket getEnableSocketNonBlockConnect (acc_maxIdleTimeInMillseconds a) now bufSize;
  if negb ok then _ ← destroy; mret false
  else _ ← on_connection (greet (acc_timeout a)); mret true.

(** [while ((socket = accept()) != NULL)]: the components it made. *)
Fixpoint accept_loop (fuel : nat) (peers : list AddrSpec) (now bufSize : Z) (a : TCPAcceptor) (sk : Socket) (k : kernel)
  : option (Socket * kernel * list tcp_ioc) :=
  match fuel with
  | 0%nat => None
  | S fuel =>
      let '(h, (sk, k)) := accept getMaxConnectionCount (default AddrSpec_new (head peers)) (sk, k) in
      match h with
      | None => Some (sk, k, [])
      | Some h =>
          '(ok, s) ← accepted a now bufSize (mkC (TCPComponent_new now) h k []);
          if negb ok then Some (sk, kern s, [])
          else
            '(sk, k, new) ← accept_loop fuel (tail peers) now bufSize a sk (kern s);
            Some (sk, k, mkIoc (comp s) (sock s) (posted s) :: new)
      end
  end.

(** Each turn takes an answer of the kernel. *)
Definition acceptor_handleReadEvent (peers : list AddrSpec) (now bufSize : Z) (a : TCPAcceptor) (sk : Socket) (k : kernel)
  : option (Socket * kernel * list tcp_ioc) :=
  accept_loop (S (length (Socket.answers k))) peers now bufSize a sk k.

(** ** [Transport::listen] and [Transport::doConnect] *)

Definition delete_socket : SM () := close.

Definition bindLocalAddress (localAddr : list Z) (sk : Socket) (k : kernel) : option (bool * (Socket * kernel)) :=
  let '(ip, port) := parseLocalAddr localAddr 512 in
  _ ← port;
  Some (Socket.bindLocalAddress (bool_decide (ip = []) || inet_aton ip) (sk, k)).

Definition doConnect (stop : bool) (localAddr remoteSpec : option (list Z)) (streamer autoReconn : bool) (now bufSize : Z) (k : kernel)
  : option (option tcp_ioc * kernel) :=
  if stop then Some (None, k)
  else if is_null remoteSpec || negb streamer then Some (None, k)
  else
    let sk := Socket_new AF_INET in
    '(rc, a) ← setAddrSpec inet_addr getaddrinfo remoteSpec (addr sk);
    let sk := set_addr a sk in
    let delete s := let '(_, (_, k)) := delete_socket s in Some (None, k) in
    if negb (rc =? 0) then delete (sk, k)
    else
      let '(_, (sk, k)) := setReuseAddress (sk, k) in
      let '(_, (sk, k)) := Socket.setPriority (sk, k) in
      '(bound, (sk, k)) ← (match localAddr with
                           | Some l => if negb (getProtocolFamily (addr sk) =? AF_UNIX) then bindLocalAddress l sk k else Some (true, (sk, k))
                           | None => Some (true, (sk, k))
                           end);
      if negb bound then delete (sk, k)
      else if bool_decide (getProtocolType (addr sk) = Some SOCK_STREAM) then
        '(ok, s) ← connect_component spaceUsed createPacket getEnableSocketNonBlockConnect autoReconn now bufSize (mkC (TCPComponent_new now) sk k []);
        if negb ok then '(_, s) ← destroy s; Some (None, kern s)
        else Some (Some (mkIoc (comp s) (sock s) (posted s)), kern s)
      else delete (sk, k).

Definition listen (stop : bool) (spec : option (list Z)) (streamer serverAdapter : bool) (postPacketTimeout maxIdleTime : Z) (k : kernel)
  : option (option (TCPAcceptor * Socket * list CommandType) * kernel) :=
  if stop then Some (None, k)
  else if is_null spec || negb streamer || negb serverAdapter then Some (None, k)
  else
    let sk := Socket_new AF_INET in
    '(_, a) ← setAddrSpec inet_addr getaddrinfo spec (addr sk);
    let sk := set_addr a sk in
    if bool_decide (getProtocolType (addr sk) = Some SOCK_STREAM) then
      let '(ok, acc, cs, (sk, k)) := acceptor_init (TCPAcceptor_new postPacketTimeout maxIdleTime) (sk, k) in
      if ok : bool then Some (Some (acc, sk, cs), k)
      else let '(_, (_, k)) := delete_socket (sk, k) in Some (None, k)
    else let '(_, (_, k)) := delete_socket (sk, k) in Some (None, k).

End Acceptor.

Arguments tcp_ioc : clear implicits.
Arguments mkIoc {P} _ _ _.

(** ** What a component posts *)

Section Posts.

Context {P : Type} `{IPacket P} {HB : IPacketBase P} {HC : ChannelPacket P}.
Context (spaceUsed : P -> Z) (createPacket : Z -> P).
Context (getConnectTimeout : Z) (getEnableSocketNonBlockConnect : bool).

#[local] Set Default Proof Using "Type+HB+HC".

(** [m] posts at most [n] commands, behind those posted before. *)
Definition posts {A} (n : nat) (m : CM P A) : Prop :=
  forall s x s', m s = Some (x, s') -> exists cs, posted s' = posted s ++ cs /\ (length cs <= n)%nat.

Lemma posts_weaken {A} n n' (m : CM P A) : (n <= n')%nat -> posts n m -> posts n' m.
Proof. intros Hn Hm s x s' E. destruct (Hm s x s' E) as (cs & ? & ?). exists cs. split; [done|lia]. Qed.

Lemma posts_bind {A B} n n' (m : CM P A) (f : A -> CM P B) : posts n m -> (forall x, posts n' (f x)) -> posts (n + n') (m ≫= f).
Proof.
  intros Hm Hf s x s' E. unfold mbind, CM_bind in E. apply bind_Some_inv in E as ([y s1] & E1 & E).
  destruct (Hm s y s1 E1) as (cs1 & Ep1 & ?), (Hf y s1 x s' E) as (cs2 & Ep2 & ?). exists (cs1 ++ cs2). rewrite Ep2, Ep1, length_app, app_assoc. split; [done|lia].
Qed.

Lemma posts_silent {A B} n (m : CM P A) (f : A -> CM P B) : posts 0 m -> (forall x, posts n (f x)) -> posts n (m ≫= f).
Proof. apply (posts_bind 0 n). Qed.

Lemma posts_nothing {A} n (m : CM P A) : (forall s x s', m s = Some (x, s') -> posted s' = posted s) -> posts n m.
Proof. intros Hm s x s' E. exists []. rewrite (Hm s x s' E), app_nil_r. split; [done|cbn; lia]. Qed.

Lemma posts_ret {A} n (x : A) : posts n (mret x : CM P A).
Proof. apply posts_nothing. intros s y s' E. by injection E as _ <-. Qed.

Lemma posts_undefined {A} n : posts n (undefined : CM P A).
Proof. by intros s x s' E. Qed.

Lemma posts_get {A} n (f : TCPComponent P -> A) : posts n (get f).
Proof. apply posts_nothing. intros s y s' E. by injection E as _ <-. Qed.

Lemma posts_upd n f : posts n (upd_comp f : CM P ()).
Proof. apply posts_nothing. intros s y s' E. by injection E as _ <-. Qed.

Lemma posts_socket {A} n (m : SM A) : posts n (on_socket m : CM P A).
Proof. apply posts_nothing. intros s y s' E. destruct (on_socket_eq m s) as (x & sk & k & _ & E1). rewrite E1 in E. by injection E as _ <-. Qed.

Lemma posts_post n c : posts (S n) (TcpComponent.postCommand c : CM P ()).
Proof. intros s y s' E. injection E as _ <-. exists [c]. split; [done|cbn; lia]. Qed.

Lemma posts_if {A} n (b : bool) (m1 m2 : CM P A) : posts n m1 -> posts n m2 -> posts n (if b then m1 else m2).
Proof. by destruct b. Qed.

Create HintDb posts.
#[local] Hint Resolve posts_silent posts_ret posts_undefined posts_get posts_upd posts_socket posts_post posts_if : posts.
#[local] Hint Extern 2 (posts _ (match ?o with Some _ => _ | None => _ end)) => destruct o : posts.

Lemma set_event_posts : posts 0 set_event.
Proof. unfold set_event. auto 10 with posts. Qed.
#[local] Hint Resolve set_event_posts : posts.

Lemma run_event_posts e : posts 0 (run_event e).
Proof. destruct e; cbn; unfold enableWrite; auto with posts. Qed.
#[local] Hint Resolve run_event_posts : posts.

Lemma run_events_posts es : posts 0 (run_events es).
Proof. induction es; cbn; auto with posts. Qed.

Lemma on_connection_posts {A} n (f : TCPConnection P -> option (A * TCPConnection P)) : posts n (on_connection f).
Proof.
  apply posts_nothing. intros s x s' E. unfold on_connection in E. apply bind_Some_inv in E as (t & _ & E). apply bind_Some_inv in E as ([y t'] & _ & E).
  apply bind_Some_inv in E as ([z s1] & E & E1). injection E1 as _ <-. destruct (run_events_posts _ _ _ _ E) as ([|? ?] & Ep & Hl); [|cbn in Hl; lia].
  by rewrite app_nil_r in Ep.
Qed.
#[local] Hint Resolve on_connection_posts : posts.

Lemma conn_op_posts n op : posts n (conn_op spaceUsed createPacket op).
Proof. apply on_connection_posts. Qed.
#[local] Hint Resolve conn_op_posts : posts.

Lemma setState_posts n st : posts n (setState spaceUsed createPacket st).
Proof. unfold setState. auto 10 with posts. Qed.
#[local] Hint Resolve setState_posts : posts.

Lemma closeSocketNoLock_posts n : posts n (closeSocketNoLock : CM P ()).
Proof. unfold closeSocketNoLock. auto 10 with posts. Qed.
#[local] Hint Resolve closeSocketNoLock_posts : posts.

Lemma closeAndSetState_posts n : posts (S n) (closeAndSetState spaceUsed createPacket).
Proof. unfold closeAndSetState. auto 10 with posts. Qed.

Lemma socketConnect_posts n : posts n (socketConnect getEnableSocketNonBlockConnect : CM P bool).
Proof. unfold socketConnect. auto 12 with posts. Qed.
#[local] Hint Resolve socketConnect_posts : posts.

Lemma posts_one {A B} (m : CM P A) (f : A -> CM P B) : posts 1 m -> (forall x, posts 0 (f x)) -> posts 1 (m ≫= f).
Proof. apply (posts_bind 1 0). Qed.

Lemma socketReconnect_posts now : posts 1 (socketReconnect getEnableSocketNonBlockConnect now : CM P bool).
Proof.
  unfold socketReconnect. apply posts_silent; [auto with posts|intros _]. apply posts_silent; [auto with posts|intros b].
  destruct b; [|auto with posts]. apply posts_silent; [auto with posts|intros ev]. destruct ev; cbn; [|auto with posts].
  do 3 (apply posts_silent; [auto with posts|intros ?]). apply posts_one; auto with posts.
Qed.
#[local] Hint Resolve socketReconnect_posts closeAndSetState_posts posts_one : posts.

Lemma reconnect_posts now : posts 1 (TcpComponent.reconnect spaceUsed createPacket getEnableSocketNonBlockConnect now).
Proof. unfold TcpComponent.reconnect. auto 12 with posts. Qed.

Lemma closeConnection_posts : posts 1 (closeConnection spaceUsed createPacket).
Proof. unfold closeConnection. auto 12 with posts. Qed.

Lemma handleErrorEvent_posts : posts 1 (handleErrorEvent spaceUsed createPacket).
Proof. unfold handleErrorEvent. auto 12 with posts. Qed.

Lemma handleReadEvent_posts reads : posts 1 (handleReadEvent spaceUsed createPacket reads).
Proof. unfold handleReadEvent. auto 12 with posts. Qed.

Lemma handleWriteEvent_posts now writes : posts 1 (handleWriteEvent spaceUsed createPacket now writes).
Proof.
  unfold handleWriteEvent. apply posts_silent; [auto with posts|intros st]. apply posts_silent; [auto 10 with posts|intros _]. auto 12 with posts.
Qed.

Lemma check_state_posts now ref : posts 1 (check_state spaceUsed createPacket getConnectTimeout getEnableSocketNonBlockConnect now ref).
Proof.
  unfold check_state. do 6 (apply posts_silent; [auto with posts|intros ?]). case_match; auto 12 with posts.
Qed.

Lemma checkTimeout_posts now ref : posts 1 (TcpComponent.checkTimeout spaceUsed createPacket getConnectTimeout getEnableSocketNonBlockConnect now ref).
Proof.
  unfold TcpComponent.checkTimeout. apply posts_silent; [auto with posts|intros conn]. destruct conn; [|auto with posts].
  apply posts_silent; [unfold check_connection; auto 12 with posts|intros _]. apply posts_silent; [unfold shrink_buffers; auto 12 with posts|intros _].
  apply check_state_posts.
Qed.

Lemma comp_run_posts op : posts 1 (comp_run spaceUsed createPacket getConnectTimeout getEnableSocketNonBlockConnect op).
Proof.
  destruct op; cbn [comp_run]; unfold enableRead, enableWrite;
    auto 12 using reconnect_posts, closeConnection_posts, handleWriteEvent_posts, handleReadEvent_posts, handleErrorEvent_posts, checkTimeout_posts with posts.
Qed.

Lemma handle_io_posts e : posts MAX_POSTS (handle_io spaceUsed createPacket e).
Proof.
  unfold handle_io. apply (posts_bind 1 3); [destruct (ev_error e); auto using handleErrorEvent_posts with posts|intros rc].
  apply (posts_bind 1 2); [destruct (ev_read e), rc; auto using handleReadEvent_posts with posts|intros rc'].
  apply (posts_bind 1 1); [destruct (ev_write e), rc'; auto using handleWriteEvent_posts with posts|auto with posts].
Qed.

Lemma createConnection_posts streamer adapter now bufSize : posts 1 (createConnection streamer adapter now bufSize : CM P bool).
Proof. unfold createConnection. auto 20 with posts. Qed.

Lemma init_posts isServer now : posts 0 (init spaceUsed createPacket getEnableSocketNonBlockConnect isServer now).
Proof.
  unfold init. do 3 (apply posts_silent; [auto with posts|intros _]). apply posts_silent; [destruct isServer; cbn; auto 12 with posts|intros ok].
  destruct ok; cbn; auto 12 with posts.
Qed.
#[local] Hint Resolve createConnection_posts init_posts : posts.

Lemma connect_component_posts autoReconn now bufSize : posts 1 (connect_component spaceUsed createPacket getEnableSocketNonBlockConnect autoReconn now bufSize).
Proof. unfold connect_component. auto 12 with posts. Qed.

Lemma accept_component_posts maxIdle now bufSize : posts 1 (accept_component spaceUsed createPacket getEnableSocketNonBlockConnect maxIdle now bufSize).
Proof. unfold accept_component. auto 12 with posts. Qed.

Lemma destroy_posts : posts 0 (destroy spaceUsed createPacket).
Proof. unfold destroy. auto 12 with posts. Qed.

Lemma accepted_posts a now bufSize : posts 1 (accepted spaceUsed createPacket getEnableSocketNonBlockConnect a now bufSize).
Proof. unfold accepted. auto 12 using accept_component_posts, destroy_posts with posts. Qed.

End Posts.

(** ** The instance *)

Section Instance.

Context {P : Type} `{IPacket P}.
Context (spaceUsed : P -> Z) (createPacket : Z -> P).
Context (getConnectTimeout : Z) (getEnableSocketNonBlockConnect : bool) (getMaxConnectionCount : Z).
Context (inet_addr : list Z -> Z) (getaddrinfo : list Z -> Z + Z) (inet_aton : list Z -> bool).

Inductive ioc := Tcp (i : tcp_ioc P) | Acc (a : TCPAcceptor) (sk : Socket).

(** A new component with the commands it has posted. *)
Definition born (i : tcp_ioc P) : ioc * list CommandType := (Tcp i, ti_log i).

(** What users of a transport ask for. *)
Inductive start_op :=
| SConnect (stop : bool) (localAddr remoteSpec : option (list Z)) (streamer autoReconn : bool) (now bufSize : Z)
| SListen (stop : bool) (spec : option (list Z)) (streamer serverAdapter : bool) (postPacketTimeout maxIdleTime : Z).

Inductive user_op := UComp (op : @comp_op P) | UCloseAcceptor.

(** An event, with the peers that wait at an acceptor. *)
Record net_event := mkNetEvent { ne_io : io_event; ne_peers : list AddrSpec; ne_bufSize : Z }.

(** An operation of a component and the commands it posts. *)
Definition run_on {A} (m : CM P A) (i : tcp_ioc P) (k : kernel) : option (A * (ioc * kernel * list CommandType)) :=
  '(x, s) ← m (mkC (ti_comp i) (ti_sock i) k (ti_log i));
  Some (x, (Tcp (mkIoc (comp s) (sock s) (posted s)), kern s, drop (length (ti_log i)) (posted s))).

Definition ioc_create (st : start_op) (k : kernel) : option (option (ioc * list CommandType) * kernel) :=
  match st with
  | SConnect stop localAddr remoteSpec streamer autoReconn now bufSize =>
      '(r, k) ← doConnect spaceUsed createPacket getEnableSocketNonBlockConnect inet_addr getaddrinfo inet_aton stop localAddr remoteSpec streamer autoReconn now bufSize k;
      Some (match r with Some i => Some (born i) | None => None end, k)
  | SListen stop spec streamer serverAdapter postPacketTimeout maxIdleTime =>
      '(r, k) ← listen inet_addr getaddrinfo stop spec streamer serverAdapter postPacketTimeout maxIdleTime k;
      Some (match r with Some (a, sk, cs) => Some (Acc a sk, cs) | None => None end, k)
  end.

Definition ioc_close (o : ioc) (k : kernel) : option (ioc * kernel * list CommandType) :=
  match o with
  | Tcp i => snd <$> run_on (closeConnection spaceUsed createPacket) i k
  | Acc a sk => let '(a, cs, (sk, k)) := acceptor_close a (sk, k) in Some (Acc a sk, k, cs)
  end.

Definition ioc_run (op : user_op) (o : ioc) (k : kernel) : option (ioc * kernel * list CommandType) :=
  match op, o with
  | UComp op, Tcp i => snd <$> run_on (comp_run spaceUsed createPacket getConnectTimeout getEnableSocketNonBlockConnect op) i k
  | UCloseAcceptor, Acc _ _ => ioc_close o k
  | _, _ => None
  end.

Definition ioc_handle (e : net_event) (o : ioc) (k : kernel) : option (ioc * kernel * list CommandType * list (ioc * list CommandType)) :=
  match o with
  | Tcp i => '(_, r) ← run_on (handle_io spaceUsed createPacket (ne_io e)) i k; Some (r, [])
  | Acc a sk =>
      if ev_error (ne_io e) then r ← ioc_close o k; Some (r, [])
      else match ev_read (ne_io e) with
      | None => Some (o, k, [], [])
      | Some _ =>
          '(sk, k, new) ← acceptor_handleReadEvent spaceUsed createPacket getEnableSocketNonBlockConnect getMaxConnectionCount
                            (ne_peers e) (ev_now (ne_io e)) (ne_bufSize e) a sk k;
          Some (Acc a sk, k, [], map born new)
      end
  end.

Definition ioc_checkTimeout (now ref : Z) (o : ioc) (k : kernel) : option (bool * (ioc * kernel * list CommandType)) :=
  match o with
  | Tcp i => run_on (TcpComponent.checkTimeout spaceUsed createPacket getConnectTimeout getEnableSocketNonBlockConnect now ref) i k
  | Acc _ _ => Some (true, (o, k, []))
  end.

Definition ioc_destroy (o : ioc) (k : kernel) : option kernel :=
  match o with
  | Tcp i => '(_, (_, k, _)) ← run_on (destroy spaceUsed createPacket) i k; Some k
  | Acc _ sk => let '(_, (_, k)) := close (sk, k) in Some k
  end.

Definition ioc_inEpoll (o : ioc) : bool := match o with Tcp i => _isSocketInEpoll (ti_comp i) | Acc a _ => acc_inEpoll a end.

#[local] Instance ioc_Component : Component ioc kernel := {
  o_start := start_op;
  o_user := user_op;
  o_event := net_event;
  o_create := ioc_create;
  o_checked st := match st with SConnect _ _ _ _ _ _ _ => true | SListen _ _ _ _ _ _ => false end;
  o_run := ioc_run;
  o_handle := ioc_handle;
  o_close := ioc_close;
  o_checkTimeout := ioc_checkTimeout;
  o_destroy := ioc_destroy;
  o_inEpoll := ioc_inEpoll
}.

End Instance.

(** ** Its laws *)

Section Laws.

Context {P : Type} `{IPacket P} {HB : IPacketBase P} {HC : ChannelPacket P}.
Context (spaceUsed : P -> Z) (createPacket : Z -> P).
Context (getConnectTimeout : Z) (getEnableSocketNonBlockConnect : bool) (getMaxConnectionCount : Z).
Context (inet_addr : list Z -> Z) (getaddrinfo : list Z -> Z + Z) (inet_aton : list Z -> bool).

#[local] Set Default Proof Using "Type+HB+HC".

Implicit Types (i : tcp_ioc P) (s : cstate P).

(** The state of a component between operations, see [TcpComponent]. *)
Definition at_rest s : Prop :=
  exists server st auto start, view server st auto start (ep_of st) (ep_of st) (conn_of server st) s /\ auto_ok server auto.

Definition tcp_ok i : Prop := exists k, at_rest (mkC (ti_comp i) (ti_sock i) k (ti_log i)).

Definition acc_ok (a : TCPAcceptor) : Prop := acc_inEpoll a = negb (ioc_code (acc_state a) =? ioc_code ANET_CLOSED).

Definition ioc_ok (o : @ioc P) : Prop := match o with Tcp i => tcp_ok i | Acc a _ => acc_ok a end.

Definition ioc_may (op : @user_op P) (o : @ioc P) : Prop :=
  match op, o with
  | UComp op, Tcp i => forall k, comp_may (mkC (ti_comp i) (ti_sock i) k (ti_log i)) op
  | _, _ => True
  end.

Lemma view_kern server st auto start ep l Q c sk k k' p :
  view server st auto start ep l Q (mkC c sk k p : cstate P) -> view server st auto start ep l Q (mkC c sk k' p).
Proof. by intros []. Qed.

Lemma at_rest_kern c sk k k' p : at_rest (mkC c sk k p) -> at_rest (mkC c sk k' p).
Proof. intros (server & st & auto & start & Hv & Ha). exists server, st, auto, start. split; [by eapply view_kern|done]. Qed.

Lemma listed_after p cs : listed (p ++ cs) = after_commands (listed p) cs.
Proof. unfold listed, after_commands. by rewrite foldl_app. Qed.

Lemma at_rest_listed s : at_rest s -> listed (posted s) = _isSocketInEpoll (comp s).
Proof. intros (server & st & auto & start & [] & _). congruence. Qed.

Lemma comp_step_rest op s s' :
  at_rest s -> comp_may s op -> comp_run spaceUsed createPacket getConnectTimeout getEnableSocketNonBlockConnect op s = Some ((), s') -> at_rest s'.
Proof.
  intros (server & st & auto & start & Hv & Ha) Hm E. destruct (comp_step_at _ _ _ _ op _ _ _ _ _ _ Hv Ha Hm E) as (st' & auto' & start' & Hv' & _ & Ha').
  by exists server, st', auto', start'.
Qed.

(** An operation that posts few commands and leaves the component at rest. *)
Lemma run_on_ok {A} (m : CM P A) n i k x o k' cs :
  tcp_ok i -> posts n m -> (n <= MAX_POSTS)%nat ->
  (forall s s', at_rest s -> comp s = ti_comp i -> sock s = ti_sock i -> posted s = ti_log i -> m s = Some (x, s') -> at_rest s') ->
  run_on m i k = Some (x, (o, k', cs)) ->
  ioc_ok o /\ after_commands (ioc_inEpoll (Tcp i)) cs = ioc_inEpoll o /\
  (length cs <= MAX_POSTS)%nat.
Proof.
  intros [k0 Hr] Hp Hn Hm E. apply (at_rest_kern _ _ _ k) in Hr. unfold run_on in E. apply bind_Some_inv in E as ([y s'] & E & E1). injection E1 as -> <- <- <-.
  destruct (Hp _ _ _ E) as (ds & Ep & Hl). cbn [posted] in Ep. rewrite Ep, drop_app_length.
  pose proof (Hm _ _ Hr eq_refl eq_refl eq_refl E) as Hr'. split_and!; [|rewrite <- Ep|lia].
  - exists (kern s'). cbn [ti_comp ti_sock ti_log]. rewrite <- Ep. by destruct s'.
  - cbn. rewrite <- (at_rest_listed s' Hr'), Ep, listed_after. f_equal. symmetry. apply (at_rest_listed _ Hr).
Qed.

Lemma handle_io_rest e s s' : at_rest s -> handle_io spaceUsed createPacket e s = Some ((), s') -> at_rest s'.
Proof using HB HC getConnectTimeout getEnableSocketNonBlockConnect.
  intros Hr E. unfold handle_io, mbind, CM_bind in E. apply bind_Some_inv in E as ([rc s1] & E1 & E). apply bind_Some_inv in E as ([rc2 s2] & E2 & E).
  apply bind_Some_inv in E as ([rc3 s3] & E3 & E).
  assert (Hr1 : at_rest s1).
  { destruct (ev_error e); [|by injection E1 as _ <-]. apply (comp_step_rest CError s s1 Hr); [done|]. cbn [comp_run]. unfold mbind, CM_bind. by rewrite E1. }
  assert (Hr2 : at_rest s2).
  { destruct (ev_read e) as [reads|]; [|by injection E2 as _ <-]. destruct rc; [|by injection E2 as _ <-].
    apply (comp_step_rest (CRead reads) s1 s2 Hr1); [done|]. cbn [comp_run]. unfold mbind, CM_bind. by rewrite E2. }
  assert (Hr3 : at_rest s3).
  { destruct (ev_write e) as [writes|]; [|by injection E3 as _ <-]. destruct rc2; [|by injection E3 as _ <-].
    apply (comp_step_rest (CWrite (ev_now e) writes) s2 s3 Hr2); [done|]. cbn [comp_run]. unfold mbind, CM_bind. by rewrite E3. }
  by apply (comp_step_rest (CUseTime (ev_now e)) s3 s' Hr3).
Qed.

Lemma greet_ok timeout t t' x : conn_ok true t -> greet timeout t = Some (x, t') -> conn_ok true t'.
Proof.
  intros ([[Hc1 Hc2] (F & V & D & Q & Hi)] & Hh & Hs) E. unfold greet in E. injection E as <- <-. split; [|done]. split; [done|].
  exists F, V, D, Q. cbn [tconn with_conn]. eapply same_view_inv; [by apply emit_view|].
  destruct Hi as [[] [] Hl Hlim]. split; [split|split| |]; done.
Qed.

Lemma accepted_rest a now bufSize sk k s :
  accepted spaceUsed createPacket getEnableSocketNonBlockConnect a now bufSize (mkC (TCPComponent_new now) sk k []) = Some (true, s) -> at_rest s.
Proof.
  intros E. unfold accepted, mbind, CM_bind in E. apply bind_Some_inv in E as ([ok s1] & E1 & E). destruct ok; cbn [negb] in E.
  - pose proof (accept_component_at _ _ _ _ _ _ _ _ _ _ E1) as Hv. apply bind_Some_inv in E as ([y s2] & E2 & E). injection E as <-.
    exists true, ANET_CONNECTED, 0, now. split; [|done]. eapply on_connection_partial; [exact Hv|exact E2|]. intros t t' Ht Et. exact (greet_ok _ _ _ _ Ht Et).
  - apply bind_Some_inv in E as ([y s2] & _ & E). by injection E.
Qed.

Lemma accept_loop_born fuel peers now bufSize a sk k sk' k' new :
  accept_loop spaceUsed createPacket getEnableSocketNonBlockConnect getMaxConnectionCount fuel peers now bufSize a sk k = Some (sk', k', new) ->
  Forall (fun i => tcp_ok i /\ listed (ti_log i) = _isSocketInEpoll (ti_comp i) /\ (length (ti_log i) <= MAX_POSTS)%nat) new.
Proof.
  revert peers sk k sk' k' new. induction fuel as [|fuel IH]; intros peers sk k sk' k' new E; [done|]. cbn [accept_loop] in E.
  destruct (accept _ _ _) as [[h|] [sk1 k1]]; [|injection E as _ _ <-; constructor].
  apply bind_Some_inv in E as ([ok s] & E1 & E). destruct ok; cbn [negb] in E; [|injection E as _ _ <-; constructor].
  apply bind_Some_inv in E as ([[sk2 k2] new2] & E2 & E). injection E as _ _ <-. constructor; [|by eapply IH].
  pose proof (accepted_rest _ _ _ _ _ _ E1) as Hr. split_and!; cbn [ti_log ti_comp].
  - exists (kern s). cbn. by destruct s.
  - by apply at_rest_listed.
  - destruct (accepted_posts _ _ _ _ _ _ _ _ _ E1) as (cs & -> & Hl). cbn. unfold MAX_POSTS. lia.
Qed.

Lemma doConnect_born stop localAddr remoteSpec streamer autoReconn now bufSize k i k' :
  doConnect spaceUsed createPacket getEnableSocketNonBlockConnect inet_addr getaddrinfo inet_aton stop localAddr remoteSpec streamer autoReconn now bufSize k = Some (Some i, k') ->
  tcp_ok i /\ listed (ti_log i) = _isSocketInEpoll (ti_comp i) /\ (length (ti_log i) <= MAX_POSTS)%nat.
Proof.
  unfold doConnect. destruct stop; [done|]. destruct (_ || _); [done|]. intros E. apply bind_Some_inv in E as ([rc a] & _ & E).
  destruct (negb _); [by destruct (delete_socket _) as [? [? ?]]|]. destruct (setReuseAddress _) as [? [sk1 k1]], (Socket.setPriority _) as [? [sk2 k2]].
  apply bind_Some_inv in E as ([bound [sk3 k3]] & _ & E). destruct (negb _); [by destruct (delete_socket _) as [? [? ?]]|].
  case_bool_decide; [|by destruct (delete_socket _) as [? [? ?]]]. apply bind_Some_inv in E as ([ok s] & E1 & E). destruct ok; cbn [negb] in E.
  - injection E as <- <-. pose proof (connect_component_at _ _ _ _ _ _ _ _ _ _ E1) as Hv. assert (Hr : at_rest s).
    { eexists _, _, _, _. split; [exact Hv|]. unfold auto_ok, MAX_RECONNECTING_TIMES. by destruct autoReconn. }
    split_and!; cbn [ti_log ti_comp].
    + exists (kern s). cbn. by destruct s.
    + by apply at_rest_listed.
    + destruct (connect_component_posts _ _ _ _ _ _ _ _ _ E1) as (cs & -> & Hl). cbn. unfold MAX_POSTS. lia.
  - by apply bind_Some_inv in E as ([y s2] & _ & E).
Qed.

Lemma listen_born stop spec streamer serverAdapter postPacketTimeout maxIdleTime k a sk cs k' :
  listen inet_addr getaddrinfo stop spec streamer serverAdapter postPacketTimeout maxIdleTime k = Some (Some (a, sk, cs), k') ->
  acc_ok a /\ acc_inEpoll a = true /\ cs = [TC_ADD_IOC].
Proof.
  unfold listen. destruct stop; [done|]. destruct (_ || _); [done|]. intros E. apply bind_Some_inv in E as ([rc ad] & _ & E).
  case_bool_decide; [|by destruct (delete_socket _) as [? [? ?]]]. unfold acceptor_init, mbind, SM_bind in E.
  destruct (setSoBlocking _) as [? [sk1 k1]], (Socket.listen _) as [[] [sk2 k2]]; cbn in E; [|by destruct (delete_socket _) as [? [? ?]]].
  destruct (addEvent _ _ _) as [[] [sk3 k3]]; cbn in E; [|by destruct (delete_socket _) as [? [? ?]]]. by injection E as <- <- <- <-.
Qed.

Lemma acceptor_close_ok a sk k a' cs sk' k' :
  acceptor_close a (sk, k) = (a', cs, (sk', k')) -> acc_ok a -> acc_ok a' /\ acc_inEpoll a' = false /\ cs = [TC_REMOVE_IOC].
Proof.
  unfold acceptor_close, acc_ok, mbind, SM_bind. intros E Ha. destruct (ioc_code (acc_state a) =? ioc_code ANET_CLOSED) eqn:Es; cbn [negb] in E, Ha.
  - injection E as <- <- _ _. by rewrite Ha, Es.
  - unfold acceptor_closeSocketNoLock in E. rewrite Ha in E. cbn [negb] in E. unfold mbind, SM_bind in E.
    destruct (removeEvent _) as [? s1], (close _) as [? s2]. by injection E as <- <- _.
Qed.

Lemma destroy_total server st auto start s :
  view server st auto start (ep_of st) (ep_of st) (conn_of server st) s -> exists s', destroy spaceUsed createPacket s = Some ((), s').
Proof.
  intros Hv. unfold destroy, mbind, CM_bind, get. cbn [mbind option_bind]. destruct (vw_conn _ _ _ _ _ _ _ _ Hv) as (t & Et & _). rewrite Et.
  assert (Hd : exists s1, (if _closed (tconn t) then mret () else conn_op spaceUsed createPacket TClose) s = Some ((), s1)).
  { destruct (_closed (tconn t)); [by exists s|].
    destruct (conn_op_total spaceUsed createPacket TClose _ _ _ _ _ _ _ (fun _ => True) _ Hv) as (s1 & E & _); [|by exists s1].
    intros u Hu. destruct (conn_of_ok _ _ _ Hu) as (Hi & _). destruct (close_quiet spaceUsed createPacket u Hi) as (u' & Eu & _). by exists u'. }
  destruct Hd as (s1 & ->). cbn [mbind option_bind]. destruct (on_socket_eq close s1) as ([] & sk & k & _ & ->). by eexists.
Qed.

End Laws.

Section Discharge.

Context {P : Type} `{IPacket P} {HB : IPacketBase P} {HC : ChannelPacket P}.
Context (spaceUsed : P -> Z) (createPacket : Z -> P).
Context (getConnectTimeout : Z) (getEnableSocketNonBlockConnect : bool) (getMaxConnectionCount : Z).
Context (inet_addr : list Z -> Z) (getaddrinfo : list Z -> Z + Z) (inet_aton : list Z -> bool).

Abbreviation TCP := (ioc_Component spaceUsed createPacket getConnectTimeout getEnableSocketNonBlockConnect getMaxConnectionCount inet_addr getaddrinfo inet_aton).

Lemma close_law (o : @ioc P) k :
  ioc_ok o -> exists o' k' cs, ioc_close spaceUsed createPacket o k = Some (o', k', cs) /\
    ioc_ok o' /\ after_commands (ioc_inEpoll o) cs = ioc_inEpoll o' /\ (length cs <= MAX_POSTS)%nat.
Proof using HB HC.
  intros Ho. destruct o as [i|a sk]; cbn [ioc_close].
  - pose proof Ho as [k0 (server & st & auto & start & Hv & Ha)]. apply (view_kern _ _ _ _ _ _ _ _ _ _ k) in Hv.
    destruct (closeConnection_at spaceUsed createPacket _ _ _ _ _ Hv) as (s' & E & _).
    assert (E' : run_on (closeConnection spaceUsed createPacket) i k = Some ((), (Tcp (mkIoc (comp s') (sock s') (posted s')), kern s', drop (length (ti_log i)) (posted s')))).
    { unfold run_on. by rewrite E. }
    eexists _, _, _. split; [by rewrite E'|]. eapply run_on_ok; [exact Ho|apply closeConnection_posts|unfold MAX_POSTS; lia| |exact E'].
    intros s1 s2 Hr _ _ _ E2. by apply (comp_step_rest spaceUsed createPacket 0 false CClose s1 s2 Hr).
  - destruct (acceptor_close a (sk, k)) as [[a' cs] [sk' k']] eqn:E. destruct (acceptor_close_ok _ _ _ _ _ _ _ E Ho) as (Ha & Hep & ->).
    eexists _, _, _. split; [done|]. split; [done|]. cbn. rewrite Hep. split; [done|unfold MAX_POSTS; lia].
Qed.

#[local] Instance ioc_Laws : @ComponentLaws (@ioc P) kernel TCP.
Proof using HB HC.
  refine (@Build_ComponentLaws _ _ TCP ioc_ok ioc_may _ _ _ _ _ _).
  - intros st k o cs k' E. destruct st; cbn [o_create ioc_Component ioc_create] in E.
    + apply bind_Some_inv in E as ([[i|] k1] & E & [= <- <- <-]). destruct (doConnect_born _ _ _ _ _ _ _ _ _ _ _ _ _ _ _ _ E) as (? & ? & ?). by split.
    + apply bind_Some_inv in E as ([[[[a sk] cs1]|] k1] & E & [= <- <- <-]). destruct (listen_born _ _ _ _ _ _ _ _ _ _ _ _ _ E) as (? & Hep & ->).
      split; [done|]. cbn. rewrite Hep. split; [done|unfold MAX_POSTS; lia].
  - intros op o k o' k' cs Ho Hm E. cbn [o_run ioc_Component] in E. destruct op as [op|], o as [i|a sk]; try done; cbn [ioc_run] in E.
    + destruct (run_on _ i k) as [[x [[o1 k1] cs1]]|] eqn:E1; [|done]. injection E as <- <- <-. destruct x.
      eapply run_on_ok; [exact Ho|apply comp_run_posts|unfold MAX_POSTS; lia| |exact E1]. intros s s' Hr Ec Es Ep E2.
      eapply comp_step_rest; [exact Hr| |exact E2]. specialize (Hm (kern s)). destruct s. cbn in *. by subst.
    + destruct (close_law (Acc a sk) k Ho) as (o1 & k1 & cs1 & E1 & Hp). rewrite E1 in E. by injection E as <- <- <-.
  - intros ev o k o' k' cs new Ho E. cbn [o_handle ioc_Component] in E. destruct o as [i|a sk]; cbn [ioc_handle] in E.
    + apply bind_Some_inv in E as ([x [[o1 k1] cs1]] & E1 & E). injection E as <- <- <- <-. split; [|constructor]. destruct x.
      eapply run_on_ok; [exact Ho|apply handle_io_posts|done| |exact E1]. intros s s' Hr _ _ _ E2. by eapply (handle_io_rest spaceUsed createPacket 0 false).
    + destruct (ev_error _).
      * destruct (close_law (Acc a sk) k Ho) as (o1 & k1 & cs1 & E1 & Hp). rewrite E1 in E. injection E as <- <- <- <-. by split; [|constructor].
      * destruct (ev_read _); [|injection E as <- <- <- <-; split; [|constructor]; split; [done|split; [done|cbn; unfold MAX_POSTS; lia]]].
        apply bind_Some_inv in E as ([[sk1 k1] new1] & E1 & E). injection E as <- <- <- <-. split; [split; [done|split; [done|cbn; unfold MAX_POSTS; lia]]|].
        apply accept_loop_born in E1. apply Forall_fmap. eapply Forall_impl; [exact E1|]. intros i (? & ? & ?). by split.
  - intros o k Ho. exact (close_law o k Ho).
  - intros now ref o k b o' k' cs Ho E. cbn [o_checkTimeout ioc_Component] in E. destruct o as [i|a sk]; cbn [ioc_checkTimeout] in E.
    + eapply run_on_ok; [exact Ho|apply checkTimeout_posts|unfold MAX_POSTS; lia| |exact E]. intros s s' Hr _ _ _ E2.
      eapply (comp_step_rest spaceUsed createPacket _ _ (CTimeout now ref)); [exact Hr|done|]. cbn [comp_run]. unfold mbind, CM_bind. by rewrite E2.
    + injection E as <- <- <- <-. split; [done|split; [done|cbn; unfold MAX_POSTS; lia]].
  - intros o k Ho. cbn [o_destroy ioc_Component]. destruct o as [i|a sk]; cbn [ioc_destroy].
    + destruct Ho as [k0 (server & st & auto & start & Hv & Ha)]. apply (view_kern _ _ _ _ _ _ _ _ _ _ k) in Hv.
      destruct (destroy_total spaceUsed createPacket _ _ _ _ _ Hv) as (s' & E). unfold run_on. by rewrite E.
    + by destruct (close (sk, k)) as [? [? ?]].
Defined.

End Discharge.

(** ** Witnesses

    A user connects, the worker takes the component on its list, the timer
    sees it, and the user gives its reference back. *)

Abbreviation dp_ioc := (@ioc_Component DefaultPacket DP dp_space (fun _ => DefaultPacket_new) 5000000 true 0 (fun _ => 16777343) (fun _ => inl 1) (fun _ => true)).
Abbreviation dp_laws := (@ioc_Laws DefaultPacket DP (DefaultPacket_Base alloc_64M) (DefaultPacket_channel alloc_64M) dp_space (fun _ => DefaultPacket_new) 5000000 true 0 (fun _ => 16777343) (fun _ => inl 1) (fun _ => true)).
Abbreviation dp_transport := (@Transport.Transport (@ioc DefaultPacket) kernel dp_ioc).
Abbreviation dp_t_run := (@t_run (@ioc DefaultPacket) kernel dp_ioc).
Abbreviation dp_t_reachable := (@t_reachable (@ioc DefaultPacket) kernel dp_ioc dp_laws).

Definition connect_start : start_op := SConnect false None (Some (lit "tcp:127.0.0.1:8080")) true true 1000000 8192.
Definition connect_op : @top (@ioc DefaultPacket) kernel dp_ioc := @TCreate (@ioc DefaultPacket) kernel dp_ioc connect_start.

(** [socket], the options, [connect] under way, [getsockname], [epoll_ctl]. *)
Definition connect_answers : list (Z * Z) :=
  [(7, 0); (0, 0); (0, 0); (0, 0); (0, 0); (0, 0); (0, 0); (0, 0); (0, 0); (0, 0); (0, 0); (0, 0); (-1, EINPROGRESS); (40000, 0); (0, 0)].

Definition zero_t : dp_transport := Transport_new (mkKernel connect_answers 0 [] 0).
Definition after (op : @top (@ioc DefaultPacket) kernel dp_ioc) (st : list positive * dp_transport) : list positive * dp_transport :=
  match dp_t_run op st.1 st.2 with Ok st => st | _ => st end.
Definition connected_t := after connect_op ([], zero_t).
Definition listed_t := after TCommands (after TRound connected_t).
Definition released_t := after (TSubRef 1) listed_t.

Abbreviation dp_step := (@t_step (@ioc DefaultPacket) kernel dp_ioc dp_laws).
Abbreviation dp_may := (@t_may (@ioc DefaultPacket) kernel dp_ioc dp_laws).

Definition is_ok {A} (r : res A) : bool := match r with Ok _ => true | _ => false end.

Lemma ran st op :
  dp_t_reachable st.1 st.2 -> dp_may op st.1 st.2 -> is_ok (dp_t_run op st.1 st.2) = true -> dp_t_reachable (after op st).1 (after op st).2.
Proof.
  intros Hr Hm E. unfold after. destruct (dp_t_run op st.1 st.2) as [[u' t']| |] eqn:Er; try done. exact (dp_step st.1 st.2 op u' t' Hr Hm Er).
Qed.

Lemma connected_reachable : dp_t_reachable connected_t.1 connected_t.2.
Proof.
  refine (ran ([], zero_t) connect_op _ _ _); [exact (@t_init (@ioc DefaultPacket) kernel dp_ioc dp_laws (mkKernel connect_answers 0 [] 0))|..].
  - split; [vm_compute; discriminate|exact I].
  - vm_compute. reflexivity.
Qed.

Lemma listed_reachable : dp_t_reachable listed_t.1 listed_t.2.
Proof.
  refine (ran (after TRound connected_t) TCommands _ _ _); [refine (ran connected_t TRound connected_reachable _ _)|..].
  - split; [vm_compute; discriminate|exact I].
  - vm_compute. reflexivity.
  - split; [vm_compute; discriminate|vm_compute; reflexivity].
  - vm_compute. reflexivity.
Qed.

Lemma released_reachable : dp_t_reachable released_t.1 released_t.2.
Proof.
  refine (ran listed_t (TSubRef 1) listed_reachable _ _); [split; [vm_compute; discriminate|]|vm_compute; reflexivity].
  apply (bool_decide_unpack _). vm_compute. exact I.
Qed.

Lemma transport_memory_safe_witness :
  is_Some (heap listed_t.2 !! 1%positive) /\ dp_t_run (TTick 2000000) listed_t.1 listed_t.2 <> Dangling 1%positive.
Proof.
  destruct (@transport_memory_safe (@ioc DefaultPacket) kernel dp_ioc dp_laws listed_t.1 listed_t.2 listed_reachable) as (_ & Ha & Hd). split.
  - apply Ha. apply (bool_decide_unpack _). vm_compute. exact I.
  - apply Hd. split; [vm_compute; discriminate|exact I].
Defined.


Lemma transport_close_leaks_nothing_witness :
  size (heap released_t.2) = 1%nat /\ exists t' : dp_transport, closeComponents released_t.2 = Ok ((), t') /\ heap t' = ∅.
Proof.
  split; [vm_compute; reflexivity|].
  destruct (@transport_close_leaks_nothing (@ioc DefaultPacket) kernel dp_ioc dp_laws released_t.1 released_t.2 released_reachable) as (t' & E & _ & _ & _ & _ & _ & _ & He);
    [vm_compute; discriminate|]. exists t'. split; [exact E|]. apply He. vm_compute. reflexivity.
Defined.

(** ** The choice of a worker *)

(** Whatever number of threads is asked for, the worker of a component with a
    descriptor, or without one yet, is in the array [initialize] allocates. *)
Lemma getChunkId_range ioThreadNum mode type priority fd :
  -1 <= fd ->
  let '(n, l) := Transport_threads ioThreadNum mode in 0 <= getChunkId mode n (Some (type, priority, fd)) < n + l.
Proof.
  intros Hfd. unfold Transport_threads. set (n := if _ <? 1 then _ else _). assert (Hn : 1 <= n).
  { unfold n, MAX_IO_THREAD_NUM. destruct (Z.ltb_spec ioThreadNum 1); [lia|]. destruct (Z.ltb_spec 32 ioThreadNum); lia. }
  assert (Hs : 0 <= SimpleHashStrategy fd n < n).
  { unfold SimpleHashStrategy. destruct (Z.eqb_spec fd (-1)); [lia|]. apply Z.rem_bound_pos; lia. }
  destruct mode; cbn; [lia|]. unfold PrioritySeparateStrategy. destruct (_ || _); lia.
Qed.
