(* ===== verification/Md5.v ===== *)
(** * MD5

    Source: src/agent_engine/util/legacy/md5.cpp and md5.h.

    The compression function is unrolled in the source, which keeps the loop it
    stands for in a disabled block; both are here.  Arrays are lists of bytes,
    copies outside them and the loop counters, which are 32 bits wide, are
    written out; [little] tells the byte order of the host.  [md5] is the
    function of RFC 1321 on whole messages. *)

From S2P Require Import Prelude CString.

(** ** Words *)

Definition le_bytes (k : nat) (n : Z) : list Z := reverse (be_bytes k n).
Definition le_value (l : list Z) : Z := be_value (reverse l).

(** The macros. *)
Definition SHIFT_LEFT (a b : Z) : Z := Z.lor (u32 (Z.shiftl a b)) (Z.shiftr a (32 - b)).
Definition F (b c d : Z) : Z := Z.lor (Z.land b c) (Z.land (u32 (Z.lnot b)) d).
Definition G (b c d : Z) : Z := Z.lor (Z.land d b) (Z.land (u32 (Z.lnot d)) c).
Definition H (b c d : Z) : Z := Z.lxor (Z.lxor b c) d.
Definition I (b c d : Z) : Z := Z.lxor c (Z.lor b (u32 (Z.lnot d))).

(** The new value of [a]. *)
Definition FF (a b c d word shift k : Z) : Z :=
  let a := u32 (a + u32 (F b c d + word + k)) in
  let a := SHIFT_LEFT a shift in
  u32 (a + b).
Definition GG (a b c d word shift k : Z) : Z :=
  let a := u32 (a + u32 (G b c d + word + k)) in
  let a := SHIFT_LEFT a shift in
  u32 (a + b).
Definition HH (a b c d word shift k : Z) : Z :=
  let a := u32 (a + u32 (H b c d + word + k)) in
  let a := SHIFT_LEFT a shift in
  u32 (a + b).
Definition II (a b c d word shift k : Z) : Z :=
  let a := u32 (a + u32 (I b c d + word + k)) in
  let a := SHIFT_LEFT a shift in
  u32 (a + b).

(** A block has sixteen words. *)
Definition Md5Block : Type := list Z.
Definition word (block : Md5Block) (i : nat) : Z := nth i block 0.

Abbreviation hash_state := (Z * Z * Z * Z)%type.

(** The rounds, in halves. *)
Definition Round1a (block : Md5Block) (v : hash_state) : hash_state :=
  let '(a, b, c, d) := v in
  let a := FF a b c d (word block 0) 7 0xd76aa478 in
  let d := FF d a b c (word block 1) 12 0xe8c7b756 in
  let c := FF c d a b (word block 2) 17 0x242070db in
  let b := FF b c d a (word block 3) 22 0xc1bdceee in
  let a := FF a b c d (word block 4) 7 0xf57c0faf in
  let d := FF d a b c (word block 5) 12 0x4787c62a in
  let c := FF c d a b (word block 6) 17 0xa8304613 in
  let b := FF b c d a (word block 7) 22 0xfd469501 in
  (a, b, c, d).

Definition Round1b (block : Md5Block) (v : hash_state) : hash_state :=
  let '(a, b, c, d) := v in
  let a := FF a b c d (word block 8) 7 0x698098d8 in
  let d := FF d a b c (word block 9) 12 0x8b44f7af in
  let c := FF c d a b (word block 10) 17 0xffff5bb1 in
  let b := FF b c d a (word block 11) 22 0x895cd7be in
  let a := FF a b c d (word block 12) 7 0x6b901122 in
  let d := FF d a b c (word block 13) 12 0xfd987193 in
  let c := FF c d a b (word block 14) 17 0xa679438e in
  let b := FF b c d a (word block 15) 22 0x49b40821 in
  (a, b, c, d).

Definition Round2a (block : Md5Block) (v : hash_state) : hash_state :=
  let '(a, b, c, d) := v in
  let a := GG a b c d (word block 1) 5 0xf61e2562 in
  let d := GG d a b c (word block 6) 9 0xc040b340 in
  let c := GG c d a b (word block 11) 14 0x265e5a51 in
  let b := GG b c d a (word block 0) 20 0xe9b6c7aa in
  let a := GG a b c d (word block 5) 5 0xd62f105d in
  let d := GG d a b c (word block 10) 9 0x2441453 in
  let c := GG c d a b (word block 15) 14 0xd8a1e681 in
  let b := GG b c d a (word block 4) 20 0xe7d3fbc8 in
  (a, b, c, d).

Definition Round2b (block : Md5Block) (v : hash_state) : hash_state :=
  let '(a, b, c, d) := v in
  let a := GG a b c d (word block 9) 5 0x21e1cde6 in
  let d := GG d a b c (word block 14) 9 0xc33707d6 in
  let c := GG c d a b (word block 3) 14 0xf4d50d87 in
  let b := GG b c d a (word block 8) 20 0x455a14ed in
  let a := GG a b c d (word block 13) 5 0xa9e3e905 in
  let d := GG d a b c (word block 2) 9 0xfcefa3f8 in
  let c := GG c d a b (word block 7) 14 0x676f02d9 in
  let b := GG b c d a (word block 12) 20 0x8d2a4c8a in
  (a, b, c, d).

Definition Round3a (block : Md5Block) (v : hash_state) : hash_state :=
  let '(a, b, c, d) := v in
  let a := HH a b c d (word block 5) 4 0xfffa3942 in
  let d := HH d a b c (word block 8) 11 0x8771f681 in
  let c := HH c d a b (word block 11) 16 0x6d9d6122 in
  let b := HH b c d a (word block 14) 23 0xfde5380c in
  let a := HH a b c d (word block 1) 4 0xa4beea44 in
  let d := HH d a b c (word block 4) 11 0x4bdecfa9 in
  let c := HH c d a b (word block 7) 16 0xf6bb4b60 in
  let b := HH b c d a (word block 10) 23 0xbebfbc70 in
  (a, b, c, d).

Definition Round3b (block : Md5Block) (v : hash_state) : hash_state :=
  let '(a, b, c, d) := v in
  let a := HH a b c d (word block 13) 4 0x289b7ec6 in
  let d := HH d a b c (word block 0) 11 0xeaa127fa in
  let c := HH c d a b (word block 3) 16 0xd4ef3085 in
  let b := HH b c d a (word block 6) 23 0x4881d05 in
  let a := HH a b c d (word block 9) 4 0xd9d4d039 in
  let d := HH d a b c (word block 12) 11 0xe6db99e5 in
  let c := HH c d a b (word block 15) 16 0x1fa27cf8 in
  let b := HH b c d a (word block 2) 23 0xc4ac5665 in
  (a, b, c, d).

Definition Round4a (block : Md5Block) (v : hash_state) : hash_state :=
  let '(a, b, c, d) := v in
  let a := II a b c d (word block 0) 6 0xf4292244 in
  let d := II d a b c (word block 7) 10 0x432aff97 in
  let c := II c d a b (word block 14) 15 0xab9423a7 in
  let b := II b c d a (word block 5) 21 0xfc93a039 in
  let a := II a b c d (word block 12) 6 0x655b59c3 in
  let d := II d a b c (word block 3) 10 0x8f0ccc92 in
  let c := II c d a b (word block 10) 15 0xffeff47d in
  let b := II b c d a (word block 1) 21 0x85845dd1 in
  (a, b, c, d).

Definition Round4b (block : Md5Block) (v : hash_state) : hash_state :=
  let '(a, b, c, d) := v in
  let a := II a b c d (word block 8) 6 0x6fa87e4f in
  let d := II d a b c (word block 15) 10 0xfe2ce6e0 in
  let c := II c d a b (word block 6) 15 0xa3014314 in
  let b := II b c d a (word block 13) 21 0x4e0811a1 in
  let a := II a b c d (word block 4) 6 0xf7537e82 in
  let d := II d a b c (word block 11) 10 0xbd3af235 in
  let c := II c d a b (word block 2) 15 0x2ad7d2bb in
  let b := II b c d a (word block 9) 21 0xeb86d391 in
  (a, b, c, d).

Definition Round1 (block : Md5Block) (v : hash_state) : hash_state := Round1b block (Round1a block v).
Definition Round2 (block : Md5Block) (v : hash_state) : hash_state := Round2b block (Round2a block v).
Definition Round3 (block : Md5Block) (v : hash_state) : hash_state := Round3b block (Round3a block v).
Definition Round4 (block : Md5Block) (v : hash_state) : hash_state := Round4b block (Round4a block v).

Definition CalMd5 (block : Md5Block) (h : hash_state) : hash_state :=
  let '(h0, h1, h2, h3) := h in
  let '(a, b, c, d) := Round4 block (Round3 block (Round2 block (Round1 block (h0, h1, h2, h3)))) in
  (u32 (h0 + a), u32 (h1 + b), u32 (h2 + c), u32 (h3 + d)).

(** ** The loop the rounds stand for *)

Definition table_r : list Z :=
  [7; 12; 17; 22; 7; 12; 17; 22; 7; 12; 17; 22; 7; 12; 17; 22;
   5; 9; 14; 20; 5; 9; 14; 20; 5; 9; 14; 20; 5; 9; 14; 20;
   4; 11; 16; 23; 4; 11; 16; 23; 4; 11; 16; 23; 4; 11; 16; 23;
   6; 10; 15; 21; 6; 10; 15; 21; 6; 10; 15; 21; 6; 10; 15; 21].

Definition table_k : list Z :=
  [0xd76aa478; 0xe8c7b756; 0x242070db; 0xc1bdceee; 0xf57c0faf; 0x4787c62a; 0xa8304613; 0xfd469501;
   0x698098d8; 0x8b44f7af; 0xffff5bb1; 0x895cd7be; 0x6b901122; 0xfd987193; 0xa679438e; 0x49b40821;
   0xf61e2562; 0xc040b340; 0x265e5a51; 0xe9b6c7aa; 0xd62f105d; 0x02441453; 0xd8a1e681; 0xe7d3fbc8;
   0x21e1cde6; 0xc33707d6; 0xf4d50d87; 0x455a14ed; 0xa9e3e905; 0xfcefa3f8; 0x676f02d9; 0x8d2a4c8a;
   0xfffa3942; 0x8771f681; 0x6d9d6122; 0xfde5380c; 0xa4beea44; 0x4bdecfa9; 0xf6bb4b60; 0xbebfbc70;
   0x289b7ec6; 0xeaa127fa; 0xd4ef3085; 0x04881d05; 0xd9d4d039; 0xe6db99e5; 0x1fa27cf8; 0xc4ac5665;
   0xf4292244; 0x432aff97; 0xab9423a7; 0xfc93a039; 0x655b59c3; 0x8f0ccc92; 0xffeff47d; 0x85845dd1;
   0x6fa87e4f; 0xfe2ce6e0; 0xa3014314; 0x4e0811a1; 0xf7537e82; 0xbd3af235; 0x2ad7d2bb; 0xeb86d391].

Definition loop_body (block : Md5Block) (v : hash_state) (i : nat) : hash_state :=
  let '(a, b, c, d) := v in
  let '(f, g) :=
    if (i <? 16)%nat then (Z.lor (Z.land b c) (Z.land (u32 (Z.lnot b)) d), i)
    else if (i <? 32)%nat then (Z.lor (Z.land d b) (Z.land (u32 (Z.lnot d)) c), (5 * i + 1) mod 16)%nat
    else if (i <? 48)%nat then (Z.lxor (Z.lxor b c) d, (3 * i + 5) mod 16)%nat
    else (Z.lxor c (Z.lor b (u32 (Z.lnot d))), (7 * i) mod 16)%nat in
  let temp := d in
  let d := c in
  let c := b in
  let b := u32 (b + SHIFT_LEFT (u32 (a + f + nth i table_k 0 + word block g)) (nth i table_r 0)) in
  let a := temp in
  (a, b, c, d).

Definition CalMd5_loop (block : Md5Block) (h : hash_state) : hash_state :=
  let '(h0, h1, h2, h3) := h in
  let '(a, b, c, d) := foldl (loop_body block) h (seq 0 64) in
  (u32 (h0 + a), u32 (h1 + b), u32 (h2 + c), u32 (h3 + d)).

(** ** Blocks in memory *)

Definition gPadding : list Z := 0x80 :: replicate 63 0.

(** The words of a block that was filled with [memcpy] on a little-endian
    host. *)
Fixpoint le_words (k : nat) (mem : list Z) : Md5Block :=
  match k with 0%nat => [] | S k => le_value (take 4 mem) :: le_words k (drop 4 mem) end.

(** One word of [CopyBytesToBlock]: [word] has sixteen elements. *)
Definition copy_word (poolIn : list Z) (i : nat) : option Z :=
  _ ← assertb (i <? 16)%nat;
  b0 ← poolIn !! (4 * i)%nat;
  b1 ← poolIn !! (4 * i + 1)%nat;
  b2 ← poolIn !! (4 * i + 2)%nat;
  b3 ← poolIn !! (4 * i + 3)%nat;
  Some (Z.lor (Z.lor (Z.lor b0 (u32 (Z.shiftl b1 8))) (u32 (Z.shiftl b2 16))) (u32 (Z.shiftl b3 24))).

Definition CopyBytesToBlock (poolIn : list Z) : option Md5Block := mapM (copy_word poolIn) (seq 0 32).

(** [memcpy] into a block and padding, which the source writes out each time. *)
Definition pad_block (data : list Z) (partLen : Z) (block : list Z) : option (list Z) :=
  block ← blit 0 data block;
  padding ← slice gPadding 0 (64 - partLen);
  blit (4 * Z.shiftr partLen 2 + Z.land partLen 3) padding block.

Definition H_INIT : hash_state := (0x67452301, 0xEFCDAB89, 0x98BADCFE, 0x10325476).

(** The memory of [n] bytes of an integer. *)
Definition host_bytes (little : bool) (n : nat) (x : Z) : list Z := if little then le_bytes n x else be_bytes n x.

Definition hash_bytes (little : bool) (h : hash_state) : list Z :=
  let '(h0, h1, h2, h3) := h in host_bytes little 4 h0 ++ host_bytes little 4 h1 ++ host_bytes little 4 h2 ++ host_bytes little 4 h3.

(** The block of a host: a copy of the bytes, or its words put together. *)
Definition block_of (little : bool) (mem : list Z) : option Md5Block := if little then Some (le_words 16 mem) else CopyBytesToBlock mem.

(** [for (; i < end; i += 64)] over the blocks of [poolIn], with [uint32_t i]. *)
Fixpoint block_loop (fuel : nat) (little : bool) (poolIn : list Z) (i fin : Z) (h : hash_state) : option (Z * hash_state) :=
  if i <? fin then
    match fuel with
    | 0%nat => None
    | S fuel =>
        mem ← slice poolIn i 64;
        block ← block_of little mem;
        block_loop fuel little poolIn (u32 (i + 64)) fin (CalMd5 block h)
    end
  else Some (i, h).

(** One turn for each block and one to stop. *)
Definition block_fuel (poolIn : list Z) : nat := S (length poolIn / 64).

(** ** [DoMd5] *)

(** [mem] is what the block holds when the last part is copied into it. *)
Definition DoMd5Little (mem poolIn : list Z) : option (list Z) :=
  let inputBytesNum := Z.of_nat (length poolIn) in
  let fullLen := Z.shiftl (Z.shiftr inputBytesNum 6) 6 in
  let partLen := Z.land inputBytesNum 0x3F in
  '(i, h) ← block_loop (block_fuel poolIn) true poolIn 0 fullLen H_INIT;
  '(block, h) ← (if 55 <? partLen then
                   data ← slice poolIn i partLen;
                   block ← pad_block data partLen mem;
                   Some (replicate 64 0, CalMd5 (le_words 16 block) h)
                 else
                   data ← slice poolIn i partLen;
                   block ← pad_block data partLen mem;
                   Some (block, h));
  let bitsNum := u64 (inputBytesNum * 8) in
  block ← blit 56 (host_bytes true 8 bitsNum) block;
  Some (hash_bytes true (CalMd5 (le_words 16 block) h)).

Definition DoMd5Big (mem poolIn : list Z) : option (list Z) :=
  let inputBytesNum := Z.of_nat (length poolIn) in
  let fullLen := Z.shiftl (Z.shiftr inputBytesNum 6) 6 in
  let partLen := Z.land inputBytesNum 0x3F in
  '(i, h) ← block_loop (block_fuel poolIn) false poolIn 0 fullLen H_INIT;
  data ← slice poolIn i partLen;
  tempBlock ← blit 0 data mem;
  padding ← slice gPadding 0 (64 - partLen);
  tempBlock ← blit partLen padding tempBlock;
  '(tempBlock, h) ← (if 55 <? partLen then block ← CopyBytesToBlock tempBlock; Some (replicate 64 0, CalMd5 block h) else Some (tempBlock, h));
  let bitsNum := u64 (inputBytesNum * 8) in
  tempBlock ← blit 56 (host_bytes false 8 bitsNum) tempBlock;
  block ← CopyBytesToBlock tempBlock;
  Some (hash_bytes false (CalMd5 block h)).

Definition DoMd5 (little : bool) (mem poolIn : list Z) : option (list Z) :=
  if little then DoMd5Little mem poolIn else DoMd5Big mem poolIn.

Fixpoint check_loop (n i : nat) (newMd5 md5 : list Z) : option bool :=
  match n with
  | 0%nat => Some true
  | S n => a ← newMd5 !! i; b ← md5 !! i; if negb (a =? b) then Some false else check_loop n (S i) newMd5 md5
  end.

Definition CheckMd5 (little : bool) (mem poolIn md5 : list Z) : option bool :=
  newMd5 ← DoMd5 little mem poolIn;
  check_loop 16 0 newMd5 md5.

(** ** [Md5Stream] *)

Record Md5Stream := mkStream {
  mLittleEndian : bool;
  mBuf : list Z;
  mBufPosition : Z;
  mH : hash_state;
  mTotalBytes : Z
}.

Definition Initailize (little : bool) : Md5Stream := mkStream little (replicate 64 0) 0 H_INIT 0.
Definition Md5Stream_new (little : bool) : Md5Stream := Initailize little.

Definition Put (poolIn : list Z) (s : Md5Stream) : option Md5Stream :=
  let inputBytesNum := Z.of_nat (length poolIn) in
  let total := u64 (mTotalBytes s + inputBytesNum) in
  let len := u64 (inputBytesNum + mBufPosition s) in
  let fullLen := Z.shiftl (Z.shiftr len 6) 6 in
  if 64 <=? fullLen then
    let i := u32 (64 - mBufPosition s) in
    data ← slice poolIn 0 i;
    buf ← blit (mBufPosition s) data (mBuf s);
    block ← block_of (mLittleEndian s) buf;
    '(i, h) ← block_loop (block_fuel poolIn) (mLittleEndian s) poolIn i (u64 (fullLen - mBufPosition s)) (CalMd5 block (mH s));
    let pos := u64 (inputBytesNum - i) in
    data ← slice poolIn i pos;
    buf ← blit 0 data buf;
    Some (mkStream (mLittleEndian s) buf pos h total)
  else
    buf ← blit (mBufPosition s) poolIn (mBuf s);
    Some (mkStream (mLittleEndian s) buf (u64 (mBufPosition s + inputBytesNum)) (mH s) total).

Definition Get (mem : list Z) (s : Md5Stream) : option (list Z * Md5Stream) :=
  data ← slice (mBuf s) 0 (mBufPosition s);
  '(block, h) ← (if 55 <? mBufPosition s then
                   tempBlock ← pad_block data (mBufPosition s) mem;
                   block ← block_of (mLittleEndian s) tempBlock;
                   Some (replicate 64 0, CalMd5 block (mH s))
                 else
                   block ← pad_block data (mBufPosition s) mem;
                   Some (block, mH s));
  let bitsNum := u64 (mTotalBytes s * 8) in
  block ← blit 56 (host_bytes (mLittleEndian s) 8 bitsNum) block;
  block ← block_of (mLittleEndian s) block;
  Some (hash_bytes (mLittleEndian s) (CalMd5 block h), Initailize (mLittleEndian s)).

(** [%02x] *)
Definition hex_digit (d : Z) : Z := if d <? 10 then 48 + d else 87 + d.
Definition hex_byte (b : Z) : list Z := [hex_digit (Z.shiftr b 4); hex_digit (Z.land b 15)].

Definition GetMd5String (mem : list Z) (s : Md5Stream) : option (list Z * Md5Stream) :=
  '(hash, s) ← Get mem s;
  Some (concat (hex_byte <$> hash), s).

(** ** The function of RFC 1321 *)

(** A 1 bit, zeros up to eight bytes before the end of a block, and the number
    of bits modulo 2^64. *)
Definition pad (n : Z) : list Z := 0x80 :: replicate (Z.to_nat ((55 - n) mod 64)) 0 ++ le_bytes 8 (8 * n).

Fixpoint md5_blocks (k : nat) (m : list Z) (h : hash_state) : hash_state :=
  match k with 0%nat => h | S k => md5_blocks k (drop 64 m) (CalMd5 (le_words 16 (take 64 m)) h) end.

Definition md5 (msg : list Z) : list Z :=
  let m := msg ++ pad (Z.of_nat (length msg)) in
  hash_bytes true (md5_blocks (length m / 64) m H_INIT).

(** ** The rounds *)

(** The order of the sums does not matter. *)
Lemma sum_u32 f a b w s k : u32 (SHIFT_LEFT (u32 (a + u32 (f + w + k))) s + b) = u32 (b + SHIFT_LEFT (u32 (a + f + k + w)) s).
Proof.
  unfold wrapu. rewrite Zplus_mod_idemp_r, (Z.add_comm b). do 4 f_equal. lia.
Qed.

(** Turn [i] of the loop, with what it takes from the tables. *)
Lemma FF_body block a b c d i g s k :
  (i < 16)%nat -> i = g -> nth i table_r 0 = s -> nth i table_k 0 = k ->
  loop_body block (a, b, c, d) i = (d, FF a b c d (word block g) s k, b, c).
Proof. intros Hi <- <- <-. unfold loop_body, FF. rewrite (proj2 (Nat.ltb_lt i 16) Hi). by rewrite sum_u32. Qed.

Lemma GG_body block a b c d i g s k :
  (16 <= i < 32)%nat -> ((5 * i + 1) mod 16)%nat = g -> nth i table_r 0 = s -> nth i table_k 0 = k ->
  loop_body block (a, b, c, d) i = (d, GG a b c d (word block g) s k, b, c).
Proof.
  intros [H1 H2] <- <- <-. unfold loop_body, GG. rewrite (proj2 (Nat.ltb_ge i 16) H1), (proj2 (Nat.ltb_lt i 32) H2). by rewrite sum_u32.
Qed.

Lemma HH_body block a b c d i g s k :
  (32 <= i < 48)%nat -> ((3 * i + 5) mod 16)%nat = g -> nth i table_r 0 = s -> nth i table_k 0 = k ->
  loop_body block (a, b, c, d) i = (d, HH a b c d (word block g) s k, b, c).
Proof.
  intros [H1 H2] <- <- <-. unfold loop_body, HH.
  rewrite (proj2 (Nat.ltb_ge i 16)), (proj2 (Nat.ltb_ge i 32) H1), (proj2 (Nat.ltb_lt i 48) H2) by lia. by rewrite sum_u32.
Qed.

Lemma II_body block a b c d i g s k :
  (48 <= i < 64)%nat -> ((7 * i) mod 16)%nat = g -> nth i table_r 0 = s -> nth i table_k 0 = k ->
  loop_body block (a, b, c, d) i = (d, II a b c d (word block g) s k, b, c).
Proof.
  intros [H1 _] <- <- <-. unfold loop_body, II.
  rewrite (proj2 (Nat.ltb_ge i 16)), (proj2 (Nat.ltb_ge i 32)), (proj2 (Nat.ltb_ge i 48) H1) by lia. by rewrite sum_u32.
Qed.

Lemma turn block v i v' l r : loop_body block v i = v' -> r = foldl (loop_body block) v' l -> r = foldl (loop_body block) v (i :: l).
Proof. by intros <-. Qed.

#[local] Opaque FF GG HH II word.

(** Unroll eight turns with [L]. *)
Ltac unroll L :=
  let v := fresh in intros v; destruct v as [[[? ?] ?] ?]; cbn [seq];
  repeat (eapply turn; [eapply L; [lia|vm_compute; reflexivity..]|]); reflexivity.

Lemma Round1a_loop block v : Round1a block v = foldl (loop_body block) v (seq 0 8).
Proof. revert v. unroll FF_body. Qed.

Lemma Round1b_loop block v : Round1b block v = foldl (loop_body block) v (seq 8 8).
Proof. revert v. unroll FF_body. Qed.

Lemma Round2a_loop block v : Round2a block v = foldl (loop_body block) v (seq 16 8).
Proof. revert v. unroll GG_body. Qed.

Lemma Round2b_loop block v : Round2b block v = foldl (loop_body block) v (seq 24 8).
Proof. revert v. unroll GG_body. Qed.

Lemma Round3a_loop block v : Round3a block v = foldl (loop_body block) v (seq 32 8).
Proof. revert v. unroll HH_body. Qed.

Lemma Round3b_loop block v : Round3b block v = foldl (loop_body block) v (seq 40 8).
Proof. revert v. unroll HH_body. Qed.

Lemma Round4a_loop block v : Round4a block v = foldl (loop_body block) v (seq 48 8).
Proof. revert v. unroll II_body. Qed.

Lemma Round4b_loop block v : Round4b block v = foldl (loop_body block) v (seq 56 8).
Proof. revert v. unroll II_body. Qed.

#[local] Transparent FF GG HH II word.

(** The unrolled compression function is the loop.  On every block and
    every intermediate state the sixty-four unrolled steps of [CalMd5], which
    rename the four variables instead of moving them, compute what the loop of
    the disabled reference code computes with its tables. *)
Theorem md5_rounds_equal_loop (block : Md5Block) (h : hash_state) : CalMd5 block h = CalMd5_loop block h.
Proof.
  destruct h as [[[h0 h1] h2] h3]. unfold CalMd5, CalMd5_loop.
  unfold Round1, Round2, Round3, Round4.
  rewrite Round1a_loop, Round1b_loop, Round2a_loop, Round2b_loop, Round3a_loop, Round3b_loop, Round4a_loop, Round4b_loop, <- !foldl_app. reflexivity.
Qed.

(** ** Bytes and lengths *)

Lemma le_bytes_length k n : length (le_bytes k n) = k.
Proof. unfold le_bytes. by rewrite length_reverse, be_bytes_length. Qed.

Lemma le_bytes_u64 n : le_bytes 8 (u64 n) = le_bytes 8 n.
Proof. unfold le_bytes. f_equal. apply (be_bytes_wrapu 8). Qed.

(** The two parts of a position are the position. *)
Lemma word_offset p : 0 <= p -> 4 * Z.shiftr p 2 + Z.land p 3 = p.
Proof. intros Hp. rewrite Z.shiftr_div_pow2 by lia. change 3 with (Z.ones 2) at 1. rewrite Z.land_ones by lia. pose proof (Z.div_mod p (2 ^ 2)). lia. Qed.

Lemma full_len n : 0 <= n -> Z.shiftl (Z.shiftr n 6) 6 = 64 * (n / 64).
Proof. intros Hn. rewrite Z.shiftr_div_pow2, Z.shiftl_mul_pow2 by lia. change (2 ^ 6) with 64. lia. Qed.

Lemma part_len n : Z.land n 0x3F = n mod 64.
Proof. apply (Z.land_ones n 6). lia. Qed.

Lemma padding_take p : (p < 64)%nat -> take (64 - p) gPadding = 0x80 :: replicate (63 - p) 0.
Proof.
  intros Hp. unfold gPadding. replace (64 - p)%nat with (S (63 - p)) by lia. cbn [take]. f_equal. rewrite take_replicate. f_equal. lia.
Qed.

Lemma pad_block_ok data p mem :
  p = Z.of_nat (length data) -> p < 64 -> length mem = 64%nat ->
  pad_block data p mem = Some (data ++ 0x80 :: replicate (63 - length data) 0).
Proof.
  intros -> Hp Hm. unfold pad_block. set (n := length data).
  rewrite (blit_at mem 0 data [] (take n mem) (drop n mem)) by (rewrite ?take_drop, ?length_take; done || lia). cbn [mbind option_bind app].
  rewrite (slice_at gPadding 0 _ [] (take (64 - n) gPadding) (drop (64 - n) gPadding))
    by (rewrite ?take_drop, ?length_take; try done; cbn; unfold n; lia). cbn [mbind option_bind].
  rewrite padding_take by lia.
  rewrite (blit_at (data ++ drop n mem) _ _ data (drop n mem) []);
    [by rewrite app_nil_r|by rewrite app_nil_r|apply word_offset; lia|]. cbn [length]. rewrite length_replicate, length_drop. lia.
Qed.

(** ** Blocks *)

Lemma md5_blocks_app k k' l m h : length l = (64 * k)%nat -> md5_blocks (k + k') (l ++ m) h = md5_blocks k' m (md5_blocks k l h).
Proof.
  revert l h. induction k as [|k IH]; intros l h Hl; [by destruct l|]. cbn [md5_blocks Nat.add].
  rewrite drop_app_le, take_app_le by lia. apply IH. rewrite length_drop. lia.
Qed.

Lemma md5_blocks_one l h : length l = 64%nat -> md5_blocks 1 l h = CalMd5 (le_words 16 l) h.
Proof. intros Hl. cbn [md5_blocks]. by rewrite take_ge by lia. Qed.

Lemma block_loop_ok k : forall fuel A B C fin h,
  length B = (64 * k)%nat -> (k <= fuel)%nat -> fin = Z.of_nat (length A + length B) -> fin < 2 ^ 32 ->
  block_loop fuel true (A ++ B ++ C) (Z.of_nat (length A)) fin h = Some (fin, md5_blocks k B h).
Proof.
  induction k as [|k IH]; intros fuel A B C fin h HB Hf Hfin Hlt.
  - destruct B; [|cbn in HB; lia]. cbn [length] in Hfin. replace fin with (Z.of_nat (length A)) by lia.
    destruct fuel; cbn [block_loop]; by rewrite Z.ltb_irrefl.
  - destruct fuel as [|fuel]; [lia|]. cbn [block_loop]. rewrite (proj2 (Z.ltb_lt _ _)) by lia.
    assert (E : A ++ B ++ C = A ++ take 64 B ++ drop 64 B ++ C) by (by rewrite (app_assoc (take 64 B)), take_drop). rewrite E.
    rewrite (slice_at _ _ 64 A (take 64 B) (drop 64 B ++ C)) by (rewrite ?length_take; done || lia).
    cbn [mbind option_bind block_of]. rewrite (wrapu_small 32) by lia.
    replace (Z.of_nat (length A) + 64) with (Z.of_nat (length (A ++ take 64 B))) by (rewrite length_app, length_take; lia).
    rewrite (app_assoc A). rewrite (IH fuel (A ++ take 64 B) (drop 64 B)); [done|rewrite length_drop; lia|lia| |done].
    rewrite length_app, length_take, length_drop. lia.
Qed.

(** The last part of a message of [n] bytes: what the code makes of it. *)
Definition last_blocks (mem data : list Z) (n : Z) (h : hash_state) : option hash_state :=
  let p := Z.of_nat (length data) in
  '(block, h) ← (if 55 <? p then
                   block ← pad_block data p mem;
                   Some (replicate 64 0, CalMd5 (le_words 16 block) h)
                 else
                   block ← pad_block data p mem;
                   Some (block, h));
  block ← blit 56 (le_bytes 8 (u64 (n * 8))) block;
  Some (CalMd5 (le_words 16 block) h).

Lemma last_blocks_ok mem data n h :
  length mem = 64%nat -> n mod 64 = Z.of_nat (length data) ->
  last_blocks mem data n h = Some (md5_blocks (length (data ++ pad n) / 64) (data ++ pad n) h).
Proof.
  intros Hm Hn. pose proof (Z.mod_pos_bound n 64) as Hp. unfold last_blocks. set (p := length data) in *.
  rewrite le_bytes_u64, (Z.mul_comm n). unfold pad. assert (Hz : (55 - n) mod 64 = (55 - Z.of_nat p) mod 64) by (by rewrite <- Hn, Zminus_mod_idemp_r).
  rewrite pad_block_ok by (done || lia). fold p. destruct (Z.ltb_spec 55 (Z.of_nat p)); cbn [mbind option_bind].
  - assert (Hr : (55 - n) mod 64 = 119 - Z.of_nat p) by (rewrite Hz; symmetry; apply (Z.mod_unique_pos _ 64 (-1)); lia).
    rewrite Hr. replace (Z.to_nat (119 - Z.of_nat p)) with ((63 - p) + 56)%nat by lia.
    rewrite (blit_at (replicate 64 0) 56 _ (replicate 56 0) (replicate 8 0) []) by (rewrite ?le_bytes_length; done).
    cbn [mbind option_bind]. rewrite app_nil_r, replicate_add. cbn [app]. rewrite <- app_assoc.
    rewrite app_comm_cons, app_assoc. set (l1 := data ++ _ :: _). set (l2 := replicate 56 0 ++ _).
    assert (H1 : length l1 = 64%nat) by (unfold l1; rewrite length_app; cbn [length]; rewrite length_replicate; fold p; lia).
    assert (H2 : length l2 = 64%nat) by (unfold l2; by rewrite length_app, length_replicate, le_bytes_length).
    rewrite length_app, H1, H2. change ((64 + 64) / 64)%nat with (1 + 1)%nat. rewrite (md5_blocks_app 1 1), !md5_blocks_one by done. done.
  - assert (Hr : (55 - n) mod 64 = 55 - Z.of_nat p) by (rewrite Hz; apply Z.mod_small; lia).
    rewrite Hr. replace (Z.to_nat (55 - Z.of_nat p)) with (55 - p)%nat by lia. replace (63 - p)%nat with ((55 - p) + 8)%nat by lia.
    rewrite (blit_at _ 56 _ (data ++ 0x80 :: replicate (55 - p) 0) (replicate 8 0) []);
      [|by rewrite app_nil_r, <- app_assoc, replicate_add|rewrite length_app; cbn [length]; rewrite length_replicate; fold p; lia|apply le_bytes_length].
    cbn [mbind option_bind]. rewrite app_nil_r, <- app_assoc. cbn [app]. set (l := data ++ _ :: _).
    assert (H1 : length l = 64%nat) by (unfold l; rewrite length_app; cbn [length]; rewrite length_app, length_replicate, le_bytes_length; fold p; lia).
    rewrite H1. by rewrite md5_blocks_one.
Qed.

(** A message is its full blocks and the rest. *)
Lemma md5_split full data k :
  length full = (64 * k)%nat ->
  md5 (full ++ data) = hash_bytes true (md5_blocks (length (data ++ pad (Z.of_nat (length (full ++ data)))) / 64) (data ++ pad (Z.of_nat (length (full ++ data)))) (md5_blocks k full H_INIT)).
Proof.
  intros Hk. unfold md5. rewrite <- app_assoc. set (tl := data ++ _). rewrite length_app, Hk, (Nat.mul_comm 64 k), Nat.div_add_l by lia.
  by rewrite md5_blocks_app.
Qed.

Lemma domd5_little mem poolIn :
  length mem = 64%nat -> Z.of_nat (length poolIn) < 2 ^ 32 -> DoMd5Little mem poolIn = Some (md5 poolIn).
Proof.
  intros Hm Hlt. unfold DoMd5Little. set (n := Z.of_nat (length poolIn)) in *. rewrite full_len, part_len by lia.
  set (k := (length poolIn / 64)%nat). pose proof (Nat.div_mod_eq (length poolIn) 64) as Hd. fold k in Hd. pose proof (Nat.mod_upper_bound (length poolIn) 64) as Hu.
  assert (Hq : n / 64 = Z.of_nat k) by (unfold n, k; by rewrite Nat2Z.inj_div).
  assert (Hr : n mod 64 = Z.of_nat (length poolIn mod 64)) by (unfold n; by rewrite Nat2Z.inj_mod).
  set (full := take (64 * k) poolIn). set (data := drop (64 * k) poolIn).
  assert (Hf : length full = (64 * k)%nat) by (unfold full; rewrite length_take; lia).
  assert (Hl : length data = (length poolIn mod 64)%nat) by (unfold data; rewrite length_drop; lia).
  assert (E : poolIn = [] ++ full ++ data) by (symmetry; apply take_drop).
  assert (El : block_loop (block_fuel poolIn) true poolIn 0 (64 * (n / 64)) H_INIT = Some (64 * (n / 64), md5_blocks k full H_INIT)).
  { rewrite E at 2. apply block_loop_ok; [done|unfold block_fuel; fold k; lia|cbn [length]; lia|lia]. }
  rewrite El. cbn [mbind option_bind]. rewrite (slice_at poolIn _ _ full data []) by (rewrite ?app_nil_r; done || lia).
  cbn [mbind option_bind]. rewrite Hr, <- Hl.
  pose proof (last_blocks_ok mem data n (md5_blocks k full H_INIT) Hm) as Ht. rewrite Hr, Hl in Ht. specialize (Ht eq_refl).
  unfold last_blocks in Ht. cbn [host_bytes]. cbn zeta in Ht.
  pose proof (md5_split full data k Hf) as Es. rewrite (take_drop (64 * k) poolIn : full ++ data = poolIn) in Es. fold n in Es. rewrite Es.
  apply bind_Some_inv in Ht as ([block h'] & E1 & Ht). rewrite E1. cbn [mbind option_bind] in *. apply bind_Some_inv in Ht as (block' & E2 & Ht). rewrite E2.
  cbn [mbind option_bind]. apply (inj Some) in Ht. by rewrite Ht.
Qed.

Lemma block_loop_diverges fuel : forall little poolIn i fin h,
  0 <= i < 2 ^ 32 -> i mod 64 = 0 -> 2 ^ 32 <= fin -> block_loop fuel little poolIn i fin h = None.
Proof.
  induction fuel as [|fuel IH]; intros little poolIn i fin h Hi Hm Hf; cbn [block_loop]; rewrite (proj2 (Z.ltb_lt _ _)) by lia; [done|].
  destruct (slice _ _ _); [|done]. cbn [mbind option_bind]. destruct (block_of _ _); [|done]. cbn [mbind option_bind]. apply IH; [apply wrapu_range; lia| |done].
  unfold wrapu. rewrite <- Znumtheory.Zmod_div_mod; [|lia|lia|by exists (2 ^ 26)]. rewrite Zplus_mod, Hm. reflexivity.
Qed.

Lemma CopyBytesToBlock_outside poolIn : CopyBytesToBlock poolIn = None.
Proof.
  unfold CopyBytesToBlock. apply eq_None_not_Some. intros [ks E]. apply mapM_Some in E.
  apply (Forall2_lookup_l _ _ _ 16%nat 16%nat) in E; [|done]. by destruct E as (y & _ & E).
Qed.



(** ** The stream *)

Fixpoint put_all (pieces : list (list Z)) (s : Md5Stream) : option Md5Stream :=
  match pieces with [] => Some s | piece :: pieces => s ← Put piece s; put_all pieces s end.

(** The stream has taken [msg]: its full blocks are in the state, the rest is
    in the buffer. *)
Definition stream_at (msg : list Z) (s : Md5Stream) : Prop :=
  exists k full data junk,
    msg = full ++ data /\ length full = (64 * k)%nat /\ (length data < 64)%nat /\ length (data ++ junk) = 64%nat /\
    s = mkStream true (data ++ junk) (Z.of_nat (length data)) (md5_blocks k full H_INIT) (u64 (Z.of_nat (length msg))).

Lemma stream_new : stream_at [] (Md5Stream_new true).
Proof. exists 0%nat, [], [], (replicate 64 0). split_and!; try reflexivity; cbn; lia. Qed.

Lemma Put_at msg p s : stream_at msg s -> Z.of_nat (length p) < 2 ^ 32 -> exists s', Put p s = Some s' /\ stream_at (msg ++ p) s'.
Proof.
  intros (k & full & data & junk & -> & Hf & Hd & Hb & ->) Hp. unfold Put. cbn [mTotalBytes mBufPosition mBuf mLittleEndian mH].
  set (n := Z.of_nat (length p)) in *. set (d := Z.of_nat (length data)) in *.
  assert (Ht : u64 (u64 (Z.of_nat (length (full ++ data))) + n) = u64 (Z.of_nat (length ((full ++ data) ++ p)))).
  { rewrite (length_app (full ++ data) p), Nat2Z.inj_add. unfold wrapu. by rewrite Zplus_mod_idemp_l. }
  rewrite Ht. rewrite (wrapu_small 64 (n + d)) by lia. rewrite full_len by lia. rewrite length_app in Hb.
  pose proof (Z.div_mod (n + d) 64 ltac:(lia)) as Hdm. pose proof (Z.mod_pos_bound (n + d) 64 ltac:(lia)) as Hmb.
  destruct (Z.leb_spec 64 (64 * ((n + d) / 64))) as [Hge|Hlt].
  - rewrite (wrapu_small 32 (64 - d)) by lia. rewrite (wrapu_small 64 (_ - d)) by lia.
    set (q := Z.to_nat ((n + d) / 64 - 1)). set (p1 := take (64 - length data) p). set (p2 := take (64 * q) (drop (64 - length data) p)).
    set (p3 := drop (64 * q) (drop (64 - length data) p)).
    assert (E : p = p1 ++ p2 ++ p3) by (unfold p1, p2, p3; by rewrite !take_drop).
    assert (H1 : length p1 = (64 - length data)%nat) by (unfold p1; rewrite length_take; lia).
    assert (H2 : length p2 = (64 * q)%nat) by (unfold p2; rewrite length_take, length_drop; lia).
    assert (H3 : Z.of_nat (length p3) = (n + d) mod 64) by (unfold p3; rewrite !length_drop; lia).
    rewrite (slice_at p 0 _ [] p1 (p2 ++ p3)) by (done || lia). cbn [mbind option_bind].
    rewrite (blit_at (data ++ junk) d p1 data junk []) by (rewrite ?app_nil_r; done || lia). cbn [mbind option_bind block_of]. rewrite app_nil_r.
    replace (64 - d) with (Z.of_nat (length p1)) by lia.
    assert (Hl : block_loop (block_fuel p) true p (Z.of_nat (length p1)) (64 * ((n + d) / 64) - d) (CalMd5 (le_words 16 (data ++ p1)) (md5_blocks k full H_INIT))
      = Some (64 * ((n + d) / 64) - d, md5_blocks q p2 (CalMd5 (le_words 16 (data ++ p1)) (md5_blocks k full H_INIT)))).
    { rewrite E at 2. apply block_loop_ok; [done| |lia|lia]. unfold block_fuel. assert (64 * q <= length p)%nat by (rewrite E, !length_app; lia).
      assert (q <= length p / 64)%nat by (apply Nat.div_le_lower_bound; lia). lia. }
    rewrite Hl. cbn [mbind option_bind]. rewrite (wrapu_small 64 (n - _)) by lia.
    rewrite (slice_at p _ _ (p1 ++ p2) p3 []) by (rewrite ?app_nil_r, <- ?app_assoc, ?length_app; done || lia). cbn [mbind option_bind].
    rewrite (blit_at (data ++ p1) 0 p3 [] (take (length p3) (data ++ p1)) (drop (length p3) (data ++ p1)))
      by (rewrite ?take_drop, ?length_take, ?length_app; done || lia).
    cbn [mbind option_bind app]. eexists. split; [reflexivity|].
    exists (k + (1 + q))%nat, (full ++ (data ++ p1) ++ p2), p3, (drop (length p3) (data ++ p1)). split_and!.
    + rewrite E at 1. by rewrite <- !app_assoc.
    + rewrite !length_app. lia.
    + lia.
    + rewrite length_app, length_drop, length_app. lia.
    + rewrite md5_blocks_app by done. rewrite (md5_blocks_app 1 q) by (rewrite length_app; lia). rewrite md5_blocks_one by (rewrite length_app; lia).
      f_equal. lia.
  - assert (length data + length p < 64)%nat by lia.
    rewrite (blit_at (data ++ junk) d p data (take (length p) junk) (drop (length p) junk)) by (rewrite ?take_drop, ?length_take; done || lia).
    cbn [mbind option_bind]. rewrite (wrapu_small 64) by lia. eexists. split; [reflexivity|].
    exists k, full, (data ++ p), (drop (length p) junk). split_and!; [by rewrite <- app_assoc|done|rewrite length_app; lia| |].
    + rewrite !length_app, length_drop. lia.
    + f_equal; [by rewrite app_assoc|rewrite (length_app data p); lia].
Qed.

Lemma put_all_at pieces : forall msg s, stream_at msg s -> Forall (fun p => Z.of_nat (length p) < 2 ^ 32) pieces ->
  exists s', put_all pieces s = Some s' /\ stream_at (msg ++ concat pieces) s'.
Proof.
  induction pieces as [|p pieces IH]; intros msg s Hs Hp; cbn [put_all concat]; [exists s; by rewrite app_nil_r|].
  apply Forall_cons in Hp as [Hp Hps]. destruct (Put_at msg p s Hs Hp) as (s1 & E1 & Hs1). rewrite E1. cbn [mbind option_bind]. rewrite app_assoc. by apply IH.
Qed.

Lemma Get_at mem msg s : length mem = 64%nat -> stream_at msg s -> Get mem s = Some (md5 msg, Initailize true).
Proof.
  intros Hm (k & full & data & junk & -> & Hf & Hd & Hb & ->). unfold Get. cbn [mTotalBytes mBufPosition mBuf mLittleEndian mH].
  rewrite (slice_at (data ++ junk) 0 _ [] data junk) by done. cbn [mbind option_bind]. rewrite (md5_split full data k Hf).
  pose proof (last_blocks_ok mem data (Z.of_nat (length (full ++ data))) (md5_blocks k full H_INIT) Hm) as Ht. unfold last_blocks in Ht. cbn zeta in Ht.
  assert (Hn : Z.of_nat (length (full ++ data)) mod 64 = Z.of_nat (length data)).
  { rewrite length_app, Hf. rewrite Nat2Z.inj_add, Nat2Z.inj_mul, (Z.mul_comm (Z.of_nat 64)), Z.add_comm. change (Z.of_nat 64) with 64.
    rewrite Z.mod_add by lia. apply Z.mod_small. lia. }
  specialize (Ht Hn). assert (Hu : u64 (u64 (Z.of_nat (length (full ++ data))) * 8) = u64 (Z.of_nat (length (full ++ data)) * 8)).
  { unfold wrapu. by rewrite Zmult_mod_idemp_l. }
  rewrite Hu. cbn [block_of host_bytes]. destruct (pad_block data _ mem) as [block|]; cbn [mbind option_bind] in *; [|by destruct (55 <? _)].
  destruct (55 <? _); cbn [mbind option_bind] in *; (destruct (blit 56 _ _) as [b|]; [|done]); cbn [mbind option_bind] in *; apply (inj Some) in Ht; by rewrite Ht.
Qed.



(** [CheckMd5] says whether the digest is the given one. *)
Lemma check_loop_eq n : forall i a b, length a = (i + n)%nat -> length b = (i + n)%nat -> check_loop n i a b = Some (bool_decide (drop i a = drop i b)).
Proof.
  induction n as [|n IH]; intros i a b Ha Hb; cbn [check_loop].
  - rewrite !drop_ge by lia. by rewrite bool_decide_true.
  - destruct (lookup_lt_is_Some_2 a i) as [x Ex]; [lia|]. destruct (lookup_lt_is_Some_2 b i) as [y Ey]; [lia|]. rewrite Ex, Ey. cbn [mbind option_bind].
    rewrite (drop_S a x i Ex), (drop_S b y i Ey). destruct (Z.eqb_spec x y) as [->|Hn]; cbn [negb].
    + rewrite IH by lia. f_equal. apply bool_decide_ext. split; [by intros ->|by intros [= ->]].
    + rewrite bool_decide_false; [done|]. by intros [= ->].
Qed.

Lemma hash_bytes_length little h : length (hash_bytes little h) = 16%nat.
Proof. destruct h as [[[? ?] ?] ?]. cbn [hash_bytes]. rewrite !length_app. destruct little; cbn [host_bytes]; by rewrite ?le_bytes_length, ?be_bytes_length. Qed.

Lemma CheckMd5_spec mem poolIn digest :
  length mem = 64%nat -> Z.of_nat (length poolIn) < 2 ^ 32 -> length digest = 16%nat ->
  CheckMd5 true mem poolIn digest = Some (bool_decide (md5 poolIn = digest)).
Proof.
  intros Hm Hp Hd. unfold CheckMd5, DoMd5. rewrite domd5_little by done. cbn [mbind option_bind]. apply (check_loop_eq 16 0); [apply hash_bytes_length|done].
Qed.
