(* ===== verification/Base64.v ===== *)
(** * Base64

    Source: src/agent_engine/util/legacy/base64.cpp and base64.h.

    The codec on streams, with its alphabet and its exceptions, and the one on
    arrays.  A stream inp the list of the bytes it has left; a pointer into an
    array inp the list of what follows; reading or writing outside an array and
    signed overflow are undefined. *)

From S2P Require Import Prelude CString.

(** ** The codec on streams *)

Definition is_get (inp : list Z) : Z * list Z := match inp with [] => (-1, []) | c :: inp => (c, inp) end.
Definition is_peek (inp : list Z) : Z := match inp with [] => -1 | c :: _ => c end.

(** [alphabet[i]] *)
Definition index (alphabet : list Z) (i : Z) : option Z := if 0 <=? i then alphabet !! Z.to_nat i else None.

(** [while (!is.eof())]: what is put on the output. *)
Fixpoint encoding_loop (fuel : nat) (makeupChar : Z) (alphabet : list Z) (inp : list Z) (eof : bool) (remain : Z) : option (list Z) :=
  if eof then Some []
  else
    match fuel with
    | 0%nat => None
    | S fuel =>
        let '(byte1, inp) := is_get inp in
        if byte1 <? 0 then Some []
        else
          let '(byte2, inp) := is_get inp in
          let '(byte2, byte3, remain, inp, eof) :=
            if byte2 <? 0 then (0, 0, 1, inp, true)
            else
              let '(byte3, inp) := is_get inp in
              if byte3 <? 0 then (byte2, 0, 2, inp, true) else (byte2, byte3, remain, inp, false) in
          let out0 := Z.shiftr byte1 2 in
          let out1 := Z.shiftl (Z.land byte1 0x03) 4 + Z.shiftr byte2 4 in
          let out2 := Z.shiftl (Z.land byte2 0x0F) 2 + Z.shiftr byte3 6 in
          let out3 := Z.land byte3 0x3F in
          quad ← (if remain =? 1 then
                    c0 ← index alphabet out0; c1 ← index alphabet out1;
                    Some [c0; c1; makeupChar; makeupChar]
                  else if remain =? 2 then
                    c0 ← index alphabet out0; c1 ← index alphabet out1; c2 ← index alphabet out2;
                    Some [c0; c1; c2; makeupChar]
                  else
                    c0 ← index alphabet out0; c1 ← index alphabet out1; c2 ← index alphabet out2; c3 ← index alphabet out3;
                    Some [c0; c1; c2; c3]);
          os ← encoding_loop fuel makeupChar alphabet inp eof remain;
          Some (quad ++ os)
    end.

Definition Base64Encoding (inp : list Z) (makeupChar : Z) (alphabet : list Z) : option (list Z) :=
  encoding_loop (S (length inp)) makeupChar alphabet inp false 0.

(** The digit a character stands for, by the tests of the decoder. *)
Definition char_value (plus slash : Z) (bTmp : Z) : option Z :=
  if (65 <=? bTmp) && (bTmp <=? 90) then Some (bTmp - 65)
  else if (97 <=? bTmp) && (bTmp <=? 122) then Some (bTmp - 97 + 26)
  else if (48 <=? bTmp) && (bTmp <=? 57) then Some (bTmp + 26 * 2 - 48)
  else if bTmp =? i8 plus then Some (26 * 2 + 10)
  else if bTmp =? i8 slash then Some (64 - 1)
  else None.

(** [for (int i = 0; i < 4; i++)]: the values read, where [makeupChar] ended
    the loop if it did, and the rest; [None] for an exception. *)
Fixpoint read_quad (n : nat) (i : Z) (makeupChar plus slash : Z) (inp : list Z) : option (list Z * option Z * list Z) :=
  match n with
  | 0%nat => Some ([], None, inp)
  | S n =>
      let '(bTmp, inp) := is_get inp in
      if bTmp =? i8 makeupChar then Some ([], Some i, inp)
      else
        v ← char_value plus slash bTmp;
        '(byte, index, inp) ← read_quad n (i + 1) makeupChar plus slash inp;
        Some (v :: byte, index, inp)
  end.

(** The result of the decoder: what it has put on the output, and whether it
    returned or threw [BadBase64Exception]. *)
Definition decoded : Type := list Z * bool.

(** [while (is.peek() >= 0)] *)
Fixpoint decoding_loop (fuel : nat) (makeupChar plus slash : Z) (inp : list Z) : option decoded :=
  if is_peek inp <? 0 then Some ([], true)
  else
    match fuel with
    | 0%nat => None
    | S fuel =>
        match read_quad 4 0 makeupChar plus slash inp with
        | None => Some ([], false)
        | Some (byte, index, inp) =>
            let b i := nth i byte 0 in
            let out0 := u8 (Z.shiftl (b 0%nat) 2 + Z.shiftr (b 1%nat) 4) in
            let out1 := u8 (Z.shiftl (Z.land (b 1%nat) 0x0F) 4 + Z.shiftr (b 2%nat) 2) in
            let out2 := u8 (Z.shiftl (Z.land (b 2%nat) 0x03) 6 + b 3%nat) in
            match index with
            | Some index =>
                if (index =? 0) || (index =? 1) then Some ([], false)
                else if index =? 2 then
                  let '(bTmpNext, inp) := is_get inp in
                  if bTmpNext =? i8 makeupChar then
                    if is_peek inp <? 0 then r ← decoding_loop fuel makeupChar plus slash inp; Some (out0 :: r.1, r.2) else Some ([], false)
                  else Some ([], false)
                else if is_peek inp <? 0 then r ← decoding_loop fuel makeupChar plus slash inp; Some (out0 :: out1 :: r.1, r.2)
                else Some ([], false)
            | None => r ← decoding_loop fuel makeupChar plus slash inp; Some (out0 :: out1 :: out2 :: r.1, r.2)
            end
        end
    end.

Definition Base64DecodingEx (inp : list Z) (makeupChar plus slash : Z) : option decoded :=
  decoding_loop (length inp) makeupChar plus slash inp.

Definition Base64Decoding (inp : list Z) (plus slash : Z) : option decoded := Base64DecodingEx inp 61 plus slash.

(** ** The codec on arrays *)

Definition pr2six : list Z :=
  [64; 64; 64; 64; 64; 64; 64; 64; 64; 64; 64; 64; 64; 64; 64; 64; 64; 64; 64; 64; 64; 64; 64; 64; 64; 64; 64; 64; 64; 64; 64; 64;
   64; 64; 64; 64; 64; 64; 64; 64; 64; 64; 64; 62; 64; 64; 64; 63; 52; 53; 54; 55; 56; 57; 58; 59; 60; 61; 64; 64; 64; 64; 64; 64;
   64; 0; 1; 2; 3; 4; 5; 6; 7; 8; 9; 10; 11; 12; 13; 14; 15; 16; 17; 18; 19; 20; 21; 22; 23; 24; 25; 64; 64; 64; 64; 64;
   64; 26; 27; 28; 29; 30; 31; 32; 33; 34; 35; 36; 37; 38; 39; 40; 41; 42; 43; 44; 45; 46; 47; 48; 49; 50; 51; 64; 64; 64; 64; 64;
   64; 64; 64; 64; 64; 64; 64; 64; 64; 64; 64; 64; 64; 64; 64; 64; 64; 64; 64; 64; 64; 64; 64; 64; 64; 64; 64; 64; 64; 64; 64; 64;
   64; 64; 64; 64; 64; 64; 64; 64; 64; 64; 64; 64; 64; 64; 64; 64; 64; 64; 64; 64; 64; 64; 64; 64; 64; 64; 64; 64; 64; 64; 64; 64;
   64; 64; 64; 64; 64; 64; 64; 64; 64; 64; 64; 64; 64; 64; 64; 64; 64; 64; 64; 64; 64; 64; 64; 64; 64; 64; 64; 64; 64; 64; 64; 64;
   64; 64; 64; 64; 64; 64; 64; 64; 64; 64; 64; 64; 64; 64; 64; 64; 64; 64; 64; 64; 64; 64; 64; 64; 64; 64; 64; 64; 64; 64; 64; 64].

Definition six (c : Z) : Z := nth (Z.to_nat c) pr2six 64.

(** [int] arithmetic that may overflow. *)
Definition cint (z : Z) : option Z := if (INT_MIN <=? z) && (z <=? INT_MAX) then Some z else None.

(** [while (pr2six[*(bufin++)] <= 63);]: how many characters are passed. *)
Fixpoint count_code (bufin : list Z) : option Z :=
  match bufin with
  | [] => None
  | c :: bufin => if six c <=? 63 then n ← count_code bufin; Some (n + 1) else Some 0
  end.

Definition Base64decode_len (bufcoded : list Z) : option Z :=
  n ← count_code bufcoded;
  s ← cint (i32 n + 3);
  nbytesdecoded ← cint (Z.quot s 4 * 3);
  cint (nbytesdecoded + 1).

(** [while (nprbytes > 4)] and what follows it: the bytes written. *)
Fixpoint decode_groups (fuel : nat) (bufin : list Z) (nprbytes : Z) : option (list Z) :=
  let p i := c ← bufin !! i; Some (six c) in
  let byte0 := p0 ← p 0%nat; p1 ← p 1%nat; Some (u8 (Z.lor (Z.shiftl p0 2) (Z.shiftr p1 4))) in
  let byte1 := p1 ← p 1%nat; p2 ← p 2%nat; Some (u8 (Z.lor (Z.shiftl p1 4) (Z.shiftr p2 2))) in
  let byte2 := p2 ← p 2%nat; p3 ← p 3%nat; Some (u8 (Z.lor (Z.shiftl p2 6) p3)) in
  if 4 <? nprbytes then
    match fuel with
    | 0%nat => None
    | S fuel =>
        b0 ← byte0; b1 ← byte1; b2 ← byte2;
        rest ← decode_groups fuel (drop 4 bufin) (nprbytes - 4);
        Some (b0 :: b1 :: b2 :: rest)
    end
  else
    l0 ← (if 1 <? nprbytes then b ← byte0; Some [b] else Some []);
    l1 ← (if 2 <? nprbytes then b ← byte1; Some [b] else Some []);
    l2 ← (if 3 <? nprbytes then b ← byte2; Some [b] else Some []);
    Some (l0 ++ l1 ++ l2 ++ [0]).

(** [bufplain] with what is written, and the number of bytes decoded. *)
Definition Base64decode (bufplain bufcoded : list Z) : option (list Z * Z) :=
  n ← count_code bufcoded;
  let nprbytes := i32 n in
  s ← cint (nprbytes + 3);
  nbytesdecoded ← cint (Z.quot s 4 * 3);
  bytes ← decode_groups (length bufcoded) bufcoded nprbytes;
  bufplain ← blit 0 bytes bufplain;
  Some (bufplain, nbytesdecoded - Z.land (4 - nprbytes) 3).

Definition basis_64 : list Z := lit "ABCDEFGHIJKLMNOPQRSTUVWXYZabcdefghijklmnopqrstuvwxyz0123456789+/".

Definition Base64encode_len (len : Z) : option Z :=
  s ← cint (len + 2);
  m ← cint (Z.quot s 3 * 4);
  cint (m + 1).

(** The characters that [Base64encode] makes of those at [i]. *)
Definition char_at (string : list Z) (i : Z) : option Z := c ← index string i; Some (i8 c).

Fixpoint encode_groups (fuel : nat) (string : list Z) (len i : Z) : option (list Z) :=
  let s0 := char_at string i in
  let s1 := char_at string (i + 1) in
  let s2 := char_at string (i + 2) in
  if i <? len - 2 then
    match fuel with
    | 0%nat => None
    | S fuel =>
        a ← s0; b ← s1; c ← s2;
        e0 ← index basis_64 (Z.land (Z.shiftr a 2) 0x3F);
        e1 ← index basis_64 (Z.lor (Z.shiftl (Z.land a 0x3) 4) (Z.shiftr (Z.land b 0xF0) 4));
        e2 ← index basis_64 (Z.lor (Z.shiftl (Z.land b 0xF) 2) (Z.shiftr (Z.land c 0xC0) 6));
        e3 ← index basis_64 (Z.land c 0x3F);
        rest ← encode_groups fuel string len (i + 3);
        Some (e0 :: e1 :: e2 :: e3 :: rest)
    end
  else if i <? len then
    a ← s0;
    e0 ← index basis_64 (Z.land (Z.shiftr a 2) 0x3F);
    if i =? len - 1 then
      e1 ← index basis_64 (Z.shiftl (Z.land a 0x3) 4);
      Some [e0; e1; 61; 61; 0]
    else
      b ← s1;
      e1 ← index basis_64 (Z.lor (Z.shiftl (Z.land a 0x3) 4) (Z.shiftr (Z.land b 0xF0) 4));
      e2 ← index basis_64 (Z.shiftl (Z.land b 0xF) 2);
      Some [e0; e1; e2; 61; 0]
  else Some [0].

(** [encoded] with what is written, and the length without the zero. *)
Definition Base64encode (encoded string : list Z) (len : Z) : option (list Z * Z) :=
  out ← encode_groups (length string) string len 0;
  encoded ← blit 0 out encoded;
  Some (encoded, i32 (Z.of_nat (length out) - 1)).

(** [resize] *)
Definition resize (n : Z) (buffer : list Z) : option (list Z) :=
  if n <? 0 then None else Some (take (Z.to_nat n) buffer ++ replicate (Z.to_nat n - length buffer) 0).

(** [data] is the memory from the pointer on. *)
Definition Base64DecodeFast_ptr (data : list Z) (size : Z) : option (list Z) :=
  buffer ← resize (size + 1) [];
  '(buffer, len) ← Base64decode buffer data;
  resize len buffer.

Definition Base64EncodeFast_ptr (data : list Z) (size : Z) : option (list Z) :=
  n ← Base64encode_len (i32 size);
  buffer ← resize n [];
  '(buffer, len) ← Base64encode buffer data (i32 size);
  resize len buffer.

(** A [std::string] ends with a zero. *)
Definition Base64DecodeFast (input : list Z) : option (list Z) := Base64DecodeFast_ptr (input ++ [0]) (Z.of_nat (length input)).
Definition Base64EncodeFast (input : list Z) : option (list Z) := Base64EncodeFast_ptr (input ++ [0]) (Z.of_nat (length input)).

(** ** The code of RFC 4648 *)

(** The character of a digit. *)
Definition chr (alphabet : list Z) (d : Z) : Z := nth (Z.to_nat d) alphabet 0.

Fixpoint b64 (alphabet : list Z) (makeupChar : Z) (s : list Z) : list Z :=
  match s with
  | a :: b :: c :: s =>
      chr alphabet (a / 4) :: chr alphabet (a mod 4 * 16 + b / 16) :: chr alphabet (b mod 16 * 4 + c / 64) :: chr alphabet (c mod 64) :: b64 alphabet makeupChar s
  | [a; b] => [chr alphabet (a / 4); chr alphabet (a mod 4 * 16 + b / 16); chr alphabet (b mod 16 * 4); makeupChar]
  | [a] => [chr alphabet (a / 4); chr alphabet (a mod 4 * 16); makeupChar; makeupChar]
  | [] => []
  end.

Definition alnum : list Z := lit "ABCDEFGHIJKLMNOPQRSTUVWXYZabcdefghijklmnopqrstuvwxyz0123456789".
Definition alphabet_of (plus slash : Z) : list Z := alnum ++ [plus; slash].

(** The characters that complete an alphabet: ASCII, not letters or digits, and
    different. *)
Definition good_char (c : Z) : bool := (0 <=? c) && (c <? 128) && match char_value (-1) (-1) c with None => true | _ => false end.
Definition good_alphabet (makeupChar plus slash : Z) : bool :=
  good_char makeupChar && good_char plus && good_char slash && negb (plus =? slash) && negb (makeupChar =? plus) && negb (makeupChar =? slash).

(** The texts the decoder accepts. *)
Fixpoint well_formed (makeupChar plus slash : Z) (l : list Z) : bool :=
  let v c := match char_value plus slash c with Some _ => true | None => false end in
  let pad c := c =? makeupChar in
  match l with
  | [] => true
  | a :: b :: c :: d :: l =>
      v a && v b && (if pad c then pad d && bool_decide (l = []) else v c && (if pad d then bool_decide (l = []) else v d && well_formed makeupChar plus slash l))
  | _ => false
  end.

(** ** Bits *)

Lemma below_cases n (f : Z -> bool) : forallb f (seqZ 0 n) = true -> forall z, 0 <= z < n -> f z = true.
Proof. intros Hf z Hz. rewrite forallb_forall in Hf. apply Hf. apply list_elem_of_In, elem_of_seqZ. lia. Qed.

Lemma signed_bits b :
  is_byte b ->
  Z.land (Z.shiftr (i8 b) 2) 63 = b / 4 /\ Z.land (i8 b) 3 = b mod 4 /\ Z.shiftr (Z.land (i8 b) 240) 4 = b / 16 /\
  Z.land (i8 b) 15 = b mod 16 /\ Z.shiftr (Z.land (i8 b) 192) 6 = b / 64 /\ Z.land (i8 b) 63 = b mod 64.
Proof.
  intros Hb. set (f := fun b => bool_decide (Z.land (Z.shiftr (i8 b) 2) 63 = b / 4 /\ Z.land (i8 b) 3 = b mod 4 /\ Z.shiftr (Z.land (i8 b) 240) 4 = b / 16 /\
    Z.land (i8 b) 15 = b mod 16 /\ Z.shiftr (Z.land (i8 b) 192) 6 = b / 64 /\ Z.land (i8 b) 63 = b mod 64)).
  apply (bool_decide_unpack _), Is_true_true. change (f b = true). apply (below_cases 256); [vm_compute; reflexivity|exact Hb].
Qed.

Lemma unsigned_bits b : Z.land b 3 = b mod 4 /\ Z.land b 15 = b mod 16 /\ Z.land b 63 = b mod 64.
Proof. split_and!; [apply (Z.land_ones b 2)|apply (Z.land_ones b 4)|apply (Z.land_ones b 6)]; lia. Qed.

Lemma index_chr alphabet d : 0 <= d < 64 -> (64 <= length alphabet)%nat -> index alphabet d = Some (chr alphabet d).
Proof.
  intros Hd Hl. unfold index, chr. rewrite (proj2 (Z.leb_le 0 d)) by lia. destruct (lookup_lt_is_Some_2 alphabet (Z.to_nat d)) as [c Ec]; [lia|].
  rewrite Ec. f_equal. symmetry. by apply nth_lookup_Some.
Qed.

(** ** The encoders *)

(** Induction by groups of three. *)
Lemma triples_ind (P : list Z -> Prop) :
  P [] -> (forall a, P [a]) -> (forall a b, P [a; b]) -> (forall a b c s, P s -> P (a :: b :: c :: s)) -> forall s, P s.
Proof.
  intros H0 H1 H2 H3. assert (Hall : forall n s, (length s <= n)%nat -> P s); [|by intros s; apply (Hall (length s))].
  induction n as [|n IH]; intros [|a [|b [|c s]]] Hl; try done; cbn [length] in Hl; [lia..|]. apply H3, IH. lia.
Qed.

Lemma digit_range b : is_byte b -> 0 <= b / 4 < 64 /\ 0 <= b mod 4 < 4 /\ 0 <= b / 16 < 16 /\ 0 <= b mod 16 < 16 /\ 0 <= b / 64 < 4 /\ 0 <= b mod 64 < 64.
Proof. unfold is_byte. intros Hb. split_and!; try (apply Z.mod_pos_bound; lia); try (apply Z.div_pos; lia); apply Z.div_lt_upper_bound; lia. Qed.

Ltac bytes :=
  repeat match goal with H : Forall is_byte (_ :: _) |- _ => apply Forall_cons in H as [? H] end;
  repeat match goal with H : is_byte ?b |- _ => pose proof (digit_range b H); unfold is_byte in H end.

Ltac powers := change (2 ^ 2) with 4 in *; change (2 ^ 4) with 16 in *; change (2 ^ 6) with 64 in *.

Lemma encoding_loop_b64 mk alphabet s :
  (64 <= length alphabet)%nat -> Forall is_byte s -> forall fuel, (length s < fuel)%nat ->
  encoding_loop fuel mk alphabet s false 0 = Some (b64 alphabet mk s).
Proof.
  intros Ha. induction s as [|a|a b|a b c s IH] using triples_ind; intros Hs [|fuel] Hf; cbn [length] in Hf; try lia; try done;
    bytes; cbn [encoding_loop is_get].
  - rewrite (proj2 (Z.ltb_ge _ _)) by lia. cbn -[Z.land Z.shiftl Z.shiftr encoding_loop].
    change (Z.shiftr 0 4) with 0. destruct (unsigned_bits a) as (-> & _). rewrite Z.shiftr_div_pow2, Z.shiftl_mul_pow2, Z.add_0_r by lia.
    powers. rewrite !index_chr by lia. cbn [mbind option_bind]. by destruct fuel.
  - rewrite !(proj2 (Z.ltb_ge _ _)) by lia. cbn -[Z.land Z.shiftl Z.shiftr encoding_loop]. change (Z.shiftr 0 6) with 0.
    destruct (unsigned_bits a) as (-> & _), (unsigned_bits b) as (_ & -> & _). rewrite !Z.shiftr_div_pow2, !Z.shiftl_mul_pow2, Z.add_0_r by lia. powers. rewrite !index_chr by lia. cbn [mbind option_bind]. by destruct fuel.
  - rewrite !(proj2 (Z.ltb_ge _ _)) by lia. cbn -[Z.land Z.shiftl Z.shiftr encoding_loop b64].
    destruct (unsigned_bits a) as (-> & _), (unsigned_bits b) as (_ & -> & _), (unsigned_bits c) as (_ & _ & ->).
    rewrite !Z.shiftr_div_pow2, !Z.shiftl_mul_pow2 by lia. powers. rewrite !index_chr by lia. cbn [mbind option_bind]. by rewrite IH by (done || lia).
Qed.

Lemma char_at_app pre c s : char_at (pre ++ c :: s) (Z.of_nat (length pre)) = Some (i8 c).
Proof.
  unfold char_at, index. rewrite (proj2 (Z.leb_le 0 _)) by lia. by rewrite Nat2Z.id, list_lookup_middle by done.
Qed.

Lemma char_at_next pre b c s : char_at (pre ++ b :: c :: s) (Z.of_nat (length pre) + 1) = Some (i8 c).
Proof.
  change (pre ++ b :: c :: s) with (pre ++ [b] ++ c :: s). rewrite app_assoc.
  replace (Z.of_nat (length pre) + 1) with (Z.of_nat (length (pre ++ [b]))) by (rewrite length_app; cbn [length]; lia). apply char_at_app.
Qed.

Lemma char_at_next2 pre a b c s : char_at (pre ++ a :: b :: c :: s) (Z.of_nat (length pre) + 2) = Some (i8 c).
Proof.
  change (pre ++ a :: b :: c :: s) with (pre ++ [a] ++ b :: c :: s). rewrite app_assoc.
  replace (Z.of_nat (length pre) + 2) with (Z.of_nat (length (pre ++ [a])) + 1) by (rewrite length_app; cbn [length]; lia). apply char_at_next.
Qed.

Lemma encode_groups_b64 s junk : forall pre fuel len,
  Forall is_byte s -> (length s <= fuel)%nat -> len = Z.of_nat (length pre + length s) ->
  encode_groups fuel (pre ++ s ++ junk) len (Z.of_nat (length pre)) = Some (b64 basis_64 61 s ++ [0]).
Proof.
  induction s as [|a|a b|a b c s IH] using triples_ind; intros pre fuel len Hs Hf ->; cbn [length] in *; bytes; cbn [app]; destruct fuel as [|fuel]; try lia;
    cbn [encode_groups].
  all: try (rewrite (proj2 (Z.ltb_ge _ (_ - 2))) by lia).
  1,2: by rewrite (proj2 (Z.ltb_ge _ _)) by lia.
  - rewrite (proj2 (Z.ltb_lt _ _)), (proj2 (Z.eqb_eq _ _)) by lia. rewrite char_at_app. cbn [mbind option_bind].
    destruct (signed_bits a) as (-> & -> & _); [done|]. rewrite Z.shiftl_mul_pow2, !index_chr by (done || powers; lia). done.
  - rewrite (proj2 (Z.ltb_lt _ _)), (proj2 (Z.eqb_neq _ _)) by lia. rewrite char_at_app, char_at_next. cbn [mbind option_bind].
    destruct (signed_bits a) as (-> & -> & _); [done|]. destruct (signed_bits b) as (_ & _ & -> & -> & _); [done|].
    rewrite lor_fields, Z.shiftl_mul_pow2, !index_chr by (done || powers; lia). done.
  - rewrite (proj2 (Z.ltb_lt _ _)) by lia. rewrite char_at_app, char_at_next.
    rewrite char_at_next2. cbn [mbind option_bind].
    destruct (signed_bits a) as (-> & -> & _); [done|]. destruct (signed_bits b) as (_ & _ & -> & -> & _); [done|].
    destruct (signed_bits c) as (_ & _ & _ & _ & -> & ->); [done|]. rewrite !lor_fields, !index_chr by (done || powers; lia). cbn [mbind option_bind].
    replace (Z.of_nat (length pre) + 3) with (Z.of_nat (length (pre ++ [a; b; c]))) by (rewrite length_app; cbn [length]; lia).
    change (pre ++ a :: b :: c :: s ++ junk) with (pre ++ [a; b; c] ++ s ++ junk). rewrite app_assoc.
    rewrite IH; [done|done|lia|rewrite length_app; cbn [length]; lia].
Qed.

Lemma b64_length alphabet mk s : Z.of_nat (length (b64 alphabet mk s)) = (Z.of_nat (length s) + 2) / 3 * 4.
Proof.
  induction s as [|a|a b|a b c s IH] using triples_ind; try done. cbn [b64 length]. rewrite !Nat2Z.inj_succ, IH.
  replace (Z.succ (Z.succ (Z.succ (Z.of_nat (length s)))) + 2) with (Z.of_nat (length s) + 2 + 1 * 3) by lia. rewrite Z.div_add by lia. lia.
Qed.

(** The sizes for which the [int] arithmetic of the codec does not overflow. *)
Definition codec_size (size : Z) : Prop := (size + 2) / 3 * 4 + 4 <= INT_MAX.

Lemma codec_size_small n : 0 <= n -> codec_size n -> n + 2 <= INT_MAX.
Proof. unfold codec_size, INT_MAX. intros ? ?. pose proof (Z.div_mod (n + 2) 3). pose proof (Z.mod_pos_bound (n + 2) 3). lia. Qed.

Lemma cint_ok z : INT_MIN <= z <= INT_MAX -> cint z = Some z.
Proof. intros ?. unfold cint. by rewrite !(proj2 (Z.leb_le _ _)) by lia. Qed.

Lemma Base64encode_len_ok n : 0 <= n -> codec_size n -> Base64encode_len n = Some ((n + 2) / 3 * 4 + 1).
Proof.
  intros Hn Hs. pose proof (codec_size_small n Hn Hs) as Hsm. unfold codec_size in Hs. assert (0 <= (n + 2) / 3) by (apply Z.div_pos; lia).
  unfold Base64encode_len. rewrite cint_ok by (unfold INT_MIN; lia). cbn [mbind option_bind]. rewrite Z.quot_div_nonneg by lia.
  rewrite cint_ok by (unfold INT_MIN; lia). cbn [mbind option_bind]. apply cint_ok. unfold INT_MIN. lia.
Qed.

(** The first [n] bytes of a buffer that begins with [out]. *)
Lemma resize_app out rest : resize (Z.of_nat (length out)) (out ++ rest) = Some out.
Proof.
  unfold resize. rewrite (proj2 (Z.ltb_ge _ _)) by lia. rewrite Nat2Z.id, take_app_length, length_app.
  replace (_ - _)%nat with 0%nat by lia. cbn [replicate]. by rewrite app_nil_r.
Qed.

Lemma resize_new n : 0 <= n -> resize n [] = Some (replicate (Z.to_nat n) 0).
Proof. intros Hn. unfold resize. rewrite (proj2 (Z.ltb_ge _ _)) by lia. by rewrite take_nil, Nat.sub_0_r. Qed.

(** Writing at the start of a buffer that is large enough. *)
Lemma blit_start out n : (length out <= n)%nat -> exists rest, blit 0 out (replicate n 0) = Some (out ++ rest).
Proof.
  intros Hn. exists (replicate (n - length out) 0). apply (blit_at _ 0 out [] (replicate (length out) 0)); [|done|by rewrite length_replicate].
  cbn [app]. rewrite <- replicate_add. f_equal. lia.
Qed.

Lemma Base64EncodeFast_b64 s : Forall is_byte s -> codec_size (Z.of_nat (length s)) -> Base64EncodeFast s = Some (b64 basis_64 61 s).
Proof.
  intros Hs Hn. pose proof (codec_size_small (Z.of_nat (length s)) ltac:(lia) Hn) as Hsm. pose proof (b64_length basis_64 61 s) as Hl.
  unfold Base64EncodeFast, Base64EncodeFast_ptr. rewrite i32_small by (unfold INT_MIN; lia). rewrite Base64encode_len_ok by (done || lia).
  cbn [mbind option_bind]. rewrite resize_new by lia. cbn [mbind option_bind]. unfold Base64encode.
  rewrite (encode_groups_b64 s [0] []) by (done || (rewrite length_app; cbn [length]; lia)). cbn [mbind option_bind].
  set (out := b64 basis_64 61 s) in *. destruct (blit_start (out ++ [0]) (Z.to_nat ((Z.of_nat (length s) + 2) / 3 * 4 + 1))) as (rest & E); [rewrite length_app; cbn [length]; lia|].
  rewrite E. cbn [mbind option_bind]. rewrite length_app, Nat2Z.inj_add. cbn [length]. unfold codec_size in Hn.
  replace (Z.of_nat (length out) + Z.of_nat 1 - 1) with (Z.of_nat (length out)) by lia. rewrite i32_small by (unfold INT_MIN; lia).
  rewrite <- app_assoc. apply resize_app.
Qed.

(** ** The decoder of streams *)

Lemma char_value_alnum plus slash c v : 0 <= c -> char_value (-1) (-1) c = Some v -> char_value plus slash c = Some v.
Proof.
  unfold char_value. intros Hc. repeat case_match; intros [=]; subst; try done;
    bool_to_prop; match goal with H : c = i8 (-1) |- _ => change (i8 (-1)) with (-1) in H; lia end.
Qed.

Lemma good_char_i8 c : good_char c = true -> i8 c = c /\ 0 <= c < 128 /\ char_value (-1) (-1) c = None.
Proof.
  unfold good_char. intros Hc. bool_to_prop. destruct (char_value (-1) (-1) c); [done|]. split_and!; try done. apply wraps_small; lia.
Qed.

Lemma alnum_digits d : 0 <= d < 62 -> 0 <= nth (Z.to_nat d) alnum 0 < 128 /\ char_value (-1) (-1) (nth (Z.to_nat d) alnum 0) = Some d.
Proof.
  intros Hd. set (f := fun d => bool_decide (0 <= nth (Z.to_nat d) alnum 0 < 128 /\ char_value (-1) (-1) (nth (Z.to_nat d) alnum 0) = Some d)).
  apply (bool_decide_unpack _), Is_true_true. change (f d = true). apply (below_cases 62); [vm_compute; reflexivity|done].
Qed.

Section Alphabet.

Context (mk plus slash : Z) (Hgood : good_alphabet mk plus slash = true).

#[local] Set Default Proof Using "Type".

Lemma chr_value d :
  0 <= d < 64 -> let c := chr (alphabet_of plus slash) d in 0 <= c < 128 /\ c <> mk /\ char_value plus slash c = Some d.
Proof using Hgood.
  intros Hd. cbv zeta. pose proof Hgood as Hg. unfold good_alphabet in Hg. bool_to_prop.
  repeat match goal with H : good_char _ = true |- _ => apply good_char_i8 in H as (? & ? & ?) end. unfold chr, alphabet_of.
  destruct (Z_lt_dec d 62) as [Hlt|Hge].
  - rewrite app_nth1 by (change (length alnum) with 62%nat; lia). destruct (alnum_digits d) as [Hc Hv]; [lia|]. split; [done|]. split.
    + intros E. rewrite E in Hv. congruence.
    + apply char_value_alnum; [lia|done].
  - assert (Hn : forall c, good_char c = true -> char_value (-1) (-1) c = None) by (intros; by apply good_char_i8).
    assert (d = 62 \/ d = 63) as [-> | ->] by lia; [change (nth _ _ _) with plus|change (nth _ _ _) with slash].
    all: split; [done|]; split; [congruence|].
    all: unfold char_value in *; repeat case_match; try done; bool_to_prop; try congruence.
Qed.

Lemma good_mk : i8 mk = mk /\ 0 <= mk /\ char_value plus slash mk = None /\ char_value plus slash (-1) = None.
Proof using Hgood.
  pose proof Hgood as Hg. unfold good_alphabet in Hg. bool_to_prop.
  repeat match goal with H : good_char _ = true |- _ => apply good_char_i8 in H as (? & ? & ?) end.
  split_and!; [done|lia| |]; unfold char_value in *; repeat case_match; try done; bool_to_prop; try congruence; lia.
Qed.

(** The step of [read_quad]. *)
Lemma read_quad_value n i c v inp :
  0 <= c -> char_value plus slash c = Some v ->
  read_quad (S n) i mk plus slash (c :: inp) =
    ('(byte, index, inp) ← read_quad n (i + 1) mk plus slash inp; Some (v :: byte, index, inp)).
Proof using Hgood.
  intros Hc Hv. cbn [read_quad is_get]. destruct good_mk as (-> & _ & Hmk & _). destruct (Z.eqb_spec c mk) as [->|_]; [congruence|]. by rewrite Hv.
Qed.

Lemma read_quad_mk n i inp : read_quad (S n) i mk plus slash (mk :: inp) = Some ([], Some i, inp).
Proof using Hgood. cbn [read_quad is_get]. destruct good_mk as (-> & _). by rewrite Z.eqb_refl. Qed.

Lemma read_quad_bad n i c inp : c <> mk -> char_value plus slash c = None -> read_quad (S n) i mk plus slash (c :: inp) = None.
Proof using Hgood.
  intros Hc Hv. cbn [read_quad is_get]. destruct good_mk as (-> & _). destruct (Z.eqb_spec c mk); [done|]. by rewrite Hv.
Qed.

Lemma read_quad_end n i : read_quad (S n) i mk plus slash [] = None.
Proof using Hgood.
  cbn [read_quad is_get]. destruct good_mk as (-> & Hp & _ & Hv). destruct (Z.eqb_spec (-1) mk); [lia|]. by rewrite Hv.
Qed.

Lemma join_bytes a b c :
  is_byte a -> is_byte b -> is_byte c ->
  u8 (Z.shiftl (a / 4) 2 + Z.shiftr (a mod 4 * 16 + b / 16) 4) = a /\
  u8 (Z.shiftl (Z.land (a mod 4 * 16 + b / 16) 15) 4 + Z.shiftr (b mod 16 * 4 + c / 64) 2) = b /\
  u8 (Z.shiftl (Z.land (b mod 16 * 4 + c / 64) 3) 6 + c mod 64) = c.
Proof.
  unfold is_byte. intros Ha Hb Hc. destruct (unsigned_bits (a mod 4 * 16 + b / 16)) as (_ & -> & _), (unsigned_bits (b mod 16 * 4 + c / 64)) as (-> & _).
  rewrite !Z.shiftl_mul_pow2, !Z.shiftr_div_pow2 by lia. powers. unfold wrapu. change (2 ^ 8) with 256. split_and!; Z.div_mod_to_equations; lia.
Qed.

Abbreviation ALPHA := (alphabet_of plus slash).

Lemma decoding_loop_b64 s : Forall is_byte s -> forall fuel, (length (b64 ALPHA mk s) <= fuel)%nat -> decoding_loop fuel mk plus slash (b64 ALPHA mk s) = Some (s, true).
Proof using Hgood.
  destruct good_mk as (Em & Hm0 & _). assert (is_byte 0) by (unfold is_byte; lia).
  induction s as [|a|a b|a b c s IH] using triples_ind; intros Hs fuel Hf.
  - by destruct fuel.
  - pose proof Hs as Hs'. bytes. destruct fuel as [|fuel]; [cbn in Hf; lia|]. cbn [b64 decoding_loop is_peek].
    destruct (chr_value (a / 4)) as (Hc0 & _ & Hv0); [lia|]. destruct (chr_value (a mod 4 * 16)) as (Hc1 & _ & Hv1); [lia|].
    rewrite (proj2 (Z.ltb_ge _ _)) by lia. rewrite (read_quad_value _ _ _ _ _ (proj1 Hc0) Hv0), (read_quad_value _ _ _ _ _ (proj1 Hc1) Hv1), read_quad_mk.
    cbn -[Z.land Z.shiftl Z.shiftr wrapu decoding_loop]. rewrite Em, (Z.eqb_refl mk).
    change ((0 + 1 + 1 =? 0) || (0 + 1 + 1 =? 1)) with false. cbn -[Z.land Z.shiftl Z.shiftr wrapu decoding_loop].
    destruct (join_bytes a 0 0) as (Ej & _); [unfold is_byte in *; lia..|]. rewrite Z.add_0_r in Ej. rewrite Ej. by destruct fuel.
  - pose proof Hs as Hs'. bytes. destruct fuel as [|fuel]; [cbn in Hf; lia|]. cbn [b64 decoding_loop is_peek].
    destruct (chr_value (a / 4)) as (Hc0 & _ & Hv0); [lia|]. destruct (chr_value (a mod 4 * 16 + b / 16)) as (Hc1 & _ & Hv1); [lia|].
    destruct (chr_value (b mod 16 * 4)) as (Hc2 & _ & Hv2); [lia|].
    rewrite (proj2 (Z.ltb_ge _ _)) by lia.
    rewrite (read_quad_value _ _ _ _ _ (proj1 Hc0) Hv0), (read_quad_value _ _ _ _ _ (proj1 Hc1) Hv1), (read_quad_value _ _ _ _ _ (proj1 Hc2) Hv2), read_quad_mk.
    cbn -[Z.land Z.shiftl Z.shiftr wrapu decoding_loop]. change ((0 + 1 + 1 + 1 =? 0) || (0 + 1 + 1 + 1 =? 1)) with false.
    change (0 + 1 + 1 + 1 =? 2) with false. cbn -[Z.land Z.shiftl Z.shiftr wrapu decoding_loop].
    destruct (join_bytes a b 0) as (Ej & Ej1 & _); [unfold is_byte in *; lia..|]. rewrite Z.add_0_r in Ej1. rewrite Ej, Ej1. by destruct fuel.
  - pose proof Hs as Hs'. bytes. destruct fuel as [|fuel]; [cbn in Hf; lia|]. cbn [b64 length] in Hf. cbn [b64 decoding_loop is_peek].
    destruct (chr_value (a / 4)) as (Hc0 & _ & Hv0); [lia|]. destruct (chr_value (a mod 4 * 16 + b / 16)) as (Hc1 & _ & Hv1); [lia|].
    destruct (chr_value (b mod 16 * 4 + c / 64)) as (Hc2 & _ & Hv2); [lia|]. destruct (chr_value (c mod 64)) as (Hc3 & _ & Hv3); [lia|].
    rewrite (proj2 (Z.ltb_ge _ _)) by lia.
    rewrite (read_quad_value _ _ _ _ _ (proj1 Hc0) Hv0), (read_quad_value _ _ _ _ _ (proj1 Hc1) Hv1), (read_quad_value _ _ _ _ _ (proj1 Hc2) Hv2), (read_quad_value _ _ _ _ _ (proj1 Hc3) Hv3).
    cbn -[Z.land Z.shiftl Z.shiftr wrapu decoding_loop b64].
    destruct (join_bytes a b c) as (Ej & Ej1 & Ej2); [unfold is_byte in *; lia..|]. rewrite Ej, Ej1, Ej2. by rewrite IH by (done || lia).
Qed.

(** Induction by groups of four. *)
Lemma quads_ind (P : list Z -> Prop) :
  P [] -> (forall a, P [a]) -> (forall a b, P [a; b]) -> (forall a b c, P [a; b; c]) -> (forall a b c d s, P s -> P (a :: b :: c :: d :: s)) -> forall s, P s.
Proof.
  intros H0 H1 H2 H3 H4. assert (Hall : forall n s, (length s <= n)%nat -> P s); [|by intros s; apply (Hall (length s))].
  induction n as [|n IH]; intros [|a [|b [|c [|d s]]]] Hl; cbn [length] in Hl; try lia; auto. apply H4, IH. lia.
Qed.

Abbreviation value c := (char_value plus slash c).

(** A character is the padding, a digit or neither. *)
Lemma char_cases c : c = mk \/ (c <> mk /\ exists v, value c = Some v) \/ (c <> mk /\ value c = None).
Proof. destruct (Z.eq_dec c mk); [by left|]. right. destruct (value c) as [v|]; [left; eauto|by right]. Qed.

Lemma peek_end s : Forall is_byte s -> (is_peek s <? 0) = bool_decide (s = []).
Proof. destruct s as [|c s]; [done|]. intros [Hc _]%Forall_cons. rewrite bool_decide_false by done. apply Z.ltb_ge. cbn [is_peek]. unfold is_byte in Hc. lia. Qed.

Lemma decoding_end fuel : decoding_loop fuel mk plus slash [] = Some ([], true).
Proof. by destruct fuel. Qed.

(** Evaluate the tests on the index of a character. *)
Ltac index_tests :=
  repeat match goal with
  | |- context [?a =? ?b] => let r := eval vm_compute in (a =? b) in lazymatch r with true => idtac | false => idtac end; change (a =? b) with r
  end; cbn [mbind option_bind orb].

(** Read the next character, which is the padding, a digit or neither. *)
Ltac next_char c :=
  let E := fresh "E" in let v := fresh "v" in
  destruct (char_cases c) as [->|[[? [v E]]|[? E]]];
  [rewrite read_quad_mk|rewrite (read_quad_value _ _ c v) by (done || (unfold is_byte in *; lia))|rewrite read_quad_bad by done];
  cbn [mbind option_bind]; index_tests.

Lemma decoding_loop_strict l :
  Forall is_byte l -> forall fuel, (length l <= fuel)%nat -> exists out, decoding_loop fuel mk plus slash l = Some (out, well_formed mk plus slash l).
Proof using Hgood.
  destruct good_mk as (Em & Hm0 & Vm & _). assert (Hneg : (-1 =? mk) = false) by (apply Z.eqb_neq; lia). induction l as [|a|a b|a b c|a b c d l IH] using quads_ind; intros Hl fuel Hf;
    [exists []; by rewrite decoding_end|destruct fuel as [|fuel]; [cbn in Hf; lia|]..]; cbn [decoding_loop]; rewrite peek_end by done; rewrite bool_decide_false by done.
  all: repeat match goal with H : Forall is_byte (_ :: _) |- _ => apply Forall_cons in H as [? H] end; cbn [well_formed length] in *.
  - next_char a; rewrite ?read_quad_end; by eexists.
  - next_char a; [by eexists| |by eexists]. next_char b; rewrite ?read_quad_end; by eexists.
  - next_char a; [by eexists| |by eexists]. next_char b; [by eexists| |by eexists]. next_char c; cbn [is_get]; rewrite ?Em, ?Hneg, ?read_quad_end; by eexists.
  - next_char a; [rewrite Vm; by eexists| |rewrite E; by eexists]. rewrite E. next_char b; [rewrite Vm; by eexists| |rewrite E0; by eexists].
    rewrite E0. cbn [andb]. destruct (char_cases c) as [->|[[Hc [v1 E1]]|[Hc E1]]].
    + rewrite read_quad_mk. cbn [mbind option_bind is_get]. index_tests. rewrite Em, (Z.eqb_refl mk). destruct (Z.eqb_spec d mk) as [->|Hd]; [|by eexists].
      rewrite peek_end by done. cbn [andb]. case_bool_decide; [subst; rewrite decoding_end|]; by eexists.
    + rewrite (read_quad_value _ _ c v1) by (done || (unfold is_byte in *; lia)). rewrite (proj2 (Z.eqb_neq c mk)), E1 by done. cbn [andb].
      next_char d; [|rewrite (proj2 (Z.eqb_neq d mk)), E2 by done; cbn [andb]|rewrite (proj2 (Z.eqb_neq d mk)), E2 by done; by eexists].
      * rewrite (Z.eqb_refl mk), peek_end by done. case_bool_decide; [subst; rewrite decoding_end|]; by eexists.
      * cbn [read_quad mbind option_bind]. destruct (IH Hl fuel ltac:(lia)) as (out & ->). by eexists.
    + rewrite read_quad_bad by done. cbn [mbind option_bind]. rewrite (proj2 (Z.eqb_neq c mk)), E1 by done. by eexists.
Qed.

End Alphabet.

(** ** The decoder of arrays *)

Lemma six_basis d : 0 <= d < 64 -> six (chr basis_64 d) = d.
Proof.
  intros Hd. set (f := fun d => six (chr basis_64 d) =? d). apply Z.eqb_eq. change (f d = true).
  apply (below_cases 64); [vm_compute; reflexivity|done].
Qed.

Lemma shift_in x y k m : 0 <= k -> 0 <= m -> 0 <= y -> y / 2 ^ m < 2 ^ k -> Z.lor (Z.shiftl x k) (Z.shiftr y m) = x * 2 ^ k + y / 2 ^ m.
Proof. intros Hk Hm Hy Hl. rewrite Z.shiftr_div_pow2 by done. apply lor_fields; [done|]. split; [apply Z.div_pos; lia|done]. Qed.

(** The bytes that the characters of [a], [b] and [c] give. *)
Lemma join_six a b c :
  is_byte a -> is_byte b -> is_byte c ->
  u8 (Z.lor (Z.shiftl (a / 4) 2) (Z.shiftr (a mod 4 * 16 + b / 16) 4)) = a /\
  u8 (Z.lor (Z.shiftl (a mod 4 * 16 + b / 16) 4) (Z.shiftr (b mod 16 * 4 + c / 64) 2)) = b /\
  u8 (Z.lor (Z.shiftl (b mod 16 * 4 + c / 64) 6) (c mod 64)) = c.
Proof.
  unfold is_byte. intros Ha Hb Hc. rewrite !shift_in, lor_fields by (powers; lia || (Z.div_mod_to_equations; lia)). powers.
  unfold wrapu. change (2 ^ 8) with 256. split_and!; Z.div_mod_to_equations; lia.
Qed.

(** How many characters encode [s], without the padding. *)
Definition code_length (s : list Z) : Z := (4 * Z.of_nat (length s) + 2) / 3.

Lemma count_code_b64 s rest :
  Forall is_byte s -> count_code (b64 basis_64 61 s ++ 0 :: rest) = Some (code_length s).
Proof.
  induction s as [|a|a b|a b c s IH] using triples_ind; intros Hs; [done|..]; bytes; cbn [b64 app count_code]; rewrite !six_basis by lia.
  - rewrite !(proj2 (Z.leb_le _ 63)) by lia. done.
  - rewrite !(proj2 (Z.leb_le _ 63)) by lia. done.
  - rewrite !(proj2 (Z.leb_le _ 63)), IH by (done || lia). cbn [mbind option_bind]. f_equal. unfold code_length. cbn [length].
    replace (4 * Z.of_nat (S (S (S (length s)))) + 2) with (4 * Z.of_nat (length s) + 2 + 4 * 3) by lia. rewrite Z.div_add by lia. lia.
Qed.

Ltac length_tests :=
  repeat match goal with
  | |- context [?a <? ?b] => let r := eval vm_compute in (a <? b) in lazymatch r with true => idtac | false => idtac end; change (a <? b) with r
  end.

Lemma decode_groups_b64 s rest : forall fuel,
  Forall is_byte s -> (length s <= fuel)%nat ->
  decode_groups fuel (b64 basis_64 61 s ++ 0 :: rest) (code_length s) = Some (s ++ [0]).
Proof.
  assert (H0 : is_byte 0) by (unfold is_byte; lia).
  induction s as [|a|a b|a b c s IH] using triples_ind; intros fuel Hs Hf.
  - by destruct fuel.
  - pose proof Hs as Hs'. bytes. destruct (join_six a 0 0) as (E0 & _); [unfold is_byte; lia..|]. rewrite Z.add_0_r in E0.
    change (code_length [a]) with 2.
    destruct fuel; cbn [b64 app decode_groups]; length_tests; cbn [lookup list_lookup mbind option_bind app]; rewrite !six_basis, E0 by lia; done.
  - pose proof Hs as Hs'. bytes. destruct (join_six a b 0) as (E0 & E1 & _); [unfold is_byte; lia..|]. rewrite Z.add_0_r in E1.
    change (code_length [a; b]) with 3.
    destruct fuel; cbn [b64 app decode_groups]; length_tests; cbn [lookup list_lookup mbind option_bind app]; rewrite !six_basis, E0, E1 by lia; done.
  - pose proof Hs as Hs'. bytes. destruct (join_six a b c) as (E0 & E1 & E2); [unfold is_byte; lia..|].
    cbn [length] in Hf. destruct fuel as [|fuel]; [lia|].
    assert (Hn : code_length (a :: b :: c :: s) = code_length s + 4).
    { unfold code_length. cbn [length]. replace (4 * Z.of_nat (S (S (S (length s)))) + 2) with (4 * Z.of_nat (length s) + 2 + 4 * 3) by lia. by rewrite Z.div_add by lia. }
    assert (Hp : 0 <= code_length s) by (apply Z.div_pos; lia). rewrite Hn. cbn [b64 app decode_groups lookup list_lookup mbind option_bind drop].
    rewrite !six_basis, E0, E1, E2 by lia. destruct (Z.ltb_spec 4 (code_length s + 4)) as [Hlt|Hge].
    + rewrite Z.add_simpl_r, IH by (done || lia). done.
    + assert (Hz : code_length s = 0) by lia. assert (s = []) as ->.
      { destruct s as [|x s]; [done|]. exfalso. unfold code_length in Hz. cbn [length] in Hz. Z.div_mod_to_equations. lia. }
      done.
Qed.

Lemma code_length_le s : code_length s <= Z.of_nat (length (b64 basis_64 61 s)).
Proof. rewrite b64_length. unfold code_length. Z.div_mod_to_equations. lia. Qed.

(** [nbytesdecoded] is the length of what was encoded. *)
Lemma decoded_length s : (code_length s + 3) / 4 * 3 - Z.land (4 - code_length s) 3 = Z.of_nat (length s).
Proof. destruct (unsigned_bits (4 - code_length s)) as (-> & _). unfold code_length. Z.div_mod_to_equations. lia. Qed.

Lemma Base64DecodeFast_b64 s :
  Forall is_byte s -> codec_size (Z.of_nat (length s)) -> Base64DecodeFast (b64 basis_64 61 s) = Some s.
Proof.
  intros Hs Hn. pose proof (code_length_le s) as Hc. assert (Hp : 0 <= code_length s) by (apply Z.div_pos; lia).
  pose proof (b64_length basis_64 61 s) as Hl. unfold codec_size in Hn. unfold Base64DecodeFast, Base64DecodeFast_ptr.
  pose proof (count_code_b64 s [] Hs) as Hcount.
  pose proof (decode_groups_b64 s [] (length (b64 basis_64 61 s ++ [0])) Hs) as Hdec.
  set (t := b64 basis_64 61 s) in *. rewrite resize_new by lia. cbn [mbind option_bind]. unfold Base64decode.
  rewrite Hcount. cbn [mbind option_bind]. rewrite i32_small by (unfold INT_MIN; lia).
  rewrite cint_ok by (unfold INT_MIN; lia). cbn [mbind option_bind]. rewrite Z.quot_div_nonneg by lia.
  rewrite cint_ok by (unfold INT_MIN, INT_MAX in *; Z.div_mod_to_equations; lia). cbn [mbind option_bind].
  assert (Hlen : (length s <= length t)%nat) by (Z.div_mod_to_equations; lia).
  rewrite Hdec by (rewrite length_app; lia). cbn [mbind option_bind].
  destruct (blit_start (s ++ [0]) (Z.to_nat (Z.of_nat (length t) + 1))) as (rest & E); [rewrite length_app; cbn [length]; lia|].
  rewrite E. cbn [mbind option_bind]. rewrite decoded_length, <- app_assoc. apply resize_app.
Qed.

(** ** The properties *)

(** The array codec loses nothing.  Every byte string for which the sizes
    are [int]s is encoded by [Base64EncodeFast] as by [Base64Encoding], inside
    its buffer, and [Base64DecodeFast] gives it back, inside its buffer. *)
Theorem base64_fast_roundtrip (s : list Z) :
  Forall is_byte s -> codec_size (Z.of_nat (length s)) ->
  exists t, Base64EncodeFast s = Some t /\ Base64Encoding s 61 basis_64 = Some t /\ Base64DecodeFast t = Some s.
Proof.
  intros Hs Hn. exists (b64 basis_64 61 s). split; [by apply Base64EncodeFast_b64|]. split; [|by apply Base64DecodeFast_b64].
  apply encoding_loop_b64; [vm_compute; lia|done|lia].
Qed.

Lemma base64_fast_roundtrip_witness :
  let s := [0; 255; 128; 65; 10] in
  Forall is_byte s /\ codec_size 5 /\ exists t, Base64EncodeFast s = Some t /\ t = lit "AP+AQQo=" /\ Base64DecodeFast t = Some s.
Proof.
  cbv zeta. set (s := _ : list Z). assert (Hs : Forall is_byte s) by (repeat constructor; discriminate).
  split; [exact Hs|]. split; [discriminate|]. destruct (base64_fast_roundtrip s Hs) as (t & E & _ & Ed); [discriminate|].
  exists t. split; [exact E|]. split; [|exact Ed]. vm_compute in E. injection E as <-. reflexivity.
Defined.

(** The stream decoder accepts exactly the well-formed texts, and decodes
    what was encoded.  For every pair of characters that completes the alphabet
    and every padding character, on every input the decoder returns, without an
    exception exactly when the input consists of groups of four digits, the
    last of which may end with one or two padding characters; and it gives back
    every byte string that [Base64Encoding] encoded with the same alphabet. *)
Theorem base64_stream_strict (makeupChar plus slash : Z) (s : list Z) :
  good_alphabet makeupChar plus slash = true -> Forall is_byte s ->
  (exists out, Base64DecodingEx s makeupChar plus slash = Some (out, well_formed makeupChar plus slash s)) /\
  (exists t, Base64Encoding s makeupChar (alphabet_of plus slash) = Some t /\ Base64DecodingEx t makeupChar plus slash = Some (s, true)).
Proof.
  intros Hg Hs. split; [by apply decoding_loop_strict|]. exists (b64 (alphabet_of plus slash) makeupChar s). split.
  - apply encoding_loop_b64; [unfold alphabet_of; rewrite length_app; change (length alnum) with 62%nat; cbn [length]; lia|done|lia].
  - by apply decoding_loop_b64.
Qed.

Lemma base64_stream_strict_witness :
  good_alphabet 61 45 95 = true /\
  (exists out, Base64DecodingEx (lit "Zm9v=mE=") 61 45 95 = Some (out, false)) /\
  exists t, Base64Encoding (lit "Zm9v=mE=") 61 (alphabet_of 45 95) = Some t /\ Base64DecodingEx t 61 45 95 = Some (lit "Zm9v=mE=", true).
Proof.
  split; [reflexivity|]. apply (base64_stream_strict 61 45 95 (lit "Zm9v=mE=")); [reflexivity|]. repeat constructor; discriminate.
Defined.

(** [Base64DecodeFast] with a size reads on to the first character outside the
    alphabet, and writes behind its buffer. *)
Lemma Base64DecodeFast_ignores_size : Base64DecodeFast_ptr (lit "AAAAAAAAAAAAAAAA" ++ [0]) 4 = None.
Proof. reflexivity. Qed.
