(* ===== verification/Json.v ===== *)
(** * JSON

    Sources: json.h, json_string_enhanced.cpp, the quoting of
    string_conversion.cpp and [UnicodeToUtf8] of string_utf8.cpp, under
    src/agent_engine/util/legacy/.

    The parser and the printer on strings, and what the parser returns.  A position in a string is the list
    of the characters from there on.  Exceptions are outcomes.  The values are
    those the parser makes and the printer takes; a [std::map] is the list of
    its entries in the order of their keys.  Floating-point values, which
    [snprintf] prints, are left out. *)

From S2P Require Import Prelude CString.
From Stdlib Require Import Sorted.

(** ** Outcomes *)

(** A [JsonNothingError] is a [JsonParserError] as well, which no handler here
    catches. *)
Inductive exn := JsonParserError | JsonNothingError | BadQuoteString.

(** [Undef] has no source: the fuel is used up, or a character before the
    beginning is read. *)
Inductive outcome (A : Type) :=
| Ret (x : A)
| Throw (e : exn)
| Undef.
Arguments Ret {A} _.
Arguments Throw {A} _.
Arguments Undef {A}.

#[global] Instance outcome_ret : MRet outcome := @Ret.
#[global] Instance outcome_bind : MBind outcome := fun A B f m =>
  match m with Ret x => f x | Throw e => Throw e | Undef => Undef end.

Definition trueThenThrow (test : bool) : outcome () := if test then Throw JsonParserError else Ret ().

(** ** Values *)

Inductive IntType := Uint8 | Int8 | Uint16 | Int16 | Uint32 | Int32 | Uint64 | Int64.

#[local] Unset Elimination Schemes.

(** What an [Any] holds. *)
Inductive Any :=
| AVoid
| ABool (b : bool)
| AString (s : list Z)
| ANumber (s : list Z)                        (* a [JsonNumber] *)
| AInt (type : IntType) (z : Z)
| AVector (v : list Any)
| AMap (m : list (list Z * Any)).

#[local] Set Elimination Schemes.

Lemma Any_ind (P : Any -> Prop) :
  P AVoid -> (forall b, P (ABool b)) -> (forall s, P (AString s)) -> (forall s, P (ANumber s)) -> (forall type z, P (AInt type z)) ->
  (forall v, Forall P v -> P (AVector v)) -> (forall m, Forall (fun kv => P kv.2) m -> P (AMap m)) -> forall a, P a.
Proof.
  intros H1 H2 H3 H4 H5 H6 H7. fix IH 1. intros [|b|s|s|type z|v|m]; [exact H1|apply H2|apply H3|apply H4|apply H5|apply H6|apply H7].
  - induction v as [|x v IHv]; constructor; [apply IH|exact IHv].
  - induction m as [|[k x] m IHm]; constructor; [apply IH|exact IHm].
Qed.

Abbreviation JsonArray := (list Any).
Abbreviation JsonMap := (list (list Z * Any)).

(** The order of [std::string]. *)
Fixpoint str_lt (a b : list Z) : bool :=
  match a, b with
  | _, [] => false
  | [], _ :: _ => true
  | x :: a, y :: b => (x <? y) || ((x =? y) && str_lt a b)
  end.

(** [std::map::insert] does nothing when the key is there. *)
Fixpoint map_insert (k : list Z) (v : Any) (m : JsonMap) : JsonMap :=
  match m with
  | [] => [(k, v)]
  | (k', v') :: m' =>
      if str_lt k k' then (k, v) :: m
      else if bool_decide (k = k') then m
      else (k', v') :: map_insert k v m'
  end.

(** [insPos->second = v] *)
Fixpoint map_assign (k : list Z) (v : Any) (m : JsonMap) : JsonMap :=
  match m with
  | [] => []
  | (k', v') :: m => if bool_decide (k = k') then (k', v) :: m else (k', v') :: map_assign k v m
  end.

(** ** Characters *)

Abbreviation QUOTE := 34.
Abbreviation COMMA := 44.
Abbreviation PLUS := 43.
Abbreviation MINUS := 45.
Abbreviation DOT := 46.
Abbreviation SLASH := 47.
Abbreviation STAR := 42.
Abbreviation COLON := 58.
Abbreviation LBRACKET := 91.
Abbreviation BACKSLASH := 92.
Abbreviation RBRACKET := 93.
Abbreviation LBRACE := 123.
Abbreviation RBRACE := 125.
Abbreviation LF := 10.
Abbreviation CR := 13.
Abbreviation TAB := 9.
Abbreviation SPACE := 32.

(** ** Quoting *)

(** The letter of an escaped character. *)
Definition escape_of (c : Z) : option Z :=
  if c =? QUOTE then Some QUOTE
  else if c =? BACKSLASH then Some BACKSLASH
  else if c =? SLASH then Some SLASH
  else if c =? 8 then Some 98
  else if c =? 12 then Some 102
  else if c =? LF then Some 110
  else if c =? CR then Some 114
  else if c =? TAB then Some 116
  else None.

(** The loop of [QuoteString]: [pending] is what is between [last] and [it]. *)
Fixpoint quote_loop (text pending ret : list Z) : list Z :=
  match text with
  | [] => ret ++ pending
  | c :: text =>
      match escape_of c with
      | None => quote_loop text (pending ++ [c]) ret
      | Some escape => quote_loop text [] (ret ++ pending ++ [BACKSLASH; escape])
      end
  end.

Definition QuoteString (textToEscape ret : list Z) : list Z := quote_loop textToEscape [] ret.

(** The character of an escape letter. *)
Definition unescape_of (byte : Z) : option Z :=
  if byte =? QUOTE then Some QUOTE
  else if byte =? BACKSLASH then Some BACKSLASH
  else if byte =? SLASH then Some SLASH
  else if byte =? 98 then Some 8
  else if byte =? 102 then Some 12
  else if byte =? 110 then Some LF
  else if byte =? 114 then Some CR
  else if byte =? 116 then Some TAB
  else None.

(** A hexadecimal digit added to [data]. *)
Definition hex_shift (data b : Z) : option Z :=
  if (48 <=? b) && (b <=? 57) then Some (u16 (Z.lor (Z.shiftl data 4) (Z.land 0xF (b - 48))))
  else if (97 <=? b) && (b <=? 102) then Some (u16 (Z.lor (Z.shiftl data 4) (Z.land 0xF (b - 97 + 10))))
  else if (65 <=? b) && (b <=? 70) then Some (u16 (Z.lor (Z.shiftl data 4) (Z.land 0xF (b - 65 + 10))))
  else None.

Fixpoint read_hex (digits : list Z) (data : Z) : outcome Z :=
  match digits with
  | [] => Ret data
  | b :: digits => match hex_shift data b with Some data => read_hex digits data | None => Throw BadQuoteString end
  end.

(** The constants are signed [char]s. *)
Definition UTF8_3BYTE_PREFIX : Z := i8 0xE0.
Definition UTF8_2BYTE_PREFIX : Z := i8 0xC0.
Definition UTF8_BYTE_PREFIX : Z := i8 0x80.

Definition UnicodeToUtf8 (unicode : Z) : list Z :=
  if unicode <=? 0x7F then [unicode]
  else if unicode <=? 0x7FF then
    [u8 (Z.lor (Z.shiftr (Z.land unicode 0x7C0) 6) UTF8_2BYTE_PREFIX); u8 (Z.lor (Z.land unicode 0x3F) UTF8_BYTE_PREFIX)]
  else
    [u8 (Z.lor (Z.shiftr (Z.land unicode 0xF000) 12) UTF8_3BYTE_PREFIX); u8 (Z.lor (Z.shiftr (Z.land unicode 0x0FC0) 6) UTF8_BYTE_PREFIX);
     u8 (Z.lor (Z.land unicode 0x003F) UTF8_BYTE_PREFIX)].

(** [UnquoteString]: what it appends to [ret], and where it stops. *)
Fixpoint UnquoteString (escaped : bool) (inp ret : list Z) : outcome (list Z * list Z) :=
  match inp with
  | [] => if escaped then Throw BadQuoteString else Ret (ret, [])
  | byte :: rest =>
      if escaped then
        if byte =? 117 then
          match rest with
          | b0 :: b1 :: b2 :: b3 :: rest =>
              data ← read_hex [b0; b1; b2; b3] 0;
              UnquoteString false rest (ret ++ UnicodeToUtf8 data)
          | _ => Throw BadQuoteString
          end
        else
          match unescape_of byte with
          | Some byte => UnquoteString false rest (ret ++ [byte])
          | None => Throw BadQuoteString
          end
      else if byte =? BACKSLASH then UnquoteString true rest ret
      else if byte =? QUOTE then Ret (ret, inp)
      else UnquoteString false rest (ret ++ [byte])
  end.

(** ** Spaces and comments *)

Fixpoint SkipMultiLineComment (previsstar : bool) (inp : list Z) : outcome (list Z) :=
  match inp with
  | [] => Throw JsonParserError
  | b :: inp =>
      if b =? STAR then SkipMultiLineComment true inp
      else if previsstar && (b =? SLASH) then Ret inp
      else SkipMultiLineComment false inp
  end.

Fixpoint SkipSingleLineComment (inp : list Z) : list Z :=
  match inp with
  | [] => []
  | b :: inp => if (b =? CR) || (b =? LF) then inp else SkipSingleLineComment inp
  end.

Definition SkipComment (inp : list Z) : outcome (list Z) :=
  match inp with
  | [] => Throw JsonParserError
  | b :: inp =>
      if b =? STAR then SkipMultiLineComment false inp
      else if b =? SLASH then Ret (SkipSingleLineComment inp)
      else Throw JsonParserError
  end.

Definition is_blank (b : Z) : bool := (b =? SPACE) || (b =? TAB) || (b =? CR) || (b =? LF).

Fixpoint skip_loop (fuel : nat) (inp : list Z) : outcome (list Z) :=
  match inp with
  | [] => Ret []
  | b :: rest =>
      match fuel with
      | 0%nat => Undef
      | S fuel =>
          if is_blank b then skip_loop fuel rest
          else if b =? SLASH then rest ← SkipComment rest; skip_loop fuel rest
          else Ret inp
      end
  end.

Definition SkipSpace (inp : list Z) : outcome (list Z) := skip_loop (length inp) inp.

Definition SkipExact (str inp : list Z) : outcome (list Z) :=
  if bool_decide (take (length str) inp = str) then Ret (drop (length str) inp) else Throw JsonParserError.

(** ** The parser *)

Definition ParseJsonString (inp : list Z) : outcome (list Z * list Z) :=
  inp ← SkipExact [QUOTE] inp;
  '(ret, inp) ← (match UnquoteString false inp [] with Throw BadQuoteString => Throw JsonParserError | r => r end);
  inp ← SkipExact [QUOTE] inp;
  Ret (ret, inp).

(** The loop of [ParseJsonNum]: [s] is what is between [start] and [pos]. *)
Fixpoint num_loop (signOk dotOk eOk ed : bool) (inp s : list Z) : outcome (list Z * list Z) :=
  match inp with
  | [] => Ret (s, [])
  | byte :: rest =>
      if (byte =? PLUS) || (byte =? MINUS) then
        _ ← trueThenThrow (negb signOk);
        num_loop false (negb ed) false ed rest (s ++ [byte])
      else if byte =? DOT then
        _ ← trueThenThrow (negb dotOk);
        num_loop false false eOk ed rest (s ++ [byte])
      else if (byte =? 101) || (byte =? 69) then
        _ ← trueThenThrow (negb eOk);
        num_loop true false false true rest (s ++ [byte])
      else if isdigit byte then num_loop false dotOk (negb ed) ed rest (s ++ [byte])
      else Ret (s, inp)
  end.

Definition ParseJsonNum (inp : list Z) : outcome (Any * list Z) :=
  '(s, inp) ← num_loop true true false false inp [];
  match last s, head s with
  | Some last, Some first =>
      _ ← trueThenThrow ((last =? 101) || (last =? 69) || (last =? PLUS) || (last =? MINUS) ||
                         ((length s =? 2)%nat && (last =? DOT) && ((first =? PLUS) || (first =? MINUS))));
      Ret (ANumber s, inp)
  | _, _ => Undef
  end.

(** [catch (JsonNothingError &)] *)
Definition catch_nothing {A} (m : outcome A) : outcome A :=
  match m with Throw JsonNothingError => Throw JsonParserError | _ => m end.

Definition ParseJsonArray (loop : list Z -> JsonArray -> bool -> outcome (JsonArray * list Z)) (inp : list Z) : outcome (JsonArray * list Z) :=
  inp ← SkipExact [LBRACKET] inp;
  inp ← SkipSpace inp;
  loop inp [] false.

Definition ParseJsonMap (loop : list Z -> JsonMap -> nat -> bool -> outcome (JsonMap * list Z)) (inp : list Z) : outcome (JsonMap * list Z) :=
  inp ← SkipExact [LBRACE] inp;
  inp ← SkipSpace inp;
  loop inp [] 0%nat false.

(** The first character of a number. *)
Definition starts_number (b : Z) : bool := (b =? PLUS) || (b =? MINUS) || (b =? DOT) || isdigit b.

(** [ParseJson] with the loops of [ParseJsonArray] and [ParseJsonMap]. *)
Fixpoint ParseJson (fuel : nat) (inp : list Z) : outcome (Any * list Z) :=
  match fuel with
  | 0%nat => Undef
  | S fuel =>
      inp ← SkipSpace inp;
      match inp with
      | [] => Throw JsonNothingError
      | byte :: _ =>
          if byte =? LBRACKET then '(v, inp) ← ParseJsonArray (array_loop fuel) inp; Ret (AVector v, inp)
          else if byte =? LBRACE then '(m, inp) ← ParseJsonMap (map_loop fuel) inp; Ret (AMap m, inp)
          else if byte =? QUOTE then '(s, inp) ← ParseJsonString inp; Ret (AString s, inp)
          else if byte =? 116 then inp ← SkipExact (lit "true") inp; Ret (ABool true, inp)
          else if byte =? 102 then inp ← SkipExact (lit "false") inp; Ret (ABool false, inp)
          else if byte =? 110 then inp ← SkipExact (lit "null") inp; Ret (AVoid, inp)
          else if starts_number byte then ParseJsonNum inp
          else Throw JsonParserError
      end
  end
with array_loop (fuel : nat) (inp : list Z) (ret : JsonArray) (expectComma : bool) : outcome (JsonArray * list Z) :=
  match fuel with
  | 0%nat => Undef
  | S fuel =>
      match inp with
      | [] => Throw JsonParserError
      | byte :: rest =>
          if byte =? COMMA then
            _ ← trueThenThrow (negb expectComma);
            inp ← SkipSpace rest;
            array_loop fuel inp ret false
          else if byte =? RBRACKET then
            _ ← trueThenThrow (negb expectComma && (0 <? length ret)%nat);
            Ret (ret, rest)
          else
            _ ← trueThenThrow expectComma;
            '(v, inp) ← ParseJson fuel inp;
            inp ← SkipSpace inp;
            array_loop fuel inp (ret ++ [v]) true
      end
  end
with map_loop (fuel : nat) (inp : list Z) (ret : JsonMap) (sizeBeforeIns : nat) (expectComma : bool) : outcome (JsonMap * list Z) :=
  match fuel with
  | 0%nat => Undef
  | S fuel =>
      match inp with
      | [] => Throw JsonParserError
      | byte :: rest =>
          if byte =? RBRACE then
            _ ← trueThenThrow (negb expectComma && (0 <? length ret)%nat);
            Ret (ret, rest)
          else if byte =? COMMA then
            _ ← trueThenThrow (negb expectComma);
            inp ← SkipSpace rest;
            map_loop fuel inp ret sizeBeforeIns false
          else
            _ ← trueThenThrow expectComma;
            '(name, inp) ← ParseJsonString inp;
            let ret := map_insert name AVoid ret in
            _ ← trueThenThrow (length ret =? sizeBeforeIns)%nat;
            inp ← SkipSpace inp;
            inp ← SkipExact [COLON] inp;
            '(value, inp) ← catch_nothing (ParseJson fuel inp);
            inp ← SkipSpace inp;
            map_loop fuel inp (map_assign name value ret) (S sizeBeforeIns) true
      end
  end.

(** A value takes a character, and a turn of a loop one or a value. *)
Definition json_fuel (inp : list Z) : nat := (2 * length inp + 1)%nat.

(** [ParseJson(const std::string &, Any &)] *)
Definition ParseJsonText (inp : list Z) : outcome Any :=
  '(ret, inp) ← ParseJson (json_fuel inp) inp;
  inp ← SkipSpace inp;
  match inp with [] => Ret ret | _ :: _ => Throw JsonParserError end.

(** ** The printer *)

(** [ToString] of an integer. *)
Definition to_string (z : Z) : list Z := if z <? 0 then MINUS :: print_dec (- z) else print_dec z.

Definition newline (isCompact : bool) : list Z := if isCompact then [] else [LF].
Definition deeper (isCompact : bool) (prefix : list Z) : list Z := prefix ++ (if isCompact then [] else [SPACE; SPACE]).

(** The loops over the items: a comma before each but the first. *)
Definition comma_separated {A} (print : A -> list Z) : bool -> list A -> list Z :=
  fix items (first : bool) (v : list A) : list Z :=
    match v with
    | [] => []
    | x :: v => (if first then [] else [COMMA]) ++ print x ++ items false v
    end.

(** What [ToString] appends. *)
Fixpoint ToString (a : Any) (isCompact : bool) (prefix : list Z) : list Z :=
  match a with
  | AVoid => prefix ++ lit "null"
  | AVector v =>
      prefix ++ [LBRACKET] ++
      comma_separated (fun x => newline isCompact ++ ToString x isCompact (deeper isCompact prefix)) true v ++
      newline isCompact ++ prefix ++ [RBRACKET]
  | AMap m =>
      prefix ++ [LBRACE] ++
      comma_separated (fun '(k, x) =>
        newline isCompact ++ prefix ++ [QUOTE] ++ QuoteString k [] ++ [QUOTE; COLON] ++
        newline isCompact ++ ToString x isCompact (deeper isCompact prefix)) true m ++
      newline isCompact ++ prefix ++ [RBRACE]
  | AString s => prefix ++ [QUOTE] ++ QuoteString s [] ++ [QUOTE]
  | ABool b => prefix ++ (if b then lit "true" else lit "false")
  | AInt _ z => prefix ++ to_string z
  | ANumber s => prefix ++ s
  end.

(** ** Outcomes and spaces *)

Lemma bind_Ret_inv {A B} (m : outcome A) (f : A -> outcome B) y : m ≫= f = Ret y -> exists x, m = Ret x /\ f x = Ret y.
Proof. destruct m; cbn; eauto; discriminate. Qed.

Lemma trueThenThrow_inv b x : trueThenThrow b = Ret x -> b = false.
Proof. by destruct b. Qed.

(** Where [SkipSpace] stops. *)
Definition settled (inp : list Z) : Prop := match inp with [] => True | b :: _ => is_blank b = false /\ b <> SLASH end.

(** [rest] is what is left of [inp]. *)
Abbreviation left_of := (fun rest inp : list Z => suffix rest inp).

Lemma multi_comment inp : forall star, match SkipMultiLineComment star inp with Ret rest => suffix rest inp | Throw e => e = JsonParserError | Undef => False end.
Proof.
  induction inp as [|b inp IH]; intros star; cbn; [done|]. assert (Hs : forall s, match SkipMultiLineComment s inp with Ret rest => suffix rest (b :: inp) | Throw e => e = JsonParserError | Undef => False end).
  { intros s. specialize (IH s). destruct (SkipMultiLineComment s inp); [by apply suffix_cons_r|done|done]. }
  destruct (b =? STAR); [apply Hs|]. destruct (_ && _); [by apply suffix_cons_r|apply Hs].
Qed.

Lemma single_comment inp : suffix (SkipSingleLineComment inp) inp.
Proof. induction inp as [|b inp IH]; cbn; [done|]. destruct (_ || _); by apply suffix_cons_r. Qed.

Lemma comment_cases inp : match SkipComment inp with Ret rest => suffix rest inp /\ (length rest < length inp)%nat | Throw e => e = JsonParserError | Undef => False end.
Proof.
  destruct inp as [|b inp]; cbn; [done|]. destruct (b =? STAR).
  - pose proof (multi_comment inp false) as Hm. destruct (SkipMultiLineComment _ _); [|done|done]. split; [by apply suffix_cons_r|]. apply suffix_length in Hm. lia.
  - destruct (b =? SLASH); [|done]. pose proof (single_comment inp) as Hm. split; [by apply suffix_cons_r|]. apply suffix_length in Hm. lia.
Qed.

Lemma skip_loop_cases fuel : forall inp, (length inp <= fuel)%nat ->
  match skip_loop fuel inp with Ret rest => suffix rest inp /\ settled rest | Throw e => e = JsonParserError | Undef => False end.
Proof.
  induction fuel as [|fuel IH]; intros [|b inp] Hf; cbn [skip_loop length] in *; try lia; [done..|].
  destruct (is_blank b) eqn:Eb.
  - specialize (IH inp ltac:(lia)). destruct (skip_loop fuel inp); [|done|done]. destruct IH. split; [by apply suffix_cons_r|done].
  - destruct (Z.eqb_spec b SLASH) as [->|Hs]; [|by split].
    pose proof (comment_cases inp) as Hc. destruct (SkipComment inp) as [rest|e|]; cbn [mbind outcome_bind]; [|done|done]. destruct Hc as [Hc Hl].
    specialize (IH rest ltac:(lia)). destruct (skip_loop fuel rest); [|done|done]. destruct IH as [Hr ?]. split; [|done].
    apply suffix_cons_r. by etrans.
Qed.

Lemma SkipSpace_cases inp : match SkipSpace inp with Ret rest => suffix rest inp /\ settled rest | Throw e => e = JsonParserError | Undef => False end.
Proof. by apply skip_loop_cases. Qed.

Lemma SkipExact_cases str inp : match SkipExact str inp with Ret rest => inp = str ++ rest | Throw e => e = JsonParserError | Undef => False end.
Proof. unfold SkipExact. case_bool_decide as E; [|done]. rewrite <- E at 1. by rewrite take_drop. Qed.

Lemma SkipExact_app str rest : SkipExact str (str ++ rest) = Ret rest.
Proof. unfold SkipExact. by rewrite take_app_length, drop_app_length, bool_decide_true. Qed.

(** ** Strings and numbers *)

Lemma read_hex_cases digits : forall data, match read_hex digits data with Ret _ => True | Throw e => e = BadQuoteString | Undef => False end.
Proof. induction digits as [|b digits IH]; intros data; cbn; [done|]. destruct (hex_shift data b); [apply IH|done]. Qed.

Lemma unquote_cases n : forall escaped inp ret, (length inp <= n)%nat ->
  match UnquoteString escaped inp ret with
  | Ret (_, rest) => suffix rest inp /\ (rest = [] \/ head rest = Some QUOTE)
  | Throw e => e = BadQuoteString
  | Undef => False
  end.
Proof.
  induction n as [|n IH]; intros escaped [|byte inp] ret Hn; cbn [length] in Hn; [|lia| |]; [by destruct escaped; [|split; [|left]]..|].
  assert (Hs : forall esc inp' ret', suffix inp' inp -> match UnquoteString esc inp' ret' with
    | Ret (_, rest) => suffix rest (byte :: inp) /\ (rest = [] \/ head rest = Some QUOTE) | Throw e => e = BadQuoteString | Undef => False end).
  { intros esc inp' ret' Hsu. pose proof (suffix_length _ _ Hsu). specialize (IH esc inp' ret' ltac:(lia)).
    destruct (UnquoteString esc inp' ret') as [[? rest]| |]; [|done|done]. destruct IH. split; [|done]. apply suffix_cons_r. by etrans. }
  cbn [UnquoteString]. destruct escaped.
  - destruct (byte =? 117).
    + destruct inp as [|b0 [|b1 [|b2 [|b3 rest]]]]; try done. pose proof (read_hex_cases [b0; b1; b2; b3] 0) as Hh.
      destruct (read_hex _ _); cbn [mbind outcome_bind]; [|done|done]. apply Hs. by apply (suffix_app_r _ _ [b0; b1; b2; b3]).
    + destruct (unescape_of byte); [by apply Hs|done].
  - destruct (byte =? BACKSLASH); [by apply Hs|]. destruct (Z.eqb_spec byte QUOTE) as [->|]; [|by apply Hs]. split; [done|by right].
Qed.

(** What a parser of values of type [A] may do: return a value in [P] and a
    shorter rest, or throw an exception in [E]. *)
Definition parses {A} (P : A -> Prop) (E : exn -> Prop) (inp : list Z) (r : outcome (A * list Z)) : Prop :=
  match r with Ret (x, rest) => P x /\ suffix rest inp /\ (length rest < length inp)%nat | Throw e => E e | Undef => False end.

Lemma ParseJsonString_cases inp : parses (fun _ => True) (fun e => e = JsonParserError) inp (ParseJsonString inp).
Proof.
  unfold ParseJsonString, parses. pose proof (SkipExact_cases [QUOTE] inp) as H1. destruct (SkipExact [QUOTE] inp) as [inp1|e|]; cbn [mbind outcome_bind]; [|done|done].
  subst. pose proof (unquote_cases (length inp1) false inp1 [] ltac:(lia)) as H2.
  destruct (UnquoteString false inp1 []) as [[ret inp2]|e|]; cbn [mbind outcome_bind]; [|by subst|done]. destruct H2 as [H2 _].
  pose proof (SkipExact_cases [QUOTE] inp2) as H3. destruct (SkipExact [QUOTE] inp2) as [inp3|e|]; cbn [mbind outcome_bind]; [|done|done].
  subst. split; [done|]. pose proof (suffix_length _ _ H2) as Hl. cbn [app length] in *. split; [|lia]. apply suffix_cons_r. etrans; [|done]. by apply suffix_cons_r.
Qed.

(** The characters of a number. *)
Definition num_char (b : Z) : bool := (b =? PLUS) || (b =? MINUS) || (b =? DOT) || (b =? 101) || (b =? 69) || isdigit b.

(** The scanner takes the same characters when nothing follows them. *)
Lemma num_loop_cases inp : forall signOk dotOk eOk ed s,
  match num_loop signOk dotOk eOk ed inp s with
  | Ret (s', rest) => exists t, s' = s ++ t /\ inp = t ++ rest /\ num_loop signOk dotOk eOk ed t s = Ret (s', []) /\
      match rest with [] => True | b :: _ => num_char b = false end
  | Throw e => e = JsonParserError
  | Undef => False
  end.
Proof.
  induction inp as [|byte inp IH]; intros signOk dotOk eOk ed s; cbn [num_loop]; [exists []; by rewrite app_nil_r|].
  assert (Hgo : forall a b c d, (forall t, num_loop signOk dotOk eOk ed (byte :: t) s = num_loop a b c d t (s ++ [byte])) ->
    match num_loop a b c d inp (s ++ [byte]) with
    | Ret (s', rest) => exists t, s' = s ++ t /\ byte :: inp = t ++ rest /\ num_loop signOk dotOk eOk ed t s = Ret (s', []) /\
        match rest with [] => True | b :: _ => num_char b = false end
    | Throw e => e = JsonParserError
    | Undef => False
    end).
  { intros a b c d Ht. specialize (IH a b c d (s ++ [byte])). destruct (num_loop a b c d inp _) as [[s' rest]| |]; [|done|done].
    destruct IH as (t & -> & -> & E & Hr). exists (byte :: t). rewrite <- app_assoc, Ht. split_and!; [done|done| |done]. by rewrite <- app_assoc in E. }
  destruct ((byte =? PLUS) || (byte =? MINUS)) eqn:E1.
  { destruct signOk; cbn [negb trueThenThrow mbind outcome_bind]; [|done]. apply Hgo. intros t. cbn [num_loop]. by rewrite E1. }
  destruct (byte =? DOT) eqn:E2.
  { destruct dotOk; cbn [negb trueThenThrow mbind outcome_bind]; [|done]. apply Hgo. intros t. cbn [num_loop]. by rewrite E1, E2. }
  destruct ((byte =? 101) || (byte =? 69)) eqn:E3.
  { destruct eOk; cbn [negb trueThenThrow mbind outcome_bind]; [|done]. apply Hgo. intros t. cbn [num_loop]. by rewrite E1, E2, E3. }
  destruct (isdigit byte) eqn:E4.
  { apply Hgo. intros t. cbn [num_loop]. by rewrite E1, E2, E3, E4. }
  exists []. rewrite app_nil_r. split_and!; try done. unfold num_char. rewrite <- !orb_assoc, (orb_assoc (byte =? 101)), E3. cbn. rewrite E2, E4. cbn.
  apply orb_false_iff in E1 as [-> ->]. done.
Qed.

(** A text that is a number from its first to its last character. *)
Definition number_text (s : list Z) : Prop := ParseJsonNum s = Ret (ANumber s, []).

Lemma ParseJsonNum_cases inp :
  match inp with b :: _ => num_char b = true | [] => False end ->
  parses (fun a => exists s, a = ANumber s /\ number_text s) (fun e => e = JsonParserError) inp (ParseJsonNum inp).
Proof.
  intros Hb. unfold ParseJsonNum, parses, number_text. pose proof (num_loop_cases inp true true false false []) as Hn.
  destruct (num_loop true true false false inp []) as [[s rest]| |]; cbn [mbind outcome_bind]; [|done|done].
  destruct Hn as (t & -> & -> & E & Hr). cbn [app] in *.
  assert (Ht : t <> []) by (intros ->; cbn in Hb; destruct rest; [done|congruence]).
  destruct t as [|first t _] using rev_ind; [done|]. clear Ht. rewrite last_snoc. destruct (t ++ [first]) as [|h t'] eqn:Et; [by destruct t|]. cbn [head].
  destruct (trueThenThrow _) as [u|e|] eqn:Eu; cbn [mbind outcome_bind]; [|by destruct (_ || _) in Eu; [injection Eu|]|by destruct (_ || _) in Eu].
  split; [|split; [by apply (suffix_app_r _ _ (h :: t'))|cbn [length app]; rewrite length_app; lia]].
  exists (h :: t'). split; [done|]. unfold ParseJsonNum. rewrite E. cbn [mbind outcome_bind]. rewrite <- Et, last_snoc, Et. cbn [head]. by rewrite Eu.
Qed.

(** ** Maps *)

Definition key_lt (a b : list Z) : Prop := str_lt a b = true.

Lemma str_lt_irrefl a : str_lt a a = false.
Proof. induction a as [|x a IH]; cbn; [done|]. by rewrite Z.ltb_irrefl, Z.eqb_refl, IH. Qed.

#[global] Instance key_lt_trans : Transitive key_lt.
Proof.
  unfold key_lt. intros a b c. revert b c. induction a as [|x a IH]; intros [|y b] [|z c]; cbn; try done.
  rewrite !orb_true_iff, !andb_true_iff, !Z.ltb_lt, !Z.eqb_eq. intros [?|[-> ?]] [?|[-> ?]]; [left; lia|left; lia|left; lia|right; split; [done|by eapply IH]].
Qed.

Lemma key_trichotomy a b : key_lt a b \/ a = b \/ key_lt b a.
Proof.
  unfold key_lt. revert b. induction a as [|x a IH]; intros [|y b]; cbn; try (by auto).
  rewrite !orb_true_iff, !andb_true_iff, !Z.ltb_lt, !Z.eqb_eq. destruct (Z.lt_total x y) as [?|[->|?]]; [by auto| |by auto].
  destruct (IH b) as [?|[->|?]]; auto.
Qed.

Lemma key_lt_asym a b : key_lt a b -> str_lt b a = false.
Proof. intros H. apply not_true_is_false. intros H'. assert (key_lt a a) as Ha by (by etrans). unfold key_lt in Ha. by rewrite str_lt_irrefl in Ha. Qed.

Definition sorted_map (m : JsonMap) : Prop := StronglySorted key_lt m.*1.

(** Where a new entry goes. *)
Lemma map_insert_new k v m :
  sorted_map m -> k ∉ m.*1 -> exists a b, m = a ++ b /\ map_insert k v m = a ++ (k, v) :: b /\ sorted_map (a ++ (k, v) :: b).
Proof.
  unfold sorted_map. induction m as [|[k' v'] m IH]; intros Hs Hk; cbn [map_insert].
  { exists [], []. split_and!; [done|done|]. cbn. repeat constructor. }
  cbn in Hs, Hk. apply not_elem_of_cons in Hk as [Hne Hk]. apply StronglySorted_inv in Hs as [Hs Hf]. destruct (str_lt k k') eqn:E.
  - exists [], ((k', v') :: m). split_and!; [done|done|]. cbn. constructor; [by constructor|]. constructor; [done|].
    eapply Forall_impl; [exact Hf|]. intros x Hx. by etrans.
  - rewrite bool_decide_false by done. destruct (IH Hs Hk) as (a & b & -> & -> & Hsab). exists ((k', v') :: a), b. split_and!; [done|done|].
    cbn. constructor; [done|]. rewrite fmap_app, Forall_app in *. cbn. destruct Hf as [Ha Hb]. split; [done|]. constructor; [|done].
    destruct (key_trichotomy k k') as [H|[?|?]]; [by unfold key_lt in H; congruence|done|done].
Qed.

Lemma map_insert_old k v m : sorted_map m -> k ∈ m.*1 -> map_insert k v m = m.
Proof.
  unfold sorted_map. induction m as [|[k' v'] m IH]; intros Hs Hk; cbn [map_insert]; [by apply elem_of_nil in Hk|].
  cbn in Hs, Hk. apply StronglySorted_inv in Hs as [Hs Hf]. apply elem_of_cons in Hk as [->|Hk].
  - by rewrite str_lt_irrefl, bool_decide_true.
  - rewrite Forall_forall in Hf. specialize (Hf k Hk). rewrite (key_lt_asym _ _ Hf). rewrite bool_decide_false; [by rewrite IH|].
    intros ->. unfold key_lt in Hf. by rewrite str_lt_irrefl in Hf.
Qed.

Lemma map_assign_at k v v' a b : k ∉ a.*1 -> map_assign k v' (a ++ (k, v) :: b) = a ++ (k, v') :: b.
Proof.
  induction a as [|[k1 v1] a IH]; cbn; intros Hk; [by rewrite bool_decide_true|]. apply not_elem_of_cons in Hk as [Hne Hk].
  rewrite bool_decide_false by done. by rewrite IH.
Qed.

(** The keys before an entry are others. *)
Lemma sorted_before k v a b : sorted_map (a ++ (k, v) :: b) -> k ∉ a.*1.
Proof.
  unfold sorted_map. intros Hs Hk. induction a as [|[k1 v1] a IH]; [by apply elem_of_nil in Hk|]. cbn in *. apply StronglySorted_inv in Hs as [Hs Hf].
  apply elem_of_cons in Hk as [->|Hk]; [|by apply IH]. rewrite fmap_app, Forall_app in Hf. destruct Hf as [_ Hf]. cbn in Hf. apply Forall_cons in Hf as [Hf _].
  unfold key_lt in Hf. by rewrite str_lt_irrefl in Hf.
Qed.

(** A new entry with its value. *)
Lemma map_insert_assign k v m :
  sorted_map m -> k ∉ m.*1 -> exists a b, m = a ++ b /\ map_assign k v (map_insert k AVoid m) = a ++ (k, v) :: b /\ sorted_map (a ++ (k, v) :: b).
Proof.
  intros Hs Hk. destruct (map_insert_new k AVoid m Hs Hk) as (a & b & -> & -> & Hn). exists a, b. split; [done|]. split.
  - apply map_assign_at. by eapply sorted_before.
  - unfold sorted_map in *. by rewrite !fmap_app in *.
Qed.

(** ** What the parser returns *)

#[local] Unset Elimination Schemes.

(** The values of the parser: numbers are number texts, the keys of a map are
    in order and different. *)
Inductive well_typed : Any -> Prop :=
| wt_void : well_typed AVoid
| wt_bool b : well_typed (ABool b)
| wt_string s : well_typed (AString s)
| wt_number s : number_text s -> well_typed (ANumber s)
| wt_vector v : Forall well_typed v -> well_typed (AVector v)
| wt_map m : sorted_map m -> Forall (fun kv => well_typed kv.2) m -> well_typed (AMap m).
#[local] Set Elimination Schemes.

Definition parser_error (inp : list Z) (e : exn) : Prop := e = JsonParserError \/ (e = JsonNothingError /\ SkipSpace inp = Ret []).

Lemma SkipSpace_settled inp : settled inp -> SkipSpace inp = Ret inp.
Proof.
  destruct inp as [|b inp]; [done|]. intros [Hb Hs]. unfold SkipSpace. cbn [length skip_loop]. rewrite Hb.
  by rewrite (proj2 (Z.eqb_neq b SLASH)).
Qed.

Lemma starts_number_char b : starts_number b = true -> num_char b = true.
Proof. unfold starts_number, num_char. rewrite !orb_true_iff. tauto. Qed.

(** The loops take at least one character. *)
Definition loop_parses {A} (P : A -> Prop) (inp : list Z) (r : outcome (A * list Z)) : Prop := parses P (fun e => e = JsonParserError) inp r.

Lemma parses_space {A} (P : A -> Prop) inp inp1 (f : list Z -> outcome (A * list Z)) :
  suffix inp1 inp -> (length inp1 < length inp)%nat ->
  (forall rest, suffix rest inp1 -> settled rest -> loop_parses P rest (f rest)) ->
  loop_parses P inp (inp2 ← SkipSpace inp1; f inp2).
Proof.
  intros Hs Hl Hf. pose proof (SkipSpace_cases inp1) as Hc. destruct (SkipSpace inp1) as [rest| |]; cbn [mbind outcome_bind]; [|done|done].
  destruct Hc as [Hc Hset]. specialize (Hf rest Hc Hset). unfold loop_parses, parses in *. destruct (f rest) as [[x rest']| |]; [|done|done].
  destruct Hf as (? & Hs' & ?). pose proof (suffix_length _ _ Hc). split; [done|]. split; [by do 2 (etrans; [eassumption|])|lia].
Qed.

(** One level of [ParseJson] below the loops. *)
Lemma value_cases fuel inp :
  (forall rest ret, suffix rest inp -> (length rest < length inp)%nat -> settled rest -> Forall well_typed ret ->
     loop_parses (Forall well_typed) rest (array_loop fuel rest ret false)) ->
  (forall rest, suffix rest inp -> (length rest < length inp)%nat -> settled rest ->
     loop_parses (fun m => sorted_map m /\ Forall (fun kv => well_typed kv.2) m) rest (map_loop fuel rest [] 0 false)) ->
  parses well_typed (parser_error inp) inp (ParseJson (S fuel) inp).
Proof.
  intros Ha Hm. cbn [ParseJson]. pose proof (SkipSpace_cases inp) as Hc. destruct (SkipSpace inp) as [inp1| |] eqn:Es; cbn [mbind outcome_bind]; [|by left|done].
  destruct Hc as [Hs Hset]. pose proof (suffix_length _ _ Hs) as Hl. destruct inp1 as [|byte inp1]; [by right|]. cbn [length] in Hl.
  assert (Hs1 : suffix inp1 inp) by (etrans; [|exact Hs]; by apply suffix_cons_r).
  assert (Hexact : forall str v, well_typed v -> (0 < length str)%nat ->
    parses well_typed (parser_error inp) inp (inp2 ← SkipExact str (byte :: inp1); Ret (v, inp2))).
  { intros str v Hv Hstr. pose proof (SkipExact_cases str (byte :: inp1)) as He. destruct (SkipExact _ _) as [rest| |]; cbn [mbind outcome_bind]; [|by left|done].
    rewrite He in Hs. split; [done|]. split; [etrans; [|exact Hs]; by apply suffix_app_r|]. apply suffix_length in Hs. rewrite length_app in Hs. lia. }
  assert (Hstart : forall c (A : Type) (P : A -> Prop) (wrap : A -> Any) (f : list Z -> outcome (A * list Z)), byte = c -> (forall x, P x -> well_typed (wrap x)) ->
    (forall rest, suffix rest inp1 -> settled rest -> loop_parses P rest (f rest)) ->
    parses well_typed (parser_error inp) inp ('(x, inp2) ← (inp2 ← SkipExact [c] (byte :: inp1); inp3 ← SkipSpace inp2; f inp3); Ret (wrap x, inp2))).
  { intros c A P wrap f -> Hwrap Hf. change (c :: inp1) with ([c] ++ inp1). rewrite SkipExact_app. cbn [mbind outcome_bind].
    assert (Hp : loop_parses P inp (inp3 ← SkipSpace inp1; f inp3)) by (apply parses_space; [done|lia|done]).
    destruct (SkipSpace inp1 ≫= _) as [[x rest]| |]; cbn [mbind outcome_bind]; [|by left|done]. destruct Hp as (? & ? & ?). split; [auto|done]. }
  destruct (Z.eqb_spec byte LBRACKET) as [Eb|_].
  { apply (Hstart LBRACKET JsonArray (Forall well_typed) AVector (fun inp => array_loop fuel inp [] false) Eb); [by constructor|].
    intros rest Hr Hset'. apply suffix_length in Hr as Hrl. apply Ha; [by etrans|lia|done|done]. }
  destruct (Z.eqb_spec byte LBRACE) as [Eb|_].
  { apply (Hstart LBRACE JsonMap (fun m => sorted_map m /\ Forall (fun kv => well_typed kv.2) m) AMap (fun inp => map_loop fuel inp [] 0 false) Eb); [intros m []; by constructor|].
    intros rest Hr Hset'. apply suffix_length in Hr as Hrl. apply Hm; [by etrans|lia|done]. }
  destruct (byte =? QUOTE).
  { pose proof (ParseJsonString_cases (byte :: inp1)) as Hq. destruct (ParseJsonString _) as [[s rest]| |]; cbn [mbind outcome_bind]; [|by left|done].
    destruct Hq as (_ & Hq & Hql). cbn [length] in Hql. split; [constructor|]. split; [by etrans|lia]. }
  destruct (byte =? 116); [apply Hexact; [constructor|vm_compute; lia]|]. destruct (byte =? 102); [apply Hexact; [constructor|vm_compute; lia]|].
  destruct (byte =? 110); [apply Hexact; [constructor|vm_compute; lia]|]. destruct (starts_number byte) eqn:En; [|by left].
  pose proof (ParseJsonNum_cases (byte :: inp1) (starts_number_char _ En)) as Hq. destruct (ParseJsonNum _) as [[a rest]| |]; cbn in Hq; [|by left|done].
  destruct Hq as ((s & -> & Hn) & Hq & Hql). split; [by constructor|]. split; [by etrans|lia].
Qed.

(** The loops, when the values are parsed. *)
Lemma array_loop_cases fuel inp ret expectComma :
  (forall rest ret ec, (length rest < length inp)%nat -> settled rest -> Forall well_typed ret -> loop_parses (Forall well_typed) rest (array_loop fuel rest ret ec)) ->
  parses well_typed (parser_error inp) inp (ParseJson fuel inp) ->
  settled inp -> Forall well_typed ret -> loop_parses (Forall well_typed) inp (array_loop (S fuel) inp ret expectComma).
Proof.
  intros Hloop Hval Hset Hret. cbn [array_loop]. destruct inp as [|byte rest]; [done|]. destruct (byte =? COMMA).
  { destruct expectComma; cbn [negb trueThenThrow mbind outcome_bind]; [|done].
    apply (parses_space (Forall well_typed) _ rest (fun inp => array_loop fuel inp ret false)); [by apply suffix_cons_r|cbn; lia|].
    intros inp Hs Hst. apply suffix_length in Hs. apply Hloop; [cbn; lia|done|done]. }
  destruct (byte =? RBRACKET).
  { destruct (trueThenThrow _) eqn:Et; cbn [mbind outcome_bind]; [|by destruct (_ && _) in Et; [injection Et as <-|]|by destruct (_ && _) in Et].
    split; [done|]. split; [by apply suffix_cons_r|cbn; lia]. }
  destruct expectComma; cbn [trueThenThrow mbind outcome_bind]; [done|]. unfold parses, parser_error in Hval. rewrite (SkipSpace_settled _ Hset) in Hval.
  destruct (ParseJson fuel (byte :: rest)) as [[v inp]|e|]; cbn [mbind outcome_bind]; [|destruct Hval as [->|[_ ?]]; [done|congruence]|done].
  destruct Hval as (Hv & Hs & Hl). apply (parses_space (Forall well_typed) _ inp (fun inp => array_loop fuel inp (ret ++ [v]) true)); [done|done|].
  intros inp' Hs' Hst. apply suffix_length in Hs'. apply Hloop; [lia|done|]. apply Forall_app. by repeat constructor.
Qed.

Definition map_ok (m : JsonMap) : Prop := sorted_map m /\ Forall (fun kv => well_typed kv.2) m.

Lemma map_loop_cases fuel inp ret expectComma :
  (forall rest ret ec, (length rest < length inp)%nat -> settled rest -> map_ok ret -> loop_parses map_ok rest (map_loop fuel rest ret (length ret) ec)) ->
  (forall rest, (length rest < length inp)%nat -> parses well_typed (parser_error rest) rest (ParseJson fuel rest)) ->
  settled inp -> map_ok ret -> loop_parses map_ok inp (map_loop (S fuel) inp ret (length ret) expectComma).
Proof.
  intros Hloop Hval Hset Hret. cbn [map_loop]. destruct inp as [|byte rest]; [done|]. destruct (byte =? RBRACE).
  { destruct (trueThenThrow _) eqn:Et; cbn [mbind outcome_bind]; [|by destruct (_ && _) in Et; [injection Et as <-|]|by destruct (_ && _) in Et].
    split; [done|]. split; [by apply suffix_cons_r|cbn; lia]. }
  destruct (byte =? COMMA).
  { destruct expectComma; cbn [negb trueThenThrow mbind outcome_bind]; [|done].
    apply (parses_space map_ok _ rest (fun inp => map_loop fuel inp ret (length ret) false)); [by apply suffix_cons_r|cbn; lia|].
    intros inp Hs Hst. apply suffix_length in Hs. apply Hloop; [cbn; lia|done|done]. }
  destruct expectComma; cbn [trueThenThrow mbind outcome_bind]; [done|]. set (inp := byte :: rest) in *.
  pose proof (ParseJsonString_cases inp) as Hq. destruct (ParseJsonString inp) as [[name inp1]|e|]; cbn [mbind outcome_bind]; [|done|done].
  destruct Hq as (_ & Hs1 & Hl1). destruct Hret as [Hsort Hwt].
  destruct (decide (name ∈ ret.*1)) as [Hin|Hnew].
  { rewrite map_insert_old by done. by rewrite Nat.eqb_refl. }
  destruct (map_insert_new name AVoid ret Hsort Hnew) as (a & b & Eret & Eins & Hsorted). rewrite (proj2 (Nat.eqb_neq _ _)).
  2: { rewrite Eins, Eret, !length_app. cbn. lia. }
  cbn [trueThenThrow mbind outcome_bind].
  assert (Hsp : match SkipSpace inp1 with Ret inp2 => suffix inp2 inp1 | Throw e => e = JsonParserError | Undef => False end).
  { pose proof (SkipSpace_cases inp1) as Hc. destruct (SkipSpace inp1); tauto. }
  destruct (SkipSpace inp1) as [inp2| |]; cbn [mbind outcome_bind]; [|done|done]. apply suffix_length in Hsp as Hl2.
  pose proof (SkipExact_cases [COLON] inp2) as Hc. destruct (SkipExact [COLON] inp2) as [inp3| |]; cbn [mbind outcome_bind]; [|done|done].
  assert (Hs3 : suffix inp3 inp2) by (rewrite Hc; by apply suffix_app_r). apply suffix_length in Hs3 as Hl3.
  specialize (Hval inp3 ltac:(lia)). unfold parses in Hval.
  destruct (ParseJson fuel inp3) as [[value inp4]|e|]; cbn [catch_nothing mbind outcome_bind]; [|by destruct e; destruct Hval as [?|[? _]]|done].
  destruct Hval as (Hv & Hs4 & Hl4). destruct (map_insert_assign name value ret Hsort Hnew) as (a' & b' & Eret' & -> & Hsorted').
  apply (parses_space map_ok _ inp4 (fun inp => map_loop fuel inp (a' ++ (name, value) :: b') (S (length ret)) true)).
  - etrans; [exact Hs4|]. etrans; [exact Hs3|]. by etrans.
  - lia.
  - intros inp5 Hs5 Hst. apply suffix_length in Hs5. replace (S (length ret)) with (length (a' ++ (name, value) :: b')) by (rewrite Eret', !length_app; cbn; lia).
    apply Hloop; [lia|done|]. split; [done|]. rewrite Eret' in Hwt. apply Forall_app in Hwt as [Hwa Hwb]. apply Forall_app. split; [done|]. by constructor.
Qed.

Lemma parser_cases n :
  (forall inp, (length inp <= n)%nat -> forall fuel, (2 * length inp + 1 <= fuel)%nat -> parses well_typed (parser_error inp) inp (ParseJson fuel inp)) /\
  (forall inp, (length inp <= n)%nat -> forall fuel, (2 * length inp + 2 <= fuel)%nat -> settled inp ->
     (forall ret ec, Forall well_typed ret -> loop_parses (Forall well_typed) inp (array_loop fuel inp ret ec)) /\
     (forall ret ec, map_ok ret -> loop_parses map_ok inp (map_loop fuel inp ret (length ret) ec))).
Proof.
  induction n as [n IH] using lt_wf_ind.
  assert (Hlt : forall inp, (length inp < n)%nat -> forall fuel, (2 * length inp + 2 <= fuel)%nat -> settled inp ->
     (forall ret ec, Forall well_typed ret -> loop_parses (Forall well_typed) inp (array_loop fuel inp ret ec)) /\
     (forall ret ec, map_ok ret -> loop_parses map_ok inp (map_loop fuel inp ret (length ret) ec))).
  { intros inp Hl. by apply (IH (length inp) Hl). }
  assert (HA : forall inp, (length inp <= n)%nat -> forall fuel, (2 * length inp + 1 <= fuel)%nat -> parses well_typed (parser_error inp) inp (ParseJson fuel inp)).
  { intros inp Hl [|fuel] Hf; [lia|]. apply value_cases.
    - intros rest ret _ Hr Hset Hret. apply Hlt; [lia|lia|done|done].
    - intros rest _ Hr Hset. apply (proj2 (Hlt rest ltac:(lia) fuel ltac:(lia) Hset) [] false). by repeat constructor. }
  split; [exact HA|]. intros inp Hl [|fuel] Hf Hset; [lia|]. split.
  - intros ret ec Hret. apply array_loop_cases; [|apply HA; lia|done|done]. intros rest ret' ec' Hr Hst Hwt. apply Hlt; [lia|lia|done|done].
  - intros ret ec Hret. apply map_loop_cases; [| |done|done].
    + intros rest ret' ec' Hr Hst Hok. apply Hlt; [lia|lia|done|done].
    + intros rest Hr. apply HA; lia.
Qed.

Lemma ParseJson_cases inp : parses well_typed (parser_error inp) inp (ParseJson (json_fuel inp) inp).
Proof. apply (parser_cases (length inp)); [done|unfold json_fuel; lia]. Qed.

(** ** Properties *)

