(* ===== verification/JsonRoundtrip.v ===== *)
(** * JSON, printed and parsed back

    The grammar of numbers, the round trip of quoting, and the round trip of
    [ToString] and [ParseJson] of Json.v. *)

From S2P Require Import Prelude CString Json.
From Stdlib Require Import Sorted.

(** ** The grammar of numbers *)

Definition is_sign (x : Z) : Prop := x = PLUS \/ x = MINUS.
Definition is_e (x : Z) : Prop := x = 101 \/ x = 69.
Definition digits (l : list Z) : Prop := Forall (fun b => isdigit b = true) l.
Definition sign (l : list Z) : Prop := l = [] \/ exists x, l = [x] /\ is_sign x.

(** digit+ [. digit*] or digit* . digit+ *)
Definition mantissa (x : list Z) : Prop :=
  exists a b, digits a /\ digits b /\ ((x = a /\ a <> []) \/ (x = a ++ DOT :: b /\ (a <> [] \/ b <> []))).

(** [e|E [+|-] digit+] *)
Definition exponent (ex : list Z) : Prop := ex = [] \/ exists e sg c, ex = e :: sg ++ c /\ is_e e /\ sign sg /\ digits c /\ c <> [].

(** The format in the comment of [ParseJsonNum]. *)
Definition number_format (s : list Z) : Prop := exists sg x ex, s = sg ++ x ++ ex /\ sign sg /\ mantissa x /\ exponent ex.

(** The scanner reads all of its input in one of four ways. *)
Lemma num_loop_inv signOk dotOk eOk ed x t s y :
  num_loop signOk dotOk eOk ed (x :: t) s = Ret (y, []) ->
  (is_sign x /\ signOk = true /\ num_loop false (negb ed) false ed t (s ++ [x]) = Ret (y, [])) \/
  (x = DOT /\ dotOk = true /\ num_loop false false eOk ed t (s ++ [x]) = Ret (y, [])) \/
  (is_e x /\ eOk = true /\ num_loop true false false true t (s ++ [x]) = Ret (y, [])) \/
  (isdigit x = true /\ num_loop false dotOk (negb ed) ed t (s ++ [x]) = Ret (y, [])).
Proof.
  cbn [num_loop]. unfold is_sign, is_e. destruct ((x =? PLUS) || (x =? MINUS)) eqn:E1.
  { apply orb_true_iff in E1. rewrite !Z.eqb_eq in E1. intros E. left. destruct signOk; [|done]. by split. }
  destruct (Z.eqb_spec x DOT).
  { intros E. right; left. destruct dotOk; [|done]. by split. }
  destruct ((x =? 101) || (x =? 69)) eqn:E3.
  { apply orb_true_iff in E3. rewrite !Z.eqb_eq in E3. intros E. right; right; left. destruct eOk; [|done]. by split. }
  destruct (isdigit x); [|done]. intros E. right; right; right. by split.
Qed.

Ltac num_step H :=
  apply num_loop_inv in H as [(? & ? & H)|[(? & ? & H)|[(? & ? & H)|(? & H)]]]; try discriminate; cbn [negb] in H.

Lemma num_loop_digit x t signOk dotOk eOk ed s :
  isdigit x = true -> num_loop signOk dotOk eOk ed (x :: t) s = num_loop false dotOk (negb ed) ed t (s ++ [x]).
Proof.
  intros Hx. cbn [num_loop]. rewrite Hx. unfold isdigit in Hx. apply andb_true_iff in Hx as [H1%Z.leb_le H2%Z.leb_le].
  by rewrite !(proj2 (Z.eqb_neq _ _)) by lia.
Qed.

(** What is left of a number in the states of the scanner. *)
Lemma run_exponent_digits t : forall s y, num_loop false false false true t s = Ret (y, []) -> digits t.
Proof. induction t as [|x t IH]; intros s y E; [by constructor|]. num_step E. constructor; [done|by eapply IH]. Qed.

Definition weak_exponent (ex : list Z) : Prop := ex = [] \/ exists e sg c, ex = e :: sg ++ c /\ is_e e /\ sign sg /\ digits c.

Lemma run_exponent x t s y : is_e x -> num_loop true false false true t s = Ret (y, []) -> weak_exponent (x :: t).
Proof.
  intros Hx E. right. destruct t as [|z t]; [exists x, [], []; split_and!; [done|done|by left|constructor]|]. num_step E.
  - exists x, [z], t. split_and!; [done|done|right; eauto|by eapply run_exponent_digits].
  - exists x, [], (z :: t). split_and!; [done|done|by left|]. constructor; [done|by eapply run_exponent_digits].
Qed.

(** After the point, with a digit before. *)
Lemma run_fraction t : forall s y, num_loop false false true false t s = Ret (y, []) -> exists b ex, t = b ++ ex /\ digits b /\ weak_exponent ex.
Proof.
  induction t as [|x t IH]; intros s y E; [exists [], []; split_and!; [done|constructor|by left]|]. num_step E.
  - exists [], (x :: t). split_and!; [done|constructor|by eapply run_exponent].
  - destruct (IH _ _ E) as (b & ex & -> & Hb & Hex). exists (x :: b), ex. split_and!; [done|by constructor|done].
Qed.

Lemma run_point t s y : num_loop false false false false t s = Ret (y, []) -> t = [] \/ exists b ex, t = b ++ ex /\ b <> [] /\ digits b /\ weak_exponent ex.
Proof.
  destruct t as [|x t]; intros E; [by left|]. num_step E. right. destruct (run_fraction _ _ _ E) as (b & ex & -> & Hb & Hex).
  exists (x :: b), ex. split_and!; [done|done|by constructor|done].
Qed.

Lemma run_integer t : forall s y, num_loop false true true false t s = Ret (y, []) ->
  exists a x ex, t = a ++ x ++ ex /\ digits a /\ (x = [] \/ exists b, x = DOT :: b /\ digits b) /\ weak_exponent ex.
Proof.
  induction t as [|c t IH]; intros s y E; [exists [], [], []; split_and!; [done|constructor|by left|by left]|]. num_step E.
  - destruct (run_fraction _ _ _ E) as (b & ex & -> & Hb & Hex). exists [], (DOT :: b), ex. split_and!; [by subst|constructor|right; eauto|done].
  - exists [], [], (c :: t). split_and!; [done|constructor|by left|by eapply run_exponent].
  - destruct (IH _ _ E) as (a & x & ex & -> & Ha & Hx & Hex). exists (c :: a), x, ex. split_and!; [done|by constructor|done|done].
Qed.

(** The mantissa with its exponent, or a lonely point, or nothing. *)
Lemma run_unsigned t s y :
  num_loop false true false false t s = Ret (y, []) -> t = [] \/ t = [DOT] \/ exists x ex, t = x ++ ex /\ mantissa x /\ weak_exponent ex.
Proof.
  destruct t as [|c t]; intros E; [by left|]. right. num_step E.
  - subst c. destruct (run_point _ _ _ E) as [->|(b & ex & -> & Hne & Hb & Hex)]; [by left|]. right. exists (DOT :: b), ex. split_and!; [done| |done].
    exists [], b. split_and!; [constructor|done|]. right. split; [done|by right].
  - destruct (run_integer _ _ _ E) as (a & x & ex & -> & Ha & Hx & Hex). right. exists ((c :: a) ++ x), ex. split_and!; [by rewrite <- app_assoc| |done].
    destruct Hx as [->|(b & -> & Hb)].
    + exists (c :: a), []. split_and!; [by constructor|constructor|]. left. by rewrite app_nil_r.
    + exists (c :: a), b. split_and!; [by constructor|done|]. right. split; [done|by left].
Qed.

Lemma run_number t y : num_loop true true false false t [] = Ret (y, []) ->
  exists sg u, t = sg ++ u /\ sign sg /\ (u = [] \/ u = [DOT] \/ exists x ex, u = x ++ ex /\ mantissa x /\ weak_exponent ex).
Proof.
  destruct t as [|c t]; intros E; [exists [], []; split_and!; [done|by left|by left]|]. num_step E.
  - exists [c], t. split_and!; [done|right; eauto|by eapply run_unsigned].
  - exists [], (c :: t). split_and!; [done|by left|]. apply (run_unsigned (c :: t) [] y). subst c. exact E.
  - exists [], (c :: t). split_and!; [done|by left|]. apply (run_unsigned (c :: t) [] y). by rewrite num_loop_digit.
Qed.

(** The other way round. *)
Lemma num_loop_digits c : forall t signOk dotOk eOk ed s, digits c -> c <> [] ->
  num_loop signOk dotOk eOk ed (c ++ t) s = num_loop false dotOk (negb ed) ed t (s ++ c).
Proof.
  induction c as [|x c IH]; intros t signOk dotOk eOk ed s Hc Hne; [done|]. apply Forall_cons in Hc as [Hx Hc]. cbn [app]. rewrite num_loop_digit by done.
  destruct c as [|z c]; [done|]. rewrite IH by done. by rewrite <- app_assoc.
Qed.

Lemma num_loop_sign x t dotOk eOk ed s : is_sign x -> num_loop true dotOk eOk ed (x :: t) s = num_loop false (negb ed) false ed t (s ++ [x]).
Proof. intros [-> | ->]; reflexivity. Qed.

Lemma num_loop_exponent ex dotOk s : exponent ex -> num_loop false dotOk true false ex s = Ret (s ++ ex, []).
Proof.
  intros [->|(e & sg & c & -> & He & Hsg & Hc & Hne)]; [by rewrite app_nil_r|].
  assert (Hstep : num_loop false dotOk true false (e :: sg ++ c) s = num_loop true false false true (sg ++ c) (s ++ [e])) by (destruct He as [-> | ->]; reflexivity).
  rewrite Hstep. rewrite <- (app_nil_r c) at 1. destruct Hsg as [->|(x & -> & Hx)]; cbn [app].
  - rewrite num_loop_digits by done. cbn [num_loop]. by rewrite <- app_assoc.
  - rewrite num_loop_sign by done. rewrite num_loop_digits by done. cbn [num_loop]. by rewrite <- !app_assoc.
Qed.

Lemma num_loop_mantissa x ex s signOk : mantissa x -> exponent ex -> num_loop signOk true false false (x ++ ex) s = Ret (s ++ x ++ ex, []).
Proof.
  intros (a & b & Ha & Hb & Hx) Hex. destruct Hx as [[-> Hne]|[-> Hne]].
  - rewrite num_loop_digits, num_loop_exponent by done. by rewrite <- app_assoc.
  - rewrite <- app_assoc. cbn [app].
    assert (Hpoint : forall signOk eOk s, (a <> [] -> eOk = true) -> num_loop signOk true eOk false (DOT :: b ++ ex) s = Ret (s ++ DOT :: b ++ ex, [])).
    { intros sO eO s' He. change (num_loop sO true eO false (DOT :: b ++ ex) s') with (num_loop false false eO false (b ++ ex) (s' ++ [DOT])).
      destruct b as [|z b].
      - destruct Hne as [Hne|]; [|done]. rewrite (He Hne). cbn [app]. rewrite num_loop_exponent by done. by rewrite <- app_assoc.
      - rewrite num_loop_digits, num_loop_exponent by done. by rewrite <- !app_assoc. }
    destruct a as [|z a]; [by apply Hpoint|]. rewrite num_loop_digits by done. rewrite Hpoint by done. by rewrite <- app_assoc.
Qed.

(** The last character of a number is a digit or the point. *)
Lemma last_digits c : digits c -> c <> [] -> exists x, last c = Some x /\ isdigit x = true.
Proof.
  intros Hc Hne. destruct c as [|x c _] using rev_ind; [done|]. rewrite last_snoc. exists x. split; [done|]. apply Forall_app in Hc as [_ Hc]. by apply Forall_cons in Hc as [? _].
Qed.

Lemma last_app_some {A} (a b : list A) x : last b = Some x -> last (a ++ b) = Some x.
Proof. intros E. destruct b as [|y b _] using rev_ind; [done|]. rewrite last_snoc in E. by rewrite app_assoc, last_snoc, E. Qed.

Definition good_end (x : Z) : Prop := isdigit x = true \/ x = DOT.

Lemma mantissa_last x : mantissa x -> exists z, last x = Some z /\ good_end z.
Proof.
  intros (a & b & Ha & Hb & Hx). destruct Hx as [[-> Hne]|[-> _]].
  - destruct (last_digits a Ha Hne) as (z & E & Hz). exists z. split; [done|by left].
  - destruct b as [|z b]; [exists DOT; split; [apply last_snoc|by right]|]. destruct (last_digits (z :: b) Hb) as (w & E & Hw); [done|].
    exists w. split; [|by left]. apply last_app_some. change (DOT :: z :: b) with ([DOT] ++ z :: b). by apply last_app_some.
Qed.

Lemma number_last sg x ex : mantissa x -> exponent ex -> exists z, last (sg ++ x ++ ex) = Some z /\ good_end z.
Proof.
  intros Hx Hex. destruct Hex as [->|(e & sg' & c & -> & _ & _ & Hc & Hne)].
  - rewrite app_nil_r. destruct (mantissa_last x Hx) as (z & E & Hz). exists z. split; [by apply last_app_some|done].
  - destruct (last_digits c Hc Hne) as (z & E & Hz). exists z. split; [|by left]. do 2 apply last_app_some.
    change (e :: sg' ++ c) with ([e] ++ sg' ++ c). by do 2 apply last_app_some.
Qed.

Lemma good_end_test z : good_end z -> (z =? 101) || (z =? 69) || (z =? PLUS) || (z =? MINUS) = false.
Proof.
  unfold good_end, isdigit. rewrite andb_true_iff, !Z.leb_le. intros Hz. rewrite !orb_false_iff, !Z.eqb_neq. lia.
Qed.

(** The test at the end of [ParseJsonNum]. *)
Definition bad_end (s : list Z) (last first : Z) : bool :=
  (last =? 101) || (last =? 69) || (last =? PLUS) || (last =? MINUS) || ((length s =? 2)%nat && (last =? DOT) && ((first =? PLUS) || (first =? MINUS))).

Lemma number_text_inv s :
  number_text s -> num_loop true true false false s [] = Ret (s, []) /\ exists l f, last s = Some l /\ head s = Some f /\ bad_end s l f = false.
Proof.
  unfold number_text, ParseJsonNum. intros E. apply bind_Ret_inv in E as ([s' rest] & E1 & E).
  destruct (last s') as [l|] eqn:El; [|done]. destruct (head s') as [f|] eqn:Ef; [|done]. apply bind_Ret_inv in E as (u & Eu & E). apply trueThenThrow_inv in Eu.
  injection E as -> ->. split; [done|]. by exists l, f.
Qed.

Lemma number_text_intro s l f :
  num_loop true true false false s [] = Ret (s, []) -> last s = Some l -> head s = Some f -> bad_end s l f = false -> number_text s.
Proof. unfold number_text, ParseJsonNum, bad_end. intros E El Ef Eb. rewrite E. cbn [mbind outcome_bind]. by rewrite El, Ef, Eb. Qed.

Lemma digit_not_sign x : isdigit x = true -> ~ is_sign x /\ x <> DOT.
Proof. unfold isdigit, is_sign. rewrite andb_true_iff, !Z.leb_le. lia. Qed.

Lemma mantissa_nonempty x : mantissa x -> x <> [].
Proof. intros (a & b & _ & _ & [[-> ?]|[-> _]]); [done|by destruct a]. Qed.

Lemma mantissa_head x z : mantissa x -> head x = Some z -> ~ is_sign z.
Proof.
  intros (a & b & Ha & _ & Hx) E. destruct a as [|c a].
  - destruct Hx as [[_ ?]|[-> _]]; [done|]. injection E as <-. unfold is_sign. lia.
  - assert (z = c) as -> by (destruct Hx as [[-> _]|[-> _]]; by injection E). apply Forall_cons in Ha as [Hc _]. by apply digit_not_sign.
Qed.

Lemma mantissa_not_point : ~ mantissa [DOT].
Proof.
  intros (a & b & Ha & Hb & [[E Hne]|[E Hne]]).
  - subst a. apply Forall_cons in Ha as [Ha _]. by vm_compute in Ha.
  - destruct a as [|c a]; [|injection E as _ E; by destruct a]. injection E as <-. by destruct Hne.
Qed.

Lemma number_format_text s : number_format s -> number_text s.
Proof.
  intros (sg & x & ex & -> & Hsg & Hx & Hex). destruct (number_last sg x ex Hx Hex) as (l & El & Hl). pose proof (mantissa_nonempty x Hx) as Hne.
  destruct x as [|c x]; [done|]. destruct Hsg as [->|(z & -> & Hz)]; cbn [app] in *.
  - apply (number_text_intro _ l c); [by apply (num_loop_mantissa (c :: x))|done|done|]. unfold bad_end. rewrite good_end_test by done. cbn [orb].
    assert (Hc : ~ is_sign c) by (by apply (mantissa_head (c :: x))). unfold is_sign in Hc.
    rewrite (proj2 (Z.eqb_neq c PLUS)), (proj2 (Z.eqb_neq c MINUS)) by tauto. by rewrite andb_false_r.
  - apply (number_text_intro _ l z); [|done|done|].
    + rewrite num_loop_sign by done. exact (num_loop_mantissa (c :: x) ex [z] false Hx Hex).
    + unfold bad_end. rewrite good_end_test by done. cbn [orb]. destruct (Nat.eqb_spec (length (z :: c :: x ++ ex)) 2) as [E|]; [|done].
      cbn [length] in E. rewrite length_app in E. assert (x = [] /\ ex = []) as [-> ->] by (split; apply length_zero_iff_nil; lia).
      injection El as ->. destruct (Z.eqb_spec l DOT) as [->|]; [by apply mantissa_not_point in Hx|done].
Qed.

Lemma weak_exponent_end ex : weak_exponent ex -> exponent ex \/ exists l, last ex = Some l /\ ((l =? 101) || (l =? 69) || (l =? PLUS) || (l =? MINUS)) = true.
Proof.
  intros [->|(e & sg & c & -> & He & Hsg & Hc)]; [left; by left|]. destruct c as [|z c].
  - right. rewrite app_nil_r. destruct Hsg as [->|(x & -> & Hx)].
    + exists e. split; [done|]. destruct He as [-> | ->]; reflexivity.
    + exists x. split; [done|]. destruct Hx as [-> | ->]; reflexivity.
  - left. right. by exists e, sg, (z :: c).
Qed.

Lemma number_text_format s : number_text s -> number_format s \/ s = [DOT].
Proof.
  intros (E & l & f & El & Ef & Eb)%number_text_inv. apply run_number in E as (sg & u & -> & Hsg & [->|[->|(x & ex & -> & Hx & Hex)]]).
  - exfalso. rewrite app_nil_r in *. destruct Hsg as [->|(z & -> & Hz)]; [done|]. injection El as <-. destruct Hz as [-> | ->]; by vm_compute in Eb.
  - destruct Hsg as [->|(z & -> & Hz)]; [by right|]. exfalso. injection El as <-. injection Ef as <-. destruct Hz as [-> | ->]; by vm_compute in Eb.
  - left. destruct (weak_exponent_end ex Hex) as [Hex'|(l' & El' & Ht)]; [by exists sg, x, ex|]. exfalso.
    assert (l = l') as ->. { rewrite (last_app_some sg (x ++ ex) l') in El; [by injection El|by apply last_app_some]. }
    unfold bad_end in Eb. by rewrite Ht in Eb.
Qed.

(** ** Quoting and back *)

Definition escaped_char (c : Z) : list Z := match escape_of c with Some e => [BACKSLASH; e] | None => [c] end.

Lemma quote_loop_chars text : forall pending ret, quote_loop text pending ret = ret ++ pending ++ concat (escaped_char <$> text).
Proof.
  induction text as [|c text IH]; intros pending ret; cbn [quote_loop fmap list_fmap concat].
  - by rewrite app_nil_r.
  - unfold escaped_char at 1. destruct (escape_of c) as [e|]; rewrite IH; by rewrite <- !app_assoc.
Qed.

Lemma unescape_escape c e : escape_of c = Some e -> unescape_of e = Some c /\ e <> 117.
Proof.
  unfold escape_of. repeat match goal with |- context [?x =? ?y] => destruct (Z.eqb_spec x y) as [->|] end; intros [= <-]; by vm_compute.
Qed.

Lemma unquote_char c rest ret : UnquoteString false (escaped_char c ++ rest) ret = UnquoteString false rest (ret ++ [c]).
Proof.
  unfold escaped_char. destruct (escape_of c) as [e|] eqn:E.
  - apply unescape_escape in E as [E Hu]. cbn [app UnquoteString]. change (BACKSLASH =? BACKSLASH) with true. cbn match. by rewrite (proj2 (Z.eqb_neq e 117)), E.
  - unfold escape_of in E. cbn [app UnquoteString]. destruct (Z.eqb_spec c QUOTE) as [->|]; [done|]. by destruct (Z.eqb_spec c BACKSLASH) as [->|].
Qed.

Lemma unquote_chars s : forall rest ret, UnquoteString false (concat (escaped_char <$> s) ++ QUOTE :: rest) ret = Ret (ret ++ s, QUOTE :: rest).
Proof.
  induction s as [|c s IH]; intros rest ret; cbn [fmap list_fmap concat]; [by rewrite app_nil_r|].
  rewrite <- app_assoc, unquote_char, IH. by rewrite <- app_assoc.
Qed.

Lemma quoted_string s rest : ParseJsonString ([QUOTE] ++ QuoteString s [] ++ [QUOTE] ++ rest) = Ret (s, rest).
Proof.
  unfold ParseJsonString. rewrite SkipExact_app. cbn [mbind outcome_bind]. unfold QuoteString. rewrite quote_loop_chars. cbn [app].
  rewrite unquote_chars. cbn [mbind outcome_bind app]. change (QUOTE :: rest) with ([QUOTE] ++ rest). by rewrite SkipExact_app.
Qed.

(** ** Blanks before a value *)

Definition blanks (s : list Z) : Prop := Forall (fun b => is_blank b = true) s.

Lemma skip_blanks s : forall inp fuel, blanks s -> settled inp -> (length s <= fuel)%nat -> (inp <> [] -> (length s < fuel)%nat) -> skip_loop fuel (s ++ inp) = Ret inp.
Proof.
  induction s as [|b s IH]; intros inp fuel Hb Hset Hf Hne; cbn [app length] in *.
  - destruct inp as [|b inp]; [by destruct fuel|]. specialize (Hne ltac:(done)). destruct fuel as [|fuel]; [lia|]. destruct Hset as [H1 H2].
    cbn [skip_loop]. by rewrite H1, (proj2 (Z.eqb_neq _ _) H2).
  - apply Forall_cons in Hb as [Hb1 Hb]. destruct fuel as [|fuel]; [lia|]. cbn [skip_loop]. rewrite Hb1. apply IH; [done|done|lia|]. intros H. specialize (Hne H). lia.
Qed.

Lemma SkipSpace_blanks s inp : blanks s -> settled inp -> SkipSpace (s ++ inp) = Ret inp.
Proof. intros Hb Hs. apply skip_blanks; [done|done|rewrite length_app; lia|]. intros Hne. rewrite length_app. destruct inp; [done|cbn; lia]. Qed.

Lemma ParseJson_blanks fuel s inp : blanks s -> settled inp -> ParseJson fuel (s ++ inp) = ParseJson fuel inp.
Proof. intros Hb Hs. destruct fuel as [|fuel]; [done|]. cbn [ParseJson]. by rewrite SkipSpace_blanks, (SkipSpace_settled inp) by done. Qed.

Lemma blanks_newline isCompact : blanks (newline isCompact).
Proof. destruct isCompact; by repeat constructor. Qed.

Lemma blanks_deeper isCompact prefix : blanks prefix -> blanks (deeper isCompact prefix).
Proof. intros H. apply Forall_app. split; [done|]. destruct isCompact; by repeat constructor. Qed.

(** ** Numbers and back *)

(** What may follow a number. *)
Definition stops (rest : list Z) : Prop := match rest with [] => True | b :: _ => num_char b = false end.

Lemma num_loop_stop rest s : stops rest -> forall signOk dotOk eOk ed, num_loop signOk dotOk eOk ed rest s = Ret (s, rest).
Proof.
  intros Hs signOk dotOk eOk ed. destruct rest as [|b rest]; [done|]. cbn in Hs. unfold num_char in Hs. rewrite !orb_false_iff in Hs.
  destruct Hs as (((((H1 & H2) & H3) & H4) & H5) & H6). cbn [num_loop]. by rewrite H1, H2, H3, H4, H5, H6.
Qed.

Lemma num_loop_app t rest : stops rest -> forall signOk dotOk eOk ed s y,
  num_loop signOk dotOk eOk ed t s = Ret (y, []) -> num_loop signOk dotOk eOk ed (t ++ rest) s = Ret (y, rest).
Proof.
  intros Hstop. induction t as [|x t IH]; intros signOk dotOk eOk ed s y E; cbn [app].
  - injection E as <-. by apply num_loop_stop.
  - cbn [num_loop] in *. destruct (_ || _).
    { apply bind_Ret_inv in E as (u & -> & E). by apply IH. }
    destruct (x =? DOT).
    { apply bind_Ret_inv in E as (u & -> & E). by apply IH. }
    destruct ((x =? 101) || (x =? 69)).
    { apply bind_Ret_inv in E as (u & -> & E). by apply IH. }
    destruct (isdigit x); [by apply IH|done].
Qed.

Lemma ParseJsonNum_app s rest : number_text s -> stops rest -> ParseJsonNum (s ++ rest) = Ret (ANumber s, rest).
Proof.
  intros (E & l & f & El & Ef & Eb)%number_text_inv Hs. unfold ParseJsonNum. rewrite (num_loop_app s rest Hs _ _ _ _ _ _ E). cbn [mbind outcome_bind].
  rewrite El, Ef. unfold bad_end in Eb. by rewrite Eb.
Qed.

Lemma number_text_start s : number_text s -> exists c t, s = c :: t /\ starts_number c = true.
Proof.
  intros (E & l & f & El & Ef & _)%number_text_inv. destruct s as [|c t]; [done|]. exists c, t. split; [done|]. unfold starts_number. num_step E.
  - destruct H as [-> | ->]; reflexivity.
  - subst. reflexivity.
  - rewrite H. by rewrite !orb_true_r.
Qed.

Lemma print_dec_nonempty n : print_dec n <> [].
Proof. unfold print_dec. intros E. apply (f_equal length) in E. revert E. cbn [print_loop]. destruct (n <? 10); [done|]. rewrite length_app. cbn. lia. Qed.

Lemma to_string_number z : number_text (to_string z).
Proof.
  apply number_format_text. unfold to_string. assert (Hm : forall n, 0 <= n -> mantissa (print_dec n)).
  { intros n Hn. exists (print_dec n), []. split_and!; [by apply print_dec_digits|constructor|]. left. split; [done|apply print_dec_nonempty]. }
  destruct (Z.ltb_spec z 0).
  - exists [MINUS], (print_dec (- z)), []. split_and!; [by rewrite app_nil_r|right; exists MINUS; split; [done|by right]|apply Hm; lia|by left].
  - exists [], (print_dec z), []. split_and!; [by rewrite app_nil_r|by left|apply Hm; lia|by left].
Qed.

(** ** Printing and parsing back *)

(** What the parser makes of a value: an integer comes back as its text. *)
Fixpoint as_parsed (a : Any) : Any :=
  match a with
  | AInt _ z => ANumber (to_string z)
  | AVector v => AVector (as_parsed <$> v)
  | AMap m => AMap (prod_map id as_parsed <$> m)
  | _ => a
  end.

(** Where a value starts: on no blank, comment, comma or bracket. *)
Definition starts_value (c : Z) : Prop := is_blank c = false /\ c <> SLASH /\ c <> COMMA /\ c <> RBRACKET.

Lemma starts_number_value c : starts_number c = true -> starts_value c.
Proof.
  unfold starts_number, starts_value, is_blank, isdigit. rewrite !orb_true_iff, andb_true_iff, !Z.eqb_eq, !Z.leb_le. intros H.
  split_and!; [|lia..]. rewrite !orb_false_iff, !Z.eqb_neq. lia.
Qed.

(** The text of a value behind its prefix. *)
Lemma ToString_start a isCompact prefix : well_typed (as_parsed a) -> exists c t, ToString a isCompact prefix = prefix ++ c :: t /\ starts_value c.
Proof.
  assert (Hn : forall s, number_text s -> exists c t, prefix ++ s = prefix ++ c :: t /\ starts_value c).
  { intros s (c & t & -> & Hc)%number_text_start. exists c, t. split; [done|by apply starts_number_value]. }
  destruct a as [|b|s|s|type z|v|m]; cbn [as_parsed ToString]; intros Hw.
  - do 2 eexists. split; [reflexivity|by vm_compute].
  - destruct b; do 2 eexists; (split; [reflexivity|by vm_compute]).
  - do 2 eexists. split; [reflexivity|by vm_compute].
  - inversion Hw; subst. by apply Hn.
  - inversion Hw; subst. by apply Hn.
  - do 2 eexists. split; [reflexivity|by vm_compute].
  - do 2 eexists. split; [reflexivity|by vm_compute].
Qed.

Definition reads_back (a : Any) : Prop :=
  well_typed (as_parsed a) -> forall isCompact prefix rest fuel, blanks prefix -> stops rest -> (2 * length (ToString a isCompact prefix) + 1 <= fuel)%nat ->
  ParseJson fuel (ToString a isCompact prefix ++ rest) = Ret (as_parsed a, rest).

(** A value at the head of an input without blanks. *)
Lemma reads_value a isCompact prefix rest : well_typed (as_parsed a) -> blanks prefix -> reads_back a ->
  exists c t, ToString a isCompact prefix = prefix ++ c :: t /\ starts_value c /\
    forall fuel, stops rest -> (2 * length (ToString a isCompact prefix) + 1 <= fuel)%nat -> ParseJson fuel ((c :: t) ++ rest) = Ret (as_parsed a, rest).
Proof.
  intros Hw Hb Hr. destruct (ToString_start a isCompact prefix Hw) as (c & t & E & Hc). exists c, t. split_and!; [done|done|]. intros fuel Hs Hf.
  rewrite <- (Hr Hw isCompact prefix rest fuel Hb Hs Hf), E, <- app_assoc. symmetry. apply ParseJson_blanks; [done|]. by destruct Hc as (? & ? & _).
Qed.

(** What follows a value: a comma, a newline or the closing bracket. *)
Lemma stops_items {A} (print : A -> list Z) v tail c rest :
  blanks tail -> num_char c = false -> stops (comma_separated print false v ++ tail ++ c :: rest).
Proof.
  intros Ht Hc. destruct v as [|x v]; [|done]. cbn [comma_separated app]. destruct tail as [|b tail]; [done|]. apply Forall_cons in Ht as [Hb _].
  unfold is_blank in Hb. rewrite !orb_true_iff, !Z.eqb_eq in Hb. by destruct Hb as [[[-> | ->]| ->]| ->].
Qed.

Section Vector.

Context (isCompact : bool) (prefix tail rest : list Z) (Hprefix : blanks prefix) (Htail : blanks tail).

Abbreviation item := (fun x => newline isCompact ++ ToString x isCompact prefix).
Abbreviation items_text := (fun first v => comma_separated item first v ++ tail ++ RBRACKET :: rest).

Lemma array_loop_item x v ret fuel :
  well_typed (as_parsed x) -> reads_back x ->
  (forall fuel, (2 * length (items_text false v) + 2 <= fuel + 2 * length rest)%nat ->
     (inp ← SkipSpace (items_text false v); array_loop fuel inp (ret ++ [as_parsed x]) true) = Ret (ret ++ (as_parsed <$> x :: v), rest)) ->
  (2 * length (item x ++ items_text false v) + 2 <= fuel + 2 * length rest)%nat ->
  (inp ← SkipSpace (item x ++ items_text false v); array_loop fuel inp ret false) = Ret (ret ++ (as_parsed <$> x :: v), rest).
Proof using Hprefix Htail.
  intros Hw Hx Hv Hf. destruct (reads_value x isCompact prefix (items_text false v) Hw Hprefix Hx) as (c & t & E & Hc & Hp).
  rewrite !length_app in Hf. cbn [length] in Hf. rewrite E, <- !app_assoc, (app_assoc (newline isCompact)).
  rewrite SkipSpace_blanks by (apply Forall_app; split; [apply blanks_newline|done] || by destruct Hc as (? & ? & _)).
  cbn [mbind outcome_bind app]. destruct fuel as [|fuel]; [lia|]. cbn [array_loop]. destruct Hc as (_ & _ & Hcomma & Hbr).
  rewrite (proj2 (Z.eqb_neq c COMMA)), (proj2 (Z.eqb_neq c RBRACKET)) by done. cbn [trueThenThrow mbind outcome_bind].
  change (c :: t ++ ?y) with ((c :: t) ++ y). rewrite Hp; [|by apply stops_items|lia]. cbn [mbind outcome_bind]. apply Hv.
  rewrite E, length_app in Hf. cbn [length] in Hf. rewrite !length_app. cbn [length]. lia.
Qed.

Lemma array_loop_more v : forall ret fuel, Forall reads_back v -> Forall well_typed (as_parsed <$> v) ->
  (2 * length (items_text false v) + 2 <= fuel + 2 * length rest)%nat ->
  (inp ← SkipSpace (items_text false v); array_loop fuel inp ret true) = Ret (ret ++ (as_parsed <$> v), rest).
Proof using Hprefix Htail.
  induction v as [|x v IH]; intros ret fuel Hr Hw Hf.
  - cbn [comma_separated app fmap list_fmap]. rewrite SkipSpace_blanks by done. cbn [mbind outcome_bind]. rewrite app_nil_r.
    destruct fuel as [|fuel]; [|done]. exfalso. cbn [comma_separated app] in Hf. rewrite length_app in Hf. cbn [length] in Hf. lia.
  - apply Forall_cons in Hr as [Hrx Hr]. cbn [fmap list_fmap] in Hw. apply Forall_cons in Hw as [Hwx Hw]. cbn [comma_separated] in *. rewrite <- !app_assoc in *.
    cbn [app] in *. cbn [length] in Hf. destruct fuel as [|fuel]; [rewrite !length_app in Hf; cbn [length] in Hf; lia|].
    rewrite SkipSpace_settled by done. cbn [mbind outcome_bind array_loop]. change (COMMA =? COMMA) with true. cbn [negb trueThenThrow mbind outcome_bind].
    pose proof (array_loop_item x v ret fuel Hwx Hrx) as Hi. cbv beta in Hi. rewrite <- !app_assoc in Hi. apply Hi; [|lia].
    intros fuel' Hf'. rewrite (IH (ret ++ [as_parsed x]) fuel'); [|done..]. by rewrite <- app_assoc.
Qed.

Lemma array_loop_all v fuel : Forall reads_back v -> Forall well_typed (as_parsed <$> v) ->
  (2 * length (items_text true v) + 2 <= fuel + 2 * length rest)%nat ->
  (inp ← SkipSpace (items_text true v); array_loop fuel inp [] false) = Ret (as_parsed <$> v, rest).
Proof using Hprefix Htail.
  intros Hr Hw Hf. destruct v as [|x v].
  - cbn [comma_separated app]. rewrite SkipSpace_blanks by done. cbn [mbind outcome_bind]. destruct fuel as [|fuel]; [|done].
    exfalso. cbn [comma_separated app] in Hf. rewrite length_app in Hf. cbn [length] in Hf. lia.
  - apply Forall_cons in Hr as [Hrx Hr]. cbn [fmap list_fmap] in Hw. apply Forall_cons in Hw as [Hwx Hw]. cbn [comma_separated app] in *. rewrite <- !app_assoc in *.
    pose proof (array_loop_item x v [] fuel Hwx Hrx) as Hi. cbv beta in Hi. rewrite <- !app_assoc in Hi. apply Hi; [|lia].
    intros fuel' Hf'. by apply (array_loop_more v [as_parsed x] fuel').
Qed.

End Vector.

Ltac count_chars := repeat first [rewrite -> !length_app in * | progress cbn [length app] in *].

(** The last key of a map. *)
Lemma map_insert_last k v m : Forall (fun k' => key_lt k' k) m.*1 -> map_insert k v m = m ++ [(k, v)].
Proof.
  induction m as [|[k' v'] m IH]; cbn; [done|]. intros [Hk Hm]%Forall_cons. rewrite (key_lt_asym _ _ Hk), bool_decide_false; [by rewrite IH|].
  intros ->. unfold key_lt in Hk. by rewrite str_lt_irrefl in Hk.
Qed.

Lemma sorted_map_mid k v a b : sorted_map (a ++ (k, v) :: b) -> Forall (fun k' => key_lt k' k) a.*1.
Proof.
  unfold sorted_map. induction a as [|[k' v'] a IH]; cbn; intros Hs; [constructor|]. apply StronglySorted_inv in Hs as [Hs Hf]. constructor; [|by apply IH].
  rewrite fmap_app, Forall_app in Hf. destruct Hf as [_ Hf]. by apply Forall_cons in Hf as [? _].
Qed.

Lemma map_assign_last k v m : Forall (fun k' => key_lt k' k) m.*1 -> map_assign k v (map_insert k AVoid m) = m ++ [(k, v)].
Proof.
  intros Hm. rewrite map_insert_last by done. apply map_assign_at. intros Hk. rewrite Forall_forall in Hm. specialize (Hm _ Hk).
  unfold key_lt in Hm. by rewrite str_lt_irrefl in Hm.
Qed.

Section Map.

Context (isCompact : bool) (prefix tail rest : list Z) (Hprefix : blanks prefix) (Htail : blanks tail).

Abbreviation deep := (deeper isCompact prefix).
Abbreviation entry := (fun '(k, x) =>
  newline isCompact ++ prefix ++ [QUOTE] ++ QuoteString k [] ++ [QUOTE; COLON] ++ newline isCompact ++ ToString x isCompact deep).
Abbreviation entries_text := (fun first m => comma_separated entry first m ++ tail ++ RBRACE :: rest).
Abbreviation parsed := (prod_map id as_parsed).

Lemma map_loop_entry k x m ret fuel :
  well_typed (as_parsed x) -> reads_back x -> Forall (fun k' => key_lt k' k) ret.*1 ->
  (forall fuel, (2 * length (entries_text false m) + 2 <= fuel + 2 * length rest)%nat ->
     (inp ← SkipSpace (entries_text false m); map_loop fuel inp (ret ++ [(k, as_parsed x)]) (S (length ret)) true) = Ret (ret ++ (parsed <$> (k, x) :: m), rest)) ->
  (2 * length (entry (k, x) ++ entries_text false m) + 2 <= fuel + 2 * length rest)%nat ->
  (inp ← SkipSpace (entry (k, x) ++ entries_text false m); map_loop fuel inp ret (length ret) false) = Ret (ret ++ (parsed <$> (k, x) :: m), rest).
Proof using Hprefix Htail.
  cbv beta iota. intros Hw Hx Hk Hm Hf. pose proof (blanks_deeper isCompact prefix Hprefix) as Hdeep.
  rewrite !length_app in Hf. cbn [length] in Hf. rewrite <- !app_assoc, (app_assoc (newline isCompact)).
  rewrite SkipSpace_blanks by (done || (apply Forall_app; split; [apply blanks_newline|done])).
  cbn [mbind outcome_bind]. destruct fuel as [|fuel]; [lia|]. cbn [app map_loop].
  change (QUOTE =? RBRACE) with false. change (QUOTE =? COMMA) with false. cbn match. cbn [trueThenThrow mbind outcome_bind].
  change (QUOTE :: QuoteString k [] ++ QUOTE :: COLON :: ?y) with ([QUOTE] ++ QuoteString k [] ++ [QUOTE] ++ COLON :: y).
  rewrite quoted_string. cbn [mbind outcome_bind]. rewrite map_insert_last by done. rewrite (proj2 (Nat.eqb_neq _ _)) by (rewrite length_app; cbn; lia).
  cbn [trueThenThrow mbind outcome_bind]. rewrite SkipSpace_settled by done. cbn [mbind outcome_bind].
  change (COLON :: ?y) with ([COLON] ++ y). rewrite SkipExact_app. cbn [mbind outcome_bind].
  destruct (reads_value x isCompact deep (entries_text false m) Hw Hdeep Hx) as (c & t & E & Hc & Hp).
  rewrite E, <- app_assoc, (app_assoc (newline isCompact)).
  rewrite ParseJson_blanks by (apply Forall_app; split; [apply blanks_newline|done] || by destruct Hc as (? & ? & _)).
  rewrite Hp; [|by apply stops_items|lia]. cbn [catch_nothing mbind outcome_bind]. rewrite <- (map_insert_last k AVoid ret Hk), map_assign_last by done. apply Hm.
  rewrite E, length_app in Hf. cbn [length] in Hf. rewrite !length_app. cbn [length]. lia.
Qed.

(** The entries before and after are in order. *)
Definition entries_in_order (ret m : JsonMap) : Prop := sorted_map (ret ++ m) /\ Forall (fun kv => well_typed (as_parsed kv.2)) m.

Lemma map_loop_more m : forall ret fuel, Forall (fun kv => reads_back kv.2) m -> entries_in_order ret m ->
  (2 * length (entries_text false m) + 2 <= fuel + 2 * length rest)%nat ->
  (inp ← SkipSpace (entries_text false m); map_loop fuel inp ret (length ret) true) = Ret (ret ++ (parsed <$> m), rest).
Proof using Hprefix Htail.
  induction m as [|[k x] m IH]; intros ret fuel Hr [Hs Hw] Hf.
  - cbn [comma_separated app fmap list_fmap]. rewrite SkipSpace_blanks by done. cbn [mbind outcome_bind]. rewrite app_nil_r.
    destruct fuel as [|fuel]; [|done]. exfalso. cbn [comma_separated app] in Hf. rewrite length_app in Hf. cbn [length] in Hf. lia.
  - apply Forall_cons in Hr as [Hrx Hr]. apply Forall_cons in Hw as [Hwx Hw]. apply sorted_map_mid in Hs as Hk. cbn [comma_separated] in *. rewrite <- !app_assoc in *.
    cbn [app] in *. cbn [length] in Hf. destruct fuel as [|fuel]; [count_chars; lia|].
    rewrite SkipSpace_settled by done. cbn [mbind outcome_bind map_loop]. change (COMMA =? RBRACE) with false. change (COMMA =? COMMA) with true.
    cbn [negb trueThenThrow mbind outcome_bind].
    pose proof (map_loop_entry k x m ret fuel Hwx Hrx Hk) as Hi. cbv beta iota in Hi. rewrite <- !app_assoc in Hi. apply Hi; [|count_chars; lia].
    intros fuel' Hf'. replace (S (length ret)) with (length (ret ++ [(k, as_parsed x)])) by (rewrite length_app; cbn; lia).
    etrans; [apply (IH (ret ++ [(k, as_parsed x)]) fuel'); [done| |done]|by rewrite <- app_assoc]. split; [|done]. unfold sorted_map in *. rewrite <- app_assoc. by rewrite !fmap_app in *.
Qed.

Lemma map_loop_all m fuel : Forall (fun kv => reads_back kv.2) m -> entries_in_order [] m ->
  (2 * length (entries_text true m) + 2 <= fuel + 2 * length rest)%nat ->
  (inp ← SkipSpace (entries_text true m); map_loop fuel inp [] 0 false) = Ret (parsed <$> m, rest).
Proof using Hprefix Htail.
  intros Hr [Hs Hw] Hf. destruct m as [|[k x] m].
  - cbn [comma_separated app]. rewrite SkipSpace_blanks by done. cbn [mbind outcome_bind]. destruct fuel as [|fuel]; [|done].
    exfalso. cbn [comma_separated app] in Hf. rewrite length_app in Hf. cbn [length] in Hf. lia.
  - apply Forall_cons in Hr as [Hrx Hr]. apply Forall_cons in Hw as [Hwx Hw]. cbn [comma_separated] in *. rewrite <- !app_assoc in *. cbn [app] in *.
    pose proof (map_loop_entry k x m [] fuel Hwx Hrx ltac:(constructor)) as Hi. cbv beta iota in Hi. rewrite <- !app_assoc in Hi. apply Hi; [|count_chars; lia].
    intros fuel' Hf'. apply (map_loop_more m [(k, as_parsed x)] fuel'); [done|by split|done].
Qed.

End Map.

Lemma well_typed_entries (m : JsonMap) : Forall (fun kv => well_typed kv.2) (prod_map id as_parsed <$> m) -> Forall (fun kv : list Z * Any => well_typed (as_parsed kv.2)) m.
Proof. rewrite Forall_fmap. exact id. Qed.

Lemma sorted_map_parsed (m : JsonMap) : sorted_map (prod_map id as_parsed <$> m) -> sorted_map m.
Proof. unfold sorted_map. by rewrite <- list_fmap_compose. Qed.

(** A value that is no vector or map. *)
Definition scalar_text (a : Any) (text : list Z) : Prop :=
  match a with
  | AVoid => text = lit "null"
  | ABool b => text = if b then lit "true" else lit "false"
  | AString s => text = [QUOTE] ++ QuoteString s [] ++ [QUOTE]
  | ANumber s => text = s
  | _ => False
  end.

Lemma scalar_back a text prefix rest fuel :
  well_typed a -> blanks prefix -> stops rest -> scalar_text a text -> ParseJson (S fuel) ((prefix ++ text) ++ rest) = Ret (a, rest).
Proof.
  intros Hw Hb Hs Ht. rewrite <- app_assoc. destruct a as [|b|s|s| | |]; cbn [scalar_text] in Ht; [subst text|subst text|subst text|subst text|done..].
  - rewrite ParseJson_blanks by (done || by vm_compute). reflexivity.
  - rewrite ParseJson_blanks by (done || by destruct b). destruct b; reflexivity.
  - rewrite ParseJson_blanks by done. cbn [ParseJson]. rewrite SkipSpace_settled by done. cbn [mbind outcome_bind]. rewrite <- !app_assoc. by rewrite quoted_string.
  - inversion Hw as [| | |s' Ht| |]; subst. destruct (number_text_start s Ht) as (c & t & E & Hc).
    apply starts_number_value in Hc as Hv. assert (Hset : settled (s ++ rest)) by (rewrite E; by destruct Hv as (? & ? & _)).
    rewrite ParseJson_blanks by done. cbn [ParseJson]. rewrite SkipSpace_settled by done. cbn [mbind outcome_bind].
    destruct (s ++ rest) as [|c' t'] eqn:Et; [by rewrite E in Et|]. assert (c' = c) as -> by (rewrite E in Et; by injection Et).
    rewrite <- Et. assert (Hne : forall x, starts_number x = false -> c =? x = false) by (intros x Hx; apply Z.eqb_neq; intros ->; congruence).
    rewrite !Hne by reflexivity. rewrite Hc. by apply ParseJsonNum_app.
Qed.

Lemma parses_back a : reads_back a.
Proof.
  induction a as [|b|s|s|type z|v IH|m IH] using Any_ind; intros Hw isCompact prefix rest fuel Hb Hs Hf; cbn [ToString as_parsed] in *;
    (destruct fuel as [|fuel]; [lia|]).
  1-5: by apply scalar_back.
  - rewrite <- !app_assoc, ParseJson_blanks by done. cbn [ParseJson]. rewrite SkipSpace_settled by done. cbn [mbind outcome_bind app].
    change (LBRACKET =? LBRACKET) with true. cbn match. unfold ParseJsonArray. change (LBRACKET :: ?y) with ([LBRACKET] ++ y). rewrite SkipExact_app. cbn [mbind outcome_bind].
    inversion Hw as [| | | |v' Hv|]; subst.
    pose proof (array_loop_all isCompact (deeper isCompact prefix) (newline isCompact ++ prefix) rest) as Hl. rewrite <- !app_assoc in Hl. rewrite Hl; [done|by apply blanks_deeper| |done|done|].
    + apply Forall_app. split; [apply blanks_newline|done].
    + count_chars. lia.
  - rewrite <- !app_assoc, ParseJson_blanks by done. cbn [ParseJson]. rewrite SkipSpace_settled by done. cbn [mbind outcome_bind app].
    change (LBRACE =? LBRACKET) with false. change (LBRACE =? LBRACE) with true. cbn match. unfold ParseJsonMap. change (LBRACE :: ?y) with ([LBRACE] ++ y).
    rewrite SkipExact_app. cbn [mbind outcome_bind]. inversion Hw as [| | | | |m' Hsm Hm]; subst.
    pose proof (map_loop_all isCompact prefix (newline isCompact ++ prefix) rest) as Hl. rewrite <- !app_assoc in Hl. rewrite Hl; [done|done| |done| |].
    + apply Forall_app. split; [apply blanks_newline|done].
    + split; [by apply sorted_map_parsed|by apply well_typed_entries].
    + count_chars. lia.
Qed.

(** ** Properties *)

(** The texts that [ParseJsonNum] accepts are those of the format its
    comment gives, and the lonely point. *)
Theorem number_grammar s : number_text s <-> number_format s \/ s = [DOT].
Proof. split; [apply number_text_format|]. intros [?| ->]; [by apply number_format_text|done]. Qed.

Lemma parse_all a isCompact prefix : well_typed (as_parsed a) -> blanks prefix -> ParseJsonText (ToString a isCompact prefix) = Ret (as_parsed a).
Proof.
  intros Hw Hb. unfold ParseJsonText. pose proof (parses_back a Hw isCompact prefix [] (json_fuel (ToString a isCompact prefix)) Hb I) as Hp.
  rewrite app_nil_r in Hp. by rewrite Hp.
Qed.

(** C31: what [ToString] prints, compact or not and behind any prefix of
    blanks, [ParseJson] reads back: strings with all their characters, maps
    with all their entries, integers as their text. *)
Theorem print_parse a isCompact prefix :
  well_typed (as_parsed a) -> blanks prefix -> ParseJsonText (ToString a isCompact prefix) = Ret (as_parsed a).
Proof. apply parse_all. Qed.

Definition print_parse_value : Any :=
  AMap [(lit "a", AVector [AInt Int32 (-12); AString [QUOTE; LF; 200]; AVoid]); (lit "b", AMap [])].

Lemma print_parse_witness : ParseJsonText (ToString print_parse_value false [TAB]) = Ret (as_parsed print_parse_value).
Proof.
  apply (print_parse print_parse_value false [TAB]); [|by repeat constructor]. constructor.
  - repeat constructor.
  - repeat constructor; apply to_string_number.
Defined.

Lemma well_typed_parsed a : well_typed a -> as_parsed a = a.
Proof.
  induction a as [|b|s|s|type z|v IH|m IH] using Any_ind; intros Hw; inversion Hw; subst; cbn [as_parsed]; try done; f_equal.
  - induction v as [|x v IHv]; [done|]. repeat match goal with H : Forall _ (_ :: _) |- _ => apply Forall_cons in H as [] end. cbn. f_equal; [auto|].
    apply IHv; [done|by constructor|done].
  - match goal with H : sorted_map _ |- _ => clear H end. clear Hw. induction m as [|[k x] m IHm]; [done|]. repeat match goal with H : Forall _ (_ :: _) |- _ => apply Forall_cons in H as [] end. cbn in *. f_equal; [|auto].
    unfold prod_map. cbn. f_equal. auto.
Qed.

(** Printing what [ParseJson] returned and parsing again gives the same
    value: no comment, blank or escape of the text matters. *)
Theorem parse_print_parse inp a isCompact prefix :
  ParseJsonText inp = Ret a -> blanks prefix -> ParseJsonText (ToString a isCompact prefix) = Ret a.
Proof.
  intros E Hb. assert (Hw : well_typed a).
  { unfold ParseJsonText in E. pose proof (ParseJson_cases inp) as Hp. destruct (ParseJson _ inp) as [[a' rest]|e|]; [|done|done]. cbn [mbind outcome_bind] in E.
    apply bind_Ret_inv in E as ([|] & _ & [= <-]). apply Hp. }
  rewrite <- (well_typed_parsed a Hw) at 2. apply parse_all; [|done]. by rewrite well_typed_parsed.
Qed.

Lemma parse_print_parse_witness :
  ParseJsonText (ToString (AMap [(lit "k", AVector [ANumber (lit "1.5e3"); AString (lit "/")])]) true []) = Ret (AMap [(lit "k", AVector [ANumber (lit "1.5e3"); AString (lit "/")])]).
Proof. apply (parse_print_parse ([LBRACE; QUOTE] ++ lit "k" ++ [QUOTE] ++ lit " : /* c */ [1.5e3, " ++ [QUOTE; SLASH; QUOTE] ++ lit "] } // end")); [by vm_compute|constructor]. Defined.
