(* ===== verification/CircularQueue.v ===== *)
(** * CircularQueue and the queues of work items

    Sources: src/agent_engine/util/circular_queue.h and workitem_queue.h.

    [CircularQueue] is a double-ended queue in an array of fixed capacity with
    the indices of its first and last element; [crep q l] says that it holds
    the elements [l], and each operation refines the operation on lists.

    [WorkItemQueue] is the interface of workitem_queue.h that the thread pool
    uses, with the laws its users rely on; [CircularPoolQueue] and
    [ThreadPoolQueue] are instances. *)

From S2P Require Import Prelude.

(** ** CircularQueue

    An element that [new T[capacity]] left indeterminate is [None]. *)

Record CircularQueue (T : Type) := mkCircularQueue {
  items_ : list (option T);
  capacity_ : Z;  (* int32_t *)
  size_ : Z;      (* int32_t *)
  front_ : Z;     (* int32_t *)
  back_ : Z       (* int32_t *)
}.
Arguments mkCircularQueue {T}.
Arguments items_ {T}.
Arguments capacity_ {T}.
Arguments size_ {T}.
Arguments front_ {T}.
Arguments back_ {T}.

Section circular.
Context {T : Type}.
Implicit Types (q : CircularQueue T) (l : list T) (t : T).

(** Reading and writing [items_[i]]; [None] outside the array. *)
Definition get_item q (i : Z) : option T := assertb (0 <=? i);; mjoin (items_ q !! Z.to_nat i).

Definition set_item q (i : Z) t : option (CircularQueue T) :=
  assertb ((0 <=? i) && (i <? Z.of_nat (length (items_ q))));;
  Some (mkCircularQueue (<[Z.to_nat i := Some t]> (items_ q)) (capacity_ q) (size_ q) (front_ q) (back_ q)).

(** Signed arithmetic on [int32_t]; overflow has no defined result. *)
Definition int32 (z : Z) : option Z := assertb ((INT_MIN <=? z) && (z <=? INT_MAX));; Some z.

Definition CircularQueue_new (capacity : Z) : option (CircularQueue T) :=
  assertb (capacity <? 2 ^ 31 - 1);;
  Some (mkCircularQueue (replicate (Z.to_nat capacity) None) (i32 capacity) 0 0 0).

Definition push_front q t : option (CircularQueue T) :=
  assertb (size_ q <? capacity_ q);;
  '(f, b) ← (if size_ q =? 0 then Some (0, 0)
             else f ← int32 (front_ q - 1); Some (if f =? -1 then capacity_ q - 1 else f, back_ q));
  n ← int32 (size_ q + 1);
  set_item (mkCircularQueue (items_ q) (capacity_ q) n f b) f t.

Definition push_back q t : option (CircularQueue T) :=
  assertb (size_ q <? capacity_ q);;
  '(f, b) ← (if size_ q =? 0 then Some (0, 0)
             else b ← int32 (back_ q + 1); Some (front_ q, if b =? capacity_ q then 0 else b));
  n ← int32 (size_ q + 1);
  set_item (mkCircularQueue (items_ q) (capacity_ q) n f b) b t.

Definition pop_front q : option (CircularQueue T) :=
  assertb (negb (size_ q =? 0));;
  f ← int32 (front_ q + 1);
  n ← int32 (size_ q - 1);
  Some (mkCircularQueue (items_ q) (capacity_ q) n (if f =? capacity_ q then 0 else f) (back_ q)).

Definition pop_back q : option (CircularQueue T) :=
  assertb (negb (size_ q =? 0));;
  b ← int32 (back_ q - 1);
  n ← int32 (size_ q - 1);
  Some (mkCircularQueue (items_ q) (capacity_ q) n (front_ q) (if b =? -1 then capacity_ q - 1 else b)).

Definition front q : option T := get_item q (front_ q).
Definition back q : option T := get_item q (back_ q).
Definition size q : Z := u64 (size_ q).
Definition capacity q : Z := u64 (capacity_ q).
Definition empty q : bool := size_ q =? 0.

(** ** The elements of the queue *)

(** The slot of the element at distance [k] from the first one. *)
Definition slot (c f k : Z) : Z := (f + k) mod c.

Record crep q l : Prop := {
  crep_capacity : capacity_ q = Z.of_nat (length (items_ q)) /\ capacity_ q < INT_MAX;
  crep_size : size_ q = Z.of_nat (length l) /\ size_ q <= capacity_ q;
  crep_front : l <> [] -> 0 <= front_ q < capacity_ q;
  crep_back : l <> [] -> back_ q = slot (capacity_ q) (front_ q) (size_ q - 1);
  crep_items k t : l !! k = Some t ->
    items_ q !! Z.to_nat (slot (capacity_ q) (front_ q) (Z.of_nat k)) = Some (Some t)
}.

Lemma slot_range c f k : 0 < c -> 0 <= slot c f k < c.
Proof. apply Z.mod_pos_bound. Qed.

Lemma slot_inj c f j k : 0 <= j < c -> 0 <= k < c -> slot c f j = slot c f k -> j = k.
Proof.
  unfold slot. intros Hj Hk He.
  pose proof (Z.div_mod (f + j) c). pose proof (Z.div_mod (f + k) c).
  assert (Hd : j - k = c * ((f + j) / c - (f + k) / c)) by lia.
  assert ((f + j) / c - (f + k) / c = 0) by nia. lia.
Qed.

Lemma slot_0 c f : 0 <= f < c -> slot c f 0 = f.
Proof. intros ?. unfold slot. rewrite Z.mod_small; lia. Qed.

(** Advancing an index by one and wrapping at the capacity. *)
Lemma slot_next c f k : 0 < c -> slot c f (k + 1) = (if slot c f k + 1 =? c then 0 else slot c f k + 1).
Proof.
  intros Hc. unfold slot. replace (f + (k + 1)) with (f + k + 1) by lia.
  rewrite <- Zplus_mod_idemp_l. pose proof (Z.mod_pos_bound (f + k) c Hc).
  case_bool; [replace ((f + k) mod c + 1) with c by lia; apply Z.mod_same; lia|].
  apply Z.mod_small; lia.
Qed.

(** Going back by one and wrapping at zero. *)
Lemma slot_prev c f k : 0 < c -> slot c f (k - 1) = (if slot c f k - 1 =? -1 then c - 1 else slot c f k - 1).
Proof.
  intros Hc. replace (slot c f k) with (slot c f (k - 1 + 1)) by (f_equal; lia).
  rewrite slot_next by done. pose proof (slot_range c f (k - 1) Hc).
  destruct (slot c f (k - 1) + 1 =? c) eqn:?; bool_to_prop; repeat case_bool; lia.
Qed.

(** Moving the first index by [d] moves every slot by [d]. *)
Lemma slot_slot c f d k : 0 < c -> slot c (slot c f d) k = slot c f (d + k).
Proof. intros Hc. unfold slot. rewrite Zplus_mod_idemp_l. f_equal; lia. Qed.

Lemma int32_Some z : INT_MIN <= z <= INT_MAX -> int32 z = Some z.
Proof. intros ?. unfold int32. by replace (_ && _) with true by (symmetry; apply andb_true_iff; lia). Qed.

Lemma set_item_Some q i t : 0 <= i < Z.of_nat (length (items_ q)) ->
  set_item q i t = Some (mkCircularQueue (<[Z.to_nat i := Some t]> (items_ q)) (capacity_ q) (size_ q) (front_ q) (back_ q)).
Proof. intros ?. unfold set_item. by replace (_ && _) with true by (symmetry; apply andb_true_iff; lia). Qed.

Lemma crep_new n : 0 <= n < 2 ^ 31 - 1 -> exists q, CircularQueue_new n = Some q /\ crep q [] /\ capacity q = n.
Proof.
  intros Hn. unfold CircularQueue_new. replace (n <? 2 ^ 31 - 1) with true by lia.
  eexists; split; [reflexivity|]. unfold capacity. cbn [capacity_].
  rewrite i32_small by (unfold INT_MIN, INT_MAX; lia). split; [|apply wrapu_small; lia].
  split; cbn; try done; rewrite ?length_replicate, ?i32_small by (unfold INT_MIN, INT_MAX; lia);
    unfold INT_MAX; lia.
Qed.

Lemma crep_size_eq q l : crep q l -> size q = Z.of_nat (length l).
Proof. intros [? [Hs ?] _ _ _]. unfold size. rewrite Hs. apply wrapu_small. unfold INT_MAX in *. lia. Qed.

Lemma crep_capacity_eq q l : crep q l -> capacity q = capacity_ q.
Proof. intros [? ? _ _ _]. unfold capacity. apply wrapu_small. unfold INT_MAX in *. lia. Qed.

Lemma crep_empty q l : crep q l -> empty q = bool_decide (l = []).
Proof. intros [_ [Hs _] _ _ _]. unfold empty. rewrite Hs. destruct l; [done|]. by rewrite bool_decide_eq_false_2. Qed.

Lemma crep_index q l k t : crep q l -> l !! k = Some t ->
  get_item q (slot (capacity_ q) (front_ q) (Z.of_nat k)) = Some t.
Proof.
  intros Hq Hk. unfold get_item.
  assert (0 < capacity_ q) by (pose proof (lookup_lt_Some _ _ _ Hk); destruct Hq; lia).
  pose proof (slot_range (capacity_ q) (front_ q) (Z.of_nat k)) as Hr.
  replace (0 <=? _) with true by lia. cbn. by rewrite (crep_items _ _ Hq _ _ Hk).
Qed.

Lemma front_spec q t l : crep q (t :: l) -> front q = Some t.
Proof.
  intros Hq. unfold front. rewrite <- (slot_0 (capacity_ q) (front_ q)) by (by apply (crep_front _ _ Hq)).
  by apply (crep_index _ _ 0 _ Hq).
Qed.

Lemma back_spec q t l : crep q (l ++ [t]) -> back q = Some t.
Proof.
  intros Hq. unfold back. rewrite (crep_back _ _ Hq) by (by destruct l).
  replace (size_ q - 1) with (Z.of_nat (length l)) by (destruct (crep_size _ _ Hq) as [-> _]; rewrite length_app; cbn; lia).
  apply (crep_index _ _ _ _ Hq). by rewrite list_lookup_middle.
Qed.

(** A queue with one element more, written to a slot no other element uses. *)
Lemma crep_write q l l' f b i t :
  crep q l -> Z.of_nat (length l) < capacity_ q -> 0 <= i < capacity_ q ->
  length l' = S (length l) -> 0 <= f < capacity_ q -> b = slot (capacity_ q) f (Z.of_nat (length l)) ->
  (forall k u, l' !! k = Some u ->
     (u = t /\ slot (capacity_ q) f (Z.of_nat k) = i) \/
     (slot (capacity_ q) f (Z.of_nat k) <> i /\ items_ q !! Z.to_nat (slot (capacity_ q) f (Z.of_nat k)) = Some (Some u))) ->
  crep (mkCircularQueue (<[Z.to_nat i := Some t]> (items_ q)) (capacity_ q) (size_ q + 1) f b) l'.
Proof.
  intros [[Hc1 Hc2] [Hs1 Hs2] _ _ _] Hlt Hi Hlen Hf -> Hit.
  split; cbn; rewrite ?length_insert.
  - lia.
  - lia.
  - done.
  - intros _. f_equal. lia.
  - intros k u Hk. destruct (Hit k u Hk) as [[-> ->]|[Hne Hold]].
    + apply list_lookup_insert_eq. lia.
    + pose proof (slot_range (capacity_ q) f (Z.of_nat k)). rewrite list_lookup_insert_ne by lia. done.
Qed.

(** The first element, written after both indices were reset. *)
Lemma crep_first q t : crep q [] -> 0 < capacity_ q ->
  crep (mkCircularQueue (<[Z.to_nat 0 := Some t]> (items_ q)) (capacity_ q) (size_ q + 1) 0 0) [t].
Proof.
  intros Hq Hc. assert (H0 : slot (capacity_ q) 0 0 = 0) by (apply slot_0; lia).
  apply (crep_write q [] [t] 0 0 0 t Hq); [done|lia|done|lia|done|].
  intros [|k] u Hk; [|by destruct k]. injection Hk as <-. by left.
Qed.

Lemma push_back_spec q l t : crep q l -> Z.of_nat (length l) < capacity_ q ->
  exists q', push_back q t = Some q' /\ crep q' (l ++ [t]) /\ capacity_ q' = capacity_ q.
Proof.
  intros Hq Hlt. pose proof Hq as [[Hc1 Hc2] [Hs1 Hs2] Hf Hb Hit]. unfold push_back.
  replace (size_ q <? capacity_ q) with true by lia. cbn [assertb mbind option_bind].
  destruct (size_ q =? 0) eqn:H0; bool_to_prop.
  - assert (l = []) as -> by (destruct l; [done|cbn in *; lia]).
    cbn [mbind option_bind]. rewrite int32_Some by (unfold INT_MIN, INT_MAX in *; lia). cbn [mbind option_bind].
    rewrite set_item_Some by (cbn; lia). eexists; split; [done|]. split; [|done].
    exact (crep_first q t Hq Hlt).
  - assert (Hne : l <> []) by (intros ->; cbn in *; lia).
    specialize (Hf Hne). specialize (Hb Hne).
    pose proof (slot_range (capacity_ q) (front_ q) (size_ q - 1)).
    rewrite int32_Some by (unfold INT_MIN, INT_MAX in *; lia). cbn [mbind option_bind].
    rewrite int32_Some by (unfold INT_MIN, INT_MAX in *; lia). cbn [mbind option_bind].
    assert (Hn : (if back_ q + 1 =? capacity_ q then 0 else back_ q + 1) = slot (capacity_ q) (front_ q) (Z.of_nat (length l))).
    { rewrite Hb, <- slot_next by lia. f_equal. lia. }
    rewrite Hn. pose proof (slot_range (capacity_ q) (front_ q) (Z.of_nat (length l))).
    rewrite set_item_Some by (cbn; lia). eexists; split; [done|]. split; [|done].
    apply (crep_write q l (l ++ [t]) _ _ _ t Hq); [lia|lia| |cbn; lia|done|].
    + rewrite length_app. cbn. lia.
    + intros k u Hk. destruct (decide (k = length l)) as [->|Hk'].
      * rewrite list_lookup_middle in Hk by done. injection Hk as <-. by left.
      * assert (Hkl : (k < length l)%nat) by (apply lookup_lt_Some in Hk; rewrite length_app in Hk; cbn in Hk; lia).
        rewrite lookup_app_l in Hk by done. right. split; [|by apply Hit].
        intros He. apply slot_inj in He; lia.
Qed.

Lemma push_front_spec q l t : crep q l -> Z.of_nat (length l) < capacity_ q ->
  exists q', push_front q t = Some q' /\ crep q' (t :: l) /\ capacity_ q' = capacity_ q.
Proof.
  intros Hq Hlt. pose proof Hq as [[Hc1 Hc2] [Hs1 Hs2] Hf Hb Hit]. unfold push_front.
  replace (size_ q <? capacity_ q) with true by lia. cbn [assertb mbind option_bind].
  destruct (size_ q =? 0) eqn:H0; bool_to_prop.
  - assert (l = []) as -> by (destruct l; [done|cbn in *; lia]).
    cbn [mbind option_bind]. rewrite int32_Some by (unfold INT_MIN, INT_MAX in *; lia). cbn [mbind option_bind].
    rewrite set_item_Some by (cbn; lia). eexists; split; [done|]. split; [|done].
    exact (crep_first q t Hq Hlt).
  - assert (Hne : l <> []) by (intros ->; cbn in *; lia).
    specialize (Hf Hne). specialize (Hb Hne).
    rewrite int32_Some by (unfold INT_MIN, INT_MAX in *; lia). cbn [mbind option_bind].
    rewrite int32_Some by (unfold INT_MIN, INT_MAX in *; lia). cbn [mbind option_bind].
    assert (Hn : (if front_ q - 1 =? -1 then capacity_ q - 1 else front_ q - 1) = slot (capacity_ q) (front_ q) (-1)).
    { pose proof (slot_prev (capacity_ q) (front_ q) 0) as Hp. rewrite slot_0 in Hp by lia. symmetry. apply Hp. lia. }
    rewrite Hn. pose proof (slot_range (capacity_ q) (front_ q) (-1)).
    rewrite set_item_Some by (cbn; lia). eexists; split; [done|]. split; [|done].
    assert (Hsh : forall k, slot (capacity_ q) (slot (capacity_ q) (front_ q) (-1)) k = slot (capacity_ q) (front_ q) (k - 1)).
    { intros k. rewrite slot_slot by lia. f_equal. lia. }
    apply (crep_write q l (t :: l) _ _ _ t Hq); [lia|lia|done|cbn; lia| |].
    + cbn. rewrite Hb, Hsh. f_equal. lia.
    + intros k u Hk. rewrite Hsh. destruct k as [|k].
      * injection Hk as <-. by left.
      * cbn in Hk. replace (Z.of_nat (S k) - 1) with (Z.of_nat k) by lia. right.
        split; [|by apply Hit]. intros He. apply lookup_lt_Some in Hk.
        assert (slot (capacity_ q) (front_ q) (Z.of_nat k + 1) = slot (capacity_ q) (front_ q) 0) as He'.
        { replace 0 with (-1 + 1) by lia. rewrite !slot_next by lia. by rewrite He. }
        apply slot_inj in He'; lia.
Qed.

Lemma pop_front_spec q t l : crep q (t :: l) ->
  exists q', pop_front q = Some q' /\ crep q' l /\ capacity_ q' = capacity_ q.
Proof.
  intros [[Hc1 Hc2] [Hs1 Hs2] Hf Hb Hit]. specialize (Hf ltac:(done)). specialize (Hb ltac:(done)). cbn [length] in *.
  unfold pop_front. replace (size_ q =? 0) with false by lia. cbn [negb assertb mbind option_bind].
  rewrite int32_Some by (unfold INT_MIN, INT_MAX in *; lia). cbn [mbind option_bind].
  rewrite int32_Some by (unfold INT_MIN, INT_MAX in *; lia). cbn [mbind option_bind].
  assert (Hn : (if front_ q + 1 =? capacity_ q then 0 else front_ q + 1) = slot (capacity_ q) (front_ q) 1).
  { pose proof (slot_next (capacity_ q) (front_ q) 0) as Hp. rewrite slot_0 in Hp by lia. symmetry. apply Hp. lia. }
  rewrite Hn. eexists; split; [done|]. split; [|done]. split; cbn.
  - lia.
  - lia.
  - intros _. apply slot_range. lia.
  - intros _. rewrite slot_slot, Hb by lia. f_equal. lia.
  - intros k u Hk. rewrite slot_slot by lia. replace (1 + Z.of_nat k) with (Z.of_nat (S k)) by lia. by apply Hit.
Qed.

Lemma pop_back_spec q t l : crep q (l ++ [t]) ->
  exists q', pop_back q = Some q' /\ crep q' l /\ capacity_ q' = capacity_ q.
Proof.
  intros [[Hc1 Hc2] [Hs1 Hs2] Hf Hb Hit]. rewrite length_app in *. cbn [length] in *.
  specialize (Hf ltac:(by destruct l)). specialize (Hb ltac:(by destruct l)).
  pose proof (slot_range (capacity_ q) (front_ q) (size_ q - 1)).
  unfold pop_back. replace (size_ q =? 0) with false by lia. cbn [negb assertb mbind option_bind].
  rewrite int32_Some by (unfold INT_MIN, INT_MAX in *; lia). cbn [mbind option_bind].
  rewrite int32_Some by (unfold INT_MIN, INT_MAX in *; lia). cbn [mbind option_bind].
  eexists; split; [done|]. split; [|done]. split; cbn.
  - lia.
  - lia.
  - done.
  - intros _. rewrite Hb. rewrite <- slot_prev by lia. done.
  - intros k u Hk. apply Hit. rewrite lookup_app_l; [done|]. by apply lookup_lt_Some in Hk.
Qed.

End circular.

(** ** Sequences of operations against a list

    [CircularOp] are the calls a user makes; [deque_exec] is what they mean on
    a list that holds at most [n] elements. *)

Inductive CircularOp (T : Type) :=
| PushFront (t : T)
| PushBack (t : T)
| PopFront
| PopBack
| Front
| Back.
Arguments PushFront {T}.
Arguments PushBack {T}.
Arguments PopFront {T}.
Arguments PopBack {T}.
Arguments Front {T}.
Arguments Back {T}.

Section operations.
Context {T : Type}.
Implicit Types (q : CircularQueue T) (l : list T).

Definition circular_exec q (op : CircularOp T) : option (CircularQueue T * option T) :=
  match op with
  | PushFront t => q ← push_front q t; Some (q, None)
  | PushBack t => q ← push_back q t; Some (q, None)
  | PopFront => q ← pop_front q; Some (q, None)
  | PopBack => q ← pop_back q; Some (q, None)
  | Front => t ← front q; Some (q, Some t)
  | Back => t ← back q; Some (q, Some t)
  end.

Fixpoint circular_run q (ops : list (CircularOp T)) : option (CircularQueue T * list T) :=
  match ops with
  | [] => Some (q, [])
  | op :: ops => '(q, t) ← circular_exec q op; '(q, ts) ← circular_run q ops; Some (q, option_list t ++ ts)
  end.

Definition deque_exec (n : Z) l (op : CircularOp T) : option (list T * option T) :=
  match op with
  | PushFront t => assertb (Z.of_nat (length l) <? n);; Some (t :: l, None)
  | PushBack t => assertb (Z.of_nat (length l) <? n);; Some (l ++ [t], None)
  | PopFront => match l with [] => None | _ :: l => Some (l, None) end
  | PopBack => match l with [] => None | _ => Some (removelast l, None) end
  | Front => t ← head l; Some (l, Some t)
  | Back => t ← last l; Some (l, Some t)
  end.

Fixpoint deque_run (n : Z) l (ops : list (CircularOp T)) : option (list T * list T) :=
  match ops with
  | [] => Some (l, [])
  | op :: ops => '(l, t) ← deque_exec n l op; '(l, ts) ← deque_run n l ops; Some (l, option_list t ++ ts)
  end.

Lemma removelast_snoc l t : removelast (l ++ [t]) = l.
Proof. by rewrite removelast_app, app_nil_r by done. Qed.

(** One operation: defined on the array whenever it is on the list, with the
    same answer. *)
Lemma circular_exec_refines q l op l' t :
  crep q l -> deque_exec (capacity_ q) l op = Some (l', t) ->
  exists q', circular_exec q op = Some (q', t) /\ crep q' l' /\ capacity_ q' = capacity_ q.
Proof.
  intros Hq He. destruct op as [x|x| | | |]; cbn in He.
  - destruct (_ <? _) eqn:Hlt; [|done]. bool_to_prop. injection He as <- <-.
    destruct (push_front_spec q l x Hq Hlt) as (q' & E & ? & ?). cbn. rewrite E. by exists q'.
  - destruct (_ <? _) eqn:Hlt; [|done]. bool_to_prop. injection He as <- <-.
    destruct (push_back_spec q l x Hq Hlt) as (q' & E & ? & ?). cbn. rewrite E. by exists q'.
  - destruct l as [|x l]; [done|]. injection He as <- <-.
    destruct (pop_front_spec q x l Hq) as (q' & E & ? & ?). cbn. rewrite E. by exists q'.
  - destruct l as [|x l _] using rev_ind; [done|]. rewrite removelast_snoc in He.
    destruct (l ++ [x]) eqn:E0; [by destruct l|]. injection He as <- <-. rewrite <- E0 in Hq.
    destruct (pop_back_spec q x l Hq) as (q' & E & ? & ?). cbn. rewrite E. by exists q'.
  - destruct l as [|x l]; [done|]. injection He as <- <-. cbn. rewrite (front_spec q x l Hq). by exists q.
  - destruct l as [|x l _] using rev_ind; [done|]. rewrite last_snoc in He. injection He as <- <-.
    cbn. rewrite (back_spec q x l Hq). by exists q.
Qed.

Lemma circular_run_refines q l ops l' ts :
  crep q l -> deque_run (capacity_ q) l ops = Some (l', ts) ->
  exists q', circular_run q ops = Some (q', ts) /\ crep q' l' /\ capacity_ q' = capacity_ q.
Proof.
  revert q l ts. induction ops as [|op ops IH]; intros q l ts Hq He; cbn in *.
  - injection He as <- <-. by exists q.
  - apply bind_Some_inv in He as ([l1 t1] & E1 & He). apply bind_Some_inv in He as ([l2 t2] & E2 & [= <- <-]).
    destruct (circular_exec_refines q l op l1 t1 Hq E1) as (q1 & -> & Hq1 & Hc1). cbn.
    rewrite <- Hc1 in E2. destruct (IH q1 l1 t2 Hq1 E2) as (q2 & -> & Hq2 & Hc2). cbn.
    exists q2. rewrite Hc2. done.
Qed.

(** C26: a CircularQueue of capacity [n] is a double-ended queue of at most [n]
    elements.  Every sequence of calls that has a meaning on a list (no push
    to [n] elements, no pop, front or back of none) runs on the array without
    a failed assertion, an access outside it or an indeterminate element, and
    returns the same elements; the size is that of the list, and a push or pop
    that the list does not allow fails its assertion. *)
Theorem circularqueue_refines_deque n ops l ts :
  0 <= n < 2 ^ 31 - 1 -> deque_run n [] ops = Some (l, ts) ->
  exists q0 q, CircularQueue_new n = Some q0 /\ circular_run q0 ops = Some (q, ts) /\
    size q = Z.of_nat (length l) /\ capacity q = n /\ empty q = bool_decide (l = []) /\
    (forall i t, l !! i = Some t -> get_item q (slot n (front_ q) (Z.of_nat i)) = Some t) /\
    (forall t, is_Some (push_back q t) <-> Z.of_nat (length l) < n) /\
    (forall t, is_Some (push_front q t) <-> Z.of_nat (length l) < n) /\
    (is_Some (pop_front q) <-> l <> []) /\ (is_Some (pop_back q) <-> l <> []).
Proof.
  intros Hn He. destruct (crep_new (T := T) n Hn) as (q0 & E0 & Hq0 & Hc0). exists q0.
  pose proof (crep_capacity_eq q0 [] Hq0) as Hc. rewrite Hc0 in Hc. rewrite Hc in He.
  destruct (circular_run_refines q0 [] ops l ts Hq0 He) as (q & E & Hq & Hcq). exists q.
  rewrite (crep_size_eq q l Hq), (crep_capacity_eq q l Hq), (crep_empty q l Hq).
  rewrite <- Hc in Hcq. rewrite <- Hcq.
  pose proof (crep_size q l Hq) as [Hs _].
  refine (conj _ (conj _ (conj _ (conj _ (conj _ (conj _ (conj _ (conj _ (conj _ _))))))))); try done; [by rewrite Hcq|..].
  - intros i t Hi. by apply (crep_index q l).
  - intros t. split; [|intros Hlt; destruct (push_back_spec q l t Hq Hlt) as (? & -> & _); done].
    unfold push_back. intros [q' Hp]. destruct (size_ q <? capacity_ q) eqn:?; [bool_to_prop; lia|done].
  - intros t. split; [|intros Hlt; destruct (push_front_spec q l t Hq Hlt) as (? & -> & _); done].
    unfold push_front. intros [q' Hp]. destruct (size_ q <? capacity_ q) eqn:?; [bool_to_prop; lia|done].
  - split; [intros [q' Hp] ->|]; [unfold pop_front in Hp; rewrite Hs in Hp; done|].
    destruct l as [|x l]; [done|]. intros _. destruct (pop_front_spec q x l Hq) as (? & -> & _). done.
  - split; [intros [q' Hp] ->|]; [unfold pop_back in Hp; rewrite Hs in Hp; done|].
    destruct l as [|x l _] using rev_ind; [done|]. intros _. destruct (pop_back_spec q x l Hq) as (? & -> & _). done.
Qed.

End operations.

(** A queue of three whose indices wrap around at both ends. *)
Lemma circularqueue_refines_deque_witness :
  exists q0 q, CircularQueue_new (T := nat) 3 = Some q0 /\
    circular_run q0 [PushBack 1; PushBack 2; PopFront; PushBack 3; PushBack 4; Front; Back; PopBack; PushFront 5; Front]%nat
      = Some (q, [2; 4; 5]%nat) /\ size q = 3.
Proof.
  destruct (circularqueue_refines_deque (T := nat) 3
    [PushBack 1; PushBack 2; PopFront; PushBack 3; PushBack 4; Front; Back; PopBack; PushFront 5; Front]%nat
    [5; 2; 3]%nat [2; 4; 5]%nat) as (q0 & q & E0 & E & Hs & _); [lia|reflexivity|].
  exists q0, q. split; [exact E0|]. split; [exact E|exact Hs].
Defined.

(** ** Queues of work items

    The interface of workitem_queue.h.  [push] says whether the item was
    accepted; [pop] returns a null pointer when there is none. *)

Class WorkItemQueue (Item Q : Type) := {
  wq_push : Q -> Item -> option (bool * Q);
  wq_pop : Q -> option (option Item * Q);
  wq_size : Q -> Z
}.

(** What the thread pool relies on: [wq_rep n q l] says that [q] holds the
    items [l] in their order and accepts items as long as it has fewer than
    [n]. *)
Class WorkItemQueueLaws (Item Q : Type) `{WorkItemQueue Item Q} := {
  wq_rep : Z -> Q -> list Item -> Prop;
  wq_size_rep n q l : wq_rep n q l -> wq_size q = Z.of_nat (length l);
  wq_push_rep n q l x : wq_rep n q l ->
    exists b q', wq_push q x = Some (b, q') /\ wq_rep n q' (if b then l ++ [x] else l) /\
      (Z.of_nat (length l) < n -> b = true);
  wq_pop_rep n q l : wq_rep n q l ->
    exists q', wq_pop q = Some (head l, q') /\ wq_rep n q' (tail l)
}.

Section queues.
Context {Item : Type}.

(** CircularPoolQueue, on a [CircularQueue]. *)
Record CircularPoolQueue := mkCircularPoolQueue { cpq_queue_ : CircularQueue Item }.

Definition CircularPoolQueue_new (queueSize : Z) : option CircularPoolQueue :=
  q ← CircularQueue_new queueSize; Some (mkCircularPoolQueue q).

Definition CircularPoolQueue_push (q : CircularPoolQueue) (item : Item) : option (bool * CircularPoolQueue) :=
  if capacity (cpq_queue_ q) <=? size (cpq_queue_ q) then Some (false, q)
  else q ← push_back (cpq_queue_ q) item; Some (true, mkCircularPoolQueue q).

Definition CircularPoolQueue_pop (q : CircularPoolQueue) : option (option Item * CircularPoolQueue) :=
  if empty (cpq_queue_ q) then Some (None, q)
  else item ← front (cpq_queue_ q); q ← pop_front (cpq_queue_ q); Some (Some item, mkCircularPoolQueue q).

Definition CircularPoolQueue_size (q : CircularPoolQueue) : Z := size (cpq_queue_ q).

(** ThreadPoolQueue, on a [std::deque]. *)
Record ThreadPoolQueue := mkThreadPoolQueue { tpq_queue_ : list Item }.

Definition ThreadPoolQueue_push (q : ThreadPoolQueue) (item : Item) : option (bool * ThreadPoolQueue) :=
  Some (true, mkThreadPoolQueue (tpq_queue_ q ++ [item])).

Definition ThreadPoolQueue_pop (q : ThreadPoolQueue) : option (option Item * ThreadPoolQueue) :=
  match tpq_queue_ q with
  | [] => Some (None, q)
  | item :: l => Some (Some item, mkThreadPoolQueue l)
  end.

Definition ThreadPoolQueue_size (q : ThreadPoolQueue) : Z := Z.of_nat (length (tpq_queue_ q)).

#[export] Instance CircularPoolQueue_ops : WorkItemQueue Item CircularPoolQueue := {
  wq_push := CircularPoolQueue_push;
  wq_pop := CircularPoolQueue_pop;
  wq_size := CircularPoolQueue_size
}.

#[export] Instance ThreadPoolQueue_ops : WorkItemQueue Item ThreadPoolQueue := {
  wq_push := ThreadPoolQueue_push;
  wq_pop := ThreadPoolQueue_pop;
  wq_size := ThreadPoolQueue_size
}.

Definition circular_pool_rep (n : Z) (q : CircularPoolQueue) (l : list Item) : Prop :=
  crep (cpq_queue_ q) l /\ n <= capacity_ (cpq_queue_ q).

Lemma circular_pool_push n q l x : circular_pool_rep n q l ->
  exists b q', CircularPoolQueue_push q x = Some (b, q') /\ circular_pool_rep n q' (if b then l ++ [x] else l) /\
    (Z.of_nat (length l) < n -> b = true).
Proof.
  intros [Hq Hn]. unfold CircularPoolQueue_push.
  rewrite (crep_size_eq _ l Hq), (crep_capacity_eq _ l Hq). case_bool.
  - exists false, q. split; [done|]. split; [by split|lia].
  - destruct (push_back_spec _ l x Hq) as (q' & -> & Hq' & Hc); [lia|]. cbn.
    exists true, (mkCircularPoolQueue q'). split; [done|]. split; [|done]. split; [done|]. cbn. lia.
Qed.

Lemma circular_pool_pop n q l : circular_pool_rep n q l ->
  exists q', CircularPoolQueue_pop q = Some (head l, q') /\ circular_pool_rep n q' (tail l).
Proof.
  intros [Hq Hn]. unfold CircularPoolQueue_pop. rewrite (crep_empty _ l Hq).
  destruct l as [|x l]; [by exists q|].
  rewrite bool_decide_eq_false_2 by done. rewrite (front_spec _ x l Hq).
  destruct (pop_front_spec _ x l Hq) as (q' & E & Hq' & Hc). cbn. rewrite E. cbn.
  exists (mkCircularPoolQueue q'). split; [done|]. split; [done|]. cbn. lia.
Qed.

Lemma circular_pool_size n q l : circular_pool_rep n q l -> CircularPoolQueue_size q = Z.of_nat (length l).
Proof. intros [Hq _]. exact (crep_size_eq _ l Hq). Qed.

#[export] Instance CircularPoolQueue_laws : WorkItemQueueLaws Item CircularPoolQueue := {
  wq_rep := circular_pool_rep;
  wq_size_rep := circular_pool_size;
  wq_push_rep := circular_pool_push;
  wq_pop_rep := circular_pool_pop
}.

#[export] Instance ThreadPoolQueue_laws : WorkItemQueueLaws Item ThreadPoolQueue.
Proof.
  unshelve refine {| wq_rep := fun _ q l => tpq_queue_ q = l |}.
  - by intros n q l <-.
  - intros n q l x <-. exists true. by eexists.
  - intros n [[|x l]] l' <-; by eexists.
Defined.

(** The queue that the constructor of ThreadPool makes. *)
Lemma CircularPoolQueue_new_rep n : 0 <= n < 2 ^ 31 - 1 ->
  exists q, CircularPoolQueue_new n = Some q /\ circular_pool_rep n q [].
Proof.
  intros Hn. destruct (crep_new (T := Item) n Hn) as (q & E & Hq & Hc). unfold CircularPoolQueue_new. rewrite E.
  eexists; split; [done|]. split; [done|]. rewrite <- Hc, (crep_capacity_eq _ _ Hq). done.
Qed.

End queues.
