(* ===== verification/ThreadPool.v ===== *)
(** * ThreadPool

    Sources: src/agent_engine/util/thread_pool.h and thread_pool.cc, with the
    condition variables of lock.h ([ProducerConsumerCond]) and workitem.h.

    The pool is shared by the worker threads it creates, which run
    [WorkerLoop], and by the threads of its users, the clients, which push
    items, stop it, wait for it and start it.  Every thread has a program
    point; [step] lets one thread go on to its next one.  A block under the
    lock [cond_] is one step, and so is each access to an atomic member
    outside of it, so the sequences of events of [run] are the interleavings of
    the code.

    A waiting thread does not move until it is notified: [signalConsumer] and
    [signalProducer] notify one waiting thread, the one the event names, the
    broadcasts notify all, and a thread may wake up spuriously.  What work
    items do (return or throw) and whether a thread can be created is up to
    the event, too.

    The fields of [Log] are no data of the program.  They record which items
    the queue accepted, which left it, and what was done with them, for the
    theorems to speak about. *)

From S2P Require Import Prelude CircularQueue.

(** A work item is an object; two are equal when they are the same object. *)
Definition WorkItem : Type := nat.

(** An exception: an object of the class std::exception, or of a derived one
    with its text.  Assigning it to a [std::exception] keeps the base only. *)
Inductive Exn := std_exception | derived_exception (what : string).

Definition slice (e : Exn) : Exn := std_exception.

Inductive STOP_TYPE :=
| STOP_THREAD_ONLY
| STOP_AND_CLEAR_QUEUE
| STOP_AFTER_QUEUE_EMPTY
| STOP_AND_CLEAR_QUEUE_IGNORE_EXCEPTION.

Inductive ERROR_TYPE :=
| ERROR_NONE
| ERROR_POOL_HAS_STOP
| ERROR_POOL_ITEM_IS_NULL
| ERROR_POOL_QUEUE_FULL.

#[export] Instance STOP_TYPE_eq_dec : EqDecision STOP_TYPE.
Proof. solve_decision. Defined.

#[export] Instance ERROR_TYPE_eq_dec : EqDecision ERROR_TYPE.
Proof. solve_decision. Defined.

(** The members that do not change after construction. *)
Record Config := mkConfig {
  stop_if_has_exception_ : bool;
  thread_num_ : Z;
  queue_size_ : Z
}.

Definition DEFAULT_THREADNUM : Z := 4.
Definition DEFAULT_QUEUESIZE : Z := 32.

Definition ThreadPoolBase_new (threadNum queueSize : Z) (stopIfHasException : bool) : Config :=
  mkConfig stopIfHasException
    (if threadNum =? 0 then DEFAULT_THREADNUM else threadNum)
    (if queueSize =? 0 then DEFAULT_QUEUESIZE else queueSize).

(** The program points of a worker, in [WorkerLoop] and [ConsumeItem]. *)
Inductive WorkerPc :=
| WRun                                  (* while (run_ && ... *)
| WExc                                  (* ... !StopIfHasException()) *)
| WLock                                 (* ScopedLock lock(cond_); *)
| WWaiting                              (* cond_.consumerWait(), not notified *)
| WWoken                                (* cond_.consumerWait(), notified *)
| WProcess (item : option WorkItem)     (* item->process() *)
| WDestroy (item : WorkItem)            (* item->destroy() *)
| WCatch (item : WorkItem) (e : Exn)    (* DestroyItemIgnoreException(item) *)
| WRecord (e : Exn)                     (* has_exception_ = true; ... *)
| WCount                                (* active_thread_count_--; *)
| WLeaving                              (* if (StopIfHasException()) *)
| WBroadcast                            (* cond_.broadcastProducer(); *)
| WExited.

(** Who called [PushWorkItem], and who called [Stop]. *)
Inductive PushCaller := ByUser | ByTask (executeWhenFail : bool) | ByAsync.
Inductive StopCaller := StopByUser | StopByPush (item : WorkItem) (k : PushCaller) | StopByWaitFinish | StopByStart.

(** What a call of a client came to. *)
Inductive Result :=
| NoCall
| Pushed (ec : ERROR_TYPE)
| AsyncDone
| Stopped
| Finished
| Started (ok : bool)
| Threw (e : Exn).

(** The program points of a client. *)
Inductive ClientPc :=
| Idle (r : Result)
| PushStart (item : option WorkItem) (isBlocked : bool) (k : PushCaller)  (* if (!push_), if (!item) *)
| PushExc (item : WorkItem) (isBlocked : bool) (k : PushCaller)           (* if (StopIfHasException()) *)
| PushLock (item : WorkItem) (isBlocked : bool) (k : PushCaller)          (* ScopedLock lock(cond_); *)
| PushWaiting (item : WorkItem) (isBlocked : bool) (k : PushCaller)       (* producerWait(), not notified *)
| PushWoken (item : WorkItem) (isBlocked : bool) (k : PushCaller)         (* producerWait(), notified *)
| TaskFailed (item : WorkItem) (ec : ERROR_TYPE) (k : PushCaller)         (* PushTask: ret != ERROR_NONE *)
| AsyncFailed (item : WorkItem)                                          (* AsyncImpl: fn() *)
| StopPush (ty : STOP_TYPE) (k : StopCaller)                              (* push_ = false; *)
| StopWaitExc (ty : STOP_TYPE) (k : StopCaller)                           (* while (!StopIfHasException()) *)
| StopWaitCount (ty : STOP_TYPE) (k : StopCaller)                         (* GetItemCount() == 0 *)
| StopRun (ty : STOP_TYPE) (k : StopCaller)                               (* StopThread: if (!run_) *)
| StopSignal (ty : STOP_TYPE) (k : StopCaller)                            (* run_ = false; *)
| StopJoin (ty : STOP_TYPE) (k : StopCaller)                              (* threads_.clear(); *)
| StopClear (ty : STOP_TYPE) (k : StopCaller)                             (* ClearQueue() *)
| StopCheck (ty : STOP_TYPE) (k : StopCaller)                             (* CheckException() *)
| FinishExc                                                              (* while (!StopIfHasException()) *)
| FinishCount                                                            (* size() == 0 && active == 0 *)
| FinishCheck                                                            (* if (StopIfHasException()) Stop *)
| StartRun                                                               (* if (run_); push_ = true; *)
| StartRunning                                                           (* run_ = true; *)
| CreateThreads (num : nat).                                             (* while (num--) *)

Record Log := mkLog {
  accepted : list WorkItem;       (* pushed to the queue, in order *)
  taken : list WorkItem;          (* popped from the queue, in order *)
  processed : list WorkItem;      (* process() called by a worker *)
  destroyed : list WorkItem;      (* destroy() called by a worker *)
  destroy_threw : list WorkItem;  (* ... and it threw *)
  dropped : list WorkItem;        (* drop() called by ClearQueue *)
  ran_by_caller : list WorkItem;  (* run by the client because the push failed *)
  freed_by_caller : list WorkItem (* destroy() called by the client *)
}.

(** What a step comes to: the thread cannot go on, the program crashes, or
    the new state. *)
Inductive Outcome (A : Type) := Disabled | Crash | Moves (a : A).
Arguments Disabled {A}.
Arguments Crash {A}.
Arguments Moves {A}.

(** What an event decides: the waiting thread to notify, what the user's code
    throws, and whether [pthread_create] succeeds. *)
Record Oracle := mkOracle { notifies : option nat; throws : option Exn; creates : bool }.

(** The calls of a client. *)
Inductive Call :=
| CallPush (item : option WorkItem) (isBlocked : bool)
| CallPushTask (task : WorkItem) (isBlocked executeWhenFail : bool)
| CallAsync (task : WorkItem)
| CallStop (ty : STOP_TYPE)
| CallWaitFinish
| CallStart.

Inductive Event :=
| WorkerGoes (i : nat) (o : Oracle)
| ClientGoes (c : nat) (o : Oracle)
| ClientCalls (c : nat) (op : Call)
| WorkerWakes (i : nat)
| ClientWakes (c : nat).

Section pool.
Context {Q : Type} `{WorkItemQueue WorkItem Q} (cfg : Config).

Record Pool := mkPool {
  queue_ : Q;
  push_ : bool;
  run_ : bool;
  has_exception_ : bool;
  exception_ : Exn;
  active_thread_count_ : Z;   (* std::atomic<std::uint32_t> *)
  threads_ : list WorkerPc;
  clients : list ClientPc;
  log : Log
}.

Definition with_queue (q : Q) s := mkPool q (push_ s) (run_ s) (has_exception_ s) (exception_ s) (active_thread_count_ s) (threads_ s) (clients s) (log s).
Definition with_push b s := mkPool (queue_ s) b (run_ s) (has_exception_ s) (exception_ s) (active_thread_count_ s) (threads_ s) (clients s) (log s).
Definition with_run b s := mkPool (queue_ s) (push_ s) b (has_exception_ s) (exception_ s) (active_thread_count_ s) (threads_ s) (clients s) (log s).
Definition with_exception e s := mkPool (queue_ s) (push_ s) (run_ s) true e (active_thread_count_ s) (threads_ s) (clients s) (log s).
Definition with_active n s := mkPool (queue_ s) (push_ s) (run_ s) (has_exception_ s) (exception_ s) n (threads_ s) (clients s) (log s).
Definition with_threads ws s := mkPool (queue_ s) (push_ s) (run_ s) (has_exception_ s) (exception_ s) (active_thread_count_ s) ws (clients s) (log s).
Definition with_clients cs s := mkPool (queue_ s) (push_ s) (run_ s) (has_exception_ s) (exception_ s) (active_thread_count_ s) (threads_ s) cs (log s).
Definition with_log l s := mkPool (queue_ s) (push_ s) (run_ s) (has_exception_ s) (exception_ s) (active_thread_count_ s) (threads_ s) (clients s) l.

Definition set_worker (i : nat) (pc : WorkerPc) s := with_threads (<[i := pc]> (threads_ s)) s.
Definition set_client (c : nat) (pc : ClientPc) s := with_clients (<[c := pc]> (clients s)) s.

(** The constructor, with the queue it made, before [n] clients use it. *)
Definition ThreadPool_new (q : Q) (n : nat) : Pool :=
  mkPool q true false false std_exception 0 [] (replicate n (Idle NoCall)) (mkLog [] [] [] [] [] [] [] []).

Definition StopIfHasException s : bool := has_exception_ s && stop_if_has_exception_ cfg.

Definition GetItemCount s : Z := wq_size (queue_ s).
Definition IsFull s : bool := queue_size_ cfg <=? wq_size (queue_ s).

(** ** Condition variables *)

Definition wake_worker (pc : WorkerPc) : WorkerPc := match pc with WWaiting => WWoken | pc => pc end.
Definition wake_client (pc : ClientPc) : ClientPc :=
  match pc with PushWaiting item b k => PushWoken item b k | pc => pc end.

Definition worker_waits (pc : WorkerPc) : bool := match pc with WWaiting => true | _ => false end.
Definition client_waits (pc : ClientPc) : bool := match pc with PushWaiting _ _ _ => true | _ => false end.

(** One of the waiting threads, when there are any. *)
Definition signal {A} (waits : A -> bool) (wake : A -> A) (o : Oracle) (l : list A) : option (list A) :=
  match notifies o with
  | Some i => pc ← l !! i; if waits pc then Some (<[i := wake pc]> l) else None
  | None => if existsb waits l then None else Some l
  end.

Definition signalConsumer o s : option Pool := ws ← signal worker_waits wake_worker o (threads_ s); Some (with_threads ws s).
Definition signalProducer o s : option Pool := cs ← signal client_waits wake_client o (clients s); Some (with_clients cs s).
Definition broadcastConsumer s : Pool := with_threads (wake_worker <$> threads_ s) s.
Definition broadcastProducer s : Pool := with_clients (wake_client <$> clients s) s.

Definition moves (m : option Pool) : Outcome Pool := match m with Some s => Moves s | None => Disabled end.

(** ** Worker threads *)

Definition log_accepted x l := mkLog (accepted l ++ [x]) (taken l) (processed l) (destroyed l) (destroy_threw l) (dropped l) (ran_by_caller l) (freed_by_caller l).
Definition log_taken (x : option WorkItem) l := mkLog (accepted l) (taken l ++ option_list x) (processed l) (destroyed l) (destroy_threw l) (dropped l) (ran_by_caller l) (freed_by_caller l).
Definition log_processed x l := mkLog (accepted l) (taken l) (processed l ++ [x]) (destroyed l) (destroy_threw l) (dropped l) (ran_by_caller l) (freed_by_caller l).
Definition log_destroyed x (threw : bool) l := mkLog (accepted l) (taken l) (processed l) (destroyed l ++ [x]) (destroy_threw l ++ (if threw then [x] else [])) (dropped l) (ran_by_caller l) (freed_by_caller l).
Definition log_dropped xs l := mkLog (accepted l) (taken l ++ xs) (processed l) (destroyed l) (destroy_threw l) (dropped l ++ xs) (ran_by_caller l) (freed_by_caller l).
Definition log_ran x l := mkLog (accepted l) (taken l) (processed l) (destroyed l) (destroy_threw l) (dropped l) (ran_by_caller l ++ [x]) (freed_by_caller l).
Definition log_freed x l := mkLog (accepted l) (taken l) (processed l) (destroyed l) (destroy_threw l) (dropped l) (ran_by_caller l) (freed_by_caller l ++ [x]).

Definition note (f : Log -> Log) s : Pool := with_log (f (log s)) s.

(** The block under the lock in [WorkerLoop], entered with the lock or when
    [consumerWait] returns with it. *)
Definition worker_locked (i : nat) (o : Oracle) s : Outcome Pool :=
  if run_ s && (wq_size (queue_ s) =? 0) then Moves (set_worker i WWaiting s)
  else if negb (run_ s) then Moves (set_worker i WLeaving s)
  else match wq_pop (queue_ s) with
       | None => Crash
       | Some (item, q) =>
           moves (signalProducer o
             (set_worker i (WProcess item)
               (with_active (u32 (active_thread_count_ s + 1)) (note (log_taken item) (with_queue q s)))))
       end.

Definition ConsumeItem_record (e : Exn) s : Pool := if has_exception_ s then s else with_exception (slice e) s.

(** One step of worker [i]; [Crash] is a call through a null pointer. *)
Definition worker_step (i : nat) (o : Oracle) s : Outcome Pool :=
  match threads_ s !! i with
  | None => Disabled
  | Some pc =>
      match pc with
      | WRun => Moves (set_worker i (if run_ s then WExc else WLeaving) s)
      | WExc => Moves (set_worker i (if StopIfHasException s then WLeaving else WLock) s)
      | WLock | WWoken => worker_locked i o s
      | WWaiting => Disabled
      | WProcess None => Crash
      | WProcess (Some item) =>
          Moves (set_worker i (match throws o with None => WDestroy item | Some e => WCatch item e end)
                   (note (log_processed item) s))
      | WDestroy item =>
          Moves (set_worker i (match throws o with None => WCount | Some e => WCatch item e end)
                   (note (log_destroyed item (match throws o with None => false | Some _ => true end)) s))
      | WCatch item e => Moves (set_worker i (WRecord e) (note (log_destroyed item false) s))
      | WRecord e => Moves (set_worker i WCount (ConsumeItem_record e s))
      | WCount => Moves (set_worker i WRun (with_active (u32 (active_thread_count_ s - 1)) s))
      | WLeaving => Moves (set_worker i (if StopIfHasException s then WBroadcast else WExited) s)
      | WBroadcast => Moves (broadcastProducer (set_worker i WExited s))
      | WExited => Disabled
      end
  end.

(** ** Stop *)

Definition in_start (pc : ClientPc) : bool :=
  match pc with StartRun | StartRunning | CreateThreads _ => true | _ => false end.

Definition in_stop (pc : ClientPc) : bool :=
  match pc with
  | StopPush _ _ | StopWaitExc _ _ | StopWaitCount _ _ | StopRun _ _ | StopSignal _ _ | StopJoin _ _
  | StopClear _ _ | StopCheck _ _ => true
  | _ => false
  end.

(** Entering [Stop].  Its users do not let it overlap with [Start]. *)
Definition Stop (c : nat) (ty : STOP_TYPE) (k : StopCaller) s : Outcome Pool :=
  if existsb in_start (clients s) then Disabled
  else Moves (set_client c (if decide (ty = STOP_THREAD_ONLY) then StopRun ty k else StopPush ty k) s).

(** [PushTask] and [AsyncImpl], when [PushWorkItem] returned [ec]. *)
Definition push_returns (item : WorkItem) (ec : ERROR_TYPE) (k : PushCaller) : ClientPc :=
  match k with
  | ByUser => Idle (Pushed ec)
  | ByTask _ => if decide (ec = ERROR_NONE) then Idle (Pushed ec) else TaskFailed item ec k
  | ByAsync => if decide (ec = ERROR_NONE) then Idle AsyncDone else TaskFailed item ec k
  end.

Definition stop_returns (k : StopCaller) : ClientPc :=
  match k with
  | StopByUser => Idle Stopped
  | StopByPush item k => push_returns item ERROR_POOL_HAS_STOP k
  | StopByWaitFinish => Idle Finished
  | StopByStart => Idle (Started false)
  end.

(** The program point after [StopThread]. *)
Definition stop_after_threads (ty : STOP_TYPE) (k : StopCaller) : ClientPc :=
  if decide (ty = STOP_THREAD_ONLY) then StopCheck ty k else StopClear ty k.

(** [ClearQueue]: the loop over the items, of which a wrong size would be
    more than the queue has. *)
Fixpoint ClearQueue_loop (fuel : nat) (q : Q) : option (Q * list WorkItem) :=
  if wq_size q =? 0 then Some (q, [])
  else match fuel with
       | O => None
       | S fuel =>
           '(item, q) ← wq_pop q;
           '(q, items) ← ClearQueue_loop fuel q;
           Some (q, option_list item ++ items)
       end.

Definition ClearQueue s : option Pool :=
  '(q, items) ← ClearQueue_loop (Z.to_nat (wq_size (queue_ s))) (queue_ s);
  Some (broadcastProducer (note (log_dropped items) (with_queue q s))).

Definition stop_step (c : nat) (pc : ClientPc) s : Outcome Pool :=
  match pc with
  | StopPush ty k =>
      Moves (set_client c (if decide (ty = STOP_AFTER_QUEUE_EMPTY) then StopWaitExc ty k else StopRun ty k)
               (broadcastProducer (with_push false s)))
  | StopWaitExc ty k => Moves (set_client c (if StopIfHasException s then StopRun ty k else StopWaitCount ty k) s)
  | StopWaitCount ty k => Moves (set_client c (if GetItemCount s =? 0 then StopRun ty k else StopWaitExc ty k) s)
  | StopRun ty k => Moves (set_client c (if run_ s then StopSignal ty k else stop_after_threads ty k) s)
  | StopSignal ty k => Moves (set_client c (StopJoin ty k) (broadcastConsumer (with_run false s)))
  | StopJoin ty k =>
      (* joins every thread *)
      if forallb (fun pc => match pc with WExited => true | _ => false end) (threads_ s)
      then Moves (set_client c (stop_after_threads ty k) (with_threads [] s))
      else Disabled
  | StopClear ty k =>
      match ClearQueue s with
      | None => Crash
      | Some s =>
          Moves (set_client c
                   (if decide (ty = STOP_AND_CLEAR_QUEUE_IGNORE_EXCEPTION) then stop_returns k else StopCheck ty k) s)
      end
  | StopCheck ty k =>
      Moves (set_client c (if StopIfHasException s then Idle (Threw (exception_ s)) else stop_returns k) s)
  | _ => Disabled
  end.

(** ** PushWorkItem *)

(** The block under the lock in [PushWorkItem], at the start of the loop. *)
Definition push_locked (c : nat) (o : Oracle) (item : WorkItem) (isBlocked : bool) (k : PushCaller) s : Outcome Pool :=
  if push_ s && (queue_size_ cfg <=? wq_size (queue_ s)) then Moves (set_client c (PushWaiting item isBlocked k) s)
  else if negb (push_ s) then Moves (set_client c (push_returns item ERROR_POOL_HAS_STOP k) s)
  else match wq_push (queue_ s) item with
       | None => Crash
       | Some (false, q) => Moves (set_client c (push_returns item ERROR_POOL_QUEUE_FULL k) (with_queue q s))
       | Some (true, q) =>
           moves (signalConsumer o
             (set_client c (push_returns item ERROR_NONE k) (note (log_accepted item) (with_queue q s))))
       end.

Definition push_step (c : nat) (o : Oracle) (pc : ClientPc) s : Outcome Pool :=
  match pc with
  | PushStart item isBlocked k =>
      if negb (push_ s)
      then Moves (set_client c (match item with
                                | Some item => push_returns item ERROR_POOL_HAS_STOP k
                                | None => Idle (Pushed ERROR_POOL_HAS_STOP)
                                end) s)
      else match item with
           | None => Moves (set_client c (Idle (Pushed ERROR_POOL_ITEM_IS_NULL)) s)
           | Some item => Moves (set_client c (PushExc item isBlocked k) s)
           end
  | PushExc item isBlocked k =>
      if StopIfHasException s then Stop c STOP_AND_CLEAR_QUEUE (StopByPush item k) s
      else Moves (set_client c (PushLock item isBlocked k) s)
  | PushLock item isBlocked k =>
      if negb isBlocked && (queue_size_ cfg <=? wq_size (queue_ s))
      then Moves (set_client c (push_returns item ERROR_POOL_QUEUE_FULL k) s)
      else push_locked c o item isBlocked k s
  | PushWoken item isBlocked k =>
      if StopIfHasException s then Moves (set_client c (push_returns item ERROR_POOL_HAS_STOP k) s)
      else push_locked c o item isBlocked k s
  | TaskFailed item ec k =>
      let execute := match k with ByTask executeWhenFail => executeWhenFail | _ => false end in
      let s := if execute then note (log_ran item) s else s in
      match execute, throws o with
      | true, Some e => Moves (set_client c (Idle (Threw e)) s)
      | _, _ =>
          Moves (set_client c (match k with ByAsync => AsyncFailed item | _ => Idle (Pushed ec) end)
                   (note (log_freed item) s))
      end
  | AsyncFailed item =>
      Moves (set_client c (Idle (match throws o with Some e => Threw e | None => AsyncDone end))
               (note (log_ran item) s))
  | _ => Disabled
  end.

(** ** WaitFinish and Start *)

Definition wait_step (c : nat) (pc : ClientPc) s : Outcome Pool :=
  match pc with
  | FinishExc => Moves (set_client c (if StopIfHasException s then FinishCheck else FinishCount) s)
  | FinishCount =>
      Moves (set_client c (if (wq_size (queue_ s) =? 0) && (active_thread_count_ s =? 0)
                           then FinishCheck else FinishExc) s)
  | FinishCheck =>
      if StopIfHasException s then Stop c STOP_AND_CLEAR_QUEUE StopByWaitFinish s
      else Moves (set_client c (Idle Finished) s)
  | _ => Disabled
  end.

Definition start_step (c : nat) (o : Oracle) (pc : ClientPc) s : Outcome Pool :=
  match pc with
  | StartRun =>
      if run_ s then Moves (set_client c (Idle (Started false)) s)
      else Moves (set_client c StartRunning (with_push true s))
  | StartRunning => Moves (set_client c (CreateThreads (Z.to_nat (thread_num_ cfg))) (with_run true s))
  | CreateThreads 0 => Moves (set_client c (Idle (Started true)) s)
  | CreateThreads (S num) =>
      if creates o then Moves (set_client c (CreateThreads num) (with_threads (threads_ s ++ [WRun]) s))
      else Moves (set_client c (StopRun STOP_THREAD_ONLY StopByStart) s)
  | _ => Disabled
  end.

(** ** Steps and runs *)

Definition client_step (c : nat) (o : Oracle) s : Outcome Pool :=
  match clients s !! c with
  | None => Disabled
  | Some pc =>
      match pc with
      | Idle _ | PushWaiting _ _ _ => Disabled
      | PushStart _ _ _ | PushExc _ _ _ | PushLock _ _ _ | PushWoken _ _ _ | TaskFailed _ _ _ | AsyncFailed _ =>
          push_step c o pc s
      | FinishExc | FinishCount | FinishCheck => wait_step c pc s
      | StartRun | StartRunning | CreateThreads _ => start_step c o pc s
      | _ => stop_step c pc s
      end
  end.

(** A client makes a call.  [Start] is not called while a [Start] or a [Stop]
    is running. *)
Definition call (c : nat) (op : Call) s : Outcome Pool :=
  match op with
  | CallPush item isBlocked => Moves (set_client c (PushStart item isBlocked ByUser) s)
  | CallPushTask task isBlocked ewf => Moves (set_client c (PushStart (Some task) isBlocked (ByTask ewf)) s)
  | CallAsync task => Moves (set_client c (PushStart (Some task) true ByAsync) s)
  | CallStop ty => Stop c ty StopByUser s
  | CallWaitFinish => Moves (set_client c FinishExc s)
  | CallStart =>
      if existsb (fun pc => in_start pc || in_stop pc) (clients s) then Disabled
      else Moves (set_client c StartRun s)
  end.

Definition step (ev : Event) s : Outcome Pool :=
  match ev with
  | WorkerGoes i o => worker_step i o s
  | ClientGoes c o => client_step c o s
  | ClientCalls c op => match clients s !! c with Some (Idle _) => call c op s | _ => Disabled end
  | WorkerWakes i =>
      match threads_ s !! i with Some WWaiting => Moves (set_worker i WWoken s) | _ => Disabled end
  | ClientWakes c =>
      match clients s !! c with
      | Some (PushWaiting item b k) => Moves (set_client c (PushWoken item b k) s)
      | _ => Disabled
      end
  end.

Fixpoint run (evs : list Event) s : option Pool :=
  match evs with
  | [] => Some s
  | ev :: evs => match step ev s with Moves s => run evs s | _ => None end
  end.
End pool.

(** The pool of the first constructor when it is given no factory, used by [n]
    clients. *)
Definition ThreadPool_circular (threadNum queueSize : Z) (stopIfHasException : bool) (n : nat) :
    option (Config * Pool (Q := @CircularPoolQueue WorkItem)) :=
  let cfg := ThreadPoolBase_new threadNum queueSize stopIfHasException in
  q ← CircularPoolQueue_new (Item := WorkItem) (queue_size_ cfg);
  Some (cfg, ThreadPool_new q n).
