(* ===== verification/ThreadPoolInv.v ===== *)
(** * The thread pool: its invariants

    What holds in every state that the workers and clients of a pool can
    reach together, whatever the interleaving: where the items are, who
    waits, and how far a [Stop] has come.  The queue of the pool is any
    instance of [WorkItemQueue]. *)

From S2P Require Import Prelude CircularQueue ThreadPool.

(** ** Counting over the threads *)

Fixpoint tot {A} (f : A -> nat) (l : list A) : nat :=
  match l with [] => 0 | x :: l => f x + tot f l end.

Lemma tot_insert {A} (f : A -> nat) l i x y : l !! i = Some x -> (tot f (<[i := y]> l) + f x = tot f l + f y)%nat.
Proof.
  revert i; induction l as [|z l IH]; intros [|i] Hi; try done.
  - injection Hi as ->. cbn. lia.
  - specialize (IH i Hi).
    change (f z + tot f (<[i := y]> l) + f x = f z + tot f l + f y)%nat. lia.
Qed.

Lemma tot_app {A} (f : A -> nat) l k : tot f (l ++ k) = (tot f l + tot f k)%nat.
Proof. induction l as [|z l IH]; cbn in *; [done|]. lia. Qed.

Lemma tot_fmap {A} (f : A -> nat) (g : A -> A) l : (forall x, f (g x) = f x) -> tot f (g <$> l) = tot f l.
Proof. intros Hg. induction l as [|z l IH]; cbn in *; [done|]. rewrite Hg. lia. Qed.

Lemma tot_0 {A} (f : A -> nat) l : tot f l = 0%nat <-> (forall i x, l !! i = Some x -> f x = 0%nat).
Proof.
  induction l as [|z l IH]; cbn; [done|]. split.
  - intros H0 [|i] x Hx; cbn in Hx; [injection Hx as <-; lia|]. apply (proj1 IH) with i; [lia|done].
  - intros Hx. pose proof (Hx 0%nat z eq_refl). assert (tot f l = 0%nat) by (apply IH; intros i; apply (Hx (S i))).
    lia.
Qed.

Lemma tot_ge {A} (f : A -> nat) l i x : l !! i = Some x -> (f x <= tot f l)%nat.
Proof.
  revert i; induction l as [|z l IH]; intros [|i] Hi; try done; cbn in *; [injection Hi as ->; lia|].
  specialize (IH i Hi). lia.
Qed.

Lemma tot_le_length {A} (f : A -> nat) l : (forall x, (f x <= 1)%nat) -> (tot f l <= length l)%nat.
Proof. intros Hf. induction l as [|z l IH]; cbn; [done|]. specialize (Hf z). lia. Qed.

Lemma tot_pos {A} (f : A -> nat) l : (0 < tot f l)%nat -> exists i x, l !! i = Some x /\ f x <> 0%nat.
Proof.
  induction l as [|z l IH]; cbn; [lia|]. intros Hp. destruct (f z) eqn:E; [|exists 0%nat, z; split; [done|lia]].
  destruct IH as (i & x & ? & ?); [done|]. by exists (S i), x.
Qed.

(** ** Notifications *)

Section signalled.
Context {A : Type} (waits : A -> bool) (wake : A -> A).

Inductive signalled (l : list A) : list A -> Prop :=
| signalled_one i pc : l !! i = Some pc -> waits pc = true -> signalled l (<[i := wake pc]> l)
| signalled_none : (forall i pc, l !! i = Some pc -> waits pc = false) -> signalled l l.

Lemma signal_signalled o l l' : signal waits wake o l = Some l' -> signalled l l'.
Proof.
  unfold signal. destruct (notifies o) as [i|]; intros E.
  - apply bind_Some_inv in E as (pc & Hi & E). destruct (waits pc) eqn:Hw; [|done]. injection E as <-. by econstructor.
  - destruct (existsb waits l) eqn:He; [done|]. injection E as <-. constructor. intros i pc Hi.
    destruct (waits pc) eqn:Hw; [|done]. rewrite <- He. symmetry. apply existsb_exists. exists pc.
    split; [|done]. by eapply list_elem_of_In, list_elem_of_lookup_2.
Qed.

Lemma tot_signalled (f : A -> nat) l l' : (forall x, f (wake x) = f x) -> signalled l l' -> tot f l' = tot f l.
Proof. intros Hf [i pc Hi Hw|]; [|done]. pose proof (tot_insert f l i pc (wake pc) Hi). rewrite Hf in *. lia. Qed.

Lemma signalled_length l l' : signalled l l' -> length l' = length l.
Proof. intros [i pc Hi Hw|]; [apply length_insert|done]. Qed.

(** Some thread is notified, if any waits. *)
Lemma signal_total l : exists n l', forall o, notifies o = n -> signal waits wake o l = Some l'.
Proof.
  destruct (existsb waits l) eqn:He.
  - apply existsb_exists in He as (pc & Hin & Hw). apply list_elem_of_In, list_elem_of_lookup in Hin as [i Hi].
    exists (Some i). eexists. intros o Ho. unfold signal. rewrite Ho, Hi. cbn. by rewrite Hw.
  - exists None. eexists. intros o Ho. unfold signal. by rewrite Ho, He.
Qed.

End signalled.

(** ** Counting program points *)

Definition n_waiting (pc : WorkerPc) : nat := match pc with WWaiting => 1 | _ => 0 end.
Definition n_woken (pc : WorkerPc) : nat := match pc with WWoken => 1 | _ => 0 end.
Definition n_active (pc : WorkerPc) : nat :=
  match pc with WProcess _ | WDestroy _ | WCatch _ _ | WRecord _ | WCount => 1 | _ => 0 end.
Definition n_pushers_waiting (pc : ClientPc) : nat := match pc with PushWaiting _ _ _ => 1 | _ => 0 end.
Definition n_pushers_woken (pc : ClientPc) : nat := match pc with PushWoken _ _ _ => 1 | _ => 0 end.

(** The item that a worker has not processed yet, and the one it has to
    destroy. *)
Definition unprocessed (pc : WorkerPc) : option WorkItem := match pc with WProcess item => item | _ => None end.
Definition to_destroy (pc : WorkerPc) : option WorkItem :=
  match pc with WDestroy item | WCatch item _ => Some item | _ => None end.

(** How often an item occurs. *)
Definition occ (x : WorkItem) (l : list WorkItem) : nat := count_occ Nat.eq_dec l x.
Definition occ_in (f : WorkerPc -> option WorkItem) (x : WorkItem) (pc : WorkerPc) : nat :=
  match f pc with Some y => occ x [y] | None => 0 end.

Lemma occ_app x l k : occ x (l ++ k) = (occ x l + occ x k)%nat.
Proof. apply count_occ_app. Qed.

Lemma occ_Permutation l k : (forall x, occ x l = occ x k) -> l ≡ₚ k.
Proof. intros Hx. by apply (Permutation_count_occ Nat.eq_dec). Qed.

Lemma occ_omap f x ws : occ x (omap f ws) = tot (occ_in f x) ws.
Proof.
  induction ws as [|pc ws IH]; [done|].
  assert (omap f (pc :: ws) = option_list (f pc) ++ omap f ws) as -> by (cbn; by destruct (f pc)).
  rewrite occ_app, IH. cbn. unfold occ_in. by destruct (f pc).
Qed.

(** Program points at which a call has come to an end. *)
Lemma push_returns_quiet (f : ClientPc -> nat) item ec k :
  (forall r, f (Idle r) = 0%nat) -> (forall item ec k, f (TaskFailed item ec k) = 0%nat) -> f (push_returns item ec k) = 0%nat.
Proof. intros H1 H2. unfold push_returns. repeat case_match; auto. Qed.

Lemma stop_returns_quiet (f : ClientPc -> nat) k :
  (forall r, f (Idle r) = 0%nat) -> (forall item ec k, f (TaskFailed item ec k) = 0%nat) -> f (stop_returns k) = 0%nat.
Proof. intros H1 H2. destruct k; cbn; auto using push_returns_quiet. Qed.

#[local] Arguments signalConsumer : simpl never.
#[local] Arguments signalProducer : simpl never.
#[local] Arguments signal : simpl never.
#[local] Arguments ClearQueue : simpl never.
#[local] Arguments wrapu : simpl never.
#[local] Arguments insert : simpl never.
#[local] Arguments tot : simpl never.
#[local] Arguments occ : simpl never.

Section safety.
Context {Q : Type} `{WorkItemQueueLaws WorkItem Q} (cfg : Config).
Implicit Types s : Pool (Q := Q).

(** ** The queue *)

Lemma pop_inv n (q : Q) l item q' : wq_rep n q l -> (wq_size q =? 0) = false -> wq_pop q = Some (item, q') ->
  exists x l', l = x :: l' /\ item = Some x /\ wq_rep n q' l'.
Proof.
  intros Hq Hs E. rewrite (wq_size_rep n q l Hq) in Hs. destruct l as [|x l]; [done|].
  destruct (wq_pop_rep n q _ Hq) as (q1 & E1 & Hq1). rewrite E1 in E. injection E as <- <-.
  by exists x, l.
Qed.

Lemma pop_defined n (q : Q) l : wq_rep n q l -> exists item q', wq_pop q = Some (item, q').
Proof. intros Hq. destruct (wq_pop_rep n q l Hq) as (q' & E & _). by eexists _, _. Qed.

Lemma push_inv n (q : Q) l x b q' : wq_rep n q l -> wq_push q x = Some (b, q') -> Z.of_nat (length l) < n ->
  b = true /\ wq_rep n q' (l ++ [x]).
Proof.
  intros Hq E Hl. destruct (wq_push_rep n q l x Hq) as (b1 & q1 & E1 & Hq1 & Hb). rewrite E1 in E.
  injection E as <- <-. rewrite (Hb Hl) in *. done.
Qed.

Lemma push_is_defined n (q : Q) l x : wq_rep n q l -> exists b q', wq_push q x = Some (b, q').
Proof. intros Hq. destruct (wq_push_rep n q l x Hq) as (b & q' & E & _). by eexists _, _. Qed.

Lemma ClearQueue_loop_spec n (q : Q) l k : wq_rep n q l -> (length l <= k)%nat ->
  exists q', ClearQueue_loop k q = Some (q', l) /\ wq_rep n q' [].
Proof.
  revert q l; induction k as [|k IH]; intros q l Hq Hk; cbn; rewrite (wq_size_rep n q l Hq).
  - destruct l; [by exists q|cbn in *; lia].
  - destruct l as [|x l]; [by exists q|]. cbn [length] in *.
    destruct (wq_pop_rep n q _ Hq) as (q1 & E1 & Hq1). cbn in Hq1. destruct (IH q1 l Hq1) as (q2 & E2 & Hq2); [lia|].
    rewrite E1. cbn. rewrite E2. cbn. by exists q2.
Qed.

(** What [ClearQueue] does: it drops every item. *)
Lemma ClearQueue_inv s s' n l : wq_rep n (queue_ s) l -> ClearQueue s = Some s' ->
  exists q, wq_rep n q [] /\ s' = broadcastProducer (note (log_dropped l) (with_queue q s)).
Proof.
  intros Hq E. unfold ClearQueue in E.
  destruct (ClearQueue_loop_spec n (queue_ s) l (Z.to_nat (wq_size (queue_ s))) Hq) as (q & E1 & Hq1).
  { rewrite (wq_size_rep _ _ _ Hq). lia. }
  rewrite E1 in E. injection E as <-. by exists q.
Qed.

Lemma ClearQueue_defined s n l : wq_rep n (queue_ s) l -> ClearQueue s <> None.
Proof.
  intros Hq E. unfold ClearQueue in E.
  destruct (ClearQueue_loop_spec n (queue_ s) l (Z.to_nat (wq_size (queue_ s))) Hq) as (q & E1 & Hq1).
  { rewrite (wq_size_rep _ _ _ Hq). lia. }
  by rewrite E1 in E.
Qed.

Lemma signalConsumer_inv o s s' : signalConsumer o s = Some s' ->
  exists ws, signalled worker_waits wake_worker (threads_ s) ws /\ s' = with_threads ws s.
Proof.
  intros E. apply bind_Some_inv in E as (ws & E & [= <-]). exists ws. split; [|done]. by eapply signal_signalled.
Qed.

Lemma signalProducer_inv o s s' : signalProducer o s = Some s' ->
  exists cs, signalled client_waits wake_client (clients s) cs /\ s' = with_clients cs s.
Proof.
  intros E. apply bind_Some_inv in E as (ws & E & [= <-]). exists ws. split; [|done]. by eapply signal_signalled.
Qed.

(** The queue holds what was pushed and not popped, in that order, and never
    more than [queue_size_]. *)
Definition queue_ok s : Prop :=
  exists l, wq_rep (queue_size_ cfg) (queue_ s) l /\ accepted (log s) = taken (log s) ++ l /\
    Z.of_nat (length l) <= queue_size_ cfg.
End safety.

(** Case analysis on a step: what the thread was doing and where it went. *)
Ltac step_cases Hs :=
  match type of Hs with step _ ?ev _ = _ => tryif is_var ev then destruct ev else idtac end; cbn [step] in Hs;
  unfold worker_step, worker_locked, client_step, push_step, push_locked, stop_step, wait_step, start_step,
    call, Stop, stop_after_threads, moves in Hs;
  repeat (case_match; simplify_eq/=);
  repeat match goal with
  | E : signalConsumer _ _ = Some _ |- _ => apply signalConsumer_inv in E as (? & E & ->); cbn [threads_ set_client with_clients note with_log with_queue] in E
  | E : signalProducer _ _ = Some _ |- _ => apply signalProducer_inv in E as (? & E & ->); cbn [clients set_worker with_threads with_active note with_log with_queue] in E
  | |- context [ConsumeItem_record _ ?s] => unfold ConsumeItem_record; destruct (has_exception_ s) eqn:?
  end.

(** ... and what the queue did in it. *)
Ltac queue_cases :=
  bool_to_prop;
  repeat match goal with
  | H : _ \/ _ |- _ => destruct H; [congruence|]; bool_to_prop
  | Hq : @wq_rep _ _ _ _ _ (queue_ ?s) _, E : @wq_pop _ _ _ (queue_ ?s) = Some _, Hn : @wq_size _ _ _ (queue_ ?s) <> 0 |- _ =>
      apply Z.eqb_neq in Hn; apply (pop_inv _ _ _ _ _ Hq Hn) in E as (? & ? & -> & -> & ?)
  | Hq : @wq_rep _ _ _ _ _ (queue_ ?s) _, E : @wq_push _ _ _ (queue_ ?s) _ = Some _, Hn : @wq_size _ _ _ (queue_ ?s) < _ |- _ =>
      let Hb := fresh in
      rewrite (wq_size_rep _ _ _ Hq) in Hn; apply (push_inv _ _ _ _ _ _ Hq) in E as [Hb ?]; [|exact Hn];
      first [discriminate Hb|clear Hb]
  | Hq : @wq_rep _ _ _ _ _ (queue_ ?s) _, E : ClearQueue ?s = Some _ |- _ =>
      apply (ClearQueue_inv _ _ _ _ Hq) in E as (? & ? & ->)
  end.

Lemma tot_exited f ws : f WExited = 0%nat ->
  forallb (fun pc => match pc with WExited => true | _ => false end) ws = true -> tot f ws = 0%nat.
Proof.
  intros Hf Hw. induction ws as [|pc ws IH]; [done|]. cbn in *. destruct pc; cbn in *; try done.
  change (f WExited + tot f ws = 0)%nat. rewrite Hf. by apply IH.
Qed.

(** Counts over the threads after a step, from those before it. *)
Ltac tot_facts :=
  repeat match goal with
  | |- context [tot ?f (_ ++ _)] => rewrite tot_app
  | |- context [tot ?f [?x]] => change (tot f [x]) with (f x + 0)%nat; cbn
  | |- context [tot ?f []] => change (tot f []) with 0%nat
  | Hw : forallb _ ?ws = true, Hf : context [tot ?f ?ws] |- _ => rewrite (tot_exited f ws eq_refl Hw) in Hf
  | Hw : forallb _ ?ws = true |- context [tot ?f ?ws] => rewrite (tot_exited f ws) by (first [exact Hw|reflexivity])
  | Hg : signalled _ _ _ ?ws |- context [tot ?f ?ws] => rewrite (fun Hf => tot_signalled _ _ f _ _ Hf Hg) by (intros []; reflexivity)
  | |- context [occ ?x []] => change (occ x []) with 0%nat
  | |- context [tot ?f (_ <$> _)] => rewrite (tot_fmap f) by (intros []; reflexivity)
  | Ht : context [tot ?f (_ <$> _)] |- _ => rewrite (tot_fmap f) in Ht by (intros []; reflexivity)
  | Hi : ?l !! ?i = Some ?x |- context [tot ?f (<[?i := ?y]> ?l)] =>
      let Ht := fresh "Ht" in
      pose proof (tot_insert f l i x y Hi) as Ht; cbn in Ht;
      let n := fresh "n" in set (n := tot f (<[i := y]> l)) in *; clearbody n
  | Ht : context [?f (push_returns ?item ?ec ?k)] |- _ => rewrite (push_returns_quiet f item ec k) in Ht by (intros; reflexivity)
  | Ht : context [?f (stop_returns ?k)] |- _ => rewrite (stop_returns_quiet f k) in Ht by (intros; reflexivity)
  | Hi : ?l !! ?i = Some ?x |- context [tot ?f (<[?i := ?y]> (?g <$> ?l))] =>
      let Ht := fresh "Ht" in
      pose proof (tot_insert f (g <$> l) i (g x) y (eq_trans (list_lookup_fmap g l i) (f_equal (fmap g) Hi))) as Ht; cbn in Ht;
      let n := fresh "n" in set (n := tot f (<[i := y]> (g <$> l))) in *; clearbody n
  end.

(** Sizes of queues as lengths of lists. *)
Ltac queue_sizes :=
  cbn [length] in *;
  repeat match goal with
  | Hq : @wq_rep _ _ _ _ _ ?q _, Hs : context [@wq_size _ _ _ ?q] |- _ => rewrite (wq_size_rep _ _ _ Hq) in Hs
  | Hq : @wq_rep _ _ _ _ _ ?q _ |- context [@wq_size _ _ _ ?q] => rewrite (wq_size_rep _ _ _ Hq)
  end;
  rewrite ?length_app in *; cbn [length] in *.

Section invariants.
Context {Q : Type} `{WorkItemQueueLaws WorkItem Q} (cfg : Config).
Implicit Types s : Pool (Q := Q).

Lemma queue_ok_step ev s s' : queue_ok cfg s -> step cfg ev s = Moves s' -> queue_ok cfg s'.
Proof.
  intros (l & Hq & Ht & Hl) Hs. step_cases Hs; try (exists l; split_and!; assumption); queue_cases;
    eexists; cbn; (split_and!; [eassumption|rewrite Ht, <- ?app_assoc, ?app_nil_r; reflexivity|rewrite ?length_app in *; cbn in *; lia]).
Qed.

Definition n_null (pc : WorkerPc) : nat := match pc with WProcess None => 1 | _ => 0 end.

(** Every item that left the queue is about to be processed, was processed, or
    was dropped; processed items are destroyed, again when that threw. *)
Record items_ok s : Prop := {
  items_taken x : occ x (taken (log s)) =
    (tot (occ_in unprocessed x) (threads_ s) + occ x (processed (log s)) + occ x (dropped (log s)))%nat;
  items_destroyed x : (occ x (processed (log s)) + occ x (destroy_threw (log s)) =
    occ x (destroyed (log s)) + tot (occ_in to_destroy x) (threads_ s))%nat;
  items_null : tot n_null (threads_ s) = 0%nat
}.

Definition active_ok s : Prop := active_thread_count_ s = u32 (Z.of_nat (tot n_active (threads_ s))).

Lemma items_ok_step ev s s' : queue_ok cfg s -> items_ok s -> step cfg ev s = Moves s' -> items_ok s'.
Proof.
  intros (l & Hq & Ht & Hl) [H1 H2 H3] Hs. step_cases Hs; try (split; assumption); queue_cases.
  all: split; [intros x'; specialize (H1 x')|intros x'; specialize (H2 x')|]; cbn; rewrite ?occ_app; tot_facts.
  all: lia.
Qed.

Lemma wrapu_add_l w a b : wrapu w (wrapu w a + b) = wrapu w (a + b).
Proof. unfold wrapu. apply Zplus_mod_idemp_l. Qed.

Lemma active_ok_step ev s s' : queue_ok cfg s -> active_ok s -> step cfg ev s = Moves s' -> active_ok s'.
Proof.
  intros (l & Hq & Ht & Hl) Ha Hs. unfold active_ok in *.
  step_cases Hs; try assumption; queue_cases; cbn; tot_facts; rewrite Ha;
    rewrite <- ?Z.add_opp_r, ?wrapu_add_l; f_equal; lia.
Qed.

(** ** Nobody sleeps while there is something to do

    A waiting worker was notified for every item in the queue, and a waiting
    producer for every free place. *)

Definition consumers_ok s : Prop := (0 < tot n_waiting (threads_ s))%nat ->
  run_ s = true /\ wq_size (queue_ s) <= Z.of_nat (tot n_woken (threads_ s)).

Definition producers_ok s : Prop := (0 < tot n_pushers_waiting (clients s))%nat ->
  push_ s = true /\ (StopIfHasException cfg s = false ->
    queue_size_ cfg - wq_size (queue_ s) <= Z.of_nat (tot n_pushers_woken (clients s))).

Lemma signalled_workers ws ws' : signalled worker_waits wake_worker ws ws' ->
  (tot n_waiting ws' + 1 = tot n_waiting ws /\ tot n_woken ws' = tot n_woken ws + 1)%nat \/
  (tot n_waiting ws = 0%nat /\ ws' = ws).
Proof.
  intros [i pc Hi Hw|Hn].
  - destruct pc; try done. left.
    pose proof (tot_insert n_waiting ws i _ WWoken Hi). pose proof (tot_insert n_woken ws i _ WWoken Hi). cbn in *. lia.
  - right. split; [|done]. apply tot_0. intros i pc Hi. specialize (Hn i pc Hi). by destruct pc.
Qed.

Lemma signalled_clients cs cs' : signalled client_waits wake_client cs cs' ->
  (tot n_pushers_waiting cs' + 1 = tot n_pushers_waiting cs /\
   tot n_pushers_woken cs' = tot n_pushers_woken cs + 1)%nat \/
  (tot n_pushers_waiting cs = 0%nat /\ cs' = cs).
Proof.
  intros [i pc Hi Hw|Hn].
  - destruct pc as [| | | |item b k| | | | | | | | | | | | | | | | |]; try done. left.
    pose proof (tot_insert n_pushers_waiting cs i _ (PushWoken item b k) Hi).
    pose proof (tot_insert n_pushers_woken cs i _ (PushWoken item b k) Hi). cbn in *. lia.
  - right. split; [|done]. apply tot_0. intros i pc Hi. specialize (Hn i pc Hi). by destruct pc.
Qed.

Lemma broadcast_workers ws : tot n_waiting (wake_worker <$> ws) = 0%nat.
Proof. induction ws as [|pc ws IH]; [done|]. cbn. by destruct pc. Qed.

Lemma broadcast_clients cs : tot n_pushers_waiting (wake_client <$> cs) = 0%nat.
Proof. induction cs as [|pc cs IH]; [done|]. cbn. by destruct pc. Qed.

Lemma consumers_ok_step ev s s' : queue_ok cfg s -> consumers_ok s -> step cfg ev s = Moves s' -> consumers_ok s'.
Proof.
  intros (l & Hq & Ht & Hl) Ha Hs. unfold consumers_ok in *.
  step_cases Hs; try assumption; queue_cases; cbn; rewrite ?broadcast_workers; tot_facts.
  all: try match goal with Hg : signalled worker_waits _ _ _ |- _ => apply signalled_workers in Hg as [[]|[? ->]] end.
  all: queue_sizes; intros Hp; try lia.
  all: destruct (decide (0 < tot n_waiting (threads_ s))%nat) as [Hd|Hd]; [destruct (Ha Hd); queue_sizes|].
  all: try (exfalso; lia); split; try congruence; try lia.
Qed.

Lemma producers_ok_step ev s s' : queue_ok cfg s -> producers_ok s -> step cfg ev s = Moves s' -> producers_ok s'.
Proof.
  intros (l & Hq & Ht & Hl) Ha Hs. unfold producers_ok, StopIfHasException in *.
  step_cases Hs; try assumption; queue_cases; cbn; rewrite ?broadcast_clients; tot_facts; rewrite ?broadcast_clients in *.
  all: try match goal with Hg : signalled client_waits _ _ _ |- _ => apply signalled_clients in Hg as [[]|[? ->]] end.
  all: queue_sizes; intros Hp; try lia.
  all: destruct (decide (0 < tot n_pushers_waiting (clients s))%nat) as [Hd|Hd]; [destruct (Ha Hd) as [? Ha']; queue_sizes|].
  all: try (exfalso; lia); split; try congruence; try (intros He; try specialize (Ha' He); try lia).
  all: try (match goal with Hx : has_exception_ _ = false |- _ => rewrite Hx in Ha' end; specialize (Ha' eq_refl); lia).
  all: try (rewrite Heqb in He; by apply Ha').
  all: unfold StopIfHasException in *; congruence.
Qed.

(** ** How far a Start or a Stop has come

    Counters of the clients at certain points; [b1] counts one when its
    argument holds. *)

Definition b1 (b : bool) : nat := if b then 1 else 0.

Definition thread_only (ty : STOP_TYPE) : bool := match ty with STOP_THREAD_ONLY => true | _ => false end.
Definition after_empty (ty : STOP_TYPE) : bool := match ty with STOP_AFTER_QUEUE_EMPTY => true | _ => false end.

Definition n_life (pc : ClientPc) : nat := b1 (in_start pc || in_stop pc).
Definition n_start (pc : ClientPc) : nat := b1 (in_start pc).

Definition n_stop (pc : ClientPc) : nat := b1 (in_stop pc).

(** In a Stop that has closed the queue to producers. *)
Definition n_closed (pc : ClientPc) : nat :=
  match pc with
  | StopWaitExc ty _ | StopWaitCount ty _ | StopRun ty _ | StopSignal ty _ | StopJoin ty _ | StopClear ty _
  | StopCheck ty _ => b1 (negb (thread_only ty))
  | _ => 0
  end.

(** In a Stop that has waited for the queue to be empty. *)
Definition n_drained (pc : ClientPc) : nat :=
  match pc with
  | StopRun ty _ | StopSignal ty _ | StopJoin ty _ | StopClear ty _ => b1 (after_empty ty)
  | _ => 0
  end.

(** In a Stop that has told the workers to stop. *)
Definition n_halted (pc : ClientPc) : nat :=
  match pc with StopJoin _ _ | StopClear _ _ | StopCheck _ _ => 1 | _ => 0 end.

Definition n_joining (pc : ClientPc) : nat := match pc with StopJoin _ _ => 1 | _ => 0 end.

(** In a Stop that has cleared the queue. *)
Definition n_cleared (pc : ClientPc) : nat :=
  match pc with StopCheck ty _ => b1 (negb (thread_only ty)) | _ => 0 end.

Definition n_starting (pc : ClientPc) : nat := match pc with StartRunning => 1 | _ => 0 end.
Definition n_before (pc : ClientPc) : nat := match pc with StartRun | StartRunning => 1 | _ => 0 end.
Definition n_creating (pc : ClientPc) : nat := match pc with CreateThreads _ => 1 | _ => 0 end.
Definition n_create (pc : ClientPc) : nat := match pc with CreateThreads num => num | _ => 0 end.

(** Points a Stop of that type does not reach. *)
Definition n_bad (pc : ClientPc) : nat :=
  match pc with
  | StopPush ty _ | StopClear ty _ => b1 (thread_only ty)
  | StopWaitExc ty _ | StopWaitCount ty _ => b1 (negb (after_empty ty))
  | _ => 0
  end.

(** Workers that have left the loop. *)
Definition n_left (pc : WorkerPc) : nat := match pc with WLeaving | WBroadcast | WExited => 1 | _ => 0 end.

Record life_ok s : Prop := {
  life_alone : (0 < tot n_start (clients s) -> tot n_life (clients s) <= 1)%nat;
  life_closed : (0 < tot n_closed (clients s))%nat -> push_ s = false;
  life_drained : (0 < tot n_drained (clients s))%nat -> StopIfHasException cfg s = true \/ wq_size (queue_ s) = 0;
  life_halted : (0 < tot n_halted (clients s))%nat -> run_ s = false;
  life_cleared : (0 < tot n_cleared (clients s))%nat -> wq_size (queue_ s) = 0;
  life_starting : (0 < tot n_starting (clients s))%nat -> run_ s = false /\ length (threads_ s) = 0%nat;
  life_before : (0 < tot n_before (clients s))%nat -> tot n_create (clients s) = 0%nat;
  life_create : (length (threads_ s) + tot n_create (clients s) <= Z.to_nat (thread_num_ cfg))%nat;
  life_creating : (0 < tot n_creating (clients s))%nat -> run_ s = true;
  life_bad : tot n_bad (clients s) = 0%nat;
  life_threads : run_ s = false -> length (threads_ s) = 0%nat \/ (0 < tot n_joining (clients s))%nat;
  life_left : (0 < tot n_left (threads_ s))%nat -> run_ s = false \/ StopIfHasException cfg s = true
}.

Lemma tot_le2 {A} (f g h : A -> nat) l : (forall x, (f x + g x <= h x)%nat) -> (tot f l + tot g l <= tot h l)%nat.
Proof.
  intros Hf. induction l as [|x l IH]; [done|]. specialize (Hf x).
  change (f x + tot f l + (g x + tot g l) <= h x + tot h l)%nat. lia.
Qed.

Lemma tot_zero {A} (f g : A -> nat) l : (forall x, f x = 0%nat -> g x = 0%nat) -> tot f l = 0%nat -> tot g l = 0%nat.
Proof. rewrite !tot_0. intros Hf Hz i x Hx. apply Hf. by apply (Hz i). Qed.

Lemma existsb_tot {A} (p : A -> bool) l : existsb p l = false -> tot (fun x => b1 (p x)) l = 0%nat.
Proof.
  induction l as [|x l IH]; [done|]. cbn. intros [Hp Hl]%orb_false_iff.
  change (b1 (p x) + tot (fun x => b1 (p x)) l = 0)%nat. rewrite Hp. by apply IH.
Qed.

(** How the counters are related. *)
Lemma tot_relations (cs : list ClientPc) :
  (tot n_stop cs + tot n_start cs <= tot n_life cs /\
   tot n_closed cs + tot n_start cs <= tot n_life cs /\
   tot n_halted cs + tot n_start cs <= tot n_life cs /\
   tot n_before cs + tot n_creating cs <= tot n_start cs /\
   tot n_drained cs + 0 <= tot n_closed cs /\ tot n_cleared cs + 0 <= tot n_closed cs /\
   tot n_joining cs + 0 <= tot n_halted cs /\ tot n_starting cs + 0 <= tot n_before cs /\
   (tot n_creating cs = 0 -> tot n_create cs = 0))%nat.
Proof.
  assert (Hz : tot (fun _ : ClientPc => 0%nat) cs = 0%nat) by (apply tot_0; done).
  split_and!; [..|apply tot_zero; intros []; cbn; done].
  5-8: rewrite <- Hz.
  all: apply tot_le2; intros []; cbn; repeat match goal with ty : STOP_TYPE |- _ => destruct ty end; cbn; lia.
Qed.

(** What the acting client itself counts for. *)
Ltac life_facts :=
  repeat match goal with
  | Hx : existsb in_start ?cs = false |- _ => apply (existsb_tot in_start cs) in Hx; change (tot n_start cs = 0%nat) in Hx
  | Hx : existsb (fun pc => in_start pc || in_stop pc) ?cs = false |- _ =>
      apply (existsb_tot (fun pc => in_start pc || in_stop pc) cs) in Hx; change (tot n_life cs = 0%nat) in Hx
  end;
  try match goal with
  | Hi : ?cs !! ?c = Some ?pc |- _ =>
      match type of pc with ClientPc => idtac end;
      pose proof (tot_ge n_start cs c pc Hi); pose proof (tot_ge n_life cs c pc Hi);
      pose proof (tot_ge n_before cs c pc Hi); pose proof (tot_ge n_starting cs c pc Hi);
      pose proof (tot_ge n_creating cs c pc Hi); pose proof (tot_ge n_stop cs c pc Hi); cbn in *
  end.

(** Use what the counters tell about the state before the step. *)
Ltac life_forward :=
  intros;
  repeat match goal with L : (0 < _)%nat -> _ |- _ => first [specialize (L ltac:(lia))|clear L] end;
  repeat match goal with
  | L : _ /\ _ |- _ => destruct L
  | L : run_ ?s = false -> _, R : run_ ?s = false |- _ => specialize (L R)
  end;
  first [congruence|lia|assumption
        |match goal with L : _ \/ _ |- _ => destruct L; first [congruence|lia|left; assumption|right; assumption|left; congruence|right; congruence|left; lia|right; lia] end
        |left; first [congruence|lia]|right; first [congruence|lia]|split; first [congruence|lia]].

Lemma life_ok_step ev s s' : queue_ok cfg s -> life_ok s -> step cfg ev s = Moves s' -> life_ok s'.
Proof.
  intros (l & Hq & Ht & Hl) [L1 L2 L3 L4 L5 L6 L7 L8 L9 L10 L11 L12] Hs.
  pose proof (tot_relations (clients s)) as Hrel.
  pose proof (tot_le_length n_left (threads_ s) ltac:(intros []; cbn; lia)) as Hleft.
  unfold StopIfHasException in *. step_cases Hs; try (split; assumption); unfold GetItemCount in *; queue_cases; life_facts.
  all: split; cbn; rewrite ?length_insert, ?length_fmap, ?length_app; tot_facts; queue_sizes;
    unfold StopIfHasException, GetItemCount in *; cbn [has_exception_ set_worker set_client with_threads with_clients with_exception] in *.
  all: try match goal with Hg : signalled _ _ _ ?ws |- context [length ?ws] => rewrite (signalled_length _ _ _ _ Hg) end.
  all: try (intros; lia).
  all: try solve [life_forward].
  all: try solve [match goal with ty : STOP_TYPE |- _ => destruct ty; cbn in *; first [congruence|lia|life_forward] end].
Qed.

(** ** Who called Stop, and with which type

    [PushWorkItem] calls it only when the pool has failed. *)

Definition n_push_stop (pc : ClientPc) : nat :=
  match pc with
  | StopPush _ (StopByPush _ _) | StopWaitExc _ (StopByPush _ _) | StopWaitCount _ (StopByPush _ _)
  | StopRun _ (StopByPush _ _) | StopSignal _ (StopByPush _ _) | StopJoin _ (StopByPush _ _)
  | StopClear _ (StopByPush _ _) | StopCheck _ (StopByPush _ _) => 1
  | _ => 0
  end.

Definition n_push_bad (pc : ClientPc) : nat :=
  match pc with
  | StopPush ty (StopByPush _ _) | StopWaitExc ty (StopByPush _ _) | StopWaitCount ty (StopByPush _ _)
  | StopRun ty (StopByPush _ _) | StopSignal ty (StopByPush _ _) | StopJoin ty (StopByPush _ _)
  | StopClear ty (StopByPush _ _) | StopCheck ty (StopByPush _ _) =>
      match ty with STOP_AND_CLEAR_QUEUE => 0 | _ => 1 end
  | _ => 0
  end.

Record exception_ok s : Prop := {
  exn_base : exception_ s = std_exception;
  exn_push : (0 < tot n_push_stop (clients s))%nat -> StopIfHasException cfg s = true;
  exn_bad : tot n_push_bad (clients s) = 0%nat
}.

Ltac push_stop_solve :=
  intros Hp;
  match goal with E2 : (0 < tot n_push_stop ?cs)%nat -> _ |- _ =>
    first [assumption|apply E2; lia|specialize (E2 ltac:(lia)); apply andb_true_iff in E2 as [? ?]; congruence]
  end.

Lemma exception_ok_step ev s s' : queue_ok cfg s -> exception_ok s -> step cfg ev s = Moves s' -> exception_ok s'.
Proof.
  intros (l & Hq & Ht & Hl) [E1 E2 E3] Hs. unfold StopIfHasException in *.
  step_cases Hs; try (split; assumption); queue_cases.
  all: split; cbn; try assumption; try reflexivity; tot_facts; unfold StopIfHasException in *; cbn in *.
  all: try first [lia|push_stop_solve].
  all: try match goal with k : StopCaller |- _ => destruct k end; cbn in *; try first [lia|push_stop_solve].
  all: try match goal with ty : STOP_TYPE |- _ => destruct ty end; cbn in *; try first [lia|push_stop_solve].
  all: match goal with Hb : has_exception_ _ = true |- _ => rewrite Hb; exact E2 end.
Qed.

(** ** All of it, in every reachable state *)

Record Inv s : Prop := {
  inv_queue : queue_ok cfg s;
  inv_items : items_ok s;
  inv_active : active_ok s;
  inv_consumers : consumers_ok s;
  inv_producers : producers_ok s;
  inv_life : life_ok s;
  inv_exception : exception_ok s
}.

Lemma Inv_step ev s s' : Inv s -> step cfg ev s = Moves s' -> Inv s'.
Proof.
  intros [I1 I2 I3 I4 I5 I6 I7] Hs. split.
  - by apply (queue_ok_step ev s).
  - by apply (items_ok_step ev s).
  - by apply (active_ok_step ev s).
  - by apply (consumers_ok_step ev s).
  - by apply (producers_ok_step ev s).
  - by apply (life_ok_step ev s).
  - by apply (exception_ok_step ev s).
Qed.

Lemma tot_replicate {A} (f : A -> nat) n x : f x = 0%nat -> tot f (replicate n x) = 0%nat.
Proof. intros Hf. apply tot_0. intros i y [-> _]%lookup_replicate. done. Qed.

Lemma Inv_new q n : wq_rep (queue_size_ cfg) q [] -> 0 <= queue_size_ cfg -> Inv (ThreadPool_new q n).
Proof.
  intros Hq Hn. split.
  - exists []. cbn. split_and!; [done|done|lia].
  - split; done.
  - done.
  - intros Hp. cbn in Hp. change (0 < 0)%nat in Hp. lia.
  - intros Hp. cbn in Hp. rewrite tot_replicate in Hp by done. lia.
  - split; cbn; rewrite ?tot_replicate by done; change (@tot WorkerPc n_left []) with 0%nat; try lia.
  - split; cbn; rewrite ?tot_replicate by done; [done|lia|done].
Qed.

Lemma run_app evs evs' s : run cfg (evs ++ evs') s = s1 ← run cfg evs s; run cfg evs' s1.
Proof. revert s; induction evs as [|ev evs IH]; intros s; cbn; [done|]. by destruct (step cfg ev s). Qed.

Lemma run_Inv evs s s' : Inv s -> run cfg evs s = Some s' -> Inv s'.
Proof.
  revert s; induction evs as [|ev evs IH]; intros s Hi Hr; cbn in Hr; [by injection Hr as <-|].
  destruct (step cfg ev s) as [| |s1] eqn:Hs; try done. eapply IH; [|done]. by eapply Inv_step.
Qed.

Lemma reachable_Inv q n evs s : wq_rep (queue_size_ cfg) q [] -> 0 <= queue_size_ cfg ->
  run cfg evs (ThreadPool_new q n) = Some s -> Inv s.
Proof. intros Hq Hn. apply run_Inv. by apply Inv_new. Qed.

End invariants.
