(* ===== verification/ThreadPoolSafety.v ===== *)
(** * The thread pool: what its users can rely on

    The theorems on every state that a pool can reach: no item is lost or
    handled twice, nothing crashes, nobody waits while there is something to
    do, a [Stop] leaves nothing behind, and what an exception does. *)

From S2P Require Import Prelude CircularQueue ThreadPool ThreadPoolInv.

Section theorems.
Context {Q : Type} `{WorkItemQueueLaws WorkItem Q} (cfg : Config).
Implicit Types s : Pool (Q := Q).

(** A pool made with the queue [q] and used by [n] clients, after [evs]. *)
Definition reached (q : Q) (n : nat) (evs : list Event) s : Prop :=
  wq_rep (queue_size_ cfg) q [] /\ 0 <= queue_size_ cfg /\ run cfg evs (ThreadPool_new q n) = Some s.

Lemma reached_Inv q n evs s : reached q n evs s -> Inv cfg s.
Proof. intros (Hq & Hn & Hr). by eapply reachable_Inv. Qed.

Lemma active_exact s : Inv cfg s -> thread_num_ cfg < 2 ^ 32 ->
  active_thread_count_ s = Z.of_nat (tot n_active (threads_ s)).
Proof.
  intros [_ _ Ha _ _ HL _] Hb. rewrite Ha. apply wrapu_small.
  pose proof (tot_le_length n_active (threads_ s) ltac:(intros []; cbn; lia)).
  pose proof (life_create _ _ HL). lia.
Qed.

(** C22: in every state that the threads can reach, an item that was accepted
    is in the queue or has left it, in the order of acceptance, and an item
    that has left it is with the one worker that is about to process it, or it
    was processed once, or dropped once.  Processed items are destroyed once,
    or twice when the first destroy threw.  The queue never holds more than
    its limit, and the counter of active threads is the number of workers that
    handle an item. *)
Theorem pool_conserves_items q n evs s :
  reached q n evs s ->
  exists l, wq_rep (queue_size_ cfg) (queue_ s) l /\
    accepted (log s) = taken (log s) ++ l /\
    taken (log s) ≡ₚ omap unprocessed (threads_ s) ++ processed (log s) ++ dropped (log s) /\
    processed (log s) ++ destroy_threw (log s) ≡ₚ destroyed (log s) ++ omap to_destroy (threads_ s) /\
    GetItemCount s = Z.of_nat (length l) /\ GetItemCount s <= queue_size_ cfg /\
    IsFull cfg s = bool_decide (Z.of_nat (length l) = queue_size_ cfg) /\
    (thread_num_ cfg < 2 ^ 32 -> active_thread_count_ s = Z.of_nat (tot n_active (threads_ s))).
Proof.
  intros Hr%reached_Inv. pose proof Hr as [(l & Hq & Ht & Hl) [I1 I2 _] _ _ _ _ _].
  exists l. unfold GetItemCount, IsFull. rewrite (wq_size_rep _ _ _ Hq). split_and!; try done.
  - apply occ_Permutation. intros x. rewrite !occ_app, occ_omap, I1. lia.
  - apply occ_Permutation. intros x. rewrite !occ_app, occ_omap. apply I2.
  - case_bool_decide; lia.
  - intros Hb. by apply active_exact.
Qed.

(** No step of a thread fails: the queue is popped and pushed only as it
    allows, no worker calls through a null pointer, and [ClearQueue] ends. *)
Theorem pool_never_crashes q n evs s ev : reached q n evs s -> step cfg ev s <> Crash.
Proof.
  intros [(l & Hq & _ & _) [_ _ Hnull] _ _ _ _ _]%reached_Inv Hs.
  destruct (pop_defined _ _ _ Hq) as (item & q' & Hpop).
  destruct ev as [i o|c o|c op|i|c]; cbn [step] in Hs;
    unfold worker_step, worker_locked, client_step, push_step, push_locked, stop_step, wait_step, start_step, call, Stop in Hs.
  all: repeat (case_match; simplify_eq/=).
  all: try match goal with Hm : context [moves ?m] |- _ => by destruct m end.
  - match goal with Hi : threads_ s !! _ = Some (WProcess None) |- _ =>
      pose proof (proj1 (tot_0 _ _) Hnull _ _ Hi); done end.
  - destruct (push_is_defined _ _ _ item0 Hq) as (? & ? & Hp). congruence.
  - destruct (push_is_defined _ _ _ item0 Hq) as (? & ? & Hp). congruence.
  - by eapply ClearQueue_defined.
Qed.

(** ** Who can move *)

Definition worker_can_move (i : nat) s : Prop := exists o s', worker_step cfg i o s = Moves s'.
Definition client_can_move (c : nat) s : Prop := exists o s', client_step cfg c o s = Moves s'.

Lemma worker_locked_enabled i s n l : wq_rep n (queue_ s) l -> exists o s', worker_locked i o s = Moves s'.
Proof.
  intros Hq. unfold worker_locked.
  destruct (signal_total client_waits wake_client (clients s)) as (nt & cs & Hsig).
  exists (mkOracle nt None true). repeat case_match; try (by eexists); unfold signalProducer; cbn.
  - rewrite Hsig by done. by eexists.
  - by destruct (pop_defined _ _ _ Hq) as (? & ? & ?); simplify_eq.
Qed.

Lemma worker_enabled i s pc : Inv cfg s -> threads_ s !! i = Some pc -> pc <> WWaiting -> pc <> WExited ->
  worker_can_move i s.
Proof.
  intros [(l & Hq & _ & _) [_ _ Hnull] _ _ _ _ _] Hi Hw He. unfold worker_can_move, worker_step. rewrite Hi.
  destruct (worker_locked_enabled i s _ _ Hq) as (o & s' & Hl).
  destruct pc as [| | | | |[item|]| | | | | | |]; try done; try (by exists o, s');
    try (exists (mkOracle None None true); by eexists).
  by pose proof (proj1 (tot_0 _ _) Hnull _ _ Hi).
Qed.

Lemma push_woken_enabled c s item b k : Inv cfg s -> clients s !! c = Some (PushWoken item b k) ->
  client_can_move c s.
Proof.
  intros [(l & Hq & _ & _) _ _ _ _ _ _] Hc. unfold client_can_move, client_step. rewrite Hc.
  cbn. unfold push_locked.
  destruct (signal_total worker_waits wake_worker (threads_ s)) as (nt & ws & Hsig).
  destruct (push_is_defined _ _ _ item Hq) as (ok & q' & Hp).
  exists (mkOracle nt None true). rewrite Hp. unfold signalConsumer. cbn. rewrite Hsig by done.
  repeat case_match; by eexists.
Qed.

(** C23: no wake-up is lost.  While the pool runs and has not failed, an item
    in the queue finds a worker that can move, and a free place in the queue
    finds, if any producer waits for one, a producer that was notified and can
    move.  More exactly, while a worker waits there are at least as many
    notified workers as items, and while a producer waits at least as many
    notified producers as free places. *)
Theorem pool_no_lost_wakeup q n evs s :
  reached q n evs s ->
  (run_ s = true -> StopIfHasException cfg s = false -> threads_ s <> [] -> GetItemCount s <> 0 ->
     exists i, worker_can_move i s) /\
  (StopIfHasException cfg s = false -> (exists c item b k, clients s !! c = Some (PushWaiting item b k)) ->
     IsFull cfg s = false ->
     exists c item b k, clients s !! c = Some (PushWoken item b k) /\ client_can_move c s) /\
  ((0 < tot n_waiting (threads_ s))%nat -> run_ s = true /\ GetItemCount s <= Z.of_nat (tot n_woken (threads_ s))) /\
  ((0 < tot n_pushers_waiting (clients s))%nat -> StopIfHasException cfg s = false ->
     queue_size_ cfg - GetItemCount s <= Z.of_nat (tot n_pushers_woken (clients s))).
Proof.
  intros Hr%reached_Inv. pose proof Hr as [(l & Hq & _ & Hl) _ _ Hc Hp HL _].
  unfold GetItemCount, IsFull in *. rewrite (wq_size_rep _ _ _ Hq) in *.
  unfold consumers_ok, producers_ok in *. rewrite (wq_size_rep _ _ _ Hq) in *.
  refine (conj _ (conj _ (conj Hc (fun H1 H2 => proj2 (Hp H1) H2)))).
  - intros Hrun He Hne Hs.
    assert (Hleft : tot n_left (threads_ s) = 0%nat).
    { destruct (tot n_left (threads_ s)) eqn:E; [done|]. destruct (life_left _ _ HL) as [|]; [lia|congruence..]. }
    destruct (decide (tot n_waiting (threads_ s) = 0%nat)) as [Hw|Hw].
    + destruct (threads_ s) as [|pc ws] eqn:Ht; [done|]. exists 0%nat.
      pose proof (proj1 (tot_0 _ _) Hw 0%nat pc eq_refl). pose proof (proj1 (tot_0 _ _) Hleft 0%nat pc eq_refl).
      apply (worker_enabled _ _ pc Hr); [by rewrite Ht|by intros ->..].
    + destruct Hc as [_ Hc]; [lia|]. destruct (tot_pos n_woken (threads_ s)) as (i & pc & Hi & Hpc); [lia|].
      exists i. apply (worker_enabled _ _ pc Hr Hi); by intros ->.
  - intros He (c & item & b & k & Hcl) Hfull. apply Z.leb_gt in Hfull.
    assert (0 < tot n_pushers_waiting (clients s))%nat by (pose proof (tot_ge n_pushers_waiting _ _ _ Hcl); cbn in *; lia).
    destruct Hp as [_ Hp]; [done|]. specialize (Hp He).
    destruct (tot_pos n_pushers_woken (clients s)) as (c' & pc & Hi & Hpc); [lia|].
    destruct pc as [| | | | |item' b' k'| | | | | | | | | | | | | | | |]; try done.
    exists c', item', b', k'. split; [done|]. by eapply push_woken_enabled.
Qed.

(** ** Stop and WaitFinish *)

Lemma omap_none {A B} (f : A -> option B) (l : list A) : (forall i x, l !! i = Some x -> f x = None) -> omap f l = [].
Proof.
  induction l as [|x l IH]; intros Hf; [done|]. cbn. rewrite (Hf 0%nat x eq_refl). apply IH.
  intros i y Hy. by apply (Hf (S i)).
Qed.

(** With nobody at work, every item that was accepted is in the queue, was
    processed or was dropped. *)
Lemma idle_items s : Inv cfg s -> tot n_active (threads_ s) = 0%nat ->
  taken (log s) ≡ₚ processed (log s) ++ dropped (log s) /\
  processed (log s) ++ destroy_threw (log s) ≡ₚ destroyed (log s).
Proof.
  intros [_ [I1 I2 I3] _ _ _ _ _] Ha.
  assert (Hz : forall f x, (forall i pc, threads_ s !! i = Some pc -> f pc = None) -> tot (occ_in f x) (threads_ s) = 0%nat).
  { intros f x Hf. apply tot_0. intros i pc Hi. unfold occ_in. by rewrite (Hf i pc Hi). }
  split; apply occ_Permutation; intros x; rewrite !occ_app.
  - rewrite I1, Hz; [lia|]. intros i pc Hi. pose proof (proj1 (tot_0 _ _) Ha i pc Hi). by destruct pc.
  - rewrite I2, Hz; [lia|]. intros i pc Hi. pose proof (proj1 (tot_0 _ _) Ha i pc Hi). by destruct pc.
Qed.

Lemma empty_queue s : Inv cfg s -> wq_size (queue_ s) = 0 -> taken (log s) = accepted (log s).
Proof.
  intros [(l & Hq & Ht & _) _ _ _ _ _ _] Hs. rewrite (wq_size_rep _ _ _ Hq) in Hs.
  destruct l; [|done]. by rewrite Ht, app_nil_r.
Qed.

(** What holds when a Stop that clears the queue is over. *)
Definition stopped s : Prop :=
  push_ s = false /\ run_ s = false /\ GetItemCount s = 0 /\ taken (log s) = accepted (log s) /\
  (tot n_joining (clients s) = 0%nat ->
     threads_ s = [] /\ active_thread_count_ s = 0 /\ accepted (log s) ≡ₚ processed (log s) ++ dropped (log s)).

Lemma stopped_intro s : Inv cfg s -> push_ s = false -> run_ s = false -> wq_size (queue_ s) = 0 -> stopped s.
Proof.
  intros Hi Hp Hr Hs. pose proof (empty_queue s Hi Hs) as He. unfold stopped, GetItemCount. split_and!; try done.
  intros Hj. pose proof (inv_life _ _ Hi) as HL. destruct (life_threads _ _ HL Hr) as [Ht|]; [|lia].
  apply length_zero_iff_nil in Ht. assert (Ha : tot n_active (threads_ s) = 0%nat) by by rewrite Ht.
  split_and!; [done| |].
  - rewrite (inv_active _ _ Hi), Ha. done.
  - rewrite <- He. by apply idle_items.
Qed.

(** What a Stop leaves behind.  When it has cleared the queue, and from
    then on until it returns, no item can be pushed, the workers are told to
    stop, the queue is empty, and unless another Stop is still joining them the
    workers are gone and every item that was ever accepted was processed or
    dropped, once.  A Stop that waited for the queue to be empty has nothing
    to drop unless the pool has failed. *)
Theorem stop_leaves_nothing q n evs s c ty k :
  reached q n evs s -> ty <> STOP_THREAD_ONLY ->
  (clients s !! c = Some (StopCheck ty k) -> stopped s) /\
  (clients s !! c = Some (StopClear ty k) ->
     client_can_move c s /\
     forall o s', client_step cfg c o s = Moves s' ->
       stopped s' /\
       (ty = STOP_AFTER_QUEUE_EMPTY -> StopIfHasException cfg s = false -> dropped (log s') = dropped (log s))).
Proof.
  intros Hr Hty. assert (Hi := reached_Inv _ _ _ _ Hr). pose proof (inv_life _ _ Hi) as HL.
  assert (Hb : negb (thread_only ty) = true) by by destruct ty. split; intros Hc.
  - pose proof (tot_ge n_closed _ _ _ Hc) as H1. pose proof (tot_ge n_halted _ _ _ Hc) as H2.
    pose proof (tot_ge n_cleared _ _ _ Hc) as H3. cbn in H1, H2, H3. rewrite Hb in *. cbn in *.
    apply stopped_intro; [done|apply (life_closed _ _ HL); lia|apply (life_halted _ _ HL); lia|apply (life_cleared _ _ HL); lia].
  - pose proof (inv_queue _ _ Hi) as (l & Hq & _ & _).
    assert (Hd : ty = STOP_AFTER_QUEUE_EMPTY -> StopIfHasException cfg s = false -> l = []).
    { intros -> He. pose proof (tot_ge n_drained _ _ _ Hc) as H1. cbn in H1.
      destruct (life_drained _ _ HL) as [|Hs]; [lia|congruence|]. rewrite (wq_size_rep _ _ _ Hq) in Hs. by destruct l. }
    pose proof (tot_ge n_closed _ _ _ Hc) as H1. pose proof (tot_ge n_halted _ _ _ Hc) as H2. cbn in H1, H2.
    rewrite Hb in *. cbn in H1, H2.
    assert (push_ s = false) by (apply (life_closed _ _ HL); lia).
    assert (run_ s = false) by (apply (life_halted _ _ HL); lia).
    split.
    + unfold client_can_move, client_step. rewrite Hc. cbn. destruct (ClearQueue s) eqn:E; [|by apply (ClearQueue_defined _ _ _ Hq) in E].
      by exists (mkOracle None None true); eexists.
    + intros o s' Hs. assert (Hi' : Inv cfg s') by exact (Inv_step cfg (ClientGoes c o) s s' Hi Hs).
      unfold client_step in Hs. rewrite Hc in Hs. cbn in Hs. destruct (ClearQueue s) as [s1|] eqn:E; [|done].
      apply (ClearQueue_inv _ _ _ _ Hq) in E as (q' & Hq' & ->). injection Hs as <-. split.
      * apply stopped_intro; try done. cbn. by rewrite (wq_size_rep _ _ _ Hq').
      * intros Hty' He. cbn. rewrite (Hd Hty' He). apply app_nil_r.
Qed.

(** When [WaitFinish] finds the pool idle, every item accepted so far was
    processed and destroyed, or dropped. *)
Theorem waitfinish_all_done q n evs s c o s' :
  reached q n evs s -> thread_num_ cfg < 2 ^ 32 ->
  clients s !! c = Some FinishCount -> client_step cfg c o s = Moves s' -> clients s' !! c = Some FinishCheck ->
  GetItemCount s' = 0 /\ active_thread_count_ s' = 0 /\
  accepted (log s') ≡ₚ processed (log s') ++ dropped (log s') /\
  processed (log s') ++ destroy_threw (log s') ≡ₚ destroyed (log s').
Proof.
  intros Hr Hn Hc Hs Hc'. assert (Hi := reached_Inv _ _ _ _ Hr).
  assert (Hi' : Inv cfg s') by exact (Inv_step cfg (ClientGoes c o) s s' Hi Hs).
  unfold client_step in Hs. rewrite Hc in Hs. cbn in Hs. injection Hs as <-. cbn in Hc'.
  rewrite list_lookup_insert_eq in Hc' by by eapply lookup_lt_Some.
  destruct (_ && _) eqn:E; [|done]. bool_to_prop.
  pose proof (active_exact _ Hi Hn). destruct (idle_items _ Hi) as [Ht Hd]; [lia|].
  cbn. split_and!; try done. rewrite <- Ht. by rewrite (empty_queue _ Hi).
Qed.

(** ** Exceptions *)

(** A [PushWorkItem] that finds the pool failed never returns: the [Stop]
    it calls ends by throwing, and what it throws is a std::exception without
    the text of the one that was thrown by the work item.  The item pushed is
    neither accepted nor destroyed. *)
Theorem push_on_failed_pool_throws q n evs s c pc o s' pc' :
  reached q n evs s -> clients s !! c = Some pc -> n_push_stop pc = 1%nat ->
  client_step cfg c o s = Moves s' -> clients s' !! c = Some pc' ->
  (n_push_stop pc' = 1%nat \/ pc' = Idle (Threw std_exception)) /\
  accepted (log s') = accepted (log s) /\ freed_by_caller (log s') = freed_by_caller (log s) /\
  ran_by_caller (log s') = ran_by_caller (log s).
Proof.
  intros Hr Hc Hpc Hs Hc'. assert (Hi := reached_Inv _ _ _ _ Hr).
  pose proof (inv_exception _ _ Hi) as [E1 E2 E3].
  assert (He : StopIfHasException cfg s = true) by (apply E2; pose proof (tot_ge n_push_stop _ _ _ Hc); lia).
  pose proof (proj1 (tot_0 _ _) E3 _ _ Hc) as Hbad. pose proof (lookup_lt_Some _ _ _ Hc) as Hlen.
  unfold client_step in Hs. rewrite Hc in Hs.
  destruct pc as [| | | | | | | |ty []|ty []|ty []|ty []|ty []|ty []|ty []|ty []| | | | | |]; try done; destruct ty; try done;
    cbn in Hs; rewrite ?He in Hs; repeat case_match; simplify_eq/=;
    try (rewrite list_lookup_insert_eq in Hc' by (rewrite ?length_fmap; done); injection Hc' as <-);
    try (split_and!; [by left|done..]).
  - destruct (inv_queue _ _ Hi) as (l & Hq & _ & _).
    match goal with E : ClearQueue _ = Some _ |- _ => apply (ClearQueue_inv _ _ _ _ Hq) in E as (q' & Hq' & ->) end.
    cbn in *. rewrite list_lookup_insert_eq in Hc' by (by rewrite length_fmap). injection Hc' as <-.
    split_and!; [by left|done..].
  - rewrite E1. split_and!; [by right|done..].
Qed.

End theorems.

(** ** Concrete runs

    A pool of one worker with a queue of one place, used by two clients. *)

Definition demo_cfg : Config := ThreadPoolBase_new 1 1 true.

Definition demo_pool : Pool (Q := @CircularPoolQueue WorkItem) :=
  match CircularPoolQueue_new 1 with
  | Some q => ThreadPool_new q 2
  | None => ThreadPool_new (mkCircularPoolQueue (mkCircularQueue [] 0 0 0 0)) 0
  end.

Definition calm : Oracle := mkOracle None None true.
Definition signals (i : nat) : Oracle := mkOracle (Some i) None true.
Definition throwing (e : Exn) : Oracle := mkOracle None (Some e) true.

(** Client [c] starts the pool: four steps with one worker. *)
Definition starts (c : nat) : list Event :=
  [ClientCalls c CallStart; ClientGoes c calm; ClientGoes c calm; ClientGoes c calm; ClientGoes c calm].

(** Client [c] pushes [item] into a queue with room for it. *)
Definition pushes (c : nat) (item : WorkItem) (o : Oracle) : list Event :=
  [ClientCalls c (CallPush (Some item) true); ClientGoes c calm; ClientGoes c calm; ClientGoes c o].

Definition worker_goes (k : nat) (o : Oracle) : list Event := replicate k (WorkerGoes 0 o).
Definition client_goes (c k : nat) : list Event := replicate k (ClientGoes c calm).

Definition demo_after (evs : list Event) : option (Pool (Q := @CircularPoolQueue WorkItem)) := run demo_cfg evs demo_pool.

Definition points {Q} (s : option (Pool (Q := Q))) : option (list WorkerPc * list ClientPc) :=
  s ← s; Some (threads_ s, clients s).

Lemma demo_rep : exists q, CircularPoolQueue_new 1 = Some q /\ demo_pool = ThreadPool_new q 2 /\ wq_rep 1 q [].
Proof.
  destruct (CircularPoolQueue_new_rep (Item := WorkItem) 1 ltac:(lia)) as (q & E & Hq).
  exists q. split_and!; [done| |done]. unfold demo_pool. by rewrite E.
Qed.

Lemma demo_reached evs s : demo_after evs = Some s -> exists q, reached demo_cfg q 2 evs s.
Proof.
  destruct demo_rep as (q & _ & E & Hq). unfold demo_after. rewrite E. intros Hr. exists q. split_and!; done.
Qed.

(** One item is being processed, one is in the queue and a producer waits for
    its place. *)
Definition busy_run : list Event :=
  starts 0 ++ pushes 0 7%nat calm ++ worker_goes 3 calm ++ pushes 0 8%nat calm ++ pushes 1 9%nat calm.

Lemma pool_conserves_items_witness :
  exists s l, demo_after busy_run = Some s /\ accepted (log s) = [7; 8]%nat /\
    accepted (log s) = taken (log s) ++ l /\ omap unprocessed (threads_ s) = [7%nat] /\ active_thread_count_ s = 1.
Proof.
  eassert (E : demo_after busy_run = Some _) by (vm_compute; reflexivity).
  destruct (demo_reached _ _ E) as (q & Hr).
  destruct (pool_conserves_items demo_cfg q 2 _ _ Hr) as (l & _ & Ha & _).
  eexists _, l. split; [exact E|]. split; [reflexivity|]. split; [exact Ha|]. split; reflexivity.
Defined.

Lemma pool_never_crashes_witness :
  exists s, demo_after busy_run = Some s /\ forall ev, step demo_cfg ev s <> Crash.
Proof.
  eassert (E : demo_after busy_run = Some _) by (vm_compute; reflexivity).
  destruct (demo_reached _ _ E) as (q & Hr). eexists. split; [exact E|]. intros ev.
  exact (pool_never_crashes demo_cfg q 2 _ _ ev Hr).
Defined.

(** The only worker waits, and is notified of the item that is pushed. *)
Definition notified_run : list Event := starts 0 ++ worker_goes 3 calm ++ pushes 1 7%nat (signals 0).

Lemma pool_no_lost_wakeup_witness :
  exists s, demo_after notified_run = Some s /\ threads_ s = [WWoken] /\ GetItemCount s = 1 /\
    exists i, worker_can_move demo_cfg i s.
Proof.
  eassert (E : demo_after notified_run = Some _) by (vm_compute; reflexivity).
  destruct (demo_reached _ _ E) as (q & Hr). eexists. split; [exact E|].
  split; [reflexivity|]. split; [reflexivity|].
  apply (pool_no_lost_wakeup demo_cfg q 2 _ _ Hr); [reflexivity|reflexivity|done|done].
Defined.

(** The pool is stopped with an item in its queue, and about to drop it. *)
Definition clear_run : list Event :=
  starts 0 ++ pushes 0 7%nat calm ++ worker_goes 3 calm ++ pushes 0 8%nat calm ++
  [ClientCalls 0 (CallStop STOP_AND_CLEAR_QUEUE)] ++ client_goes 0 3 ++ worker_goes 5 calm ++ client_goes 0 1.

Lemma stop_leaves_nothing_witness :
  exists s s', demo_after clear_run = Some s /\ GetItemCount s = 1 /\ client_step demo_cfg 0 calm s = Moves s' /\
    stopped s' /\ processed (log s') = [7%nat] /\ dropped (log s') = [8%nat].
Proof.
  eassert (E : demo_after clear_run = Some _) by (vm_compute; reflexivity).
  destruct (demo_reached _ _ E) as (q & Hr).
  match type of E with _ = Some ?s0 =>
    eassert (Hs : client_step demo_cfg 0 calm s0 = Moves _) by (vm_compute; reflexivity);
    pose proof (stop_leaves_nothing demo_cfg q 2 _ s0 0 STOP_AND_CLEAR_QUEUE StopByUser Hr ltac:(done)) as [_ Hst]
  end.
  destruct (Hst eq_refl) as [_ Hall]. destruct (Hall calm _ Hs) as [Hd _].
  eexists _, _. split; [exact E|]. split; [reflexivity|]. split; [exact Hs|]. split; [exact Hd|]. split; reflexivity.
Defined.

(** The pool has processed its only item. *)
Definition wait_run : list Event :=
  starts 0 ++ pushes 0 7%nat calm ++ worker_goes 6 calm ++ [ClientCalls 1 CallWaitFinish; ClientGoes 1 calm].

Lemma waitfinish_all_done_witness :
  exists s s', demo_after wait_run = Some s /\ client_step demo_cfg 1 calm s = Moves s' /\
    accepted (log s') = [7%nat] /\ accepted (log s') ≡ₚ processed (log s') ++ dropped (log s').
Proof.
  eassert (E : demo_after wait_run = Some _) by (vm_compute; reflexivity).
  destruct (demo_reached _ _ E) as (q & Hr).
  match type of E with _ = Some ?s0 =>
    eassert (Hs : client_step demo_cfg 1 calm s0 = Moves _) by (vm_compute; reflexivity)
  end.
  destruct (waitfinish_all_done demo_cfg q 2 _ _ 1 calm _ Hr ltac:(done) eq_refl Hs eq_refl) as (_ & _ & Hp & _).
  eexists _, _. split; [exact E|]. split; [exact Hs|]. split; [reflexivity|exact Hp].
Defined.

(** The worker's item throws, and another item is pushed: the Stop that the
    push calls has come to its last point. *)
Definition failed_run : list Event :=
  starts 0 ++ pushes 0 7%nat calm ++ worker_goes 3 calm ++ worker_goes 1 (throwing (derived_exception "lost")) ++
  worker_goes 7 calm ++ [ClientCalls 1 (CallPushTask 8%nat true true)] ++ client_goes 1 7.

Lemma push_on_failed_pool_throws_witness :
  exists s s', demo_after failed_run = Some s /\
    clients s !! 1%nat = Some (StopCheck STOP_AND_CLEAR_QUEUE (StopByPush 8%nat (ByTask true))) /\
    client_step demo_cfg 1 calm s = Moves s' /\ clients s' !! 1%nat = Some (Idle (Threw std_exception)) /\
    ran_by_caller (log s') = [] /\ freed_by_caller (log s') = [].
Proof.
  eassert (E : demo_after failed_run = Some _) by (vm_compute; reflexivity).
  destruct (demo_reached _ _ E) as (q & Hr).
  match type of E with _ = Some ?s0 =>
    eassert (Hs : client_step demo_cfg 1 calm s0 = Moves _) by (vm_compute; reflexivity)
  end.
  destruct (push_on_failed_pool_throws demo_cfg q 2 _ _ 1 _ calm _ _ Hr eq_refl eq_refl Hs eq_refl)
    as ([Hn|Hp] & _ & Hf & Hra); [discriminate Hn|].
  eexists _, _. split; [exact E|]. split; [reflexivity|]. split; [exact Hs|]. split; [exact (f_equal Some Hp)|].
  split; [exact Hra|exact Hf].
Defined.

(** ** Defects *)

(** A producer that has passed the test for an exception before the last
    worker fails waits for a place in the queue for ever: the workers have
    sent their notification before, and nobody is left that could move. *)
Definition hang_run : list Event :=
  starts 0 ++ pushes 0 7%nat calm ++ worker_goes 3 calm ++ pushes 0 8%nat calm ++
  [ClientCalls 1 (CallPush (Some 9%nat) true); ClientGoes 1 calm; ClientGoes 1 calm] ++
  worker_goes 1 (throwing std_exception) ++ worker_goes 7 calm ++ [ClientGoes 1 calm].

Lemma push_hangs_after_exception :
  exists s, demo_after hang_run = Some s /\ clients s !! 1%nat = Some (PushWaiting 9%nat true ByUser) /\
    StopIfHasException demo_cfg s = true /\
    forall i o, step demo_cfg (WorkerGoes i o) s = Disabled /\ step demo_cfg (WorkerWakes i) s = Disabled /\
      step demo_cfg (ClientGoes i o) s = Disabled.
Proof.
  eassert (E : demo_after hang_run = Some _) by (vm_compute; reflexivity).
  eexists. split; [exact E|]. split; [reflexivity|]. split; [reflexivity|].
  intros [|[|i]] o; repeat split; reflexivity.
Qed.

(** Stopping a pool that was never started, with an item in its queue and the
    default type, polls for ever. *)
Lemma stop_never_ends :
  exists s, demo_after (pushes 0 7%nat calm ++ [ClientCalls 0 (CallStop STOP_AFTER_QUEUE_EMPTY); ClientGoes 0 calm]) = Some s /\
    run demo_cfg (client_goes 0 2) s = Some s.
Proof. eexists. split; [vm_compute; reflexivity|]. vm_compute. reflexivity. Qed.

(** Two clients that stop the pool both reach [threads_.clear()], which
    neither of them runs under a lock. *)
Lemma two_stops_clear_threads :
  points (demo_after (starts 0 ++
    [ClientCalls 0 (CallStop STOP_AND_CLEAR_QUEUE); ClientCalls 1 (CallStop STOP_AND_CLEAR_QUEUE)] ++
    client_goes 0 2 ++ client_goes 1 2 ++ client_goes 0 1 ++ client_goes 1 1))
  = Some ([WRun], [StopJoin STOP_AND_CLEAR_QUEUE StopByUser; StopJoin STOP_AND_CLEAR_QUEUE StopByUser]).
Proof. vm_compute. reflexivity. Qed.

(** An item whose [destroy] throws is destroyed again. *)
Lemma destroyed_twice :
  (destroyed ∘ log <$> demo_after (starts 0 ++ pushes 0 7%nat calm ++ worker_goes 4 calm ++
     worker_goes 2 (throwing std_exception))) = Some [7; 7]%nat.
Proof. vm_compute. reflexivity. Qed.
