(* ===== verification/ThreadPoolLiveness.v ===== *)
(** * The thread pool: progress

    Left to themselves the workers come to rest, within a number of steps that
    the state gives in advance.  At rest a running pool has an empty queue, and
    a pool that was told to stop can be joined. *)

From S2P Require Import Prelude CircularQueue ThreadPool ThreadPoolInv ThreadPoolSafety.

(** ** The measure

    How many steps a worker is away from the next wait, or from its end; an
    item of the queue costs one round of the loop. *)

Definition n_left_to_do (pc : WorkerPc) : nat :=
  match pc with
  | WExited | WWaiting => 0
  | WBroadcast => 1
  | WLeaving => 2
  | WLock | WWoken => 3
  | WExc => 4
  | WRun => 5
  | WCount => 6
  | WRecord _ => 7
  | WCatch _ _ => 8
  | WDestroy _ => 9
  | WProcess _ => 10
  end.

Section progress.
Context {Q : Type} `{WorkItemQueueLaws WorkItem Q} (cfg : Config).
Implicit Types s : Pool (Q := Q).

Definition work_left s : nat := (tot n_left_to_do (threads_ s) + 8 * Z.to_nat (wq_size (queue_ s)))%nat.

Definition worker_events (evs : list Event) : Prop := Forall (fun ev => exists i o, ev = WorkerGoes i o) evs.

(** The workers are at rest: none of them can take a step. *)
Definition at_rest s : Prop := forall i, ~ worker_can_move cfg i s.

Lemma worker_step_decreases i o s s' : queue_ok cfg s -> worker_step cfg i o s = Moves s' ->
  (work_left s' < work_left s)%nat.
Proof.
  intros (l & Hq & _ & _) Hs. unfold work_left.
  assert (Hs' : step cfg (WorkerGoes i o) s = Moves s') by done. clear Hs. step_cases Hs'; queue_cases; cbn -[Nat.mul]; tot_facts;
    queue_sizes; lia.
Qed.

(** A worker does not start or stop the pool, and keeps the other workers. *)
Lemma worker_step_frame i o s s' : worker_step cfg i o s = Moves s' ->
  run_ s' = run_ s /\ length (threads_ s') = length (threads_ s).
Proof.
  intros Hs. assert (Hs' : step cfg (WorkerGoes i o) s = Moves s') by done. clear Hs.
  step_cases Hs'; cbn; rewrite ?length_insert; done.
Qed.

Lemma worker_run evs s s' : Inv cfg s -> worker_events evs -> run cfg evs s = Some s' ->
  Inv cfg s' /\ (length evs + work_left s' <= work_left s)%nat /\
  run_ s' = run_ s /\ length (threads_ s') = length (threads_ s).
Proof.
  revert s; induction evs as [|ev evs IH]; intros s Hi Hw Hr; cbn in Hr.
  - injection Hr as <-. split_and!; [done|cbn; lia|done|done].
  - apply Forall_cons in Hw as [(i & o & ->) Hw]. destruct (step cfg (WorkerGoes i o) s) as [| |s1] eqn:Hs; try done.
    destruct (IH s1 (Inv_step _ _ _ _ Hi Hs) Hw Hr) as (Hi' & Hl & Hrun & Hlen).
    pose proof (worker_step_decreases i o s s1 (inv_queue _ _ Hi) Hs).
    destruct (worker_step_frame i o s s1 Hs) as [<- <-]. split_and!; [done|cbn; lia|done|done].
Qed.

Lemma rest_points s : Inv cfg s -> at_rest s -> forall i pc, threads_ s !! i = Some pc -> pc = WWaiting \/ pc = WExited.
Proof.
  intros Hi Hr i pc Hpc. destruct pc; auto; destruct (Hr i); by eapply worker_enabled.
Qed.
Lemma rest_no_move s : (forall i pc, threads_ s !! i = Some pc -> pc = WWaiting \/ pc = WExited) -> at_rest s.
Proof.
  intros Hp i (o & s' & Hs). unfold worker_step in Hs. destruct (threads_ s !! i) as [pc|] eqn:Hi; [|done].
  by destruct (Hp i pc Hi) as [-> | ->].
Qed.

(** The workers can always come to rest. *)
Lemma rest_reached s : Inv cfg s -> exists evs s', worker_events evs /\ run cfg evs s = Some s' /\ at_rest s'.
Proof.
  remember (work_left s) as m eqn:Hm. revert s Hm. induction m as [m IH] using lt_wf_ind. intros s Hm Hi.
  destruct (decide (Forall (fun pc => n_left_to_do pc = 0%nat) (threads_ s))) as [Hf|Hf].
  - exists [], s. split_and!; [constructor|done|]. apply rest_no_move. intros i pc Hpc.
    pose proof (Forall_lookup_1 _ _ _ _ Hf Hpc). destruct pc; auto; done.
  - apply not_Forall_Exists in Hf; [|intros pc; apply _]. apply Exists_exists in Hf as (pc & Hin & Hpc).
    apply list_elem_of_lookup in Hin as [i Hpi].
    destruct (worker_enabled cfg i s pc Hi Hpi) as (o & s1 & Hs); [intros ->; by apply Hpc..|].
    pose proof (worker_step_decreases i o s s1 (inv_queue _ _ Hi) Hs) as Hlt.
    destruct (IH (work_left s1) ltac:(lia) s1 eq_refl (Inv_step cfg (WorkerGoes i o) s s1 Hi Hs))
      as (evs & s' & Hw & Hr & Hrest).
    exists (WorkerGoes i o :: evs), s'. split_and!; [|by cbn; rewrite Hs|done].
    constructor; [by eexists _, _|done].
Qed.

Lemma rest_waiting s : Inv cfg s -> at_rest s -> run_ s = true -> StopIfHasException cfg s = false ->
  Forall (fun pc => pc = WWaiting) (threads_ s).
Proof.
  intros Hi Hr Hrun He. apply Forall_lookup. intros i pc Hpc.
  destruct (rest_points s Hi Hr i pc Hpc) as [->| ->]; [done|].
  pose proof (tot_ge n_left _ _ _ Hpc) as Hl. cbn in Hl.
  destruct (life_left _ _ (inv_life _ _ Hi)) as [|]; [lia|congruence..].
Qed.

Lemma waiting_idle ws : Forall (fun pc => pc = WWaiting) ws -> tot n_active ws = 0%nat /\ tot n_woken ws = 0%nat.
Proof.
  intros Hf. split; apply tot_0; intros i pc Hpc; by rewrite (Forall_lookup_1 _ _ _ _ Hf Hpc).
Qed.


(** C25: a [Stop] that waits for the workers gets to the end of waiting.
    However they are scheduled, the workers take no more than [work_left]
    steps together, they can always go on until no worker can move, and then
    all of them have left their loops and [threads_.clear()] returns. *)
Theorem stop_joins_workers q n evs0 s c ty k :
  reached cfg q n evs0 s -> clients s !! c = Some (StopJoin ty k) ->
  (exists evs s', worker_events evs /\ run cfg evs s = Some s' /\ at_rest s') /\
  (forall evs s', worker_events evs -> run cfg evs s = Some s' ->
     (length evs <= work_left s)%nat /\
     (at_rest s' -> clients s' !! c = Some (StopJoin ty k) ->
        Forall (fun pc => pc = WExited) (threads_ s') /\ client_can_move cfg c s')).
Proof.
  intros Hi%reached_Inv Hc. split; [by apply rest_reached|]. intros evs s' Hw Hr.
  destruct (worker_run evs s s' Hi Hw Hr) as (Hi' & Hl & _ & _). split; [lia|]. intros Hrest Hc'.
  assert (Hrun : run_ s' = false).
  { apply (life_halted _ _ (inv_life _ _ Hi')). pose proof (tot_ge n_halted _ _ _ Hc'). cbn in *. lia. }
  assert (Hex : Forall (fun pc => pc = WExited) (threads_ s')).
  { apply Forall_lookup. intros i pc Hpc. destruct (rest_points s' Hi' Hrest i pc Hpc) as [-> | ->]; [|done].
    destruct (inv_consumers _ _ Hi') as [Hru _]; [|congruence].
    pose proof (tot_ge n_waiting _ _ _ Hpc). cbn in *. lia. }
  split; [done|]. exists calm. unfold client_step. rewrite Hc'. cbn.
  replace (forallb _ _) with true; [by eexists|].
  symmetry. apply forallb_forall. intros pc Hin%list_elem_of_In. by rewrite (proj1 (Forall_forall _ _) Hex pc Hin).
Qed.

End progress.

Ltac worker_events :=
  unfold worker_events, worker_goes; cbn [replicate app];
  repeat (apply List.Forall_cons; [by eexists _, _|]); apply List.Forall_nil.


(** A client joins the worker, which still handles an item. *)
Lemma stop_joins_workers_witness :
  exists s s', demo_after (busy_run ++ [ClientCalls 0 (CallStop STOP_AND_CLEAR_QUEUE)] ++ client_goes 0 3) = Some s /\
    run demo_cfg (worker_goes 5 calm) s = Some s' /\ client_can_move demo_cfg 0 s'.
Proof.
  eassert (E : demo_after (busy_run ++ [ClientCalls 0 (CallStop STOP_AND_CLEAR_QUEUE)] ++ client_goes 0 3) = Some _)
    by (vm_compute; reflexivity).
  destruct (demo_reached _ _ E) as (q & Hr).
  destruct (stop_joins_workers demo_cfg q 2 _ _ 0 STOP_AND_CLEAR_QUEUE StopByUser Hr eq_refl) as [_ Hd].
  match type of E with _ = Some ?s0 =>
    eassert (Hs : run demo_cfg (worker_goes 5 calm) s0 = Some _) by (vm_compute; reflexivity)
  end.
  match type of Hs with _ = Some ?s1 => assert (Hrest : at_rest demo_cfg s1) end.
  { apply rest_no_move. intros [|i] pc Hpc; [injection Hpc as <-; by right|by destruct i]. }
  match type of Hs with run _ ?evs _ = Some ?s1 =>
    assert (Hw : worker_events evs) by worker_events; destruct (Hd evs s1 Hw Hs) as [_ Hj] end.
  destruct (Hj Hrest eq_refl) as [_ Hm].
  eexists _, _. split; [exact E|]. split; [exact Hs|exact Hm].
Defined.
