(* ===== verification/StringUtil.v ===== *)
(** * StringUtil and StringTokenizer

    Sources: src/agent_engine/util/string_util.h, string_util.cc,
    string_tokenizer.h and string_tokenizer.cc.

    A [std::string] and a C string are lists of bytes, the latter without its
    terminating zero; [npos] is [None].  A parameter that a function sets is
    passed with its old value and returned.  A loop that may not end has fuel
    for every input on which it ends, and [None] is a loop that does not, or a
    failed assertion. *)

From S2P Require Import Prelude CString.

(** ** std::string *)

Definition is_prefix (pat s : list Z) : bool := bool_decide (take (length pat) s = pat).

Fixpoint find_in (pat s : list Z) (i : nat) : option nat :=
  if is_prefix pat s then Some i
  else match s with [] => None | _ :: s => find_in pat s (S i) end.

(** [s.find(pat, pos)], and [s.rfind(pat)] *)
Definition find (s pat : list Z) (pos : nat) : option nat :=
  if decide (pos <= length s)%nat then find_in pat (drop pos s) pos else None.

Fixpoint rfind_in (pat s : list Z) (i : nat) : option nat :=
  match s with
  | [] => if is_prefix pat [] then Some i else None
  | _ :: s' =>
      match rfind_in pat s' (S i) with
      | Some j => Some j
      | None => if is_prefix pat s then Some i else None
      end
  end.

Definition rfind (s pat : list Z) : option nat := rfind_in pat s 0.

(** [s.substr(pos, n)] and [s.replace(pos, n, t)] where [pos] is a position. *)
Definition substr (s : list Z) (pos n : nat) : list Z := take n (drop pos s).
Definition replace (s : list Z) (pos n : nat) (t : list Z) : list Z := take pos s ++ t ++ drop (pos + n) s.

(** The characters that [s.c_str()] points to: up to the first zero. *)
Fixpoint c_str (s : list Z) : list Z :=
  match s with [] => [] | c :: s => if c =? 0 then [] else c :: c_str s end.

Definition SPACE : Z := 32.

Fixpoint find_first_not_of (c : Z) (s : list Z) : option nat :=
  match s with [] => None | x :: s => if x =? c then S <$> find_first_not_of c s else Some 0%nat end.

Fixpoint find_last_not_of (c : Z) (s : list Z) : option nat :=
  match s with
  | [] => None
  | x :: s => match find_last_not_of c s with Some i => Some (S i) | None => if x =? c then None else Some 0%nat end
  end.

(** ** Trimming and tests *)

(** [erase(find_last_not_of(' ') + 1)] with npos + 1 = 0, then
    [erase(0, find_first_not_of(' '))]. *)
Definition Trim (str : list Z) : list Z :=
  let str := match find_last_not_of SPACE str with Some i => take (S i) str | None => [] end in
  match find_first_not_of SPACE str with Some i => drop i str | None => [] end.

(** On a [string_view]: [substr(beginPos, endPos - beginPos + 1)], in 64-bit
    arithmetic with npos = 2^64 - 1. *)
Definition Trim_view (str : list Z) : list Z :=
  let npos := ULONG_MAX in
  let endPos := match find_last_not_of SPACE str with Some i => Z.of_nat i | None => npos end in
  let beginPos := match find_first_not_of SPACE str with Some i => Z.of_nat i | None => npos end in
  let beginPos := if beginPos =? npos then 0 else beginPos in
  substr str (Z.to_nat beginPos) (Z.to_nat (u64 (endPos - beginPos + 1))).

Definition toupper (c : Z) : Z := if (97 <=? c) && (c <=? 122) then c - 32 else c.

(** The three overloads of each do the same to the characters. *)
Definition ToUpperCase (str : list Z) : list Z := toupper <$> str.
Definition ToLowerCase (str : list Z) : list Z := tolower <$> str.

Fixpoint ToUpperCase_ptr (str : list Z) : list Z :=
  match str with
  | [] => []
  | c :: str => (if (97 <=? c) && (c <=? 122) then c + (65 - 97) else c) :: ToUpperCase_ptr str
  end.

Fixpoint ToLowerCase_ptr (str : list Z) : list Z :=
  match str with
  | [] => []
  | c :: str => (if (65 <=? c) && (c <=? 90) then c - (65 - 97) else c) :: ToLowerCase_ptr str
  end.

Definition true_texts : list (list Z) := lit <$> ["t"; "true"; "y"; "yes"; "1"]%string.
Definition false_texts : list (list Z) := lit <$> ["f"; "false"; "n"; "no"; "0"]%string.

Definition ParseTrueFalse (str : list Z) (value : bool) : bool * bool :=
  let trimStr := ToLowerCase (Trim str) in
  if bool_decide (trimStr ∈ true_texts) then (true, true)
  else if bool_decide (trimStr ∈ false_texts) then (true, false)
  else (false, value).

Definition StartsWith (str pre : list Z) : bool :=
  (Nat.leb (length pre) (length str)) && bool_decide (substr str 0 (length pre) = pre).

Definition EndWith (str suffix : list Z) : bool :=
  let s1 := length str in
  let s2 := length suffix in
  (Nat.leb s2 s1) && bool_decide (substr str (s1 - s2) s2 = suffix).

(** The ideographic space of the source, in UTF-8. *)
Definition WIDE_SPACE : list Z := [227; 128; 128].

Definition IsSpace (text : list Z) : bool :=
  if bool_decide (text = WIDE_SPACE) then true
  else if Nat.ltb 1 (length text) then false
  else match text with [] => false | c :: _ => isspace c end.

(** ** Splitting, joining and replacing *)

Fixpoint Split_loop (fuel : nat) (str sep : list Z) (ignoreEmpty : bool) (n old : nat) (vec : list (list Z)) :
    option (nat * list (list Z)) :=
  match fuel with
  | O => None
  | Datatypes.S fuel =>
      match find str sep n with
      | None => Some (old, vec)
      | Some n =>
          let vec := if negb ignoreEmpty || negb (Nat.eqb n old) then vec ++ [substr str old (n - old)] else vec in
          let n := (n + length sep)%nat in
          Split_loop fuel str sep ignoreEmpty n n vec
      end
  end.

Definition Split (text sep : list Z) (ignoreEmpty : bool) : option (list (list Z)) :=
  '(old, vec) ← Split_loop (Datatypes.S (length text)) text sep ignoreEmpty 0 0 [];
  Some (if negb ignoreEmpty || Nat.ltb old (length text) then vec ++ [substr text old (length text - old)] else vec).

Definition Split_char (text : list Z) (sepChar : Z) (ignoreEmpty : bool) : option (list (list Z)) :=
  Split text [sepChar] ignoreEmpty.

Fixpoint Join (array : list (list Z)) (seperator : list Z) : list Z :=
  match array with
  | [] => []
  | [s] => s
  | s :: array => s ++ seperator ++ Join array seperator
  end.

Definition ReplaceFirst (str oldStr newStr : list Z) : list Z :=
  match find str oldStr 0 with Some pos => replace str pos (length oldStr) newStr | None => str end.

Definition ReplaceLast (str oldStr newStr : list Z) : list Z :=
  match rfind str oldStr with Some pos => replace str pos (length oldStr) newStr | None => str end.

Fixpoint ReplaceAll_loop (fuel : nat) (str oldStr newStr : list Z) (pos : nat) : option (list Z) :=
  match fuel with
  | O => None
  | Datatypes.S fuel =>
      match find str oldStr pos with
      | None => Some str
      | Some pos => ReplaceAll_loop fuel (replace str pos (length oldStr) newStr) oldStr newStr (pos + length newStr)
      end
  end.

Definition ReplaceAll (str oldStr newStr : list Z) : option (list Z) :=
  ReplaceAll_loop (Datatypes.S (length str)) str oldStr newStr 0.

Definition Replace (str : list Z) (oldValue newValue : Z) : list Z :=
  (fun c => if c =? oldValue then newValue else c) <$> str.

(** ** StringTokenizer *)

Definition kTokenIgnoreEmpty : Z := 1.
Definition kTokenTrim : Z := 2.
Definition kTokenLeaveAs : Z := 4.

Definition opt_has (opt flag : Z) : bool := negb (Z.land opt flag =? 0).

Definition trim_blanks (s : list Z) : list Z := reverse (skip_space (reverse (skip_space s))).

Definition AddToken (token : list Z) (opt : Z) (target : list (list Z)) : list (list Z) :=
  if opt_has opt kTokenLeaveAs then
    if negb (opt_has opt kTokenIgnoreEmpty) then target ++ [token]
    else if Nat.ltb 0 (length token) then target ++ [token] else target
  else if opt_has opt kTokenTrim then
    let t := trim_blanks token in
    if Nat.ltb 0 (length t) then target ++ [t]
    else if negb (opt_has opt kTokenIgnoreEmpty) then target ++ [[]] else target
  else if Nat.ltb 0 (length token) then target ++ [token] else target.

Fixpoint Tokenize_loop (fuel : nat) (str sep : list Z) (sepLen : nat) (opt : Z) (n old : nat) (results : list (list Z)) :
    option (nat * list (list Z)) :=
  match fuel with
  | O => None
  | Datatypes.S fuel =>
      match find str sep n with
      | None => Some (old, results)
      | Some n =>
          let results := AddToken (if negb (Nat.eqb n old) then substr str old (n - old) else []) opt results in
          let n := (n + sepLen)%nat in
          Tokenize_loop fuel str sep sepLen opt n n results
      end
  end.

Definition Tokenize_at (str sep : list Z) (sepLen : nat) (results : list (list Z)) (opt : Z) : option (list (list Z)) :=
  '(old, results) ← Tokenize_loop (Datatypes.S (length str)) str sep sepLen opt 0 0 results;
  Some (AddToken (substr str old (length str - old)) opt results).

(** Tokens are added to those of earlier calls. *)
Definition Tokenize (tokens : list (list Z)) (str sep : list Z) (opt : Z) : option (list (list Z)) :=
  Tokenize_at str sep (length sep) tokens opt.

Definition TokenizeView (str sep : list Z) (opt : Z) : option (list (list Z)) := Tokenize_at str sep (length sep) [] opt.
Definition TokenizeView_char (str : list Z) (c : Z) (opt : Z) : option (list (list Z)) := Tokenize_at str [c] 1 [] opt.

(** ** Numbers *)

(** What [strtol] and its relatives read: the magnitude, the sign and what
    [endPtr] points to; [None] when there is no number, and then [endPtr] is
    [str].  A prefix 0x counts only before a digit. *)
Definition strto (base : Z) (str : list Z) : option (bool * Z * list Z) :=
  let digit := if base =? 16 then hexdigit else decdigit in
  let '(neg, s) := read_sign (skip_space str) in
  let s := match s with
           | z :: x :: d :: _ =>
               if (base =? 16) && (z =? 48) && (tolower x =? 120) && (match hexdigit d with Some _ => true | None => false end)
               then drop 2 s else s
           | _ => s
           end in
  let '(v, n, rest) := read_digits base digit s 0 0 in
  if Nat.eqb n 0 then None else Some (neg, v, rest).

(** The value, [errno == 0] and the characters at [endPtr]. *)
Definition strtol (base : Z) (str : list Z) : Z * bool * list Z :=
  match strto base str with
  | None => (0, true, str)
  | Some (neg, v, rest) =>
      let n := if neg : bool then - v else v in
      if n <? - 2 ^ 63 then (- 2 ^ 63, false, rest)
      else if 2 ^ 63 - 1 <? n then (2 ^ 63 - 1, false, rest)
      else (n, true, rest)
  end.

Definition strtoul (base : Z) (str : list Z) : Z * bool * list Z :=
  match strto base str with
  | None => (0, true, str)
  | Some (neg, v, rest) =>
      if ULONG_MAX <? v then (ULONG_MAX, false, rest)
      else (if neg : bool then u64 (- v) else v, true, rest)
  end.

(** The arguments [str], a pointer, and [value]. *)
Definition StrToInt32 (str : option (list Z)) (value : Z) : bool * Z :=
  match str with
  | None | Some [] => (false, value)
  | Some s =>
      let '(value64, ok, rest) := strtol 10 s in
      if (value64 <? INT_MIN) || (INT_MAX <? value64) then (false, value)
      else (ok && bool_decide (rest = []), i32 value64)
  end.

Definition starts_minus (s : list Z) : bool := match s with c :: _ => c =? 45 | [] => false end.

Definition UINT32_MAX : Z := 4294967295.

Definition StrToUInt32 (str : option (list Z)) (value : Z) : bool * Z :=
  match str with
  | None | Some [] => (false, value)
  | Some s =>
      if starts_minus s then (false, value)
      else
        let '(value64, ok, rest) := strtoul 10 s in
        if UINT32_MAX <? value64 then (false, value)
        else (ok && bool_decide (rest = []), u32 (i32 value64))
  end.

Definition StrToInt64 (str : option (list Z)) (value : Z) : bool * Z :=
  match str with
  | None | Some [] => (false, value)
  | Some s => let '(v, ok, rest) := strtol 10 s in (ok && bool_decide (rest = []), v)
  end.

Definition StrToUInt64 (str : option (list Z)) (value : Z) : bool * Z :=
  match str with
  | None | Some [] => (false, value)
  | Some s =>
      if starts_minus s then (false, value)
      else let '(v, ok, rest) := strtoul 10 s in (ok && bool_decide (rest = []), v)
  end.

Definition StrToInt8 (str : option (list Z)) (value : Z) : bool * Z :=
  let '(ret, v32) := StrToInt32 str 0 in
  (ret && (-128 <=? v32) && (v32 <=? 127), i8 v32).

Definition StrToUInt8 (str : option (list Z)) (value : Z) : bool * Z :=
  let '(ret, v32) := StrToUInt32 str 0 in (ret && (v32 <=? 255), u8 v32).

Definition StrToInt16 (str : option (list Z)) (value : Z) : bool * Z :=
  let '(ret, v32) := StrToInt32 str 0 in
  (ret && (-32768 <=? v32) && (v32 <=? 32767), i16 v32).

Definition StrToUInt16 (str : option (list Z)) (value : Z) : bool * Z :=
  let '(ret, v32) := StrToUInt32 str 0 in (ret && (v32 <=? 65535), u16 v32).

Definition HexStrToUint64 (str : option (list Z)) (value : Z) : bool * Z :=
  match str with
  | None | Some [] => (false, value)
  | Some s => let '(v, ok, rest) := strtoul 16 s in (ok && bool_decide (rest = []), v)
  end.

Definition HexStrToInt64 (str : option (list Z)) (value : Z) : bool * Z :=
  match str with
  | None | Some [] => (false, value)
  | Some s => let '(v, ok, rest) := strtol 16 s in (ok && bool_decide (rest = []), v)
  end.

(** [StrTo...WithDefault]; the temporary is indeterminate, and only returned
    when it was set. *)
Definition WithDefault (StrTo : option (list Z) -> Z -> bool * Z) (str : option (list Z)) (defaultValue : Z) : Z :=
  let '(ok, tmp) := StrTo str 0 in if ok then tmp else defaultValue.

Definition StrToInt8WithDefault := WithDefault StrToInt8.
Definition StrToUInt8WithDefault := WithDefault StrToUInt8.
Definition StrToInt16WithDefault := WithDefault StrToInt16.
Definition StrToUInt16WithDefault := WithDefault StrToUInt16.
Definition StrToInt32WithDefault := WithDefault StrToInt32.
Definition StrToUInt32WithDefault := WithDefault StrToUInt32.
Definition StrToInt64WithDefault := WithDefault StrToInt64.
Definition StrToUInt64WithDefault := WithDefault StrToUInt64.

(** ** Bytes *)

Definition DeSerialize_loop (w : Z) (str : list Z) : Z :=
  foldl (fun value c => Z.lor (wrapu w (Z.shiftl value 8)) (u8 c)) 0 str.

Definition DeSerializeUInt32 (str : list Z) : option Z :=
  assertb (Nat.eqb (length str) 4);; Some (DeSerialize_loop 32 str).

Definition DeSerializeUInt64 (str : list Z) : option Z :=
  assertb (Nat.eqb (length str) 8);; Some (DeSerialize_loop 64 str).

(** [for (i = n - 1; i >= 0; --i) { key[i] = value & 0xFF; value >>= 8; }] *)
Fixpoint Serialize_loop (n : nat) (value : Z) (key : list Z) : list Z :=
  match n with
  | O => key
  | Datatypes.S n => Serialize_loop n (Z.shiftr value 8) (<[n := Z.land value 255]> key)
  end.

Definition SerializeUInt32 (value : Z) : list Z := Serialize_loop 4 value (replicate 4 0).
Definition SerializeUInt64 (value : Z) : list Z := Serialize_loop 8 value (replicate 8 0).

(** [%02x] and [%016lx] *)
Definition hex_char (v : Z) : Z := if v <? 10 then 48 + v else 87 + v.

Fixpoint print_hex (n : nat) (value : Z) : list Z :=
  match n with O => [] | Datatypes.S n => print_hex n (value / 16) ++ [hex_char (value mod 16)] end.

Definition Uint64ToHexStr (value len : Z) : option (list Z) :=
  assertb (16 <? len);; Some (print_hex 16 value).

(** Each [sprintf] writes two characters and a zero that the next one, or the
    terminator of the string, overwrites. *)
Definition StrToHexStr (str : list Z) : list Z := str ≫= print_hex 2.

(** [char] is signed. *)
Definition hex_value (c : Z) : Z := if 97 <=? i8 c then i8 c - 97 + 10 else i8 c - 48.

Fixpoint HexStrToStr_loop (s : list Z) : list Z :=
  match s with
  | a :: b :: s => u8 (hex_value a * 16 + hex_value b) :: HexStrToStr_loop s
  | [a] => [u8 (hex_value a * 16 + hex_value 0)]
  | [] => []
  end.

Definition HexStrToStr (hexStr : list Z) : option (list Z) :=
  assertb (Nat.even (length hexStr));;
  Some (HexStrToStr_loop (ToLowerCase (c_str hexStr))).

(** ** Values and text *)

Definition kNullString : list Z := [].

Definition GetValueFromMap (key : string) (m : gmap string (list Z)) : list Z :=
  match m !! key with Some v => v | None => kNullString end.

(** [std::to_string] and [%d] of an integer. *)
Definition to_string (n : Z) : list Z := if n <? 0 then 45 :: print_dec (- n) else print_dec n.

(** [ToString] and [FromString] of a vector of [int32_t]; [FromString<T>]
    starts with 0 and ignores a failure. *)
Definition ToString_vector (x : list Z) (delim : list Z) : list Z := Join (to_string <$> x) delim.

Definition FromString_vector (str delim : list Z) : option (list Z) :=
  strVec ← Split str delim true;
  Some (map (fun s => snd (StrToInt32 (Some (c_str s)) 0)) strVec).

(** ** Searching *)

Lemma is_prefix_iff pat s : is_prefix pat s = true <-> exists t, s = pat ++ t.
Proof.
  unfold is_prefix. rewrite bool_decide_eq_true. split.
  - intros E. exists (drop (length pat) s). rewrite <- E at 1. by rewrite take_drop.
  - intros [t ->]. by rewrite take_app_length.
Qed.

(** The first occurrence is at [i + length a]. *)
Definition first_at (pat s : list Z) (a : list Z) : Prop :=
  (exists b, s = a ++ pat ++ b) /\ forall a' b', s = a' ++ pat ++ b' -> (length a <= length a')%nat.

Lemma find_in_Some pat s i j : find_in pat s i = Some j -> exists a, j = (i + length a)%nat /\ first_at pat s a.
Proof.
  revert i; induction s as [|c s IH]; intros i E; cbn [find_in] in E.
  - destruct (is_prefix pat []) eqn:Hp; [|done]. injection E as <-. apply is_prefix_iff in Hp as [t Ht].
    exists []. split; [cbn; lia|]. split; [by exists t|]. intros; cbn; lia.
  - destruct (is_prefix pat (c :: s)) eqn:Hp.
    + injection E as <-. apply is_prefix_iff in Hp as [t Ht].
      exists []. split; [cbn; lia|]. split; [by exists t|]. intros; cbn; lia.
    + destruct (IH (S i) E) as (a & -> & [b ->] & Hmin). exists (c :: a). split; [cbn; lia|].
      split; [by exists b|]. intros [|c' a'] b' Hs.
      * assert (is_prefix pat (c :: a ++ pat ++ b) = true) by (apply is_prefix_iff; by exists b'). congruence.
      * injection Hs as -> Hs. specialize (Hmin a' b' Hs). cbn. lia.
Qed.

Lemma find_in_None pat s i : find_in pat s i = None -> forall a b, s <> a ++ pat ++ b.
Proof.
  revert i; induction s as [|c s IH]; intros i E a b Hs; cbn [find_in] in E.
  - destruct (is_prefix pat []) eqn:Hp; [done|]. destruct a; [|done].
    assert (is_prefix pat [] = true) by (apply is_prefix_iff; by exists b). congruence.
  - destruct (is_prefix pat (c :: s)) eqn:Hp; [done|]. destruct a as [|c' a].
    + assert (is_prefix pat (c :: s) = true) by (apply is_prefix_iff; by exists b). congruence.
    + injection Hs as -> Hs. by apply (IH (S i) E a b).
Qed.

Lemma first_at_unique pat s a a' : first_at pat s a -> first_at pat s a' -> a = a'.
Proof.
  intros [[b Hb] Hm] [[b' Hb'] Hm']. pose proof (Hm _ _ Hb'). pose proof (Hm' _ _ Hb). rewrite Hb in Hb'.
  by apply app_inj_1 in Hb' as [? _]; [|lia].
Qed.

Lemma find_in_first pat s i a : first_at pat s a -> find_in pat s i = Some (i + length a)%nat.
Proof.
  intros Ha. destruct (find_in pat s i) as [j|] eqn:E.
  - apply find_in_Some in E as (a' & -> & Ha'). by rewrite (first_at_unique _ _ _ _ Ha Ha').
  - destruct Ha as [[b ->] _]. by destruct (find_in_None _ _ _ E a b).
Qed.

Definition absent (pat s : list Z) : Prop := forall a b, s <> a ++ pat ++ b.

Lemma find_in_absent pat s i : absent pat s -> find_in pat s i = None.
Proof.
  intros Ha. destruct (find_in pat s i) as [j|] eqn:E; [|done].
  apply find_in_Some in E as (a & _ & [b Hb] & _). by destruct (Ha a b).
Qed.

Lemma find_app pre s pat : find (pre ++ s) pat (length pre) = find_in pat s (length pre).
Proof. unfold find. rewrite length_app, decide_True by lia. by rewrite drop_app_length. Qed.

(** Whether an occurrence is the first one depends only on what is before its
    end. *)
Lemma first_at_short pat a b : first_at pat (a ++ pat ++ b) a <-> first_at pat (a ++ pat) a.
Proof.
  split; intros [_ Hm].
  - split; [exists []; by rewrite app_nil_r|]. intros a' b' E. apply (Hm a' (b' ++ b)).
    rewrite app_assoc, E, <- !app_assoc. done.
  - split; [by exists b|]. intros a' b' E. destruct (decide (length a <= length a')%nat) as [|Hn]; [done|].
    apply (Hm a' (take (length a - length a') b')).
    assert (E' : take (length a + length pat) (a ++ pat ++ b) = take (length a + length pat) (a' ++ pat ++ b')) by by rewrite E.
    rewrite app_assoc, take_app_le in E' by (rewrite length_app; lia).
    rewrite (take_ge (a ++ pat)) in E' by (rewrite length_app; lia). rewrite E'.
    rewrite take_app_ge by lia. f_equal. rewrite take_app_ge by lia. f_equal. f_equal. lia.
Qed.

(** ** The pieces of a text *)

Inductive pieces (sep : list Z) : list Z -> list (list Z) -> Prop :=
| pieces_last s : absent sep s -> pieces sep s [s]
| pieces_cons p s ps : first_at sep (p ++ sep) p -> pieces sep s ps -> pieces sep (p ++ sep ++ s) (p :: ps).

Lemma pieces_exist sep s : sep <> [] -> exists ps, pieces sep s ps.
Proof.
  intros Hne. remember (length s) as n eqn:Hn. revert s Hn. induction n as [n IH] using lt_wf_ind. intros s ->.
  destruct (find_in sep s 0) as [j|] eqn:E.
  - apply find_in_Some in E as (a & _ & Ha). pose proof Ha as [[b ->] _].
    destruct (IH (length b)) with (s := b) as [ps Hps]; [|done|].
    + rewrite !length_app. destruct sep; [done|cbn; lia].
    + exists (a :: ps). constructor; [|done]. by apply (first_at_short sep a b).
  - exists [s]. constructor. intros a b. by apply (find_in_None _ _ _ E).
Qed.

Lemma pieces_not_nil sep s ps : pieces sep s ps -> ps <> [].
Proof. by intros []. Qed.

Lemma pieces_Join sep s ps : pieces sep s ps -> Join ps sep = s.
Proof.
  induction 1 as [s _|p s ps _ Hps IH]; [done|]. pose proof (pieces_not_nil _ _ _ Hps).
  destruct ps; [done|]. cbn [Join] in *. by rewrite IH.
Qed.

Lemma find_first pre sep p s : first_at sep (p ++ sep) p ->
  find (pre ++ p ++ sep ++ s) sep (length pre) = Some (length pre + length p)%nat.
Proof. intros Hp. rewrite find_app. apply find_in_first. by apply first_at_short. Qed.

Lemma find_last pre sep s : absent sep s -> find (pre ++ s) sep (length pre) = None.
Proof. intros Hs. rewrite find_app. by apply find_in_absent. Qed.

Lemma substr_piece pre p s : substr (pre ++ p ++ s) (length pre) (length pre + length p - length pre) = p.
Proof.
  unfold substr. rewrite drop_app_length. replace (length pre + length p - length pre)%nat with (length p) by lia.
  apply take_app_length.
Qed.

Lemma substr_end pre s : substr (pre ++ s) (length pre) (length (pre ++ s) - length pre) = s.
Proof. unfold substr. rewrite drop_app_length, take_ge; [done|]. rewrite length_app. lia. Qed.

(** Which pieces [Split] returns. *)
Definition keeps (ignoreEmpty : bool) (p : list Z) : bool := negb ignoreEmpty || negb (bool_decide (p = [])).

Lemma Split_loop_pieces sep ign fuel pre s ps vec :
  sep <> [] -> pieces sep s ps -> (length s < fuel)%nat ->
  ('(old, vec) ← Split_loop fuel (pre ++ s) sep ign (length pre) (length pre) vec;
   Some (if negb ign || Nat.ltb old (length (pre ++ s)) then vec ++ [substr (pre ++ s) old (length (pre ++ s) - old)] else vec))
  = Some (vec ++ filter (fun p => keeps ign p = true) ps).
Proof.
  intros Hne Hps. revert fuel pre vec. induction Hps as [s Hs|p s ps Hp Hps IH]; intros fuel pre vec Hf;
    (destruct fuel as [|fuel]; [lia|]); cbn [Split_loop].
  - rewrite find_last by done. cbn [mbind option_bind]. rewrite substr_end. rewrite filter_cons.
    replace (negb ign || _) with (keeps ign s); [by destruct (keeps ign s); rewrite ?app_nil_r|].
    unfold keeps. f_equal. rewrite length_app. destruct s; cbn; [symmetry; apply Nat.ltb_ge; lia|symmetry; apply Nat.ltb_lt; lia].
  - rewrite find_first by done. rewrite substr_piece.
    replace (length pre + length p + length sep)%nat with (length (pre ++ p ++ sep)) by (rewrite !length_app; lia).
    rewrite !length_app in Hf. assert (0 < length sep)%nat by (destruct sep; [done|cbn; lia]).
    replace (pre ++ p ++ sep ++ s) with ((pre ++ p ++ sep) ++ s) by by rewrite <- !app_assoc.
    rewrite IH by lia. f_equal. rewrite filter_cons.
    replace (negb ign || negb (_ =? length pre)%nat) with (keeps ign p).
    { destruct (keeps ign p); cbn; by rewrite <- ?app_assoc. }
    unfold keeps. do 2 f_equal. destruct p; cbn; [|symmetry; apply Nat.eqb_neq; lia].
    rewrite Nat.add_0_r. symmetry. apply Nat.eqb_refl.
Qed.

Lemma Split_pieces text sep ign ps : sep <> [] -> pieces sep text ps ->
  Split text sep ign = Some (filter (fun p => keeps ign p = true) ps).
Proof. intros Hne Hps. unfold Split. by apply (Split_loop_pieces sep ign (S (length text)) [] text ps []); [| |lia]. Qed.

Lemma filter_all {A} (P : A -> Prop) `{!forall x, Decision (P x)} (l : list A) : (forall x, P x) -> filter P l = l.
Proof. intros HP. induction l as [|x l IH]; [done|]. rewrite filter_cons, decide_True by done. by rewrite IH. Qed.

Lemma Split_all text sep ps : sep <> [] -> pieces sep text ps -> Split text sep false = Some ps.
Proof. intros Hne Hps. rewrite (Split_pieces _ _ _ _ Hne Hps). by rewrite filter_all. Qed.

(** A list of texts that [Split] can tell apart again: no separator begins in
    one of them, but for the one that follows it. *)
Fixpoint separated (sep : list Z) (ps : list (list Z)) : Prop :=
  match ps with
  | [] => False
  | [s] => absent sep s
  | p :: ps => first_at sep (p ++ sep) p /\ separated sep ps
  end.

Lemma separated_pieces sep ps : separated sep ps -> pieces sep (Join ps sep) ps.
Proof.
  induction ps as [|p [|p' ps] IH]; intros Hps; [done|by constructor|].
  destruct Hps as [Hp Hps]. apply (pieces_cons sep p _ _ Hp). by apply IH.
Qed.

Lemma pieces_separated sep s ps : pieces sep s ps -> separated sep ps.
Proof.
  induction 1 as [s Hs|p s ps Hp Hps IH]; [done|]. pose proof (pieces_not_nil _ _ _ Hps). by destruct ps.
Qed.


(** ** Replacing *)

Lemma ReplaceAll_loop_pieces old new fuel pre s ps :
  pieces old s ps -> (length s < fuel)%nat -> old <> [] ->
  ReplaceAll_loop fuel (pre ++ s) old new (length pre) = Some (pre ++ Join ps new).
Proof.
  intros Hps. revert fuel pre. induction Hps as [s Hs|p s ps Hp Hps IH]; intros fuel pre Hf Hne;
    (destruct fuel as [|fuel]; [lia|]); cbn [ReplaceAll_loop].
  - by rewrite find_last.
  - rewrite find_first by done.
    replace (replace (pre ++ p ++ old ++ s) (length pre + length p) (length old) new) with ((pre ++ p ++ new) ++ s).
    { replace (length pre + length p + length new)%nat with (length (pre ++ p ++ new)) by (rewrite !length_app; lia).
      rewrite IH; [|rewrite !length_app in Hf; destruct old; [done|cbn in Hf; lia]|done].
      pose proof (pieces_not_nil _ _ _ Hps). destruct ps; [done|]. cbn [Join]. by rewrite <- !app_assoc. }
    symmetry. unfold replace. rewrite <- length_app, (app_assoc pre p), take_app_length.
    replace (length (pre ++ p) + length old)%nat with (length ((pre ++ p) ++ old)) by (rewrite !length_app; lia).
    rewrite (app_assoc _ old), drop_app_length. by rewrite <- !app_assoc.
Qed.

(** Replacing all occurrences is splitting at the old string and joining
    with the new one; it never ends on an empty old string. *)
Theorem replaceall_is_split_join str oldStr newStr :
  (oldStr <> [] -> exists ps, Split str oldStr false = Some ps /\ ReplaceAll str oldStr newStr = Some (Join ps newStr)) /\
  ReplaceAll str [] newStr = None.
Proof.
  split.
  - intros Hne. destruct (pieces_exist oldStr str Hne) as [ps Hps]. exists ps. split; [by apply Split_all|].
    apply (ReplaceAll_loop_pieces oldStr newStr (S (length str)) [] str ps Hps); [lia|done].
  - unfold ReplaceAll. generalize (S (length str)). intros fuel.
    assert (E : forall fuel s n, (n <= length s)%nat -> ReplaceAll_loop fuel s [] newStr n = None).
    { clear. induction fuel as [|fuel IH]; intros s n Hn; [done|]. cbn [ReplaceAll_loop].
      unfold find. rewrite decide_True by done.
      assert (E0 : forall s i, find_in [] s i = Some i) by (by intros [|? ?] i).
      rewrite E0. apply IH. unfold replace. rewrite !length_app, length_take. lia. }
    apply E. lia.
Qed.

(** ** Tokens *)

Lemma Tokenize_loop_pieces sep opt fuel pre s ps toks :
  sep <> [] -> pieces sep s ps -> (length s < fuel)%nat ->
  ('(old, toks) ← Tokenize_loop fuel (pre ++ s) sep (length sep) opt (length pre) (length pre) toks;
   Some (AddToken (substr (pre ++ s) old (length (pre ++ s) - old)) opt toks))
  = Some (foldl (fun ts p => AddToken p opt ts) toks ps).
Proof.
  intros Hne Hps. revert fuel pre toks. induction Hps as [s Hs|p s ps Hp Hps IH]; intros fuel pre toks Hf;
    (destruct fuel as [|fuel]; [lia|]); cbn [Tokenize_loop].
  - rewrite find_last by done. cbn [mbind option_bind foldl]. by rewrite substr_end.
  - rewrite find_first by done. rewrite substr_piece.
    replace (length pre + length p + length sep)%nat with (length (pre ++ p ++ sep)) by (rewrite !length_app; lia).
    rewrite !length_app in Hf. assert (0 < length sep)%nat by (destruct sep; [done|cbn; lia]).
    replace (pre ++ p ++ sep ++ s) with ((pre ++ p ++ sep) ++ s) by by rewrite <- !app_assoc.
    rewrite IH by lia. cbn [foldl]. do 3 f_equal. destruct p; cbn; [by destruct (_ =? _)%nat|].
    replace (_ =? _)%nat with false; [done|]. symmetry. apply Nat.eqb_neq. lia.
Qed.

(** What an option makes of a piece. *)
Definition token_of (opt : Z) (p : list Z) : option (list Z) :=
  let t := if opt_has opt kTokenLeaveAs then p else if opt_has opt kTokenTrim then trim_blanks p else p in
  let keep := if opt_has opt kTokenLeaveAs || opt_has opt kTokenTrim then negb (opt_has opt kTokenIgnoreEmpty) else false in
  if keep || negb (bool_decide (t = [])) then Some t else None.

Lemma AddToken_token_of opt p ts : AddToken p opt ts = ts ++ option_list (token_of opt p).
Proof.
  unfold AddToken, token_of. destruct (opt_has opt kTokenLeaveAs), (opt_has opt kTokenTrim), (opt_has opt kTokenIgnoreEmpty);
    cbn [orb negb]; try destruct (trim_blanks p); try destruct p; cbn; by rewrite ?app_nil_r.
Qed.

(** A tokenizer splits like [StringUtil::Split] and then treats each piece
    by its options: trimmed or left as it is, and kept or not when that leaves
    nothing. *)
Theorem tokenizer_is_split tokens str sep opt :
  sep <> [] -> exists ps, Split str sep false = Some ps /\
    Tokenize tokens str sep opt = Some (tokens ++ omap (token_of opt) ps) /\
    TokenizeView str sep opt = Some (omap (token_of opt) ps).
Proof.
  intros Hne. destruct (pieces_exist sep str Hne) as [ps Hps]. exists ps. split; [by apply Split_all|].
  assert (Hf : forall ts, foldl (fun ts p => AddToken p opt ts) ts ps = ts ++ omap (token_of opt) ps).
  { clear. induction ps as [|p ps IH]; intros ts; cbn; [by rewrite app_nil_r|].
    rewrite IH, AddToken_token_of, <- app_assoc. by destruct (token_of opt p). }
  assert (Ht : forall ts, Tokenize_at str sep (length sep) ts opt = Some (ts ++ omap (token_of opt) ps)).
  { intros ts. rewrite <- Hf. by apply (Tokenize_loop_pieces sep opt (S (length str)) [] str ps ts); [| |lia]. }
  split; apply Ht.
Qed.


Lemma replaceall_is_split_join_witness :
  exists ps, Split (lit "a.b.c") (lit ".") false = Some ps /\ ReplaceAll (lit "a.b.c") (lit ".") (lit "..") = Some (Join ps (lit "..")).
Proof. apply (replaceall_is_split_join (lit "a.b.c") (lit ".") (lit "..")). done. Defined.

Lemma tokenizer_is_split_witness :
  Tokenize [] (lit "a, b,,") (lit ",") (Z.lor kTokenTrim kTokenIgnoreEmpty) = Some [lit "a"; lit "b"].
Proof.
  destruct (tokenizer_is_split [] (lit "a, b,,") (lit ",") (Z.lor kTokenTrim kTokenIgnoreEmpty) ltac:(done)) as (ps & E & T & _).
  rewrite T. vm_compute in E. injection E as <-. reflexivity.
Defined.

(** ** Trimming *)

Lemma find_first_not_of_spec c s :
  (find_first_not_of c s = None /\ s = replicate (length s) c) \/
  (exists k x t, find_first_not_of c s = Some k /\ s = replicate k c ++ x :: t /\ x <> c).
Proof.
  induction s as [|x s IH]; [by left|]. cbn. destruct (Z.eqb_spec x c) as [->|Hx].
  - destruct IH as [[-> E]|(k & y & t & -> & -> & Hy)]; cbn; [left; by rewrite <- E|].
    right. by exists (S k), y, t.
  - right. by exists 0%nat, x, s.
Qed.

Lemma find_last_not_of_spec c s :
  (find_last_not_of c s = None /\ s = replicate (length s) c) \/
  (exists t x k, find_last_not_of c s = Some (length t) /\ s = t ++ x :: replicate k c /\ x <> c).
Proof.
  induction s as [|x s IH]; [by left|]. cbn. destruct IH as [[-> E]|(t & y & k & -> & -> & Hy)].
  - destruct (Z.eqb_spec x c) as [->|Hx]; [left; by rewrite <- E|].
    right. exists [], x, (length s). by rewrite <- E.
  - right. by exists (x :: t), y, k.
Qed.

(** Blanks around a text that neither begins nor ends with one. *)
Definition trimmed (s t : list Z) : Prop :=
  exists j k, s = replicate j SPACE ++ t ++ replicate k SPACE /\ head t <> Some SPACE /\ last t <> Some SPACE.

Lemma Trim_trimmed s : trimmed s (Trim s).
Proof.
  unfold Trim. destruct (find_last_not_of_spec SPACE s) as [[-> E]|(t & x & k & -> & -> & Hx)].
  - exists (length s), 0%nat. cbn. by rewrite app_nil_r.
  - rewrite (cons_middle x), app_assoc. replace (S (length t)) with (length (t ++ [x])) by (rewrite length_app; cbn; lia).
    rewrite take_app_length.
    destruct (find_first_not_of_spec SPACE (t ++ [x])) as [[_ E]|(j & y & u & -> & E & Hy)].
    + exfalso. apply (f_equal last) in E. rewrite last_snoc, length_app, Nat.add_comm, replicate_S_end, last_snoc in E. by injection E.
    + rewrite E. exists j, k. rewrite drop_app_length' by by rewrite length_replicate. rewrite <- app_assoc.
      split_and!; [done|cbn; congruence|]. apply (f_equal last) in E. rewrite last_snoc, last_app_cons in E. rewrite <- E. congruence.
Qed.

Lemma find_first_not_of_app c s t k : find_first_not_of c s = Some k -> find_first_not_of c (s ++ t) = Some k.
Proof.
  revert k; induction s as [|x s IH]; intros k E; cbn in *; [done|]. destruct (x =? c); [|done].
  destruct (find_first_not_of c s) as [j|]; [|done]. cbn in E. injection E as <-. by rewrite (IH j eq_refl).
Qed.

(** Both overloads of [Trim] remove exactly the blanks at the ends. *)
Theorem trim_spec s :
  trimmed s (Trim s) /\ (Z.of_nat (length s) < ULONG_MAX -> Trim_view s = Trim s).
Proof.
  split; [apply Trim_trimmed|]. intros Hlen. unfold Trim_view, Trim.
  destruct (find_last_not_of_spec SPACE s) as [[-> E]|(t & x & k & -> & E & Hx)].
  - destruct (find_first_not_of_spec SPACE s) as [[-> _]|(j & y & u & -> & E' & Hy)]; [reflexivity|].
    exfalso. apply Hy. eapply lookup_replicate with (i := j) (n := length s). rewrite <- E, E'.
    rewrite list_lookup_middle; [done|]. by rewrite length_replicate.
  - assert (Ht : take (S (length t)) s = t ++ [x]).
    { rewrite E, (cons_middle x), app_assoc. apply take_app_length'. rewrite length_app. cbn. lia. }
    rewrite Ht. destruct (find_first_not_of_spec SPACE (t ++ [x])) as [[_ E']|(j & y & u & Ej & E' & Hy)].
    { exfalso. apply (f_equal last) in E'. rewrite last_snoc, length_app, Nat.add_comm, replicate_S_end, last_snoc in E'. by injection E'. }
    rewrite Ej. assert (Hj : find_first_not_of SPACE s = Some j).
    { rewrite <- (take_drop (S (length t)) s), Ht. by apply find_first_not_of_app. }
    rewrite Hj. assert (Hjt : (j <= length t)%nat).
    { apply (f_equal length) in E'. rewrite !length_app, length_replicate in E'. cbn in E'. lia. }
    assert (Hs : (length t < length s)%nat) by (rewrite E, length_app; cbn; lia).
    rewrite (proj2 (Z.eqb_neq _ _)) by lia. unfold ULONG_MAX in Hlen.
    unfold substr. rewrite wrapu_small by lia. rewrite Nat2Z.id.
    replace (Z.to_nat (Z.of_nat (length t) - Z.of_nat j + 1)) with (S (length t) - j)%nat by lia.
    rewrite <- Ht. rewrite skipn_firstn_comm. done.
Qed.

(** ** Reading decimal numbers *)

Definition dec_value (ds : list Z) : Z := foldl (fun acc c => acc * 10 + (c - 48)) 0 ds.

(** A decimal text: blanks, a sign or none, and digits. *)
Definition decimal (s : list Z) (neg : bool) (v : Z) : Prop :=
  exists ws sg ds, s = ws ++ sg ++ ds /\ Forall (fun c => isspace c = true) ws /\
    (neg = true /\ sg = [45] \/ neg = false /\ (sg = [43] \/ sg = [])) /\
    ds <> [] /\ Forall (fun c => isdigit c = true) ds /\ v = dec_value ds.

(** The number that a text denotes. *)
Definition denotes (s : list Z) (n : Z) : Prop := exists neg v, decimal s neg v /\ n = if neg : bool then - v else v.

Lemma skip_space_spec s : exists ws, s = ws ++ skip_space s /\ Forall (fun c => isspace c = true) ws /\
  (forall c, head (skip_space s) = Some c -> isspace c = false).
Proof.
  induction s as [|c s (ws & E & Hw & Hh)]; [by exists []|]. cbn. destruct (isspace c) eqn:Hc.
  - exists (c :: ws). rewrite E at 1. split_and!; [done|by constructor|done].
  - exists []. split_and!; [done|done|]. cbn. congruence.
Qed.

Lemma skip_space_app ws s : Forall (fun c => isspace c = true) ws -> (forall c, head s = Some c -> isspace c = false) ->
  skip_space (ws ++ s) = s.
Proof.
  intros Hw Hs. induction Hw as [|c ws Hc Hw IH]; cbn; [|by rewrite Hc].
  destruct s as [|c s]; [done|]. cbn. by rewrite (Hs c eq_refl).
Qed.

Lemma read_digits_value ds acc n :
  Forall (fun c => isdigit c = true) ds ->
  read_digits 10 decdigit ds acc n = (foldl (fun acc c => acc * 10 + (c - 48)) acc ds, (n + length ds)%nat, []).
Proof.
  revert acc n; induction ds as [|c ds IH]; intros acc n Hd; cbn; [do 2 f_equal; lia|].
  inversion_clear Hd as [|? ? Hc Hd']. unfold decdigit at 1. rewrite Hc, IH by done. do 2 f_equal. lia.
Qed.

(** When nothing is left behind the digits, all were digits. *)
Lemma read_digits_all s acc n v m : read_digits 10 decdigit s acc n = (v, m, []) ->
  Forall (fun c => isdigit c = true) s /\ v = foldl (fun acc c => acc * 10 + (c - 48)) acc s /\ m = (n + length s)%nat.
Proof.
  revert acc n; induction s as [|c s IH]; intros acc n E; cbn in *.
  - injection E as <- <-. split_and!; [done|done|lia].
  - unfold decdigit in E at 1. destruct (isdigit c) eqn:Hc; [|done].
    destruct (IH _ _ E) as (Hd & Hv & Hm). split_and!; [by constructor|done|lia].
Qed.

Lemma strto_decimal s neg v : strto 10 s = Some (neg, v, []) <-> decimal s neg v.
Proof.
  unfold strto. change (10 =? 16) with false. cbn [andb]. split.
  - destruct (skip_space_spec s) as (ws & E & Hw & _). destruct (read_sign (skip_space s)) as [ng t] eqn:Hr.
    assert (Ht : (match t with z :: x :: d :: _ => t | _ => t end) = t) by (by destruct t as [|? [|? [|? ?]]]). rewrite Ht.
    destruct (read_digits 10 decdigit t 0 0) as [[v' m] rest] eqn:Hd. destruct (m =? 0)%nat eqn:Hm; [done|].
    intros [= <- <- ->]. apply Nat.eqb_neq in Hm. apply read_digits_all in Hd as (Hd & -> & ->).
    exists ws. unfold read_sign in Hr. destruct (skip_space s) as [|c u] eqn:Hsk.
    + injection Hr as <- <-. cbn in Hm. lia.
    + exists (match t with _ => if c =? 45 then [45] else if c =? 43 then [43] else [] end), t.
      destruct (Z.eqb_spec c 45) as [->|]; [|destruct (Z.eqb_spec c 43) as [->|]]; injection Hr as <- <-;
        (split_and!; [by rewrite E|done|auto|first [done|intros ->; cbn in Hm; lia]|done|done]).
  - intros (ws & sg & ds & -> & Hw & Hsg & Hne & Hd & ->).
    destruct ds as [|d ds]; [done|]. pose proof (Forall_inv Hd) as Hd0. apply digit_not_space in Hd0 as (H1 & H2 & H3).
    assert (Hr : read_sign (skip_space (ws ++ sg ++ d :: ds)) = (neg, d :: ds)).
    { destruct Hsg as [[-> ->]|[-> [-> | ->]]]; (rewrite skip_space_app; [|done|intros c [= <-]; done]); cbn; try done.
      by rewrite H2, H3. }
    rewrite Hr. assert (Ht : (match d :: ds with z :: x :: dd :: _ => d :: ds | _ => d :: ds end) = d :: ds) by (by destruct ds as [|? [|? ?]]).
    rewrite Ht, read_digits_value by done. done.
Qed.

Lemma dec_value_nonneg acc ds : 0 <= acc -> Forall (fun c => isdigit c = true) ds -> 0 <= foldl (fun acc c => acc * 10 + (c - 48)) acc ds.
Proof.
  intros Ha Hd. revert acc Ha; induction Hd as [|c ds Hc Hd IH]; intros acc Ha; cbn; [done|].
  apply IH. unfold isdigit in Hc. bool_to_prop. lia.
Qed.

Lemma decimal_nonneg s neg v : decimal s neg v -> 0 <= v.
Proof. intros (ws & sg & ds & _ & _ & _ & _ & Hd & ->). by apply dec_value_nonneg. Qed.

Lemma decimal_not_nil s neg v : decimal s neg v -> s <> [].
Proof. intros (ws & sg & ds & -> & _ & _ & Hne & _) E. apply app_eq_nil in E as [_ E]. by apply app_eq_nil in E as [_ ->]. Qed.

Lemma strtol_accepts s n : s <> [] -> strtol 10 s = (n, true, []) <-> denotes s n /\ - 2 ^ 63 <= n < 2 ^ 63.
Proof.
  intros Hne. unfold strtol. destruct (strto 10 s) as [[[neg v] rest]|] eqn:E.
  - split.
    + intros Hs. assert (rest = []) as -> by (repeat case_match; congruence).
      apply strto_decimal in E. destruct ((if neg then - v else v) <? - 2 ^ 63) eqn:H1; [done|].
      destruct (2 ^ 63 - 1 <? (if neg then - v else v)) eqn:H2; [done|]. bool_to_prop. injection Hs as <-. split; [by exists neg, v|]. destruct neg; lia.
    + intros [(neg' & v' & Hd & ->) Hr]. apply strto_decimal in Hd. rewrite Hd in E. injection E as <- <- <-.
      rewrite (proj2 (Z.ltb_ge _ _)), (proj2 (Z.ltb_ge _ _)) by (destruct neg'; lia). done.
  - split; [congruence|]. intros [(neg & v & Hd & _) _]. apply strto_decimal in Hd. congruence.
Qed.

Lemma strtoul_accepts s n : s <> [] -> strtoul 10 s = (n, true, []) <->
  exists m, denotes s m /\ Z.abs m <= ULONG_MAX /\ n = u64 m.
Proof.
  intros Hne. unfold strtoul. destruct (strto 10 s) as [[[neg v] rest]|] eqn:E.
  - split.
    + intros Hs. assert (rest = []) as -> by (repeat case_match; congruence).
      apply strto_decimal in E. pose proof (decimal_nonneg _ _ _ E). destruct (ULONG_MAX <? v) eqn:H1; [done|]. bool_to_prop.
      injection Hs as <-. exists (if neg then - v else v). split_and!; [by exists neg, v|destruct neg; lia|].
      destruct neg; [done|]. symmetry. apply wrapu_small. unfold ULONG_MAX in H1. lia.
    + intros (m & (neg' & v' & Hd & ->) & Hm & ->). pose proof (decimal_nonneg _ _ _ Hd).
      apply strto_decimal in Hd. rewrite Hd in E. injection E as <- <- <-.
      rewrite (proj2 (Z.ltb_ge _ _)) by (destruct neg'; lia). destruct neg'; [done|].
      rewrite wrapu_small; [done|]. unfold ULONG_MAX in Hm. lia.
  - split; [congruence|]. intros (m & (neg & v & Hd & _) & _). apply strto_decimal in Hd. congruence.
Qed.

Lemma denotes_not_nil s n : denotes s n -> s <> [].
Proof. intros (neg & v & Hd & _). by eapply decimal_not_nil. Qed.

(** A parser that accepts: there was no error and nothing is left. *)
Ltac accepted H :=
  let Hr := fresh in
  apply andb_true_iff in H as [H Hr]; apply bool_decide_eq_true in Hr; subst.

Lemma StrToInt64_spec s old n : StrToInt64 (Some s) old = (true, n) <-> denotes s n /\ - 2 ^ 63 <= n < 2 ^ 63.
Proof.
  destruct s as [|c s].
  { split; [done|]. intros [Hd _]. by apply denotes_not_nil in Hd. }
  rewrite <- (strtol_accepts (c :: s) n) by done. unfold StrToInt64. destruct (strtol 10 (c :: s)) as [[v ok] rest].
  destruct ok; cbn [andb]; [|split; congruence]. case_bool_decide; split; congruence.
Qed.

Lemma StrToInt32_spec s old n : StrToInt32 (Some s) old = (true, n) <-> denotes s n /\ INT_MIN <= n <= INT_MAX.
Proof.
  destruct s as [|c s].
  { split; [done|]. intros [Hd _]. by apply denotes_not_nil in Hd. }
  pose proof (strtol_accepts (c :: s) n ltac:(done)) as Ha. unfold StrToInt32.
  destruct (strtol 10 (c :: s)) as [[v ok] rest]. split.
  - destruct (_ || _) eqn:Hr; [done|]. bool_to_prop. intros [= Hok <-].
    accepted Hok. rewrite i32_small in * by lia.
    split; [by apply Ha|lia].
  - intros [Hd Hr]. unfold INT_MIN, INT_MAX in *. assert (E' := proj2 Ha ltac:(split; [done|lia])); injection E' as -> -> ->.
    rewrite (proj2 (Z.ltb_ge _ _)), (proj2 (Z.ltb_ge _ _)) by lia. cbn.
    rewrite i32_small by (unfold INT_MIN, INT_MAX; lia). done.
Qed.

Lemma StrToUInt64_spec s old n : StrToUInt64 (Some s) old = (true, n) <->
  exists m, denotes s m /\ starts_minus s = false /\ Z.abs m <= ULONG_MAX /\ n = u64 m.
Proof.
  destruct s as [|c s].
  { split; [done|]. intros (m & Hd & _). by apply denotes_not_nil in Hd. }
  pose proof (strtoul_accepts (c :: s) n ltac:(done)) as Ha. unfold StrToUInt64.
  destruct (starts_minus (c :: s)); [split; [done|by intros (? & _ & ? & _)]|].
  destruct (strtoul 10 (c :: s)) as [[v ok] rest]. split.
  - intros [= Hok <-]. accepted Hok.
    destruct (proj1 Ha eq_refl) as (m & ? & ? & ?). by exists m.
  - intros (m & Hd & _ & Hr & ->). assert (E' := proj2 Ha ltac:(by exists m)); injection E' as -> -> ->. done.
Qed.

Lemma StrToUInt32_spec s old n : StrToUInt32 (Some s) old = (true, n) <->
  exists m, denotes s m /\ starts_minus s = false /\ Z.abs m <= ULONG_MAX /\ n = u64 m /\ n <= UINT32_MAX.
Proof.
  destruct s as [|c s].
  { split; [done|]. intros (m & Hd & _). by apply denotes_not_nil in Hd. }
  pose proof (strtoul_accepts (c :: s) n ltac:(done)) as Ha. unfold StrToUInt32.
  destruct (starts_minus (c :: s)); [split; [done|by intros (? & _ & ? & _)]|].
  assert (Hw : forall v, u32 (i32 v) = u32 v) by (intros v; by apply wrapu_wraps).
  destruct (strtoul 10 (c :: s)) as [[v ok] rest] eqn:E. split.
  - destruct (_ <? _) eqn:Hr; [done|]. bool_to_prop. intros [= Hok <-].
    accepted Hok. rewrite Hw in *.
    destruct (proj1 (strtoul_accepts (c :: s) _ ltac:(done)) E) as (m & ? & ? & ->). exists m.
    pose proof (wrapu_range 64 m ltac:(lia)). unfold UINT32_MAX in *. rewrite !(wrapu_small 32) by lia. done.
  - intros (m & Hd & _ & Hr & -> & Hu). assert (E' := proj2 Ha ltac:(by exists m)); injection E' as -> -> ->.
    rewrite (proj2 (Z.ltb_ge _ _)) by done. cbn. rewrite Hw.
    pose proof (wrapu_range 64 m ltac:(lia)). unfold UINT32_MAX in *. rewrite (wrapu_small 32) by lia. done.
Qed.

(** A narrower parser: the value of the wider one, in range. *)
Lemma narrow_signed s old w lo hi n :
  0 < w -> lo = - 2 ^ (w - 1) -> hi = 2 ^ (w - 1) - 1 -> INT_MIN <= lo -> hi <= INT_MAX ->
  (let '(ret, v32) := StrToInt32 (Some s) old in (ret && (lo <=? v32) && (v32 <=? hi), wraps w v32)) = (true, n) <->
  denotes s n /\ lo <= n <= hi.
Proof.
  intros Hw -> -> Hlo Hhi. pose proof (StrToInt32_spec s old) as Hs. destruct (StrToInt32 (Some s) old) as [ret v]. split.
  - intros [= Hok <-]. bool_to_prop. subst ret. destruct (proj1 (Hs v) eq_refl) as [Hd _].
    rewrite wraps_small in * by lia. split; [done|lia].
  - intros [Hd Hr]. assert (E' := proj2 (Hs n) ltac:(split; [done|lia])); injection E' as -> ->.
    rewrite (proj2 (Z.leb_le _ _)), (proj2 (Z.leb_le _ _)), wraps_small by lia. done.
Qed.

Lemma narrow_unsigned s old w n : 0 <= w <= 32 ->
  (let '(ret, v32) := StrToUInt32 (Some s) old in (ret && (v32 <=? 2 ^ w - 1), wrapu w v32)) = (true, n) <->
  exists m, denotes s m /\ starts_minus s = false /\ Z.abs m <= ULONG_MAX /\ n = u64 m /\ n < 2 ^ w.
Proof.
  intros Hw. pose proof (StrToUInt32_spec s old) as Hs. destruct (StrToUInt32 (Some s) old) as [ret v].
  assert (Hp : 2 ^ w <= 2 ^ 32) by (apply Z.pow_le_mono_r; lia). split.
  - intros [= Hok <-]. bool_to_prop. subst ret. destruct (proj1 (Hs v) eq_refl) as (m & Hd & Hm & Hr & -> & Hu).
    pose proof (wrapu_range 64 m ltac:(lia)). rewrite (wrapu_small w) in * by lia. exists m. split_and!; try done. lia.
  - intros (m & Hd & Hm & Hr & -> & Hu). pose proof (wrapu_range 64 m ltac:(lia)).
    assert (E' := proj2 (Hs (u64 m)) ltac:(exists m; split_and!; try done; unfold UINT32_MAX; lia)); injection E' as -> ->.
    rewrite (proj2 (Z.leb_le _ _)), (wrapu_small w) by lia. done.
Qed.

(** C39: the parsers of numbers accept exactly the decimal texts (blanks, a
    sign or none, digits, and nothing else) whose number is in the range of
    the type, and return that number.  The unsigned ones reject a minus sign
    only as the first character: behind a blank they take the number modulo
    2^64. *)
Theorem number_parsers s old n :
  (StrToInt64 (Some s) old = (true, n) <-> denotes s n /\ - 2 ^ 63 <= n < 2 ^ 63) /\
  (StrToInt32 (Some s) old = (true, n) <-> denotes s n /\ INT_MIN <= n <= INT_MAX) /\
  (StrToInt16 (Some s) old = (true, n) <-> denotes s n /\ -32768 <= n <= 32767) /\
  (StrToInt8 (Some s) old = (true, n) <-> denotes s n /\ -128 <= n <= 127) /\
  (StrToUInt64 (Some s) old = (true, n) <->
     exists m, denotes s m /\ starts_minus s = false /\ Z.abs m <= ULONG_MAX /\ n = u64 m) /\
  (StrToUInt32 (Some s) old = (true, n) <->
     exists m, denotes s m /\ starts_minus s = false /\ Z.abs m <= ULONG_MAX /\ n = u64 m /\ n <= UINT32_MAX) /\
  (StrToUInt16 (Some s) old = (true, n) <->
     exists m, denotes s m /\ starts_minus s = false /\ Z.abs m <= ULONG_MAX /\ n = u64 m /\ n < 65536) /\
  (StrToUInt8 (Some s) old = (true, n) <->
     exists m, denotes s m /\ starts_minus s = false /\ Z.abs m <= ULONG_MAX /\ n = u64 m /\ n < 256).
Proof.
  refine (conj _ (conj _ (conj _ (conj _ (conj _ (conj _ (conj _ _))))))).
  - apply StrToInt64_spec.
  - apply StrToInt32_spec.
  - apply (narrow_signed s 0 16); unfold INT_MIN, INT_MAX; lia.
  - apply (narrow_signed s 0 8); unfold INT_MIN, INT_MAX; lia.
  - apply StrToUInt64_spec.
  - apply StrToUInt32_spec.
  - apply (narrow_unsigned s 0 16). lia.
  - apply (narrow_unsigned s 0 8). lia.
Qed.

(** A negative text is a number for the unsigned parsers. *)
Lemma negative_accepted :
  StrToUInt64 (Some (lit " -1")) 0 = (true, ULONG_MAX) /\
  StrToUInt8 (Some (lit " -18446744073709551615")) 0 = (true, 1) /\ StrToUInt8 (Some (lit "-1")) 0 = (false, 0).
Proof. vm_compute. done. Qed.


(** ** Hexadecimal texts *)

Lemma hex_char_spec h : 0 <= h < 16 ->
  tolower (hex_char h) = hex_char h /\ hex_value (hex_char h) = h /\ hexdigit (hex_char h) = Some h /\
  hex_char h <> 0 /\ tolower (hex_char h) <> 120 /\ isspace (hex_char h) = false /\
  hex_char h =? 45 = false /\ hex_char h =? 43 = false.
Proof.
  intros Hh. assert (In h (seqZ 0 16)) as Hin by (apply list_elem_of_In, elem_of_seqZ; lia).
  clear Hh. revert h Hin. apply List.Forall_forall. vm_compute. repeat constructor; done.
Qed.

Lemma print_hex_digits n v : Forall (fun c => exists h, 0 <= h < 16 /\ c = hex_char h) (print_hex n v).
Proof.
  revert v; induction n as [|n IH]; intros v; cbn [print_hex]; [constructor|].
  apply Forall_app. split; [apply IH|]. repeat constructor. exists (v mod 16). split; [|done]. apply Z.mod_pos_bound. lia.
Qed.

Lemma print_hex_length n v : length (print_hex n v) = n.
Proof. revert v; induction n as [|n IH]; intros v; cbn [print_hex]; [done|]. rewrite length_app, IH. cbn. lia. Qed.

(** A number printed with [n] digits and read again, modulo 16^n. *)
Lemma read_print_hex n v s acc k :
  read_digits 16 hexdigit (print_hex n v ++ s) acc k =
  read_digits 16 hexdigit s (acc * 16 ^ Z.of_nat n + v mod 16 ^ Z.of_nat n) (k + n)%nat.
Proof.
  revert v s acc k; induction n as [|n IH]; intros v s acc k; cbn [print_hex app].
  - f_equal; [|lia]. change (16 ^ Z.of_nat 0) with 1. rewrite Z.mod_1_r. lia.
  - rewrite <- app_assoc, IH. cbn [app read_digits].
    destruct (hex_char_spec (v mod 16)) as (_ & _ & -> & _); [apply Z.mod_pos_bound; lia|].
    f_equal; [|lia]. rewrite Nat2Z.inj_succ, Z.pow_succ_r by lia.
    pose proof (Z.pow_pos_nonneg 16 (Z.of_nat n) ltac:(lia) ltac:(lia)).
    rewrite (Z.rem_mul_r v 16) by lia. lia.
Qed.

Lemma StrToHexStr_cons b s : StrToHexStr (b :: s) = hex_char (b / 16 mod 16) :: hex_char (b mod 16) :: StrToHexStr s.
Proof. done. Qed.

Lemma HexStr_roundtrip s : Forall is_byte s ->
  c_str (StrToHexStr s) = StrToHexStr s /\ Nat.even (length (StrToHexStr s)) = true /\
  HexStrToStr_loop (ToLowerCase (StrToHexStr s)) = s.
Proof.
  induction 1 as [|b s Hb Hs (IH1 & IH2 & IH3)]; [done|]. rewrite StrToHexStr_cons. unfold is_byte in Hb.
  destruct (hex_char_spec (b / 16 mod 16)) as (Ht & Hv & _ & Hz & _); [apply Z.mod_pos_bound; lia|].
  destruct (hex_char_spec (b mod 16)) as (Ht' & Hv' & _ & Hz' & _); [apply Z.mod_pos_bound; lia|].
  split_and!; [|done|].
  - cbn [c_str]. rewrite (proj2 (Z.eqb_neq _ _) Hz), (proj2 (Z.eqb_neq _ _) Hz'). by rewrite IH1.
  - unfold ToLowerCase in *. cbn [fmap list_fmap HexStrToStr_loop]. rewrite Ht, Ht', Hv, Hv', IH3. f_equal.
    rewrite (Z.mod_small (b / 16)) by (split; [apply Z.div_pos|apply Z.div_lt_upper_bound]; lia).
    pose proof (Z.div_mod b 16). replace (b / 16 * 16 + b mod 16) with b by lia. by apply wrapu_small.
Qed.

Lemma strto_hex v : 0 <= v < 2 ^ 64 -> strto 16 (print_hex 16 v) = Some (false, v, []).
Proof.
  intros Hv. assert (E : exists a b t, print_hex 16 v = hex_char (a mod 16) :: hex_char (b mod 16) :: t) by (cbn; eauto).
  destruct E as (a & b & t & E). unfold strto.
  destruct (hex_char_spec (a mod 16)) as (_ & _ & _ & _ & _ & Hs & H1 & H2); [apply Z.mod_pos_bound; lia|].
  destruct (hex_char_spec (b mod 16)) as (_ & _ & _ & _ & Hx & _); [apply Z.mod_pos_bound; lia|].
  assert (Hk : read_sign (skip_space (print_hex 16 v)) = (false, print_hex 16 v)).
  { rewrite E. cbn [skip_space]. rewrite Hs. cbn [read_sign]. by rewrite H1, H2. }
  rewrite Hk. replace (match print_hex 16 v with _ => _ end) with (print_hex 16 v).
  - change (16 =? 16) with true. cbv iota. rewrite <- (app_nil_r (print_hex 16 v)), read_print_hex. cbn [read_digits].
    rewrite Z.mod_small by (change (16 ^ Z.of_nat 16) with (2 ^ 64); lia). done.
  - rewrite E. destruct t as [|d t]; [done|]. rewrite (proj2 (Z.eqb_neq _ _) Hx). by rewrite andb_false_r.
Qed.

(** What is written in hexadecimal is read back: every byte string, and
    every 64-bit number, whatever its sign when it is read as signed below
    2^63. *)
Theorem hex_roundtrip :
  (forall s, Forall is_byte s -> HexStrToStr (StrToHexStr s) = Some s) /\
  (forall v len, 0 <= v < 2 ^ 64 -> 16 < len -> exists t, Uint64ToHexStr v len = Some t /\ length t = 16%nat /\
     forall old, HexStrToUint64 (Some t) old = (true, v) /\ (v < 2 ^ 63 -> HexStrToInt64 (Some t) old = (true, v))).
Proof.
  split.
  - intros s Hs. destruct (HexStr_roundtrip s Hs) as (Hc & He & Hl). unfold HexStrToStr. by rewrite He, Hc, Hl.
  - intros v len Hv Hlen. exists (print_hex 16 v). unfold Uint64ToHexStr. rewrite assertb_true by (apply Z.ltb_lt; lia).
    split_and!; [done|apply print_hex_length|]. intros old. unfold HexStrToUint64, HexStrToInt64, strtoul, strtol.
    rewrite strto_hex by done. assert (E : exists c t, print_hex 16 v = c :: t) by (cbn; eauto). destruct E as (c & t & ->).
    unfold ULONG_MAX. rewrite (proj2 (Z.ltb_ge _ v)) by lia. split; [done|]. intros Hv'.
    by rewrite (proj2 (Z.ltb_ge v _)), (proj2 (Z.ltb_ge _ v)) by lia.
Qed.

Lemma hex_roundtrip_witness :
  HexStrToStr (StrToHexStr [0; 255; 61]) = Some [0; 255; 61] /\
  exists t, Uint64ToHexStr ULONG_MAX 17 = Some t /\ HexStrToUint64 (Some t) 0 = (true, ULONG_MAX).
Proof.
  destruct hex_roundtrip as [Hs Hv]. split.
  - apply Hs. unfold is_byte. repeat constructor; lia.
  - destruct (Hv ULONG_MAX 17) as (t & E & _ & Ht); [unfold ULONG_MAX; lia|lia|]. exists t. split; [exact E|]. apply Ht.
Defined.

(** ** Integers as bytes *)

Lemma Serialize_loop_bytes n v key t : length key = n -> Serialize_loop n v (key ++ t) = be_bytes n v ++ t.
Proof.
  revert v key t; induction n as [|n IH]; intros v key t Hl; cbn [Serialize_loop be_bytes].
  - by destruct key.
  - destruct key as [|k key _] using rev_ind; [done|]. rewrite length_app in Hl. cbn in Hl.
    assert (Hk : length key = n) by lia. rewrite <- app_assoc. rewrite <- Hk at 2. rewrite insert_app_r_alt by done.
    rewrite Nat.sub_diag. change (<[0%nat := Z.land v 255]> ([k] ++ t)) with (Z.land v 255 :: t).
    rewrite IH, <- app_assoc by done. by rewrite (Z.land_ones v 8 ltac:(lia) : Z.land v 255 = u8 v).
Qed.

Lemma DeSerialize_loop_value w s : 8 <= w -> Forall is_byte s -> DeSerialize_loop w s = wrapu w (be_value s).
Proof.
  intros Hw Hs. unfold DeSerialize_loop.
  induction s as [|b s IH] using rev_ind; [by rewrite wrapu_small by (unfold be_value; cbn; split; [lia|by apply Z.pow_pos_nonneg; lia])|].
  apply Forall_app in Hs as [Hs Hb]. inversion_clear Hb as [|? ? Hb' _]. rewrite foldl_app, be_value_snoc. cbn [foldl].
  rewrite IH by done. unfold is_byte in Hb'. rewrite (wrapu_small 8 b) by lia. set (v := be_value s).
  assert (E : 2 ^ w = 256 * 2 ^ (w - 8)) by (change 256 with (2 ^ 8); rewrite <- Z.pow_add_r by lia; f_equal; lia).
  pose proof (Z.pow_pos_nonneg 2 (w - 8) ltac:(lia) ltac:(lia)) as Hp. unfold wrapu.
  replace (Z.shiftl (v mod 2 ^ w) 8 mod 2 ^ w) with (Z.shiftl (v mod 2 ^ (w - 8)) 8).
  - rewrite lor_fields by lia. change (2 ^ 8) with 256. rewrite E, (Z.rem_mul_r (v * 256 + b) 256) by lia.
    replace ((v * 256 + b) mod 256) with b by (rewrite Z.add_comm, Z.mod_add, Z.mod_small by lia; done).
    replace ((v * 256 + b) / 256) with v by (rewrite Z.add_comm, Z.div_add, (Z.div_small b) by lia; done). lia.
  - rewrite !Z.shiftl_mul_pow2 by lia. change (2 ^ 8) with 256. rewrite E.
    rewrite (Z.mul_comm (_ mod (256 * _))), Z.mul_mod_distr_l by lia.
    rewrite (Z.mul_comm 256 (2 ^ (w - 8))), Z.rem_mul_r by lia. rewrite (Z.mul_comm (2 ^ (w - 8))), Z.mod_add, Z.mod_mod by lia. lia.
Qed.

(** Integers are serialized in big-endian order and read back; reading
    fails an assertion on any other length. *)
Theorem serialize_roundtrip v s :
  SerializeUInt32 v = be_bytes 4 v /\ DeSerializeUInt32 (SerializeUInt32 v) = Some (u32 v) /\
  SerializeUInt64 v = be_bytes 8 v /\ DeSerializeUInt64 (SerializeUInt64 v) = Some (u64 v) /\
  (DeSerializeUInt32 s = None <-> length s <> 4%nat) /\ (DeSerializeUInt64 s = None <-> length s <> 8%nat).
Proof.
  assert (E4 : SerializeUInt32 v = be_bytes 4 v).
  { unfold SerializeUInt32. rewrite <- (app_nil_r (replicate 4 0)), Serialize_loop_bytes by done. apply app_nil_r. }
  assert (E8 : SerializeUInt64 v = be_bytes 8 v).
  { unfold SerializeUInt64. rewrite <- (app_nil_r (replicate 8 0)), Serialize_loop_bytes by done. apply app_nil_r. }
  assert (Hn : forall k (r : Z), (assertb (length s =? k)%nat;; Some r) = None <-> length s <> k).
  { intros k r. destruct (Nat.eqb_spec (length s) k); cbn; split; congruence. }
  rewrite E4, E8. unfold DeSerializeUInt32, DeSerializeUInt64. rewrite !be_bytes_length, !Nat.eqb_refl.
  cbn [assertb mbind option_bind]. rewrite !DeSerialize_loop_value by (try lia; apply be_bytes_is_byte).
  rewrite !be_value_be_bytes. refine (conj eq_refl (conj _ (conj eq_refl (conj _ (conj (Hn _ _) (Hn _ _)))))).
  - f_equal. apply wrapu_small, wrapu_range. lia.
  - f_equal. apply wrapu_small, wrapu_range. lia.
Qed.

(** ** Vectors of integers *)

Lemma digits_c_str s : Forall (fun c => c <> 0) s -> c_str s = s.
Proof. induction 1 as [|c s Hc _ IH]; cbn; [done|]. by rewrite (proj2 (Z.eqb_neq _ _) Hc), IH. Qed.

Lemma print_dec_denotes n : 0 <= n < 10 ^ 20 ->
  print_dec n <> [] /\ Forall (fun c => isdigit c = true) (print_dec n) /\ dec_value (print_dec n) = n.
Proof.
  intros Hn. destruct (read_print_loop 20 n Hn) as [m E]. apply read_digits_all in E as (Hd & Hv & _).
  split_and!; [|done|done]. unfold print_dec. cbn [print_loop]. case_bool; [done|]. by intros [? ?]%app_eq_nil.
Qed.

Lemma to_string_denotes n : - 10 ^ 20 < n < 10 ^ 20 -> denotes (to_string n) n.
Proof.
  intros Hn. unfold to_string. destruct (Z.ltb_spec n 0).
  - destruct (print_dec_denotes (- n)) as (Hne & Hd & Hv); [lia|]. exists true, (- n). split; [|lia].
    exists [], [45], (print_dec (- n)). split_and!; try done. by left.
  - destruct (print_dec_denotes n) as (Hne & Hd & Hv); [lia|]. exists false, n. split; [|lia].
    exists [], [], (print_dec n). split_and!; try done. right. split; [done|]. by right.
Qed.

Lemma to_string_chars n : Forall (fun c => c = 45 \/ isdigit c = true) (to_string n).
Proof.
  unfold to_string. destruct (Z.ltb_spec n 0); [constructor; [by left|]|];
    (eapply Forall_impl; [apply print_dec_digits; lia|by right]).
Qed.

(** A separator whose first character is not in the pieces. *)
Lemma separated_fresh d sep ps : ps <> [] -> Forall (fun p => d ∉ p) ps -> separated (d :: sep) ps.
Proof.
  intros Hne Hps. induction Hps as [|p ps Hp Hps IH]; [done|].
  destruct ps as [|p' ps]; [|split; [|by apply IH]].
  - intros a b ->. apply Hp. set_solver.
  - split; [by exists []; rewrite app_nil_r|]. intros a' b' E.
    destruct (decide (length p <= length a')%nat) as [|Hn]; [done|]. exfalso. apply Hp.
    apply (list_elem_of_lookup_2 _ (length a')). rewrite <- (lookup_app_l p (d :: sep)) by lia. rewrite E.
    rewrite lookup_app_r by lia. by rewrite Nat.sub_diag.
Qed.

(** A vector of integers is printed and read back, with any delimiter
    that does not begin with a digit or a minus sign. *)
Theorem vector_roundtrip v d delim :
  Forall (fun n => INT_MIN <= n <= INT_MAX) v -> d <> 45 -> isdigit d = false ->
  FromString_vector (ToString_vector v (d :: delim)) (d :: delim) = Some v.
Proof.
  intros Hv Hd Hdd. unfold FromString_vector, ToString_vector. destruct (decide (v = [])) as [->|Hne]; [done|].
  set (ps := to_string <$> v). assert (Hps : separated (d :: delim) ps).
  { apply separated_fresh; [by destruct v|]. apply Forall_fmap. eapply Forall_impl; [exact Hv|]. intros n _ Hin.
    pose proof (to_string_chars n) as Hc. rewrite Forall_forall in Hc. destruct (Hc d Hin); congruence. }
  rewrite (Split_pieces _ _ true ps) by (done || by apply separated_pieces).
  cbn [mbind option_bind]. f_equal. subst ps. clear Hps Hne. induction Hv as [|n v Hn Hv IH]; [done|].
  unfold INT_MIN, INT_MAX in Hn. pose proof (to_string_denotes n ltac:(lia)) as Hden.
  cbn [fmap list_fmap]. rewrite filter_cons, decide_True.
  - cbn [map]. rewrite digits_c_str.
    + rewrite (proj2 (StrToInt32_spec (to_string n) 0 n)) by (split; [done|unfold INT_MIN, INT_MAX; lia]). cbn [snd]. by rewrite IH.
    + eapply Forall_impl; [apply to_string_chars|]. intros c [-> |Hc]; [lia|]. unfold isdigit in Hc. bool_to_prop. lia.
  - unfold keeps. cbn. apply negb_true_iff, bool_decide_eq_false. by eapply denotes_not_nil.
Qed.

Lemma vector_roundtrip_witness :
  ToString_vector [-5; 0; INT_MAX] [44; 32] = lit "-5, 0, 2147483647" /\
  FromString_vector (ToString_vector [-5; 0; INT_MAX] [44; 32]) [44; 32] = Some [-5; 0; INT_MAX].
Proof.
  split; [vm_compute; reflexivity|]. apply (vector_roundtrip [-5; 0; INT_MAX] 44 [32]); [|lia|reflexivity].
  unfold INT_MIN, INT_MAX. repeat constructor; lia.
Defined.

(** ** Prefixes and suffixes *)

(** The two tests are what their names say. *)
Theorem prefix_suffix_tests s p :
  (StartsWith s p = true <-> exists t, s = p ++ t) /\ (EndWith s p = true <-> exists t, s = t ++ p).
Proof.
  unfold StartsWith, EndWith, substr. refine (conj _ _); split.
  - intros [_ E]%andb_true_iff. apply bool_decide_eq_true in E. exists (drop (length p) s).
    rewrite <- E at 1. symmetry. apply take_drop.
  - intros [t ->]. rewrite drop_0, take_app_length, bool_decide_true by done.
    rewrite (proj2 (Nat.leb_le _ _)) by (rewrite length_app; lia). done.
  - intros [Hl E]%andb_true_iff. apply Nat.leb_le in Hl. apply bool_decide_eq_true in E. exists (take (length s - length p) s).
    rewrite take_ge in E by (rewrite length_drop; lia). rewrite <- E at 2. symmetry. apply take_drop.
  - intros [t ->]. rewrite length_app, Nat.add_sub, drop_app_length, take_ge, bool_decide_true by done.
    rewrite (proj2 (Nat.leb_le _ _)) by lia. done.
Qed.
