(* ===== verification/ModuleManager.v ===== *)
(** * BaseModule, CreatorFactory and ModuleManager

    Sources: src/agent_engine/engine/common/base_module.h, base_module.cc,
    module_manager.h, module_manager.cc, creator_factory.h and common.h.

    Modules are objects on a heap, and a [shared_ptr] is null or the place of
    one.  What a module does when it is initialised, loaded or unloaded is code
    of its class: [DoInit], [DoLoad] and [DoUnload] are parameters that may
    answer anything, also depending on all that happened before.  The order in
    which an [unordered_map] is walked is a parameter too.  Every operation of
    the manager holds its mutex from its first line to its last, so it is one
    function; [None] would be the use of an object that does not exist. *)

From stdpp Require Import strings gmap.
From S2P Require Import Prelude.

(** ** Data *)

(** What a class says of itself: the modules it names with [DEPEND_ON_n], or
    why there is no object of it. *)
Inductive CreatorFunc :=
| NoFunc                              (* an empty std::function *)
| Null                                (* a function that returns nullptr *)
| Makes (depends : list string).

Record BaseModule := {
  name_ : string;
  loaded_ : bool;
  manager_ : bool;                                  (* whether it is set *)
  depend_modules_ : gmap string (option nat);
  be_depended_modules_ : gmap string (option nat);
  bind_funcs_ : gmap string unit;                   (* the function of a name binds that name *)
  members_ : gmap string nat;                       (* the pointers that the class declares *)
  depends : list string;                            (* the DEPEND_ON_n of its class *)
}.

Definition with_loaded (b : bool) (m : BaseModule) : BaseModule :=
  {| name_ := name_ m; loaded_ := b; manager_ := manager_ m; depend_modules_ := depend_modules_ m;
     be_depended_modules_ := be_depended_modules_ m; bind_funcs_ := bind_funcs_ m; members_ := members_ m; depends := depends m |}.

Definition with_manager (m : BaseModule) : BaseModule :=
  {| name_ := name_ m; loaded_ := loaded_ m; manager_ := true; depend_modules_ := depend_modules_ m;
     be_depended_modules_ := be_depended_modules_ m; bind_funcs_ := bind_funcs_ m; members_ := members_ m; depends := depends m |}.

(** The function that [DEPEND_ON_n] puts into [bind_funcs_]. *)
Definition bind_func (name : string) (base_module : nat) (m : BaseModule) : BaseModule :=
  {| name_ := name_ m; loaded_ := loaded_ m; manager_ := manager_ m;
     depend_modules_ := match depend_modules_ m !! name with Some _ => depend_modules_ m | None => <[name := Some base_module]> (depend_modules_ m) end;
     be_depended_modules_ := be_depended_modules_ m; bind_funcs_ := bind_funcs_ m;
     members_ := <[name := base_module]> (members_ m); depends := depends m |}.

Definition BeDepended (name : string) (module : option nat) (m : BaseModule) : BaseModule :=
  {| name_ := name_ m; loaded_ := loaded_ m; manager_ := manager_ m; depend_modules_ := depend_modules_ m;
     be_depended_modules_ := <[name := module]> (be_depended_modules_ m); bind_funcs_ := bind_funcs_ m;
     members_ := members_ m; depends := depends m |}.

(** [DefineDependModule] of a class with its [DEPEND_ON_n] in order. *)
Definition InitDepends (m : BaseModule) : BaseModule :=
  {| name_ := name_ m; loaded_ := loaded_ m; manager_ := manager_ m; depend_modules_ := depend_modules_ m;
     be_depended_modules_ := be_depended_modules_ m;
     bind_funcs_ := foldl (fun bs d => <[d := tt]> bs) (bind_funcs_ m) (depends m);
     members_ := members_ m; depends := depends m |}.

(** The lambda of [REGISTER_MODULE]: a new object with its name. *)
Definition new_module (name : string) (ds : list string) : BaseModule :=
  {| name_ := name; loaded_ := false; manager_ := false; depend_modules_ := ∅; be_depended_modules_ := ∅;
     bind_funcs_ := ∅; members_ := ∅; depends := ds |}.

(** Calls of the code of the classes, with their answers, the first one first. *)
Inductive event :=
| EInit (x : nat) (ok : bool)
| ELoad (x : nat) (ok : bool)
| EUnload (x : nat) (ok : bool).

#[export] Instance event_eq_dec : EqDecision event.
Proof. solve_decision. Defined.

Record ModuleManager := {
  stopped_ : bool;
  modules_ : gmap string nat;
  module_creator_funcs_ : gmap string CreatorFunc;
  heap : list BaseModule;
  log : list event;
}.

(** The [unordered_map]s of the program. *)
Inductive container :=
| CModules
| CCreators
| CDepend (x : nat)
| CBeDepended (x : nat)
| CBind (x : nat).

Definition with_stopped (b : bool) (w : ModuleManager) : ModuleManager :=
  {| stopped_ := b; modules_ := modules_ w; module_creator_funcs_ := module_creator_funcs_ w; heap := heap w; log := log w |}.
Definition with_heap (h : list BaseModule) (w : ModuleManager) : ModuleManager :=
  {| stopped_ := stopped_ w; modules_ := modules_ w; module_creator_funcs_ := module_creator_funcs_ w; heap := h; log := log w |}.
Definition record (e : event) (w : ModuleManager) : ModuleManager :=
  {| stopped_ := stopped_ w; modules_ := modules_ w; module_creator_funcs_ := module_creator_funcs_ w; heap := heap w; log := log w ++ [e] |}.
Definition with_creators (c : gmap string CreatorFunc) (w : ModuleManager) : ModuleManager :=
  {| stopped_ := stopped_ w; modules_ := modules_ w; module_creator_funcs_ := c; heap := heap w; log := log w |}.

(** [modules_.emplace(name, module)] *)
Definition emplace (name : string) (x : nat) (w : ModuleManager) : ModuleManager :=
  {| stopped_ := stopped_ w; modules_ := match modules_ w !! name with Some _ => modules_ w | None => <[name := x]> (modules_ w) end;
     module_creator_funcs_ := module_creator_funcs_ w; heap := heap w; log := log w |}.

Definition modify (x : nat) (f : BaseModule -> BaseModule) (w : ModuleManager) : ModuleManager :=
  with_heap (alter f x (heap w)) w.

Definition ModuleManager_new : ModuleManager :=
  {| stopped_ := true; modules_ := ∅; module_creator_funcs_ := ∅; heap := []; log := [] |}.

(** ** CreatorFactory *)

Definition AddCreatorFunc (name : string) (f : CreatorFunc) (m : gmap string CreatorFunc) : gmap string CreatorFunc := <[name := f]> m.
Definition GetCreatorFunc (name : string) (m : gmap string CreatorFunc) : CreatorFunc := default NoFunc (m !! name).

(** ** Operations *)

Section Operations.

Context (DoInit DoLoad DoUnload : nat -> list event -> bool).
Context (walk : container -> forall A, gmap string A -> list (string * A)).

Definition BaseModule_Init (x : nat) (w : ModuleManager) : option (bool * ModuleManager) :=
  _ ← heap w !! x;
  let w := modify x with_manager w in
  let ok := DoInit x (log w) in
  Some (ok, record (EInit x ok) w).

Definition BaseModule_Load (x : nat) (w : ModuleManager) : option (bool * ModuleManager) :=
  m ← heap w !! x;
  if loaded_ m then Some (true, w)
  else
    let ok := DoLoad x (log w) in
    let w := record (ELoad x ok) w in
    if negb ok then Some (false, w) else Some (true, modify x (with_loaded true) w).

Definition BaseModule_Unload (x : nat) (w : ModuleManager) : option (bool * ModuleManager) :=
  m ← heap w !! x;
  if negb (loaded_ m) then Some (true, w)
  else
    let ok := DoUnload x (log w) in
    let w := record (EUnload x ok) w in
    if negb ok then Some (false, w) else Some (true, modify x (with_loaded false) w).

Definition MaxDepth : nat := 64.

(** The loop of [Load] over the modules that a module depends on. *)
Fixpoint Load_loop (Load : nat -> ModuleManager -> option (bool * ModuleManager)) (l : list (string * option nat)) (w : ModuleManager) :
    option (bool * ModuleManager) :=
  match l with
  | [] => Some (true, w)
  | (_, None) :: _ => Some (false, w)
  | (_, Some d) :: l =>
      m ← heap w !! d;
      if loaded_ m then Load_loop Load l w
      else
        '(ok, w) ← Load d w;
        if negb ok then Some (false, w) else Load_loop Load l w
  end.

(** At depth [MaxDepth - n]. *)
Fixpoint Load_at (n : nat) (x : nat) (w : ModuleManager) : option (bool * ModuleManager) :=
  match n with
  | O => Some (false, w)
  | Datatypes.S n =>
      m ← heap w !! x;
      '(ok, w) ← Load_loop (Load_at n) (walk (CDepend x) _ (depend_modules_ m)) w;
      if negb ok then Some (false, w) else BaseModule_Load x w
  end.

Definition Load (x : nat) (w : ModuleManager) := Load_at MaxDepth x w.

(** The loop of [Unload] over the modules that depend on a module. *)
Fixpoint Unload_loop (Unload : nat -> ModuleManager -> option (bool * ModuleManager)) (l : list (string * option nat)) (w : ModuleManager) :
    option (bool * ModuleManager) :=
  match l with
  | [] => Some (true, w)
  | (_, None) :: _ => Some (false, w)
  | (_, Some d) :: l =>
      m ← heap w !! d;
      if negb (loaded_ m) then Unload_loop Unload l w
      else
        '(ok, w) ← Unload d w;
        if negb ok then Some (false, w) else Unload_loop Unload l w
  end.

Fixpoint Unload_at (n : nat) (x : nat) (w : ModuleManager) : option (bool * ModuleManager) :=
  match n with
  | O => Some (false, w)
  | Datatypes.S n =>
      m ← heap w !! x;
      '(ok, w) ← Unload_loop (Unload_at n) (walk (CBeDepended x) _ (be_depended_modules_ m)) w;
      if negb ok then Some (false, w) else BaseModule_Unload x w
  end.

Definition Unload (x : nat) (w : ModuleManager) := Unload_at MaxDepth x w.

(** The loops of [Start] and [Stop] over the modules. *)
Fixpoint each (op : nat -> ModuleManager -> option (bool * ModuleManager)) (l : list (string * nat)) (w : ModuleManager) :
    option (bool * ModuleManager) :=
  match l with
  | [] => Some (true, w)
  | (_, x) :: l => '(ok, w) ← op x w; if negb ok then Some (false, w) else each op l w
  end.

Definition Start (w : ModuleManager) : option (bool * ModuleManager) :=
  if negb (stopped_ w) then Some (true, w)
  else
    '(ok, w) ← each Load (walk CModules _ (modules_ w)) w;
    if negb ok then Some (false, w) else Some (true, with_stopped false w).

Definition Stop (w : ModuleManager) : option (bool * ModuleManager) :=
  if stopped_ w then Some (true, w)
  else
    '(ok, w) ← each Unload (walk CModules _ (modules_ w)) w;
    if negb ok then Some (false, w) else Some (true, with_stopped true w).

Fixpoint CreateModule_loop (l : list (string * CreatorFunc)) (w : ModuleManager) : option (bool * ModuleManager) :=
  match l with
  | [] => Some (true, w)
  | (_, NoFunc) :: _ | (_, Null) :: _ => Some (false, w)
  | (name, Makes ds) :: l =>
      let module := length (heap w) in
      let w := with_heap (heap w ++ [new_module name ds]) w in
      '(ok, w) ← BaseModule_Init module w;
      if negb ok then Some (false, w) else CreateModule_loop l (emplace name module w)
  end.

Definition CreateModule (w : ModuleManager) : option (bool * ModuleManager) :=
  CreateModule_loop (walk CCreators _ (module_creator_funcs_ w)) w.

Definition GetModule (module_name : string) (w : ModuleManager) : option nat := modules_ w !! module_name.

Fixpoint Bind_loop (module_name : string) (module : nat) (bind_funcs : list (string * unit)) (w : ModuleManager) : bool * ModuleManager :=
  match bind_funcs with
  | [] => (true, w)
  | (depend_module_name, _) :: bind_funcs =>
      match GetModule depend_module_name w with
      | None => (false, w)
      | Some depend_module =>
          let w := modify module (bind_func depend_module_name depend_module) w in
          let w := modify depend_module (BeDepended module_name (Some module)) w in
          Bind_loop module_name module bind_funcs w
      end
  end.

Fixpoint BindDependModule_loop (l : list (string * nat)) (w : ModuleManager) : option (bool * ModuleManager) :=
  match l with
  | [] => Some (true, w)
  | (module_name, module) :: l =>
      let w := modify module InitDepends w in
      m ← heap w !! module;
      let '(ok, w) := Bind_loop module_name module (walk (CBind module) _ (bind_funcs_ m)) w in
      if negb ok then Some (false, w) else BindDependModule_loop l w
  end.

Definition BindDependModule (w : ModuleManager) : option (bool * ModuleManager) :=
  BindDependModule_loop (walk CModules _ (modules_ w)) w.

(** [creators] is what the singleton factory holds. *)
Definition Init (creators : gmap string CreatorFunc) (w : ModuleManager) : option (bool * ModuleManager) :=
  let w := with_creators creators w in
  '(ok, w) ← CreateModule w;
  if negb ok then Some (false, w) else BindDependModule w.

End Operations.

(** ** Loading and unloading are walks of one kind

    [Load] walks from a module to those it depends on and turns flags on,
    [Unload] walks from a module to those that depend on it and turns them
    off. *)

Definition succs (t : bool) (m : BaseModule) : gmap string (option nat) := if t then depend_modules_ m else be_depended_modules_ m.
Definition ev (t : bool) (x : nat) (ok : bool) : event := if t then ELoad x ok else EUnload x ok.

Definition flag (x : nat) (w : ModuleManager) : option bool := loaded_ <$> heap w !! x.

Definition edge (t : bool) (w : ModuleManager) (x y : nat) : Prop :=
  exists m name, heap w !! x = Some m /\ succs t m !! name = Some (Some y).

(** The effect of calling a module's code with the answer [ok]. *)
Definition acted (t : bool) (x : nat) (ok : bool) (w : ModuleManager) : ModuleManager :=
  let w := record (ev t x ok) w in if ok then modify x (with_loaded t) w else w.

(** Two states that differ in flags and in what happened. *)
Definition same_graph (w w' : ModuleManager) : Prop :=
  modules_ w' = modules_ w /\ stopped_ w' = stopped_ w /\ length (heap w') = length (heap w) /\
  forall x m, heap w !! x = Some m -> exists m', heap w' !! x = Some m' /\ with_loaded false m' = with_loaded false m.

#[export] Instance same_graph_preorder : PreOrder same_graph.
Proof.
  split.
  - intros w. split_and!; try done. eauto.
  - intros w1 w2 w3 (A1 & B1 & C1 & D1) (A2 & B2 & C2 & D2). split_and!; try congruence.
    intros x m Hx. destruct (D1 x m Hx) as (m' & Hx' & E). destruct (D2 x m' Hx') as (m'' & Hx'' & E'). exists m''. by rewrite E'.
Qed.

Lemma with_loaded_succs t m m' : with_loaded false m' = with_loaded false m -> succs t m' = succs t m.
Proof. intros [=]. by destruct t; cbn. Qed.

Lemma same_graph_back w w' x m' : same_graph w w' -> heap w' !! x = Some m' ->
  exists m, heap w !! x = Some m /\ with_loaded false m' = with_loaded false m.
Proof.
  intros (_ & _ & Hl & Hm) Hx. destruct (heap w !! x) as [m|] eqn:E.
  - destruct (Hm x m E) as (m'' & E' & Ef). exists m. split; [done|]. congruence.
  - apply lookup_ge_None in E. apply lookup_lt_Some in Hx. lia.
Qed.

Lemma same_graph_edge t w w' x y : same_graph w w' -> edge t w' x y <-> edge t w x y.
Proof.
  intros Hg. split; intros (m & name & Hx & Hs).
  - destruct (same_graph_back _ _ _ _ Hg Hx) as (m' & Hx' & E). exists m', name. by rewrite <- (with_loaded_succs t _ _ E).
  - destruct Hg as (_ & _ & _ & Hm). destruct (Hm x m Hx) as (m' & Hx' & E). exists m', name. by rewrite (with_loaded_succs t _ _ E).
Qed.

Lemma acted_same_graph t x ok w : same_graph w (acted t x ok w).
Proof.
  unfold acted. destruct ok; [|split_and!; try done; eauto].
  unfold modify. split_and!; try done; cbn [heap with_heap record]; [apply length_alter|]. intros y m Hy. destruct (decide (x = y)) as [->|Hne].
  - exists (with_loaded t m). by rewrite list_lookup_alter_eq, Hy.
  - exists m. by rewrite list_lookup_alter_ne.
Qed.

Lemma acted_flag t x ok w y b : flag x w = Some b ->
  flag y (acted t x ok w) = if decide (ok = true /\ y = x) then Some t else flag y w.
Proof.
  unfold flag, acted, modify. intros Hx. destruct ok; cbn [heap with_heap record]; [|by rewrite decide_False by naive_solver].
  case_decide as Hd.
  - destruct Hd as [_ ->]. rewrite list_lookup_alter_eq. by destruct (heap w !! x).
  - rewrite list_lookup_alter_ne; [done|]. naive_solver.
Qed.

(** ** Steps *)

Section Steps.

Context (Do : bool -> nat -> list event -> bool) (t : bool).

(** One call of a module's code, when all the modules it has to wait for are
    done. *)
Inductive step : ModuleManager -> ModuleManager -> Prop :=
| step_act x ok w : flag x w = Some (negb t) -> (forall y, edge t w x y -> flag y w = Some t) ->
    ok = Do t x (log w) -> step w (acted t x ok w).

Notation steps := (rtc step).

Lemma steps_same_graph w w' : steps w w' -> same_graph w w'.
Proof. induction 1 as [|w1 w2 w3 [] _ IH]; [done|]. etrans; [|exact IH]. apply acted_same_graph. Qed.

Lemma steps_flag w w' y : steps w w' -> flag y w = Some t -> flag y w' = Some t.
Proof.
  induction 1 as [|w1 w2 w3 [x ok w Hx _ _] _ IH]; [done|]. intros Hy. apply IH. rewrite (acted_flag t x ok w y _ Hx). by case_decide.
Qed.

(** A module is done only when those it waits for are. *)
Lemma steps_closed w w' : steps w w' -> (forall x y, edge t w x y -> flag x w = Some t -> flag y w = Some t) ->
  forall x y, edge t w' x y -> flag x w' = Some t -> flag y w' = Some t.
Proof.
  induction 1 as [|w1 w2 w3 [z ok w Hz Hd _] _ IH]; [done|]. intros Hc. apply IH. intros x y He.
  apply (same_graph_edge t _ _ _ _ (acted_same_graph t z ok w)) in He. rewrite !(acted_flag t z ok w _ _ Hz).
  repeat case_decide; try done; intros E; [|by eapply Hc]. apply Hd. naive_solver.
Qed.

(** Nor are those done that wait for each other. *)
Lemma steps_cycle (C : nat -> Prop) w w' :
  steps w w' -> (forall x, C x -> exists y, C y /\ edge t w x y) -> (forall x, C x -> flag x w <> Some t) -> forall x, C x -> flag x w' <> Some t.
Proof.
  induction 1 as [|w1 w2 w3 [z ok w Hz Hd _] _ IH]; [done|]. intros Hc Hn. apply IH.
  - intros x Hx. destruct (Hc x Hx) as (y & Hy & He). exists y. split; [done|]. by apply (same_graph_edge t _ _ _ _ (acted_same_graph t z ok w)).
  - intros x Hx. rewrite (acted_flag t z ok w _ _ Hz). case_decide as E; [|by apply Hn]. destruct E as [_ ->].
    destruct (Hc z Hx) as (y & Hy & He). exfalso. by apply (Hn y Hy), Hd.
Qed.

(** What the steps add to the log: calls in an order in which every module
    comes after those it waits for, and at most one that succeeds for each. *)
Definition ordered (w : ModuleManager) (tr : list event) : Prop :=
  forall tr1 e tr2, tr = tr1 ++ e :: tr2 -> exists x ok, e = ev t x ok /\ flag x w = Some (negb t) /\ ev t x true ∉ tr1 /\
    forall y, edge t w x y -> flag y w = Some t \/ ev t y true ∈ tr1.

Lemma ev_inj x y ok ok' : ev t x ok = ev t y ok' -> x = y /\ ok = ok'.
Proof. unfold ev. destruct t; intros [=]; done. Qed.

Lemma steps_log w w' : steps w w' -> exists tr, log w' = log w ++ tr /\ ordered w tr /\
  (forall x, flag x w' = if decide (ev t x true ∈ tr) then Some t else flag x w).
Proof.
  induction 1 as [w|w1 w2 w3 [x ok w Hx Hd Ho] Hs (tr & E & Hor & Hf)].
  - exists []. split_and!; [by rewrite app_nil_r|intros [|? ?] ? ? [=]|]. intros x. by rewrite decide_False by set_solver.
  - exists (ev t x ok :: tr). split_and!.
    + rewrite E. unfold acted. destruct ok; cbn; by rewrite <- app_assoc.
    + intros [|e' tr1] e tr2 [= Ee Etr].
      * subst e. exists x, ok. split_and!; [done|done|set_solver|]. intros y He. left. by apply Hd.
      * subst e'. destruct (Hor tr1 e tr2 Etr) as (x' & ok' & -> & Hx' & Hn & Hy).
        rewrite (acted_flag t x ok w _ _ Hx) in Hx'. exists x', ok'. split; [done|]. split_and!.
        { case_decide; [|done]. injection Hx'. intros Hb. by destruct t. }
        { intros [Ee|Hin]%elem_of_cons; [|done]. apply ev_inj in Ee as [-> Ee]. subst ok.
          rewrite decide_True in Hx' by done. injection Hx'. intros Hb. by destruct t. }
        intros y He. apply (same_graph_edge t _ _ _ _ (acted_same_graph t x ok w)) in He.
        destruct (Hy y He) as [Hfy|Hin]; [|right; by apply elem_of_cons; right].
        rewrite (acted_flag t x ok w _ _ Hx) in Hfy. case_decide as Hc; [|by left]. destruct Hc as [-> ->]. right. by apply elem_of_cons; left.
    + intros y. rewrite Hf, (acted_flag t x ok w _ _ Hx). destruct (decide (ev t y true ∈ tr)) as [Hin|Hin].
      * by rewrite decide_True by by apply elem_of_cons; right.
      * case_decide as Hc.
        { destruct Hc as [-> ->]. by rewrite decide_True by by apply elem_of_cons; left. }
        rewrite decide_False; [done|]. intros [Ee|?]%elem_of_cons; [|done]. apply ev_inj in Ee as [-> <-]. naive_solver.
Qed.

(** ** The walk *)

Context (walk : container -> forall A, gmap string A -> list (string * A)).
Context (walk_perm : forall c A (m : gmap string A), walk c A m ≡ₚ map_to_list m).

Definition place (x : nat) : container := if t then CDepend x else CBeDepended x.

Definition act (x : nat) (w : ModuleManager) : option (bool * ModuleManager) :=
  m ← heap w !! x;
  if Bool.eqb (loaded_ m) t then Some (true, w) else let ok := Do t x (log w) in Some (ok, acted t x ok w).

Fixpoint visit_loop (visit : nat -> ModuleManager -> option (bool * ModuleManager)) (l : list (string * option nat)) (w : ModuleManager) :
    option (bool * ModuleManager) :=
  match l with
  | [] => Some (true, w)
  | (_, None) :: _ => Some (false, w)
  | (_, Some d) :: l =>
      m ← heap w !! d;
      if Bool.eqb (loaded_ m) t then visit_loop visit l w
      else '(ok, w) ← visit d w; if negb ok then Some (false, w) else visit_loop visit l w
  end.

Fixpoint visit (n : nat) (x : nat) (w : ModuleManager) : option (bool * ModuleManager) :=
  match n with
  | O => Some (false, w)
  | Datatypes.S n =>
      m ← heap w !! x;
      '(ok, w) ← visit_loop (visit n) (walk (place x) _ (succs t m)) w;
      if negb ok then Some (false, w) else act x w
  end.

Definition walks (op : nat -> ModuleManager -> option (bool * ModuleManager)) : Prop :=
  forall x w ok w', op x w = Some (ok, w') -> steps w w' /\ (ok = true -> flag x w' = Some t).

Lemma visit_loop_steps op l w ok w' : walks op -> visit_loop op l w = Some (ok, w') ->
  steps w w' /\ (ok = true -> forall name d, (name, d) ∈ l -> exists y, d = Some y /\ flag y w' = Some t).
Proof.
  intros Hop. revert w. induction l as [|[name [d|]] l IH]; intros w E; cbn in E.
  - injection E as <- <-. split; [done|]. by intros _ ? ? ?%not_elem_of_nil.
  - apply bind_Some in E as (m & Hm & E). destruct (Bool.eqb_spec (loaded_ m) t) as [Ht|Hf].
    + destruct (IH w E) as [Hs Hd]. split; [done|]. intros Hok n' d' [Heq|Hin]%elem_of_cons; [|by eapply Hd].
      injection Heq as -> ->. exists d. split; [done|]. apply (steps_flag _ _ _ Hs). unfold flag. by rewrite Hm, <- Ht.
    + apply bind_Some in E as ([ok1 w1] & E1 & E). destruct (Hop _ _ _ _ E1) as [Hs1 Hd1]. destruct ok1; cbn in E.
      * destruct (IH w1 E) as [Hs Hd]. split; [by etrans|]. intros Hok n' d' [Heq|Hin]%elem_of_cons; [|by eapply Hd].
        injection Heq as -> ->. exists d. split; [done|]. by apply (steps_flag _ _ _ Hs), Hd1.
      * injection E as <- <-. done.
  - injection E as <- <-. done.
Qed.

Lemma visit_steps n : walks (visit n).
Proof using Type*.
  induction n as [|n IH]; intros x w ok w' E; cbn in E; [injection E as <- <-; done|].
  apply bind_Some in E as (m & Hm & E). apply bind_Some in E as ([ok1 w1] & E1 & E).
  destruct (visit_loop_steps _ _ _ _ _ IH E1) as [Hs Hd]. destruct ok1; cbn in E; [|by injection E as <- <-].
  pose proof (steps_same_graph _ _ Hs) as Hg. destruct (proj2 (proj2 (proj2 Hg)) x m Hm) as (m1 & Hm1 & Eq).
  unfold act in E. rewrite Hm1 in E. cbn in E. destruct (Bool.eqb_spec (loaded_ m1) t) as [Ht|Hf].
  - injection E as <- <-. split; [done|]. intros _. unfold flag. by rewrite Hm1, <- Ht.
  - injection E as <- <-. assert (Hx : flag x w1 = Some (negb t)) by (unfold flag; rewrite Hm1; cbn; by destruct (loaded_ m1), t).
    split.
    + eapply rtc_r; [exact Hs|]. constructor; [done| |done]. intros y (m' & name & Hm' & Hsu). rewrite Hm1 in Hm'. injection Hm' as <-.
      rewrite (with_loaded_succs t _ _ Eq) in Hsu. destruct (Hd eq_refl name (Some y)) as (y' & [= <-] & Hy); [|done].
      rewrite walk_perm. by apply elem_of_map_to_list.
    + intros Hok. rewrite (acted_flag t x _ w1 _ _ Hx). by rewrite decide_True.
Qed.

(** It never runs out of modules. *)
Definition edges_ok (w : ModuleManager) : Prop :=
  forall x m, heap w !! x = Some m -> forall name d, succs t m !! name = Some d -> exists y, d = Some y /\ is_Some (heap w !! y).

Lemma edges_ok_steps w w' : steps w w' -> edges_ok w -> edges_ok w'.
Proof.
  intros Hs Hw x m' Hx name d Hd. apply steps_same_graph in Hs.
  destruct (same_graph_back _ _ _ _ Hs Hx) as (m & Hm & E). rewrite (with_loaded_succs t _ _ E) in Hd.
  destruct (Hw x m Hm name d Hd) as (y & -> & [my Hy]). exists y. split; [done|].
  destruct (proj2 (proj2 (proj2 Hs)) y my Hy) as (my' & ? & _). by exists my'.
Qed.

(** Every chain of modules from [x] has at most [n] of them. *)
Fixpoint shallow (w : ModuleManager) (n x : nat) : Prop :=
  match n with O => False | Datatypes.S n => forall y, edge t w x y -> shallow w n y end.

Lemma shallow_steps w w' n x : steps w w' -> shallow w n x -> shallow w' n x.
Proof.
  intros Hs%steps_same_graph. revert x; induction n as [|n IH]; intros x; cbn; [done|]. intros Hx y He. by apply IH, Hx, (same_graph_edge t w w').
Qed.

Lemma visit_total n x w : edges_ok w -> is_Some (heap w !! x) ->
  exists ok w', visit n x w = Some (ok, w') /\ (shallow w n x -> (forall y l, Do t y l = true) -> ok = true).
Proof using Type*.
  revert x w. induction n as [|n IH]; intros x w Hw [m Hm]; cbn; [by exists false, w|]. rewrite Hm. cbn.
  assert (Hl : forall l w1, steps w w1 -> (forall name d, (name, d) ∈ l -> succs t m !! name = Some d) ->
    exists ok w2, visit_loop (visit n) l w1 = Some (ok, w2) /\
      ((forall y, edge t w x y -> shallow w n y) -> (forall y l, Do t y l = true) -> ok = true)).
  { induction l as [|[name d] l IHl]; intros w1 Hs1 Hin; cbn; [by exists true, w1|].
    assert (Hd : succs t m !! name = Some d) by (apply Hin; set_solver).
    destruct (Hw x m Hm name d Hd) as (y & -> & [my Hy]).
    destruct (proj2 (proj2 (proj2 (steps_same_graph _ _ Hs1))) y my Hy) as (my' & Hy' & _). rewrite Hy'. cbn.
    destruct (Bool.eqb _ t); [apply IHl; [done|]; set_solver|].
    destruct (IH y w1) as (ok & w2 & E & Hok); [by eapply edges_ok_steps|by exists my'|]. rewrite E. cbn.
    pose proof (visit_steps n y w1 ok w2 E) as [Hs2 _].
    destruct ok; cbn.
    - apply IHl; [by etrans|]. set_solver.
    - exists false, w2. split; [done|]. intros Hsh HDo. apply Hok; [|done]. apply (shallow_steps w w1); [done|]. apply Hsh. by exists m, name. }
  destruct (Hl (walk (place x) _ (succs t m)) w) as (ok & w1 & E & Hok); [done| |].
  { intros name d. rewrite walk_perm. apply elem_of_map_to_list. }
  rewrite E. cbn. destruct ok; cbn.
  - destruct (visit_loop_steps _ _ _ _ _ (visit_steps n) E) as [Hs _].
    destruct (proj2 (proj2 (proj2 (steps_same_graph _ _ Hs))) x m Hm) as (m1 & Hm1 & _). unfold act. rewrite Hm1. cbn.
    destruct (Bool.eqb _ t); [by eexists _, _|]. eexists _, _. split; [done|]. by intros _ ->.
  - exists false, w1. split; [done|]. intros Hsh HDo. by apply Hok.
Qed.

Lemma each_steps op l w ok w' : walks op -> each op l w = Some (ok, w') ->
  steps w w' /\ (ok = true -> forall name x, (name, x) ∈ l -> flag x w' = Some t).
Proof.
  intros Hop. revert w. induction l as [|[name x] l IH]; intros w E; cbn in E; [injection E as <- <-; split; [done|by intros _ ? ? ?%not_elem_of_nil]|].
  apply bind_Some in E as ([ok1 w1] & E1 & E). destruct (Hop _ _ _ _ E1) as [Hs1 Hd1]. destruct ok1; cbn in E; [|by injection E as <- <-].
  destruct (IH w1 E) as [Hs Hd]. split; [by etrans|]. intros Hok n' x' [Heq|Hin]%elem_of_cons; [|by eapply Hd].
  injection Heq as -> ->. by apply (steps_flag _ _ _ Hs), Hd1.
Qed.

Lemma each_total n l w : edges_ok w -> (forall name x, (name, x) ∈ l -> is_Some (heap w !! x)) ->
  exists ok w', each (visit n) l w = Some (ok, w') /\
    ((forall name x, (name, x) ∈ l -> shallow w n x) -> (forall y l, Do t y l = true) -> ok = true).
Proof using Type*.
  revert w. induction l as [|[name x] l IH]; intros w Hw Hl; cbn; [by exists true, w|].
  destruct (visit_total n x w Hw) as (ok & w1 & E & Hok); [apply (Hl name); set_solver|]. rewrite E. cbn.
  pose proof (visit_steps n x w ok w1 E) as [Hs _]. destruct ok; cbn.
  - destruct (IH w1) as (ok & w2 & E2 & Hok2).
    + by eapply edges_ok_steps.
    + intros name' x' Hin. destruct (Hl name' x') as [m Hm]; [set_solver|].
      destruct (proj2 (proj2 (proj2 (steps_same_graph _ _ Hs))) x' m Hm) as (m' & ? & _). by exists m'.
    + exists ok, w2. split; [done|]. intros Hsh HDo. apply Hok2; [|done]. intros name' x' Hin. apply (shallow_steps w w1); [done|].
      apply (Hsh name'). set_solver.
  - exists false, w1. split; [done|]. intros Hsh HDo. apply Hok; [|done]. apply (Hsh name). set_solver.
Qed.

End Steps.
