(* ===== verification/ModuleInit.v ===== *)
(** * Initialisation of the modules

    What [ModuleManager::Init] makes of the registered creators: the objects,
    and the dependencies of the classes bound in both directions. *)

From stdpp Require Import strings gmap.
From S2P Require Import Prelude ModuleManager.

(** The modules are there, and the dependencies in [E], pairs of names, are
    bound in both directions. *)
Record bound (E : list (string * string)) (w : ModuleManager) : Prop := {
  bound_modules a x : modules_ w !! a = Some x <-> exists m, heap w !! x = Some m /\ name_ m = a;
  bound_depend x m d v : heap w !! x = Some m ->
    depend_modules_ m !! d = Some v <-> (name_ m, d) ∈ E /\ exists y, modules_ w !! d = Some y /\ v = Some y;
  bound_members x m d y : heap w !! x = Some m -> members_ m !! d = Some y <-> (name_ m, d) ∈ E /\ modules_ w !! d = Some y;
  bound_depended y m a v : heap w !! y = Some m ->
    be_depended_modules_ m !! a = Some v <-> (a, name_ m) ∈ E /\ exists x, modules_ w !! a = Some x /\ v = Some x;
}.

(** The classes of the modules that were made, by their places. *)
Definition made (K : list (string * list string)) (w : ModuleManager) : Prop :=
  forall x, (fun m => (name_ m, depends m)) <$> heap w !! x = K !! x.

Lemma modify_heap x f w y : heap (modify x f w) !! y = if decide (y = x) then f <$> heap w !! y else heap w !! y.
Proof.
  unfold modify. cbn [heap with_heap]. rewrite list_lookup_alter. case_decide as H1; case_decide as H2; try congruence.
Qed.

Lemma insert_pair {A} (M : gmap string A) (k : string) (u : A) (Q : string -> Prop) (R : string -> A -> Prop) :
  (forall d v, M !! d = Some v <-> Q d /\ R d v) -> (forall v, R k v <-> v = u) ->
  forall d v, <[k := u]> M !! d = Some v <-> (d = k \/ Q d) /\ R d v.
Proof.
  intros HM HR d v. destruct (decide (k = d)) as [<-|Hne].
  - rewrite lookup_insert_eq, HR. naive_solver.
  - rewrite lookup_insert_ne, HM by done. naive_solver.
Qed.

Lemma emplace_pair {A} (M : gmap string A) (k : string) (u : A) (Q : string -> Prop) (R : string -> A -> Prop) :
  (forall d v, M !! d = Some v <-> Q d /\ R d v) -> (forall v, R k v <-> v = u) ->
  match M !! k with Some _ => M | None => <[k := u]> M end = <[k := u]> M.
Proof.
  intros HM HR. destruct (M !! k) as [v|] eqn:E; [|done]. symmetry. apply insert_id.
  apply HM in E as HE. destruct HE as [_ HE]. apply HR in HE. by rewrite E, HE.
Qed.

(** One dependency more. *)
Lemma bind_one E w a x d y : bound E w -> modules_ w !! a = Some x -> modules_ w !! d = Some y ->
  bound ((a, d) :: E) (modify y (BeDepended a (Some x)) (modify x (bind_func d y) w)).
Proof.
  intros [Hm Hd Hb He] Ha Hy. set (w' := modify y _ _).
  assert (Hn : forall z m, heap w !! z = Some m -> exists m', heap w' !! z = Some m' /\ name_ m' = name_ m).
  { intros z m Hz. subst w'. rewrite !modify_heap, Hz. repeat case_decide; cbn; eauto. }
  assert (Hname : forall z m c, heap w !! z = Some m -> modules_ w !! c = Some z -> name_ m = c).
  { intros z m c Hz (m0 & E0 & <-)%Hm. congruence. }
  assert (Hplace : forall z m c z', heap w !! z = Some m -> modules_ w !! c = Some z' -> z <> z' -> name_ m <> c).
  { intros z m c z' Hz Hc Hne Hnm. assert (Hz' : modules_ w !! name_ m = Some z) by (apply Hm; eauto). congruence. }
  assert (Hh : forall z m', heap w' !! z = Some m' -> exists m, heap w !! z = Some m /\ name_ m' = name_ m /\
    depend_modules_ m' = (if decide (z = x) then <[d := Some y]> (depend_modules_ m) else depend_modules_ m) /\
    members_ m' = (if decide (z = x) then <[d := y]> (members_ m) else members_ m) /\
    be_depended_modules_ m' = (if decide (z = y) then <[a := Some x]> (be_depended_modules_ m) else be_depended_modules_ m)).
  { intros z m' Hz. subst w'. rewrite !modify_heap in Hz. destruct (heap w !! z) as [m|] eqn:E'; [|by repeat case_decide].
    assert (Hemp := emplace_pair (depend_modules_ m) d (Some y) _ _ (fun d' v => Hd z m d' v E')).
    exists m. split; [done|]. repeat case_decide; cbn in Hz; injection Hz as <-; split_and!; try done; apply Hemp; naive_solver. }
  change (modules_ w) with (modules_ w') in *. split.
  - intros a' z. rewrite Hm. split; intros (m & Hz & <-); [destruct (Hn z m Hz) as (m' & ? & <-); eauto|].
    destruct (Hh z m Hz) as (m' & ? & -> & _); eauto.
  - intros z m' d' v Hz. destruct (Hh z m' Hz) as (m & Hz0 & -> & -> & _). rewrite elem_of_cons. case_decide as Hzx.
    + subst z. rewrite (insert_pair _ d (Some y) _ _ (fun d' v => Hd x m d' v Hz0)) by naive_solver.
      pose proof (Hname x m a Hz0 Ha). naive_solver.
    + pose proof (Hplace z m a x Hz0 Ha Hzx). rewrite Hd by done. naive_solver.
  - intros z m' d' v Hz. destruct (Hh z m' Hz) as (m & Hz0 & -> & _ & -> & _). rewrite elem_of_cons. case_decide as Hzx.
    + subst z. rewrite (insert_pair _ d y _ (fun d' v => modules_ w' !! d' = Some v) (fun d' v => Hb x m d' v Hz0)) by naive_solver.
      pose proof (Hname x m a Hz0 Ha). naive_solver.
    + pose proof (Hplace z m a x Hz0 Ha Hzx). rewrite Hb by done. naive_solver.
  - intros z m' a' v Hz. destruct (Hh z m' Hz) as (m & Hz0 & -> & _ & _ & ->). rewrite elem_of_cons. case_decide as Hzy.
    + subst z. rewrite (insert_pair _ a (Some x) (fun a => (a, name_ m) ∈ E) _ (fun d' v => He y m d' v Hz0)) by naive_solver.
      pose proof (Hname y m d Hz0 Hy). naive_solver.
    + pose proof (Hplace z m d y Hz0 Hy Hzy). rewrite He by done. naive_solver.
Qed.

Lemma bound_ext E E' w : (forall p, p ∈ E <-> p ∈ E') -> bound E w -> bound E' w.
Proof. intros HE []. split; intros; rewrite <- ?HE; eauto. Qed.

(** What binding leaves alone. *)
Definition core (m : BaseModule) : string * list string * bool * bool := (name_ m, depends m, loaded_ m, manager_ m).

Definition kept (w w' : ModuleManager) : Prop :=
  modules_ w' = modules_ w /\ stopped_ w' = stopped_ w /\ log w' = log w /\ forall x, core <$> heap w' !! x = core <$> heap w !! x.

#[export] Instance kept_preorder : PreOrder kept.
Proof.
  split; [done|]. intros w1 w2 w3 (? & ? & ? & Hh) (? & ? & ? & Hh'). split_and!; congruence.
Qed.

Lemma kept_modify x f w : (forall m, core (f m) = core m) -> kept w (modify x f w).
Proof. intros Hf. split_and!; try done. intros y. rewrite modify_heap. case_decide; [|done]. destruct (heap w !! y); cbn; by rewrite ?Hf. Qed.

(** Only the dependencies of its class are bound. *)
Definition binds_ok (w : ModuleManager) : Prop :=
  forall x m d, heap w !! x = Some m -> is_Some (bind_funcs_ m !! d) -> d ∈ depends m.

Lemma binds_ok_modify x f w : (forall m, bind_funcs_ (f m) = bind_funcs_ m /\ depends (f m) = depends m) -> binds_ok w -> binds_ok (modify x f w).
Proof.
  intros Hf Hw y m d. rewrite modify_heap. case_decide; [|by apply Hw]. destruct (heap w !! y) as [m0|] eqn:E; cbn; [|done].
  intros [= <-]. destruct (Hf m0) as [-> ->]. by apply (Hw y).
Qed.

Lemma InitDepends_binds m d : is_Some (bind_funcs_ (InitDepends m) !! d) <-> d ∈ depends m \/ is_Some (bind_funcs_ m !! d).
Proof.
  cbn [InitDepends bind_funcs_]. generalize (bind_funcs_ m). induction (depends m) as [|d' ds IH]; intros bs; cbn [foldl].
  - split; [by right|]. intros [?%not_elem_of_nil|?]; done.
  - rewrite IH, lookup_insert_is_Some, elem_of_cons. destruct (decide (d' = d)); naive_solver.
Qed.

Lemma InitDepends_bound E w x : bound E w -> bound E (modify x InitDepends w).
Proof.
  intros [Hm Hd Hb He]. assert (Hh : forall z m', heap (modify x InitDepends w) !! z = Some m' -> exists m, heap w !! z = Some m /\
    name_ m' = name_ m /\ depend_modules_ m' = depend_modules_ m /\ members_ m' = members_ m /\ be_depended_modules_ m' = be_depended_modules_ m).
  { intros z m'. rewrite modify_heap. case_decide; [|by exists m']. destruct (heap w !! z) as [m|]; [|done]. intros [= <-]. by exists m. }
  split.
  - intros a z. change (modules_ (modify x InitDepends w)) with (modules_ w). rewrite Hm. split; intros (m & Hz & <-).
    + rewrite modify_heap, Hz. case_decide; cbn; eauto.
    + destruct (Hh z m Hz) as (m' & ? & -> & _); eauto.
  - intros z m' d v Hz. destruct (Hh z m' Hz) as (m & Hz0 & -> & -> & _). by apply (Hd z).
  - intros z m' d v Hz. destruct (Hh z m' Hz) as (m & Hz0 & -> & _ & -> & _). by apply (Hb z).
  - intros z m' d v Hz. destruct (Hh z m' Hz) as (m & Hz0 & -> & _ & _ & ->). by apply (He z).
Qed.

Lemma Bind_loop_spec a x l E w : bound E w -> modules_ w !! a = Some x -> binds_ok w ->
  let '(ok, w') := Bind_loop a x l w in
  kept w w' /\ binds_ok w' /\ (ok = true <-> forall d, d ∈ l.*1 -> is_Some (modules_ w !! d)) /\
  (ok = true -> bound ((pair a <$> l.*1) ++ E) w').
Proof.
  revert E w. induction l as [|[d []] l IH]; intros E w Hw Ha Hbo; cbn [Bind_loop].
  { split_and!; [done|done|split; [|done]; by intros _ ? ?%not_elem_of_nil|done]. }
  unfold GetModule. destruct (modules_ w !! d) as [y|] eqn:Hy.
  - set (w1 := modify y _ _). assert (Hk : kept w w1) by (etrans; apply kept_modify; done).
    assert (Hbo1 : binds_ok w1) by (by apply binds_ok_modify, binds_ok_modify).
    specialize (IH ((a, d) :: E) w1 (bind_one _ _ _ _ _ _ Hw Ha Hy) Ha Hbo1). destruct (Bind_loop a x l w1) as [ok w'].
    destruct IH as (Hk' & Hbo' & Hok & Hb). split_and!; [by etrans|done| |].
    + rewrite Hok. cbn. change (modules_ w1) with (modules_ w). setoid_rewrite elem_of_cons. naive_solver.
    + intros ->. eapply bound_ext; [|by apply Hb]. intros p. cbn. rewrite !elem_of_app, !elem_of_cons, elem_of_app. naive_solver.
  - split_and!; [done|done| |done]. split; [done|]. intros Hd. destruct (Hd d) as [? ?]; [cbn; set_solver|]. congruence.
Qed.

Section Init.

Context (walk : container -> forall A, gmap string A -> list (string * A)).
Context (walk_perm : forall c A (m : gmap string A), walk c A m ≡ₚ map_to_list m).

Lemma walk_in c A (m : gmap string A) k v : (k, v) ∈ walk c A m <-> m !! k = Some v.
Proof using walk_perm. by rewrite walk_perm, elem_of_map_to_list. Qed.

Lemma walk_fst c A (m : gmap string A) k : k ∈ (walk c A m).*1 <-> is_Some (m !! k).
Proof using walk_perm.
  rewrite list_elem_of_fmap. split.
  - intros ([k' v] & -> & Hin%walk_in). by exists v.
  - intros [v Hv]. exists (k, v). by rewrite walk_in.
Qed.

(** The dependencies of the classes of the modules [l]. *)
Definition declared (w : ModuleManager) (l : list (string * nat)) (a d : string) : Prop :=
  exists x m, (a, x) ∈ l /\ heap w !! x = Some m /\ d ∈ depends m.

Lemma kept_declared w w' l a d : kept w w' -> declared w' l a d <-> declared w l a d.
Proof.
  intros (_ & _ & _ & Hh). unfold declared. split; intros (x & m & Hin & Hx & Hd); specialize (Hh x); rewrite Hx in Hh; cbn in Hh.
  - destruct (heap w !! x) as [m'|] eqn:E; [|done]. injection Hh as _ Hd' _ _. exists x, m'. by rewrite <- Hd'.
  - destruct (heap w' !! x) as [m'|] eqn:E; [|done]. injection Hh as _ Hd' _ _. exists x, m'. by rewrite Hd'.
Qed.

Lemma BindDependModule_loop_spec l E w : bound E w -> binds_ok w -> (forall a x, (a, x) ∈ l -> modules_ w !! a = Some x) ->
  exists ok w', BindDependModule_loop walk l w = Some (ok, w') /\ kept w w' /\
    (ok = true <-> forall a d, declared w l a d -> is_Some (modules_ w !! d)) /\
    (ok = true -> exists E', bound E' w' /\ forall a d, (a, d) ∈ E' <-> (a, d) ∈ E \/ declared w l a d).
Proof using walk_perm.
  revert E w. induction l as [|[a x] l IH]; intros E w Hw Hbo Hl; cbn [BindDependModule_loop].
  { exists true, w. split_and!; [done|done| |].
    - split; [|done]. intros _ a d (? & ? & []%not_elem_of_nil & _).
    - intros _. exists E. split; [done|]. intros a d. split; [by left|]. intros [|(? & ? & []%not_elem_of_nil & _)]; done. }
  assert (Ha : modules_ w !! a = Some x) by (apply Hl; set_solver).
  pose proof Ha as Ha'. apply (bound_modules _ _ Hw) in Ha' as (m & Hm & Hname).
  set (w0 := modify x InitDepends w). assert (Hk0 : kept w w0) by by apply kept_modify.
  assert (Hm0 : heap w0 !! x = Some (InitDepends m)) by (subst w0; by rewrite modify_heap, decide_True, Hm).
  rewrite Hm0. cbn [mbind option_bind].
  assert (Hbo0 : binds_ok w0).
  { intros y my d. subst w0. rewrite modify_heap. case_decide as Hd; [|by apply Hbo]. subst y. rewrite Hm. cbn [fmap option_fmap option_map].
    intros [= <-] [?|?]%InitDepends_binds; [done|]. by apply (Hbo x m). }
  set (bl := walk (CBind x) _ _). assert (Hbl : forall d, d ∈ bl.*1 <-> d ∈ depends m).
  { intros d. subst bl. rewrite walk_fst, InitDepends_binds. split; [intros [?|?]; [done|by apply (Hbo x m)]|by left]. }
  pose proof (Bind_loop_spec a x bl E w0 (InitDepends_bound _ _ x Hw) Ha Hbo0) as HB.
  destruct (Bind_loop a x bl w0) as [ok1 w1]. destruct HB as (Hk1 & Hbo1 & Hok1 & Hb1).
  assert (Hk : kept w w1) by by etrans. change (modules_ w0) with (modules_ w) in Hok1.
  assert (Hdec : forall a' d, declared w ((a, x) :: l) a' d <-> a' = a /\ d ∈ bl.*1 \/ declared w l a' d).
  { intros a' d. unfold declared. setoid_rewrite elem_of_cons. rewrite Hbl. split.
    - intros (x' & m' & [[= -> ->]|Hin] & Hx' & Hd); [left; split; [done|]; congruence|right; by exists x', m'].
    - intros [[-> Hd]|(x' & m' & Hin & Hx' & Hd)]; [exists x, m; by auto|exists x', m'; by auto]. }
  destruct ok1; cbn [negb].
  - destruct (IH _ w1 (Hb1 eq_refl) Hbo1) as (ok & w' & -> & Hk' & Hok & Hb).
    { intros a' x' Hin. rewrite (proj1 Hk). apply Hl. set_solver. }
    exists ok, w'. split_and!; [done|by etrans| |].
    + rewrite Hok, (proj1 Hk). setoid_rewrite Hdec. setoid_rewrite (kept_declared w w1); [|done]. naive_solver.
    + intros Ho. destruct (Hb Ho) as (E' & HE' & Hin). exists E'. split; [done|]. intros a' d. rewrite Hin, Hdec, (kept_declared w w1) by done.
      rewrite elem_of_app, list_elem_of_fmap. naive_solver.
  - exists false, w1. split_and!; [done|done| |done]. split; [done|]. intros Hd. apply Hok1. intros d Hin. apply (Hd a), Hdec. by left.
Qed.

Context (DoInit : nat -> list event -> bool).

Definition made_module (k : string * list string) : BaseModule := with_manager (new_module (k.1) (k.2)).
Definition makes (k : string * list string) : string * CreatorFunc := (k.1, Makes (k.2)).

Lemma CreateModule_loop_spec l K w :
  heap w = made_module <$> K -> (forall a x, modules_ w !! a = Some x <-> K.*1 !! x = Some a) -> NoDup (K.*1 ++ l.*1) ->
  exists ok w', CreateModule_loop DoInit l w = Some (ok, w') /\ stopped_ w' = stopped_ w /\
    (ok = true -> exists K', l = makes <$> K' /\ heap w' = made_module <$> K ++ K' /\
       forall a x, modules_ w' !! a = Some x <-> (K ++ K').*1 !! x = Some a) /\
    ((forall a f, (a, f) ∈ l -> exists ds, f = Makes ds) -> (forall x l, DoInit x l = true) -> ok = true).
Proof.
  revert K w. induction l as [|[a f] l IH]; intros K w Hh Hm Hnd; cbn [CreateModule_loop].
  { exists true, w. split_and!; [done|done| |done]. intros _. exists []. by rewrite app_nil_r. }
  destruct f as [| |ds]; [exists false, w; split_and!; [done..|]; intros Hf _; destruct (Hf a _ ltac:(by left)); done..|].
  unfold BaseModule_Init. cbn [heap with_heap]. rewrite list_lookup_middle by done. cbn [mbind option_bind].
  set (w0 := with_heap _ w). set (w1 := modify _ with_manager w0). set (ok1 := DoInit _ _). set (w2 := record _ w1).
  assert (Hh2 : heap w2 = made_module <$> K ++ [(a, ds)]).
  { subst w2 w1 w0. unfold modify. cbn [heap with_heap record]. rewrite fmap_app. rewrite <- Hh.
    rewrite alter_app_r_alt by done. by rewrite Nat.sub_diag. }
  assert (Hlen : length (heap w) = length K) by by rewrite Hh, length_fmap.
  assert (Ha : modules_ w !! a = None).
  { destruct (modules_ w !! a) as [x|] eqn:E; [|done]. apply Hm, list_elem_of_lookup_2 in E. apply NoDup_app in Hnd as (_ & Hd & _).
    destruct (Hd a E). by left. }
  destruct ok1 eqn:Hok1; cbn [negb].
  - set (w3 := emplace a _ w2). destruct (IH (K ++ [(a, ds)]) w3) as (ok & w' & -> & Hst & Hok & Hall).
    + done.
    + intros a' x. subst w3. cbn [emplace modules_]. change (modules_ w2) with (modules_ w). rewrite Ha, fmap_app, Hlen. change ([(a, ds)].*1) with [a].
      destruct (decide (a' = a)) as [->|Hne].
      * rewrite lookup_insert_eq. split; [intros [= <-]; by rewrite list_lookup_middle by by rewrite length_fmap|].
        intros [E|[Hle E]]%lookup_app_Some; [apply Hm in E; congruence|].
        apply list_lookup_singleton_Some in E as [E _]. rewrite length_fmap in *. f_equal. lia.
      * rewrite lookup_insert_ne, Hm by done. split; [intros E; by apply lookup_app_l_Some|].
        intros [E|[_ E]]%lookup_app_Some; [done|]. apply list_lookup_singleton_Some in E as [_ E]. congruence.
    + rewrite fmap_app, <- app_assoc. done.
    + exists ok, w'. split_and!; [done|done| |].
      * intros Ho. destruct (Hok Ho) as (K' & -> & Hh' & Hm'). exists ((a, ds) :: K'). rewrite <- app_assoc in *. done.
      * intros Hf HD. apply Hall; [|done]. intros a' f' Hin. apply (Hf a'). by right.
  - exists false, w2. split_and!; [done|done|done|]. intros _ HD. subst ok1. by rewrite HD in Hok1.
Qed.

End Init.

(** ** What holds when all is bound *)

Record ready (w : ModuleManager) : Prop := {
  ready_modules x : is_Some (heap w !! x) <-> exists a, modules_ w !! a = Some x;
  ready_back x y : edge false w y x <-> edge true w x y;
  ready_edges t : edges_ok t w;
}.

Lemma ready_same_graph w w' : same_graph w w' -> ready w -> ready w'.
Proof.
  intros Hg [Hm Hb He]. pose proof Hg as (Hmod & _ & Hlen & Hh). split.
  - intros x. rewrite Hmod, <- Hm. rewrite <- !not_eq_None_Some, !lookup_ge_None. by rewrite Hlen.
  - intros x y. rewrite !(same_graph_edge _ w w') by done. apply Hb.
  - intros t x m' Hx name d Hd. destruct (same_graph_back _ _ _ _ Hg Hx) as (m & Hx' & E). rewrite (with_loaded_succs t _ _ E) in Hd.
    destruct (He t x m Hx' name d Hd) as (y & -> & [my Hy]). exists y. split; [done|]. destruct (Hh y my Hy) as (my' & ? & _). by exists my'.
Qed.

(** The graph that the classes declare. *)
Definition linked (creators : gmap string CreatorFunc) (w : ModuleManager) : Prop :=
  stopped_ w = true /\ (forall x, flag x w <> Some true) /\ ready w /\
  (forall a, is_Some (modules_ w !! a) <-> is_Some (creators !! a)) /\
  forall x y, edge true w x y <-> exists a d ds, modules_ w !! a = Some x /\ modules_ w !! d = Some y /\ creators !! a = Some (Makes ds) /\ d ∈ ds.

Definition well_declared (creators : gmap string CreatorFunc) : Prop :=
  forall a f, creators !! a = Some f -> exists ds, f = Makes ds /\ forall d, d ∈ ds -> is_Some (creators !! d).

(** All the dependencies of the modules, when they are bound. *)
Lemma bound_edges E w x y : bound E w -> edge true w x y <-> exists a d, (a, d) ∈ E /\ modules_ w !! a = Some x /\ modules_ w !! d = Some y.
Proof.
  intros Hb. split.
  - intros (m & d & Hx & Hd). apply (bound_depend _ _ Hb x m d _ Hx) in Hd as (HE & y' & Hy & [= <-]).
    exists (name_ m), d. split_and!; [done| |done]. apply (bound_modules _ _ Hb). eauto.
  - intros (a & d & HE & Hx & Hy). apply (bound_modules _ _ Hb) in Hx as (m & Hx & <-). exists m, d. split; [done|].
    apply (bound_depend _ _ Hb x m d _ Hx). eauto.
Qed.

Lemma bound_back E w x y : bound E w -> edge false w y x <-> exists a d, (a, d) ∈ E /\ modules_ w !! a = Some x /\ modules_ w !! d = Some y.
Proof.
  intros Hb. split.
  - intros (m & a & Hy & Hd). apply (bound_depended _ _ Hb y m a _ Hy) in Hd as (HE & x' & Hx & [= <-]).
    exists a, (name_ m). split_and!; [done|done|]. apply (bound_modules _ _ Hb). eauto.
  - intros (a & d & HE & Hx & Hy). apply (bound_modules _ _ Hb) in Hy as (m & Hy & <-). exists m, a. split; [done|].
    apply (bound_depended _ _ Hb y m a _ Hy). eauto.
Qed.

Lemma bound_ready E w : bound E w -> ready w.
Proof.
  intros Hb. split.
  - intros x. split.
    + intros [m Hx]. exists (name_ m). apply (bound_modules _ _ Hb). eauto.
    + intros [a Hx]. apply (bound_modules _ _ Hb) in Hx as (m & Hx & _). by exists m.
  - intros x y. by rewrite (bound_edges E w x y Hb), (bound_back E w x y Hb).
  - intros t x m Hx name d Hd. destruct t; cbn in Hd.
    + apply (bound_depend _ _ Hb x m name _ Hx) in Hd as (_ & y & Hy & ->). exists y. split; [done|].
      apply (bound_modules _ _ Hb) in Hy as (m' & Hy & _). by exists m'.
    + apply (bound_depended _ _ Hb x m name _ Hx) in Hd as (_ & y & Hy & ->). exists y. split; [done|].
      apply (bound_modules _ _ Hb) in Hy as (m' & Hy & _). by exists m'.
Qed.

(** The state when the modules have been made for [K], and nothing is bound. *)
Definition created (K : list (string * list string)) (w : ModuleManager) : Prop :=
  heap w = made_module <$> K /\ forall a x, modules_ w !! a = Some x <-> K.*1 !! x = Some a.

Section Created.

Context (K : list (string * list string)) (w : ModuleManager) (HK : created K w).

Lemma created_object x m : heap w !! x = Some m <-> exists a ds, K !! x = Some (a, ds) /\ m = made_module (a, ds).
Proof using HK.
  rewrite (proj1 HK), list_lookup_fmap. destruct (K !! x) as [[a ds]|]; cbn.
  - split; [intros [= <-]; eauto|]. by intros (a' & ds' & [= <- <-] & ->).
  - split; [done|]. by intros (a' & ds' & ? & _).
Qed.

Lemma created_place a x : modules_ w !! a = Some x <-> exists ds, K !! x = Some (a, ds).
Proof using HK.
  rewrite (proj2 HK), list_lookup_fmap. destruct (K !! x) as [[a' ds]|]; cbn.
  - split; [intros [= ->]; eauto|]. by intros (ds' & [= -> _]).
  - split; [done|]. by intros (ds' & ?).
Qed.

Lemma created_name a : is_Some (modules_ w !! a) <-> exists ds, (a, ds) ∈ K.
Proof using HK.
  split; [intros [x (ds & Hx)%created_place]; exists ds; by eapply list_elem_of_lookup_2|].
  intros (ds & Hin). apply list_elem_of_lookup_1 in Hin as [x Hx]. exists x. apply created_place. eauto.
Qed.

Lemma created_bound : bound [] w /\ binds_ok w.
Proof using HK.
  split; [split|].
  - intros a x. rewrite created_place. split; [intros (ds & Hx); exists (made_module (a, ds)); split; [apply created_object; eauto|done]|].
    intros (m & Hx & <-). apply created_object in Hx as (a & ds & Hx & ->). eauto.
  - intros x m d v (a & ds & Hx & ->)%created_object. cbn. rewrite lookup_empty. split; [done|]. by intros [[]%not_elem_of_nil _].
  - intros x m d v (a & ds & Hx & ->)%created_object. cbn. rewrite lookup_empty. split; [done|]. by intros [[]%not_elem_of_nil _].
  - intros x m d v (a & ds & Hx & ->)%created_object. cbn. rewrite lookup_empty. split; [done|]. by intros [[]%not_elem_of_nil _].
  - intros x m d (a & ds & Hx & ->)%created_object. cbn. rewrite lookup_empty. by intros [].
Qed.

Lemma created_declared l a d : (forall a x, (a, x) ∈ l <-> modules_ w !! a = Some x) ->
  declared w l a d <-> exists ds, (a, ds) ∈ K /\ d ∈ ds.
Proof using HK.
  intros Hl. unfold declared. split.
  - intros (x & m & Hin & (a' & ds' & Hx' & ->)%created_object & Hd). apply Hl, created_place in Hin as (ds & Hx). rewrite Hx in Hx'.
    injection Hx' as <- <-. exists ds. split; [by eapply list_elem_of_lookup_2|done].
  - intros (ds & Hin & Hd). apply list_elem_of_lookup_1 in Hin as [x Hx]. exists x, (made_module (a, ds)).
    rewrite Hl, created_place, created_object. eauto 10.
Qed.

Lemma created_kept_flag w' x : kept w w' -> flag x w' <> Some true.
Proof using HK.
  intros (_ & _ & _ & Hh) Hx. specialize (Hh x). unfold flag in Hx. destruct (heap w' !! x) as [m'|]; [|done].
  destruct (heap w !! x) as [m|] eqn:E; [|done]. apply created_object in E as (a & ds & _ & ->). injection Hh as _ _ Hf _. cbn in Hx. congruence.
Qed.

End Created.

Section Initialised.

Context (DoInit : nat -> list event -> bool).
Context (walk : container -> forall A, gmap string A -> list (string * A)).
Context (walk_perm : forall c A (m : gmap string A), walk c A m ≡ₚ map_to_list m).

Lemma CreateModule_spec creators : let w := with_creators creators ModuleManager_new in
  exists ok w1, CreateModule DoInit walk w = Some (ok, w1) /\ stopped_ w1 = true /\
    (ok = true -> exists K, created K w1 /\ forall a f, creators !! a = Some f <-> exists ds, (a, ds) ∈ K /\ f = Makes ds) /\
    ((forall a f, creators !! a = Some f -> exists ds, f = Makes ds) -> (forall x l, DoInit x l = true) -> ok = true).
Proof using walk_perm.
  intros w. unfold CreateModule. change (module_creator_funcs_ w) with creators. set (l := walk CCreators _ creators).
  assert (Hl : forall a f, (a, f) ∈ l <-> creators !! a = Some f) by (intros; by apply walk_in).
  destruct (CreateModule_loop_spec DoInit l [] w) as (ok & w1 & -> & Hst & Hok & Hall).
  { done. }
  { intros a x. cbn. split; [by rewrite lookup_empty|done]. }
  { subst l. cbn. rewrite walk_perm. apply NoDup_fst_map_to_list. }
  exists ok, w1. split_and!; [done|done| |].
  - intros Ho. destruct (Hok Ho) as (K & El & Hh & Hm). exists K. split; [by split|]. intros a f. rewrite <- Hl, El, list_elem_of_fmap. split.
    + intros ([a' ds] & [= -> ->] & Hin). eauto.
    + intros (ds & Hin & ->). by exists (a, ds).
  - intros Hf HD. apply Hall; [|done]. intros a f Hin%Hl. eauto.
Qed.

Lemma init_links creators :
  exists ok w, Init DoInit walk creators ModuleManager_new = Some (ok, w) /\ stopped_ w = true /\
    (ok = true -> well_declared creators /\ linked creators w) /\
    (well_declared creators -> (forall x l, DoInit x l = true) -> ok = true).
Proof using walk_perm.
  unfold Init. destruct (CreateModule_spec creators) as (ok & w1 & -> & Hst & Hok & Hall).
  cbn [mbind option_bind]. destruct ok; cbn [negb].
  2: { exists false, w1. split_and!; [done..|]. intros Hwd HD. apply Hall; [|done]. intros a f Hin. destruct (Hwd a f Hin) as (ds & -> & _). eauto. }
  destruct (Hok eq_refl) as (K & HK & Hcr). destruct (created_bound K w1 HK) as [Hb1 Hbo].
  unfold BindDependModule. set (lm := walk CModules _ _). assert (Hlm : forall a x, (a, x) ∈ lm <-> modules_ w1 !! a = Some x) by (intros; by apply walk_in).
  destruct (BindDependModule_loop_spec walk walk_perm lm [] w1 Hb1 Hbo) as (ok & w2 & -> & Hk & Hok2 & Hb); [by intros a x ?%Hlm|].
  assert (Hdec : forall a d, declared w1 lm a d <-> exists ds, creators !! a = Some (Makes ds) /\ d ∈ ds).
  { intros a d. rewrite (created_declared K w1 HK) by done. setoid_rewrite Hcr. split; [intros (ds & ? & ?)|intros (ds & (? & ? & [= <-]) & ?)]; eauto. }
  assert (Hname : forall a, is_Some (modules_ w1 !! a) <-> is_Some (creators !! a)).
  { intros a. rewrite (created_name K w1 HK). split; [intros (ds & ?); exists (Makes ds); apply Hcr; eauto|]. intros [f (ds & ? & _)%Hcr]. eauto. }
  exists ok, w2. split_and!; [done|by rewrite (proj1 (proj2 Hk)), Hst| |].
  - intros ->. destruct (Hb eq_refl) as (E' & HE' & Hin). split; [|split_and!].
    + intros a f Hf. pose proof Hf as (ds & _ & ->)%Hcr. exists ds. split; [done|]. intros d Hd. apply Hname, (proj1 Hok2 eq_refl a), Hdec. eauto.
    + by rewrite (proj1 (proj2 Hk)), Hst.
    + intros x. by apply (created_kept_flag K w1).
    + by apply (bound_ready E').
    + intros a. by rewrite (proj1 Hk).
    + intros x y. rewrite (bound_edges E') by done. setoid_rewrite Hin. setoid_rewrite Hdec. split.
      * intros (a & d & [[]%not_elem_of_nil|(ds & Hc & Hd)] & Hx & Hy). by exists a, d, ds.
      * intros (a & d & ds & Hx & Hy & Hc & Hd). exists a, d. split; [right; by exists ds|done].
  - intros Hwd HD. apply Hok2. intros a d (ds & Hc & Hd)%Hdec. destruct (Hwd a _ Hc) as (ds' & [= <-] & Hds). by apply Hname, Hds.
Qed.


End Initialised.
