(* ===== verification/ModuleLife.v ===== *)
(** * The life of the modules

    Starting and stopping in every state that can be reached, circular
    dependencies, failures, and what is left when the manager is destroyed. *)

From stdpp Require Import strings gmap.
From S2P Require Import Prelude ModuleManager ModuleInit.

(** ** Starting and stopping *)

Section Walks.

Context (DoLoad DoUnload : nat -> list event -> bool).
Context (walk : container -> forall A, gmap string A -> list (string * A)).

Definition code (t : bool) : nat -> list event -> bool := if t then DoLoad else DoUnload.

Lemma Load_visit n x w : Load_at DoLoad walk n x w = visit code true walk n x w.
Proof.
  assert (Hact : forall x w, BaseModule_Load DoLoad x w = act code true x w).
  { intros y w'. unfold BaseModule_Load, act, acted. destruct (heap w' !! y) as [m|]; cbn; [|done]. destruct (loaded_ m); cbn; [done|].
    by destruct (DoLoad y (log w')). }
  revert x w. induction n as [|n IH]; intros x w; cbn; [done|]. destruct (heap w !! x) as [m|]; cbn; [|done].
  assert (Hl : forall l w, Load_loop (Load_at DoLoad walk n) l w = visit_loop true (visit code true walk n) l w).
  { induction l as [|[name [d|]] l IHl]; intros w'; cbn; [done| |done]. destruct (heap w' !! d) as [md|]; cbn; [|done].
    rewrite IHl, IH. destruct (loaded_ md); cbn; [done|]. destruct (visit _ _ _ _ _ _) as [[[] w'']|]; cbn; [apply IHl|done|done]. }
  rewrite Hl. destruct (visit_loop _ _ _ _) as [[[] w']|]; cbn; [apply Hact|done|done].
Qed.

Lemma Unload_visit n x w : Unload_at DoUnload walk n x w = visit code false walk n x w.
Proof.
  assert (Hact : forall x w, BaseModule_Unload DoUnload x w = act code false x w).
  { intros y w'. unfold BaseModule_Unload, act, acted. destruct (heap w' !! y) as [m|]; cbn; [|done]. destruct (loaded_ m); cbn; [|done].
    by destruct (DoUnload y (log w')). }
  revert x w. induction n as [|n IH]; intros x w; cbn; [done|]. destruct (heap w !! x) as [m|]; cbn; [|done].
  assert (Hl : forall l w, Unload_loop (Unload_at DoUnload walk n) l w = visit_loop false (visit code false walk n) l w).
  { induction l as [|[name [d|]] l IHl]; intros w'; cbn; [done| |done]. destruct (heap w' !! d) as [md|]; cbn; [|done].
    rewrite IHl, IH. destruct (loaded_ md); cbn; [|done]. destruct (visit _ _ _ _ _ _) as [[[] w'']|]; cbn; [apply IHl|done|done]. }
  rewrite Hl. destruct (visit_loop _ _ _ _) as [[[] w']|]; cbn; [apply Hact|done|done].
Qed.

Lemma each_ext f g l w : (forall x w, f x w = g x w) -> each f l w = each g l w.
Proof.
  intros Hfg. revert w. induction l as [|[name x] l IH]; intros w; cbn; [done|]. rewrite Hfg. destruct (g x w) as [[[] w']|]; cbn; [apply IH|done|done].
Qed.

(** Both directions at once: [switch true] is the body of [Start] and
    [switch false] that of [Stop]. *)
Definition switch (t : bool) (w : ModuleManager) : option (bool * ModuleManager) :=
  if Bool.eqb (stopped_ w) (negb t) then Some (true, w)
  else
    '(ok, w) ← each (visit code t walk MaxDepth) (walk CModules _ (modules_ w)) w;
    if negb ok then Some (false, w) else Some (true, with_stopped (negb t) w).

Lemma Start_switch w : Start DoLoad walk w = switch true w.
Proof.
  unfold Start, switch. assert (E : forall l, each (Load DoLoad walk) l w = each (visit code true walk MaxDepth) l w).
  { intros l. apply each_ext. intros x w'. unfold Load. apply Load_visit. }
  rewrite E. destruct (stopped_ w); reflexivity.
Qed.

Lemma Stop_switch w : Stop DoUnload walk w = switch false w.
Proof.
  unfold Stop, switch. assert (E : forall l, each (Unload DoUnload walk) l w = each (visit code false walk MaxDepth) l w).
  { intros l. apply each_ext. intros x w'. unfold Unload. apply Unload_visit. }
  rewrite E. destruct (stopped_ w); reflexivity.
Qed.

Context (walk_perm : forall c A (m : gmap string A), walk c A m ≡ₚ map_to_list m).

Notation steps t := (rtc (step code t)).

Lemma with_stopped_flag b w x : flag x (with_stopped b w) = flag x w.
Proof. done. Qed.

Lemma ready_with_stopped b w : ready w -> ready (with_stopped b w).
Proof. intros [Hm Hb He]. by split. Qed.

Lemma switch_spec t w : ready w -> exists ok w1 w', switch t w = Some (ok, w') /\ steps t w w1 /\
  w' = (if ok then with_stopped (negb t) w1 else w1) /\
  (stopped_ w = negb t -> ok = true /\ w1 = w) /\
  (stopped_ w = t -> ok = true -> forall x, is_Some (heap w !! x) -> flag x w' = Some t) /\
  ((forall x, is_Some (heap w !! x) -> shallow t w MaxDepth x) -> (forall x l, code t x l = true) -> ok = true).
Proof using walk_perm.
  intros [Hm Hb He]. unfold switch. destruct (Bool.eqb_spec (stopped_ w) (negb t)) as [Hst|Hst].
  { exists true, w, w. split_and!; try done; [destruct w; cbn in *; by subst|]. intros E. rewrite Hst in E. by destruct t. }
  destruct (each_total code t walk walk_perm MaxDepth (walk CModules _ (modules_ w)) w (He t)) as (ok & w1 & E & Hok).
  { intros name x Hin%walk_in; [|done]. apply Hm. eauto. }
  rewrite E. cbn [mbind option_bind]. destruct (each_steps code t _ _ _ _ _ (visit_steps code t walk walk_perm MaxDepth) E) as [Hs Hd].
  exists ok, w1, (if ok then with_stopped (negb t) w1 else w1). split_and!; [by destruct ok|done|done|by intros ?%Hst| |].
  - intros _ -> x [a Hx]%Hm. rewrite with_stopped_flag. apply (Hd eq_refl a). by apply walk_in.
  - intros Hsh HD. apply Hok; [|done]. intros name x Hin%walk_in; [|done]. apply Hsh, Hm. eauto.
Qed.

End Walks.

(** ** The manager in use *)

(** A loaded module's dependencies are loaded. *)
Definition closed (w : ModuleManager) : Prop := forall x y, edge true w x y -> flag x w = Some true -> flag y w = Some true.

Lemma flag_total x w : is_Some (heap w !! x) <-> exists b, flag x w = Some b.
Proof. unfold flag. destruct (heap w !! x) as [m|]; cbn; split; [eauto|eauto|by intros []|by intros []]. Qed.

Lemma closed_back w : ready w -> closed w <-> forall x y, edge false w x y -> flag x w = Some false -> flag y w = Some false.
Proof.
  intros Hw. assert (Htot : forall t x y, edge t w x y -> (exists b, flag x w = Some b) /\ exists b, flag y w = Some b).
  { intros t x y (m & name & Hx & Hs). rewrite <- !flag_total. destruct (ready_edges w Hw t x m Hx name _ Hs) as (? & [= <-] & Hy). by split. }
  split; intros Hc x y He Hx.
  - destruct (Htot _ _ _ He) as [_ [[] Hy]]; [|done]. apply (ready_back w Hw) in He. rewrite (Hc y x He Hy) in Hx. done.
  - destruct (Htot _ _ _ He) as [_ [[] Hy]]; [done|]. apply (ready_back w Hw) in He. rewrite (Hc y x He Hy) in Hx. done.
Qed.

Section Manager.

Context (DoInit DoLoad DoUnload : nat -> list event -> bool).
Context (walk : container -> forall A, gmap string A -> list (string * A)).
Context (walk_perm : forall c A (m : gmap string A), walk c A m ≡ₚ map_to_list m).
Context (creators : gmap string CreatorFunc).

Notation Start := (Start DoLoad walk).
Notation Stop := (Stop DoUnload walk).
Notation code := (code DoLoad DoUnload).
Notation steps t := (rtc (step code t)).

(** [Init] that succeeded, and then any calls of [Start] and [Stop]. *)
Inductive reachable : ModuleManager -> Prop :=
| reach_init w : Init DoInit walk creators ModuleManager_new = Some (true, w) -> reachable w
| reach_start w ok w' : reachable w -> Start w = Some (ok, w') -> reachable w'
| reach_stop w ok w' : reachable w -> Stop w = Some (ok, w') -> reachable w'.

Lemma steps_keep_closed t w w' : steps t w w' -> ready w -> closed w -> closed w'.
Proof using Type.
  intros Hs Hw Hc. destruct t.
  - unfold closed. by apply (steps_closed code true w).
  - apply closed_back; [by eapply ready_same_graph; [eapply steps_same_graph|]|]. apply (steps_closed code false w w' Hs). by apply closed_back.
Qed.

Lemma switch_ready t w ok w' : ready w -> closed w -> switch DoLoad DoUnload walk t w = Some (ok, w') ->
  ready w' /\ closed w' /\ modules_ w' = modules_ w /\ forall u x y, edge u w' x y <-> edge u w x y.
Proof using walk_perm.
  intros Hw Hc E. destruct (switch_spec DoLoad DoUnload walk walk_perm t w Hw) as (ok' & w1 & w'' & E' & Hs & Hw' & _).
  rewrite E in E'. injection E' as <- <-. pose proof (steps_same_graph _ _ _ _ Hs) as Hg.
  pose proof (ready_same_graph _ _ Hg Hw). pose proof (steps_keep_closed _ _ _ Hs Hw Hc).
  assert (He : forall u x y, edge u w1 x y <-> edge u w x y) by (intros; by apply same_graph_edge).
  destruct Hg as [Hm _]. destruct ok; subst w'; [|done]. split_and!; try done. by apply ready_with_stopped.
Qed.

Lemma life_inv w : reachable w -> ready w /\ closed w /\ (forall a, is_Some (modules_ w !! a) <-> is_Some (creators !! a)) /\
  forall x y, edge true w x y <-> exists a d ds, modules_ w !! a = Some x /\ modules_ w !! d = Some y /\ creators !! a = Some (Makes ds) /\ d ∈ ds.
Proof using walk_perm.
  assert (Hsw : forall t w ok w', ready w /\ closed w /\ (forall a, is_Some (modules_ w !! a) <-> is_Some (creators !! a)) /\
    (forall x y, edge true w x y <-> exists a d ds, modules_ w !! a = Some x /\ modules_ w !! d = Some y /\ creators !! a = Some (Makes ds) /\ d ∈ ds) ->
    switch DoLoad DoUnload walk t w = Some (ok, w') -> ready w' /\ closed w' /\ (forall a, is_Some (modules_ w' !! a) <-> is_Some (creators !! a)) /\
    forall x y, edge true w' x y <-> exists a d ds, modules_ w' !! a = Some x /\ modules_ w' !! d = Some y /\ creators !! a = Some (Makes ds) /\ d ∈ ds).
  { intros t w' ok w'' (Hr & Hc & Hn & He) E. destruct (switch_ready t w' ok w'' Hr Hc E) as (Hr' & Hc' & Hm & He'). split_and!; try done.
    - by rewrite Hm.
    - intros x y. by rewrite He', He, Hm. }
  induction 1 as [w E|w ok w' _ IH E|w ok w' _ IH E].
  - destruct (init_links DoInit walk walk_perm creators) as (ok & w1 & E1 & _ & Hok & _). rewrite E in E1. injection E1 as <- <-.
    destruct (Hok eq_refl) as (_ & _ & Hf & Hr & Hn & He). split_and!; try done. intros x y _ Hx. by destruct (Hf x).
  - rewrite (Start_switch DoLoad DoUnload) in E. by apply (Hsw true w ok w').
  - rewrite (Stop_switch DoLoad DoUnload) in E. by apply (Hsw false w ok w').
Qed.

(** The graph is the one that [Init] made. *)
Lemma reachable_edges w : reachable w -> exists w0, Init DoInit walk creators ModuleManager_new = Some (true, w0) /\
  forall t x y, edge t w x y <-> edge t w0 x y.
Proof using walk_perm.
  assert (Hsw : forall t w ok w' w0, reachable w -> (forall t x y, edge t w x y <-> edge t w0 x y) ->
    switch DoLoad DoUnload walk t w = Some (ok, w') -> forall t x y, edge t w' x y <-> edge t w0 x y).
  { intros t w' ok w'' w0 Hr He E u x y. destruct (life_inv w' Hr) as (Hw & Hc & _).
    destruct (switch_ready t w' ok w'' Hw Hc E) as (_ & _ & _ & He'). by rewrite He', He. }
  induction 1 as [w E|w ok w' Hr (w0 & E0 & He) E|w ok w' Hr (w0 & E0 & He) E].
  - by exists w.
  - rewrite (Start_switch DoLoad DoUnload) in E. exists w0. split; [done|]. by apply (Hsw true w ok).
  - rewrite (Stop_switch DoLoad DoUnload) in E. exists w0. split; [done|]. by apply (Hsw false w ok).
Qed.

(** What a run of the body of [Start] or [Stop] does. *)
Lemma switch_run t w : reachable w -> stopped_ w = t -> exists ok w', switch DoLoad DoUnload walk t w = Some (ok, w') /\
  (ok = true -> stopped_ w' = negb t /\ forall x, is_Some (heap w' !! x) -> flag x w' = Some t) /\
  (ok = false -> stopped_ w' = t) /\
  ((forall x, is_Some (heap w !! x) -> shallow t w MaxDepth x) -> (forall x l, code t x l = true) -> ok = true) /\
  exists tr, log w' = log w ++ tr /\ ordered t w tr /\ forall x, flag x w' = if decide (ev t x true ∈ tr) then Some t else flag x w.
Proof using walk_perm.
  intros Hr Hst. destruct (life_inv w Hr) as (Hw & _). destruct (switch_spec DoLoad DoUnload walk walk_perm t w Hw) as (ok & w1 & w' & E & Hs & Hw' & _ & Hall & Hsuc).
  pose proof (steps_same_graph _ _ _ _ Hs) as (_ & Hst1 & Hlen & _). exists ok, w'. split_and!; [done| | |done|].
  - intros ->. split; [by subst w'|]. intros x Hx. apply Hall; [done..|]. apply lookup_lt_is_Some. rewrite <- Hlen.
    apply lookup_lt_is_Some. by subst w'.
  - intros ->. subst w'. by rewrite Hst1.
  - destruct (steps_log _ _ _ _ Hs) as (tr & Hl & Ho & Hf). exists tr. destruct ok; subst w'; done.
Qed.

(** C14: in every state that calls of [Start] and [Stop] lead to, whatever the
    modules answer and in whatever order the tables are walked, a loaded
    module's dependencies are loaded; and each run asks a module to load only
    when its dependencies are loaded, and to unload only when no module that
    depends on it is loaded. *)
Theorem dependencies_outlive_dependents w :
  reachable w ->
  closed w /\
  (forall ok w', Start w = Some (ok, w') -> exists tr, log w' = log w ++ tr /\ ordered true w tr) /\
  (forall ok w', Stop w = Some (ok, w') -> exists tr, log w' = log w ++ tr /\ ordered false w tr).
Proof using walk_perm.
  intros Hr. pose proof (life_inv w Hr) as (Hw & Hc & _).
  assert (Hrun : forall t ok w', switch DoLoad DoUnload walk t w = Some (ok, w') -> exists tr, log w' = log w ++ tr /\ ordered t w tr).
  { intros t ok w' E. destruct (decide (stopped_ w = t)) as [Hst|Hst].
    - destruct (switch_run t w Hr Hst) as (ok' & w'' & E' & _ & _ & _ & tr & Hl & Ho & _). rewrite E in E'. injection E' as <- <-. eauto.
    - unfold switch in E. rewrite (proj2 (Bool.eqb_true_iff _ _)) in E by (by destruct (stopped_ w), t). injection E as <- <-.
      exists []. split; [by rewrite app_nil_r|]. intros [|? ?] ? ? [=]. }
  split_and!; [done| |].
  - intros ok w' E. rewrite (Start_switch DoLoad DoUnload) in E. eauto.
  - intros ok w' E. rewrite (Stop_switch DoLoad DoUnload) in E. eauto.
Qed.

(** C16: [Start] always returns; when it succeeds every module is loaded, each
    one that was not by one successful call after those of its dependencies;
    it succeeds when no chain of dependencies has more than [MaxDepth]
    modules and no [DoLoad] fails. *)
Theorem start_loads_all w :
  reachable w -> stopped_ w = true ->
  exists ok w', Start w = Some (ok, w') /\
    (ok = true -> stopped_ w' = false /\ forall x, is_Some (heap w' !! x) -> flag x w' = Some true) /\
    (ok = false -> stopped_ w' = true) /\
    ((forall x, is_Some (heap w !! x) -> shallow true w MaxDepth x) -> (forall x l, DoLoad x l = true) -> ok = true) /\
    exists tr, log w' = log w ++ tr /\ ordered true w tr /\
      forall x, flag x w' = if decide (ELoad x true ∈ tr) then Some true else flag x w.
Proof using walk_perm.
  intros Hr Hst. rewrite (Start_switch DoLoad DoUnload).
  destruct (switch_run true w Hr Hst) as (ok & w' & E & Hok & Hno & Hsuc & Htr). exists ok, w'. done.
Qed.

(** [Stop] always returns; when it succeeds no module is loaded, each one
    that was has been unloaded by one successful call after those of the
    modules that depend on it. *)
Theorem stop_unloads_all w :
  reachable w -> stopped_ w = false ->
  exists ok w', Stop w = Some (ok, w') /\
    (ok = true -> stopped_ w' = true /\ forall x, is_Some (heap w' !! x) -> flag x w' = Some false) /\
    (ok = false -> stopped_ w' = false) /\
    ((forall x, is_Some (heap w !! x) -> shallow false w MaxDepth x) -> (forall x l, DoUnload x l = true) -> ok = true) /\
    exists tr, log w' = log w ++ tr /\ ordered false w tr /\
      forall x, flag x w' = if decide (EUnload x true ∈ tr) then Some false else flag x w.
Proof using walk_perm.
  intros Hr Hst. rewrite (Stop_switch DoLoad DoUnload).
  destruct (switch_run false w Hr Hst) as (ok & w' & E & Hok & Hno & Hsuc & Htr). exists ok, w'. done.
Qed.

Lemma edge_in_heap t w x y : edge t w x y -> is_Some (heap w !! x).
Proof using Type. intros (m & _ & Hx & _). by exists m. Qed.

Lemma Start_cycle (C : nat -> Prop) w ok w' :
  reachable w -> (forall x, C x -> exists y, C y /\ edge true w x y) -> (forall x, C x -> flag x w <> Some true) -> stopped_ w = true ->
  Start w = Some (ok, w') -> (forall x, C x -> flag x w' <> Some true) /\ ((exists x, C x) -> ok = false).
Proof using walk_perm.
  intros Hr HC Hn Hst E. rewrite (Start_switch DoLoad DoUnload) in E. destruct (life_inv w Hr) as (Hw & _).
  destruct (switch_spec DoLoad DoUnload walk walk_perm true w Hw) as (ok' & w1 & w'' & E' & Hs & Hw' & _ & Hall & _).
  rewrite E in E'. injection E' as <- <-. pose proof (steps_cycle _ _ C w w1 Hs HC Hn) as Hn'.
  assert (Hf : forall x, flag x w' = flag x w1) by (intros x; destruct ok; by subst w'). split; [intros x; rewrite Hf; apply Hn'|].
  intros [x Hx]. destruct ok; [|done]. destruct (HC x Hx) as (y & _ & He). destruct (Hn' x Hx). rewrite <- Hf.
  apply (Hall Hst eq_refl). by eapply edge_in_heap.
Qed.

(** Modules that depend on each other in a circle, or on such modules,
    are never loaded, and [Start] returns false. *)
Theorem circular_modules_not_loaded (C : nat -> Prop) w :
  reachable w -> (forall x, C x -> exists y, C y /\ edge true w x y) ->
  (forall x, C x -> flag x w <> Some true) /\
  ((exists x, C x) -> stopped_ w = true /\ exists w', Start w = Some (false, w')).
Proof using walk_perm.
  intros Hr HC.
  assert (Hinv : forall w, reachable w -> (forall x, C x -> exists y, C y /\ edge true w x y) ->
    (forall x, C x -> flag x w <> Some true) /\ ((exists x, C x) -> stopped_ w = true)).
  { clear w Hr HC. intros w Hr. induction Hr as [w E|w ok w' Hr IH E|w ok w' Hr IH E]; intros HC.
    - destruct (init_links DoInit walk walk_perm creators) as (ok & w1 & E1 & _ & Hok & _). rewrite E in E1. injection E1 as <- <-.
      by destruct (Hok eq_refl) as (_ & Hst & Hf & _).
    - pose proof E as Esw. rewrite (Start_switch DoLoad DoUnload) in Esw. destruct (life_inv w Hr) as (Hw & Hc & _).
      destruct (switch_ready true w ok w' Hw Hc Esw) as (_ & _ & _ & He).
      assert (HC' : forall x, C x -> exists y, C y /\ edge true w x y) by (intros x Hx; destruct (HC x Hx) as (y & ? & ?%He); eauto).
      destruct (IH HC') as [Hn Hst]. assert (Hone : (exists x, C x) -> (forall x, C x -> flag x w' <> Some true) /\ stopped_ w' = true).
      { intros Hex. destruct (Start_cycle C w ok w' Hr HC' Hn (Hst Hex) E) as [Hn' Hok]. split; [done|]. rewrite (Hok Hex) in Esw.
        destruct (switch_run true w Hr (Hst Hex)) as (ok' & w'' & E' & _ & Hfalse & _). rewrite Esw in E'. injection E' as <- <-. by apply Hfalse. }
      split; [|intros Hex; by apply Hone]. intros x Hx. destruct Hone as [Hn' _]; [by exists x|by apply Hn'].
    - assert (Hex : (exists x, C x) -> w' = w).
      { intros Hex. pose proof E as Esw. rewrite (Stop_switch DoLoad DoUnload) in Esw. destruct (life_inv w Hr) as (Hw & Hc & _).
        destruct (switch_ready false w ok w' Hw Hc Esw) as (_ & _ & _ & He).
        assert (HC' : forall x, C x -> exists y, C y /\ edge true w x y) by (intros x Hx; destruct (HC x Hx) as (y & ? & ?%He); eauto).
        destruct (IH HC') as [_ Hst]. unfold ModuleManager.Stop in E. rewrite (Hst Hex) in E. congruence. }
      split; [intros x Hx; assert (w' = w) as -> by (apply Hex; eauto)|intros Hx; assert (w' = w) as -> by auto]; apply IH; eauto. }
  destruct (Hinv w Hr HC) as [Hn Hst]. split; [done|]. intros Hex. split; [by apply Hst|].
  destruct (switch_run true w Hr (Hst Hex)) as (ok & w' & E & _). rewrite <- (Start_switch DoLoad DoUnload) in E.
  destruct (Start_cycle C w ok w' Hr HC Hn (Hst Hex) E) as [_ Hok]. rewrite (Hok Hex) in E. eauto.
Qed.

(** A failure is not undone.  After a [Start] that failed, [Stop], also
    the one of the destructor, does nothing, so the modules that were loaded
    are never unloaded; after a [Stop] that failed, [Start] does nothing and
    returns true, so the modules that were unloaded stay so. *)
Theorem failed_switch_sticks w w' :
  (Start w = Some (false, w') -> Stop w' = Some (true, w')) /\
  (Stop w = Some (false, w') -> Start w' = Some (true, w')).
Proof using walk_perm.
  assert (Hsw : forall t, switch DoLoad DoUnload walk t w = Some (false, w') -> stopped_ w' = t).
  { intros t. unfold switch. destruct (Bool.eqb_spec (stopped_ w) (negb t)) as [|Hst]; [done|]. intros E.
    apply bind_Some in E as ([ok w1] & E1 & E). destruct ok; cbn [negb] in E; [done|]. injection E as <-.
    destruct (each_steps code t _ _ _ _ _ (visit_steps code t walk walk_perm MaxDepth) E1) as [Hs _].
    apply steps_same_graph in Hs as (_ & -> & _). by destruct (stopped_ w), t. }
  split; intros E.
  - rewrite (Start_switch DoLoad DoUnload) in E. unfold ModuleManager.Stop. by rewrite (Hsw true E).
  - rewrite (Stop_switch DoLoad DoUnload) in E. unfold ModuleManager.Start. by rewrite (Hsw false E).
Qed.

(** ** The life of the objects *)

(** Whether an object of [alive] has a pointer to [x]. *)
Definition held (w : ModuleManager) (alive : list nat) (x : nat) : bool :=
  existsb (fun z => match heap w !! z with
                    | None => false
                    | Some m => bool_decide (Some x ∈ (map_to_list (depend_modules_ m)).*2) ||
                                bool_decide (Some x ∈ (map_to_list (be_depended_modules_ m)).*2) ||
                                bool_decide (x ∈ (map_to_list (members_ m)).*2)
                    end) alive.

(** The objects that nothing points to are destroyed; [Clear] then drops their
    own pointers. *)
Definition release (w : ModuleManager) (alive : list nat) : list nat := List.filter (held w alive) alive.

(** [~ModuleManager] drops [modules_]: what is left of the objects after [n]
    rounds. *)
Definition after_destruction (n : nat) (w : ModuleManager) : list nat := Nat.iter n (release w) (seq 0 (length (heap w))).

Lemma held_by w alive x z m : z ∈ alive -> heap w !! z = Some m ->
  (exists d, depend_modules_ m !! d = Some (Some x) \/ be_depended_modules_ m !! d = Some (Some x)) -> held w alive x = true.
Proof using Type.
  intros Hz Hm (d & Hd). apply existsb_exists. exists z. split; [by apply list_elem_of_In|]. rewrite Hm.
  assert (Hin : forall (M : gmap string (option nat)), M !! d = Some (Some x) -> bool_decide (Some x ∈ (map_to_list M).*2) = true).
  { intros M HM. apply bool_decide_eq_true, list_elem_of_fmap. exists (d, Some x). split; [done|]. by apply elem_of_map_to_list. }
  destruct Hd as [Hd|Hd]; rewrite (Hin _ Hd); [done|]. by rewrite orb_true_r.
Qed.

(** A module that depends on another and the one it depends on point to
    each other, so neither is ever destroyed: their destructors, and the
    [Clear] that was to break the circle, do not run when the manager is
    destroyed. *)
Theorem dependent_modules_leak w x y n :
  reachable w -> edge true w x y -> x ∈ after_destruction n w /\ y ∈ after_destruction n w.
Proof using walk_perm.
  intros Hr He. destruct (life_inv w Hr) as (Hw & _). pose proof He as Hb. apply (ready_back w Hw) in Hb.
  destruct He as (mx & d & Hx & Hd). destruct Hb as (my & a & Hy & Ha). cbn in Hd, Ha. unfold after_destruction.
  induction n as [|n [IHx IHy]]; cbn [Nat.iter].
  - split; apply elem_of_seq; split; try lia; by eapply lookup_lt_Some.
  - split; apply list_elem_of_In, List.filter_In; (split; [by apply list_elem_of_In|]).
    + apply (held_by w _ x y my); eauto.
    + apply (held_by w _ y x mx); eauto.
Qed.

End Manager.

(** ** Examples *)

Definition walk0 : container -> forall A, gmap string A -> list (string * A) := fun _ _ m => map_to_list m.
Definition walk1 : container -> forall A, gmap string A -> list (string * A) := fun _ _ m => reverse (map_to_list m).

Lemma walk0_perm c A (m : gmap string A) : walk0 c A m ≡ₚ map_to_list m.
Proof. done. Qed.

Lemma walk1_perm c A (m : gmap string A) : walk1 c A m ≡ₚ map_to_list m.
Proof. apply reverse_Permutation. Qed.

Definition ok_always : nat -> list event -> bool := fun _ _ => true.

(** b depends on a, and c on both. *)
Definition creators_abc : gmap string CreatorFunc :=
  list_to_map [("c", Makes ["b"; "a"]); ("a", Makes []); ("b", Makes ["a"])]%string.

Definition run (walk : container -> forall A, gmap string A -> list (string * A)) (creators : gmap string CreatorFunc)
    (DoLoad : nat -> list event -> bool) : option (bool * ModuleManager) :=
  '(ok, w) ← Init ok_always walk creators ModuleManager_new; if negb ok then Some (false, w) else Start DoLoad walk w.

(** A chain of 65 modules. *)
Definition names65 : list string :=
  (map_to_list (list_to_map ((fun k => (String (Ascii.ascii_of_nat (33 + k)) EmptyString, tt)) <$> seq 0 65) : gmap string unit)).*1.
Definition chain65 : gmap string CreatorFunc :=
  list_to_map ((fun k => (nth k names65 ""%string, Makes (if Nat.eqb k 64 then [] else [nth (S k) names65 ""%string]))) <$> seq 0 65).

(** Whether modules in a long chain can be loaded depends on the order in which
    the table of the modules is walked. *)
Example depth_depends_on_order :
  fst <$> run walk0 chain65 ok_always = Some false /\ fst <$> run walk1 chain65 ok_always = Some true.
Proof. vm_compute. done. Qed.

(** A numbering that goes down along the edges bounds the chains. *)
Lemma shallow_rank t w (r : nat -> nat) n x : (forall x y, edge t w x y -> (r y < r x)%nat) -> (r x < n)%nat -> shallow t w n x.
Proof.
  intros Hr. revert x; induction n as [|n IH]; intros x Hx; cbn; [lia|]. intros y He. apply IH. specialize (Hr x y He). lia.
Qed.

Lemma edge_values t w x y : edge t w x y -> exists m, heap w !! x = Some m /\ Some y ∈ (map_to_list (succs t m)).*2.
Proof.
  intros (m & d & Hx & Hd). exists m. split; [done|]. apply list_elem_of_fmap. exists (d, Some y). split; [done|]. by apply elem_of_map_to_list.
Qed.

Definition after (r : option (bool * ModuleManager)) : ModuleManager := match r with Some (_, w) => w | None => ModuleManager_new end.

Definition w_abc : ModuleManager := after (Init ok_always walk0 creators_abc ModuleManager_new).
Definition w_started : ModuleManager := after (Start ok_always walk0 w_abc).

Notation reach_abc := (reachable ok_always ok_always ok_always walk0 creators_abc).

Lemma abc_reachable : reach_abc w_abc.
Proof. apply reach_init. vm_compute. reflexivity. Qed.

Lemma started_reachable : reach_abc w_started.
Proof. apply (reach_start _ _ _ _ _ w_abc true); [apply abc_reachable|]. vm_compute. reflexivity. Qed.

(** The places of the modules, by their names. *)
Definition rank_abc (x : nat) : nat := match heap w_abc !! x with Some m => match name_ m with "a" => 0%nat | "b" => 1%nat | _ => 2%nat end | None => 3%nat end%string.

Lemma abc_rank t x y : edge t w_abc x y -> if t then (rank_abc y < rank_abc x)%nat else (rank_abc x < rank_abc y)%nat.
Proof.
  intros (m & Hx & Hin)%edge_values. assert (Hlt : (x < 3)%nat) by (apply lookup_lt_Some in Hx; exact Hx).
  destruct x as [|[|[|x]]]; [| | |lia]; vm_compute in Hx; injection Hx as <-; destruct t; vm_compute in Hin;
    repeat (apply elem_of_cons in Hin as [Hin|Hin]; [injection Hin as ->; vm_compute; lia|]); by apply not_elem_of_nil in Hin.
Qed.


Lemma start_loads_all_witness :
  exists w', Start ok_always walk0 w_abc = Some (true, w') /\ stopped_ w' = false /\ forall x, is_Some (heap w' !! x) -> flag x w' = Some true.
Proof.
  destruct (start_loads_all ok_always ok_always ok_always walk0 walk0_perm creators_abc w_abc abc_reachable eq_refl)
    as (ok & w' & E & Hok & _ & Hall & _).
  assert (ok = true) as ->.
  { apply Hall; [|done]. intros x Hx. apply (shallow_rank true w_abc rank_abc); [intros y z; apply (abc_rank true)|].
    unfold rank_abc. destruct (heap w_abc !! x) as [m|]; [|unfold MaxDepth; lia]. unfold MaxDepth. repeat case_match; lia. }
  destruct (Hok eq_refl) as [Hst Hf]. exists w'. split; [exact E|]. split; [exact Hst|exact Hf].
Defined.

Lemma dependencies_outlive_dependents_witness : closed w_started /\ flag 2 w_started = Some true.
Proof.
  split; [|vm_compute; reflexivity].
  apply (dependencies_outlive_dependents ok_always ok_always ok_always walk0 walk0_perm creators_abc w_started started_reachable).
Defined.

Lemma stop_unloads_all_witness : exists ok w', Stop ok_always walk0 w_started = Some (ok, w') /\ (ok = true -> forall x, is_Some (heap w' !! x) -> flag x w' = Some false).
Proof.
  destruct (stop_unloads_all ok_always ok_always ok_always walk0 walk0_perm creators_abc w_started started_reachable eq_refl)
    as (ok & w' & E & Hok & _).
  exists ok, w'. split; [exact E|]. intros Ho. exact (proj2 (Hok Ho)).
Defined.

(** d and e depend on each other. *)
Definition creators_de : gmap string CreatorFunc := list_to_map [("d", Makes ["e"]); ("e", Makes ["d"])]%string.
Definition w_de : ModuleManager := after (Init ok_always walk0 creators_de ModuleManager_new).

Lemma de_reachable : reachable ok_always ok_always ok_always walk0 creators_de w_de.
Proof. apply reach_init. vm_compute. reflexivity. Qed.

Lemma de_edges : edge true w_de 0%nat 1%nat /\ edge true w_de 1%nat 0%nat.
Proof.
  assert (He : forall a b x y, modules_ w_de !! a = Some x -> modules_ w_de !! b = Some y -> creators_de !! a = Some (Makes [b]) -> edge true w_de x y).
  { intros a b x y Ha Hb Hc. apply (life_inv _ _ _ _ walk0_perm _ _ de_reachable). exists a, b, [b]. split_and!; try done. by left. }
  assert (Hp : modules_ w_de !! "d"%string = Some 0%nat /\ modules_ w_de !! "e"%string = Some 1%nat \/
               modules_ w_de !! "d"%string = Some 1%nat /\ modules_ w_de !! "e"%string = Some 0%nat) by (vm_compute; auto).
  destruct Hp as [[Hd Hee]|[Hd Hee]]; split; by (eapply (He "d" "e")%string + eapply (He "e" "d")%string).
Qed.

Lemma circular_modules_not_loaded_witness : exists w', Start ok_always walk0 w_de = Some (false, w').
Proof.
  destruct (circular_modules_not_loaded ok_always ok_always ok_always walk0 walk0_perm creators_de (fun x => x < 2)%nat w_de de_reachable)
    as [_ Hst].
  - intros x Hx. destruct de_edges as [H01 H10]. destruct x as [|[|x]]; [exists 1%nat|exists 0%nat|lia]; split; try lia; assumption.
  - destruct Hst as [_ Hw]; [exists 0%nat; lia|]. exact Hw.
Defined.

(** c fails to load after the others were loaded. *)
Definition c_fails : nat -> list event -> bool := fun x _ => negb (Nat.eqb (rank_abc x) 2).
Definition w_failed : ModuleManager := after (Start c_fails walk0 w_abc).

Lemma failed_switch_sticks_witness :
  Start c_fails walk0 w_abc = Some (false, w_failed) /\ Stop ok_always walk0 w_failed = Some (true, w_failed) /\
  length (List.filter loaded_ (heap w_failed)) = 2%nat.
Proof.
  assert (E : Start c_fails walk0 w_abc = Some (false, w_failed)) by (vm_compute; reflexivity).
  split; [exact E|]. split; [|vm_compute; reflexivity].
  apply (failed_switch_sticks c_fails ok_always walk0 walk0_perm w_abc w_failed). exact E.
Defined.

Lemma dependent_modules_leak_witness : 0%nat ∈ after_destruction 100 w_de /\ 1%nat ∈ after_destruction 100 w_de.
Proof.
  apply (dependent_modules_leak ok_always ok_always ok_always walk0 walk0_perm creators_de w_de 0%nat 1%nat 100%nat de_reachable).
  exact (proj1 de_edges).
Defined.

(** A module on its own is destroyed. *)
Example alone_is_destroyed : after_destruction 1 (after (Init ok_always walk0 {["f"%string := Makes []]} ModuleManager_new)) = [].
Proof. vm_compute. reflexivity. Qed.
