(* ===== verification/Worker.v ===== *)
(** * WorkerBase and main

    Sources: src/agent_engine/engine/common/worker_base.h, worker_base.cc and
    main.cc.

    The virtual functions of a worker and those that only read options or set
    up the log are parameters; the answer may depend on the calls so far.
    While [Run] sleeps, anything may happen once in a second: nothing, a
    signal, or a call of [Stop] by another thread; a list of these is what the
    run meets.  A manager that is destroyed is kept in [gone], as its
    destructor left it. *)

From stdpp Require Import strings gmap.
From S2P Require Import Prelude ModuleManager ModuleInit ModuleLife.

Inductive call := CInitOptions | CInitLog | CDoInit | CDoStart | CDoStop.

Record WorkerBase := {
  wstopped_ : bool;
  module_manager_ : option ModuleManager;
  is_stop : bool;                            (* the global flag of the signals *)
  calls : list (call * bool);
  gone : list ModuleManager;
}.

Definition with_wstopped (b : bool) (w : WorkerBase) : WorkerBase :=
  {| wstopped_ := b; module_manager_ := module_manager_ w; is_stop := is_stop w; calls := calls w; gone := gone w |}.
Definition with_manager_ (mm : option ModuleManager) (w : WorkerBase) : WorkerBase :=
  {| wstopped_ := wstopped_ w; module_manager_ := mm; is_stop := is_stop w; calls := calls w; gone := gone w |}.
Definition with_is_stop (b : bool) (w : WorkerBase) : WorkerBase :=
  {| wstopped_ := wstopped_ w; module_manager_ := module_manager_ w; is_stop := b; calls := calls w; gone := gone w |}.
Definition called (c : call) (ok : bool) (w : WorkerBase) : WorkerBase :=
  {| wstopped_ := wstopped_ w; module_manager_ := module_manager_ w; is_stop := is_stop w; calls := calls w ++ [(c, ok)]; gone := gone w |}.
Definition buried (mm : ModuleManager) (w : WorkerBase) : WorkerBase :=
  {| wstopped_ := wstopped_ w; module_manager_ := None; is_stop := is_stop w; calls := calls w; gone := mm :: gone w |}.

Definition WorkerBase_new : WorkerBase :=
  {| wstopped_ := true; module_manager_ := None; is_stop := false; calls := []; gone := [] |}.

Inductive action := Nothing | Signal | CallStop.

#[export] Instance action_eq_dec : EqDecision action.
Proof. solve_decision. Defined.

(** What a call of [Run] comes to: it returned, or it still waits when the
    list of what happens is at its end. *)
Inductive outcome := Returned (ok : bool) | Waits.

Section Worker.

Context (DoInit DoLoad DoUnload : nat -> list event -> bool).
Context (walk : container -> forall A, gmap string A -> list (string * A)).
Context (creators : gmap string CreatorFunc).
Context (answer : call -> list (call * bool) -> bool).

Definition ask (c : call) (w : WorkerBase) : bool * WorkerBase :=
  let ok := answer c (calls w) in (ok, called c ok w).

(** [~ModuleManager] calls [Stop]. *)
Definition reset (w : WorkerBase) : option WorkerBase :=
  match module_manager_ w with
  | None => Some w
  | Some mm => '(_, mm) ← Stop DoUnload walk mm; Some (buried mm w)
  end.

(** The old manager is destroyed when the new one, whose constructor does
    nothing, takes its place. *)
Definition InitModuleManager (w : WorkerBase) : option (bool * WorkerBase) :=
  w ← reset w;
  '(ok, mm) ← Init DoInit walk creators ModuleManager_new;
  if negb ok then Some (false, with_manager_ (Some mm) w)
  else
    '(ok, mm) ← Start DoLoad walk mm;
    Some (ok, with_manager_ (Some mm) w).

Definition WorkerBase_Init (w : WorkerBase) : option (bool * WorkerBase) :=
  let '(ok, w) := ask CInitOptions w in
  if negb ok then Some (false, w) else
  let '(ok, w) := ask CInitLog w in
  if negb ok then Some (false, w) else
  '(ok, w) ← InitModuleManager w;
  if negb ok then Some (false, w) else
  let '(ok, w) := ask CDoInit w in
  Some (ok, w).

Definition StopWorker (w : WorkerBase) : option WorkerBase :=
  let '(_, w) := ask CDoStop w in
  match module_manager_ w with
  | None => Some w
  | Some mm => '(_, mm) ← Stop DoUnload walk mm; reset (with_manager_ (Some mm) w)
  end.

Definition WorkerBase_Stop (w : WorkerBase) : option WorkerBase :=
  let w := with_wstopped true w in
  match module_manager_ w with
  | None => Some w
  | Some mm => '(_, mm) ← Stop DoUnload walk mm; Some (with_manager_ (Some mm) w)
  end.

Definition IsStopped (w : WorkerBase) : bool := wstopped_ w.

Definition happens (a : action) (w : WorkerBase) : option WorkerBase :=
  match a with
  | Nothing => Some w
  | Signal => Some (with_is_stop true w)
  | CallStop => WorkerBase_Stop w
  end.

(** [while (!is_stop && !IsStopped()) sleep]; whether it ended, and what is
    still to happen. *)
Fixpoint wait (env : list action) (w : WorkerBase) : option (bool * list action * WorkerBase) :=
  if negb (negb (is_stop w) && negb (IsStopped w)) then Some (true, env, w)
  else match env with
       | [] => Some (false, [], w)
       | a :: env => w ← happens a w; wait env w
       end.

Fixpoint Run_loop (fuel : nat) (env : list action) (w : WorkerBase) : option (outcome * WorkerBase) :=
  match fuel with
  | O => None
  | Datatypes.S fuel =>
      if negb (negb (is_stop w) && negb (IsStopped w)) then Some (Returned true, w)
      else
        let '(ok, w) := ask CDoStart w in
        if negb ok then w ← StopWorker w; Some (Returned false, w)
        else
          '(ended, env, w) ← wait env w;
          if negb ended then Some (Waits, w)
          else w ← StopWorker w; Run_loop fuel env w
  end.

Definition Run (env : list action) (w : WorkerBase) : option (outcome * WorkerBase) :=
  Run_loop 2 env (with_wstopped false (with_is_stop false w)).

(** [main]; the worker is destroyed at the end.  [CreateWorker] returns a
    worker. *)
Definition main (env : list action) : option (option Z * WorkerBase) :=
  '(ok, w) ← WorkerBase_Init WorkerBase_new;
  if negb ok then w ← reset w; Some (Some (-1), w)
  else
    '(o, w) ← Run env w;
    match o with
    | Returned ok => w ← reset w; Some (Some (if ok then 0 else -1), w)
    | Waits => Some (None, w)
    end.

End Worker.

Section Lifecycle.

Context (DoInit DoLoad DoUnload : nat -> list event -> bool).
Context (walk : container -> forall A, gmap string A -> list (string * A)).
Context (walk_perm : forall c A (m : gmap string A), walk c A m ≡ₚ map_to_list m).
Context (creators : gmap string CreatorFunc).
Context (answer : call -> list (call * bool) -> bool).

Notation reachable := (reachable DoInit DoLoad DoUnload walk creators).
Notation Stop := (Stop DoUnload walk).
Notation main := (main DoInit DoLoad DoUnload walk creators answer).
Notation Run := (Run DoUnload walk answer).
Notation WorkerBase_Init := (WorkerBase_Init DoInit DoLoad DoUnload walk creators answer).
Notation WorkerBase_Stop := (WorkerBase_Stop DoUnload walk).

(** A manager that has been started: it says that it is stopped only when no
    module is loaded. *)
Definition tidy (mm : ModuleManager) : Prop := reachable mm /\ (stopped_ mm = true -> forall x, flag x mm <> Some true).

(** Nothing keeps [Stop] from succeeding. *)
Definition unloadable : Prop :=
  (forall x l, DoUnload x l = true) /\ forall mm x, reachable mm -> is_Some (heap mm !! x) -> shallow false mm MaxDepth x.

Lemma Stop_tidy mm : tidy mm -> exists ok mm', Stop mm = Some (ok, mm') /\ tidy mm' /\ (unloadable -> stopped_ mm' = true).
Proof using walk_perm.
  intros [Hr Ht]. destruct (stopped_ mm) eqn:Hst.
  - exists true, mm. split; [unfold ModuleManager.Stop; by rewrite Hst|]. split; [split; [done|intros _; by apply Ht]|done].
  - destruct (switch_run DoInit DoLoad DoUnload walk walk_perm creators false mm Hr Hst) as (ok & mm' & E & Hok & Hno & Hall & _).
    rewrite <- (Stop_switch DoLoad DoUnload) in E. exists ok, mm'. split; [done|]. split; [split; [by eapply reach_stop|]|].
    + intros Hst' x Hx. destruct ok; [|by rewrite Hno in Hst']. destruct (Hok eq_refl) as [_ Hf].
      rewrite Hf in Hx; [done|]. apply flag_total. eauto.
    + intros [HD Hsh]. apply Hok, Hall; [|done]. intros x Hx. by apply Hsh.
Qed.

(** A started manager that is still there. *)
Definition has_manager (w : WorkerBase) : Prop := exists mm, module_manager_ w = Some mm /\ tidy mm.

Lemma Worker_Stop_tidy w : has_manager w -> exists w', WorkerBase_Stop w = Some w' /\ has_manager w' /\ wstopped_ w' = true /\
  is_stop w' = is_stop w /\ calls w' = calls w /\ gone w' = gone w /\ (unloadable -> forall mm, module_manager_ w' = Some mm -> stopped_ mm = true).
Proof using walk_perm.
  intros (mm & Hm & Ht). unfold Worker.WorkerBase_Stop. cbn [module_manager_ with_wstopped]. rewrite Hm.
  destruct (Stop_tidy mm Ht) as (ok & mm' & -> & Ht' & Hu). cbn. eexists. split_and!; try done; [by exists mm'|]. intros Hun ? [= <-]; by apply Hu.
Qed.

Lemma happens_tidy a w : has_manager w -> exists w', happens DoUnload walk a w = Some w' /\ has_manager w' /\ calls w' = calls w /\ gone w' = gone w /\
  (negb (is_stop w') && negb (IsStopped w') = false <-> negb (is_stop w) && negb (IsStopped w) = false \/ a <> Nothing).
Proof using walk_perm.
  intros Hw. destruct a; cbn.
  - exists w. naive_solver.
  - exists (with_is_stop true w). cbn. split_and!; try done. split; [by right|done].
  - destruct (Worker_Stop_tidy w Hw) as (w' & -> & Hw' & Hst & His & Hc & Hg & _). exists w'. unfold IsStopped. rewrite Hst, andb_false_r.
    split_and!; try done. split; [by right|done].
Qed.

Lemma wait_spec env w : has_manager w -> exists ended env' w', wait DoUnload walk env w = Some (ended, env', w') /\ has_manager w' /\
  calls w' = calls w /\ gone w' = gone w /\ (ended = true -> negb (is_stop w') && negb (IsStopped w') = false) /\
  (ended = true <-> negb (is_stop w) && negb (IsStopped w) = false \/ Exists (fun a => a <> Nothing) env).
Proof using walk_perm.
  revert w. induction env as [|a env IH]; intros w Hw; cbn [wait]; destruct (negb (is_stop w) && negb (IsStopped w)) eqn:Hrun; cbn [negb].
  - exists false, [], w. split_and!; try done. split; [done|]. intros [|H%Exists_nil]; done.
  - exists true, [], w. split_and!; try done. split; [by left|done].
  - destruct (happens_tidy a w Hw) as (w1 & -> & Hw1 & Hc1 & Hg1 & Hr1). cbn [mbind option_bind].
    destruct (IH w1 Hw1) as (ended & env' & w' & -> & Hw' & Hc & Hg & He & Hiff). exists ended, env', w'. split_and!; try congruence; try done.
    rewrite Hiff, Hr1, Hrun, Exists_cons. naive_solver.
  - exists true, (a :: env), w. split_and!; try done. split; [by left|done].
Qed.

(** [StopWorker] stops the manager, and destroys it, which stops it once more
    if that failed. *)
Lemma StopWorker_spec w : has_manager w -> exists w' mm, StopWorker DoUnload walk answer w = Some w' /\ module_manager_ w' = None /\
  gone w' = mm :: gone w /\ tidy mm /\ (unloadable -> stopped_ mm = true) /\ calls w' = calls w ++ [(CDoStop, answer CDoStop (calls w))] /\
  wstopped_ w' = wstopped_ w /\ is_stop w' = is_stop w.
Proof using walk_perm.
  intros (mm & Hm & Ht). unfold StopWorker, ask. cbn [module_manager_ called]. rewrite Hm.
  destruct (Stop_tidy mm Ht) as (ok & mm1 & -> & Ht1 & _). cbn [mbind option_bind]. unfold reset. cbn [module_manager_ with_manager_].
  destruct (Stop_tidy mm1 Ht1) as (ok' & mm2 & -> & Ht2 & Hu). cbn. by eexists _, mm2.
Qed.

(** A run asks the worker once to start and, when it ends, once to stop. *)
Lemma Run_spec env w : has_manager w -> exists o w', Run env w = Some (o, w') /\
  (answer CDoStart (calls w) = true -> o = if bool_decide (Exists (fun a => a <> Nothing) env) then Returned true else Waits) /\
  (answer CDoStart (calls w) = false -> o = Returned false) /\
  match o with
  | Waits => has_manager w' /\ gone w' = gone w /\ calls w' = calls w ++ [(CDoStart, true)]
  | Returned ok => exists mm b, module_manager_ w' = None /\ gone w' = mm :: gone w /\ tidy mm /\ (unloadable -> stopped_ mm = true) /\
      calls w' = calls w ++ [(CDoStart, ok); (CDoStop, b)]
  end.
Proof using walk_perm.
  intros Hw. unfold Worker.Run, ask. set (w0 := with_wstopped _ _). set (w1 := called CDoStart (answer CDoStart (calls w)) w0).
  cbn [Run_loop]. change (negb (negb (is_stop w0) && negb (IsStopped w0))) with false. cbv iota. unfold ask.
  change (calls w0) with (calls w). fold w1. assert (Hw1 : has_manager w1) by done. assert (Hc1 : calls w1 = calls w ++ [(CDoStart, answer CDoStart (calls w))]) by done.
  assert (Hr1 : negb (is_stop w1) && negb (IsStopped w1) = true) by done. assert (Hg1 : gone w1 = gone w) by done. clearbody w1.
  destruct (answer CDoStart (calls w)) eqn:Ha; cbn [negb].
  - destruct (wait_spec env w1 Hw1) as (ended & env' & w2 & -> & Hw2 & Hc2 & Hg2 & He & Hiff). cbn [mbind option_bind]. rewrite Hr1 in Hiff.
    assert (Hdec : ended = bool_decide (Exists (fun a => a <> Nothing) env)).
    { destruct ended; symmetry; [apply bool_decide_eq_true; naive_solver|apply bool_decide_eq_false; naive_solver]. }
    rewrite <- Hdec. destruct ended; cbn [negb].
    + destruct (StopWorker_spec w2 Hw2) as (w3 & mm & -> & Hn & Hg & Ht & Hu & Hc & Hs & His). cbn [mbind option_bind].
      unfold IsStopped in *. rewrite Hs, His, (He eq_refl). cbn [negb]. exists (Returned true), w3. split_and!; try done.
      exists mm, (answer CDoStop (calls w2)). split_and!; try done; [congruence|]. by rewrite Hc, Hc2, Hc1, <- app_assoc.
    + exists Waits, w2. split_and!; try done; congruence.
  - destruct (StopWorker_spec w1 Hw1) as (w3 & mm & -> & Hn & Hg & Ht & Hu & Hc & Hs & His). cbn [mbind option_bind].
    exists (Returned false), w3. split_and!; try done. exists mm, (answer CDoStop (calls w1)). split_and!; try done; [congruence|]. by rewrite Hc, Hc1, <- app_assoc.
Qed.

(** What [InitModuleManager] leaves. *)
Lemma InitModuleManager_spec w : module_manager_ w = None -> exists ok w' mm, InitModuleManager DoInit DoLoad DoUnload walk creators w = Some (ok, w') /\
  module_manager_ w' = Some mm /\ calls w' = calls w /\ gone w' = gone w /\ stopped_ mm = negb ok /\
  (ok = true -> tidy mm /\ forall x, is_Some (heap mm !! x) -> flag x mm = Some true).
Proof using walk_perm.
  intros Hn. unfold InitModuleManager, reset. rewrite Hn. cbn [mbind option_bind].
  destruct (init_links DoInit walk walk_perm creators) as (ok & mm & E & Hst & Hok & _). rewrite E. cbn [mbind option_bind]. destruct ok; cbn [negb].
  - assert (Hr : reachable mm) by by apply reach_init.
    destruct (switch_run DoInit DoLoad DoUnload walk walk_perm creators true mm Hr Hst) as (ok & mm' & E' & Hok' & Hno & _).
    rewrite <- (Start_switch DoLoad DoUnload) in E'. rewrite E'. cbn [mbind option_bind]. exists ok, (with_manager_ (Some mm') w), mm'.
    split_and!; try done.
    + destruct ok; [by apply Hok'|by apply Hno].
    + intros ->. destruct (Hok' eq_refl) as [Hs Hf]. split; [|done]. split; [by eapply reach_start|]. by rewrite Hs.
  - exists false, (with_manager_ (Some mm) w), mm. split_and!; done.
Qed.

Lemma reset_None w : module_manager_ w = None -> reset DoUnload walk w = Some w.
Proof using Type. intros Hn. unfold reset. by rewrite Hn. Qed.

Lemma WorkerBase_Init_spec : exists ok w, WorkerBase_Init WorkerBase_new = Some (ok, w) /\ gone w = [] /\
  (ok = true -> has_manager w /\ calls w = [(CInitOptions, true); (CInitLog, true); (CDoInit, true)] /\
     forall mm, module_manager_ w = Some mm -> forall x, is_Some (heap mm !! x) -> flag x mm = Some true) /\
  (ok = false -> exists w', reset DoUnload walk w = Some w').
Proof using walk_perm.
  unfold Worker.WorkerBase_Init, ask. set (a1 := answer CInitOptions _). destruct a1 eqn:E1; cbn [negb].
  2: { eexists false, _. split_and!; try done. intros _. rewrite reset_None by done. eauto. }
  set (a2 := answer CInitLog _). destruct a2 eqn:E2; cbn [negb].
  2: { eexists false, _. split_and!; try done. intros _. rewrite reset_None by done. eauto. }
  match goal with |- context [InitModuleManager _ _ _ _ _ ?w0] => destruct (InitModuleManager_spec w0) as (ok & w & mm & -> & Hm & Hc & Hg & Hst & Hok); [done|] end.
  cbn [mbind option_bind]. destruct ok; cbn [negb].
  - destruct (Hok eq_refl) as [Ht Hf]. eexists _, _. split; [done|]. split; [done|]. split.
    + intros Ho. cbn [called calls module_manager_]. split; [by exists mm|]. split; [by rewrite Ho, Hc|]. intros mm' Hm'. rewrite Hm in Hm'. by injection Hm' as <-.
    + intros _. unfold reset. cbn [called module_manager_]. rewrite Hm. destruct (Stop_tidy mm Ht) as (ok & mm' & -> & _). cbn. eauto.
  - exists false, w. split; [done|]. split; [done|]. split; [done|]. intros _. unfold reset. rewrite Hm. unfold ModuleManager.Stop. rewrite Hst. cbn. eauto.
Qed.


(** A call of [Stop] before [Run] is forgotten: the worker starts, with no
    module loaded if the modules could be unloaded, and waits for the next
    signal or call of [Stop]. *)
Theorem stop_before_run_forgotten w env :
  has_manager w -> Forall (fun a => a = Nothing) env ->
  exists w1, WorkerBase_Stop w = Some w1 /\ wstopped_ w1 = true /\
    (unloadable -> forall mm x, module_manager_ w1 = Some mm -> flag x mm <> Some true) /\
    (answer CDoStart (calls w) = true -> exists w2, Run env w1 = Some (Waits, w2)).
Proof using walk_perm.
  intros Hw Henv. destruct (Worker_Stop_tidy w Hw) as (w1 & E & Hw1 & Hst & _ & Hc & _ & Hu). exists w1. split; [done|]. split; [done|]. split.
  - intros Hun mm x Hm. pose proof Hw1 as (mm' & Hm' & [_ Ht]). rewrite Hm in Hm'. injection Hm' as <-. by apply Ht, Hu.
  - intros Ha. destruct (Run_spec env w1 Hw1) as (o & w2 & E2 & Hstart & _). rewrite Hc in Hstart. specialize (Hstart Ha). exists w2. rewrite E2, Hstart.
    rewrite bool_decide_false; [done|]. rewrite Exists_exists. intros (a & Hin & Hne). rewrite Forall_forall in Henv. by apply Hne, Henv.
Qed.

End Lifecycle.

(** ** Examples *)

Definition yes : call -> list (call * bool) -> bool := fun _ _ => true.

Notation reach_abc := (ModuleLife.reachable ok_always ok_always ok_always walk0 creators_abc).

(** Nothing keeps the modules of the example from being unloaded. *)
Lemma abc_unloadable : unloadable ok_always ok_always ok_always walk0 creators_abc.
Proof.
  split; [done|]. intros mm x Hr _. destruct (reachable_edges _ _ _ _ walk0_perm _ _ Hr) as (w0 & E0 & He).
  assert (w0 = w_abc) as -> by (unfold w_abc; by rewrite E0).
  apply (shallow_rank false mm (fun x => 3 - rank_abc x)%nat); [|unfold MaxDepth; lia].
  intros y z Hyz. apply He, (abc_rank false) in Hyz. assert (rank_abc z <= 3)%nat; [|lia].
  unfold rank_abc. destruct (heap w_abc !! z) as [m|]; [|lia]. repeat case_match; lia.
Qed.

Definition w_running : WorkerBase :=
  {| wstopped_ := true; module_manager_ := Some w_started; is_stop := false; calls := []; gone := [] |}.

Lemma running_has_manager : has_manager ok_always ok_always ok_always walk0 creators_abc w_running.
Proof. exists w_started. split; [done|]. split; [apply started_reachable|]. vm_compute. done. Qed.


Lemma stop_before_run_forgotten_witness :
  exists w1, WorkerBase_Stop ok_always walk0 w_running = Some w1 /\ wstopped_ w1 = true /\
    exists w2, Run ok_always walk0 yes [Nothing; Nothing] w1 = Some (Waits, w2).
Proof.
  destruct (stop_before_run_forgotten ok_always ok_always ok_always walk0 walk0_perm creators_abc yes w_running [Nothing; Nothing]
    running_has_manager ltac:(by repeat constructor)) as (w1 & E & Hst & _ & Hrun).
  exists w1. split; [exact E|]. split; [exact Hst|]. exact (Hrun eq_refl).
Defined.
