(* ===== verification/OptionParser.v ===== *)
(** * OptionParser, CommandLineParameter and the options of a worker

    Sources: src/agent_engine/util/option_parser.h, option_parser.cc,
    command_line_parameter.h, command_line_parameter.cc,
    src/agent_engine/engine/common/common.h and worker_base.cc
    ([InitOptions]).

    Strings are lists of bytes, and those of a command line have no zero
    inside.  The overloads of a function have its name and what tells them
    apart.  [None] is an index outside [option_infos_]. *)

From stdpp Require Import gmap.
From S2P Require Import Prelude CString StringUtil.

(** ** Data *)

Inductive OptionType := kOptString | kOptInt32 | kOptUint32 | kOptBool | kOptHelp.
Inductive OptionAction := kStore | kStoreTrue | kStoreFalse.

#[export] Instance OptionType_eq_dec : EqDecision OptionType.
Proof. solve_decision. Defined.
#[export] Instance OptionAction_eq_dec : EqDecision OptionAction.
Proof. solve_decision. Defined.

Record OptionInfo := {
  optionType : OptionType;
  optionAction : OptionAction;
  optionName : list Z;
  isRequired : bool;
  isMultiValue : bool;
  isSet : bool;
}.

(** The constructor of [OptionInfo] with its defaults. *)
Definition OptionInfo_new (name : list Z) (type : OptionType) (action : OptionAction) (required : bool) : OptionInfo :=
  {| optionType := type; optionAction := action; optionName := name; isRequired := required; isMultiValue := false; isSet := false |}.

Definition set_isSet (i : OptionInfo) : OptionInfo :=
  {| optionType := optionType i; optionAction := optionAction i; optionName := optionName i; isRequired := isRequired i;
     isMultiValue := isMultiValue i; isSet := true |}.

Definition HasValue (i : OptionInfo) : bool := bool_decide (optionAction i = kStore).

Record OptionParser := {
  str_opt_map_ : gmap (list Z) (list Z);
  int_opt_map_ : gmap (list Z) Z;
  bool_opt_map_ : gmap (list Z) bool;
  multi_value_str_opt_map_ : gmap (list Z) (list (list Z));
  short_opt2info_map_ : gmap (list Z) nat;
  long_opt2info_map_ : gmap (list Z) nat;
  option_infos_ : list OptionInfo;
}.

Definition OptionParser_new : OptionParser :=
  {| str_opt_map_ := ∅; int_opt_map_ := ∅; bool_opt_map_ := ∅; multi_value_str_opt_map_ := ∅;
     short_opt2info_map_ := ∅; long_opt2info_map_ := ∅; option_infos_ := [] |}.

Definition with_str (f : gmap (list Z) (list Z) -> gmap (list Z) (list Z)) (p : OptionParser) : OptionParser :=
  {| str_opt_map_ := f (str_opt_map_ p); int_opt_map_ := int_opt_map_ p; bool_opt_map_ := bool_opt_map_ p;
     multi_value_str_opt_map_ := multi_value_str_opt_map_ p; short_opt2info_map_ := short_opt2info_map_ p;
     long_opt2info_map_ := long_opt2info_map_ p; option_infos_ := option_infos_ p |}.
Definition with_int (f : gmap (list Z) Z -> gmap (list Z) Z) (p : OptionParser) : OptionParser :=
  {| str_opt_map_ := str_opt_map_ p; int_opt_map_ := f (int_opt_map_ p); bool_opt_map_ := bool_opt_map_ p;
     multi_value_str_opt_map_ := multi_value_str_opt_map_ p; short_opt2info_map_ := short_opt2info_map_ p;
     long_opt2info_map_ := long_opt2info_map_ p; option_infos_ := option_infos_ p |}.
Definition with_bool (f : gmap (list Z) bool -> gmap (list Z) bool) (p : OptionParser) : OptionParser :=
  {| str_opt_map_ := str_opt_map_ p; int_opt_map_ := int_opt_map_ p; bool_opt_map_ := f (bool_opt_map_ p);
     multi_value_str_opt_map_ := multi_value_str_opt_map_ p; short_opt2info_map_ := short_opt2info_map_ p;
     long_opt2info_map_ := long_opt2info_map_ p; option_infos_ := option_infos_ p |}.
Definition with_multi (f : gmap (list Z) (list (list Z)) -> gmap (list Z) (list (list Z))) (p : OptionParser) : OptionParser :=
  {| str_opt_map_ := str_opt_map_ p; int_opt_map_ := int_opt_map_ p; bool_opt_map_ := bool_opt_map_ p;
     multi_value_str_opt_map_ := f (multi_value_str_opt_map_ p); short_opt2info_map_ := short_opt2info_map_ p;
     long_opt2info_map_ := long_opt2info_map_ p; option_infos_ := option_infos_ p |}.
Definition with_infos (f : list OptionInfo -> list OptionInfo) (p : OptionParser) : OptionParser :=
  {| str_opt_map_ := str_opt_map_ p; int_opt_map_ := int_opt_map_ p; bool_opt_map_ := bool_opt_map_ p;
     multi_value_str_opt_map_ := multi_value_str_opt_map_ p; short_opt2info_map_ := short_opt2info_map_ p;
     long_opt2info_map_ := long_opt2info_map_ p; option_infos_ := f (option_infos_ p) |}.

(** ** Adding options *)

(** [map::insert] keeps an entry that is there. *)
Definition map_insert (k : list Z) (i : nat) (m : gmap (list Z) nat) : gmap (list Z) nat :=
  match m !! k with Some _ => m | None => <[k := i]> m end.

Definition AddOptionInfo (info : OptionInfo) (shortOpt longOpt : list Z) (p : OptionParser) : OptionParser :=
  let index := length (option_infos_ p) in
  {| str_opt_map_ := str_opt_map_ p; int_opt_map_ := int_opt_map_ p; bool_opt_map_ := bool_opt_map_ p;
     multi_value_str_opt_map_ := multi_value_str_opt_map_ p;
     short_opt2info_map_ := if bool_decide (shortOpt = []) then short_opt2info_map_ p else map_insert shortOpt index (short_opt2info_map_ p);
     long_opt2info_map_ := if bool_decide (longOpt = []) then long_opt2info_map_ p else map_insert longOpt index (long_opt2info_map_ p);
     option_infos_ := option_infos_ p ++ [info] |}.

Definition AddOption_string (shortOpt longOpt optName defaultValue : list Z) (p : OptionParser) : OptionParser :=
  with_str (<[optName := defaultValue]>) (AddOptionInfo (OptionInfo_new optName kOptString kStore false) shortOpt longOpt p).

Definition AddOption_uint32 (shortOpt longOpt optName : list Z) (defaultValue : Z) (p : OptionParser) : OptionParser :=
  with_int (<[optName := i32 defaultValue]>) (AddOptionInfo (OptionInfo_new optName kOptUint32 kStore false) shortOpt longOpt p).

Definition AddOption_int32 (shortOpt longOpt optName : list Z) (defaultValue : Z) (p : OptionParser) : OptionParser :=
  with_int (<[optName := defaultValue]>) (AddOptionInfo (OptionInfo_new optName kOptInt32 kStore false) shortOpt longOpt p).

Definition AddOption_bool (shortOpt longOpt optName : list Z) (defaultValue : bool) (p : OptionParser) : OptionParser :=
  with_bool (<[optName := defaultValue]>) (AddOptionInfo (OptionInfo_new optName kOptBool kStoreTrue false) shortOpt longOpt p).

Definition AddOption_type (shortOpt longOpt optName : list Z) (type : OptionType) (required : bool) (p : OptionParser) : OptionParser :=
  AddOptionInfo (OptionInfo_new optName type kStore required) shortOpt longOpt p.

Definition AddOption_action (shortOpt longOpt optName : list Z) (action : OptionAction) (type : OptionType) (required : bool)
    (p : OptionParser) : OptionParser :=
  AddOptionInfo (OptionInfo_new optName type action required) shortOpt longOpt p.

(** ** Parsing *)

Definition find_info (arg : list Z) (p : OptionParser) : option nat :=
  match short_opt2info_map_ p !! arg with
  | Some i => Some i
  | None => long_opt2info_map_ p !! arg
  end.

(** Stores the value of an option; [None] when it is not one of its type. *)
Definition store (info : OptionInfo) (optarg : list Z) (p : OptionParser) : option OptionParser :=
  let name := optionName info in
  match optionType info with
  | kOptString =>
      Some (if negb (isMultiValue info) then with_str (<[name := optarg]>) p
            else with_multi (fun m => <[name := default [] (m !! name) ++ [optarg]]> m) p)
  | kOptInt32 =>
      let '(ok, v) := StrToInt32 (Some optarg) 0 in
      if negb ok then None else Some (with_int (<[name := v]>) p)
  | kOptUint32 =>
      let '(ok, v) := StrToInt64 (Some optarg) 0 in
      if negb ok || (v <? 0) || (UINT32_MAX <? v) then None else Some (with_int (<[name := i32 v]>) p)
  | kOptBool => Some (with_bool (<[name := bool_decide (optionAction info = kStoreTrue)]>) p)
  | kOptHelp => Some p
  end.

Fixpoint ParseArgs_loop (argv : list (list Z)) (p : OptionParser) : option (bool * OptionParser) :=
  match argv with
  | [] => Some (true, p)
  | optName :: argv =>
      match find_info optName p with
      | None => ParseArgs_loop argv p
      | Some index =>
          info ← option_infos_ p !! index;
          if bool_decide (optionType info = kOptHelp) then Some (false, p)
          else if HasValue info then
            match argv with
            | [] => Some (false, p)
            | optarg :: argv =>
                if bool_decide (is_Some (short_opt2info_map_ p !! optarg)) || bool_decide (is_Some (long_opt2info_map_ p !! optarg))
                then Some (false, p)
                else
                  let p := with_infos (alter set_isSet index) p in
                  match store info optarg p with
                  | None => Some (false, p)
                  | Some p => ParseArgs_loop argv p
                  end
            end
          else
            let p := with_infos (alter set_isSet index) p in
            match store info [] p with
            | None => Some (false, p)
            | Some p => ParseArgs_loop argv p
            end
      end
  end.

Definition IsValidArgs (p : OptionParser) : bool :=
  forallb (fun info => negb (isRequired info && negb (isSet info))) (option_infos_ p).

Definition ParseArgs (argv : list (list Z)) (p : OptionParser) : option (bool * OptionParser) :=
  '(ok, p) ← ParseArgs_loop argv p;
  if negb ok then Some (false, p) else Some (IsValidArgs p, p).

(** [argv] of a command line. *)
Definition CommandLineParameter_argv (cmd : list Z) : option (list (list Z)) :=
  Tokenize [] cmd (lit " ") (Z.lor kTokenTrim kTokenIgnoreEmpty).

Definition ParseArgs_string (commandString : list Z) (p : OptionParser) : option (bool * OptionParser) :=
  argv ← CommandLineParameter_argv commandString; ParseArgs argv p.

(** The result and the value, the old one when there is none. *)
Definition GetOptionValue_string (optName : list Z) (p : OptionParser) (value : list Z) : bool * list Z :=
  match str_opt_map_ p !! optName with Some v => (true, v) | None => (false, value) end.
Definition GetOptionValue_bool (optName : list Z) (p : OptionParser) (value : bool) : bool * bool :=
  match bool_opt_map_ p !! optName with Some v => (true, v) | None => (false, value) end.
Definition GetOptionValue_int32 (optName : list Z) (p : OptionParser) (value : Z) : bool * Z :=
  match int_opt_map_ p !! optName with Some v => (true, v) | None => (false, value) end.
Definition GetOptionValue_uint32 (optName : list Z) (p : OptionParser) (value : Z) : bool * Z :=
  match int_opt_map_ p !! optName with Some v => (true, u32 v) | None => (false, value) end.
Definition GetOptionValue_vector (optName : list Z) (p : OptionParser) (value : list (list Z)) : bool * list (list Z) :=
  match multi_value_str_opt_map_ p !! optName with Some v => (true, v) | None => (false, value) end.

(** ** The options of a worker *)

Definition kRpcServerThreadNum : list Z := lit "rpc_server_thread_num".
Definition kRpcServerIoThreadNum : list Z := lit "rpc_server_io_thread_num".
Definition kRpcServerQueueSize : list Z := lit "rpc_server_queue_size".

(** The members that [InitOptions] sets. *)
Record WorkerOptions := {
  log_config_file_ : list Z;
  cwd_path_ : list Z;
  thread_num_ : Z;
  io_thread_num_ : Z;
  queue_size_ : Z;
  port_ : Z;
  http_port_ : Z;
}.

(** [kRpcServerThreadNum] and the like are arrays of characters, so that the
    overload for a string is called. *)
Definition worker_parser (p : OptionParser) : OptionParser :=
  let p := AddOption_type (lit "-l") (lit "--logConf") (lit "logConf") kOptString false p in
  let p := AddOption_type (lit "-w") (lit "--workDir") (lit "workDir") kOptString false p in
  let p := AddOption_string (lit "-t") (lit "--threadNum") (lit "threadNum") kRpcServerThreadNum p in
  let p := AddOption_string (lit "-i") (lit "--ioThreadNum") (lit "ioThreadNum") kRpcServerIoThreadNum p in
  let p := AddOption_string (lit "-q") (lit "--queueSize") (lit "queueSize") kRpcServerQueueSize p in
  let p := AddOption_int32 (lit "-p") (lit "--port") (lit "port") 0 p in
  AddOption_int32 [] (lit "--httpPort") (lit "httpPort") 0 p.

Definition InitOptions (argv : list (list Z)) (w : WorkerOptions) : option (bool * WorkerOptions) :=
  '(ok, p) ← ParseArgs argv (worker_parser OptionParser_new);
  if negb ok then Some (false, w)
  else Some (true,
    {| log_config_file_ := snd (GetOptionValue_string (lit "logConf") p (log_config_file_ w));
       cwd_path_ := snd (GetOptionValue_string (lit "workDir") p (cwd_path_ w));
       thread_num_ := snd (GetOptionValue_uint32 (lit "threadNum") p (thread_num_ w));
       io_thread_num_ := snd (GetOptionValue_uint32 (lit "ioThreadNum") p (io_thread_num_ w));
       queue_size_ := snd (GetOptionValue_uint32 (lit "queueSize") p (queue_size_ w));
       port_ := snd (GetOptionValue_int32 (lit "port") p (port_ w));
       http_port_ := snd (GetOptionValue_int32 (lit "httpPort") p (http_port_ w)) |}).

(** ** What a command line says *)

(** Words that are not options are skipped; an option that has no value stands
    alone, one that has a value is followed by a word that is not the name of
    an option; the first word may be an option too.  A setting is the place of
    an option and its value. *)
Inductive says (p : OptionParser) : list (list Z) -> list (nat * OptionInfo * list Z) -> Prop :=
| says_nothing : says p [] []
| says_word a argv s : find_info a p = None -> says p argv s -> says p (a :: argv) s
| says_flag a argv s i info : find_info a p = Some i -> option_infos_ p !! i = Some info -> optionType info <> kOptHelp ->
    HasValue info = false -> says p argv s -> says p (a :: argv) ((i, info, []) :: s)
| says_value a v argv s i info : find_info a p = Some i -> option_infos_ p !! i = Some info -> optionType info <> kOptHelp ->
    HasValue info = true -> find_info v p = None -> says p argv s -> says p (a :: v :: argv) ((i, info, v) :: s).

(** The number that the value of an option of a numeric type denotes. *)
Definition number (info : OptionInfo) (v : list Z) (n : Z) : Prop :=
  match optionType info with
  | kOptInt32 => denotes v n /\ INT_MIN <= n <= INT_MAX
  | kOptUint32 => exists m, denotes v m /\ 0 <= m <= UINT32_MAX /\ n = i32 m
  | _ => False
  end.

Definition numeric (info : OptionInfo) : bool :=
  match optionType info with kOptInt32 | kOptUint32 => true | _ => false end.

Definition valid (info : OptionInfo) (v : list Z) : Prop := numeric info = true -> exists n, number info v n.

(** The last setting of an option wins. *)
Inductive last_number (n : list Z) : list (nat * OptionInfo * list Z) -> option Z -> option Z -> Prop :=
| last_number_nil o : last_number n [] o o
| last_number_other i info v s o r : numeric info = false \/ optionName info <> n -> last_number n s o r -> last_number n ((i, info, v) :: s) o r
| last_number_set i info v s o k r : numeric info = true -> optionName info = n -> number info v k -> last_number n s (Some k) r ->
    last_number n ((i, info, v) :: s) o r.

Fixpoint last_string (n : list Z) (s : list (nat * OptionInfo * list Z)) (o : option (list Z)) : option (list Z) :=
  match s with
  | [] => o
  | (_, info, v) :: s =>
      last_string n s (if bool_decide (optionType info = kOptString) && bool_decide (optionName info = n) then Some v else o)
  end.

Fixpoint last_bool (n : list Z) (s : list (nat * OptionInfo * list Z)) (o : option bool) : option bool :=
  match s with
  | [] => o
  | (_, info, _) :: s =>
      last_bool n s (if bool_decide (optionType info = kOptBool) && bool_decide (optionName info = n)
                     then Some (bool_decide (optionAction info = kStoreTrue)) else o)
  end.

(** Parsers with the same options, some of them set. *)
Definition alike (p q : OptionParser) : Prop :=
  short_opt2info_map_ q = short_opt2info_map_ p /\ long_opt2info_map_ q = long_opt2info_map_ p /\
  forall i, set_isSet <$> option_infos_ q !! i = set_isSet <$> option_infos_ p !! i.

#[export] Instance alike_preorder : PreOrder alike.
Proof. split; [done|]. intros p q r (? & ? & Hi) (? & ? & Hj). split; [congruence|]. split; [congruence|]. intros i. by rewrite Hj, Hi. Qed.

Lemma alike_find p q a : alike p q -> find_info a q = find_info a p.
Proof. intros (Hs & Hl & _). unfold find_info. by rewrite Hs, Hl. Qed.

Lemma alike_info p q i info : alike p q -> option_infos_ p !! i = Some info ->
  exists info', option_infos_ q !! i = Some info' /\ set_isSet info' = set_isSet info.
Proof.
  intros (_ & _ & Hi) E. specialize (Hi i). rewrite E in Hi. destruct (option_infos_ q !! i) as [info'|]; [|done].
  exists info'. split; [done|]. cbn in Hi. congruence.
Qed.

(** Every name leads to an option, and none has many values. *)
Definition options_ok (p : OptionParser) : Prop :=
  (forall a i, find_info a p = Some i -> is_Some (option_infos_ p !! i)) /\
  forall i info, option_infos_ p !! i = Some info -> isMultiValue info = false.

(** What the settings [s] make of [p]. *)
Definition settles (p : OptionParser) (s : list (nat * OptionInfo * list Z)) (q : OptionParser) : Prop :=
  (forall n, str_opt_map_ q !! n = last_string n s (str_opt_map_ p !! n)) /\
  (forall n, bool_opt_map_ q !! n = last_bool n s (bool_opt_map_ p !! n)) /\
  (forall n, last_number n s (int_opt_map_ p !! n) (int_opt_map_ q !! n)) /\
  multi_value_str_opt_map_ q = multi_value_str_opt_map_ p /\
  forall i info, option_infos_ q !! i = Some info -> isSet info = true <-> (isSet <$> option_infos_ p !! i = Some true) \/ i ∈ s.*1.*1.

Lemma store_number info v p q : numeric info = true -> store info v p = Some q ->
  exists k, number info v k /\ q = with_int (<[optionName info := k]>) p.
Proof.
  unfold numeric, store, number. destruct (optionType info); try done; intros _.
  - pose proof (StrToInt32_spec v 0) as Hs. destruct (StrToInt32 (Some v) 0) as [[] k]; [|done]. intros [= <-]. exists k.
    split; [by apply Hs|done].
  - pose proof (StrToInt64_spec v 0) as Hs. destruct (StrToInt64 (Some v) 0) as [[] k]; [|done]. cbn [negb orb].
    destruct ((k <? 0) || (UINT32_MAX <? k)) eqn:Hr; [done|]. intros [= <-]. bool_to_prop. exists (i32 k). split; [|done].
    exists k. split; [by apply Hs|]. lia.
Qed.

Lemma store_valid info v p : valid info v -> is_Some (store info v p).
Proof.
  unfold valid, store, numeric, number. destruct (optionType info); intros Hv; try by eexists.
  - destruct (Hv eq_refl) as (n & Hn). rewrite (proj2 (StrToInt32_spec v 0 n) Hn). by eexists.
  - destruct (Hv eq_refl) as (n & m & Hm & Hr & _). unfold UINT32_MAX in *. rewrite (proj2 (StrToInt64_spec v 0 m)) by (split; [done|lia]).
    cbn [negb orb]. rewrite (proj2 (Z.ltb_ge _ _)), (proj2 (Z.ltb_ge _ _)) by lia. by eexists.
Qed.

(** The cases of a value that was stored. *)
Ltac store_cases E Hmulti :=
  unfold store in E; rewrite Hmulti in E;
  match type of E with context [optionType ?i] => let H := fresh "Hty" in destruct (optionType i) eqn:H end; cbn [negb] in E;
  repeat match type of E with context [match ?x with _ => _ end] => destruct x end; simplify_eq.

(** One setting. *)
Lemma store_settles p i info v s q r : option_infos_ p !! i = Some info -> isMultiValue info = false -> optionType info <> kOptHelp ->
  store info v (with_infos (alter set_isSet i) p) = Some q -> settles q s r -> forall info0, set_isSet info0 = set_isSet info ->
  settles p ((i, info0, v) :: s) r.
Proof.
  intros Hi Hmu Hh E (H1 & H2 & H3 & H4 & H5) info0 E0.
  assert (Ht : optionType info0 = optionType info /\ optionName info0 = optionName info /\ optionAction info0 = optionAction info) by (by injection E0).
  destruct Ht as (Ht & Hn & Ha). set (p1 := with_infos _ p) in E.
  assert (Hset : option_infos_ q = alter set_isSet i (option_infos_ p)).
  { store_cases E Hmu; done. }
  assert (Hmulti : multi_value_str_opt_map_ q = multi_value_str_opt_map_ p).
  { store_cases E Hmu; done. }
  split_and!.
  - intros n. rewrite H1. cbn [last_string]. rewrite Ht, Hn. f_equal. store_cases E Hmu; try done.
    rewrite (bool_decide_true (kOptString = kOptString)) by done. cbn [andb str_opt_map_ bool_opt_map_ with_str with_infos].
    destruct (decide (optionName info = n)) as [<-|Hne]; [by rewrite bool_decide_true, lookup_insert_eq by done|].
    by rewrite bool_decide_false, lookup_insert_ne by done.
  - intros n. rewrite H2. cbn [last_bool]. rewrite Ht, Hn, Ha. f_equal. store_cases E Hmu; try done.
    rewrite (bool_decide_true (kOptBool = kOptBool)) by done. cbn [andb bool_opt_map_ with_bool with_infos].
    destruct (decide (optionName info = n)) as [<-|Hne]; [by rewrite (bool_decide_true (optionName info = optionName info)), lookup_insert_eq by done|].
    by rewrite (bool_decide_false (optionName info = n)), lookup_insert_ne by done.
  - intros n. specialize (H3 n). destruct (numeric info) eqn:Hnum.
    + destruct (store_number _ _ _ _ Hnum E) as (k & Hk & ->). assert (Hnum0 : numeric info0 = true) by (unfold numeric in *; by rewrite Ht).
      assert (Hk0 : number info0 v k) by (unfold number in *; by rewrite Ht). cbn in H3.
      destruct (decide (optionName info = n)) as [<-|Hne].
      * rewrite lookup_insert_eq in H3. by eapply last_number_set.
      * rewrite lookup_insert_ne in H3 by done. apply last_number_other; [right; by rewrite Hn|done].
    + apply last_number_other; [left; unfold numeric in *; by rewrite Ht|]. replace (int_opt_map_ p !! n) with (int_opt_map_ q !! n); [done|].
      unfold numeric in Hnum. store_cases E Hmu; done.
  - congruence.
  - intros j infoj Hj. rewrite (H5 j infoj Hj), Hset. cbn [fmap list_fmap fst]. rewrite elem_of_cons, list_lookup_alter.
    case_decide as Hd; [subst j; rewrite Hi; cbn; naive_solver|]. naive_solver.
Qed.

Lemma store_alike p i info v q : isMultiValue info = false -> store info v (with_infos (alter set_isSet i) p) = Some q -> alike p q.
Proof.
  intros Hmu E. assert (Hi : forall j, set_isSet <$> alter set_isSet i (option_infos_ p) !! j = set_isSet <$> option_infos_ p !! j).
  { intros j. rewrite list_lookup_alter. case_decide as Hj; [|done]. subst j. by destruct (option_infos_ p !! i). }
  store_cases E Hmu; (split; [done|]); (split; [done|exact Hi]).
Qed.

Lemma alike_options_ok p q : alike p q -> options_ok p -> options_ok q.
Proof.
  intros Ha [H1 H2]. split.
  - intros a i Hf. rewrite (alike_find p q a Ha) in Hf. destruct (H1 a i Hf) as [info E].
    destruct (alike_info p q i info Ha E) as (info' & ? & _). by exists info'.
  - intros i info E. assert (Ha' : alike q p) by (destruct Ha as (? & ? & ?); by split_and!).
    destruct (alike_info q p i info Ha' E) as (info' & E' & Es). specialize (H2 i info' E'). by injection Es as _ _ _ _ <-.
Qed.

Lemma find_info_names v p : bool_decide (is_Some (short_opt2info_map_ p !! v)) || bool_decide (is_Some (long_opt2info_map_ p !! v)) = false <->
  find_info v p = None.
Proof.
  unfold find_info. destruct (short_opt2info_map_ p !! v) as [i|] eqn:E1.
  - rewrite bool_decide_true by done. done.
  - rewrite bool_decide_false by (intros [? ?]; done). cbn [orb]. rewrite bool_decide_eq_false. destruct (long_opt2info_map_ p !! v).
    + split; [intros Hn; by destruct Hn|done].
    + split; [done|by intros _ []].
Qed.

(** The loop reads the settings that the command line says, for the parser
    [p0] that has the same options. *)
Lemma ParseArgs_loop_spec p0 : options_ok p0 -> forall len argv p, (length argv <= len)%nat -> alike p0 p ->
  exists ok q, ParseArgs_loop argv p = Some (ok, q) /\
    (ok = true -> alike p0 q /\ exists s, says p0 argv s /\ settles p s q /\ Forall (fun x => valid (x.1.2) (x.2)) s) /\
    (forall s, says p0 argv s -> Forall (fun x => valid (x.1.2) (x.2)) s -> ok = true).
Proof.
  intros Hok0. induction len as [|len IH]; intros argv p Hlen Hal; (destruct argv as [|a argv]; [|cbn in Hlen; try lia]).
  1,2: exists true, p; split_and!; [done| |done]; intros _; (split; [done|]); exists []; (split_and!; [constructor| |constructor]);
    (split_and!; [done|done|intros n; constructor|done|]); intros i info E; rewrite E; cbn; split; [intros ->; by left|intros [[=]|?%not_elem_of_nil]; done].
  cbn [ParseArgs_loop]. rewrite (alike_find p0 p a Hal). destruct (find_info a p0) as [i|] eqn:Hf.
  2: { destruct (IH argv p ltac:(lia) Hal) as (ok & q & E & Hs & Hc). exists ok, q. split_and!; [done| |].
    - intros Ho. destruct (Hs Ho) as (Hq & s & ? & ?). split; [done|]. exists s. split; [by constructor|done].
    - intros s Hsay. inversion Hsay; subst; [by apply Hc|congruence|congruence]. }
  destruct (proj1 Hok0 a i Hf) as [info0 Hi0]. destruct (alike_info p0 p i info0 Hal Hi0) as (info & Hi & Es).
  rewrite Hi. cbn [mbind option_bind]. pose proof Es as [= Ht Ha Hn Hr Hm].
  assert (Hmu : isMultiValue info = false) by (rewrite Hm; by apply (proj2 Hok0 i)).
  assert (Hval : HasValue info = HasValue info0) by (unfold HasValue; by rewrite Ha).
  assert (Hvalid : forall v, valid info0 v -> valid info v) by (intros v; unfold valid, numeric, number; by rewrite Ht).
  case_bool_decide as Hh.
  { exists false, p. split_and!; [done|done|]. intros s Hsay. inversion Hsay; subst; simplify_eq; congruence. }
  (* a setting with the value v *)
  assert (Hset : forall v rest, (length rest <= len)%nat ->
    (forall s, says p0 (a :: argv) s -> exists s', s = (i, info0, v) :: s' /\ says p0 rest s') ->
    (forall s', says p0 rest s' -> says p0 (a :: argv) ((i, info0, v) :: s')) ->
    exists ok q, match store info v (with_infos (alter set_isSet i) p) with
                 | None => Some (false, with_infos (alter set_isSet i) p) | Some p => ParseArgs_loop rest p end = Some (ok, q) /\
      (ok = true -> alike p0 q /\ exists s, says p0 (a :: argv) s /\ settles p s q /\ Forall (fun x => valid (x.1.2) (x.2)) s) /\
      (forall s, says p0 (a :: argv) s -> Forall (fun x => valid (x.1.2) (x.2)) s -> ok = true)).
  { intros v rest Hrest Hinv Hsay. destruct (store info v _) as [p1|] eqn:E1.
    - destruct (IH rest p1 Hrest) as (ok & q & E & Hs & Hc); [etrans; [done|by eapply store_alike]|]. exists ok, q. split_and!; [done| |].
      + intros Ho. destruct (Hs Ho) as (Hq & s & Hsay1 & Hset & Hv). split; [done|]. exists ((i, info0, v) :: s). split_and!; [by apply Hsay| |].
        * by apply (store_settles p i info v s p1 q).
        * constructor; [|done]. cbn. intros Hnum. assert (Hnum' : numeric info = true) by (unfold numeric in *; by rewrite Ht).
          destruct (store_number _ _ _ _ Hnum' E1) as (k & Hk & _). exists k. unfold number in *. by rewrite <- Ht.
      + intros s Hs1 Hv. destruct (Hinv s Hs1) as (s' & -> & Hs'). inversion_clear Hv. by apply (Hc s').
    - eexists false, _. split_and!; [done|done|]. intros s Hs1 Hv. destruct (Hinv s Hs1) as (s' & -> & Hs'). inversion_clear Hv as [|? ? Hv0 _].
      destruct (store_valid info v (with_infos (alter set_isSet i) p) (Hvalid v Hv0)) as [? ?]. congruence. }
  destruct (HasValue info) eqn:Hhv.
  - destruct argv as [|v argv].
    { exists false, p. split_and!; [done|done|]. intros s Hsay. inversion Hsay; subst; simplify_eq. congruence. }
    assert (Hnames : bool_decide (is_Some (short_opt2info_map_ p !! v)) || bool_decide (is_Some (long_opt2info_map_ p !! v)) = false <-> find_info v p0 = None).
    { rewrite find_info_names. by rewrite (alike_find p0 p v Hal). }
    destruct (_ || _) eqn:Hb.
    { exists false, p. split_and!; [done|done|]. intros s Hsay. inversion Hsay; subst; simplify_eq; [congruence|]. naive_solver. }
    apply Hset; [cbn in Hlen; lia| |].
    + intros s Hsay. inversion Hsay; subst; simplify_eq; [congruence|]. eauto.
    + intros s' Hs'. apply says_value; try done; [by rewrite <- Ht|by apply Hnames].
  - apply Hset; [lia| |].
    + intros s Hsay. inversion Hsay; subst; simplify_eq; [eauto|congruence].
    + intros s' Hs'. apply says_flag; try done; by rewrite <- Ht.
Qed.

Lemma says_functional p argv s s' : says p argv s -> says p argv s' -> s = s'.
Proof.
  intros Hs. revert s'. induction Hs as [|a argv s Hf Hs IH|a argv s i info Hf Hi Hh Hv Hs IH|a v argv s i info Hf Hi Hh Hv Hn Hs IH];
    intros s' Hs'; inversion Hs'; subst; simplify_eq; try congruence; try by apply IH.
  - f_equal. by apply IH.
  - f_equal. by apply IH.
Qed.

Lemma says_infos p argv s : says p argv s -> Forall (fun x => option_infos_ p !! x.1.1 = Some (x.1.2)) s.
Proof. induction 1; try constructor; done. Qed.

(** C37: [ParseArgs] succeeds exactly when the words of the command line can be
    read as settings with valid values that give every required option, and
    then each option has the value of its last setting and the others keep
    theirs. *)
Theorem parse_args_meaning p argv :
  options_ok p ->
  exists ok q, ParseArgs argv p = Some (ok, q) /\
    (ok = true <-> exists s, says p argv s /\ Forall (fun x => valid (x.1.2) (x.2)) s /\
       forall i info, option_infos_ p !! i = Some info -> isRequired info = true -> isSet info = true \/ i ∈ s.*1.*1) /\
    (ok = true -> exists s, says p argv s /\ settles p s q).
Proof.
  intros Hok. destruct (ParseArgs_loop_spec p Hok (length argv) argv p) as (ok & q & E & Hs & Hc); [lia|done|].
  unfold ParseArgs. rewrite E. cbn [mbind option_bind]. destruct ok; cbn [negb].
  - destruct (Hs eq_refl) as (Hal & s & Hsay & Hset & Hv). exists (IsValidArgs q), q. split_and!; [done| |by intros _; exists s].
    destruct Hset as (_ & _ & _ & _ & H5). unfold IsValidArgs. rewrite forallb_forall. split.
    + intros Hr. exists s. split_and!; [done|done|]. intros i info Hi Hreq.
      destruct (alike_info p q i info Hal Hi) as (info' & Hi' & [= _ _ _ Hr' _]).
      assert (Hset : isSet info' = true).
      { assert (Hin : In info' (option_infos_ q)) by (by apply list_elem_of_In, (list_elem_of_lookup_2 _ i)).
        specialize (Hr info' Hin). rewrite Hr', Hreq in Hr. by destruct (isSet info'). }
      apply (H5 i info' Hi') in Hset as [Hset|]; [|by right]. left. rewrite Hi in Hset. cbn in Hset. congruence.
    + intros (s' & Hsay' & _ & Hreq) info' Hin. rewrite (says_functional _ _ _ _ Hsay' Hsay) in Hreq.
      apply list_elem_of_In, list_elem_of_lookup_1 in Hin as [i Hi'].
      assert (Hal' : alike q p) by (destruct Hal as (? & ? & ?); by split_and!).
      destruct (alike_info q p i info' Hal' Hi') as (info & Hi & [= _ _ _ Hr' _]).
      destruct (isRequired info') eqn:Hr; [|done]. cbn [andb]. rewrite (proj2 (H5 i info' Hi')); [done|].
      rewrite Hi. cbn. destruct (Hreq i info Hi) as [->|?]; [congruence|by left|by right].
  - exists false, q. split_and!; [done| |done]. split; [done|]. intros (s & Hsay & Hv & _). by apply (Hc s).
Qed.

(** A number that nothing sets. *)
Lemma last_number_unset n s o r : Forall (fun x => numeric (x.1.2) = true -> optionName (x.1.2) <> n) s -> last_number n s o r -> r = o.
Proof. intros Hs. induction 1 as [|i info v s o r _ _ IH|i info v s o k r Hnum Hn _ _ _]; [done| |]; inversion_clear Hs as [|? ? H1 H2]; [by apply IH|by destruct (H1 Hnum)]. Qed.

Lemma last_number_total n s o r : is_Some o -> last_number n s o r -> is_Some r.
Proof. intros Ho. induction 1 as [|? ? ? ? ? ? _ _ IH|? ? ? ? ? ? ? _ _ _ _ IH]; [done|by apply IH|]. apply IH. by eexists. Qed.

(** What the options of a worker are. *)
Lemma worker_infos : Forall (fun info => isMultiValue info = false /\
    negb (numeric info && bool_decide (optionName info ∈ [lit "threadNum"; lit "ioThreadNum"; lit "queueSize"])) = true)
  (option_infos_ (worker_parser OptionParser_new)).
Proof. vm_compute. repeat constructor. Qed.

Lemma worker_names : map_Forall (fun _ i => (i < 7)%nat) (short_opt2info_map_ (worker_parser OptionParser_new)) /\
  map_Forall (fun _ i => (i < 7)%nat) (long_opt2info_map_ (worker_parser OptionParser_new)).
Proof. split; apply (bool_decide_unpack _); vm_compute; exact I. Qed.

Lemma worker_infos_length : length (option_infos_ (worker_parser OptionParser_new)) = 7%nat.
Proof. vm_compute. reflexivity. Qed.

(** The values before the parse. *)
Lemma worker_defaults : let p := worker_parser OptionParser_new in
  int_opt_map_ p !! lit "threadNum" = None /\ int_opt_map_ p !! lit "ioThreadNum" = None /\ int_opt_map_ p !! lit "queueSize" = None /\
  int_opt_map_ p !! lit "port" = Some 0 /\ int_opt_map_ p !! lit "httpPort" = Some 0 /\
  str_opt_map_ p !! lit "logConf" = None /\ str_opt_map_ p !! lit "workDir" = None.
Proof. vm_compute. repeat split. Qed.

Lemma worker_parser_ok : options_ok (worker_parser OptionParser_new).
Proof.
  destruct worker_names as [Hs Hl]. pose proof worker_infos as Hi. pose proof worker_infos_length as Hlen.
  revert Hs Hl Hi Hlen. generalize (worker_parser OptionParser_new). intros p Hs Hl Hi Hlen. split.
  - intros a i Hf. apply lookup_lt_is_Some. rewrite Hlen. unfold find_info in Hf.
    destruct (short_opt2info_map_ p !! a) as [j|] eqn:E1; [injection Hf as <-; apply (Hs a j E1)|apply (Hl a i Hf)].
  - intros i info E. rewrite Forall_forall in Hi. apply (Hi info). by eapply list_elem_of_lookup_2.
Qed.

(** The options of a worker.  [InitOptions] always returns; its ports are
    those of the last options, or 0.  The numbers of threads and the size of
    the queue are never set, with whatever options: they are declared with the
    name of a setting as a default text, and read as numbers. *)
Theorem worker_thread_numbers_never_set argv w :
  exists ok w', InitOptions argv w = Some (ok, w') /\
    thread_num_ w' = thread_num_ w /\ io_thread_num_ w' = io_thread_num_ w /\ queue_size_ w' = queue_size_ w /\
    (ok = true -> exists s, says (worker_parser OptionParser_new) argv s /\
       last_number (lit "port") s (Some 0) (Some (port_ w')) /\ last_number (lit "httpPort") s (Some 0) (Some (http_port_ w')) /\
       log_config_file_ w' = default (log_config_file_ w) (last_string (lit "logConf") s None) /\
       cwd_path_ w' = default (cwd_path_ w) (last_string (lit "workDir") s None)).
Proof.
  unfold InitOptions, ParseArgs. set (p := worker_parser OptionParser_new).
  destruct (ParseArgs_loop_spec p worker_parser_ok (length argv) argv p) as (ok & q & -> & Hs & _); [lia|done|].
  cbn [mbind option_bind]. destruct ok; cbn [negb]; [|by exists false, w].
  destruct (IsValidArgs q); cbn [negb]; [|by exists false, w].
  destruct (Hs eq_refl) as (_ & s & Hsay & (H1 & _ & H3 & _) & _).
  destruct worker_defaults as (D1 & D2 & D3 & D4 & D5 & D6 & D7). fold p in D1, D2, D3, D4, D5, D6, D7.
  assert (Hunset : forall n, n ∈ [lit "threadNum"; lit "ioThreadNum"; lit "queueSize"] -> int_opt_map_ p !! n = None -> int_opt_map_ q !! n = None).
  { intros n Hn Hp. specialize (H3 n). rewrite Hp in H3. apply (last_number_unset n s); [|done].
    eapply Forall_impl; [exact (says_infos _ _ _ Hsay)|]. intros [[i info] v]. cbn [fst snd]. intros Hi Hnum Hname.
    pose proof worker_infos as Hw. rewrite Forall_forall in Hw. destruct (Hw info) as [_ Hw']; [by eapply list_elem_of_lookup_2|].
    rewrite Hnum, Hname, bool_decide_true in Hw' by done. done. }
  assert (Hport : forall n, int_opt_map_ p !! n = Some 0 -> exists k, int_opt_map_ q !! n = Some k /\ last_number n s (Some 0) (Some k)).
  { intros n Hp. specialize (H3 n). rewrite Hp in H3. destruct (last_number_total n s (Some 0) _ ltac:(by eexists) H3) as [k Hk].
    exists k. by rewrite Hk in *. }
  eexists true, _. split; [done|]. cbn [thread_num_ io_thread_num_ queue_size_ port_ http_port_ log_config_file_ cwd_path_].
  unfold GetOptionValue_uint32, GetOptionValue_int32, GetOptionValue_string. 
  rewrite (Hunset (lit "threadNum")), (Hunset (lit "ioThreadNum")), (Hunset (lit "queueSize")) by (done || by repeat (apply elem_of_cons; (by left) || right)).
  destruct (Hport _ D4) as (k1 & -> & Hk1). destruct (Hport _ D5) as (k2 & -> & Hk2).
  split_and!; try done. intros _. exists s. split_and!; try done.
  - rewrite H1, D6. by destruct (last_string _ _ _).
  - rewrite H1, D7. by destruct (last_string _ _ _).
Qed.

(** ** Examples *)

Definition argv_t : list (list Z) := lit <$> ["worker"; "-t"; "4"; "-p"; "80"; "--port"; "8080"]%string.
Definition options0 : WorkerOptions :=
  {| log_config_file_ := []; cwd_path_ := []; thread_num_ := 17; io_thread_num_ := 17; queue_size_ := 17; port_ := 17; http_port_ := 17 |}.

Example worker_with_threads : exists w, InitOptions argv_t options0 = Some (true, w) /\ thread_num_ w = 17 /\ port_ w = 8080 /\ http_port_ w = 0.
Proof. eexists. split; [vm_compute; reflexivity|done]. Qed.

Lemma parse_args_meaning_witness :
  exists q, ParseArgs argv_t (worker_parser OptionParser_new) = Some (true, q) /\ exists s, says (worker_parser OptionParser_new) argv_t s /\
    settles (worker_parser OptionParser_new) s q.
Proof.
  destruct (parse_args_meaning (worker_parser OptionParser_new) argv_t worker_parser_ok) as (ok & q & E & _ & Hs).
  assert (ok = true) as -> by (vm_compute in E; by injection E). exists q. split; [exact E|]. exact (Hs eq_refl).
Defined.

Example command_line : CommandLineParameter_argv (lit "worker  -p 80 ") = Some [lit "worker"; lit "-p"; lit "80"].
Proof. vm_compute. reflexivity. Qed.
