(* ===== verification/Logger.v ===== *)
(** * The loggers of alog

    Sources: src/agent_engine/alog/include/alog/Logger.h,
    src/agent_engine/alog/src/cpp/Logger.cpp.

    Loggers are objects on a heap, in a tree that follows the dots of their
    names; a pointer is the number of an object, and those of appenders are
    numbers too.  What appenders are told goes to the trace [out].  Each
    operation on the tree is a function; the locks are those of the map, of the
    root and of a set of appenders.  The orders in which a set of appenders, that
    of their addresses, and the map, that of the names, are walked are
    parameters.  [None] is the use of a null or
    freed pointer, or a failed assertion.  Messages are given as they are after
    [vsnprintf]. *)

From stdpp Require Import gmap sorting.
From S2P Require Import Prelude CString.

Definition LOG_LEVEL_DISABLE : Z := 0.
Definition LOG_LEVEL_FATAL : Z := LOG_LEVEL_DISABLE + 1.
Definition LOG_LEVEL_ERROR : Z := LOG_LEVEL_FATAL + 1.
Definition LOG_LEVEL_WARN : Z := LOG_LEVEL_ERROR + 1.
Definition LOG_LEVEL_INFO : Z := LOG_LEVEL_WARN + 1.
Definition LOG_LEVEL_DEBUG : Z := LOG_LEVEL_INFO + 1.
Definition LOG_LEVEL_TRACE1 : Z := LOG_LEVEL_DEBUG + 1.
Definition LOG_LEVEL_TRACE2 : Z := LOG_LEVEL_TRACE1 + 1.
Definition LOG_LEVEL_TRACE3 : Z := LOG_LEVEL_TRACE2 + 1.
Definition LOG_LEVEL_NOTSET : Z := LOG_LEVEL_TRACE3 + 1.
Definition LOG_LEVEL_COUNT : Z := LOG_LEVEL_NOTSET + 1.

Record Logger := {
  m_appenderSet : gset nat;
  m_loggerName : list Z;
  m_loggerLevel : Z;
  m_bLevelSet : bool;
  m_parent : option nat;
  m_children : list nat;
  m_bInherit : bool;
}.

Record LoggingEvent := { loggerName : list Z; message : list Z; level : Z }.

Inductive output :=
| OAppend (appender : nat) (e : LoggingEvent)
| OFlush (appender : nat)
| OAbort.

Record Loggers := {
  heap : gmap nat Logger;
  next : nat;                              (* the objects made so far *)
  s_rootLogger : option nat;
  s_loggerMap : option (gmap (list Z) nat);
  out : list output;
}.

Definition Loggers_new : Loggers := {| heap := ∅; next := 0; s_rootLogger := None; s_loggerMap := None; out := [] |}.

Definition with_level (l : Z) (g : Logger) : Logger :=
  {| m_appenderSet := m_appenderSet g; m_loggerName := m_loggerName g; m_loggerLevel := l; m_bLevelSet := m_bLevelSet g;
     m_parent := m_parent g; m_children := m_children g; m_bInherit := m_bInherit g |}.
Definition with_levelSet (b : bool) (g : Logger) : Logger :=
  {| m_appenderSet := m_appenderSet g; m_loggerName := m_loggerName g; m_loggerLevel := m_loggerLevel g; m_bLevelSet := b;
     m_parent := m_parent g; m_children := m_children g; m_bInherit := m_bInherit g |}.
Definition with_inherit (b : bool) (g : Logger) : Logger :=
  {| m_appenderSet := m_appenderSet g; m_loggerName := m_loggerName g; m_loggerLevel := m_loggerLevel g; m_bLevelSet := m_bLevelSet g;
     m_parent := m_parent g; m_children := m_children g; m_bInherit := b |}.
Definition with_child (c : nat) (g : Logger) : Logger :=
  {| m_appenderSet := m_appenderSet g; m_loggerName := m_loggerName g; m_loggerLevel := m_loggerLevel g; m_bLevelSet := m_bLevelSet g;
     m_parent := m_parent g; m_children := m_children g ++ [c]; m_bInherit := m_bInherit g |}.
Definition with_appenders (a : gset nat) (g : Logger) : Logger :=
  {| m_appenderSet := a; m_loggerName := m_loggerName g; m_loggerLevel := m_loggerLevel g; m_bLevelSet := m_bLevelSet g;
     m_parent := m_parent g; m_children := m_children g; m_bInherit := m_bInherit g |}.

Definition with_heap (f : gmap nat Logger -> gmap nat Logger) (s : Loggers) : Loggers :=
  {| heap := f (heap s); next := next s; s_rootLogger := s_rootLogger s; s_loggerMap := s_loggerMap s; out := out s |}.
Definition with_root (r : option nat) (s : Loggers) : Loggers :=
  {| heap := heap s; next := next s; s_rootLogger := r; s_loggerMap := s_loggerMap s; out := out s |}.
Definition with_map (m : option (gmap (list Z) nat)) (s : Loggers) : Loggers :=
  {| heap := heap s; next := next s; s_rootLogger := s_rootLogger s; s_loggerMap := m; out := out s |}.
Definition emit (o : list output) (s : Loggers) : Loggers :=
  {| heap := heap s; next := next s; s_rootLogger := s_rootLogger s; s_loggerMap := s_loggerMap s; out := out s ++ o |}.

(** [p->field = ...] *)
Definition update (x : nat) (f : Logger -> Logger) (s : Loggers) : option Loggers :=
  g ← heap s !! x; Some (with_heap (<[x := f g]>) s).

(** ** The tree *)

(** [new Logger(...)] *)
Definition new_logger (name : list Z) (lv : Z) (parent : option nat) (bInherit : bool) (s : Loggers) : nat * Loggers :=
  let g := {| m_appenderSet := ∅; m_loggerName := name; m_loggerLevel := lv; m_bLevelSet := false; m_parent := parent;
              m_children := []; m_bInherit := bInherit |} in
  (next s, {| heap := <[next s := g]> (heap s); next := S (next s); s_rootLogger := s_rootLogger s; s_loggerMap := s_loggerMap s; out := out s |}).

Definition getRootLogger (s : Loggers) : nat * Loggers :=
  match s_rootLogger s with
  | Some r => (r, s)
  | None => let '(r, s) := new_logger [] LOG_LEVEL_INFO None true s in (r, with_root (Some r) s)
  end.

(** The part before the last dot, if there is one. *)
Fixpoint before_last_dot (name : list Z) : option (list Z) :=
  match name with
  | [] => None
  | c :: name =>
      match before_last_dot name with
      | Some p => Some (c :: p)
      | None => if c =? 46 then Some [] else None
      end
  end.

Fixpoint getLogger_loop (fuel : nat) (name : list Z) (bInherit : bool) (s : Loggers) : option (nat * Loggers) :=
  match fuel with
  | O => None
  | Datatypes.S fuel =>
      m ← s_loggerMap s;
      match m !! name with
      | Some x => Some (x, s)
      | None =>
          '(parent, s) ← match before_last_dot name with
                         | None => Some (getRootLogger s)
                         | Some parentName => getLogger_loop fuel parentName true s
                         end;
          gp ← heap s !! parent;
          let '(result, s) := new_logger name (m_loggerLevel gp) (Some parent) bInherit s in
          s ← update parent (with_child result) s;
          m ← s_loggerMap s;
          Some (result, with_map (Some (match m !! name with Some _ => m | None => <[name := result]> m end)) s)
      end
  end.

Definition getLogger (name : list Z) (bInherit : bool) (s : Loggers) : option (nat * Loggers) :=
  let s := match s_loggerMap s with Some _ => s | None => with_map (Some ∅) s end in
  getLogger_loop (S (length name)) name bInherit s.

(** ** Levels *)

Definition getLevel (x : nat) (s : Loggers) : option Z := g ← heap s !! x; Some (m_loggerLevel g).

(** [for (i = 0; i < childCnt; i++) m_children[i]->setLevelByParent(level)] *)
Fixpoint tell_children (setLevelByParent : nat -> Z -> Loggers -> option Loggers) (l : list nat) (lv : Z) (s : Loggers) : option Loggers :=
  match l with
  | [] => Some s
  | c :: l => s ← setLevelByParent c lv s; tell_children setLevelByParent l lv s
  end.

Fixpoint setLevelByParent (fuel : nat) (x : nat) (lv : Z) (s : Loggers) : option Loggers :=
  match fuel with
  | O => None
  | Datatypes.S fuel =>
      g ← heap s !! x;
      if LOG_LEVEL_COUNT <=? lv then Some s
      else if negb (m_bInherit g) || m_bLevelSet g then Some s
      else
        let lv := if lv =? LOG_LEVEL_NOTSET then LOG_LEVEL_INFO else lv in
        s ← update x (with_level lv) s;
        tell_children (setLevelByParent fuel) (m_children g) lv s
  end.

(** The rest of an operation that has changed the level of [x]. *)
Definition tell_all (x : nat) (s : Loggers) : option Loggers :=
  g ← heap s !! x; tell_children (setLevelByParent (next s)) (m_children g) (m_loggerLevel g) s.

Definition setLevel (x : nat) (lv : Z) (s : Loggers) : option Loggers :=
  g ← heap s !! x;
  if LOG_LEVEL_COUNT <=? lv then Some s
  else
    new ← (if (lv =? LOG_LEVEL_NOTSET) && m_bInherit g then match m_parent g with Some p => getLevel p s | None => Some lv end else Some lv);
    let new := if new =? LOG_LEVEL_NOTSET then LOG_LEVEL_INFO else new in
    s ← update x (fun g => with_levelSet (negb (lv =? LOG_LEVEL_NOTSET)) (with_level new g)) s;
    tell_all x s.

Definition getInheritFlag (x : nat) (s : Loggers) : option bool := g ← heap s !! x; Some (m_bInherit g).

Definition setInheritFlag (x : nat) (bInherit : bool) (s : Loggers) : option Loggers :=
  s ← update x (with_inherit bInherit) s;
  g ← heap s !! x;
  s ← (if negb (m_bLevelSet g) && negb bInherit then s ← update x (with_level LOG_LEVEL_INFO) s; tell_all x s else Some s);
  if negb (m_bLevelSet g) && bInherit then
    p ← m_parent g;
    lv ← getLevel p s;
    s ← update x (with_level lv) s;
    tell_all x s
  else Some s.

(** ** Appenders *)

Definition removeAllAppenders (x : nat) (s : Loggers) : option Loggers := update x (with_appenders ∅) s.

(** A null appender is [None]. *)
Definition addAppender (x : nat) (appender : option nat) (s : Loggers) : option Loggers :=
  match appender with
  | None => Some s
  | Some a => update x (fun g => with_appenders (m_appenderSet g ∪ {[a]}) g) s
  end.

Definition setAppender (x : nat) (appender : option nat) (s : Loggers) : option Loggers :=
  match appender with
  | None => Some s
  | Some a => s ← removeAllAppenders x s; addAppender x (Some a) s
  end.

(** ** Messages *)

Definition isLevelEnabled (lv : Z) (g : Logger) : bool := lv <=? m_loggerLevel g.

Section Messages.

Context (walk : gset nat -> list nat) (order : gmap (list Z) nat -> list (list Z * nat)).

Definition flush (x : nat) (s : Loggers) : option Loggers :=
  g ← heap s !! x; Some (emit (OFlush <$> walk (m_appenderSet g)) s).

Fixpoint flush_loop (l : list (list Z * nat)) (s : Loggers) : option Loggers :=
  match l with
  | [] => Some s
  | (_, x) :: l => s ← flush x s; flush_loop l s
  end.

Definition flushAll (s : Loggers) : option Loggers :=
  s ← match s_loggerMap s with None => Some s | Some m => flush_loop (order m) s end;
  match s_rootLogger s with None => Some s | Some r => flush r s end.

(** Whether the process goes on, the event and the state. *)
Fixpoint log_loop (fuel : nat) (x : nat) (e : LoggingEvent) (depth : Z) (s : Loggers) : option (bool * LoggingEvent * Loggers) :=
  match fuel with
  | O => None
  | Datatypes.S fuel =>
      g ← heap s !! x;
      '(_, e, s) ← (if m_bInherit g then match m_parent g with
                                         | Some p => log_loop fuel p e (depth + 1) s
                                         | None => Some (true, e, s)
                                         end
                    else Some (true, e, s));
      let e := if bool_decide (loggerName e = []) then {| loggerName := m_loggerName g; message := message e; level := level e |} else e in
      let s := emit ((fun a => OAppend a e) <$> walk (m_appenderSet g)) s in
      if (depth =? 0) && (level e =? LOG_LEVEL_FATAL) then
        s ← flushAll s; Some (false, e, emit [OAbort] s)
      else Some (true, e, s)
  end.

(** [log], [logVaList], [logPureMessage] and [logBinaryMessage]. *)
Definition log (x : nat) (lv : Z) (msg : list Z) (s : Loggers) : option (bool * Loggers) :=
  g ← heap s !! x;
  if negb (isLevelEnabled lv g) then Some (true, s)
  else
    '(go, _, s) ← log_loop (S x) x {| loggerName := m_loggerName g; message := msg; level := lv |} 0 s;
    Some (go, s).

End Messages.

(** [shutdown] deletes the root and the loggers of the map. *)
Definition shutdown (s : Loggers) : Loggers :=
  let s := match s_rootLogger s with None => s | Some r => with_root None (with_heap (delete r) s) end in
  match s_loggerMap s with
  | None => s
  | Some m => with_map None (with_heap (fun h => foldr (fun x h => delete x h) h (map_to_list m).*2) s)
  end.

(** ** The tree and its levels *)

Definition level_of (x : nat) (s : Loggers) : option Z := m_loggerLevel <$> heap s !! x.

(** A logger that takes its level from its parent. *)
Definition takes (s : Loggers) (x : nat) : Prop := exists g, heap s !! x = Some g /\ m_bInherit g = true /\ m_bLevelSet g = false.

Definition parent_of (s : Loggers) (x p : nat) : Prop := exists g, heap s !! x = Some g /\ m_parent g = Some p.

(** The loggers that have the level of [x]: [x] itself and those that take
    theirs from one of them. *)
Inductive governs (s : Loggers) (x : nat) : nat -> Prop :=
| governs_self : governs s x x
| governs_child y p : takes s y -> parent_of s y p -> governs s x p -> governs s x y.

Record tree (s : Loggers) : Prop := {
  tree_next x : is_Some (heap s !! x) -> (x < next s)%nat;
  tree_parent x p : parent_of s x p -> (p < x)%nat /\ exists gp, heap s !! p = Some gp /\ x ∈ m_children gp;
  tree_child p gp c : heap s !! p = Some gp -> c ∈ m_children gp -> parent_of s c p;
  tree_range x g : heap s !! x = Some g -> LOG_LEVEL_DISABLE <= m_loggerLevel g < LOG_LEVEL_NOTSET;
}.

(** The same but for levels. *)
Definition relevel (s s' : Loggers) : Prop :=
  next s' = next s /\ s_rootLogger s' = s_rootLogger s /\ s_loggerMap s' = s_loggerMap s /\ out s' = out s /\
  forall x, with_level 0 <$> heap s' !! x = with_level 0 <$> heap s !! x.

#[export] Instance relevel_preorder : PreOrder relevel.
Proof. split; [done|]. intros s1 s2 s3 (? & ? & ? & ? & Hh) (? & ? & ? & ? & Hh'). split_and!; congruence. Qed.

Lemma relevel_sym s s' : relevel s s' -> relevel s' s.
Proof. intros (? & ? & ? & ? & Hh). by split_and!. Qed.

Lemma relevel_lookup s s' x g : relevel s s' -> heap s !! x = Some g -> exists g', heap s' !! x = Some g' /\ with_level 0 g' = with_level 0 g.
Proof.
  intros (_ & _ & _ & _ & Hh) E. specialize (Hh x). rewrite E in Hh. destruct (heap s' !! x) as [g'|]; [|done]. exists g'. split; [done|]. by apply (inj Some) in Hh.
Qed.

Lemma relevel_fields g g' : with_level 0 g' = with_level 0 g ->
  m_parent g' = m_parent g /\ m_children g' = m_children g /\ m_bInherit g' = m_bInherit g /\ m_bLevelSet g' = m_bLevelSet g /\
  m_appenderSet g' = m_appenderSet g /\ m_loggerName g' = m_loggerName g.
Proof. by intros [=]. Qed.

Lemma relevel_takes s s' x : relevel s s' -> takes s x -> takes s' x.
Proof.
  intros Hr (g & E & Hi & Hs). destruct (relevel_lookup _ _ _ _ Hr E) as (g' & E' & (_ & _ & Hi' & Hs' & _)%relevel_fields).
  exists g'. by rewrite Hi', Hs'.
Qed.

Lemma relevel_parent s s' x p : relevel s s' -> parent_of s x p -> parent_of s' x p.
Proof.
  intros Hr (g & E & Hp). destruct (relevel_lookup _ _ _ _ Hr E) as (g' & E' & (Hp' & _)%relevel_fields). exists g'. by rewrite Hp'.
Qed.

Lemma relevel_governs s s' x y : relevel s s' -> governs s x y -> governs s' x y.
Proof. intros Hr. induction 1 as [|y p Ht Hp _ IH]; [constructor|]. econstructor; [by eapply relevel_takes|by eapply relevel_parent|done]. Qed.

Lemma relevel_governs_iff s s' x y : relevel s s' -> governs s' x y <-> governs s x y.
Proof. intros Hr. split; apply relevel_governs; [by apply relevel_sym|done]. Qed.

Lemma relevel_takes_of g s s' x : relevel s s' -> heap s !! x = Some g -> m_bInherit g = true /\ m_bLevelSet g = false <-> takes s' x.
Proof.
  intros Hr E. destruct (relevel_lookup _ _ _ _ Hr E) as (g' & E' & (_ & _ & <- & <- & _)%relevel_fields).
  unfold takes. rewrite E'. split; [by exists g'|]. by intros (g'' & [= <-] & ? & ?).
Qed.

Lemma parent_unique s x p q : parent_of s x p -> parent_of s x q -> p = q.
Proof. intros (g & E & Hp) (g' & E' & Hq). congruence. Qed.

Lemma takes_dec s x : takes s x \/ ~ takes s x.
Proof.
  destruct (heap s !! x) as [g|] eqn:E; [|right; intros (? & ? & _); congruence].
  destruct (m_bInherit g) eqn:Hi, (m_bLevelSet g) eqn:Hs; [right|left; by exists g|right|right]; intros (? & ? & ? & ?); congruence.
Qed.

Section Tree.

Context (s : Loggers) (Hs : tree s).

Lemma governs_le x y : governs s x y -> (x <= y)%nat.
Proof using Hs. induction 1 as [|y p _ Hp _ IH]; [done|]. apply (tree_parent s Hs) in Hp as [Hlt _]. lia. Qed.

Lemma governs_trans x y z : governs s x y -> governs s y z -> governs s x z.
Proof using Type. intros Hxy. induction 1 as [|z p Ht Hp _ IH]; [done|]. by econstructor. Qed.

Lemma governs_dec x y : governs s x y \/ ~ governs s x y.
Proof using Hs.
  induction y as [y IH] using lt_wf_ind. destruct (decide (y = x)) as [->|Hne]; [left; constructor|].
  destruct (takes_dec s y) as [Ht|Hn]; [|right; intros Hg; inversion Hg; subst; done].
  destruct (heap s !! y) as [g|] eqn:E; [|right; intros Hg; inversion Hg as [|? ? ? (? & ? & _)]; subst; congruence].
  destruct (m_parent g) as [p|] eqn:Ep; [|right; intros Hg; inversion Hg as [|? ? ? (? & ? & ?)]; subst; congruence].
  assert (Hp : parent_of s y p) by by exists g. pose proof Hp as Hlt. apply (tree_parent s Hs) in Hlt as [Hlt _].
  destruct (IH p Hlt) as [Hg|Hg]; [left; by econstructor|]. right. intros Hg'. inversion Hg' as [|? q _ Hq Hg'']; subst; [done|].
  by rewrite (parent_unique _ _ _ _ Hq Hp) in Hg''.
Qed.

(** Below [x] are its children and those they govern. *)
Lemma governs_below x gx y : heap s !! x = Some gx ->
  governs s x y /\ y <> x <-> exists c, c ∈ m_children gx /\ takes s c /\ governs s c y.
Proof using Hs.
  intros Hx. split.
  - intros [Hg Hne]. induction Hg as [|y p Ht Hp Hg IH]; [done|]. destruct (decide (p = x)) as [->|Hpx].
    + exists y. apply (tree_parent s Hs) in Hp as (_ & gp & E & Hin). split_and!; [congruence|done|constructor].
    + destruct (IH Hpx) as (c & Hc & Htc & Hcg). exists c. split_and!; [done|done|]. by econstructor.
  - intros (c & Hin & Ht & Hg). pose proof (tree_child s Hs x gx c Hx Hin) as Hp. split.
    + eapply governs_trans; [|exact Hg]. econstructor; [done|done|constructor].
    + intros ->. apply governs_le in Hg. apply (tree_parent s Hs) in Hp as [Hlt _]. lia.
Qed.

Lemma child_next x gx c : heap s !! x = Some gx -> c ∈ m_children gx -> (x < c < next s)%nat /\ is_Some (heap s !! c).
Proof using Hs.
  intros Hx Hin. pose proof (tree_child s Hs x gx c Hx Hin) as Hp. pose proof Hp as (g & E & _). apply (tree_parent s Hs) in Hp as [Hlt _].
  split; [|by exists g]. split; [done|]. apply (tree_next s Hs). by exists g.
Qed.

End Tree.

(** The same tree, with the same names. *)
Definition skeleton (g : Logger) : option nat * list nat * list Z := (m_parent g, m_children g, m_loggerName g).

Definition same_shape (s s' : Loggers) : Prop :=
  next s' = next s /\ s_rootLogger s' = s_rootLogger s /\ s_loggerMap s' = s_loggerMap s /\
  forall x, skeleton <$> heap s' !! x = skeleton <$> heap s !! x.

Lemma relevel_shape s s' : relevel s s' -> same_shape s s'.
Proof.
  intros (? & ? & ? & _ & Hh). split_and!; [done..|]. intros x. specialize (Hh x).
  destruct (heap s' !! x), (heap s !! x); try done. apply (inj Some) in Hh. cbn. by injection Hh as [=]; unfold skeleton; congruence.
Qed.

Lemma same_shape_sym s s' : same_shape s s' -> same_shape s' s.
Proof. intros (? & ? & ? & Hh). by split_and!. Qed.

#[export] Instance same_shape_preorder : PreOrder same_shape.
Proof. split; [by intros s; split_and!|]. intros s1 s2 s3 (? & ? & ? & Hh) (? & ? & ? & Hh'). split_and!; congruence. Qed.

Lemma same_shape_lookup s s' x g : same_shape s s' -> heap s !! x = Some g ->
  exists g', heap s' !! x = Some g' /\ m_parent g' = m_parent g /\ m_children g' = m_children g /\ m_loggerName g' = m_loggerName g.
Proof.
  intros (_ & _ & _ & Hh) E. specialize (Hh x). rewrite E in Hh. destruct (heap s' !! x) as [g'|]; [|done]. exists g'. split; [done|].
  apply (inj Some) in Hh. by injection Hh as [=].
Qed.

Lemma same_shape_parent s s' x p : same_shape s s' -> parent_of s x p -> parent_of s' x p.
Proof. intros Hr (g & E & Hp). destruct (same_shape_lookup _ _ _ _ Hr E) as (g' & E' & Hp' & _). exists g'. by rewrite Hp'. Qed.

Lemma same_shape_tree s s' : same_shape s s' -> (forall x lv, level_of x s' = Some lv -> LOG_LEVEL_DISABLE <= lv < LOG_LEVEL_NOTSET) -> tree s -> tree s'.
Proof.
  intros Hr Hl [H1 H2 H3 H4]. assert (Hr' := same_shape_sym _ _ Hr). split.
  - intros x [g E]. destruct (same_shape_lookup _ _ _ _ Hr' E) as (g' & E' & _). rewrite (proj1 Hr). apply H1. by exists g'.
  - intros x p Hp. apply (same_shape_parent _ _ _ _ Hr') in Hp. destruct (H2 x p Hp) as (Hlt & gp & E & Hin). split; [done|].
    destruct (same_shape_lookup _ _ _ _ Hr E) as (gp' & E' & _ & Hc & _). exists gp'. by rewrite Hc.
  - intros p gp c E Hin. destruct (same_shape_lookup _ _ _ _ Hr' E) as (gp' & E' & _ & Hc & _).
    apply (same_shape_parent s s' _ _ Hr), (H3 p gp'); [done|]. by rewrite Hc.
  - intros x g E. apply (Hl x). unfold level_of. by rewrite E.
Qed.

Lemma update_def x f s g : heap s !! x = Some g -> update x f s = Some (with_heap (<[x := f g]>) s).
Proof. unfold update. by intros ->. Qed.

Lemma update_level_relevel x lv s s' : update x (with_level lv) s = Some s' -> relevel s s' /\
  forall y, level_of y s' = if decide (y = x) then Some lv else level_of y s.
Proof.
  unfold update. destruct (heap s !! x) as [g|] eqn:E; [|done]. intros [= <-]. split.
  - split_and!; try done. intros y. cbn. destruct (decide (x = y)) as [<-|Hne]; [by rewrite lookup_insert_eq, E|by rewrite lookup_insert_ne].
  - intros y. unfold level_of. cbn. case_decide as Hd; [subst y; by rewrite lookup_insert_eq|by rewrite lookup_insert_ne].
Qed.

Lemma exists_in_dec {A} (P : A -> Prop) (l : list A) : (forall x, P x \/ ~ P x) -> (exists x, x ∈ l /\ P x) \/ ~ (exists x, x ∈ l /\ P x).
Proof.
  intros HP. induction l as [|y l [(x & Hin & Hx)|IH]]; [right; by intros (? & []%not_elem_of_nil & _)|left; exists x; by split; [right|]|].
  destruct (HP y) as [Hy|Hy]; [left; exists y; by split; [left|]|]. right. intros (x & [->|Hin]%elem_of_cons & Hx); [done|]. apply IH. by exists x.
Qed.

(** What telling does to the levels. *)
Definition told (P : nat -> Prop) (lv : Z) (s s' : Loggers) : Prop :=
  relevel s s' /\ (forall y, P y -> is_Some (heap s !! y) -> level_of y s' = Some lv) /\ (forall y, ~ P y -> level_of y s' = level_of y s).

Lemma told_tree P lv s s' : LOG_LEVEL_DISABLE <= lv < LOG_LEVEL_NOTSET -> (forall y, P y \/ ~ P y) -> told P lv s s' -> tree s -> tree s'.
Proof.
  intros Hlv Hdec (Hr & HP & Hn) Ht. apply (same_shape_tree s); [by apply relevel_shape| |done]. intros y l E. destruct (Hdec y) as [Hy|Hy].
  - rewrite (HP y Hy) in E; [congruence|]. unfold level_of in E. destruct (heap s' !! y) as [g|] eqn:E'; [|done].
    destruct (relevel_lookup _ _ _ _ (relevel_sym _ _ Hr) E') as (g' & ? & _). by exists g'.
  - rewrite (Hn y Hy) in E. unfold level_of in E. destruct (heap s !! y) as [g|] eqn:E'; [|done]. injection E as <-. by apply (tree_range s Ht y).
Qed.

Section Tell.

Context (lv : Z) (Hlv : LOG_LEVEL_DISABLE <= lv < LOG_LEVEL_NOTSET).

Lemma tell_children_spec tell s0 l s :
  relevel s0 s -> tree s -> (forall c, c ∈ l -> is_Some (heap s !! c)) ->
  (forall c s, c ∈ l -> relevel s0 s -> tree s -> is_Some (heap s !! c) ->
     exists s', tell c lv s = Some s' /\ told (fun y => takes s c /\ governs s c y) lv s s') ->
  exists s', tell_children tell l lv s = Some s' /\ told (fun y => exists c, c ∈ l /\ takes s c /\ governs s c y) lv s s'.
Proof using Hlv.
  intros H0 Hs Hl Htell. revert s H0 Hs Hl. induction l as [|c l IH]; intros s H0 Hs Hl; cbn [tell_children].
  { exists s. split; [done|]. split_and!; [done| |done]. by intros y (c & []%not_elem_of_nil & _). }
  destruct (Htell c s) as (s1 & -> & H1); [by left|done|done|by apply Hl; left|]. cbn [mbind option_bind].
  assert (Hdec1 : forall y, takes s c /\ governs s c y \/ ~ (takes s c /\ governs s c y)).
  { intros y. destruct (takes_dec s c), (governs_dec s Hs c y); naive_solver. }
  assert (Hs1 : tree s1) by exact (told_tree _ lv s s1 Hlv Hdec1 H1 Hs). destruct H1 as (Hr1 & HP1 & Hn1).
  destruct (IH (fun c' s' Hin => Htell c' s' (proj2 (elem_of_cons l c' c) (or_intror Hin))) s1) as (s2 & E & Hr2 & HP2 & Hn2); [by etrans|done| |].
  { intros c' Hin. destruct (Hl c') as [g Eg]; [by right|]. destruct (relevel_lookup _ _ _ _ Hr1 Eg) as (g' & ? & _). by exists g'. }
  exists s2. split; [done|]. split_and!; [by etrans| |].
  - intros y (c' & Hin & Ht & Hg) [gy Ey]. destruct (relevel_lookup _ _ _ _ Hr1 Ey) as (gy1 & Ey1 & _).
    assert (Hd : (exists c, c ∈ l /\ takes s1 c /\ governs s1 c y) \/ ~ (exists c, c ∈ l /\ takes s1 c /\ governs s1 c y)).
    { destruct (exists_in_dec (fun c => takes s1 c /\ governs s1 c y) l) as [Hd|Hd]; [|by left|by right].
      intros d. destruct (takes_dec s1 d), (governs_dec s1 Hs1 d y); naive_solver. }
    destruct Hd as [Hd|Hd]; [by apply HP2; [|exists gy1]|]. rewrite (Hn2 y Hd).
    apply elem_of_cons in Hin as [->|Hin]; [by apply HP1; [|exists gy]|]. destruct Hd. exists c'. split_and!; [done|by eapply relevel_takes|by eapply relevel_governs].
  - intros y Hy. rewrite Hn2; [apply Hn1|]; [intros [Ht Hg]; apply Hy; exists c; by split; [left|]|].
    intros (c' & Hin & Ht & Hg). apply Hy. exists c'. split_and!; [by right|eapply relevel_takes; [by apply relevel_sym|done]|].
    by apply (relevel_governs_iff s s1).
Qed.

Lemma setLevelByParent_spec fuel x s :
  tree s -> is_Some (heap s !! x) -> (next s - x <= fuel)%nat ->
  exists s', setLevelByParent fuel x lv s = Some s' /\ told (fun y => takes s x /\ governs s x y) lv s s'.
Proof using Hlv.
  revert x s. induction fuel as [|fuel IH]; intros x s Hs Hx Hf.
  { apply (tree_next s Hs) in Hx. lia. }
  destruct Hx as [g E]. cbn [setLevelByParent]. rewrite E. cbn [mbind option_bind].
  rewrite (proj2 (Z.leb_gt _ _)) by (unfold LOG_LEVEL_COUNT; lia). rewrite (proj2 (Z.eqb_neq lv _)) by lia.
  destruct (negb (m_bInherit g) || m_bLevelSet g) eqn:Ht.
  { exists s. split; [done|]. split_and!; [done| |done]. intros y [(g' & E' & Hi & Hset) _]. rewrite E in E'. injection E' as <-.
    by rewrite Hi, Hset in Ht. }
  assert (Htx : takes s x) by (exists g; split; [done|]; by destruct (m_bInherit g), (m_bLevelSet g)).
  destruct (update x (with_level lv) s) as [s1|] eqn:E1; [|unfold update in E1; by rewrite E in E1].
  cbn [mbind option_bind]. destruct (update_level_relevel x lv s s1 E1) as [Hr1 Hl1].
  assert (Hs1 : tree s1).
  { apply (same_shape_tree s); [by apply relevel_shape| |done]. intros y l. rewrite Hl1. case_decide; [by intros [= <-]|]. unfold level_of.
    destruct (heap s !! y) as [gy|] eqn:Ey; [|done]. intros [= <-]. by apply (tree_range s Hs y). }
  destruct (relevel_lookup _ _ _ _ Hr1 E) as (g1 & Eg1 & (_ & Hc & _)%relevel_fields).
  destruct (tell_children_spec (setLevelByParent fuel) s1 (m_children g) s1) as (s2 & E2 & Hr2 & HP2 & Hn2); [done|done| | |].
  { intros c Hin. apply (child_next s1 Hs1 x g1); [done|]. by rewrite Hc. }
  { intros c s' Hin Hr' Hs' Hex. apply IH; [done|done|]. destruct (child_next s1 Hs1 x g1 c Eg1) as [Hlt _]; [by rewrite Hc|].
    pose proof (proj1 Hr'). pose proof (proj1 Hr1). lia. }
  exists s2. split; [done|]. split_and!; [by etrans| |].
  - intros y [_ Hg] [gy Ey]. destruct (relevel_lookup _ _ _ _ Hr1 Ey) as (gy1 & Ey1 & _). destruct (decide (y = x)) as [->|Hne].
    + rewrite Hn2; [rewrite Hl1; by rewrite decide_True|]. intros Hb. rewrite <- Hc in Hb. by apply (governs_below s1 Hs1 x g1 x Eg1) in Hb as [_ ?].
    + apply HP2; [|by exists gy1]. rewrite <- Hc. apply (governs_below s1 Hs1 x g1 y Eg1). split; [by eapply relevel_governs|done].
  - intros y Hy. rewrite Hn2.
    + rewrite Hl1, decide_False; [done|]. intros ->. apply Hy. by split; [|constructor].
    + intros Hb. rewrite <- Hc in Hb. apply (governs_below s1 Hs1 x g1 y Eg1) in Hb as [Hb _]. apply Hy. split; [done|]. by apply (relevel_governs_iff s s1).
Qed.

End Tell.

(** After [x] has got a level, those below that take theirs from it are told. *)
Lemma tell_all_told x lv s s1 : tree s -> is_Some (heap s !! x) -> LOG_LEVEL_DISABLE <= lv < LOG_LEVEL_NOTSET -> tree s1 -> level_of x s1 = Some lv ->
  exists s2, tell_all x s1 = Some s2 /\ told (fun y => governs s1 x y /\ y <> x) lv s1 s2.
Proof.
  intros Hs Hx Hlv Hs1 El. unfold level_of in El. destruct (heap s1 !! x) as [g1|] eqn:Eg; [|done]. injection El as El.
  unfold tell_all. rewrite Eg. cbn [mbind option_bind]. rewrite El.
  destruct (tell_children_spec lv Hlv (setLevelByParent (next s1)) s1 (m_children g1) s1) as (s2 & E2 & Hr & HP & Hn); [done|done| | |].
  { intros c Hin. by apply (child_next s1 Hs1 x g1). }
  { intros c s' Hin Hr' Hs' Hex. apply (setLevelByParent_spec lv Hlv); [done|done|]. pose proof (proj1 Hr'). lia. }
  exists s2. split; [done|]. split_and!; [done| |].
  - intros y Hy. apply HP. by apply (governs_below s1 Hs1 x g1 y Eg).
  - intros y Hy. apply Hn. intros Hb. by apply Hy, (governs_below s1 Hs1 x g1 y Eg).
Qed.

(** ** The invariant *)

(** The logger that has the name [n], the root if there is none. *)
Definition named (s : Loggers) (n : option (list Z)) (p : nat) : Prop :=
  match n with
  | None => s_rootLogger s = Some p
  | Some n => exists m, s_loggerMap s = Some m /\ m !! n = Some p
  end.

Record names (s : Loggers) : Prop := {
  names_root r : s_rootLogger s = Some r -> exists g, heap s !! r = Some g /\ m_loggerName g = [] /\ m_parent g = None;
  names_map m n x : s_loggerMap s = Some m -> m !! n = Some x ->
    exists g p, heap s !! x = Some g /\ m_loggerName g = n /\ m_parent g = Some p /\ named s (before_last_dot n) p;
  names_heap x g : heap s !! x = Some g -> s_rootLogger s = Some x \/ named s (Some (m_loggerName g)) x;
}.

Record Inv (s : Loggers) : Prop := {
  inv_tree : tree s;
  inv_names : names s;
  inv_levels x p : takes s x -> parent_of s x p -> level_of x s = level_of p s;
}.

Lemma Loggers_new_Inv : Inv Loggers_new.
Proof.
  assert (E : forall x : nat, heap Loggers_new !! x = None) by done.
  split; [split|split|]; try done; unfold parent_of, takes; intros *; rewrite ?E; try by intros (? & ? & _). by intros [? ?].
Qed.

Lemma same_shape_names s s' : same_shape s s' -> names s -> names s'.
Proof.
  intros Hr [H1 H2 H3]. pose proof Hr as (_ & Er & Em & _). assert (Hnamed : forall n p, named s n p -> named s' n p).
  { intros [n|] p; cbn; by rewrite ?Er, ?Em. }
  split.
  - intros r E. rewrite Er in E. destruct (H1 r E) as (g & Eg & Hn & Hp). destruct (same_shape_lookup _ _ _ _ Hr Eg) as (g' & Eg' & Hp' & _ & Hn').
    exists g'. by rewrite Hp', Hn'.
  - intros m n x E Hx. rewrite Em in E. destruct (H2 m n x E Hx) as (g & p & Eg & Hn & Hp & Hnp).
    destruct (same_shape_lookup _ _ _ _ Hr Eg) as (g' & Eg' & Hp' & _ & Hn'). exists g', p. rewrite Hp', Hn'. split_and!; [done..|]. by apply Hnamed.
  - intros x g E. destruct (same_shape_lookup _ _ _ _ (same_shape_sym _ _ Hr) E) as (g' & Eg' & _ & _ & Hn). rewrite <- Hn, Er.
    destruct (H3 x g' Eg') as [?|?]; [by left|right]. by apply Hnamed.
Qed.

(** The levels are those of the invariant when the loggers under [x] have been
    told of its own. *)
Lemma told_Inv x lv s1 s2 : tree s1 -> names s1 -> LOG_LEVEL_DISABLE <= lv < LOG_LEVEL_NOTSET -> is_Some (heap s1 !! x) -> level_of x s1 = Some lv ->
  (forall y p, y <> x -> takes s1 y -> parent_of s1 y p -> p <> x -> level_of y s1 = level_of p s1) ->
  (forall p, takes s1 x -> parent_of s1 x p -> level_of p s1 = Some lv) ->
  told (fun y => governs s1 x y /\ y <> x) lv s1 s2 ->
  Inv s2 /\ (forall y, governs s1 x y -> is_Some (heap s1 !! y) -> level_of y s2 = Some lv) /\ (forall y, ~ governs s1 x y -> level_of y s2 = level_of y s1).
Proof.
  intros Ht Hn Hlv Hx El Hcons Hcx Htold. pose proof Htold as (Hr & HP & Hnot).
  assert (Hx2 : level_of x s2 = Some lv) by (rewrite Hnot; [done|by intros []]).
  assert (Hgov : forall y, governs s1 x y -> is_Some (heap s1 !! y) -> level_of y s2 = Some lv).
  { intros y Hg Hy. destruct (decide (y = x)) as [->|Hne]; [done|]. by apply HP. }
  assert (Hout : forall y, ~ governs s1 x y -> level_of y s2 = level_of y s1) by (intros y Hy; apply Hnot; by intros []).
  split; [|done]. split.
  - apply (told_tree (fun y => governs s1 x y /\ y <> x) lv s1); [done| |done|done].
    intros y. destruct (governs_dec s1 Ht x y), (decide (y = x)); naive_solver.
  - by apply (same_shape_names s1); [apply relevel_shape|].
  - intros y p Hty Hp. apply (relevel_takes _ _ _ (relevel_sym _ _ Hr)) in Hty. apply (relevel_parent _ _ _ _ (relevel_sym _ _ Hr)) in Hp.
    pose proof Hp as (gy & Ey & _). pose proof (tree_parent s1 Ht y p Hp) as (Hlt & gp & Ep & _).
    destruct (governs_dec s1 Ht x p) as [Hg|Hg].
    + rewrite (Hgov p), (Hgov y); [done|by econstructor|by exists gy|done|by exists gp].
    + rewrite (Hout p Hg). destruct (decide (y = x)) as [->|Hyx]; [by rewrite Hx2, Hcx|].
      rewrite Hout; [apply Hcons; [done..|]; intros ->; apply Hg; constructor|].
      intros Hgy. inversion Hgy as [|? q _ Hq Hgq]; subst; [done|]. by rewrite (parent_unique _ _ _ _ Hq Hp) in Hgq.
Qed.

Lemma update_shape x f s s' : (forall g, skeleton (f g) = skeleton g) -> update x f s = Some s' -> same_shape s s'.
Proof.
  unfold update. destruct (heap s !! x) as [g|] eqn:E; [|done]. intros Hf [= <-]. split_and!; [done..|]. intros y. cbn.
  destruct (decide (x = y)) as [<-|Hne]; [by rewrite lookup_insert_eq, E; cbn; rewrite Hf|by rewrite lookup_insert_ne].
Qed.

Lemma shape_Inv s s' : same_shape s s' -> (forall y, level_of y s' = level_of y s) -> (forall y, takes s' y -> takes s y) -> Inv s -> Inv s'.
Proof.
  intros Hsh Hl Ht [H1 H2 H3]. split.
  - apply (same_shape_tree s); [done| |done]. intros y l. rewrite Hl. unfold level_of. destruct (heap s !! y) as [gy|] eqn:Ey; [|done].
    intros [= <-]. by apply (tree_range s H1 y).
  - by apply (same_shape_names s).
  - intros y p Hty Hp. rewrite !Hl. apply H3; [by apply Ht|]. apply (same_shape_parent s' s); [by apply same_shape_sym|done].
Qed.

Lemma level_of_insert x g s y : level_of y (with_heap (<[x := g]>) s) = if decide (y = x) then Some (m_loggerLevel g) else level_of y s.
Proof. unfold level_of. cbn. case_decide as Hd; [subst; by rewrite lookup_insert_eq|by rewrite lookup_insert_ne]. Qed.

Lemma takes_insert x g s y : takes (with_heap (<[x := g]>) s) y <-> if decide (y = x) then m_bInherit g = true /\ m_bLevelSet g = false else takes s y.
Proof.
  unfold takes. cbn. case_decide as Hd; [subst; rewrite lookup_insert_eq|by rewrite lookup_insert_ne].
  split; [by intros (? & [= <-] & ?)|by exists g].
Qed.

Lemma with_heap_insert x g g' s : with_heap (<[x := g']>) (with_heap (<[x := g]>) s) = with_heap (<[x := g']>) s.
Proof. unfold with_heap. cbn. by rewrite insert_insert_eq. Qed.

(** [x] is changed but for its place in the tree, and then tells its children. *)
Lemma assign_spec x g g' s : Inv s -> heap s !! x = Some g -> skeleton g' = skeleton g -> LOG_LEVEL_DISABLE <= m_loggerLevel g' < LOG_LEVEL_NOTSET ->
  (m_bInherit g' = true -> m_bLevelSet g' = false -> forall p, m_parent g = Some p -> level_of p s = Some (m_loggerLevel g')) ->
  exists s', tell_all x (with_heap (<[x := g']>) s) = Some s' /\ Inv s' /\
    (forall y, governs s x y -> is_Some (heap s !! y) -> level_of y s' = Some (m_loggerLevel g')) /\
    (forall y, ~ governs s x y -> level_of y s' = level_of y s) /\
    (relevel (with_heap (<[x := g']>) s) s').
Proof.
  intros [Ht Hn Hcons] Ex Hsk Hlv Hcx. set (s1 := with_heap (<[x := g']>) s).
  assert (Hl : forall y, heap s1 !! y = if decide (y = x) then Some g' else heap s !! y).
  { intros y. cbn. case_decide as Hd; [subst; by rewrite lookup_insert_eq|by rewrite lookup_insert_ne]. }
  assert (Hsh : same_shape s s1).
  { split_and!; [done..|]. intros y. rewrite Hl. case_decide as Hd; [|done]. subst. by rewrite Ex; cbn; rewrite Hsk. }
  assert (Ht1 : tree s1).
  { apply (same_shape_tree s); [done| |done]. intros y l. unfold level_of. rewrite Hl. case_decide; [by intros [= <-]|].
    destruct (heap s !! y) as [gy|] eqn:Ey; [|done]. intros [= <-]. by apply (tree_range s Ht y). }
  assert (Hlx : level_of x s1 = Some (m_loggerLevel g')) by (unfold level_of; by rewrite Hl, decide_True).
  assert (Hly : forall y, y <> x -> level_of y s1 = level_of y s) by (intros y Hy; unfold level_of; by rewrite Hl, decide_False).
  assert (Htk : forall y, y <> x -> takes s1 y <-> takes s y) by (intros y Hy; unfold takes; by rewrite Hl, decide_False).
  assert (Hpar : forall y p, parent_of s1 y p <-> parent_of s y p).
  { intros y p. split; apply same_shape_parent; [by apply same_shape_sym|done]. }
  assert (Hgov : forall y, governs s1 x y <-> governs s x y).
  { intros y. split; induction 1 as [|y p Hty Hp Hg IH]; [constructor| |constructor|].
    - apply Hpar in Hp. apply governs_le in Hg; [|done]. pose proof (tree_parent s Ht y p Hp) as [? _]. econstructor; [|done|done]. apply Htk; [lia|done].
    - pose proof (tree_parent s Ht y p Hp) as [? _]. apply governs_le in Hg; [|done]. econstructor; [|by apply Hpar|done]. apply Htk; [lia|done]. }
  destruct (tell_all_told x (m_loggerLevel g') s s1) as (s2 & E2 & Htold); [done|by exists g|done|done|done|].
  destruct (told_Inv x (m_loggerLevel g') s1 s2) as (Hi & Hg & Ho); [done|by apply (same_shape_names s)|done|exists g'; by rewrite Hl, decide_True|done| | |done|].
  { intros y p Hyx Hty Hp Hpx. rewrite !Hly by done. apply Hcons; [by apply Htk|by apply Hpar]. }
  { intros p (g1 & E1 & Hi & Hset) Hp. rewrite Hl, decide_True in E1 by done. injection E1 as <-. apply Hpar in Hp.
    pose proof (tree_parent s Ht x p Hp) as [? _]. rewrite Hly by lia. apply Hcx; [done..|]. destruct Hp as (? & ? & ?). congruence. }
  exists s2. split; [done|]. split; [done|]. split_and!.
  - intros y Hy [gy Ey]. apply Hg; [by apply Hgov|]. rewrite Hl. by case_decide.
  - intros y Hy. rewrite Ho; [|by rewrite Hgov]. apply Hly. intros ->. apply Hy. constructor.
  - apply Htold.
Qed.

(** The level that [setLevel] gives. *)
Definition new_level (x : nat) (lv : Z) (s : Loggers) : option Z :=
  if lv =? LOG_LEVEL_NOTSET then
    g ← heap s !! x; if m_bInherit g then match m_parent g with Some p => level_of p s | None => Some LOG_LEVEL_INFO end else Some LOG_LEVEL_INFO
  else Some lv.

Lemma setLevel_spec s x lv g : Inv s -> heap s !! x = Some g -> LOG_LEVEL_DISABLE <= lv < LOG_LEVEL_COUNT ->
  exists s', setLevel x lv s = Some s' /\ Inv s' /\ (takes s' x <-> m_bInherit g = true /\ lv = LOG_LEVEL_NOTSET) /\ same_shape s s' /\
    (forall y, governs s x y -> is_Some (heap s !! y) -> level_of y s' = new_level x lv s) /\
    (forall y, ~ governs s x y -> level_of y s' = level_of y s).
Proof.
  intros Hi Ex Hlv. unfold setLevel. rewrite Ex. cbn [mbind option_bind]. rewrite (proj2 (Z.leb_gt _ _)) by lia.
  assert (Hnew : exists l, (if (lv =? LOG_LEVEL_NOTSET) && m_bInherit g then match m_parent g with Some p => getLevel p s | None => Some lv end else Some lv) = Some l
    /\ new_level x lv s = Some (if l =? LOG_LEVEL_NOTSET then LOG_LEVEL_INFO else l) /\ LOG_LEVEL_DISABLE <= l < LOG_LEVEL_COUNT).
  { unfold new_level. rewrite Ex. cbn [mbind option_bind]. destruct (lv =? LOG_LEVEL_NOTSET) eqn:El; cbn [andb]; [|exists lv; by rewrite El].
    apply Z.eqb_eq in El as ->. destruct (m_bInherit g); [|by exists LOG_LEVEL_NOTSET]. destruct (m_parent g) as [p|] eqn:Ep; [|by exists LOG_LEVEL_NOTSET].
    destruct (tree_parent s (inv_tree s Hi) x p) as (_ & gp & Egp & _); [by exists g|]. exists (m_loggerLevel gp). unfold getLevel, level_of.
    rewrite Egp. pose proof (tree_range s (inv_tree s Hi) p gp Egp) as Hr. cbn. rewrite (proj2 (Z.eqb_neq _ _)) by (unfold LOG_LEVEL_NOTSET in *; lia).
    split; [done|]. split; [done|]. unfold LOG_LEVEL_COUNT in *. lia. }
  destruct Hnew as (l & El & En & Hl). rewrite El, En. cbn [mbind option_bind]. unfold update. rewrite Ex. cbn [mbind option_bind].
  set (l' := if l =? LOG_LEVEL_NOTSET then LOG_LEVEL_INFO else l) in *. set (g' := with_levelSet (negb (lv =? LOG_LEVEL_NOTSET)) (with_level l' g)).
  assert (Hl' : LOG_LEVEL_DISABLE <= l' < LOG_LEVEL_NOTSET).
  { unfold l'. destruct (Z.eqb_spec l LOG_LEVEL_NOTSET) as [?|Hne]; [done|]. unfold LOG_LEVEL_COUNT in Hl. lia. }
  destruct (assign_spec x g g' s) as (s' & E & Hi' & Hg & Ho & Hr); [done|done|done|done| |].
  { unfold g'. cbn. intros Hin Hset p Hp. apply negb_false_iff in Hset. unfold new_level in En. rewrite Ex, Hset in En. cbn [mbind option_bind] in En.
    by rewrite Hin, Hp in En. }
  exists s'. split; [done|]. split; [done|].
  assert (Eg' : heap (with_heap (<[x:=g']>) s) !! x = Some g') by apply lookup_insert_eq.
  split_and!; [| |done|done].
  - rewrite <- (relevel_takes_of g' _ s' x Hr Eg').
    unfold g'. cbn. by rewrite negb_false_iff, Z.eqb_eq.
  - etrans; [|by apply relevel_shape]. by apply (update_shape x (fun g => with_levelSet (negb (lv =? LOG_LEVEL_NOTSET)) (with_level l' g))); [|unfold update; rewrite Ex].
Qed.

(** The level that a logger without one of its own has when its inheritance changes. *)
Definition inherited_level (x : nat) (bInherit : bool) (s : Loggers) : option Z :=
  if bInherit then g ← heap s !! x; p ← m_parent g; level_of p s else Some LOG_LEVEL_INFO.

Lemma setInheritFlag_spec s x b g : Inv s -> heap s !! x = Some g -> (b = true -> m_bLevelSet g = false -> is_Some (m_parent g)) ->
  exists s', setInheritFlag x b s = Some s' /\ Inv s' /\ (takes s' x <-> b = true /\ m_bLevelSet g = false) /\ same_shape s s' /\
    (forall y, m_bLevelSet g = false -> governs s x y -> is_Some (heap s !! y) -> level_of y s' = inherited_level x b s) /\
    (forall y, m_bLevelSet g = true \/ ~ governs s x y -> level_of y s' = level_of y s).
Proof.
  intros Hi Ex Hb. set (s1 := with_heap (<[x:=with_inherit b g]>) s).
  assert (E1 : heap s1 !! x = Some (with_inherit b g)) by apply lookup_insert_eq.
  unfold setInheritFlag. rewrite (update_def x (with_inherit b) s g Ex). fold s1. cbn [mbind option_bind]. rewrite E1.
  cbn [mbind option_bind m_bLevelSet m_parent with_inherit].
  assert (Hsh1 : same_shape s s1) by (apply (update_shape x (with_inherit b)); [done|]; unfold update; by rewrite Ex).
  assert (Hbl : b = true -> m_bLevelSet g = false -> exists p gp, m_parent g = Some p /\ heap s !! p = Some gp /\ (p < x)%nat).
  { intros -> Hset. destruct Hb as [p Hp]; [done..|]. destruct (tree_parent s (inv_tree s Hi) x p) as (? & gp & Egp & _); [by exists g|]. by exists p, gp. }
  destruct (m_bLevelSet g) eqn:Hset; cbn [negb andb].
  { assert (Hl1 : forall y, level_of y s1 = level_of y s).
    { intros y. unfold s1. rewrite level_of_insert. case_decide as Hd; [subst|done]. unfold level_of. by rewrite Ex. }
    assert (Hx : ~ takes s1 x) by (unfold s1; rewrite takes_insert, decide_True by done; cbn; rewrite Hset; by intros []).
    exists s1. split; [done|]. split; [|split_and!; [split; [done|by intros []]|done|done|done]].
    apply (shape_Inv s); [done..| |done]. intros y Hy. destruct (decide (y = x)) as [->|Hne]; [done|]. unfold s1 in Hy. by rewrite takes_insert, decide_False in Hy. }
  assert (Hlev : exists l, inherited_level x b s = Some l /\ LOG_LEVEL_DISABLE <= l < LOG_LEVEL_NOTSET).
  { unfold inherited_level. destruct b; [|by exists LOG_LEVEL_INFO]. destruct Hbl as (p & gp & Hp & Egp & _); [done..|].
    exists (m_loggerLevel gp). rewrite Ex. cbn. rewrite Hp. cbn. unfold level_of. rewrite Egp. split; [done|]. by apply (tree_range s (inv_tree s Hi) p gp). }
  destruct Hlev as (l & El & Hl). set (g' := with_level l (with_inherit b g)).
  destruct (assign_spec x g g' s) as (s' & E & Hi' & Hg & Ho & Hr); [done|done|done|done| |].
  { cbn. intros -> _ p Hp. unfold inherited_level in El. rewrite Ex in El. cbn in El. by rewrite Hp in El. }
  exists s'. split; [|split; [done|]].
  - assert (E2 : forall l, update x (with_level l) s1 = Some (with_heap (<[x:=with_level l (with_inherit b g)]>) s)).
    { intros l'. rewrite (update_def _ _ _ _ E1). unfold s1. by rewrite with_heap_insert. }
    destruct b; cbn [mbind option_bind negb andb].
    + destruct Hbl as (p & gp & Hp & Egp & Hlt); [done..|]. rewrite Hp. cbn [mbind option_bind].
      unfold getLevel. assert (Ep1 : heap s1 !! p = Some gp) by (unfold s1; cbn; by rewrite lookup_insert_ne by lia). rewrite Ep1. cbn [mbind option_bind].
      assert (Hlp : m_loggerLevel gp = l).
      { unfold inherited_level in El. rewrite Ex in El. cbn [mbind option_bind] in El. rewrite Hp in El. cbn [mbind option_bind] in El. unfold level_of in El. rewrite Egp in El. by injection El. }
      rewrite Hlp, E2. exact E.
    + injection El as <-. rewrite E2. cbn [mbind option_bind]. unfold g' in E. by rewrite E.
  - assert (Eg' : heap (with_heap (<[x:=g']>) s) !! x = Some g') by apply lookup_insert_eq.
    split_and!.
    + rewrite <- (relevel_takes_of g' _ s' x Hr Eg'). cbn. by rewrite Hset.
    + etrans; [|by apply relevel_shape]. by apply (update_shape x (fun g => with_level l (with_inherit b g))); [|unfold update; rewrite Ex].
    + intros y _ Hy He. rewrite El. by apply Hg.
    + intros y [?|Hy]; [done|]. by apply Ho.
Qed.

(** ** Making loggers *)

(** The loggers there are keep everything but get children. *)
Definition kept (g g' : Logger) : Prop :=
  m_appenderSet g' = m_appenderSet g /\ m_loggerName g' = m_loggerName g /\ m_loggerLevel g' = m_loggerLevel g /\ m_bLevelSet g' = m_bLevelSet g /\
  m_parent g' = m_parent g /\ m_bInherit g' = m_bInherit g /\ m_children g `prefix_of` m_children g'.

Definition grown (s s' : Loggers) : Prop :=
  out s' = out s /\ forall x g, heap s !! x = Some g -> exists g', heap s' !! x = Some g' /\ kept g g'.

#[export] Instance grown_preorder : PreOrder grown.
Proof.
  split; [intros s; split; [done|]; intros x g E; exists g; by split_and!|].
  intros s1 s2 s3 [Ho H] [Ho' H']. split; [congruence|]. intros x g E. destruct (H x g E) as (g2 & E2 & K2). destruct (H' x g2 E2) as (g3 & E3 & K3).
  exists g3. split; [done|]. unfold kept in *. destruct K2 as (? & ? & ? & ? & ? & ? & ?), K3 as (? & ? & ? & ? & ? & ? & ?).
  split_and!; [congruence..|]. by etrans.
Qed.

Lemma fresh s : tree s -> heap s !! next s = None.
Proof. intros Ht. destruct (heap s !! next s) eqn:E; [|done]. assert (next s < next s)%nat by (apply (tree_next s Ht); by exists l). lia. Qed.

Lemma root_spec s : Inv s -> exists r s', getRootLogger s = (r, s') /\ Inv s' /\ grown s s' /\ s_rootLogger s' = Some r /\ s_loggerMap s' = s_loggerMap s /\
  (s_rootLogger s <> None -> s' = s).
Proof.
  intros Hi. unfold getRootLogger. destruct (s_rootLogger s) as [r|] eqn:Er; [by exists r, s|].
  destruct Hi as [Ht Hn Hl]. pose proof (fresh s Ht) as Hf. cbn. eexists _, _. split; [done|].
  match goal with |- context [<[next s := ?g]> _] => set (g0 := g) end.
  set (s' := with_root _ _). assert (Hh : forall y, heap s' !! y = if decide (y = next s) then Some g0 else heap s !! y).
  { intros y. cbn. case_decide as Hd; [subst; by rewrite lookup_insert_eq|by rewrite lookup_insert_ne]. }
  assert (Hold : forall y g, heap s !! y = Some g -> heap s' !! y = Some g) by (intros y g E; rewrite Hh, decide_False; [done|congruence]).
  assert (Hpar : forall y p, parent_of s' y p <-> parent_of s y p).
  { intros y p. unfold parent_of. rewrite Hh. case_decide as Hd; [subst; rewrite Hf|done]. split; [by intros (? & [= <-] & ?)|by intros (? & ? & _)]. }
  assert (Hnamed : forall n p, named s n p -> named s' n p) by (intros [n|] p; cbn; by rewrite ?Er).
  split; [split; [split|split|]|].
  - intros y. rewrite Hh. cbn. case_decide; [lia|]. intros Hy. apply (tree_next s Ht) in Hy. lia.
  - intros y p Hp. apply Hpar in Hp. destruct (tree_parent s Ht y p Hp) as (? & gp & E & ?). split; [done|]. exists gp. split; [by apply Hold|done].
  - intros p gp c. rewrite Hh. case_decide; [by intros [= <-] ?%not_elem_of_nil|]. intros E Hin. apply Hpar. by apply (tree_child s Ht p gp).
  - intros y g. rewrite Hh. case_decide; [by intros [= <-]|]. apply (tree_range s Ht).
  - intros r [= <-]. rewrite Hh, decide_True by done. by eexists.
  - intros m n x E Hx. destruct (names_map s Hn m n x E Hx) as (g & p & Eg & ? & ? & ?). exists g, p. split_and!; [by apply Hold|done|done|by apply Hnamed].
  - intros x g. rewrite Hh. case_decide as Hd; [subst; by left|]. intros E. destruct (names_heap s Hn x g E) as [?|?]; [congruence|right]. by apply Hnamed.
  - intros x p (g & E & Htk) Hp. apply Hpar in Hp. pose proof Hp as (g' & E' & _). unfold level_of. destruct (tree_parent s Ht x p Hp) as (_ & gp & Ep & _).
    rewrite (Hold _ _ E'), (Hold _ _ Ep). rewrite (Hold _ _ E') in E. injection E as <-. pose proof (Hl x p) as Hlx. unfold level_of in Hlx. rewrite E', Ep in Hlx.
    apply Hlx; [by exists g'|done].
  - split; [split; [done|]|by split_and!]. intros y g E. exists g. split; [by apply Hold|]. by split_and!.
Qed.

Lemma before_last_dot_length n p : before_last_dot n = Some p -> (length p < length n)%nat.
Proof.
  revert p. induction n as [|c n IH]; intros p; cbn; [done|]. destruct (before_last_dot n) as [q|]; [|case_match; [|done]]; intros [= <-]; cbn; [|lia].
  specialize (IH q eq_refl). lia.
Qed.

(** [new Logger(...)], [push_back] and [insert]. *)
Definition add_logger (name : list Z) (b : bool) (p : nat) (gp : Logger) (m : gmap (list Z) nat) (s : Loggers) : Loggers :=
  with_map (Some (<[name := next s]> m))
    (with_heap (<[p := with_child (next s) gp]>) (new_logger name (m_loggerLevel gp) (Some p) b s).2).

Lemma add_logger_Inv name b p gp m s : Inv s -> heap s !! p = Some gp -> s_loggerMap s = Some m -> m !! name = None ->
  named s (before_last_dot name) p ->
  Inv (add_logger name b p gp m s) /\ grown s (add_logger name b p gp m s).
Proof.
  intros [Ht Hn Hl] Ep Em Enm Hnp. pose proof (fresh s Ht) as Hf. set (s' := add_logger name b p gp m s).
  set (g0 := {| m_appenderSet := ∅; m_loggerName := name; m_loggerLevel := m_loggerLevel gp; m_bLevelSet := false; m_parent := Some p; m_children := []; m_bInherit := b |}).
  assert (Hpx : (p < next s)%nat) by (apply (tree_next s Ht); by exists gp).
  assert (Hh : forall y, heap s' !! y = if decide (y = next s) then Some g0 else if decide (y = p) then Some (with_child (next s) gp) else heap s !! y).
  { intros y. unfold s', add_logger. cbn. case_decide as Hd; [subst; rewrite lookup_insert_ne, lookup_insert_eq by lia; done|].
    case_decide as Hd'; [subst; by rewrite lookup_insert_eq|by rewrite !lookup_insert_ne]. }
  assert (Hold : grown s s').
  { split; [done|]. intros y g E. rewrite Hh. rewrite decide_False by congruence. case_decide as Hd; [|exists g; by split_and!].
    subst y. exists (with_child (next s) gp). rewrite Ep in E. injection E as <-. split_and!; try done. split_and!; try done. by exists [next s]. }
  assert (Hold' : forall y g', y <> next s -> heap s' !! y = Some g' -> exists g, heap s !! y = Some g /\ kept g g').
  { intros y g' Hy E'. destruct (heap s !! y) as [g|] eqn:E; [|rewrite Hh, decide_False in E' by done; case_decide; congruence].
    destruct Hold as [_ Hold]. destruct (Hold y g E) as (g'' & E'' & K). exists g. split; [done|congruence]. }
  assert (Hpar : forall y q, parent_of s' y q <-> parent_of s y q \/ y = next s /\ q = p).
  { intros y q. destruct (decide (y = next s)) as [->|Hy]; unfold parent_of.
    - rewrite Hh, decide_True, Hf by done. split; [intros (? & [= <-] & [= ->]); by right|intros [(? & ? & _)|[_ ->]]; [done|by exists g0]].
    - split; [intros (g' & E' & Hq); destruct (Hold' y g' Hy E') as (g & E & K); left; exists g; split; [done|]; rewrite <- Hq; symmetry; apply K|].
      intros [(g & E & Hq)|[? _]]; [|done]. destruct (proj2 Hold y g E) as (g' & E' & K). exists g'. split; [done|]. rewrite <- Hq. apply K. }
  assert (Hnamed : forall n q, named s n q -> named s' n q).
  { intros [n|] q; [|done]. intros (m' & Em' & Eq). rewrite Em in Em'. injection Em' as <-. exists (<[name := next s]> m). split; [done|].
    rewrite lookup_insert_ne; [done|congruence]. }
  assert (Hlev : forall y, y <> next s -> level_of y s' = level_of y s).
  { intros y Hy. unfold level_of. rewrite Hh, decide_False by done. case_decide; [subst; by rewrite Ep|done]. }
  split; [|done]. split; [split|split|].
  - intros y. rewrite Hh. cbn. case_decide; [lia|]. case_decide; [lia|]. intros Hy. apply (tree_next s Ht) in Hy. lia.
  - intros y q [Hp|[-> ->]]%Hpar.
    + destruct (tree_parent s Ht y q Hp) as (? & gq & E & Hin). split; [done|]. destruct (proj2 Hold q gq E) as (gq' & E' & K). exists gq'. split; [done|].
      destruct K as (_ & _ & _ & _ & _ & _ & [k ->]). apply elem_of_app. by left.
    + split; [done|]. exists (with_child (next s) gp). rewrite Hh, decide_False, decide_True by lia. split; [done|]. apply elem_of_app. right. by left.
  - intros q gq c. rewrite Hh. case_decide; [by intros [= <-] ?%not_elem_of_nil|]. rewrite Hpar. case_decide as Hd; [|intros E Hin; left; by apply (tree_child s Ht q gq)].
    subst q. intros [= <-] [Hin|Hin]%elem_of_app; [left; by apply (tree_child s Ht p gp)|]. apply list_elem_of_singleton in Hin as ->. by right.
  - intros y g. rewrite Hh. case_decide; [intros [= <-]; exact (tree_range s Ht p gp Ep)|]. case_decide; [intros [= <-]; exact (tree_range s Ht p gp Ep)|by apply (tree_range s Ht)].
  - intros r Er. destruct (names_root s Hn r Er) as (g & E & Hnm & Hpr). destruct (proj2 Hold r g E) as (g' & E' & (_ & Hnm' & _ & _ & Hpr' & _)). exists g'. by rewrite Hnm', Hpr'.
  - intros m' n x [= <-]. destruct (decide (n = name)) as [->|Hne].
    + rewrite lookup_insert_eq. intros [= <-]. exists g0, p. rewrite Hh, decide_True by done. split_and!; [done..|]. by apply Hnamed.
    + rewrite lookup_insert_ne by done. intros Hx. destruct (names_map s Hn m n x Em Hx) as (g & q & E & Hnm & Hpr & Hq).
      destruct (proj2 Hold x g E) as (g' & E' & (_ & Hnm' & _ & _ & Hpr' & _)). exists g', q. rewrite Hnm', Hpr'. split_and!; [done..|]. by apply Hnamed.
  - intros x g E. destruct (decide (x = next s)) as [->|Hx].
    + rewrite Hh, decide_True in E by done. injection E as <-. right. exists (<[name := next s]> m). split; [done|]. by rewrite lookup_insert_eq.
    + destruct (Hold' x g Hx E) as (g' & E' & (_ & -> & _)). destruct (names_heap s Hn x g' E') as [?|?]; [by left|right; by apply Hnamed].
  - intros x q (g & E & Hi & Hset) [Hp|[-> ->]]%Hpar.
    + destruct (tree_parent s Ht x q Hp) as (Hq & gq & Eq & _). destruct Hp as (gx & Ex & Hp). assert (Hx : (x < next s)%nat) by (apply (tree_next s Ht); by exists gx).
      rewrite !Hlev by lia. apply Hl; [|by exists gx]. destruct (proj2 Hold x gx Ex) as (gx' & Ex' & (_ & _ & _ & Hset' & _ & Hi' & _)). exists gx. split; [done|].
      rewrite <- Hi', <- Hset'. split; congruence.
    + rewrite (Hlev p) by lia. unfold level_of. by rewrite Hh, decide_True, Ep.
Qed.

Lemma getLogger_loop_spec fuel name b s m : Inv s -> s_loggerMap s = Some m -> (length name < fuel)%nat ->
  exists x s' m', getLogger_loop fuel name b s = Some (x, s') /\ Inv s' /\ grown s s' /\ s_loggerMap s' = Some m' /\ m' !! name = Some x /\
    (forall n, (length name < length n)%nat -> m' !! n = m !! n) /\
    match m !! name with
    | Some y => s' = s /\ y = x
    | None => exists g p, heap s' !! x = Some g /\ m_parent g = Some p /\ m_bInherit g = b /\ m_bLevelSet g = false /\ m_appenderSet g = ∅ /\ level_of x s' = level_of p s'
    end.
Proof.
  revert name b s m. induction fuel as [|fuel IH]; intros name b s m Hi Em Hlen; [lia|]. cbn [getLogger_loop]. rewrite Em. cbn [mbind option_bind].
  destruct (m !! name) as [y|] eqn:Ey; [by exists y, s, m|].
  assert (Hparent : exists p s1 m1, match before_last_dot name with None => Some (getRootLogger s) | Some parentName => getLogger_loop fuel parentName true s end = Some (p, s1) /\
    Inv s1 /\ grown s s1 /\ s_loggerMap s1 = Some m1 /\ named s1 (before_last_dot name) p /\ (forall n, (length name <= length n)%nat -> m1 !! n = m !! n)).
  { destruct (before_last_dot name) as [pn|] eqn:Epn.
    - apply before_last_dot_length in Epn. destruct (IH pn true s m Hi Em) as (p & s1 & m1 & E & Hi1 & Hg1 & Em1 & Hp & Hn & _); [lia|].
      exists p, s1, m1. split_and!; [done..| |].
      + by exists m1.
      + intros n Hn'. apply Hn. lia.
    - destruct (root_spec s Hi) as (r & s1 & E & Hi1 & Hg1 & Hr & Hm & _). exists r, s1, m. rewrite E, Hm. by split_and!. }
  destruct Hparent as (p & s1 & m1 & E & Hi1 & Hg1 & Em1 & Hp & Hn). rewrite E. cbn [mbind option_bind].
  assert (Hgp : exists gp, heap s1 !! p = Some gp).
  { destruct (before_last_dot name) as [pn|]; cbn [named] in Hp.
    - destruct Hp as (m' & Em' & Hp). destruct (names_map s1 (inv_names s1 Hi1) m' pn p Em' Hp) as (g & _ & ? & _). by exists g.
    - destruct (names_root s1 (inv_names s1 Hi1) p Hp) as (g & ? & _). by exists g. }
  destruct Hgp as [gp Ep]. rewrite Ep. cbn [mbind option_bind].
  assert (En1 : m1 !! name = None) by by rewrite Hn.
  destruct (add_logger_Inv name b p gp m1 s1 Hi1 Ep Em1 En1 Hp) as [Hi2 Hg2].
  assert (Hpx : (p < next s1)%nat) by (apply (tree_next s1 (inv_tree s1 Hi1)); by exists gp).
  exists (next s1), (add_logger name b p gp m1 s1), (<[name := next s1]> m1). split_and!; [|done|by etrans|done|by rewrite lookup_insert_eq| |].
  - unfold new_logger, update. cbn [heap]. rewrite lookup_insert_ne by lia. rewrite Ep. cbn [mbind option_bind with_heap s_loggerMap]. rewrite Em1. cbn [mbind option_bind].
    rewrite En1. done.
  - intros n Hlt. rewrite lookup_insert_ne; [apply Hn; lia|]. intros ->. lia.
  - eexists _, p. unfold add_logger, level_of. cbn. rewrite (lookup_insert_ne _ p) by lia. rewrite lookup_insert_eq. split; [done|]. cbn. split_and!; [done..|].
    by rewrite lookup_insert_eq.
Qed.

(** ** Where a message goes *)

(** From the first logger that does not pass it on to [x] itself. *)
Fixpoint path (fuel : nat) (x : nat) (s : Loggers) : list nat :=
  match fuel, heap s !! x with
  | Datatypes.S fuel, Some g => (if m_bInherit g then match m_parent g with Some p => path fuel p s | None => [] end else []) ++ [x]
  | _, _ => []
  end.

Definition appenders_of (s : Loggers) (x : nat) : gset nat := match heap s !! x with Some g => m_appenderSet g | None => ∅ end.

Lemma name_empty s x g p gp : names s -> heap s !! x = Some g -> m_parent g = Some p -> heap s !! p = Some gp -> m_loggerName g = [] -> m_loggerName gp = [].
Proof.
  intros Hn E Hp Ep Hnm. destruct (names_heap s Hn x g E) as [Hr|(m & Em & Hx)].
  - destruct (names_root s Hn x Hr) as (g' & E' & _ & Hp'). congruence.
  - rewrite Hnm in Hx. destruct (names_map s Hn m [] x Em Hx) as (g' & q & E' & _ & Hq & Hroot). cbn in Hroot.
    destruct (names_root s Hn q Hroot) as (gq & Eq & ? & _). congruence.
Qed.

Lemma emit_app o o' s : emit o' (emit o s) = emit (o ++ o') s.
Proof. unfold emit. cbn. by rewrite app_assoc. Qed.

Lemma emit_nil s : emit [] s = s.
Proof. destruct s. unfold emit. cbn. by rewrite app_nil_r. Qed.

Section Logging.

Context (walk : gset nat -> list nat) (order : gmap (list Z) nat -> list (list Z * nat)).
Context (walk_elements : forall a, walk a ≡ₚ elements a) (order_entries : forall m, order m ≡ₚ map_to_list m).

Definition appends (e : LoggingEvent) (s : Loggers) (l : list nat) : list output :=
  concat ((fun x => (fun a => OAppend a e) <$> walk (appenders_of s x)) <$> l).

Definition flushes (s : Loggers) (l : list nat) : list output :=
  concat ((fun x => OFlush <$> walk (appenders_of s x)) <$> l).

(** The loggers in the order in which [flushAll] walks them. *)
Definition all_loggers (s : Loggers) : list nat :=
  match s_loggerMap s with Some m => (order m).*2 | None => [] end ++ match s_rootLogger s with Some r => [r] | None => [] end.

Lemma flush_def s x : is_Some (heap s !! x) -> flush walk x s = Some (emit (flushes s [x]) s).
Proof using Type. intros [g E]. unfold flush, flushes, appenders_of. cbn. rewrite E. by rewrite app_nil_r. Qed.

Lemma flushes_app s l k : flushes s (l ++ k) = flushes s l ++ flushes s k.
Proof using Type. unfold flushes. by rewrite fmap_app, concat_app. Qed.

Lemma flush_loop_def l s : (forall x, x ∈ l.*2 -> is_Some (heap s !! x)) -> flush_loop walk l s = Some (emit (flushes s l.*2) s).
Proof using Type.
  revert s. induction l as [|[n x] l IH]; intros s Hl; cbn [flush_loop]; [by rewrite emit_nil|].
  rewrite flush_def by (apply Hl; by left). cbn [mbind option_bind]. rewrite IH by (intros y Hy; apply Hl; by right).
  rewrite emit_app. do 2 f_equal. symmetry. exact (flushes_app s [x] l.*2).
Qed.

Lemma flushAll_def s : names s -> flushAll walk order s = Some (emit (flushes s (all_loggers s)) s).
Proof using order_entries.
  intros Hn. unfold flushAll, all_loggers. rewrite flushes_app, <- emit_app.
  assert (Hm : match s_loggerMap s with None => Some s | Some m => flush_loop walk (order m) s end =
    Some (emit (flushes s match s_loggerMap s with Some m => (order m).*2 | None => [] end) s)).
  { destruct (s_loggerMap s) as [m|] eqn:Em; [|by rewrite emit_nil]. apply flush_loop_def. intros x Hx.
    apply list_elem_of_fmap in Hx as ([n y] & -> & Hin). rewrite order_entries in Hin. apply elem_of_map_to_list in Hin.
    destruct (names_map s Hn m n y Em Hin) as (g & _ & ? & _). by exists g. }
  rewrite Hm. cbn [mbind option_bind s_rootLogger emit]. destruct (s_rootLogger s) as [r|] eqn:Er; [|by rewrite emit_nil].
  destruct (names_root s Hn r Er) as (g & E & _). by rewrite flush_def by by exists g.
Qed.

Lemma log_loop_def fuel x e depth s g : Inv s -> heap s !! x = Some g -> (x < fuel)%nat -> 0 <= depth -> (loggerName e = [] -> m_loggerName g = []) ->
  log_loop walk order fuel x e depth s =
    let s' := emit (appends e s (path fuel x s)) s in
    if (depth =? 0) && (level e =? LOG_LEVEL_FATAL) then Some (false, e, emit (flushes s (all_loggers s) ++ [OAbort]) s') else Some (true, e, s').
Proof using order_entries.
  intros Hi. revert x depth g. induction fuel as [|fuel IH]; intros x depth g E Hf Hd Hname; [lia|]. cbn [log_loop path]. rewrite E. cbn [mbind option_bind].
  set (up := if m_bInherit g then match m_parent g with Some p => path fuel p s | None => [] end else []).
  assert (Hup : (if m_bInherit g then match m_parent g with Some p => log_loop walk order fuel p e (depth + 1) s | None => Some (true, e, s) end else Some (true, e, s))
    = Some (true, e, emit (appends e s up) s)).
  { unfold up. destruct (m_bInherit g); [|by rewrite emit_nil]. destruct (m_parent g) as [p|] eqn:Ep; [|by rewrite emit_nil].
    destruct (tree_parent s (inv_tree s Hi) x p) as (Hlt & gp & Egp & _); [by exists g|]. rewrite (IH p (depth + 1) gp); [|done|lia|lia|].
    - rewrite (proj2 (Z.eqb_neq _ _)) by lia. done.
    - intros He. by eapply name_empty; [apply Hi|apply E| | |apply Hname]. }
  rewrite Hup. cbn [mbind option_bind].
  assert (He : (if bool_decide (loggerName e = []) then {| loggerName := m_loggerName g; message := message e; level := level e |} else e) = e).
  { case_bool_decide as Hb; [|done]. rewrite Hname by done. destruct e; cbn in *. by rewrite Hb. }
  rewrite He, emit_app. replace (appends e s up ++ _) with (appends e s (up ++ [x])).
  2:{ unfold appends. rewrite fmap_app, concat_app. cbn. unfold appenders_of. rewrite E. by rewrite app_nil_r. }
  destruct ((depth =? 0) && (level e =? LOG_LEVEL_FATAL)); [|done]. rewrite flushAll_def.
  - cbn [mbind option_bind]. by rewrite emit_app.
  - apply (same_shape_names s); [done|apply Hi].
Qed.

End Logging.

(** [x] passes its messages on to [y]. *)
Inductive passes (s : Loggers) (x : nat) : nat -> Prop :=
| passes_self : passes s x x
| passes_parent y p g : heap s !! y = Some g -> m_bInherit g = true -> m_parent g = Some p -> passes s x y -> passes s x p.

Lemma passes_from s x p y g : heap s !! x = Some g -> m_bInherit g = true -> m_parent g = Some p -> passes s p y -> passes s x y.
Proof. intros E Hi Hp. induction 1; [econstructor; [done..|constructor]|by econstructor]. Qed.

Lemma passes_inv s x y g : heap s !! x = Some g -> passes s x y -> y = x \/ exists p, m_bInherit g = true /\ m_parent g = Some p /\ passes s p y.
Proof.
  intros E. induction 1 as [|y q gy Ey Hi Hq Hy IH]; [by left|]. right. destruct IH as [->|(p & ? & ? & Hpy)].
  - rewrite E in Ey. injection Ey as <-. exists q. split_and!; [done..|constructor].
  - exists p. split_and!; [done..|]. by econstructor.
Qed.

Lemma path_spec fuel x s : tree s -> is_Some (heap s !! x) -> (x < fuel)%nat ->
  (forall y, y ∈ path fuel x s <-> passes s x y) /\ StronglySorted lt (path fuel x s) /\ (forall y, y ∈ path fuel x s -> (y <= x)%nat).
Proof.
  intros Ht. revert x. induction fuel as [|fuel IH]; intros x [g E] Hf; [lia|]. cbn [path]. rewrite E.
  assert (Hnone : (forall p, m_bInherit g = true -> m_parent g = Some p -> False) ->
    (forall y, y ∈ [x] <-> passes s x y) /\ StronglySorted lt [x] /\ (forall y, y ∈ [x] -> (y <= x)%nat)).
  { intros Hno. split_and!; [|by repeat constructor|by intros y ->%list_elem_of_singleton]. intros y. rewrite list_elem_of_singleton.
    split; [intros ->; constructor|]. intros [?|(p & ? & ? & _)]%(passes_inv _ _ _ g E); [done|]. by destruct (Hno p). }
  destruct (m_bInherit g) eqn:Hi; [|by apply Hnone]. destruct (m_parent g) as [p|] eqn:Hp; [|by apply Hnone].
  destruct (tree_parent s Ht x p) as (Hlt & gp & Ep & _); [by exists g|]. destruct (IH p) as (Hin & Hsort & Hle); [by exists gp|lia|].
  split_and!.
  - intros y. rewrite elem_of_app, Hin, list_elem_of_singleton. split; [intros [?| ->]; [by eapply passes_from|constructor]|].
    intros [?|(q & _ & Hq & ?)]%(passes_inv _ _ _ g E); [by right|left; congruence].
  - clear - Hsort Hle Hlt. revert Hsort. induction (path fuel p s) as [|y l IHl]; intros Hsort; [by repeat constructor|].
    inversion Hsort as [|? ? Hl Hall]; subst. cbn. constructor; [apply IHl; [|done]; intros z Hz; apply Hle; by right|].
    apply Forall_app. split; [done|]. constructor; [|constructor]. assert (y <= p)%nat by (apply Hle; by left). lia.
  - intros y [Hy| ->%list_elem_of_singleton]%elem_of_app; [|done]. apply Hle in Hy. lia.
Qed.

(** ** What users of the loggers do *)

Inductive op :=
| OpGetRootLogger
| OpGetLogger (name : list Z) (bInherit : bool)
| OpSetLevel (x : nat) (lv : Z)
| OpSetInheritFlag (x : nat) (bInherit : bool)
| OpAddAppender (x : nat) (appender : option nat)
| OpSetAppender (x : nat) (appender : option nat)
| OpRemoveAllAppenders (x : nat).

Definition run_op (o : op) (s : Loggers) : option Loggers :=
  match o with
  | OpGetRootLogger => Some (getRootLogger s).2
  | OpGetLogger name b => snd <$> getLogger name b s
  | OpSetLevel x lv => setLevel x lv s
  | OpSetInheritFlag x b => setInheritFlag x b s
  | OpAddAppender x a => addAppender x a s
  | OpSetAppender x a => setAppender x a s
  | OpRemoveAllAppenders x => removeAllAppenders x s
  end.

Fixpoint run (ops : list op) (s : Loggers) : option Loggers :=
  match ops with [] => Some s | o :: ops => s ← run_op o s; run ops s end.

(** The loggers that an operation is called on exist, a level is a [uint32_t],
    and only a logger with a parent, or a level of its own, is made to
    inherit. *)
Definition op_ready (o : op) (s : Loggers) : Prop :=
  match o with
  | OpGetRootLogger | OpGetLogger _ _ => True
  | OpSetLevel x lv => is_Some (heap s !! x) /\ 0 <= lv
  | OpSetInheritFlag x b => exists g, heap s !! x = Some g /\ (b = true -> m_bLevelSet g = false -> is_Some (m_parent g))
  | OpAddAppender x _ | OpSetAppender x _ | OpRemoveAllAppenders x => is_Some (heap s !! x)
  end.

Inductive used : Loggers -> Prop :=
| used_new : used Loggers_new
| used_op o s s' : used s -> op_ready o s -> run_op o s = Some s' -> used s'.

Lemma with_empty_map_Inv s : Inv s -> s_loggerMap s = None -> Inv (with_map (Some ∅) s).
Proof.
  intros [Ht Hn Hl] Em. split; [by destruct Ht| |done]. split; [apply (names_root s Hn)|by intros m n x [= <-]|].
  intros x g E. destruct (names_heap s Hn x g E) as [?|(m & ? & _)]; [by left|congruence].
Qed.

Lemma getLogger_spec name b s : Inv s -> exists x s' m', getLogger name b s = Some (x, s') /\ Inv s' /\ grown s s' /\ s_loggerMap s' = Some m' /\ m' !! name = Some x /\
  (named s (Some name) x -> s' = s) /\
  ((forall y, ~ named s (Some name) y) -> exists g p, heap s' !! x = Some g /\ m_parent g = Some p /\ m_bInherit g = b /\ m_bLevelSet g = false /\
    m_appenderSet g = ∅ /\ level_of x s' = level_of p s').
Proof.
  intros Hi. unfold getLogger. destruct (s_loggerMap s) as [m|] eqn:Em.
  - destruct (getLogger_loop_spec (S (length name)) name b s m Hi Em) as (x & s' & m' & E & Hi' & Hg & Em' & Ex & _ & Hc); [lia|].
    exists x, s', m'. split_and!; [done..| |]; cbn.
    + intros (m0 & Em0 & E0). assert (m0 = m) as -> by congruence. rewrite E0 in Hc. by destruct Hc.
    + intros Hno. destruct (m !! name) as [y|] eqn:Ey; [|done]. destruct (Hno y). by exists m.
  - destruct (getLogger_loop_spec (S (length name)) name b (with_map (Some ∅) s) ∅ (with_empty_map_Inv s Hi Em) eq_refl) as (x & s' & m' & E & Hi' & Hg & Em' & Ex & _ & Hc); [lia|].
    exists x, s', m'. split_and!; [done..| |done]; cbn. intros (m0 & Em0 & _). congruence.
Qed.

Lemma update_appenders_spec x a s g : Inv s -> heap s !! x = Some g -> exists s', update x (with_appenders a) s = Some s' /\ Inv s' /\
  heap s' = <[x := with_appenders a g]> (heap s).
Proof.
  intros Hi E. rewrite (update_def _ _ _ _ E). eexists. split; [done|]. split; [|done]. apply (shape_Inv s).
  - apply (update_shape x (with_appenders a)); [done|]. by rewrite (update_def _ _ _ _ E).
  - intros y. rewrite level_of_insert. case_decide as Hd; [subst|done]. unfold level_of. by rewrite E.
  - intros y. rewrite takes_insert. case_decide as Hd; [subst|done]. intros [? ?]. by exists g.
  - done.
Qed.

Lemma addAppender_spec x a s : Inv s -> is_Some (heap s !! x) -> exists s', addAppender x a s = Some s' /\ Inv s'.
Proof.
  intros Hi [g E]. destruct a as [a|]; [|by exists s]. cbn. destruct (update_appenders_spec x (m_appenderSet g ∪ {[a]}) s g Hi E) as (s' & Eu & Hi' & _).
  exists s'. split; [|done]. rewrite <- Eu, !(update_def _ _ _ _ E). done.
Qed.

Lemma run_op_Inv o s : Inv s -> op_ready o s -> exists s', run_op o s = Some s' /\ Inv s'.
Proof.
  intros Hi. destruct o as [|name b|x lv|x b|x a|x a|x]; cbn [op_ready run_op].
  - intros _. destruct (root_spec s Hi) as (r & s' & -> & Hi' & _). by exists s'.
  - intros _. destruct (getLogger_spec name b s Hi) as (x & s' & m' & -> & Hi' & _). by exists s'.
  - intros [[g E] Hlv]. destruct (decide (LOG_LEVEL_COUNT <= lv)) as [Hge|Hlt].
    + exists s. split; [|done]. unfold setLevel. rewrite E. cbn [mbind option_bind]. by rewrite (proj2 (Z.leb_le _ _)).
    + destruct (setLevel_spec s x lv g Hi E) as (s' & ? & ? & _); [unfold LOG_LEVEL_DISABLE; lia|]. by exists s'.
  - intros (g & E & Hb). destruct (setInheritFlag_spec s x b g Hi E Hb) as (s' & ? & ? & _). by exists s'.
  - by apply addAppender_spec.
  - intros [g E]. destruct a as [a|]; [|by exists s]. cbn [setAppender]. unfold removeAllAppenders.
    destruct (update_appenders_spec x ∅ s g Hi E) as (s1 & -> & Hi1 & Eh). cbn [mbind option_bind]. apply addAppender_spec; [done|].
    rewrite Eh, lookup_insert_eq. by eexists.
  - intros [g E]. destruct (update_appenders_spec x ∅ s g Hi E) as (s1 & ? & ? & _). by exists s1.
Qed.

Lemma used_Inv s : used s -> Inv s.
Proof. induction 1 as [|o s s' _ IH Ho E]; [apply Loggers_new_Inv|]. destruct (run_op_Inv o s IH Ho) as (s'' & ? & ?). congruence. Qed.

Lemma shutdown_heap s : Inv s -> heap (shutdown s) = ∅ /\ s_rootLogger (shutdown s) = None /\ s_loggerMap (shutdown s) = None.
Proof.
  intros [_ Hn _]. unfold shutdown.
  assert (Hdel : forall (l : list nat) (h : gmap nat Logger) y, foldr (fun x h => delete x h) h l !! y = if decide (y ∈ l) then None else h !! y).
  { intros l h y. induction l as [|x l IH]; cbn [foldr]; [by rewrite decide_False by apply not_elem_of_nil|].
    destruct (decide (x = y)) as [->|Hne]; [rewrite lookup_delete_eq, decide_True; [done|by left]|rewrite lookup_delete_ne, IH by done].
    case_decide as Hl; [rewrite decide_True; [done|by right]|rewrite decide_False; [done|]]. by intros [?|?]%elem_of_cons. }
  split; [|by destruct s as [h n [r|] [m|] o]]. apply map_empty. intros y.
  destruct (heap s !! y) as [g|] eqn:E.
  - destruct (names_heap s Hn y g E) as [Hr|(m & Em & Hy)].
    + destruct s as [h n r [m|] o]; cbn in Hr; subst r; cbn; rewrite ?Hdel; try case_decide; try done; by rewrite lookup_delete_eq.
    + assert (Hin : y ∈ (map_to_list m).*2) by (apply list_elem_of_fmap; exists (m_loggerName g, y); split; [done|by apply elem_of_map_to_list]).
      destruct s as [h n [r|] ml o]; cbn in Em; subst ml; cbn; rewrite Hdel; by rewrite decide_True.
  - destruct s as [h n [r|] [m|] o]; cbn in *; rewrite ?Hdel; try case_decide; try done; destruct (decide (r = y)) as [->|];
      by rewrite ?lookup_delete_eq, ?lookup_delete_ne.
Qed.

(** ** What the operations mean *)

(** C32: However the loggers are used from the start, with levels that are
    unsigned and inheritance turned on only for a logger with a parent or with
    a level of its own, no operation uses a null pointer and each ends (the fuel
    of the recursions does not run out); every level is one of those that a
    message can have, a logger that inherits and has no level of its own has
    that of its parent, and the parent of a logger is the one that has its name
    up to the last dot, or the root. *)
Theorem loggers_follow_names s : used s ->
  (forall o, op_ready o s -> is_Some (run_op o s)) /\
  (forall x g, heap s !! x = Some g -> LOG_LEVEL_DISABLE <= m_loggerLevel g <= LOG_LEVEL_TRACE3 /\
     (m_bInherit g = true -> m_bLevelSet g = false -> forall p, m_parent g = Some p -> level_of p s = Some (m_loggerLevel g))) /\
  (forall m n x, s_loggerMap s = Some m -> m !! n = Some x -> exists g p, heap s !! x = Some g /\ m_loggerName g = n /\ m_parent g = Some p /\
     x ∈ (default [] (m_children <$> heap s !! p)) /\ named s (before_last_dot n) p) /\
  (heap (shutdown s) = ∅).
Proof.
  intros Hi%used_Inv. split_and!.
  - intros o Ho. destruct (run_op_Inv o s Hi Ho) as (s' & ? & _). by exists s'.
  - intros x g E. split; [pose proof (tree_range s (inv_tree s Hi) x g E) as Hr; unfold LOG_LEVEL_NOTSET in Hr; lia|]. intros Hin Hset p Hp.
    rewrite <- (inv_levels s Hi x p); [unfold level_of; by rewrite E|by exists g|by exists g].
  - intros m n x Em Hx. destruct (names_map s (inv_names s Hi) m n x Em Hx) as (g & p & E & ? & Hp & ?). exists g, p. split_and!; try done.
    destruct (tree_parent s (inv_tree s Hi) x p) as (_ & gp & Ep & ?); [by exists g|]. by rewrite Ep.
  - by apply shutdown_heap.
Qed.

(** C33: [setLevel] of a level that does not exist does nothing.  Otherwise it
    gives the level, that of the parent for [LOG_LEVEL_NOTSET] to a logger that
    inherits, [LOG_LEVEL_INFO] if there is none, to the logger and to exactly
    those below it that are reached through loggers that inherit and have no
    level of their own; the logger then has a level of its own unless the level
    was [LOG_LEVEL_NOTSET], and the tree is the same. *)
Theorem setLevel_reaches_inheritors s x lv g : used s -> heap s !! x = Some g -> 0 <= lv ->
  exists s', setLevel x lv s = Some s' /\
    (LOG_LEVEL_COUNT <= lv -> s' = s) /\
    (lv < LOG_LEVEL_COUNT -> same_shape s s' /\ (takes s' x <-> m_bInherit g = true /\ lv = LOG_LEVEL_NOTSET) /\
      (forall y, governs s x y -> is_Some (heap s !! y) -> level_of y s' = new_level x lv s) /\
      (forall y, ~ governs s x y -> level_of y s' = level_of y s)).
Proof.
  intros Hi%used_Inv E Hlv. destruct (decide (LOG_LEVEL_COUNT <= lv)) as [Hge|Hlt].
  - exists s. unfold setLevel. rewrite E. cbn [mbind option_bind]. rewrite (proj2 (Z.leb_le _ _)) by done. split_and!; [done..|lia].
  - destruct (setLevel_spec s x lv g Hi E) as (s' & ? & _ & ? & ? & ? & ?); [unfold LOG_LEVEL_DISABLE; lia|]. exists s'. split_and!; [done|lia|done].
Qed.

(** Asking for a name twice gives one logger, and changes nothing. *)
Lemma getLogger_again name b b' s x s' : used s -> getLogger name b s = Some (x, s') -> getLogger name b' s' = Some (x, s').
Proof.
  intros Hi%used_Inv E. destruct (getLogger_spec name b s Hi) as (x' & s'' & m & E' & Hi' & _ & Em & Ex & _). rewrite E in E'. injection E' as <- <-.
  destruct (getLogger_spec name b' s' Hi') as (y & s2 & m2 & E2 & _ & _ & Em2 & Ey & Hsame & _).
  unfold getLogger in E2 |- *. rewrite Em in E2 |- *. cbn [getLogger_loop] in E2 |- *. rewrite Em in E2 |- *. cbn [mbind option_bind] in E2 |- *. by rewrite Ex.
Qed.

Section Delivery.

Context (walk : gset nat -> list nat) (order : gmap (list Z) nat -> list (list Z * nat)).
Context (walk_elements : forall a, walk a ≡ₚ elements a) (order_entries : forall m, order m ≡ₚ map_to_list m).

(** C34: A message below the level of the logger it is given to goes nowhere.
    Any other goes, whatever the levels of the loggers above, to the appenders
    of the logger and of those it is passed on to, which are its ancestors up
    to the first that does not inherit, the topmost first, each appender of
    each such logger once, under the name of the logger it was given to; a
    fatal message then flushes the appenders of all loggers, and the process
    is aborted. *)
Theorem log_reaches_inherited_appenders s x g lv msg : used s -> heap s !! x = Some g ->
  let e := {| loggerName := m_loggerName g; message := msg; level := lv |} in
  log walk order x lv msg s =
    (if m_loggerLevel g <? lv then Some (true, s)
     else if lv =? LOG_LEVEL_FATAL then Some (false, emit (appends walk e s (path (S x) x s) ++ flushes walk s (all_loggers order s) ++ [OAbort]) s)
     else Some (true, emit (appends walk e s (path (S x) x s)) s)) /\
  (forall y, y ∈ path (S x) x s <-> passes s x y) /\ StronglySorted lt (path (S x) x s) /\
  (forall y, NoDup (walk (appenders_of s y)) /\ forall a, a ∈ walk (appenders_of s y) <-> a ∈ appenders_of s y) /\
  (forall y, is_Some (heap s !! y) <-> y ∈ all_loggers order s).
Proof using walk_elements order_entries.
  intros Hi%used_Inv E e. destruct (path_spec (S x) x s (inv_tree s Hi)) as (Hin & Hsort & _); [by exists g|lia|]. split_and!; [|done..| |].
  - unfold log, isLevelEnabled. rewrite E. cbn [mbind option_bind]. destruct (Z.ltb_spec (m_loggerLevel g) lv) as [Hlt|Hge].
    + by rewrite (proj2 (Z.leb_gt _ _)) by done.
    + rewrite (proj2 (Z.leb_le _ _)) by done. cbn [negb].
      rewrite (log_loop_def walk order order_entries (S x) x _ 0 s g) by (done || lia). cbn [Z.eqb andb level]. fold e.
      destruct (lv =? LOG_LEVEL_FATAL); cbn [mbind option_bind]; [by rewrite emit_app|done].
  - intros y. rewrite walk_elements. split; [apply NoDup_elements|]. intros a. by rewrite walk_elements, elem_of_elements.
  - intros y. unfold all_loggers. split.
    + intros [gy Ey]. apply elem_of_app. destruct (names_heap s (inv_names s Hi) y gy Ey) as [->|(m & -> & Hy)]; [right; by left|left].
      apply list_elem_of_fmap. exists (m_loggerName gy, y). split; [done|]. rewrite order_entries. by apply elem_of_map_to_list.
    + intros [Hy|Hy]%elem_of_app.
      * destruct (s_loggerMap s) as [m|] eqn:Em; [|by apply not_elem_of_nil in Hy]. apply list_elem_of_fmap in Hy as ([n y'] & -> & Hy).
        rewrite order_entries in Hy. apply elem_of_map_to_list in Hy. destruct (names_map s (inv_names s Hi) m n y' Em Hy) as (gy & _ & ? & _). by exists gy.
      * destruct (s_rootLogger s) as [r|] eqn:Er; [|by apply not_elem_of_nil in Hy]. apply list_elem_of_singleton in Hy as ->.
        destruct (names_root s (inv_names s Hi) r Er) as (gr & ? & _). by exists gr.
Qed.

End Delivery.

(** ** Examples *)

(** Loggers "a.b" and "a", an appender of the root and one of each. *)
Definition demo_ops : list op :=
  [OpGetLogger (lit "a.b") true; OpAddAppender 0 (Some 7%nat); OpAddAppender 2 (Some 8%nat); OpSetLevel 1 LOG_LEVEL_ERROR; OpSetInheritFlag 1 false;
   OpAddAppender 1 (Some 9%nat)].

Definition demo (n : nat) : Loggers := default Loggers_new (run (take n demo_ops) Loggers_new).

Lemma demo_used_4 : used (demo 4).
Proof.
  apply (used_op (OpSetLevel 1 LOG_LEVEL_ERROR) (demo 3)); [|by split; [vm_compute; eexists|]|by vm_compute].
  apply (used_op (OpAddAppender 2 (Some 8%nat)) (demo 2)); [|vm_compute; by eexists|by vm_compute].
  apply (used_op (OpAddAppender 0 (Some 7%nat)) (demo 1)); [|vm_compute; by eexists|by vm_compute].
  apply (used_op (OpGetLogger (lit "a.b") true) Loggers_new); [constructor|done|by vm_compute].
Qed.

Lemma demo_used_6 : used (demo 6).
Proof.
  apply (used_op (OpAddAppender 1 (Some 9%nat)) (demo 5)); [|vm_compute; by eexists|by vm_compute].
  apply (used_op (OpSetInheritFlag 1 false) (demo 4)); [apply demo_used_4|vm_compute; eexists; by split|by vm_compute].
Qed.

Example demo_levels : (fun x => level_of x (demo 4)) <$> [0; 1; 2]%nat = [Some LOG_LEVEL_INFO; Some LOG_LEVEL_ERROR; Some LOG_LEVEL_ERROR].
Proof. reflexivity. Qed.

(** Before and after "a" is cut off from the root. *)
Example demo_log : out <$> (snd <$> log elements map_to_list 2 LOG_LEVEL_ERROR (lit "no") (demo 4)) =
  Some [OAppend 7 {| loggerName := lit "a.b"; message := lit "no"; level := LOG_LEVEL_ERROR |};
        OAppend 8 {| loggerName := lit "a.b"; message := lit "no"; level := LOG_LEVEL_ERROR |}].
Proof. vm_compute. reflexivity. Qed.

Example demo_log_cut : out <$> (snd <$> log elements map_to_list 2 LOG_LEVEL_FATAL (lit "no") (demo 6)) =
  Some [OAppend 9 {| loggerName := lit "a.b"; message := lit "no"; level := LOG_LEVEL_FATAL |};
        OAppend 8 {| loggerName := lit "a.b"; message := lit "no"; level := LOG_LEVEL_FATAL |}; OFlush 8; OFlush 9; OFlush 7; OAbort].
Proof. vm_compute. reflexivity. Qed.

(** The root has no parent to inherit from. *)
Example root_cannot_inherit : (s ← run_op OpGetRootLogger Loggers_new; setInheritFlag 0 true s) = None.
Proof. reflexivity. Qed.

(** A logger made not to inherit has the level of its parent, one that stops
    inheriting [LOG_LEVEL_INFO]. *)
Example level_without_inheritance :
  (s ← run [OpGetLogger (lit "a") true; OpSetLevel 1 LOG_LEVEL_ERROR; OpGetLogger (lit "a.b") false; OpGetLogger (lit "a.c") true; OpSetInheritFlag 3 false] Loggers_new;
   Some (level_of 2 s, level_of 3 s)) = Some (Some LOG_LEVEL_ERROR, Some LOG_LEVEL_INFO).
Proof. vm_compute. reflexivity. Qed.

Lemma loggers_follow_names_witness :
  used (demo 4) /\ (exists g, heap (demo 4) !! 2%nat = Some g /\ LOG_LEVEL_DISABLE <= m_loggerLevel g <= LOG_LEVEL_TRACE3 /\ level_of 1 (demo 4) = Some (m_loggerLevel g)) /\
  heap (shutdown (demo 4)) = ∅.
Proof.
  destruct (loggers_follow_names (demo 4) demo_used_4) as (_ & Hl & _ & Hs). split; [apply demo_used_4|]. split; [|exact Hs].
  destruct (heap (demo 4) !! 2%nat) as [g|] eqn:E; [|vm_compute in E; done]. destruct (Hl 2%nat g E) as [Hr Hp]. exists g. split; [reflexivity|].
  split; [exact Hr|]. vm_compute in E. injection E as <-. by apply Hp.
Defined.

Lemma setLevel_reaches_inheritors_witness : exists s', setLevel 1 LOG_LEVEL_WARN (demo 4) = Some s' /\ level_of 2 s' = Some LOG_LEVEL_WARN /\ level_of 0 s' = Some LOG_LEVEL_INFO.
Proof.
  destruct (setLevel_reaches_inheritors (demo 4) 1 LOG_LEVEL_WARN _ demo_used_4 eq_refl ltac:(done)) as (s' & E & _ & H).
  destruct H as (_ & _ & Hg & Ho); [done|]. exists s'. split; [exact E|]. split.
  - apply Hg; [|by eexists]. apply (governs_child _ _ 2 1); [by eexists|by eexists|constructor].
  - apply Ho. intros Hg0. apply governs_le in Hg0; [lia|]. apply used_Inv, demo_used_4.
Defined.

Lemma log_reaches_inherited_appenders_witness :
  exists s', log elements map_to_list 2 LOG_LEVEL_ERROR (lit "no") (demo 4) = Some (true, s') /\
    out s' = out (demo 4) ++ [OAppend 7 {| loggerName := lit "a.b"; message := lit "no"; level := LOG_LEVEL_ERROR |};
                              OAppend 8 {| loggerName := lit "a.b"; message := lit "no"; level := LOG_LEVEL_ERROR |}].
Proof.
  destruct (log_reaches_inherited_appenders elements map_to_list ltac:(done) ltac:(done) (demo 4) 2 _ LOG_LEVEL_ERROR (lit "no") demo_used_4 eq_refl) as (E & _).
  eexists. split; [exact E|]. vm_compute. reflexivity.
Defined.
