(* ===== verification/LogLayout.v ===== *)
(** * The layouts of alog

    Sources: src/agent_engine/alog/src/cpp/Layout.cpp,
    src/agent_engine/alog/src/cpp/FormatComponent.cpp,
    src/agent_engine/alog/src/cpp/LoggingEvent.h.

    How an event is turned into the text that appenders write.  The times of an
    event are the texts that its constructor makes of the clock.  [None] is a
    read behind the end of a string or of the table of level names. *)

From S2P Require Import Prelude CString StringUtil Logger.

Definition s_gLevelName : list (list Z) :=
  lit <$> ["DISABLE"; "FATAL"; "ERROR"; "WARN"; "INFO"; "DEBUG"; "TRACE1"; "TRACE2"; "TRACE3"; "NOTSET"]%string.

(** A [LoggingEvent] with all its fields. *)
Record Event := {
  ev_loggerName : list Z;
  ev_message : list Z;
  ev_level : Z;
  ev_levelStr : list Z;
  ev_file : list Z;
  ev_line : Z;
  ev_function : list Z;
  ev_pid : Z;
  ev_tid : Z;
  ev_loggingTime : list Z;
  ev_loggingZoneTime : list Z;
}.

(** The constructor: [s_gLevelName[level]] may be out of range. *)
Definition LoggingEvent_new (name msg : list Z) (level : Z) (file : list Z) (line : Z) (func : list Z) (pid tid : Z) (time zoneTime : list Z) : option Event :=
  levelStr ← s_gLevelName !! Z.to_nat level;
  Some {| ev_loggerName := name; ev_message := msg; ev_level := level; ev_levelStr := levelStr; ev_file := file; ev_line := line; ev_function := func;
          ev_pid := pid; ev_tid := tid; ev_loggingTime := time; ev_loggingZoneTime := zoneTime |}.

(** ** Components of a pattern *)

Inductive FormatComponent :=
| StringComponent (literal : list Z)
| MessageComponent
| NameComponent
| DateComponent
| ZoneDateComponent
| LevelComponent
| ProcessIdComponent
| ThreadIdComponent
| FileComponent
| LineComponent
| FunctionComponent.

#[export] Instance FormatComponent_eq_dec : EqDecision FormatComponent.
Proof. solve_decision. Defined.

(** [append] of the class; an array of [char] is written up to its zero. *)
Definition append (c : FormatComponent) (e : Event) (out : list Z) : list Z :=
  out ++ match c with
         | StringComponent literal => literal
         | MessageComponent => ev_message e
         | NameComponent => ev_loggerName e
         | DateComponent => c_str (ev_loggingTime e)
         | ZoneDateComponent => c_str (ev_loggingZoneTime e)
         | LevelComponent => ev_levelStr e
         | ProcessIdComponent => to_string (ev_pid e)
         | ThreadIdComponent => to_string (ev_tid e)
         | FileComponent => ev_file e
         | LineComponent => to_string (ev_line e)
         | FunctionComponent => ev_function e
         end.

Definition PERCENT : Z := 37.
Definition NEWLINE : Z := 10.

(** [switch (cc)] *)
Definition component_of (cc : Z) : option FormatComponent :=
  if cc =? 109 then Some MessageComponent
  else if cc =? 99 then Some NameComponent
  else if cc =? 100 then Some DateComponent
  else if cc =? 122 then Some ZoneDateComponent
  else if cc =? 108 then Some LevelComponent
  else if cc =? 112 then Some ProcessIdComponent
  else if cc =? 116 then Some ThreadIdComponent
  else if cc =? 70 then Some FileComponent
  else if cc =? 102 then Some FunctionComponent
  else if cc =? 110 then Some LineComponent
  else None.

(** [if (!literal.empty()) m_components.push_back(new StringComponent(literal))] *)
Definition push_literal (literal : list Z) (components : list FormatComponent) : list FormatComponent :=
  match literal with [] => components | _ => components ++ [StringComponent literal] end.

(** The loop, from an iterator with the characters [l] before the end;
    [i + 2 != end] fails when there are two. *)
Fixpoint setLogPattern_loop (l literal : list Z) (components : list FormatComponent) : option (list FormatComponent) :=
  match l with
  | [] => Some (push_literal literal components)
  | i :: rest =>
      if (i =? PERCENT) && negb (length l =? 2)%nat then
        match rest with
        | [] => None
        | c :: rest =>
            if c =? PERCENT then
              match rest with
              | [] => None
              | cc :: rest =>
                  match component_of cc with
                  | Some component => setLogPattern_loop rest [] (push_literal literal components ++ [component])
                  | None => setLogPattern_loop rest (literal ++ [PERCENT; PERCENT; cc]) components
                  end
              end
            else setLogPattern_loop rest (literal ++ [PERCENT; c]) components
        end
      else setLogPattern_loop rest (literal ++ [i]) components
  end.

Record PatternLayout := { m_components : list FormatComponent; m_logPattern : list Z }.

Definition clearLogPattern (p : PatternLayout) : PatternLayout := {| m_components := []; m_logPattern := [] |}.

Definition setLogPattern (logPattern : list Z) (p : PatternLayout) : option PatternLayout :=
  let p := clearLogPattern p in
  components ← setLogPattern_loop logPattern [] (m_components p);
  Some {| m_components := components; m_logPattern := logPattern |}.

Definition defaultPattern : list Z := lit "%%d %%l %%c (%%p/%%t) : %%m".

Definition PatternLayout_new : option PatternLayout := setLogPattern defaultPattern {| m_components := []; m_logPattern := [] |}.

(** ** Layouts *)

Definition PatternLayout_format (p : PatternLayout) (e : Event) : list Z :=
  foldl (fun out c => append c e out) [] (m_components p) ++ [NEWLINE].

Definition BasicLayout_format (e : Event) : list Z :=
  c_str (ev_loggingTime e) ++ lit " " ++ ev_levelStr e ++ lit " " ++ ev_loggerName e ++ lit " : " ++ ev_message e ++ [NEWLINE].

Definition SimpleLayout_format (e : Event) : list Z :=
  c_str (ev_loggingTime e) ++ lit " " ++ ev_levelStr e ++ lit " " ++ ev_loggerName e ++ lit " (" ++ to_string (ev_pid e) ++ lit "/" ++ to_string (ev_tid e) ++
  lit ") : " ++ ev_message e ++ [NEWLINE].

Definition BinaryLayout_format (e : Event) : list Z := ev_message e.

Inductive Layout :=
| BasicLayout
| SimpleLayout
| BinaryLayout
| Pattern (p : PatternLayout).

Definition format (l : Layout) (e : Event) : list Z :=
  match l with
  | BasicLayout => BasicLayout_format e
  | SimpleLayout => SimpleLayout_format e
  | BinaryLayout => BinaryLayout_format e
  | Pattern p => PatternLayout_format p e
  end.

(** ** What a pattern means *)

Definition piece (c : FormatComponent) (e : Event) : list Z := append c e [].

Lemma append_piece c e out : append c e out = out ++ piece c e.
Proof. done. Qed.

Definition pieces (cs : list FormatComponent) (e : Event) : list Z := cs ≫= fun c => piece c e.

Lemma foldl_pieces cs e out : foldl (fun out c => append c e out) out cs = out ++ pieces cs e.
Proof.
  revert out. induction cs as [|c cs IH]; intros out; cbn [foldl]; [by rewrite app_nil_r|]. rewrite IH, append_piece. unfold pieces. cbn.
  by rewrite app_assoc.
Qed.

Lemma pieces_app cs ds e : pieces (cs ++ ds) e = pieces cs e ++ pieces ds e.
Proof. unfold pieces. by rewrite bind_app. Qed.

Lemma pieces_push literal cs e : pieces (push_literal literal cs) e = pieces cs e ++ literal.
Proof. destruct literal as [|a l]; cbn [push_literal]; [by rewrite app_nil_r|]. rewrite pieces_app. cbn. by rewrite app_nil_r. Qed.

(** A pattern without components: each [%%] with a letter is replaced, and the
    rest is copied. *)
Fixpoint expand (l : list Z) (e : Event) : list Z :=
  match l with
  | [] => []
  | a :: l =>
      match l with
      | [] => [a]
      | b :: l' =>
          match l' with
          | [] => [a; b]
          | c :: l'' =>
              if (a =? PERCENT) && (b =? PERCENT) then
                match component_of c with
                | Some component => piece component e ++ expand l'' e
                | None => a :: b :: c :: expand l'' e
                end
              else if a =? PERCENT then a :: b :: expand l' e
              else a :: expand l e
          end
      end
  end.

Lemma setLogPattern_loop_expand l literal cs cs' e : setLogPattern_loop l literal cs = Some cs' -> pieces cs' e = pieces cs e ++ literal ++ expand l e.
Proof.
  revert literal cs. induction l as [l IH] using (well_founded_induction (Wf_nat.well_founded_ltof _ length)). unfold ltof in IH. intros literal cs.
  destruct l as [|a [|b [|c l]]]; cbn [setLogPattern_loop expand].
  - intros [= <-]. by rewrite app_nil_r, pieces_push.
  - destruct (a =? PERCENT); [done|]. cbn [andb]. intros [= <-]. rewrite pieces_push. done.
  - cbn [length Nat.eqb negb]. rewrite andb_false_r. destruct (b =? PERCENT); [done|]. cbn [andb]. intros [= <-]. rewrite pieces_push, <- app_assoc. done.
  - change (length (a :: b :: c :: l) =? 2)%nat with false. cbn [negb]. rewrite andb_true_r. destruct (Z.eqb_spec a PERCENT) as [->|Ha]; cbn [andb].
    + destruct (Z.eqb_spec b PERCENT) as [->|Hb].
      * destruct (component_of c) as [component|]; intros E; apply IH in E; [|cbn; lia| |cbn; lia]; rewrite E.
        -- rewrite pieces_app, pieces_push. cbn. rewrite app_nil_r. by rewrite <- !app_assoc.
        -- by rewrite <- !app_assoc.
      * intros E. apply (IH (c :: l)) in E; [|cbn; lia]. rewrite E. by rewrite <- !app_assoc.
    + intros E. apply (IH (b :: c :: l)) in E; [|cbn; lia]. rewrite E. by rewrite <- !app_assoc.
Qed.

(** Where the loop stops before the end. *)
Lemma setLogPattern_loop_defined l literal cs : last l <> Some PERCENT -> is_Some (setLogPattern_loop l literal cs).
Proof.
  revert literal cs. induction l as [l IH] using (well_founded_induction (Wf_nat.well_founded_ltof _ length)). unfold ltof in IH. intros literal cs Hl.
  destruct l as [|a [|b [|c l]]]; cbn [setLogPattern_loop].
  - by eexists.
  - destruct (Z.eqb_spec a PERCENT) as [->|Ha]; [done|]. by eexists.
  - cbn [length Nat.eqb negb]. rewrite andb_false_r. destruct (Z.eqb_spec b PERCENT) as [->|Hb]; [done|]. by eexists.
  - change (length (a :: b :: c :: l) =? 2)%nat with false. cbn [negb]. rewrite andb_true_r.
    assert (Hbcl : last (b :: c :: l) <> Some PERCENT) by done. assert (Hcl : last (c :: l) <> Some PERCENT) by done.
    destruct (a =? PERCENT); [|apply (IH (b :: c :: l)); [cbn; lia|done]].
    destruct (b =? PERCENT); [|apply (IH (c :: l)); [cbn; lia|done]].
    assert (Hdl : last l <> Some PERCENT) by (destruct l; [done|exact Hcl]).
    destruct (component_of c); (apply IH; [cbn; lia|done]).
Qed.

Lemma setLogPattern_loop_undefined l c literal cs : c <> PERCENT -> setLogPattern_loop (l ++ [c; PERCENT]) literal cs = None.
Proof.
  intros Hc. revert literal cs. induction l as [l IH] using (well_founded_induction (Wf_nat.well_founded_ltof _ length)). unfold ltof in IH. intros literal cs.
  destruct l as [|a [|b [|d l]]].
  - cbn. rewrite (proj2 (Z.eqb_neq c PERCENT)) by done. done.
  - cbn [app]. cbn [setLogPattern_loop]. change (length [a; c; PERCENT] =? 2)%nat with false. cbn [negb]. rewrite andb_true_r.
    rewrite (proj2 (Z.eqb_neq c PERCENT)) by done. destruct (a =? PERCENT); done.
  - change ([a; b] ++ [c; PERCENT]) with (a :: b :: c :: [PERCENT]). cbn [setLogPattern_loop]. change (length [a; b; c; PERCENT] =? 2)%nat with false.
    change (length [b; c; PERCENT] =? 2)%nat with false. cbn [negb]. rewrite !andb_true_r. rewrite (proj2 (Z.eqb_neq c PERCENT)) by done.
    destruct (a =? PERCENT), (b =? PERCENT); try done; destruct (component_of c); done.
  - assert (E : forall k : list Z, length k <> 2%nat -> (length k =? 2)%nat = false) by (intros k Hk; by apply Nat.eqb_neq).
    change ((a :: b :: d :: l) ++ [c; PERCENT]) with (a :: b :: d :: (l ++ [c; PERCENT])).
    cbn [setLogPattern_loop]. rewrite E by (cbn; rewrite length_app; cbn; lia). cbn [negb]. rewrite andb_true_r.
    destruct (a =? PERCENT); [destruct (b =? PERCENT)|].
    + destruct (component_of d); (apply IH; cbn; lia).
    + apply (IH (d :: l)). cbn. lia.
    + apply (IH (b :: d :: l)). cbn. lia.
Qed.

Definition letter_of (c : FormatComponent) : Z :=
  match c with
  | StringComponent _ => 0
  | MessageComponent => 109
  | NameComponent => 99
  | DateComponent => 100
  | ZoneDateComponent => 122
  | LevelComponent => 108
  | ProcessIdComponent => 112
  | ThreadIdComponent => 116
  | FileComponent => 70
  | FunctionComponent => 102
  | LineComponent => 110
  end.

(** The pattern that is read as the given components. *)
Definition pattern_text (cs : list FormatComponent) : list Z :=
  cs ≫= fun c => match c with StringComponent literal => literal | _ => [PERCENT; PERCENT; letter_of c] end.

Definition is_string (c : FormatComponent) : bool := match c with StringComponent _ => true | _ => false end.

(** Literals are not empty, have no percent sign, and are not next to each other. *)
Fixpoint plain (cs : list FormatComponent) : Prop :=
  match cs with
  | [] => True
  | StringComponent literal :: cs => literal <> [] /\ PERCENT ∉ literal /\ match cs with StringComponent _ :: _ => False | _ => True end /\ plain cs
  | _ :: cs => plain cs
  end.

Lemma setLogPattern_loop_literal l rest literal cs : PERCENT ∉ l -> setLogPattern_loop (l ++ rest) literal cs = setLogPattern_loop rest (literal ++ l) cs.
Proof.
  revert literal. induction l as [|a l IH]; intros literal Hl; [by rewrite app_nil_r|]. apply not_elem_of_cons in Hl as [Ha Hl].
  cbn [app setLogPattern_loop]. rewrite (proj2 (Z.eqb_neq a PERCENT)) by done. cbn [andb]. rewrite IH by done. by rewrite <- app_assoc.
Qed.

Lemma setLogPattern_loop_component c rest literal cs : is_string c = false ->
  setLogPattern_loop ([PERCENT; PERCENT; letter_of c] ++ rest) literal cs = setLogPattern_loop rest [] (push_literal literal cs ++ [c]).
Proof. by destruct c. Qed.

Lemma setLogPattern_loop_text cs literal done : plain cs -> match cs with StringComponent _ :: _ => literal = [] | _ => True end ->
  setLogPattern_loop (pattern_text cs) literal done = Some (push_literal literal done ++ cs).
Proof.
  unfold pattern_text. revert literal done. induction cs as [|c cs IH]; intros literal done Hp Hlit; [cbn; by rewrite app_nil_r|].
  destruct (is_string c) eqn:Ec.
  - destruct c as [lit'| | | | | | | | | |]; try discriminate. destruct Hp as (Hne & Hno & Hnext & Hp). subst literal. cbn [mbind list_bind].
    rewrite setLogPattern_loop_literal by exact Hno. cbn [app]. destruct cs as [|c cs].
    + cbn. by destruct lit'.
    + assert (Hc : is_string c = false) by (destruct c; done). rewrite IH; [|done|by destruct c]. destruct lit'; [done|]. cbn. by rewrite <- app_assoc.
  - assert (Hp' : plain cs) by (destruct c; done).
    replace ((c :: cs) ≫= _) with ([PERCENT; PERCENT; letter_of c] ++ (cs ≫= fun c => match c with StringComponent literal => literal | _ => [PERCENT; PERCENT; letter_of c] end))
      by (by destruct c).
    rewrite setLogPattern_loop_component by done. rewrite IH; [|done|by destruct cs as [|[] ?]]. cbn. by rewrite <- app_assoc.
Qed.

(** ** The meaning of layouts *)

(** A pattern is accepted when it does not end in a percent sign, and the
    iterator of [setLogPattern] runs behind its end when it ends in a single
    one; the text of an event is then the pattern with every [%%] and letter
    replaced by what the letter stands for, and a newline.  The pattern written
    for a list of components is read as these components. *)
Theorem pattern_layout_meaning p pl0 :
  (last p <> Some PERCENT -> is_Some (setLogPattern p pl0)) /\
  (forall q c, p = q ++ [c; PERCENT] -> c <> PERCENT -> setLogPattern p pl0 = None) /\
  (forall pl e, setLogPattern p pl0 = Some pl -> PatternLayout_format pl e = expand p e ++ [NEWLINE]) /\
  (forall cs, plain cs -> p = pattern_text cs -> setLogPattern p pl0 = Some {| m_components := cs; m_logPattern := p |}).
Proof.
  unfold setLogPattern. cbn [m_components clearLogPattern]. split_and!.
  - intros Hl. destruct (setLogPattern_loop_defined p [] [] Hl) as [cs ->]. by eexists.
  - intros q c -> Hc. by rewrite setLogPattern_loop_undefined.
  - intros pl e. destruct (setLogPattern_loop p [] []) as [cs|] eqn:E; [|done]. intros [= <-]. unfold PatternLayout_format. cbn [m_components].
    by rewrite foldl_pieces, (setLogPattern_loop_expand _ _ _ _ e E).
  - intros cs Hp ->. rewrite setLogPattern_loop_text by (done || by destruct cs as [|[] ?]). done.
Qed.

(** The pattern of a new [PatternLayout] is the [SimpleLayout]. *)
Lemma default_pattern_simple : exists pl, PatternLayout_new = Some pl /\ forall e, PatternLayout_format pl e = SimpleLayout_format e.
Proof.
  eexists. split; [reflexivity|]. intros e. unfold PatternLayout_format, SimpleLayout_format. rewrite foldl_pieces. unfold pieces. cbn. rewrite <- ?app_assoc. cbn. repeat (rewrite <- ?app_assoc; cbn). reflexivity.
Qed.

(** A logger only makes events of levels that have a name. *)
Lemma enabled_level_named s x g lv name msg file line func pid tid time zoneTime : used s -> heap s !! x = Some g -> 0 <= lv -> isLevelEnabled lv g = true ->
  exists e, LoggingEvent_new name msg lv file line func pid tid time zoneTime = Some e /\ ev_levelStr e <> lit "NOTSET".
Proof.
  intros Hi%used_Inv E Hlv Hen. pose proof (tree_range s (inv_tree s Hi) x g E) as [_ Hr]. unfold isLevelEnabled in Hen. apply Z.leb_le in Hen.
  change LOG_LEVEL_NOTSET with 9 in Hr. assert (Hcases : lv = 0 \/ lv = 1 \/ lv = 2 \/ lv = 3 \/ lv = 4 \/ lv = 5 \/ lv = 6 \/ lv = 7 \/ lv = 8) by lia.
  unfold LoggingEvent_new. decompose [or] Hcases; subst lv; eexists; (split; [reflexivity|discriminate]).
Qed.

(** ** Examples *)

Definition event0 : Event :=
  {| ev_loggerName := lit "a.b"; ev_message := lit "hello"; ev_level := 2; ev_levelStr := lit "ERROR"; ev_file := lit "x.cc"; ev_line := 7; ev_function := lit "f";
     ev_pid := 42; ev_tid := 43; ev_loggingTime := lit "2024-01-02 03:04:05.000006"; ev_loggingZoneTime := lit "2024-01-02 03:04:05.000006:+0800" |}.

Example simple_event : SimpleLayout_format event0 = lit "2024-01-02 03:04:05.000006 ERROR a.b (42/43) : hello" ++ [NEWLINE].
Proof. reflexivity. Qed.

(** "100%" runs behind the end of the pattern, "100%%%" does not. *)
Example percent_at_end : setLogPattern (lit "%%m 100%") {| m_components := []; m_logPattern := [] |} = None.
Proof. reflexivity. Qed.

Example percents_in_pattern :
  (fun pl => PatternLayout_format pl event0) <$> setLogPattern (lit "%l %%l %%x 100%%%") {| m_components := []; m_logPattern := [] |} =
  Some (lit "%l ERROR %%x 100%%%" ++ [NEWLINE]).
Proof. reflexivity. Qed.

Lemma pattern_layout_meaning_witness :
  exists pl, setLogPattern defaultPattern {| m_components := []; m_logPattern := [] |} = Some pl /\
    PatternLayout_format pl event0 = lit "2024-01-02 03:04:05.000006 ERROR a.b (42/43) : hello" ++ [NEWLINE].
Proof.
  destruct (pattern_layout_meaning defaultPattern {| m_components := []; m_logPattern := [] |}) as (H1 & _ & H3 & _).
  destruct H1 as [pl E]; [discriminate|]. exists pl. split; [exact E|]. rewrite (H3 pl event0 E). reflexivity.
Defined.
