(* ===== verification/LogConfig.v ===== *)
(** * The configuration of alog

    Sources: src/agent_engine/alog/src/cpp/Configurator.cpp,
    src/agent_engine/alog/src/cpp/Properties.h and .cpp,
    src/agent_engine/alog/src/cpp/StringUtil.h and .cpp.

    The text of a configuration is read into properties, a map ordered by its
    keys, and the loggers that the properties name are configured one after the
    other.  The environment is a parameter.  The table of appenders that
    [initAllAppenders] makes is an argument, as it is in the code: what an
    appender is is not modelled.  The loop of [Split] is not cut off at
    [INT_MAX] segments. *)

From stdpp Require Import gmap sorting.
From S2P Require Import Prelude CString StringUtil Logger.
From S2P Require Json.

(** ** The strings of alog *)

Definition whiteSpace : list Z := [32; 9; 13; 10].

Fixpoint find_first_not_in (cs s : list Z) : option nat :=
  match s with
  | [] => None
  | c :: s => if bool_decide (c ∈ cs) then S <$> find_first_not_in cs s else Some 0%nat
  end.

Fixpoint find_last_not_in (cs s : list Z) : option nat :=
  match s with
  | [] => None
  | c :: s => match find_last_not_in cs s with Some n => Some (S n) | None => if bool_decide (c ∈ cs) then None else Some 0%nat end
  end.

Definition alog_Trim (str : list Z) : list Z :=
  match str with
  | [] => str
  | _ =>
      match find_first_not_in whiteSpace str, find_last_not_in whiteSpace str with
      | Some beginPos, Some endPos => substr str beginPos (endPos - beginPos + 1)
      | _, _ => []
      end
  end.

(** The segments of [s] behind those characters of the first one that were
    read already; an empty last segment is left out. *)
Fixpoint alog_Split_loop (delimiter : Z) (seg s : list Z) : list (list Z) :=
  match s with
  | [] => match seg with [] => [] | _ => [seg] end
  | c :: s => if c =? delimiter then seg :: alog_Split_loop delimiter [] s else alog_Split_loop delimiter (seg ++ [c]) s
  end.

Definition alog_Split (s : list Z) (delimiter : Z) : list (list Z) := alog_Split_loop delimiter [] s.

(** ** Properties *)

Definition Properties : Type := list (list Z * list Z).

Fixpoint prop_find (p : Properties) (k : list Z) : option (list Z) :=
  match p with
  | [] => None
  | (k', v) :: p => if bool_decide (k = k') then Some v else prop_find p k
  end.

(** [insert] keeps a value that is there. *)
Fixpoint prop_insert (k v : list Z) (p : Properties) : Properties :=
  match p with
  | [] => [(k, v)]
  | (k', v') :: p' =>
      if bool_decide (k = k') then p
      else if Json.str_lt k k' then (k, v) :: p
      else (k', v') :: prop_insert k v p'
  end.

(** What is behind [lower_bound]. *)
Fixpoint lower_bound (p : Properties) (k : list Z) : Properties :=
  match p with
  | [] => []
  | (k', _) :: p' => if Json.str_lt k' k then lower_bound p' k else p
  end.

Definition getInt (p : Properties) (property : list Z) (defaultValue : Z) : Z :=
  match prop_find p property with Some v => atoi (c_str v) | None => defaultValue end.

Definition getBool (p : Properties) (property : list Z) (defaultValue : bool) : bool :=
  match prop_find p property with Some v => bool_decide (v = lit "true") | None => defaultValue end.

Definition getString (p : Properties) (property defaultValue : list Z) : list Z :=
  match prop_find p property with Some v => v | None => defaultValue end.

Section Load.

Context (getenv : list Z -> option (list Z)).

(** What [${key}] stands for. *)
Definition variable (p : Properties) (key : list Z) : list Z :=
  if bool_decide (key = lit "${") then lit "${"
  else match getenv key with
       | Some v => v
       | None => match prop_find p key with Some v => v | None => [] end
       end.

(** From [left] on. *)
Fixpoint substitute_loop (fuel : nat) (p : Properties) (value result : list Z) : list Z :=
  match fuel with
  | O => result
  | Datatypes.S fuel =>
      match find value (lit "${") 0 with
      | None => result ++ value
      | Some dollar =>
          let result := result ++ take dollar value in
          let rest := drop (dollar + 2) value in
          match find rest (lit "}") 0 with
          | None => result ++ drop dollar value
          | Some brace =>
              let key := take brace rest in
              substitute_loop fuel p (drop (brace + 1) rest) (result ++ variable p key)
          end
      end
  end.

Definition _substituteVariables (p : Properties) (value : list Z) : list Z :=
  match find value (lit "${") 0 with None => value | Some _ => substitute_loop (S (length value)) p value [] end.

(** The body of the loop. *)
Definition load_line (line : list Z) (p : Properties) : Properties :=
  let fullLine := c_str line in
  match find fullLine (lit "#") 0 with
  | Some 0%nat => p
  | comment =>
      let command := match comment with Some pos => substr fullLine 0 pos | None => fullLine end in
      match find command (lit "=") 0 with
      | None => p
      | Some pos =>
          let leftSide := alog_Trim (substr command 0 pos) in
          let rightSide := _substituteVariables p (alog_Trim (drop (pos + 1) command)) in
          let dot := find leftSide (lit ".") 0 in
          let first := match dot with Some d => substr leftSide 0 d | None => leftSide end in
          let leftSide := if bool_decide (first = lit "alog") then match dot with Some d => drop (d + 1) leftSide | None => leftSide end else leftSide in
          prop_insert leftSide rightSide p
      end
  end.

(** The lines of a text; the last one may lack its end. *)
Fixpoint lines_loop (line s : list Z) : list (list Z) :=
  match s with
  | [] => match line with [] => [] | _ => [line] end
  | c :: s => if c =? 10 then line :: lines_loop [] s else lines_loop (line ++ [c]) s
  end.

Definition LINE_MAX : nat := 1023.

(** [in.getline(line, 1024)] fails on a longer line. *)
Fixpoint load_loop (lines : list (list Z)) (p : Properties) : Properties :=
  match lines with
  | [] => p
  | line :: lines => if (LINE_MAX <? length line)%nat then p else load_loop lines (load_line line p)
  end.

Definition load (text : list Z) : Properties := load_loop (lines_loop [] text) [].

End Load.

(** ** Configuring the loggers *)

Definition getLevelByString (levelStr : list Z) : Z :=
  if bool_decide (levelStr = lit "DISABLE") then LOG_LEVEL_DISABLE
  else if bool_decide (levelStr = lit "FATAL") then LOG_LEVEL_FATAL
  else if bool_decide (levelStr = lit "ERROR") then LOG_LEVEL_ERROR
  else if bool_decide (levelStr = lit "WARN") then LOG_LEVEL_WARN
  else if bool_decide (levelStr = lit "INFO") then LOG_LEVEL_INFO
  else if bool_decide (levelStr = lit "DEBUG") then LOG_LEVEL_DEBUG
  else if bool_decide (levelStr = lit "TRACE1") then LOG_LEVEL_TRACE1
  else if bool_decide (levelStr = lit "TRACE2") then LOG_LEVEL_TRACE2
  else if bool_decide (levelStr = lit "TRACE3") then LOG_LEVEL_TRACE3
  else LOG_LEVEL_NOTSET.

(** A delay in seconds; [None] is an overflow. *)
Definition translateDelayTime (str : list Z) : option Z :=
  match last str with
  | None => Some 0
  | Some c =>
      let unit := if (c =? 115) || (c =? 83) then 1 else if (c =? 109) || (c =? 77) then 60 else if (c =? 100) || (c =? 68) then 24 * 3600 else 3600 in
      let delay := atoi (c_str str) * unit in
      if (INT_MIN <=? delay) && (delay <=? INT_MAX) then Some (if delay <? 0 then 0 else delay) else None
  end.

(** The new [MAX_MESSAGE_LENGTH]. *)
Definition globalInit (p : Properties) (MAX_MESSAGE_LENGTH : Z) : Z :=
  let value := getInt p (lit "max_msg_len") 1024 in if 0 <? value then value else MAX_MESSAGE_LENGTH.

(** The properties whose keys start with [prefix] and a dot. *)
Definition with_prefix (p : Properties) (prefix : list Z) : Properties :=
  let from := lower_bound p (prefix ++ [46]) in
  let to := lower_bound p (prefix ++ [47]) in
  take (length from - length to) from.

Definition initLoggers (p : Properties) : list (list Z) :=
  let prefix := lit "logger" in
  lit "rootLogger" :: ((fun kv => drop (length prefix + 1) kv.1) <$> with_prefix p prefix).

(** What a configuration ends with. *)
Inductive ending :=
| Done (s : Loggers)
| Thrown (error : list Z) (s : Loggers).

(** The level in the value of a logger and the names of its appenders; there
    are none if the level is unknown. *)
Definition read_level (value : list Z) : option (Z * list (list Z)) :=
  match alog_Split value 44 with
  | [] => Some (LOG_LEVEL_NOTSET, [])
  | t :: tokens =>
      let levelStr := alog_Trim t in
      match levelStr with
      | [] => Some (LOG_LEVEL_NOTSET, tokens)
      | _ => let level := getLevelByString levelStr in if LOG_LEVEL_NOTSET <=? level then None else Some (level, tokens)
      end
  end.

Definition AppenderMap : Type := gmap (list Z) nat.

Fixpoint add_appenders (loggerName : list Z) (allAppenders : AppenderMap) (logger : nat) (tokens : list (list Z)) (s : Loggers) : option ending :=
  match tokens with
  | [] => Some (Done s)
  | t :: tokens =>
      let appenderName := alog_Trim t in
      match allAppenders !! appenderName with
      | None => Some (Thrown (lit "Appender '" ++ appenderName ++ lit "' not found for logger '" ++ loggerName ++ lit "'") s)
      | Some a => s ← addAppender logger (Some a) s; add_appenders loggerName allAppenders logger tokens s
      end
  end.

Definition rootLogger : list Z := lit "rootLogger".

(** The key of the property of a logger. *)
Definition tempLoggerName (loggerName : list Z) : list Z :=
  if bool_decide (loggerName = rootLogger) then loggerName else lit "logger." ++ loggerName.

Definition configureLogger (loggerName : list Z) (allAppenders : AppenderMap) (p : Properties) (s : Loggers) : option ending :=
  match prop_find p (tempLoggerName loggerName) with
  | None =>
      if bool_decide (tempLoggerName loggerName = rootLogger) then Some (Done (getRootLogger s).2)
      else Some (Thrown (lit "Unable to find logger: " ++ tempLoggerName loggerName) s)
  | Some value =>
      '(logger, s) ← (if bool_decide (loggerName = rootLogger) then Some (getRootLogger s) else getLogger (c_str loggerName) true s);
      match read_level value with
      | None => Some (Thrown (lit "Unknow level  for logger '" ++ loggerName ++ lit "'") s)
      | Some (level, tokens) =>
          s ← setLevel logger level s;
          s ← setInheritFlag logger (getBool p (lit "inherit." ++ loggerName) true) s;
          s ← removeAllAppenders logger s;
          add_appenders loggerName allAppenders logger tokens s
      end
  end.

Fixpoint configure_loop (loggerList : list (list Z)) (allAppenders : AppenderMap) (p : Properties) (s : Loggers) : option ending :=
  match loggerList with
  | [] => Some (Done s)
  | name :: loggerList =>
      e ← configureLogger name allAppenders p s;
      match e with
      | Thrown _ _ => Some e
      | Done s => configure_loop loggerList allAppenders p s
      end
  end.

(** [innerConfigureLogger] from the list of loggers on. *)
Definition configure_all (allAppenders : AppenderMap) (p : Properties) (s : Loggers) : option ending :=
  configure_loop (initLoggers p) allAppenders p s.

(** ** Properties as a map *)

Definition sorted_props (p : Properties) : Prop := StronglySorted Json.key_lt p.*1.

Lemma prop_insert_keys k v p k' : k' ∈ (prop_insert k v p).*1 <-> k' = k \/ k' ∈ p.*1.
Proof.
  induction p as [|[k1 v1] p IH]; cbn [prop_insert]; [cbn; set_solver|]. case_bool_decide as Hk; [subst; cbn; set_solver|].
  destruct (Json.str_lt k k1); cbn; [set_solver|]. rewrite !elem_of_cons, IH. naive_solver.
Qed.

Lemma prop_insert_sorted k v p : sorted_props p -> sorted_props (prop_insert k v p).
Proof.
  unfold sorted_props. induction p as [|[k1 v1] p IH]; cbn [prop_insert]; intros Hs; [by repeat constructor|]. case_bool_decide as Hk; [done|].
  pose proof Hs as Hs'. cbn in Hs'. apply StronglySorted_inv in Hs' as [Hp Hf]. destruct (Json.str_lt k k1) eqn:E; cbn.
  - constructor; [done|]. constructor; [done|]. eapply Forall_impl; [exact Hf|]. intros x Hx. etrans; [exact E|done].
  - constructor; [by apply IH|]. apply Forall_forall. intros x Hx. apply prop_insert_keys in Hx as [->|Hx]; [|by rewrite Forall_forall in Hf; apply Hf].
    destruct (Json.key_trichotomy k k1) as [H|[?|?]]; [unfold Json.key_lt in H; congruence|done|done].
Qed.

Lemma prop_find_None p k : prop_find p k = None <-> k ∉ p.*1.
Proof.
  induction p as [|[k1 v1] p IH]; cbn; [split; [by intros _ ?%not_elem_of_nil|done]|]. case_bool_decide; [subst; split; [done|]|rewrite IH; rewrite not_elem_of_cons; naive_solver].
  intros H. destruct H. by left.
Qed.

(** What is in order before and behind a bound. *)
Lemma lower_bound_split p k : sorted_props p -> exists a, p = a ++ lower_bound p k /\ Forall (fun kv => Json.str_lt kv.1 k = true) a /\
  Forall (fun kv => Json.str_lt kv.1 k = false) (lower_bound p k).
Proof.
  unfold sorted_props. induction p as [|[k1 v1] p IH]; cbn [lower_bound]; intros Hs; [by exists []|]. cbn in Hs. apply StronglySorted_inv in Hs as [Hp Hf].
  destruct (Json.str_lt k1 k) eqn:E.
  - destruct (IH Hp) as (a & Ea & Ha & Hb). exists ((k1, v1) :: a). split_and!; [cbn; congruence|by constructor|done].
  - exists []. split_and!; [done|constructor|]. constructor; [done|]. apply Forall_forall. intros [k2 v2] Hin. cbn. apply not_true_is_false. intros H2.
    assert (Json.key_lt k1 k2) as H1 by (rewrite Forall_forall in Hf; apply Hf, list_elem_of_fmap; by exists (k2, v2)).
    assert (Json.key_lt k1 k) as H3 by (etrans; [exact H1|exact H2]). unfold Json.key_lt in H3. congruence.
Qed.

Lemma lower_bound_app a b k : Forall (fun kv => Json.str_lt kv.1 k = true) a -> lower_bound (a ++ b) k = lower_bound b k.
Proof. induction 1 as [|[k1 v1] a E _ IH]; [done|]. cbn in *. by rewrite E. Qed.

Lemma sorted_props_app a b : sorted_props (a ++ b) -> sorted_props b.
Proof. unfold sorted_props. rewrite fmap_app. induction (a.*1) as [|x l IH]; [done|]. cbn. intros Hs. apply StronglySorted_inv in Hs as [Hs _]. by apply IH. Qed.

(** The texts that start with [pre] and a character are those between two bounds. *)
Lemma prefix_bounds pre d k : Json.str_lt k (pre ++ [d]) = false /\ Json.str_lt k (pre ++ [d + 1]) = true <-> exists t, k = pre ++ d :: t.
Proof.
  revert k. induction pre as [|x pre IH]; intros [|y k]; cbn [app Json.str_lt].
  - split; [by intros []|]. by intros [t ?].
  - assert (Hk : Json.str_lt k [] = false) by by destruct k. rewrite Hk, !andb_false_r, !orb_false_r, Z.ltb_ge, Z.ltb_lt. split.
    + intros []. exists k. f_equal. lia.
    + intros [t [= -> ->]]. lia.
  - split; [by intros []|]. by intros [t ?].
  - rewrite orb_false_iff, orb_true_iff, andb_false_iff, andb_true_iff, Z.ltb_ge, Z.ltb_lt, Z.eqb_eq, Z.eqb_neq. split.
    + intros [[Hle [Hne|Hlo]] [?|[-> Hhi]]]; [lia|lia|lia|]. destruct (proj1 (IH k) (conj Hlo Hhi)) as [t ->]. by exists t.
    + intros [t [= -> ->]]. destruct (proj2 (IH (pre ++ d :: t)) (ex_intro _ t eq_refl)) as [Hlo Hhi]. split; [split; [lia|by right]|by right].
Qed.

Lemma with_prefix_spec p prefix kv : sorted_props p -> kv ∈ with_prefix p prefix <-> kv ∈ p /\ exists t, kv.1 = prefix ++ 46 :: t.
Proof.
  intros Hs. unfold with_prefix. destruct (lower_bound_split p (prefix ++ [46]) Hs) as (a & Ea & Ha & Hb). set (from := lower_bound p (prefix ++ [46])) in *.
  assert (Hlt : Json.key_lt (prefix ++ [46]) (prefix ++ [47])).
  { unfold Json.key_lt. clear. induction prefix as [|x l IH]; cbn; [done|]. by rewrite Z.eqb_refl, IH, orb_true_r. }
  assert (Eto : lower_bound p (prefix ++ [47]) = lower_bound from (prefix ++ [47])).
  { rewrite Ea at 1. apply lower_bound_app. eapply Forall_impl; [exact Ha|]. intros [k v] Hk. cbn in *. change (Json.key_lt k (prefix ++ [47])). etrans; [exact Hk|exact Hlt]. }
  rewrite Eto. destruct (lower_bound_split from (prefix ++ [47])) as (b & Eb & Hb1 & Hc); [apply (sorted_props_app a); by rewrite <- Ea|].
  set (to := lower_bound from (prefix ++ [47])) in *. replace (take (length from - length to) from) with b.
  2:{ rewrite Eb at 2. rewrite take_app_length'; [done|]. rewrite Eb at 1. rewrite length_app. lia. }
  rewrite <- (prefix_bounds prefix 46 kv.1). change (46 + 1) with 47. rewrite Forall_forall in Ha, Hb, Hb1, Hc. split.
  - intros Hin. assert (Hf : kv ∈ from) by (rewrite Eb; apply elem_of_app; by left). split_and!; [rewrite Ea; apply elem_of_app; by right|by apply Hb|by apply Hb1].
  - intros (Hin & Hlo & Hhi). rewrite Ea in Hin. apply elem_of_app in Hin as [Hin|Hin]; [rewrite (Ha _ Hin) in Hlo; done|].
    rewrite Eb in Hin. apply elem_of_app in Hin as [Hin|Hin]; [done|]. rewrite (Hc _ Hin) in Hhi. done.
Qed.

(** The loggers that are configured are the root and those with a property. *)
Lemma initLoggers_spec p name : sorted_props p -> name ∈ initLoggers p <-> name = lit "rootLogger" \/ lit "logger." ++ name ∈ p.*1.
Proof.
  intros Hs. unfold initLoggers. rewrite elem_of_cons, list_elem_of_fmap. split.
  - intros [?|([k v] & -> & Hin)]; [by left|right]. apply with_prefix_spec in Hin as (Hin & t & Ht); [|done]. cbn [fst] in *. subst k.
    apply list_elem_of_fmap. exists (lit "logger" ++ 46 :: t, v). split; [|done]. cbn [fst]. rewrite drop_app_ge by lia.
    replace (length (lit "logger") + 1 - length (lit "logger"))%nat with 1%nat by lia. reflexivity.
  - intros [?|Hin]; [by left|right]. apply list_elem_of_fmap in Hin as ([k v] & Hk & Hin). exists (k, v). cbn [fst] in *. subst k. split; [reflexivity|].
    apply with_prefix_spec; [done|]. split; [done|]. by exists name.
Qed.

(** ** What one logger's configuration changes *)

Lemma setLevelByParent_relevel fuel x lv s s' : setLevelByParent fuel x lv s = Some s' -> relevel s s'.
Proof.
  revert x lv s s'. induction fuel as [|fuel IH]; intros x lv s s'; cbn [setLevelByParent]; [done|].
  destruct (heap s !! x) as [g|]; [|done]. cbn [mbind option_bind]. destruct (LOG_LEVEL_COUNT <=? lv); [by intros [= <-]|].
  destruct (negb (m_bInherit g) || m_bLevelSet g); [by intros [= <-]|]. set (lv' := if lv =? _ then _ else _).
  destruct (update x (with_level lv') s) as [s1|] eqn:E1; [|done]. apply update_level_relevel in E1 as [Hr _]. cbn [mbind option_bind].
  generalize (m_children g). intros l Ht. etrans; [exact Hr|]. clear Hr. revert s1 Ht. induction l as [|c l IHl]; intros s1; cbn [tell_children]; [by intros [= <-]|].
  destruct (setLevelByParent fuel c lv' s1) as [s2|] eqn:E2; [|done]. intros Ht. etrans; [by eapply IH|]. by apply IHl.
Qed.

Lemma tell_all_relevel x s s' : tell_all x s = Some s' -> relevel s s'.
Proof.
  unfold tell_all. destruct (heap s !! x) as [g|]; [|done]. cbn [mbind option_bind]. generalize (m_children g). intros l. generalize (next s). intros fuel.
  revert s. induction l as [|c l IHl]; intros s; cbn [tell_children]; [by intros [= <-]|].
  destruct (setLevelByParent fuel c (m_loggerLevel g) s) as [s2|] eqn:E2; [|done]. intros Ht. etrans; [by eapply setLevelByParent_relevel|]. by apply IHl.
Qed.

(** The settings of a logger but its level. *)
Definition settings (g : Logger) : option nat * list Z * bool * bool * gset nat :=
  (m_parent g, m_loggerName g, m_bInherit g, m_bLevelSet g, m_appenderSet g).

(** Nothing but [x] changes, apart from levels that are not set. *)
Definition others (x : nat) (s s' : Loggers) : Prop :=
  forall z g, z <> x -> heap s !! z = Some g ->
    exists g', heap s' !! z = Some g' /\ settings g' = settings g /\ (m_bLevelSet g = true -> m_loggerLevel g' = m_loggerLevel g).

#[export] Instance others_preorder x : PreOrder (others x).
Proof.
  split; [by intros s z g _ E; exists g|]. intros s1 s2 s3 H12 H23 z g Hz E. destruct (H12 z g Hz E) as (g2 & E2 & Hs2 & Hl2).
  destruct (H23 z g2 Hz E2) as (g3 & E3 & Hs3 & Hl3). exists g3. split; [done|]. split; [congruence|]. intros Hset. rewrite <- (Hl2 Hset). apply Hl3.
  unfold settings in Hs2. congruence.
Qed.

Lemma relevel_others x f s s' g : heap s !! x = Some g -> relevel (with_heap (<[x := f]>) s) s' ->
  (forall z, ~ takes s z -> z <> x -> level_of z s' = level_of z s) -> others x s s'.
Proof.
  intros Ex Hr Hl z gz Hz Ez. assert (Ez' : heap (with_heap (<[x := f]>) s) !! z = Some gz) by (cbn; by rewrite lookup_insert_ne).
  destruct (relevel_lookup _ _ _ _ Hr Ez') as (g' & Eg' & Hg'). exists g'. split; [done|]. apply relevel_fields in Hg' as (Hp & _ & Hi & Hs & Ha & Hn).
  split; [unfold settings; congruence|]. intros Hset. specialize (Hl z). unfold level_of in Hl. rewrite Eg', Ez in Hl.
  apply (inj Some), Hl; [|done]. intros (g'' & Eg'' & _ & Hf). congruence.
Qed.

Lemma not_takes_governs s x z : ~ takes s z -> z <> x -> ~ governs s x z.
Proof. intros Ht Hz Hg. inversion Hg; subst; done. Qed.

Lemma setLevel_step s x lv g : Inv s -> heap s !! x = Some g -> LOG_LEVEL_DISABLE <= lv < LOG_LEVEL_COUNT ->
  exists s' g', setLevel x lv s = Some s' /\ Inv s' /\ others x s s' /\ heap s' !! x = Some g' /\
    settings g' = (m_parent g, m_loggerName g, m_bInherit g, negb (lv =? LOG_LEVEL_NOTSET), m_appenderSet g) /\ (lv <> LOG_LEVEL_NOTSET -> m_loggerLevel g' = lv).
Proof.
  intros Hi E Hlv. destruct (setLevel_spec s x lv g Hi E Hlv) as (s' & Es & Hi' & _ & _ & Hg & Ho).
  assert (Hr : relevel (with_heap (<[x := with_levelSet (negb (lv =? LOG_LEVEL_NOTSET)) g]>) s) s').
  { unfold setLevel in Es. rewrite E in Es. cbn [mbind option_bind] in Es. rewrite (proj2 (Z.leb_gt _ _)) in Es by lia.
    match type of Es with (?o ≫= _) = _ => destruct o as [new|]; [|done] end. cbn [mbind option_bind] in Es. rewrite (update_def _ _ _ _ E) in Es.
    cbn [mbind option_bind] in Es. apply tell_all_relevel in Es. etrans; [|exact Es]. split_and!; [done..|]. intros y. cbn.
    destruct (decide (x = y)) as [->|Hy]; [by rewrite !lookup_insert_eq|by rewrite !lookup_insert_ne]. }
  destruct (relevel_lookup _ _ x _ Hr (lookup_insert_eq _ _ _)) as (g' & Eg' & (Hp & _ & Hin & Hset & Ha & Hn)%relevel_fields).
  exists s', g'. split_and!; [done|done| |done| |].
  - eapply relevel_others; [done|exact Hr|]. intros z Ht Hz. by apply Ho, not_takes_governs.
  - unfold settings. by rewrite Hp, Hin, Hset, Ha, Hn.
  - intros Hlv'. specialize (Hg x (governs_self s x) ltac:(by exists g)). unfold level_of, new_level in Hg. rewrite Eg', (proj2 (Z.eqb_neq lv _)) in Hg by done.
    by injection Hg.
Qed.

Lemma setInheritFlag_step s x b g : Inv s -> heap s !! x = Some g -> (b = true -> m_bLevelSet g = false -> is_Some (m_parent g)) ->
  exists s' g', setInheritFlag x b s = Some s' /\ Inv s' /\ others x s s' /\ heap s' !! x = Some g' /\
    settings g' = (m_parent g, m_loggerName g, b, m_bLevelSet g, m_appenderSet g) /\ (m_bLevelSet g = true -> m_loggerLevel g' = m_loggerLevel g).
Proof.
  intros Hi E Hb. destruct (setInheritFlag_spec s x b g Hi E Hb) as (s' & Es & Hi' & _ & _ & Hg & Ho).
  assert (Hr : relevel (with_heap (<[x := with_inherit b g]>) s) s').
  { unfold setInheritFlag in Es. rewrite (update_def _ _ _ _ E) in Es. cbn [mbind option_bind] in Es.
    assert (Hlev : forall lv sa sb, (s ← update x (with_level lv) sa; tell_all x s) = Some sb -> relevel sa sb).
    { intros lv sa sb. destruct (update x (with_level lv) sa) as [sc|] eqn:Ec; [|done]. intros Et. etrans; [by apply update_level_relevel in Ec as [? _]|].
      by apply tell_all_relevel in Et. }
    cbn [heap with_heap] in Es. rewrite lookup_insert_eq in Es. cbn [mbind option_bind] in Es.
    set (s1 := with_heap _ s) in Es. destruct (negb (m_bLevelSet (with_inherit b g)) && negb b) eqn:E1.
    - match type of Es with (?o ≫= _) = _ => destruct o as [s2|] eqn:E2; [|done] end. cbn [mbind option_bind] in Es. apply Hlev in E2.
      destruct (negb (m_bLevelSet (with_inherit b g)) && b); [|by injection Es as <-]. destruct (m_parent _); [|done]. cbn [mbind option_bind] in Es.
      destruct (getLevel _ _); [|done]. cbn [mbind option_bind] in Es. apply Hlev in Es. by etrans.
    - cbn [mbind option_bind] in Es. destruct (negb (m_bLevelSet (with_inherit b g)) && b); [|by injection Es as <-].
      destruct (m_parent _); [|done]. cbn [mbind option_bind] in Es. destruct (getLevel _ _); [|done]. cbn [mbind option_bind] in Es. by apply Hlev in Es. }
  destruct (relevel_lookup _ _ x _ Hr (lookup_insert_eq _ _ _)) as (g' & Eg' & (Hp & _ & Hin & Hset & Ha & Hn)%relevel_fields).
  exists s', g'. split_and!; [done|done| |done| |].
  - eapply relevel_others; [done|exact Hr|]. intros z Ht Hz. apply Ho. right. by apply not_takes_governs.
  - unfold settings. by rewrite Hp, Hin, Hset, Ha, Hn.
  - intros Hs. specialize (Ho x (or_introl Hs)). unfold level_of in Ho. rewrite Eg', E in Ho. by injection Ho.
Qed.

Lemma appenders_step s x a g : Inv s -> heap s !! x = Some g ->
  exists s' g', update x (with_appenders a) s = Some s' /\ Inv s' /\ others x s s' /\ heap s' !! x = Some g' /\
    settings g' = (m_parent g, m_loggerName g, m_bInherit g, m_bLevelSet g, a) /\ m_loggerLevel g' = m_loggerLevel g.
Proof.
  intros Hi E. destruct (update_appenders_spec x a s g Hi E) as (s' & Es & Hi' & Eh). exists s', (with_appenders a g). rewrite Eh.
  split_and!; [done|done| |by rewrite lookup_insert_eq|done|done]. intros z gz Hz Ez. exists gz. rewrite Eh, lookup_insert_ne by done. by split_and!.
Qed.

(** The appenders that a list of names stands for. *)
Definition wanted (allAppenders : AppenderMap) (tokens : list (list Z)) : gset nat :=
  list_to_set (omap (fun t => allAppenders !! alog_Trim t) tokens).

Definition known (allAppenders : AppenderMap) (tokens : list (list Z)) : Prop := forall t, t ∈ tokens -> is_Some (allAppenders !! alog_Trim t).

Lemma add_appenders_step name apps x tokens s g : Inv s -> heap s !! x = Some g ->
  exists e, add_appenders name apps x tokens s = Some e /\
    match e with
    | Done s' => Inv s' /\ others x s s' /\ known apps tokens /\ exists g', heap s' !! x = Some g' /\
        settings g' = (m_parent g, m_loggerName g, m_bInherit g, m_bLevelSet g, m_appenderSet g ∪ wanted apps tokens) /\ m_loggerLevel g' = m_loggerLevel g
    | Thrown _ s' => Inv s' /\ ~ known apps tokens
    end.
Proof.
  revert s g. induction tokens as [|t tokens IH]; intros s g Hi E; cbn [add_appenders].
  - exists (Done s). split; [done|]. split_and!; [done|done|by intros t ?%not_elem_of_nil|]. exists g. split_and!; [done| |done]. unfold settings, wanted. cbn.
    by rewrite (right_id_L ∅ (∪)).
  - destruct (apps !! alog_Trim t) as [a|] eqn:Ea.
    + cbn [addAppender]. destruct (appenders_step s x (m_appenderSet g ∪ {[a]}) g Hi E) as (s1 & g1 & Es1 & Hi1 & Ho1 & E1 & Hs1 & Hl1).
      rewrite (update_def _ _ _ _ E) in Es1. rewrite (update_def _ _ _ _ E). cbn beta. rewrite Es1. cbn [mbind option_bind].
      destruct (IH s1 g1 Hi1 E1) as (e & Ee & He). exists e. split; [done|]. destruct e as [s'|err s'].
      * destruct He as (Hi' & Ho & Hk & g' & Eg' & Hs' & Hl'). split_and!; [done|by etrans| |].
        -- intros t' [->|Ht]%elem_of_cons; [by exists a|by apply Hk].
        -- exists g'. split_and!; [done| |congruence]. rewrite Hs'. unfold settings in Hs1. injection Hs1 as -> -> -> -> ->. unfold wanted. cbn. rewrite Ea. cbn.
           by rewrite (assoc_L (∪)).
      * destruct He as [Hi' Hk]. split; [done|]. intros H. apply Hk. intros t' Ht. apply H. by right.
    + eexists. split; [done|]. split; [done|]. intros H. destruct (H t) as [? ?]; [by left|]. congruence.
Qed.

(** ** Loggers by their names in a configuration *)

Definition is_logger (name : list Z) (x : nat) (s : Loggers) : Prop :=
  if bool_decide (name = rootLogger) then s_rootLogger s = Some x else named s (Some (c_str name)) x.

Lemma select_step name s : Inv s ->
  exists x s', (if bool_decide (name = rootLogger) then Some (getRootLogger s) else getLogger (c_str name) true s) = Some (x, s') /\
    Inv s' /\ grown s s' /\ is_logger name x s'.
Proof.
  intros Hi. unfold is_logger. case_bool_decide as Hn.
  - destruct (root_spec s Hi) as (r & s' & -> & Hi' & Hg & Hr & _). by exists r, s'.
  - destruct (getLogger_spec (c_str name) true s Hi) as (x & s' & m & -> & Hi' & Hg & Em & Ex & _). exists x, s'. split_and!; [done..|]. by exists m.
Qed.

Lemma is_logger_heap name x s : Inv s -> is_logger name x s -> exists g, heap s !! x = Some g /\
  if bool_decide (name = rootLogger) then m_parent g = None else is_Some (m_parent g) /\ m_loggerName g = c_str name.
Proof.
  intros Hi. unfold is_logger. case_bool_decide as Hn.
  - intros Hr. destruct (names_root s (inv_names s Hi) x Hr) as (g & ? & _ & ?). by exists g.
  - intros (m & Em & Hx). destruct (names_map s (inv_names s Hi) m _ x Em Hx) as (g & p & ? & ? & Hp & _). exists g. rewrite Hp. by split_and!.
Qed.

Lemma is_logger_unique name x y s : is_logger name x s -> is_logger name y s -> x = y.
Proof. unfold is_logger. case_bool_decide; [congruence|]. intros (m & Em & Hx) (m' & Em' & Hy). congruence. Qed.

Lemma is_logger_inj n n' x s : Inv s -> c_str n = n -> c_str n' = n' -> is_logger n x s -> is_logger n' x s -> n = n'.
Proof.
  intros Hi Hn Hn' H H'. destruct (is_logger_heap n x s Hi H) as (g & E & Hg), (is_logger_heap n' x s Hi H') as (g' & E' & Hg').
  rewrite E in E'. injection E' as <-. unfold is_Some in *. do 2 case_bool_decide; naive_solver congruence.
Qed.

(** A logger keeps its name as long as it keeps its parent. *)
Lemma is_logger_kept n x s s' g' : Inv s -> Inv s' -> is_logger n x s -> heap s' !! x = Some g' ->
  (forall g, heap s !! x = Some g -> m_parent g' = m_parent g /\ m_loggerName g' = m_loggerName g) -> is_logger n x s'.
Proof.
  intros Hi Hi' Hx E' Hk. destruct (is_logger_heap n x s Hi Hx) as (g & E & Hg). destruct (Hk g E) as [Hp Hn]. unfold is_logger.
  destruct (names_heap s' (inv_names s' Hi') x g' E') as [Hr|Hm]; case_bool_decide as Hb; [done| | |].
  - destruct (names_root s' (inv_names s' Hi') x Hr) as (g0 & E0 & _ & Hp0). destruct Hg as [[p Hgp] _]. congruence.
  - destruct Hm as (m & Em & Hm). destruct (names_map s' (inv_names s' Hi') m _ x Em Hm) as (g0 & p & E0 & _ & Hp0 & _). congruence.
  - destruct Hg as [_ Hg]. by rewrite <- Hg, <- Hn.
Qed.

(** ** What a configuration means *)

(** The logger [name] has the settings of its property. *)
Definition configured (apps : AppenderMap) (p : Properties) (s : Loggers) (name : list Z) : Prop :=
  exists x g, is_logger name x s /\ heap s !! x = Some g /\
  match prop_find p (tempLoggerName name) with
  | None => True
  | Some value => exists level tokens, read_level value = Some (level, tokens) /\ known apps tokens /\
      m_bInherit g = getBool p (lit "inherit." ++ name) true /\ m_bLevelSet g = negb (level =? LOG_LEVEL_NOTSET) /\ m_appenderSet g = wanted apps tokens /\
      (level <> LOG_LEVEL_NOTSET -> m_loggerLevel g = level)
  end.

(** What is wrong with the property of a logger. *)
Definition misconfigured (apps : AppenderMap) (p : Properties) (name : list Z) : Prop :=
  match prop_find p (tempLoggerName name) with
  | None => False
  | Some value => match read_level value with None => True | Some (_, tokens) => ~ known apps tokens end
  end.

(** The root gets no level and is to inherit. *)
Definition root_level_missing (p : Properties) : Prop :=
  exists value tokens, prop_find p rootLogger = Some value /\ read_level value = Some (LOG_LEVEL_NOTSET, tokens) /\
    getBool p (lit "inherit." ++ rootLogger) true = true.

Lemma getLevelByString_range str : LOG_LEVEL_DISABLE <= getLevelByString str <= LOG_LEVEL_NOTSET.
Proof. unfold getLevelByString. repeat case_bool_decide; vm_compute; split; discriminate. Qed.

Lemma read_level_range value level tokens : read_level value = Some (level, tokens) -> LOG_LEVEL_DISABLE <= level < LOG_LEVEL_COUNT.
Proof.
  unfold read_level. destruct (alog_Split value 44) as [|t ts]; [by intros [= <- _]|]. destruct (alog_Trim t) as [|c l] eqn:Et; [by intros [= <- _]|].
  destruct (Z.leb_spec LOG_LEVEL_NOTSET (getLevelByString (c :: l))); [done|]. intros [= <- _]. pose proof (getLevelByString_range (c :: l)).
  unfold LOG_LEVEL_COUNT. lia.
Qed.

Lemma setInheritFlag_orphan x s g : heap s !! x = Some g -> m_parent g = None -> m_bLevelSet g = false -> setInheritFlag x true s = None.
Proof.
  intros E Hp Hs. unfold setInheritFlag. rewrite (update_def _ _ _ _ E). cbn [mbind option_bind heap with_heap]. rewrite lookup_insert_eq.
  cbn [mbind option_bind m_bLevelSet m_parent with_inherit]. rewrite Hs, Hp. reflexivity.
Qed.

Lemma grown_others x s s' : grown s s' -> others x s s'.
Proof.
  intros [_ Hg] z g _ E. destruct (Hg z g E) as (g' & E' & Ha & Hn & Hl & Hset & Hp & Hi & _). exists g'. split; [done|]. split; [unfold settings; congruence|done].
Qed.

(** A logger stays what it is. *)
Definition identified (x : nat) (s s' : Loggers) : Prop :=
  forall g, heap s !! x = Some g -> exists g', heap s' !! x = Some g' /\ m_parent g' = m_parent g /\ m_loggerName g' = m_loggerName g.

Lemma grown_identified x s s' : grown s s' -> identified x s s'.
Proof. intros [_ Hg] g E. destruct (Hg x g E) as (g' & E' & _ & ? & _ & _ & ? & _). by exists g'. Qed.

Section Configure.

Context (apps : AppenderMap) (p : Properties).

Lemma configureLogger_spec name s : Inv s -> (name = rootLogger -> ~ root_level_missing p) -> name = rootLogger \/ lit "logger." ++ name ∈ p.*1 ->
  exists e, configureLogger name apps p s = Some e /\
    match e with
    | Done s' => Inv s' /\ configured apps p s' name /\ exists x, is_logger name x s' /\ others x s s' /\ identified x s s'
    | Thrown _ s' => Inv s' /\ misconfigured apps p name
    end.
Proof.
  intros Hi Hroot Hkey. unfold configureLogger, configured, misconfigured. destruct (prop_find p (tempLoggerName name)) as [value|] eqn:Ev.
  2:{ assert (name = rootLogger) as ->.
    { unfold tempLoggerName in Ev. case_bool_decide; [done|]. destruct Hkey as [?|Hkey]; [done|]. by apply prop_find_None in Ev. }
    change (bool_decide (tempLoggerName rootLogger = rootLogger)) with true. cbn [negb].
    destruct (root_spec s Hi) as (r & s' & Er & Hi' & Hg & Hr & _). rewrite Er. exists (Done s'). split; [done|]. split_and!; [done| |].
    - destruct (names_root s' (inv_names s' Hi') r Hr) as (g & E & _). by exists r, g.
    - exists r. split_and!; [done|by apply grown_others|by apply grown_identified]. }
  destruct (select_step name s Hi) as (x & s1 & Es1 & Hi1 & Hg1 & Hx1). rewrite Es1. cbn [mbind option_bind]. clear Es1.
  destruct (is_logger_heap name x s1 Hi1 Hx1) as (g1 & E1 & Hp1).
  destruct (read_level value) as [[level tokens]|] eqn:El; [|by eexists].
  pose proof (read_level_range _ _ _ El) as Hlev.
  destruct (setLevel_step s1 x level g1 Hi1 E1 Hlev) as (s2 & g2 & -> & Hi2 & Ho2 & E2 & Hs2 & Hl2). cbn [mbind option_bind]. injection Hs2 as Hp2 Hn2 Hin2 Hset2 Ha2.
  destruct (setInheritFlag_step s2 x (getBool p (lit "inherit." ++ name) true) g2 Hi2 E2) as (s3 & g3 & -> & Hi3 & Ho3 & E3 & Hs3 & Hl3).
  { intros Hb Hs. rewrite Hp2. case_bool_decide as Hn; [|by destruct Hp1]. subst name. destruct Hroot; [done|]. rewrite Hset2 in Hs. apply negb_false_iff, Z.eqb_eq in Hs as ->.
    by exists value, tokens. }
  cbn [mbind option_bind]. injection Hs3 as Hp3 Hn3 Hin3 Hset3 Ha3.
  destruct (appenders_step s3 x ∅ g3 Hi3 E3) as (s4 & g4 & Es4 & Hi4 & Ho4 & E4 & Hs4 & Hl4). unfold removeAllAppenders. rewrite Es4. cbn [mbind option_bind].
  injection Hs4 as Hp4 Hn4 Hin4 Hset4 Ha4.
  destruct (add_appenders_step name apps x tokens s4 g4 Hi4 E4) as (e & Ee & He). exists e. split; [done|]. destruct e as [s'|err s']; [|done].
  destruct He as (Hi' & Ho' & Hk & g' & E' & Hs' & Hl'). injection Hs' as Hp' Hn' Hin' Hset' Ha'.
  assert (Hx' : is_logger name x s').
  { eapply (is_logger_kept name x s1 s' g'); [done..|]. intros g Eg. rewrite E1 in Eg. injection Eg as <-. split; congruence. }
  split_and!; [done| |].
  - exists x, g'. split_and!; [done|done|]. exists level, tokens. split_and!; [done|done|rewrite Hin', Hin4; exact Hin3|rewrite Hset', Hset4, Hset3; exact Hset2| |].
    + rewrite Ha', Ha4. by rewrite (left_id_L ∅ (∪)).
    + intros Hne. rewrite Hl', Hl4, Hl3; [by apply Hl2|]. rewrite Hset2. by rewrite (proj2 (Z.eqb_neq _ _)).
  - exists x. split_and!; [done| |].
    + do 3 (etrans; [|eassumption]). etrans; [by apply grown_others|done].
    + intros g0 E0. destruct (grown_identified x s s1 Hg1 g0 E0) as (g & Eg & Hpg & Hng). rewrite E1 in Eg. injection Eg as <-.
      exists g'. split_and!; [done|congruence|congruence].
Qed.

Lemma configured_kept name x n s s' : Inv s -> Inv s' -> is_logger name x s' -> others x s s' -> identified x s s' -> c_str name = name -> c_str n = n -> n <> name ->
  configured apps p s n -> configured apps p s' n.
Proof.
  intros Hi Hi' Hx Ho Hid Hname Hn Hne (y & g & Hy & E & Hc).
  destruct (decide (y = x)) as [->|Hyx].
  - destruct (Hid g E) as (g' & E' & Hp & Hnm). exfalso. apply Hne, (is_logger_inj n name x s' Hi'); [done|done| |done].
    apply (is_logger_kept n x s s' g'); [done..|]. intros g0 E0. rewrite E in E0. by injection E0 as <-.
  - destruct (Ho y g Hyx E) as (g' & E' & Hs & Hl). injection Hs as Hp Hnm Hin Hset Ha. exists y, g'. split_and!; [|done|].
    + apply (is_logger_kept n y s s' g'); [done..|]. intros g0 E0. rewrite E in E0. by injection E0 as <-.
    + destruct (prop_find p (tempLoggerName n)) as [value|]; [|done]. destruct Hc as (level & tokens & Hr & Hkn & Hi0 & Hs0 & Ha0 & Hl0). exists level, tokens.
      split_and!; [done|done|congruence|congruence|congruence|]. intros Hlv. rewrite Hl; [by apply Hl0|]. rewrite Hs0. by rewrite (proj2 (Z.eqb_neq _ _)).
Qed.

Lemma configure_loop_spec names s : Inv s -> (rootLogger ∈ names -> ~ root_level_missing p) ->
  (forall n, n ∈ names -> c_str n = n /\ (n = rootLogger \/ lit "logger." ++ n ∈ p.*1)) ->
  exists e, configure_loop names apps p s = Some e /\
    match e with
    | Done s' => Inv s' /\ (forall n, n ∈ names -> configured apps p s' n) /\ (forall n, c_str n = n -> n ∉ names -> configured apps p s n -> configured apps p s' n)
    | Thrown _ s' => Inv s' /\ exists n, n ∈ names /\ misconfigured apps p n
    end.
Proof using Type.
  revert s. induction names as [|name names IH]; intros s Hi Hroot Hn; cbn [configure_loop].
  { exists (Done s). split; [done|]. split_and!; [done|by intros n ?%not_elem_of_nil|done]. }
  destruct (Hn name) as [Hc Hk]; [by left|].
  destruct (configureLogger_spec name s Hi) as (e & -> & He); [intros ->; apply Hroot; by left|done|]. cbn [mbind option_bind].
  destruct e as [s1|err s1]; [|destruct He as [? ?]; exists (Thrown err s1); split; [done|]; split; [done|]; exists name; split; [by left|done]].
  destruct He as (Hi1 & Hc1 & x & Hx & Ho & Hid).
  destruct (IH s1 Hi1) as (e & -> & He); [intros Hin; apply Hroot; by right|intros n Hin; apply Hn; by right|]. exists e. split; [done|].
  destruct e as [s'|err s']; [|destruct He as (? & n & ? & ?); split; [done|]; exists n; split; [by right|done]].
  destruct He as (Hi' & Hall & Hrest). split_and!; [done| |].
  - intros n [->|Hin]%elem_of_cons; [|by apply Hall]. destruct (decide (name ∈ names)) as [Hin|Hin]; [by apply Hall|by apply Hrest].
  - intros n Hcn [Hne Hin]%not_elem_of_cons Hc0. apply Hrest; [done|done|]. by eapply (configured_kept name x n s s1).
Qed.

(** The root comes first, and without a level it cannot be made to inherit. *)
Lemma configure_loop_root_crash names s : Inv s -> root_level_missing p -> configure_loop (rootLogger :: names) apps p s = None.
Proof using Type.
  intros Hi (value & tokens & Ev & El & Hb). cbn [configure_loop]. unfold configureLogger. change (tempLoggerName rootLogger) with rootLogger. rewrite Ev.
  change (bool_decide (rootLogger = rootLogger)) with true. cbn iota. destruct (root_spec s Hi) as (r & s1 & -> & Hi1 & _ & Hr & _). cbn [mbind option_bind]. rewrite El.
  destruct (names_root s1 (inv_names s1 Hi1) r Hr) as (g1 & E1 & _ & Hp1).
  destruct (setLevel_step s1 r LOG_LEVEL_NOTSET g1 Hi1 E1) as (s2 & g2 & -> & _ & _ & E2 & Hs2 & _); [done|]. cbn [mbind option_bind]. injection Hs2 as Hp2 _ _ Hset2 _.
  rewrite Hb, (setInheritFlag_orphan r s2 g2 E2); [done|congruence|done].
Qed.

End Configure.

(** ** What a text configures *)

Lemma c_str_clean s : 0 ∉ c_str s.
Proof. induction s as [|c s IH]; cbn; [apply not_elem_of_nil|]. destruct (Z.eqb_spec c 0) as [->|Hc]; [apply not_elem_of_nil|]. apply not_elem_of_cons. by split. Qed.

Lemma clean_c_str s : 0 ∉ s -> c_str s = s.
Proof. induction s as [|c s IH]; cbn; [done|]. intros [Hc Hs]%not_elem_of_cons. rewrite (proj2 (Z.eqb_neq c 0)) by done. by rewrite IH. Qed.

Lemma clean_take s n : 0 ∉ s -> 0 ∉ take n s.
Proof. intros Hs Hin. apply Hs. rewrite <- (take_drop n s). apply elem_of_app. by left. Qed.

Lemma clean_drop s n : 0 ∉ s -> 0 ∉ drop n s.
Proof. intros Hs Hin. apply Hs. rewrite <- (take_drop n s). apply elem_of_app. by right. Qed.

Lemma clean_substr s i n : 0 ∉ s -> 0 ∉ substr s i n.
Proof. intros Hs. by apply clean_take, clean_drop. Qed.

Lemma clean_Trim s : 0 ∉ s -> 0 ∉ alog_Trim s.
Proof. intros Hs. unfold alog_Trim. repeat case_match; try done; try apply not_elem_of_nil. by apply clean_substr. Qed.

Definition clean_props (p : Properties) : Prop := forall k, k ∈ p.*1 -> 0 ∉ k.

Lemma load_line_ok getenv line p : sorted_props p -> clean_props p -> sorted_props (load_line getenv line p) /\ clean_props (load_line getenv line p).
Proof.
  intros Hs Hc. unfold load_line. pose proof (c_str_clean line) as Hl. set (fullLine := c_str line) in *. clearbody fullLine.
  assert (Hins : forall command pos, 0 ∉ command ->
    let left := alog_Trim (substr command 0 pos) in forall first dot v,
    let k := if bool_decide (first = lit "alog") then match dot with Some d => drop (d + 1) left | None => left end else left in
    sorted_props (prop_insert k v p) /\ clean_props (prop_insert k v p)).
  { intros command pos Hcmd left first dot v k. split; [by apply prop_insert_sorted|]. intros k' [->|Hk']%prop_insert_keys; [|by apply Hc].
    assert (Hleft : 0 ∉ left) by (by apply clean_Trim, clean_substr). unfold k. case_bool_decide; [|done]. destruct dot; [by apply clean_drop|done]. }
  destruct (find fullLine (lit "#") 0) as [[|n]|]; [done| |].
  - destruct (find (substr fullLine 0 (S n)) (lit "=") 0) as [pos|]; [|done]. apply Hins. by apply clean_substr.
  - destruct (find fullLine (lit "=") 0) as [pos|]; [|done]. by apply Hins.
Qed.

Lemma load_ok getenv text : sorted_props (load getenv text) /\ clean_props (load getenv text).
Proof.
  unfold load. assert (H0 : sorted_props [] /\ clean_props []) by (split; [constructor|by intros k ?%not_elem_of_nil]).
  generalize dependent ([] : Properties). intros p. revert p. induction (lines_loop [] text) as [|line lines IH]; intros p [Hs Hc]; cbn [load_loop]; [done|].
  destruct (LINE_MAX <? length line)%nat; [done|]. apply IH. by apply load_line_ok.
Qed.

Lemma configure_all_spec getenv apps text s : Inv s -> let p := load getenv text in
  (root_level_missing p -> configure_all apps p s = None) /\
  (~ root_level_missing p -> exists e, configure_all apps p s = Some e /\
     match e with
     | Done s' => Inv s' /\ forall name, name = rootLogger \/ lit "logger." ++ name ∈ p.*1 -> configured apps p s' name
     | Thrown _ s' => Inv s' /\ exists name, (name = rootLogger \/ lit "logger." ++ name ∈ p.*1) /\ misconfigured apps p name
     end).
Proof.
  intros Hi p. destruct (load_ok getenv text) as [Hs Hc]. fold p in Hs, Hc. split; [by apply configure_loop_root_crash|].
  intros Hroot. destruct (configure_loop_spec apps p (initLoggers p) s Hi) as (e & E & He); [by intros _| |].
  - intros n Hin. apply initLoggers_spec in Hin; [|done]. split; [|done]. destruct Hin as [->|Hin]; [reflexivity|]. apply clean_c_str. apply Hc in Hin.
    intros H0. apply Hin, elem_of_app. by right.
  - exists e. split; [done|]. destruct e as [s'|err s'].
    + destruct He as (Hi' & Hall & _). split; [done|]. intros name Hname. by apply Hall, initLoggers_spec.
    + destruct He as (Hi' & n & Hin & Hm). split; [done|]. exists n. split; [by apply initLoggers_spec|done].
Qed.

(** ** Variables *)

Inductive substituted (getenv : list Z -> option (list Z)) (p : Properties) : list Z -> list Z -> Prop :=
| subst_none v : absent (lit "${") v -> substituted getenv p v v
| subst_open a rest : first_at (lit "${") (a ++ lit "${" ++ rest) a -> absent (lit "}") rest -> substituted getenv p (a ++ lit "${" ++ rest) (a ++ lit "${" ++ rest)
| subst_variable a key rest r : first_at (lit "${") (a ++ lit "${" ++ key ++ lit "}" ++ rest) a -> first_at (lit "}") (key ++ lit "}" ++ rest) key ->
    substituted getenv p rest r -> substituted getenv p (a ++ lit "${" ++ key ++ lit "}" ++ rest) (a ++ variable getenv p key ++ r).

Lemma find_0_Some s pat i : find s pat 0 = Some i -> exists a b, s = a ++ pat ++ b /\ i = length a /\ first_at pat s a.
Proof. unfold find. rewrite decide_True by lia. change (drop 0 s) with s. intros (a & -> & Ha)%find_in_Some. pose proof Ha as [[b ->] _]. exists a, b. by split_and!. Qed.

Lemma find_0_None s pat : find s pat 0 = None -> absent pat s.
Proof. unfold find. rewrite decide_True by lia. change (drop 0 s) with s. intros E a b. by apply (find_in_None _ _ _ E). Qed.

Lemma substitute_loop_spec getenv p fuel value result : (length value < fuel)%nat ->
  exists r, substituted getenv p value r /\ substitute_loop getenv fuel p value result = result ++ r.
Proof.
  revert value result. induction fuel as [|fuel IH]; intros value result Hf; [lia|]. cbn [substitute_loop].
  destruct (find value (lit "${") 0) as [i|] eqn:E; [|apply find_0_None in E; exists value; split; [by constructor|done]].
  apply find_0_Some in E as (a & rest & -> & -> & Ha).
  assert (Ed : drop (length a + 2) (a ++ lit "${" ++ rest) = rest) by (rewrite drop_app_add; reflexivity). rewrite Ed.
  destruct (find rest (lit "}") 0) as [j|] eqn:E.
  - apply find_0_Some in E as (key & rest' & -> & -> & Hkey).
    assert (Ed' : drop (length key + 1) (key ++ lit "}" ++ rest') = rest') by (rewrite drop_app_add; reflexivity). rewrite Ed'.
    rewrite !take_app_length. destruct (IH rest' ((result ++ a) ++ variable getenv p key)) as (r & Hr & ->); [rewrite !length_app in Hf; change (length (lit "${")) with 2%nat in Hf; lia|].
    exists (a ++ variable getenv p key ++ r). split; [by apply subst_variable|]. by rewrite <- !app_assoc.
  - apply find_0_None in E. exists (a ++ lit "${" ++ rest). split; [by apply subst_open|]. rewrite take_app_length, drop_app_length. by rewrite <- app_assoc.
Qed.

(** A value has each variable replaced, from left to right; the text that
    replaces one is not looked at again. *)
Lemma substitute_spec getenv p value : substituted getenv p value (_substituteVariables getenv p value).
Proof.
  unfold _substituteVariables. destruct (find value (lit "${") 0) as [i|] eqn:E; [|apply subst_none; by apply find_0_None].
  destruct (substitute_loop_spec getenv p (S (length value)) value []) as (r & Hr & ->); [lia|done].
Qed.

(** ** The meaning of a configuration *)


(** ** Examples *)

Definition nl : list Z := [10].

Definition no_environment (key : list Z) : option (list Z) := None.

Definition conf : list Z :=
  lit "alog.rootLogger = INFO, A   # everything" ++ nl ++
  lit "dir=logs" ++ nl ++
  lit "alog.logger.net=WARN,B" ++ nl ++
  lit "inherit.net=false" ++ nl ++
  lit "logger.net.http=,A" ++ nl ++
  lit "logger.net=DEBUG" ++ nl ++
  lit "appender.B.fileName=${dir}/${none}b.log".

Definition conf_props : Properties := load no_environment conf.

(** The second property of a key is ignored. *)
Example conf_loaded : conf_props =
  [(lit "appender.B.fileName", lit "logs/b.log"); (lit "dir", lit "logs"); (lit "inherit.net", lit "false"); (lit "logger.net", lit "WARN,B");
   (lit "logger.net.http", lit ",A"); (lit "rootLogger", lit "INFO, A")].
Proof. vm_compute. reflexivity. Qed.

Definition conf_appenders : AppenderMap := <[lit "A" := 1%nat]> (<[lit "B" := 2%nat]> ∅).

Example conf_configured :
  match configure_all conf_appenders conf_props Loggers_new with
  | Some (Done s) => (fun x => (fun g => (m_loggerName g, m_loggerLevel g, m_bLevelSet g, m_bInherit g, elements (m_appenderSet g))) <$> heap s !! x) <$> [0; 1; 2]%nat
  | _ => []
  end =
  [Some ([], LOG_LEVEL_INFO, true, true, [1%nat]); Some (lit "net", LOG_LEVEL_WARN, true, false, [2%nat]); Some (lit "net.http", LOG_LEVEL_WARN, false, true, [1%nat])].
Proof. vm_compute. reflexivity. Qed.

(** "rootLogger=,A" ends in a null pointer, and a property "logger.rootLogger"
    is ignored. *)
Example root_without_level : configure_all conf_appenders (load no_environment (lit "rootLogger=,A")) Loggers_new = None.
Proof. vm_compute. reflexivity. Qed.

Example logger_named_rootLogger :
  configure_all conf_appenders (load no_environment (lit "logger.rootLogger=NONSENSE")) Loggers_new = Some (Done (getRootLogger Loggers_new).2).
Proof. vm_compute. reflexivity. Qed.

(** What is behind a line of more than 1023 characters is silently ignored. *)
Example long_line_ends_configuration : load no_environment (lit "a=1" ++ nl ++ replicate 1024 35 ++ nl ++ lit "rootLogger=DEBUG") = [(lit "a", lit "1")].
Proof. vm_compute. reflexivity. Qed.

(** A delay without a unit is one of hours. *)
Example delays : translateDelayTime <$> [lit ""; lit "90s"; lit "2m"; lit "3"; lit "-1d"; lit "999999999h"] = [Some 0; Some 90; Some 120; Some 10800; Some 0; None].
Proof. vm_compute. reflexivity. Qed.

