(* ===== verification/LogFile.v ===== *)
(** * The log files of alog

    Sources: src/agent_engine/alog/include/alog/Appender.h,
    src/agent_engine/alog/src/cpp/Appender.cpp (class FileAppender).

    An appender with the directory of its log file.  What has been given to
    [fwrite] counts as the contents of the file.  The kernel answers from a
    list: an open or a rename fails on the answer zero, a write takes no more
    bytes than the answer; when the list is used up nothing fails.  The text
    that a time has in a file name is a parameter.  A path is the name of the
    log file's directory, as in the name of the log file, followed by the name
    of an entry.  [None] is the use of a null [FILE], or a loop out of fuel.
    Files are compressed by detached threads, which are only recorded. *)

From stdpp Require Import gmap sorting.
From S2P Require Import Prelude CString StringUtil Logger.
From S2P Require Json.

Definition MAX_CACHED_BUF_SIZE : Z := 200 * 1024 * 1024.
Definition DEFAULT_FLUSH_THRESHOLD_IN_KB : Z := 1024.
Definition DEFAULT_FLUSH_INTERVAL_IN_MS : Z := 1000.
Definition FILE_NAME_MAX_SIZE : nat := 511.
Definition DIR_DELIM : Z := 47.

Record FileAppender := {
  m_file : bool;                        (* whether the pointer is not null *)
  m_fileName : list Z;
  m_bAutoFlush : bool;
  m_delayTime : Z;
  m_nMaxDelayTime : Z;
  m_keepFileCount : Z;
  m_nCurSize : Z;
  m_nMaxSize : Z;
  m_nPos : Z;
  m_nCacheLimit : Z;
  m_bCompress : bool;
  m_bAsyncFlush : bool;
  m_nFlushThreshold : Z;
  m_nAcculatedBytes : Z;
  m_nAcculatedBytesSinceLastSignal : Z;
  m_nFlushIntervalInMS : Z;
  m_nLastFlushTimeInMS : Z;
  m_pPendingBufferList : list (list Z);
  m_pBufferList : list (list Z);
  m_needFlush : bool;
}.

(** The world of an appender. *)
Record Disk := {
  files : gmap (list Z) (list Z);       (* the regular files by their paths *)
  other_entries : Z;                    (* the other entries of the directory *)
  clock : Z;                            (* in milliseconds *)
  answers : list nat;
  compressing : list (list Z);
}.

Definition with_files (f : gmap (list Z) (list Z)) (d : Disk) : Disk :=
  {| files := f; other_entries := other_entries d; clock := clock d; answers := answers d; compressing := compressing d |}.
Definition start_compressing (n : list Z) (d : Disk) : Disk :=
  {| files := files d; other_entries := other_entries d; clock := clock d; answers := answers d; compressing := compressing d ++ [n] |}.

Definition answer (d : Disk) : option nat * Disk :=
  match answers d with
  | [] => (None, d)
  | a :: l => (Some a, {| files := files d; other_entries := other_entries d; clock := clock d; answers := l; compressing := compressing d |})
  end.

Definition fails (a : option nat) : bool := bool_decide (a = Some 0%nat).

(** [time(NULL)] *)
Definition time (d : Disk) : Z := clock d / 1000.

Definition with_file (open : bool) (cur pos : Z) (a : FileAppender) : FileAppender :=
  {| m_file := open; m_fileName := m_fileName a; m_bAutoFlush := m_bAutoFlush a; m_delayTime := m_delayTime a; m_nMaxDelayTime := m_nMaxDelayTime a;
     m_keepFileCount := m_keepFileCount a; m_nCurSize := cur; m_nMaxSize := m_nMaxSize a; m_nPos := pos; m_nCacheLimit := m_nCacheLimit a;
     m_bCompress := m_bCompress a; m_bAsyncFlush := m_bAsyncFlush a; m_nFlushThreshold := m_nFlushThreshold a;
     m_nAcculatedBytes := m_nAcculatedBytes a; m_nAcculatedBytesSinceLastSignal := m_nAcculatedBytesSinceLastSignal a;
     m_nFlushIntervalInMS := m_nFlushIntervalInMS a; m_nLastFlushTimeInMS := m_nLastFlushTimeInMS a;
     m_pPendingBufferList := m_pPendingBufferList a; m_pBufferList := m_pBufferList a; m_needFlush := m_needFlush a |}.

Definition with_delay (delay max : Z) (a : FileAppender) : FileAppender :=
  {| m_file := m_file a; m_fileName := m_fileName a; m_bAutoFlush := m_bAutoFlush a; m_delayTime := delay; m_nMaxDelayTime := max;
     m_keepFileCount := m_keepFileCount a; m_nCurSize := m_nCurSize a; m_nMaxSize := m_nMaxSize a; m_nPos := m_nPos a; m_nCacheLimit := m_nCacheLimit a;
     m_bCompress := m_bCompress a; m_bAsyncFlush := m_bAsyncFlush a; m_nFlushThreshold := m_nFlushThreshold a;
     m_nAcculatedBytes := m_nAcculatedBytes a; m_nAcculatedBytesSinceLastSignal := m_nAcculatedBytesSinceLastSignal a;
     m_nFlushIntervalInMS := m_nFlushIntervalInMS a; m_nLastFlushTimeInMS := m_nLastFlushTimeInMS a;
     m_pPendingBufferList := m_pPendingBufferList a; m_pBufferList := m_pBufferList a; m_needFlush := m_needFlush a |}.

(** The counters and lists of the cache. *)
Definition with_cache (bytes since : Z) (pending buffers : list (list Z)) (needFlush : bool) (last : Z) (a : FileAppender) : FileAppender :=
  {| m_file := m_file a; m_fileName := m_fileName a; m_bAutoFlush := m_bAutoFlush a; m_delayTime := m_delayTime a; m_nMaxDelayTime := m_nMaxDelayTime a;
     m_keepFileCount := m_keepFileCount a; m_nCurSize := m_nCurSize a; m_nMaxSize := m_nMaxSize a; m_nPos := m_nPos a; m_nCacheLimit := m_nCacheLimit a;
     m_bCompress := m_bCompress a; m_bAsyncFlush := m_bAsyncFlush a; m_nFlushThreshold := m_nFlushThreshold a;
     m_nAcculatedBytes := bytes; m_nAcculatedBytesSinceLastSignal := since;
     m_nFlushIntervalInMS := m_nFlushIntervalInMS a; m_nLastFlushTimeInMS := last;
     m_pPendingBufferList := pending; m_pBufferList := buffers; m_needFlush := needFlush |}.

(** The settings. *)
Definition with_settings (auto : bool) (keep maxSize cacheLimit : Z) (compress async : bool) (threshold interval : Z) (a : FileAppender) : FileAppender :=
  {| m_file := m_file a; m_fileName := m_fileName a; m_bAutoFlush := auto; m_delayTime := m_delayTime a; m_nMaxDelayTime := m_nMaxDelayTime a;
     m_keepFileCount := keep; m_nCurSize := m_nCurSize a; m_nMaxSize := maxSize; m_nPos := m_nPos a; m_nCacheLimit := cacheLimit;
     m_bCompress := compress; m_bAsyncFlush := async; m_nFlushThreshold := threshold;
     m_nAcculatedBytes := m_nAcculatedBytes a; m_nAcculatedBytesSinceLastSignal := m_nAcculatedBytesSinceLastSignal a;
     m_nFlushIntervalInMS := interval; m_nLastFlushTimeInMS := m_nLastFlushTimeInMS a;
     m_pPendingBufferList := m_pPendingBufferList a; m_pBufferList := m_pBufferList a; m_needFlush := m_needFlush a |}.

Definition setAutoFlush (b : bool) (a : FileAppender) : FileAppender :=
  with_settings b (m_keepFileCount a) (m_nMaxSize a) (m_nCacheLimit a) (m_bCompress a) (m_bAsyncFlush a) (m_nFlushThreshold a) (m_nFlushIntervalInMS a) a.
Definition setMaxSize (maxSize : Z) (a : FileAppender) : FileAppender :=
  with_settings (m_bAutoFlush a) (m_keepFileCount a) (u64 (maxSize * 1024 * 1024)) (m_nCacheLimit a) (m_bCompress a) (m_bAsyncFlush a) (m_nFlushThreshold a) (m_nFlushIntervalInMS a) a.
Definition setCacheLimit (cacheLimit : Z) (a : FileAppender) : FileAppender :=
  with_settings (m_bAutoFlush a) (m_keepFileCount a) (m_nMaxSize a) (u64 (cacheLimit * 1024 * 1024)) (m_bCompress a) (m_bAsyncFlush a) (m_nFlushThreshold a) (m_nFlushIntervalInMS a) a.
Definition setHistoryLogKeepCount (keepCount : Z) (a : FileAppender) : FileAppender :=
  with_settings (m_bAutoFlush a) keepCount (m_nMaxSize a) (m_nCacheLimit a) (m_bCompress a) (m_bAsyncFlush a) (m_nFlushThreshold a) (m_nFlushIntervalInMS a) a.
Definition setCompress (b : bool) (a : FileAppender) : FileAppender :=
  with_settings (m_bAutoFlush a) (m_keepFileCount a) (m_nMaxSize a) (m_nCacheLimit a) b (m_bAsyncFlush a) (m_nFlushThreshold a) (m_nFlushIntervalInMS a) a.
Definition setAsyncFlush (b : bool) (a : FileAppender) : FileAppender :=
  with_settings (m_bAutoFlush a) (m_keepFileCount a) (m_nMaxSize a) (m_nCacheLimit a) (m_bCompress a) b (m_nFlushThreshold a) (m_nFlushIntervalInMS a) a.
Definition setFlushThreshold (n : Z) (a : FileAppender) : FileAppender :=
  with_settings (m_bAutoFlush a) (m_keepFileCount a) (m_nMaxSize a) (m_nCacheLimit a) (m_bCompress a) (m_bAsyncFlush a) n (m_nFlushIntervalInMS a) a.
(** The argument has 64 bits, the member 32. *)
Definition setFlushIntervalInMS (n : Z) (a : FileAppender) : FileAppender :=
  with_settings (m_bAutoFlush a) (m_keepFileCount a) (m_nMaxSize a) (m_nCacheLimit a) (m_bCompress a) (m_bAsyncFlush a) (m_nFlushThreshold a) (u32 n) a.
Definition setDelayTime (delayTime : Z) (d : Disk) (a : FileAppender) : FileAppender :=
  with_delay (if 0 <? delayTime then time d + delayTime else 0) delayTime a.

(** ** Files *)

Definition getParentDir (fileName : list Z) : list Z :=
  match fileName with
  | [] => lit "."
  | [_] => match rfind fileName [DIR_DELIM] with None => lit "." | Some p => substr fileName 0 (p + 1) end
  | _ => match rfind (take (length fileName - 1) fileName) [DIR_DELIM] with None => lit "." | Some p => substr fileName 0 (p + 1) end
  end.

Definition getPureFileName (fileName : list Z) : list Z :=
  match rfind fileName [DIR_DELIM] with None => fileName | Some p => drop (p + 1) fileName end.

(** The part of the name before [getPureFileName]. *)
Definition dir_prefix (fileName : list Z) : list Z := take (length fileName - length (getPureFileName fileName)) fileName.

(** [fopen64(..., "a+")] and [fstat64] *)
Definition open (a : FileAppender) (d : Disk) : bool * FileAppender * Disk :=
  let '(r, d) := answer d in
  if fails r then (false, with_file false (m_nCurSize a) (m_nPos a) a, d)
  else
    let contents := default [] (files d !! m_fileName a) in
    (true, with_file true (Z.of_nat (length contents)) 0 a, with_files (<[m_fileName a := contents]> (files d)) d).

Definition close (a : FileAppender) : FileAppender := with_file false (m_nCurSize a) (m_nPos a) a.

Definition exists_file (n : list Z) (d : Disk) : bool := bool_decide (is_Some (files d !! n)).

(** [%03d] *)
Definition print_03d (n : Z) : list Z := replicate (3 - length (print_dec n)) 48 ++ print_dec n.

(** The names that the loop tries, with what [snprintf] cuts off. *)
Definition history_name (base : list Z) (suffixCount : Z) : list Z :=
  base ++ take (FILE_NAME_MAX_SIZE - length base - 1) (lit "-" ++ print_03d suffixCount).
Definition zip_name (oldLogFile : list Z) : list Z := take (FILE_NAME_MAX_SIZE - 1) (oldLogFile ++ lit ".gz").

Fixpoint compute_loop (fuel : nat) (base : list Z) (suffixCount : Z) (d : Disk) : option (list Z) :=
  match fuel with
  | O => None
  | Datatypes.S fuel =>
      let oldLogFile := history_name base suffixCount in
      if exists_file oldLogFile d || exists_file (zip_name oldLogFile) d then compute_loop fuel base (suffixCount + 1) d else Some oldLogFile
  end.

Definition str_le (x y : list Z) : Prop := Json.str_lt y x = false.

#[export] Instance str_le_dec : RelDecision str_le.
Proof. intros x y. unfold str_le. apply _. Defined.

Section FileAppender.

Context (stamp : Z -> list Z).

Definition base_name (a : FileAppender) (d : Disk) : list Z := take (FILE_NAME_MAX_SIZE - 1) (m_fileName a ++ lit "." ++ stamp (time d)).

Definition computeLastLogFileName (a : FileAppender) (d : Disk) : option (list Z) :=
  n ← compute_loop (S (size (files d))) (base_name a d) 1 d; Some (take (FILE_NAME_MAX_SIZE - 1) n).

Definition rename (from to : list Z) (d : Disk) : Disk :=
  let '(r, d) := answer d in
  if fails r then d
  else match files d !! from with
       | None => d
       | Some c => with_files (<[to := c]> (delete from (files d))) d
       end.

(** [std::sort], and the order of [alphasort] in the C locale *)
Definition sort_names (l : list (list Z)) : list (list Z) := merge_sort str_le l.

Definition entry_of (prefix path : list Z) : option (list Z) :=
  if bool_decide (take (length prefix) path = prefix) && negb (existsb (Z.eqb DIR_DELIM) (drop (length prefix) path)) then Some (drop (length prefix) path) else None.

(** The names of the regular files of the directory, in order. *)
Definition scandir (a : FileAppender) (d : Disk) : list (list Z) :=
  sort_names (omap (entry_of (dir_prefix (m_fileName a))) (map_to_list (files d)).*1).

Definition is_history (a : FileAppender) (entry : list Z) : bool :=
  let pure := getPureFileName (m_fileName a) in
  strneq pure entry (length pure) && (length pure <? length entry)%nat.

(** A file is unlinked or goes to the trash directory. *)
Definition removeHistoryLogFile (a : FileAppender) (d : Disk) : Z * Disk :=
  let namelist := scandir a d in
  if Z.of_nat (length namelist) + other_entries d <=? i32 (m_keepFileCount a) then (0, d)
  else
    let filteredEntrys := sort_names (filter (fun e => is_history a e = true) namelist) in
    if m_keepFileCount a <? Z.of_nat (length filteredEntrys) then
      let removedFileCount := (length filteredEntrys - Z.to_nat (m_keepFileCount a))%nat in
      let removed := take removedFileCount filteredEntrys in
      (Z.of_nat removedFileCount, with_files (foldr (fun e f => delete (dir_prefix (m_fileName a) ++ e) f) (files d) removed) d)
    else (0, d).

Definition rotateLog (a : FileAppender) (d : Disk) : option (FileAppender * Disk) :=
  if (0 <? m_nCacheLimit a) && negb (m_file a) then None
  else
    let a := close a in
    lastLogFileName ← computeLastLogFileName a d;
    let d := rename (m_fileName a) lastLogFileName d in
    let a := if (0 <? m_delayTime a) && (m_delayTime a <=? time d) then setDelayTime (m_nMaxDelayTime a) d a else a in
    let d := if 0 <? m_keepFileCount a then (removeHistoryLogFile a d).2 else d in
    let d := if m_bCompress a then start_compressing lastLogFileName d else d in
    let '(_, a, d) := open a d in
    Some (a, d).

Definition fwrite (buf : list Z) (a : FileAppender) (d : Disk) : nat * Disk :=
  let '(r, d) := answer d in
  let n := match r with None => length buf | Some k => Nat.min k (length buf) end in
  (n, with_files (<[m_fileName a := default [] (files d !! m_fileName a) ++ take n buf]> (files d)) d).

Definition write (buf : list Z) (nLogLevel : Z) (bAsyncFlush : bool) (a : FileAppender) (d : Disk) : option (Z * FileAppender * Disk) :=
  let len := Z.of_nat (length buf) in
  '(lost, a, d) ← (if ((0 <? m_nMaxSize a) && (m_nMaxSize a <=? u64 (m_nCurSize a + len))) || ((0 <? m_delayTime a) && (m_delayTime a <=? time d)) then
                     '(a, d) ← rotateLog a d; Some (negb (m_file a), a, d)
                   else Some (false, a, d));
  if lost : bool then Some (0, a, d)
  else
    let '(ok, a, d) := if negb (m_file a) then open a d else (true, a, d) in
    if negb ok then Some (0, a, d)
    else
      let '(wCount, d) := fwrite buf a d in
      let cur := u64 (m_nCurSize a + Z.of_nat wCount) in
      let pos := if (0 <? m_nCacheLimit a) && (m_nCacheLimit a <? u64 (cur - m_nPos a)) then cur else m_nPos a in
      Some (if Z.of_nat wCount =? len then len else 0, with_file (m_file a) cur pos a, d).

(** An event as its layout formats it; whether the thread that flushes is notified comes with the result. *)
Definition append (formatedStr : list Z) (level : Z) (a : FileAppender) (d : Disk) : option (Z * bool * FileAppender * Disk) :=
  if negb (m_bAsyncFlush a) then '(n, a, d) ← write formatedStr level false a d; Some (n, false, a, d)
  else
    let nLen := Z.of_nat (length formatedStr) in
    if 0 <? nLen then
      if MAX_CACHED_BUF_SIZE <=? m_nAcculatedBytes a then Some (0, false, a, d)
      else
        let bytes := u32 (m_nAcculatedBytes a + nLen) in
        let since := u32 (m_nAcculatedBytesSinceLastSignal a + nLen) in
        let signal := (m_nFlushThreshold a <=? bytes) && (m_nFlushThreshold a <=? since) in
        Some (i32 nLen, signal,
              with_cache bytes (if signal then 0 else since) (m_pPendingBufferList a ++ [formatedStr]) (m_pBufferList a)
                (signal || m_needFlush a) (m_nLastFlushTimeInMS a) a, d)
    else Some (i32 nLen, false, a, d).

Fixpoint write_all (l : list (list Z)) (a : FileAppender) (d : Disk) : option (FileAppender * Disk) :=
  match l with
  | [] => Some (a, d)
  | buf :: l => '(_, a, d) ← write buf LOG_LEVEL_INFO true a d; write_all l a d
  end.

(** The result is the time of the next flush. *)
Definition asyncFlush (now : Z) (force : bool) (a : FileAppender) (d : Disk) : option (Z * FileAppender * Disk) :=
  let nextFlushTime := i64 (m_nLastFlushTimeInMS a + m_nFlushIntervalInMS a) in
  if negb (force || m_needFlush a) && negb (nextFlushTime <=? now) then Some (nextFlushTime, a, d)
  else
    let a := with_cache 0 0 (m_pBufferList a) (m_pPendingBufferList a) false (m_nLastFlushTimeInMS a) a in
    '(a, d) ← write_all (m_pBufferList a) a d;
    let a := with_cache (m_nAcculatedBytes a) (m_nAcculatedBytesSinceLastSignal a) (m_pPendingBufferList a) [] (m_needFlush a) (clock d) a in
    Some (i64 (m_nLastFlushTimeInMS a + m_nFlushIntervalInMS a), a, d).

(** The constructor. *)
Definition FileAppender_new (fileName : list Z) (d : Disk) : FileAppender * Disk :=
  let a := {| m_file := false; m_fileName := fileName; m_bAutoFlush := false; m_delayTime := 0; m_nMaxDelayTime := 0; m_keepFileCount := 0;
              m_nCurSize := 0; m_nMaxSize := 0; m_nPos := 0; m_nCacheLimit := 0; m_bCompress := false; m_bAsyncFlush := false;
              m_nFlushThreshold := DEFAULT_FLUSH_THRESHOLD_IN_KB * 1024; m_nAcculatedBytes := 0; m_nAcculatedBytesSinceLastSignal := 0;
              m_nFlushIntervalInMS := DEFAULT_FLUSH_INTERVAL_IN_MS; m_nLastFlushTimeInMS := clock d;
              m_pPendingBufferList := []; m_pBufferList := []; m_needFlush := false |} in
  let '(_, a, d) := open a d in (a, d).

End FileAppender.

(** ** Names of rotated files *)

Lemma dec_value_zeros k ds : dec_value (replicate k 48 ++ ds) = dec_value ds.
Proof. unfold dec_value. induction k as [|k IH]; [done|]. cbn. exact IH. Qed.

Lemma print_loop_length fuel n : (length (print_loop fuel n) <= fuel)%nat.
Proof. revert n. induction fuel as [|fuel IH]; intros n; cbn [print_loop]; [done|]. case_match; cbn; [lia|]. rewrite length_app. cbn. specialize (IH (n / 10)). lia. Qed.

Lemma print_03d_spec n : 0 <= n < 10 ^ 20 ->
  dec_value (print_03d n) = n /\ Forall (fun c => isdigit c = true) (print_03d n) /\ print_03d n <> [] /\ (length (print_03d n) <= 23)%nat.
Proof.
  intros Hn. destruct (print_dec_denotes n Hn) as (Hne & Hd & Hv). unfold print_03d. split_and!.
  - by rewrite dec_value_zeros.
  - apply Forall_app. split; [|done]. by apply Forall_replicate.
  - intros [_ ?]%app_eq_nil. done.
  - rewrite length_app, length_replicate. pose proof (print_loop_length 20 n) as Hl. unfold print_dec. lia.
Qed.

Lemma print_03d_inj m n : 0 <= m < 10 ^ 20 -> 0 <= n < 10 ^ 20 -> print_03d m = print_03d n -> m = n.
Proof. intros Hm Hn E. destruct (print_03d_spec m Hm) as [<- _], (print_03d_spec n Hn) as [<- _]. by rewrite E. Qed.

(** Names that are not cut off. *)
Definition short_base (base : list Z) : Prop := (length base <= 481)%nat.

Lemma history_name_full base n : short_base base -> 0 <= n < 10 ^ 20 -> history_name base n = base ++ lit "-" ++ print_03d n.
Proof.
  intros Hb Hn. destruct (print_03d_spec n Hn) as (_ & _ & _ & Hl). unfold history_name, FILE_NAME_MAX_SIZE, short_base in *. f_equal. apply take_ge.
  rewrite length_app. change (length (lit "-")) with 1%nat. lia.
Qed.

Lemma zip_name_full base n : short_base base -> 0 <= n < 10 ^ 20 -> zip_name (history_name base n) = base ++ lit "-" ++ print_03d n ++ lit ".gz".
Proof.
  intros Hb Hn. rewrite history_name_full by done. destruct (print_03d_spec n Hn) as (_ & _ & _ & Hl). unfold zip_name, FILE_NAME_MAX_SIZE, short_base in *.
  rewrite take_ge; [by rewrite <- !app_assoc|]. rewrite !length_app. change (length (lit "-")) with 1%nat. change (length (lit ".gz")) with 3%nat. lia.
Qed.

Lemma history_name_inj base m n : short_base base -> 0 <= m < 10 ^ 20 -> 0 <= n < 10 ^ 20 -> history_name base m = history_name base n -> m = n.
Proof. intros Hb Hm Hn. rewrite !history_name_full by done. intros E%app_inv_head%app_inv_head. by apply print_03d_inj. Qed.

Lemma zip_name_inj base m n : short_base base -> 0 <= m < 10 ^ 20 -> 0 <= n < 10 ^ 20 -> zip_name (history_name base m) = zip_name (history_name base n) -> m = n.
Proof. intros Hb Hm Hn. rewrite !zip_name_full by done. intros E%app_inv_head%app_inv_head%app_inv_tail. by apply print_03d_inj. Qed.

Lemma history_not_zip base m n : short_base base -> 0 <= m < 10 ^ 20 -> 0 <= n < 10 ^ 20 -> history_name base m <> zip_name (history_name base n).
Proof.
  intros Hb Hm Hn. rewrite zip_name_full, history_name_full by done. intros E%app_inv_head%app_inv_head. destruct (print_03d_spec m Hm) as (_ & Hd & _).
  rewrite E in Hd. apply Forall_app in Hd as [_ Hd]. vm_compute in Hd. inversion Hd; discriminate.
Qed.

(** The loop ends: it cannot find more names taken than there are files. *)
Lemma compute_loop_None fuel base n d : compute_loop fuel base n d = None ->
  forall k, (k < fuel)%nat -> is_Some (files d !! history_name base (n + Z.of_nat k)) \/ is_Some (files d !! zip_name (history_name base (n + Z.of_nat k))).
Proof.
  revert n. induction fuel as [|fuel IH]; intros n E k Hk; [lia|]. cbn [compute_loop] in E. unfold exists_file in E.
  destruct (bool_decide _ || bool_decide _) eqn:Ex; [|done]. destruct k as [|k].
  - rewrite Z.add_0_r. apply orb_true_iff in Ex as [?%bool_decide_eq_true|?%bool_decide_eq_true]; auto.
  - specialize (IH (n + 1) E k ltac:(lia)). replace (n + Z.of_nat (S k)) with (n + 1 + Z.of_nat k) by lia. exact IH.
Qed.

Lemma compute_loop_Some fuel base n d name : 0 <= n -> compute_loop fuel base n d = Some name ->
  exists k, n <= k < n + Z.of_nat fuel /\ name = history_name base k /\ files d !! name = None /\ files d !! zip_name name = None.
Proof.
  revert n. induction fuel as [|fuel IH]; intros n Hn E; [done|]. cbn [compute_loop] in E. unfold exists_file in E.
  destruct (bool_decide _ || bool_decide _) eqn:Ex.
  - destruct (IH (n + 1)) as (k & Hk & ?); [lia|done|]. exists k. split; [lia|done].
  - injection E as <-. exists n. apply orb_false_iff in Ex as [H1%bool_decide_eq_false H2%bool_decide_eq_false]. split; [lia|]. split; [done|].
    split; apply eq_None_not_Some; done.
Qed.

Lemma compute_loop_ends base d : short_base base -> Z.of_nat (size (files d)) < 10 ^ 19 -> is_Some (compute_loop (S (size (files d))) base 1 d).
Proof.
  intros Hb Hs. destruct (compute_loop _ base 1 d) eqn:E; [by eexists|]. exfalso. pose proof (compute_loop_None _ _ _ _ E) as Htaken. clear E.
  set (N := S (size (files d))) in *.
  set (pick := fun k : nat => let h := history_name base (1 + Z.of_nat k) in if bool_decide (is_Some (files d !! h)) then h else zip_name h).
  assert (Hrange : forall k, (k < N)%nat -> 0 <= 1 + Z.of_nat k < 10 ^ 20) by (intros k Hk; unfold N in Hk; lia).
  assert (Hinj : forall j k, (j < N)%nat -> (k < N)%nat -> pick j = pick k -> j = k).
  { intros j k Hj Hk. specialize (Hrange j Hj) as Rj. specialize (Hrange k Hk) as Rk. unfold pick. cbn zeta. repeat case_bool_decide; intros Ejk.
    - apply history_name_inj in Ejk; [lia|done..].
    - by apply history_not_zip in Ejk.
    - symmetry in Ejk. by apply history_not_zip in Ejk.
    - apply zip_name_inj in Ejk; [lia|done..]. }
  assert (Hsub : list_to_set (pick <$> seq 0 N) ⊆ dom (files d)).
  { intros x Hx. apply elem_of_list_to_set, list_elem_of_fmap in Hx as (k & -> & Hk). apply elem_of_seq in Hk. apply elem_of_dom. unfold pick. cbn zeta.
    case_bool_decide; [done|]. destruct (Htaken k) as [?|?]; [lia|done|done]. }
  assert (Hnd : NoDup (pick <$> seq 0 N)).
  { apply NoDup_fmap_2_strong; [|apply NoDup_seq]. intros j k Hj%elem_of_seq Hk%elem_of_seq. apply Hinj; lia. }
  apply subseteq_size in Hsub. rewrite size_list_to_set in Hsub by done. rewrite length_fmap, length_seq, size_dom in Hsub. unfold N in Hsub. lia.
Qed.

(** ** Nothing is lost *)

Definition text_of (d : Disk) (n : list Z) : list Z := default [] (files d !! n).

(** What has been logged: the rotated files, oldest first, and the current one. *)
Definition log_text (hist : list (list Z)) (a : FileAppender) (d : Disk) : list Z := concat (text_of d <$> hist) ++ text_of d (m_fileName a).

(** Only the file and the time of the next rotation change. *)
Definition moved (a a' : FileAppender) : Prop := exists cur pos dl mx, a' = with_file true cur pos (with_delay dl mx a).

Lemma moved_trans a b c : moved a b -> moved b c -> moved a c.
Proof. intros (? & ? & ? & ? & ->) (cur & pos & dl & mx & ->). by exists cur, pos, dl, mx. Qed.

Section Rotation.

Context (stamp : Z -> list Z).

Record log_ok (hist : list (list Z)) (a : FileAppender) (d : Disk) : Prop := {
  lo_nodup : NoDup (m_fileName a :: hist);
  lo_there n : n ∈ m_fileName a :: hist -> is_Some (files d !! n);
  lo_size : m_nCurSize a = u64 (Z.of_nat (length (text_of d (m_fileName a))));
  lo_open : m_file a = true;
  lo_keep : m_keepFileCount a = 0;
  lo_calm : answers d = [];
  lo_short t : (length (m_fileName a) + length (stamp t) <= 480)%nat;
}.

Lemma base_name_full a d : (forall t, (length (m_fileName a) + length (stamp t) <= 480)%nat) ->
  base_name stamp a d = m_fileName a ++ lit "." ++ stamp (time d) /\ short_base (base_name stamp a d).
Proof.
  intros Hs. specialize (Hs (time d)). unfold base_name, short_base, FILE_NAME_MAX_SIZE. change (length (lit ".")) with 1%nat.
  rewrite take_ge; rewrite !length_app; change (length (lit ".")) with 1%nat; [split; [done|lia]|lia].
Qed.

Lemma answer_calm d : answers d = [] -> answer d = (None, d).
Proof. unfold answer. by intros ->. Qed.

Lemma last_name_fresh hist a d : log_ok hist a d -> Z.of_nat (size (files d)) < 2 ^ 31 ->
  exists n, computeLastLogFileName stamp a d = Some n /\ files d !! n = None.
Proof.
  intros H Hs. destruct (base_name_full a d (lo_short _ _ _ H)) as [Eb Hb]. unfold computeLastLogFileName.
  destruct (compute_loop_ends (base_name stamp a d) d Hb) as [n E]; [lia|]. rewrite E. cbn [mbind option_bind].
  destruct (compute_loop_Some _ _ 1 _ _ ltac:(lia) E) as (k & Hk & -> & Hno & _). eexists. split; [|exact Hno]. f_equal. apply take_ge.
  rewrite history_name_full by (done || lia). destruct (print_03d_spec k) as (_ & _ & _ & Hl); [lia|]. unfold short_base in Hb. unfold FILE_NAME_MAX_SIZE.
  rewrite !length_app. change (length (lit "-")) with 1%nat. lia.
Qed.

Lemma concat_fmap_ext (f g : list Z -> list Z) l : (forall n, n ∈ l -> f n = g n) -> concat (f <$> l) = concat (g <$> l).
Proof. intros H. f_equal. apply list_fmap_ext. intros i n Hi. apply H. by eapply list_elem_of_lookup_2. Qed.

Lemma rotateLog_spec hist a d : log_ok hist a d -> Z.of_nat (size (files d)) < 2 ^ 31 ->
  exists n a' d', rotateLog stamp a d = Some (a', d') /\ files d !! n = None /\ moved a a' /\ m_nCurSize a' = 0 /\
    files d' = <[m_fileName a := []]> (<[n := text_of d (m_fileName a)]> (delete (m_fileName a) (files d))) /\
    answers d' = [] /\ clock d' = clock d.
Proof.
  intros H Hs. pose proof H as [Hnd Hin Hsize Hopen Hkeep Hcalm Hshort]. unfold rotateLog. rewrite Hopen, andb_false_r.
  destruct (last_name_fresh hist a d H Hs) as (n & En & Hn). unfold close. exists n.
  assert (Ec : computeLastLogFileName stamp (with_file false (m_nCurSize a) (m_nPos a) a) d = Some n) by exact En. rewrite Ec. cbn [mbind option_bind].
  unfold rename. rewrite (answer_calm d Hcalm). cbn [fails]. change (fails None) with false. cbn iota.
  destruct (Hin (m_fileName a)) as [c Ec']; [by left|]. cbn [m_fileName with_file]. rewrite Ec'. set (d1 := with_files _ d).
  set (a1 := if _ : bool then setDelayTime _ _ _ else _).
  assert (Ha1 : exists dl mx, a1 = with_delay dl mx (with_file false (m_nCurSize a) (m_nPos a) a)).
  { unfold a1. case_match; [by eexists _, _|]. exists (m_delayTime a), (m_nMaxDelayTime a). done. }
  destruct Ha1 as (dl & mx & ->). cbn [m_keepFileCount m_bCompress with_delay with_file]. rewrite Hkeep. change (0 <? 0) with false. cbn iota.
  set (d2 := if m_bCompress a then _ else _). assert (Hd2 : files d2 = files d1 /\ answers d2 = [] /\ clock d2 = clock d) by (unfold d2; destruct (m_bCompress a); by split_and!).
  destruct Hd2 as (Ef & Ea & Et). unfold open. rewrite (answer_calm d2 Ea). change (fails None) with false. cbn iota. cbn [m_fileName with_delay with_file].
  assert (Hfn : m_fileName a <> n) by congruence.
  assert (Elook : files d2 !! m_fileName a = None) by (rewrite Ef; cbn; rewrite lookup_insert_ne by done; apply lookup_delete_eq).
  rewrite Elook. cbn [default]. eexists _, _. split; [reflexivity|]. split; [done|]. split; [by exists 0, 0, dl, mx|]. split; [done|]. split; [|done].
  cbn. rewrite Ef. cbn. unfold text_of. by rewrite Ec'.
Qed.

(** [write] takes the whole text; what was there stays, and a rotation moves it. *)
Lemma write_spec hist a d buf lvl async : log_ok hist a d -> Z.of_nat (size (files d)) < 2 ^ 31 -> Z.of_nat (length buf) < 2 ^ 31 ->
  exists hist' a' d', write stamp buf lvl async a d = Some (Z.of_nat (length buf), a', d') /\ moved a a' /\ log_ok (hist ++ hist') a' d' /\
    log_text (hist ++ hist') a' d' = log_text hist a d ++ buf /\ clock d' = clock d /\ (size (files d') <= S (size (files d)))%nat /\
    (forall n, n ∈ hist' -> files d !! n = None) /\ (forall n, n ∉ m_fileName a :: hist' -> files d' !! n = files d !! n).
Proof.
  intros H Hs Hlen.
  assert (Hrot : exists hist' a1 d1,
    (if ((0 <? m_nMaxSize a) && (m_nMaxSize a <=? u64 (m_nCurSize a + Z.of_nat (length buf)))) || ((0 <? m_delayTime a) && (m_delayTime a <=? time d))
     then '(a, d) ← rotateLog stamp a d; Some (negb (m_file a), a, d) else Some (false, a, d)) = Some (false, a1, d1) /\
    moved a a1 /\ log_ok (hist ++ hist') a1 d1 /\ log_text (hist ++ hist') a1 d1 = log_text hist a d /\ clock d1 = clock d /\
    (size (files d1) <= S (size (files d)))%nat /\ (forall n, n ∈ hist' -> files d !! n = None) /\ (forall n, n ∉ m_fileName a :: hist' -> files d1 !! n = files d !! n)).
  { match goal with |- context [if ?c then _ else Some _] => destruct c end.
    - destruct (rotateLog_spec hist a d H Hs) as (n & a1 & d1 & E & Hn & Hm & Hcur & Ef & Ea & Et). rewrite E. cbn [mbind option_bind]. pose proof H as [Hnd Hin Hsize Hopen Hkeep Hcalm Hshort].
      assert (Ename : m_fileName a1 = m_fileName a) by (by destruct Hm as (? & ? & ? & ? & ->)).
      assert (Hfn : m_fileName a <> n) by (intros E'; destruct (Hin (m_fileName a)) as [? ?]; [by left|congruence]).
      assert (Hnew : n ∉ hist) by (intros Hin'; destruct (Hin n) as [? ?]; [by right|congruence]).
      apply NoDup_cons in Hnd as [Hnh Hnd].
      assert (Elook : forall k, files d1 !! k = if decide (k = m_fileName a) then Some [] else if decide (k = n) then Some (text_of d (m_fileName a)) else files d !! k).
      { intros k. rewrite Ef. case_decide as Hk; [subst; apply lookup_insert_eq|]. rewrite lookup_insert_ne by done.
        case_decide as Hk'; [subst; apply lookup_insert_eq|]. rewrite lookup_insert_ne by done. by rewrite lookup_delete_ne. }
      exists [n], a1, d1. split_and!.
      + f_equal. by destruct Hm as (? & ? & ? & ? & ->).
      + done.
      + split; rewrite ?Ename; try done.
        * apply NoDup_cons. split; [intros [?|E'%list_elem_of_singleton]%elem_of_app; done|]. apply NoDup_app. split_and!; [done| |apply NoDup_singleton].
          by intros k Hk ->%list_elem_of_singleton.
        * intros k Hk. rewrite Elook. case_decide; [done|]. case_decide; [done|]. apply Hin. rewrite elem_of_cons, elem_of_app, list_elem_of_singleton in Hk.
          apply elem_of_cons. naive_solver.
        * rewrite Hcur. unfold text_of. rewrite Elook, decide_True by done. done.
        * by destruct Hm as (? & ? & ? & ? & ->).
        * by destruct Hm as (? & ? & ? & ? & ->).
      + unfold log_text. rewrite Ename, fmap_app, concat_app, <- app_assoc. f_equal.
        * apply concat_fmap_ext. intros k Hk. unfold text_of. rewrite Elook, !decide_False; [done|intros ->; done..].
        * cbn. unfold text_of. rewrite !Elook. rewrite (decide_False _ _ (P := n = m_fileName a)) by done. rewrite !decide_True by done. cbn. by rewrite !app_nil_r.
      + done.
      + rewrite Ef. assert (size (files d) <> 0%nat) by (apply (map_size_ne_0_lookup_2 _ (m_fileName a)), Hin; by left). rewrite !map_size_insert, (map_size_delete_Some (m_fileName a)) by (apply Hin; by left). unfold id. repeat match goal with |- context [match ?o with Some _ => _ | None => _ end] => destruct o end; lia.
      + by intros k ->%list_elem_of_singleton.
      + intros k [Hk1 Hk2]%not_elem_of_cons. rewrite list_elem_of_singleton in Hk2. by rewrite Elook, !decide_False.
    - exists [], a, d. rewrite app_nil_r. split_and!; [done| |done|done|done|lia|by intros k ?%not_elem_of_nil|done].
      exists (m_nCurSize a), (m_nPos a), (m_delayTime a), (m_nMaxDelayTime a). pose proof (lo_open _ _ _ H) as Ho. destruct a; cbn in *. by subst. }
  destruct Hrot as (hist' & a1 & d1 & E & Hm & H1 & Ht & Ec & Hsz & Hnew & Hother). unfold write. rewrite E. cbn [mbind option_bind].
  pose proof H1 as [Hnd Hin Hsize Hopen Hkeep Hcalm Hshort]. rewrite Hopen. cbn [negb]. unfold fwrite. rewrite (answer_calm d1 Hcalm). cbn iota.
  rewrite Z.eqb_refl, take_ge by done. assert (Ename : m_fileName a1 = m_fileName a) by (by destruct Hm as (? & ? & ? & ? & ->)).
  set (cur := u64 (m_nCurSize a1 + _)). set (pos := if _ : bool then cur else _). set (d' := with_files _ d1).
  assert (Elook : forall k, text_of d' k = if decide (k = m_fileName a1) then text_of d1 k ++ buf else text_of d1 k).
  { intros k. unfold text_of, d'. cbn. case_decide as Hk; [subst; by rewrite lookup_insert_eq|by rewrite lookup_insert_ne]. }
  exists hist', (with_file true cur pos a1), d'. apply NoDup_cons in Hnd as [Hnh Hnd].
  split_and!; [by rewrite Hopen| | | |done| |done|].
  - eapply moved_trans; [exact Hm|]. exists cur, pos, (m_delayTime a1), (m_nMaxDelayTime a1). done.
  - split; try done.
    + by apply NoDup_cons.
    + intros k Hk. destruct (Hin k Hk) as [c Hc]. unfold d'. cbn. destruct (decide (m_fileName a1 = k)) as [<-|Hne]; [rewrite lookup_insert_eq; by eexists|].
      rewrite lookup_insert_ne by done. by exists c.
    + cbn [m_nCurSize m_fileName with_file]. rewrite Elook, decide_True by done. unfold cur. rewrite Hsize, length_app, Nat2Z.inj_add. unfold u64, wrapu.
      by rewrite Zplus_mod_idemp_l.
  - unfold log_text in *. cbn [m_fileName with_file]. rewrite Elook, decide_True by done. rewrite <- Ht, Ename, <- app_assoc. f_equal. apply concat_fmap_ext. intros k Hk.
    rewrite Elook, decide_False; [done|]. by intros ->.
  - unfold d'. cbn. rewrite map_size_insert_Some; [done|]. apply Hin. by left.
  - intros k Hk. pose proof Hk as [Hk1 _]%not_elem_of_cons. unfold d'. cbn. rewrite lookup_insert_ne by congruence. by apply Hother.
Qed.

End Rotation.

(** ** The cache *)

(** What a user and the clock do to an appender. *)
Inductive file_op :=
| FAppend (formatedStr : list Z) (level : Z)
| FFlush (now : Z) (force : bool)
| FTick (ms : Z).

Definition tick (ms : Z) (d : Disk) : Disk :=
  {| files := files d; other_entries := other_entries d; clock := clock d + ms; answers := answers d; compressing := compressing d |}.

(** The state after the operations, with the texts that [append] accepted. *)
Fixpoint run_files (stamp : Z -> list Z) (ops : list file_op) (a : FileAppender) (d : Disk) (acc : list (list Z)) : option (FileAppender * Disk * list (list Z)) :=
  match ops with
  | [] => Some (a, d, acc)
  | FAppend s level :: ops =>
      '(n, _, a, d) ← append stamp s level a d; run_files stamp ops a d (if n =? 0 then acc else acc ++ [s])
  | FFlush now force :: ops => '(_, a, d) ← asyncFlush stamp now force a d; run_files stamp ops a d acc
  | FTick ms :: ops => run_files stamp ops a (tick ms d) acc
  end.

Definition bytes_of (l : list (list Z)) : Z := Z.of_nat (length (concat l)).

Record cache_ok (a : FileAppender) : Prop := {
  ca_bytes : m_nAcculatedBytes a = bytes_of (m_pPendingBufferList a);
  ca_bound : bytes_of (m_pPendingBufferList a) < MAX_CACHED_BUF_SIZE + 2 ^ 31;
  ca_since : 0 <= m_nAcculatedBytesSinceLastSignal a <= m_nAcculatedBytes a;
  ca_signal : m_needFlush a = false -> m_nAcculatedBytesSinceLastSignal a = m_nAcculatedBytes a /\
                (m_nAcculatedBytes a < m_nFlushThreshold a \/ m_pPendingBufferList a = []);
  ca_sync : m_bAsyncFlush a = false -> m_pPendingBufferList a = [];
}.

Lemma moved_cache a a' : moved a a' -> cache_ok a -> cache_ok a'.
Proof. intros (? & ? & ? & ? & ->) [H1 H2 H3 H4 H5]. by split. Qed.

Lemma bytes_of_app l s : bytes_of (l ++ [s]) = bytes_of l + Z.of_nat (length s).
Proof. unfold bytes_of. rewrite concat_app, length_app. cbn. rewrite app_nil_r. lia. Qed.

(** The state of a run: [hist] are the files that were rotated, [text] is all
    that was accepted, and [n] bounds the files. *)
Record run_ok (stamp : Z -> list Z) (d0 : Disk) (hist : list (list Z)) (text : list Z) (n : Z) (a : FileAppender) (d : Disk) : Prop := {
  ro_log : log_ok stamp hist a d;
  ro_cache : cache_ok a;
  ro_text : log_text hist a d ++ concat (m_pPendingBufferList a) = text;
  ro_files : Z.of_nat (size (files d)) + Z.of_nat (length (m_pPendingBufferList a)) <= n;
  ro_short s : s ∈ m_pPendingBufferList a -> Z.of_nat (length s) < 2 ^ 31;
  ro_new k : k ∈ hist -> files d0 !! k = None;
  ro_other k : k ∉ m_fileName a :: hist -> files d !! k = files d0 !! k;
}.

Lemma log_ok_cache stamp hist a d bytes since pending buffers need last : log_ok stamp hist a d -> log_ok stamp hist (with_cache bytes since pending buffers need last a) d.
Proof. intros [? ? ? ? ? ? ?]. by split. Qed.

Lemma write_run stamp d0 hist text n a d buf lvl async : run_ok stamp d0 hist text n a d -> m_pPendingBufferList a = [] -> n < 2 ^ 31 -> Z.of_nat (length buf) < 2 ^ 31 ->
  exists hist' a' d', write stamp buf lvl async a d = Some (Z.of_nat (length buf), a', d') /\ moved a a' /\ run_ok stamp d0 hist' (text ++ buf) (n + 1) a' d' /\ clock d' = clock d.
Proof.
  intros [Hl Hc Ht Hf Hsh Hn Ho] Hp Hn31 Hlen. rewrite Hp in *. cbn in Ht, Hf. rewrite app_nil_r in Ht.
  destruct (write_spec stamp hist a d buf lvl async Hl) as (h & a' & d' & E & Hm & Hl' & Ht' & Ec & Hs & Hnew & Hother); [lia|done|].
  assert (Ename : m_fileName a' = m_fileName a) by (by destruct Hm as (? & ? & ? & ? & ->)).
  assert (Ep : m_pPendingBufferList a' = []) by (by destruct Hm as (? & ? & ? & ? & ->)).
  exists (hist ++ h), a', d'. split; [done|]. split; [done|]. split; [|done]. split; [done|by apply (moved_cache a)| | |rewrite Ep; by intros ? ?%not_elem_of_nil| |].
  - rewrite Ep, Ht', Ht. cbn. by rewrite app_nil_r.
  - rewrite Ep. cbn. lia.
  - intros k [Hk|Hk]%elem_of_app; [by apply Hn|]. destruct (decide (k ∈ m_fileName a :: hist)) as [Hin|Hin].
    + destruct (lo_there _ _ _ _ Hl k Hin) as [? E']. rewrite (Hnew k Hk) in E'. done.
    + rewrite <- (Ho k Hin). by apply Hnew.
  - rewrite Ename. intros k [Hk Hk']%not_elem_of_cons. rewrite not_elem_of_app in Hk'. destruct Hk' as [Hk1 Hk2]. rewrite Hother; [apply Ho|]; by apply not_elem_of_cons.
Qed.

Lemma write_all_run stamp d0 hist text n l a d : run_ok stamp d0 hist text n a d -> m_pPendingBufferList a = [] -> n + Z.of_nat (length l) < 2 ^ 31 ->
  (forall s, s ∈ l -> Z.of_nat (length s) < 2 ^ 31) ->
  exists hist' a' d', write_all stamp l a d = Some (a', d') /\ moved a a' /\ run_ok stamp d0 hist' (text ++ concat l) (n + Z.of_nat (length l)) a' d' /\ clock d' = clock d.
Proof.
  revert hist text n a d. induction l as [|s l IH]; intros hist text n a d H Hp Hn Hl; cbn [write_all].
  - exists hist, a, d. cbn. rewrite app_nil_r, Z.add_0_r. split_and!; [done| |done|done].
    exists (m_nCurSize a), (m_nPos a), (m_delayTime a), (m_nMaxDelayTime a). pose proof (lo_open _ _ _ _ (ro_log _ _ _ _ _ _ _ H)) as Ho. destruct a; cbn in *. by subst.
  - cbn [length] in Hn. destruct (write_run stamp d0 hist text n a d s LOG_LEVEL_INFO true H Hp) as (h1 & a1 & d1 & E & Hm & H1 & Ec); [lia|apply Hl; by left|].
    rewrite E. cbn [mbind option_bind]. assert (Ep : m_pPendingBufferList a1 = []) by (by destruct Hm as (? & ? & ? & ? & ->)).
    destruct (IH h1 (text ++ s) (n + 1) a1 d1 H1 Ep) as (h2 & a2 & d2 & E2 & Hm2 & H2 & Ec2); [lia|intros; apply Hl; by right|].
    exists h2, a2, d2. split; [done|]. split; [by eapply moved_trans|]. split; [|congruence]. cbn [concat length].
    replace (n + Z.of_nat (S (length l))) with (n + 1 + Z.of_nat (length l)) by lia. by rewrite app_assoc.
Qed.

Lemma append_run stamp d0 hist text n a d s level : run_ok stamp d0 hist text n a d -> n + 1 < 2 ^ 31 -> Z.of_nat (length s) < 2 ^ 31 ->
  exists hist' r signal a' d', append stamp s level a d = Some (r, signal, a', d') /\
    run_ok stamp d0 hist' (text ++ if r =? 0 then [] else s) (n + 1) a' d' /\ m_fileName a' = m_fileName a /\ m_bAsyncFlush a' = m_bAsyncFlush a /\ m_pBufferList a' = m_pBufferList a /\
    (r = 0 -> s = [] \/ MAX_CACHED_BUF_SIZE <= bytes_of (m_pPendingBufferList a)).
Proof.
  intros H Hn Hlen. unfold append. destruct (m_bAsyncFlush a) eqn:Ea; cbn [negb].
  2:{ destruct (write_run stamp d0 hist text n a d s level false H) as (h & a' & d' & E & Hm & H' & _); [by apply (ca_sync a (ro_cache _ _ _ _ _ _ _ H))|lia|done|].
    rewrite E. cbn [mbind option_bind]. eexists h, _, _, a', d'. split; [done|]. split_and!; [|by destruct Hm as (? & ? & ? & ? & ->)|by destruct Hm as (? & ? & ? & ? & ->)|by destruct Hm as (? & ? & ? & ? & ->)|].
    - destruct s; [|exact H']. by rewrite app_nil_r in *.
    - destruct s; [by left|]. cbn. lia. }
  pose proof H as [Hl Hc Ht Hf Hsh Hnew Ho]. assert (Hsame : run_ok stamp d0 hist (text ++ []) (n + 1) a d) by (rewrite app_nil_r; split; try done; lia).
  destruct (Z.ltb_spec 0 (Z.of_nat (length s))) as [Hpos|Hzero].
  2:{ destruct s; [|cbn in Hzero; lia]. eexists hist, _, _, a, d. split; [done|]. split_and!; [done|done|done|done|by left]. }
  destruct (Z.leb_spec MAX_CACHED_BUF_SIZE (m_nAcculatedBytes a)) as [Hfull|Hroom].
  { eexists hist, 0, _, a, d. split; [done|]. split_and!; [done|done|done|done|]. intros _. right. by rewrite <- (ca_bytes a Hc). }
  pose proof Hc as [Hbytes Hbound Hsince Hsig Hsync].
  assert (Ei : i32 (Z.of_nat (length s)) = Z.of_nat (length s)) by (unfold i32, wraps; rewrite Z.mod_small; lia).
  assert (Eb : u32 (m_nAcculatedBytes a + Z.of_nat (length s)) = m_nAcculatedBytes a + Z.of_nat (length s)).
  { unfold u32, wrapu. apply Z.mod_small. unfold MAX_CACHED_BUF_SIZE in *. lia. }
  assert (Es : u32 (m_nAcculatedBytesSinceLastSignal a + Z.of_nat (length s)) = m_nAcculatedBytesSinceLastSignal a + Z.of_nat (length s)).
  { unfold u32, wrapu. apply Z.mod_small. unfold MAX_CACHED_BUF_SIZE in *. lia. }
  rewrite Ei, Eb, Es. set (signal := (_ <=? _) && (_ <=? _)). eexists hist, _, signal, _, d. split; [done|].
  rewrite (proj2 (Z.eqb_neq (Z.of_nat (length s)) 0)) by lia. split_and!; [|done|done|done|lia]. split.
  - by apply log_ok_cache.
  - split; cbn.
    + by rewrite bytes_of_app, Hbytes.
    + rewrite bytes_of_app. rewrite Hbytes in Hroom. lia.
    + destruct signal; lia.
    + intros [Hs0 Hn0]%orb_false_iff. rewrite Hs0. destruct (Hsig Hn0) as [-> _]. split; [done|left]. unfold signal in Hs0.
      destruct (Hsig Hn0) as [E0 _]. rewrite E0 in Hs0. apply andb_false_iff in Hs0 as [?%Z.leb_gt|?%Z.leb_gt]; lia.
    + congruence.
  - cbn. rewrite concat_app. cbn. rewrite app_nil_r, app_assoc. f_equal. exact Ht.
  - cbn. rewrite length_app. cbn. lia.
  - cbn. intros t [?|Et]%elem_of_app; [by apply Hsh|]. apply list_elem_of_singleton in Et as ->. done.
  - done.
  - done.
Qed.

Lemma asyncFlush_run stamp d0 hist text n a d now force : run_ok stamp d0 hist text n a d -> m_pBufferList a = [] -> n < 2 ^ 31 ->
  exists hist' t a' d', asyncFlush stamp now force a d = Some (t, a', d') /\ run_ok stamp d0 hist' text n a' d' /\
    m_fileName a' = m_fileName a /\ m_bAsyncFlush a' = m_bAsyncFlush a /\ m_pBufferList a' = [] /\
    (force = true \/ m_needFlush a = true -> m_pPendingBufferList a' = []).
Proof.
  intros H Hb Hn. unfold asyncFlush. destruct (negb (force || m_needFlush a) && _) eqn:Ew.
  { exists hist. eexists _, a, d. split; [done|]. split_and!; [done|done|done|done|]. apply andb_true_iff in Ew as [Ew%negb_true_iff _]. apply orb_false_iff in Ew as [-> ->]. by intros []. }
  pose proof H as [Hl Hc Ht Hf Hsh Hnew Ho]. pose proof Hc as [Hbytes Hbound Hsince Hsig Hsync]. rewrite Hb. cbn [m_pBufferList with_cache].
  set (l := m_pPendingBufferList a) in *. set (a1 := with_cache 0 0 [] l false (m_nLastFlushTimeInMS a) a).
  assert (H1 : run_ok stamp d0 hist (log_text hist a d) (n - Z.of_nat (length l)) a1 d).
  { split; cbn; try done.
    - by apply log_ok_cache.
    - split; cbn; [done|done|lia|by intros _; split; [|right]|done].
    - by rewrite app_nil_r.
    - lia.
    - by intros ? ?%not_elem_of_nil. }
  destruct (write_all_run stamp d0 hist _ _ l a1 d H1 eq_refl) as (h & a' & d' & E & Hm & H' & Ec); [lia|done|].
  rewrite E. cbn [mbind option_bind]. exists h. eexists _, _, d'. split; [done|].
  assert (Ea : m_fileName a' = m_fileName a /\ m_bAsyncFlush a' = m_bAsyncFlush a /\ m_pPendingBufferList a' = []) by (by destruct Hm as (? & ? & ? & ? & ->)).
  destruct Ea as (Ea1 & Ea2 & Ea3). split_and!; [|done|done|done|by intros _]. rewrite Ht in H'. replace (n - Z.of_nat (length l) + Z.of_nat (length l)) with n in H' by lia.
  destruct H' as [Hl' Hc' Ht' Hf' Hsh' Hnew' Ho']. split; cbn; try done; [by apply log_ok_cache|]. destruct Hc' as [? ? ? ? ?]. by split.
Qed.

(** An open appender that has not cached anything and keeps all its files,
    with names that are not cut off, and a kernel that does not fail. *)
Record ready (stamp : Z -> list Z) (a : FileAppender) (d : Disk) : Prop := {
  rd_log : log_ok stamp [] a d;
  rd_cache : m_pPendingBufferList a = [] /\ m_pBufferList a = [] /\ m_nAcculatedBytes a = 0 /\ m_nAcculatedBytesSinceLastSignal a = 0;
}.

Lemma FileAppender_new_ready stamp fileName d a d' : answers d = [] -> Z.of_nat (length (text_of d fileName)) < 2 ^ 63 -> (forall t, (length fileName + length (stamp t) <= 480)%nat) ->
  FileAppender_new fileName d = (a, d') -> ready stamp a d'.
Proof.
  intros Ha Hlen Hs. unfold FileAppender_new, open. rewrite (answer_calm d Ha). change (fails None) with false. cbn iota zeta. intros [= <- <-]. split; [|done]. split; cbn; try done.
  - apply NoDup_singleton.
  - intros n ->%list_elem_of_singleton. rewrite lookup_insert_eq. by eexists.
  - unfold text_of in *. cbn. rewrite lookup_insert_eq. cbn. unfold u64, wrapu. rewrite Z.mod_small; [done|lia].
Qed.

Lemma run_files_run stamp d0 ops hist text n a d acc : run_ok stamp d0 hist text n a d -> m_pBufferList a = [] -> n + Z.of_nat (length ops) < 2 ^ 31 ->
  (forall s level, FAppend s level ∈ ops -> Z.of_nat (length s) < 2 ^ 31) ->
  exists hist' n' a' d' more, run_files stamp ops a d acc = Some (a', d', acc ++ more) /\ run_ok stamp d0 hist' (text ++ concat more) n' a' d' /\ n' < 2 ^ 31 /\
    m_fileName a' = m_fileName a /\ m_bAsyncFlush a' = m_bAsyncFlush a /\ m_pBufferList a' = [].
Proof.
  revert hist text n a d acc. induction ops as [|o ops IH]; intros hist text n a d acc H Hb Hn Hops; cbn [run_files].
  - exists hist, n, a, d, []. rewrite !app_nil_r. split_and!; try done. cbn in Hn. lia.
  - cbn [length] in Hn. assert (Hops' : forall s level, FAppend s level ∈ ops -> Z.of_nat (length s) < 2 ^ 31) by (intros s level Hin; apply (Hops s level); by right).
    destruct o as [s level|now force|ms].
    + destruct (append_run stamp d0 hist text n a d s level H) as (h & r & signal & a1 & d1 & E & H1 & Ef & Ea & Eb & _); [lia|apply (Hops s level); by left|].
      rewrite E. cbn [mbind option_bind]. destruct (IH h _ (n + 1) a1 d1 (if r =? 0 then acc else acc ++ [s]) H1) as (h' & n' & a' & d' & more & E' & H' & Hn' & Ef' & Ea' & Eb'); [congruence|lia|done|].
      exists h', n', a', d', ((if r =? 0 then [] else [s]) ++ more). split_and!; [|by rewrite concat_app, app_assoc; destruct (r =? 0); cbn in *; rewrite ?app_nil_r in *|done|congruence|congruence|done].
      rewrite E'. destruct (r =? 0); [done|]. by rewrite <- app_assoc.
    + destruct (asyncFlush_run stamp d0 hist text n a d now force H Hb) as (h & t & a1 & d1 & E & H1 & Ef & Ea & Eb & _); [lia|].
      rewrite E. cbn [mbind option_bind]. destruct (IH h _ n a1 d1 acc H1 Eb) as (h' & n' & a' & d' & more & E' & H' & Hn' & Ef' & Ea' & Eb'); [lia|done|].
      exists h', n', a', d', more. split_and!; [done|done|done|congruence|congruence|done].
    + apply (IH hist text n a (tick ms d) acc); [|done|lia|done]. destruct H as [Hl Hc Ht Hf Hsh Hnew Ho]. split; try done. destruct Hl as [? ? ? ? ? ? ?]. by split.
Qed.

(** ** Old files *)

#[export] Instance str_le_total : Total str_le.
Proof.
  intros x y. unfold str_le. destruct (Json.key_trichotomy x y) as [H|[->|H]]; [left; by apply Json.key_lt_asym|left; apply Json.str_lt_irrefl|right; by apply Json.key_lt_asym].
Qed.

#[export] Instance str_le_trans : Transitive str_le.
Proof.
  intros x y z. unfold str_le. intros Hyx Hzy. apply not_true_is_false. intros Hzx. destruct (Json.key_trichotomy x y) as [H|[->|H]].
  - assert (Json.key_lt z y) as H' by (by etrans). unfold Json.key_lt in H'. congruence.
  - congruence.
  - unfold Json.key_lt in H. congruence.
Qed.

Lemma rfind_in_le pat s i j : rfind_in pat s i = Some j -> (i <= j <= i + length s)%nat.
Proof.
  revert i. induction s as [|c s IH]; intros i; cbn [rfind_in].
  - destruct (is_prefix pat []); [|done]. intros [= <-]. cbn. lia.
  - destruct (rfind_in pat s (S i)) as [k|] eqn:E; [intros [= <-]; apply IH in E; cbn; lia|]. destruct (is_prefix pat (c :: s)); [|done]. intros [= <-]. cbn. lia.
Qed.

Lemma dir_prefix_pure fileName : dir_prefix fileName ++ getPureFileName fileName = fileName.
Proof.
  unfold dir_prefix. assert (Hs : exists k, getPureFileName fileName = drop k fileName).
  { unfold getPureFileName. destruct (rfind fileName [DIR_DELIM]) as [p|]; [by exists (p + 1)%nat|by exists 0%nat]. }
  destruct Hs as [k ->]. rewrite length_drop. destruct (decide (k <= length fileName)%nat).
  - replace (length fileName - (length fileName - k))%nat with k by lia. apply take_drop.
  - rewrite drop_ge by lia. rewrite app_nil_r, take_ge by lia. done.
Qed.

Lemma foldr_delete_lookup (prefix : list Z) (l : list (list Z)) (f : gmap (list Z) (list Z)) k :
  foldr (fun e f => delete (prefix ++ e) f) f l !! k = if decide (k ∈ (fun e => prefix ++ e) <$> l) then None else f !! k.
Proof.
  induction l as [|e l IH]; cbn [foldr fmap list_fmap]; [by rewrite decide_False by apply not_elem_of_nil|].
  destruct (decide (k = prefix ++ e)) as [->|Hk]; [rewrite lookup_delete_eq, decide_True; [done|by left]|]. rewrite lookup_delete_ne, IH by done.
  case_decide as H; [rewrite decide_True; [done|by right]|rewrite decide_False; [done|]]. by intros [?|?]%elem_of_cons.
Qed.

(** ** The meaning of a file appender *)


(** A file has less than the greatest size after a write, or it has just that text. *)
Lemma write_keeps_limit stamp hist a d buf lvl async : log_ok stamp hist a d -> Z.of_nat (size (files d)) < 2 ^ 31 ->
  Z.of_nat (length (text_of d (m_fileName a))) + Z.of_nat (length buf) < 2 ^ 64 -> 0 < m_nMaxSize a ->
  exists r a' d', write stamp buf lvl async a d = Some (r, a', d') /\
    (Z.of_nat (length (text_of d' (m_fileName a))) < m_nMaxSize a \/ text_of d' (m_fileName a) = buf).
Proof.
  intros H Hs Hlen Hmax. unfold write. pose proof H as [Hnd Hin Hsize Hopen Hkeep Hcalm Hshort].
  assert (Ecur : m_nCurSize a = Z.of_nat (length (text_of d (m_fileName a)))) by (rewrite Hsize; unfold u64, wrapu; apply Z.mod_small; lia).
  assert (Hwrite : forall d1, text_of (with_files (<[m_fileName a := default [] (files d1 !! m_fileName a) ++ buf]> (files d1)) d1) (m_fileName a) = text_of d1 (m_fileName a) ++ buf).
  { intros d1. unfold text_of. cbn. by rewrite lookup_insert_eq. }
  match goal with |- context [if ?c || ?c' then _ else Some _] => destruct (c || c') eqn:E end.
  - destruct (rotateLog_spec stamp hist a d H Hs) as (n & a1 & d1 & Er & Hn & Hm & Hcur & Ef & Ea & Et). rewrite Er. cbn [mbind option_bind].
    destruct Hm as (cur & pos & dl & mx & ->). cbn [m_file with_file negb]. unfold fwrite. rewrite (answer_calm d1 Ea). cbn [m_fileName with_file with_delay]. rewrite take_ge by done.
    eexists _, _, _. split; [reflexivity|]. right. rewrite Hwrite. unfold text_of. rewrite Ef, lookup_insert_eq. done.
  - cbn [mbind option_bind]. rewrite Hopen. cbn [negb]. unfold fwrite. rewrite (answer_calm d Hcalm), take_ge by done.
    eexists _, _, _. split; [reflexivity|]. left. rewrite Hwrite, length_app. apply orb_false_iff in E as [E _]. rewrite (proj2 (Z.ltb_lt _ _) Hmax) in E. cbn [andb] in E.
    apply Z.leb_gt in E. rewrite Ecur in E. unfold u64, wrapu in E. rewrite Z.mod_small in E by lia. lia.
Qed.

(** [removeHistoryLogFile] removes the first of the regular files of the
    directory whose names start with that of the log file and are longer, in
    the order of their names, so that as many stay as are to be kept; the log
    file and all other files stay. *)
Theorem history_keeps_last a d : 0 <= other_entries d -> 0 <= m_keepFileCount a < 2 ^ 32 -> exists old new,
  sort_names (filter (fun e => is_history a e = true) (scandir a d)) = old ++ new /\ StronglySorted str_le (old ++ new) /\
  (old = [] /\ (length new <= Z.to_nat (m_keepFileCount a))%nat \/ length new = Z.to_nat (m_keepFileCount a)) /\
  (removeHistoryLogFile a d).1 = Z.of_nat (length old) /\
  (forall k, files (removeHistoryLogFile a d).2 !! k = if decide (k ∈ (fun e => dir_prefix (m_fileName a) ++ e) <$> old) then None else files d !! k) /\
  files (removeHistoryLogFile a d).2 !! m_fileName a = files d !! m_fileName a.
Proof.
  intros Hother Hkeep. unfold removeHistoryLogFile. set (hs := sort_names (filter (fun e => is_history a e = true) (scandir a d))).
  assert (Hsorted : StronglySorted str_le hs) by (apply (StronglySorted_merge_sort str_le)).
  assert (Hnone : (length hs <= Z.to_nat (m_keepFileCount a))%nat -> exists old new, hs = old ++ new /\ StronglySorted str_le (old ++ new) /\
    (old = [] /\ (length new <= Z.to_nat (m_keepFileCount a))%nat \/ length new = Z.to_nat (m_keepFileCount a)) /\ 0 = Z.of_nat (length old) /\
    (forall k, files d !! k = if decide (k ∈ (fun e => dir_prefix (m_fileName a) ++ e) <$> old) then None else files d !! k) /\ files d !! m_fileName a = files d !! m_fileName a).
  { intros Hle. exists [], hs. split_and!; [done|done|by left|done| |done]. intros k. rewrite decide_False; [done|]. apply not_elem_of_nil. }
  case_match eqn:E1.
  { apply Hnone. apply Z.leb_le in E1. assert (i32 (m_keepFileCount a) <= m_keepFileCount a) by (unfold i32, wraps; pose proof (Z.mod_le (m_keepFileCount a + 2 ^ (32 - 1)) (2 ^ 32)); lia).
    unfold hs, sort_names. rewrite merge_sort_Permutation. etrans; [apply length_filter|]. lia. }
  case_match eqn:E2; [|apply Hnone; apply Z.ltb_ge in E2; lia].
  apply Z.ltb_lt in E2. set (n := (length hs - Z.to_nat (m_keepFileCount a))%nat). exists (take n hs), (drop n hs). cbn [fst snd].
  assert (Hk : forall k, files (with_files (foldr (fun e f => delete (dir_prefix (m_fileName a) ++ e) f) (files d) (take n hs)) d) !! k =
    if decide (k ∈ (fun e => dir_prefix (m_fileName a) ++ e) <$> take n hs) then None else files d !! k) by (intros k; apply foldr_delete_lookup).
  rewrite take_drop. split_and!; [done|done|right; rewrite length_drop; lia|rewrite length_take; lia|exact Hk|].
  rewrite Hk, decide_False; [done|]. intros (e & He & Hin)%list_elem_of_fmap.
  assert (Hine : e ∈ hs) by (rewrite <- (take_drop n hs); apply elem_of_app; by left). unfold hs, sort_names in Hine. rewrite merge_sort_Permutation in Hine.
  apply list_elem_of_filter in Hine as [Hh _]. unfold is_history in Hh. apply andb_true_iff in Hh as [_ Hh%Nat.ltb_lt].
  rewrite <- (dir_prefix_pure (m_fileName a)) in He at 1. apply app_inv_head in He. rewrite He in Hh. lia.
Qed.

(** ** Examples *)

Definition no_stamp (t : Z) : list Z := lit "20240102030405".

Definition disk0 : Disk := {| files := {[ lit "logs/app.log.wf" := lit "other" ]}; other_entries := 2; clock := 1704164645000; answers := []; compressing := [] |}.

Definition small (async : bool) (a : FileAppender) : FileAppender :=
  setAsyncFlush async (with_settings false 0 10 (m_nCacheLimit a) false async 8 1000 a).

Definition demo_files (async : bool) : option (FileAppender * Disk * list (list Z)) :=
  let '(a, d) := FileAppender_new (lit "logs/app.log") disk0 in
  run_files no_stamp [FAppend (lit "first") 4; FAppend (lit "second") 4; FTick 5; FFlush 0 true; FAppend (lit "third") 4; FAppend (lit "4") 4] (small async a) d [].

(** The contents of the files of the demo. *)
Definition demo_contents (r : option (FileAppender * Disk * list (list Z))) : list (option (list Z)) :=
  match r with
  | Some (_, d, _) => (fun n => files d !! n) <$> [lit "logs/app.log.20240102030405-001"; lit "logs/app.log.20240102030405-002"; lit "logs/app.log"; lit "logs/app.log.wf"]
  | None => []
  end.

(** Each file gets what fits into ten bytes. *)
Example demo_files_sync : demo_contents (demo_files false) = [Some (lit "first"); Some (lit "second"); Some (lit "third4"); Some (lit "other")].
Proof. vm_compute. reflexivity. Qed.

(** The cache is written by the flush. *)
Example demo_files_async : demo_contents (demo_files true) = [Some (lit "first"); None; Some (lit "second"); Some (lit "other")] /\
  (fun '(a, _, _) => (m_pPendingBufferList a, m_needFlush a)) <$> demo_files true = Some ([lit "third"; lit "4"], false).
Proof. split; vm_compute; reflexivity. Qed.

(** With a limit for the cache of pages, a file that could not be opened after a
    rotation is used as a null pointer by the next one. *)
Definition limited : FileAppender * Disk :=
  let '(a, d) := FileAppender_new (lit "logs/app.log") disk0 in
  (setCacheLimit 1 (small false a), {| files := files d; other_entries := 2; clock := clock d; answers := [9; 1; 0]%nat; compressing := [] |}).

Example write_after_failed_rotation :
  match write no_stamp (lit "12345678") 4 false limited.1 limited.2 with
  | Some (n, a, d) =>
      n = 8 /\ match write no_stamp (lit "12345") 4 false a d with
               | Some (n, a, d) => n = 0 /\ m_file a = false /\ write no_stamp (lit "12345") 4 false a d = None
               | None => False
               end
  | None => False
  end.
Proof. vm_compute. by repeat split. Qed.

(** The history of "app.log" takes in the log file "app.log.wf" of another
    appender, and removes it when it comes first. *)
Definition shared_dir : Disk :=
  {| files := {[ lit "logs/app.log" := []; lit "logs/app.log.wf" := lit "other"; lit "logs/app.log2" := lit "third"; lit "logs/app.log.20240102030405-001" := lit "first" ]};
     other_entries := 2; clock := 0; answers := []; compressing := [] |}.

Example history_of_others :
  let a := setHistoryLogKeepCount 1 (FileAppender_new (lit "logs/app.log") shared_dir).1 in
  (removeHistoryLogFile a shared_dir).1 = 2 /\
  files (removeHistoryLogFile a shared_dir).2 = {[ lit "logs/app.log" := []; lit "logs/app.log2" := lit "third" ]}.
Proof. split; vm_compute; reflexivity. Qed.

Lemma demo_ready async : ready no_stamp (small async (FileAppender_new (lit "logs/app.log") disk0).1) (FileAppender_new (lit "logs/app.log") disk0).2.
Proof.
  assert (H : ready no_stamp (FileAppender_new (lit "logs/app.log") disk0).1 (FileAppender_new (lit "logs/app.log") disk0).2).
  { apply (FileAppender_new_ready no_stamp (lit "logs/app.log") disk0); [done|by vm_compute|intros t; vm_compute; lia|done]. }
  destruct H as [[H1 H2 H3 H4 H5 H6 H7] Hc]. split; [by split|exact Hc].
Qed.


Lemma history_keeps_last_witness :
  exists old new, sort_names (filter (fun e => is_history (setHistoryLogKeepCount 1 (FileAppender_new (lit "logs/app.log") shared_dir).1) e = true)
    (scandir (setHistoryLogKeepCount 1 (FileAppender_new (lit "logs/app.log") shared_dir).1) shared_dir)) = old ++ new.
Proof.
  destruct (history_keeps_last (setHistoryLogKeepCount 1 (FileAppender_new (lit "logs/app.log") shared_dir).1) shared_dir) as (old & new & E & _); [done|done|].
  exists old, new. exact E.
Defined.
